(* ===== verification/_CoqProject ===== *)
-Q . S2P
Prelude.v
Slice.v
Hash.v
KeyOrder.v
Treap.v
Hashmap.v
Raft.v
RaftState.v
RaftQuorum.v
RaftLog.v
RaftMember.v
RaftNode.v
RaftWire.v
RaftFindings.v
Wal.v
Recovery.v
Backend.v
Mvcc.v
MvccSnap.v
MvccStore.v
MvccProps.v
MvccWatch.v
MvccLoad.v
Lease.v
LeaseProps.v
LeaseRestart.v
CString.v
Config.v
ConfigProps.v
Auth.v
AuthProps.v
AuthSave.v
Cluster.v
ClusterProps.v
Pb.v
PbProps.v
PbRequests.v
PbResponses.v
PbSafe.v
PbCodec.v
ApplyCodec.v
Snap.v
SnapProps.v
Memory.v
Jwt.v
JwtProps.v
Discovery.v
DiscoveryProps.v
DiscoveryText.v
Alarm.v
Apply.v
ApplyCmd.v
ApplyInv.v
Expiry.v
ApplyProps.v
Kv.v
KvTxn.v
KvCodec.v
KvProps.v
KvTxnProps.v
KvFindings.v
LeaseRpc.v
LeaseRpcProps.v
AuthRpc.v
AuthRpcProps.v
ClusterRpc.v
ClusterRpcProps.v
MaintRpc.v
MaintRpcProps.v
WatchRpc.v
WatchRpcProps.v
Dispatch.v
DispatchProps.v
RpcFindings.v
Server.v
ServerStart.v
ServerFrame.v
ServerProps.v
ServerPut.v
ServerFindings.v
