(* ===== verification/Prelude.v ===== *)
(** * cetcd: a verification development

    cetcd is a key-value store in C that speaks the etcd v3 protocol.  A
    client request is encoded as a command ([src/v3rpc/apply.c]), proposed to
    the raft node ([src/raft/raft.c]), written to the write-ahead log
    ([src/wal]), sent to the peers ([src/peer]) and, once committed, applied to
    the multi-version store ([src/mvcc]), the leases ([src/lease]), the users
    and roles ([src/auth]), the members and the alarms, all of which live in
    one LMDB environment behind [src/backend].  [src/server/server.c] drives
    this: it restores the state at start-up, handles the Ready of the raft
    node and runs the timer.

    ** Files and sources

    Base library ([src/base]):
    - Prelude.v: machine integers, status codes, records, tactics, hints and
      the lemmas on lists and integers that everything uses;
    - Slice.v (slice.c): byte strings, comparison, prefixes, key ranges;
    - Hash.v (hash.c, the CRC of src/wal): FNV-1a, CRC-32C by table and bitwise;
    - KeyOrder.v: the listing of a finite map in key order;
    - Treap.v (treap.c): the ordered index and the interface [KeyIndex];
    - Hashmap.v (hashmap.c): the open-addressing table;
    - CString.v: the C string functions the sources call;
    - Memory.v (buf.c, arena.c, slab.c): buffers and allocators.

    Consensus and log:
    - Raft.v (src/raft/raft.c): the node, one definition per C function;
      RaftState.v, RaftQuorum.v, RaftLog.v, RaftMember.v: terms and votes,
      quorums and commit rule, log, membership; RaftNode.v: runs of all
      operations; RaftWire.v: the message codec; RaftFindings.v: runs of three
      nodes in which a guarantee of the protocol fails;
    - Wal.v (src/wal): frames, checksums, records, segment release;
    - Recovery.v (server.c): persisting a Ready, replay after a restart.

    Storage and the replicated state:
    - Backend.v (src/backend/backend.c): the wrapper over LMDB.  LMDB is the
      class [Lmdb] with its documented behaviour as [LmdbLaws]; the rest of the
      development uses the interface [Backend]/[BackendLaws], which the wrapper
      implements; [never_fails] is a backend without faults, for the theorems
      that say what happens then.  An in-memory LMDB instance runs the witnesses;
    - Mvcc.v (src/mvcc/mvcc.c) with MvccSnap.v (reference semantics of reads),
      MvccStore.v (invariant and case lemmas of the writes), MvccProps.v,
      MvccWatch.v (watchers), MvccLoad.v (persistence);
    - Lease.v (src/lease/lease.c), LeaseProps.v, LeaseRestart.v;
    - Auth.v (src/auth/auth.c), AuthProps.v, AuthSave.v; SHA-256, crypt_r and
      the random source are parameters; Jwt.v, JwtProps.v: signed tokens, with
      OpenSSL as a parameter;
    - Cluster.v (src/peer/peer.c), ClusterProps.v;
    - Snap.v (src/snap/snap.c), SnapProps.v;
    - ApplyCodec.v, Apply.v (src/v3rpc/apply.c), Alarm.v (maint_handler.c):
      the commands and their execution on [world], the record of all
      components over one environment; ApplyCmd.v, ApplyInv.v, Expiry.v,
      ApplyProps.v.

    Requests:
    - Pb.v: reading and writing protobuf messages the way all parsers and
      encoders of src/server/auto_compact.c and src/v3rpc do, with positions
      that wrap and buffers with a capacity; PbProps.v: the meaning of a
      message as a list of fields; PbSafe.v: termination and memory safety on
      any bytes and the claims on the parsers; PbRequests.v, PbResponses.v
      (auto_compact.c): every encoder and parser of the requests and responses;
      PbCodec.v: the round trips;
    - Kv.v, KvTxn.v (src/v3rpc/kv_handler.c, linearizable.c, the permission
      check of v3rpc.c): the handlers of Put, Range, RangeStream, DeleteRange,
      Compact and Txn on [world], from the bytes of a request to those of the
      response; KvCodec.v: the bytes of the responses; KvProps.v,
      KvTxnProps.v: what the handlers do; KvFindings.v: concrete runs;
    - LeaseRpc.v (lease_handler.c), AuthRpc.v (auth_handler.c), ClusterRpc.v
      (cluster_handler.c and the limits set in v3rpc.c), MaintRpc.v
      (maint_handler.c, downgrade.c), WatchRpc.v (watch_handler.c): the other
      handlers, each with its Props file;
    - Dispatch.v (v3rpc.c): the table of paths, the gate of tokens and
      administrators in front of the handlers; DispatchProps.v; RpcFindings.v:
      concrete runs of these handlers.

    Addresses and discovery:
    - Discovery.v (src/base/discovery.c, src/peer/cluster_spec.c): names of
      services, DNS answers, their order, endpoints, hosts and ports, the
      initial cluster; DiscoveryProps.v, DiscoveryText.v.

    Server:
    - Config.v (src/server/auto_compact.c, corrupt_check.c), ConfigProps.v;
    - Server.v, ServerStart.v (src/server/server.c); ServerFrame.v,
      ServerProps.v, ServerPut.v, ServerFindings.v.

    ** What the theorems show

    - Raft: leaders and commits are backed by (joint) majorities, the hard
      state is monotone, the log invariant holds along every run, accepted
      appends have exactly the stated effect, messages round trip on the wire.
      RaftFindings.v shows which parts of the protocol the code does not
      implement; for these no positive theorem is possible.
    - Log and recovery: a log cut at any byte yields the records completely
      written, and replay equals applying them directly.
    - Store: every run keeps the invariant; reads at a revision are reads of
      the keyspace the writes up to it leave, for the keys compaction has not
      dropped; watchers get every event once;
      the backend mirrors the store whatever calls fail, and loading it
      restores the store.  Index and hash table refine finite maps.
    - Leases, users, members: refinement of finite maps on every branch,
      restart, expiry (with the leases and keys gone when no write can fail).
    - Commands: encoding and applying a batch runs its commands in order; the
      invariants of the components hold along every run, and keys and leases
      agree along every run whose revocations go through; any bytes are applied
      without undefined behaviour, one branch excepted.
    - Requests: parsing the bytes of fields yields the message that the field
      numbers of the protocol say; every request encoder and its parser are
      inverse; a truncated request is an error; the parsers end and stay inside
      the message unless a length wraps.  An answered put is what the next range
      request returns, byte for byte; a range returns the matching rows sorted,
      cut and counted; a transaction is refused unless permitted, chooses the
      branch by what its comparisons say of the rows, and leaves the keyspace its
      operations make of it when none can fail; lease, user, role and member
      requests run the command of the component or are refused without effect,
      with the exact answer; with authentication enabled the dispatch refuses
      requests without a live token, without the administrator role where a path
      needs it, and puts, deletions, reads and watches whose first key the user
      has no right to.  A watcher is sent exactly the events of its range, each
      once and in order, in responses within the limit; a backup taken over the
      wire is a snapshot file that restores the keys below the byte 255; alarms
      show in the status.  The theorems on handlers that propose are on a server
      without raft, where a proposal runs at once (the refusals of member
      requests and the status hold with raft too); ServerPut.v has the path
      through raft and the log.
    - Discovery: a lookup ends for any answer of the name server that fits its
      buffer, stays inside the message and sorts the records; written addresses
      are read back.
    - Signed tokens: an issued token stands for its user until it expires, and
      what is accepted is signed.  Memory: what the allocators hand out never
      overlaps, whatever requests to the system fail.
    - Server: a Ready is written to the log and synced before anything is sent or
      applied (the log keeps apart what is written and what is on disk);
      committed entries are applied once each in order; a put to a single node
      is logged, synced, executed and acknowledged.
    - Defects are theorems on concrete runs, in the files named Findings or at
      the end of the file of the component.

    ** Conventions

    Integers are [Z] with the wrap-around of unsigned arithmetic written out.
    Byte strings are lists of [Z]; [None] of an operation that is a C function
    returning a value stands for its failure or for undefined behaviour, as
    the file says.  Outside Memory.v allocation is taken to succeed; freeing is
    left out.  Every backend call may fail, in any order: the theorems quantify
    over the failures through the laws of the backend.

    Loops that are not structural run on fuel: treap deletion (the size of the
    tree), hash probing (the capacity), the lease expiry loop (the number of
    leases), readers of byte strings (their length); each file proves that the
    fuel suffices.  The parsers of requests run on the length of the message;
    when a length makes the position wrap they do not end (the result [Loop]),
    and PbSafe.v shows that this is the only case.  The frames of a watcher run
    on the number of events.  The runs of raft stay within 2^31 peers and log
    indexes below 2^32 - 1, the limits of the C counters; RaftNode.v states
    them.

    ** Not modelled

    Sockets, event loop and coroutines (src/io), TLS, HTTP/2 framing through
    nghttp2, generated protobuf code, logging and metrics output,
    file-system calls beyond their outcome, the query of the resolver (a
    parameter), what a stream writer does with the bytes it is given, and the
    command-line programs. *)

From Stdlib Require Export ZArith Lia.
From stdpp Require Export base list gmap sorting.

#[global] Open Scope Z_scope.
#[global] Set Default Goal Selector "!".

(** ** Machine integers

    Every C integer is a [Z] kept inside its range; the wrap-around of an
    unsigned operation is written out with these functions. *)

Definition u8 (z : Z) : Z := z mod 256.
Definition u32 (z : Z) : Z := z mod 4294967296.
Definition u64 (z : Z) : Z := z mod 18446744073709551616.

(** Conversion of a [uint64_t] to [int64_t] (two's complement). *)
Definition i64 (z : Z) : Z :=
  let w := u64 z in
  if w <? 9223372036854775808 then w else w - 18446744073709551616.

Definition in_u8 (z : Z) : Prop := 0 <= z < 256.
Definition in_u32 (z : Z) : Prop := 0 <= z < 4294967296.
Definition in_u64 (z : Z) : Prop := 0 <= z < 18446744073709551616.
Definition in_i64 (z : Z) : Prop :=
  -9223372036854775808 <= z < 9223372036854775808.

(** A byte string: the bytes a C pointer and a length denote. *)
Abbreviation bytes := (list Z).

Definition bytes_ok (b : bytes) : Prop := Forall in_u8 b.

(** Length of a list as a C [size_t]. *)
Definition blen {A} (l : list A) : Z := Z.of_nat (length l).

(** ** Status codes (include/cetcd/base.h) *)

Inductive cetcd_status : Type :=
| CETCD_OK
| CETCD_ERR_NOMEM
| CETCD_ERR_INVAL
| CETCD_ERR_RANGE
| CETCD_ERR_NOTFOUND
| CETCD_ERR_EXISTS
| CETCD_ERR_IO
| CETCD_ERR_CORRUPT
| CETCD_ERR_INTERNAL
| CETCD_ERR_OVERFLOW
| CETCD_ERR_CANCELED
| CETCD_ERR_TIMEDOUT
| CETCD_ERR_UNSUPPORT.

#[export] Instance cetcd_status_eq_dec : EqDecision cetcd_status.
Proof. solve_decision. Defined.

Definition is_ok (s : cetcd_status) : bool :=
  match s with CETCD_OK => true | _ => false end.

(** ** Functional record update

    [r <| f := v |>] is the record [r] with field [f] replaced.  A record
    type declares its eta expansion once as a [RecordEta] instance; the
    setter of a field is then found by abstracting the field out of it. *)

Class RecordEta (R : Type) : Type := record_eta : R -> R.

Class FieldSetter {R T : Type} (proj : R -> T) : Type :=
  field_set : (T -> T) -> R -> R.

Ltac derive_setter :=
  match goal with
  | |- @FieldSetter ?R ?T ?proj =>
      let e := eval hnf in (@record_eta R _) in
      lazymatch (eval pattern proj in e) with
      | ?body _ =>
          let s := constr:(fun (g : T -> T) (r : R) => body (fun x => g (proj x)) r) in
          let s := eval cbv beta in s in
          exact s
      end
  end.

#[export] Hint Extern 0 (FieldSetter _) => derive_setter : typeclass_instances.

Declare Scope record_scope.
Delimit Scope record_scope with record.
#[global] Open Scope record_scope.

Notation "r <| f := v |>" := (@field_set _ _ f _ (fun _ => v) r)
  (at level 1, left associativity, f constr at level 1, v at level 99)
  : record_scope.

(** ** Hint databases and tactics

    [cetcd] holds the lemmas shared by the components: the rewrite database
    for equations, the resolution database for the rest. *)

Create HintDb cetcd.
Create Rewrite HintDb cetcd.

(** Case analysis on the conditions a C guard leaves in the goal or in a
    hypothesis, turning the boolean test into the proposition it decides. *)
Ltac split_guard b :=
  lazymatch b with
  | negb ?c => split_guard c
  | andb ?x ?y => split_guard x
  | orb ?x ?y => split_guard x
  | Z.eqb ?x ?y => destruct (Z.eqb_spec x y)
  | Z.ltb ?x ?y => destruct (Z.ltb_spec x y)
  | Z.leb ?x ?y => destruct (Z.leb_spec x y)
  | bool_decide ?P => destruct (bool_decide_reflect P)
  | ?c => destruct c eqn:?
  end.

Ltac guard_step :=
  match goal with
  | |- context [if ?b then _ else _] => split_guard b
  | H : context [if ?b then _ else _] |- _ => split_guard b
  end.

Ltac guards := repeat (guard_step; cbn [negb andb orb] in * ).

(** Case analysis on the scrutinee of a [match] of the goal. *)
Ltac match_step :=
  match goal with
  | |- context [match ?x with _ => _ end] => destruct x eqn:?
  end.


(** ** Integers *)

Lemma u8_small z : in_u8 z -> u8 z = z.
Proof. apply Z.mod_small. Qed.

Lemma u32_small z : in_u32 z -> u32 z = z.
Proof. apply Z.mod_small. Qed.

Lemma u64_small z : in_u64 z -> u64 z = z.
Proof. apply Z.mod_small. Qed.

Lemma u8_range z : in_u8 (u8 z).
Proof. apply Z.mod_pos_bound. lia. Qed.

Lemma u32_range z : in_u32 (u32 z).
Proof. apply Z.mod_pos_bound. lia. Qed.

Lemma u64_range z : in_u64 (u64 z).
Proof. apply Z.mod_pos_bound. lia. Qed.

Lemma u64_of_i64 z : in_i64 z -> i64 (u64 z) = z.
Proof.
  unfold in_i64, i64, u64. intros Hz. rewrite Z.mod_mod by lia.
  destruct (Z.ltb_spec (z mod 18446744073709551616) 9223372036854775808);
    destruct (Z.lt_ge_cases z 0).
  - rewrite <- (Z.mod_unique z 18446744073709551616 (-1) (z + 18446744073709551616)) in H; lia.
  - rewrite Z.mod_small; lia.
  - rewrite <- (Z.mod_unique z 18446744073709551616 (-1) (z + 18446744073709551616)); lia.
  - rewrite Z.mod_small in *; lia.
Qed.

#[export] Hint Resolve u8_range u32_range u64_range : cetcd.

Lemma blen_nonneg {A} (l : list A) : 0 <= blen l.
Proof. unfold blen. lia. Qed.

Lemma blen_app {A} (l k : list A) : blen (l ++ k) = blen l + blen k.
Proof. unfold blen. rewrite length_app. lia. Qed.

Lemma blen_cons {A} (x : A) l : blen (x :: l) = 1 + blen l.
Proof. unfold blen. simpl. lia. Qed.

Lemma blen_nonempty {A} (l : list A) : l <> [] -> blen l =? 0 = false.
Proof. intros Hne. apply Z.eqb_neq. destruct l; [done|]. rewrite blen_cons. pose proof (blen_nonneg l). lia. Qed.

#[export] Hint Rewrite @blen_app @blen_cons : cetcd.
#[export] Hint Resolve blen_nonneg : cetcd.

(** ** Bits *)

(** Bitwise extensionality on non-negative positions: rewrites every bit
    operation into its specification and leaves a boolean goal. *)
Ltac bitwise n Hn :=
  apply Z.bits_inj'; intros n Hn;
  repeat first
    [ rewrite Z.lxor_spec | rewrite Z.land_spec | rewrite Z.lor_spec
    | rewrite Z.shiftr_spec by lia | rewrite Z.shiftl_spec by lia
    | rewrite Z.testbit_0_l ].

Lemma testbit_above z n m : 0 <= z < 2 ^ n -> n <= m -> Z.testbit z m = false.
Proof.
  intros Hz Hm. destruct (Z.eq_dec z 0) as [->|]; [apply Z.testbit_0_l|].
  apply Z.bits_above_log2; [lia|]. assert (0 <= n) by (destruct (Z.neg_nonneg_cases n); [rewrite Z.pow_neg_r in Hz by lia; lia|lia]).
  apply Z.log2_lt_pow2; [lia|]. pose proof (Z.pow_le_mono_r 2 n m). lia.
Qed.

Lemma lxor_range a b n : 0 <= n -> 0 <= a < 2 ^ n -> 0 <= b < 2 ^ n -> 0 <= Z.lxor a b < 2 ^ n.
Proof.
  intros Hn Ha Hb. assert (0 <= Z.lxor a b) by (apply Z.lxor_nonneg; lia).
  split; [done|]. destruct (Z.eq_dec (Z.lxor a b) 0) as [->|]; [lia|].
  apply Z.log2_lt_pow2; [lia|].
  assert (Hc : forall c, 0 <= c < 2 ^ n -> c = 0 \/ Z.log2 c < n).
  { intros c Hc. destruct (Z.eq_dec c 0); [by left|right]. apply Z.log2_lt_pow2; lia. }
  pose proof (Z.log2_lxor a b ltac:(lia) ltac:(lia)) as Hl.
  destruct (Z.eq_dec n 0) as [->|]; [simpl in *; assert (a = 0) by lia; assert (b = 0) by lia; subst; done|].
  destruct (Hc a Ha) as [->|], (Hc b Hb) as [->|]; simpl in *; rewrite ?Z.lxor_0_r, ?Z.lxor_0_l in *; lia.
Qed.

Lemma shiftr_range a n k : 0 <= k -> 0 <= a < 2 ^ n -> 0 <= Z.shiftr a k < 2 ^ n.
Proof.
  intros Hk Ha. rewrite Z.shiftr_div_pow2 by done. split; [apply Z.div_pos; lia|].
  apply Z.le_lt_trans with a; [|lia]. apply Z.div_le_upper_bound; [lia|].
  pose proof (Z.pow_pos_nonneg 2 k). nia.
Qed.

(** Or-ing into bits that are still clear is addition. *)
Lemma lor_shiftl_add a x n : 0 <= n -> 0 <= a < 2 ^ n -> Z.lor a (Z.shiftl x n) = a + x * 2 ^ n.
Proof.
  intros Hn Ha. rewrite <- Z.shiftl_mul_pow2 by done.
  assert (Hd : Z.land a (Z.shiftl x n) = 0).
  { bitwise k Hk. destruct (Z.lt_ge_cases k n).
    - rewrite (Z.testbit_neg_r x (k - n)) by lia. by rewrite andb_false_r.
    - by rewrite (testbit_above a n k). }
  rewrite Z.add_nocarry_lxor by done. by rewrite Z.lxor_lor.
Qed.

(** The low seven bits and the continuation bit of a varint byte. *)
Lemma land_127 v : Z.land v 127 = v mod 128.
Proof. change 127 with (Z.ones 7). by rewrite Z.land_ones. Qed.

Lemma varint_more m : 0 <= m < 128 ->
  Z.lor m 128 = m + 128 /\ Z.land (m + 128) 127 = m /\ Z.land (m + 128) 128 <> 0.
Proof.
  intros Hm. split_and!.
  - change 128 with (Z.shiftl 1 7) at 1. rewrite lor_shiftl_add by (simpl; lia). simpl. lia.
  - rewrite land_127. rewrite <- (Z.mod_unique (m + 128) 128 1 m); lia.
  - intros H. apply (f_equal (fun z => Z.testbit z 7)) in H.
    rewrite Z.land_spec, Z.testbit_0_l in H. change (Z.testbit 128 7) with true in H.
    rewrite andb_true_r, Z.testbit_eqb, Z.eqb_neq in H by lia. apply H.
    change (2 ^ 7) with 128. assert ((m + 128) / 128 = 1) as -> by (symmetry; apply Z.div_unique with m; lia).
    reflexivity.
Qed.

Lemma varint_last m : 0 <= m < 128 -> Z.land m 127 = m /\ Z.land m 128 = 0.
Proof.
  intros Hm. split; [rewrite land_127; apply Z.mod_small; lia|]. bitwise k Hk.
  destruct (decide (k = 7)) as [->|]; [by rewrite (testbit_above m 7 7)|].
  change 128 with (2 ^ 7). rewrite Z.pow2_bits_false by lia. by rewrite andb_false_r.
Qed.

(** ** Little-endian byte strings

    The loops [buf[i] = (v >> (8 * i)) & 0xFF] and
    [v |= (uint64_t)buf[i] << (8 * i)]. *)

Definition le_put (n : nat) (v : Z) : bytes :=
  map (fun i => Z.land (Z.shiftr v (8 * Z.of_nat i)) 255) (seq 0 n).

Definition le_get (buf : bytes) : Z :=
  foldl (fun v '(i, b) => Z.lor v (Z.shiftl b (8 * Z.of_nat i))) 0 (imap pair buf).

Lemma le_put_length n v : length (le_put n v) = n.
Proof. unfold le_put. by rewrite length_map, length_seq. Qed.

Lemma le_get_snoc buf b : le_get (buf ++ [b]) = Z.lor (le_get buf) (Z.shiftl b (8 * blen buf)).
Proof. unfold le_get. rewrite imap_app, foldl_app. cbn. by rewrite Nat.add_0_r. Qed.

Lemma le_get_put_mod n v : le_get (le_put n v) = v mod 2 ^ (8 * Z.of_nat n).
Proof.
  induction n as [|n IH]; [cbn; by rewrite Z.mod_1_r|].
  assert (le_put (S n) v = le_put n v ++ [Z.land (Z.shiftr v (8 * Z.of_nat n)) 255]) as ->
    by (unfold le_put; by rewrite seq_S, map_app).
  rewrite le_get_snoc, IH. unfold blen. rewrite le_put_length.
  pose proof (Z.pow_pos_nonneg 2 (8 * Z.of_nat n) ltac:(lia) ltac:(lia)).
  rewrite lor_shiftl_add by (try apply Z.mod_pos_bound; lia).
  change 255 with (Z.ones 8). rewrite Z.land_ones, Z.shiftr_div_pow2 by lia. change (2 ^ 8) with 256.
  rewrite Nat2Z.inj_succ, Z.mul_succ_r, Z.pow_add_r by lia. change (2 ^ 8) with 256.
  rewrite Z.rem_mul_r by lia. lia.
Qed.

Lemma le_get_put n v : 0 <= v < 2 ^ (8 * Z.of_nat n) -> le_get (le_put n v) = v.
Proof. intros Hv. rewrite le_get_put_mod. by apply Z.mod_small. Qed.

Lemma le_put_bytes n v : bytes_ok (le_put n v).
Proof.
  unfold le_put, bytes_ok. apply Forall_map, Forall_forall. intros i _. cbn. change 255 with (Z.ones 8).
  rewrite Z.land_ones by lia. apply Z.mod_pos_bound. lia.
Qed.

(** ** Iteration with a callback that may stop

    The shape of every C iterator with a [bool] callback. *)

Fixpoint fold_stop {A St : Type} (fn : A -> St -> St * bool) (l : list A) (st : St)
  : St * bool :=
  match l with
  | [] => (st, true)
  | x :: l' =>
      let '(st, go) := fn x st in
      if negb go then (st, false) else fold_stop fn l' st
  end.

Lemma fold_stop_app {A St} (fn : A -> St -> St * bool) l k st :
  fold_stop fn (l ++ k) st =
  let '(st', go) := fold_stop fn l st in
  if negb go then (st', false) else fold_stop fn k st'.
Proof.
  revert st; induction l as [|x l IH]; intros st; simpl; [done|].
  destruct (fn x st) as [st' []]; simpl; [apply IH|done].
Qed.

(** A callback that never stops is a left fold. *)
Lemma fold_stop_total {A St} (f : A -> St -> St) l st :
  fold_stop (fun x st => (f x st, true)) l st = (foldl (fun st x => f x st) st l, true).
Proof. revert st; induction l as [|x l IH]; intros st; simpl; [done|]. apply IH. Qed.

(** ** Lists *)

Lemma take_blen {A} (d k : list A) : take (Z.to_nat (blen d)) (d ++ k) = d.
Proof. unfold blen. by rewrite Nat2Z.id, take_app_length. Qed.
Lemma drop_blen {A} (d k : list A) : drop (Z.to_nat (blen d)) (d ++ k) = k.
Proof. unfold blen. by rewrite Nat2Z.id, drop_app_length. Qed.

Lemma StronglySorted_app_iff {A} (R : A -> A -> Prop) l k :
  StronglySorted R (l ++ k) <->
  StronglySorted R l /\ StronglySorted R k /\ (forall x y, x ∈ l -> y ∈ k -> R x y).
Proof.
  induction l as [|a l IH]; simpl.
  - split; [intros; split_and!; [constructor|done|set_solver] | tauto].
  - split.
    + intros H. apply StronglySorted_inv in H as [H1 H2]. apply IH in H1 as (Hl & Hk & Hx).
      apply Forall_app in H2 as [F1 F2]. rewrite Forall_forall in F2.
      split_and!; [by constructor|done|]. intros x y. rewrite elem_of_cons. naive_solver.
    + intros (H1 & Hk & Hx). apply StronglySorted_inv in H1 as [Hl F]. constructor.
      * apply IH. split_and!; [done|done|]. intros; apply Hx; [by right|done].
      * apply Forall_app. split; [done|]. apply Forall_forall. intros; apply Hx; [by left|done].
Qed.

Lemma StronglySorted_NoDup {A} (R : A -> A -> Prop) `{!Irreflexive R} l :
  StronglySorted R l -> NoDup l.
Proof.
  induction 1 as [|x l Hs IH Hf]; constructor; [|done].
  intros Hx. rewrite Forall_forall in Hf. by apply Hf, irreflexivity in Hx.
Qed.

Lemma sorted_snoc {A} (R : A -> A -> Prop) l x : StronglySorted R l -> Forall (fun y => R y x) l -> StronglySorted R (l ++ [x]).
Proof.
  induction 1 as [|y l Hs IH Hf]; intros Hx; cbn [app]; [repeat constructor|]. apply Forall_cons in Hx as [Hy Hx].
  constructor; [by apply IH|]. apply Forall_app. split; [done|by constructor].
Qed.

Lemma sorted_reverse {A} (R : A -> A -> Prop) l : StronglySorted (fun a b => R b a) l -> StronglySorted R (reverse l).
Proof.
  induction 1 as [|x l Hs IH Hf]; [constructor|]. rewrite reverse_cons. apply sorted_snoc; [done|]. by rewrite Forall_reverse.
Qed.
