(* ===== verification/Slice.v ===== *)
(** * Byte slices (src/base/slice.c, include/cetcd/slice.h)

    A [cetcd_slice] is the byte string its pointer and length denote.
    [memcmp] is the C library function; only the sign of its result is
    specified, and the model returns the sign.  The reference order is the
    lexicographic order [lex] of byte strings. *)

From S2P Require Import Prelude.

(** ** Operations *)

(** [memcmp(a, b, n)] for buffers of at least [n] bytes. *)
Fixpoint memcmp (n : nat) (a b : bytes) : Z :=
  match n, a, b with
  | S n', x :: a', y :: b' =>
      if x <? y then -1 else if y <? x then 1 else memcmp n' a' b'
  | _, _, _ => 0
  end.

Definition cetcd_slice_equal (a b : bytes) : bool :=
  if negb (blen a =? blen b) then false
  else if blen a =? 0 then true
  else memcmp (length a) a b =? 0.

Definition cetcd_slice_compare (a b : bytes) : Z :=
  let min_len := if blen a <? blen b then blen a else blen b in
  let r := if 0 <? min_len then memcmp (Z.to_nat min_len) a b else 0 in
  if negb (r =? 0) then r
  else if blen a <? blen b then -1
  else if blen b <? blen a then 1
  else 0.

Definition cetcd_slice_has_prefix (s prefix : bytes) : bool :=
  if blen s <? blen prefix then false
  else if blen prefix =? 0 then true
  else memcmp (length prefix) s prefix =? 0.

Definition cetcd_slice_has_suffix (s suffix : bytes) : bool :=
  if blen s <? blen suffix then false
  else if blen suffix =? 0 then true
  else memcmp (length suffix) (drop (length s - length suffix) s) suffix =? 0.

(** The bytes written to [dst]. *)
Definition cetcd_slice_copy (dst_cap : Z) (src : bytes) : bytes :=
  let n := if blen src <? dst_cap then blen src else dst_cap in
  take (Z.to_nat n) src.

(** The loop of [cetcd_key_prefix_end]: [i] counts down from [key.len]. *)
Fixpoint prefix_end_loop (i : nat) (out : bytes) : bytes :=
  match i with
  | O => [0]
  | S idx =>
      if out !!! idx <? 255
      then take (S idx) (<[idx := u8 (out !!! idx + 1)]> out)
      else prefix_end_loop idx out
  end.

(** The bytes written to [out]; the C function returns their number, 0 when
    the buffer is too small. *)
Definition cetcd_key_prefix_end (out_cap : Z) (key : bytes) : bytes :=
  if out_cap =? 0 then []
  else if blen key =? 0 then [0]
  else if out_cap <? blen key then []
  else prefix_end_loop (length key) key.

(** ** The lexicographic order of byte strings *)

Fixpoint lex (a b : bytes) : comparison :=
  match a, b with
  | [], [] => Eq
  | [], _ :: _ => Lt
  | _ :: _, [] => Gt
  | x :: a', y :: b' =>
      match x ?= y with Eq => lex a' b' | c => c end
  end.

Definition cmp_sign (c : comparison) : Z :=
  match c with Lt => -1 | Eq => 0 | Gt => 1 end.

Definition lex_lt (a b : bytes) : Prop := lex a b = Lt.

Lemma lex_refl a : lex a a = Eq.
Proof. induction a as [|x a IH]; simpl; [done|]. by rewrite Z.compare_refl. Qed.

Lemma lex_eq a b : lex a b = Eq <-> a = b.
Proof.
  split; [|intros ->; apply lex_refl].
  revert b; induction a as [|x a IH]; intros [|y b]; simpl; try done.
  destruct (Z.compare_spec x y); try done. intros ?; f_equal; auto.
Qed.

Lemma lex_antisym a b : lex b a = CompOpp (lex a b).
Proof.
  revert b; induction a as [|x a IH]; intros [|y b]; simpl; try done.
  rewrite (Z.compare_antisym x y). destruct (x ?= y); simpl; auto.
Qed.

Lemma lex_gt_lt a b : lex a b = Gt <-> lex b a = Lt.
Proof. rewrite (lex_antisym a b). by destruct (lex a b). Qed.

Lemma lex_trans a b c : lex a b = Lt -> lex b c = Lt -> lex a c = Lt.
Proof.
  revert b c; induction a as [|x a IH]; intros [|y b] [|z c]; simpl; try done.
  destruct (Z.compare_spec x y), (Z.compare_spec y z); try done; subst.
  - rewrite Z.compare_refl. eauto.
  - by rewrite (proj2 (Z.compare_lt_iff _ _)) by lia.
  - by rewrite (proj2 (Z.compare_lt_iff _ _)) by lia.
  - by rewrite (proj2 (Z.compare_lt_iff _ _)) by lia.
Qed.

Lemma lex_lt_irrefl a : lex a a <> Lt.
Proof. by rewrite lex_refl. Qed.

#[export] Instance lex_lt_strict : StrictOrder lex_lt.
Proof.
  split; [intros a; apply lex_lt_irrefl | intros a b c; apply lex_trans].
Qed.

Lemma lex_app_common p a b : lex (p ++ a) (p ++ b) = lex a b.
Proof. induction p as [|x p IH]; simpl; [done|]. by rewrite Z.compare_refl. Qed.

#[export] Hint Rewrite lex_refl lex_app_common : cetcd.

(** ** The C comparison is the lexicographic order *)

Lemma memcmp_lex a b n :
  (n <= length a)%nat -> (n <= length b)%nat ->
  memcmp n a b = cmp_sign (lex (take n a) (take n b)).
Proof.
  revert a b; induction n as [|n IH]; intros a b Ha Hb; [done|].
  destruct a as [|x a], b as [|y b]; simpl in *; try lia.
  destruct (Z.compare_spec x y); simpl.
  - subst. rewrite Z.ltb_irrefl. apply IH; lia.
  - by rewrite (proj2 (Z.ltb_lt _ _)) by lia.
  - rewrite (proj2 (Z.ltb_ge _ _)) by lia. by rewrite (proj2 (Z.ltb_lt _ _)) by lia.
Qed.

Lemma lex_take a b :
  let n := Nat.min (length a) (length b) in
  lex a b = match lex (take n a) (take n b) with
            | Eq => (blen a ?= blen b)
            | c => c
            end.
Proof.
  unfold blen.
  revert b; induction a as [|x a IH]; intros [|y b]; cbn -[Z.of_nat Z.compare]; try done.
  destruct (x ?= y); try done. rewrite IH. destruct (lex _ _); try done.
  destruct (Z.compare_spec (Z.of_nat (length a)) (Z.of_nat (length b)));
    symmetry; [apply Z.compare_eq_iff|apply Z.compare_lt_iff|apply Z.compare_gt_iff]; lia.
Qed.

Lemma slice_compare_lex a b : cetcd_slice_compare a b = cmp_sign (lex a b).
Proof.
  unfold cetcd_slice_compare.
  assert (Hm : (if blen a <? blen b then blen a else blen b)
               = Z.of_nat (Nat.min (length a) (length b))).
  { unfold blen. destruct (Z.ltb_spec (Z.of_nat (length a)) (Z.of_nat (length b))); lia. }
  rewrite Hm, Nat2Z.id. rewrite lex_take.
  set (n := Nat.min (length a) (length b)).
  assert (Hr : (if 0 <? Z.of_nat n then memcmp n a b else 0)
               = cmp_sign (lex (take n a) (take n b))).
  { destruct (Z.ltb_spec 0 (Z.of_nat n)).
    - apply memcmp_lex; lia.
    - assert (n = 0%nat) as -> by lia. done. }
  rewrite Hr. destruct (lex (take n a) (take n b)); simpl; try done.
  destruct (Z.compare_spec (blen a) (blen b)); simpl.
  - by rewrite !(proj2 (Z.ltb_ge _ _)) by lia.
  - by rewrite (proj2 (Z.ltb_lt _ _)) by lia.
  - by rewrite (proj2 (Z.ltb_ge _ _)), (proj2 (Z.ltb_lt _ _)) by lia.
Qed.

Lemma slice_compare_eq0 a b : cetcd_slice_compare a b = 0 <-> a = b.
Proof. rewrite slice_compare_lex, <- lex_eq. by destruct (lex a b). Qed.

Lemma slice_compare_lt0 a b : cetcd_slice_compare a b < 0 <-> lex a b = Lt.
Proof. rewrite slice_compare_lex. destruct (lex a b); simpl; split; (lia || done). Qed.

Lemma slice_compare_gt0 a b : cetcd_slice_compare a b > 0 <-> lex b a = Lt.
Proof.
  rewrite slice_compare_lex, <- lex_gt_lt.
  destruct (lex a b); simpl; split; (lia || done).
Qed.

Lemma memcmp_eq0 n a b :
  (n <= length a)%nat -> (n <= length b)%nat ->
  memcmp n a b = 0 <-> take n a = take n b.
Proof.
  intros. rewrite memcmp_lex, <- lex_eq by done. by destruct (lex _ _).
Qed.

Lemma slice_equal_spec a b : cetcd_slice_equal a b = true <-> a = b.
Proof.
  unfold cetcd_slice_equal, blen.
  destruct (Z.eqb_spec (Z.of_nat (length a)) (Z.of_nat (length b))) as [E|E]; simpl.
  2: { split; [done|]. intros ->. done. }
  destruct (Z.eqb_spec (Z.of_nat (length a)) 0) as [E0|E0].
  - destruct a, b; simpl in *; try lia. done.
  - rewrite Z.eqb_eq, memcmp_eq0 by lia.
    rewrite firstn_all. by rewrite firstn_all2 by lia.
Qed.

Lemma has_prefix_spec s p : cetcd_slice_has_prefix s p = true <-> p `prefix_of` s.
Proof.
  unfold cetcd_slice_has_prefix, blen.
  destruct (Z.ltb_spec (Z.of_nat (length s)) (Z.of_nat (length p))) as [H|H].
  { split; [done|]. intros Hp%prefix_length. lia. }
  destruct (Z.eqb_spec (Z.of_nat (length p)) 0) as [E|E].
  { destruct p; simpl in *; [|lia]. split; [intros; apply prefix_nil|done]. }
  rewrite Z.eqb_eq, memcmp_eq0, (firstn_all p) by lia. split.
  - intros <-. exists (drop (length p) s). by rewrite take_drop.
  - intros [k ->]. by rewrite take_app_length.
Qed.

Lemma has_suffix_spec s p : cetcd_slice_has_suffix s p = true <-> p `suffix_of` s.
Proof.
  unfold cetcd_slice_has_suffix, blen.
  destruct (Z.ltb_spec (Z.of_nat (length s)) (Z.of_nat (length p))) as [H|H].
  { split; [done|]. intros Hp%suffix_length. lia. }
  destruct (Z.eqb_spec (Z.of_nat (length p)) 0) as [E|E].
  { destruct p; simpl in *; [|lia]. split; [intros; apply suffix_nil|done]. }
  rewrite Z.eqb_eq, memcmp_eq0, (firstn_all p) by (rewrite ?length_drop; lia).
  rewrite firstn_all2 by (rewrite length_drop; lia). split.
  - intros Hd. exists (take (length s - length p) s). rewrite <- Hd at 2.
    by rewrite take_drop.
  - intros [k ->]. rewrite length_app.
    replace (length k + length p - length p)%nat with (length k) by lia.
    by rewrite drop_app_length.
Qed.

(** ** Prefix ranges

    [prefix_next p] is the reference for [cetcd_key_prefix_end]: the least
    string above every string with prefix [p], [None] when there is none. *)

Fixpoint prefix_next (p : bytes) : option bytes :=
  match p with
  | [] => None
  | x :: p' =>
      match prefix_next p' with
      | Some e => Some (x :: e)
      | None => if x <? 255 then Some [u8 (x + 1)] else None
      end
  end.

(** Membership in the half-open range [[lo, hi)] of the range requests; the
    single byte 0 as [hi] is the open upper bound (FromKey). *)
Definition in_key_range (k lo hi : bytes) : bool :=
  (0 <=? cetcd_slice_compare k lo) &&
  (cetcd_slice_equal hi [0] || (cetcd_slice_compare k hi <? 0)).

Lemma prefix_end_loop_next p i :
  (i <= length p)%nat ->
  prefix_end_loop i p = match prefix_next (take i p) with Some e => e | None => [0] end.
Proof.
  revert i. induction p as [|x p IH] using rev_ind; intros i Hi.
  { simpl in Hi. by replace i with 0%nat by lia. }
  assert (Hstep : forall q y, prefix_next (q ++ [y]) =
    if y <? 255 then Some (q ++ [u8 (y + 1)]) else prefix_next q).
  { clear. intros q y. induction q as [|z q IHq]; simpl.
    - by destruct (y <? 255).
    - rewrite IHq. by destruct (y <? 255). }
  induction i as [|i IHi]; [done|].
  assert (Hlk : (p ++ [x]) !! i = Some ((p ++ [x]) !!! i)).
  { apply list_lookup_lookup_total_lt. lia. }
  rewrite (take_S_r _ _ _ Hlk), Hstep. simpl.
  destruct (_ <? 255).
  - rewrite insert_take_drop by lia.
    rewrite take_app_ge by (rewrite length_take; lia).
    rewrite length_take. replace (S i - i `min` length (p ++ [x]))%nat with 1%nat by lia.
    done.
  - rewrite IHi by lia. done.
Qed.

Lemma prefix_next_nonzero p e : bytes_ok p -> prefix_next p = Some e -> e <> [0].
Proof.
  intros Hok. revert e; induction Hok as [|x p Hx Hp IH]; simpl; intros e He; [done|].
  destruct (prefix_next p) as [e'|] eqn:Hn; simplify_eq.
  - intros [= -> ->]. destruct p as [|y q]; simpl in Hn; [done|].
    destruct (prefix_next q); [done|]. by destruct (y <? 255).
  - destruct (Z.ltb_spec x 255); simplify_eq. unfold in_u8, u8 in *.
    rewrite Z.mod_small by lia. intros [=]. lia.
Qed.

Lemma prefix_next_bounds p k :
  bytes_ok p -> bytes_ok k ->
  p `prefix_of` k <->
  lex k p <> Lt /\ (forall e, prefix_next p = Some e -> lex k e = Lt).
Proof.
  intros Hp. revert k; induction Hp as [|x p Hx Hp IH]; intros k Hk; simpl.
  { split; [|intros; apply prefix_nil]. intros _. by destruct k. }
  destruct Hk as [|y k Hy Hk]; simpl.
  { split; [intros H; by apply prefix_nil_not in H | by intros []]. }
  specialize (IH k Hk). unfold in_u8, u8 in *.
  split.
  - intros Hpre. pose proof (prefix_cons_inv_1 _ _ _ _ Hpre); subst y.
    apply prefix_cons_inv_2, IH in Hpre as [H1 H2].
    rewrite Z.compare_refl. split; [done|]. intros e.
    destruct (prefix_next p) as [e'|]; intros ?; simplify_eq; simpl.
    + rewrite Z.compare_refl. by apply H2.
    + guards; simplify_eq. simpl. rewrite Z.mod_small by lia.
      by rewrite (proj2 (Z.compare_lt_iff _ _)) by lia.
  - intros [H1 H2]. destruct (Z.compare_spec y x); [subst y| done |].
    + apply prefix_cons, IH. split; [done|]. intros e He. rewrite He in H2.
      specialize (H2 _ eq_refl). simpl in H2. by rewrite Z.compare_refl in H2.
    + exfalso. destruct (prefix_next p) as [e'|].
      * specialize (H2 _ eq_refl). simpl in H2.
        by rewrite (proj2 (Z.compare_gt_iff _ _)) in H2 by lia.
      * destruct (Z.ltb_spec x 255); [|lia]. specialize (H2 _ eq_refl). simpl in H2.
        rewrite Z.mod_small in H2 by lia.
        destruct (Z.compare_spec y (x + 1)); try done; try lia. by destruct k.
Qed.

Lemma prefix_end_next cap p :
  blen p <= cap -> 0 < cap ->
  cetcd_key_prefix_end cap p = match prefix_next p with Some e => e | None => [0] end.
Proof.
  intros Hcap Hpos. unfold cetcd_key_prefix_end. guards; try lia.
  - by destruct p.
  - rewrite prefix_end_loop_next by lia. by rewrite firstn_all.
Qed.

(** Prefix range.  With a large enough buffer, [cetcd_key_prefix_end]
    computes the upper bound of the prefix: a key lies in the range from the
    prefix to that bound exactly when it has the prefix. *)
Theorem prefix_end_is_prefix_range (cap : Z) (p k : bytes)
  (Hcap : blen p <= cap) (Hpos : 0 < cap) (Hp : bytes_ok p) (Hk : bytes_ok k) :
  in_key_range k p (cetcd_key_prefix_end cap p) = cetcd_slice_has_prefix k p.
Proof.
  apply Bool.eq_iff_eq_true. rewrite has_prefix_spec, prefix_next_bounds by done.
  rewrite prefix_end_next by done. unfold in_key_range.
  rewrite andb_true_iff, orb_true_iff, Z.leb_le, Z.ltb_lt, slice_compare_lt0, slice_equal_spec.
  rewrite slice_compare_lex.
  destruct (prefix_next p) as [e|] eqn:He.
  - pose proof (prefix_next_nonzero _ _ Hp He).
    destruct (lex k p); simpl; naive_solver (lia || done).
  - destruct (lex k p); simpl; naive_solver (lia || done).
Qed.

Lemma prefix_end_is_prefix_range_witness :
  in_key_range [97; 255; 3] [97; 255] (cetcd_key_prefix_end 16 [97; 255]) = true
  /\ cetcd_key_prefix_end 16 [97; 255] = [98].
Proof.
  split; [|reflexivity].
  rewrite (prefix_end_is_prefix_range 16 [97; 255] [97; 255; 3]).
  - reflexivity.
  - vm_compute. discriminate.
  - reflexivity.
  - repeat constructor; vm_compute; (discriminate || reflexivity).
  - repeat constructor; vm_compute; (discriminate || reflexivity).
Defined.
