(* ===== verification/Hash.v ===== *)
(** * Hashes (src/base/hash.c) and the WAL checksum (src/wal/encoder.c)

    FNV-1a-64, the table-driven CRC-32C of the base library and the bitwise
    CRC-32C that the WAL encoder and decoder each carry.  The table that
    [crc32c_init_table] fills under an atomic flag is a constant here: every
    caller initialises it before use and initialisation always writes the
    same 256 words. *)

From S2P Require Import Prelude.

(** ** FNV-1a *)

Definition CETCD_FNV1A64_OFFSET : Z := 14695981039346656037.
Definition CETCD_FNV1A64_PRIME : Z := 1099511628211.

Definition cetcd_hash_fnv1a64_seed (data : bytes) (seed : Z) : Z :=
  let h := if seed =? 0 then CETCD_FNV1A64_OFFSET else seed in
  foldl (fun h p => u64 (Z.lxor h p * CETCD_FNV1A64_PRIME)) h data.

Definition cetcd_hash_fnv1a64 (data : bytes) : Z :=
  cetcd_hash_fnv1a64_seed data CETCD_FNV1A64_OFFSET.

(** ** CRC-32C *)

Definition CRC_POLY : Z := 2197175160.   (* 0x82F63B78 *)
Definition CRC_INV : Z := 4294967295.    (* 0xFFFFFFFF *)

(** One bit of the reflected division, shared by the two routines. *)
Definition crc_bit (c : Z) : Z :=
  if Z.land c 1 =? 0 then Z.shiftr c 1 else Z.lxor CRC_POLY (Z.shiftr c 1).

Fixpoint crc_bits (k : nat) (c : Z) : Z :=
  match k with O => c | S k' => crc_bits k' (crc_bit c) end.

(** [crc32c_init_table]. *)
Definition crc32c_table : list Z := (crc_bits 8 ∘ Z.of_nat) <$> seq 0 256.

Definition cetcd_crc32c (crc : Z) (data : bytes) : Z :=
  let c := Z.lxor crc CRC_INV in
  let c := foldl (fun c p =>
             Z.lxor (crc32c_table !!! Z.to_nat (Z.land (Z.lxor c p) 255)) (Z.shiftr c 8))
           c data in
  Z.lxor c CRC_INV.

(** [crc32c] of src/wal/encoder.c and src/wal/decoder.c. *)
Definition wal_crc32c (crc : Z) (buf : bytes) : Z :=
  let c := Z.lxor crc CRC_INV in
  let c := foldl (fun c p => crc_bits 8 (Z.lxor c p)) c buf in
  Z.lxor c CRC_INV.

Example fnv1a64_foobar :
  cetcd_hash_fnv1a64 [102; 111; 111; 98; 97; 114] = 9625390261332436968.
Proof. reflexivity. Qed.

(** The check value of CRC-32C: the digits 1 to 9. *)
Example crc32c_check_value :
  wal_crc32c 0 [49; 50; 51; 52; 53; 54; 55; 56; 57] = 3808858755.
Proof. reflexivity. Qed.

(** ** Range of the hashes *)

Lemma fnv1a64_seed_range data seed :
  in_u64 seed -> in_u64 (cetcd_hash_fnv1a64_seed data seed).
Proof.
  intros Hs. unfold cetcd_hash_fnv1a64_seed. cbv zeta.
  assert (Hh : in_u64 (if seed =? 0 then CETCD_FNV1A64_OFFSET else seed)).
  { guards; [unfold in_u64, CETCD_FNV1A64_OFFSET; lia|done]. }
  revert Hh. generalize (if seed =? 0 then CETCD_FNV1A64_OFFSET else seed).
  induction data as [|p data IH]; intros h Hh; simpl; [done|].
  apply IH. auto with cetcd.
Qed.

Lemma fnv1a64_range data : in_u64 (cetcd_hash_fnv1a64 data).
Proof. apply fnv1a64_seed_range. unfold in_u64, CETCD_FNV1A64_OFFSET. lia. Qed.

(** ** Algebra of the bit step *)

Lemma land1_testbit c : (Z.land c 1 =? 0) = negb (Z.testbit c 0).
Proof.
  change 1 with (Z.ones 1) at 1. rewrite Z.land_ones by lia.
  rewrite Z.bit0_odd, Zmod_odd. by destruct (Z.odd c).
Qed.

Lemma crc_bit_alt c :
  crc_bit c = Z.lxor (if Z.testbit c 0 then CRC_POLY else 0) (Z.shiftr c 1).
Proof. unfold crc_bit. rewrite land1_testbit. by destruct (Z.testbit c 0). Qed.

Lemma crc_bit_xor a b : crc_bit (Z.lxor a b) = Z.lxor (crc_bit a) (crc_bit b).
Proof.
  rewrite !crc_bit_alt, Z.lxor_spec, Z.shiftr_lxor.
  destruct (Z.testbit a 0), (Z.testbit b 0); cbn [xorb]; bitwise n Hn;
    repeat destruct (Z.testbit _ _); reflexivity.
Qed.

Lemma crc_bits_xor k a b : crc_bits k (Z.lxor a b) = Z.lxor (crc_bits k a) (crc_bits k b).
Proof. revert a b; induction k as [|k IH]; intros; simpl; [done|]. by rewrite crc_bit_xor, IH. Qed.

Lemma crc_bits_add j k c : crc_bits (j + k) c = crc_bits k (crc_bits j c).
Proof. revert c; induction j as [|j IH]; intros; simpl; auto. Qed.

(** The low [k] zero bits of a word are shifted out unchanged. *)
Lemma crc_bits_shiftl k y : crc_bits k (Z.shiftl y (Z.of_nat k)) = y.
Proof.
  revert y; induction k as [|k IH]; intros y; [by rewrite Z.shiftl_0_r|].
  cbn [crc_bits]. rewrite <- (IH y) at 2. f_equal. rewrite crc_bit_alt.
  rewrite Z.shiftl_spec, Z.testbit_neg_r, Z.lxor_0_l by lia.
  rewrite Z.shiftr_shiftl_l by lia. f_equal. lia.
Qed.

Lemma split_low_byte x : x = Z.lxor (Z.land x 255) (Z.shiftl (Z.shiftr x 8) 8).
Proof.
  change 255 with (Z.ones 8). bitwise n Hn.
  destruct (Z.lt_ge_cases n 8).
  - rewrite (Z.testbit_neg_r _ (n - 8)) by lia.
    rewrite Z.ones_spec_low by lia. by rewrite andb_true_r, xorb_false_r.
  - rewrite Z.shiftr_spec by lia. rewrite Z.ones_spec_high by lia.
    rewrite andb_false_r, xorb_false_l. f_equal. lia.
Qed.

Lemma crc_bits8_table x : 0 <= x ->
  crc_bits 8 x = Z.lxor (crc32c_table !!! Z.to_nat (Z.land x 255)) (Z.shiftr x 8).
Proof.
  intros Hx. rewrite (split_low_byte x) at 1. rewrite crc_bits_xor.
  change (Z.shiftl (Z.shiftr x 8) 8) with (Z.shiftl (Z.shiftr x 8) (Z.of_nat 8)).
  rewrite crc_bits_shiftl. f_equal.
  change 255 with (Z.ones 8). rewrite Z.land_ones by lia.
  pose proof (Z.mod_pos_bound x (2 ^ 8) ltac:(lia)) as Hm.
  unfold crc32c_table. rewrite list_lookup_total_alt, list_lookup_fmap, lookup_seq_lt.
  - simpl. unfold compose. by rewrite Z2Nat.id by lia.
  - change (2 ^ 8) with 256 in *. lia.
Qed.

Lemma crc_step_nonneg c p : 0 <= c -> 0 <= p -> 0 <= crc_bits 8 (Z.lxor c p).
Proof.
  assert (H : forall k x, 0 <= x -> 0 <= crc_bits k x).
  { induction k as [|k IH]; intros x Hx; simpl; [done|]. apply IH. rewrite crc_bit_alt.
    apply Z.lxor_nonneg. split; intros _; [by apply Z.shiftr_nonneg|].
    destruct (Z.testbit x 0); unfold CRC_POLY; lia. }
  intros. apply H, Z.lxor_nonneg. lia.
Qed.

(** Equivalence.  The table-driven CRC-32C of the base library and the
    bitwise CRC-32C of the WAL compute the same checksum. *)
Theorem crc32c_table_eq_bitwise (crc : Z) (data : bytes)
  (Hc : 0 <= crc) (Hd : bytes_ok data) :
  cetcd_crc32c crc data = wal_crc32c crc data.
Proof.
  unfold cetcd_crc32c, wal_crc32c. cbv zeta. f_equal.
  assert (Hc' : 0 <= Z.lxor crc CRC_INV) by (apply Z.lxor_nonneg; unfold CRC_INV; lia).
  revert Hc'. generalize (Z.lxor crc CRC_INV) as c. clear Hc.
  induction Hd as [|p data Hp Hd IH]; intros c Hc; cbn [foldl]; [done|].
  unfold in_u8 in Hp.
  assert (Hsh : Z.shiftr (Z.lxor c p) 8 = Z.shiftr c 8).
  { rewrite Z.shiftr_lxor, (Z.shiftr_div_pow2 p), Z.div_small by lia. by rewrite Z.lxor_0_r. }
  rewrite <- Hsh, <- crc_bits8_table by (apply Z.lxor_nonneg; lia).
  apply IH, crc_step_nonneg; lia.
Qed.

Lemma crc32c_table_eq_bitwise_witness :
  cetcd_crc32c 0 [49; 50; 51] = wal_crc32c 0 [49; 50; 51].
Proof.
  apply (crc32c_table_eq_bitwise 0 [49; 50; 51]); [lia|].
  repeat constructor; vm_compute; (discriminate || reflexivity).
Defined.

(** ** Error detection *)

Lemma crc_bit_inj a b : in_u32 a -> in_u32 b -> crc_bit a = crc_bit b -> a = b.
Proof.
  unfold in_u32. intros Ha Hb E.
  assert (Htop : forall c, 0 <= c < 4294967296 -> Z.testbit (crc_bit c) 31 = Z.testbit c 0).
  { intros c Hc. rewrite crc_bit_alt, Z.lxor_spec, Z.shiftr_spec by lia.
    rewrite (testbit_above c 32 (31 + 1)) by lia. by destruct (Z.testbit c 0). }
  assert (H0 : Z.testbit a 0 = Z.testbit b 0) by (rewrite <- !Htop by done; by rewrite E).
  rewrite !crc_bit_alt, H0 in E.
  assert (Hs : Z.shiftr a 1 = Z.shiftr b 1).
  { apply (f_equal (Z.lxor (if Z.testbit b 0 then CRC_POLY else 0))) in E.
    by rewrite <- !Z.lxor_assoc, !Z.lxor_nilpotent, !Z.lxor_0_l in E. }
  apply Z.bits_inj'. intros n Hn. destruct (Z.eq_dec n 0) as [->|]; [done|].
  apply (f_equal (fun z => Z.testbit z (n - 1))) in Hs.
  rewrite !Z.shiftr_spec in Hs by lia. by replace (n - 1 + 1) with n in Hs by lia.
Qed.

Lemma crc_bit_range c : in_u32 c -> in_u32 (crc_bit c).
Proof.
  unfold in_u32. change 4294967296 with (2 ^ 32). intros Hc. rewrite crc_bit_alt.
  apply lxor_range; [lia| |by apply shiftr_range].
  destruct (Z.testbit c 0); unfold CRC_POLY; lia.
Qed.

Lemma crc_bits_range k c : in_u32 c -> in_u32 (crc_bits k c).
Proof. revert c; induction k; intros c Hc; simpl; auto using crc_bit_range. Qed.

Lemma crc_bits_inj k a b : in_u32 a -> in_u32 b -> crc_bits k a = crc_bits k b -> a = b.
Proof.
  revert a b; induction k as [|k IH]; intros a b Ha Hb E; simpl in E; [done|].
  apply crc_bit_inj; try done. apply IH; auto using crc_bit_range.
Qed.

Lemma crc_xor_range c p : in_u32 c -> in_u8 p -> in_u32 (Z.lxor c p).
Proof.
  unfold in_u32, in_u8. change 4294967296 with (2 ^ 32). intros.
  apply lxor_range; lia.
Qed.

Abbreviation crc_fold := (foldl (fun c p => crc_bits 8 (Z.lxor c p))).

Lemma crc_fold_range c d : in_u32 c -> bytes_ok d -> in_u32 (crc_fold c d).
Proof.
  intros Hc Hd. revert c Hc; induction Hd as [|p d Hp Hd IH]; intros c Hc; cbn [foldl]; [done|].
  apply IH, crc_bits_range, crc_xor_range; done.
Qed.

Lemma crc_fold_inj d a b : bytes_ok d -> in_u32 a -> in_u32 b ->
  crc_fold a d = crc_fold b d -> a = b.
Proof.
  intros Hd. revert a b; induction Hd as [|p d Hp Hd IH]; intros a b Ha Hb E; cbn [foldl] in E; [done|].
  apply IH in E; [|apply crc_bits_range, crc_xor_range; done ..].
  apply crc_bits_inj in E; [|by apply crc_xor_range ..].
  apply (f_equal (fun z => Z.lxor z p)) in E.
  by rewrite !Z.lxor_assoc, !Z.lxor_nilpotent, !Z.lxor_0_r in E.
Qed.

(** The little-endian value of a byte string. *)
Fixpoint le_value (d : bytes) : Z :=
  match d with [] => 0 | p :: d' => Z.lxor p (Z.shiftl (le_value d') 8) end.

Lemma le_value_inj a b : bytes_ok a -> bytes_ok b -> length a = length b ->
  le_value a = le_value b -> a = b.
Proof.
  intros Ha. revert b; induction Ha as [|x a Hx Ha IH]; intros [|y b] Hb Hl E;
    simpl in *; try lia; [done|]. inv Hb.
  assert (Hlow : forall z w, in_u8 z -> Z.land (Z.lxor z (Z.shiftl w 8)) 255 = z).
  { unfold in_u8. intros z w Hz. change 255 with (Z.ones 8). bitwise n Hn.
    destruct (Z.lt_ge_cases n 8).
    - rewrite Z.ones_spec_low, (Z.testbit_neg_r w) by lia. by rewrite xorb_false_r, andb_true_r.
    - rewrite Z.ones_spec_high, (testbit_above z 8) by lia. apply andb_false_r. }
  assert (x = y) as ->.
  { apply (f_equal (fun z => Z.land z 255)) in E. by rewrite !Hlow in E. }
  f_equal. apply IH; [done|lia|].
  apply (f_equal (fun z => Z.shiftr (Z.lxor y z) 8)) in E.
  rewrite <- !Z.lxor_assoc, !Z.lxor_nilpotent, !Z.lxor_0_l in E.
  by rewrite !Z.shiftr_shiftl_l, !Z.shiftl_0_r in E by lia.
Qed.

Lemma le_value_range d : bytes_ok d -> 0 <= le_value d < 2 ^ (8 * blen d).
Proof.
  unfold blen. induction 1 as [|p d Hp Hd IH]; cbn [le_value length]; [simpl; lia|].
  unfold in_u8 in Hp. set (n := Z.of_nat (length d)) in *.
  replace (8 * Z.of_nat (S (length d))) with (8 * n + 8) by lia.
  pose proof (Z.pow_pos_nonneg 2 (8 * n) ltac:(lia) ltac:(lia)).
  apply lxor_range; [lia| |]; rewrite Z.pow_add_r by lia; [nia|].
  rewrite Z.shiftl_mul_pow2 by lia. change (2 ^ 8) with 256. nia.
Qed.

Lemma crc_fold_le_value c d :
  crc_fold c d = crc_bits (8 * length d) (Z.lxor c (le_value d)).
Proof.
  revert c; induction d as [|p d IH]; intros c; cbn [foldl le_value].
  - simpl. by rewrite Z.lxor_0_r.
  - rewrite IH. cbn [length]. replace (8 * S (length d))%nat with (8 + 8 * length d)%nat by lia.
    rewrite crc_bits_add. f_equal.
    rewrite <- Z.lxor_assoc, (crc_bits_xor 8 (Z.lxor c p) (Z.shiftl _ _)).
    f_equal. symmetry. apply (crc_bits_shiftl 8).
Qed.

(** Changing up to four consecutive bytes of a record always changes its
    CRC-32C: a burst of up to 32 bits is never missed. *)
Lemma crc32c_detects_burst (pre x y post : bytes)
  (Hpre : bytes_ok pre) (Hx : bytes_ok x) (Hy : bytes_ok y) (Hpost : bytes_ok post)
  (Hlen : length x = length y) (Hburst : (length x <= 4)%nat) (Hne : x <> y) :
  wal_crc32c 0 (pre ++ x ++ post) <> wal_crc32c 0 (pre ++ y ++ post).
Proof.
  unfold wal_crc32c. cbv zeta. rewrite !foldl_app. intros E.
  apply (f_equal (fun z => Z.lxor z CRC_INV)) in E.
  rewrite !Z.lxor_assoc, !Z.lxor_nilpotent, !Z.lxor_0_r in E.
  assert (Hc : in_u32 (crc_fold (Z.lxor 0 CRC_INV) pre))
    by (apply crc_fold_range; [vm_compute; done|done]).
  apply crc_fold_inj in E; [|done|by apply crc_fold_range ..].
  revert E. generalize (crc_fold (Z.lxor 0 CRC_INV) pre) Hc. intros c Hc' E.
  rewrite !crc_fold_le_value, <- Hlen in E.
  assert (Hr : forall d, bytes_ok d -> length d = length x -> in_u32 (Z.lxor c (le_value d))).
  { intros d Hd Hld. unfold in_u32 in *. change 4294967296 with (2 ^ 32) in *.
    apply lxor_range; [lia|done|]. pose proof (le_value_range d Hd).
    assert (2 ^ (8 * blen d) <= 2 ^ 32) by (apply Z.pow_le_mono_r; unfold blen; lia). lia. }
  apply crc_bits_inj in E; [|by apply Hr ..]. apply Hne, le_value_inj; try done.
  apply (f_equal (Z.lxor c)) in E.
  by rewrite <- !Z.lxor_assoc, !Z.lxor_nilpotent, !Z.lxor_0_l in E.
Qed.
