(* ===== verification/KeyOrder.v ===== *)
(** * Association lists in key order

    The canonical listing of a finite map by ascending key bytes: what an
    LMDB cursor, a treap walk and a sorted range result all produce. *)

From S2P Require Import Prelude Slice.

Lemma elem_of_bool_filter {A} (f : A -> bool) l x : x ∈ List.filter f l <-> x ∈ l /\ f x = true.
Proof. by rewrite list_elem_of_In, filter_In, <- list_elem_of_In. Qed.

Section KeyOrder.
  Context {V : Type}.

(** The comparison of two pairs by key, as [qsort] and the cursors use it. *)
Definition key_le (x y : bytes * V) : Prop := lex x.1 y.1 <> Gt.
Definition key_lt (x y : bytes * V) : Prop := lex_lt x.1 y.1.

#[global] Instance key_le_dec x y : Decision (key_le x y).
Proof. unfold key_le. apply _. Defined.

#[global] Instance key_le_total : Total key_le.
Proof.
  intros x y. unfold key_le. rewrite (lex_antisym x.1 y.1). destruct (lex x.1 y.1); cbn; auto.
Qed.

#[global] Instance key_le_trans : Transitive key_le.
Proof.
  intros x y z. unfold key_le. intros Hxy Hyz Hxz%lex_gt_lt.
  destruct (lex x.1 y.1) eqn:E1; [|..|done].
  - apply lex_eq in E1. rewrite E1 in Hxz. by apply Hyz, lex_gt_lt.
  - pose proof (lex_trans _ _ _ Hxz E1). by apply Hyz, lex_gt_lt.
Qed.

Lemma key_lt_sorted (l : list (bytes * V)) : StronglySorted lex_lt l.*1 <-> StronglySorted key_lt l.
Proof.
  induction l as [|x l IH]; cbn; [split; constructor|].
  split; intros H%StronglySorted_inv; destruct H as [H1 H2]; constructor; try tauto.
  - by rewrite Forall_fmap in H2.
  - by rewrite Forall_fmap.
Qed.

Lemma lex_sorted_nodup (ks : list bytes) : StronglySorted lex_lt ks -> NoDup ks.
Proof.
  induction 1 as [|k ks H IH Hall]; constructor; [|done].
  intros Hin. rewrite Forall_forall in Hall. by apply (lex_lt_irrefl k), Hall.
Qed.

Lemma key_le_sorted (l : list (bytes * V)) : NoDup l.*1 -> StronglySorted key_le l -> StronglySorted key_lt l.
Proof.
  intros Hnd. induction 1 as [|x l H IH Hall]; constructor.
  - apply IH. by inversion Hnd.
  - apply NoDup_cons in Hnd as [Hx _]. rewrite Forall_forall in Hall |- *. intros y Hy.
    specialize (Hall y Hy). unfold key_le, key_lt, lex_lt in *.
    destruct (lex x.1 y.1) eqn:E; [|done..]. apply lex_eq in E. destruct Hx. rewrite E.
    by apply list_elem_of_fmap_2.
Qed.

Definition sorted_entries (m : gmap bytes V) : list (bytes * V) := merge_sort key_le (map_to_list m).

Lemma sorted_entries_perm m : sorted_entries m ≡ₚ map_to_list m.
Proof. apply merge_sort_Permutation. Qed.

Lemma sorted_entries_nodup m : NoDup (sorted_entries m).*1.
Proof. rewrite sorted_entries_perm. apply NoDup_fst_map_to_list. Qed.

Lemma sorted_entries_sorted m : StronglySorted lex_lt (sorted_entries m).*1.
Proof.
  apply key_lt_sorted, key_le_sorted; [apply sorted_entries_nodup|apply (StronglySorted_merge_sort _)].
Qed.

Lemma sorted_entries_map m : list_to_map (sorted_entries m) = m.
Proof.
  rewrite (list_to_map_proper _ (map_to_list m)); [apply list_to_map_to_list| |apply sorted_entries_perm].
  apply sorted_entries_nodup.
Qed.

#[global] Instance key_lt_antisymm : AntiSymm (=) key_lt.
Proof. intros x y H1 H2. destruct (lex_lt_irrefl x.1). exact (lex_trans _ _ _ H1 H2). Qed.

Lemma sorted_entries_unique (l : list (bytes * V)) :
  StronglySorted lex_lt l.*1 -> l = sorted_entries (list_to_map l).
Proof.
  intros Hs. apply (StronglySorted_unique key_lt).
  - by apply key_lt_sorted.
  - apply key_lt_sorted, sorted_entries_sorted.
  - rewrite sorted_entries_perm, map_to_list_to_map; [done|]. by apply lex_sorted_nodup.
Qed.

(** Two strictly sorted lists with the same elements are equal. *)
Lemma key_sorted_ext (l k : list (bytes * V)) :
  StronglySorted key_lt l -> StronglySorted key_lt k -> (forall x, x ∈ l <-> x ∈ k) -> l = k.
Proof.
  intros Hl Hk Hx. apply (StronglySorted_unique key_lt); [done..|].
  apply NoDup_Permutation; [| |done];
    by eapply NoDup_fmap_1, lex_sorted_nodup, key_lt_sorted.
Qed.

Lemma key_sorted_filter (f : bytes * V -> bool) l :
  StronglySorted key_lt l -> StronglySorted key_lt (List.filter f l).
Proof.
  induction 1 as [|x l H IH Hall]; cbn; [constructor|]. destruct (f x); [|done]. constructor; [done|].
  rewrite Forall_forall in Hall |- *. intros y [Hy _]%elem_of_bool_filter. by apply Hall.
Qed.

Lemma sorted_entries_elem m k v : (k, v) ∈ sorted_entries m <-> m !! k = Some v.
Proof. rewrite sorted_entries_perm. apply elem_of_map_to_list. Qed.

End KeyOrder.

Lemma sorted_entries_fmap {V W} (f : V -> W) (m : gmap bytes V) :
  sorted_entries (f <$> m) = prod_map id f <$> sorted_entries m.
Proof.
  assert (Hfst : (prod_map id f <$> sorted_entries m).*1 = (sorted_entries m).*1).
  { rewrite <- list_fmap_compose. by apply list_fmap_ext. }
  rewrite (sorted_entries_unique (prod_map id f <$> sorted_entries m)) by (rewrite Hfst; apply sorted_entries_sorted).
  by rewrite list_to_map_fmap, sorted_entries_map.
Qed.
