(* ===== verification/Treap.v ===== *)
(** * The treap (src/base/treap.c)

    A binary search tree on byte-string keys, kept a max-heap on priorities
    derived from the keys.  A node pointer is a tree value, [NULL] is [Leaf];
    updates in place become the tree they produce.  [treap_delete_node_]
    pushes the node down by rotations, which is not structural: it runs on
    fuel, and the size of the tree is proved to be enough.

    The file ends with the interface [KeyIndex] that the MVCC store uses, and
    its instance. *)

From S2P Require Import Prelude Slice.

Section Treap.
Context {V : Type}.

(** ** Data *)

Inductive cetcd_treap_node : Type :=
| Leaf
| Node (key : bytes) (value : V) (priority : Z) (left right : cetcd_treap_node).

Record cetcd_treap : Type := mk_treap {
  root : cetcd_treap_node;
  size : Z
}.

(** ** Operations *)

Definition treap_prio_from_key_ (key : bytes) : Z :=
  let h := foldl (fun h b => u32 (Z.lxor h b * 16777619)) 2166136261 key in
  Z.lxor h (u32 (blen key)).

Definition node_priority (n : cetcd_treap_node) : option Z :=
  match n with Leaf => None | Node _ _ p _ _ => Some p end.

(** [n && n->priority > p] *)
Definition prio_above (n : cetcd_treap_node) (p : Z) : bool :=
  match n with Leaf => false | Node _ _ q _ _ => p <? q end.

(** The callers rotate only when the child is not [NULL]. *)
Definition treap_rotate_right_ (y : cetcd_treap_node) : cetcd_treap_node :=
  match y with
  | Node ky vy py (Node kx vx px xl T2) yr =>
      Node kx vx px xl (Node ky vy py T2 yr)
  | _ => y
  end.

Definition treap_rotate_left_ (x : cetcd_treap_node) : cetcd_treap_node :=
  match x with
  | Node kx vx px xl (Node ky vy py T2 yr) =>
      Node ky vy py (Node kx vx px xl T2) yr
  | _ => x
  end.

(** Insertion of the node [(key, value, prio)], a leaf of the caller. *)
Fixpoint treap_insert_node_ (t : cetcd_treap_node) (key : bytes) (value : V) (prio : Z)
  : cetcd_treap_node :=
  match t with
  | Leaf => Node key value prio Leaf Leaf
  | Node k v p l r =>
      if cetcd_slice_compare key k <? 0 then
        let l' := treap_insert_node_ l key value prio in
        let t' := Node k v p l' r in
        if prio_above l' p then treap_rotate_right_ t' else t'
      else
        let r' := treap_insert_node_ r key value prio in
        let t' := Node k v p l r' in
        if prio_above r' p then treap_rotate_left_ t' else t'
  end.

(** Result: the new subtree, [*out_found], [*val_out]. *)
Fixpoint treap_delete_node_ (fuel : nat) (t : cetcd_treap_node) (key : bytes)
  : cetcd_treap_node * bool * option V :=
  match fuel with
  | O => (t, false, None)
  | S fuel =>
      match t with
      | Leaf => (Leaf, false, None)
      | Node k v p l r =>
          let cmp := cetcd_slice_compare key k in
          if cmp <? 0 then
            let '(l', found, val) := treap_delete_node_ fuel l key in
            (Node k v p l' r, found, val)
          else if 0 <? cmp then
            let '(r', found, val) := treap_delete_node_ fuel r key in
            (Node k v p l r', found, val)
          else
            match l, r with
            | Leaf, Leaf => (Leaf, true, Some v)
            | Node kl vl pl ll lr, Node kr vr pr rl rr =>
                if pr <? pl then
                  (* rotate right, then delete in the right child *)
                  let '(c, found, val) := treap_delete_node_ fuel (Node k v p lr r) key in
                  (Node kl vl pl ll c, found, val)
                else
                  let '(c, found, val) := treap_delete_node_ fuel (Node k v p l rl) key in
                  (Node kr vr pr c rr, found, val)
            | Node _ _ _ _ _, Leaf => (l, true, Some v)
            | Leaf, Node _ _ _ _ _ => (r, true, Some v)
            end
      end
  end.

Fixpoint node_count (t : cetcd_treap_node) : nat :=
  match t with Leaf => 0 | Node _ _ _ l r => S (node_count l + node_count r) end.

Definition cetcd_treap_new : cetcd_treap := mk_treap Leaf 0.

Definition cetcd_treap_size (t : cetcd_treap) : Z := size t.

(** The search loop shared by [cetcd_treap_get] and [cetcd_treap_put]. *)
Fixpoint treap_find (p : cetcd_treap_node) (key : bytes) : option V :=
  match p with
  | Leaf => None
  | Node k v _ l r =>
      let cmp := cetcd_slice_compare key k in
      if cmp =? 0 then Some v
      else if cmp <? 0 then treap_find l key
      else treap_find r key
  end.

(** [p->value = value] at the node the search loop stops at. *)
Fixpoint treap_replace (p : cetcd_treap_node) (key : bytes) (value : V) : cetcd_treap_node :=
  match p with
  | Leaf => Leaf
  | Node k v q l r =>
      let cmp := cetcd_slice_compare key k in
      if cmp =? 0 then Node k value q l r
      else if cmp <? 0 then Node k v q (treap_replace l key value) r
      else Node k v q l (treap_replace r key value)
  end.

Definition cetcd_treap_put (t : cetcd_treap) (key : bytes) (value : V) : cetcd_treap :=
  match treap_find (root t) key with
  | Some _ => mk_treap (treap_replace (root t) key value) (size t)
  | None =>
      mk_treap (treap_insert_node_ (root t) key value (treap_prio_from_key_ key))
               (size t + 1)
  end.

Definition cetcd_treap_get (t : cetcd_treap) (key : bytes) : option V :=
  treap_find (root t) key.

(** [Some v] is a return value of true with [*val_out = v]. *)
Definition cetcd_treap_del (t : cetcd_treap) (key : bytes) : cetcd_treap * option V :=
  match root t with
  | Leaf => (t, None)
  | _ =>
      let '(root', found, val) := treap_delete_node_ (S (node_count (root t))) (root t) key in
      if found
      then (mk_treap root' (if 0 <? size t then size t - 1 else size t), val)
      else (mk_treap root' (size t), None)
  end.

(** Traversals: the callback updates the state behind [udata] and returns
    false to stop; the traversal returns the state and whether it went on. *)
Section Traversal.
Context {St : Type} (fn : bytes -> V -> St -> St * bool).

Fixpoint treap_iter_inorder_ (n : cetcd_treap_node) (st : St) : St * bool :=
  match n with
  | Leaf => (st, true)
  | Node k v _ l r =>
      let '(st, go) := treap_iter_inorder_ l st in
      if negb go then (st, false)
      else
        let '(st, go) := fn k v st in
        if negb go then (st, false) else treap_iter_inorder_ r st
  end.

Definition cetcd_treap_iter (t : cetcd_treap) (st : St) : St :=
  (treap_iter_inorder_ (root t) st).1.

Fixpoint treap_inorder_range_ (n : cetcd_treap_node) (lo hi : bytes) (st : St) : St * bool :=
  match n with
  | Leaf => (st, true)
  | Node k v _ l r =>
      let '(st, go) := treap_inorder_range_ l lo hi st in
      if negb go then (st, false)
      else
        let ok := 0 <=? cetcd_slice_compare k lo in
        let ok := if ok && (0 <? blen hi) then cetcd_slice_compare k hi <? 0 else ok in
        let '(st, go) := if ok then fn k v st else (st, true) in
        if negb go then (st, false) else treap_inorder_range_ r lo hi st
  end.

Definition cetcd_treap_range (t : cetcd_treap) (lo hi : bytes) (st : St) : St :=
  (treap_inorder_range_ (root t) lo hi st).1.
End Traversal.

(** ** Membership and the invariant *)

Fixpoint kv_in (k : bytes) (v : V) (t : cetcd_treap_node) : Prop :=
  match t with
  | Leaf => False
  | Node k' v' _ l r => (k = k' /\ v = v') \/ kv_in k v l \/ kv_in k v r
  end.

Fixpoint bst (t : cetcd_treap_node) : Prop :=
  match t with
  | Leaf => True
  | Node k _ _ l r =>
      (forall k' v', kv_in k' v' l -> lex k' k = Lt) /\
      (forall k' v', kv_in k' v' r -> lex k k' = Lt) /\
      bst l /\ bst r
  end.

(** The root of [t] has priority at most [p]. *)
Definition prio_le (t : cetcd_treap_node) (p : Z) : Prop :=
  match t with Leaf => True | Node _ _ q _ _ => q <= p end.

Fixpoint heap (t : cetcd_treap_node) : Prop :=
  match t with
  | Leaf => True
  | Node _ _ p l r => prio_le l p /\ prio_le r p /\ heap l /\ heap r
  end.

Fixpoint inorder (t : cetcd_treap_node) : list (bytes * V) :=
  match t with
  | Leaf => []
  | Node k v _ l r => inorder l ++ (k, v) :: inorder r
  end.

(** The invariant of a treap object. *)
Record treap_ok (t : cetcd_treap) : Prop := {
  ok_bst : bst (root t);
  ok_heap : heap (root t);
  ok_size : size t = blen (inorder (root t))
}.

Definition treap_map (t : cetcd_treap) : gmap bytes V := list_to_map (inorder (root t)).

(** ** Search *)

Lemma kv_in_inorder k v t : kv_in k v t <-> (k, v) ∈ inorder t.
Proof.
  induction t as [|k' v' p l IHl r IHr]; simpl; [by rewrite elem_of_nil|].
  rewrite elem_of_app, elem_of_cons, IHl, IHr. naive_solver.
Qed.

Lemma bst_key_unique t k v v' : bst t -> kv_in k v t -> kv_in k v' t -> v = v'.
Proof.
  induction t as [|k0 v0 p l IHl r IHr]; simpl; [done|].
  intros (Hl & Hr & Bl & Br) H1 H2.
  assert (Hlr : forall x y, kv_in k x l -> kv_in k y r -> False).
  { intros x y Hx Hy. apply (lex_lt_irrefl k). eapply lex_trans; eauto. }
  assert (Hk : forall x, kv_in k0 x l \/ kv_in k0 x r -> False).
  { intros x [Hx|Hx]; [apply Hl in Hx|apply Hr in Hx]; by apply lex_lt_irrefl in Hx. }
  naive_solver.
Qed.

Lemma treap_find_spec t k v : bst t -> treap_find t k = Some v <-> kv_in k v t.
Proof.
  induction t as [|k0 v0 p l IHl r IHr]; simpl; [done|].
  intros (Hl & Hr & Bl & Br). specialize (IHl Bl). specialize (IHr Br).
  rewrite slice_compare_lex. destruct (lex k k0) eqn:E; simpl.
  - apply lex_eq in E as ->. split; [naive_solver|].
    intros [[_ ->]|[H|H]]; [done|apply Hl in H|apply Hr in H]; by apply lex_lt_irrefl in H.
  - rewrite IHl. split; [naive_solver|]. intros [[-> _]|[H|H]]; [by apply lex_lt_irrefl in E|done|].
    apply Hr in H. pose proof (lex_trans _ _ _ E H) as Hc. by apply lex_lt_irrefl in Hc.
  - apply lex_gt_lt in E. rewrite IHr. split; [naive_solver|].
    intros [[-> _]|[H|H]]; [by apply lex_lt_irrefl in E| |done].
    apply Hl in H. pose proof (lex_trans _ _ _ E H) as Hc. by apply lex_lt_irrefl in Hc.
Qed.

Lemma treap_find_none t k : bst t -> treap_find t k = None <-> forall v, ~ kv_in k v t.
Proof.
  intros B. split.
  - intros Hn v Hv%treap_find_spec; [congruence|done].
  - intros H. destruct (treap_find t k) as [v|] eqn:E; [|done].
    apply treap_find_spec in E; [|done]. by apply H in E.
Qed.

(** Two trees with the same content answer every search alike. *)
Lemma treap_find_ext t t' k : bst t -> bst t' ->
  (forall v, kv_in k v t <-> kv_in k v t') -> treap_find t k = treap_find t' k.
Proof.
  intros B B' H. destruct (treap_find t' k) as [v|] eqn:E.
  - apply treap_find_spec in E; [|done]. apply treap_find_spec; [done|]. by apply H.
  - apply treap_find_none; [done|]. intros v Hv%H. eapply treap_find_none in E; eauto.
Qed.

(** ** Insertion *)

Lemma rotate_right_kv k v t : kv_in k v (treap_rotate_right_ t) <-> kv_in k v t.
Proof. destruct t as [|? ? ? [|] ?]; simpl; tauto. Qed.

Lemma rotate_left_kv k v t : kv_in k v (treap_rotate_left_ t) <-> kv_in k v t.
Proof. destruct t as [|? ? ? ? [|]]; simpl; tauto. Qed.

Lemma rotate_right_bst t : bst t -> bst (treap_rotate_right_ t).
Proof.
  destruct t as [|ky vy py [|kx vx px xl T2] yr]; simpl; try done.
  intros (Hl & Hr & (Hl' & Hr' & Bx & B2) & Br).
  assert (lex kx ky = Lt) by (eapply Hl; naive_solver).
  split_and!; try done.
  - intros k' v' [[-> ->]|[H'|H']]; [done|naive_solver|]. eapply lex_trans; eauto.
  - naive_solver.
Qed.

Lemma rotate_left_bst t : bst t -> bst (treap_rotate_left_ t).
Proof.
  destruct t as [|kx vx px xl [|ky vy py T2 yr]]; simpl; try done.
  intros (Hl & Hr & Bx & (Hl' & Hr' & B2 & Br)).
  assert (lex kx ky = Lt) by (eapply Hr; naive_solver).
  split_and!; try done.
  - intros k' v' [[-> ->]|[H'|H']]; [done| |naive_solver]. eapply lex_trans; eauto.
  - naive_solver.
Qed.

Lemma insert_kv t key value prio k v :
  kv_in k v (treap_insert_node_ t key value prio) <-> (k = key /\ v = value) \/ kv_in k v t.
Proof.
  induction t as [|k0 v0 p l IHl r IHr]; cbn [treap_insert_node_ kv_in]; [tauto|].
  cbv zeta. repeat case_match; rewrite ?rotate_right_kv, ?rotate_left_kv; cbn [kv_in];
    rewrite ?IHl, ?IHr; tauto.
Qed.

Lemma insert_bst t key value prio :
  bst t -> treap_find t key = None -> bst (treap_insert_node_ t key value prio).
Proof.
  induction t as [|k0 v0 p l IHl r IHr]; cbn [treap_insert_node_ treap_find bst]; [naive_solver|].
  intros (Hl & Hr & Bl & Br). cbv zeta. rewrite slice_compare_lex.
  destruct (lex key k0) eqn:E; cbn [cmp_sign Z.eqb Z.ltb Z.compare]; [done| |].
  - intros Hf. specialize (IHl Bl Hf).
    assert (bst (Node k0 v0 p (treap_insert_node_ l key value prio) r)).
    { simpl. split_and!; try done. intros k' v'. rewrite insert_kv. naive_solver. }
    case_match; [by apply rotate_right_bst|done].
  - intros Hf. specialize (IHr Br Hf). apply lex_gt_lt in E.
    assert (bst (Node k0 v0 p l (treap_insert_node_ r key value prio))).
    { simpl. split_and!; try done. intros k' v'. rewrite insert_kv. naive_solver. }
    case_match; [by apply rotate_left_bst|done].
Qed.

(** The children of the root have priority at most [p]. *)
Definition children_le (t : cetcd_treap_node) (p : Z) : Prop :=
  match t with Leaf => True | Node _ _ _ l r => prio_le l p /\ prio_le r p end.

Lemma prio_le_weaken t p q : prio_le t p -> p <= q -> prio_le t q.
Proof. destruct t; simpl; lia. Qed.

(** Inserting below a bound [p] yields a heap whose root exceeds [p] only
    when it is the new node, whose children then respect [p]. *)
Lemma insert_heap t key value prio p :
  heap t -> prio_le t p ->
  let t' := treap_insert_node_ t key value prio in
  heap t' /\ (prio_le t' p \/ children_le t' p).
Proof.
  revert p; induction t as [|k0 v0 q l IHl r IHr]; simpl; [naive_solver|].
  intros p (Hl & Hr & Pl & Pr) Hq.
  destruct (cetcd_slice_compare key k0 <? 0).
  - destruct (IHl q Pl Hl) as [Hh Hc].
    destruct (treap_insert_node_ l key value prio) as [|kx vx px xl xr]; simpl in *.
    { by repeat split; auto. }
    destruct (Z.ltb_spec q px); simpl in *.
    + destruct Hc as [|[Hc1 Hc2]]; [lia|]. naive_solver (eauto using prio_le_weaken; lia).
    + split; [naive_solver|left; lia].
  - destruct (IHr q Pr Hr) as [Hh Hc].
    destruct (treap_insert_node_ r key value prio) as [|kx vx px xl xr]; simpl in *.
    { by repeat split; auto. }
    destruct (Z.ltb_spec q px); simpl in *.
    + destruct Hc as [|[Hc1 Hc2]]; [lia|]. naive_solver (eauto using prio_le_weaken; lia).
    + split; [naive_solver|left; lia].
Qed.

Lemma rotate_right_inorder t : inorder (treap_rotate_right_ t) = inorder t.
Proof. destruct t as [|? ? ? [|] ?]; simpl; try done. by rewrite <- app_assoc. Qed.

Lemma rotate_left_inorder t : inorder (treap_rotate_left_ t) = inorder t.
Proof. destruct t as [|? ? ? ? [|]]; simpl; try done. by rewrite <- app_assoc. Qed.

Lemma insert_count t key value prio :
  blen (inorder (treap_insert_node_ t key value prio)) = blen (inorder t) + 1.
Proof.
  induction t as [|k0 v0 p l IHl r IHr]; cbn [treap_insert_node_ inorder]; [done|].
  cbv zeta. repeat case_match; rewrite ?rotate_right_inorder, ?rotate_left_inorder;
    cbn [inorder]; autorewrite with cetcd; lia.
Qed.

(** ** Replacement *)

Lemma replace_keys t key value :
  fst <$> inorder (treap_replace t key value) = fst <$> inorder t.
Proof.
  induction t as [|k0 v0 p l IHl r IHr]; simpl; [done|].
  repeat case_match; simpl; rewrite !fmap_app, ?fmap_cons, ?IHl, ?IHr; done.
Qed.

Lemma replace_heap t key value p :
  heap t -> prio_le t p ->
  heap (treap_replace t key value) /\ prio_le (treap_replace t key value) p.
Proof.
  revert p; induction t as [|k0 v0 q l IHl r IHr]; simpl; [done|].
  intros p (Hl & Hr & Pl & Pr) Hq.
  destruct (IHl q Pl Hl), (IHr q Pr Hr). repeat case_match; simpl; auto.
Qed.

Lemma replace_kv_keys t key value k v :
  kv_in k v (treap_replace t key value) -> exists v', kv_in k v' t.
Proof.
  induction t as [|k0 v0 p l IHl r IHr]; simpl; [done|].
  repeat case_match; simpl; naive_solver.
Qed.

Lemma replace_bst t key value : bst t -> bst (treap_replace t key value).
Proof.
  induction t as [|k0 v0 p l IHl r IHr]; simpl; [done|].
  intros (Hl & Hr & Bl & Br). repeat case_match; simpl; split_and!; eauto;
    intros k' v' H'; apply replace_kv_keys in H' as [? ?]; eauto.
Qed.

Lemma replace_find t key value k :
  treap_find (treap_replace t key value) k =
  if decide (k = key) then (fun _ => value) <$> treap_find t k else treap_find t k.
Proof.
  induction t as [|k0 v0 p l IHl r IHr]; simpl; [by case_decide|].
  destruct (Z.eqb_spec (cetcd_slice_compare key k0) 0) as [E|E].
  { apply slice_compare_eq0 in E as ->. simpl.
    case_decide as Ek; [subst; by rewrite (proj2 (Z.eqb_eq _ _)) by by apply slice_compare_eq0|].
    rewrite (proj2 (Z.eqb_neq _ _)) by (rewrite slice_compare_eq0; done). done. }
  destruct (Z.ltb_spec (cetcd_slice_compare key k0) 0); simpl;
    (case_decide as Ek; [subst|]); repeat case_match; simpl in *; try done; try lia;
    rewrite ?IHl, ?IHr; by case_decide.
Qed.

(** ** Deletion *)

(** What a deletion of [key] from [t] must return. *)
Definition deletes (t : cetcd_treap_node) (key : bytes)
    (res : cetcd_treap_node * bool * option V) : Prop :=
  let '(t', found, val) := res in
  bst t' /\ (forall k v, kv_in k v t' <-> kv_in k v t /\ k <> key) /\
  val = treap_find t key /\ found = bool_decide (is_Some val) /\
  (node_count t = node_count t' + if found then 1 else 0)%nat.

(** Replacing a child of a rotated tree [t2] that holds the same pairs. *)
Lemma deletes_child_l k v p l r key res :
  bst (Node k v p l r) -> lex key k = Lt -> deletes l key res ->
  deletes (Node k v p l r) key (let '(l', f, w) := res in (Node k v p l' r, f, w)).
Proof.
  destruct res as [[l' f] w]. intros (Hl & Hr & Bl & Br) Hk (B & HK & -> & -> & Hc).
  cbn [deletes bst kv_in treap_find node_count]. rewrite slice_compare_lex, Hk.
  cbn [cmp_sign Z.eqb Z.ltb Z.compare]. split_and!; try done.
  - intros k' v' [? _]%HK. eauto.
  - intros k' v'. rewrite HK. split; [|naive_solver].
    intros [[-> ->]|[?|H]]; [split; [auto|]|naive_solver|split; [auto|]].
    + intros ->. by apply lex_lt_irrefl in Hk.
    + intros ->. apply Hr in H. apply (lex_lt_irrefl key). eapply lex_trans; eauto.
  - lia.
Qed.

Lemma deletes_child_r k v p l r key res :
  bst (Node k v p l r) -> lex k key = Lt -> deletes r key res ->
  deletes (Node k v p l r) key (let '(r', f, w) := res in (Node k v p l r', f, w)).
Proof.
  destruct res as [[r' f] w]. intros (Hl & Hr & Bl & Br) Hk (B & HK & -> & -> & Hc).
  cbn [deletes bst kv_in treap_find node_count]. rewrite slice_compare_lex, (lex_antisym k), Hk.
  cbn [CompOpp cmp_sign Z.eqb Z.ltb Z.compare]. split_and!; try done.
  - intros k' v' [? _]%HK. eauto.
  - intros k' v'. rewrite HK. split; [|naive_solver].
    intros [[-> ->]|[H|?]]; [split; [auto|]|split; [auto|]|naive_solver].
    + intros ->. by apply lex_lt_irrefl in Hk.
    + intros ->. apply Hl in H. apply (lex_lt_irrefl key). eapply lex_trans; eauto.
  - lia.
Qed.

(** Deletion commutes with a rearrangement of the tree. *)
Lemma deletes_ext t t2 key res :
  bst t -> bst t2 -> (forall k v, kv_in k v t <-> kv_in k v t2) ->
  node_count t = node_count t2 -> deletes t2 key res -> deletes t key res.
Proof.
  destruct res as [[t' f] w]. intros B B2 He Hn (B' & HK & -> & -> & Hc).
  split_and!; try done.
  - intros k v. by rewrite HK, He.
  - apply treap_find_ext; naive_solver.
  - lia.
Qed.

(** Deleting the key of a root with at most one child. *)
Lemma deletes_root k v p l r c :
  bst (Node k v p l r) -> (l = Leaf /\ c = r \/ r = Leaf /\ c = l) ->
  deletes (Node k v p l r) k (c, true, Some v).
Proof.
  intros (Hl & Hr & Bl & Br) Hc.
  assert (Hne : forall k' v', kv_in k' v' l \/ kv_in k' v' r -> k' <> k).
  { intros k' v' [H|H] ->; [apply Hl in H|apply Hr in H]; by apply lex_lt_irrefl in H. }
  cbn [deletes kv_in treap_find node_count]. rewrite slice_compare_lex, lex_refl.
  cbn [cmp_sign Z.eqb]. rewrite bool_decide_true by eauto.
  destruct Hc as [[-> ->]|[-> ->]]; split_and!; try done; cbn [kv_in node_count] in *; try lia;
    naive_solver.
Qed.

Lemma treap_delete_deletes fuel t key :
  (node_count t < fuel)%nat -> bst t -> deletes t key (treap_delete_node_ fuel t key).
Proof.
  revert t; induction fuel as [|fuel IH]; intros t Hf B; [lia|].
  destruct t as [|k v p l r]; cbn [treap_delete_node_]; [by repeat split; naive_solver|].
  cbn [node_count] in Hf. cbv zeta. rewrite slice_compare_lex.
  destruct (lex key k) eqn:E; cbn [cmp_sign Z.ltb Z.compare].
  - apply lex_eq in E as ->.
    destruct l as [|kl vl pl ll lr], r as [|kr vr pr rl rr];
      try (apply deletes_root; naive_solver).
    cbn [node_count] in Hf. set (l := Node kl vl pl ll lr) in *. set (r := Node kr vr pr rl rr) in *.
    destruct (pr <? pl).
    + pose proof (rotate_right_bst _ B) as B2. cbn [treap_rotate_right_] in B2.
      eapply deletes_ext; [exact B|exact B2| | |].
      { intros k' v'. unfold l. cbn [kv_in]. tauto. }
      { unfold l. cbn [node_count]. lia. }
      apply deletes_child_r; [exact B2|apply (proj1 B kl vl); by left|].
      apply IH; [cbn [node_count r]; lia|apply B2].
    + pose proof (rotate_left_bst _ B) as B2. cbn [treap_rotate_left_] in B2.
      eapply deletes_ext; [exact B|exact B2| | |].
      { intros k' v'. unfold r. cbn [kv_in]. tauto. }
      { unfold r. cbn [node_count]. lia. }
      apply deletes_child_l; [exact B2|apply (proj1 (proj2 B) kr vr); by left|].
      apply IH; [cbn [node_count l]; lia|apply B2].
  - apply deletes_child_l; [done|done|apply IH; [lia|apply B]].
  - apply lex_gt_lt in E. apply deletes_child_r; [done|done|apply IH; [lia|apply B]].
Qed.

(** Deletion keeps the heap.  At the node being removed only its children
    are bounded: its own priority does not matter. *)
Lemma treap_delete_heap fuel key :
  (forall t p, (node_count t < fuel)%nat -> heap t -> prio_le t p ->
     heap (treap_delete_node_ fuel t key).1.1 /\ prio_le (treap_delete_node_ fuel t key).1.1 p) /\
  (forall v q l r p, (node_count (Node key v q l r) < fuel)%nat ->
     heap l -> heap r -> prio_le l p -> prio_le r p ->
     heap (treap_delete_node_ fuel (Node key v q l r) key).1.1 /\
     prio_le (treap_delete_node_ fuel (Node key v q l r) key).1.1 p).
Proof.
  induction fuel as [|fuel [IH1 IH2]]; [split; intros; lia|].
  assert (H2 : forall v q l r p, (node_count (Node key v q l r) < S fuel)%nat ->
     heap l -> heap r -> prio_le l p -> prio_le r p ->
     heap (treap_delete_node_ (S fuel) (Node key v q l r) key).1.1 /\
     prio_le (treap_delete_node_ (S fuel) (Node key v q l r) key).1.1 p).
  { intros v q l r p Hf Hl Hr Pl Pr. cbn [treap_delete_node_ node_count] in *. cbv zeta.
    rewrite slice_compare_lex, lex_refl. cbn [cmp_sign Z.ltb Z.compare].
    destruct l as [|kl vl pl ll lr], r as [|kr vr pr rl rr]; try done.
    cbn [node_count] in Hf. destruct (Z.ltb_spec pr pl).
    - destruct (IH2 v q lr (Node kr vr pr rl rr) pl) as [A B];
        [cbn [node_count] in *; lia|naive_solver|done|naive_solver|cbn; lia|].
      destruct (treap_delete_node_ fuel _ key) as [[c f] w]. cbn in *. naive_solver.
    - destruct (IH2 v q (Node kl vl pl ll lr) rl pr) as [A B];
        [cbn [node_count] in *; lia|done|naive_solver|cbn; lia|naive_solver|].
      destruct (treap_delete_node_ fuel _ key) as [[c f] w]. cbn in *. naive_solver. }
  split; [|exact H2].
  intros t p Hf Hh Hp. destruct t as [|k v q l r]; [done|].
  destruct (lex key k) eqn:E.
  - apply lex_eq in E as ->. cbn in Hh, Hp. destruct Hh as (A & B & C & D).
    apply H2; eauto using prio_le_weaken.
  - cbn [treap_delete_node_ node_count heap prio_le] in *. cbv zeta.
    rewrite slice_compare_lex, E. cbn [cmp_sign Z.ltb Z.compare]. destruct Hh as (A & B & C & D).
    destruct (IH1 l q) as [X Y]; [lia|done|done|].
    destruct (treap_delete_node_ fuel l key) as [[c f] w]. by cbn in *.
  - cbn [treap_delete_node_ node_count heap prio_le] in *. cbv zeta.
    rewrite slice_compare_lex, E. cbn [cmp_sign Z.ltb Z.compare]. destruct Hh as (A & B & C & D).
    destruct (IH1 r q) as [X Y]; [lia|done|done|].
    destruct (treap_delete_node_ fuel r key) as [[c f] w]. by cbn in *.
Qed.

Lemma node_count_inorder t : node_count t = length (inorder t).
Proof.
  induction t; cbn [node_count inorder]; [done|]. rewrite length_app. cbn [length]. lia.
Qed.

(** ** The content as a sorted list and as a finite map *)

Lemma bst_inorder_sorted t : bst t -> StronglySorted lex_lt (inorder t).*1.
Proof.
  induction t as [|k v p l IHl r IHr]; cbn [bst inorder]; [constructor|].
  intros (Hl & Hr & Bl & Br). rewrite fmap_app, fmap_cons. cbn [fst].
  assert (HL : forall x, x ∈ (inorder l).*1 -> lex_lt x k).
  { intros x. rewrite list_elem_of_fmap. intros ([k' v'] & -> & H%kv_in_inorder). by eapply Hl. }
  assert (HR : forall x, x ∈ (inorder r).*1 -> lex_lt k x).
  { intros x. rewrite list_elem_of_fmap. intros ([k' v'] & -> & H%kv_in_inorder). by eapply Hr. }
  apply StronglySorted_app_iff. split_and!; [auto| |].
  - constructor; [auto|]. apply Forall_forall. apply HR.
  - intros x y Hx. rewrite elem_of_cons. intros [->|Hy]; [auto|].
    transitivity k; auto.
Qed.

Lemma treap_map_find t k : bst (root t) -> treap_map t !! k = treap_find (root t) k.
Proof.
  intros B. unfold treap_map.
  assert (ND : NoDup (inorder (root t)).*1)
    by (eapply StronglySorted_NoDup, bst_inorder_sorted, B; apply _).
  destruct (treap_find (root t) k) as [v|] eqn:E.
  - apply treap_find_spec, kv_in_inorder in E; [|done]. by apply elem_of_list_to_map.
  - apply not_elem_of_list_to_map. rewrite list_elem_of_fmap.
    intros ([k' v'] & -> & H%kv_in_inorder). eapply treap_find_none in E; eauto.
Qed.

Lemma treap_put_ok t k v : treap_ok t -> treap_ok (cetcd_treap_put t k v).
Proof.
  intros [B H S]. unfold cetcd_treap_put. destruct (treap_find (root t) k) as [w|] eqn:E; split; cbn.
  - by apply replace_bst.
  - destruct (root t) as [|k0 v0 p l r] eqn:Er; [done|].
    eapply (replace_heap _ _ _ p); [done|cbn; lia].
  - rewrite S. unfold blen. f_equal.
    pose proof (f_equal length (replace_keys (root t) k v)) as Hk.
    by rewrite !length_fmap in Hk.
  - by apply insert_bst.
  - destruct (root t) as [|k0 v0 p l r] eqn:Er; [done|].
    eapply (insert_heap _ _ _ _ p); [done|cbn; lia].
  - rewrite insert_count. lia.
Qed.

Lemma treap_put_find t k v k' : bst (root t) ->
  treap_find (root (cetcd_treap_put t k v)) k' =
  if decide (k = k') then Some v else treap_find (root t) k'.
Proof.
  intros B. unfold cetcd_treap_put. destruct (treap_find (root t) k) as [v0|] eqn:E; cbn [root].
  - rewrite replace_find. repeat case_decide; subst; try done. by rewrite E.
  - pose proof (insert_bst _ k v (treap_prio_from_key_ k) B E) as B'. case_decide as Ek.
    + subst. apply treap_find_spec; [done|]. apply insert_kv. by left.
    + apply treap_find_ext; [done|done|]. intros w. rewrite insert_kv. naive_solver.
Qed.

Lemma treap_del_root t k res :
  treap_ok t -> res = treap_delete_node_ (S (node_count (root t))) (root t) k ->
  deletes (root t) k res /\ heap res.1.1.
Proof.
  intros [B H S] ->. split; [apply treap_delete_deletes; [lia|done]|].
  destruct (root t) as [|k0 v0 p l r] eqn:Er; [done|].
  eapply (proj1 (treap_delete_heap _ k) _ p); [lia|done|cbn; lia].
Qed.

Lemma treap_del_correct t k : treap_ok t ->
  let '(t', val) := cetcd_treap_del t k in
  treap_ok t' /\ val = treap_find (root t) k /\
  forall k' v, kv_in k' v (root t') <-> kv_in k' v (root t) /\ k' <> k.
Proof.
  intros Hok. pose proof (ok_size _ Hok) as S. unfold cetcd_treap_del.
  destruct (treap_del_root t k _ Hok eq_refl) as [D Hh].
  destruct (root t) as [|k0 v0 p l r] eqn:Er.
  { split_and!; [done|done|]. rewrite Er. naive_solver. }
  rewrite <- Er in *. destruct (treap_delete_node_ _ _ k) as [[t' f] w].
  destruct D as (B' & HK & -> & -> & Hn). cbn [fst] in Hh.
  rewrite !node_count_inorder in Hn. unfold blen in S.
  destruct (treap_find (root t) k) as [v|] eqn:E.
  - rewrite bool_decide_true in * by eauto.
    split_and!; try done. split; try done. cbn. unfold blen. guards; lia.
  - rewrite bool_decide_false in * by (intros [? ?]; done).
    split_and!; try done. split; try done. cbn. unfold blen. lia.
Qed.

(** ** Traversals visit the content in ascending key order *)

Definition in_range_ (lo hi : bytes) (kv : bytes * V) : bool :=
  (0 <=? cetcd_slice_compare kv.1 lo) &&
  (if 0 <? blen hi then cetcd_slice_compare kv.1 hi <? 0 else true).

Lemma range_fold {St} (fn : bytes -> V -> St -> St * bool) t lo hi st :
  treap_inorder_range_ fn t lo hi st =
  fold_stop (fun kv => fn kv.1 kv.2) (List.filter (in_range_ lo hi) (inorder t)) st.
Proof.
  revert st; induction t as [|k v p l IHl r IHr]; intros st; cbn [treap_inorder_range_ inorder]; [done|].
  rewrite List.filter_app, fold_stop_app, <- IHl.
  destruct (treap_inorder_range_ fn l lo hi st) as [st1 []]; cbn [negb]; [|done].
  cbn [List.filter].
  assert (Hok : in_range_ lo hi (k, v) =
    if (0 <=? cetcd_slice_compare k lo) && (0 <? blen hi)
    then cetcd_slice_compare k hi <? 0 else 0 <=? cetcd_slice_compare k lo).
  { unfold in_range_. cbn [fst]. destruct (0 <=? _), (0 <? blen hi); cbn [andb]; done. }
  cbv zeta. rewrite <- Hok. destruct (in_range_ lo hi (k, v)); [|apply IHr].
  cbn [fold_stop fst snd]. destruct (fn k v st1) as [st2 []]; cbn [negb]; [apply IHr|done].
Qed.

Lemma iter_fold {St} (fn : bytes -> V -> St -> St * bool) t st :
  treap_iter_inorder_ fn t st = fold_stop (fun kv => fn kv.1 kv.2) (inorder t) st.
Proof.
  revert st; induction t as [|k v p l IHl r IHr]; intros st; cbn [treap_iter_inorder_ inorder]; [done|].
  rewrite fold_stop_app, <- IHl.
  destruct (treap_iter_inorder_ fn l st) as [st1 []]; cbn [negb]; [|done].
  cbn [fold_stop fst snd]. destruct (fn k v st1) as [st2 []]; cbn [negb]; [apply IHr|done].
Qed.

End Treap.

Arguments cetcd_treap_node : clear implicits.
Arguments cetcd_treap : clear implicits.

(** ** The interface of an ordered key index

    What the MVCC store uses of the treap, and the laws it relies on. *)

Class KeyIndex (T : Type -> Type) : Type := {
  ki_new {V} : T V;
  ki_get {V} : T V -> bytes -> option V;
  ki_put {V} : T V -> bytes -> V -> T V;
  ki_del {V} : T V -> bytes -> T V * option V;
  ki_range {V St} : (bytes -> V -> St -> St * bool) -> T V -> bytes -> bytes -> St -> St
}.

Class KeyIndexLaws (T : Type -> Type) `{!KeyIndex T} : Type := {
  ki_ok {V} : T V -> Prop;
  ki_map {V} : T V -> gmap bytes V;
  ki_entries {V} : T V -> list (bytes * V);
  ki_new_ok {V} : ki_ok (ki_new (V := V));
  ki_new_map {V} : ki_map (ki_new (V := V)) = ∅;
  ki_get_map {V} (t : T V) k : ki_ok t -> ki_get t k = ki_map t !! k;
  ki_put_ok {V} (t : T V) k v : ki_ok t -> ki_ok (ki_put t k v);
  ki_put_map {V} (t : T V) k v : ki_ok t -> ki_map (ki_put t k v) = <[k := v]> (ki_map t);
  ki_del_ok {V} (t : T V) k : ki_ok t -> ki_ok (ki_del t k).1;
  ki_del_map {V} (t : T V) k : ki_ok t -> ki_map (ki_del t k).1 = delete k (ki_map t);
  ki_del_val {V} (t : T V) k : ki_ok t -> (ki_del t k).2 = ki_map t !! k;
  ki_entries_sorted {V} (t : T V) : ki_ok t -> StronglySorted lex_lt (ki_entries t).*1;
  ki_entries_map {V} (t : T V) : ki_ok t -> list_to_map (ki_entries t) = ki_map t;
  ki_range_entries {V St} (fn : bytes -> V -> St -> St * bool) (t : T V) lo hi st :
    ki_range fn t lo hi st =
    (fold_stop (fun kv => fn kv.1 kv.2) (List.filter (in_range_ lo hi) (ki_entries t)) st).1
}.

#[export] Instance treap_index : KeyIndex cetcd_treap := {|
  ki_new V := cetcd_treap_new;
  ki_get V := cetcd_treap_get;
  ki_put V := cetcd_treap_put;
  ki_del V := cetcd_treap_del;
  ki_range V St := cetcd_treap_range
|}.

Section Laws.
Context {V : Type}.
Implicit Types t : cetcd_treap V.

Lemma treap_new_ok : treap_ok (cetcd_treap_new (V := V)).
Proof. by split. Qed.

Lemma treap_del_ok t k : treap_ok t -> treap_ok (cetcd_treap_del t k).1.
Proof.
  intros H. pose proof (treap_del_correct t k H) as D.
  by destruct (cetcd_treap_del t k) as [t' w], D as (? & _ & _).
Qed.

Lemma treap_put_map t k v : treap_ok t ->
  treap_map (cetcd_treap_put t k v) = <[k := v]> (treap_map t).
Proof.
  intros H. apply map_eq. intros k'. rewrite lookup_insert.
  rewrite !treap_map_find by (apply ok_bst; by try apply treap_put_ok).
  apply treap_put_find. by apply ok_bst.
Qed.

Lemma treap_del_map t k : treap_ok t ->
  treap_map (cetcd_treap_del t k).1 = delete k (treap_map t).
Proof.
  intros H. pose proof (treap_del_ok t k H) as H'. pose proof (treap_del_correct t k H) as D.
  destruct (cetcd_treap_del t k) as [t' w], D as (_ & _ & HK). cbn [fst] in *.
  apply map_eq. intros k'. rewrite lookup_delete, !treap_map_find by (by apply ok_bst).
  case_decide as E.
  - apply treap_find_none; [by apply ok_bst|]. intros v. rewrite HK. naive_solver.
  - apply treap_find_ext; [by apply ok_bst ..|]. intros v. rewrite HK. naive_solver.
Qed.

Lemma treap_del_val t k : treap_ok t -> (cetcd_treap_del t k).2 = treap_map t !! k.
Proof.
  intros H. rewrite treap_map_find by (by apply ok_bst).
  pose proof (treap_del_correct t k H) as D.
  by destruct (cetcd_treap_del t k) as [t' w], D as (_ & -> & _).
Qed.

Lemma treap_size_map t : treap_ok t -> cetcd_treap_size t = Z.of_nat (base.size (treap_map t)).
Proof.
  intros [B H S]. unfold cetcd_treap_size, treap_map. rewrite S. unfold blen. f_equal.
  symmetry. rewrite <- (length_fmap fst). rewrite <- size_dom, dom_list_to_map_L.
  apply size_list_to_set. eapply StronglySorted_NoDup, bst_inorder_sorted, B. apply _.
Qed.
End Laws.

#[export] Instance treap_index_laws : KeyIndexLaws cetcd_treap.
Proof.
  refine {| ki_ok V := treap_ok; ki_map V := treap_map; ki_entries V t := inorder (root t) |};
    intros; cbn [ki_new ki_get ki_put ki_del ki_range treap_index].
  - apply treap_new_ok.
  - done.
  - symmetry. apply treap_map_find. by apply ok_bst.
  - by apply treap_put_ok.
  - by apply treap_put_map.
  - by apply treap_del_ok.
  - by apply treap_del_map.
  - by apply treap_del_val.
  - apply bst_inorder_sorted. by apply ok_bst.
  - done.
  - unfold cetcd_treap_range. by rewrite range_fold.
Defined.

(** ** Properties *)

(** C13 (refinement).  Every treap operation keeps the search-tree order, the
    heap order and the size, and acts on the abstract map as lookup, insertion
    and deletion; a deletion returns the value removed. *)
Theorem treap_refines_map {V} (t : cetcd_treap V) (k : bytes) (v : V)
  (Hok : treap_ok t) :
  cetcd_treap_get t k = treap_map t !! k /\
  cetcd_treap_size t = Z.of_nat (base.size (treap_map t)) /\
  (treap_ok (cetcd_treap_put t k v) /\
  treap_map (cetcd_treap_put t k v) = <[k := v]> (treap_map t)) /\
  (treap_ok (cetcd_treap_del t k).1 /\
  treap_map (cetcd_treap_del t k).1 = delete k (treap_map t) /\
  (cetcd_treap_del t k).2 = treap_map t !! k).
Proof.
  split_and!; eauto using treap_put_ok, treap_put_map, treap_del_ok, treap_del_map,
    treap_del_val, treap_size_map.
  symmetry. apply treap_map_find. by apply ok_bst.
Qed.

Definition sample_treap : cetcd_treap Z :=
  foldl (fun t k => cetcd_treap_put t [k; 7] (k * 10)) cetcd_treap_new [5; 2; 9; 1; 7; 3].

Lemma sample_treap_ok : treap_ok sample_treap.
Proof.
  unfold sample_treap.
  cut (forall l (t : cetcd_treap Z), treap_ok t ->
    treap_ok (foldl (fun t k => cetcd_treap_put t [k; 7] (k * 10)) t l)).
  { intros H. apply H, treap_new_ok. }
  induction l as [|x l IH]; intros t Ht; cbn [foldl]; [done|]. apply IH, treap_put_ok, Ht.
Defined.

Lemma treap_refines_map_witness :
  (cetcd_treap_del sample_treap [7; 7]).2 = treap_map sample_treap !! [7; 7]
  /\ cetcd_treap_get sample_treap [7; 7] = Some 70
  /\ cetcd_treap_size sample_treap = 6.
Proof.
  pose proof (treap_refines_map sample_treap [7; 7] 0 sample_treap_ok) as H.
  split; [apply H | split; reflexivity].
Defined.

(** Ordered range.  A range walk calls the callback on exactly the pairs
    whose key lies in [[lo, hi)] (no upper bound when [hi] is empty), in strictly
    ascending key order, and stops when the callback says so. *)
Theorem treap_range_spec {V St} (fn : bytes -> V -> St -> St * bool)
  (t : cetcd_treap V) (lo hi : bytes) (st : St) (Hok : treap_ok t) :
  let hits := List.filter (in_range_ lo hi) (inorder (root t)) in
  cetcd_treap_range fn t lo hi st = (fold_stop (fun kv => fn kv.1 kv.2) hits st).1 /\
  StronglySorted lex_lt hits.*1 /\
  (forall k v, (k, v) ∈ hits <->
     treap_map t !! k = Some v /\ lex k lo <> Lt /\ (hi = [] \/ lex k hi = Lt)).
Proof.
  intros hits. split_and!.
  - unfold cetcd_treap_range. by rewrite range_fold.
  - subst hits. pose proof (bst_inorder_sorted _ (ok_bst _ Hok)) as Hs.
    induction (inorder (root t)) as [|kv l IH]; cbn [List.filter]; [constructor|].
    cbn [fmap list_fmap] in Hs. apply StronglySorted_inv in Hs as [Hs Hf].
    destruct (in_range_ lo hi kv); [|auto]. cbn [fmap list_fmap]. constructor; [auto|].
    rewrite Forall_forall in *. intros x Hx. apply Hf.
    rewrite list_elem_of_fmap in *. destruct Hx as (y & -> & Hy). exists y. split; [done|].
    rewrite list_elem_of_In in *. apply List.filter_In in Hy. tauto.
  - intros k v. subst hits. rewrite list_elem_of_In, List.filter_In, <- list_elem_of_In.
    rewrite treap_map_find, treap_find_spec, <- kv_in_inorder by (by apply ok_bst).
    unfold in_range_. cbn [fst]. rewrite andb_true_iff, Z.leb_le, slice_compare_lex.
    assert (Hlo : 0 <= cmp_sign (lex k lo) <-> lex k lo <> Lt)
      by (destruct (lex k lo); cbn; split; (done || lia)).
    assert (Hhi : (if 0 <? blen hi then cetcd_slice_compare k hi <? 0 else true) = true
                  <-> hi = [] \/ lex k hi = Lt).
    { rewrite <- slice_compare_lt0, <- Z.ltb_lt. destruct hi as [|b hi]; [cbn; tauto|].
      replace (0 <? blen (b :: hi)) with true; [naive_solver|].
      symmetry. apply Z.ltb_lt. unfold blen. simpl. lia. }
    by rewrite Hlo, Hhi.
Qed.

Lemma treap_range_spec_witness :
  cetcd_treap_range (fun k (v : Z) (acc : list Z) => (acc ++ [v], true)) sample_treap [2] [7; 7] []
  = [20; 30; 50].
Proof.
  pose proof (treap_range_spec (fun k (v : Z) (acc : list Z) => (acc ++ [v], true))
    sample_treap [2] [7; 7] [] sample_treap_ok) as H.
  rewrite (proj1 H). vm_compute. reflexivity.
Defined.
