(* ===== verification/Hashmap.v ===== *)
(** * The open-addressing hash map (src/base/hashmap.c)

    Linear probing over a power-of-two table, with tombstones and a maximal
    load of 7/10.  The table is a list of slots of length [cap].  The
    [calloc] and [malloc] calls are taken to succeed. *)

From S2P Require Import Prelude Slice Hash.

Section Hashmap.
Context {V : Type}.

(** ** Data *)

(** [slot] with its [slot_state]; an empty slot and a tombstone carry no
    data the code reads. *)
Inductive slot : Type :=
| SLOT_EMPTY
| SLOT_OCCUPIED (hash : Z) (key : bytes) (value : V)
| SLOT_TOMBSTONE.

Record cetcd_hashmap : Type := mk_hashmap {
  slots : list slot;
  cap : Z;
  size : Z;
  tombstones : Z
}.

Definition CETCD_HASHMAP_MIN_CAP : Z := 8.
Definition CETCD_HASHMAP_LOAD_NUMER : Z := 7.
Definition CETCD_HASHMAP_LOAD_DENOM : Z := 10.

(** ** Operations *)

(** [while (p < n) p <<= 1]: doubling at most 64 times reaches any [size_t]. *)
Fixpoint next_pow2_loop (fuel : nat) (p n : Z) : Z :=
  match fuel with
  | O => p
  | S fuel => if p <? n then next_pow2_loop fuel (Z.shiftl p 1) n else p
  end.

Definition next_pow2_ (n : Z) : Z := next_pow2_loop 64 1 n.

Definition map_alloc_table_ (c : Z) : cetcd_hashmap :=
  mk_hashmap (replicate (Z.to_nat c) SLOT_EMPTY) c 0 0.

Definition cetcd_hashmap_new (initial_cap : Z) : cetcd_hashmap :=
  map_alloc_table_ (if initial_cap <? CETCD_HASHMAP_MIN_CAP
                    then CETCD_HASHMAP_MIN_CAP else next_pow2_ initial_cap).

Definition cetcd_hashmap_size (m : cetcd_hashmap) : Z := size m.
Definition cetcd_hashmap_capacity (m : cetcd_hashmap) : Z := cap m.

Definition slot_at (t : list slot) (i : Z) : slot := default SLOT_EMPTY (t !! Z.to_nat i).

(** The probe loop; [n] is the number of probes left, [first_tomb] is [None]
    for [(size_t)-1].  Result: the slot index and [*found_out]. *)
Fixpoint find_slot_loop (t : list slot) (mask idx : Z) (key : bytes) (h : Z)
    (n : nat) (probe : Z) (first_tomb : option Z) : Z * bool :=
  match n with
  | O => (default 0 first_tomb, false)
  | S n =>
      let i := Z.land (idx + probe) mask in
      match slot_at t i with
      | SLOT_EMPTY => (default i first_tomb, false)
      | SLOT_TOMBSTONE =>
          find_slot_loop t mask idx key h n (probe + 1)
            (match first_tomb with None => Some i | Some _ => first_tomb end)
      | SLOT_OCCUPIED h' k' _ =>
          if (h' =? h) && cetcd_slice_equal k' key then (i, true)
          else find_slot_loop t mask idx key h n (probe + 1) first_tomb
      end
  end.

Definition find_slot_ (m : cetcd_hashmap) (key : bytes) (h : Z) : Z * bool :=
  let mask := cap m - 1 in
  find_slot_loop (slots m) mask (Z.land h mask) key h (Z.to_nat (cap m)) 0 None.

(** The inner loop of [map_resize_]: the index of the first empty slot. *)
Fixpoint empty_slot_loop (t : list slot) (mask idx : Z) (n : nat) (probe : Z) : option Z :=
  match n with
  | O => None
  | S n =>
      let j := Z.land (idx + probe) mask in
      match slot_at t j with
      | SLOT_EMPTY => Some j
      | _ => empty_slot_loop t mask idx n (probe + 1)
      end
  end.

Definition rehash_slot (m : cetcd_hashmap) (s : slot) : cetcd_hashmap :=
  match s with
  | SLOT_OCCUPIED h k v =>
      let mask := cap m - 1 in
      match empty_slot_loop (slots m) mask (Z.land h mask) (Z.to_nat (cap m)) 0 with
      | Some j => mk_hashmap (<[Z.to_nat j := s]> (slots m)) (cap m) (size m + 1) (tombstones m)
      | None => m
      end
  | _ => m
  end.

Definition map_resize_ (m : cetcd_hashmap) (new_cap : Z) : cetcd_hashmap :=
  foldl rehash_slot (map_alloc_table_ new_cap) (slots m).

Definition cetcd_hashmap_put (m : cetcd_hashmap) (key : bytes) (value : V) : cetcd_hashmap :=
  let m :=
    if cap m * CETCD_HASHMAP_LOAD_NUMER <?
       (size m + tombstones m + 1) * CETCD_HASHMAP_LOAD_DENOM
    then
      let new_cap := cap m * 2 in
      let new_cap := if new_cap <? CETCD_HASHMAP_MIN_CAP then CETCD_HASHMAP_MIN_CAP else new_cap in
      map_resize_ m new_cap
    else m in
  let h := cetcd_hash_fnv1a64 key in
  let '(idx, found) := find_slot_ m key h in
  let i := Z.to_nat idx in
  if found then
    match slot_at (slots m) idx with
    | SLOT_OCCUPIED h' k' _ =>
        mk_hashmap (<[i := SLOT_OCCUPIED h' k' value]> (slots m)) (cap m) (size m) (tombstones m)
    | _ => m
    end
  else
    let tombs :=
      match slot_at (slots m) idx with
      | SLOT_TOMBSTONE => if 0 <? tombstones m then tombstones m - 1 else tombstones m
      | _ => tombstones m
      end in
    mk_hashmap (<[i := SLOT_OCCUPIED h key value]> (slots m)) (cap m) (size m + 1) tombs.

Definition cetcd_hashmap_get (m : cetcd_hashmap) (key : bytes) : option V :=
  if size m =? 0 then None
  else
    let '(idx, found) := find_slot_ m key (cetcd_hash_fnv1a64 key) in
    if negb found then None
    else match slot_at (slots m) idx with
         | SLOT_OCCUPIED _ _ v => Some v
         | _ => None
         end.

Definition cetcd_hashmap_contains (m : cetcd_hashmap) (key : bytes) : bool :=
  bool_decide (is_Some (cetcd_hashmap_get m key)).

Definition cetcd_hashmap_remove (m : cetcd_hashmap) (key : bytes) : cetcd_hashmap * option V :=
  if size m =? 0 then (m, None)
  else
    let '(idx, found) := find_slot_ m key (cetcd_hash_fnv1a64 key) in
    if negb found then (m, None)
    else match slot_at (slots m) idx with
         | SLOT_OCCUPIED _ _ v =>
             (mk_hashmap (<[Z.to_nat idx := SLOT_TOMBSTONE]> (slots m)) (cap m)
                         (size m - 1) (tombstones m + 1), Some v)
         | _ => (m, None)
         end.

(** [cetcd_hashmap_iter]: table order, stopping when the callback says so. *)
Definition cetcd_hashmap_iter {St} (fn : bytes -> V -> St -> St * bool)
    (m : cetcd_hashmap) (st : St) : St :=
  (fold_stop (fun s st => match s with
                          | SLOT_OCCUPIED _ k v => fn k v st
                          | _ => (st, true)
                          end) (slots m) st).1.

(** A write through the pointer stored under [key]: the table itself does not
    change. *)
Definition hashmap_modify (m : cetcd_hashmap) (key : bytes) (f : V -> V) : cetcd_hashmap :=
  let '(idx, found) := find_slot_ m key (cetcd_hash_fnv1a64 key) in
  if negb found then m
  else match slot_at (slots m) idx with
       | SLOT_OCCUPIED h k v =>
           mk_hashmap (<[Z.to_nat idx := SLOT_OCCUPIED h k (f v)]> (slots m)) (cap m) (size m) (tombstones m)
       | _ => m
       end.

(** ** Content and invariant *)

Definition occ (s : slot) : option (bytes * V) :=
  match s with SLOT_OCCUPIED _ k v => Some (k, v) | _ => None end.

Definition entries (m : cetcd_hashmap) : list (bytes * V) := omap occ (slots m).

Definition hm_map (m : cetcd_hashmap) : gmap bytes V := list_to_map (entries m).

Definition is_empty (s : slot) : bool := match s with SLOT_EMPTY => true | _ => false end.
Definition is_tomb (s : slot) : bool := match s with SLOT_TOMBSTONE => true | _ => false end.

Definition count (f : slot -> bool) (t : list slot) : nat := length (List.filter f t).

(** Position of the [d]-th probe for hash [h] in a table of [c] slots. *)
Definition probe_pos (c h d : Z) : Z := (h + d) mod c.

(** The probe sequence of every stored key reaches it over non-empty slots. *)
Definition reaches (t : list slot) (c h i : Z) : Prop :=
  exists d, 0 <= d < c /\ probe_pos c h d = i /\
            forall d', 0 <= d' < d -> slot_at t (probe_pos c h d') <> SLOT_EMPTY.

(** The part of the invariant that concerns the table alone. *)
Record table_ok (t : list slot) (c : Z) : Prop := {
  tab_len : blen t = c;
  tab_pow : exists k, 3 <= k /\ c = 2 ^ k;
  tab_hash i h k v : t !! i = Some (SLOT_OCCUPIED h k v) -> h = cetcd_hash_fnv1a64 k;
  tab_reach i h k v : t !! i = Some (SLOT_OCCUPIED h k v) -> reaches t c h (Z.of_nat i);
  tab_uniq i j h h' k v v' : t !! i = Some (SLOT_OCCUPIED h k v) ->
    t !! j = Some (SLOT_OCCUPIED h' k v') -> i = j
}.

Record hm_ok (m : cetcd_hashmap) : Prop := {
  hm_table : table_ok (slots m) (cap m);
  hm_size : size m = blen (entries m);
  hm_tombs : tombstones m = Z.of_nat (count is_tomb (slots m));
  hm_load : (size m + tombstones m) * CETCD_HASHMAP_LOAD_DENOM
            <= cap m * CETCD_HASHMAP_LOAD_NUMER
}.

(** ** Probe arithmetic *)

Lemma land_mask c x : (exists k, 3 <= k /\ c = 2 ^ k) -> Z.land x (c - 1) = x mod c.
Proof.
  intros (k & Hk & ->). rewrite <- Z.land_ones by lia. f_equal. rewrite Z.ones_equiv. lia.
Qed.

Lemma pow_cap_pos c : (exists k, 3 <= k /\ c = 2 ^ k) -> 8 <= c.
Proof. intros (k & Hk & ->). pose proof (Z.pow_le_mono_r 2 3 k). lia. Qed.

Lemma probe_step c h d : (exists k, 3 <= k /\ c = 2 ^ k) ->
  Z.land (Z.land h (c - 1) + d) (c - 1) = probe_pos c h d.
Proof.
  intros Hc. rewrite !land_mask by done. pose proof (pow_cap_pos _ Hc).
  unfold probe_pos. apply Z.add_mod_idemp_l. lia.
Qed.

Lemma probe_range c h d : 0 < c -> 0 <= probe_pos c h d < c.
Proof. intros. by apply Z.mod_pos_bound. Qed.

Lemma probe_inj c h d d' : 0 <= d < c -> 0 <= d' < c ->
  probe_pos c h d = probe_pos c h d' -> d = d'.
Proof.
  unfold probe_pos. intros Hd Hd' E.
  assert (E' : (h + d - (h + d')) mod c = 0).
  { rewrite Zminus_mod, E, Z.sub_diag. apply Z.mod_0_l. lia. }
  replace (h + d - (h + d')) with (d - d') in E' by lia.
  destruct (Z.lt_trichotomy d d') as [H|[H|H]]; [|done|].
  - rewrite <- (Z.mod_unique (d - d') c (-1) (d - d' + c)) in E'; lia.
  - rewrite Z.mod_small in E'; lia.
Qed.

Lemma probe_surj c h i : 0 <= i < c -> exists d, 0 <= d < c /\ probe_pos c h d = i.
Proof.
  intros Hi. exists ((i - h) mod c). split; [apply Z.mod_pos_bound; lia|].
  unfold probe_pos. rewrite Z.add_mod_idemp_r by lia.
  replace (h + (i - h)) with i by lia. by apply Z.mod_small.
Qed.

Lemma slot_at_lookup t i s : t !! i = Some s -> slot_at t (Z.of_nat i) = s.
Proof. intros H. unfold slot_at. by rewrite Nat2Z.id, H. Qed.

Lemma slot_at_occ t i h k v :
  slot_at t i = SLOT_OCCUPIED h k v -> t !! Z.to_nat i = Some (SLOT_OCCUPIED h k v).
Proof. unfold slot_at. destruct (t !! Z.to_nat i); simpl; naive_solver. Qed.

(** ** The probe loops *)

Section Probe.
Context (t : list slot) (c h : Z) (key : bytes).
Hypothesis Hc : exists k, 3 <= k /\ c = 2 ^ k.

Abbreviation P d := (slot_at t (probe_pos c h d)).
Abbreviation loop := (find_slot_loop t (c - 1) (Z.land h (c - 1)) key h).

Lemma find_loop_present n p d0 ft v :
  P d0 = SLOT_OCCUPIED h key v -> p <= d0 < p + Z.of_nat n ->
  (forall d, p <= d < d0 -> P d <> SLOT_EMPTY /\
     forall h' v', P d <> SLOT_OCCUPIED h' key v') ->
  loop n p ft = (probe_pos c h d0, true).
Proof.
  intros H0. revert p ft; induction n as [|n IH]; intros p ft Hr Hp; [lia|].
  cbn [find_slot_loop]. cbv zeta. rewrite probe_step by done.
  destruct (Z.eq_dec p d0) as [->|].
  - rewrite H0, Z.eqb_refl. cbn [andb].
    by rewrite (proj2 (slice_equal_spec key key)).
  - assert (IH' : forall ft', loop n (p + 1) ft' = (probe_pos c h d0, true)).
    { intros ft'. apply IH; [lia|]. intros; apply Hp; lia. }
    destruct (Hp p ltac:(lia)) as [He Ho].
    destruct (P p) as [|h' k' v'|]; [done| |apply IH'].
    destruct (cetcd_slice_equal k' key) eqn:Ek.
    + apply slice_equal_spec in Ek as ->. by destruct (Ho h' v').
    + rewrite andb_false_r. apply IH'.
Qed.

Lemma find_loop_absent n p d0 ft :
  P d0 = SLOT_EMPTY -> 0 <= p <= d0 -> d0 < p + Z.of_nat n -> d0 < c ->
  (forall d h' v', 0 <= d <= d0 -> P d <> SLOT_OCCUPIED h' key v') ->
  (forall d, 0 <= d < p -> P d <> SLOT_EMPTY) ->
  (forall i, ft = Some i -> exists d, 0 <= d < p /\ i = probe_pos c h d /\ P d = SLOT_TOMBSTONE) ->
  exists d, 0 <= d < c /\ loop n p ft = (probe_pos c h d, false) /\
    (P d = SLOT_EMPTY \/ P d = SLOT_TOMBSTONE) /\
    forall d', 0 <= d' < d -> P d' <> SLOT_EMPTY.
Proof.
  intros H0. revert p ft; induction n as [|n IH]; intros p ft Hp Hn Hd Hno Hne Hft; [lia|].
  cbn [find_slot_loop]. cbv zeta. rewrite probe_step by done.
  destruct (P p) as [|h' k' v'|] eqn:Ep.
  - destruct ft as [i|]; cbn [default].
    + destruct (Hft i eq_refl) as (d & Hd1 & -> & Hd2). exists d. split_and!; eauto; try lia.
      intros; apply Hne; lia.
    + exists p. split_and!; eauto; lia.
  - destruct (cetcd_slice_equal k' key) eqn:Ek.
    { apply slice_equal_spec in Ek as ->. by destruct (Hno p h' v' ltac:(lia)). }
    rewrite andb_false_r. apply IH; try lia; try done.
    + destruct (Z.eq_dec p d0); [subst; congruence|lia].
    + intros d Hd'. destruct (Z.eq_dec d p) as [->|]; [congruence|apply Hne; lia].
    + intros i Hi. destruct (Hft i Hi) as (d & ? & ? & ?). exists d. split_and!; eauto; lia.
  - apply IH; try lia; try done.
    + destruct (Z.eq_dec p d0); [subst; congruence|lia].
    + intros d Hd'. destruct (Z.eq_dec d p) as [->|]; [congruence|apply Hne; lia].
    + intros i Hi. destruct ft as [i'|]; simplify_eq.
      * destruct (Hft i eq_refl) as (d & ? & ? & ?). exists d. split_and!; eauto; lia.
      * exists p. split_and!; eauto; lia.
Qed.

Lemma empty_loop_spec n p d0 :
  P d0 = SLOT_EMPTY -> 0 <= p <= d0 -> d0 < p + Z.of_nat n -> d0 < c ->
  (forall d, 0 <= d < p -> P d <> SLOT_EMPTY) ->
  exists d, 0 <= d < c /\
    empty_slot_loop t (c - 1) (Z.land h (c - 1)) n p = Some (probe_pos c h d) /\
    P d = SLOT_EMPTY /\ forall d', 0 <= d' < d -> P d' <> SLOT_EMPTY.
Proof.
  intros H0. revert p; induction n as [|n IH]; intros p Hp Hn Hd Hne; [lia|].
  cbn [empty_slot_loop]. cbv zeta. rewrite probe_step by done.
  destruct (P p) as [|h' k' v'|] eqn:Ep.
  - exists p. split_and!; eauto; lia.
  - apply IH; try lia; [destruct (Z.eq_dec p d0); [subst; congruence|lia]|].
    intros d Hd'. destruct (Z.eq_dec d p) as [->|]; [congruence|apply Hne; lia].
  - apply IH; try lia; [destruct (Z.eq_dec p d0); [subst; congruence|lia]|].
    intros d Hd'. destruct (Z.eq_dec d p) as [->|]; [congruence|apply Hne; lia].
Qed.
End Probe.

(** ** Counting slots *)

Lemma count_total t :
  length t = (count is_empty t + count is_tomb t + length (omap occ t))%nat.
Proof.
  unfold count. induction t as [|[] t IH]; csimpl; lia.
Qed.

Lemma update_split (t : list slot) i s s0 : t !! i = Some s0 ->
  t = take i t ++ s0 :: drop (S i) t /\ <[i := s]> t = take i t ++ s :: drop (S i) t.
Proof.
  intros H. split; [by rewrite take_drop_middle|].
  apply insert_take_drop, (lookup_lt_Some _ _ _ H).
Qed.

Lemma count_update f t i s s0 : t !! i = Some s0 ->
  (count f (<[i := s]> t) + (if f s0 then 1 else 0) = count f t + (if f s then 1 else 0))%nat.
Proof.
  intros H. destruct (update_split t i s s0 H) as [E1 E2].
  rewrite E2. clear H E2. revert E1. generalize (take i t) (drop (S i) t). intros a b ->.
  unfold count. rewrite !List.filter_app, !length_app. cbn [List.filter].
  destruct (f s), (f s0); cbn [length]; lia.
Qed.

Lemma entries_update (t : list slot) i s s0 : t !! i = Some s0 ->
  (length (omap occ (<[i := s]> t)) + (if occ s0 then 1 else 0)
   = length (omap occ t) + (if occ s then 1 else 0))%nat.
Proof.
  intros H. destruct (update_split t i s s0 H) as [E1 E2].
  rewrite E2. clear H E2. revert E1. generalize (take i t) (drop (S i) t). intros a b ->.
  rewrite !omap_app, !length_app. csimpl.
  destruct (occ s), (occ s0); simpl; lia.
Qed.

Lemma count_pos f t : (0 < count f t)%nat -> exists i s, t !! i = Some s /\ f s = true.
Proof.
  unfold count. induction t as [|s t IH]; cbn; [lia|].
  destruct (f s) eqn:E; [intros _; by exists 0%nat, s|].
  intros H. destruct (IH H) as (i & s' & ? & ?). by exists (S i), s'.
Qed.

Lemma exists_empty_probe t c h :
  table_ok t c -> (count is_tomb t + length (omap occ t) < length t)%nat ->
  exists d, 0 <= d < c /\ slot_at t (probe_pos c h d) = SLOT_EMPTY.
Proof.
  intros [Hl Hp _ _ _] Hlt. rewrite count_total in Hlt.
  destruct (count_pos is_empty t ltac:(lia)) as (i & s & Hi & Hs).
  assert (Hib : (i < length t)%nat) by (by eapply lookup_lt_Some).
  destruct (probe_surj c h (Z.of_nat i)) as (d & Hd & Hpos); [unfold blen in Hl; lia|].
  exists d. split; [done|]. rewrite Hpos, (slot_at_lookup _ _ _ Hi). by destruct s.
Qed.

(** ** The content of a table *)

Lemma entries_elem (t : list slot) k v :
  (k, v) ∈ omap occ t <-> exists i h, t !! i = Some (SLOT_OCCUPIED h k v).
Proof.
  rewrite list_elem_of_omap. split.
  - intros (s & (i & Hi)%list_elem_of_lookup & Ho). destruct s; simplify_eq/=. eauto.
  - intros (i & h & Hi). exists (SLOT_OCCUPIED h k v).
    split; [by apply list_elem_of_lookup; eauto|done].
Qed.

Lemma entries_NoDup (t : list slot) :
  (forall i j h h' k v v', t !! i = Some (SLOT_OCCUPIED h k v) ->
     t !! j = Some (SLOT_OCCUPIED h' k v') -> i = j) ->
  NoDup (omap occ t).*1.
Proof.
  induction t as [|s t IH]; intros Hu; [constructor|].
  assert (Ht : NoDup (omap occ t).*1).
  { apply IH. intros i j h h' k v v' Hi Hj.
    assert (S i = S j) by (eapply Hu; [exact Hi|exact Hj]). lia. }
  destruct s as [|h k v|]; csimpl; try done. constructor; [|done].
  rewrite list_elem_of_fmap. intros ([k' v'] & -> & (j & h' & Hj)%entries_elem).
  discriminate (Hu 0%nat (S j) h h' k' v v' eq_refl Hj).
Qed.

Lemma hm_map_lookup m k v : table_ok (slots m) (cap m) ->
  hm_map m !! k = Some v <-> exists i h, slots m !! i = Some (SLOT_OCCUPIED h k v).
Proof.
  intros Hok. unfold hm_map, entries. rewrite <- entries_elem.
  symmetry. apply elem_of_list_to_map. eapply entries_NoDup, tab_uniq, Hok.
Qed.

Lemma hm_map_none m k : table_ok (slots m) (cap m) ->
  hm_map m !! k = None <-> forall i h v, slots m !! i <> Some (SLOT_OCCUPIED h k v).
Proof.
  intros Hok. split.
  - intros Hn i h v Hi. assert (hm_map m !! k = Some v) by (apply hm_map_lookup; eauto). congruence.
  - intros H. destruct (hm_map m !! k) as [v|] eqn:E; [|done].
    apply hm_map_lookup in E as (i & h & Hi); [|done]. by apply H in Hi.
Qed.

(** ** Slot lookup *)

Lemma find_slot_present m k i h v :
  table_ok (slots m) (cap m) -> slots m !! i = Some (SLOT_OCCUPIED h k v) ->
  find_slot_ m k (cetcd_hash_fnv1a64 k) = (Z.of_nat i, true).
Proof.
  intros Hok Hi. pose proof (tab_hash _ _ Hok _ _ _ _ Hi) as ->.
  destruct (tab_reach _ _ Hok _ _ _ _ Hi) as (d & Hd & Hpos & Hne).
  unfold find_slot_. cbv zeta. rewrite <- Hpos.
  eapply find_loop_present; [apply Hok|by rewrite Hpos, (slot_at_lookup _ _ _ Hi)|lia|].
  intros d' Hd'. split; [apply Hne; lia|]. intros h' v' Hocc%slot_at_occ.
  pose proof (tab_uniq _ _ Hok _ _ _ _ _ _ _ Hocc Hi) as Hij.
  pose proof (probe_range (cap m) (cetcd_hash_fnv1a64 k) d' ltac:(lia)).
  assert (d' = d); [|lia]. apply (probe_inj (cap m) (cetcd_hash_fnv1a64 k)); lia.
Qed.

(** A slot where the absent key [k] may be stored. *)
Definition free_for (t : list slot) (c : Z) (k : bytes) (i : Z) : Prop :=
  0 <= i < c /\ (slot_at t i = SLOT_EMPTY \/ slot_at t i = SLOT_TOMBSTONE) /\
  reaches t c (cetcd_hash_fnv1a64 k) i.

Lemma find_slot_absent m k :
  table_ok (slots m) (cap m) ->
  (count is_tomb (slots m) + length (entries m) < length (slots m))%nat ->
  (forall i h v, slots m !! i <> Some (SLOT_OCCUPIED h k v)) ->
  exists i, find_slot_ m k (cetcd_hash_fnv1a64 k) = (i, false) /\ free_for (slots m) (cap m) k i.
Proof.
  intros Hok Hfree Hno. pose proof (pow_cap_pos _ (tab_pow _ _ Hok)).
  destruct (exists_empty_probe _ _ (cetcd_hash_fnv1a64 k) Hok Hfree) as (d0 & Hd0 & He).
  destruct (find_loop_absent (slots m) (cap m) (cetcd_hash_fnv1a64 k) k (tab_pow _ _ Hok)
    (Z.to_nat (cap m)) 0 d0 None) as (d & Hd & Hl & Hs & Hne); try done; try lia.
  { intros d h' v' _ Hocc%slot_at_occ. by apply Hno in Hocc. }
  exists (probe_pos (cap m) (cetcd_hash_fnv1a64 k) d).
  split; [exact Hl|]. split; [apply probe_range; lia|]. split; [done|]. by exists d.
Qed.

(** ** Storing into a slot *)

Lemma slot_at_update t i j s : (i < length t)%nat -> 0 <= j ->
  slot_at (<[i := s]> t) j = if decide (Z.of_nat i = j) then s else slot_at t j.
Proof.
  intros Hi Hj. unfold slot_at. case_decide as E.
  - subst. rewrite Nat2Z.id. by rewrite list_lookup_insert_eq.
  - rewrite list_lookup_insert_ne by lia. done.
Qed.

Lemma reaches_update t c h i j s : (i < length t)%nat -> 0 < c -> s <> SLOT_EMPTY ->
  reaches t c h j -> reaches (<[i := s]> t) c h j.
Proof.
  intros Hi Hc Hs (d & Hd & Hp & Hne). exists d. split_and!; [lia|lia|done|].
  intros d' Hd'. rewrite slot_at_update by (try apply probe_range; done).
  case_decide; [done|by apply Hne].
Qed.

Lemma table_update t c i s : table_ok t c -> (i < length t)%nat -> s <> SLOT_EMPTY ->
  (forall h k v, s = SLOT_OCCUPIED h k v ->
     h = cetcd_hash_fnv1a64 k /\ reaches t c h (Z.of_nat i) /\
     forall j h' v', j <> i -> t !! j <> Some (SLOT_OCCUPIED h' k v')) ->
  table_ok (<[i := s]> t) c.
Proof.
  intros [Hl Hp Hh Hr Hu] Hi Hs Hnew. pose proof (pow_cap_pos _ Hp).
  assert (Hlk : forall j s', <[i := s]> t !! j = Some s' -> (j = i /\ s' = s) \/ (j <> i /\ t !! j = Some s')).
  { intros j s'. rewrite list_lookup_insert_Some. naive_solver. }
  split.
  - unfold blen in *. by rewrite length_insert.
  - done.
  - intros j h k v [[-> <-]|[_ Hj]]%Hlk; [by eapply Hnew|by eapply Hh].
  - intros j h k v [[-> Hsv]|[_ Hj]]%Hlk; apply reaches_update; try done; try lia.
    + symmetry in Hsv. by eapply Hnew.
    + by eapply Hr.
  - intros j j' h h' k v v' [[-> Hsv]|[Hji Hj]]%Hlk [[-> Hsv']|[Hji' Hj']]%Hlk; try done.
    + exfalso. symmetry in Hsv. eapply Hnew in Hsv as (_ & _ & Hx). by eapply Hx.
    + exfalso. symmetry in Hsv'. eapply Hnew in Hsv' as (_ & _ & Hx). by eapply Hx.
    + by eapply Hu.
Qed.

Lemma occupied_update m i s k v :
  (i < length (slots m))%nat ->
  (exists j h, <[i := s]> (slots m) !! j = Some (SLOT_OCCUPIED h k v)) <->
  (exists h, s = SLOT_OCCUPIED h k v) \/
  (exists j h, j <> i /\ slots m !! j = Some (SLOT_OCCUPIED h k v)).
Proof.
  intros Hi. setoid_rewrite list_lookup_insert_Some. naive_solver.
Qed.

(** [m] holds the pair [(k, v)]. *)
Definition holds (m : cetcd_hashmap) (k : bytes) (v : V) : Prop :=
  exists i h, slots m !! i = Some (SLOT_OCCUPIED h k v).

Lemma hm_map_ext m m' k v w :
  table_ok (slots m) (cap m) -> table_ok (slots m') (cap m') ->
  (forall k' v', holds m' k' v' <-> (k' = k /\ v' = v) \/ (k' <> k /\ holds m k' v')) ->
  w = <[k := v]> (hm_map m) -> hm_map m' = w.
Proof.
  intros T T' H ->. apply map_eq. intros k'. apply option_eq. intros v'.
  rewrite hm_map_lookup by done. setoid_rewrite (H k' v').
  rewrite lookup_insert. case_decide; subst; [naive_solver|].
  rewrite hm_map_lookup by done. unfold holds. naive_solver.
Qed.

(** ** Rehashing *)

(** A table under construction by [map_resize_]: no tombstones. *)
Record fresh_ok (m : cetcd_hashmap) : Prop := {
  fr_table : table_ok (slots m) (cap m);
  fr_size : size m = blen (entries m);
  fr_tombs : tombstones m = 0 /\ count is_tomb (slots m) = 0%nat
}.

Lemma alloc_fresh c : (exists k, 3 <= k /\ c = 2 ^ k) ->
  fresh_ok (map_alloc_table_ c) /\ entries (map_alloc_table_ c) = [].
Proof.
  intros Hc. pose proof (pow_cap_pos _ Hc).
  assert (Hno : forall i h k v, replicate (Z.to_nat c) SLOT_EMPTY !! i <> Some (SLOT_OCCUPIED h k v)).
  { intros i h k v. rewrite lookup_replicate. naive_solver. }
  assert (He : forall n, omap occ (replicate n SLOT_EMPTY) = ([] : list (bytes * V)))
    by (induction n; done).
  assert (Ht : forall n, count is_tomb (replicate n SLOT_EMPTY) = 0%nat)
    by (induction n; done).
  unfold map_alloc_table_, entries. cbn [slots]. rewrite He.
  split; [|done]. split; cbn [slots cap size tombstones].
  - split; try done; [|naive_solver ..]. unfold blen. rewrite length_replicate. lia.
  - unfold entries. cbn [slots]. by rewrite He.
  - by rewrite Ht.
Qed.

Lemma rehash_one m k v :
  fresh_ok m -> (length (entries m) < length (slots m))%nat -> (forall w, ~ holds m k w) ->
  let m' := rehash_slot m (SLOT_OCCUPIED (cetcd_hash_fnv1a64 k) k v) in
  fresh_ok m' /\ cap m' = cap m /\ size m' = size m + 1 /\
  (forall k' v', holds m' k' v' <-> (k' = k /\ v' = v) \/ holds m k' v').
Proof.
  intros [Tok Hsz [Htz Htc]] Hroom Hno m'. pose proof (pow_cap_pos _ (tab_pow _ _ Tok)).
  destruct (exists_empty_probe _ _ (cetcd_hash_fnv1a64 k) Tok) as (d0 & Hd0 & He);
    [unfold entries in Hroom; lia|].
  destruct (empty_loop_spec (slots m) (cap m) (cetcd_hash_fnv1a64 k) (tab_pow _ _ Tok)
    (Z.to_nat (cap m)) 0 d0) as (d & Hd & Hl & Hemp & Hne); try done; try lia.
  subst m'. unfold rehash_slot. cbv zeta. rewrite Hl. cbn [cap size].
  set (j := probe_pos (cap m) (cetcd_hash_fnv1a64 k) d) in *.
  assert (Hj : 0 <= j < cap m) by (apply probe_range; lia).
  pose proof (tab_len _ _ Tok) as Hlen. unfold blen in Hlen.
  assert (Hjl : (Z.to_nat j < length (slots m))%nat) by lia.
  assert (Hlk : slots m !! Z.to_nat j = Some SLOT_EMPTY).
  { unfold slot_at in Hemp. destruct (lookup_lt_is_Some_2 _ _ Hjl) as [s Hs].
    rewrite Hs in *. simpl in Hemp. by subst. }
  assert (Hkeep : forall j0 h' v', slots m !! j0 <> Some (SLOT_OCCUPIED h' k v')).
  { intros j0 h' v' Hc. apply (Hno v'). by exists j0, h'. }
  split; [split; cbn [slots cap size tombstones]|split_and!; [done|done|]].
  - apply table_update; try done. intros h0 k0 v0 [= <- <- <-]. split_and!; [done| |by intros].
    exists d. split_and!; try lia; done.
  - pose proof (entries_update _ _ (SLOT_OCCUPIED (cetcd_hash_fnv1a64 k) k v) _ Hlk) as Hu.
    unfold entries, blen in *. cbn [slots occ] in *. lia.
  - split; [done|].
    pose proof (count_update is_tomb _ _ (SLOT_OCCUPIED (cetcd_hash_fnv1a64 k) k v) _ Hlk) as Hu.
    cbn [is_tomb] in Hu. lia.
  - intros k' v'. unfold holds. cbn [slots]. rewrite occupied_update by done.
    split; [naive_solver|]. intros [[-> ->]|(i0 & h0 & Hi0)]; [eauto|].
    right. exists i0, h0. split; [|done]. intros ->. congruence.
Qed.

Lemma rehash_fold l m :
  fresh_ok m -> (length (entries m) + length (omap occ l) < length (slots m))%nat ->
  (forall h k v, SLOT_OCCUPIED h k v ∈ l -> h = cetcd_hash_fnv1a64 k /\ forall w, ~ holds m k w) ->
  NoDup (omap occ l).*1 ->
  let m' := foldl rehash_slot m l in
  fresh_ok m' /\ cap m' = cap m /\ size m' = size m + blen (omap occ l) /\
  (forall k v, holds m' k v <-> holds m k v \/ (k, v) ∈ omap occ l).
Proof.
  revert m; induction l as [|s l IH]; intros m Hf Hroom Hl Hnd; cbn [foldl].
  { split_and!; [done|done|unfold blen; simpl; lia|]. intros; csimpl. set_solver. }
  assert (Hother : rehash_slot m s = m -> occ s = None ->
    let m' := foldl rehash_slot (rehash_slot m s) l in
    fresh_ok m' /\ cap m' = cap m /\ size m' = size m + blen (omap occ (s :: l)) /\
    (forall k v, holds m' k v <-> holds m k v \/ (k, v) ∈ omap occ (s :: l))).
  { intros -> Hs. revert Hroom Hnd. csimpl. rewrite Hs. intros. apply IH; try done.
    intros h k v Hin. eapply Hl. by right. }
  destruct s as [|h k v|]; [by apply Hother| |by apply Hother]. clear Hother.
  destruct (Hl h k v) as [-> Hk]; [by left|].
  change (omap occ (SLOT_OCCUPIED (cetcd_hash_fnv1a64 k) k v :: l)) with ((k, v) :: omap occ l) in *.
  cbn [length fmap list_fmap fst] in Hroom, Hnd.
  apply NoDup_cons in Hnd as [Hnk Hnd].
  destruct (rehash_one m k v Hf) as (Hf1 & Hc1 & Hs1 & Hh1); [lia|done|].
  set (m1 := rehash_slot m _) in *.
  pose proof (fr_size _ Hf1) as Hs1'. pose proof (fr_size _ Hf) as Hs0.
  pose proof (tab_len _ _ (fr_table _ Hf)) as L0. pose proof (tab_len _ _ (fr_table _ Hf1)) as L1.
  unfold blen in *.
  destruct (IH m1) as (Hf' & Hc' & Hs' & Hh'); [done|lia| |done|].
  { intros h' k' v' Hin. destruct (Hl h' k' v') as [? Hno]; [by right|]. split; [done|].
    intros w. rewrite Hh1. intros [[-> ->]|Hw]; [|by eapply Hno].
    apply Hnk, list_elem_of_fmap. exists (k, v'). split; [done|].
    apply list_elem_of_omap. by eexists. }
  split_and!; [done|congruence|unfold blen in *; cbn [length]; lia|].
  intros k' v'. rewrite Hh', Hh1, elem_of_cons. naive_solver.
Qed.

Lemma resize_spec m c :
  table_ok (slots m) (cap m) -> (exists k, 3 <= k /\ c = 2 ^ k) -> blen (entries m) < c ->
  fresh_ok (map_resize_ m c) /\ cap (map_resize_ m c) = c /\
  size (map_resize_ m c) = blen (entries m) /\
  (forall k v, holds (map_resize_ m c) k v <-> holds m k v).
Proof.
  intros Tok Hc Hlt. destruct (alloc_fresh c Hc) as [Hf He]. pose proof (pow_cap_pos _ Hc).
  assert (Hno : forall k v, ~ holds (map_alloc_table_ c) k v).
  { intros k v (i & h & Hi). cbn in Hi. rewrite lookup_replicate in Hi. naive_solver. }
  destruct (rehash_fold (slots m) (map_alloc_table_ c) Hf) as (H1 & H2 & H3 & H4).
  - rewrite He. cbn [length slots map_alloc_table_]. rewrite length_replicate.
    unfold blen, entries in Hlt. lia.
  - intros h k v (i & Hi)%list_elem_of_lookup. split; [by eapply tab_hash|auto].
  - eapply entries_NoDup, tab_uniq, Tok.
  - unfold map_resize_. split_and!; [done|done|by rewrite H3|].
    intros k v. rewrite H4, entries_elem. unfold holds at 2. naive_solver.
Qed.

(** ** The operations refine a finite map *)

Lemma hm_room m : hm_ok m ->
  (count is_tomb (slots m) + length (entries m) < length (slots m))%nat.
Proof.
  intros [Tok Hs Ht Hl]. pose proof (tab_len _ _ Tok). pose proof (pow_cap_pos _ (tab_pow _ _ Tok)).
  unfold blen, CETCD_HASHMAP_LOAD_DENOM, CETCD_HASHMAP_LOAD_NUMER in *. lia.
Qed.

Lemma find_slot_cases m k : hm_ok m ->
  (exists i v, find_slot_ m k (cetcd_hash_fnv1a64 k) = (Z.of_nat i, true) /\
     slots m !! i = Some (SLOT_OCCUPIED (cetcd_hash_fnv1a64 k) k v) /\ hm_map m !! k = Some v) \/
  (exists i, find_slot_ m k (cetcd_hash_fnv1a64 k) = (i, false) /\
     free_for (slots m) (cap m) k i /\ hm_map m !! k = None).
Proof.
  intros Hok. pose proof (hm_table _ Hok) as Tok. destruct (hm_map m !! k) as [v|] eqn:E.
  - left. apply hm_map_lookup in E as (i & h & Hi); [|done].
    pose proof (tab_hash _ _ Tok _ _ _ _ Hi) as ->. exists i, v.
    split_and!; [by eapply find_slot_present|done|done].
  - right. destruct (find_slot_absent m k Tok (hm_room m Hok)) as (i & Hf & Hi).
    { by apply hm_map_none. }
    by exists i.
Qed.

Lemma hm_size_zero m : hm_ok m -> size m = 0 -> hm_map m = ∅.
Proof.
  intros Hok H0. unfold hm_map. pose proof (hm_size _ Hok) as Hs. unfold blen in Hs.
  destruct (entries m); [done|simpl in Hs; lia].
Qed.

Lemma get_map m k : hm_ok m -> cetcd_hashmap_get m k = hm_map m !! k.
Proof.
  intros Hok. unfold cetcd_hashmap_get. destruct (Z.eqb_spec (size m) 0) as [E|E].
  { by rewrite hm_size_zero, lookup_empty. }
  destruct (find_slot_cases m k Hok) as [(i & v & -> & Hi & ->)|(i & -> & _ & ->)]; [|done].
  cbn [negb]. by rewrite (slot_at_lookup _ _ _ Hi).
Qed.

Lemma remove_spec m k : hm_ok m ->
  let '(m', r) := cetcd_hashmap_remove m k in
  hm_ok m' /\ hm_map m' = delete k (hm_map m) /\ r = hm_map m !! k.
Proof.
  intros Hok. pose proof (hm_table _ Hok) as Tok. unfold cetcd_hashmap_remove.
  destruct (Z.eqb_spec (size m) 0) as [E|E].
  { rewrite hm_size_zero by done. by rewrite delete_empty, lookup_empty. }
  destruct (find_slot_cases m k Hok) as [(i & v & -> & Hi & Hv)|(i & -> & _ & Hn)]; cbn [negb].
  2: { split_and!; [done| |done]. by rewrite delete_id. }
  rewrite (slot_at_lookup _ _ _ Hi), Nat2Z.id. split_and!; [| |done].
  - destruct Hok as [_ Hs Ht Hl].
    pose proof (entries_update _ _ SLOT_TOMBSTONE _ Hi) as Eu.
    pose proof (count_update is_tomb _ _ SLOT_TOMBSTONE _ Hi) as Cu.
    split; unfold entries, blen in *; cbn [slots cap size tombstones occ is_tomb] in *; try lia.
    apply table_update; try done. by eapply lookup_lt_Some.
  - assert (Ti : (i < length (slots m))%nat) by (by eapply lookup_lt_Some).
    assert (T' : table_ok (<[i := SLOT_TOMBSTONE]> (slots m)) (cap m)) by (by apply table_update).
    apply map_eq. intros k'. apply option_eq. intros v'.
    rewrite lookup_delete. rewrite hm_map_lookup by done. cbn [slots].
    rewrite occupied_update by done. case_decide as Ek.
    + subst. split; [|done]. intros [(? & ?)|(j & h & Hj & Hjs)]; [done|].
      by destruct Hj; eapply (tab_uniq _ _ Tok).
    + rewrite hm_map_lookup by done. split; [naive_solver|].
      intros (j & h & Hj). right. exists j, h. split; [|done]. intros ->. congruence.
Qed.

(** What [cetcd_hashmap_put] has after its load check. *)
Lemma grow_spec m :
  hm_ok m ->
  let m1 := if cap m * CETCD_HASHMAP_LOAD_NUMER <?
               (size m + tombstones m + 1) * CETCD_HASHMAP_LOAD_DENOM
            then map_resize_ m (if cap m * 2 <? CETCD_HASHMAP_MIN_CAP
                                then CETCD_HASHMAP_MIN_CAP else cap m * 2)
            else m in
  hm_ok m1 /\ hm_map m1 = hm_map m /\
  (size m1 + tombstones m1 + 1) * CETCD_HASHMAP_LOAD_DENOM <= cap m1 * CETCD_HASHMAP_LOAD_NUMER.
Proof.
  intros Hok m1. pose proof Hok as [Tok Hs Ht Hl].
  unfold CETCD_HASHMAP_LOAD_DENOM, CETCD_HASHMAP_LOAD_NUMER, CETCD_HASHMAP_MIN_CAP in *.
  destruct (Z.ltb_spec (cap m * 7) ((size m + tombstones m + 1) * 10)); subst m1; [|by split_and!].
  destruct (tab_pow _ _ Tok) as (e & He & Hce).
  pose proof (pow_cap_pos _ (tab_pow _ _ Tok)).
  rewrite (proj2 (Z.ltb_ge _ _)) by lia.
  assert (Hp2 : exists k0, 3 <= k0 /\ cap m * 2 = 2 ^ k0).
  { exists (e + 1). split; [lia|]. rewrite Z.pow_add_r by lia. lia. }
  destruct (resize_spec m (cap m * 2) Tok Hp2) as ([Tok' Hs' [Htz Htc]] & Hc' & Hsz & Hh).
  { rewrite <- Hs. lia. }
  split_and!.
  - split; [done|done| |]; [by rewrite Htz, Htc|].
    unfold CETCD_HASHMAP_LOAD_DENOM, CETCD_HASHMAP_LOAD_NUMER. lia.
  - apply map_eq. intros k'. apply option_eq. intros v'. rewrite !hm_map_lookup by done. apply Hh.
  - rewrite Hsz, Htz, Hc'. lia.
Qed.

Lemma put_replace m k v i v0 : hm_ok m ->
  slots m !! i = Some (SLOT_OCCUPIED (cetcd_hash_fnv1a64 k) k v0) ->
  let m' := mk_hashmap (<[i := SLOT_OCCUPIED (cetcd_hash_fnv1a64 k) k v]> (slots m))
              (cap m) (size m) (tombstones m) in
  hm_ok m' /\ hm_map m' = <[k := v]> (hm_map m).
Proof.
  intros [Tok Hs Ht Hl] Hi m'. assert (Ti : (i < length (slots m))%nat) by (by eapply lookup_lt_Some).
  assert (T' : table_ok (slots m') (cap m')).
  { apply table_update; try done. intros h0 k0 w [= <- <- <-].
    split_and!; [done|by eapply tab_reach|].
    intros j h' v' Hj Hjs. by apply Hj, (tab_uniq _ _ Tok _ _ _ _ _ _ _ Hjs Hi). }
  split.
  - pose proof (entries_update _ _ (SLOT_OCCUPIED (cetcd_hash_fnv1a64 k) k v) _ Hi) as Eu.
    pose proof (count_update is_tomb _ _ (SLOT_OCCUPIED (cetcd_hash_fnv1a64 k) k v) _ Hi) as Cu.
    split; unfold entries, blen in *; cbn [slots cap size tombstones occ is_tomb m'] in *; try lia; done.
  - eapply hm_map_ext; [exact Tok|exact T'| |done].
    intros k' v'. unfold holds. cbn [slots m']. rewrite occupied_update by done. split.
    + intros [(? & ?)|(j & h & Hj & Hjs)]; [naive_solver|]. right. split; [|naive_solver].
      intros ->. by apply Hj, (tab_uniq _ _ Tok _ _ _ _ _ _ _ Hjs Hi).
    + intros [[-> ->]|(Hne & j & h & Hjs)]; [naive_solver|]. right. exists j, h.
      split; [|done]. intros ->. congruence.
Qed.

Lemma put_new m k v i : hm_ok m -> hm_map m !! k = None ->
  (size m + tombstones m + 1) * CETCD_HASHMAP_LOAD_DENOM <= cap m * CETCD_HASHMAP_LOAD_NUMER ->
  free_for (slots m) (cap m) k i ->
  let m' := mk_hashmap (<[Z.to_nat i := SLOT_OCCUPIED (cetcd_hash_fnv1a64 k) k v]> (slots m))
              (cap m) (size m + 1)
              (match slot_at (slots m) i with
               | SLOT_TOMBSTONE => if 0 <? tombstones m then tombstones m - 1 else tombstones m
               | _ => tombstones m end) in
  hm_ok m' /\ hm_map m' = <[k := v]> (hm_map m).
Proof.
  intros [Tok Hs Ht Hl] Hn Hroom (Hi & Hfree & Hreach) m'.
  pose proof (tab_len _ _ Tok) as Hlen. unfold blen in Hlen.
  assert (Ti : (Z.to_nat i < length (slots m))%nat) by lia.
  destruct (lookup_lt_is_Some_2 _ _ Ti) as [s0 Hs0].
  assert (Hsl : slot_at (slots m) i = s0) by (unfold slot_at; by rewrite Hs0).
  rewrite hm_map_none in Hn by done.
  assert (T' : table_ok (slots m') (cap m')).
  { apply table_update; try done. intros h0 k0 w [= <- <- <-].
    split_and!; [done|by rewrite Z2Nat.id by lia|]. intros j h' v' _. apply Hn. }
  split.
  - pose proof (entries_update _ _ (SLOT_OCCUPIED (cetcd_hash_fnv1a64 k) k v) _ Hs0) as Eu.
    pose proof (count_update is_tomb _ _ (SLOT_OCCUPIED (cetcd_hash_fnv1a64 k) k v) _ Hs0) as Cu.
    unfold entries, blen, CETCD_HASHMAP_LOAD_DENOM, CETCD_HASHMAP_LOAD_NUMER in *.
    subst m'. rewrite Hsl in *.
    destruct Hfree as [->| ->]; split; cbn [slots cap size tombstones occ is_tomb] in *;
      unfold entries, blen, CETCD_HASHMAP_LOAD_DENOM, CETCD_HASHMAP_LOAD_NUMER in *;
      cbn [slots] in *; guards; try lia; done.
  - eapply hm_map_ext; [exact Tok|exact T'| |done].
    intros k' v'. unfold holds. cbn [slots m']. rewrite occupied_update by done. split.
    + intros [(? & ?)|(j & h & Hj & Hjs)]; [naive_solver|]. right. split; [|naive_solver].
      intros ->. by apply Hn in Hjs.
    + intros [[-> ->]|(Hne & j & h & Hjs)]; [naive_solver|]. right. exists j, h.
      split; [|done]. intros ->. rewrite Hs0 in Hjs. rewrite Hsl in Hfree.
      by destruct Hfree; simplify_eq.
Qed.

Lemma put_spec m k v : hm_ok m ->
  hm_ok (cetcd_hashmap_put m k v) /\ hm_map (cetcd_hashmap_put m k v) = <[k := v]> (hm_map m).
Proof.
  intros Hok. destruct (grow_spec m Hok) as (Hok1 & Hm1 & Hl1).
  unfold cetcd_hashmap_put. cbv zeta in *. set (m1 := if _ <? _ then _ else m) in *.
  rewrite <- Hm1. clearbody m1.
  destruct (find_slot_cases m1 k Hok1) as [(i & v0 & -> & Hi & _)|(i & -> & Hf & Hn)].
  - rewrite (slot_at_lookup _ _ _ Hi), Nat2Z.id. by eapply put_replace.
  - by apply put_new.
Qed.

Lemma modify_spec m k f : hm_ok m ->
  hm_ok (hashmap_modify m k f) /\ hm_map (hashmap_modify m k f) = alter f k (hm_map m).
Proof.
  intros Hok. unfold hashmap_modify.
  destruct (find_slot_cases m k Hok) as [(i & v0 & -> & Hi & Hm)|(i & -> & _ & Hn)]; cbn [negb].
  - rewrite (slot_at_lookup _ _ _ Hi), Nat2Z.id. destruct (put_replace m k (f v0) i v0 Hok Hi) as [H1 H2].
    split; [done|]. rewrite H2. apply map_eq. intros k'. destruct (decide (k' = k)) as [->|].
    + by rewrite lookup_insert_eq, lookup_alter_eq, Hm.
    + by rewrite lookup_insert_ne, lookup_alter_ne.
  - split; [done|]. symmetry. apply alter_id. congruence.
Qed.

(** Iteration with a callback that never stops visits the entries in table
    order. *)
Lemma iter_entries {St} (fn : bytes -> V -> St -> St * bool) (f : bytes -> V -> St -> St) m st :
  (forall k v st, fn k v st = (f k v st, true)) ->
  cetcd_hashmap_iter fn m st = foldl (fun st kv => f kv.1 kv.2 st) st (entries m).
Proof.
  intros Hf. unfold cetcd_hashmap_iter, entries. revert st. induction (slots m) as [|s t IH]; intros st; [done|].
  cbn [fold_stop omap list_omap]. destruct s; cbn; [apply IH|rewrite Hf; apply IH|apply IH].
Qed.

Lemma entries_list_to_map m : hm_ok m -> NoDup (entries m).*1 /\ list_to_map (entries m) = hm_map m.
Proof. intros Hok. split; [|done]. eapply entries_NoDup, tab_uniq, Hok. Qed.

Lemma new8_ok : hm_ok (cetcd_hashmap_new 8) /\ hm_map (cetcd_hashmap_new 8) = ∅.
Proof.
  change (cetcd_hashmap_new 8) with (map_alloc_table_ 8). destruct (alloc_fresh 8) as [[T Hs [Htz Htc]] He]; [exists 3; split; lia|].
  split; [|unfold hm_map; by rewrite He]. split; [done|done|by rewrite Htz, Htc|]. vm_compute. discriminate.
Qed.

Lemma new_ok : hm_ok (cetcd_hashmap_new 0) /\ hm_map (cetcd_hashmap_new 0) = ∅.
Proof.
  destruct (alloc_fresh 8) as [[T Hs [Htz Htc]] He]; [exists 3; split; lia|].
  change (cetcd_hashmap_new 0) with (map_alloc_table_ 8).
  split; [|unfold hm_map; by rewrite He]. split; [done|done|by rewrite Htz, Htc|].
  vm_compute. discriminate.
Qed.

End Hashmap.

Arguments slot : clear implicits.
Arguments cetcd_hashmap : clear implicits.

(** C14 (refinement).  Every reachable table keeps its invariant, and lookup,
    insertion (with growth past the 7/10 load) and removal (leaving a tombstone)
    act on the abstract map as they should; a removal returns the value removed. *)
Theorem hashmap_refines_map {V} (m : cetcd_hashmap V) (k : bytes) (v : V) (Hok : hm_ok m) :
  cetcd_hashmap_get m k = hm_map m !! k /\
  (hm_ok (cetcd_hashmap_put m k v) /\
   hm_map (cetcd_hashmap_put m k v) = <[k := v]> (hm_map m)) /\
  (hm_ok (cetcd_hashmap_remove m k).1 /\
   hm_map (cetcd_hashmap_remove m k).1 = delete k (hm_map m) /\
   (cetcd_hashmap_remove m k).2 = hm_map m !! k).
Proof.
  split; [by apply get_map|]. split; [by apply put_spec|].
  pose proof (remove_spec m k Hok) as H. by destruct (cetcd_hashmap_remove m k).
Qed.

Definition sample_hashmap : cetcd_hashmap Z :=
  foldl (fun m k => cetcd_hashmap_put m [k] k) (cetcd_hashmap_new 0) [1; 2; 3; 4; 5; 6; 7; 8].

Lemma sample_hashmap_ok : hm_ok sample_hashmap.
Proof.
  unfold sample_hashmap.
  cut (forall l (m : cetcd_hashmap Z), hm_ok m ->
    hm_ok (foldl (fun m k => cetcd_hashmap_put m [k] k) m l)).
  { intros H. apply H, new_ok. }
  induction l as [|x l IH]; intros m Hm; cbn [foldl]; [done|]. apply IH, put_spec, Hm.
Defined.

Lemma hashmap_refines_map_witness :
  cetcd_hashmap_get sample_hashmap [7] = hm_map sample_hashmap !! [7]
  /\ cetcd_hashmap_get sample_hashmap [7] = Some 7
  /\ cetcd_hashmap_capacity sample_hashmap = 16.
Proof.
  split; [apply (hashmap_refines_map sample_hashmap [7] 0 sample_hashmap_ok)|].
  split; vm_compute; reflexivity.
Defined.
