(* ===== verification/Raft.v ===== *)
(** * The raft node (src/raft/raft.c, include/cetcd/raft.h)

    The whole state machine: log, membership with joint consensus, vote and
    replication bookkeeping, the message handlers, ticks, proposals and the
    Ready hand-over.  One definition per C function, in the order of the file.

    - A [uint64_t] field is a [Z]; increments are wrapped with [u64].
    - [peers] and [peer_learner] are lists whose length is [n_peers];
      [outgoing], [votes_granted] and the pending queues are lists whose length
      is the C counter; [progress] is the array of [MAX_PEERS_] records.
    - [log] maps an index to its entry; a slot never written, or cleared by
      [memset], is absent and reads as the zero entry.  [log_cap] is the number
      of slots allocated.
    - An entry holds its payload bytes, not a pointer to them.
    - Allocations are taken to succeed, and the node and message pointers to be
      non-null.  The unused [storage] pointer and the capacities of the pending
      queues are left out. *)

From S2P Require Import Prelude.

(** ** Data *)

Definition MAX_PEERS_ : nat := 16.

Definition CETCD_ENTRY_NORMAL : Z := 0.
Definition CETCD_ENTRY_CONF_CHANGE : Z := 1.
Definition CETCD_ENTRY_CONF_CHANGE_V2 : Z := 2.

Record cetcd_entry : Type := mk_entry {
  e_term : Z;
  e_index : Z;
  e_type : Z;
  e_data : bytes
}.

#[export] Instance entry_eta : RecordEta cetcd_entry := fun e =>
  mk_entry (e_term e) (e_index e) (e_type e) (e_data e).

Definition zero_entry : cetcd_entry := mk_entry 0 0 CETCD_ENTRY_NORMAL [].

(** The enumerators; [CETCD_MSG_OTHER] is an enum object that holds another
    value, as the wire decoder can produce. *)
Inductive cetcd_msg_type : Type :=
| CETCD_MSG_HUP
| CETCD_MSG_BEAT
| CETCD_MSG_PROP
| CETCD_MSG_APP
| CETCD_MSG_APP_RESP
| CETCD_MSG_VOTE
| CETCD_MSG_VOTE_RESP
| CETCD_MSG_SNAP
| CETCD_MSG_HEARTBEAT
| CETCD_MSG_HEARTBEAT_RESP
| CETCD_MSG_UNREACHABLE
| CETCD_MSG_SNAP_STATUS
| CETCD_MSG_CHECK_QUORUM
| CETCD_MSG_TRANSFER_LEADER
| CETCD_MSG_TIMEOUT_NOW
| CETCD_MSG_READ_INDEX
| CETCD_MSG_READ_INDEX_RESP
| CETCD_MSG_PRE_VOTE
| CETCD_MSG_PRE_VOTE_RESP
| CETCD_MSG_COMPACT_HASH
| CETCD_MSG_OTHER (n : Z).

Record cetcd_msg : Type := mk_msg {
  m_type : cetcd_msg_type;
  m_to : Z;
  m_from : Z;
  m_term : Z;
  m_log_term : Z;
  m_index : Z;
  m_commit : Z;
  m_reject : Z;
  m_entries : list cetcd_entry;
  m_snapshot : Z;
  m_context : bytes
}.

#[export] Instance msg_eta : RecordEta cetcd_msg := fun m =>
  mk_msg (m_type m) (m_to m) (m_from m) (m_term m) (m_log_term m) (m_index m)
    (m_commit m) (m_reject m) (m_entries m) (m_snapshot m) (m_context m).

(** [memset(&msg, 0, sizeof(msg))] *)
Definition zero_msg : cetcd_msg := mk_msg CETCD_MSG_HUP 0 0 0 0 0 0 0 [] 0 [].

Record cetcd_hard_state : Type := mk_hard_state { hs_term : Z; hs_vote : Z; hs_commit : Z }.

Inductive raft_role_ : Type :=
| ROLE_FOLLOWER | ROLE_CANDIDATE | ROLE_LEADER | ROLE_PRE_CANDIDATE.

#[export] Instance raft_role_eq_dec : EqDecision raft_role_.
Proof. solve_decision. Defined.

Definition is_leader (x : raft_role_) : bool :=
  match x with ROLE_LEADER => true | _ => false end.
Definition is_follower (x : raft_role_) : bool :=
  match x with ROLE_FOLLOWER => true | _ => false end.

Record peer_progress_ : Type := mk_progress {
  next_idx : Z;
  match_idx : Z;
  pending_snap : bool;
  pending_app : bool
}.

#[export] Instance progress_eta : RecordEta peer_progress_ := fun p =>
  mk_progress (next_idx p) (match_idx p) (pending_snap p) (pending_app p).

Definition zero_progress : peer_progress_ := mk_progress 0 0 false false.

Record cetcd_raft_config : Type := mk_config {
  c_id : Z;
  c_election_tick : Z;
  c_heartbeat_tick : Z;
  c_max_size_per_msg : Z;
  c_max_inflight_msgs : Z;
  c_check_quorum : bool;
  c_pre_vote : bool
}.

Record cetcd_raft : Type := mk_raft {
  r_id : Z;
  r_term : Z;
  r_vote : Z;
  r_commit : Z;
  r_applied : Z;
  r_leader_id : Z;
  r_role : raft_role_;
  r_election_tick : Z;
  r_heartbeat_tick : Z;
  r_election_timeout : Z;
  r_heartbeat_timeout : Z;
  r_elapsed_ticks : Z;
  r_heartbeat_elapsed : Z;
  r_max_size_per_msg : Z;
  r_max_inflight_msgs : Z;
  r_check_quorum : bool;
  r_pre_vote : bool;
  r_peers : list Z;
  r_peer_learner : list bool;
  r_peers_cap : Z;
  r_outgoing : list Z;
  r_joint_index : Z;
  r_applying_index : Z;
  r_leave_pending : bool;
  r_votes_granted : list Z;
  r_progress : list peer_progress_;
  r_log : gmap Z cetcd_entry;
  r_log_cap : Z;
  r_log_last_index : Z;
  r_log_last_term : Z;
  r_log_compacted : Z;
  r_pending_hs : option cetcd_hard_state;
  r_pending_entries : list cetcd_entry;
  r_pending_msgs : list cetcd_msg;
  r_has_pending : bool
}.

#[export] Instance raft_eta : RecordEta cetcd_raft := fun r =>
  mk_raft (r_id r) (r_term r) (r_vote r) (r_commit r) (r_applied r) (r_leader_id r)
    (r_role r) (r_election_tick r) (r_heartbeat_tick r) (r_election_timeout r)
    (r_heartbeat_timeout r) (r_elapsed_ticks r) (r_heartbeat_elapsed r)
    (r_max_size_per_msg r) (r_max_inflight_msgs r) (r_check_quorum r) (r_pre_vote r)
    (r_peers r) (r_peer_learner r) (r_peers_cap r) (r_outgoing r) (r_joint_index r)
    (r_applying_index r) (r_leave_pending r) (r_votes_granted r) (r_progress r)
    (r_log r) (r_log_cap r) (r_log_last_index r) (r_log_last_term r) (r_log_compacted r)
    (r_pending_hs r) (r_pending_entries r) (r_pending_msgs r) (r_has_pending r).

Definition n_peers (r : cetcd_raft) : nat := length (r_peers r).
Definition peer_at (r : cetcd_raft) (i : nat) : Z := default 0 (r_peers r !! i).
Definition progress_at (r : cetcd_raft) (i : nat) : peer_progress_ :=
  default zero_progress (r_progress r !! i).

(** [r->progress[i] = p], an assignment to the fixed array. *)
Definition set_progress (r : cetcd_raft) (i : nat) (p : peer_progress_) : cetcd_raft :=
  r <| r_progress := <[i := p]> (r_progress r) |>.

(** ** Log helpers *)

Definition log_slot (r : cetcd_raft) (i : Z) : cetcd_entry := default zero_entry (r_log r !! i).

Definition log_at_ (r : cetcd_raft) (index : Z) : option cetcd_entry :=
  if (index =? 0) || (r_log_last_index r <? index) then None
  else if index <? r_log_compacted r then None
  else Some (log_slot r index).

Definition log_term_at_ (r : cetcd_raft) (index : Z) : Z :=
  if index =? 0 then 0
  else match log_at_ r index with Some e => e_term e | None => 0 end.

Definition entry_clear_data_ (e : cetcd_entry) : cetcd_entry := e <| e_data := [] |>.

(** The doubling loop of [log_append_] on [uint32_t]; 32 doublings pass any
    32-bit capacity. *)
Fixpoint grow_log_cap (fuel : nat) (new_cap needed : Z) : Z :=
  match fuel with
  | O => new_cap
  | S fuel =>
      if new_cap <? u32 needed then
        if 2147483647 <? new_cap then u32 needed
        else grow_log_cap fuel (u32 (new_cap * 2)) needed
      else new_cap
  end.

Definition log_append_ (r : cetcd_raft) (e : cetcd_entry) : cetcd_raft :=
  let needed := u64 (e_index e + 1) in
  let r :=
    if r_log_cap r <? needed then
      let new_cap := if r_log_cap r =? 0 then 64 else r_log_cap r in
      r <| r_log_cap := grow_log_cap 33 new_cap needed |>
    else r in
  let r := r <| r_log := <[e_index e := e]> (r_log r) |> in
  if r_log_last_index r <? e_index e then
    r <| r_log_last_index := e_index e |> <| r_log_last_term := e_term e |>
  else r.

(** Slots [index + 1 .. log_last_index] below the capacity are zeroed. *)
Definition log_truncate_after_ (r : cetcd_raft) (index : Z) : cetcd_raft :=
  if r_log_last_index r <=? index then r
  else
    let r := r <| r_log := filter (fun '(i, _) =>
                    ~ (index < i <= r_log_last_index r /\ i < r_log_cap r)) (r_log r) |> in
    let r := r <| r_log_last_index := index |> in
    r <| r_log_last_term := log_term_at_ r index |>.

(** ** Helpers *)

Definition quorum_ (n : Z) : Z := n / 2 + 1.

Definition peer_is_learner_ (r : cetcd_raft) (i : nat) : bool :=
  (i <? n_peers r)%nat && default false (r_peer_learner r !! i).

(** First index below [bound] whose peer is [id]. *)
Fixpoint find_peer (l : list Z) (id : Z) (i bound : nat) : option nat :=
  match l with
  | [] => None
  | p :: l' =>
      if (i <? bound)%nat
      then if p =? id then Some i else find_peer l' id (S i) bound
      else None
  end.

Definition peer_slot_ (r : cetcd_raft) (id : Z) : option nat :=
  find_peer (r_peers r) id 0 MAX_PEERS_.

Definition match_of_ (r : cetcd_raft) (id : Z) : Z :=
  if id =? r_id r then r_log_last_index r
  else match peer_slot_ r id with
       | None => 0
       | Some slot => match_idx (progress_at r slot)
       end.

(** The exchange sort of [majority_match_ids_]: the inner loop carries
    [sorted[i]] over the rest of the array, swapping whenever it meets a
    larger element. *)
Fixpoint exchange_pass (x : Z) (rest : list Z) : Z * list Z :=
  match rest with
  | [] => (x, [])
  | y :: rest =>
      if x <? y
      then let '(top, rest) := exchange_pass y rest in (top, x :: rest)
      else let '(top, rest) := exchange_pass x rest in (top, y :: rest)
  end.

Fixpoint exchange_sort (n : nat) (l : list Z) : list Z :=
  match n, l with
  | S n, x :: rest => let '(top, rest) := exchange_pass x rest in top :: exchange_sort n rest
  | _, _ => l
  end.

Definition majority_match_ids_ (r : cetcd_raft) (ids : list Z) : Z :=
  if blen ids =? 0 then 0
  else
    let sorted := map (match_of_ r) (take MAX_PEERS_ ids) in
    let m := length sorted in
    let sorted := exchange_sort m sorted in
    sorted !!! Z.to_nat (quorum_ (Z.of_nat m) - 1).

Definition vote_from_ (r : cetcd_raft) (id : Z) : bool :=
  existsb (fun v => v =? id) (r_votes_granted r).

(** The array [incoming]: the first [MAX_PEERS_] peers that are not learners. *)
Definition incoming_ (r : cetcd_raft) : list Z :=
  take MAX_PEERS_
    (omap (fun i => if peer_is_learner_ r i then None else Some (peer_at r i))
          (seq 0 (n_peers r))).

Definition count_votes (r : cetcd_raft) (ids : list Z) : Z :=
  blen (List.filter (vote_from_ r) ids).

Definition vote_quorum_ok_ (r : cetcd_raft) : bool :=
  let incoming := incoming_ r in
  let inc_n := blen incoming in
  let inc_v := count_votes r incoming in
  if (inc_n =? 0) || (inc_v <? quorum_ inc_n) then false
  else if blen (r_outgoing r) =? 0 then true
  else quorum_ (blen (r_outgoing r)) <=? count_votes r (r_outgoing r).

Definition has_peer_ (r : cetcd_raft) (id : Z) : bool :=
  existsb (fun p => p =? id) (r_peers r).

Definition add_peer_ (r : cetcd_raft) (id : Z) (is_learner : bool) : cetcd_raft :=
  if has_peer_ r id then r
  else
    let n := n_peers r in
    let r :=
      if r_peers_cap r <=? Z.of_nat n
      then r <| r_peers_cap := if r_peers_cap r =? 0 then 8 else u32 (r_peers_cap r * 2) |>
      else r in
    let r := r <| r_peers := r_peers r ++ [id] |> in
    let r := r <| r_peer_learner := r_peer_learner r ++ [is_learner] |> in
    if (n <? MAX_PEERS_)%nat then
      let next := if id =? r_id r then u64 (r_log_last_index r + 1)
                  else if 0 <? r_log_compacted r then r_log_compacted r else 1 in
      set_progress r n (mk_progress next 0 false false)
    else r.

(** ** Pending state helpers *)

Definition queue_hard_state_ (r : cetcd_raft) : cetcd_raft :=
  r <| r_pending_hs := Some (mk_hard_state (r_term r) (r_vote r) (r_commit r)) |>
    <| r_has_pending := true |>.

Definition queue_entry_ (r : cetcd_raft) (e : cetcd_entry) : cetcd_raft :=
  r <| r_pending_entries := r_pending_entries r ++ [e] |> <| r_has_pending := true |>.

Definition queue_msg_ (r : cetcd_raft) (m : cetcd_msg) : cetcd_raft :=
  r <| r_pending_msgs := r_pending_msgs r ++ [m] |> <| r_has_pending := true |>.

Definition maybe_send_snap_ (r : cetcd_raft) (i : nat) : cetcd_raft :=
  if (MAX_PEERS_ <=? i)%nat || (n_peers r <=? i)%nat then r
  else if peer_at r i =? r_id r then r
  else if r_log_compacted r =? 0 then r
  else if r_log_compacted r <? next_idx (progress_at r i) then r
  else if pending_snap (progress_at r i) then r
  else
    let snap := zero_msg <| m_type := CETCD_MSG_SNAP |> <| m_to := peer_at r i |>
                         <| m_from := r_id r |> <| m_term := r_term r |>
                         <| m_snapshot := r_log_compacted r |>
                         <| m_index := r_log_compacted r |>
                         <| m_log_term := log_term_at_ r (r_log_compacted r) |>
                         <| m_commit := r_commit r |> in
    let r := queue_msg_ r snap in
    set_progress r i ((progress_at r i) <| pending_snap := true |>).

(** The loop that counts the entries of one App; [fuel] is the wire limit of
    256 entries less those already counted. *)
Fixpoint app_window (r : cetcd_raft) (max_sz : Z) (fuel : nat) (idx : Z) (n : nat) (bytes : Z) : nat :=
  match fuel with
  | O => n
  | S fuel =>
      if r_log_last_index r <? idx then n
      else match log_at_ r idx with
           | None => n
           | Some e =>
               let add := blen (e_data e) + 16 in
               if (0 <? n)%nat && (max_sz <? u64 (bytes + add)) then n
               else app_window r max_sz fuel (idx + 1) (S n) (u64 (bytes + add))
           end
  end.

Definition maybe_send_app_ (r : cetcd_raft) (i : nat) : cetcd_raft :=
  if (MAX_PEERS_ <=? i)%nat || (n_peers r <=? i)%nat then r
  else if peer_at r i =? r_id r then r
  else if pending_snap (progress_at r i) then r
  else if pending_app (progress_at r i) then r
  else
    let next := next_idx (progress_at r i) in
    let next := if next =? 0 then 1 else next in
    if (0 <? r_log_compacted r) && (next <=? r_log_compacted r) then maybe_send_snap_ r i
    else if r_log_last_index r <? next then r
    else
      let prev := next - 1 in
      if (0 <? prev) && (match log_at_ r prev with None => true | Some _ => false end)
         && negb (prev =? r_log_compacted r)
      then r
      else
        let max_sz := if r_max_size_per_msg r =? 0 then 1048576 else r_max_size_per_msg r in
        let n := app_window r max_sz 256 next 0 0 in
        if (n =? 0)%nat then r
        else
          match mapM (fun k => log_at_ r (next + Z.of_nat k)) (seq 0 n) with
          | None => r
          | Some ecopy =>
              let app := zero_msg <| m_type := CETCD_MSG_APP |> <| m_to := peer_at r i |>
                           <| m_from := r_id r |> <| m_term := r_term r |>
                           <| m_index := prev |> <| m_log_term := log_term_at_ r prev |>
                           <| m_commit := r_commit r |> <| m_entries := ecopy |> in
              let r := queue_msg_ r app in
              set_progress r i ((progress_at r i) <| pending_app := true |>)
          end.

(** ** Commit advancement *)

Definition maybe_advance_commit_ (r : cetcd_raft) : cetcd_raft :=
  if negb (is_leader (r_role r)) then r
  else
    let incoming := incoming_ r in
    if blen incoming =? 0 then r
    else
      let new_commit := majority_match_ids_ r incoming in
      let new_commit :=
        if 0 <? blen (r_outgoing r) then
          let old_commit := majority_match_ids_ r (r_outgoing r) in
          if old_commit <? new_commit then old_commit else new_commit
        else new_commit in
      if (r_commit r <? new_commit) && (log_term_at_ r new_commit =? r_term r)
      then queue_hard_state_ (r <| r_commit := new_commit |>)
      else r.

(** ** Lifecycle *)

Definition empty_raft : cetcd_raft :=
  mk_raft 0 0 0 0 0 0 ROLE_FOLLOWER 0 0 0 0 0 0 0 0 false false [] [] 0 [] 0 0 false []
    (replicate MAX_PEERS_ zero_progress) ∅ 0 0 0 0 None [] [] false.

Definition cetcd_raft_new (cfg : cetcd_raft_config) : option cetcd_raft :=
  if c_id cfg =? 0 then None
  else if (c_election_tick cfg =? 0) || (c_heartbeat_tick cfg =? 0) then None
  else
    let r := empty_raft
      <| r_id := c_id cfg |>
      <| r_election_tick := c_election_tick cfg |>
      <| r_heartbeat_tick := c_heartbeat_tick cfg |>
      <| r_election_timeout := c_election_tick cfg |>
      <| r_heartbeat_timeout := c_heartbeat_tick cfg |>
      <| r_max_size_per_msg := c_max_size_per_msg cfg |>
      <| r_max_inflight_msgs := c_max_inflight_msgs cfg |>
      <| r_check_quorum := c_check_quorum cfg |>
      <| r_pre_vote := c_pre_vote cfg |> in
    let r := add_peer_ r (c_id cfg) false in
    Some (r <| r_log_cap := 64 |>).

(** ** Role transitions *)

Definition become_leader_ (r : cetcd_raft) : cetcd_raft :=
  let r := r <| r_role := ROLE_LEADER |> <| r_leader_id := r_id r |>
             <| r_elapsed_ticks := 0 |> <| r_heartbeat_elapsed := 0 |> in
  foldl (fun r i => set_progress r i (mk_progress (u64 (r_log_last_index r + 1)) 0 false false))
        r (seq 0 (Nat.min (n_peers r) MAX_PEERS_)).

Definition send_vote_requests_ (r : cetcd_raft) (typ : cetcd_msg_type) (term : Z) : cetcd_raft :=
  foldl (fun r i =>
           if peer_at r i =? r_id r then r
           else queue_msg_ r (zero_msg <| m_type := typ |> <| m_to := peer_at r i |>
                  <| m_from := r_id r |> <| m_term := term |>
                  <| m_log_term := r_log_last_term r |> <| m_index := r_log_last_index r |>))
        r (seq 0 (n_peers r)).

Definition log_ok_for_vote_ (r : cetcd_raft) (msg : cetcd_msg) : bool :=
  (r_log_last_term r <? m_log_term msg) ||
  ((m_log_term msg =? r_log_last_term r) && (r_log_last_index r <=? m_index msg)).

Definition become_candidate_ (r : cetcd_raft) : cetcd_raft :=
  let r := r <| r_role := ROLE_CANDIDATE |> <| r_leader_id := 0 |>
             <| r_term := u64 (r_term r + 1) |> <| r_vote := r_id r |>
             <| r_elapsed_ticks := 0 |> <| r_votes_granted := [r_id r] |> in
  if vote_quorum_ok_ r then become_leader_ r
  else send_vote_requests_ r CETCD_MSG_VOTE (r_term r).

Definition become_pre_candidate_ (r : cetcd_raft) : cetcd_raft :=
  let r := r <| r_role := ROLE_PRE_CANDIDATE |> <| r_leader_id := 0 |>
             <| r_elapsed_ticks := 0 |> <| r_votes_granted := [r_id r] |> in
  if vote_quorum_ok_ r then become_candidate_ r
  else send_vote_requests_ r CETCD_MSG_PRE_VOTE (u64 (r_term r + 1)).

Definition become_follower_ (r : cetcd_raft) (term leader : Z) : cetcd_raft :=
  let r := r <| r_role := ROLE_FOLLOWER |> <| r_leader_id := leader |> in
  let r := if r_term r <? term
           then r <| r_term := term |> <| r_vote := 0 |> else r in
  r <| r_elapsed_ticks := 0 |>.

(** ** Message handling *)

Definition handle_vote_ (r : cetcd_raft) (msg : cetcd_msg) : cetcd_raft * Z :=
  if m_term msg <? r_term r then
    (queue_msg_ r (zero_msg <| m_type := CETCD_MSG_VOTE_RESP |> <| m_to := m_from msg |>
        <| m_from := r_id r |> <| m_term := r_term r |> <| m_reject := 1 |>), 0)
  else
    let r := if r_term r <? m_term msg
             then queue_hard_state_ (become_follower_ r (m_term msg) 0) else r in
    let can_vote := (r_vote r =? 0) || (r_vote r =? m_from msg) in
    let log_ok := log_ok_for_vote_ r msg in
    let resp := zero_msg <| m_type := CETCD_MSG_VOTE_RESP |> <| m_to := m_from msg |>
                  <| m_from := r_id r |> <| m_term := r_term r |> in
    if can_vote && log_ok then
      let r := queue_hard_state_ (r <| r_vote := m_from msg |> <| r_elapsed_ticks := 0 |>) in
      (queue_msg_ r (resp <| m_reject := 0 |>), 0)
    else (queue_msg_ r (resp <| m_reject := 1 |>), 0).

Definition leader_broadcast_heartbeat_ (r : cetcd_raft) : cetcd_raft :=
  if negb (is_leader (r_role r)) then r
  else
    foldl (fun r i =>
             if peer_at r i =? r_id r then r
             else queue_msg_ r (zero_msg <| m_type := CETCD_MSG_HEARTBEAT |>
                    <| m_to := peer_at r i |> <| m_from := r_id r |>
                    <| m_term := r_term r |> <| m_commit := r_commit r |>))
          r (seq 0 (n_peers r)).

(** The loop that looks up whether the sender is a learner. *)
Definition from_learner_ (r : cetcd_raft) (from : Z) : bool :=
  match find_peer (r_peers r) from 0 (n_peers r) with
  | Some i => peer_is_learner_ r i
  | None => false
  end.

(** Recording a granted vote, bounded by the capacity of the array. *)
Definition record_vote_ (r : cetcd_raft) (from : Z) : cetcd_raft :=
  if negb (vote_from_ r from) && (blen (r_votes_granted r) <? r_peers_cap r)
  then r <| r_votes_granted := r_votes_granted r ++ [from] |> else r.

Definition handle_vote_resp_ (r : cetcd_raft) (msg : cetcd_msg) : cetcd_raft * Z :=
  if r_term r <? m_term msg then
    (queue_hard_state_ (become_follower_ r (m_term msg) 0), 0)
  else match r_role r with
  | ROLE_CANDIDATE =>
      if m_reject msg =? 0 then
        if from_learner_ r (m_from msg) then (r, 0)
        else
          let r := record_vote_ r (m_from msg) in
          if vote_quorum_ok_ r
          then (leader_broadcast_heartbeat_ (queue_hard_state_ (become_leader_ r)), 0)
          else (r, 0)
      else (r, 0)
  | _ => (r, 0)
  end.

Definition handle_pre_vote_ (r : cetcd_raft) (msg : cetcd_msg) : cetcd_raft * Z :=
  let reject :=
    if m_term msg <? r_term r then true
    else if r_check_quorum r && negb (r_leader_id r =? 0)
            && (r_elapsed_ticks r <? r_election_timeout r) then true
    else negb (log_ok_for_vote_ r msg) in
  let resp := zero_msg <| m_type := CETCD_MSG_PRE_VOTE_RESP |> <| m_to := m_from msg |>
                <| m_from := r_id r |> <| m_reject := if reject then 1 else 0 |>
                <| m_term := if reject then r_term r else m_term msg |> in
  (queue_msg_ r resp, 0).

Definition handle_pre_vote_resp_ (r : cetcd_raft) (msg : cetcd_msg) : cetcd_raft * Z :=
  if negb (m_reject msg =? 0) then
    if r_term r <? m_term msg
    then (queue_hard_state_ (become_follower_ r (m_term msg) 0), 0)
    else (r, 0)
  else match r_role r with
  | ROLE_PRE_CANDIDATE =>
      if from_learner_ r (m_from msg) then (r, 0)
      else
        let r := record_vote_ r (m_from msg) in
        if vote_quorum_ok_ r
        then (leader_broadcast_heartbeat_ (queue_hard_state_ (become_candidate_ r)), 0)
        else (r, 0)
  | _ => (r, 0)
  end.

(** One iteration of the append loop of [handle_app_]. *)
Definition app_entry_ (r : cetcd_raft) (idx : Z) (entry : cetcd_entry) : cetcd_raft :=
  let r := if (idx <=? r_log_last_index r) && negb (log_term_at_ r idx =? e_term entry)
           then log_truncate_after_ r (u64 (idx - 1)) else r in
  let r := log_append_ r (entry <| e_index := idx |>) in
  match log_at_ r idx with Some stored => queue_entry_ r stored | None => r end.

Fixpoint app_entries_ (r : cetcd_raft) (idx : Z) (l : list cetcd_entry) : cetcd_raft :=
  match l with
  | [] => r
  | e :: l' => app_entries_ (app_entry_ r (u64 idx) e) (idx + 1) l'
  end.

(** [if (msg->commit > r->commit)], shared by App and Heartbeat. *)
Definition follow_commit_ (r : cetcd_raft) (commit : Z) : cetcd_raft :=
  if r_commit r <? commit then
    let new_commit := if r_log_last_index r <? commit then r_log_last_index r else commit in
    if r_commit r <? new_commit
    then queue_hard_state_ (r <| r_commit := new_commit |>) else r
  else r.

Definition handle_app_ (r : cetcd_raft) (msg : cetcd_msg) : cetcd_raft * Z :=
  let resp r := zero_msg <| m_type := CETCD_MSG_APP_RESP |> <| m_to := m_from msg |>
                  <| m_from := r_id r |> <| m_term := r_term r |> in
  if m_term msg <? r_term r then (queue_msg_ r ((resp r) <| m_reject := 1 |>), 0)
  else
    let r := if r_term r <? m_term msg
             then queue_hard_state_ (become_follower_ r (m_term msg) (m_from msg)) else r in
    let r := if is_follower (r_role r) then r
             else become_follower_ r (m_term msg) (m_from msg) in
    let r := r <| r_leader_id := m_from msg |> <| r_elapsed_ticks := 0 |> in
    if (0 <? m_index msg) && (r_log_last_index r <? m_index msg) then
      (queue_msg_ r ((resp r) <| m_index := r_log_last_index r |> <| m_reject := 1 |>), 0)
    else if (0 <? m_index msg) && negb (log_term_at_ r (m_index msg) =? m_log_term msg) then
      (queue_msg_ r ((resp r) <| m_index := m_index msg |> <| m_reject := 1 |>), 0)
    else
      let r := app_entries_ r (m_index msg + 1) (m_entries msg) in
      let r := follow_commit_ r (m_commit msg) in
      (queue_msg_ r ((resp r) <| m_index := r_log_last_index r |> <| m_reject := 0 |>), 0).

Definition handle_app_resp_ (r : cetcd_raft) (msg : cetcd_msg) : cetcd_raft * Z :=
  if negb (is_leader (r_role r)) then (r, 0)
  else if r_term r <? m_term msg then
    (queue_hard_state_ (become_follower_ r (m_term msg) 0), 0)
  else match peer_slot_ r (m_from msg) with
  | None => (r, 0)
  | Some slot =>
      let r := set_progress r slot ((progress_at r slot) <| pending_app := false |>) in
      if m_reject msg =? 0 then
        let r := set_progress r slot ((progress_at r slot)
                   <| match_idx := m_index msg |> <| next_idx := u64 (m_index msg + 1) |>) in
        let r := maybe_advance_commit_ r in
        (maybe_send_app_ r slot, 0)
      else
        let hint := u64 (m_index msg + 1) in
        let hint := if hint <? 1 then 1 else hint in
        let r := if hint <? next_idx (progress_at r slot)
                 then set_progress r slot ((progress_at r slot) <| next_idx := hint |>) else r in
        let r := if m_index msg <? match_idx (progress_at r slot)
                 then set_progress r slot ((progress_at r slot) <| match_idx := m_index msg |>)
                 else r in
        let r := maybe_send_snap_ r slot in
        (maybe_send_app_ r slot, 0)
  end.

Definition handle_heartbeat_ (r : cetcd_raft) (msg : cetcd_msg) : cetcd_raft * Z :=
  if m_term msg <? r_term r then (r, 0)
  else
    let r := if r_term r <? m_term msg
             then queue_hard_state_ (become_follower_ r (m_term msg) (m_from msg)) else r in
    let r := if is_follower (r_role r) then r
             else become_follower_ r (m_term msg) (m_from msg) in
    let r := r <| r_leader_id := m_from msg |> <| r_elapsed_ticks := 0 |> in
    let r := follow_commit_ r (m_commit msg) in
    (queue_msg_ r (zero_msg <| m_type := CETCD_MSG_HEARTBEAT_RESP |> <| m_to := m_from msg |>
        <| m_from := r_id r |> <| m_term := r_term r |>), 0).

Definition cetcd_raft_compact (r : cetcd_raft) (last_included last_term : Z) : cetcd_raft * Z :=
  if last_included =? 0 then (r, -1)
  else if last_included <? r_log_compacted r then (r, -1)
  else if negb (r_log_last_index r =? 0) && (r_log_last_index r <? last_included) then (r, -1)
  else
    let dummy := zero_entry <| e_term := last_term |> <| e_index := last_included |>
                   <| e_type := CETCD_ENTRY_NORMAL |> in
    let r := log_append_ r dummy in
    if r_log_last_index r <? last_included then (r, -1)
    else
      let clear i e := if (1 <=? i) && (i <? last_included) && (i <? r_log_cap r)
                       then Some (entry_clear_data_ e) else Some e in
      (r <| r_log := map_imap clear (r_log r) |> <| r_log_compacted := last_included |>, 0).

Definition handle_snap_ (r : cetcd_raft) (msg : cetcd_msg) : cetcd_raft * Z :=
  if m_term msg <? r_term r then (r, 0)
  else
    let r := if r_term r <? m_term msg
             then queue_hard_state_ (become_follower_ r (m_term msg) (m_from msg)) else r in
    let st := zero_msg <| m_type := CETCD_MSG_SNAP_STATUS |> <| m_to := m_from msg |>
                <| m_from := r_id r |> <| m_term := r_term r |>
                <| m_snapshot := m_snapshot msg |> <| m_index := m_snapshot msg |> in
    if m_snapshot msg =? 0 then (queue_msg_ r (st <| m_reject := 1 |>), 0)
    else
      let r := if is_follower (r_role r) then r
               else become_follower_ r (r_term r) (m_from msg) in
      let r := r <| r_leader_id := m_from msg |> <| r_elapsed_ticks := 0 |> in
      let '(r, rc) := if r_log_compacted r <? m_snapshot msg
                      then cetcd_raft_compact r (m_snapshot msg) (m_log_term msg)
                      else (r, 0) in
      if negb (rc =? 0) then (queue_msg_ r (st <| m_reject := 1 |>), 0)
      else
        let r := if r_commit r <? m_snapshot msg
                 then queue_hard_state_ (r <| r_commit := m_snapshot msg |>) else r in
        let r := if r_applied r <? m_snapshot msg
                 then r <| r_applied := m_snapshot msg |> else r in
        (queue_msg_ r (st <| m_reject := 0 |>), 0).

Definition handle_snap_status_ (r : cetcd_raft) (msg : cetcd_msg) : cetcd_raft * Z :=
  if negb (is_leader (r_role r)) then (r, 0)
  else match peer_slot_ r (m_from msg) with
  | None => (r, 0)
  | Some slot =>
      let r := set_progress r slot ((progress_at r slot)
                 <| pending_snap := false |> <| pending_app := false |>) in
      if (m_reject msg =? 0) && (0 <? m_snapshot msg) then
        let r := set_progress r slot ((progress_at r slot)
                   <| match_idx := m_snapshot msg |> <| next_idx := u64 (m_snapshot msg + 1) |>) in
        let r := maybe_advance_commit_ r in
        (maybe_send_app_ r slot, 0)
      else (r, 0)
  end.

(** ** Core API *)

(** Appending one entry to the leader's own log, then replicating it: the
    common body of a proposal and of a configuration change. *)
Definition leader_append_ (r : cetcd_raft) (type : Z) (data : bytes) : cetcd_raft :=
  let r := r <| r_log_last_index := u64 (r_log_last_index r + 1) |> in
  let e := mk_entry (r_term r) (r_log_last_index r) type data in
  let r := r <| r_log_last_term := r_term r |> in
  let r := log_append_ r e in
  let r := match log_at_ r (e_index e) with Some stored => queue_entry_ r stored | None => r end in
  let r := queue_hard_state_ r in
  let r := foldl (fun r i =>
                    if peer_at r i =? r_id r then r
                    else if (MAX_PEERS_ <=? i)%nat then r
                    else maybe_send_app_ r i)
                 r (seq 0 (n_peers r)) in
  maybe_advance_commit_ r.

(** One peer of the BEAT loop. *)
Definition beat_peer_ (r : cetcd_raft) (i : nat) : cetcd_raft :=
  if peer_at r i =? r_id r then r
  else
    let r := queue_msg_ r (zero_msg <| m_type := CETCD_MSG_HEARTBEAT |>
               <| m_to := peer_at r i |> <| m_from := r_id r |>
               <| m_term := r_term r |> <| m_commit := r_commit r |>) in
    let r := set_progress r i ((progress_at r i) <| pending_app := false |>) in
    let r := maybe_send_snap_ r i in
    maybe_send_app_ r i.

Definition cetcd_raft_step (r : cetcd_raft) (msg : cetcd_msg) : cetcd_raft * Z :=
  match m_type msg with
  | CETCD_MSG_HUP =>
      if is_leader (r_role r) then (r, 0)
      else (queue_hard_state_ (if r_pre_vote r then become_pre_candidate_ r
                               else become_candidate_ r), 0)
  | CETCD_MSG_VOTE => handle_vote_ r msg
  | CETCD_MSG_VOTE_RESP => handle_vote_resp_ r msg
  | CETCD_MSG_PRE_VOTE => handle_pre_vote_ r msg
  | CETCD_MSG_PRE_VOTE_RESP => handle_pre_vote_resp_ r msg
  | CETCD_MSG_APP => handle_app_ r msg
  | CETCD_MSG_APP_RESP => handle_app_resp_ r msg
  | CETCD_MSG_HEARTBEAT => handle_heartbeat_ r msg
  | CETCD_MSG_PROP =>
      if negb (is_leader (r_role r)) then (r, -1)
      else (leader_append_ r CETCD_ENTRY_NORMAL (m_context msg), 0)
  | CETCD_MSG_BEAT =>
      if negb (is_leader (r_role r)) then (r, 0)
      else (foldl beat_peer_ r (seq 0 (Nat.min (n_peers r) MAX_PEERS_)), 0)
  | CETCD_MSG_SNAP => handle_snap_ r msg
  | CETCD_MSG_SNAP_STATUS => handle_snap_status_ r msg
  | CETCD_MSG_TRANSFER_LEADER =>
      if negb (is_leader (r_role r)) then (r, 0)
      else (queue_msg_ r (zero_msg <| m_type := CETCD_MSG_TIMEOUT_NOW |>
              <| m_to := m_to msg |> <| m_from := r_id r |> <| m_term := r_term r |>), 0)
  | CETCD_MSG_TIMEOUT_NOW =>
      if is_leader (r_role r) then (r, 0)
      else (queue_hard_state_ (become_candidate_ r), 0)
  | _ => (r, 0)
  end.

Definition cetcd_raft_tick (r : cetcd_raft) : cetcd_raft :=
  let r := r <| r_elapsed_ticks := u64 (r_elapsed_ticks r + 1) |>
             <| r_heartbeat_elapsed := u64 (r_heartbeat_elapsed r + 1) |> in
  if is_leader (r_role r) then
    if r_heartbeat_timeout r <=? r_heartbeat_elapsed r then
      let r := r <| r_heartbeat_elapsed := 0 |> in
      (cetcd_raft_step r (zero_msg <| m_type := CETCD_MSG_BEAT |> <| m_from := r_id r |>)).1
    else r
  else
    if r_election_timeout r <=? r_elapsed_ticks r then
      (cetcd_raft_step r (zero_msg <| m_type := CETCD_MSG_HUP |> <| m_from := r_id r |>)).1
    else r.

Definition cetcd_raft_advance_ticks (r : cetcd_raft) (n : Z) : cetcd_raft :=
  Nat.iter (Z.to_nat n) cetcd_raft_tick r.

Definition cetcd_raft_initial_advance_ticks (election_tick : Z) : Z :=
  if 1 <? election_tick then election_tick - 1 else 0.

Definition cetcd_raft_propose (r : cetcd_raft) (data : bytes) : cetcd_raft * Z :=
  if negb (is_leader (r_role r)) then (r, -1)
  else cetcd_raft_step r (zero_msg <| m_type := CETCD_MSG_PROP |> <| m_context := data |>).

Definition cetcd_raft_propose_conf_change (r : cetcd_raft) (data : bytes) : cetcd_raft * Z :=
  if negb (is_leader (r_role r)) then (r, -1)
  else if blen data =? 0 then (r, -1)
  else (leader_append_ r CETCD_ENTRY_CONF_CHANGE data, 0).

(** ** Membership *)

Definition cetcd_raft_apply_conf_change (r : cetcd_raft) (voters learners : list Z) : cetcd_raft :=
  let r := foldl (fun r id => add_peer_ r id false) r voters in
  foldl (fun r id => add_peer_ r id true) r learners.

Definition cetcd_raft_add_peer (r : cetcd_raft) (id : Z) (is_learner : bool) : cetcd_raft * Z :=
  if id =? 0 then (r, -1)
  else if has_peer_ r id then (r, -1)
  else
    let r := add_peer_ r id is_learner in
    (r, if has_peer_ r id then 0 else -1).

Definition cetcd_raft_promote (r : cetcd_raft) (id : Z) : cetcd_raft * Z :=
  if id =? 0 then (r, -1)
  else match find_peer (r_peers r) id 0 (n_peers r) with
  | None => (r, -1)
  | Some i =>
      if negb (peer_is_learner_ r i) then (r, -1)
      else (r <| r_peer_learner := <[i := false]> (r_peer_learner r) |>, 0)
  end.

Definition cetcd_raft_remove_peer (r : cetcd_raft) (id : Z) : cetcd_raft * Z :=
  if (id =? 0) || (id =? r_id r) then (r, -1)
  else match find_peer (r_peers r) id 0 (n_peers r) with
  | None => (r, -1)
  | Some i =>
      let shift p j :=
        if (j <? MAX_PEERS_)%nat then <[(j - 1)%nat := default zero_progress (p !! j)]> p else p in
      (r <| r_progress := foldl shift (r_progress r) (seq (S i) (n_peers r - S i)) |>
         <| r_peers := delete i (r_peers r) |>
         <| r_peer_learner := delete i (r_peer_learner r) |>, 0)
  end.

Definition cetcd_raft_enter_joint (r : cetcd_raft) : cetcd_raft * Z :=
  if 0 <? blen (r_outgoing r) then (r, -1)
  else
    let out := incoming_ r in
    if blen out =? 0 then (r, -1)
    else (r <| r_outgoing := out |>
            <| r_joint_index := if r_applying_index r =? 0 then r_log_last_index r
                                else r_applying_index r |>
            <| r_leave_pending := false |>, 0).

Definition cetcd_raft_leave_joint (r : cetcd_raft) : cetcd_raft * Z :=
  if blen (r_outgoing r) =? 0 then (r, 0)
  else (r <| r_outgoing := [] |> <| r_joint_index := 0 |> <| r_leave_pending := false |>, 0).

Definition cetcd_raft_restore_joint (r : cetcd_raft) (ids : list Z) (joint_index : Z)
  : cetcd_raft * Z :=
  if (blen ids =? 0) || (Z.of_nat MAX_PEERS_ <? blen ids) then (r, -1)
  else (r <| r_outgoing := ids |> <| r_joint_index := joint_index |>
          <| r_leave_pending := false |>, 0).

Definition cetcd_raft_in_joint (r : cetcd_raft) : bool := 0 <? blen (r_outgoing r).

Definition cetcd_raft_joint_caught_up (r : cetcd_raft) : bool :=
  if blen (r_outgoing r) =? 0 then false
  else forallb (fun i => peer_is_learner_ r i
                         || negb (match_of_ r (peer_at r i) <? r_joint_index r))
               (seq 0 (n_peers r)).

Definition cetcd_raft_joint_index (r : cetcd_raft) : Z := r_joint_index r.

(** The ids copied out and the return value. *)
Definition cetcd_raft_copy_outgoing (r : cetcd_raft) (cap : Z) : list Z * Z :=
  (take (Z.to_nat cap) (r_outgoing r), blen (r_outgoing r)).

Definition cetcd_raft_set_applying (r : cetcd_raft) (index : Z) : cetcd_raft :=
  r <| r_applying_index := index |>.

Definition cetcd_raft_set_leave_pending (r : cetcd_raft) (pending : bool) : cetcd_raft :=
  r <| r_leave_pending := pending |>.

(** ** Ready *)

Record cetcd_ready : Type := mk_ready {
  rd_hard_state : option cetcd_hard_state;
  rd_soft_state : option (Z * raft_role_);
  rd_entries : list cetcd_entry;
  rd_committed : Z;
  rd_messages : list cetcd_msg
}.

Definition cetcd_raft_ready (r : cetcd_raft) : cetcd_raft * cetcd_ready :=
  let rd := mk_ready (r_pending_hs r)
              (if r_has_pending r then Some (r_leader_id r, r_role r) else None)
              (r_pending_entries r) (r_commit r) (r_pending_msgs r) in
  (r <| r_pending_hs := None |> <| r_pending_entries := [] |>
     <| r_pending_msgs := [] |> <| r_has_pending := false |>, rd).

Definition cetcd_raft_advance (r : cetcd_raft) (rd : cetcd_ready) : cetcd_raft :=
  if r_applied r <? rd_committed rd then r <| r_applied := rd_committed rd |> else r.

(** ** Queries and restart *)

Definition cetcd_raft_voter_count (r : cetcd_raft) : Z :=
  blen (List.filter (fun i => negb (peer_is_learner_ r i)) (seq 0 (n_peers r))).

Definition cetcd_raft_entry_at (r : cetcd_raft) (index : Z) : option cetcd_entry :=
  if (index =? 0) || (r_log_last_index r <? index) then None
  else if index <? r_log_compacted r then None
  else Some (log_slot r index).

Definition cetcd_raft_restore_entry (r : cetcd_raft) (e : cetcd_entry) : cetcd_raft * Z :=
  if e_index e =? 0 then (r, -1)
  else
    let r := log_append_ r e in
    if r_log_last_index r <? e_index e then (r, -1) else (r, 0).

Definition cetcd_raft_restore_hard_state (r : cetcd_raft) (hs : cetcd_hard_state) : cetcd_raft :=
  r <| r_term := hs_term hs |> <| r_vote := hs_vote hs |> <| r_commit := hs_commit hs |>.

Definition cetcd_raft_set_applied (r : cetcd_raft) (applied : Z) : cetcd_raft :=
  r <| r_applied := applied |>.

Definition cetcd_raft_copy_hard_state (r : cetcd_raft) : cetcd_hard_state :=
  mk_hard_state (r_term r) (r_vote r) (r_commit r).

(** [cetcd_node_state], the public names of the roles in the order of
    [raft_role_]. *)
Inductive cetcd_node_state : Type :=
| CETCD_NODE_FOLLOWER | CETCD_NODE_CANDIDATE | CETCD_NODE_LEADER | CETCD_NODE_PRE_CANDIDATE.

Definition cetcd_raft_state (r : cetcd_raft) : cetcd_node_state :=
  match r_role r with
  | ROLE_FOLLOWER => CETCD_NODE_FOLLOWER
  | ROLE_CANDIDATE => CETCD_NODE_CANDIDATE
  | ROLE_LEADER => CETCD_NODE_LEADER
  | ROLE_PRE_CANDIDATE => CETCD_NODE_PRE_CANDIDATE
  end.

Definition cetcd_raft_leader (r : cetcd_raft) : Z := r_leader_id r.
Definition cetcd_raft_term (r : cetcd_raft) : Z := r_term r.
Definition cetcd_raft_committed (r : cetcd_raft) : Z := r_commit r.
Definition cetcd_raft_applied (r : cetcd_raft) : Z := r_applied r.
Definition cetcd_raft_last_index (r : cetcd_raft) : Z := r_log_last_index r.
Definition cetcd_raft_compacted (r : cetcd_raft) : Z := r_log_compacted r.
Definition cetcd_raft_leave_pending (r : cetcd_raft) : bool := r_leave_pending r.
