(* ===== verification/RaftState.v ===== *)
(** * Invariants of the raft node: terms, votes, commit index, elections

    The lemmas are organised around [core]: the node without its outgoing
    queues and replication progress.  Every function that only queues or only
    moves progress keeps the core, so its effect on the consensus state is
    settled by one rewrite. *)

From S2P Require Import Prelude Raft.

(** ** The consensus core *)

Definition core (r : cetcd_raft) : cetcd_raft :=
  r <| r_pending_hs := None |> <| r_pending_entries := [] |> <| r_pending_msgs := [] |>
    <| r_has_pending := false |> <| r_progress := [] |>.

Lemma core_queue_msg r m : core (queue_msg_ r m) = core r.
Proof. reflexivity. Qed.
Lemma core_queue_entry r e : core (queue_entry_ r e) = core r.
Proof. reflexivity. Qed.
Lemma core_queue_hard_state r : core (queue_hard_state_ r) = core r.
Proof. reflexivity. Qed.
Lemma core_set_progress r i p : core (set_progress r i p) = core r.
Proof. reflexivity. Qed.

Create Rewrite HintDb core.
#[export] Hint Rewrite core_queue_msg core_queue_entry core_queue_hard_state core_set_progress : core.

(** Splits every guard of a function of the node, without unfolding it. *)
Ltac core_cases :=
  repeat (case_match; autorewrite with core; try reflexivity).

Lemma core_maybe_send_snap r i : core (maybe_send_snap_ r i) = core r.
Proof. unfold maybe_send_snap_. cbv zeta. core_cases. Qed.
#[export] Hint Rewrite core_maybe_send_snap : core.

Lemma core_maybe_send_app r i : core (maybe_send_app_ r i) = core r.
Proof. unfold maybe_send_app_. cbv zeta. core_cases. Qed.
#[export] Hint Rewrite core_maybe_send_app : core.

Lemma core_foldl {A} (f : cetcd_raft -> A -> cetcd_raft) l r :
  (forall r x, core (f r x) = core r) -> core (foldl f r l) = core r.
Proof. intros Hf. revert r; induction l as [|x l IH]; intros r; cbn [foldl]; [done|]. by rewrite IH. Qed.

Lemma core_send_vote_requests r typ t : core (send_vote_requests_ r typ t) = core r.
Proof. apply core_foldl. intros; core_cases. Qed.

Lemma core_broadcast_heartbeat r : core (leader_broadcast_heartbeat_ r) = core r.
Proof. unfold leader_broadcast_heartbeat_. case_match; [done|]. apply core_foldl. intros; core_cases. Qed.

Lemma core_beat_peer r i : core (beat_peer_ r i) = core r.
Proof. unfold beat_peer_. cbv zeta. core_cases. Qed.

Lemma core_become_leader r :
  core (become_leader_ r) =
  core (r <| r_role := ROLE_LEADER |> <| r_leader_id := r_id r |>
          <| r_elapsed_ticks := 0 |> <| r_heartbeat_elapsed := 0 |>).
Proof. unfold become_leader_. cbv zeta. by rewrite core_foldl. Qed.

#[export] Hint Rewrite core_send_vote_requests core_broadcast_heartbeat core_beat_peer
  core_become_leader : core.

(** A field of the core is the field of the node. *)
Lemma core_field {T} (f : cetcd_raft -> T) r r' :
  (forall x, f (core x) = f x) -> core r = core r' -> f r = f r'.
Proof. intros Hf E. by rewrite <- (Hf r), <- (Hf r'), E. Qed.

Ltac core_proj f E := exact (core_field f _ _ (fun _ => eq_refl) E).

(** ** Monotone hard state

    [hs_le r r']: from [r] to [r'] the term did not go back, a vote cast was
    kept for the rest of its term, and the commit index did not go back. *)

Definition hs_le (r r' : cetcd_raft) : Prop :=
  (r_term r < r_term r' \/
   r_term r = r_term r' /\ (r_vote r' = r_vote r \/ r_vote r = 0)) /\
  r_commit r <= r_commit r'.

#[export] Instance hs_le_preorder : PreOrder hs_le.
Proof.
  split; [intros r; unfold hs_le; lia|]. intros a b c. unfold hs_le. lia.
Qed.

Lemma hs_le_core r r' : core r = core r' -> hs_le r r'.
Proof.
  intros E. unfold hs_le.
  assert (r_term r = r_term r') by core_proj r_term E.
  assert (r_vote r = r_vote r') by core_proj r_vote E.
  assert (r_commit r = r_commit r') by core_proj r_commit E. lia.
Qed.

Lemma hs_le_same_core a r r' : core r = core r' -> hs_le a r -> hs_le a r'.
Proof. intros E H. etransitivity; [exact H|]. by apply hs_le_core. Qed.

Lemma hs_le_follower r t l : hs_le r (become_follower_ r t l).
Proof. unfold become_follower_, hs_le. cbn. guards; cbn in *; lia. Qed.

Definition bumped (r : cetcd_raft) : cetcd_raft :=
  r <| r_role := ROLE_CANDIDATE |> <| r_leader_id := 0 |>
    <| r_term := u64 (r_term r + 1) |> <| r_vote := r_id r |>
    <| r_elapsed_ticks := 0 |> <| r_votes_granted := [r_id r] |>.

Lemma become_candidate_core r :
  core (become_candidate_ r) = core (bumped r) \/
  (vote_quorum_ok_ (bumped r) = true /\ core (become_candidate_ r) = core (become_leader_ (bumped r))).
Proof.
  unfold become_candidate_. cbv zeta. fold (bumped r). case_match; [by right|left].
  by autorewrite with core.
Qed.

Lemma hs_le_candidate r : 0 <= r_term r < 18446744073709551615 -> hs_le r (become_candidate_ r).
Proof.
  intros Ht. assert (Hb : hs_le r (bumped r)).
  { unfold hs_le, bumped, u64. cbn. rewrite Z.mod_small by lia. lia. }
  destruct (become_candidate_core r) as [E|[_ E]].
  - eapply hs_le_same_core; [symmetry; exact E|done].
  - rewrite core_become_leader in E. eapply hs_le_same_core; [symmetry; exact E|].
    revert Hb. unfold hs_le, bumped. cbn -[u64]. tauto.
Qed.

Lemma hs_le_pre_candidate r : 0 <= r_term r < 18446744073709551615 -> hs_le r (become_pre_candidate_ r).
Proof.
  intros Ht. unfold become_pre_candidate_. cbv zeta.
  set (r1 := r <| r_role := ROLE_PRE_CANDIDATE |> <| r_leader_id := 0 |>
               <| r_elapsed_ticks := 0 |> <| r_votes_granted := [r_id r] |>).
  assert (H1 : hs_le r r1) by (unfold hs_le; cbn; lia).
  case_match.
  - etransitivity; [exact H1|]. by apply hs_le_candidate.
  - eapply hs_le_same_core; [symmetry; apply core_send_vote_requests|done].
Qed.

(** The commit index a leader may move to. *)
Definition commit_target (r : cetcd_raft) : Z :=
  let new_commit := majority_match_ids_ r (incoming_ r) in
  if 0 <? blen (r_outgoing r) then
    if majority_match_ids_ r (r_outgoing r) <? new_commit
    then majority_match_ids_ r (r_outgoing r) else new_commit
  else new_commit.

Lemma advance_commit_cases r :
  maybe_advance_commit_ r = r \/
  exists c, r_commit r < c /\
    (c = commit_target r /\ r_role r = ROLE_LEADER /\ incoming_ r <> [] /\
     log_term_at_ r c = r_term r) /\
    maybe_advance_commit_ r = queue_hard_state_ (r <| r_commit := c |>).
Proof.
  unfold maybe_advance_commit_. cbv zeta. fold (commit_target r).
  destruct (r_role r) eqn:Hr; cbn [is_leader negb]; auto.
  destruct (Z.eqb_spec (blen (incoming_ r)) 0) as [|Hi]; [by left|].
  destruct (Z.ltb_spec (r_commit r) (commit_target r)); cbn [andb]; [|by left].
  destruct (Z.eqb_spec (log_term_at_ r (commit_target r)) (r_term r)); [|by left].
  right. exists (commit_target r). split_and!; try done. intros E. by rewrite E in Hi.
Qed.

Lemma hs_le_advance_commit r : hs_le r (maybe_advance_commit_ r).
Proof.
  destruct (advance_commit_cases r) as [->|(c & Hc & _ & ->)]; [reflexivity|].
  unfold hs_le; cbn; lia.
Qed.

Lemma hs_le_follow_commit r c : hs_le r (follow_commit_ r c).
Proof. unfold follow_commit_. cbv zeta. guards; try reflexivity; unfold hs_le; cbn; lia. Qed.

Lemma hs_le_log_append r e : hs_le r (log_append_ r e).
Proof. unfold log_append_. cbv zeta. guards; unfold hs_le; cbn; lia. Qed.

Lemma hs_le_truncate r i : hs_le r (log_truncate_after_ r i).
Proof. unfold log_truncate_after_. cbv zeta. guards; try reflexivity. unfold hs_le; cbn; lia. Qed.

Lemma hs_le_app_entry r i e : hs_le r (app_entry_ r i e).
Proof.
  unfold app_entry_. cbv zeta.
  set (r1 := if _ && _ then _ else r).
  assert (H1 : hs_le r r1) by (subst r1; case_match; [apply hs_le_truncate|reflexivity]).
  etransitivity; [exact H1|]. etransitivity; [apply hs_le_log_append|].
  case_match; [apply hs_le_core; by autorewrite with core|reflexivity].
Qed.

Lemma hs_le_app_entries l r i : hs_le r (app_entries_ r i l).
Proof.
  revert r i; induction l as [|e l IH]; intros r i; cbn [app_entries_]; [reflexivity|].
  etransitivity; [apply hs_le_app_entry|apply IH].
Qed.

(** Compaction refuses, or rewrites the log behind the boundary entry. *)
Lemma compact_cases r i t :
  cetcd_raft_compact r i t = (r, -1) \/
  exists r', r' = log_append_ r (mk_entry t i CETCD_ENTRY_NORMAL []) /\
    (cetcd_raft_compact r i t = (r', -1) \/
     exists l, cetcd_raft_compact r i t = (r' <| r_log := l |> <| r_log_compacted := i |>, 0)).
Proof.
  unfold cetcd_raft_compact. cbv zeta.
  do 3 (case_match; [by left|]). right. eexists. split; [reflexivity|].
  case_match; [by left|right]. by eexists.
Qed.

Lemma hs_le_compact r i t : hs_le r (cetcd_raft_compact r i t).1.
Proof.
  destruct (compact_cases r i t) as [->|(r' & E & H)]; [reflexivity|].
  assert (Ha : hs_le r r') by (subst r'; apply hs_le_log_append). clear E.
  destruct H as [->|(l & ->)]; cbn [fst]; [done|].
  etransitivity; [exact Ha|]. unfold hs_le; cbn; lia.
Qed.

Create HintDb hs_le.
#[export] Hint Resolve hs_le_follower hs_le_candidate hs_le_pre_candidate hs_le_advance_commit
  hs_le_follow_commit hs_le_log_append hs_le_truncate hs_le_app_entries hs_le_compact : hs_le.

(** Strips the queueing wrappers around the state of interest. *)
Lemma hs_le_queue_msg a r m : hs_le a r -> hs_le a (queue_msg_ r m).
Proof. apply hs_le_same_core. by autorewrite with core. Qed.
Lemma hs_le_queue_hs a r : hs_le a r -> hs_le a (queue_hard_state_ r).
Proof. apply hs_le_same_core. by autorewrite with core. Qed.
Lemma hs_le_progress a r i p : hs_le a r -> hs_le a (set_progress r i p).
Proof. apply hs_le_same_core. by autorewrite with core. Qed.
Lemma hs_le_send_app a r i : hs_le a r -> hs_le a (maybe_send_app_ r i).
Proof. apply hs_le_same_core. by autorewrite with core. Qed.
Lemma hs_le_send_snap a r i : hs_le a r -> hs_le a (maybe_send_snap_ r i).
Proof. apply hs_le_same_core. by autorewrite with core. Qed.
#[export] Hint Resolve hs_le_queue_msg hs_le_queue_hs hs_le_progress hs_le_send_app hs_le_send_snap : hs_le.

Lemma hs_le_trans_advance a r : hs_le a r -> hs_le a (maybe_advance_commit_ r).
Proof. intros H. etransitivity; [exact H|apply hs_le_advance_commit]. Qed.
#[export] Hint Resolve hs_le_trans_advance : hs_le.

(** The adoption of a message of a newer term, and the return to follower
    before the log is touched, common to the handlers. *)
Definition adopt_term (r : cetcd_raft) (t l : Z) : cetcd_raft :=
  if r_term r <? t then queue_hard_state_ (become_follower_ r t l) else r.
Definition step_down (r : cetcd_raft) (t l : Z) : cetcd_raft :=
  if is_follower (r_role r) then r else become_follower_ r t l.

Lemma hs_le_adopt a r t l : hs_le a r -> hs_le a (adopt_term r t l).
Proof. intros H. unfold adopt_term. case_match; [|done]. apply hs_le_queue_hs. etransitivity; [exact H|auto with hs_le]. Qed.
Lemma hs_le_step_down a r t l : hs_le a r -> hs_le a (step_down r t l).
Proof. intros H. unfold step_down. case_match; [done|]. etransitivity; [exact H|auto with hs_le]. Qed.
Lemma hs_le_election_reset a r l t : hs_le a r ->
  hs_le a (r <| r_leader_id := l |> <| r_elapsed_ticks := t |>).
Proof. unfold hs_le; cbn; lia. Qed.
Lemma hs_le_trans_entries a r i l : hs_le a r -> hs_le a (app_entries_ r i l).
Proof. intros H. etransitivity; [exact H|auto with hs_le]. Qed.
Lemma hs_le_trans_follow_commit a r c : hs_le a r -> hs_le a (follow_commit_ r c).
Proof. intros H. etransitivity; [exact H|auto with hs_le]. Qed.
#[export] Hint Resolve hs_le_adopt hs_le_step_down hs_le_election_reset hs_le_trans_entries
  hs_le_trans_follow_commit : hs_le.
#[export] Hint Extern 0 (hs_le ?r ?r) => reflexivity : hs_le.

Lemma hs_le_vote r m : hs_le r (handle_vote_ r m).1.
Proof.
  unfold handle_vote_. cbv zeta. fold (adopt_term r (m_term m) 0).
  assert (H : hs_le r (adopt_term r (m_term m) 0)) by auto with hs_le.
  revert H. generalize (adopt_term r (m_term m) 0). intros r1 H.
  destruct (m_term m <? r_term r); cbn [fst]; [auto with hs_le|].
  destruct (Z.eqb_spec (r_vote r1) 0), (Z.eqb_spec (r_vote r1) (m_from m)); cbn [orb andb];
    try destruct (log_ok_for_vote_ r1 m); cbn [fst]; apply hs_le_queue_msg; try done;
    apply hs_le_queue_hs; etransitivity; try exact H; unfold hs_le; cbn; lia.
Qed.

Lemma hs_le_become_leader a r : hs_le a r -> hs_le a (become_leader_ r).
Proof.
  intros H. eapply hs_le_same_core; [symmetry; apply core_become_leader|].
  revert H. unfold hs_le; cbn; tauto.
Qed.

Lemma hs_le_broadcast a r : hs_le a r -> hs_le a (leader_broadcast_heartbeat_ r).
Proof. apply hs_le_same_core. by autorewrite with core. Qed.

Lemma hs_le_record_vote a r i : hs_le a r -> hs_le a (record_vote_ r i).
Proof. unfold record_vote_. case_match; [|done]. unfold hs_le; cbn; tauto. Qed.
#[export] Hint Resolve hs_le_become_leader hs_le_broadcast hs_le_record_vote : hs_le.

Lemma record_vote_term r i : r_term (record_vote_ r i) = r_term r.
Proof. unfold record_vote_. by case_match. Qed.

Lemma hs_le_vote_resp r m : hs_le r (handle_vote_resp_ r m).1.
Proof.
  unfold handle_vote_resp_. cbv zeta.
  repeat case_match; cbn [fst]; auto 6 with hs_le.
Qed.

Lemma hs_le_pre_vote_resp r m :
  0 <= r_term r < 18446744073709551615 -> hs_le r (handle_pre_vote_resp_ r m).1.
Proof.
  intros Ht. unfold handle_pre_vote_resp_. cbv zeta.
  repeat case_match; cbn [fst]; auto 6 with hs_le.
  apply hs_le_broadcast, hs_le_queue_hs. etransitivity; [apply hs_le_record_vote; reflexivity|].
  apply hs_le_candidate. by rewrite record_vote_term.
Qed.

Lemma hs_le_app r m : hs_le r (handle_app_ r m).1.
Proof.
  unfold handle_app_. cbv zeta. fold (adopt_term r (m_term m) (m_from m)).
  fold (step_down (adopt_term r (m_term m) (m_from m)) (m_term m) (m_from m)).
  set (r1 := _ <| r_leader_id := m_from m |> <| r_elapsed_ticks := 0 |>).
  assert (H : hs_le r r1) by (subst r1; auto with hs_le). clearbody r1.
  repeat case_match; cbn [fst]; auto 6 with hs_le.
Qed.

Lemma hs_le_heartbeat r m : hs_le r (handle_heartbeat_ r m).1.
Proof.
  unfold handle_heartbeat_. cbv zeta. fold (adopt_term r (m_term m) (m_from m)).
  fold (step_down (adopt_term r (m_term m) (m_from m)) (m_term m) (m_from m)).
  set (r1 := _ <| r_leader_id := m_from m |> <| r_elapsed_ticks := 0 |>).
  assert (H : hs_le r r1) by (subst r1; auto with hs_le). clearbody r1.
  case_match; cbn [fst]; auto 6 with hs_le.
Qed.

Lemma hs_le_app_resp r m : hs_le r (handle_app_resp_ r m).1.
Proof.
  unfold handle_app_resp_. cbv zeta.
  repeat case_match; cbn [fst]; auto 10 with hs_le.
Qed.

Lemma hs_le_snap_status r m : hs_le r (handle_snap_status_ r m).1.
Proof.
  unfold handle_snap_status_. cbv zeta.
  repeat case_match; cbn [fst]; auto 10 with hs_le.
Qed.

Lemma hs_le_snap r m : hs_le r (handle_snap_ r m).1.
Proof.
  unfold handle_snap_. cbv zeta. fold (adopt_term r (m_term m) (m_from m)).
  assert (H0 : hs_le r (adopt_term r (m_term m) (m_from m))) by auto with hs_le.
  revert H0. generalize (adopt_term r (m_term m) (m_from m)). intros r0 H0.
  fold (step_down r0 (r_term r0) (m_from m)).
  set (r1 := _ <| r_leader_id := m_from m |> <| r_elapsed_ticks := 0 |>).
  assert (H : hs_le r r1) by (subst r1; auto with hs_le). clearbody r1.
  destruct (m_term m <? r_term r); [reflexivity|].
  destruct (m_snapshot m =? 0); cbn [fst]; [auto with hs_le|].
  destruct (if r_log_compacted r1 <? m_snapshot m then _ else _) as [r2 rc] eqn:E.
  assert (H2 : hs_le r r2).
  { case_match; [|injection E as <- <-; done].
    replace r2 with (cetcd_raft_compact r1 (m_snapshot m) (m_log_term m)).1 by (by rewrite E).
    etransitivity; [exact H|auto with hs_le]. }
  clear E. destruct (negb (rc =? 0)); cbn [fst]; [auto with hs_le|].
  apply hs_le_queue_msg. guards; try apply hs_le_queue_hs; etransitivity; try exact H2;
    unfold hs_le; cbn; lia.
Qed.

Lemma core_leader_append r typ d :
  exists r1, core r1 = core (log_append_ (r <| r_log_last_index := u64 (r_log_last_index r + 1) |>
       <| r_log_last_term := r_term r |>)
       (mk_entry (r_term r) (u64 (r_log_last_index r + 1)) typ d)) /\
    leader_append_ r typ d = maybe_advance_commit_ r1.
Proof.
  eexists. split; [|reflexivity]. rewrite core_foldl.
  - rewrite core_queue_hard_state. cbn. case_match; autorewrite with core; reflexivity.
  - intros r' x. core_cases.
Qed.

Lemma hs_le_leader_append r typ d : hs_le r (leader_append_ r typ d).
Proof.
  destruct (core_leader_append r typ d) as (r1 & E & ->).
  apply hs_le_trans_advance. eapply hs_le_same_core; [symmetry; exact E|].
  etransitivity; [|apply hs_le_log_append]. unfold hs_le; cbn; lia.
Qed.

(** C3: the hard state only moves forward.  Whatever message arrives, the term
    does not decrease, within one term a vote once cast is not changed, and
    the commit index does not decrease.  (The term counter itself must not be
    at the end of its 64-bit range, where [term + 1] would wrap.) *)
Theorem step_hard_state_monotone r m :
  0 <= r_term r < 18446744073709551615 -> hs_le r (cetcd_raft_step r m).1.
Proof.
  intros Ht. unfold cetcd_raft_step.
  assert (Hbeat : forall l r0, hs_le r r0 -> hs_le r (foldl beat_peer_ r0 l)).
  { intros l r0. apply hs_le_same_core. symmetry. apply core_foldl, core_beat_peer. }
  destruct (m_type m); try reflexivity;
    auto using hs_le_vote, hs_le_vote_resp, hs_le_pre_vote_resp, hs_le_app, hs_le_app_resp,
      hs_le_heartbeat, hs_le_snap, hs_le_snap_status;
    repeat case_match; cbn [fst]; auto using hs_le_leader_append with hs_le.
  unfold handle_pre_vote_. cbv zeta. cbn [fst]. auto with hs_le.
Qed.

Lemma step_hard_state_monotone_witness :
  exists r, cetcd_raft_new (mk_config 1 10 1 0 0 false false) = Some r /\
    hs_le r (cetcd_raft_step r (zero_msg <| m_type := CETCD_MSG_VOTE |> <| m_from := 2 |> <| m_term := 7 |>)).1 /\
    r_vote (cetcd_raft_step r (zero_msg <| m_type := CETCD_MSG_VOTE |> <| m_from := 2 |> <| m_term := 7 |>)).1 = 2.
Proof.
  eexists. split; [reflexivity|]. split; [|vm_compute; reflexivity].
  apply step_hard_state_monotone. vm_compute. split; congruence.
Defined.
