(* ===== verification/RaftQuorum.v ===== *)
(** * Quorums: elections and the commit rule of the raft node

    [majority_match_ids_] is an order statistic, computed by an exchange sort;
    the first part shows which one.  The second part turns [vote_quorum_ok_]
    and [maybe_advance_commit_] into statements about majorities of the
    incoming configuration and, while a joint configuration is in force, of
    the outgoing one. *)

From S2P Require Import Prelude Raft RaftState.

(** ** Majorities *)

(** More than half of [ids] satisfy [P]. *)
Definition majority (ids : list Z) (P : Z -> bool) : Prop :=
  blen ids < 2 * blen (List.filter P ids).

(** Joint majority: of the incoming voters, and of the outgoing ones while the
    configuration is joint. *)
Definition joint_majority (r : cetcd_raft) (P : Z -> bool) : Prop :=
  majority (incoming_ r) P /\ (r_outgoing r = [] \/ majority (r_outgoing r) P).

Lemma quorum_majority (n k : Z) : 0 <= n -> quorum_ n <= k <-> n < 2 * k.
Proof. intros Hn. unfold quorum_. pose proof (Z.div_mod n 2). pose proof (Z.mod_pos_bound n 2). lia. Qed.

Lemma filter_overlap (l : list Z) (P Q : Z -> bool) :
  (length l < length (List.filter P l) + length (List.filter Q l))%nat ->
  exists x, x ∈ l /\ P x = true /\ Q x = true.
Proof.
  induction l as [|a l IH]; cbn; [lia|]. intros H.
  destruct (P a) eqn:HP, (Q a) eqn:HQ; cbn in H; try (exists a; by rewrite elem_of_cons; auto).
  all: destruct IH as (x & Hx & ?); [lia|]; exists x; rewrite elem_of_cons; auto.
Qed.

Lemma majority_overlap ids P Q :
  majority ids P -> majority ids Q -> exists x, x ∈ ids /\ P x = true /\ Q x = true.
Proof. unfold majority, blen. intros H1 H2. apply filter_overlap. lia. Qed.

Lemma majority_nonempty ids P : majority ids P -> ids <> [].
Proof. intros H ->. unfold majority, blen in H. cbn in H. lia. Qed.

(** ** The order statistic *)

Definition at_least (c : Z) (x : Z) : bool := c <=? x.

Lemma exchange_pass_spec x l :
  let '(top, rest) := exchange_pass x l in
  top :: rest ≡ₚ x :: l /\ length rest = length l /\ Forall (fun y => y <= top) rest /\ x <= top.
Proof.
  revert x; induction l as [|y l IH]; intros x; cbn [exchange_pass]; [split_and!; [done|done|constructor|lia]|].
  destruct (Z.ltb_spec x y).
  - specialize (IH y). destruct (exchange_pass y l) as [top rest]. destruct IH as (Hp & Hn & Hf & Hy).
    split_and!; [by rewrite Permutation_swap, Hp|by cbn; rewrite Hn|constructor; [lia|done]|lia].
  - specialize (IH x). destruct (exchange_pass x l) as [top rest]. destruct IH as (Hp & Hn & Hf & Hy).
    split_and!; [|by cbn; rewrite Hn|constructor; [lia|done]|lia].
    rewrite Permutation_swap, Hp. apply Permutation_swap.
Qed.

Lemma exchange_sort_spec n l : (length l <= n)%nat ->
  exchange_sort n l ≡ₚ l /\ StronglySorted Z.ge (exchange_sort n l).
Proof.
  revert l; induction n as [|n IH]; intros [|x l] Hl; cbn [exchange_sort length] in *; [|lia| |].
  1,2: split; [done|apply SSorted_nil].
  pose proof (exchange_pass_spec x l) as H. destruct (exchange_pass x l) as [top rest].
  destruct H as (Hp & Hn & Hf & _). destruct (IH rest) as [Hp' Hs]; [lia|].
  split; [by rewrite Hp'|]. constructor; [done|]. rewrite Hp'.
  eapply Forall_impl; [exact Hf|]. intros; cbn in *; lia.
Qed.

Lemma filter_length_perm (P : Z -> bool) l k :
  l ≡ₚ k -> length (List.filter P l) = length (List.filter P k).
Proof.
  induction 1 as [|x l k _ IH|x y l|l1 l2 l3 _ IH1 _ IH2]; cbn; [done| | |congruence].
  - destruct (P x); cbn; by rewrite IH.
  - by destruct (P x), (P y).
Qed.

(** In a descending list the [k]-th element is at least [c] exactly when more
    than [k] elements are. *)
Lemma descending_nth l k c : StronglySorted Z.ge l -> (k < length l)%nat ->
  c <= l !!! k <-> (k < length (List.filter (at_least c) l))%nat.
Proof.
  revert k; induction l as [|x l IH]; intros k Hs Hk; cbn in Hk; [lia|].
  apply StronglySorted_inv in Hs as [Hs Hf]. cbn [List.filter]. unfold at_least at 1.
  destruct (Z.leb_spec c x) as [Hc|Hc].
  - destruct k as [|k]; cbn; [lia|]. rewrite IH by (done || lia). lia.
  - assert (List.filter (at_least c) l = []) as ->.
    { clear -Hf Hc. induction Hf as [|y l Hy _ IH]; cbn; [done|]. unfold at_least at 1.
      destruct (Z.leb_spec c y); [lia|done]. }
    split; [intros Hcx|intros Hk0; cbn in Hk0; lia]. destruct k as [|k]; [cbn in Hcx; lia|].
    change (c <= l !!! k) in Hcx. cbn in Hk. rewrite Forall_forall in Hf. specialize (Hf (l !!! k)).
    assert (x >= l !!! k); [|lia]. apply Hf. apply list_elem_of_lookup_total_2. lia.
Qed.

Lemma filter_map {A} (f : A -> Z) (P : Z -> bool) l :
  length (List.filter P (map f l)) = length (List.filter (fun x => P (f x)) l).
Proof. induction l as [|x l IH]; cbn; [done|]. destruct (P (f x)); cbn; by rewrite IH. Qed.

(** [majority_match_ids_] is the quorum order statistic: it is at least [c]
    exactly when more than half of the voters have matched up to [c]. *)
Lemma majority_match_spec r ids c :
  ids <> [] -> (length ids <= MAX_PEERS_)%nat ->
  c <= majority_match_ids_ r ids <-> majority ids (fun id => c <=? match_of_ r id).
Proof.
  intros Hne Hlen. unfold majority_match_ids_, majority. cbv zeta.
  assert (0 < length ids)%nat by (destruct ids; cbn; [done|lia]).
  destruct (Z.eqb_spec (blen ids) 0) as [E|_]; [unfold blen in E; lia|].
  rewrite take_ge by done. rewrite length_map.
  destruct (exchange_sort_spec (length ids) (map (match_of_ r) ids)) as [Hp Hs]; [by rewrite length_map|].
  assert (Hl : length (exchange_sort (length ids) (map (match_of_ r) ids)) = length ids)
    by (by rewrite Hp, length_map).
  pose proof (Z.div_mod (Z.of_nat (length ids)) 2). pose proof (Z.mod_pos_bound (Z.of_nat (length ids)) 2).
  rewrite descending_nth; [|done|unfold quorum_; rewrite Hl; lia].
  rewrite (filter_length_perm _ _ _ Hp), filter_map. unfold at_least, blen, quorum_. lia.
Qed.

Lemma incoming_length r : (length (incoming_ r) <= MAX_PEERS_)%nat.
Proof. unfold incoming_. rewrite length_take. lia. Qed.

(** ** Elections *)

Lemma vote_quorum_majority r :
  vote_quorum_ok_ r = true <-> joint_majority r (vote_from_ r).
Proof.
  unfold vote_quorum_ok_, joint_majority, majority, count_votes. cbv zeta.
  assert (Hb : forall A (l : list A), blen l = 0 <-> l = []).
  { intros A [|]; unfold blen; cbn; split; intros; [done|done|lia|done]. }
  pose proof (blen_nonneg (incoming_ r)). pose proof (blen_nonneg (r_outgoing r)).
  destruct (Z.eqb_spec (blen (incoming_ r)) 0) as [E|E]; cbn [orb].
  { apply Hb in E. rewrite E. unfold blen. cbn. split; [done|lia]. }
  pose proof (quorum_majority (blen (incoming_ r)) (blen (List.filter (vote_from_ r) (incoming_ r)))).
  pose proof (quorum_majority (blen (r_outgoing r)) (blen (List.filter (vote_from_ r) (r_outgoing r)))).
  destruct (Z.ltb_spec (blen (List.filter (vote_from_ r) (incoming_ r))) (quorum_ (blen (incoming_ r)))).
  { split; [done|lia]. }
  destruct (Z.eqb_spec (blen (r_outgoing r)) 0) as [Eo|Eo].
  - apply Hb in Eo. split; [|done]. intros _. split; [lia|by left].
  - rewrite Z.leb_le. rewrite <- Hb. split; [split; [|right]; lia|]. intros [_ [|]]; lia.
Qed.

(** The vote tally does not see queues and progress. *)
Lemma joint_majority_core r r' P : core r = core r' -> joint_majority r P <-> joint_majority r' P.
Proof.
  intros E. unfold joint_majority.
  assert (incoming_ r = incoming_ r') as -> by core_proj incoming_ E.
  assert (r_outgoing r = r_outgoing r') as -> by core_proj r_outgoing E. done.
Qed.

(** A node that holds the leadership on the votes it has recorded. *)
Definition elected (r : cetcd_raft) : Prop :=
  r_role r = ROLE_LEADER -> joint_majority r (vote_from_ r).

Lemma elected_core r r' : core r = core r' -> elected r -> elected r'.
Proof.
  unfold elected. intros E H Hl. rewrite <- (joint_majority_core _ _ _ E).
  assert (vote_from_ r = vote_from_ r') as <- by core_proj vote_from_ E. apply H.
  rewrite <- Hl. core_proj r_role E.
Qed.

Lemma elected_become_leader r : vote_quorum_ok_ r = true -> elected (become_leader_ r).
Proof.
  intros H. eapply elected_core; [symmetry; apply core_become_leader|].
  intros _. by apply vote_quorum_majority in H.
Qed.

Lemma elected_candidate r : elected (become_candidate_ r).
Proof.
  destruct (become_candidate_core r) as [E|[Hq E]]; (eapply elected_core; [symmetry; exact E|]).
  - done.
  - by apply elected_become_leader.
Qed.

Lemma elected_pre_candidate r : elected (become_pre_candidate_ r).
Proof.
  unfold become_pre_candidate_. cbv zeta. case_match; [apply elected_candidate|].
  eapply elected_core; [symmetry; apply core_send_vote_requests|done].
Qed.

(** The part of the state an election depends on. *)
Definition econf (r : cetcd_raft) :=
  (r_role r, r_peers r, r_peer_learner r, r_outgoing r, r_votes_granted r).

Lemma elected_econf r r' : econf r = econf r' -> elected r -> elected r'.
Proof.
  unfold econf. intros [= H1 H2 H3 H4 H5]. unfold elected, joint_majority.
  assert (incoming_ r = incoming_ r') as ->.
  { unfold incoming_, n_peers, peer_at, peer_is_learner_, n_peers. by rewrite H2, H3. }
  assert (vote_from_ r = vote_from_ r') as -> by (unfold vote_from_; by rewrite H5).
  by rewrite H1, H4.
Qed.

Lemma econf_core r r' : core r = core r' -> econf r = econf r'.
Proof. intros E. core_proj econf E. Qed.

Lemma econf_log_append r e : econf (log_append_ r e) = econf r.
Proof. unfold log_append_. cbv zeta. by repeat case_match. Qed.
Lemma econf_truncate r i : econf (log_truncate_after_ r i) = econf r.
Proof. unfold log_truncate_after_. cbv zeta. by repeat case_match. Qed.
Lemma econf_advance r : econf (maybe_advance_commit_ r) = econf r.
Proof. by destruct (advance_commit_cases r) as [->|(c & _ & _ & ->)]. Qed.
Lemma econf_follow_commit r c : econf (follow_commit_ r c) = econf r.
Proof. unfold follow_commit_. cbv zeta. by repeat case_match. Qed.
Lemma econf_queue_msg r m : econf (queue_msg_ r m) = econf r.
Proof. done. Qed.
Lemma econf_queue_hs r : econf (queue_hard_state_ r) = econf r.
Proof. done. Qed.
Lemma econf_queue_entry r e : econf (queue_entry_ r e) = econf r.
Proof. done. Qed.
Lemma econf_progress r i p : econf (set_progress r i p) = econf r.
Proof. done. Qed.
Lemma econf_send_app r i : econf (maybe_send_app_ r i) = econf r.
Proof. apply econf_core. by autorewrite with core. Qed.
Lemma econf_send_snap r i : econf (maybe_send_snap_ r i) = econf r.
Proof. apply econf_core. by autorewrite with core. Qed.

Create Rewrite HintDb econf.
#[export] Hint Rewrite econf_log_append econf_truncate econf_advance econf_follow_commit econf_queue_msg
  econf_queue_hs econf_queue_entry econf_progress econf_send_app econf_send_snap : econf.

Lemma econf_app_entry r i e : econf (app_entry_ r i e) = econf r.
Proof. unfold app_entry_. cbv zeta. repeat case_match; by autorewrite with econf. Qed.

Lemma econf_app_entries l r i : econf (app_entries_ r i l) = econf r.
Proof.
  revert r i; induction l as [|e l IH]; intros r i; cbn [app_entries_]; [done|].
  by rewrite IH, econf_app_entry.
Qed.

Lemma econf_compact r i t : econf (cetcd_raft_compact r i t).1 = econf r.
Proof.
  destruct (compact_cases r i t) as [->|(r' & E & H)]; [reflexivity|].
  assert (Ha : econf r' = econf r) by (subst r'; apply econf_log_append). clear E.
  by destruct H as [->|(l & ->)].
Qed.

Lemma econf_leader_append r typ d : econf (leader_append_ r typ d) = econf r.
Proof.
  destruct (core_leader_append r typ d) as (r1 & E & ->). rewrite econf_advance.
  rewrite (econf_core _ _ E). by rewrite econf_log_append.
Qed.
#[export] Hint Rewrite econf_app_entries econf_compact econf_leader_append : econf.

Lemma elected_nonleader r : r_role r <> ROLE_LEADER -> elected r.
Proof. unfold elected. done. Qed.

Lemma follower_role r t l : r_role (become_follower_ r t l) = ROLE_FOLLOWER.
Proof. unfold become_follower_. by case_match. Qed.

Lemma elected_step_down r t l : elected (step_down r t l).
Proof.
  apply elected_nonleader. unfold step_down. destruct (is_follower (r_role r)) eqn:E.
  - by destruct (r_role r).
  - by rewrite follower_role.
Qed.
Lemma elected_follower r t l : elected (become_follower_ r t l).
Proof. apply elected_nonleader. by rewrite follower_role. Qed.

(** Reduces [elected] of a state built by queueing, progress and log updates
    to [elected] of the state underneath. *)
Ltac elected_strip :=
  eapply elected_econf; [symmetry; autorewrite with econf; reflexivity|].

Lemma elected_adopt r t l : elected r -> elected (adopt_term r t l).
Proof.
  intros H. unfold adopt_term. case_match; [|done]. elected_strip. apply elected_follower.
Qed.

Lemma record_vote_role r i : r_role (record_vote_ r i) = r_role r.
Proof. unfold record_vote_. by case_match. Qed.

Lemma elected_vote_resp r m : elected r -> elected (handle_vote_resp_ r m).1.
Proof.
  intros H. unfold handle_vote_resp_. cbv zeta. case_match.
  { elected_strip. apply elected_follower. }
  destruct (r_role r) eqn:Hr; try done. repeat (case_match; try done); cbn [fst].
  - eapply elected_core; [|apply elected_become_leader; eassumption]. by autorewrite with core.
  - apply elected_nonleader. by rewrite record_vote_role, Hr.
Qed.

Lemma elected_pre_vote_resp r m : elected r -> elected (handle_pre_vote_resp_ r m).1.
Proof.
  intros H. unfold handle_pre_vote_resp_. cbv zeta. case_match.
  { case_match; [|done]. elected_strip. apply elected_follower. }
  destruct (r_role r) eqn:Hr; try done. repeat (case_match; try done); cbn [fst].
  - eapply elected_core; [|apply (elected_candidate (record_vote_ r (m_from m)))]. by autorewrite with core.
  - apply elected_nonleader. by rewrite record_vote_role, Hr.
Qed.

Lemma elected_snap r m : elected r -> elected (handle_snap_ r m).1.
Proof.
  intros H. unfold handle_snap_. cbv zeta. fold (adopt_term r (m_term m) (m_from m)).
  pose proof (elected_adopt r (m_term m) (m_from m) H) as H0. revert H0.
  generalize (adopt_term r (m_term m) (m_from m)). intros r0 H0.
  fold (step_down r0 (r_term r0) (m_from m)).
  destruct (m_term m <? r_term r); [done|].
  destruct (m_snapshot m =? 0); cbn [fst]; [by elected_strip|].
  set (r1 := _ <| r_leader_id := m_from m |> <| r_elapsed_ticks := 0 |>).
  assert (H1 : elected r1) by exact (elected_step_down r0 (r_term r0) (m_from m)). clearbody r1.
  destruct (if r_log_compacted r1 <? m_snapshot m then _ else _) as [r2 rc] eqn:E.
  assert (H2 : elected r2).
  { case_match; [|injection E as <- <-; done].
    replace r2 with (cetcd_raft_compact r1 (m_snapshot m) (m_log_term m)).1 by (by rewrite E).
    by elected_strip. }
  destruct (negb (rc =? 0)); cbn [fst]; [by elected_strip|].
  repeat case_match; exact H2.
Qed.

Lemma elected_app r m : elected r -> elected (handle_app_ r m).1.
Proof.
  intros H. unfold handle_app_. cbv zeta. fold (adopt_term r (m_term m) (m_from m)).
  fold (step_down (adopt_term r (m_term m) (m_from m)) (m_term m) (m_from m)).
  destruct (m_term m <? r_term r); cbn [fst]; [by elected_strip|].
  set (r1 := _ <| r_leader_id := m_from m |> <| r_elapsed_ticks := 0 |>).
  assert (H1 : elected r1) by apply (elected_step_down _ (m_term m) (m_from m)). clearbody r1.
  repeat case_match; cbn [fst]; by elected_strip.
Qed.

Lemma elected_heartbeat r m : elected r -> elected (handle_heartbeat_ r m).1.
Proof.
  intros H. unfold handle_heartbeat_. cbv zeta. fold (adopt_term r (m_term m) (m_from m)).
  fold (step_down (adopt_term r (m_term m) (m_from m)) (m_term m) (m_from m)).
  destruct (m_term m <? r_term r); cbn [fst]; [done|].
  set (r1 := _ <| r_leader_id := m_from m |> <| r_elapsed_ticks := 0 |>).
  assert (H1 : elected r1) by apply (elected_step_down _ (m_term m) (m_from m)). clearbody r1.
  by elected_strip.
Qed.

Lemma elected_step r m : elected r -> elected (cetcd_raft_step r m).1.
Proof.
  intros H. unfold cetcd_raft_step.
  destruct (m_type m); try exact H;
    auto using elected_vote_resp, elected_pre_vote_resp, elected_app, elected_heartbeat, elected_snap.
  - case_match; [exact H|]. cbn [fst]. elected_strip. case_match; [apply elected_pre_candidate|apply elected_candidate].
  - case_match; [exact H|]. cbn [fst]. eapply elected_core; [|exact H]. symmetry. apply core_foldl, core_beat_peer.
  - case_match; [exact H|]. cbn [fst]. by elected_strip.
  - unfold handle_app_resp_. cbv zeta. case_match; [exact H|]. case_match; [elected_strip; apply elected_follower|].
    case_match; [|exact H]. repeat case_match; cbn [fst]; by elected_strip.
  - unfold handle_vote_. cbv zeta. fold (adopt_term r (m_term m) 0).
    assert (Ha := elected_adopt r (m_term m) 0 H). revert Ha. generalize (adopt_term r (m_term m) 0). intros r1 Ha.
    case_match; cbn [fst]; [by elected_strip|]. case_match; exact Ha.
  - unfold handle_snap_status_. cbv zeta. case_match; [exact H|]. case_match; [|exact H].
    repeat case_match; cbn [fst]; by elected_strip.
  - case_match; exact H.
  - case_match; [exact H|]. cbn [fst]. elected_strip. apply elected_candidate.
Qed.

(** C2: a leader is elected.  If a node that is not leader is leader after
    handling a message, the votes it has recorded are a majority of the
    incoming voters, and of the outgoing voters when the configuration is
    joint. *)
Theorem step_leader_has_quorum r m :
  r_role r <> ROLE_LEADER -> r_role (cetcd_raft_step r m).1 = ROLE_LEADER ->
  joint_majority (cetcd_raft_step r m).1 (vote_from_ (cetcd_raft_step r m).1).
Proof. intros Hr Hl. by apply elected_step; [apply elected_nonleader|]. Qed.

(** A three-voter candidate of term 1 with its own vote. *)
Definition candidate3 : cetcd_raft :=
  empty_raft <| r_id := 1 |> <| r_term := 1 |> <| r_vote := 1 |> <| r_role := ROLE_CANDIDATE |>
    <| r_peers := [1; 2; 3] |> <| r_peer_learner := [false; false; false] |> <| r_peers_cap := 8 |>
    <| r_votes_granted := [1] |> <| r_log_cap := 64 |>.

Definition vote_resp (from term reject : Z) : cetcd_msg :=
  zero_msg <| m_type := CETCD_MSG_VOTE_RESP |> <| m_from := from |> <| m_to := 1 |>
    <| m_term := term |> <| m_reject := reject |>.

Lemma step_leader_has_quorum_witness :
  r_role (cetcd_raft_step candidate3 (vote_resp 3 1 0)).1 = ROLE_LEADER /\
  joint_majority (cetcd_raft_step candidate3 (vote_resp 3 1 0)).1
    (vote_from_ (cetcd_raft_step candidate3 (vote_resp 3 1 0)).1).
Proof.
  split; [vm_compute; reflexivity|].
  apply step_leader_has_quorum; [vm_compute; discriminate|vm_compute; reflexivity].
Defined.

(** Two elections in one configuration share a voter.  If two nodes
    each hold the quorum [vote_quorum_ok_] asks for, over the same incoming
    voters, then some voter has been counted by both; while the configuration
    is joint they also share a voter of the outgoing one. *)
Theorem elections_overlap r1 r2 :
  incoming_ r1 = incoming_ r2 -> r_outgoing r1 = r_outgoing r2 ->
  vote_quorum_ok_ r1 = true -> vote_quorum_ok_ r2 = true ->
  (exists v, v ∈ incoming_ r1 /\ vote_from_ r1 v = true /\ vote_from_ r2 v = true) /\
  (r_outgoing r1 <> [] ->
   exists v, v ∈ r_outgoing r1 /\ vote_from_ r1 v = true /\ vote_from_ r2 v = true).
Proof.
  intros Hi Ho [M1 J1]%vote_quorum_majority [M2 J2]%vote_quorum_majority.
  rewrite <- Hi in M2. rewrite <- Ho in J2. split; [by apply majority_overlap|].
  intros Hne. destruct J1, J2; try done. by apply majority_overlap.
Qed.

Lemma elections_overlap_witness :
  let r1 := candidate3 <| r_votes_granted := [1; 3] |> in
  let r2 := candidate3 <| r_id := 2 |> <| r_votes_granted := [2; 3] |> in
  exists v, v ∈ incoming_ r1 /\ vote_from_ r1 v = true /\ vote_from_ r2 v = true.
Proof.
  intros r1 r2. apply (elections_overlap r1 r2); vm_compute; reflexivity.
Defined.

(** ** The commit rule *)

Lemma commit_target_spec r c : incoming_ r <> [] -> (length (r_outgoing r) <= MAX_PEERS_)%nat ->
  c <= commit_target r <-> joint_majority r (fun id => c <=? match_of_ r id).
Proof.
  intros Hi Ho. unfold commit_target, joint_majority. cbv zeta.
  pose proof (majority_match_spec r (incoming_ r) c Hi (incoming_length r)) as Hm.
  destruct (decide (r_outgoing r = [])) as [E|E].
  - rewrite E. change (0 <? blen []) with false. cbn [blen]. naive_solver.
  - pose proof (majority_match_spec r (r_outgoing r) c E Ho) as Hm'.
    assert (0 < blen (r_outgoing r)) by (destruct (r_outgoing r); [done|unfold blen; cbn; lia]).
    destruct (Z.ltb_spec 0 (blen (r_outgoing r))); [|lia].
    destruct (Z.ltb_spec (majority_match_ids_ r (r_outgoing r)) (majority_match_ids_ r (incoming_ r)));
      rewrite <- Hm, <- Hm'; split; [intros; split; [lia|right; lia]|intros [? [?|?]]; [done|lia]
        |intros; split; [lia|right; lia]|intros [? [?|?]]; [done|lia]].
Qed.

(** The commit rule.  A leader computes the largest index [t] that a
    majority of the incoming voters has matched, and a majority of the outgoing
    voters too while the configuration is joint; the commit index moves to [t]
    exactly when that is an advance and the entry at [t] is of the current
    term. *)
Theorem commit_rule r :
  r_role r = ROLE_LEADER -> incoming_ r <> [] -> (length (r_outgoing r) <= MAX_PEERS_)%nat ->
  exists t, (forall c, c <= t <-> joint_majority r (fun id => c <=? match_of_ r id)) /\
    r_commit (maybe_advance_commit_ r) =
      if (r_commit r <? t) && (log_term_at_ r t =? r_term r) then t else r_commit r.
Proof.
  intros Hl Hi Ho. exists (commit_target r). split; [by intros c; apply commit_target_spec|].
  unfold maybe_advance_commit_. cbv zeta. fold (commit_target r). rewrite Hl. cbn [is_leader negb].
  destruct (Z.eqb_spec (blen (incoming_ r)) 0) as [E|_].
  { destruct (incoming_ r); [done|]. unfold blen in E. cbn in E. lia. }
  by case_match.
Qed.

(** A leader of term 2 whose followers have matched 4 and 2; index 4 is of the
    current term. *)
Definition leader3 : cetcd_raft :=
  candidate3 <| r_role := ROLE_LEADER |> <| r_term := 2 |> <| r_commit := 2 |>
    <| r_progress := [mk_progress 6 0 false false; mk_progress 5 4 false false;
                      mk_progress 3 2 false false] |>
    <| r_log := {[ 1 := mk_entry 1 1 0 []; 2 := mk_entry 1 2 0 []; 3 := mk_entry 1 3 0 [];
                   4 := mk_entry 2 4 0 []; 5 := mk_entry 2 5 0 [] ]} |>
    <| r_log_last_index := 5 |> <| r_log_last_term := 2 |>.

Lemma commit_rule_witness :
  r_commit (maybe_advance_commit_ leader3) = 4 /\
  exists t, (forall c, c <= t <-> joint_majority leader3 (fun id => c <=? match_of_ leader3 id)) /\
    r_commit (maybe_advance_commit_ leader3) =
      if (r_commit leader3 <? t) && (log_term_at_ leader3 t =? r_term leader3) then t else r_commit leader3.
Proof.
  split; [vm_compute; reflexivity|].
  apply commit_rule; [vm_compute; reflexivity|vm_compute; discriminate|vm_compute; lia].
Defined.

(** The commit index is backed: its entry is of the current term and a (joint)
    majority has matched it. *)
Definition commit_backed (r : cetcd_raft) : Prop :=
  log_term_at_ r (r_commit r) = r_term r /\
  joint_majority r (fun id => r_commit r <=? match_of_ r id).

(** What [commit_backed] depends on: the core and the match indexes. *)
Definition bkey (r : cetcd_raft) := (core r, match_idx <$> r_progress r).

Lemma match_of_bkey r r' id : bkey r = bkey r' -> match_of_ r id = match_of_ r' id.
Proof.
  intros [E Hp]%pair_eq. unfold match_of_.
  assert (r_id r = r_id r') as <- by core_proj r_id E.
  assert (r_log_last_index r = r_log_last_index r') as <- by core_proj r_log_last_index E.
  assert (peer_slot_ r = peer_slot_ r') as <- by core_proj peer_slot_ E.
  case_match; [done|]. case_match; [|done]. unfold progress_at.
  assert (Hn := f_equal (lookup n) Hp). rewrite !list_lookup_fmap in Hn.
  destruct (r_progress r !! n), (r_progress r' !! n); cbn in *; congruence.
Qed.

Lemma commit_backed_bkey r r' : bkey r = bkey r' -> commit_backed r -> commit_backed r'.
Proof.
  intros Hb [Ht Hm]. pose proof (proj1 (pair_eq _ _ _ _) Hb) as [E Hp]. unfold commit_backed.
  assert (log_term_at_ r = log_term_at_ r') as <- by core_proj log_term_at_ E.
  assert (r_commit r = r_commit r') as <- by core_proj r_commit E.
  assert (r_term r = r_term r') as <- by core_proj r_term E.
  split; [done|]. rewrite <- (joint_majority_core _ _ _ E).
  destruct Hm as [Hi Ho]. assert (Hf : forall l, List.filter (fun id => r_commit r <=? match_of_ r' id) l =
    List.filter (fun id => r_commit r <=? match_of_ r id) l).
  { intros l. apply List.filter_ext. intros id. by rewrite (match_of_bkey _ _ _ Hb). }
  unfold joint_majority, majority. by rewrite !Hf.
Qed.

Lemma bkey_set_progress r i p :
  match_idx p = match_idx (progress_at r i) -> bkey (set_progress r i p) = bkey r.
Proof.
  intros Hm. unfold bkey. rewrite core_set_progress. f_equal. cbn.
  rewrite list_fmap_insert, Hm. unfold progress_at.
  destruct (r_progress r !! i) as [q|] eqn:E.
  - apply list_insert_id. by rewrite list_lookup_fmap, E.
  - apply list_insert_ge. rewrite length_fmap. by apply lookup_ge_None.
Qed.

Lemma bkey_send_snap r i : bkey (maybe_send_snap_ r i) = bkey r.
Proof. unfold maybe_send_snap_. cbv zeta. repeat (case_match; [done|]). by rewrite bkey_set_progress. Qed.

Lemma bkey_send_app r i : bkey (maybe_send_app_ r i) = bkey r.
Proof.
  unfold maybe_send_app_. cbv zeta. repeat (case_match; try done); rewrite ?bkey_send_snap; try done.
  all: by rewrite bkey_set_progress.
Qed.

(** After the move of a leader's commit index it is backed. *)
Lemma advance_commit_backed r : (length (r_outgoing r) <= MAX_PEERS_)%nat ->
  r_commit (maybe_advance_commit_ r) = r_commit r \/ commit_backed (maybe_advance_commit_ r).
Proof.
  intros Ho. destruct (advance_commit_cases r) as [->|(c & Hc & (-> & Hl & Hi & Ht) & ->)]; [by left|right].
  split; [exact Ht|]. by apply commit_target_spec.
Qed.

Definition backed_from (c : Z) (r : cetcd_raft) : Prop :=
  r_role r = ROLE_LEADER -> r_commit r = c \/ commit_backed r.

Lemma backed_from_bkey c r r' : bkey r = bkey r' -> backed_from c r -> backed_from c r'.
Proof.
  intros Hb H Hl. pose proof (proj1 (pair_eq _ _ _ _) Hb) as [E _].
  assert (r_role r = r_role r') as Hr by core_proj r_role E.
  assert (r_commit r = r_commit r') as Hc by core_proj r_commit E.
  destruct H as [H|H]; [congruence|left; congruence|right; by eapply commit_backed_bkey].
Qed.

Lemma backed_from_nonleader c r : r_role r <> ROLE_LEADER -> backed_from c r.
Proof. by unfold backed_from. Qed.

Lemma backed_from_same c r : r_commit r = c -> backed_from c r.
Proof. intros H _. by left. Qed.

(** A function that keeps the commit index. *)
Lemma backed_from_hs c r r' : r_commit r = c -> core r' = core r -> backed_from c r'.
Proof. intros Hc E. apply backed_from_same. rewrite <- Hc. core_proj r_commit E. Qed.

Lemma backed_leader_append r typ d : (length (r_outgoing r) <= MAX_PEERS_)%nat ->
  backed_from (r_commit r) (leader_append_ r typ d).
Proof.
  intros Ho _. destruct (core_leader_append r typ d) as (r1 & E & ->).
  assert (Hc : r_commit r1 = r_commit r /\ r_outgoing r1 = r_outgoing r).
  { split; [etransitivity; [core_proj r_commit E|]|etransitivity; [core_proj r_outgoing E|]];
      unfold log_append_; cbv zeta; by repeat case_match. }
  destruct Hc as [<- Hr]. apply advance_commit_backed. by rewrite Hr.
Qed.

Lemma backed_send_advance c r i : (length (r_outgoing r) <= MAX_PEERS_)%nat -> r_commit r = c ->
  backed_from c (maybe_send_app_ (maybe_advance_commit_ r) i).
Proof.
  intros Ho <-. eapply backed_from_bkey; [symmetry; apply bkey_send_app|].
  intros _. by apply advance_commit_backed.
Qed.

Lemma follower_commit r t l : r_commit (become_follower_ r t l) = r_commit r.
Proof. unfold become_follower_. by case_match. Qed.

Lemma adopt_commit r t l : r_commit (adopt_term r t l) = r_commit r.
Proof. unfold adopt_term. case_match; [apply follower_commit|done]. Qed.

Lemma become_leader_commit r : r_commit (become_leader_ r) = r_commit r.
Proof. core_proj r_commit (core_become_leader r). Qed.

Lemma candidate_commit r : r_commit (become_candidate_ r) = r_commit r.
Proof.
  destruct (become_candidate_core r) as [E|[_ E]]; (etransitivity; [core_proj r_commit E|]); [done|].
  by rewrite become_leader_commit.
Qed.

Lemma pre_candidate_commit r : r_commit (become_pre_candidate_ r) = r_commit r.
Proof.
  unfold become_pre_candidate_. cbv zeta. case_match; [by rewrite candidate_commit|].
  match goal with |- context [send_vote_requests_ ?r ?a ?b] =>
    core_proj r_commit (core_send_vote_requests r a b) end.
Qed.

Lemma record_vote_commit r i : r_commit (record_vote_ r i) = r_commit r.
Proof. unfold record_vote_. by case_match. Qed.

Lemma broadcast_commit r : r_commit (leader_broadcast_heartbeat_ r) = r_commit r.
Proof. core_proj r_commit (core_broadcast_heartbeat r). Qed.

Lemma queue_hs_commit r : r_commit (queue_hard_state_ r) = r_commit r.
Proof. done. Qed.

#[export] Hint Rewrite follower_commit adopt_commit become_leader_commit candidate_commit pre_candidate_commit
  record_vote_commit broadcast_commit queue_hs_commit : econf.

Ltac backed_same := apply backed_from_same; cbn [fst]; by autorewrite with econf.

(** Handlers that end as a follower have nothing to show. *)
Lemma backed_from_econf c r r' : econf r' = econf r -> r_role r <> ROLE_LEADER -> backed_from c r'.
Proof. unfold econf. intros [= Hr _ _ _ _] H. apply backed_from_nonleader. congruence. Qed.

Lemma step_down_role r t l : r_role (step_down r t l) = ROLE_FOLLOWER.
Proof. unfold step_down. case_match eqn:E; [by destruct (r_role r)|apply follower_role]. Qed.

Ltac backed_follower H := eapply backed_from_econf; [autorewrite with econf; reflexivity|rewrite H; discriminate].

Lemma backed_app_resp r m : (length (r_outgoing r) <= MAX_PEERS_)%nat ->
  backed_from (r_commit r) (handle_app_resp_ r m).1.
Proof.
  intros Ho. unfold handle_app_resp_. cbv zeta. case_match; [backed_same|].
  case_match; [backed_same|]. case_match; [|backed_same].
  case_match; cbn [fst]; [by apply backed_send_advance|].
  eapply backed_from_hs; [reflexivity|]. autorewrite with core. repeat case_match; reflexivity.
Qed.

Lemma backed_snap_status r m : (length (r_outgoing r) <= MAX_PEERS_)%nat ->
  backed_from (r_commit r) (handle_snap_status_ r m).1.
Proof.
  intros Ho. unfold handle_snap_status_. cbv zeta. case_match; [backed_same|].
  case_match; [|backed_same].
  case_match; cbn [fst]; [by apply backed_send_advance|backed_same].
Qed.

Lemma backed_app r m : backed_from (r_commit r) (handle_app_ r m).1.
Proof.
  unfold handle_app_. cbv zeta. fold (adopt_term r (m_term m) (m_from m)).
  fold (step_down (adopt_term r (m_term m) (m_from m)) (m_term m) (m_from m)).
  case_match; [backed_same|].
  set (r1 := _ <| r_leader_id := m_from m |> <| r_elapsed_ticks := 0 |>).
  assert (Hro : r_role r1 = ROLE_FOLLOWER) by apply step_down_role. clearbody r1.
  repeat case_match; cbn [fst]; backed_follower Hro.
Qed.

Lemma backed_heartbeat r m : backed_from (r_commit r) (handle_heartbeat_ r m).1.
Proof.
  unfold handle_heartbeat_. cbv zeta. fold (adopt_term r (m_term m) (m_from m)).
  fold (step_down (adopt_term r (m_term m) (m_from m)) (m_term m) (m_from m)).
  case_match; [backed_same|].
  set (r1 := _ <| r_leader_id := m_from m |> <| r_elapsed_ticks := 0 |>).
  assert (Hro : r_role r1 = ROLE_FOLLOWER) by apply step_down_role. clearbody r1.
  cbn [fst]. backed_follower Hro.
Qed.

Lemma backed_snap r m : backed_from (r_commit r) (handle_snap_ r m).1.
Proof.
  unfold handle_snap_. cbv zeta. fold (adopt_term r (m_term m) (m_from m)).
  assert (Hco := adopt_commit r (m_term m) (m_from m)). revert Hco.
  generalize (adopt_term r (m_term m) (m_from m)). intros r0 Hco.
  fold (step_down r0 (r_term r0) (m_from m)).
  case_match; [backed_same|]. case_match; [by apply backed_from_same|].
  set (r1 := _ <| r_leader_id := m_from m |> <| r_elapsed_ticks := 0 |>).
  assert (Hro : r_role r1 = ROLE_FOLLOWER) by apply step_down_role. clearbody r1.
  destruct (if r_log_compacted r1 <? m_snapshot m then _ else _) as [r2 rc] eqn:E.
  assert (Hec : econf r2 = econf r1).
  { case_match; [|injection E as <- <-; done].
    replace r2 with (cetcd_raft_compact r1 (m_snapshot m) (m_log_term m)).1 by (by rewrite E).
    apply econf_compact. }
  eapply (backed_from_econf _ r1); [|by rewrite Hro]. rewrite <- Hec. by repeat case_match.
Qed.

Lemma backed_step r m : (length (r_outgoing r) <= MAX_PEERS_)%nat ->
  backed_from (r_commit r) (cetcd_raft_step r m).1.
Proof.
  intros Ho. unfold cetcd_raft_step.
  destruct (m_type m); try backed_same;
    auto using backed_app_resp, backed_snap_status, backed_app, backed_heartbeat, backed_snap.
  - case_match; [|case_match]; backed_same.
  - case_match; [backed_same|]. eapply backed_from_hs; [reflexivity|]. apply core_foldl, core_beat_peer.
  - case_match; [backed_same|]. by apply backed_leader_append.
  - unfold handle_vote_. cbv zeta. fold (adopt_term r (m_term m) 0). case_match; [backed_same|].
    apply backed_from_same. rewrite <- (adopt_commit r (m_term m) 0). by case_match.
  - unfold handle_vote_resp_. cbv zeta. repeat case_match; backed_same.
  - case_match; by apply backed_from_same.
  - case_match; backed_same.
  - unfold handle_pre_vote_resp_. cbv zeta. repeat case_match; backed_same.
Qed.

(** C1: a leader commits only what a majority holds.  Whatever message a node
    handles, if it is leader afterwards and its commit index moved, then the
    entry at the new commit index carries the leader's current term and a
    majority of the incoming voters (and of the outgoing voters of a joint
    configuration) has matched up to it. *)
Theorem step_commit_backed r m :
  (length (r_outgoing r) <= MAX_PEERS_)%nat ->
  r_role (cetcd_raft_step r m).1 = ROLE_LEADER ->
  r_commit (cetcd_raft_step r m).1 <> r_commit r ->
  commit_backed (cetcd_raft_step r m).1.
Proof. intros Ho Hl Hc. by destruct (backed_step r m Ho Hl). Qed.

Definition app_resp (from term index reject : Z) : cetcd_msg :=
  zero_msg <| m_type := CETCD_MSG_APP_RESP |> <| m_from := from |> <| m_to := 1 |>
    <| m_term := term |> <| m_index := index |> <| m_reject := reject |>.

Lemma step_commit_backed_witness :
  r_commit leader3 = 2 /\ r_commit (cetcd_raft_step leader3 (app_resp 3 2 5 0)).1 = 5 /\
  commit_backed (cetcd_raft_step leader3 (app_resp 3 2 5 0)).1.
Proof.
  split; [reflexivity|]. split; [vm_compute; reflexivity|].
  apply step_commit_backed; [vm_compute; lia|vm_compute; reflexivity|vm_compute; discriminate].
Defined.
