(* ===== verification/RaftLog.v ===== *)
(** * The log of the raft node: storage invariant and replication

    [log_ok] is the invariant of the entry array: every index up to
    [log_last_index] lies inside the allocation, the entries from the
    compaction point on are present and carry their own index, and
    [log_last_term] is the term of the last one.  The theorems show that the
    handlers keep it, what an accepted App does to the log, and that a leader
    only appends. *)

From S2P Require Import Prelude Raft RaftState RaftQuorum.

(** ** The storage invariant *)

Record log_ok (r : cetcd_raft) : Prop := mk_log_ok {
  lo_cap : 64 <= r_log_cap r < 4294967296;
  lo_last : 0 <= r_log_last_index r < r_log_cap r;
  lo_compacted : 0 <= r_log_compacted r <= r_log_last_index r;
  lo_slot : forall i e, r_log r !! i = Some e -> e_index e = i /\ 0 < i <= r_log_last_index r;
  lo_full : forall i, 0 < i -> r_log_compacted r <= i <= r_log_last_index r -> is_Some (r_log r !! i);
  lo_term : r_log_last_term r = log_term_at_ r (r_log_last_index r)
}.

(** The part of the state the log consists of. *)
Definition lkey (r : cetcd_raft) :=
  (r_log r, r_log_cap r, r_log_last_index r, r_log_last_term r, r_log_compacted r).

Lemma lkey_core r r' : core r = core r' -> lkey r = lkey r'.
Proof. intros E. core_proj lkey E. Qed.

Lemma log_at_lkey r r' i : lkey r = lkey r' -> log_at_ r i = log_at_ r' i.
Proof. unfold lkey, log_at_, log_slot. by intros [= -> _ -> _ ->]. Qed.

Lemma log_term_at_lkey r r' i : lkey r = lkey r' -> log_term_at_ r i = log_term_at_ r' i.
Proof. unfold log_term_at_. intros E. by rewrite (log_at_lkey _ _ _ E). Qed.

Lemma log_ok_lkey r r' : lkey r = lkey r' -> log_ok r -> log_ok r'.
Proof.
  intros E [H1 H2 H3 H4 H5 H6]. pose proof (fun i => log_term_at_lkey r r' i E) as Ht.
  unfold lkey in E. injection E as E1 E2 E3 E4 E5.
  split; rewrite <- ?E1, <- ?E2, <- ?E3, <- ?E4, <- ?E5; try done. by rewrite <- Ht.
Qed.

(** The entry at an index of the retained log. *)
Lemma log_at_present r i : log_ok r -> 0 < i -> r_log_compacted r <= i <= r_log_last_index r ->
  exists e, r_log r !! i = Some e /\ log_at_ r i = Some e /\ log_term_at_ r i = e_term e /\ e_index e = i.
Proof.
  intros Hok Hi Hr. destruct (lo_full r Hok i Hi Hr) as [e He]. exists e.
  assert (Ha : log_at_ r i = Some e).
  { unfold log_at_, log_slot. rewrite He. cbn.
    destruct (Z.eqb_spec i 0), (Z.ltb_spec (r_log_last_index r) i), (Z.ltb_spec i (r_log_compacted r)); cbn; (lia || done). }
  split_and!; [done|done| |by apply (lo_slot r Hok i e)].
  unfold log_term_at_. rewrite Ha. destruct (Z.eqb_spec i 0); [lia|done].
Qed.

(** ** Appending *)

Lemma grow_log_cap_spec fuel c needed :
  0 <= needed < 4294967296 -> 1 <= c < 4294967296 -> needed <= c * 2 ^ Z.of_nat fuel ->
  needed <= grow_log_cap fuel c needed < 4294967296 /\ c <= grow_log_cap fuel c needed.
Proof.
  intros Hn. revert c; induction fuel as [|fuel IH]; intros c Hc Hf; cbn [grow_log_cap].
  { cbn in Hf. lia. }
  rewrite (u32_small needed) by done. destruct (Z.ltb_spec c needed); [|lia].
  destruct (Z.ltb_spec 2147483647 c); [lia|].
  rewrite u32_small by (unfold in_u32; lia).
  rewrite Nat2Z.inj_succ, Z.pow_succ_r in Hf by lia.
  destruct (IH (c * 2)); lia.
Qed.

(** Indexes that fit the 32-bit capacity counter. *)
Definition index_ok (i : Z) : Prop := 0 < i < 4294967295.

Lemma log_append_cap r e : index_ok (e_index e) -> 64 <= r_log_cap r < 4294967296 ->
  64 <= r_log_cap (log_append_ r e) < 4294967296 /\ e_index e < r_log_cap (log_append_ r e) /\
  r_log_cap r <= r_log_cap (log_append_ r e).
Proof.
  unfold index_ok. intros Hi Hc. unfold log_append_. cbv zeta.
  rewrite u64_small by (unfold in_u64; lia).
  assert (E0 : (r_log_cap r =? 0) = false) by (apply Z.eqb_neq; lia).
  pose proof (grow_log_cap_spec 33 (r_log_cap r) (e_index e + 1)) as Hg.
  assert (Hp : 2 ^ Z.of_nat 33 = 8589934592) by reflexivity. rewrite Hp in Hg.
  rewrite E0. guards; cbn -[grow_log_cap]; lia.
Qed.

Lemma log_append_fields r e :
  r_log (log_append_ r e) = <[e_index e := e]> (r_log r) /\
  r_log_last_index (log_append_ r e) = Z.max (r_log_last_index r) (e_index e) /\
  r_log_last_term (log_append_ r e) =
    (if r_log_last_index r <? e_index e then e_term e else r_log_last_term r) /\
  r_log_compacted (log_append_ r e) = r_log_compacted r.
Proof. unfold log_append_. cbv zeta. guards; cbn -[grow_log_cap u64] in *; split_and!; done || lia. Qed.

Lemma log_at_append r e i : 0 < e_index e -> r_log_compacted r <= e_index e <= r_log_last_index r + 1 ->
  log_at_ (log_append_ r e) i = if i =? e_index e then Some e else log_at_ r i.
Proof.
  intros He Hr. unfold log_at_, log_slot.
  destruct (log_append_fields r e) as (-> & -> & _ & ->).
  destruct (Z.eqb_spec i (e_index e)) as [->|Hne].
  - rewrite lookup_insert, decide_True by done. cbn. guards; done || lia.
  - rewrite lookup_insert_ne by congruence. guards; done || lia.
Qed.

Lemma log_term_append r e i : 0 < e_index e -> r_log_compacted r <= e_index e <= r_log_last_index r + 1 ->
  log_term_at_ (log_append_ r e) i = if i =? e_index e then e_term e else log_term_at_ r i.
Proof.
  intros He Hr. unfold log_term_at_. rewrite log_at_append by done. guards; done || lia.
Qed.

Lemma log_append_ok r e :
  log_ok r -> index_ok (e_index e) -> r_log_compacted r <= e_index e <= r_log_last_index r + 1 ->
  (e_index e = r_log_last_index r -> e_term e = r_log_last_term r) -> log_ok (log_append_ r e).
Proof.
  intros Hok Hi Hr Ht. destruct (log_append_cap r e Hi (lo_cap r Hok)) as (Hc & Hec & Hle).
  destruct Hok as [C L K S F T]. unfold index_ok in Hi.
  pose proof (log_term_append r e) as Hta.
  destruct (log_append_fields r e) as (El & Ei & Etm & Ek).
  split; rewrite ?El, ?Ei, ?Ek; [lia|lia|lia| | |].
  - intros i x. rewrite lookup_insert_Some. intros [[<- <-]|[Hn Hx]]; [lia|]. apply S in Hx. lia.
  - intros i Hpos Hb. destruct (decide (i = e_index e)) as [->|Hn].
    + rewrite lookup_insert, decide_True by done. eauto.
    + rewrite lookup_insert_ne by done. apply F; lia.
  - rewrite Etm, Hta by lia.
    destruct (Z.ltb_spec (r_log_last_index r) (e_index e)).
    + by rewrite Z.max_r, Z.eqb_refl by lia.
    + rewrite Z.max_l by lia. destruct (Z.eqb_spec (r_log_last_index r) (e_index e)) as [E|E]; [by rewrite Ht|done].
Qed.

(** ** Truncating *)

Lemma truncate_fields r k :
  r_log_last_index (log_truncate_after_ r k) = Z.min (r_log_last_index r) k /\
  r_log_compacted (log_truncate_after_ r k) = r_log_compacted r /\
  r_log_cap (log_truncate_after_ r k) = r_log_cap r.
Proof. unfold log_truncate_after_. cbv zeta. guards; cbn; lia. Qed.

Lemma truncate_lookup r k i : log_ok r ->
  r_log (log_truncate_after_ r k) !! i = if i <=? k then r_log r !! i else None.
Proof.
  intros Hok. destruct (Z.leb_spec i k); unfold log_truncate_after_; cbv zeta.
  - guards; [done|]. cbn. rewrite map_lookup_filter. destruct (r_log r !! i) eqn:E; [|done]. cbn.
    rewrite option_guard_True; [done|lia].
  - guards.
    + destruct (r_log r !! i) as [e|] eqn:E; [|done]. apply (lo_slot r Hok) in E. lia.
    + cbn. rewrite map_lookup_filter. destruct (r_log r !! i) as [e|] eqn:E; [|done]. cbn.
      rewrite option_guard_False; [done|]. pose proof (lo_last r Hok). apply (lo_slot r Hok) in E. lia.
Qed.

Lemma log_at_truncate r k i : log_ok r ->
  log_at_ (log_truncate_after_ r k) i = if i <=? k then log_at_ r i else None.
Proof.
  intros Hok. unfold log_at_, log_slot. rewrite (truncate_lookup r k i Hok).
  destruct (truncate_fields r k) as (-> & -> & _). guards; done || lia.
Qed.

Lemma log_truncate_ok r k : log_ok r -> r_log_compacted r <= k -> log_ok (log_truncate_after_ r k).
Proof.
  intros Hok Hk. pose proof (truncate_lookup r k) as Hl. pose proof (log_at_truncate r k) as Ha.
  destruct (truncate_fields r k) as (Ei & Ek & Ec). pose proof Hok as [C L K S F T].
  split; rewrite ?Ei, ?Ek, ?Ec; [lia|lia|lia| | |].
  - intros i e. rewrite Hl by done. guards; [|done]. intros He%S. lia.
  - intros i Hi Hb. rewrite Hl by done. guards; [|lia]. apply F; lia.
  - revert Ei. unfold log_truncate_after_. cbv zeta. guards; cbn; [|by intros <-].
    intros <-. done.
Qed.

(** ** An accepted App *)

(** One entry of the append loop, on the log as an index-to-entry function. *)
Lemma app_entry_log r idx e :
  log_ok r -> index_ok idx -> r_log_compacted r < idx <= r_log_last_index r + 1 ->
  let r' := app_entry_ r idx e in
  let clash := (idx <=? r_log_last_index r) && negb (log_term_at_ r idx =? e_term e) in
  log_ok r' /\ r_log_compacted r' = r_log_compacted r /\
  r_log_last_index r' = (if clash then idx else Z.max (r_log_last_index r) idx) /\
  forall i, log_at_ r' i = if i =? idx then Some (e <| e_index := idx |>)
                           else if clash && (idx <? i) then None else log_at_ r i.
Proof.
  intros Hok Hi Hr r' clash. subst r'. unfold app_entry_. cbv zeta. fold clash.
  rewrite u64_small by (unfold in_u64, index_ok in *; lia).
  set (r1 := if clash then log_truncate_after_ r (idx - 1) else r).
  assert (H1 : log_ok r1 /\ r_log_compacted r1 = r_log_compacted r /\
    r_log_last_index r1 = (if clash then idx - 1 else r_log_last_index r) /\
    forall i, log_at_ r1 i = if clash && (idx - 1 <? i) then None else log_at_ r i).
  { subst r1. destruct clash eqn:Ec; cbn [andb]; [|done].
    destruct (truncate_fields r (idx - 1)) as (-> & -> & _).
    split_and!; [apply log_truncate_ok; [done|lia]|done| |].
    - subst clash. destruct (Z.leb_spec idx (r_log_last_index r)); [lia|done].
    - intros i. rewrite log_at_truncate by done. guards; done || lia. }
  destruct H1 as (Hok1 & Hk1 & Hl1 & Ha1).
  set (e' := e <| e_index := idx |>). assert (Ei : e_index e' = idx) by done.
  assert (Hb : r_log_compacted r1 <= e_index e' <= r_log_last_index r1 + 1).
  { rewrite Ei, Hk1, Hl1. case_match; lia. }
  assert (Hok2 : log_ok (log_append_ r1 e')).
  { apply log_append_ok; [done|by rewrite Ei|done|]. rewrite Ei, Hl1. subst clash r1. intros E.
    destruct (Z.leb_spec idx (r_log_last_index r)); cbn [andb] in *; [|lia].
    destruct (Z.eqb_spec (log_term_at_ r idx) (e_term e)); cbn [negb] in *; [|lia].
    rewrite (lo_term r Hok), <- E. cbn. congruence. }
  destruct (log_append_fields r1 e') as (_ & El & _ & Ek).
  assert (Hat : forall i, log_at_ (log_append_ r1 e') i =
     if i =? idx then Some e' else if clash && (idx <? i) then None else log_at_ r i).
  { intros i. rewrite log_at_append by (done || (rewrite Ei; unfold index_ok in Hi; lia)). rewrite Ei, Ha1.
    destruct clash; cbn [andb]; guards; done || lia. }
  rewrite (Hat idx), Z.eqb_refl.
  split; [by apply (log_ok_lkey (log_append_ r1 e'))|].
  generalize dependent (log_append_ r1 e'). intros r2 _ El Ek Hat.
  split; [by cbn; rewrite Ek|]. split; [cbn; rewrite El, Hl1, Ei; case_match; lia|exact Hat].
Qed.

(** Some entry of the message contradicts a stored one of another term. *)
Fixpoint conflicts (r : cetcd_raft) (idx : Z) (l : list cetcd_entry) : bool :=
  match l with
  | [] => false
  | e :: l' => ((idx <=? r_log_last_index r) && negb (log_term_at_ r idx =? e_term e))
               || conflicts r (idx + 1) l'
  end.

Lemma conflicts_beyond r idx l : r_log_last_index r < idx -> conflicts r idx l = false.
Proof.
  revert idx; induction l as [|e l IH]; intros idx H; cbn [conflicts]; [done|].
  rewrite IH by lia. destruct (Z.leb_spec idx (r_log_last_index r)); [lia|done].
Qed.

Lemma conflicts_ext r r' idx l :
  (forall i, idx <= i -> (i <=? r_log_last_index r) = (i <=? r_log_last_index r') /\
     log_at_ r i = log_at_ r' i) ->
  conflicts r idx l = conflicts r' idx l.
Proof.
  revert idx; induction l as [|e l IH]; intros idx H; cbn [conflicts]; [done|].
  destruct (H idx) as [-> Ha]; [lia|]. unfold log_term_at_. rewrite Ha, IH; [done|].
  intros i Hi. apply H. lia.
Qed.

Lemma app_entries_log l r idx :
  log_ok r -> 0 < idx -> idx + blen l < 4294967296 ->
  r_log_compacted r < idx <= r_log_last_index r + 1 ->
  let r' := app_entries_ r idx l in
  let clash := conflicts r idx l in
  log_ok r' /\ r_log_compacted r' = r_log_compacted r /\
  r_log_last_index r' = (if clash then idx + blen l - 1 else Z.max (r_log_last_index r) (idx + blen l - 1)) /\
  forall i, log_at_ r' i =
    if i <? idx then log_at_ r i
    else match l !! Z.to_nat (i - idx) with
         | Some e => Some (e <| e_index := i |>)
         | None => if clash then None else log_at_ r i
         end.
Proof.
  revert r idx; induction l as [|e l IH]; intros r idx Hok Hp Hb Hr r' clash; subst r' clash; cbn [app_entries_ conflicts].
  { unfold blen; cbn [length]. split_and!; [done|done|lia|]. intros i. case_match; [done|by rewrite lookup_nil]. }
  rewrite blen_cons in Hb |- *. pose proof (blen_nonneg l).
  rewrite (u64_small idx) by (unfold in_u64; lia).
  pose proof (app_entry_log r idx e Hok ltac:(unfold index_ok; lia) Hr) as H1. cbv zeta in H1.
  set (c := (idx <=? r_log_last_index r) && negb (log_term_at_ r idx =? e_term e)) in *.
  destruct H1 as (Hok1 & Hk1 & Hl1 & Ha1). revert Hok1 Hk1 Hl1 Ha1.
  generalize (app_entry_ r idx e). intros r1 Hok1 Hk1 Hl1 Ha1.
  assert (Hlast : idx <= r_log_last_index r1) by (rewrite Hl1; case_match; lia).
  specialize (IH r1 (idx + 1) Hok1 ltac:(lia) ltac:(lia) ltac:(lia)). cbv zeta in IH.
  destruct IH as (Hok2 & Hk2 & Hl2 & Ha2).
  assert (Hc : conflicts r1 (idx + 1) l = negb c && conflicts r (idx + 1) l).
  { destruct c eqn:Ec; cbn [negb andb].
    - apply conflicts_beyond. lia.
    - apply conflicts_ext. intros i Hi. rewrite Ha1. cbn [andb].
      destruct (Z.eqb_spec i idx); [lia|]. split; [|done]. rewrite Hl1.
      destruct (Z.leb_spec i (r_log_last_index r)), (Z.leb_spec i (Z.max (r_log_last_index r) idx)); try done; exfalso; lia. }
  rewrite Hc in *. split_and!; [done|congruence| |].
  - rewrite Hl2, Hl1. destruct c; cbn [negb andb orb]; [|destruct (conflicts r (idx + 1) l)]; lia.
  - intros i. rewrite Ha2, Ha1.
    destruct (Z.ltb_spec i (idx + 1)), (Z.ltb_spec i idx), (Z.eqb_spec i idx); try lia.
    + destruct c; cbn [andb]; [|done]. destruct (Z.ltb_spec idx i); [lia|done].
    + subst i. by rewrite Z.sub_diag.
    + replace (Z.to_nat (i - idx)) with (S (Z.to_nat (i - (idx + 1)))) by lia. cbn [lookup list_lookup].
      change (list_lookup (Z.to_nat (i - (idx + 1))) l) with (l !! Z.to_nat (i - (idx + 1))).
      destruct (l !! Z.to_nat (i - (idx + 1))); [done|]. destruct c; cbn [negb andb orb]; [|done].
      destruct (Z.ltb_spec idx i); [done|lia].
Qed.

Lemma lkey_follower r t l : lkey (become_follower_ r t l) = lkey r.
Proof. unfold become_follower_. by case_match. Qed.
Lemma lkey_adopt r t l : lkey (adopt_term r t l) = lkey r.
Proof. unfold adopt_term. case_match; [apply lkey_follower|done]. Qed.
Lemma lkey_step_down r t l : lkey (step_down r t l) = lkey r.
Proof. unfold step_down. case_match; [done|apply lkey_follower]. Qed.
Lemma lkey_follow_commit r c : lkey (follow_commit_ r c) = lkey r.
Proof. unfold follow_commit_. cbv zeta. by repeat case_match. Qed.
Lemma lkey_queue_msg r m : lkey (queue_msg_ r m) = lkey r.
Proof. done. Qed.
Lemma lkey_queue_hs r : lkey (queue_hard_state_ r) = lkey r.
Proof. done. Qed.
Lemma lkey_progress r i p : lkey (set_progress r i p) = lkey r.
Proof. done. Qed.
Lemma lkey_advance r : lkey (maybe_advance_commit_ r) = lkey r.
Proof. by destruct (advance_commit_cases r) as [->|(c & _ & _ & ->)]. Qed.
Lemma lkey_send_app r i : lkey (maybe_send_app_ r i) = lkey r.
Proof. apply lkey_core. by autorewrite with core. Qed.
Lemma lkey_send_snap r i : lkey (maybe_send_snap_ r i) = lkey r.
Proof. apply lkey_core. by autorewrite with core. Qed.
Lemma lkey_become_leader r : lkey (become_leader_ r) = lkey r.
Proof. etransitivity; [apply lkey_core, core_become_leader|done]. Qed.
Lemma lkey_broadcast r : lkey (leader_broadcast_heartbeat_ r) = lkey r.
Proof. apply lkey_core. by autorewrite with core. Qed.
Lemma lkey_record_vote r i : lkey (record_vote_ r i) = lkey r.
Proof. unfold record_vote_. by case_match. Qed.
Lemma lkey_candidate r : lkey (become_candidate_ r) = lkey r.
Proof.
  destruct (become_candidate_core r) as [E|[_ E]]; (etransitivity; [apply (lkey_core _ _ E)|]); [done|].
  by rewrite lkey_become_leader.
Qed.
Lemma lkey_pre_candidate r : lkey (become_pre_candidate_ r) = lkey r.
Proof.
  unfold become_pre_candidate_. cbv zeta. case_match; [by rewrite lkey_candidate|].
  etransitivity; [apply lkey_core, core_send_vote_requests|done].
Qed.

Create Rewrite HintDb lkey.
#[export] Hint Rewrite lkey_follower lkey_adopt lkey_step_down lkey_follow_commit lkey_queue_msg lkey_queue_hs
  lkey_progress lkey_advance lkey_send_app lkey_send_snap lkey_become_leader lkey_broadcast lkey_record_vote
  lkey_candidate lkey_pre_candidate : lkey.

Lemma follow_commit_value r c :
  r_commit (follow_commit_ r c) = Z.max (r_commit r) (Z.min c (r_log_last_index r)).
Proof. unfold follow_commit_. cbv zeta. guards; cbn; lia. Qed.

Lemma app_entry_commit r i e : r_commit (app_entry_ r i e) = r_commit r /\ r_term (app_entry_ r i e) = r_term r.
Proof.
  unfold app_entry_, log_append_, log_truncate_after_. cbv zeta.
  assert (H : forall (o : option cetcd_entry) r,
    let r' := match o with Some s => queue_entry_ r s | None => r end in r_commit r' = r_commit r /\ r_term r' = r_term r)
    by (by intros []).
  edestruct H as [-> ->]. guards; done.
Qed.

Lemma app_entries_commit l r i :
  r_commit (app_entries_ r i l) = r_commit r /\ r_term (app_entries_ r i l) = r_term r.
Proof.
  revert r i; induction l as [|e l IH]; intros r i; cbn [app_entries_]; [done|].
  destruct (IH (app_entry_ r (u64 i) e) (i + 1)) as [-> ->]. apply app_entry_commit.
Qed.

(** The state in which a follower examines an App or Heartbeat it does not
    refuse for its term. *)
Definition following (r : cetcd_raft) (t from : Z) : cetcd_raft :=
  (step_down (adopt_term r t from) t from) <| r_leader_id := from |> <| r_elapsed_ticks := 0 |>.

Lemma following_facts r t from : r_term r <= t ->
  let r1 := following r t from in
  lkey r1 = lkey r /\ r_term r1 = t /\ r_role r1 = ROLE_FOLLOWER /\ r_leader_id r1 = from /\
  r_commit r1 = r_commit r /\ r_id r1 = r_id r.
Proof.
  intros Ht. unfold following, step_down, adopt_term, become_follower_, lkey.
  guards; cbn in *; split_and!; try done; try lia. by destruct (r_role r).
Qed.

Definition app_reply (r : cetcd_raft) (to index reject : Z) : cetcd_msg :=
  zero_msg <| m_type := CETCD_MSG_APP_RESP |> <| m_to := to |> <| m_from := r_id r |>
    <| m_term := r_term r |> <| m_index := index |> <| m_reject := reject |>.

(** [prev_matches]: the consistency check of an App against the log. *)
Definition prev_matches (r : cetcd_raft) (m : cetcd_msg) : Prop :=
  m_index m <= r_log_last_index r /\ (m_index m = 0 \/ log_term_at_ r (m_index m) = m_log_term m).

Lemma handle_app_accept r m : r_term r <= m_term m -> 0 <= m_index m -> prev_matches r m ->
  exists r2, r2 = follow_commit_ (app_entries_ (following r (m_term m) (m_from m)) (m_index m + 1) (m_entries m))
                    (m_commit m) /\
    (handle_app_ r m).1 = queue_msg_ r2 (app_reply r2 (m_from m) (r_log_last_index r2) 0).
Proof.
  intros Ht Hi [Hl Hm]. eexists. split; [reflexivity|].
  destruct (following_facts r (m_term m) (m_from m) Ht) as (Ek & _).
  unfold handle_app_. cbv zeta. fold (adopt_term r (m_term m) (m_from m)).
  fold (step_down (adopt_term r (m_term m) (m_from m)) (m_term m) (m_from m)).
  fold (following r (m_term m) (m_from m)). revert Ek. generalize (following r (m_term m) (m_from m)). intros r1 Ek.
  rewrite (log_term_at_lkey _ _ _ Ek). assert (r_log_last_index r1 = r_log_last_index r) as -> by (unfold lkey in Ek; congruence).
  destruct (Z.ltb_spec (m_term m) (r_term r)); [lia|].
  destruct (Z.ltb_spec (r_log_last_index r) (m_index m)); [lia|]. rewrite andb_false_r.
  destruct (Z.ltb_spec 0 (m_index m)), (Z.eqb_spec (log_term_at_ r (m_index m)) (m_log_term m)); cbn [andb negb fst];
    try reflexivity. destruct Hm; [lia|done].
Qed.

(** C4: what an accepted App does.  When the sender's term is not behind and
    the entry before the new ones matches, the node ends up a follower of the
    sender's term; its log is the old log with the message's entries written
    at [index + 1 ...], everything after them is kept unless some entry
    contradicted a stored one of another term, in which case the old suffix is
    gone; the commit index moves to the sender's, bounded by the log; the log
    invariant holds and the acknowledgement names the last index. *)
Theorem app_accepted r m :
  log_ok r -> r_term r <= m_term m -> prev_matches r m ->
  r_log_compacted r <= m_index m -> m_index m + blen (m_entries m) < 4294967295 ->
  let r' := (handle_app_ r m).1 in
  let n := blen (m_entries m) in
  let clash := conflicts r (m_index m + 1) (m_entries m) in
  log_ok r' /\ r_role r' = ROLE_FOLLOWER /\ r_term r' = m_term m /\
  r_log_last_index r' = (if clash then m_index m + n else Z.max (r_log_last_index r) (m_index m + n)) /\
  (forall i, log_at_ r' i =
     if i <=? m_index m then log_at_ r i
     else match m_entries m !! Z.to_nat (i - (m_index m + 1)) with
          | Some e => Some (e <| e_index := i |>)
          | None => if clash then None else log_at_ r i
          end) /\
  r_commit r' = Z.max (r_commit r) (Z.min (m_commit m) (r_log_last_index r')) /\
  last (r_pending_msgs r') = Some (app_reply r' (m_from m) (r_log_last_index r') 0).
Proof.
  intros Hok Ht Hp Hc Hn r' n clash. subst r'. pose proof (lo_compacted r Hok).
  destruct (handle_app_accept r m Ht ltac:(lia) Hp) as (r2 & E2 & ->).
  destruct (following_facts r (m_term m) (m_from m) Ht) as (Ek & Et & Er & _ & Ecm & _).
  revert E2 Ek Et Er Ecm. generalize (following r (m_term m) (m_from m)). intros r1 E2 Ek Et Er Ecm.
  assert (Hok1 : log_ok r1) by (by apply (log_ok_lkey r)).
  assert (El1 : r_log_last_index r1 = r_log_last_index r /\ r_log_compacted r1 = r_log_compacted r)
    by (unfold lkey in Ek; split; congruence). destruct El1 as [El1 Ec1].
  destruct Hp as [Hp _].
  pose proof (app_entries_log (m_entries m) r1 (m_index m + 1) Hok1 ltac:(lia) ltac:(lia) ltac:(lia)) as HA.
  cbv zeta in HA. rewrite (conflicts_ext r1 r) in HA.
  2:{ intros i _. rewrite El1. split; [done|by apply log_at_lkey]. }
  destruct (app_entries_commit (m_entries m) r1 (m_index m + 1)) as [Hcm Htm].
  pose proof (econf_app_entries (m_entries m) r1 (m_index m + 1)) as Hro.
  revert E2 HA Hcm Htm Hro. generalize (app_entries_ r1 (m_index m + 1) (m_entries m)). intros ra E2 (Hoka & Hka & Hla & Haa) Hcm Htm Hro.
  pose proof (lkey_follow_commit ra (m_commit m)) as Ek2. pose proof (follow_commit_value ra (m_commit m)) as Hcv.
  pose proof (econf_follow_commit ra (m_commit m)) as Hro2.
  assert (Htv : r_term (follow_commit_ ra (m_commit m)) = r_term ra)
    by (unfold follow_commit_; cbv zeta; by repeat case_match).
  rewrite <- E2 in Ek2, Hcv, Htv, Hro2. clear E2.
  assert (El2 : r_log_last_index r2 = r_log_last_index ra) by (unfold lkey in Ek2; congruence).
  assert (Hfin : r_log_last_index r2 = (if clash then m_index m + n else Z.max (r_log_last_index r) (m_index m + n))).
  { rewrite El2, Hla, El1. subst n clash. case_match; lia. }
  split; [by apply (log_ok_lkey ra); [rewrite lkey_queue_msg|]|].
  split. { rewrite Hro in Hro2. unfold econf in Hro2. change (r_role r2 = ROLE_FOLLOWER). congruence. }
  split; [change (r_term r2 = m_term m); congruence|].
  split; [exact Hfin|]. split.
  { intros i. rewrite lkey_queue_msg || idtac. rewrite (log_at_lkey _ ra i) by (by rewrite lkey_queue_msg).
    rewrite Haa. rewrite (log_at_lkey r1 r i) by done.
    destruct (Z.leb_spec i (m_index m)), (Z.ltb_spec i (m_index m + 1)); done || lia. }
  split; [change (r_commit r2 = Z.max (r_commit r) (Z.min (m_commit m) (r_log_last_index r2))); rewrite Hcv, El2; congruence|].
  cbn. apply last_snoc.
Qed.

(** A follower of term 1 with three entries, the last two of which a leader of
    term 2 replaces. *)
Definition follower3 : cetcd_raft :=
  empty_raft <| r_id := 3 |> <| r_term := 1 |> <| r_log_cap := 64 |>
    <| r_log := {[ 1 := mk_entry 1 1 0 [97]; 2 := mk_entry 1 2 0 [120]; 3 := mk_entry 1 3 0 [121] ]} |>
    <| r_log_last_index := 3 |> <| r_log_last_term := 1 |>.

Definition app_from_1 (index log_term : Z) : cetcd_msg :=
  zero_msg <| m_type := CETCD_MSG_APP |> <| m_from := 1 |> <| m_term := 2 |> <| m_index := index |>
    <| m_log_term := log_term |> <| m_commit := 1 |> <| m_entries := [mk_entry 2 2 0 [98]] |>.

Lemma follower3_ok : log_ok follower3.
Proof.
  split; cbn; [lia|lia|lia| | |reflexivity].
  - intros i e. rewrite !lookup_insert_Some. intros [ [<- <-] | [_ Hs] ]; [cbn; lia|].
    destruct Hs as [ [<- <-] | [_ Hs] ]; [cbn; lia|].
    apply lookup_singleton_Some in Hs as [<- <-]. cbn. lia.
  - intros i Hi Hb. assert (i = 1 \/ i = 2 \/ i = 3) as [ -> | [ -> | -> ] ] by lia; vm_compute; eauto.
Qed.

Lemma app_accepted_witness :
  log_ok (handle_app_ follower3 (app_from_1 1 1)).1 /\
  r_log_last_index (handle_app_ follower3 (app_from_1 1 1)).1 = 2.
Proof.
  destruct (app_accepted follower3 (app_from_1 1 1) follower3_ok) as (Hok & _ & _ & Hl & _).
  - vm_compute. congruence.
  - split; [vm_compute; congruence|right; vm_compute; reflexivity].
  - vm_compute. congruence.
  - vm_compute. reflexivity.
  - split; [exact Hok|]. rewrite Hl. vm_compute. reflexivity.
Defined.

(** What a refused App does.  A message of an older term, or one whose
    preceding entry the log does not have, changes neither the log nor the
    commit index; the reply is a rejection that carries 0, the follower's last
    index, or the probed index, for the three causes in that order. *)
Theorem app_rejected r m :
  log_ok r -> 0 <= m_index m -> m_term m < r_term r \/ ~ prev_matches r m ->
  let r' := (handle_app_ r m).1 in
  lkey r' = lkey r /\ r_commit r' = r_commit r /\ r_term r' = Z.max (r_term r) (m_term m) /\
  last (r_pending_msgs r') =
    Some (app_reply r' (m_from m) (if m_term m <? r_term r then 0
                                   else Z.min (m_index m) (r_log_last_index r)) 1).
Proof.
  intros Hok Hi Hrej. pose proof (lo_last r Hok). unfold handle_app_, prev_matches in *. cbv zeta. fold (adopt_term r (m_term m) (m_from m)).
  fold (step_down (adopt_term r (m_term m) (m_from m)) (m_term m) (m_from m)).
  fold (following r (m_term m) (m_from m)).
  destruct (Z.ltb_spec (m_term m) (r_term r)).
  { cbn [fst]. split; [done|]. split; [done|]. split; [cbn; lia|]. cbn. apply last_snoc. }
  destruct Hrej as [|Hrej]; [lia|].
  destruct (following_facts r (m_term m) (m_from m) ltac:(lia)) as (Ek & Et & _ & _ & Ecm & _).
  revert Ek Et Ecm. generalize (following r (m_term m) (m_from m)). intros r1 Ek Et Ecm.
  rewrite (log_term_at_lkey _ _ _ Ek). assert (r_log_last_index r1 = r_log_last_index r) as -> by (unfold lkey in Ek; congruence).
  destruct (Z.ltb_spec 0 (m_index m)); cbn [andb]; [|exfalso; apply Hrej; split; [lia|left; lia]].
  destruct (Z.ltb_spec (r_log_last_index r) (m_index m)); cbn [fst].
  { split_and!; [exact Ek|exact Ecm|cbn; lia|]. rewrite Z.min_r by lia. cbn. apply last_snoc. }
  destruct (Z.eqb_spec (log_term_at_ r (m_index m)) (m_log_term m)); cbn [negb fst].
  { exfalso. apply Hrej. split; [lia|by right]. }
  split_and!; [exact Ek|exact Ecm|cbn; lia|]. rewrite Z.min_l by lia. cbn. apply last_snoc.
Qed.

Lemma app_rejected_witness :
  last (r_pending_msgs (handle_app_ follower3 (app_from_1 2 2)).1) =
    Some (app_reply (handle_app_ follower3 (app_from_1 2 2)).1 1 2 1).
Proof.
  destruct (app_rejected follower3 (app_from_1 2 2) follower3_ok) as (_ & _ & _ & Hm).
  - vm_compute. congruence.
  - right. intros [_ [H|H]]; vm_compute in H; congruence.
  - rewrite Hm. vm_compute. reflexivity.
Defined.

(** ** Compaction *)

(** The state [r'] a compaction at [i] leaves, on top of the log [ra] with the
    boundary entry [d] written. *)
Definition compacted_at (ra : cetcd_raft) (i : Z) : cetcd_raft :=
  ra <| r_log := map_imap (fun j e => if (1 <=? j) && (j <? i) && (j <? r_log_cap ra)
                                      then Some (entry_clear_data_ e) else Some e) (r_log ra) |>
     <| r_log_compacted := i |>.

Lemma compacted_lookup r d j :
  r_log (compacted_at (log_append_ r d) (e_index d)) !! j =
  if (1 <=? j) && (j <? e_index d) && (j <? r_log_cap (log_append_ r d))
  then entry_clear_data_ <$> r_log r !! j else if j =? e_index d then Some d else r_log r !! j.
Proof.
  destruct (log_append_fields r d) as (El & _). unfold compacted_at.
  revert El. generalize (log_append_ r d). intros ra El. cbn. rewrite map_lookup_imap, El.
  destruct (Z.eqb_spec j (e_index d)) as [->|Hne].
  - rewrite lookup_insert, decide_True by done. cbn. destruct (Z.ltb_spec (e_index d) (e_index d)); [lia|].
    by rewrite andb_false_r.
  - rewrite lookup_insert_ne by done. destruct (r_log r !! j); cbn; by destruct ((1 <=? j) && _ && _).
Qed.

Lemma compacted_log_at r d j : 0 < e_index d -> r_log_compacted r <= e_index d ->
  log_at_ (compacted_at (log_append_ r d) (e_index d)) j =
  if j <? e_index d then None else if j =? e_index d then Some d else log_at_ r j.
Proof.
  intros Hp Hk. unfold log_at_ at 1, log_slot. rewrite compacted_lookup.
  destruct (log_append_fields r d) as (_ & Ei & _).
  change (r_log_last_index (compacted_at (log_append_ r d) (e_index d))) with (r_log_last_index (log_append_ r d)).
  change (r_log_compacted (compacted_at (log_append_ r d) (e_index d))) with (e_index d). rewrite Ei.
  destruct (Z.ltb_spec j (e_index d)); [by destruct ((j =? 0) || _)|].
  rewrite !andb_false_r. cbn [andb]. destruct (Z.eqb_spec j (e_index d)) as [->|Hne].
  - destruct (Z.eqb_spec (e_index d) 0), (Z.ltb_spec (Z.max (r_log_last_index r) (e_index d)) (e_index d)); try lia. done.
  - unfold log_at_, log_slot. destruct (Z.ltb_spec j (r_log_compacted r)); [lia|].
    destruct (Z.ltb_spec (Z.max (r_log_last_index r) (e_index d)) j), (Z.ltb_spec (r_log_last_index r) j); try lia; done.
Qed.

Lemma compacted_ok r d :
  log_ok r -> index_ok (e_index d) -> r_log_compacted r <= e_index d ->
  e_index d <= r_log_last_index r \/ r_log_last_index r = 0 ->
  (e_index d = r_log_last_index r -> e_term d = r_log_last_term r) ->
  log_ok (compacted_at (log_append_ r d) (e_index d)).
Proof.
  intros [C L K S F T] Hi Hk Hli Ht.
  destruct (log_append_cap r d Hi C) as (Hc & Hic & Hcc). destruct (log_append_fields r d) as (_ & Ei & Etm & _).
  unfold index_ok in Hi. pose proof (compacted_lookup r d) as Hlk.
  pose proof (fun j => compacted_log_at r d j ltac:(lia) Hk) as Hat.
  set (i := e_index d) in *. set (r' := compacted_at (log_append_ r d) i) in *.
  assert (Hl' : r_log_last_index r' = Z.max (r_log_last_index r) i) by done.
  assert (Hc' : r_log_cap r' = r_log_cap (log_append_ r d)) by done.
  assert (Hk' : r_log_compacted r' = i) by done.
  assert (Htm : r_log_last_term r' = r_log_last_term (log_append_ r d)) by done.
  clearbody r'. split; rewrite ?Hl', ?Hc', ?Hk'; [lia|lia|lia| | |].
  - intros j e. rewrite Hlk. destruct ((1 <=? j) && (j <? i) && _).
    + intros (x & Hx%S & ->)%fmap_Some. cbn. lia.
    + destruct (Z.eqb_spec j i) as [->|]; [intros [= <-]; lia|]. intros He%S. lia.
  - intros j Hj Hb. rewrite Hlk. destruct (Z.ltb_spec j i); [lia|]. rewrite andb_false_r. cbn [andb].
    destruct (Z.eqb_spec j i); [eauto|]. apply F; lia.
  - rewrite Htm. unfold log_term_at_. rewrite Hat, Etm.
    destruct (Z.ltb_spec (r_log_last_index r) i).
    + rewrite Z.max_r, Z.ltb_irrefl, Z.eqb_refl by lia. destruct (Z.eqb_spec i 0); [lia|done].
    + rewrite Z.max_l by lia. destruct (Z.ltb_spec (r_log_last_index r) i); [lia|].
      destruct (Z.eqb_spec (r_log_last_index r) i) as [E|].
      * rewrite <- Ht by done. by destruct (Z.eqb_spec (r_log_last_index r) 0); [lia|].
      * rewrite T. unfold log_term_at_. done.
Qed.

Lemma compact_cases_ok r i t :
  log_ok r -> index_ok i ->
  if (i <? r_log_compacted r) || negb (r_log_last_index r =? 0) && (r_log_last_index r <? i)
  then cetcd_raft_compact r i t = (r, -1)
  else cetcd_raft_compact r i t =
       (compacted_at (log_append_ r (mk_entry t i CETCD_ENTRY_NORMAL [])) i, 0).
Proof.
  intros Hok Hi. unfold index_ok in Hi. unfold cetcd_raft_compact. cbv zeta.
  destruct (Z.eqb_spec i 0); [lia|].
  destruct (Z.ltb_spec i (r_log_compacted r)); cbn [orb]; [done|]. case_match; [done|].
  change (zero_entry <| e_term := t |> <| e_index := i |> <| e_type := CETCD_ENTRY_NORMAL |>)
    with (mk_entry t i CETCD_ENTRY_NORMAL []).
  destruct (log_append_fields r (mk_entry t i CETCD_ENTRY_NORMAL [])) as (_ & Ei & _). cbn in Ei.
  rewrite Ei. destruct (Z.ltb_spec (Z.max (r_log_last_index r) i) i); [lia|]. reflexivity.
Qed.

(** Compaction.  [cetcd_raft_compact] refuses an index behind the current
    boundary or beyond a non-empty log and then changes nothing; otherwise the
    boundary becomes [i], where an empty entry of the given term stands, every
    later entry is unchanged, nothing earlier is readable, and the log
    invariant is kept. *)
Theorem compact_spec r i t :
  log_ok r -> index_ok i -> (i = r_log_last_index r -> t = r_log_last_term r) ->
  if (i <? r_log_compacted r) || negb (r_log_last_index r =? 0) && (r_log_last_index r <? i)
  then cetcd_raft_compact r i t = (r, -1)
  else exists r', cetcd_raft_compact r i t = (r', 0) /\ log_ok r' /\
    r_log_compacted r' = i /\ r_log_last_index r' = Z.max (r_log_last_index r) i /\
    forall j, log_at_ r' j = if j <? i then None
                             else if j =? i then Some (mk_entry t i CETCD_ENTRY_NORMAL [])
                             else log_at_ r j.
Proof.
  intros Hok Hi Ht. pose proof (compact_cases_ok r i t Hok Hi) as Hc. case_match eqn:Eg; [done|].
  apply orb_false_iff in Eg as [Eg1%Z.ltb_ge Eg2]. assert (Hli : i <= r_log_last_index r \/ r_log_last_index r = 0).
  { apply andb_false_iff in Eg2 as [E%negb_false_iff%Z.eqb_eq|E%Z.ltb_ge]; lia. }
  eexists. split; [exact Hc|]. unfold index_ok in Hi.
  split; [by apply (compacted_ok r (mk_entry t i CETCD_ENTRY_NORMAL []))|]. split; [done|].
  split; [apply (log_append_fields r (mk_entry t i CETCD_ENTRY_NORMAL []))|].
  intros j. apply (compacted_log_at r (mk_entry t i CETCD_ENTRY_NORMAL [])); cbn; lia.
Qed.

Lemma compact_spec_witness :
  exists r', cetcd_raft_compact follower3 2 1 = (r', 0) /\ log_ok r' /\
    r_log_compacted r' = 2 /\ r_log_last_index r' = Z.max 3 2 /\
    forall j, log_at_ r' j = if j <? 2 then None
                             else if j =? 2 then Some (mk_entry 1 2 CETCD_ENTRY_NORMAL [])
                             else log_at_ follower3 j.
Proof.
  apply (compact_spec follower3 2 1 follower3_ok).
  - split; reflexivity.
  - intros H. vm_compute in H. discriminate.
Defined.

(** ** The step function and the log *)

Lemma lkey_leader_append r typ d :
  lkey (leader_append_ r typ d) =
  lkey (log_append_ r (mk_entry (r_term r) (u64 (r_log_last_index r + 1)) typ d)) \/
  r_log_last_index r + 1 >= 18446744073709551616 \/ r_log_last_index r < 0.
Proof.
  destruct (decide (0 <= r_log_last_index r /\ r_log_last_index r + 1 < 18446744073709551616)) as [Hr|]; [left|right; lia].
  destruct (core_leader_append r typ d) as (r1 & E & ->). rewrite lkey_advance, (lkey_core _ _ E).
  unfold lkey, log_append_. cbv zeta. cbn [e_index e_term].
  rewrite (u64_small (r_log_last_index r + 1)) by (unfold in_u64; lia).
  set (needed := u64 _). cbn -[u64 grow_log_cap]. fold needed.
  destruct (r_log_cap r <? needed); cbn -[u64 grow_log_cap];
    destruct (Z.ltb_spec (r_log_last_index r + 1) (r_log_last_index r + 1)), (Z.ltb_spec (r_log_last_index r) (r_log_last_index r + 1)); try lia; reflexivity.
Qed.

Lemma leader_append_log r typ d : log_ok r -> r_log_last_index r + 1 < 4294967295 ->
  let r' := leader_append_ r typ d in
  let idx := r_log_last_index r + 1 in
  log_ok r' /\ r_log_compacted r' = r_log_compacted r /\ r_log_last_index r' = idx /\
  forall i, log_at_ r' i = if i =? idx then Some (mk_entry (r_term r) idx typ d) else log_at_ r i.
Proof.
  intros Hok Hb r' idx. subst r'. pose proof (lo_last r Hok). pose proof (lo_compacted r Hok).
  destruct (lkey_leader_append r typ d) as [E|[E|E]]; [|lia|lia].
  rewrite u64_small in E by (unfold in_u64; lia). fold idx in E.
  set (e := mk_entry (r_term r) idx typ d) in *.
  assert (Hi : index_ok (e_index e)) by (unfold index_ok; cbn; lia).
  assert (Hr : r_log_compacted r <= e_index e <= r_log_last_index r + 1) by (cbn; lia).
  assert (Hok' : log_ok (log_append_ r e)) by (apply log_append_ok; [done|done|done|cbn; lia]).
  destruct (log_append_fields r e) as (_ & El & _ & Ek). cbn in El.
  pose proof E as E'. unfold lkey in E'. injection E' as _ _ El' _ Ek'.
  split; [by apply (log_ok_lkey _ _ (eq_sym E))|]. split; [congruence|]. split; [lia|].
  intros i. rewrite (log_at_lkey _ _ _ E). rewrite log_at_append by (done || (cbn; lia)). done.
Qed.

(** Bounds on a message, and the coherence with the node's log that an honest
    leader of the protocol provides: an App starts at or after the compaction
    point, and a snapshot that ends at the node's last index has its term. *)
Definition msg_fits (r : cetcd_raft) (m : cetcd_msg) : Prop :=
  match m_type m with
  | CETCD_MSG_APP => r_log_compacted r <= m_index m /\ m_index m + blen (m_entries m) < 4294967295
  | CETCD_MSG_SNAP => 0 <= m_snapshot m < 4294967295 /\
      (m_snapshot m = r_log_last_index r -> m_log_term m = r_log_last_term r)
  | CETCD_MSG_PROP => r_log_last_index r + 1 < 4294967295
  | _ => True
  end.

(** Handlers that leave the log alone. *)
Definition log_message (t : cetcd_msg_type) : bool :=
  match t with CETCD_MSG_APP | CETCD_MSG_SNAP | CETCD_MSG_PROP => true | _ => false end.

Lemma lkey_foldl {A} (f : cetcd_raft -> A -> cetcd_raft) l r :
  (forall r x, lkey (f r x) = lkey r) -> lkey (foldl f r l) = lkey r.
Proof. intros Hf. revert r; induction l as [|x l IH]; intros r; cbn [foldl]; [done|]. by rewrite IH. Qed.

Lemma step_lkey r m : log_message (m_type m) = false -> lkey (cetcd_raft_step r m).1 = lkey r.
Proof.
  intros Hm. unfold cetcd_raft_step. destruct (m_type m); try done.
  - repeat case_match; cbn [fst]; by autorewrite with lkey.
  - case_match; [done|]. cbn [fst]. apply lkey_foldl. intros. apply lkey_core, core_beat_peer.
  - unfold handle_app_resp_. cbv zeta. repeat case_match; cbn [fst]; by autorewrite with lkey.
  - unfold handle_vote_. cbv zeta. fold (adopt_term r (m_term m) 0).
    case_match; [done|]. rewrite <- (lkey_adopt r (m_term m) 0). by case_match.
  - unfold handle_vote_resp_. cbv zeta. repeat case_match; cbn [fst]; by autorewrite with lkey.
  - unfold handle_heartbeat_. cbv zeta. fold (adopt_term r (m_term m) (m_from m)).
    fold (step_down (adopt_term r (m_term m) (m_from m)) (m_term m) (m_from m)).
    case_match; [done|]. cbn [fst]. autorewrite with lkey.
    rewrite <- (lkey_adopt r (m_term m) (m_from m)). apply (lkey_step_down _ (m_term m) (m_from m)).
  - unfold handle_snap_status_. cbv zeta. repeat case_match; cbn [fst]; by autorewrite with lkey.
  - by case_match.
  - case_match; [done|]. cbn [fst]. by autorewrite with lkey.
  - unfold handle_pre_vote_resp_. cbv zeta. repeat case_match; cbn [fst]; by autorewrite with lkey.
Qed.

Lemma handle_app_log_ok r m : log_ok r ->
  r_log_compacted r <= m_index m -> m_index m + blen (m_entries m) < 4294967295 ->
  log_ok (handle_app_ r m).1.
Proof.
  intros Hok Hc Hb. pose proof (lo_compacted r Hok). pose proof (lo_last r Hok).
  unfold handle_app_. cbv zeta. fold (adopt_term r (m_term m) (m_from m)).
  fold (step_down (adopt_term r (m_term m) (m_from m)) (m_term m) (m_from m)).
  fold (following r (m_term m) (m_from m)).
  destruct (Z.ltb_spec (m_term m) (r_term r)); [by apply (log_ok_lkey r)|].
  destruct (following_facts r (m_term m) (m_from m) ltac:(lia)) as (Ek & _).
  revert Ek. generalize (following r (m_term m) (m_from m)). intros r1 Ek.
  assert (Hok1 : log_ok r1) by (by apply (log_ok_lkey r)). unfold lkey in Ek. injection Ek as _ _ El _ Ec.
  destruct (Z.ltb_spec 0 (m_index m)), (Z.ltb_spec (r_log_last_index r1) (m_index m)); cbn [andb fst];
    try (by apply (log_ok_lkey r1)); [case_match; cbn [fst]; [by apply (log_ok_lkey r1)|]|lia|];
    (eapply log_ok_lkey; [symmetry; rewrite lkey_queue_msg, lkey_follow_commit; reflexivity|];
     apply app_entries_log; [done|lia|lia|lia]).
Qed.

Lemma handle_snap_log r m : log_ok r -> 0 <= m_snapshot m < 4294967295 ->
  (m_snapshot m = r_log_last_index r -> m_log_term m = r_log_last_term r) ->
  log_ok (handle_snap_ r m).1.
Proof.
  intros Hok Hb Ht. unfold handle_snap_. cbv zeta. fold (adopt_term r (m_term m) (m_from m)).
  assert (Ek0 := lkey_adopt r (m_term m) (m_from m)). revert Ek0.
  generalize (adopt_term r (m_term m) (m_from m)). intros r0 Ek0.
  fold (step_down r0 (r_term r0) (m_from m)).
  destruct (m_term m <? r_term r); [done|].
  destruct (Z.eqb_spec (m_snapshot m) 0); [by apply (log_ok_lkey r)|].
  set (r1 := _ <| r_leader_id := m_from m |> <| r_elapsed_ticks := 0 |>).
  assert (Ek1 : lkey r1 = lkey r) by (rewrite <- Ek0; apply (lkey_step_down r0 (r_term r0) (m_from m))).
  clearbody r1. assert (Hok1 : log_ok r1) by (by apply (log_ok_lkey r)).
  unfold lkey in Ek1. injection Ek1 as _ _ El Et _.
  destruct (if r_log_compacted r1 <? m_snapshot m then _ else _) as [r2 rc] eqn:E.
  assert (Hok2 : log_ok r2).
  { case_match; [|by injection E as <- <-].
    pose proof (compact_cases_ok r1 (m_snapshot m) (m_log_term m) Hok1 ltac:(unfold index_ok; lia)) as Hc.
    case_match eqn:Eg; rewrite Hc in E; injection E as <- <-; [done|].
    apply orb_false_iff in Eg as [Eg1%Z.ltb_ge Eg2].
    apply (compacted_ok r1 (mk_entry (m_log_term m) (m_snapshot m) CETCD_ENTRY_NORMAL [])); cbn;
      [done|unfold index_ok; lia|lia| |rewrite El, Et; exact Ht].
    apply andb_false_iff in Eg2 as [Eg2%negb_false_iff%Z.eqb_eq|Eg2%Z.ltb_ge]; lia. }
  clear E. destruct (negb (rc =? 0)); cbn [fst]; [by apply (log_ok_lkey r2)|].
  apply (log_ok_lkey r2); [|done]. by repeat case_match.
Qed.

(** The log invariant is kept by every message.  Starting from a log whose
    indexes lie inside the allocated array, with every retained slot filled and
    [log_last_term] the term of the last one, handling any message leaves such
    a log, as long as indexes fit the 32-bit capacity counter, an App does not
    start before the compaction point and a snapshot agrees with the log at its
    own last index. *)
Theorem step_log_ok r m : log_ok r -> msg_fits r m -> log_ok (cetcd_raft_step r m).1.
Proof.
  intros Hok Hm. destruct (log_message (m_type m)) eqn:E.
  - unfold msg_fits, cetcd_raft_step in *. destruct (m_type m); try discriminate E; clear E.
    + case_match; [done|]. by apply leader_append_log.
    + apply handle_app_log_ok; tauto.
    + apply handle_snap_log; tauto.
  - apply (log_ok_lkey r); [|done]. by rewrite step_lkey.
Qed.

Lemma step_log_ok_witness : log_ok (cetcd_raft_step follower3 (app_from_1 1 1)).1.
Proof.
  apply step_log_ok; [exact follower3_ok|]. split; vm_compute; [congruence|reflexivity].
Defined.

Lemma role_econf r r' : econf r = econf r' -> r_role r = r_role r'.
Proof. unfold econf. congruence. Qed.

Lemma lkey_eq_or_append r m :
  r_role r = ROLE_LEADER -> r_role (cetcd_raft_step r m).1 = ROLE_LEADER ->
  (m_type m <> CETCD_MSG_PROP /\ lkey (cetcd_raft_step r m).1 = lkey r) \/
  (m_type m = CETCD_MSG_PROP /\
   (cetcd_raft_step r m).1 = leader_append_ r CETCD_ENTRY_NORMAL (m_context m)).
Proof.
  intros Hl. destruct (log_message (m_type m)) eqn:E.
  2:{ intros _. left. split; [by destruct (m_type m)|by apply step_lkey]. }
  unfold cetcd_raft_step. destruct (m_type m) eqn:Em; try discriminate E; clear E.
  - intros _. right. by rewrite Hl.
  - intros Hl'. left. split; [done|]. revert Hl'.
    unfold handle_app_. cbv zeta. fold (adopt_term r (m_term m) (m_from m)).
    fold (step_down (adopt_term r (m_term m) (m_from m)) (m_term m) (m_from m)).
    fold (following r (m_term m) (m_from m)).
    destruct (Z.ltb_spec (m_term m) (r_term r)); [done|].
    destruct (following_facts r (m_term m) (m_from m) ltac:(lia)) as (_ & _ & Er & _).
    revert Er. generalize (following r (m_term m) (m_from m)). intros r1 Er Hl'. exfalso.
    assert (He : r_role r1 = ROLE_LEADER); [|congruence].
    rewrite <- Hl'. symmetry. repeat case_match; try reflexivity; apply role_econf; cbn [fst]; by autorewrite with econf.
  - intros Hl'. left. split; [done|]. revert Hl'.
    unfold handle_snap_. cbv zeta. fold (adopt_term r (m_term m) (m_from m)).
    assert (Ek0 := lkey_adopt r (m_term m) (m_from m)). revert Ek0.
    generalize (adopt_term r (m_term m) (m_from m)). intros r0 Ek0.
    fold (step_down r0 (r_term r0) (m_from m)).
    case_match; [done|]. case_match; [done|].
    set (r1 := _ <| r_leader_id := m_from m |> <| r_elapsed_ticks := 0 |>).
    assert (Hro : r_role r1 = ROLE_FOLLOWER) by apply (step_down_role r0 (r_term r0) (m_from m)). clearbody r1.
    destruct (if r_log_compacted r1 <? m_snapshot m then _ else _) as [r2 rc] eqn:E.
    assert (Hec : econf r2 = econf r1).
    { case_match; [|injection E as <- <-; done].
      replace r2 with (cetcd_raft_compact r1 (m_snapshot m) (m_log_term m)).1 by (by rewrite E).
      apply econf_compact. }
    apply role_econf in Hec. intros Hl'. exfalso. assert (He : r_role r2 = ROLE_LEADER); [|congruence].
    rewrite <- Hl'. symmetry. by repeat case_match.
Qed.

(** A leader only appends.  If a node is leader before and after handling
    a message, every entry of its log is still there and no entry is replaced;
    a proposal adds exactly one entry, of the leader's term, at the end. *)
Theorem leader_append_only r m :
  log_ok r -> r_log_last_index r + 1 < 4294967295 ->
  r_role r = ROLE_LEADER -> r_role (cetcd_raft_step r m).1 = ROLE_LEADER ->
  let r' := (cetcd_raft_step r m).1 in
  let last := r_log_last_index r in
  (forall i, i <= last -> log_at_ r' i = log_at_ r i) /\
  match m_type m with
  | CETCD_MSG_PROP =>
      r_log_last_index r' = last + 1 /\
      log_at_ r' (last + 1) = Some (mk_entry (r_term r) (last + 1) CETCD_ENTRY_NORMAL (m_context m))
  | _ => r_log_last_index r' = last
  end.
Proof.
  intros Hok Hb Hl Hl' r' last. subst r'.
  destruct (lkey_eq_or_append r m Hl Hl') as [[Hm E]|[Hm E]].
  - split; [intros i _; by apply log_at_lkey|]. unfold lkey in E. injection E as _ _ El _ _.
    by destruct (m_type m).
  - rewrite Hm. rewrite E. destruct (leader_append_log r CETCD_ENTRY_NORMAL (m_context m) Hok Hb) as (_ & _ & Hx & Ha).
    split; [|split; [done|]].
    + intros i Hi. rewrite Ha. subst last. destruct (Z.eqb_spec i (r_log_last_index r + 1)); [lia|done].
    + rewrite Ha. subst last. by rewrite Z.eqb_refl.
Qed.

Lemma leader_append_only_witness :
  let r := follower3 <| r_role := ROLE_LEADER |> in
  let m := zero_msg <| m_type := CETCD_MSG_PROP |> <| m_context := [7] |> in
  log_at_ (cetcd_raft_step r m).1 4 = Some (mk_entry 1 4 CETCD_ENTRY_NORMAL [7]).
Proof.
  intros r m. destruct (leader_append_only r m) as (_ & _ & H).
  - by apply (log_ok_lkey follower3), follower3_ok.
  - vm_compute. reflexivity.
  - reflexivity.
  - vm_compute. reflexivity.
  - exact H.
Defined.
