(* ===== verification/RaftMember.v ===== *)
(** * Membership of the raft node: peer arrays, progress slots, joint consensus

    [peers_ok] bounds every array the membership code writes.  The theorems
    show that the configuration operations keep it, that removing a peer keeps
    the replication progress of every other peer, and that the joint phase
    makes elections of the old and of the new configuration overlap. *)

From S2P Require Import Prelude Raft RaftState RaftQuorum.

(** ** Array bounds *)

Record peers_ok (r : cetcd_raft) : Prop := mk_peers_ok {
  po_nodup : NoDup (r_peers r);
  po_learner : length (r_peer_learner r) = length (r_peers r);
  po_cap : blen (r_peers r) <= r_peers_cap r < 4294967296;
  po_votes : blen (r_votes_granted r) <= r_peers_cap r;
  po_votes_nodup : NoDup (r_votes_granted r);
  po_room : 1 <= r_peers_cap r;
  po_progress : length (r_progress r) = MAX_PEERS_;
  po_outgoing : (length (r_outgoing r) <= MAX_PEERS_)%nat
}.

(** What [peers_ok] depends on. *)
Definition pkey (r : cetcd_raft) :=
  (r_peers r, r_peer_learner r, r_peers_cap r, r_votes_granted r, length (r_progress r), r_outgoing r).

Lemma peers_ok_pkey r r' : pkey r = pkey r' -> peers_ok r -> peers_ok r'.
Proof.
  unfold pkey. intros [= E1 E2 E3 E4 E5 E6] [H1 H2 H3 H4 H5 H6 H7 H8].
  split; rewrite <- ?E1, <- ?E2, <- ?E3, <- ?E4, <- ?E5, <- ?E6; done.
Qed.

Lemma has_peer_spec r id : has_peer_ r id = true <-> id ∈ r_peers r.
Proof.
  unfold has_peer_. rewrite existsb_exists. setoid_rewrite <- list_elem_of_In.
  split; [intros (x & Hx & E%Z.eqb_eq); by subst|]. intros H. exists id. by rewrite Z.eqb_refl.
Qed.

Lemma vote_from_spec r id : vote_from_ r id = true <-> id ∈ r_votes_granted r.
Proof.
  unfold vote_from_. rewrite existsb_exists. setoid_rewrite <- list_elem_of_In.
  split; [intros (x & Hx & E%Z.eqb_eq); by subst|]. intros H. exists id. by rewrite Z.eqb_refl.
Qed.

Lemma add_peer_ok r id l : peers_ok r -> blen (r_peers r) < 2147483648 -> peers_ok (add_peer_ r id l).
Proof.
  intros [H1 H2 H3 H4 H5 H6 H7 H8] Hn. unfold add_peer_. cbv zeta.
  destruct (has_peer_ r id) eqn:Eh; [by split|].
  assert (Hid : id ∉ r_peers r) by (intros Hin%has_peer_spec; congruence).
  set (r1 := if r_peers_cap r <=? _ then _ else r).
  assert (Hr1 : r_peers r1 = r_peers r /\ r_peer_learner r1 = r_peer_learner r /\
    r_votes_granted r1 = r_votes_granted r /\ r_progress r1 = r_progress r /\ r_outgoing r1 = r_outgoing r /\
    blen (r_peers r) < r_peers_cap r1 < 4294967296 /\ r_peers_cap r <= r_peers_cap r1).
  { subst r1. unfold n_peers, blen in *. destruct (Z.leb_spec (r_peers_cap r) (Z.of_nat (length (r_peers r)))); [|split_and!; done || lia].
    cbn. split_and!; try done; (destruct (Z.eqb_spec (r_peers_cap r) 0); [lia|]; rewrite u32_small by (unfold in_u32; lia); lia). }
  clearbody r1. destruct Hr1 as (E1 & E2 & E3 & E4 & E5 & Hc & Hle).
  assert (Hk : forall (r2 : cetcd_raft), pkey r2 = (r_peers r ++ [id], r_peer_learner r ++ [l], r_peers_cap r1,
     r_votes_granted r, MAX_PEERS_, r_outgoing r) -> peers_ok r2).
  { intros r2. unfold pkey. intros [= F1 F2 F3 F4 F5 F6].
    split; rewrite ?F1, ?F2, ?F3, ?F4, ?F5, ?F6; rewrite ?blen_app, ?length_app; try done; try (unfold blen in *; cbn; lia).
    apply NoDup_app. split_and!; [done| |apply NoDup_singleton].
    intros x Hx ->%list_elem_of_singleton. done. }
  apply Hk. case_match; unfold pkey, set_progress; cbn; rewrite ?length_insert, ?E1, ?E2, ?E3, ?E4, ?E5, ?H7; done.
Qed.

(** ** Finding and removing a peer *)

Lemma find_peer_Some l id i bound k : find_peer l id i bound = Some k ->
  exists j, k = (i + j)%nat /\ l !! j = Some id /\ (k < bound)%nat.
Proof.
  revert i; induction l as [|p l IH]; intros i; cbn [find_peer]; [done|].
  destruct (Nat.ltb_spec i bound); [|done]. destruct (Z.eqb_spec p id) as [->|].
  - intros [= <-]. exists 0%nat. cbn. split_and!; [lia|done|done].
  - intros (j & -> & Hj & Hb)%IH. exists (S j). split_and!; [lia|done|lia].
Qed.

Lemma find_peer_NoDup l id i bound j : NoDup l -> l !! j = Some id -> (i + j < bound)%nat ->
  find_peer l id i bound = Some (i + j)%nat.
Proof.
  intros Hnd. revert i j; induction Hnd as [|p l Hp Hnd IH]; intros i j Hj Hb; [done|]. cbn [find_peer].
  destruct (Nat.ltb_spec i bound); [|lia].
  destruct j as [|j]; cbn in Hj.
  - injection Hj as ->. rewrite Z.eqb_refl. f_equal. lia.
  - destruct (Z.eqb_spec p id) as [->|]; [exfalso; apply Hp, list_elem_of_lookup; eauto|].
    rewrite (IH (S i) j) by (done || lia). f_equal. lia.
Qed.

Lemma find_peer_is_Some l id i bound : NoDup l -> id ∈ l -> (i + length l <= bound)%nat ->
  exists j, find_peer l id i bound = Some (i + j)%nat /\ l !! j = Some id.
Proof.
  intros Hnd [j Hj]%list_elem_of_lookup Hb. exists j. split; [|done].
  apply find_peer_NoDup; [done|done|]. apply lookup_lt_Some in Hj. lia.
Qed.

(** The loop that closes the gap in [progress]. *)
Definition shift_progress (p : list peer_progress_) (j : nat) : list peer_progress_ :=
  if (j <? MAX_PEERS_)%nat then <[(j - 1)%nat := default zero_progress (p !! j)]> p else p.

Lemma shift_progress_length p js : length (foldl shift_progress p js) = length p.
Proof.
  revert p; induction js as [|j js IH]; intros p; cbn [foldl]; [done|]. rewrite IH.
  unfold shift_progress. case_match; [apply length_insert|done].
Qed.

Lemma shift_progress_lookup p i k j : length p = MAX_PEERS_ ->
  foldl shift_progress p (seq (S i) k) !! j =
  if (i <=? j)%nat && (j <? i + k)%nat && (S j <? MAX_PEERS_)%nat then p !! S j else p !! j.
Proof.
  intros Hp. revert j; induction k as [|k IH]; intros j.
  { cbn [seq foldl]. destruct (Nat.leb_spec i j), (Nat.ltb_spec j (i + 0)); try lia; done. }
  rewrite seq_S, foldl_app. cbn [foldl]. unfold shift_progress at 1.
  replace (S i + k - 1)%nat with (i + k)%nat by lia. rewrite (IH (S i + k)%nat).
  pose proof (shift_progress_length p (seq (S i) k)) as Hl.
  destruct (Nat.ltb_spec (S i + k) MAX_PEERS_) as [Hlt|Hge].
  - destruct (decide (j = i + k)%nat) as [->|Hne].
    + rewrite list_lookup_insert, decide_True by (rewrite Hl, Hp; lia).
      destruct (Nat.ltb_spec (S i + k) (i + k)); [lia|]. rewrite andb_false_r. cbn [andb].
      destruct (Nat.leb_spec i (i + k)), (Nat.ltb_spec (i + k) (i + S k)), (Nat.ltb_spec (S (i + k)) MAX_PEERS_); try lia.
      cbn [andb]. change (S i + k)%nat with (S (i + k)).
      destruct (p !! S (i + k)) eqn:E; [done|]. apply lookup_ge_None in E. lia.
    + rewrite list_lookup_insert_ne by done. rewrite IH.
      destruct (Nat.leb_spec i j), (Nat.ltb_spec j (i + k)), (Nat.ltb_spec j (i + S k)); try lia; done.
  - rewrite IH. destruct (Nat.leb_spec i j), (Nat.ltb_spec j (i + k)), (Nat.ltb_spec j (i + S k)), (Nat.ltb_spec (S j) MAX_PEERS_);
      cbn [andb]; try done; lia.
Qed.

Lemma remove_peer_cases r id : NoDup (r_peers r) -> id <> 0 -> id <> r_id r -> id ∈ r_peers r ->
  exists i, r_peers r !! i = Some id /\
    cetcd_raft_remove_peer r id =
      (r <| r_progress := foldl shift_progress (r_progress r) (seq (S i) (n_peers r - S i)) |>
         <| r_peers := delete i (r_peers r) |> <| r_peer_learner := delete i (r_peer_learner r) |>, 0).
Proof.
  intros Hnd H0 Hid Hin. destruct (find_peer_is_Some (r_peers r) id 0 (n_peers r) Hnd Hin ltac:(unfold n_peers; lia)) as (i & Hf & Hi).
  exists i. split; [done|]. unfold cetcd_raft_remove_peer. rewrite Hf.
  destruct (Z.eqb_spec id 0), (Z.eqb_spec id (r_id r)); try done.
Qed.

(** Removing a peer keeps the others.  In a configuration of at most
    [MAX_PEERS_] peers, removing one (other than the node itself) takes exactly
    that id out of the peer list, and every other peer keeps its replication
    progress and its voter or learner flag although all arrays are shifted. *)
Theorem remove_peer_keeps_others r id q :
  peers_ok r -> (n_peers r <= MAX_PEERS_)%nat -> id <> 0 -> id <> r_id r ->
  id ∈ r_peers r -> q ∈ r_peers r -> q <> id ->
  let r' := (cetcd_raft_remove_peer r id).1 in
  (cetcd_raft_remove_peer r id).2 = 0 /\ id ∉ r_peers r' /\ S (n_peers r') = n_peers r /\
  exists k k', peer_slot_ r q = Some k /\ peer_slot_ r' q = Some k' /\
    progress_at r' k' = progress_at r k /\ peer_is_learner_ r' k' = peer_is_learner_ r k.
Proof.
  intros Hok Hn H0 Hid Hin Hq Hne r'. subst r'. unfold n_peers in Hn.
  destruct (remove_peer_cases r id (po_nodup r Hok) H0 Hid Hin) as (i & Hi & ->). cbn [fst snd].
  pose proof (lookup_lt_Some _ _ _ Hi) as Hlt.
  assert (Hnd : NoDup (delete i (r_peers r))) by (eapply sublist_NoDup; [apply po_nodup, Hok|apply sublist_delete]).
  split; [done|]. split.
  { cbn. intros [j Hj]%list_elem_of_lookup. pose proof (po_nodup r Hok) as HN. rewrite list.NoDup_alt in HN.
    destruct (decide (j < i)%nat).
    - rewrite list_lookup_delete_lt in Hj by done. pose proof (HN _ _ _ Hi Hj). lia.
    - rewrite list_lookup_delete_ge in Hj by lia. pose proof (HN _ _ _ Hi Hj). lia. }
  split; [unfold n_peers; cbn; rewrite length_delete by eauto; lia|].
  apply list_elem_of_lookup in Hq as [k Hk]. pose proof (lookup_lt_Some _ _ _ Hk) as Hkl.
  assert (Hki : k <> i) by congruence.
  set (k' := if (k <? i)%nat then k else (k - 1)%nat).
  assert (Hk' : delete i (r_peers r) !! k' = Some q /\ delete i (r_peer_learner r) !! k' = r_peer_learner r !! k /\ (k' < length (r_peers r) - 1)%nat).
  { subst k'. destruct (Nat.ltb_spec k i).
    - rewrite !list_lookup_delete_lt by lia. split_and!; [done|done|lia].
    - rewrite !list_lookup_delete_ge by lia. replace (S (k - 1)) with k by lia. split_and!; [done|done|lia]. }
  destruct Hk' as (Hkq & Hkl' & Hkb).
  exists k, k'. unfold peer_slot_. split; [by apply (find_peer_NoDup _ _ 0 _ k); [apply po_nodup|done|lia]|].
  split; [apply (find_peer_NoDup _ _ 0 _ k'); [done|exact Hkq|lia]|]. split.
  - unfold progress_at. cbn. rewrite shift_progress_lookup by apply (po_progress r Hok).
    f_equal. unfold n_peers. subst k'. destruct (Nat.ltb_spec k i).
    + destruct (Nat.leb_spec i k); [lia|done].
    + destruct (Nat.leb_spec i (k - 1)), (Nat.ltb_spec (k - 1) (i + (length (r_peers r) - S i))), (Nat.ltb_spec (S (k - 1)) MAX_PEERS_); try lia.
      cbn [andb]. by replace (S (k - 1)) with k by lia.
  - unfold peer_is_learner_, n_peers. cbn [r_peers r_peer_learner field_set]. rewrite Hkl', length_delete by eauto.
    destruct (Nat.ltb_spec k' (length (r_peers r) - 1)), (Nat.ltb_spec k (length (r_peers r))); try lia. done.
Qed.

(** A full-sized progress array for the leader of the examples. *)
Definition leader3_full : cetcd_raft :=
  leader3 <| r_progress := r_progress leader3 ++ replicate 13 zero_progress |>.

Lemma leader3_full_ok : peers_ok leader3_full.
Proof.
  split; vm_compute; try reflexivity; try (split; congruence); try congruence; try lia.
  - repeat constructor; set_solver.
  - repeat constructor; set_solver.
Qed.

Lemma remove_peer_keeps_others_witness :
  exists k k', peer_slot_ leader3_full 3 = Some k /\ peer_slot_ (cetcd_raft_remove_peer leader3_full 2).1 3 = Some k' /\
    progress_at (cetcd_raft_remove_peer leader3_full 2).1 k' = progress_at leader3_full k /\
    peer_is_learner_ (cetcd_raft_remove_peer leader3_full 2).1 k' = peer_is_learner_ leader3_full k.
Proof.
  apply (remove_peer_keeps_others leader3_full 2 3 leader3_full_ok); try discriminate.
  - vm_compute. lia.
  - apply elem_of_cons. right. apply elem_of_cons. by left.
  - apply elem_of_cons. right. apply elem_of_cons. right. apply elem_of_cons. by left.
Defined.

(** ** Joint consensus *)

(** Entering the joint phase.  [cetcd_raft_enter_joint] records the current
    voters as the outgoing configuration; from then on, whatever is done to the
    incoming one, an election won under the joint rule and an election won by a
    node still on the old configuration have a voter of the old configuration
    in common. *)
Theorem enter_joint_overlap r r1 r2 :
  (cetcd_raft_enter_joint r).2 = 0 ->
  incoming_ r1 = incoming_ r -> vote_quorum_ok_ r1 = true ->
  r_outgoing r2 = r_outgoing (cetcd_raft_enter_joint r).1 -> vote_quorum_ok_ r2 = true ->
  exists v, v ∈ incoming_ r /\ vote_from_ r1 v = true /\ vote_from_ r2 v = true.
Proof.
  unfold cetcd_raft_enter_joint. cbv zeta. case_match; [done|].
  destruct (Z.eqb_spec (blen (incoming_ r)) 0) as [|Hne]; [done|]. cbn [fst snd].
  intros _ E1 [M1 _]%vote_quorum_majority E2 [_ J2]%vote_quorum_majority.
  rewrite E1 in M1. change (r_outgoing r2 = incoming_ r) in E2. rewrite E2 in J2.
  destruct J2 as [J2|J2]; [by rewrite J2 in Hne|].
  by apply majority_overlap.
Qed.

Lemma enter_joint_overlap_witness :
  exists v, v ∈ incoming_ candidate3 /\ vote_from_ (candidate3 <| r_votes_granted := [1; 2] |>) v = true /\
    vote_from_ (candidate3 <| r_outgoing := [1; 2; 3] |> <| r_peers := [1; 2; 3; 4] |>
                  <| r_votes_granted := [2; 3; 4] |>) v = true.
Proof.
  apply (enter_joint_overlap candidate3); vm_compute; reflexivity.
Defined.

(** ** The array bounds are kept *)

Lemma pkey_core r r' : core r = core r' -> length (r_progress r) = length (r_progress r') -> pkey r = pkey r'.
Proof.
  intros E El. unfold pkey. rewrite El.
  assert (H : (r_peers r, r_peer_learner r, r_peers_cap r, r_votes_granted r, r_outgoing r) =
              (r_peers r', r_peer_learner r', r_peers_cap r', r_votes_granted r', r_outgoing r'))
    by core_proj (fun r => (r_peers r, r_peer_learner r, r_peers_cap r, r_votes_granted r, r_outgoing r)) E.
  congruence.
Qed.

Lemma pkey_progress r i p : pkey (set_progress r i p) = pkey r.
Proof. apply pkey_core; [done|]. apply length_insert. Qed.

Lemma plen_bkey r r' : bkey r = bkey r' -> length (r_progress r) = length (r_progress r').
Proof. intros [_ H]%pair_eq. apply (f_equal length) in H. by rewrite !length_fmap in H. Qed.

Lemma pkey_bkey r r' : bkey r = bkey r' -> pkey r = pkey r'.
Proof. intros H. pose proof (proj1 (pair_eq _ _ _ _) H) as [E _]. by apply pkey_core, plen_bkey. Qed.

Lemma pkey_foldl {A} (f : cetcd_raft -> A -> cetcd_raft) l r :
  (forall r x, pkey (f r x) = pkey r) -> pkey (foldl f r l) = pkey r.
Proof. intros Hf. revert r; induction l as [|x l IH]; intros r; cbn [foldl]; [done|]. by rewrite IH. Qed.

Lemma pkey_send_app r i : pkey (maybe_send_app_ r i) = pkey r.
Proof. apply pkey_bkey, bkey_send_app. Qed.
Lemma pkey_send_snap r i : pkey (maybe_send_snap_ r i) = pkey r.
Proof. apply pkey_bkey, bkey_send_snap. Qed.
Lemma pkey_advance r : pkey (maybe_advance_commit_ r) = pkey r.
Proof. by destruct (advance_commit_cases r) as [->|(c & _ & _ & ->)]. Qed.
Lemma pkey_become_leader r : pkey (become_leader_ r) = pkey r.
Proof.
  unfold become_leader_. cbv zeta.
  match goal with |- pkey (foldl ?f ?r1 ?l) = _ => transitivity (pkey r1); [|done]; apply (pkey_foldl f) end.
  intros. apply pkey_progress.
Qed.
Lemma pkey_queue_msg r m : pkey (queue_msg_ r m) = pkey r.
Proof. done. Qed.
Lemma pkey_queue_entry r m : pkey (queue_entry_ r m) = pkey r.
Proof. done. Qed.
Lemma pkey_queue_hs r : pkey (queue_hard_state_ r) = pkey r.
Proof. done. Qed.
Lemma pkey_broadcast r : pkey (leader_broadcast_heartbeat_ r) = pkey r.
Proof. unfold leader_broadcast_heartbeat_. case_match; [done|]. apply pkey_foldl. intros r0 x. by case_match. Qed.
Lemma pkey_vote_requests r a t : pkey (send_vote_requests_ r a t) = pkey r.
Proof. apply pkey_foldl. intros r0 x. by case_match. Qed.
Lemma pkey_follower r t l : pkey (become_follower_ r t l) = pkey r.
Proof. unfold become_follower_. by case_match. Qed.
Lemma pkey_adopt r t l : pkey (adopt_term r t l) = pkey r.
Proof. unfold adopt_term. case_match; [apply pkey_follower|done]. Qed.
Lemma pkey_step_down r t l : pkey (step_down r t l) = pkey r.
Proof. unfold step_down. case_match; [done|apply pkey_follower]. Qed.
Lemma pkey_log_append r e : pkey (log_append_ r e) = pkey r.
Proof. unfold log_append_. cbv zeta. by repeat case_match. Qed.
Lemma pkey_truncate r i : pkey (log_truncate_after_ r i) = pkey r.
Proof. unfold log_truncate_after_. cbv zeta. by repeat case_match. Qed.
Lemma pkey_follow_commit r c : pkey (follow_commit_ r c) = pkey r.
Proof. unfold follow_commit_. cbv zeta. by repeat case_match. Qed.
Lemma pkey_app_entries l r i : pkey (app_entries_ r i l) = pkey r.
Proof.
  revert r i; induction l as [|e l IH]; intros r i; cbn [app_entries_]; [done|]. rewrite IH.
  unfold app_entry_. cbv zeta.
  assert (H : forall (o : option cetcd_entry) r, pkey match o with Some s => queue_entry_ r s | None => r end = pkey r)
    by (by intros []). rewrite H, pkey_log_append. case_match; [apply pkey_truncate|done].
Qed.
Lemma pkey_compact r i t : pkey (cetcd_raft_compact r i t).1 = pkey r.
Proof.
  destruct (compact_cases r i t) as [->|(r' & E & H)]; [reflexivity|].
  assert (Ha : pkey r' = pkey r) by (subst r'; apply pkey_log_append). clear E.
  by destruct H as [->|(l & ->)].
Qed.
Lemma pkey_beat_peer r i : pkey (beat_peer_ r i) = pkey r.
Proof. unfold beat_peer_. cbv zeta. case_match; [done|]. by rewrite pkey_send_app, pkey_send_snap, pkey_progress. Qed.
Lemma pkey_leader_append r typ d : pkey (leader_append_ r typ d) = pkey r.
Proof.
  unfold leader_append_. cbv zeta. rewrite pkey_advance, pkey_foldl.
  - rewrite pkey_queue_hs.
    assert (H : forall (o : option cetcd_entry) r, pkey match o with Some s => queue_entry_ r s | None => r end = pkey r)
      by (by intros []). by rewrite H, pkey_log_append.
  - intros r0 i. repeat (case_match; [done|]). apply pkey_send_app.
Qed.

Create Rewrite HintDb pkey.
#[export] Hint Rewrite pkey_progress pkey_send_app pkey_send_snap pkey_advance pkey_become_leader pkey_queue_msg
  pkey_queue_entry pkey_queue_hs pkey_broadcast pkey_vote_requests pkey_follower pkey_adopt pkey_step_down
  pkey_log_append pkey_truncate pkey_follow_commit pkey_app_entries pkey_compact pkey_beat_peer
  pkey_leader_append : pkey.

Ltac pkey_same H := eapply peers_ok_pkey; [|exact H]; symmetry; by autorewrite with pkey.

Lemma record_vote_ok r i : peers_ok r -> peers_ok (record_vote_ r i).
Proof.
  intros [H1 H2 H3 H4 H5 H6 H7 H8]. unfold record_vote_.
  destruct (vote_from_ r i) eqn:Ev; cbn [negb andb]; [by split|].
  destruct (Z.ltb_spec (blen (r_votes_granted r)) (r_peers_cap r)); [|by split].
  split; cbn; try done.
  - rewrite blen_app, blen_cons. unfold blen at 2. cbn. lia.
  - apply NoDup_app. split_and!; [done| |apply NoDup_singleton].
    intros x Hx ->%list_elem_of_singleton. apply vote_from_spec in Hx. congruence.
Qed.

(** A node that starts an election holds one vote, its own. *)
Lemma own_vote_ok r r' : peers_ok r ->
  pkey r' = pkey (r <| r_votes_granted := [r_id r] |>) -> peers_ok r'.
Proof.
  intros [H1 H2 H3 H4 H5 H6 H7 H8] E. eapply peers_ok_pkey; [symmetry; exact E|].
  split; cbn; try done. apply NoDup_singleton.
Qed.

Lemma candidate_pkey r : pkey (become_candidate_ r) = pkey (r <| r_votes_granted := [r_id r] |>).
Proof. unfold become_candidate_. cbv zeta. case_match; by rewrite ?pkey_become_leader, ?pkey_vote_requests. Qed.

Lemma candidate_ok r : peers_ok r -> peers_ok (become_candidate_ r).
Proof. intros H. eapply own_vote_ok; [exact H|apply candidate_pkey]. Qed.

Lemma pre_candidate_ok r : peers_ok r -> peers_ok (become_pre_candidate_ r).
Proof.
  intros H. eapply own_vote_ok; [exact H|]. unfold become_pre_candidate_. cbv zeta.
  case_match; [by rewrite candidate_pkey|by rewrite pkey_vote_requests].
Qed.

Lemma snap_pkey r m : pkey (handle_snap_ r m).1 = pkey r.
Proof.
  unfold handle_snap_. cbv zeta. fold (adopt_term r (m_term m) (m_from m)).
  assert (H0 := pkey_adopt r (m_term m) (m_from m)). revert H0.
  generalize (adopt_term r (m_term m) (m_from m)). intros r0 H0.
  fold (step_down r0 (r_term r0) (m_from m)).
  destruct (m_term m <? r_term r); [done|]. destruct (m_snapshot m =? 0); [exact H0|].
  set (r1 := _ <| r_leader_id := m_from m |> <| r_elapsed_ticks := 0 |>).
  assert (H1 : pkey r1 = pkey r) by (rewrite <- H0; apply (pkey_step_down r0 (r_term r0) (m_from m))). clearbody r1.
  destruct (if r_log_compacted r1 <? m_snapshot m then _ else _) as [r2 rc] eqn:E.
  assert (H2 : pkey r2 = pkey r1).
  { case_match; [|injection E as <- <-; done].
    replace r2 with (cetcd_raft_compact r1 (m_snapshot m) (m_log_term m)).1 by (by rewrite E).
    apply pkey_compact. }
  rewrite <- H1, <- H2. by repeat case_match.
Qed.

Lemma app_pkey r m : pkey (handle_app_ r m).1 = pkey r.
Proof.
  unfold handle_app_. cbv zeta. fold (adopt_term r (m_term m) (m_from m)).
  fold (step_down (adopt_term r (m_term m) (m_from m)) (m_term m) (m_from m)).
  destruct (m_term m <? r_term r); [done|].
  set (r1 := _ <| r_leader_id := m_from m |> <| r_elapsed_ticks := 0 |>).
  assert (H1 : pkey r1 = pkey r).
  { rewrite <- (pkey_adopt r (m_term m) (m_from m)). apply (pkey_step_down _ (m_term m) (m_from m)). }
  clearbody r1. rewrite <- H1. repeat case_match; cbn [fst]; by autorewrite with pkey.
Qed.

Lemma step_peers_ok_aux r m : peers_ok r -> peers_ok (cetcd_raft_step r m).1.
Proof.
  intros H. unfold cetcd_raft_step. destruct (m_type m); try exact H.
  - case_match; [exact H|]. cbn [fst]. eapply peers_ok_pkey; [symmetry; apply pkey_queue_hs|].
    case_match; [by apply pre_candidate_ok|by apply candidate_ok].
  - case_match; [exact H|]. cbn [fst]. eapply peers_ok_pkey; [symmetry; apply pkey_foldl, pkey_beat_peer|exact H].
  - case_match; [exact H|]. cbn [fst]. pkey_same H.
  - eapply peers_ok_pkey; [symmetry; apply app_pkey|exact H].
  - unfold handle_app_resp_. cbv zeta. repeat case_match; cbn [fst]; pkey_same H.
  - unfold handle_vote_. cbv zeta. fold (adopt_term r (m_term m) 0). case_match; [pkey_same H|].
    eapply peers_ok_pkey; [|exact H]. rewrite <- (pkey_adopt r (m_term m) 0). by case_match.
  - unfold handle_vote_resp_. cbv zeta. pose proof (record_vote_ok r (m_from m) H) as Hv.
    repeat case_match; cbn [fst]; first [pkey_same H|pkey_same Hv].
  - eapply peers_ok_pkey; [symmetry; apply snap_pkey|exact H].
  - unfold handle_heartbeat_. cbv zeta. fold (adopt_term r (m_term m) (m_from m)).
    fold (step_down (adopt_term r (m_term m) (m_from m)) (m_term m) (m_from m)).
    case_match; [exact H|]. cbn [fst]. eapply peers_ok_pkey; [|exact H]. symmetry. autorewrite with pkey.
    rewrite <- (pkey_adopt r (m_term m) (m_from m)). apply (pkey_step_down _ (m_term m) (m_from m)).
  - unfold handle_snap_status_. cbv zeta. repeat case_match; cbn [fst]; pkey_same H.
  - case_match; cbn [fst]; pkey_same H.
  - case_match; [exact H|]. cbn [fst]. eapply peers_ok_pkey; [symmetry; apply pkey_queue_hs|]. by apply candidate_ok.
  - unfold handle_pre_vote_. cbv zeta. cbn [fst]. pkey_same H.
  - unfold handle_pre_vote_resp_. cbv zeta. pose proof (record_vote_ok r (m_from m) H) as Hv.
    repeat case_match; cbn [fst]; try pkey_same H; try exact Hv.
    eapply peers_ok_pkey; [symmetry; rewrite pkey_broadcast; apply pkey_queue_hs|]. by apply candidate_ok.
Qed.
