(* ===== verification/RaftNode.v ===== *)
(** * The life of a raft node

    Every entry point of [raft.h] that changes the node is an operation; a run
    is a sequence of operations from [cetcd_raft_new].  The invariants of the
    array bounds ([peers_ok]) and of the log ([log_ok]) hold along every run;
    the last part shows what a node does by itself: ticks, elections and
    proposals of a single-voter cluster. *)

From S2P Require Import Prelude Raft RaftState RaftQuorum RaftLog RaftMember.

Inductive raft_op : Type :=
| OpStep (m : cetcd_msg)
| OpTick
| OpPropose (data : bytes)
| OpProposeConfChange (data : bytes)
| OpApplyConfChange (voters learners : list Z)
| OpAddPeer (id : Z) (is_learner : bool)
| OpPromote (id : Z)
| OpRemovePeer (id : Z)
| OpEnterJoint
| OpLeaveJoint
| OpRestoreJoint (ids : list Z) (joint_index : Z)
| OpSetApplying (index : Z)
| OpSetLeavePending (pending : bool)
| OpReady
| OpAdvance (rd : cetcd_ready)
| OpCompact (last_included last_term : Z)
| OpRestoreEntry (e : cetcd_entry)
| OpRestoreHardState (hs : cetcd_hard_state)
| OpSetApplied (applied : Z).

Definition raft_apply (r : cetcd_raft) (op : raft_op) : cetcd_raft :=
  match op with
  | OpStep m => (cetcd_raft_step r m).1
  | OpTick => cetcd_raft_tick r
  | OpPropose d => (cetcd_raft_propose r d).1
  | OpProposeConfChange d => (cetcd_raft_propose_conf_change r d).1
  | OpApplyConfChange v l => cetcd_raft_apply_conf_change r v l
  | OpAddPeer id l => (cetcd_raft_add_peer r id l).1
  | OpPromote id => (cetcd_raft_promote r id).1
  | OpRemovePeer id => (cetcd_raft_remove_peer r id).1
  | OpEnterJoint => (cetcd_raft_enter_joint r).1
  | OpLeaveJoint => (cetcd_raft_leave_joint r).1
  | OpRestoreJoint ids i => (cetcd_raft_restore_joint r ids i).1
  | OpSetApplying i => cetcd_raft_set_applying r i
  | OpSetLeavePending b => cetcd_raft_set_leave_pending r b
  | OpReady => (cetcd_raft_ready r).1
  | OpAdvance rd => cetcd_raft_advance r rd
  | OpCompact i t => (cetcd_raft_compact r i t).1
  | OpRestoreEntry e => (cetcd_raft_restore_entry r e).1
  | OpRestoreHardState hs => cetcd_raft_restore_hard_state r hs
  | OpSetApplied a => cetcd_raft_set_applied r a
  end.

(** Bounds on the arguments: indexes fit the 32-bit log capacity, the peer
    count stays below 2^31, and what is restored continues the log. *)
Definition op_fits (r : cetcd_raft) (op : raft_op) : Prop :=
  match op with
  | OpStep m => msg_fits r m
  | OpPropose _ | OpProposeConfChange _ => r_log_last_index r + 1 < 4294967295
  | OpApplyConfChange v l => blen (r_peers r) + blen v + blen l < 2147483648
  | OpAddPeer _ _ => blen (r_peers r) < 2147483648
  | OpCompact i t => 0 <= i < 4294967295 /\ (i = r_log_last_index r -> t = r_log_last_term r)
  | OpRestoreEntry e => 0 <= e_index e < 4294967295 /\
      (e_index e <> 0 -> r_log_compacted r <= e_index e <= r_log_last_index r + 1) /\
      (e_index e = r_log_last_index r -> e_term e = r_log_last_term r)
  | _ => True
  end.

Inductive node_run (r0 : cetcd_raft) : cetcd_raft -> Prop :=
| run_start : node_run r0 r0
| run_op r op : node_run r0 r -> op_fits r op -> node_run r0 (raft_apply r op).

(** ** The array bounds along a run *)

Lemma add_peer_len r id l : blen (r_peers (add_peer_ r id l)) <= blen (r_peers r) + 1.
Proof.
  unfold add_peer_. cbv zeta. case_match; [lia|].
  assert (H' : forall r1 : cetcd_raft, r_peers r1 = r_peers r -> blen (r_peers r1 ++ [id]) <= blen (r_peers r) + 1).
  { intros r1 ->. rewrite blen_app. unfold blen. cbn. lia. }
  repeat case_match; apply H'; done.
Qed.

Lemma add_peers_ok l b r : peers_ok r -> blen (r_peers r) + blen l < 2147483648 ->
  let r' := foldl (fun r id => add_peer_ r id b) r l in
  peers_ok r' /\ blen (r_peers r') <= blen (r_peers r) + blen l.
Proof.
  revert r; induction l as [|id l IH]; intros r Hok Hb; cbn [foldl].
  { split; [done|]. unfold blen. cbn. lia. }
  rewrite blen_cons in *. pose proof (blen_nonneg l). pose proof (add_peer_len r id b).
  destruct (IH (add_peer_ r id b)) as [H1 H2]; [apply add_peer_ok; [done|lia]|lia|].
  split; [done|lia].
Qed.

Lemma remove_peer_ok r id : peers_ok r -> peers_ok (cetcd_raft_remove_peer r id).1.
Proof.
  intros [H1 H2 H3 H4 H5 H6 H7 H8]. unfold cetcd_raft_remove_peer. cbv zeta.
  case_match; [by split|]. destruct (find_peer (r_peers r) id 0 (n_peers r)) as [i|] eqn:Ef; [|by split].
  apply find_peer_Some in Ef as (j & -> & Hj & _). cbn [fst]. cbn [Nat.add] in *.
  pose proof (lookup_lt_Some _ _ _ Hj). change (foldl _ (r_progress r)) with (foldl shift_progress (r_progress r)).
  split; cbn; try done.
  - eapply sublist_NoDup; [exact H1|apply sublist_delete].
  - rewrite !length_delete; [lia|eauto|]. apply lookup_lt_is_Some. lia.
  - unfold blen in *. rewrite length_delete by eauto. lia.
  - by rewrite shift_progress_length.
Qed.

Lemma tick_cases r : exists r1,
  econf r1 = econf r /\ core (r1 <| r_elapsed_ticks := 0 |> <| r_heartbeat_elapsed := 0 |>) =
    core (r <| r_elapsed_ticks := 0 |> <| r_heartbeat_elapsed := 0 |>) /\ r_progress r1 = r_progress r /\
  (cetcd_raft_tick r = r1 \/
   exists m, (m_type m = CETCD_MSG_BEAT \/ m_type m = CETCD_MSG_HUP) /\ cetcd_raft_tick r = (cetcd_raft_step r1 m).1).
Proof.
  unfold cetcd_raft_tick. cbv zeta.
  repeat case_match; (eexists; split; [|split; [|split; [|first [right; eexists; split; [|reflexivity]; cbn; by auto | by left]]]]);
    reflexivity.
Qed.

Lemma apply_peers_ok r op : peers_ok r -> op_fits r op -> peers_ok (raft_apply r op).
Proof.
  intros H Hf. destruct op; cbn [raft_apply op_fits] in *.
  - by apply step_peers_ok_aux.
  - destruct (tick_cases r) as (r1 & _ & E & Ep & Ht).
    assert (H1 : peers_ok r1).
    { eapply peers_ok_pkey; [|exact H]. symmetry. apply (pkey_core _ _ E). cbn. by rewrite Ep. }
    destruct Ht as [->|(m & _ & ->)]; [done|by apply step_peers_ok_aux].
  - unfold cetcd_raft_propose. case_match; [done|by apply step_peers_ok_aux].
  - unfold cetcd_raft_propose_conf_change. case_match; [done|]. case_match; [done|]. cbn [fst]. pkey_same H.
  - unfold cetcd_raft_apply_conf_change. pose proof (blen_nonneg voters). pose proof (blen_nonneg learners).
    destruct (add_peers_ok voters false r H) as [Hp1 Hp2]; [lia|]. apply add_peers_ok; [done|lia].
  - unfold cetcd_raft_add_peer. do 2 (case_match; [done|]). by apply add_peer_ok.
  - unfold cetcd_raft_promote. repeat (case_match; try done). cbn [fst]. destruct H.
    split; cbn; try done. by rewrite length_insert.
  - by apply remove_peer_ok.
  - unfold cetcd_raft_enter_joint. cbv zeta. do 2 (case_match; [done|]). cbn [fst].
    destruct H. split; try done. apply (incoming_length r).
  - unfold cetcd_raft_leave_joint. case_match; [done|]. cbn [fst].
    destruct H. split; try done. cbn. lia.
  - unfold cetcd_raft_restore_joint. case_match eqn:Eg; [done|]. cbn [fst].
    apply orb_false_iff in Eg as [_ Eg%Z.ltb_ge].
    destruct H. split; try done. unfold blen in Eg. cbn [r_outgoing field_set]. lia.
  - by apply (peers_ok_pkey r).
  - by apply (peers_ok_pkey r).
  - by apply (peers_ok_pkey r).
  - unfold cetcd_raft_advance. case_match; [by apply (peers_ok_pkey r)|done].
  - eapply peers_ok_pkey; [symmetry; apply pkey_compact|done].
  - unfold cetcd_raft_restore_entry. cbv zeta. case_match; [done|]. case_match; cbn [fst]; pkey_same H.
  - by apply (peers_ok_pkey r).
  - by apply (peers_ok_pkey r).
Qed.

(** ** The log along a run *)

Lemma apply_log_ok r op : log_ok r -> op_fits r op -> log_ok (raft_apply r op).
Proof.
  intros H Hf. pose proof (lo_last r H). pose proof (lo_compacted r H).
  assert (Hk : forall r', lkey r' = lkey r -> log_ok r') by (intros r' E; by apply (log_ok_lkey r)).
  assert (Hstep : forall r1 m, log_message (m_type m) = false -> lkey r1 = lkey r -> log_ok (cetcd_raft_step r1 m).1).
  { intros r1 m Hm E. apply Hk. by rewrite step_lkey. }
  assert (Hadd : forall l b r1, lkey r1 = lkey r -> lkey (foldl (fun r id => add_peer_ r id b) r1 l) = lkey r).
  { intros l b r1 <-. apply lkey_foldl. intros r2 x. unfold add_peer_. cbv zeta. by repeat case_match. }
  destruct op; cbn [raft_apply op_fits] in *; try (by apply Hk).
  - destruct (log_message (m_type m)) eqn:E; [|by apply Hstep].
    unfold msg_fits, cetcd_raft_step in *. destruct (m_type m); try discriminate E.
    + case_match; [done|]. by apply leader_append_log.
    + apply handle_app_log_ok; tauto.
    + apply handle_snap_log; tauto.
  - destruct (tick_cases r) as (r1 & _ & E & _ & Ht). assert (E1 : lkey r1 = lkey r) by exact (lkey_core _ _ E).
    destruct Ht as [->|(m & Hm & ->)]; [by apply Hk|]. apply Hstep; [|done]. by destruct Hm as [-> | ->].
  - unfold cetcd_raft_propose. case_match eqn:El; [done|]. unfold cetcd_raft_step. cbn [m_type field_set zero_msg].
    rewrite El. cbn [fst]. by apply leader_append_log.
  - unfold cetcd_raft_propose_conf_change. case_match; [done|]. case_match; [done|]. by apply leader_append_log.
  - apply Hk. unfold cetcd_raft_apply_conf_change. apply Hadd. by apply Hadd.
  - unfold cetcd_raft_add_peer. do 2 (case_match; [done|]). apply Hk. by apply (Hadd [id] is_learner).
  - apply Hk. unfold cetcd_raft_promote. by repeat case_match.
  - apply Hk. unfold cetcd_raft_remove_peer. cbv zeta. by repeat case_match.
  - apply Hk. unfold cetcd_raft_enter_joint. cbv zeta. by repeat case_match.
  - apply Hk. unfold cetcd_raft_leave_joint. by repeat case_match.
  - apply Hk. unfold cetcd_raft_restore_joint. by repeat case_match.
  - apply Hk. unfold cetcd_raft_advance. by repeat case_match.
  - destruct (decide (last_included = 0)) as [->|Hne]; [done|].
    pose proof (compact_cases_ok r last_included last_term H ltac:(unfold index_ok; lia)) as Hc.
    case_match eqn:Eg; rewrite Hc; [done|]. apply orb_false_iff in Eg as [Eg1%Z.ltb_ge Eg2].
    apply (compacted_ok r (mk_entry last_term last_included CETCD_ENTRY_NORMAL [])); cbn;
      [done|unfold index_ok; lia|lia| |tauto].
    apply andb_false_iff in Eg2 as [Eg2%negb_false_iff%Z.eqb_eq|Eg2%Z.ltb_ge]; lia.
  - unfold cetcd_raft_restore_entry. cbv zeta. destruct (Z.eqb_spec (e_index e) 0); [done|].
    assert (Ha : log_ok (log_append_ r e)) by (apply log_append_ok; unfold index_ok; done || tauto || lia).
    by case_match.
Qed.

(** The state [cetcd_raft_new] builds. *)
Definition fresh (cfg : cetcd_raft_config) : cetcd_raft :=
  mk_raft (c_id cfg) 0 0 0 0 0 ROLE_FOLLOWER (c_election_tick cfg) (c_heartbeat_tick cfg)
    (c_election_tick cfg) (c_heartbeat_tick cfg) 0 0 (c_max_size_per_msg cfg) (c_max_inflight_msgs cfg)
    (c_check_quorum cfg) (c_pre_vote cfg) [c_id cfg] [false] 8 [] 0 0 false []
    (mk_progress 1 0 false false :: replicate 15 zero_progress) ∅ 64 0 0 0 None [] [] false.

Lemma add_first_peer r : r_peers r = [] -> r_peers_cap r = 0 ->
  add_peer_ r (r_id r) false =
  set_progress (r <| r_peers_cap := 8 |> <| r_peers := [r_id r] |> <| r_peer_learner := r_peer_learner r ++ [false] |>)
    0 (mk_progress (u64 (r_log_last_index r + 1)) 0 false false).
Proof.
  intros Hp Hc. unfold add_peer_, has_peer_, n_peers. rewrite Hp. cbn [existsb length]. cbv zeta.
  rewrite Hc. change (0 <=? Z.of_nat 0) with true. cbv iota. change (0 =? 0) with true. cbv iota.
  change (0 <? MAX_PEERS_)%nat with true. cbv iota. cbn [r_id field_set]. rewrite Z.eqb_refl.
  cbn [r_peers field_set r_log_last_index r_peer_learner]. by rewrite Hp.
Qed.

Lemma new_fresh cfg r : cetcd_raft_new cfg = Some r ->
  r = fresh cfg /\ c_id cfg <> 0 /\ c_election_tick cfg <> 0 /\ c_heartbeat_tick cfg <> 0.
Proof.
  unfold cetcd_raft_new. cbv zeta.
  destruct (Z.eqb_spec (c_id cfg) 0); [done|].
  destruct (Z.eqb_spec (c_election_tick cfg) 0); [done|].
  destruct (Z.eqb_spec (c_heartbeat_tick cfg) 0); [done|]. cbn [orb].
  match goal with |- Some (field_set _ (add_peer_ ?r0 (c_id cfg) false)) = _ -> _ =>
    pose proof (add_first_peer r0 eq_refl eq_refl) as Ha; change (r_id r0) with (c_id cfg) in Ha; rewrite Ha end.
  intros [= <-]. split; [vm_compute; reflexivity|done].
Qed.

Lemma fresh_invariants cfg : peers_ok (fresh cfg) /\ log_ok (fresh cfg).
Proof.
  split; split; cbn; try done; try lia; try (unfold blen; cbn; lia).
  - apply NoDup_singleton.
  - apply NoDup_nil_2.
Qed.

(** C5: the invariants hold for the whole life of a node.  From
    [cetcd_raft_new], after any sequence of messages, ticks, proposals,
    membership changes, compactions and restores within the stated bounds, the
    peer, vote, learner, progress and outgoing arrays are within their
    capacities and duplicate-free, and the log array is sound. *)
Theorem node_invariants cfg r0 r :
  cetcd_raft_new cfg = Some r0 -> node_run r0 r -> peers_ok r /\ log_ok r.
Proof.
  intros [-> _]%new_fresh Hr. induction Hr as [|r op _ IH Hf]; [apply fresh_invariants|].
  destruct IH. split; [by apply apply_peers_ok|by apply apply_log_ok].
Qed.

(** ** A node on its own *)

Lemma tick_counts r : r_role r <> ROLE_LEADER -> 0 <= r_elapsed_ticks r -> 0 <= r_heartbeat_elapsed r ->
  r_elapsed_ticks r + 1 < r_election_timeout r < 18446744073709551616 ->
  r_heartbeat_elapsed r + 1 < 18446744073709551616 ->
  cetcd_raft_tick r =
    r <| r_elapsed_ticks := r_elapsed_ticks r + 1 |> <| r_heartbeat_elapsed := r_heartbeat_elapsed r + 1 |>.
Proof.
  intros Hr He Hh Ht Hb. unfold cetcd_raft_tick. cbv zeta. cbn [r_role r_elapsed_ticks r_election_timeout r_heartbeat_elapsed field_set].
  rewrite !u64_small by (unfold in_u64; lia).
  assert (is_leader (r_role r) = false) as -> by (by destruct (r_role r)).
  by destruct (Z.leb_spec (r_election_timeout r) (r_elapsed_ticks r + 1)); [lia|].
Qed.

(** Ticks before the election timeout of a node that is not leader only
    count. *)
Lemma ticks_counted r k : r_role r <> ROLE_LEADER -> 0 <= r_elapsed_ticks r -> 0 <= r_heartbeat_elapsed r ->
  r_elapsed_ticks r + Z.of_nat k < r_election_timeout r < 18446744073709551616 ->
  r_heartbeat_elapsed r + Z.of_nat k < 18446744073709551616 ->
  Nat.iter k cetcd_raft_tick r =
    r <| r_elapsed_ticks := r_elapsed_ticks r + Z.of_nat k |>
      <| r_heartbeat_elapsed := r_heartbeat_elapsed r + Z.of_nat k |>.
Proof.
  intros Hr He Hh. induction k as [|k IH]; intros Hk Hb.
  { cbn. rewrite !Z.add_0_r. by destruct r. }
  rewrite Nat.iter_succ, IH by lia. rewrite tick_counts by (cbn; done || lia).
  cbn [r_elapsed_ticks r_heartbeat_elapsed field_set].
  rewrite Nat2Z.inj_succ, <- !Z.add_1_r, !Z.add_assoc. reflexivity.
Qed.

(** No election before its time.  A new node, or one fast-forwarded by
    [cetcd_raft_initial_advance_ticks], is still a follower of term 0 that has
    voted for nobody and has queued nothing; only the tick counters moved. *)
Theorem initial_ticks_no_election cfg r :
  cetcd_raft_new cfg = Some r -> 0 <= c_election_tick cfg < 18446744073709551616 ->
  let n := cetcd_raft_initial_advance_ticks (c_election_tick cfg) in
  cetcd_raft_advance_ticks r n = r <| r_elapsed_ticks := n |> <| r_heartbeat_elapsed := n |>.
Proof.
  intros (-> & Hi & He & Hh)%new_fresh Hb n. unfold cetcd_raft_advance_ticks.
  assert (Hn : 0 <= n < c_election_tick cfg) by (subst n; unfold cetcd_raft_initial_advance_ticks; guards; lia).
  rewrite ticks_counted by (cbn; done || lia). rewrite Z2Nat.id by lia. reflexivity.
Qed.

Lemma initial_ticks_no_election_witness :
  exists r, cetcd_raft_new (mk_config 1 10 1 0 0 false true) = Some r /\
    let n := cetcd_raft_initial_advance_ticks (c_election_tick (mk_config 1 10 1 0 0 false true)) in
    cetcd_raft_advance_ticks r n = r <| r_elapsed_ticks := n |> <| r_heartbeat_elapsed := n |>.
Proof.
  eexists. split; [reflexivity|]. apply initial_ticks_no_election; [reflexivity|vm_compute; split; congruence].
Defined.

(** The only voter of its cluster. *)
Definition sole_voter (r : cetcd_raft) : Prop :=
  r_peers r = [r_id r] /\ r_peer_learner r = [false] /\ r_outgoing r = [].

Lemma sole_voter_incoming r : sole_voter r -> incoming_ r = [r_id r].
Proof.
  intros (Hp & Hl & _). unfold incoming_, peer_is_learner_, n_peers, peer_at. rewrite Hp, Hl. reflexivity.
Qed.

Lemma sole_voter_quorum r : sole_voter r -> r_votes_granted r = [r_id r] -> vote_quorum_ok_ r = true.
Proof.
  intros Hs Hv. apply vote_quorum_majority. unfold joint_majority, majority.
  rewrite (sole_voter_incoming r Hs). destruct Hs as (_ & _ & ->). split; [|by left].
  cbn [List.filter]. unfold vote_from_. rewrite Hv. cbn [existsb]. rewrite Z.eqb_refl. vm_compute. reflexivity.
Qed.

Lemma sole_voter_campaign r m : m_type m = CETCD_MSG_HUP -> sole_voter r -> r_role r <> ROLE_LEADER ->
  let r' := (cetcd_raft_step r m).1 in
  r_role r' = ROLE_LEADER /\ r_term r' = u64 (r_term r + 1) /\ r_vote r' = r_id r /\ r_leader_id r' = r_id r.
Proof.
  intros Hm Hs Hr. unfold cetcd_raft_step. rewrite Hm.
  assert (is_leader (r_role r) = false) as -> by (by destruct (r_role r)). cbn [fst].
  assert (Hc : forall r1, sole_voter r1 -> core (become_candidate_ r1) = core (become_leader_ (bumped r1))).
  { intros r1 H1. unfold become_candidate_. cbv zeta. fold (bumped r1).
    by rewrite (sole_voter_quorum (bumped r1) H1 eq_refl). }
  assert (Hp : forall r1, sole_voter r1 -> let r' := queue_hard_state_ (become_candidate_ r1) in
    r_role r' = ROLE_LEADER /\ r_term r' = u64 (r_term r1 + 1) /\ r_vote r' = r_id r1 /\ r_leader_id r' = r_id r1).
  { intros r1 H1. specialize (Hc r1 H1). rewrite core_become_leader in Hc.
    rewrite <- (core_queue_hard_state (become_candidate_ r1)) in Hc.
    revert Hc. generalize (queue_hard_state_ (become_candidate_ r1)). intros r2 E. cbv zeta. split_and!.
    - core_proj r_role E.
    - core_proj r_term E.
    - core_proj r_vote E.
    - core_proj r_leader_id E. }
  case_match; [|by apply Hp]. unfold become_pre_candidate_. cbv zeta.
  match goal with |- context [vote_quorum_ok_ ?r1] => rewrite (sole_voter_quorum r1 Hs eq_refl); exact (Hp r1 Hs) end.
Qed.

(** A single-voter cluster elects its node.  A new node ticked
    [election_tick] times is leader of term 1, whether or not pre-vote is on. *)
Theorem sole_voter_elects cfg r :
  cetcd_raft_new cfg = Some r -> 0 < c_election_tick cfg < 18446744073709551615 ->
  let r' := cetcd_raft_advance_ticks r (c_election_tick cfg) in
  r_role r' = ROLE_LEADER /\ r_term r' = 1 /\ r_vote r' = c_id cfg /\ r_leader_id r' = c_id cfg.
Proof.
  intros (-> & Hi & He & Hh)%new_fresh Hb. cbv zeta. unfold cetcd_raft_advance_ticks.
  replace (Z.to_nat (c_election_tick cfg)) with (S (Z.to_nat (c_election_tick cfg - 1))) by lia.
  rewrite Nat.iter_succ, ticks_counted by (cbn; done || lia).
  cbn [r_elapsed_ticks r_heartbeat_elapsed fresh]. rewrite !Z.add_0_l, Z2Nat.id by lia.
  unfold cetcd_raft_tick. cbv zeta.
  cbn [r_role r_elapsed_ticks r_election_timeout field_set fresh is_leader].
  rewrite Z.sub_add, u64_small by (unfold in_u64; lia). rewrite Z.leb_refl.
  match goal with |- context [cetcd_raft_step ?r1 ?m] =>
    destruct (sole_voter_campaign r1 m) as (H1 & H2 & H3 & H4);
      [reflexivity|split_and!; reflexivity|discriminate|] end.
  split_and!; [exact H1|rewrite H2; reflexivity|rewrite H3; reflexivity|rewrite H4; reflexivity].
Qed.

Lemma sole_voter_elects_witness :
  exists r, cetcd_raft_new (mk_config 7 10 1 0 0 false true) = Some r /\
    r_role (cetcd_raft_advance_ticks r 10) = ROLE_LEADER.
Proof.
  eexists. split; [reflexivity|].
  apply (sole_voter_elects (mk_config 7 10 1 0 0 false true)); [reflexivity|vm_compute; split; congruence].
Defined.

Lemma sole_voter_target r : sole_voter r -> commit_target r = r_log_last_index r.
Proof.
  intros Hs. unfold commit_target. rewrite (sole_voter_incoming r Hs).
  destruct Hs as (_ & _ & ->). change (0 <? blen []) with false. cbv iota.
  unfold majority_match_ids_. cbn [blen length]. change (Z.of_nat 1 =? 0) with false. cbv iota zeta.
  cbn [take MAX_PEERS_ map length exchange_sort exchange_pass]. unfold match_of_. by rewrite Z.eqb_refl.
Qed.

(** When the core of a leader is that of a sole voter, its commit index goes to
    the end of the log if the last entry is of its term. *)
Lemma sole_voter_advance r : sole_voter r -> r_role r = ROLE_LEADER ->
  r_commit r < r_log_last_index r -> log_term_at_ r (r_log_last_index r) = r_term r ->
  r_commit (maybe_advance_commit_ r) = r_log_last_index r.
Proof.
  intros Hs Hr Hc Ht. unfold maybe_advance_commit_. cbv zeta. fold (commit_target r).
  rewrite (sole_voter_target r Hs), (sole_voter_incoming r Hs), Hr, Ht, Z.eqb_refl.
  cbn [is_leader negb]. change (blen [r_id r] =? 0) with false. cbv iota.
  by destruct (Z.ltb_spec (r_commit r) (r_log_last_index r)); [|lia].
Qed.

Lemma sole_voter_core r r' : core r = core r' -> sole_voter r -> sole_voter r'.
Proof.
  unfold sole_voter. intros E.
  assert (r_peers r = r_peers r') as -> by core_proj r_peers E.
  assert (r_id r = r_id r') as -> by core_proj r_id E.
  assert (r_peer_learner r = r_peer_learner r') as -> by core_proj r_peer_learner E.
  assert (r_outgoing r = r_outgoing r') as -> by core_proj r_outgoing E. done.
Qed.

(** A single-voter leader commits what it proposes.  The proposal is
    accepted, the new entry of the leader's term is stored behind the log and
    the commit index moves onto it in the same call. *)
Theorem sole_voter_commits r d :
  log_ok r -> r_log_last_index r + 1 < 4294967295 -> r_commit r <= r_log_last_index r ->
  r_role r = ROLE_LEADER -> sole_voter r ->
  let r' := (cetcd_raft_propose r d).1 in
  (cetcd_raft_propose r d).2 = 0 /\ r_commit r' = r_log_last_index r + 1 /\
  cetcd_raft_entry_at r' (r_commit r') = Some (mk_entry (r_term r) (r_log_last_index r + 1) CETCD_ENTRY_NORMAL d).
Proof.
  intros Hok Hb Hc Hl Hs. pose proof (lo_last r Hok).
  unfold cetcd_raft_propose, cetcd_raft_step. cbn [m_type field_set zero_msg m_context]. rewrite Hl.
  cbn [is_leader negb fst snd]. split; [done|].
  destruct (leader_append_log r CETCD_ENTRY_NORMAL d Hok Hb) as (_ & _ & Hlast & Hat).
  assert (Hcm : r_commit (leader_append_ r CETCD_ENTRY_NORMAL d) = r_log_last_index r + 1).
  { destruct (core_leader_append r CETCD_ENTRY_NORMAL d) as (r1 & E & Heq). rewrite Heq in *.
    rewrite (u64_small (r_log_last_index r + 1)) in E by (unfold in_u64; lia).
    pose proof (lkey_advance r1) as Hl1.
    assert (H1 : r_log_last_index r1 = r_log_last_index r + 1) by (rewrite <- Hlast; unfold lkey in Hl1; congruence).
    set (r0 := log_append_ _ _) in E.
    assert (H2 : sole_voter r0 /\ r_role r0 = ROLE_LEADER /\ r_commit r0 = r_commit r /\ r_term r0 = r_term r).
    { subst r0. unfold sole_voter, log_append_. cbv zeta. repeat case_match; exact (conj Hs (conj Hl (conj eq_refl eq_refl))). }
    clearbody r0. destruct H2 as (H2 & H3 & H4 & H5).
    rewrite <- H1. apply sole_voter_advance.
    - by apply (sole_voter_core r0).
    - rewrite <- H3. core_proj r_role E.
    - assert (r_commit r1 = r_commit r0) as -> by core_proj r_commit E. lia.
    - assert (r_term r1 = r_term r0) as -> by core_proj r_term E. rewrite H5, H1.
      unfold log_term_at_. rewrite <- (log_at_lkey _ _ _ Hl1), Hat, Z.eqb_refl.
      by destruct (Z.eqb_spec (r_log_last_index r + 1) 0); [lia|]. }
  split; [exact Hcm|]. rewrite Hcm. change (log_at_ (leader_append_ r CETCD_ENTRY_NORMAL d) (r_log_last_index r + 1) =
    Some (mk_entry (r_term r) (r_log_last_index r + 1) CETCD_ENTRY_NORMAL d)).
  by rewrite Hat, Z.eqb_refl.
Qed.

Lemma sole_voter_commits_witness :
  let r := (fresh (mk_config 7 10 1 0 0 false false)) <| r_role := ROLE_LEADER |> <| r_term := 1 |> in
  r_commit (cetcd_raft_propose r [42]).1 = 1.
Proof.
  intros r. apply (sole_voter_commits r [42]).
  - apply (log_ok_lkey (fresh (mk_config 7 10 1 0 0 false false))); [reflexivity|]. apply fresh_invariants.
  - vm_compute. reflexivity.
  - vm_compute. congruence.
  - reflexivity.
  - split_and!; reflexivity.
Defined.

Lemma node_invariants_witness :
  exists r0 r, cetcd_raft_new (mk_config 7 1 1 0 0 false false) = Some r0 /\ node_run r0 r /\
    r_commit r = 1 /\ peers_ok r /\ log_ok r.
Proof.
  eexists. exists (raft_apply (raft_apply (raft_apply (fresh (mk_config 7 1 1 0 0 false false)) OpTick) (OpPropose [1])) (OpAddPeer 8 true)).
  assert (Hr : node_run (fresh (mk_config 7 1 1 0 0 false false))
    (raft_apply (raft_apply (raft_apply (fresh (mk_config 7 1 1 0 0 false false)) OpTick) (OpPropose [1])) (OpAddPeer 8 true))).
  { repeat apply run_op; [apply run_start|exact I|vm_compute; reflexivity|vm_compute; reflexivity]. }
  split; [vm_compute; reflexivity|]. split; [exact Hr|]. split; [vm_compute; reflexivity|].
  exact (node_invariants (mk_config 7 1 1 0 0 false false) _ _ ltac:(vm_compute; reflexivity) Hr).
Defined.
