(* ===== verification/RaftWire.v ===== *)
(** * The wire format of raft messages (src/raft/raft.c, encode/decode)

    A position in a buffer is the list of bytes that remain.  Shifting a
    [uint64_t] by 64 or more, or a [uint32_t] by 32 or more, is undefined in C;
    a varint with too many continuation bytes makes the decoder do that, and
    the model answers [None] there. *)

From S2P Require Import Prelude Raft.

(** ** Varints *)

(** The [do ... while (val)] loop; ten groups of seven bits hold 64 bits. *)
Fixpoint wire_loop (fuel : nat) (val : Z) : bytes :=
  match fuel with
  | O => []
  | S fuel =>
      let b := Z.land val 127 in
      let val := Z.shiftr val 7 in
      if val =? 0 then [b] else Z.lor b 128 :: wire_loop fuel val
  end.

Definition wire_u64_ (val : Z) : bytes := wire_loop 10 val.
Definition wire_u32_ (val : Z) : bytes := wire_loop 5 val.

Fixpoint dec_loop (width : Z) (buf : bytes) (val shift : Z) : option (Z * bytes) :=
  match buf with
  | [] => Some (val, [])
  | b :: rest =>
      if width <=? shift then None
      else
        let val := Z.lor val (Z.shiftl (Z.land b 127) shift mod 2 ^ width) in
        if Z.land b 128 =? 0 then Some (val, rest) else dec_loop width rest val (shift + 7)
  end.

Definition dec_u64_ (buf : bytes) : option (Z * bytes) := dec_loop 64 buf 0 0.
Definition dec_u32_ (buf : bytes) : option (Z * bytes) := dec_loop 32 buf 0 0.

(** ** Encoding *)

Definition TAG_U64 (fnum val : Z) : bytes := u8 (Z.lor (Z.shiftl fnum 3) 0) :: wire_u64_ val.
Definition TAG_U32 (fnum val : Z) : bytes := u8 (Z.lor (Z.shiftl fnum 3) 0) :: wire_u32_ val.
Definition TAG_BYTES (fnum : Z) (data : bytes) : bytes :=
  u8 (Z.lor (Z.shiftl fnum 3) 2) :: wire_u32_ (u32 (blen data)) ++ data.

(** The enum object as an integer and back. *)
Definition msg_type_num (t : cetcd_msg_type) : Z :=
  match t with
  | CETCD_MSG_HUP => 0 | CETCD_MSG_BEAT => 1 | CETCD_MSG_PROP => 2 | CETCD_MSG_APP => 3
  | CETCD_MSG_APP_RESP => 4 | CETCD_MSG_VOTE => 5 | CETCD_MSG_VOTE_RESP => 6 | CETCD_MSG_SNAP => 7
  | CETCD_MSG_HEARTBEAT => 8 | CETCD_MSG_HEARTBEAT_RESP => 9 | CETCD_MSG_UNREACHABLE => 10
  | CETCD_MSG_SNAP_STATUS => 11 | CETCD_MSG_CHECK_QUORUM => 12 | CETCD_MSG_TRANSFER_LEADER => 13
  | CETCD_MSG_TIMEOUT_NOW => 14 | CETCD_MSG_READ_INDEX => 15 | CETCD_MSG_READ_INDEX_RESP => 16
  | CETCD_MSG_PRE_VOTE => 17 | CETCD_MSG_PRE_VOTE_RESP => 18 | CETCD_MSG_COMPACT_HASH => 19
  | CETCD_MSG_OTHER n => n
  end.

Definition msg_types : list cetcd_msg_type :=
  [CETCD_MSG_HUP; CETCD_MSG_BEAT; CETCD_MSG_PROP; CETCD_MSG_APP; CETCD_MSG_APP_RESP; CETCD_MSG_VOTE;
   CETCD_MSG_VOTE_RESP; CETCD_MSG_SNAP; CETCD_MSG_HEARTBEAT; CETCD_MSG_HEARTBEAT_RESP;
   CETCD_MSG_UNREACHABLE; CETCD_MSG_SNAP_STATUS; CETCD_MSG_CHECK_QUORUM; CETCD_MSG_TRANSFER_LEADER;
   CETCD_MSG_TIMEOUT_NOW; CETCD_MSG_READ_INDEX; CETCD_MSG_READ_INDEX_RESP; CETCD_MSG_PRE_VOTE;
   CETCD_MSG_PRE_VOTE_RESP; CETCD_MSG_COMPACT_HASH].

Definition msg_type_of (n : Z) : cetcd_msg_type :=
  if (0 <=? n) && (n <? 20) then default (CETCD_MSG_OTHER n) (msg_types !! Z.to_nat n)
  else CETCD_MSG_OTHER n.

(** The temporary buffer of one entry. *)
Definition entry_wire (e : cetcd_entry) : bytes :=
  TAG_U64 1 (e_term e) ++ TAG_U64 2 (e_index e) ++ TAG_U32 3 (u32 (e_type e)) ++
  (if 0 <? blen (e_data e) then TAG_BYTES 4 (e_data e) else []).

Definition cetcd_msg_encode_wire (msg : cetcd_msg) : bytes :=
  TAG_U32 1 (u32 (msg_type_num (m_type msg))) ++ TAG_U64 2 (m_to msg) ++ TAG_U64 3 (m_from msg) ++
  TAG_U64 4 (m_term msg) ++ TAG_U64 5 (m_log_term msg) ++ TAG_U64 6 (m_index msg) ++
  TAG_U64 7 (m_commit msg) ++ TAG_U64 8 (m_reject msg) ++
  (if negb (m_snapshot msg =? 0) then TAG_U64 9 (m_snapshot msg) else []) ++
  (if 0 <? blen (m_context msg) then TAG_BYTES 10 (m_context msg) else []) ++
  concat (map (fun e => TAG_BYTES 11 (entry_wire e)) (m_entries msg)).

(** The allocation the encoder writes into, and that of one entry. *)
Definition encode_need (msg : cetcd_msg) : Z :=
  128 + (if negb (m_snapshot msg =? 0) then 16 else 0)
      + (if 0 <? blen (m_context msg) then 10 + blen (m_context msg) else 0)
      + foldr (fun e n => 1 + 5 + 40 + blen (e_data e) + n) 0 (m_entries msg).
Definition entry_need (e : cetcd_entry) : Z := 40 + blen (e_data e).

(** ** Decoding *)

(** Each iteration consumes at least the tag byte, so the length of the input
    is enough fuel. *)
Fixpoint entry_loop (fuel : nat) (edata : bytes) (e : cetcd_entry) : option cetcd_entry :=
  match fuel with
  | O => Some e
  | S fuel =>
      match edata with
      | [] => Some e
      | etag :: rest =>
          let ef := Z.shiftr etag 3 in
          let ew := Z.land etag 7 in
          if ew =? 0 then
            if ef =? 3 then
              '(v, rest) ← dec_u32_ rest; entry_loop fuel rest (e <| e_type := v |>)
            else
              '(v, rest) ← dec_u64_ rest;
              entry_loop fuel rest
                (if ef =? 1 then e <| e_term := v |>
                 else if ef =? 2 then e <| e_index := v |> else e)
          else if ew =? 2 then
            '(dlen, rest) ← dec_u32_ rest;
            let e := if (ef =? 4) && (dlen <=? blen rest)
                     then e <| e_data := take (Z.to_nat dlen) rest |> else e in
            entry_loop fuel (drop (Z.to_nat dlen) rest) e
          else Some e
      end
  end.

Definition decode_entry (edata : bytes) : option cetcd_entry :=
  entry_loop (length edata) edata zero_entry.

Fixpoint msg_loop (fuel : nat) (data : bytes) (msg : cetcd_msg) (entries : list cetcd_entry)
  : option (cetcd_msg * list cetcd_entry) :=
  match fuel with
  | O => Some (msg, entries)
  | S fuel =>
      match data with
      | [] => Some (msg, entries)
      | tag :: rest =>
          let fnum := Z.shiftr tag 3 in
          let wire := Z.land tag 7 in
          if wire =? 0 then
            if fnum =? 1 then
              '(v, rest) ← dec_u32_ rest; msg_loop fuel rest (msg <| m_type := msg_type_of v |>) entries
            else
              '(v, rest) ← dec_u64_ rest;
              msg_loop fuel rest
                (if fnum =? 2 then msg <| m_to := v |>
                 else if fnum =? 3 then msg <| m_from := v |>
                 else if fnum =? 4 then msg <| m_term := v |>
                 else if fnum =? 5 then msg <| m_log_term := v |>
                 else if fnum =? 6 then msg <| m_index := v |>
                 else if fnum =? 7 then msg <| m_commit := v |>
                 else if fnum =? 8 then msg <| m_reject := v |>
                 else if fnum =? 9 then msg <| m_snapshot := v |> else msg) entries
          else if wire =? 2 then
            '(n, rest) ← dec_u32_ rest;
            if blen rest <? n then Some (msg, entries)
            else
              let field := take (Z.to_nat n) rest in
              let rest := drop (Z.to_nat n) rest in
              if fnum =? 10 then msg_loop fuel rest (msg <| m_context := field |>) entries
              else if (fnum =? 11) && (length entries <? 256)%nat then
                e ← decode_entry field; msg_loop fuel rest msg (entries ++ [e])
              else msg_loop fuel rest msg entries
          else Some (msg, entries)
      end
  end.

(** [None]: undefined behaviour; [Some None]: the null pointer. *)
Definition cetcd_msg_decode_wire (data : bytes) : option (option cetcd_msg) :=
  if blen data =? 0 then Some None
  else
    '(msg, entries) ← msg_loop (length data) data zero_msg [];
    Some (Some (if (0 <? length entries)%nat then msg <| m_entries := entries |> else msg)).

(** ** Varint round trip *)

Lemma wire_loop_length fuel v : (length (wire_loop fuel v) <= fuel)%nat.
Proof. revert v; induction fuel as [|fuel IH]; intros v; cbn; [done|]. case_match; cbn; [lia|]. specialize (IH (Z.shiftr v 7)). lia. Qed.

(** Reading back the groups of [v] above the [shift] bits already in [acc]. *)
Lemma dec_wire_loop width fuel v acc shift rest :
  0 <= shift -> 0 <= acc < 2 ^ shift -> 0 <= v < 2 ^ (7 * Z.of_nat fuel) -> (0 < fuel)%nat ->
  v * 2 ^ shift < 2 ^ width -> shift + 7 * (Z.of_nat fuel - 1) < width ->
  dec_loop width (wire_loop fuel v ++ rest) acc shift = Some (acc + v * 2 ^ shift, rest).
Proof.
  revert v acc shift; induction fuel as [|fuel IH]; intros v acc shift Hs Ha Hv Hf Hw Hsw; [lia|].
  cbn [wire_loop]. cbv zeta. rewrite land_127, Z.shiftr_div_pow2 by lia. change (2 ^ 7) with 128.
  pose proof (Z.mod_pos_bound v 128 ltac:(lia)) as Hm. pose proof (Z.div_mod v 128 ltac:(lia)) as Hd.
  pose proof (Z.pow_pos_nonneg 2 shift ltac:(lia) Hs) as Hp.
  assert (Hx : Z.lor acc (Z.shiftl (v mod 128) shift mod 2 ^ width) = acc + v mod 128 * 2 ^ shift).
  { pose proof (Z.mod_le v 128 ltac:(lia) ltac:(lia)). rewrite <- lor_shiftl_add by done. f_equal.
    rewrite Z.shiftl_mul_pow2 by done. apply Z.mod_small. nia. }
  destruct (Z.eqb_spec (v / 128) 0) as [Hz|Hz]; cbn [app dec_loop];
    (destruct (Z.leb_spec width shift); [lia|]); cbv zeta.
  - destruct (varint_last (v mod 128) Hm) as [-> ->]. rewrite Hx. cbn [Z.eqb]. do 2 f_equal.
    replace (v mod 128) with v by lia. done.
  - destruct (varint_more (v mod 128) Hm) as (-> & -> & Hc). rewrite Hx.
    destruct (Z.eqb_spec (Z.land (v mod 128 + 128) 128) 0); [done|].
    assert (Hq : 0 <= v / 128) by (apply Z.div_pos; lia).
    rewrite Nat2Z.inj_succ, Z.mul_succ_r, Z.pow_add_r in Hv by lia. change (2 ^ 7) with 128 in Hv.
    destruct fuel as [|fuel]; [cbn in Hv; lia|].
    assert (H7 : 2 ^ (shift + 7) = 2 ^ shift * 128) by (by rewrite Z.pow_add_r by lia).
    rewrite IH; [| | | | | |]; rewrite ?H7; try lia; try nia.
    do 2 f_equal. transitivity (acc + (128 * (v / 128) + v mod 128) * 2 ^ shift); [ring|by rewrite <- Hd].
Qed.

Lemma dec_wire_u64 v rest : in_u64 v -> dec_u64_ (wire_u64_ v ++ rest) = Some (v, rest).
Proof.
  unfold in_u64, dec_u64_, wire_u64_. intros Hv. rewrite dec_wire_loop; cbn; try lia. do 2 f_equal. lia.
Qed.

Lemma dec_wire_u32 v rest : in_u32 v -> dec_u32_ (wire_u32_ v ++ rest) = Some (v, rest).
Proof.
  unfold in_u32, dec_u32_, wire_u32_. intros Hv. rewrite dec_wire_loop; cbn; try lia. do 2 f_equal. lia.
Qed.

(** ** Message round trip *)

Definition entry_fits (e : cetcd_entry) : Prop :=
  in_u64 (e_term e) /\ in_u64 (e_index e) /\ in_u32 (e_type e) /\ blen (e_data e) < 4294967000.

(** A message the format carries: fields within their types, the type one of
    the enumerators or an unknown value, at most 256 entries. *)
Record msg_wire_ok (m : cetcd_msg) : Prop := mk_msg_wire_ok {
  mw_type : in_u32 (msg_type_num (m_type m)) /\
            (forall n, m_type m = CETCD_MSG_OTHER n -> 20 <= n);
  mw_to : in_u64 (m_to m);
  mw_from : in_u64 (m_from m);
  mw_term : in_u64 (m_term m);
  mw_log_term : in_u64 (m_log_term m);
  mw_index : in_u64 (m_index m);
  mw_commit : in_u64 (m_commit m);
  mw_reject : in_u64 (m_reject m);
  mw_snapshot : in_u64 (m_snapshot m);
  mw_context : blen (m_context m) < 4294967296;
  mw_entries : Forall entry_fits (m_entries m);
  mw_count : (length (m_entries m) <= 256)%nat
}.

Lemma wire_loop_pos fuel v : (0 < fuel)%nat -> (0 < length (wire_loop fuel v))%nat.
Proof. destruct fuel; [lia|]. intros _. cbn. case_match; cbn; lia. Qed.

Lemma tag_u64_length f v : (2 <= length (TAG_U64 f v) <= 11)%nat.
Proof. unfold TAG_U64, wire_u64_. cbn [length]. pose proof (wire_loop_pos 10 v). pose proof (wire_loop_length 10 v). lia. Qed.
Lemma tag_u32_length f v : (2 <= length (TAG_U32 f v) <= 6)%nat.
Proof. unfold TAG_U32, wire_u32_. cbn [length]. pose proof (wire_loop_pos 5 v). pose proof (wire_loop_length 5 v). lia. Qed.
Lemma tag_bytes_length f d : (2 + length d <= length (TAG_BYTES f d) <= 6 + length d)%nat.
Proof.
  unfold TAG_BYTES, wire_u32_. cbn [length]. rewrite length_app.
  pose proof (wire_loop_pos 5 (u32 (blen d))). pose proof (wire_loop_length 5 (u32 (blen d))). lia.
Qed.

(** Evaluates the tag of the field at hand and the dispatch on it. *)
Ltac eval_tests :=
  repeat match goal with
  | |- context [u8 ?x] => let y := eval vm_compute in (u8 x) in change (u8 x) with y
  | |- context [?a =? ?b] =>
      let c := eval vm_compute in (a =? b) in
      lazymatch c with true => idtac | false => idtac end; change (a =? b) with c
  end; cbv iota.
Ltac wire_step :=
  intros; unfold TAG_U64, TAG_U32, TAG_BYTES; cbn [app entry_loop msg_loop]; cbv zeta; eval_tests;
  rewrite <- ?app_assoc, ?dec_wire_u64, ?dec_wire_u32 by (done || apply u32_range);
  cbn [mbind option_bind].

Section EntryFields.
Variables (fuel : nat) (rest : bytes) (e : cetcd_entry).

Lemma entry_term_step v : in_u64 v ->
  entry_loop (S fuel) (TAG_U64 1 v ++ rest) e = entry_loop fuel rest (e <| e_term := v |>).
Proof. wire_step. done. Qed.

Lemma entry_index_step v : in_u64 v ->
  entry_loop (S fuel) (TAG_U64 2 v ++ rest) e = entry_loop fuel rest (e <| e_index := v |>).
Proof. wire_step. done. Qed.

Lemma entry_type_step v : in_u32 v ->
  entry_loop (S fuel) (TAG_U32 3 v ++ rest) e = entry_loop fuel rest (e <| e_type := v |>).
Proof. wire_step. done. Qed.

Lemma entry_data_step d : blen d < 4294967296 ->
  entry_loop (S fuel) (TAG_BYTES 4 d ++ rest) e = entry_loop fuel rest (e <| e_data := d |>).
Proof.
  intros Hd. pose proof (blen_nonneg d). wire_step. rewrite u32_small by (unfold in_u32; lia).
  rewrite blen_app. pose proof (blen_nonneg rest).
  destruct (Z.leb_spec (blen d) (blen d + blen rest)); [|lia]. by rewrite take_blen, drop_blen.
Qed.
End EntryFields.

Lemma entry_loop_nil fuel e : entry_loop fuel [] e = Some e.
Proof. by destruct fuel. Qed.

Lemma decode_entry_wire e : entry_fits e -> decode_entry (entry_wire e) = Some e.
Proof.
  intros (Ht & Hi & Hy & Hd). unfold decode_entry.
  assert (Hlen : exists k, length (entry_wire e) = S (S (S (S k)))).
  { exists (length (entry_wire e) - 4)%nat. unfold entry_wire. rewrite !length_app.
    pose proof (tag_u64_length 1 (e_term e)). pose proof (tag_u64_length 2 (e_index e)). lia. }
  destruct Hlen as [k ->]. unfold entry_wire. rewrite u32_small by done.
  rewrite entry_term_step, entry_index_step, entry_type_step by done.
  destruct (Z.ltb_spec 0 (blen (e_data e))) as [Hp|Hp].
  - rewrite <- (app_nil_r (TAG_BYTES 4 (e_data e))). rewrite entry_data_step by lia.
    rewrite entry_loop_nil. by destruct e.
  - rewrite entry_loop_nil. destruct e as [t i y [|]]; [done|]. unfold blen in Hp; cbn in Hp; lia.
Qed.

Section MessageFields.
Variables (fuel : nat) (rest : bytes) (m : cetcd_msg) (es : list cetcd_entry).

Lemma msg_type_step v : in_u32 v ->
  msg_loop (S fuel) (TAG_U32 1 v ++ rest) m es = msg_loop fuel rest (m <| m_type := msg_type_of v |>) es.
Proof. wire_step. done. Qed.
Lemma msg_to_step v : in_u64 v ->
  msg_loop (S fuel) (TAG_U64 2 v ++ rest) m es = msg_loop fuel rest (m <| m_to := v |>) es.
Proof. wire_step. done. Qed.
Lemma msg_from_step v : in_u64 v ->
  msg_loop (S fuel) (TAG_U64 3 v ++ rest) m es = msg_loop fuel rest (m <| m_from := v |>) es.
Proof. wire_step. done. Qed.
Lemma msg_term_step v : in_u64 v ->
  msg_loop (S fuel) (TAG_U64 4 v ++ rest) m es = msg_loop fuel rest (m <| m_term := v |>) es.
Proof. wire_step. done. Qed.
Lemma msg_log_term_step v : in_u64 v ->
  msg_loop (S fuel) (TAG_U64 5 v ++ rest) m es = msg_loop fuel rest (m <| m_log_term := v |>) es.
Proof. wire_step. done. Qed.
Lemma msg_index_step v : in_u64 v ->
  msg_loop (S fuel) (TAG_U64 6 v ++ rest) m es = msg_loop fuel rest (m <| m_index := v |>) es.
Proof. wire_step. done. Qed.
Lemma msg_commit_step v : in_u64 v ->
  msg_loop (S fuel) (TAG_U64 7 v ++ rest) m es = msg_loop fuel rest (m <| m_commit := v |>) es.
Proof. wire_step. done. Qed.
Lemma msg_reject_step v : in_u64 v ->
  msg_loop (S fuel) (TAG_U64 8 v ++ rest) m es = msg_loop fuel rest (m <| m_reject := v |>) es.
Proof. wire_step. done. Qed.
Lemma msg_snapshot_step v : in_u64 v ->
  msg_loop (S fuel) (TAG_U64 9 v ++ rest) m es = msg_loop fuel rest (m <| m_snapshot := v |>) es.
Proof. wire_step. done. Qed.

Lemma msg_context_step d : blen d < 4294967296 ->
  msg_loop (S fuel) (TAG_BYTES 10 d ++ rest) m es = msg_loop fuel rest (m <| m_context := d |>) es.
Proof.
  intros Hd. pose proof (blen_nonneg d). wire_step. rewrite u32_small by (unfold in_u32; lia).
  rewrite blen_app. pose proof (blen_nonneg rest).
  destruct (Z.ltb_spec (blen d + blen rest) (blen d)); [lia|]. by rewrite take_blen, drop_blen.
Qed.

Lemma msg_entry_step e : entry_fits e -> blen (entry_wire e) < 4294967296 -> (length es < 256)%nat ->
  msg_loop (S fuel) (TAG_BYTES 11 (entry_wire e) ++ rest) m es = msg_loop fuel rest m (es ++ [e]).
Proof.
  intros He Hd Hn. pose proof (blen_nonneg (entry_wire e)). wire_step. rewrite u32_small by (unfold in_u32; lia).
  rewrite blen_app. pose proof (blen_nonneg rest).
  destruct (Z.ltb_spec (blen (entry_wire e) + blen rest) (blen (entry_wire e))); [lia|].
  rewrite take_blen, drop_blen. destruct (Nat.ltb_spec (length es) 256); [|lia]. cbn [andb].
  by rewrite decode_entry_wire.
Qed.
End MessageFields.

Lemma entry_wire_length e : blen (entry_wire e) <= entry_need e.
Proof.
  unfold entry_need, entry_wire, blen. rewrite !length_app.
  pose proof (tag_u64_length 1 (e_term e)). pose proof (tag_u64_length 2 (e_index e)).
  pose proof (tag_u32_length 3 (u32 (e_type e))). pose proof (tag_bytes_length 4 (e_data e)).
  case_match; cbn [length]; lia.
Qed.

Lemma entry_fits_length e : entry_fits e -> blen (entry_wire e) < 4294967296.
Proof. intros (_ & _ & _ & Hd). pose proof (entry_wire_length e). unfold entry_need in *. lia. Qed.

Lemma msg_loop_nil fuel m es : msg_loop fuel [] m es = Some (m, es).
Proof. by destruct fuel. Qed.

Lemma msg_entries_loop l fuel m es : Forall entry_fits l -> (length l <= fuel)%nat ->
  (length es + length l <= 256)%nat ->
  msg_loop fuel (concat (map (fun e => TAG_BYTES 11 (entry_wire e)) l)) m es = Some (m, es ++ l).
Proof.
  revert fuel es; induction l as [|e l IH]; intros fuel es Hl Hf Hn; cbn [map concat length] in *.
  { by rewrite msg_loop_nil, app_nil_r. }
  apply Forall_cons in Hl as [He Hl]. destruct fuel as [|fuel]; [lia|].
  rewrite msg_entry_step by (done || lia || by apply entry_fits_length).
  rewrite IH; [by rewrite <- app_assoc|done|lia|rewrite length_app; cbn; lia].
Qed.

Lemma entries_wire_length l :
  (length l <= length (concat (map (fun e => TAG_BYTES 11 (entry_wire e)) l)))%nat.
Proof.
  induction l as [|e l IH]; cbn [map concat length]; [lia|]. rewrite length_app.
  pose proof (tag_bytes_length 11 (entry_wire e)). lia.
Qed.

Lemma msg_type_roundtrip t : (forall n, t = CETCD_MSG_OTHER n -> 20 <= n) ->
  msg_type_of (msg_type_num t) = t.
Proof.
  intros Ht. destruct t; try reflexivity. specialize (Ht n eq_refl). cbn [msg_type_num]. unfold msg_type_of.
  destruct (Z.leb_spec 0 n), (Z.ltb_spec n 20); cbn [andb]; (lia || done).
Qed.

(** The wire round trip.  Decoding what [cetcd_msg_encode_wire] wrote
    yields the message again, with every field, the context and all entries,
    for any message whose fields fit their types and that has at most 256
    entries; in particular the decoder terminates and stays clear of undefined
    shifts on such input. *)
Theorem msg_wire_roundtrip m : msg_wire_ok m ->
  cetcd_msg_decode_wire (cetcd_msg_encode_wire m) = Some (Some m).
Proof.
  intros [[Hty Hot] Hto Hfr Ht Hlt Hi Hc Hr Hs Hctx Hes Hn]. unfold cetcd_msg_decode_wire.
  assert (Hlen : exists k, length (cetcd_msg_encode_wire m) = (10 + length (m_entries m) + k)%nat).
  { exists (length (cetcd_msg_encode_wire m) - (10 + length (m_entries m)))%nat.
    unfold cetcd_msg_encode_wire. rewrite !length_app. pose proof (entries_wire_length (m_entries m)).
    pose proof (tag_u32_length 1 (u32 (msg_type_num (m_type m)))). pose proof (tag_u64_length 2 (m_to m)).
    pose proof (tag_u64_length 3 (m_from m)). pose proof (tag_u64_length 4 (m_term m)).
    pose proof (tag_u64_length 5 (m_log_term m)). lia. }
  destruct Hlen as [k Hk]. destruct (Z.eqb_spec (blen (cetcd_msg_encode_wire m)) 0) as [E|_].
  { unfold blen in E. lia. }
  rewrite Hk. unfold cetcd_msg_encode_wire. rewrite u32_small by done. cbn [Nat.add].
  rewrite msg_type_step, msg_to_step, msg_from_step, msg_term_step, msg_log_term_step, msg_index_step,
    msg_commit_step, msg_reject_step by done. rewrite msg_type_roundtrip by done.
  set (m8 := zero_msg <| m_type := _ |> <| m_to := _ |> <| m_from := _ |> <| m_term := _ |>
               <| m_log_term := _ |> <| m_index := _ |> <| m_commit := _ |> <| m_reject := _ |>).
  assert (Hfin : forall fuel m', m' = m <| m_entries := [] |> -> (length (m_entries m) <= fuel)%nat ->
    ('(msg, entries) ← msg_loop fuel (concat (map (fun e => TAG_BYTES 11 (entry_wire e)) (m_entries m))) m' [];
     Some (Some (if (0 <? length entries)%nat then msg <| m_entries := entries |> else msg))) = Some (Some m)).
  { intros fuel m' -> Hf. rewrite msg_entries_loop by (done || lia). cbn [mbind option_bind app].
    destruct m as [? ? ? ? ? ? ? ? es ? ?]. by destruct es. }
  assert (H8 : m8 = m <| m_entries := [] |> <| m_snapshot := 0 |> <| m_context := [] |>) by reflexivity.
  assert (Hctx0 : blen (m_context m) <= 0 -> m_context m = [])
    by (destruct (m_context m); [done|unfold blen; cbn; lia]).
  destruct (Z.eqb_spec (m_snapshot m) 0) as [Es|Es], (Z.ltb_spec 0 (blen (m_context m))) as [Ec|Ec];
    cbn [negb app]; rewrite ?msg_snapshot_step, ?msg_context_step by done; apply Hfin; try lia;
    rewrite H8; try apply Hctx0 in Ec; destruct m; cbn in *; subst; reflexivity.
Qed.

(** A message with every optional part. *)
Definition sample_msg : cetcd_msg :=
  mk_msg CETCD_MSG_APP 2 1 300 299 18446744073709551615 7 0
    [mk_entry 300 8 0 [1; 2; 3]; mk_entry 300 9 1 []] 5 [9; 9].

Lemma sample_msg_ok : msg_wire_ok sample_msg.
Proof.
  split; cbn [sample_msg m_type m_to m_from m_term m_log_term m_index m_commit m_reject m_snapshot m_context m_entries].
  2-9: unfold in_u64; lia.
  - cbn. unfold in_u32. split; [lia|done].
  - reflexivity.
  - repeat constructor; reflexivity || discriminate.
  - cbn. lia.
Qed.

Lemma msg_wire_roundtrip_witness :
  cetcd_msg_decode_wire (cetcd_msg_encode_wire sample_msg) = Some (Some sample_msg).
Proof. exact (msg_wire_roundtrip sample_msg sample_msg_ok). Defined.

(** The encoder stays inside its allocations.  The bytes written for a
    message never exceed the size computed before encoding, and those of one
    entry never exceed the temporary buffer. *)
Theorem msg_encode_fits m :
  blen (cetcd_msg_encode_wire m) <= encode_need m /\
  Forall (fun e => blen (entry_wire e) <= entry_need e) (m_entries m).
Proof.
  split; [|apply Forall_forall; intros; apply entry_wire_length].
  assert (He : forall l, blen (concat (map (fun e => TAG_BYTES 11 (entry_wire e)) l)) <=
    foldr (fun e n => 1 + 5 + 40 + blen (e_data e) + n) 0 l).
  { induction l as [|e l IH]; cbn [map concat foldr]; [unfold blen; cbn; lia|]. rewrite blen_app.
    pose proof (entry_wire_length e). pose proof (tag_bytes_length 11 (entry_wire e)).
    unfold entry_need, blen in *. lia. }
  specialize (He (m_entries m)). unfold cetcd_msg_encode_wire, encode_need. rewrite !blen_app.
  pose proof (tag_u32_length 1 (u32 (msg_type_num (m_type m)))). pose proof (tag_u64_length 2 (m_to m)).
  pose proof (tag_u64_length 3 (m_from m)). pose proof (tag_u64_length 4 (m_term m)).
  pose proof (tag_u64_length 5 (m_log_term m)). pose proof (tag_u64_length 6 (m_index m)).
  pose proof (tag_u64_length 7 (m_commit m)). pose proof (tag_u64_length 8 (m_reject m)).
  pose proof (tag_u64_length 9 (m_snapshot m)). pose proof (tag_bytes_length 10 (m_context m)).
  repeat case_match; unfold blen in *; cbn [length] in *; lia.
Qed.

(** A varint of eleven continuation bytes shifts a 64-bit value by 70. *)
Example long_varint_undefined : dec_u64_ (replicate 11 128) = None.
Proof. reflexivity. Qed.
