(* ===== verification/RaftFindings.v ===== *)
(** * Runs of the raft node that break the protocol's guarantees

    Each run starts from [cetcd_raft_new] and only exchanges messages the nodes
    themselves queued, so the states are reachable in a cluster of three.  The
    handlers are those of [Raft]; everything is evaluated. *)

From S2P Require Import Prelude Raft RaftState RaftQuorum RaftLog.

(** ** A small cluster *)

(** Node [id] of the cluster 1, 2, 3. *)
Definition member (id : Z) : cetcd_raft :=
  match cetcd_raft_new (mk_config id 10 1 0 0 false false) with
  | Some r => cetcd_raft_apply_conf_change r [1; 2; 3] []
  | None => empty_raft
  end.

Definition hup : cetcd_msg := zero_msg <| m_type := CETCD_MSG_HUP |>.
Definition beat : cetcd_msg := zero_msg <| m_type := CETCD_MSG_BEAT |>.
Definition stepped (r : cetcd_raft) (m : cetcd_msg) : cetcd_raft := (cetcd_raft_step r m).1.

Definition same_type (a b : cetcd_msg_type) : bool :=
  match a, b with
  | CETCD_MSG_VOTE, CETCD_MSG_VOTE | CETCD_MSG_VOTE_RESP, CETCD_MSG_VOTE_RESP
  | CETCD_MSG_APP, CETCD_MSG_APP | CETCD_MSG_APP_RESP, CETCD_MSG_APP_RESP
  | CETCD_MSG_HEARTBEAT, CETCD_MSG_HEARTBEAT => true
  | _, _ => false
  end.

(** The last queued message of a type for a peer. *)
Definition sent (r : cetcd_raft) (t : cetcd_msg_type) (to : Z) : cetcd_msg :=
  default zero_msg (last (List.filter (fun m => same_type (m_type m) t && (m_to m =? to)) (r_pending_msgs r))).

(** ** Two leaders in one term

    Node 1 campaigns in term 1 and node 3 grants its vote; the reply is
    delayed.  Nodes 1 and 2 both campaign in term 2, node 3 votes for node 2,
    which becomes leader of term 2.  Then the delayed reply of term 1 reaches
    node 1, which counts it for term 2. *)

Definition n1_t1 := stepped (member 1) hup.
Definition n3_a := stepped (member 3) (sent n1_t1 CETCD_MSG_VOTE 3).
Definition delayed_reply := sent n3_a CETCD_MSG_VOTE_RESP 1.
Definition n1_t2 := stepped n1_t1 hup.
Definition n2_t2 := stepped (stepped (member 2) hup) hup.
Definition n3_b := stepped n3_a (sent n2_t2 CETCD_MSG_VOTE 3).
Definition n2_leader := stepped n2_t2 (sent n3_b CETCD_MSG_VOTE_RESP 2).
Definition n1_leader := stepped n1_t2 delayed_reply.

(** [handle_vote_resp_] does not compare the reply's term with the current one
    from below, so two leaders of term 2 exist at once. *)
Theorem stale_vote_two_leaders :
  m_term delayed_reply = 1 /\ r_term n1_t2 = 2 /\
  r_role n2_leader = ROLE_LEADER /\ r_term n2_leader = 2 /\
  r_role n1_leader = ROLE_LEADER /\ r_term n1_leader = 2.
Proof. vm_compute. repeat split. Qed.

(** ** A heartbeat commits an entry the leader does not have

    Node 1 leads term 1 and appends [a], which reaches nobody.  Node 2 leads
    term 2, appends [b] at the same index, replicates it to node 3 and commits
    it.  Its heartbeat then moves the commit index of node 1 onto [a]. *)

Definition l1 := stepped n1_t1 (sent n3_a CETCD_MSG_VOTE_RESP 1).
Definition l1_a := (cetcd_raft_propose l1 [97]).1.
Definition l2_b := (cetcd_raft_propose n2_leader [98]).1.
Definition n3_c := stepped n3_b (sent l2_b CETCD_MSG_APP 3).
Definition l2_committed := stepped l2_b (sent n3_c CETCD_MSG_APP_RESP 2).
Definition l2_beat := stepped l2_committed beat.
Definition n1_after := stepped l1_a (sent l2_beat CETCD_MSG_HEARTBEAT 1).

(** [handle_heartbeat_] follows the commit index of the message, bounded only
    by its own last index, and [maybe_send] does not bound it by the match
    index: nodes 1 and 2 have committed different entries at index 1. *)
Theorem heartbeat_commits_divergent_entry :
  r_commit l2_committed = 1 /\ cetcd_raft_entry_at l2_committed 1 = Some (mk_entry 2 1 0 [98]) /\
  r_commit n1_after = 1 /\ cetcd_raft_entry_at n1_after 1 = Some (mk_entry 1 1 0 [97]).
Proof. vm_compute. repeat split. Qed.

(** ** A diverged follower is never repaired

    The rejection of a mismatch carries the probed index itself, so the hint
    [index + 1] is the [next_idx] the leader already has. *)

Lemma reject_keeps_next r m slot :
  r_role r = ROLE_LEADER -> m_term m <= r_term r -> peer_slot_ r (m_from m) = Some slot ->
  m_reject m <> 0 -> 0 <= m_index m < 18446744073709551615 ->
  next_idx (progress_at r slot) = m_index m + 1 -> match_idx (progress_at r slot) <= m_index m ->
  r_log_compacted r = 0 -> (slot < length (r_progress r))%nat ->
  (handle_app_resp_ r m).1 =
  maybe_send_app_ (set_progress r slot ((progress_at r slot) <| pending_app := false |>)) slot.
Proof.
  intros Hl Ht Hs Hr Hi Hn Hm Hc Hlen. unfold handle_app_resp_. cbv zeta. rewrite Hl, Hs. cbn [is_leader negb].
  destruct (Z.ltb_spec (r_term r) (m_term m)); [lia|]. destruct (Z.eqb_spec (m_reject m) 0); [done|].
  rewrite (u64_small (m_index m + 1)) by (unfold in_u64; lia).
  destruct (Z.ltb_spec (m_index m + 1) 1); [lia|].
  set (r1 := set_progress r slot _).
  assert (Hp : progress_at r1 slot = (progress_at r slot) <| pending_app := false |>).
  { unfold r1, progress_at, set_progress. cbn. by rewrite list_lookup_insert, decide_True by done. }
  rewrite Hp. cbn [next_idx match_idx field_set]. rewrite Hn.
  destruct (Z.ltb_spec (m_index m + 1) (m_index m + 1)); [lia|]. rewrite Hp. cbn [match_idx field_set].
  destruct (Z.ltb_spec (m_index m) (match_idx (progress_at r slot))); [lia|]. cbn [fst].
  f_equal. unfold maybe_send_snap_. change (r_log_compacted r1) with (r_log_compacted r). rewrite Hc.
  by repeat case_match.
Qed.

(** Node 1, left with [a] of term 1 at index 1, is led by node 2, re-elected
    in term 4 with [b] at index 1: each App is refused and resent unchanged. *)
Definition n3_t3 := stepped n3_c hup.
Definition n2_t4 := stepped (stepped l2_committed (sent n3_t3 CETCD_MSG_VOTE 2)) hup.
Definition n3_t4 := stepped n3_t3 (sent n2_t4 CETCD_MSG_VOTE 3).
Definition l2_t4 := (cetcd_raft_propose (stepped n2_t4 (sent n3_t4 CETCD_MSG_VOTE_RESP 2)) [99]).1.

(** One round: the App reaches node 1, its reply reaches the leader. *)
Definition round (p : cetcd_raft * cetcd_raft) : cetcd_raft * cetcd_raft :=
  let '(leader, follower) := p in
  let follower := stepped follower (sent leader CETCD_MSG_APP 1) in
  let leader := stepped leader (sent follower CETCD_MSG_APP_RESP 2) in
  (leader, follower).

Definition probe (p : cetcd_raft * cetcd_raft) : Z * Z * Z :=
  let m := sent p.1 CETCD_MSG_APP 1 in (m_index m, m_log_term m, r_log_last_index p.2).

Theorem mismatch_never_repaired :
  r_role l2_t4 = ROLE_LEADER /\
  probe (l2_t4, l1_a) = (1, 2, 1) /\
  forall n, (n <= 20)%nat ->
    probe (Nat.iter n round (l2_t4, l1_a)) = (1, 2, 1) /\
    cetcd_raft_entry_at (Nat.iter n round (l2_t4, l1_a)).2 1 = Some (mk_entry 1 1 0 [97]).
Proof.
  split; [vm_compute; reflexivity|]. split; [vm_compute; reflexivity|].
  intros n Hn. do 21 (destruct n as [|n]; [split; vm_compute; reflexivity|]). lia.
Qed.

(** ** Single handlers

    The states below are given, not reached by a run. *)

(** A follower whose entries 2 and 3 are leftovers of term 2. *)
Definition leftover : cetcd_raft :=
  (member 3) <| r_term := 2 |> <| r_log_last_index := 3 |> <| r_log_last_term := 2 |>
    <| r_log := {[ 1 := mk_entry 1 1 0 [97]; 2 := mk_entry 2 2 0 [120]; 3 := mk_entry 2 3 0 [121] ]} |>.

(** A leader of term 3 with [c] at index 2, sending entry 1 alone. *)
Definition leader_t3 : cetcd_raft :=
  (member 1) <| r_role := ROLE_LEADER |> <| r_term := 3 |> <| r_log_last_index := 2 |> <| r_log_last_term := 3 |>
    <| r_log := {[ 1 := mk_entry 1 1 0 [97]; 2 := mk_entry 3 2 0 [99] ]} |>.
Definition app_one : cetcd_msg :=
  zero_msg <| m_type := CETCD_MSG_APP |> <| m_from := 1 |> <| m_to := 3 |> <| m_term := 3 |>
    <| m_entries := [mk_entry 1 1 0 [97]] |>.

(** The acknowledgement names the follower's last index, not the last index the
    message covered: the leader takes 3 as matched and commits index 2, which
    the follower holds with another entry. *)
Theorem ack_exceeds_match :
  let follower := stepped leftover app_one in
  let ack := sent follower CETCD_MSG_APP_RESP 1 in
  m_index ack = 3 /\ m_reject ack = 0 /\
  r_commit (stepped leader_t3 ack) = 2 /\
  cetcd_raft_entry_at leader_t3 2 = Some (mk_entry 3 2 0 [99]) /\
  cetcd_raft_entry_at follower 2 = Some (mk_entry 2 2 0 [120]).
Proof. vm_compute. repeat split. Qed.

(** A follower that compacted its log up to 2 and has committed 3. *)
Definition compacted : cetcd_raft :=
  (cetcd_raft_compact (leftover <| r_commit := 3 |>) 2 2).1.

(** An App that starts at index 1 conflicts with the compacted prefix, whose
    term reads as 0: the committed log is truncated to the message. *)
Theorem app_truncates_committed :
  r_commit (stepped compacted app_one) = 3 /\ r_log_compacted (stepped compacted app_one) = 2 /\
  r_log_last_index (stepped compacted app_one) = 1.
Proof. vm_compute. repeat split. Qed.

Definition snap_2 : cetcd_msg :=
  zero_msg <| m_type := CETCD_MSG_SNAP |> <| m_from := 1 |> <| m_to := 3 |> <| m_term := 5 |>
    <| m_snapshot := 2 |> <| m_index := 2 |> <| m_log_term := 4 |>.

(** A snapshot that contradicts the log at its last index keeps the suffix
    behind it: entry 3 of term 2 follows the boundary of term 4. *)
Theorem snap_keeps_conflicting_suffix :
  log_term_at_ (stepped leftover snap_2) 2 = 4 /\ log_term_at_ (stepped leftover snap_2) 3 = 2 /\
  r_log_last_index (stepped leftover snap_2) = 3 /\ r_log_last_term (stepped leftover snap_2) = 2.
Proof. vm_compute. repeat split. Qed.
