(* ===== verification/Wal.v ===== *)
(** * The write-ahead log (src/wal/encoder.c, src/wal/decoder.c)

    A log file is the list of its bytes: the encoder appends to it, the decoder
    consumes it.  Reads past the end are short as [fread] makes them; writes
    and allocations are taken to succeed, except in [cetcd_wal_encoder_release],
    whose system calls are given as an outcome record.  [running_crc] is never
    read and is left out, as are the path helpers. *)

From S2P Require Import Prelude Hash Raft RaftWire.

(** ** Encoding *)

(** The same loop as [wire_u64_]. *)
Definition wbuf_write_varint (v : Z) : bytes := wire_loop 10 v.

Definition CETCD_WAL_METADATA : Z := 1.
Definition CETCD_WAL_ENTRY : Z := 2.
Definition CETCD_WAL_STATE : Z := 3.
Definition CETCD_WAL_CRC : Z := 4.
Definition CETCD_WAL_SNAPSHOT : Z := 5.

Record cetcd_wal_record : Type := mk_wal_record { w_type : Z; w_crc : Z; w_data : bytes }.

#[export] Instance wal_record_eta : RecordEta cetcd_wal_record := fun r =>
  mk_wal_record (w_type r) (w_crc r) (w_data r).

Definition cetcd_wal_record_init : cetcd_wal_record := mk_wal_record CETCD_WAL_METADATA 0 [].

Definition cetcd_wal_write_frame (fp : bytes) (buf : bytes) (pad : Z) : bytes :=
  let header := Z.land (blen buf) 72057594037927935 in          (* 0x00FFFFFFFFFFFFFF *)
  let header := if 0 <? pad then Z.lor header (u64 (Z.shiftl (Z.lor 128 pad) 56)) else header in
  fp ++ le_put 8 header ++ buf ++ replicate (Z.to_nat pad) 0.

Definition cetcd_wal_encode (fp : bytes) (rec : cetcd_wal_record) : bytes :=
  let rec := if (0 <? blen (w_data rec)) && (w_crc rec =? 0)
             then rec <| w_crc := wal_crc32c 0 (w_data rec) |> else rec in
  let w := [8] ++ wbuf_write_varint (w_type rec) ++ [16] ++ wbuf_write_varint (w_crc rec) ++
           [26] ++ wbuf_write_varint (blen (w_data rec)) ++ w_data rec in
  let pad := (8 - blen w mod 8) mod 8 in
  cetcd_wal_write_frame fp w pad.

Definition cetcd_wal_encode_metadata (fp : bytes) (data : bytes) : bytes :=
  cetcd_wal_encode fp (mk_wal_record CETCD_WAL_METADATA 0 data).

Definition entry_payload (entry : cetcd_entry) : bytes :=
  [8] ++ wbuf_write_varint (e_term entry) ++ [16] ++ wbuf_write_varint (e_index entry) ++
  [24] ++ wbuf_write_varint (e_type entry) ++ [34] ++ wbuf_write_varint (blen (e_data entry)) ++
  e_data entry.

Definition cetcd_wal_encode_entry (fp : bytes) (entry : cetcd_entry) : bytes :=
  let w := entry_payload entry in
  cetcd_wal_encode fp (mk_wal_record CETCD_WAL_ENTRY (wal_crc32c 0 w) w).

Definition hard_state_payload (hs : cetcd_hard_state) : bytes :=
  [8] ++ wbuf_write_varint (hs_term hs) ++ [16] ++ wbuf_write_varint (hs_vote hs) ++
  [24] ++ wbuf_write_varint (hs_commit hs).

Definition cetcd_wal_encode_hard_state (fp : bytes) (hs : cetcd_hard_state) : bytes :=
  let w := hard_state_payload hs in
  cetcd_wal_encode fp (mk_wal_record CETCD_WAL_STATE (wal_crc32c 0 w) w).

Definition snapshot_payload (index term : Z) : bytes :=
  [8] ++ wbuf_write_varint index ++ [16] ++ wbuf_write_varint term.

(** The file and the return value; index 0 is refused. *)
Definition cetcd_wal_encode_snapshot (fp : bytes) (index term : Z) : bytes * Z :=
  if index =? 0 then (fp, -1)
  else
    let w := snapshot_payload index term in
    (cetcd_wal_encode fp (mk_wal_record CETCD_WAL_SNAPSHOT (wal_crc32c 0 w) w), 0).

(** ** Replacing the segment *)

(** The encoder: the file at its path, whether [fp] is open for append, and what
    of the file is known to be on disk, its content at the last successful
    [fsync] of this encoder. *)
Record cetcd_wal_encoder : Type := mk_wal_encoder { enc_file : bytes; enc_open : bool; enc_synced : bytes }.

(** Which system calls of a release succeed. *)
Record release_io : Type := mk_release_io {
  io_create : bool; io_write : bool; io_sync : bool; io_rename : bool; io_reopen : bool
}.

Definition cetcd_wal_encoder_release (io : release_io) (enc : cetcd_wal_encoder)
  (snap_index snap_term : Z) (hs : cetcd_hard_state) : cetcd_wal_encoder * Z :=
  if negb (enc_open enc) || (snap_index =? 0) then (enc, -1)
  else if negb (io_create io) then (enc, -1)
  else
    let '(fresh, rc) := cetcd_wal_encode_snapshot [] snap_index snap_term in
    let fresh := cetcd_wal_encode_hard_state fresh hs in
    if negb (rc =? 0) || negb (io_write io) || negb (io_sync io) then (enc, -1)
    else if negb (io_rename io) then (mk_wal_encoder (enc_file enc) (io_reopen io) (enc_synced enc), -1)
    else (mk_wal_encoder fresh (io_reopen io) fresh, if io_reopen io then 0 else -1).

(** ** Decoding *)

(** [read_varint] of the decoder and [read_varint_local_] of the encoder;
    [None] is -1. *)
Fixpoint read_varint_loop (buf : bytes) (v shift : Z) : option (Z * bytes) :=
  match buf with
  | [] => None
  | b :: rest =>
      if 64 <=? shift then None
      else
        let v := Z.lor v (u64 (Z.shiftl (Z.land b 127) shift)) in
        if Z.land b 128 =? 0 then Some (v, rest) else read_varint_loop rest v (shift + 7)
  end.

Definition read_varint (buf : bytes) : option (Z * bytes) := read_varint_loop buf 0 0.

(** The bytes of a length-delimited field; [None] when it overruns. *)
Definition read_bytes (buf : bytes) : option (bytes * bytes) :=
  '(l, buf) ← read_varint buf;
  if blen buf <? l then None else Some (take (Z.to_nat l) buf, drop (Z.to_nat l) buf).

(** The parse of one frame; [None] is [malformed].  Every iteration consumes a
    byte of the frame, so its length is enough fuel. *)
Fixpoint record_loop (fuel : nat) (frame : bytes) (tmp : cetcd_wal_record) : option cetcd_wal_record :=
  match fuel, frame with
  | _, [] => Some tmp
  | O, _ => None
  | S fuel, _ =>
      '(tag, frame) ← read_varint frame;
      let field := Z.shiftr tag 3 in
      let wire := Z.land tag 7 in
      if (field =? 1) && (wire =? 0) then
        '(val, frame) ← read_varint frame;
        record_loop fuel frame (tmp <| w_type := u32 val |>)
      else if (field =? 2) && (wire =? 0) then
        '(val, frame) ← read_varint frame;
        record_loop fuel frame (tmp <| w_crc := u32 val |>)
      else if (field =? 3) && (wire =? 2) then
        '(d, frame) ← read_bytes frame;
        record_loop fuel frame (tmp <| w_data := d |>)
      else if wire =? 0 then
        '(_, frame) ← read_varint frame; record_loop fuel frame tmp
      else if wire =? 1 then
        if blen frame <? 8 then None else record_loop fuel (drop 8 frame) tmp
      else if wire =? 2 then
        '(_, frame) ← read_bytes frame; record_loop fuel frame tmp
      else if wire =? 5 then
        if blen frame <? 4 then None else record_loop fuel (drop 4 frame) tmp
      else None
  end.

(** The stream left to read, the return value, and the record stored. *)
Definition cetcd_wal_decode (fp : bytes) : bytes * Z * option cetcd_wal_record :=
  let hdr := take 8 fp in
  let fp := drop 8 fp in
  if negb (blen hdr =? 8) then (fp, -1, None)
  else
    let header := le_get hdr in
    let plen := Z.land header 72057594037927935 in
    let has_pad := negb (Z.land header 9223372036854775808 =? 0) in
    let pad := if has_pad then Z.land (Z.shiftr header 56) 127 else 0 in
    if 0 <? plen then
      let frame := take (Z.to_nat plen) fp in
      let fp := drop (Z.to_nat plen) fp in
      if negb (blen frame =? plen) then (fp, -1, None)
      else
        let fp := drop (Z.to_nat pad) fp in
        match record_loop (length frame) frame cetcd_wal_record_init with
        | None => (fp, -3, None)
        | Some tmp =>
            let ret := if (0 <? blen (w_data tmp)) && negb (wal_crc32c 0 (w_data tmp) =? w_crc tmp)
                       then -2 else 0 in
            (fp, ret, Some tmp)
        end
    else (fp, -1, None).

(** ** Payload decoders *)

Fixpoint wal_entry_loop (fuel : nat) (data : bytes) (out : cetcd_entry) : option cetcd_entry :=
  match fuel, data with
  | _, [] => Some out
  | O, _ => None
  | S fuel, _ =>
      '(tag, data) ← read_varint data;
      let field := Z.shiftr tag 3 in
      let wire := Z.land tag 7 in
      if (field =? 1) && (wire =? 0) then
        '(v, data) ← read_varint data; wal_entry_loop fuel data (out <| e_term := v |>)
      else if (field =? 2) && (wire =? 0) then
        '(v, data) ← read_varint data; wal_entry_loop fuel data (out <| e_index := v |>)
      else if (field =? 3) && (wire =? 0) then
        '(v, data) ← read_varint data; wal_entry_loop fuel data (out <| e_type := u32 v |>)
      else if (field =? 4) && (wire =? 2) then
        '(d, data) ← read_bytes data;
        wal_entry_loop fuel data (if 0 <? blen d then out <| e_data := d |> else out)
      else if wire =? 0 then
        '(_, data) ← read_varint data; wal_entry_loop fuel data out
      else if wire =? 2 then
        '(_, data) ← read_bytes data; wal_entry_loop fuel data out
      else None
  end.

Definition cetcd_wal_decode_entry (data : bytes) : option cetcd_entry :=
  wal_entry_loop (length data) data zero_entry.

(** The struct written and the return value: a failing call leaves the fields
    read so far in the caller's struct. *)
Fixpoint hard_state_loop (fuel : nat) (data : bytes) (out : cetcd_hard_state) : cetcd_hard_state * Z :=
  match fuel, data with
  | _, [] => (out, 0)
  | O, _ => (out, -1)
  | S fuel, _ =>
      match read_varint data with
      | None => (out, -1)
      | Some (tag, data) =>
          let field := Z.shiftr tag 3 in
          let wire := Z.land tag 7 in
          if negb (wire =? 0) then (out, -1)
          else
            match read_varint data with
            | None => (out, -1)
            | Some (v, data) =>
                hard_state_loop fuel data
                  (if field =? 1 then mk_hard_state v (hs_vote out) (hs_commit out)
                   else if field =? 2 then mk_hard_state (hs_term out) v (hs_commit out)
                   else if field =? 3 then mk_hard_state (hs_term out) (hs_vote out) v else out)
            end
      end
  end.

Definition cetcd_wal_decode_hard_state (data : bytes) : cetcd_hard_state * Z :=
  hard_state_loop (length data) data (mk_hard_state 0 0 0).

Fixpoint snapshot_loop (fuel : nat) (data : bytes) (out : Z * Z) : option (Z * Z) :=
  match fuel, data with
  | _, [] => Some out
  | O, _ => None
  | S fuel, _ =>
      '(tag, data) ← read_varint data;
      let field := Z.shiftr tag 3 in
      let wire := Z.land tag 7 in
      if negb (wire =? 0) then None
      else
        '(v, data) ← read_varint data;
        snapshot_loop fuel data (if field =? 1 then (v, out.2) else if field =? 2 then (out.1, v) else out)
  end.

Definition cetcd_wal_decode_snapshot (data : bytes) : option (Z * Z) :=
  snapshot_loop (length data) data (0, 0).

Example wal_entry_sample :
  cetcd_wal_decode (cetcd_wal_encode_entry [] (mk_entry 3 7 0 [1; 2])) =
  ([], 0, Some (mk_wal_record 2 (wal_crc32c 0 (entry_payload (mk_entry 3 7 0 [1; 2])))
                  (entry_payload (mk_entry 3 7 0 [1; 2])))).
Proof. vm_compute. reflexivity. Qed.

(** ** Varints and header *)

Lemma read_wire_loop fuel v acc shift rest : (0 < fuel)%nat -> 0 <= v < 2 ^ (7 * Z.of_nat fuel) ->
  read_varint_loop (wire_loop fuel v ++ rest) acc shift = dec_loop 64 (wire_loop fuel v ++ rest) acc shift.
Proof.
  revert v acc shift; induction fuel as [|fuel IH]; intros v acc shift Hf Hv; [lia|].
  cbn [wire_loop]. cbv zeta. rewrite Nat2Z.inj_succ, Z.mul_succ_r, Z.pow_add_r in Hv by lia.
  change (2 ^ 7) with 128 in Hv.
  destruct (Z.eqb_spec (Z.shiftr v 7) 0) as [Hz|Hz]; cbn [app read_varint_loop dec_loop]; cbv zeta;
    change (2 ^ 64) with 18446744073709551616; (case_match; [done|]).
  - pose proof (Z.mod_pos_bound v 128 ltac:(lia)) as Hm. rewrite land_127.
    by destruct (varint_last (v mod 128) Hm) as [-> ->].
  - case_match; [done|]. rewrite Z.shiftr_div_pow2 in * by lia. change (2 ^ 7) with 128 in *.
    apply IH.
    + destruct fuel; [|lia]. cbn in Hv. exfalso. apply Hz, Z.div_small. lia.
    + split; [apply Z.div_pos; lia|]. apply Z.div_lt_upper_bound; lia.
Qed.

Lemma read_write_varint v rest : in_u64 v -> read_varint (wbuf_write_varint v ++ rest) = Some (v, rest).
Proof.
  intros Hv. unfold read_varint, wbuf_write_varint. rewrite read_wire_loop; [|lia|cbn; unfold in_u64 in Hv; lia].
  exact (dec_wire_u64 v rest Hv).
Qed.

Lemma read_byte b rest : 0 <= b < 128 -> read_varint (b :: rest) = Some (b, rest).
Proof.
  intros Hb. unfold read_varint. cbn [read_varint_loop]. cbv zeta. destruct (varint_last b Hb) as [-> ->].
  rewrite Z.shiftl_0_r, Z.lor_0_l, u64_small by (unfold in_u64; lia). reflexivity.
Qed.

Lemma read_bytes_written d rest : blen d < 18446744073709551616 ->
  read_bytes (wbuf_write_varint (blen d) ++ d ++ rest) = Some (d, rest).
Proof.
  intros Hd. pose proof (blen_nonneg d). unfold read_bytes. rewrite read_write_varint by (unfold in_u64; lia).
  cbn [mbind option_bind]. rewrite blen_app. pose proof (blen_nonneg rest).
  destruct (Z.ltb_spec (blen d + blen rest) (blen d)); [lia|]. by rewrite take_blen, drop_blen.
Qed.


(** ** Records *)

Definition frame_body (rec : cetcd_wal_record) : bytes :=
  [8] ++ wbuf_write_varint (w_type rec) ++ [16] ++ wbuf_write_varint (w_crc rec) ++
  [26] ++ wbuf_write_varint (blen (w_data rec)) ++ w_data rec.

Definition frame_pad (rec : cetcd_wal_record) : Z := (8 - blen (frame_body rec) mod 8) mod 8.

Definition frame_header (len pad : Z) : Z :=
  if 0 <? pad then Z.lor (Z.land len 72057594037927935) (u64 (Z.shiftl (Z.lor 128 pad) 56))
  else Z.land len 72057594037927935.

(** The record as stored: with its checksum filled in. *)
Definition sealed (rec : cetcd_wal_record) : cetcd_wal_record :=
  if (0 <? blen (w_data rec)) && (w_crc rec =? 0)
  then rec <| w_crc := wal_crc32c 0 (w_data rec) |> else rec.

Definition frame (rec : cetcd_wal_record) : bytes :=
  le_put 8 (frame_header (blen (frame_body rec)) (frame_pad rec)) ++ frame_body rec ++
  replicate (Z.to_nat (frame_pad rec)) 0.

Lemma encode_frame fp rec : cetcd_wal_encode fp rec = fp ++ frame (sealed rec).
Proof. reflexivity. Qed.

Lemma frame_pad_range rec : 0 <= frame_pad rec < 8.
Proof. unfold frame_pad. apply Z.mod_pos_bound. lia. Qed.

(** The fields of a header read back as written. *)
Lemma header_fields len pad : 0 <= len < 72057594037927936 -> 0 <= pad < 8 ->
  let h := frame_header len pad in
  in_u64 h /\ Z.land h 72057594037927935 = len /\
  (if negb (Z.land h 9223372036854775808 =? 0) then Z.land (Z.shiftr h 56) 127 else 0) = pad.
Proof.
  intros Hl Hp. unfold frame_header. change 72057594037927935 with (Z.ones 56).
  rewrite (Z.land_ones len) by lia. rewrite (Z.mod_small len) by (cbn; lia).
  destruct (Z.ltb_spec 0 pad) as [Hpos|Hz].
  - assert (E : Z.lor 128 pad = 128 + pad) by (assert (pad = 1 \/ pad = 2 \/ pad = 3 \/ pad = 4 \/ pad = 5 \/ pad = 6 \/ pad = 7)
      as Hc by lia; decompose [or] Hc; subst; reflexivity).
    rewrite E, u64_small by (unfold in_u64; rewrite Z.shiftl_mul_pow2 by lia; cbn; lia).
    rewrite lor_shiftl_add by (cbn; lia). cbv zeta. set (h := len + (128 + pad) * 2 ^ 56).
    assert (Hd : h / 2 ^ 56 = 128 + pad) by (symmetry; apply Z.div_unique with len; subst h; cbn; lia).
    assert (Hm : h mod 2 ^ 56 = len) by (symmetry; apply Z.mod_unique with (128 + pad); subst h; cbn; lia).
    split; [unfold in_u64; subst h; cbn; lia|]. rewrite Z.land_ones by lia. split; [exact Hm|].
    destruct (Z.eqb_spec (Z.land h 9223372036854775808) 0) as [E0|_]; cbn [negb].
    + exfalso. apply (f_equal (fun z => Z.testbit z 63)) in E0.
      rewrite Z.land_spec, Z.testbit_0_l in E0. change (Z.testbit 9223372036854775808 63) with true in E0.
      rewrite andb_true_r, Z.testbit_eqb, Z.eqb_neq in E0 by lia. apply E0.
      assert (h / 2 ^ 63 = 1) as -> by (symmetry; apply Z.div_unique with (len + pad * 2 ^ 56); subst h; cbn; lia).
      reflexivity.
    + rewrite Z.shiftr_div_pow2, Hd, land_127 by lia. symmetry. apply Z.mod_unique with 1; lia.
  - cbv zeta. split; [unfold in_u64; lia|]. split; [rewrite Z.land_ones by lia; apply Z.mod_small; cbn; lia|].
    assert (Z.land len 9223372036854775808 = 0) as ->; [|cbn; lia].
    bitwise n Hn. destruct (decide (n = 63)) as [->|].
    + rewrite (testbit_above len 56 63) by (cbn; lia). done.
    + change 9223372036854775808 with (2 ^ 63). rewrite Z.pow2_bits_false by lia. by rewrite andb_false_r.
Qed.

(** A record the format carries: 32-bit type and checksum, length below the
    56-bit limit of the header. *)
Definition record_fits (rec : cetcd_wal_record) : Prop :=
  in_u32 (w_type rec) /\ in_u32 (w_crc rec) /\ blen (w_data rec) < 72057594037927000.

Definition crc_good (rec : cetcd_wal_record) : Prop :=
  w_data rec = [] \/ w_crc rec = wal_crc32c 0 (w_data rec).

Lemma varint_length v : (0 < length (wbuf_write_varint v) <= 10)%nat.
Proof. unfold wbuf_write_varint. split; [apply wire_loop_pos; lia|apply wire_loop_length]. Qed.

Lemma frame_body_length rec : 6 <= blen (frame_body rec) <= 33 + blen (w_data rec).
Proof.
  unfold frame_body, blen. rewrite !length_app. cbn [length].
  pose proof (varint_length (w_type rec)). pose proof (varint_length (w_crc rec)).
  pose proof (varint_length (blen (w_data rec))) as Hx. unfold blen in Hx. lia.
Qed.

Lemma record_loop_nil fuel tmp : record_loop fuel [] tmp = Some tmp.
Proof. by destruct fuel. Qed.

Section RecordFields.
Variables (fuel : nat) (rest : bytes) (tmp : cetcd_wal_record).

Lemma record_type_step v : in_u32 v ->
  record_loop (S fuel) ([8] ++ wbuf_write_varint v ++ rest) tmp = record_loop fuel rest (tmp <| w_type := v |>).
Proof.
  intros Hv. cbn [app record_loop]. rewrite read_byte by lia. cbn [mbind option_bind]. cbv zeta.
  change ((Z.shiftr 8 3 =? 1) && (Z.land 8 7 =? 0)) with true. cbv iota.
  rewrite read_write_varint by (unfold in_u32, in_u64 in *; lia). cbn [mbind option_bind]. by rewrite u32_small.
Qed.

Lemma record_crc_step v : in_u32 v ->
  record_loop (S fuel) ([16] ++ wbuf_write_varint v ++ rest) tmp = record_loop fuel rest (tmp <| w_crc := v |>).
Proof.
  intros Hv. cbn [app record_loop]. rewrite read_byte by lia. cbn [mbind option_bind]. cbv zeta.
  change ((Z.shiftr 16 3 =? 1) && (Z.land 16 7 =? 0)) with false.
  change ((Z.shiftr 16 3 =? 2) && (Z.land 16 7 =? 0)) with true. cbv iota.
  rewrite read_write_varint by (unfold in_u32, in_u64 in *; lia). cbn [mbind option_bind]. by rewrite u32_small.
Qed.

Lemma record_data_step d : blen d < 18446744073709551616 ->
  record_loop (S fuel) ([26] ++ wbuf_write_varint (blen d) ++ d ++ rest) tmp = record_loop fuel rest (tmp <| w_data := d |>).
Proof.
  intros Hd. cbn [app record_loop]. rewrite read_byte by lia. cbn [mbind option_bind]. cbv zeta.
  change ((Z.shiftr 26 3 =? 1) && (Z.land 26 7 =? 0)) with false.
  change ((Z.shiftr 26 3 =? 2) && (Z.land 26 7 =? 0)) with false.
  change ((Z.shiftr 26 3 =? 3) && (Z.land 26 7 =? 2)) with true. cbv iota.
  by rewrite read_bytes_written.
Qed.
End RecordFields.

Lemma record_loop_body rec : record_fits rec ->
  record_loop (length (frame_body rec)) (frame_body rec) cetcd_wal_record_init = Some rec.
Proof.
  intros (Ht & Hc & Hd). pose proof (frame_body_length rec) as Hl.
  assert (Hk : exists k, length (frame_body rec) = S (S (S k))).
  { exists (length (frame_body rec) - 3)%nat. unfold blen in Hl. lia. }
  destruct Hk as [k ->]. unfold frame_body.
  rewrite record_type_step, record_crc_step by done.
  rewrite <- (app_nil_r (w_data rec)) at 2. rewrite record_data_step by lia.
  rewrite record_loop_nil. by destruct rec.
Qed.

(** What the decoder does on a stream that starts with a frame header and at
    least its body. *)
Lemma decode_frame rec fp : record_fits rec ->
  cetcd_wal_decode (le_put 8 (frame_header (blen (frame_body rec)) (frame_pad rec)) ++ frame_body rec ++ fp) =
  (drop (Z.to_nat (frame_pad rec)) fp,
   if (0 <? blen (w_data rec)) && negb (wal_crc32c 0 (w_data rec) =? w_crc rec) then -2 else 0, Some rec).
Proof.
  intros Hf. pose proof (frame_body_length rec) as Hl. pose proof (frame_pad_range rec) as Hp.
  pose proof Hf as (_ & _ & Hd).
  destruct (header_fields (blen (frame_body rec)) (frame_pad rec) ltac:(lia) Hp) as (Hh & Hlen & Hpad).
  set (h := frame_header _ _) in *. unfold cetcd_wal_decode. cbv zeta.
  rewrite take_app_length', drop_app_length' by (by rewrite le_put_length).
  assert ((blen (le_put 8 h) =? 8) = true) as -> by (unfold blen; by rewrite le_put_length).
  cbn [negb]. rewrite le_get_put by exact Hh. rewrite Hlen, Hpad.
  destruct (Z.ltb_spec 0 (blen (frame_body rec))); [|lia].
  rewrite take_blen, drop_blen, Z.eqb_refl. cbn [negb]. by rewrite record_loop_body.
Qed.

Lemma decode_frame_whole rec fp : record_fits rec -> crc_good rec ->
  cetcd_wal_decode (frame rec ++ fp) = (fp, 0, Some rec).
Proof.
  intros Hf Hc. unfold frame. rewrite <- !app_assoc, decode_frame by done.
  rewrite drop_app_length' by (by rewrite length_replicate). f_equal. f_equal.
  destruct Hc as [->| ->]; [done|]. rewrite Z.eqb_refl. by rewrite andb_false_r.
Qed.

(** ** Whole files *)

(** The loop [while (cetcd_wal_decode(dec, &rec) == 0)] of the readers: the
    records it sees, and the code it stops on.  A successful decode consumes at
    least the eight header bytes, so the length of the file is enough fuel. *)
Fixpoint wal_read_all (fuel : nat) (fp : bytes) : list cetcd_wal_record * Z :=
  match fuel with
  | O => ([], 0)
  | S fuel =>
      let '(fp, rc, rec) := cetcd_wal_decode fp in
      match rec with
      | Some rec => if rc =? 0 then let '(l, rc) := wal_read_all fuel fp in (rec :: l, rc) else ([], rc)
      | None => ([], rc)
      end
  end.

Definition wal_read_file (fp : bytes) : list cetcd_wal_record * Z := wal_read_all (S (length fp)) fp.

Lemma decode_short rec tail n : record_fits rec -> (n < 8 + length (frame_body rec))%nat ->
  exists fp, cetcd_wal_decode (take n (frame rec ++ tail)) = (fp, -1, None).
Proof.
  intros Hf Hn. pose proof (frame_body_length rec) as Hl. pose proof (frame_pad_range rec) as Hp.
  pose proof Hf as (_ & _ & Hd).
  destruct (header_fields (blen (frame_body rec)) (frame_pad rec) ltac:(lia) Hp) as (Hh & Hlen & _).
  unfold frame. rewrite <- !app_assoc. set (h := frame_header _ _) in *.
  set (rest := replicate _ _ ++ tail). clearbody rest.
  destruct (decide (n < 8)%nat) as [Hs|Hs].
  - rewrite take_app_le by (rewrite le_put_length; lia). unfold cetcd_wal_decode. cbv zeta. eexists.
    rewrite take_take, Nat.min_r by lia.
    destruct (Z.eqb_spec (blen (take n (le_put 8 h))) 8) as [E|_]; [|reflexivity].
    unfold blen in E. rewrite length_take, le_put_length in E. lia.
  - rewrite take_app_ge by (rewrite le_put_length; lia). rewrite le_put_length.
    unfold cetcd_wal_decode. cbv zeta. eexists.
    rewrite take_app_length', drop_app_length' by (by rewrite le_put_length).
    assert ((blen (le_put 8 h) =? 8) = true) as -> by (unfold blen; by rewrite le_put_length).
    cbn [negb]. rewrite le_get_put by exact Hh. rewrite Hlen.
    destruct (Z.ltb_spec 0 (blen (frame_body rec))); [|lia].
    destruct (Z.eqb_spec (blen (take (Z.to_nat (blen (frame_body rec))) (take (n - 8) (frame_body rec ++ rest))))
      (blen (frame_body rec))) as [E|_]; [|reflexivity].
    unfold blen in E. rewrite !length_take in E. lia.
Qed.

Lemma frame_length rec : (8 + length (frame_body rec) <= length (frame rec))%nat.
Proof. unfold frame. rewrite !length_app, le_put_length. lia. Qed.

Lemma decode_nil : cetcd_wal_decode [] = ([], -1, None).
Proof. reflexivity. Qed.

(** Reading a file cut anywhere. *)
Lemma read_prefix recs n fuel : Forall record_fits recs -> Forall crc_good recs ->
  (length (take n (concat (map frame recs))) < fuel)%nat ->
  exists k, (k <= length recs)%nat /\
    (forall j, (j <= length recs)%nat -> (length (concat (map frame (take j recs))) <= n)%nat -> (j <= k)%nat) /\
    wal_read_all fuel (take n (concat (map frame recs))) = (take k recs, -1).
Proof.
  intros Hf. revert n fuel; induction Hf as [|rec recs Hr Hf IH]; intros n fuel Hc Hfu.
  { exists 0%nat. cbn [length map concat] in *. rewrite take_nil in *. destruct fuel; [cbn in Hfu; lia|].
    cbn [wal_read_all]. rewrite decode_nil. split_and!; [done|intros; lia|done]. }
  apply Forall_cons in Hc as [Hrc Hc]. cbn [map concat] in *. pose proof (frame_length rec) as Hfl.
  destruct fuel as [|fuel]; [lia|].
  destruct (decide (n < 8 + length (frame_body rec))%nat) as [Hs|Hs].
  - exists 0%nat. destruct (decode_short rec (concat (map frame recs)) n Hr Hs) as [fp E].
    cbn [wal_read_all]. rewrite E. split_and!; [lia| |done].
    intros [|j] _ Hj; [lia|]. cbn [take map concat] in Hj. rewrite length_app in Hj. lia.
  - destruct (decide (n < length (frame rec))%nat) as [Hp|Hp].
    + exists 1%nat. split; [cbn; lia|]. split.
      { intros [|j] _ Hj; [lia|]. cbn [take map concat] in Hj. rewrite length_app in Hj. lia. }
      rewrite take_app_le by lia. rewrite take_app_le in Hfu by lia. rewrite length_take in Hfu.
      unfold frame in *. rewrite !length_app, le_put_length in *.
      rewrite take_app_ge by (rewrite le_put_length; lia). rewrite le_put_length.
      rewrite take_app_ge by lia. cbn [wal_read_all]. rewrite decode_frame by done.
      set (rest := take _ (replicate _ _)).
      assert (drop (Z.to_nat (frame_pad rec)) rest = []) as ->.
      { apply drop_ge. subst rest. rewrite length_take, length_replicate. lia. }
      assert ((if (0 <? blen (w_data rec)) && negb (wal_crc32c 0 (w_data rec) =? w_crc rec) then -2 else 0) = 0) as ->.
      { destruct Hrc as [->| ->]; [done|]. rewrite Z.eqb_refl. by rewrite andb_false_r. }
      destruct fuel as [|fuel]; [lia|]. reflexivity.
    + rewrite take_app_ge in * by lia. rewrite length_app in Hfu.
      destruct (IH (n - length (frame rec))%nat fuel Hc ltac:(lia)) as (k & Hk & Hmax & Hread).
      exists (S k). split; [cbn; lia|]. split.
      * intros [|j] Hj Hn'; [lia|]. cbn [take map concat length] in *. rewrite length_app in Hn'.
        specialize (Hmax j ltac:(lia) ltac:(lia)). lia.
      * cbn [wal_read_all]. rewrite decode_frame_whole by done. cbn [Z.eqb]. rewrite Hread. done.
Qed.

(** A record handed to the encoder: within the format, its checksum 0 (to be
    computed) or already right. *)
Definition record_ok (rec : cetcd_wal_record) : Prop :=
  in_u32 (w_type rec) /\ bytes_ok (w_data rec) /\ blen (w_data rec) < 72057594037927000 /\
  (w_crc rec = 0 \/ w_crc rec = wal_crc32c 0 (w_data rec)).

Lemma wal_crc_range data : bytes_ok data -> in_u32 (wal_crc32c 0 data).
Proof.
  intros Hd. unfold wal_crc32c. cbv zeta.
  assert (H : in_u32 (crc_fold (Z.lxor 0 CRC_INV) data)) by (apply crc_fold_range; [vm_compute; done|done]).
  unfold in_u32 in *. change 4294967296 with (2 ^ 32) in *. apply lxor_range; [lia|done|vm_compute; done].
Qed.

Lemma sealed_ok rec : record_ok rec -> record_fits (sealed rec) /\ crc_good (sealed rec).
Proof.
  intros (Ht & Hb & Hl & Hc). pose proof (wal_crc_range _ Hb) as Hr. pose proof (blen_nonneg (w_data rec)).
  unfold sealed. destruct (Z.ltb_spec 0 (blen (w_data rec))) as [Hp|Hp]; cbn [andb].
  - destruct (Z.eqb_spec (w_crc rec) 0) as [E|E].
    + split; [by split|]. by right.
    + destruct Hc as [|Hc]; [done|]. split; [split; [done|split; [by rewrite Hc|done]]|by right].
  - assert (E : w_data rec = []) by (destruct (w_data rec); [done|unfold blen in Hp; cbn in Hp; lia]).
    split; [|by left]. split; [done|]. split; [|done].
    destruct Hc as [-> | ->]; [unfold in_u32; lia|done].
Qed.

Lemma encode_all fp recs : foldl cetcd_wal_encode fp recs = fp ++ concat (map frame (map sealed recs)).
Proof.
  revert fp; induction recs as [|r recs IH]; intros fp; cbn [foldl map concat]; [by rewrite app_nil_r|].
  rewrite IH, encode_frame. by rewrite <- app_assoc.
Qed.

Lemma sealed_all recs : Forall record_ok recs ->
  Forall record_fits (map sealed recs) /\ Forall crc_good (map sealed recs).
Proof. intros H. split; apply Forall_map; (eapply Forall_impl; [exact H|]); intros r Hr; by apply sealed_ok. Qed.

(** C18: a crash loses only the torn tail.  Cut the log file anywhere, as a
    crash during an append may: reading it back yields a prefix of the records
    written, in order and unaltered, at least all those whose frames lie before
    the cut, and then the end-of-log code -1, never a checksum or format error. *)
Theorem wal_torn_tail recs n : Forall record_ok recs ->
  let file := foldl cetcd_wal_encode [] recs in
  exists k, (k <= length recs)%nat /\
    (forall j, (j <= length recs)%nat ->
       (length (foldl cetcd_wal_encode [] (take j recs)) <= n)%nat -> (j <= k)%nat) /\
    wal_read_file (take n file) = (take k (map sealed recs), -1).
Proof.
  intros Hok file. subst file. rewrite encode_all. cbn [app].
  destruct (sealed_all recs Hok) as [Hf Hc].
  destruct (read_prefix (map sealed recs) n (S (length (take n (concat (map frame (map sealed recs)))))) Hf Hc ltac:(lia))
    as (k & Hk & Hmax & Hread). rewrite length_map in *.
  exists k. split; [done|]. split; [|exact Hread].
  intros j Hj Hn. apply Hmax; [done|]. rewrite encode_all in Hn. cbn [app] in Hn.
  by rewrite firstn_map.
Qed.

Definition sample_recs : list cetcd_wal_record :=
  [mk_wal_record CETCD_WAL_METADATA 0 [1; 2; 3]; mk_wal_record CETCD_WAL_ENTRY 0 (entry_payload (mk_entry 1 1 0 [9]));
   mk_wal_record CETCD_WAL_STATE 0 (hard_state_payload (mk_hard_state 1 2 3))].

Lemma sample_recs_ok : Forall record_ok sample_recs.
Proof.
  repeat constructor; try (vm_compute; reflexivity); try (vm_compute; discriminate); try (by left);
    vm_compute; repeat constructor; discriminate.
Qed.

Lemma wal_torn_tail_witness :
  exists k, (k <= 3)%nat /\
    (forall j, (j <= 3)%nat -> (length (foldl cetcd_wal_encode [] (take j sample_recs)) <= 60)%nat -> (j <= k)%nat) /\
    wal_read_file (take 60 (foldl cetcd_wal_encode [] sample_recs)) = (take k (map sealed sample_recs), -1).
Proof. exact (wal_torn_tail sample_recs 60 sample_recs_ok). Defined.

(** Damage is detected.  In the frame written for a record, replace up to
    four consecutive bytes of its data by others: decoding that frame reports
    the checksum mismatch -2 and continues behind the frame. *)
Theorem wal_detects_burst typ pre x y post fp :
  in_u32 typ -> bytes_ok pre -> bytes_ok x -> bytes_ok y -> bytes_ok post ->
  blen (pre ++ x ++ post) < 72057594037927000 ->
  length x = length y -> (length x <= 4)%nat -> x <> y ->
  exists h t, cetcd_wal_encode [] (mk_wal_record typ 0 (pre ++ x ++ post)) = h ++ (pre ++ x ++ post) ++ t /\
    exists rec, cetcd_wal_decode (h ++ (pre ++ y ++ post) ++ t ++ fp) = (fp, -2, Some rec).
Proof.
  intros Ht Hpre Hx Hy Hpost Hl Hxy H4 Hne.
  assert (Hdx : bytes_ok (pre ++ x ++ post)) by (unfold bytes_ok in *; rewrite !Forall_app; done).
  pose proof (wal_crc_range _ Hdx) as Hcr.
  set (dx := pre ++ x ++ post) in *. set (dy := pre ++ y ++ post).
  assert (Hlen : blen dx = blen dy) by (subst dx dy; unfold blen; rewrite !length_app; lia).
  assert (Hnz : 0 < blen dx).
  { subst dx. unfold blen. rewrite !length_app. destruct x, y; cbn in *; try lia; done. }
  set (rx := mk_wal_record typ (wal_crc32c 0 dx) dx). set (ry := mk_wal_record typ (wal_crc32c 0 dx) dy).
  assert (Es : cetcd_wal_encode [] (mk_wal_record typ 0 dx) = frame rx).
  { rewrite encode_frame. unfold sealed. cbn [w_data w_crc]. destruct (Z.ltb_spec 0 (blen dx)); [done|lia]. }
  assert (Hb : blen (frame_body rx) = blen (frame_body ry)).
  { unfold frame_body. rewrite !blen_app. cbn [w_type w_crc w_data rx ry]. by rewrite Hlen. }
  assert (Hpd : frame_pad rx = frame_pad ry) by (unfold frame_pad; by rewrite Hb).
  exists (le_put 8 (frame_header (blen (frame_body rx)) (frame_pad rx)) ++
          [8] ++ wbuf_write_varint typ ++ [16] ++ wbuf_write_varint (wal_crc32c 0 dx) ++
          [26] ++ wbuf_write_varint (blen dx)), (replicate (Z.to_nat (frame_pad rx)) 0).
  split; [rewrite Es; unfold frame, frame_body; cbn [w_type w_crc w_data rx]; by rewrite <- !app_assoc|].
  exists ry. pose proof (decode_frame ry (replicate (Z.to_nat (frame_pad ry)) 0 ++ fp)) as Hd.
  rewrite drop_app_length' in Hd by (by rewrite length_replicate).
  rewrite Hb, Hpd, Hlen. unfold frame_body in Hd at 2. cbn [w_type w_crc w_data ry] in Hd.
  rewrite <- !app_assoc in Hd |- *. rewrite Hd; [|split; [done|split; [done|]]; cbn; lia].
  destruct (Z.ltb_spec 0 (blen dy)); [|lia]. cbn [andb].
  destruct (Z.eqb_spec (wal_crc32c 0 dy) (wal_crc32c 0 dx)) as [E|_]; [|done].
  exfalso. symmetry in E. revert E. by apply crc32c_detects_burst.
Qed.

Lemma wal_detects_burst_witness :
  exists h t, cetcd_wal_encode [] (mk_wal_record 2 0 ([1; 2] ++ [3; 4] ++ [5])) = h ++ ([1; 2] ++ [3; 4] ++ [5]) ++ t /\
    exists rec, cetcd_wal_decode (h ++ ([1; 2] ++ [3; 7] ++ [5]) ++ t ++ [0; 0]) = ([0; 0], -2, Some rec).
Proof.
  apply (wal_detects_burst 2 [1; 2] [3; 4] [3; 7] [5] [0; 0]);
    first [reflexivity | discriminate | cbn; lia
          | repeat constructor; vm_compute; (discriminate || reflexivity)].
Defined.

(** ** Payloads *)

(** Runs the payload loop over the fields of a written payload. *)
Ltac payload_field :=
  cbn [app]; rewrite read_byte by lia; cbn [mbind option_bind]; cbv zeta; eval_tests; cbn [andb negb]; cbv iota;
  first [rewrite read_write_varint by (done || unfold in_u32, in_u64 in *; lia)
        |rewrite read_bytes_written by lia]; cbn [mbind option_bind].

Lemma hard_state_roundtrip hs : in_u64 (hs_term hs) -> in_u64 (hs_vote hs) -> in_u64 (hs_commit hs) ->
  cetcd_wal_decode_hard_state (hard_state_payload hs) = (hs, 0).
Proof.
  intros Ht Hv Hc. unfold cetcd_wal_decode_hard_state.
  assert (Hk : exists k, length (hard_state_payload hs) = S (S (S k))).
  { exists (length (hard_state_payload hs) - 3)%nat. unfold hard_state_payload. rewrite !length_app. cbn [length].
    pose proof (varint_length (hs_term hs)). lia. }
  destruct Hk as [k ->]. unfold hard_state_payload. rewrite <- (app_nil_r (wbuf_write_varint (hs_commit hs))).
  do 3 (cbn [app hard_state_loop]; payload_field). destruct k; by destruct hs.
Qed.

Lemma snapshot_roundtrip i t : in_u64 i -> in_u64 t ->
  cetcd_wal_decode_snapshot (snapshot_payload i t) = Some (i, t).
Proof.
  intros Hi Ht. unfold cetcd_wal_decode_snapshot.
  assert (Hk : exists k, length (snapshot_payload i t) = S (S k)).
  { exists (length (snapshot_payload i t) - 2)%nat. unfold snapshot_payload. rewrite !length_app. cbn [length].
    pose proof (varint_length i). lia. }
  destruct Hk as [k ->]. unfold snapshot_payload. rewrite <- (app_nil_r (wbuf_write_varint t)).
  do 2 (cbn [app snapshot_loop]; payload_field). by destruct k.
Qed.

Lemma entry_roundtrip e : entry_fits e -> cetcd_wal_decode_entry (entry_payload e) = Some e.
Proof.
  intros (Ht & Hi & Hy & Hd). unfold cetcd_wal_decode_entry.
  assert (Hk : exists k, length (entry_payload e) = S (S (S (S k)))).
  { exists (length (entry_payload e) - 4)%nat. unfold entry_payload. rewrite !length_app. cbn [length].
    pose proof (varint_length (e_term e)). lia. }
  destruct Hk as [k ->]. unfold entry_payload. rewrite <- (app_nil_r (e_data e)) at 2.
  do 4 (cbn [app wal_entry_loop]; payload_field). rewrite u32_small by done.
  assert (forall fuel x, wal_entry_loop fuel [] x = Some x) as -> by (by intros []).
  destruct (Z.ltb_spec 0 (blen (e_data e))) as [Hp|Hp]; [by destruct e|].
  destruct e as [a b c [|]]; [done|]. unfold blen in Hp. cbn in Hp. lia.
Qed.

(** Payload round trips.  The payloads of entry, hard-state and snapshot
    records decode to what was encoded. *)
Theorem wal_payload_roundtrip e hs i t :
  entry_fits e -> in_u64 (hs_term hs) -> in_u64 (hs_vote hs) -> in_u64 (hs_commit hs) ->
  in_u64 i -> in_u64 t ->
  cetcd_wal_decode_entry (entry_payload e) = Some e /\
  cetcd_wal_decode_hard_state (hard_state_payload hs) = (hs, 0) /\
  cetcd_wal_decode_snapshot (snapshot_payload i t) = Some (i, t).
Proof. intros. split_and!; [by apply entry_roundtrip|by apply hard_state_roundtrip|by apply snapshot_roundtrip]. Qed.

Lemma wal_payload_roundtrip_witness :
  cetcd_wal_decode_entry (entry_payload (mk_entry 300 9 1 [1; 2; 3])) = Some (mk_entry 300 9 1 [1; 2; 3]) /\
  cetcd_wal_decode_hard_state (hard_state_payload (mk_hard_state 300 2 8)) = (mk_hard_state 300 2 8, 0) /\
  cetcd_wal_decode_snapshot (snapshot_payload 7 300) = Some (7, 300).
Proof.
  apply (wal_payload_roundtrip (mk_entry 300 9 1 [1; 2; 3]) (mk_hard_state 300 2 8) 7 300);
    repeat split; reflexivity || discriminate.
Defined.

(** ** Replacing the segment *)

(** The segment a release installs. *)
Definition released (i t : Z) (hs : cetcd_hard_state) : bytes :=
  cetcd_wal_encode_hard_state (cetcd_wal_encode_snapshot [] i t).1 hs.

Lemma wire_loop_bytes fuel v : 0 <= v -> bytes_ok (wire_loop fuel v).
Proof.
  revert v; induction fuel as [|fuel IH]; intros v Hv; cbn [wire_loop]; [constructor|]. cbv zeta.
  rewrite land_127. pose proof (Z.mod_pos_bound v 128 ltac:(lia)) as Hm.
  destruct (varint_more (v mod 128) Hm) as (Hl & _). case_match.
  - repeat constructor; lia.
  - constructor; [rewrite Hl; unfold in_u8; lia|]. apply IH. by apply Z.shiftr_nonneg.
Qed.

Lemma hard_state_payload_ok hs : in_u64 (hs_term hs) -> in_u64 (hs_vote hs) -> in_u64 (hs_commit hs) ->
  record_ok (mk_wal_record CETCD_WAL_STATE (wal_crc32c 0 (hard_state_payload hs)) (hard_state_payload hs)).
Proof.
  intros [Ht _] [Hv _] [Hc _]. split; [vm_compute; split; congruence|]. split; [|split; [|by right]].
  - unfold hard_state_payload, bytes_ok, wbuf_write_varint. cbn [w_data].
    rewrite !Forall_app. split_and!; try (by apply wire_loop_bytes); repeat constructor; done.
  - cbn [w_data]. unfold hard_state_payload, blen. rewrite !length_app. cbn [length].
    pose proof (varint_length (hs_term hs)). pose proof (varint_length (hs_vote hs)).
    pose proof (varint_length (hs_commit hs)). lia.
Qed.

Lemma snapshot_payload_ok i t : in_u64 i -> in_u64 t ->
  record_ok (mk_wal_record CETCD_WAL_SNAPSHOT (wal_crc32c 0 (snapshot_payload i t)) (snapshot_payload i t)).
Proof.
  intros [Hi _] [Ht _]. split; [vm_compute; split; congruence|]. split; [|split; [|by right]].
  - unfold snapshot_payload, bytes_ok, wbuf_write_varint. cbn [w_data].
    rewrite !Forall_app. split_and!; try (by apply wire_loop_bytes); repeat constructor; done.
  - cbn [w_data]. unfold snapshot_payload, blen. rewrite !length_app. cbn [length].
    pose proof (varint_length i). pose proof (varint_length t). lia.
Qed.

Lemma entry_payload_ok e : entry_fits e -> bytes_ok (e_data e) ->
  record_ok (mk_wal_record CETCD_WAL_ENTRY (wal_crc32c 0 (entry_payload e)) (entry_payload e)).
Proof.
  intros ([Ht _] & [Hi _] & [Hy _] & Hd) Hb. split; [vm_compute; split; congruence|]. split; [|split; [|by right]].
  - unfold entry_payload, bytes_ok, wbuf_write_varint. cbn [w_data].
    rewrite !Forall_app. split_and!; try done; try (apply wire_loop_bytes; (done || apply blen_nonneg)); repeat constructor; done.
  - cbn [w_data]. unfold entry_payload, blen in *. rewrite !length_app. cbn [length].
    pose proof (varint_length (e_term e)). pose proof (varint_length (e_index e)).
    pose proof (varint_length (e_type e)). pose proof (varint_length (Z.of_nat (length (e_data e)))). lia.
Qed.

(** A whole file reads back as the records written. *)
Lemma read_file_all recs : Forall record_ok recs ->
  wal_read_file (foldl cetcd_wal_encode [] recs) = (map sealed recs, -1).
Proof.
  intros Hok. rewrite encode_all. cbn [app]. destruct (sealed_all recs Hok) as [Hf Hc].
  set (f := concat (map frame (map sealed recs))). unfold wal_read_file.
  rewrite <- (firstn_all f) at 2.
  destruct (read_prefix (map sealed recs) (length f) (S (length f)) Hf Hc) as (k & Hk & Hmax & Hread).
  { rewrite length_take. fold f. lia. }
  fold f in Hread. rewrite Hread. specialize (Hmax (length (map sealed recs)) ltac:(lia)).
  rewrite firstn_all in Hmax. specialize (Hmax ltac:(done)). by rewrite take_ge by lia.
Qed.

Lemma read_released i t hs : i <> 0 -> in_u64 i -> in_u64 t ->
  in_u64 (hs_term hs) -> in_u64 (hs_vote hs) -> in_u64 (hs_commit hs) ->
  exists rs rh, wal_read_file (released i t hs) = ([rs; rh], -1) /\
    w_type rs = CETCD_WAL_SNAPSHOT /\ cetcd_wal_decode_snapshot (w_data rs) = Some (i, t) /\
    w_type rh = CETCD_WAL_STATE /\ cetcd_wal_decode_hard_state (w_data rh) = (hs, 0).
Proof.
  intros Hi0 Hi Ht H1 H2 H3.
  set (rs := mk_wal_record CETCD_WAL_SNAPSHOT (wal_crc32c 0 (snapshot_payload i t)) (snapshot_payload i t)).
  set (rh := mk_wal_record CETCD_WAL_STATE (wal_crc32c 0 (hard_state_payload hs)) (hard_state_payload hs)).
  assert (E : released i t hs = foldl cetcd_wal_encode [] [rs; rh]).
  { unfold released, cetcd_wal_encode_snapshot. destruct (Z.eqb_spec i 0); [done|reflexivity]. }
  exists (sealed rs), (sealed rh). rewrite E, (read_file_all [rs; rh]).
  2:{ apply Forall_cons. split; [by apply snapshot_payload_ok|].
      apply Forall_cons. split; [by apply hard_state_payload_ok|by apply Forall_nil_2]. }
  assert (Hs : forall r, w_type (sealed r) = w_type r /\ w_data (sealed r) = w_data r) by (intros r; unfold sealed; by case_match).
  destruct (Hs rs) as [-> ->], (Hs rh) as [-> ->].
  split_and!; [done|done|by apply snapshot_roundtrip|done|by apply hard_state_roundtrip].
Qed.

(** Releasing the log is atomic.  After [cetcd_wal_encoder_release] the file
    is either the old one or the complete new segment; a return of 0 means the
    new segment is in place and open.  Every failure before the rename leaves
    the old file, and reading the new segment gives back exactly the snapshot
    position and the hard state.  A new segment is on disk before it takes the
    place of the old one. *)
Theorem wal_release_atomic io enc i t hs :
  let '(enc', rc) := cetcd_wal_encoder_release io enc i t hs in
  (enc_file enc' = enc_file enc /\ enc_synced enc' = enc_synced enc \/
   enc_file enc' = released i t hs /\ enc_synced enc' = released i t hs) /\
  (rc = 0 -> enc_file enc' = released i t hs /\ enc_open enc' = true /\ i <> 0) /\
  (io_create io && io_write io && io_sync io && io_rename io = false -> enc_file enc' = enc_file enc /\ rc = -1) /\
  (i <> 0 -> in_u64 i -> in_u64 t -> in_u64 (hs_term hs) -> in_u64 (hs_vote hs) -> in_u64 (hs_commit hs) ->
   exists rs rh, wal_read_file (released i t hs) = ([rs; rh], -1) /\
     w_type rs = CETCD_WAL_SNAPSHOT /\ cetcd_wal_decode_snapshot (w_data rs) = Some (i, t) /\
     w_type rh = CETCD_WAL_STATE /\ cetcd_wal_decode_hard_state (w_data rh) = (hs, 0)).
Proof.
  destruct (cetcd_wal_encoder_release io enc i t hs) as [enc' rc] eqn:E. split_and!.
  - revert E. unfold cetcd_wal_encoder_release, released.
    repeat (case_match; try (intros [= <- <-]; by auto)).
  - intros ->. revert E. unfold cetcd_wal_encoder_release, released.
    destruct (enc_open enc), (Z.eqb_spec i 0); cbn [negb orb]; try done.
    destruct (io_create io); cbn [negb]; [|done]. destruct (cetcd_wal_encode_snapshot [] i t) as [fr rc].
    destruct (negb (rc =? 0) || negb (io_write io) || negb (io_sync io)); [done|].
    destruct (io_rename io); cbn [negb]; [|done]. destruct (io_reopen io); [|done]. intros [= <-]. done.
  - intros Hio. revert E. unfold cetcd_wal_encoder_release.
    destruct (negb (enc_open enc) || (i =? 0)); [by intros [= <- <-]|].
    destruct (cetcd_wal_encode_snapshot [] i t) as [fr rc'].
    destruct (rc' =? 0), (io_create io), (io_write io), (io_sync io), (io_rename io); cbn [negb orb andb] in *;
      try done; by intros [= <- <-].
  - apply read_released.
Qed.
