(* ===== verification/Recovery.v ===== *)
(** * Persistence and recovery of a node (src/server/server.c)

    The part of the server between the raft node and the write-ahead log:
    [replay_wal_], the persistence step of [process_ready_], [apply_committed_]
    and the applied-index marker.  The function that executes a committed
    command, [cetcd_v3rpc_apply_entry], is a parameter. *)

From S2P Require Import Prelude Hash Raft RaftWire RaftState RaftQuorum RaftLog Wal.

(** ** Replay *)

(** The node, the last hard state seen and [last_snap_index]. *)
Record replay_state : Type := mk_replay {
  rp_raft : cetcd_raft;
  rp_hs : option cetcd_hard_state;
  rp_snap : Z
}.

(** One iteration of the loop of [replay_wal_]. *)
Definition replay_record (s : replay_state) (rec : cetcd_wal_record) : replay_state :=
  if (w_type rec =? CETCD_WAL_ENTRY) && (0 <? blen (w_data rec)) then
    match cetcd_wal_decode_entry (w_data rec) with
    | Some e => mk_replay (cetcd_raft_restore_entry (rp_raft s) e).1 (rp_hs s) (rp_snap s)
    | None => s
    end
  else if (w_type rec =? CETCD_WAL_STATE) && (0 <? blen (w_data rec)) then
    let '(hs, rc) := cetcd_wal_decode_hard_state (w_data rec) in
    mk_replay (rp_raft s) (if (rc =? 0) || bool_decide (is_Some (rp_hs s)) then Some hs else None) (rp_snap s)
  else if (w_type rec =? CETCD_WAL_SNAPSHOT) && (0 <? blen (w_data rec)) then
    match cetcd_wal_decode_snapshot (w_data rec) with
    | Some (idx, term) =>
        if 0 <? idx then
          let '(r, rc) := cetcd_raft_compact (rp_raft s) idx term in
          mk_replay r (rp_hs s) (if rc =? 0 then idx else rp_snap s)
        else s
    | None => s
    end
  else s.

(** After the loop the last hard state is restored. *)
Definition replay_finish (s : replay_state) : replay_state :=
  match rp_hs s with
  | Some hs => mk_replay (cetcd_raft_restore_hard_state (rp_raft s) hs) (rp_hs s) (rp_snap s)
  | None => s
  end.

Definition replay_wal_ (r : cetcd_raft) (snap : Z) (file : bytes) : replay_state :=
  replay_finish (foldl replay_record (mk_replay r None snap) (wal_read_file file).1).

(** ** Persisting a Ready *)

(** The entries and the hard state of a Ready, appended in this order before
    anything is sent. *)
Definition persist_ready (wal : bytes) (rd : cetcd_ready) : bytes :=
  let wal := foldl cetcd_wal_encode_entry wal (rd_entries rd) in
  match rd_hard_state rd with
  | Some hs => cetcd_wal_encode_hard_state wal hs
  | None => wal
  end.

(** What the server appends to the log: entries, hard states and snapshot
    positions. *)
Inductive wal_op : Type :=
| WEntry (e : cetcd_entry)
| WState (hs : cetcd_hard_state)
| WSnapshot (index term : Z).

Definition wal_append (wal : bytes) (op : wal_op) : bytes :=
  match op with
  | WEntry e => cetcd_wal_encode_entry wal e
  | WState hs => cetcd_wal_encode_hard_state wal hs
  | WSnapshot i t => (cetcd_wal_encode_snapshot wal i t).1
  end.

Definition wal_op_ok (op : wal_op) : Prop :=
  match op with
  | WEntry e => entry_fits e /\ bytes_ok (e_data e)
  | WState hs => in_u64 (hs_term hs) /\ in_u64 (hs_vote hs) /\ in_u64 (hs_commit hs)
  | WSnapshot i t => 0 < i /\ in_u64 i /\ in_u64 t
  end.

(** The same operations, executed directly on the node. *)
Definition replay_op (s : replay_state) (op : wal_op) : replay_state :=
  match op with
  | WEntry e => mk_replay (cetcd_raft_restore_entry (rp_raft s) e).1 (rp_hs s) (rp_snap s)
  | WState hs => mk_replay (rp_raft s) (Some hs) (rp_snap s)
  | WSnapshot i t =>
      let '(r, rc) := cetcd_raft_compact (rp_raft s) i t in
      mk_replay r (rp_hs s) (if rc =? 0 then i else rp_snap s)
  end.

Definition op_record (op : wal_op) : cetcd_wal_record :=
  match op with
  | WEntry e => mk_wal_record CETCD_WAL_ENTRY (wal_crc32c 0 (entry_payload e)) (entry_payload e)
  | WState hs => mk_wal_record CETCD_WAL_STATE (wal_crc32c 0 (hard_state_payload hs)) (hard_state_payload hs)
  | WSnapshot i t => mk_wal_record CETCD_WAL_SNAPSHOT (wal_crc32c 0 (snapshot_payload i t)) (snapshot_payload i t)
  end.

Lemma op_record_ok op : wal_op_ok op -> record_ok (op_record op).
Proof.
  destruct op; cbn [wal_op_ok op_record]; intros H.
  - apply entry_payload_ok; tauto.
  - apply hard_state_payload_ok; tauto.
  - apply snapshot_payload_ok; tauto.
Qed.

Lemma wal_append_record wal op : wal_op_ok op -> wal_append wal op = cetcd_wal_encode wal (op_record op).
Proof.
  destruct op; cbn [wal_op_ok op_record wal_append]; intros H; try reflexivity.
  unfold cetcd_wal_encode_snapshot. destruct (Z.eqb_spec index 0); [lia|reflexivity].
Qed.

Lemma wal_append_all ops wal : Forall wal_op_ok ops ->
  foldl wal_append wal ops = foldl cetcd_wal_encode wal (map op_record ops).
Proof.
  intros H. revert wal; induction H as [|op ops Hop _ IH]; intros wal; cbn [foldl map]; [done|].
  by rewrite wal_append_record, IH.
Qed.

Lemma replay_sealed s op : wal_op_ok op -> replay_record s (sealed (op_record op)) = replay_op s op.
Proof.
  intros H. assert (Hs : forall r, w_type (sealed r) = w_type r /\ w_data (sealed r) = w_data r)
    by (intros r; unfold sealed; by case_match).
  unfold replay_record. destruct (Hs (op_record op)) as [-> ->].
  assert (Hp : forall (b : Z) (rest : bytes), (0 <? blen (b :: rest)) = true) by (intros; unfold blen; cbn [length]; apply Z.ltb_lt; lia).
  destruct op as [e|hs|i t]; cbn [op_record w_type w_data wal_op_ok replay_op] in *.
  - destruct H as [He Hb]. unfold entry_payload at 1. cbn [app]. rewrite Hp. cbn [andb Z.eqb].
    change (CETCD_WAL_ENTRY =? CETCD_WAL_ENTRY) with true. cbn [andb]. by rewrite entry_roundtrip.
  - destruct H as (H1 & H2 & H3).
    change (CETCD_WAL_STATE =? CETCD_WAL_ENTRY) with false. change (CETCD_WAL_STATE =? CETCD_WAL_STATE) with true.
    cbn [andb]. unfold hard_state_payload at 1. cbn [app]. rewrite Hp. by rewrite hard_state_roundtrip.
  - destruct H as (H1 & H2 & H3).
    change (CETCD_WAL_SNAPSHOT =? CETCD_WAL_ENTRY) with false. change (CETCD_WAL_SNAPSHOT =? CETCD_WAL_STATE) with false.
    change (CETCD_WAL_SNAPSHOT =? CETCD_WAL_SNAPSHOT) with true. cbn [andb].
    unfold snapshot_payload at 1. cbn [app]. rewrite Hp. rewrite snapshot_roundtrip by done.
    by destruct (Z.ltb_spec 0 i); [|lia].
Qed.

Lemma replay_all_sealed ops s : Forall wal_op_ok ops ->
  foldl replay_record s (map sealed (map op_record ops)) = foldl replay_op s ops.
Proof.
  intros H. revert s; induction H as [|op l Hop _ IH]; intros s; cbn [map foldl]; [done|].
  by rewrite replay_sealed, IH.
Qed.

(** C19: recovery from a torn log.  Let the server append any sequence of
    entries, hard states and snapshot positions, and cut the file anywhere.
    Replaying what is left is exactly the effect of executing the first [k]
    operations on the node directly and then restoring the last hard state
    among them, where [k] covers at least every operation completely on disk. *)
Theorem replay_refines ops n r snap : Forall wal_op_ok ops ->
  exists k, (k <= length ops)%nat /\
    (forall j, (j <= length ops)%nat -> (length (foldl wal_append [] (take j ops)) <= n)%nat -> (j <= k)%nat) /\
    replay_wal_ r snap (take n (foldl wal_append [] ops)) =
      replay_finish (foldl replay_op (mk_replay r None snap) (take k ops)).
Proof.
  intros Hok. assert (Hrec : Forall record_ok (map op_record ops)).
  { apply Forall_map. eapply Forall_impl; [exact Hok|]. apply op_record_ok. }
  destruct (sealed_all _ Hrec) as [Hf Hc].
  rewrite wal_append_all, encode_all by done. cbn [app].
  set (file := concat (map frame (map sealed (map op_record ops)))).
  destruct (read_prefix (map sealed (map op_record ops)) n (S (length (take n file))) Hf Hc ltac:(subst file; lia))
    as (k & Hk & Hmax & Hread). rewrite !length_map in *. fold file in Hread.
  exists k. split; [done|]. split.
  - intros j Hj Hn. apply Hmax; [done|]. rewrite wal_append_all, encode_all in Hn by (by apply Forall_take).
    cbn [app] in Hn. by rewrite !firstn_map.
  - unfold replay_wal_, wal_read_file. rewrite Hread. cbn [fst]. f_equal. rewrite !firstn_map.
    apply replay_all_sealed. by apply Forall_take.
Qed.

Definition sample_ops : list wal_op := [WEntry (mk_entry 1 1 0 [7]); WState (mk_hard_state 1 1 1)].

Lemma sample_ops_ok : Forall wal_op_ok sample_ops.
Proof.
  apply Forall_cons. split; [|apply Forall_cons; split; [|by apply Forall_nil_2]].
  - split; [|repeat constructor; discriminate]. repeat split; reflexivity || discriminate.
  - repeat split; reflexivity || discriminate.
Qed.

Lemma replay_refines_witness :
  exists k, (k <= 2)%nat /\
    (forall j, (j <= 2)%nat -> (length (foldl wal_append [] (take j sample_ops)) <= 40)%nat -> (j <= k)%nat) /\
    replay_wal_ empty_raft 0 (take 40 (foldl wal_append [] sample_ops)) =
      replay_finish (foldl replay_op (mk_replay empty_raft None 0) (take k sample_ops)).
Proof. exact (replay_refines sample_ops 40 empty_raft 0 sample_ops_ok). Defined.

(** ** The log after a restart *)

(** Entries numbered consecutively from [m + 1]. *)
Definition numbered (m : Z) (es : list cetcd_entry) : Prop :=
  forall i e, es !! i = Some e -> e_index e = m + 1 + Z.of_nat i.

Lemma restore_entries_log es r : log_ok r -> r_log_last_index r + blen es < 4294967295 ->
  numbered (r_log_last_index r) es ->
  let r' := foldl (fun r e => (cetcd_raft_restore_entry r e).1) r es in
  log_ok r' /\ r_log_last_index r' = r_log_last_index r + blen es /\
  forall i, log_at_ r' i = if i <=? r_log_last_index r then log_at_ r i
                           else es !! Z.to_nat (i - r_log_last_index r - 1).
Proof.
  revert r; induction es as [|e es IH]; intros r Hok Hb Hn; cbn [foldl].
  { unfold blen in *. cbn [length] in *. split_and!; [done|lia|]. intros i. rewrite lookup_nil.
    destruct (Z.leb_spec i (r_log_last_index r)); [done|].
    unfold log_at_. destruct (Z.ltb_spec (r_log_last_index r) i); [|lia]. by rewrite orb_true_r. }
  rewrite blen_cons in Hb |- *. pose proof (blen_nonneg es). pose proof (lo_last r Hok). pose proof (lo_compacted r Hok).
  assert (Ei : e_index e = r_log_last_index r + 1) by (specialize (Hn 0%nat e eq_refl); lia).
  assert (Hr1 : (cetcd_raft_restore_entry r e).1 = log_append_ r e).
  { unfold cetcd_raft_restore_entry. cbv zeta. destruct (Z.eqb_spec (e_index e) 0); [lia|]. by case_match. }
  rewrite Hr1. destruct (log_append_fields r e) as (_ & Hl & _ & _).
  assert (Hok1 : log_ok (log_append_ r e)) by (apply log_append_ok; unfold index_ok; try done; lia).
  assert (Hl1 : r_log_last_index (log_append_ r e) = r_log_last_index r + 1) by lia.
  pose proof (fun i => log_at_append r e i ltac:(lia) ltac:(lia)) as Ha.
  destruct (IH (log_append_ r e) Hok1) as (Hok' & Hl' & Ha'); [lia| |].
  { intros i x Hi. rewrite Hl1. specialize (Hn (S i) x Hi). lia. }
  split; [done|]. split; [lia|]. intros i. rewrite Ha', Hl1, Ha, Ei.
  destruct (Z.leb_spec i (r_log_last_index r + 1)), (Z.leb_spec i (r_log_last_index r)),
    (Z.eqb_spec i (r_log_last_index r + 1)); try lia; try done.
  - subst i. by replace (Z.to_nat (r_log_last_index r + 1 - r_log_last_index r - 1)) with 0%nat by lia.
  - replace (Z.to_nat (i - r_log_last_index r - 1)) with (S (Z.to_nat (i - (r_log_last_index r + 1) - 1))) by lia. done.
Qed.

(** A restarted node has its log back.  A node whose log is empty, that
    replays a file holding entries numbered 1 .. n and then a hard state, has
    exactly these entries at these indexes, the term, vote and commit index of
    the hard state, and a sound log. *)
Theorem restart_recovers r snap es hs :
  log_ok r -> r_log_last_index r = 0 -> blen es < 4294967295 -> numbered 0 es ->
  Forall (fun e => entry_fits e /\ bytes_ok (e_data e)) es ->
  in_u64 (hs_term hs) -> in_u64 (hs_vote hs) -> in_u64 (hs_commit hs) ->
  let file := persist_ready [] (mk_ready (Some hs) None es 0 []) in
  let r' := rp_raft (replay_wal_ r snap file) in
  log_ok r' /\ r_log_last_index r' = blen es /\
  (forall i, 0 < i -> log_at_ r' i = es !! Z.to_nat (i - 1)) /\
  r_term r' = hs_term hs /\ r_vote r' = hs_vote hs /\ r_commit r' = hs_commit hs.
Proof.
  intros Hok Hl0 Hb Hn Hes Ht Hv Hc file r'.
  set (ops := map WEntry es ++ [WState hs]).
  assert (Hops : Forall wal_op_ok ops).
  { apply Forall_app. split; [by apply Forall_map|]. repeat constructor; apply Ht || apply Hv || apply Hc. }
  assert (Hfile : file = foldl cetcd_wal_encode [] (map op_record ops)).
  { rewrite <- wal_append_all by done. subst file ops. unfold persist_ready. cbn [rd_entries rd_hard_state].
    rewrite foldl_app. cbn [foldl wal_append]. f_equal. by rewrite foldl_fmap. }
  assert (Hrep : replay_wal_ r snap file =
    replay_finish (mk_replay (foldl (fun r e => (cetcd_raft_restore_entry r e).1) r es) (Some hs) snap)).
  { unfold replay_wal_. rewrite Hfile, read_file_all.
    2:{ apply Forall_map. eapply Forall_impl; [exact Hops|]. apply op_record_ok. }
    cbn [fst]. rewrite replay_all_sealed by done. f_equal. subst ops. rewrite foldl_app. cbn [foldl replay_op].
    assert (Hrp : forall l r0, foldl replay_op (mk_replay r0 None snap) (map WEntry l) =
      mk_replay (foldl (fun r e => (cetcd_raft_restore_entry r e).1) r0 l) None snap)
      by (induction l as [|e l IH]; intros r0; cbn [map foldl replay_op]; [done|]; apply IH).
    by rewrite Hrp. }
  destruct (restore_entries_log es r Hok) as (Hok' & Hl' & Ha'); [lia|by rewrite Hl0|].
  subst r'. rewrite Hrep. unfold replay_finish. cbn [rp_raft rp_hs].
  revert Hok' Hl' Ha'. generalize (foldl (fun r e => (cetcd_raft_restore_entry r e).1) r es).
  intros r1 Hok' Hl' Ha'. split; [by apply (log_ok_lkey r1)|]. split; [cbn; lia|]. split; [|done].
  intros i Hi. assert (E : lkey (cetcd_raft_restore_hard_state r1 hs) = lkey r1) by reflexivity.
  rewrite (log_at_lkey _ _ i E), Ha', Hl0.
  destruct (Z.leb_spec i 0); [lia|]. f_equal. lia.
Qed.

Lemma restart_recovers_witness :
  let es := [mk_entry 1 1 0 [7]; mk_entry 2 2 0 [8]] in
  let r := empty_raft <| r_id := 1 |> <| r_log_cap := 64 |> in
  let r' := rp_raft (replay_wal_ r 0 (persist_ready [] (mk_ready (Some (mk_hard_state 2 1 1)) None es 0 []))) in
  r_term r' = 2 /\ r_log_last_index r' = blen es.
Proof.
  intros es r r'. destruct (restart_recovers r 0 es (mk_hard_state 2 1 1)) as (_ & Hl & _ & Ht & _ & _).
  - split; try done; cbn; lia.
  - reflexivity.
  - reflexivity.
  - intros [|[|i]] e; cbn; [intros [= <-]; reflexivity|intros [= <-]; reflexivity|done].
  - apply Forall_cons. split; [|apply Forall_cons; split; [|by apply Forall_nil_2]];
      (split; [|repeat constructor; discriminate]); repeat split; reflexivity || discriminate.
  - repeat split; reflexivity || discriminate.
  - repeat split; reflexivity || discriminate.
  - repeat split; reflexivity || discriminate.
  - split; [exact Ht|exact Hl].
Defined.

(** ** Truncated entries come back

    A follower persists entries 1, 2, 3 of term 1; a leader of term 2 replaces
    entry 2, which truncates entry 3 in memory, and the new entry 2 is appended
    to the file.  [cetcd_raft_restore_entry] overwrites entry 2 but does not
    truncate, so after a restart entry 3 of term 1 is there again. *)

Definition follower_t1 : cetcd_raft :=
  foldl (fun r e => (cetcd_raft_restore_entry r e).1) (empty_raft <| r_id := 2 |> <| r_log_cap := 64 |>)
    [mk_entry 1 1 0 [1]; mk_entry 1 2 0 [2]; mk_entry 1 3 0 [3]].
Definition replacing_app : cetcd_msg :=
  zero_msg <| m_type := CETCD_MSG_APP |> <| m_from := 1 |> <| m_to := 2 |> <| m_term := 2 |>
    <| m_index := 1 |> <| m_log_term := 1 |> <| m_entries := [mk_entry 2 2 0 [9]] |>.
Definition live : cetcd_raft := (cetcd_raft_step follower_t1 replacing_app).1.
Definition disk : bytes :=
  persist_ready (foldl wal_append [] (map WEntry [mk_entry 1 1 0 [1]; mk_entry 1 2 0 [2]; mk_entry 1 3 0 [3]]))
    (cetcd_raft_ready live).2.
Definition restarted : cetcd_raft := rp_raft (replay_wal_ (empty_raft <| r_id := 2 |> <| r_log_cap := 64 |>) 0 disk).

Theorem replay_resurrects_truncated_entry :
  cetcd_raft_last_index live = 2 /\ cetcd_raft_entry_at live 3 = None /\
  cetcd_raft_last_index restarted = 3 /\ cetcd_raft_entry_at restarted 3 = Some (mk_entry 1 3 0 [3]) /\
  cetcd_raft_entry_at restarted 2 = Some (mk_entry 2 2 0 [9]) /\ r_log_last_term restarted = 1.
Proof. vm_compute. repeat split. Qed.
