(* ===== verification/Backend.v ===== *)
(** * Storage backend (src/backend/backend.c)

    The backend wraps LMDB in auto-committing operations on named buckets.
    LMDB itself is not part of the sources: [Lmdb] lists the calls the wrapper
    makes, [LmdbLaws] their documented behaviour in terms of the contents a
    transaction or the environment shows.  Any call may fail.  A named
    database handle ([MDB_dbi]) is the name of its bucket.

    Clients (the MVCC store, the lease manager) are proved against the
    interface [Backend] / [BackendLaws]; the instances at the end of the file
    discharge it from the wrapper's code. *)

From stdpp Require Export strings.
From S2P Require Import Prelude Slice KeyOrder.

(** ** LMDB *)

(** Return codes, as far as the wrapper distinguishes them. *)
Inductive mdb_rc : Type := MDB_SUCCESS | MDB_NOTFOUND | MDB_FAILURE.

#[export] Instance mdb_rc_eq_dec : EqDecision mdb_rc.
Proof. solve_decision. Defined.

(** [E] is the environment, [T] an open transaction.  [mdb_cursor_scan] is the
    list of pairs successive [mdb_cursor_get] calls ([MDB_FIRST], then
    [MDB_NEXT]) return before the first that does not succeed. *)
Class Lmdb (E T : Type) : Type := {
  mdb_txn_begin : E -> bool -> E * option T;
  mdb_dbi_open : T -> string -> bool -> T * mdb_rc;
  mdb_put : T -> string -> bytes -> bytes -> T * mdb_rc;
  mdb_get : T -> string -> bytes -> mdb_rc * bytes;
  mdb_del : T -> string -> bytes -> T * mdb_rc;
  mdb_txn_commit : E -> T -> E * mdb_rc;
  mdb_txn_abort : E -> T -> E;
  mdb_cursor_open : T -> string -> mdb_rc;
  mdb_cursor_scan : T -> string -> list (bytes * bytes)
}.

(** ** The wrapper *)

Section Wrapper.
  Context {E T : Type} `{!Lmdb E T}.

Definition _lmdb_error (rc : mdb_rc) : cetcd_status :=
  match rc with MDB_SUCCESS => CETCD_OK | _ => CETCD_ERR_IO end.

Definition cetcd_txn_begin (be : E) (read_only : bool) : E * option T :=
  mdb_txn_begin be read_only.

Definition cetcd_txn_commit (be : E) (txn : T) : E * cetcd_status :=
  let '(be, rc) := mdb_txn_commit be txn in (be, _lmdb_error rc).

Definition cetcd_txn_abort (be : E) (txn : T) : E := mdb_txn_abort be txn.

(** [true] is the C function's 0. *)
Definition _get_dbi (txn : T) (bucket : string) : T * bool :=
  let '(txn, rc) := mdb_dbi_open txn bucket true in (txn, bool_decide (rc = MDB_SUCCESS)).

Definition _put_internal (txn : T) (bucket : string) (key val : bytes) : T * cetcd_status :=
  let '(txn, ok) := _get_dbi txn bucket in
  if ok then let '(txn, rc) := mdb_put txn bucket key val in (txn, _lmdb_error rc)
  else (txn, CETCD_ERR_IO).

Definition _get_internal (txn : T) (bucket : string) (key : bytes) : T * cetcd_status * bytes :=
  let '(txn, ok) := _get_dbi txn bucket in
  if ok then
    match mdb_get txn bucket key with
    | (MDB_SUCCESS, val) => (txn, CETCD_OK, val)
    | _ => (txn, CETCD_ERR_NOTFOUND, [])
    end
  else (txn, CETCD_ERR_IO, []).

Definition cetcd_backend_put (be : E) (bucket : string) (key val : bytes) : E * cetcd_status :=
  match cetcd_txn_begin be false with
  | (be, None) => (be, CETCD_ERR_IO)
  | (be, Some txn) =>
      let '(txn, rc) := _put_internal txn bucket key val in
      if is_ok rc then cetcd_txn_commit be txn
      else (cetcd_txn_abort be txn, rc)
  end.

Definition cetcd_backend_get (be : E) (bucket : string) (key : bytes) : E * cetcd_status * bytes :=
  match cetcd_txn_begin be true with
  | (be, None) => (be, CETCD_ERR_IO, [])
  | (be, Some txn) =>
      let '(txn, rc, val) := _get_internal txn bucket key in
      (cetcd_txn_abort be txn, rc, val)
  end.

(** The result of the commit is not looked at. *)
Definition cetcd_backend_del (be : E) (bucket : string) (key : bytes) : E * cetcd_status :=
  match cetcd_txn_begin be false with
  | (be, None) => (be, CETCD_ERR_IO)
  | (be, Some txn) =>
      let '(txn, ok) := _get_dbi txn bucket in
      if ok then
        let '(txn, r) := mdb_del txn bucket key in
        let rc := _lmdb_error r in
        let '(be, _) := cetcd_txn_commit be txn in
        (be, rc)
      else (cetcd_txn_abort be txn, CETCD_ERR_IO)
  end.

(** [None] is the null [val1], which deletes [key1]. *)
Definition cetcd_backend_put2 (be : E) (bucket1 : string) (key1 : bytes) (val1 : option bytes)
    (bucket2 : string) (key2 val2 : bytes) : E * cetcd_status :=
  match cetcd_txn_begin be false with
  | (be, None) => (be, CETCD_ERR_IO)
  | (be, Some txn) =>
      let '(txn, rc) :=
        match val1 with
        | Some v => _put_internal txn bucket1 key1 v
        | None =>
            let '(txn, ok) := _get_dbi txn bucket1 in
            if ok then
              let '(txn, r) := mdb_del txn bucket1 key1 in
              (txn, match r with MDB_FAILURE => CETCD_ERR_IO | _ => CETCD_OK end)
            else (txn, CETCD_ERR_IO)
        end in
      if negb (is_ok rc) then (cetcd_txn_abort be txn, rc)
      else
        let '(txn, rc) := _put_internal txn bucket2 key2 val2 in
        if is_ok rc then cetcd_txn_commit be txn
        else (cetcd_txn_abort be txn, rc)
  end.

(** The delete loop of [cetcd_backend_del_n]; [false] when a call failed. *)
Fixpoint del_n_loop (txn : T) (bucket : string) (keys : list bytes) : T * bool :=
  match keys with
  | [] => (txn, true)
  | key :: keys =>
      if blen key =? 0 then del_n_loop txn bucket keys
      else
        let '(txn, ok) := _get_dbi txn bucket in
        if ok then
          match mdb_del txn bucket key with
          | (txn, MDB_FAILURE) => (txn, false)
          | (txn, _) => del_n_loop txn bucket keys
          end
        else (txn, false)
  end.

Definition cetcd_backend_del_n (be : E) (bucket : string) (keys : list bytes)
    (meta_bucket : string) (meta_key meta_val : bytes) : E * cetcd_status :=
  match cetcd_txn_begin be false with
  | (be, None) => (be, CETCD_ERR_IO)
  | (be, Some txn) =>
      let '(txn, ok) := del_n_loop txn bucket keys in
      if negb ok then (cetcd_txn_abort be txn, CETCD_ERR_IO)
      else
        let '(txn, rc) := _put_internal txn meta_bucket meta_key meta_val in
        if is_ok rc then cetcd_txn_commit be txn
        else (cetcd_txn_abort be txn, rc)
  end.

(** Operations of a caller's own transaction. *)
Definition cetcd_txn_put (txn : T) (bucket : string) (key val : bytes) : T * cetcd_status :=
  _put_internal txn bucket key val.

Definition cetcd_txn_get (txn : T) (bucket : string) (key : bytes) : T * cetcd_status * bytes :=
  _get_internal txn bucket key.

Definition cetcd_txn_del (txn : T) (bucket : string) (key : bytes) : T * cetcd_status :=
  let '(txn, ok) := _get_dbi txn bucket in
  if ok then let '(txn, rc) := mdb_del txn bucket key in (txn, _lmdb_error rc)
  else (txn, CETCD_ERR_IO).

Definition cetcd_backend_foreach {St : Type} (be : E) (bucket : string)
    (fn : bytes -> bytes -> St -> St * bool) (udata : St) : E * St * cetcd_status :=
  match cetcd_txn_begin be true with
  | (be, None) => (be, udata, CETCD_ERR_IO)
  | (be, Some txn) =>
      match mdb_dbi_open txn bucket false with
      | (txn, MDB_NOTFOUND) => (cetcd_txn_abort be txn, udata, CETCD_OK)
      | (txn, MDB_FAILURE) => (cetcd_txn_abort be txn, udata, CETCD_ERR_IO)
      | (txn, MDB_SUCCESS) =>
          if bool_decide (mdb_cursor_open txn bucket = MDB_SUCCESS) then
            let udata := (fold_stop (fun kv => fn kv.1 kv.2) (mdb_cursor_scan txn bucket) udata).1 in
            (cetcd_txn_abort be txn, udata, CETCD_OK)
          else (cetcd_txn_abort be txn, udata, CETCD_ERR_IO)
      end
  end.

End Wrapper.

(** ** The interface

    A view is the contents of every bucket. *)
Definition view : Type := string -> gmap bytes bytes.

Definition view_eq (v w : view) : Prop := forall b, v b = w b.

Infix "≡v" := view_eq (at level 70).

#[export] Instance view_eq_equiv : Equivalence view_eq.
Proof. split; [intros v b|intros v w H b|intros u v w H H' b]; [done|by rewrite H|by rewrite H, H']. Qed.

(** The view with the contents of one bucket changed. *)
Definition view_alter (f : gmap bytes bytes -> gmap bytes bytes) (b : string) (v : view) : view :=
  fun b' => if decide (b' = b) then f (v b') else v b'.

#[export] Instance view_alter_proper f b : Proper (view_eq ==> view_eq) (view_alter f b).
Proof. intros v w H b'. unfold view_alter. by rewrite H. Qed.

(** [put2] with a null first value deletes the first key. *)
Definition view_put_del (b : string) (k : bytes) (val : option bytes) (v : view) : view :=
  match val with
  | Some x => view_alter <[k := x]> b v
  | None => view_alter (delete k) b v
  end.

#[export] Instance view_put_del_proper b k val : Proper (view_eq ==> view_eq) (view_put_del b k val).
Proof. intros v w H. unfold view_put_del. destruct val; by rewrite H. Qed.

Definition delete_keys (ks : list bytes) (m : gmap bytes bytes) : gmap bytes bytes :=
  foldl (fun m k => if blen k =? 0 then m else delete k m) m ks.

Class LmdbLaws (E T : Type) `{!Lmdb E T} : Type := {
  env_view : E -> view;
  txn_view : T -> view;
  mdb_txn_begin_env e ro : env_view (mdb_txn_begin e ro).1 ≡v env_view e;
  mdb_txn_begin_txn e ro t : (mdb_txn_begin e ro).2 = Some t -> txn_view t ≡v env_view e;
  mdb_dbi_open_view t b c : txn_view (mdb_dbi_open t b c).1 ≡v txn_view t;
  mdb_dbi_open_absent t b c : (mdb_dbi_open t b c).2 = MDB_NOTFOUND -> txn_view t b = ∅;
  mdb_put_view t b k v : (mdb_put t b k v).2 = MDB_SUCCESS ->
    txn_view (mdb_put t b k v).1 ≡v view_alter <[k := v]> b (txn_view t);
  mdb_get_found t b k v : mdb_get t b k = (MDB_SUCCESS, v) -> txn_view t b !! k = Some v;
  mdb_del_found t b k : (mdb_del t b k).2 = MDB_SUCCESS ->
    is_Some (txn_view t b !! k) /\ txn_view (mdb_del t b k).1 ≡v view_alter (delete k) b (txn_view t);
  mdb_del_absent t b k : (mdb_del t b k).2 = MDB_NOTFOUND -> txn_view t b !! k = None;
  mdb_del_unchanged t b k : (mdb_del t b k).2 <> MDB_SUCCESS -> txn_view (mdb_del t b k).1 ≡v txn_view t;
  mdb_commit_ok e t : (mdb_txn_commit e t).2 = MDB_SUCCESS -> env_view (mdb_txn_commit e t).1 ≡v txn_view t;
  mdb_commit_fail e t : (mdb_txn_commit e t).2 <> MDB_SUCCESS -> env_view (mdb_txn_commit e t).1 ≡v env_view e;
  mdb_abort_view e t : env_view (mdb_txn_abort e t) ≡v env_view e;
  mdb_scan_sorted t b : StronglySorted lex_lt (mdb_cursor_scan t b).*1;
  mdb_scan_map t b : list_to_map (mdb_cursor_scan t b) = txn_view t b
}.

(** What the stores above rely on. *)
Class Backend (E : Type) : Type := {
  be_put : E -> string -> bytes -> bytes -> E * cetcd_status;
  be_put2 : E -> string -> bytes -> option bytes -> string -> bytes -> bytes -> E * cetcd_status;
  be_del : E -> string -> bytes -> E * cetcd_status;
  be_del_n : E -> string -> list bytes -> string -> bytes -> bytes -> E * cetcd_status;
  be_get : E -> string -> bytes -> E * cetcd_status * bytes;
  be_foreach {St : Type} : E -> string -> (bytes -> bytes -> St -> St * bool) -> St -> E * St * cetcd_status
}.

Class BackendLaws (E : Type) `{!Backend E} : Type := {
  be_view : E -> view;
  be_put_spec e b k v :
    be_view (be_put e b k v).1 ≡v
    (if is_ok (be_put e b k v).2 then view_alter <[k := v]> b (be_view e) else be_view e);
  be_put2_spec e b1 k1 v1 b2 k2 v2 :
    be_view (be_put2 e b1 k1 v1 b2 k2 v2).1 ≡v
    (if is_ok (be_put2 e b1 k1 v1 b2 k2 v2).2
     then view_alter <[k2 := v2]> b2 (view_put_del b1 k1 v1 (be_view e)) else be_view e);
  be_del_n_spec e b ks b2 k2 v2 :
    be_view (be_del_n e b ks b2 k2 v2).1 ≡v
    (if is_ok (be_del_n e b ks b2 k2 v2).2
     then view_alter <[k2 := v2]> b2 (view_alter (delete_keys ks) b (be_view e)) else be_view e);
  be_del_ok e b k : (be_del e b k).2 = CETCD_OK ->
    is_Some (be_view e b !! k) /\
    (be_view (be_del e b k).1 ≡v view_alter (delete k) b (be_view e) \/ be_view (be_del e b k).1 ≡v be_view e);
  be_del_err e b k : (be_del e b k).2 <> CETCD_OK -> be_view (be_del e b k).1 ≡v be_view e;
  be_del_missing e b k : be_view e b !! k = None -> (be_del e b k).2 = CETCD_ERR_IO;
  be_get_view e b k : be_view (be_get e b k).1.1 ≡v be_view e;
  be_get_ok e b k : (be_get e b k).1.2 = CETCD_OK -> be_view e b !! k = Some (be_get e b k).2;
  be_foreach_view {St} e b (fn : bytes -> bytes -> St -> St * bool) st : be_view (be_foreach e b fn st).1.1 ≡v be_view e;
  be_foreach_ok {St} e b (fn : bytes -> bytes -> St -> St * bool) st : (be_foreach e b fn st).2 = CETCD_OK ->
    (be_foreach e b fn st).1.2 = (fold_stop (fun kv => fn kv.1 kv.2) (sorted_entries (be_view e b)) st).1
}.

(** ** Backends without faults

    LMDB refuses keys of no byte and of more than 511 bytes.  A backend never
    fails when its writes of other keys succeed and its deletes of keys it
    holds do, now and after every such operation. *)
Definition db_key (k : bytes) : Prop := 0 < blen k <= 511.

Section NeverFails.
  Context {E : Type} `{BackendLaws E}.

Record steady (P : E -> Prop) : Prop := {
  st_put e b k v : P e -> db_key k -> P (be_put e b k v).1 /\ (be_put e b k v).2 = CETCD_OK;
  st_put2 e b k v b2 k2 v2 : P e -> db_key k -> db_key k2 ->
    P (be_put2 e b k v b2 k2 v2).1 /\ (be_put2 e b k v b2 k2 v2).2 = CETCD_OK;
  st_del_n e b ks b2 k2 v2 : P e -> Forall db_key ks -> db_key k2 ->
    P (be_del_n e b ks b2 k2 v2).1 /\ (be_del_n e b ks b2 k2 v2).2 = CETCD_OK;
  st_del e b k : P e -> db_key k -> P (be_del e b k).1 /\ (is_Some (be_view e b !! k) -> (be_del e b k).2 = CETCD_OK)
}.

Definition never_fails (e : E) : Prop := exists P, steady P /\ P e.

Lemma never_fails_steady : steady never_fails.
Proof.
  split.
  - intros e b k v (P & Hs & He) Hk. destruct (st_put P Hs e b k v He Hk) as [? ->]. split; [by exists P|done].
  - intros e b k v b2 k2 v2 (P & Hs & He) Hk Hk2. destruct (st_put2 P Hs e b k v b2 k2 v2 He Hk Hk2) as [? ->].
    split; [by exists P|done].
  - intros e b ks b2 k2 v2 (P & Hs & He) Hk Hk2. destruct (st_del_n P Hs e b ks b2 k2 v2 He Hk Hk2) as [? ->].
    split; [by exists P|done].
  - intros e b k (P & Hs & He) Hk. destruct (st_del P Hs e b k He Hk) as [? Hd]. split; [by exists P|done].
Qed.

(** What a write leaves of the buckets it does not name. *)
Lemma put2_other e b1 k1 v1 b2 k2 v2 b : b <> b1 -> b <> b2 -> be_view (be_put2 e b1 k1 v1 b2 k2 v2).1 b = be_view e b.
Proof.
  intros H1 H2. rewrite (be_put2_spec e b1 k1 v1 b2 k2 v2 b). destruct (is_ok _); [|done].
  unfold view_alter. rewrite decide_False by done. destruct v1; cbn [view_put_del]; unfold view_alter; by rewrite decide_False.
Qed.

Lemma del_n_other e b1 ks b2 k2 v2 b : b <> b1 -> b <> b2 -> be_view (be_del_n e b1 ks b2 k2 v2).1 b = be_view e b.
Proof.
  intros H1 H2. rewrite (be_del_n_spec e b1 ks b2 k2 v2 b). destruct (is_ok _); [|done].
  unfold view_alter. by rewrite !decide_False.
Qed.

Lemma del_other e b k k' : k' <> k -> be_view (be_del e b k).1 b !! k' = be_view e b !! k'.
Proof.
  intros Hne. destruct (decide ((be_del e b k).2 = CETCD_OK)) as [Ho|Hf]; [|by rewrite (be_del_err e b k Hf b)].
  destruct (be_del_ok e b k Ho) as [_ [Hv|Hv]]; rewrite (Hv b); [|done].
  unfold view_alter. rewrite decide_True by done. by rewrite lookup_delete_ne.
Qed.

End NeverFails.

(** ** The wrapper implements the interface *)

#[export] Instance lmdb_backend E T `{!Lmdb E T} : Backend E := {|
  be_put := cetcd_backend_put;
  be_put2 := cetcd_backend_put2;
  be_del := cetcd_backend_del;
  be_del_n := cetcd_backend_del_n;
  be_get := cetcd_backend_get;
  be_foreach St := cetcd_backend_foreach
|}.

Section WrapperLaws.
  Context {E T : Type} `{LmdbLaws E T}.

Lemma commit_view (e : E) (t : T) :
  env_view (cetcd_txn_commit e t).1 ≡v
  (if is_ok (cetcd_txn_commit e t).2 then txn_view t else env_view e).
Proof.
  unfold cetcd_txn_commit. pose proof (mdb_commit_ok e t) as H1. pose proof (mdb_commit_fail e t) as H2.
  destruct (mdb_txn_commit e t) as [e' []]; cbn in *; auto; apply H2; discriminate.
Qed.

Lemma get_dbi_view (t : T) b : txn_view (_get_dbi t b).1 ≡v txn_view t.
Proof.
  unfold _get_dbi. pose proof (mdb_dbi_open_view t b true) as H1.
  by destruct (mdb_dbi_open t b true) as [t' rc].
Qed.

Lemma put_internal_view (t : T) b k v : (_put_internal t b k v).2 = CETCD_OK ->
  txn_view (_put_internal t b k v).1 ≡v view_alter <[k := v]> b (txn_view t).
Proof.
  unfold _put_internal. pose proof (get_dbi_view t b) as Hd. destruct (_get_dbi t b) as [t' []]; [|done].
  pose proof (mdb_put_view t' b k v) as Hp. destruct (mdb_put t' b k v) as [t'' []]; cbn in *; try done.
  intros _. by rewrite Hp, Hd.
Qed.

(** A delete that does not fail removes the key, present or not. *)
Lemma del_view (t : T) b k : (mdb_del t b k).2 <> MDB_FAILURE ->
  txn_view (mdb_del t b k).1 ≡v view_alter (delete k) b (txn_view t).
Proof.
  intros Hrc. destruct (decide ((mdb_del t b k).2 = MDB_SUCCESS)) as [Hs|Hs].
  - by destruct (mdb_del_found _ _ _ Hs) as [_ ->].
  - rewrite (mdb_del_unchanged _ _ _ Hs). intros b'. unfold view_alter. case_decide; [|done]. subst b'.
    rewrite delete_id; [done|]. apply mdb_del_absent. by destruct (mdb_del t b k).2.
Qed.

Lemma delete_keys_cons k ks m :
  delete_keys (k :: ks) m = delete_keys ks (if blen k =? 0 then m else delete k m).
Proof. done. Qed.

Lemma view_alter_compose f g h b v : (forall m, h m = f (g m)) ->
  view_alter h b v ≡v view_alter f b (view_alter g b v).
Proof. intros Hh b'. unfold view_alter. by case_decide. Qed.

Lemma del_n_loop_view ks (t : T) b : (del_n_loop t b ks).2 = true ->
  txn_view (del_n_loop t b ks).1 ≡v view_alter (delete_keys ks) b (txn_view t).
Proof.
  revert t. induction ks as [|k ks IH]; intros t; cbn [del_n_loop].
  { intros _ b'. unfold view_alter, delete_keys. cbn. by case_decide. }
  destruct (Z.eqb_spec (blen k) 0) as [Hk|Hk].
  { intros Hok. rewrite IH by done. intros b'. unfold view_alter. case_decide; [|done].
    by rewrite delete_keys_cons, (proj2 (Z.eqb_eq _ _) Hk). }
  pose proof (get_dbi_view t b) as Hd. destruct (_get_dbi t b) as [t' []]; [|done]. cbn [fst] in Hd.
  pose proof (del_view t' b k) as Hv.
  rewrite (view_alter_compose (delete_keys ks) (delete k))
    by (intros m; by rewrite delete_keys_cons, (proj2 (Z.eqb_neq _ _) Hk)).
  destruct (mdb_del t' b k) as [t'' []]; cbn [fst snd] in Hv; [| |done];
    intros Hok; rewrite IH, Hv, Hd by done; done.
Qed.

(** How an operation ends: aborted with its error, or committed. *)
Lemma end_txn (e : E) (t : T) (rc : cetcd_status) (v : view) :
  (rc = CETCD_OK -> txn_view t ≡v v) ->
  let r := if is_ok rc then cetcd_txn_commit e t else (cetcd_txn_abort e t, rc) in
  env_view r.1 ≡v (if is_ok r.2 then v else env_view e).
Proof.
  intros Hv. cbn. destruct rc; cbn [is_ok fst snd]; try apply mdb_abort_view.
  rewrite commit_view. destruct (is_ok _); [by apply Hv|done].
Qed.

(** A transaction starts from the committed contents. *)
Lemma begin_view (e : E) ro :
  match mdb_txn_begin e ro with
  | (e', Some t) => env_view e' ≡v env_view e /\ txn_view t ≡v env_view e
  | (e', None) => env_view e' ≡v env_view e
  end.
Proof.
  pose proof (mdb_txn_begin_env e ro) as H1. pose proof (mdb_txn_begin_txn e ro) as H2.
  destruct (mdb_txn_begin e ro) as [e' [t|]]; cbn in *; auto.
Qed.

Lemma if_view_proper (c : bool) (u v w : view) : v ≡v w -> (if c then u else v) ≡v (if c then u else w).
Proof. by destruct c. Qed.

Lemma backend_put_view (e : E) b k v :
  env_view (cetcd_backend_put e b k v).1 ≡v
  (if is_ok (cetcd_backend_put e b k v).2 then view_alter <[k := v]> b (env_view e) else env_view e).
Proof.
  unfold cetcd_backend_put, cetcd_txn_begin. pose proof (begin_view e false) as Hb.
  destruct (mdb_txn_begin e false) as [e' [t|]]; [|done]. destruct Hb as [He Ht].
  pose proof (put_internal_view t b k v) as Hp. destruct (_put_internal t b k v) as [t' rc]. cbn [fst snd] in Hp.
  rewrite <- (if_view_proper _ _ _ _ He). apply end_txn. intros ->. by rewrite Hp, Ht.
Qed.

Lemma first_write_view (t : T) b k (val : option bytes) :
  let first := match val with
    | Some v => _put_internal t b k v
    | None =>
        let '(txn, ok) := _get_dbi t b in
        if ok then let '(txn, r) := mdb_del txn b k in
          (txn, match r with MDB_FAILURE => CETCD_ERR_IO | _ => CETCD_OK end)
        else (txn, CETCD_ERR_IO)
    end in
  first.2 = CETCD_OK -> txn_view first.1 ≡v view_put_del b k val (txn_view t).
Proof.
  destruct val as [v|]; cbn [view_put_del]; [apply put_internal_view|].
  pose proof (get_dbi_view t b) as Hd. destruct (_get_dbi t b) as [t' []]; [|done]. cbn [fst] in Hd.
  pose proof (del_view t' b k) as Hv. destruct (mdb_del t' b k) as [t'' []]; cbn [fst snd] in *; try done;
    intros _; by rewrite Hv, Hd.
Qed.

Lemma backend_put2_view (e : E) b1 k1 v1 b2 k2 v2 :
  env_view (cetcd_backend_put2 e b1 k1 v1 b2 k2 v2).1 ≡v
  (if is_ok (cetcd_backend_put2 e b1 k1 v1 b2 k2 v2).2
   then view_alter <[k2 := v2]> b2 (view_put_del b1 k1 v1 (env_view e)) else env_view e).
Proof.
  unfold cetcd_backend_put2, cetcd_txn_begin. pose proof (begin_view e false) as Hb.
  destruct (mdb_txn_begin e false) as [e' [t|]]; [|done]. destruct Hb as [He Ht].
  pose proof (first_write_view t b1 k1 v1) as Hf. cbv zeta in Hf.
  destruct (match v1 with Some _ => _ | None => _ end) as [t1 rc1]. cbn [fst snd] in Hf.
  destruct (is_ok rc1) eqn:E1; cbn [negb].
  - pose proof (put_internal_view t1 b2 k2 v2) as Hp. destruct (_put_internal t1 b2 k2 v2) as [t' rc].
    cbn [fst snd] in Hp. rewrite <- (if_view_proper _ _ _ _ He). apply end_txn. intros ->.
    rewrite Hp, Hf by (done || by destruct rc1). by rewrite Ht.
  - cbn [fst snd]. rewrite E1. unfold cetcd_txn_abort. by rewrite mdb_abort_view.
Qed.

Lemma backend_del_n_view (e : E) b ks b2 k2 v2 :
  env_view (cetcd_backend_del_n e b ks b2 k2 v2).1 ≡v
  (if is_ok (cetcd_backend_del_n e b ks b2 k2 v2).2
   then view_alter <[k2 := v2]> b2 (view_alter (delete_keys ks) b (env_view e)) else env_view e).
Proof.
  unfold cetcd_backend_del_n, cetcd_txn_begin. pose proof (begin_view e false) as Hb.
  destruct (mdb_txn_begin e false) as [e' [t|]]; [|done]. destruct Hb as [He Ht].
  pose proof (del_n_loop_view ks t b) as Hl. destruct (del_n_loop t b ks) as [t1 []]; cbn [fst snd negb] in *.
  - pose proof (put_internal_view t1 b2 k2 v2) as Hp. destruct (_put_internal t1 b2 k2 v2) as [t' rc].
    cbn [fst snd] in Hp. rewrite <- (if_view_proper _ _ _ _ He). apply end_txn. intros ->.
    by rewrite Hp, Hl, Ht.
  - cbn [is_ok]. unfold cetcd_txn_abort. by rewrite mdb_abort_view.
Qed.

Lemma backend_del_ok (e : E) b k : (cetcd_backend_del e b k).2 = CETCD_OK ->
  is_Some (env_view e b !! k) /\
  (env_view (cetcd_backend_del e b k).1 ≡v view_alter (delete k) b (env_view e) \/
   env_view (cetcd_backend_del e b k).1 ≡v env_view e).
Proof.
  unfold cetcd_backend_del, cetcd_txn_begin. pose proof (begin_view e false) as Hb.
  destruct (mdb_txn_begin e false) as [e' [t|]]; [|done]. destruct Hb as [He Ht].
  pose proof (get_dbi_view t b) as Hd. destruct (_get_dbi t b) as [t' []]; [|done]. cbn [fst] in Hd.
  pose proof (mdb_del_found t' b k) as Hv. destruct (mdb_del t' b k) as [t'' []]; cbn [fst snd] in *.
  2: by destruct (cetcd_txn_commit e' t''). 2: by destruct (cetcd_txn_commit e' t'').
  destruct (Hv eq_refl) as [Hs Hd']. rewrite Hd, Ht in Hs.
  pose proof (commit_view e' t'') as Hc. destruct (cetcd_txn_commit e' t'') as [e'' rc]. cbn [fst snd] in *.
  intros _. split; [done|]. destruct (is_ok rc); [left|right]; rewrite Hc; [|done]. by rewrite Hd', Hd, Ht.
Qed.

Lemma backend_del_err (e : E) b k : (cetcd_backend_del e b k).2 <> CETCD_OK ->
  env_view (cetcd_backend_del e b k).1 ≡v env_view e.
Proof.
  unfold cetcd_backend_del, cetcd_txn_begin. pose proof (begin_view e false) as Hb.
  destruct (mdb_txn_begin e false) as [e' [t|]]; [|done]. destruct Hb as [He Ht].
  pose proof (get_dbi_view t b) as Hd. destruct (_get_dbi t b) as [t' []]; cbn [fst snd] in *.
  2: by unfold cetcd_txn_abort; rewrite mdb_abort_view.
  pose proof (mdb_del_unchanged t' b k) as Hv. destruct (mdb_del t' b k) as [t'' r]; cbn [fst snd] in *.
  pose proof (commit_view e' t'') as Hc. destruct (cetcd_txn_commit e' t'') as [e'' rc]. cbn [fst snd] in *.
  intros Hrc. rewrite Hc. destruct (is_ok rc); [|done]. rewrite Hv; [by rewrite Hd, Ht|]. intros ->. done.
Qed.

(** A missing key makes [cetcd_backend_del] return [CETCD_ERR_IO], not
    [CETCD_ERR_NOTFOUND]. *)
Lemma backend_del_missing (e : E) b k :
  env_view e b !! k = None -> (cetcd_backend_del e b k).2 = CETCD_ERR_IO.
Proof.
  intros Hk. destruct (decide ((cetcd_backend_del e b k).2 = CETCD_OK)) as [Ho|Ho].
  { destruct (backend_del_ok _ _ _ Ho) as [[v Hv] _]. congruence. }
  revert Ho. unfold cetcd_backend_del. destruct (cetcd_txn_begin e false) as [e' [t|]]; [|done].
  destruct (_get_dbi t b) as [t' []]; [|done]. destruct (mdb_del t' b k) as [t'' r].
  destruct (cetcd_txn_commit e' t''). by destruct r.
Qed.

Lemma backend_get_view (e : E) b k : env_view (cetcd_backend_get e b k).1.1 ≡v env_view e /\
  ((cetcd_backend_get e b k).1.2 = CETCD_OK -> env_view e b !! k = Some (cetcd_backend_get e b k).2).
Proof.
  unfold cetcd_backend_get, cetcd_txn_begin, _get_internal. pose proof (begin_view e true) as Hb.
  destruct (mdb_txn_begin e true) as [e' [t|]]; [|done]. destruct Hb as [He Ht].
  pose proof (get_dbi_view t b) as Hd. destruct (_get_dbi t b) as [t' []]; cbn [fst snd] in *.
  2: split; [by unfold cetcd_txn_abort; rewrite mdb_abort_view|done].
  pose proof (mdb_get_found t' b k) as Hg.
  destruct (mdb_get t' b k) as [[] v]; cbn [fst snd];
    (split; [unfold cetcd_txn_abort; by rewrite mdb_abort_view|try done]).
  intros _. rewrite <- Ht, <- Hd. by apply Hg.
Qed.

Lemma backend_foreach_view {St} (e : E) b (fn : bytes -> bytes -> St -> St * bool) st :
  env_view (cetcd_backend_foreach e b fn st).1.1 ≡v env_view e /\
  ((cetcd_backend_foreach e b fn st).2 = CETCD_OK ->
   (cetcd_backend_foreach e b fn st).1.2 =
   (fold_stop (fun kv => fn kv.1 kv.2) (sorted_entries (env_view e b)) st).1).
Proof.
  unfold cetcd_backend_foreach, cetcd_txn_begin. pose proof (begin_view e true) as Hb.
  destruct (mdb_txn_begin e true) as [e' [t|]]; [|done]. destruct Hb as [He Ht].
  pose proof (mdb_dbi_open_view t b false) as Hd. pose proof (mdb_dbi_open_absent t b false) as Ha.
  destruct (mdb_dbi_open t b false) as [t' []]; cbn [fst snd] in *; unfold cetcd_txn_abort.
  - destruct (bool_decide _); cbn [fst snd]; (split; [by rewrite mdb_abort_view|]); [|done].
    intros _. rewrite <- Ht, <- Hd, <- mdb_scan_map, <- sorted_entries_unique; [done|apply mdb_scan_sorted].
  - split; [by rewrite mdb_abort_view|]. intros _. rewrite <- Ht, Ha by done. done.
  - split; [by rewrite mdb_abort_view|done].
Qed.

End WrapperLaws.

#[export] Instance lmdb_backend_laws E T `{LmdbLaws E T} : BackendLaws E.
Proof.
  refine {| be_view := env_view |}; intros; cbn [be_put be_put2 be_del be_del_n be_get be_foreach lmdb_backend].
  - apply backend_put_view.
  - apply backend_put2_view.
  - apply backend_del_n_view.
  - by apply backend_del_ok.
  - by apply backend_del_err.
  - by apply backend_del_missing.
  - apply backend_get_view.
  - by apply backend_get_view.
  - apply backend_foreach_view.
  - by apply backend_foreach_view.
Defined.

(** Atomic writes.  Whatever LMDB call fails, a put, a two-bucket write or
    a batch delete of the backend either returns [CETCD_OK] with all of its
    changes committed, or returns an error with no change at all. *)
Theorem backend_atomic {E T : Type} `{LmdbLaws E T} (e : E) b k v val b2 k2 v2 ks :
  env_view (cetcd_backend_put e b k v).1 ≡v
    (if is_ok (cetcd_backend_put e b k v).2 then view_alter <[k := v]> b (env_view e) else env_view e) /\
  env_view (cetcd_backend_put2 e b k val b2 k2 v2).1 ≡v
    (if is_ok (cetcd_backend_put2 e b k val b2 k2 v2).2
     then view_alter <[k2 := v2]> b2 (view_put_del b k val (env_view e)) else env_view e) /\
  env_view (cetcd_backend_del_n e b ks b2 k2 v2).1 ≡v
    (if is_ok (cetcd_backend_del_n e b ks b2 k2 v2).2
     then view_alter <[k2 := v2]> b2 (view_alter (delete_keys ks) b (env_view e)) else env_view e).
Proof. split_and!; [apply backend_put_view|apply backend_put2_view|apply backend_del_n_view]. Qed.

(** ** An in-memory LMDB

    Contents plus a schedule of faults: each [mdb_txn_begin] and each
    [mdb_txn_commit] consumes one element and fails when it is [true].  Keys
    of no byte or of more than 511 bytes are refused, as LMDB documents. *)

Record mem_env : Type := mk_mem_env { me_db : gmap string (gmap bytes bytes); me_faults : list bool }.
Record mem_txn : Type := mk_mem_txn { mt_db : gmap string (gmap bytes bytes); mt_rdonly : bool }.

Definition db_view (db : gmap string (gmap bytes bytes)) : view := fun b => default ∅ (db !! b).

Definition next_fault (e : mem_env) : bool * mem_env :=
  match me_faults e with
  | [] => (false, e)
  | f :: fs => (f, mk_mem_env (me_db e) fs)
  end.

Definition key_fits (k : bytes) : bool := (0 <? blen k) && (blen k <=? 511).

#[export] Instance mem_lmdb : Lmdb mem_env mem_txn := {|
  mdb_txn_begin e ro :=
    let '(f, e) := next_fault e in (e, if f : bool then None else Some (mk_mem_txn (me_db e) ro));
  mdb_dbi_open t b create :=
    match mt_db t !! b with
    | Some _ => (t, MDB_SUCCESS)
    | None =>
        if negb create then (t, MDB_NOTFOUND)
        else if mt_rdonly t then (t, MDB_FAILURE)
        else (mk_mem_txn (<[b := ∅]> (mt_db t)) (mt_rdonly t), MDB_SUCCESS)
    end;
  mdb_put t b k v :=
    if mt_rdonly t || negb (key_fits k) then (t, MDB_FAILURE)
    else (mk_mem_txn (<[b := <[k := v]> (db_view (mt_db t) b)]> (mt_db t)) (mt_rdonly t), MDB_SUCCESS);
  mdb_get t b k :=
    match db_view (mt_db t) b !! k with Some v => (MDB_SUCCESS, v) | None => (MDB_NOTFOUND, []) end;
  mdb_del t b k :=
    if mt_rdonly t then (t, MDB_FAILURE)
    else match db_view (mt_db t) b !! k with
         | Some _ => (mk_mem_txn (<[b := delete k (db_view (mt_db t) b)]> (mt_db t)) (mt_rdonly t), MDB_SUCCESS)
         | None => (t, MDB_NOTFOUND)
         end;
  mdb_txn_commit e t :=
    let '(f, e) := next_fault e in
    if f : bool then (e, MDB_FAILURE) else (mk_mem_env (mt_db t) (me_faults e), MDB_SUCCESS);
  mdb_txn_abort e t := e;
  mdb_cursor_open t b := MDB_SUCCESS;
  mdb_cursor_scan t b := sorted_entries (db_view (mt_db t) b)
|}.

Lemma next_fault_db e : me_db (next_fault e).2 = me_db e.
Proof. unfold next_fault. by destruct (me_faults e). Qed.

Lemma db_view_insert db b m : db_view (<[b := m]> db) ≡v view_alter (fun _ => m) b (db_view db).
Proof.
  intros b'. unfold db_view, view_alter. case_decide as Hb; [subst; by rewrite lookup_insert_eq|].
  by rewrite lookup_insert_ne.
Qed.

#[export] Instance mem_lmdb_laws : LmdbLaws mem_env mem_txn.
Proof.
  refine {| env_view e := db_view (me_db e); txn_view t := db_view (mt_db t) |};
    cbn [mdb_txn_begin mdb_dbi_open mdb_put mdb_get mdb_del mdb_txn_commit mdb_txn_abort mdb_cursor_open
         mdb_cursor_scan mem_lmdb].
  - intros e ro. pose proof (next_fault_db e) as Hf. destruct (next_fault e) as [f e']. cbn in *. by rewrite Hf.
  - intros e ro t. pose proof (next_fault_db e) as Hf. destruct (next_fault e) as [[] e']; cbn in *; [done|].
    intros [= <-]. cbn. by rewrite Hf.
  - intros t b c. destruct (mt_db t !! b) eqn:Hb; [done|]. destruct c; cbn; [|done].
    destruct (mt_rdonly t); [done|]. cbn. rewrite db_view_insert. intros b'. unfold view_alter.
    case_decide; [|done]. subst. unfold db_view. by rewrite Hb.
  - intros t b c. unfold db_view. destruct (mt_db t !! b) eqn:Hb; [done|]. by destruct c, (mt_rdonly t).
  - intros t b k v. destruct (_ || _); [done|]. cbn. intros _. rewrite db_view_insert.
    intros b'. unfold view_alter. case_decide; [by subst|done].
  - intros t b k v. destruct (db_view _ _ !! k); congruence.
  - intros t b k. destruct (mt_rdonly t); [done|]. destruct (db_view _ _ !! k) eqn:Hk; [|done]. cbn. intros _.
    split; [done|]. rewrite db_view_insert. intros b'. unfold view_alter. case_decide; [by subst|done].
  - intros t b k. destruct (mt_rdonly t); [done|]. by destruct (db_view _ _ !! k) eqn:Hk.
  - intros t b k. destruct (mt_rdonly t); [done|]. by destruct (db_view _ _ !! k) eqn:Hk.
  - intros e t. by destruct (next_fault e) as [[] e'].
  - intros e t. pose proof (next_fault_db e) as Hf. destruct (next_fault e) as [[] e']; cbn in *; [by rewrite Hf|done].
  - done.
  - intros t b. apply sorted_entries_sorted.
  - intros t b. apply sorted_entries_map.
Defined.

(** With an empty schedule it never fails. *)
Lemma mem_begin (e : mem_env) : me_faults e = [] -> cetcd_txn_begin e false = (e, Some (mk_mem_txn (me_db e) false)).
Proof. destruct e as [db fs]. cbn. by intros ->. Qed.

Lemma mem_commit (e : mem_env) t : me_faults e = [] -> me_faults (cetcd_txn_commit e t).1 = [] /\ (cetcd_txn_commit e t).2 = CETCD_OK.
Proof. destruct e as [db fs]. cbn. by intros ->. Qed.

Lemma mem_dbi (t : mem_txn) b : mt_rdonly t = false ->
  exists t', _get_dbi t b = (t', true) /\ mt_rdonly t' = false /\ db_view (mt_db t') ≡v db_view (mt_db t).
Proof.
  intros Hr. pose proof (get_dbi_view t b) as Hv. unfold _get_dbi in *. cbn [mdb_dbi_open mem_lmdb] in *.
  destruct (mt_db t !! b); [by eexists|]. rewrite Hr in *. by eexists.
Qed.

Lemma mem_put (t : mem_txn) b k v : mt_rdonly t = false -> db_key k ->
  exists t', _put_internal t b k v = (t', CETCD_OK) /\ mt_rdonly t' = false.
Proof.
  intros Hr [K1 K2]. unfold _put_internal. destruct (mem_dbi t b Hr) as (t' & -> & Hr' & _). cbn [mdb_put mem_lmdb]. rewrite Hr'.
  unfold key_fits. rewrite (proj2 (Z.ltb_lt _ _)), (proj2 (Z.leb_le _ _)) by done. by eexists.
Qed.

Lemma mem_del (t : mem_txn) b k : mt_rdonly t = false ->
  exists t' rc, mdb_del t b k = (t', rc) /\ mt_rdonly t' = false /\ rc <> MDB_FAILURE /\
    (is_Some (db_view (mt_db t) b !! k) -> rc = MDB_SUCCESS).
Proof.
  intros Hr. cbn [mdb_del mem_lmdb]. rewrite Hr.
  destruct (db_view _ _ !! k); do 2 eexists; (split; [reflexivity|]); split_and!; try done; by intros [].
Qed.

Lemma mem_del_loop b ks : forall t : mem_txn, mt_rdonly t = false -> exists t', del_n_loop t b ks = (t', true) /\ mt_rdonly t' = false.
Proof.
  induction ks as [|k ks IH]; intros t Hr; cbn [del_n_loop]; [by eexists|]. destruct (blen k =? 0); [by apply IH|].
  destruct (mem_dbi t b Hr) as (t' & -> & Hr' & _). destruct (mem_del t' b k Hr') as (t'' & rc & -> & Hr'' & Hrc & _).
  destruct rc; [..|done]; by apply IH.
Qed.

Lemma mem_first (t : mem_txn) b k (v : option bytes) : mt_rdonly t = false -> db_key k ->
  exists t', mt_rdonly t' = false /\ match v with
    | Some v => _put_internal t b k v
    | None => let '(txn, ok) := _get_dbi t b in
        if ok then let '(txn, r) := mdb_del txn b k in (txn, match r with MDB_FAILURE => CETCD_ERR_IO | _ => CETCD_OK end)
        else (txn, CETCD_ERR_IO) end = (t', CETCD_OK).
Proof.
  intros Hr Hk. destruct v as [v|]; [destruct (mem_put t b k v Hr Hk) as (t' & -> & ?); by exists t'|].
  destruct (mem_dbi t b Hr) as (t' & -> & Hr' & _).
  destruct (mem_del t' b k Hr') as (t'' & rc & -> & ? & ? & _). exists t''. by destruct rc.
Qed.

Lemma mem_steady : steady (fun e : mem_env => me_faults e = []).
Proof.
  split; intros e b; cbn [be_put be_put2 be_del be_del_n lmdb_backend].
  - intros k v He Hk. unfold cetcd_backend_put. rewrite mem_begin by done.
    destruct (mem_put (mk_mem_txn (me_db e) false) b k v eq_refl Hk) as (t' & -> & _). by apply mem_commit.
  - intros k v b2 k2 v2 He Hk Hk2. unfold cetcd_backend_put2. rewrite mem_begin by done.
    destruct (mem_first (mk_mem_txn (me_db e) false) b k v eq_refl Hk) as (t' & Hr & ->). cbn [is_ok negb].
    destruct (mem_put t' b2 k2 v2 Hr Hk2) as (t'' & -> & _). by apply mem_commit.
  - intros ks b2 k2 v2 He Hks Hk2. unfold cetcd_backend_del_n. rewrite mem_begin by done.
    destruct (mem_del_loop b ks (mk_mem_txn (me_db e) false) eq_refl) as (t' & -> & Hr). cbn [negb].
    destruct (mem_put t' b2 k2 v2 Hr Hk2) as (t'' & -> & _). by apply mem_commit.
  - intros k He Hk. unfold cetcd_backend_del. rewrite mem_begin by done.
    destruct (mem_dbi (mk_mem_txn (me_db e) false) b eq_refl) as (t' & -> & Hr & Hv). specialize (Hv b).
    destruct (mem_del t' b k Hr) as (t'' & rc & -> & _ & _ & Hs). pose proof (mem_commit e t'' He) as Hc.
    destruct (cetcd_txn_commit e t'') as [e' rc']. split; [apply Hc|]. intros Hin. cbn [snd]. rewrite Hs; [done|]. by rewrite Hv.
Qed.

Lemma mem_never_fails db : never_fails (mk_mem_env db []).
Proof. exists (fun e => me_faults e = []). split; [apply mem_steady|done]. Qed.

Lemma backend_atomic_witness :
  let e := mk_mem_env ∅ [false; true] in
  let r := cetcd_backend_put2 e "key" [1] (Some [2]) "meta" [3] [4] in
  r.2 = CETCD_ERR_IO /\ db_view (me_db r.1) ≡v db_view (me_db e).
Proof.
  split; [reflexivity|].
  exact (proj1 (proj2 (backend_atomic (mk_mem_env ∅ [false; true]) "key" [1] [] (Some [2]) "meta" [3] [4] []))).
Defined.

(** [cetcd_backend_del] reports success although its commit failed: the key
    is still there. *)
Theorem backend_del_ignores_commit :
  let e := mk_mem_env {["lease" := {[ [1] := [2] ]}]} [false; true] in
  (cetcd_backend_del e "lease" [1]).2 = CETCD_OK /\
  db_view (me_db (cetcd_backend_del e "lease" [1]).1) "lease" !! [1] = Some [2].
Proof. vm_compute. done. Qed.
