(* ===== verification/Mvcc.v ===== *)
(** * The MVCC store (src/mvcc/mvcc.c, include/cetcd/mvcc.h)

    The store keeps the current generation of every key in an ordered index,
    the list of all writes since the last compaction in [history], and two
    lists of watchers.  It is written against the interfaces [KeyIndex]
    (Treap.v) and [Backend] (Backend.v).

    A pointer field is modelled by what it points to: the backend by whether
    it is attached ([s_backend]) and by the environment [s_env]; the
    notification channels of the streaming watchers by the heap [s_channels],
    since several watchers may share one; the callbacks made by callback
    watchers by the log [s_calls].  A callback does not call the store back.
    Watcher handles are the addresses [malloc] returned.  Revisions and
    versions are unbounded integers: the C code has no overflow check on
    them.  Allocation failure is not modelled. *)

From S2P Require Import Slice Hash KeyOrder Treap Hashmap Backend Prelude.

#[local] Open Scope Z_scope.

(** ** Data (mvcc.h) *)

Record cetcd_revision : Type := mk_rev { rev_main : Z; rev_sub : Z }.

#[export] Instance cetcd_revision_eq_dec : EqDecision cetcd_revision.
Proof. solve_decision. Defined.

Definition cetcd_revision_eq (a b : cetcd_revision) : bool :=
  (rev_main a =? rev_main b) && (rev_sub a =? rev_sub b).

Definition cetcd_revision_lt (a b : cetcd_revision) : bool :=
  (rev_main a <? rev_main b) || ((rev_main a =? rev_main b) && (rev_sub a <? rev_sub b)).

Record cetcd_kv : Type := mk_kv {
  kv_key : bytes;
  kv_value : bytes;
  kv_create_rev : cetcd_revision;
  kv_mod_rev : cetcd_revision;
  kv_version : Z;
  kv_lease_id : Z
}.

#[export] Instance cetcd_kv_eq_dec : EqDecision cetcd_kv.
Proof. solve_decision. Defined.

Inductive cetcd_event_type : Type := CETCD_EVENT_PUT | CETCD_EVENT_DELETE.

#[export] Instance cetcd_event_type_eq_dec : EqDecision cetcd_event_type.
Proof. solve_decision. Defined.

(** [prev_kv] is [None] when [has_prev_kv] is 0. *)
Record cetcd_watch_event : Type := mk_event {
  ev_type : cetcd_event_type;
  ev_kv : cetcd_kv;
  ev_rev : cetcd_revision;
  ev_prev_kv : option cetcd_kv
}.

#[export] Instance cetcd_watch_event_eq_dec : EqDecision cetcd_watch_event.
Proof. solve_decision. Defined.

(** The queue of pending events, head first; [n_wakes] counts the calls of
    [wake_cb], which may be null. *)
Record cetcd_mvcc_watch_notify : Type := mk_notify {
  n_queue : list cetcd_watch_event;
  n_has_wake_cb : bool;
  n_wakes : Z
}.

(** ** Data (mvcc.c) *)

Record key_generation : Type := mk_kg {
  kg_create_rev : cetcd_revision;
  kg_version : Z;
  kg_mod_rev : cetcd_revision;
  kg_value : bytes;
  kg_deleted : bool;
  kg_lease_id : Z
}.

Record revision_entry : Type := mk_rentry {
  re_key : bytes;
  re_value : bytes;
  re_rev : cetcd_revision;
  re_type : cetcd_event_type;
  re_version : Z;
  re_create_rev : cetcd_revision;
  re_lease_id : Z
}.

#[export] Instance revision_entry_eq_dec : EqDecision revision_entry.
Proof. solve_decision. Defined.

Record cetcd_watcher : Type := mk_watcher {
  cw_ptr : Z;
  cw_pattern : bytes;
  cw_is_prefix : bool;
  cw_start_rev : Z;
  cw_cb : Z
}.

Record cetcd_stream_watcher : Type := mk_stream_watcher {
  sw_ptr : Z;
  sw_pattern : bytes;
  sw_is_prefix : bool;
  sw_is_range : bool;
  sw_range_end : bytes;
  sw_start_rev : Z;
  sw_watch_id : Z;
  sw_want_prev_kv : bool;
  sw_notify : Z
}.

Record cetcd_mvcc_store (T : Type -> Type) (E : Type) : Type := mk_store {
  s_index : T key_generation;
  s_main_rev : Z;
  s_history : list revision_entry;
  s_compacted_rev : Z;
  s_watchers : list cetcd_watcher;
  s_stream_watchers : list cetcd_stream_watcher;
  s_backend : bool;
  s_env : E;
  s_channels : gmap Z cetcd_mvcc_watch_notify;
  s_calls : list (Z * cetcd_watch_event)
}.

Arguments mk_store {T E}.
Arguments s_index {T E}.
Arguments s_main_rev {T E}.
Arguments s_history {T E}.
Arguments s_compacted_rev {T E}.
Arguments s_watchers {T E}.
Arguments s_stream_watchers {T E}.
Arguments s_backend {T E}.
Arguments s_env {T E}.
Arguments s_channels {T E}.
Arguments s_calls {T E}.

#[export] Instance store_eta {T E} : RecordEta (cetcd_mvcc_store T E) := fun s =>
  mk_store (s_index s) (s_main_rev s) (s_history s) (s_compacted_rev s) (s_watchers s)
    (s_stream_watchers s) (s_backend s) (s_env s) (s_channels s) (s_calls s).

Definition zero_rev : cetcd_revision := mk_rev 0 0.

Definition MVCC_BUCKET_KEY : string := "key".
Definition MVCC_BUCKET_META : string := "meta".
Definition MVCC_META_REV : bytes := [114; 101; 118; 105; 115; 105; 111; 110].
Definition MVCC_META_COMPACTED : bytes := [99; 111; 109; 112; 97; 99; 116; 101; 100].

(** ** Serialised generations *)

Definition write_le64_ (v : Z) : bytes := le_put 8 (u64 v).

(** The integer in the eight bytes at offset [off]. *)
Definition read_le64_ (data : bytes) (off : nat) : Z := le_get (take 8 (drop off data)).

Definition encode_kg_ (kg : key_generation) : bytes :=
  write_le64_ (rev_main (kg_create_rev kg)) ++ write_le64_ (rev_sub (kg_create_rev kg)) ++
  write_le64_ (rev_main (kg_mod_rev kg)) ++ write_le64_ (rev_sub (kg_mod_rev kg)) ++
  write_le64_ (kg_version kg) ++ write_le64_ (kg_lease_id kg) ++ kg_value kg.

(** [None] is [CETCD_ERR_CORRUPT]. *)
Definition decode_kg_ (data : bytes) : option key_generation :=
  if blen data <? 48 then None
  else Some (mk_kg (mk_rev (i64 (read_le64_ data 0)) (i64 (read_le64_ data 8)))
               (i64 (read_le64_ data 32))
               (mk_rev (i64 (read_le64_ data 16)) (i64 (read_le64_ data 24)))
               (drop 48 data) false (i64 (read_le64_ data 40))).

(** ** Key ranges and watch patterns *)

Definition key_in_range_ (key lo hi : bytes) : bool :=
  if (if 0 <? blen lo then
        let n := if blen key <? blen lo then blen key else blen lo in
        let c := memcmp (Z.to_nat n) key lo in
        (c <? 0) || ((c =? 0) && (blen key <? blen lo))
      else false) then false
  else if (if 0 <? blen hi then
        let n := if blen key <? blen hi then blen key else blen hi in
        let c := memcmp (Z.to_nat n) key hi in
        (0 <? c) || ((c =? 0) && (blen hi <=? blen key))
      else false) then false
  else true.

Definition watch_match (w : cetcd_watcher) (key : bytes) : bool :=
  if cw_is_prefix w then
    if blen key <? blen (cw_pattern w) then false
    else memcmp (length (cw_pattern w)) key (cw_pattern w) =? 0
  else (blen key =? blen (cw_pattern w)) && (memcmp (length key) key (cw_pattern w) =? 0).

Definition stream_watch_match (w : cetcd_stream_watcher) (key : bytes) : bool :=
  if sw_is_range w then key_in_range_ key (sw_pattern w) (sw_range_end w)
  else if sw_is_prefix w then
    if blen key <? blen (sw_pattern w) then false
    else memcmp (length (sw_pattern w)) key (sw_pattern w) =? 0
  else (blen key =? blen (sw_pattern w)) && (memcmp (length key) key (sw_pattern w) =? 0).

(** The [memcmp] order of two rows of a range, as [qsort] uses it. *)
Definition range_kv_key_cmp_ (ka kb : cetcd_kv) : Z :=
  let n := if blen (kv_key ka) <? blen (kv_key kb) then blen (kv_key ka) else blen (kv_key kb) in
  let c := memcmp (Z.to_nat n) (kv_key ka) (kv_key kb) in
  if negb (c =? 0) then c
  else if blen (kv_key ka) <? blen (kv_key kb) then -1
  else if blen (kv_key kb) <? blen (kv_key ka) then 1
  else 0.

Definition history_rev_cmp_ (ea eb : revision_entry) : Z :=
  if negb (rev_main (re_rev ea) =? rev_main (re_rev eb))
  then if rev_main (re_rev ea) <? rev_main (re_rev eb) then -1 else 1
  else if negb (rev_sub (re_rev ea) =? rev_sub (re_rev eb))
  then if rev_sub (re_rev ea) <? rev_sub (re_rev eb) then -1 else 1
  else 0.

(** [qsort] with a comparison function.  The C library leaves the order of
    equal elements open; the properties below only sort elements that differ. *)
Definition cmp_le {A} (cmp : A -> A -> Z) (a b : A) : Prop := cmp a b <= 0.

#[export] Instance cmp_le_dec {A} (cmp : A -> A -> Z) a b : Decision (cmp_le cmp a b).
Proof. unfold cmp_le. apply _. Defined.

Definition qsort {A} (cmp : A -> A -> Z) (l : list A) : list A := merge_sort (cmp_le cmp) l.

(** ** Notification channels *)

(** [cetcd_mvcc_watch_notify_init] at address [n]. *)
Definition cetcd_mvcc_watch_notify_init (ch : gmap Z cetcd_mvcc_watch_notify) (n : Z) (wake_cb : bool)
  : gmap Z cetcd_mvcc_watch_notify := <[n := mk_notify [] wake_cb 0]> ch.

Definition cetcd_mvcc_watch_notify_destroy (ch : gmap Z cetcd_mvcc_watch_notify) (n : Z)
  : gmap Z cetcd_mvcc_watch_notify :=
  alter (fun c => mk_notify [] (n_has_wake_cb c) (n_wakes c)) n ch.

Definition notify_push (ch : gmap Z cetcd_mvcc_watch_notify) (n : Z) (ev : cetcd_watch_event) (wake : bool)
  : gmap Z cetcd_mvcc_watch_notify :=
  alter (fun c => mk_notify (n_queue c ++ [ev]) (n_has_wake_cb c)
                    (if wake && n_has_wake_cb c then n_wakes c + 1 else n_wakes c)) n ch.

Definition cetcd_mvcc_watch_notify_wake (ch : gmap Z cetcd_mvcc_watch_notify) (n : Z)
  : gmap Z cetcd_mvcc_watch_notify :=
  alter (fun c => if blen (n_queue c) =? 0 then c
                  else mk_notify (n_queue c) (n_has_wake_cb c)
                         (if n_has_wake_cb c then n_wakes c + 1 else n_wakes c)) n ch.

Definition cetcd_mvcc_watch_recv (ch : gmap Z cetcd_mvcc_watch_notify) (n : Z)
  : gmap Z cetcd_mvcc_watch_notify * list cetcd_watch_event :=
  match ch !! n with
  | None => (ch, [])
  | Some c =>
      if blen (n_queue c) =? 0 then (ch, [])
      else (<[n := mk_notify [] (n_has_wake_cb c) (n_wakes c)]> ch, n_queue c)
  end.

(** ** The store *)

Section Store.
  Context {T : Type -> Type} {E : Type} `{!KeyIndex T, !Backend E}.
  Local Notation store := (cetcd_mvcc_store T E).

Definition cetcd_mvcc_store_new (env : E) (channels : gmap Z cetcd_mvcc_watch_notify) : store :=
  mk_store ki_new 0 [] 0 [] [] false env channels [].

Definition cetcd_mvcc_revision (s : store) : Z := s_main_rev s.
Definition cetcd_mvcc_compacted_revision (s : store) : Z := s_compacted_rev s.
Definition cetcd_mvcc_set_backend (s : store) (be : bool) : store := s <| s_backend := be |>.

(** A call of the backend when one is attached. *)
Definition with_backend (s : store) (call : E -> E * cetcd_status) : store * cetcd_status :=
  if s_backend s then
    let '(env, rc) := call (s_env s) in (s <| s_env := env |>, rc)
  else (s, CETCD_OK).

Definition persist_put_ (s : store) (key : bytes) (kg : key_generation) (rev : Z) : store * cetcd_status :=
  with_backend s (fun be => be_put2 be MVCC_BUCKET_KEY key (Some (encode_kg_ kg))
                              MVCC_BUCKET_META MVCC_META_REV (write_le64_ rev)).

Definition persist_del_ (s : store) (key : bytes) (rev : Z) : store * cetcd_status :=
  with_backend s (fun be => be_put2 be MVCC_BUCKET_KEY key None
                              MVCC_BUCKET_META MVCC_META_REV (write_le64_ rev)).

Definition push_history (s : store) (e : revision_entry) : store := s <| s_history := s_history s ++ [e] |>.

(** Delivery of one event to the callback watchers, then to the streaming
    watchers. *)
Definition watcher_wants (rev : cetcd_revision) (key : bytes) (w : cetcd_watcher) : bool :=
  negb ((0 <? cw_start_rev w) && (rev_main rev <? cw_start_rev w)) && watch_match w key.

Definition stream_wants (rev : cetcd_revision) (key : bytes) (sw : cetcd_stream_watcher) : bool :=
  negb ((0 <? sw_start_rev sw) && (rev_main rev <? sw_start_rev sw)) && stream_watch_match sw key.

Definition push_stream (ev : cetcd_watch_event) (ch : gmap Z cetcd_mvcc_watch_notify)
    (sw : cetcd_stream_watcher) : gmap Z cetcd_mvcc_watch_notify :=
  if stream_wants (ev_rev ev) (kv_key (ev_kv ev)) sw then
    notify_push ch (sw_notify sw)
      (if sw_want_prev_kv sw then ev else mk_event (ev_type ev) (ev_kv ev) (ev_rev ev) None) true
  else ch.

Definition mvcc_notify_watchers (s : store) (kv : cetcd_kv) (rev : cetcd_revision)
    (type : cetcd_event_type) (prev_kv : option cetcd_kv) : store :=
  let ev := mk_event type kv rev prev_kv in
  let calls := List.map (fun w => (cw_cb w, ev)) (List.filter (watcher_wants rev (kv_key kv)) (s_watchers s)) in
  let s := s <| s_calls := s_calls s ++ calls |> in
  s <| s_channels := foldl (push_stream ev) (s_channels s) (s_stream_watchers s) |>.

Definition cetcd_mvcc_advance_revision (s : store) (rev : Z) : store * cetcd_status :=
  if rev <? 1 then (s, CETCD_ERR_INVAL)
  else if rev <? s_main_rev s then (s, CETCD_ERR_INVAL)
  else if rev =? s_main_rev s then (s, CETCD_OK)
  else
    let '(s, rc) := with_backend s (fun be => be_put be MVCC_BUCKET_META MVCC_META_REV (write_le64_ rev)) in
    if negb (is_ok rc) then (s, CETCD_ERR_IO)
    else (s <| s_main_rev := rev |>, CETCD_OK).

(** The row a read returns for a generation. *)
Definition kv_of_kg (key : bytes) (kg : key_generation) : cetcd_kv :=
  mk_kv key (kg_value kg) (kg_create_rev kg) (kg_mod_rev kg) (kg_version kg) (kg_lease_id kg).

(** The generation a put stores: the existing one updated in place, or a new
    one.  [cetcd_mvcc_put] computes it before persisting ([preview]) and
    installs it afterwards. *)
Definition put_generation (existing : option key_generation) (new_rev : cetcd_revision) (val : bytes)
    (lease_id : Z) : key_generation :=
  match existing with
  | Some kg => mk_kg (kg_create_rev kg) (kg_version kg + 1) new_rev val false lease_id
  | None => mk_kg new_rev 1 new_rev val false lease_id
  end.

Definition cetcd_mvcc_put (s : store) (key val : bytes) (lease_id : Z) : store * cetcd_revision :=
  let existing := ki_get (s_index s) key in
  let new_main := s_main_rev s + 1 in
  let new_rev := mk_rev new_main 0 in
  let preview := put_generation existing new_rev val lease_id in
  let '(s, rc) := persist_put_ s key preview new_main in
  if negb (is_ok rc) then (s, zero_rev)
  else
    let s := s <| s_main_rev := new_main |> in
    let prev := match existing with
                | Some kg => if kg_deleted kg then None else Some (kv_of_kg key kg)
                | None => None
                end in
    let kg := put_generation existing new_rev val lease_id in
    let s := s <| s_index := ki_put (s_index s) key kg |> in
    let s := push_history s (mk_rentry key val new_rev CETCD_EVENT_PUT (kg_version kg) (kg_create_rev kg) lease_id) in
    let evkv := mk_kv key (kg_value kg) (kg_create_rev kg) new_rev (kg_version kg) (kg_lease_id kg) in
    (mvcc_notify_watchers s evkv new_rev CETCD_EVENT_PUT prev, new_rev).

Definition delete_one_ (s : store) (key : bytes) (do_persist : bool) (forced_rev : option cetcd_revision)
  : store * cetcd_revision :=
  match ki_get (s_index s) key with
  | None => (s, zero_rev)
  | Some kg =>
      if kg_deleted kg then (s, zero_rev)
      else
        let new_rev := match forced_rev with Some r => r | None => mk_rev (s_main_rev s + 1) 0 end in
        let '(s, rc) := if do_persist then persist_del_ s key (rev_main new_rev) else (s, CETCD_OK) in
        if negb (is_ok rc) then (s, zero_rev)
        else
          let s := if s_main_rev s <? rev_main new_rev then s <| s_main_rev := rev_main new_rev |> else s in
          let prev_evkv := kv_of_kg key kg in
          let s := push_history s (mk_rentry key [] new_rev CETCD_EVENT_DELETE 0 (kg_create_rev kg) (kg_lease_id kg)) in
          let evkv := mk_kv key [] (kg_create_rev kg) new_rev 0 (kg_lease_id kg) in
          let s := mvcc_notify_watchers s evkv new_rev CETCD_EVENT_DELETE (Some prev_evkv) in
          (s <| s_index := (ki_del (s_index s) key).1 |>, new_rev)
  end.

Definition cetcd_mvcc_delete (s : store) (key : bytes) : store * cetcd_revision :=
  delete_one_ s key true None.

(** The keys of a batch that are live; an empty key is skipped. *)
Definition live_key (s : store) (key : bytes) : bool :=
  if blen key =? 0 then false
  else match ki_get (s_index s) key with Some kg => negb (kg_deleted kg) | None => false end.

Fixpoint delete_loop (s : store) (new_main : Z) (i : Z) (keys : list bytes) (last : cetcd_revision)
  : store * cetcd_revision :=
  match keys with
  | [] => (s, last)
  | key :: keys =>
      let '(s, last) := delete_one_ s key false (Some (mk_rev new_main i)) in
      delete_loop s new_main (i + 1) keys last
  end.

Definition cetcd_mvcc_delete_keys (s : store) (keys : list bytes) : store * cetcd_revision :=
  if blen keys =? 0 then (s, zero_rev)
  else
    let del_keys := List.filter (live_key s) keys in
    if blen del_keys =? 0 then (s, zero_rev)
    else
      let new_main := s_main_rev s + 1 in
      let '(s, rc) := with_backend s (fun be => be_del_n be MVCC_BUCKET_KEY del_keys
                                                  MVCC_BUCKET_META MVCC_META_REV (write_le64_ new_main)) in
      if negb (is_ok rc) then (s, zero_rev)
      else delete_loop s new_main 0 del_keys zero_rev.

(** ** Reads *)

(** The conversion [(int)history_count]: the walk of [history] from the newest
    entry backwards starts there. *)
Definition i32 (z : Z) : Z :=
  let w := u32 z in if w <? 2147483648 then w else w - 4294967296.

Definition newest_first (h : list revision_entry) : list revision_entry :=
  List.rev (take (Z.to_nat (i32 (blen h))) h).

Definition kv_of_entry (e : revision_entry) : cetcd_kv :=
  mk_kv (re_key e) (re_value e) (re_create_rev e) (re_rev e) (re_version e) (re_lease_id e).

Fixpoint history_get (l : list revision_entry) (rev : Z) (key : bytes) : cetcd_status * option cetcd_kv :=
  match l with
  | [] => (CETCD_ERR_NOTFOUND, None)
  | e :: l =>
      if rev <? rev_main (re_rev e) then history_get l rev key
      else if (blen (re_key e) =? blen key) && (memcmp (length key) (re_key e) key =? 0) then
        match re_type e with
        | CETCD_EVENT_DELETE => (CETCD_ERR_NOTFOUND, None)
        | CETCD_EVENT_PUT => (CETCD_OK, Some (kv_of_entry e))
        end
      else history_get l rev key
  end.

Definition cetcd_mvcc_get (s : store) (rev : Z) (key : bytes) : cetcd_status * option cetcd_kv :=
  if (0 <? rev) && (0 <? s_compacted_rev s) && (rev <? s_compacted_rev s) then (CETCD_ERR_RANGE, None)
  else if rev =? 0 then
    match ki_get (s_index s) key with
    | None => (CETCD_ERR_NOTFOUND, None)
    | Some kg => if kg_deleted kg then (CETCD_ERR_NOTFOUND, None) else (CETCD_OK, Some (kv_of_kg key kg))
    end
  else history_get (newest_first (s_history s)) rev key.

Definition range_collect_cb (key : bytes) (kg : key_generation) (rows : list cetcd_kv) : list cetcd_kv * bool :=
  if kg_deleted kg then (rows, true) else (rows ++ [kv_of_kg key kg], true).

(** The walk of a historical range over the newest-first entries. *)
Fixpoint history_range (l : list revision_entry) (rev : Z) (lo hi : bytes)
    (seen : cetcd_hashmap unit) (rows : list cetcd_kv) : list cetcd_kv :=
  match l with
  | [] => rows
  | e :: l =>
      if rev <? rev_main (re_rev e) then history_range l rev lo hi seen rows
      else if negb (key_in_range_ (re_key e) lo hi) then history_range l rev lo hi seen rows
      else if cetcd_hashmap_contains seen (re_key e) then history_range l rev lo hi seen rows
      else
        let seen := cetcd_hashmap_put seen (re_key e) tt in
        match re_type e with
        | CETCD_EVENT_DELETE => history_range l rev lo hi seen rows
        | CETCD_EVENT_PUT => history_range l rev lo hi seen (rows ++ [kv_of_entry e])
        end
  end.

(** The upper bound a range uses: a single zero byte means none. *)
Definition range_hi (key_end : bytes) : bytes :=
  if (blen key_end =? 1) && (key_end !!! 0%nat =? 0) then [] else key_end.

Definition cetcd_mvcc_range (s : store) (rev : Z) (key_start key_end : bytes) : cetcd_status * list cetcd_kv :=
  if (0 <? rev) && (0 <? s_compacted_rev s) && (rev <? s_compacted_rev s) then (CETCD_ERR_RANGE, [])
  else
    let hi := range_hi key_end in
    if rev =? 0 then (CETCD_OK, ki_range range_collect_cb (s_index s) key_start hi [])
    else
      let rows := history_range (newest_first (s_history s)) rev key_start hi (cetcd_hashmap_new 0) [] in
      (CETCD_OK, if 1 <? blen rows then qsort range_kv_key_cmp_ rows else rows).

Definition hash_rows (rows : list cetcd_kv) : Z :=
  foldl (fun h kv => cetcd_crc32c (cetcd_crc32c h (kv_key kv)) (kv_value kv)) 0 rows.

Definition cetcd_mvcc_hash_kv (s : store) (rev : Z) : cetcd_status * option Z :=
  if rev <? 0 then (CETCD_ERR_INVAL, None)
  else
    let current := cetcd_mvcc_revision s in
    let compact := cetcd_mvcc_compacted_revision s in
    if current <? rev then (CETCD_ERR_RANGE, None)
    else if (0 <? rev) && (0 <? compact) && (rev <? compact) then (CETCD_ERR_RANGE, None)
    else
      let '(rc, kvs) := cetcd_mvcc_range s rev [] [0] in
      if negb (is_ok rc) then (rc, None) else (CETCD_OK, Some (hash_rows kvs)).

(** ** Watchers *)

Definition create_watcher (s : store) (ptr : Z) (pattern : bytes) (is_prefix : bool) (start_rev cb : Z) : store :=
  s <| s_watchers := s_watchers s ++ [mk_watcher ptr pattern is_prefix start_rev cb] |>.

Definition cetcd_mvcc_watch (s : store) (ptr : Z) (key : bytes) (start_rev cb : Z) : store :=
  create_watcher s ptr key false start_rev cb.

Definition cetcd_mvcc_watch_prefix (s : store) (ptr : Z) (prefix : bytes) (start_rev cb : Z) : store :=
  create_watcher s ptr prefix true start_rev cb.

(** The array with the first element of handle [w] replaced by the last one
    and the count decremented. *)
Definition swap_remove {A} (ptr : A -> Z) (w : Z) (l : list A) : list A :=
  match list_find (fun x => ptr x = w) l, last l with
  | Some (i, _), Some x => take (length l - 1) (<[i := x]> l)
  | _, _ => l
  end.

Definition cetcd_mvcc_watch_cancel (s : store) (w : Z) : store :=
  s <| s_watchers := swap_remove cw_ptr w (s_watchers s) |>.

Definition cetcd_mvcc_watch_subscribe (s : store) (ptr watch_id : Z) (key range_end : bytes)
    (start_rev : Z) (want_prev_kv : bool) (notify : Z) : store :=
  let sw :=
    if 0 <? blen range_end then
      if (blen range_end =? 1) && (range_end !!! 0%nat =? 0)
      then mk_stream_watcher ptr key false true [] start_rev watch_id want_prev_kv notify
      else mk_stream_watcher ptr key false true range_end start_rev watch_id want_prev_kv notify
    else mk_stream_watcher ptr key false false [] start_rev watch_id want_prev_kv notify in
  s <| s_stream_watchers := s_stream_watchers s ++ [sw] |>.

Definition cetcd_mvcc_watch_unsubscribe (s : store) (w : Z) : store :=
  s <| s_stream_watchers := swap_remove sw_ptr w (s_stream_watchers s) |>.

(** The walk over the older entries (newest first) for [prev_kv]. *)
Fixpoint replay_prev (older : list revision_entry) (key : bytes) : option cetcd_kv :=
  match older with
  | [] => None
  | prev :: older =>
      if negb (blen (re_key prev) =? blen key) || negb (memcmp (length key) (re_key prev) key =? 0)
      then replay_prev older key
      else match re_type prev with
           | CETCD_EVENT_DELETE => None
           | CETCD_EVENT_PUT => Some (kv_of_entry prev)
           end
  end.

(** The event a history entry is replayed as. *)
Definition replay_event (sw : cetcd_stream_watcher) (older : list revision_entry) (e : revision_entry)
  : cetcd_watch_event :=
  let value := match re_type e with CETCD_EVENT_PUT => re_value e | CETCD_EVENT_DELETE => [] end in
  mk_event (re_type e)
    (mk_kv (re_key e) value (re_create_rev e) (re_rev e) (re_version e) (re_lease_id e)) (re_rev e)
    (if sw_want_prev_kv sw then replay_prev (List.rev older) (re_key e) else None).

(** The replay loop; [older] are the entries already passed. *)
Fixpoint replay_loop (sw : cetcd_stream_watcher) (older h : list revision_entry)
    (ch : gmap Z cetcd_mvcc_watch_notify) : gmap Z cetcd_mvcc_watch_notify :=
  match h with
  | [] => ch
  | e :: h =>
      let ch :=
        if rev_main (re_rev e) <? sw_start_rev sw then ch
        else if negb (stream_watch_match sw (re_key e)) then ch
        else notify_push ch (sw_notify sw) (replay_event sw older e) false in
      replay_loop sw (older ++ [e]) h ch
  end.

Definition cetcd_mvcc_watch_replay (s : store) (sw : cetcd_stream_watcher) : store :=
  if sw_start_rev sw <=? 0 then s
  else s <| s_channels := replay_loop sw [] (s_history s) (s_channels s) |>.

(** ** Compaction and loading *)

Definition cetcd_mvcc_compact (s : store) (compact_rev : Z) : store * cetcd_status :=
  if compact_rev <=? 0 then (s, CETCD_ERR_INVAL)
  else if s_main_rev s <? compact_rev then (s, CETCD_ERR_INVAL)
  else if (0 <? s_compacted_rev s) && (compact_rev <=? s_compacted_rev s) then (s, CETCD_ERR_RANGE)
  else
    let '(s, rc) := with_backend s (fun be => be_put be MVCC_BUCKET_META MVCC_META_COMPACTED (write_le64_ compact_rev)) in
    if negb (is_ok rc) then (s, CETCD_ERR_IO)
    else
      let s := s <| s_history := List.filter (fun e => compact_rev <=? rev_main (re_rev e)) (s_history s) |> in
      (s <| s_compacted_rev := compact_rev |>, CETCD_OK).

Definition load_kv_cb_ (key val : bytes) (ctx : store * cetcd_status) : store * cetcd_status * bool :=
  let '(s, err) := ctx in
  match decode_kg_ val with
  | None => (s, CETCD_ERR_CORRUPT, false)
  | Some kg =>
      let s := s <| s_index := ki_put (s_index s) key kg |> in
      let s := if s_main_rev s <? rev_main (kg_mod_rev kg) then s <| s_main_rev := rev_main (kg_mod_rev kg) |> else s in
      (push_history s (mk_rentry key (kg_value kg) (kg_mod_rev kg) CETCD_EVENT_PUT (kg_version kg)
                         (kg_create_rev kg) (kg_lease_id kg)), err, true)
  end.

(** One of the two counters of the meta bucket. *)
Definition load_meta (s : store) (key : bytes) : store * option Z :=
  let '(env, rc, buf) := be_get (s_env s) MVCC_BUCKET_META key in
  (s <| s_env := env |>, if is_ok rc && (8 <=? blen buf) then Some (i64 (read_le64_ buf 0)) else None).

Definition cetcd_mvcc_load (s : store) : store * cetcd_status :=
  let s := s <| s_backend := true |> in
  let '(s, rev) := load_meta s MVCC_META_REV in
  let s := match rev with Some r => s <| s_main_rev := r |> | None => s end in
  let '(s, crev) := load_meta s MVCC_META_COMPACTED in
  let s := match crev with Some r => s <| s_compacted_rev := r |> | None => s end in
  let '(env, (s, err), rc) := be_foreach (s_env s) MVCC_BUCKET_KEY load_kv_cb_ (s, CETCD_OK) in
  let s := s <| s_env := env |> in
  if negb (is_ok rc) then (s, rc)
  else if negb (is_ok err) then (s, err)
  else (if 1 <? blen (s_history s) then s <| s_history := qsort history_rev_cmp_ (s_history s) |> else s, CETCD_OK).

End Store.
