(* ===== verification/MvccSnap.v ===== *)
(** * What the MVCC store reads (src/mvcc/mvcc.c)

    The reference semantics of the history: the keyspace at a revision is what
    the writes up to it leave, applied oldest first.  The backward walks of
    [cetcd_mvcc_get] and [cetcd_mvcc_range] (the latter with its hash set of
    seen keys and its final sort) compute lookups and ranges of that keyspace. *)

From S2P Require Import Slice Hash KeyOrder Treap Hashmap Backend Mvcc Prelude.

#[local] Open Scope Z_scope.

(** ** Reference semantics *)

Definition apply_entry (m : gmap bytes cetcd_kv) (e : revision_entry) : gmap bytes cetcd_kv :=
  match re_type e with
  | CETCD_EVENT_PUT => <[re_key e := kv_of_entry e]> m
  | CETCD_EVENT_DELETE => delete (re_key e) m
  end.

Definition keyspace (h : list revision_entry) (rev : Z) : gmap bytes cetcd_kv :=
  foldl apply_entry ∅ (List.filter (fun e => rev_main (re_rev e) <=? rev) h).

(** The rows of a keyspace between two bounds, in key order. *)
Definition rows_between (lo hi : bytes) (m : gmap bytes cetcd_kv) : list cetcd_kv :=
  (List.filter (fun kv => key_in_range_ kv.1 lo hi) (sorted_entries m)).*2.

Definition read_result (o : option cetcd_kv) : cetcd_status * option cetcd_kv :=
  match o with Some kv => (CETCD_OK, Some kv) | None => (CETCD_ERR_NOTFOUND, None) end.

(** ** Comparisons *)

Lemma key_eq_test a b : (blen a =? blen b) && (memcmp (length b) a b =? 0) = bool_decide (a = b).
Proof.
  apply Bool.eq_iff_eq_true. rewrite andb_true_iff, !Z.eqb_eq, bool_decide_eq_true. unfold blen. split.
  - intros [Hl Hm]. assert (length a = length b) by lia. apply memcmp_eq0 in Hm; [|lia..].
    rewrite (firstn_all b) in Hm. rewrite <- Hm. symmetry. apply firstn_all2. lia.
  - intros ->. split; [done|]. by apply memcmp_eq0.
Qed.

Lemma slice_compare_memcmp a b :
  cetcd_slice_compare a b =
  (let c := memcmp (Z.to_nat (if blen a <? blen b then blen a else blen b)) a b in
   if negb (c =? 0) then c else if blen a <? blen b then -1 else if blen b <? blen a then 1 else 0).
Proof.
  unfold cetcd_slice_compare. cbv zeta. set (n := if blen a <? blen b then blen a else blen b).
  destruct (Z.ltb_spec 0 n) as [Hn|Hn]; [done|]. by rewrite (Z2Nat.nonpos n) by done.
Qed.

Lemma range_kv_key_cmp_lex ka kb : range_kv_key_cmp_ ka kb = cmp_sign (lex (kv_key ka) (kv_key kb)).
Proof. rewrite <- slice_compare_lex. symmetry. apply slice_compare_memcmp. Qed.

(** The range test of the store is the one of the index. *)
Lemma key_in_range_index {V} key (v : V) lo hi : key_in_range_ key lo hi = in_range_ lo hi (key, v).
Proof.
  unfold key_in_range_, in_range_. cbn [fst]. cbv zeta.
  assert (Hlo : (0 <=? cetcd_slice_compare key lo) =
    negb (if 0 <? blen lo then
      (memcmp (Z.to_nat (if blen key <? blen lo then blen key else blen lo)) key lo <? 0) ||
      (memcmp (Z.to_nat (if blen key <? blen lo then blen key else blen lo)) key lo =? 0) && (blen key <? blen lo)
      else false)).
  { rewrite slice_compare_memcmp. cbv zeta. destruct (Z.ltb_spec 0 (blen lo)) as [Hl|Hl].
    - set (c := memcmp _ _ _). destruct (Z.eqb_spec c 0) as [->|Hc]; cbn.
      + destruct (Z.ltb_spec (blen key) (blen lo)); [done|]. by destruct (blen lo <? blen key).
      + destruct (Z.ltb_spec c 0), (Z.leb_spec 0 c); (done || lia).
    - unfold blen in *. destruct lo; [|cbn in Hl; lia]. destruct key; done. }
  rewrite Hlo. destruct (if 0 <? blen lo then _ else _); [done|]. cbn [negb andb].
  destruct (Z.ltb_spec 0 (blen hi)) as [Hl|Hl]; [|done]. rewrite slice_compare_memcmp. cbv zeta.
  set (c := memcmp _ _ _). destruct (Z.eqb_spec c 0) as [->|Hc]; cbn.
  - destruct (Z.ltb_spec (blen key) (blen hi)), (Z.leb_spec (blen hi) (blen key)); try lia; try done.
    by destruct (blen hi <? blen key).
  - rewrite orb_false_r. destruct (Z.ltb_spec 0 c), (Z.ltb_spec c 0); (done || lia).
Qed.

(** ** Keyspaces *)

Lemma keyspace_snoc h e rev :
  keyspace (h ++ [e]) rev = if rev_main (re_rev e) <=? rev then apply_entry (keyspace h rev) e else keyspace h rev.
Proof.
  unfold keyspace. rewrite List.filter_app. cbn [List.filter].
  destruct (_ <=? _); [by rewrite foldl_app|by rewrite app_nil_r].
Qed.

Lemma kv_key_of_entry e : kv_key (kv_of_entry e) = re_key e.
Proof. done. Qed.

(** A row is stored under its own key. *)
Lemma keyspace_keys h rev k kv : keyspace h rev !! k = Some kv -> kv_key kv = k.
Proof.
  revert kv. induction h as [|e h IH] using rev_ind; intros kv; [done|].
  rewrite keyspace_snoc. destruct (_ <=? _); [|apply IH]. unfold apply_entry.
  destruct (re_type e).
  - rewrite lookup_insert_Some. intros [[<- <-]|[_ H]]; [done|by apply IH].
  - rewrite lookup_delete_Some. intros [_ H]. by apply IH.
Qed.

Lemma keyspace_lookup_snoc h e rev k :
  keyspace (h ++ [e]) rev !! k =
  if (rev_main (re_rev e) <=? rev) && bool_decide (re_key e = k)
  then match re_type e with CETCD_EVENT_PUT => Some (kv_of_entry e) | CETCD_EVENT_DELETE => None end
  else keyspace h rev !! k.
Proof.
  rewrite keyspace_snoc. destruct (_ <=? _); cbn [andb]; [|done]. unfold apply_entry.
  case_bool_decide as Hk; [subst k|]; destruct (re_type e).
  - by rewrite lookup_insert_eq.
  - by rewrite lookup_delete_eq.
  - by rewrite lookup_insert_ne.
  - by rewrite lookup_delete_ne.
Qed.

(** The backward search finds the lookup. *)
Lemma history_get_keyspace h rev k : history_get (List.rev h) rev k = read_result (keyspace h rev !! k).
Proof.
  induction h as [|e h IH] using rev_ind; [done|].
  rewrite List.rev_app_distr. cbn [List.rev app history_get].
  rewrite keyspace_lookup_snoc, key_eq_test.
  destruct (Z.ltb_spec rev (rev_main (re_rev e))), (Z.leb_spec (rev_main (re_rev e)) rev); try lia; cbn [andb]; [done|].
  case_bool_decide; [by destruct (re_type e)|done].
Qed.

(** What the walk of a historical range adds to its rows. *)
Lemma history_range_rows h rev lo hi seen rows : hm_ok seen ->
  exists new, history_range (List.rev h) rev lo hi seen rows = rows ++ new /\
    NoDup (kv_key <$> new) /\
    forall kv, kv ∈ new <->
      hm_map seen !! kv_key kv = None /\ key_in_range_ (kv_key kv) lo hi = true /\
      keyspace h rev !! kv_key kv = Some kv.
Proof.
  revert seen rows. induction h as [|e h IH] using rev_ind; intros seen rows Hok.
  { exists []. split; [by rewrite app_nil_r|]. split; [constructor|]. intros kv. cbn. rewrite lookup_empty. set_solver. }
  rewrite List.rev_app_distr. cbn [List.rev app history_range].
  setoid_rewrite keyspace_lookup_snoc.
  assert (Hskip : (forall k, hm_map seen !! k = None -> key_in_range_ k lo hi = true ->
      (rev_main (re_rev e) <=? rev) && bool_decide (re_key e = k) = false) ->
    exists new, history_range (List.rev h) rev lo hi seen rows = rows ++ new /\ NoDup (kv_key <$> new) /\
    forall kv, kv ∈ new <-> hm_map seen !! kv_key kv = None /\ key_in_range_ (kv_key kv) lo hi = true /\
      (if (rev_main (re_rev e) <=? rev) && bool_decide (re_key e = kv_key kv)
       then match re_type e with CETCD_EVENT_PUT => Some (kv_of_entry e) | CETCD_EVENT_DELETE => None end
       else keyspace h rev !! kv_key kv) = Some kv).
  { intros Hno. destruct (IH seen rows Hok) as (new & Hr & Hnd & Hin). exists new. split_and!; [done..|].
    intros kv. rewrite Hin. split; intros (H1 & H2 & H3); split_and!; try done; by rewrite (Hno _ H1 H2) in *. }
  destruct (Z.ltb_spec rev (rev_main (re_rev e))) as [|Hrev]; [apply Hskip; intros; destruct (Z.leb_spec (rev_main (re_rev e)) rev); (done || lia)|].
  rewrite (proj2 (Z.leb_le _ _) Hrev) in *. cbn [andb] in *.
  destruct (key_in_range_ (re_key e) lo hi) eqn:Hr; cbn [negb].
  2: { apply Hskip. intros k _ Hk. apply bool_decide_eq_false. congruence. }
  unfold cetcd_hashmap_contains. rewrite get_map by done.
  destruct (hm_map seen !! re_key e) as [u|] eqn:Hs.
  { apply Hskip. intros k Hk _. apply bool_decide_eq_false. congruence. }
  clear Hskip. destruct (put_spec seen (re_key e) tt Hok) as [Hok' Hm'].
  destruct (re_type e).
  - destruct (IH _ (rows ++ [kv_of_entry e]) Hok') as (new & Hres & Hnd & Hin).
    exists (kv_of_entry e :: new). split; [by rewrite Hres, <- app_assoc|]. split.
    + cbn. constructor; [|done]. intros (kv & Hkey & Hkv)%list_elem_of_fmap. apply Hin in Hkv as (Hno & _).
      rewrite Hm', <- Hkey, lookup_insert_eq in Hno. done.
    + intros kv. rewrite elem_of_cons, Hin, Hm'. case_bool_decide as Hk.
      * rewrite <- Hk, lookup_insert_eq. split.
        -- intros [->|(? & _)]; [done|done].
        -- intros (_ & _ & [= ->]). by left.
      * rewrite lookup_insert_ne by done. split; [intros [->|]; done|tauto].
  - destruct (IH _ rows Hok') as (new & Hres & Hnd & Hin). exists new. split_and!; [done..|].
    intros kv. rewrite Hin, Hm'. case_bool_decide as Hk.
    + rewrite <- Hk, lookup_insert_eq. split; [intros (? & _); done|intros (_ & _ & ?); done].
    + by rewrite lookup_insert_ne by done.
Qed.

(** ** Sorting the rows *)

Definition keyed (kv : cetcd_kv) : bytes * cetcd_kv := (kv_key kv, kv).

Lemma cmp_le_key ka kb : cmp_le range_kv_key_cmp_ ka kb <-> key_le (keyed ka) (keyed kb).
Proof. unfold cmp_le, key_le. rewrite range_kv_key_cmp_lex. cbn. destruct (lex _ _); cbn; split; (done || lia). Qed.

#[export] Instance range_cmp_total : Total (cmp_le range_kv_key_cmp_).
Proof. intros a b. rewrite !cmp_le_key. apply key_le_total. Qed.

#[export] Instance range_cmp_trans : Transitive (cmp_le range_kv_key_cmp_).
Proof. intros a b c. rewrite !cmp_le_key. apply key_le_trans. Qed.

Lemma keyed_sorted (l : list cetcd_kv) : NoDup (kv_key <$> l) -> StronglySorted (cmp_le range_kv_key_cmp_) l ->
  StronglySorted key_lt (keyed <$> l).
Proof.
  intros Hnd Hs. apply key_le_sorted; [by rewrite <- list_fmap_compose|].
  induction Hs as [|x l H IH Hall]; cbn; constructor.
  - apply IH. by inversion Hnd.
  - rewrite Forall_fmap. eapply Forall_impl; [exact Hall|]. intros y. apply cmp_le_key.
Qed.

Lemma qsort_rows (rows : list cetcd_kv) (f : bytes -> bool) (m : gmap bytes cetcd_kv) :
  NoDup (kv_key <$> rows) -> (forall k kv, m !! k = Some kv -> kv_key kv = k) ->
  (forall kv, kv ∈ rows <-> f (kv_key kv) = true /\ m !! kv_key kv = Some kv) ->
  (if 1 <? blen rows then qsort range_kv_key_cmp_ rows else rows) =
  (List.filter (fun kv => f kv.1) (sorted_entries m)).*2.
Proof.
  intros Hnd Hkey Hin.
  set (res := if 1 <? blen rows then qsort range_kv_key_cmp_ rows else rows).
  assert (Hperm : res ≡ₚ rows).
  { unfold res. destruct (1 <? _); [apply merge_sort_Permutation|done]. }
  assert (Hsort : StronglySorted (cmp_le range_kv_key_cmp_) res).
  { unfold res. destruct (Z.ltb_spec 1 (blen rows)) as [|Hl]; [apply (StronglySorted_merge_sort _)|].
    unfold blen in Hl. destruct rows as [|a [|b rows]]; [constructor|repeat constructor|cbn in Hl; lia]. }
  assert (Heq : keyed <$> res = List.filter (fun kv => f kv.1) (sorted_entries m)).
  { apply key_sorted_ext.
    - apply keyed_sorted; [by rewrite Hperm|done].
    - apply key_sorted_filter, key_lt_sorted, sorted_entries_sorted.
    - intros [k kv]. rewrite elem_of_bool_filter, sorted_entries_elem, list_elem_of_fmap.
      setoid_rewrite Hperm. setoid_rewrite Hin. cbn. split.
      + intros (kv' & [= -> ->] & ? & ?). done.
      + intros [Hm Hf]. exists kv. unfold keyed. rewrite (Hkey _ _ Hm). done. }
  rewrite <- Heq, <- list_fmap_compose. symmetry. apply list_fmap_id.
Qed.

(** ** The current keyspace *)

Section Reads.
  Context {T : Type -> Type} {E : Type} `{KeyIndexLaws T, !Backend E}.
  Local Notation store := (cetcd_mvcc_store T E).

Definition live_kv (k : bytes) (kg : key_generation) : option cetcd_kv :=
  if kg_deleted kg then None else Some (kv_of_kg k kg).

Definition current (s : store) : gmap bytes cetcd_kv := map_imap live_kv (ki_map (s_index s)).

Lemma current_lookup (s : store) k : current s !! k = ki_map (s_index s) !! k ≫= live_kv k.
Proof. apply map_lookup_imap. Qed.

Lemma get_current (s : store) k : ki_ok (s_index s) ->
  cetcd_mvcc_get s 0 k = read_result (current s !! k).
Proof.
  intros Hok. unfold cetcd_mvcc_get. cbn [Z.ltb Z.eqb andb Z.compare].
  rewrite ki_get_map, current_lookup by done. destruct (ki_map _ !! k) as [kg|]; [|done]. cbn.
  unfold live_kv. by destruct (kg_deleted kg).
Qed.

Lemma collect_rows (l : list (bytes * key_generation)) rows :
  (fold_stop (fun kv => range_collect_cb kv.1 kv.2) l rows).1 = rows ++ omap (fun kv => live_kv kv.1 kv.2) l.
Proof.
  revert rows. induction l as [|[k kg] l IH]; intros rows; cbn; [by rewrite app_nil_r|].
  unfold range_collect_cb, live_kv. destruct (kg_deleted kg); cbn; rewrite IH; [done|]. by rewrite <- app_assoc.
Qed.

(** The walk of the index yields the rows of the current keyspace. *)
Lemma range_current (s : store) lo hi : ki_ok (s_index s) ->
  ki_range range_collect_cb (s_index s) lo hi [] = rows_between lo hi (current s).
Proof.
  intros Hok. rewrite ki_range_entries, collect_rows. cbn [app].
  set (l := List.filter _ _). unfold rows_between.
  assert (Hl : StronglySorted key_lt l) by (apply key_sorted_filter, key_lt_sorted, ki_entries_sorted, Hok).
  assert (Hel : forall k kg, (k, kg) ∈ l <-> ki_map (s_index s) !! k = Some kg /\ key_in_range_ k lo hi = true).
  { intros k kg. unfold l. rewrite elem_of_bool_filter, (key_in_range_index k kg).
    rewrite <- ki_entries_map, elem_of_list_to_map by
      (done || by apply lex_sorted_nodup, ki_entries_sorted). done. }
  clearbody l.
  assert (Hs : forall l : list (bytes * key_generation), StronglySorted key_lt l ->
    StronglySorted key_lt (keyed <$> omap (fun kv => live_kv kv.1 kv.2) l)).
  { clear. induction 1 as [|[k kg] l H IH Hall]; cbn; [constructor|]. unfold live_kv at 1.
    destruct (kg_deleted kg); [done|]. cbn. constructor; [done|].
    rewrite Forall_forall in Hall. rewrite Forall_forall. intros x (kv & -> & ([k' kg'] & Hin & Hkv)%list_elem_of_omap)%list_elem_of_fmap.
    apply Hall in Hin. unfold live_kv in Hkv. cbn in Hkv. destruct (kg_deleted kg'); simplify_eq. done. }
  assert (Heq : keyed <$> omap (fun kv => live_kv kv.1 kv.2) l =
     List.filter (fun kv => key_in_range_ kv.1 lo hi) (sorted_entries (current s))).
  { apply key_sorted_ext; [by apply Hs|apply key_sorted_filter, key_lt_sorted, sorted_entries_sorted|].
    intros [k kv]. rewrite elem_of_bool_filter, sorted_entries_elem, list_elem_of_fmap.
    rewrite current_lookup, bind_Some. cbn. split.
    - intros (kv' & [= -> ->] & ([k' kg'] & Hin & Hkv)%list_elem_of_omap). apply Hel in Hin as [Hm Hr]. cbn in Hkv.
      pose proof Hkv as Hkv'. unfold live_kv in Hkv'. destruct (kg_deleted kg') eqn:Hd; simplify_eq. cbn.
      split; [|done]. exists kg'. by unfold live_kv; rewrite Hd.
    - intros [(kg & Hm & Hkv) Hr]. exists kv. pose proof Hkv as Hkv'. unfold live_kv in Hkv'.
      destruct (kg_deleted kg) eqn:Hd; simplify_eq. split; [done|].
      apply list_elem_of_omap. exists (k, kg). split; [by apply Hel|]. done. }
  rewrite <- Heq, <- list_fmap_compose. symmetry. apply list_fmap_id.
Qed.

Lemma newest_first_rev h : blen h < 2147483648 -> newest_first h = List.rev h.
Proof.
  intros Hl. unfold newest_first, i32, u32. unfold blen in *. rewrite Z.mod_small by lia.
  destruct (Z.ltb_spec (Z.of_nat (length h)) 2147483648); [|lia]. by rewrite Nat2Z.id, firstn_all.
Qed.

Lemma range_history (s : store) rev lo hi : blen (s_history s) < 2147483648 ->
  let rows := history_range (newest_first (s_history s)) rev lo hi (cetcd_hashmap_new 0) [] in
  (if 1 <? blen rows then qsort range_kv_key_cmp_ rows else rows) =
  rows_between lo hi (keyspace (s_history s) rev).
Proof.
  intros Hl. rewrite newest_first_rev by done. destruct (new_ok (V := unit)) as [Hok Hm].
  destruct (history_range_rows (s_history s) rev lo hi _ [] Hok) as (new & -> & Hnd & Hin). cbn [app] in *.
  apply (qsort_rows _ (fun k => key_in_range_ k lo hi)); [done|apply keyspace_keys|].
  intros kv. rewrite Hin, Hm, lookup_empty. tauto.
Qed.

End Reads.
