(* ===== verification/MvccStore.v ===== *)
(** * Writes to the MVCC store (src/mvcc/mvcc.c)

    The invariant of the store: the history is strictly ordered by revision
    and bounded by the current one, the index holds live generations only, and
    both agree on every key that compaction has not dropped from the history.
    Every operation keeps it; the effect of each write on the current keyspace
    and on the history is stated for success and for failure of the backend. *)

From S2P Require Import Slice Hash KeyOrder Treap Hashmap Backend Mvcc MvccSnap Prelude.

#[local] Open Scope Z_scope.

Definition rev_lt (a b : cetcd_revision) : Prop := cetcd_revision_lt a b = true.

Lemma rev_lt_iff a b : rev_lt a b <->
  rev_main a < rev_main b \/ (rev_main a = rev_main b /\ rev_sub a < rev_sub b).
Proof.
  unfold rev_lt, cetcd_revision_lt. rewrite orb_true_iff, andb_true_iff, !Z.ltb_lt, Z.eqb_eq. done.
Qed.

#[export] Instance rev_lt_strict : StrictOrder rev_lt.
Proof.
  split.
  - intros a H%rev_lt_iff. lia.
  - intros a b c H1%rev_lt_iff H2%rev_lt_iff. apply rev_lt_iff. lia.
Qed.

(** ** Keyspaces and appended entries *)

Lemma keyspace_later h l rev : Forall (fun e => rev < rev_main (re_rev e)) l ->
  keyspace (h ++ l) rev = keyspace h rev.
Proof.
  intros Hl. unfold keyspace. rewrite List.filter_app, foldl_app.
  replace (List.filter _ l) with (@nil revision_entry); [done|].
  induction Hl as [|e l He Hl IH]; cbn; [done|]. destruct (Z.leb_spec (rev_main (re_rev e)) rev); [lia|done].
Qed.

Lemma keyspace_all h rev rev' :
  Forall (fun e => rev_main (re_rev e) <= rev) h -> rev <= rev' -> keyspace h rev' = keyspace h rev.
Proof.
  intros Hh Hr. unfold keyspace. f_equal. induction Hh as [|e h He Hh IH]; cbn; [done|].
  rewrite IH. destruct (Z.leb_spec (rev_main (re_rev e)) rev), (Z.leb_spec (rev_main (re_rev e)) rev'); (done || lia).
Qed.

(** A key without entries is in no keyspace. *)
Lemma keyspace_absent h rev k : (forall e, e ∈ h -> re_key e <> k) -> keyspace h rev !! k = None.
Proof.
  induction h as [|e h IH] using rev_ind; intros Hk; [done|].
  rewrite keyspace_lookup_snoc, bool_decide_false by (apply Hk; set_solver).
  rewrite andb_false_r. apply IH. intros e' He'. apply Hk. set_solver.
Qed.

Section Writes.
  Context {T : Type -> Type} {E : Type} `{KeyIndexLaws T, BackendLaws E}.
  Local Notation store := (cetcd_mvcc_store T E).

Record store_ok (s : store) : Prop := {
  so_index : ki_ok (s_index s);
  so_compact : 0 <= s_compacted_rev s <= s_main_rev s;
  so_sorted : StronglySorted rev_lt (re_rev <$> s_history s);
  so_bounds : Forall (fun e => 1 <= rev_main (re_rev e) <= s_main_rev s) (s_history s);
  so_live : forall k kg, ki_map (s_index s) !! k = Some kg ->
    kg_deleted kg = false /\ 1 <= rev_main (kg_mod_rev kg) <= s_main_rev s;
  so_distinct : forall k k' kg kg', ki_map (s_index s) !! k = Some kg -> ki_map (s_index s) !! k' = Some kg' ->
    kg_mod_rev kg = kg_mod_rev kg' -> k = k';
  so_agree : forall k, keyspace (s_history s) (s_main_rev s) !! k = current s !! k \/
    ((forall e, e ∈ s_history s -> re_key e <> k) /\
     exists kv, current s !! k = Some kv /\ rev_main (kv_mod_rev kv) < s_compacted_rev s)
}.

Lemma so_main_nonneg s : store_ok s -> 0 <= s_main_rev s.
Proof. intros Hs. pose proof (so_compact s Hs). lia. Qed.

Lemma so_le s : store_ok s -> Forall (fun e => rev_main (re_rev e) <= s_main_rev s) (s_history s).
Proof. intros Hs. eapply Forall_impl; [apply so_bounds, Hs|]. cbn. lia. Qed.

(** Only the fields the invariant reads matter. *)
Lemma store_ok_ext (s s' : store) : store_ok s -> s_index s' = s_index s -> s_main_rev s' = s_main_rev s ->
  s_history s' = s_history s -> s_compacted_rev s' = s_compacted_rev s -> store_ok s'.
Proof.
  intros [A1 A2 A3 A4 A5 A6 A7] Ei Em Eh Ec. split; unfold current in *; rewrite ?Ei, ?Em, ?Eh, ?Ec; done.
Qed.

(** One write: a history entry after all the others, applied to the index. *)
Lemma append_ok (s s' : store) e : store_ok s ->
  s_history s' = s_history s ++ [e] -> s_main_rev s' = rev_main (re_rev e) ->
  s_compacted_rev s' = s_compacted_rev s ->
  s_main_rev s <= rev_main (re_rev e) -> 1 <= rev_main (re_rev e) ->
  Forall (fun e' => rev_lt (re_rev e') (re_rev e)) (s_history s) ->
  ki_ok (s_index s') -> current s' = apply_entry (current s) e ->
  (forall k kg, ki_map (s_index s') !! k = Some kg ->
    kg_deleted kg = false /\ 1 <= rev_main (kg_mod_rev kg) <= rev_main (re_rev e)) ->
  (forall k k' kg kg', ki_map (s_index s') !! k = Some kg -> ki_map (s_index s') !! k' = Some kg' ->
    kg_mod_rev kg = kg_mod_rev kg' -> k = k') ->
  store_ok s'.
Proof.
  intros Hs Eh Em Ec Hle H1 Hlast Hok Hcur Hlive Hdist. pose proof (so_compact _ Hs).
  split; rewrite ?Eh, ?Em, ?Ec; try done.
  - lia.
  - rewrite fmap_app. apply StronglySorted_app_iff. split_and!; [apply Hs|repeat constructor|].
    intros x y (e' & -> & He')%list_elem_of_fmap Hy. rewrite Forall_forall in Hlast.
    apply list_elem_of_singleton in Hy as ->. by apply Hlast.
  - apply Forall_app. split; [|repeat constructor; lia].
    eapply Forall_impl; [apply so_bounds, Hs|]. cbn. lia.
  - intros k. rewrite keyspace_lookup_snoc, Z.leb_refl, Hcur. cbn [andb].
    case_bool_decide as Hk.
    + left. unfold apply_entry. subst k. destruct (re_type e); [by rewrite lookup_insert_eq|by rewrite lookup_delete_eq].
    + assert (Hc : apply_entry (current s) e !! k = current s !! k).
      { unfold apply_entry. destruct (re_type e); [by rewrite lookup_insert_ne|by rewrite lookup_delete_ne]. }
      rewrite Hc, (keyspace_all _ (s_main_rev s)) by (done || by apply so_le).
      destruct (so_agree _ Hs k) as [|[Hno Hkv]]; [by left|right]. split; [|done].
      intros e' [He'|He'%list_elem_of_singleton]%elem_of_app; [by apply Hno|congruence].
Qed.

(** ** Effects *)

(** The row a put leaves. *)
Definition put_row (s : store) (key val : bytes) (lease_id : Z) : cetcd_kv :=
  let new_rev := mk_rev (s_main_rev s + 1) 0 in
  match current s !! key with
  | Some kv => mk_kv key val (kv_create_rev kv) new_rev (kv_version kv + 1) lease_id
  | None => mk_kv key val new_rev new_rev 1 lease_id
  end.

Definition put_entry (kv : cetcd_kv) : revision_entry :=
  mk_rentry (kv_key kv) (kv_value kv) (kv_mod_rev kv) CETCD_EVENT_PUT (kv_version kv) (kv_create_rev kv) (kv_lease_id kv).

(** The tombstone of a row. *)
Definition delete_entry (kv : cetcd_kv) (rev : cetcd_revision) : revision_entry :=
  mk_rentry (kv_key kv) [] rev CETCD_EVENT_DELETE 0 (kv_create_rev kv) (kv_lease_id kv).

(** Nothing but the environment changed, and its contents did not. *)
Definition unchanged (s s' : store) : Prop :=
  (exists env, s' = s <| s_env := env |>) /\ be_view (s_env s') ≡v be_view (s_env s).

(** The event of a write, and its delivery to the watchers. *)
Definition entry_event (e : revision_entry) (prev : option cetcd_kv) : cetcd_watch_event :=
  mk_event (re_type e) (kv_of_entry e) (re_rev e) prev.

Definition notified (s s' : store) (ev : cetcd_watch_event) : Prop :=
  s_channels s' = foldl (push_stream ev) (s_channels s) (s_stream_watchers s) /\
  s_calls s' = s_calls s ++ List.map (fun w => (cw_cb w, ev))
                              (List.filter (watcher_wants (ev_rev ev) (kv_key (ev_kv ev))) (s_watchers s)).

(** The write of [e] took place. *)
Definition wrote (s s' : store) (e : revision_entry) : Prop :=
  s_history s' = s_history s ++ [e] /\ s_main_rev s' = rev_main (re_rev e) /\
  s_compacted_rev s' = s_compacted_rev s /\ s_backend s' = s_backend s /\
  s_watchers s' = s_watchers s /\ s_stream_watchers s' = s_stream_watchers s /\
  current s' = apply_entry (current s) e /\ notified s s' (entry_event e (current s !! re_key e)).

Lemma unchanged_ok s s' : store_ok s -> unchanged s s' -> store_ok s'.
Proof. intros Hs [[env ->] _]. by eapply store_ok_ext. Qed.

Lemma unchanged_current s s' : unchanged s s' -> current s' = current s.
Proof. intros [[env ->] _]. done. Qed.

Lemma kg_of_current s k : store_ok s ->
  current s !! k = (fun kg => kv_of_kg k kg) <$> ki_map (s_index s) !! k.
Proof.
  intros Hs. rewrite current_lookup. destruct (ki_map (s_index s) !! k) as [kg|] eqn:Hk; [|done].
  cbn. unfold live_kv. by rewrite (proj1 (so_live _ Hs _ _ Hk)).
Qed.

Lemma current_key (s : store) k kv : current s !! k = Some kv -> kv_key kv = k.
Proof.
  rewrite current_lookup, bind_Some. intros (kg & _ & Hkv). unfold live_kv in Hkv.
  by destruct (kg_deleted kg); simplify_eq.
Qed.

Lemma current_put (s : store) k kg idx : ki_ok (s_index s) -> idx = ki_put (s_index s) k kg -> kg_deleted kg = false ->
  map_imap live_kv (ki_map idx) = <[k := kv_of_kg k kg]> (current s).
Proof.
  intros Hok -> Hd. apply map_eq. intros k'. rewrite map_lookup_imap, ki_put_map by done.
  destruct (decide (k = k')) as [<-|Hne].
  - rewrite !lookup_insert_eq. cbn. unfold live_kv. by rewrite Hd.
  - rewrite !lookup_insert_ne by done. by rewrite current_lookup.
Qed.

Lemma current_del (s : store) k idx : ki_ok (s_index s) -> idx = (ki_del (s_index s) k).1 ->
  map_imap live_kv (ki_map idx) = delete k (current s).
Proof.
  intros Hok ->. apply map_eq. intros k'. rewrite map_lookup_imap, ki_del_map by done.
  destruct (decide (k = k')) as [<-|Hne]; [by rewrite !lookup_delete_eq|].
  rewrite !lookup_delete_ne by done. by rewrite current_lookup.
Qed.

(** ** Put *)

(** A call of the backend that has no effect when it fails. *)
Lemma with_backend_cases (s : store) call :
  (is_ok (call (s_env s)).2 = false -> be_view (call (s_env s)).1 ≡v be_view (s_env s)) ->
  let '(s', rc) := with_backend s call in
  (exists env, s' = s <| s_env := env |>) /\ (is_ok rc = false -> unchanged s s').
Proof.
  unfold with_backend. intros Hc. destruct (s_backend s).
  2: { split; [exists (s_env s); by destruct s|done]. }
  destruct (call (s_env s)) as [env rc]. split; [by exists env|]. intros Hrc. split; [by exists env|]. by apply Hc.
Qed.

(** A law of the backend with its failure branch selected. *)
Lemma if_ok_view (b : bool) (v w x : view) : x ≡v (if b then v else w) -> b = false -> x ≡v w.
Proof. by intros Hx ->. Qed.

(** Case analysis on a backend call whose law is [law]. *)
Ltac backend_call s law rc env Hfail :=
  match goal with
  | |- context [with_backend s ?call] =>
      let Hp := fresh "Hp" in let s1 := fresh "s1" in let Hrc := fresh "Hrc" in
      assert (Hp : is_ok (call (s_env s)).2 = false -> be_view (call (s_env s)).1 ≡v be_view (s_env s))
        by (intros Hrc; eapply if_ok_view; [apply law|exact Hrc]);
      apply with_backend_cases in Hp;
      destruct (with_backend s call) as [s1 rc]; destruct Hp as [[env ->] Hfail]
  end.

Lemma persist_put_cases (s : store) k kg r :
  let '(s', rc) := persist_put_ s k kg r in
  (exists env, s' = s <| s_env := env |>) /\ (is_ok rc = false -> unchanged s s').
Proof. apply with_backend_cases, (if_ok_view _ _ _ _ (be_put2_spec _ _ _ _ _ _ _)). Qed.

Lemma persist_del_cases (s : store) k r :
  let '(s', rc) := persist_del_ s k r in
  (exists env, s' = s <| s_env := env |>) /\ (is_ok rc = false -> unchanged s s').
Proof. apply with_backend_cases, (if_ok_view _ _ _ _ (be_put2_spec _ _ _ _ _ _ _)). Qed.

Lemma put_cases s k v l : store_ok s ->
  let '(s', r) := cetcd_mvcc_put s k v l in
  (r = zero_rev /\ unchanged s s') \/
  (r = mk_rev (s_main_rev s + 1) 0 /\ wrote s s' (put_entry (put_row s k v l)) /\ store_ok s').
Proof.
  intros Hs. unfold cetcd_mvcc_put. cbv zeta. rewrite ki_get_map by apply Hs.
  set (kg := put_generation _ _ v l).
  pose proof (persist_put_cases s k kg (s_main_rev s + 1)) as Hp.
  destruct (persist_put_ s k kg (s_main_rev s + 1)) as [s1 rc]. destruct Hp as [[env ->] Hfail].
  destruct (is_ok rc) eqn:Hrc; cbn [negb]; [|left; split; [done|by apply Hfail]].
  right. split; [done|]. unfold push_history, mvcc_notify_watchers.
  assert (Hrow : put_row s k v l = kv_of_kg k kg).
  { unfold put_row, kg, put_generation. rewrite kg_of_current by done. by destruct (ki_map (s_index s) !! k). }
  assert (Hmod : kg_mod_rev kg = mk_rev (s_main_rev s + 1) 0 /\ kg_value kg = v /\ kg_lease_id kg = l /\ kg_deleted kg = false).
  { unfold kg. by destruct (ki_map (s_index s) !! k). }
  destruct Hmod as (Hmod & Hval & Hlease & Hdel).
  assert (Hprev : match ki_map (s_index s) !! k with
      Some kg0 => if kg_deleted kg0 then None else Some (kv_of_kg k kg0) | None => None end = current s !! k).
  { rewrite current_lookup. by destruct (ki_map (s_index s) !! k). }
  rewrite Hprev, Hrow. match goal with |- wrote s ?x _ /\ _ => set (s' := x) end.
  assert (Hw : wrote s s' (put_entry (kv_of_kg k kg))).
  { split_and!; try reflexivity.
    - unfold put_entry. cbn. by rewrite Hmod, Hval, Hlease.
    - unfold put_entry. cbn. by rewrite Hmod.
    - unfold current at 1. by rewrite (current_put s k kg); [|apply Hs|reflexivity|].
    - unfold entry_event, put_entry, kv_of_entry. split; cbn; by rewrite Hmod. }
  split; [exact Hw|]. destruct Hw as (Eh & Em & Ec & _ & _ & _ & Ecur & _).
  assert (Hmr : re_rev (put_entry (kv_of_kg k kg)) = mk_rev (s_main_rev s + 1) 0).
  { unfold kg. cbn. by destruct (ki_map (s_index s) !! k). }
  rewrite Hmr in *. eapply append_ok; rewrite ?Hmr; try done; cbn [rev_main].
  - lia.
  - pose proof (so_main_nonneg s Hs). lia.
  - eapply Forall_impl; [apply so_le, Hs|]. intros e' He'. apply rev_lt_iff. cbn. cbn in He'. lia.
  - unfold s'. cbn. apply ki_put_ok, Hs.
  - intros k' kg'. unfold s'. cbn. rewrite ki_put_map by apply Hs.
    rewrite lookup_insert_Some. intros [[<- <-]|[_ Hk']].
    + split; unfold kg; destruct (ki_map (s_index s) !! k); cbn; pose proof (so_main_nonneg s Hs); (done || lia).
    + destruct (so_live _ Hs _ _ Hk'). split; [done|lia].
  - intros k1 k2 kg1 kg2. unfold s'. cbn. rewrite ki_put_map by apply Hs. rewrite !lookup_insert_Some.
    intros [[<- <-]|[N1 K1]] [[<- <-]|[N2 K2]]; [done| | |by apply (so_distinct _ Hs k1 k2 kg1 kg2)].
    + rewrite Hmod. intros Heq. destruct (so_live _ Hs _ _ K2) as [_ Hb]. rewrite <- Heq in Hb. cbn in Hb. lia.
    + rewrite Hmod. intros Heq. destruct (so_live _ Hs _ _ K1) as [_ Hb]. rewrite Heq in Hb. cbn in Hb. lia.
Qed.

(** ** Delete *)

(** The revision a delete is recorded at. *)
Definition delete_rev (s : store) (forced : option cetcd_revision) : cetcd_revision :=
  match forced with Some r => r | None => mk_rev (s_main_rev s + 1) 0 end.

Definition fresh_rev (s : store) (r : cetcd_revision) : Prop :=
  s_main_rev s <= rev_main r /\ 1 <= rev_main r /\ Forall (fun e => rev_lt (re_rev e) r) (s_history s).

Lemma next_rev_fresh s : store_ok s -> fresh_rev s (mk_rev (s_main_rev s + 1) 0).
Proof.
  intros Hs. pose proof (so_main_nonneg s Hs). unfold fresh_rev. cbn. split_and!; [lia|lia|].
  eapply Forall_impl; [apply so_le, Hs|]. cbn. intros e He. apply rev_lt_iff. cbn. lia.
Qed.

Lemma delete_one_absent s k dp forced : store_ok s -> current s !! k = None ->
  delete_one_ s k dp forced = (s, zero_rev).
Proof.
  intros Hs. rewrite kg_of_current by done. unfold delete_one_. rewrite ki_get_map by apply Hs.
  by destruct (ki_map (s_index s) !! k).
Qed.

Lemma delete_one_cases s k kv dp forced : store_ok s -> current s !! k = Some kv ->
  fresh_rev s (delete_rev s forced) ->
  let '(s', r) := delete_one_ s k dp forced in
  (r = zero_rev /\ dp = true /\ unchanged s s') \/
  (r = delete_rev s forced /\ wrote s s' (delete_entry kv r) /\ store_ok s' /\ (dp = false -> s_env s' = s_env s)).
Proof.
  intros Hs Hkv (Hle & H1 & Hlast). rewrite kg_of_current in Hkv by done.
  unfold delete_one_. rewrite ki_get_map by apply Hs.
  destruct (ki_map (s_index s) !! k) as [kg|] eqn:Hk; [|done]. cbn in Hkv. injection Hkv as <-.
  destruct (so_live _ Hs _ _ Hk) as [Hd Hm]. rewrite Hd. fold (delete_rev s forced). set (r := delete_rev s forced) in *.
  assert (Hp : let '(s1, rc) := if dp then persist_del_ s k (rev_main r) else (s, CETCD_OK) in
    (exists env, s1 = s <| s_env := env |>) /\ (is_ok rc = false -> dp = true /\ unchanged s s1) /\ (dp = false -> s1 = s)).
  { destruct dp.
    - pose proof (persist_del_cases s k (rev_main r)) as Hc. destruct (persist_del_ s k (rev_main r)) as [s1 rc].
      destruct Hc as [He Hf]. split_and!; [done|by intros; auto|done].
    - split_and!; [exists (s_env s); by destruct s|done|done]. }
  destruct (if dp then _ else _) as [s1 rc]. destruct Hp as ([env ->] & Hfail & Henv).
  destruct (is_ok rc) eqn:Hrc; cbn [negb]; [|left; destruct (Hfail eq_refl); done].
  right. split; [done|]. unfold push_history, mvcc_notify_watchers.
  match goal with |- wrote s ?x _ /\ _ => set (s' := x) end.
  assert (Em : s_main_rev s' = rev_main r).
  { unfold s'. cbn. destruct (Z.ltb_spec (s_main_rev s) (rev_main r)); cbn; [done|lia]. }
  assert (Eh : s_history s' = s_history s ++ [delete_entry (kv_of_kg k kg) r]).
  { unfold s'. cbn. by destruct (s_main_rev s <? rev_main r). }
  assert (Ei : s_index s' = (ki_del (s_index s) k).1).
  { unfold s'. cbn. by destruct (s_main_rev s <? rev_main r). }
  assert (Ecur : current s' = apply_entry (current s) (delete_entry (kv_of_kg k kg) r)).
  { unfold current at 1. rewrite (current_del s k); [done|apply Hs|done]. }
  assert (Hrest : s_compacted_rev s' = s_compacted_rev s /\ s_backend s' = s_backend s /\
    s_watchers s' = s_watchers s /\ s_stream_watchers s' = s_stream_watchers s /\ s_env s' = env).
  { unfold s'. cbn. by destruct (s_main_rev s <? rev_main r). }
  destruct Hrest as (Ec & Eb & Ew & Esw & Ee).
  assert (Hnt : notified s s' (entry_event (delete_entry (kv_of_kg k kg) r) (current s !! k))).
  { rewrite kg_of_current, Hk by done. unfold s'. split; cbn; by destruct (s_main_rev s <? rev_main r). }
  split_and!; try done.
  - eapply append_ok; try done.
    + rewrite Ei. apply ki_del_ok, Hs.
    + intros k' kg'. rewrite Ei, ki_del_map by apply Hs. rewrite lookup_delete_Some. intros [_ Hk'].
      destruct (so_live _ Hs _ _ Hk'). cbn. split; [done|lia].
    + intros k1 k2 kg1 kg2. rewrite Ei, ki_del_map by apply Hs. rewrite !lookup_delete_Some.
      intros [_ K1] [_ K2]. by apply (so_distinct _ Hs).
  - intros Hdp. rewrite Ee. specialize (Henv Hdp). apply (f_equal s_env) in Henv. done.
Qed.

(** ** Batch delete *)

(** The tombstones of a batch: one main revision, sub-revisions counted up. *)
Fixpoint tombstones (m : gmap bytes cetcd_kv) (main i : Z) (keys : list bytes) : list revision_entry :=
  match keys with
  | [] => []
  | k :: keys =>
      match m !! k with
      | Some kv => delete_entry kv (mk_rev main i) :: tombstones (delete k m) main (i + 1) keys
      | None => tombstones m main (i + 1) keys
      end
  end.

(** The revision the loop returns: that of its last step. *)
Fixpoint batch_last (m : gmap bytes cetcd_kv) (main i : Z) (keys : list bytes) (last : cetcd_revision) : cetcd_revision :=
  match keys with
  | [] => last
  | k :: keys =>
      match m !! k with
      | Some kv => batch_last (delete k m) main (i + 1) keys (mk_rev main i)
      | None => batch_last m main (i + 1) keys zero_rev
      end
  end.

Lemma fresh_rev_next s r i : fresh_rev s (mk_rev r i) -> fresh_rev s (mk_rev r (i + 1)).
Proof.
  intros (H1 & H2 & H3). split_and!; [done|done|]. eapply Forall_impl; [exact H3|]. cbn.
  intros e He%rev_lt_iff. apply rev_lt_iff. cbn in *. lia.
Qed.

Lemma delete_loop_spec keys s main i last : store_ok s -> fresh_rev s (mk_rev main i) ->
  let '(s', r) := delete_loop s main i keys last in
  store_ok s' /\ s_history s' = s_history s ++ tombstones (current s) main i keys /\
  r = batch_last (current s) main i keys last /\
  current s' = foldl (fun m k => delete k m) (current s) keys /\
  s_main_rev s' = (match tombstones (current s) main i keys with [] => s_main_rev s | _ => main end) /\
  s_compacted_rev s' = s_compacted_rev s /\ s_backend s' = s_backend s /\ s_env s' = s_env s /\
  s_watchers s' = s_watchers s /\ s_stream_watchers s' = s_stream_watchers s.
Proof.
  revert s i last. induction keys as [|k keys IH]; intros s i last Hs Hf; cbn [delete_loop tombstones batch_last foldl].
  { by rewrite app_nil_r. }
  destruct (current s !! k) as [kv|] eqn:Hk.
  - pose proof (delete_one_cases s k kv false (Some (mk_rev main i)) Hs Hk Hf) as Hc.
    destruct (delete_one_ s k false (Some (mk_rev main i))) as [s1 r1].
    destruct Hc as [(_ & ? & _)|(-> & (Eh & Em & Ec & Eb & Ew & Esw & Ecur & _) & Hs1 & Ee)]; [done|].
    specialize (Ee eq_refl). cbn [delete_rev] in *.
    assert (Hf1 : fresh_rev s1 (mk_rev main (i + 1))).
    { destruct (fresh_rev_next _ _ _ Hf) as (Ha & Hb & Hc). split_and!; [rewrite Em; done|done|].
      rewrite Eh. apply Forall_app. split; [done|]. repeat constructor. apply rev_lt_iff. cbn. lia. }
    specialize (IH s1 (i + 1) (mk_rev main i) Hs1 Hf1).
    assert (Hcur1 : current s1 = delete k (current s)).
    { rewrite Ecur. unfold apply_entry. cbn. by rewrite (current_key s k kv). }
    rewrite Hcur1 in IH. destruct (delete_loop s1 main (i + 1) keys (mk_rev main i)) as [s' r].
    destruct IH as (Hs' & Eh' & -> & Ec' & Em' & Eco & Eb' & Ee' & Ew' & Esw').
    split_and!; try congruence.
    + rewrite Eh', Eh. by rewrite <- app_assoc.
    + rewrite Em', Em. cbn. by destruct (tombstones (delete k (current s)) main (i + 1) keys).
  - rewrite delete_one_absent by done.
    specialize (IH s (i + 1) zero_rev Hs (fresh_rev_next _ _ _ Hf)).
    rewrite delete_id by done. exact IH.
Qed.

(** The keys of a batch that are deleted. *)
Definition batch_keys (s : store) (keys : list bytes) : list bytes :=
  List.filter (fun k => negb (blen k =? 0) && bool_decide (is_Some (current s !! k))) keys.

Lemma live_keys s keys : store_ok s -> List.filter (live_key s) keys = batch_keys s keys.
Proof.
  intros Hs. apply List.filter_ext. intros k. unfold live_key. destruct (blen k =? 0); [done|]. cbn [negb andb].
  rewrite kg_of_current, ki_get_map by (done || apply Hs).
  destruct (ki_map (s_index s) !! k) as [kg|] eqn:Hk; [|done]. by rewrite (proj1 (so_live _ Hs _ _ Hk)).
Qed.

(** A batch does nothing, or is refused, or runs the loop. *)
Lemma delete_keys_shape s keys : store_ok s ->
  (batch_keys s keys = [] /\ cetcd_mvcc_delete_keys s keys = (s, zero_rev)) \/
  (batch_keys s keys <> [] /\ unchanged s (cetcd_mvcc_delete_keys s keys).1 /\
   (cetcd_mvcc_delete_keys s keys).2 = zero_rev) \/
  (batch_keys s keys <> [] /\ exists env, cetcd_mvcc_delete_keys s keys =
    delete_loop (s <| s_env := env |>) (s_main_rev s + 1) 0 (batch_keys s keys) zero_rev).
Proof.
  intros Hs. unfold cetcd_mvcc_delete_keys. rewrite live_keys by done. cbv zeta.
  destruct (Z.eqb_spec (blen keys) 0) as [Hz|Hz].
  { left. unfold blen in Hz. by destruct keys. }
  destruct (Z.eqb_spec (blen (batch_keys s keys)) 0) as [Hb|Hb].
  { left. unfold blen in Hb. by destruct (batch_keys s keys). }
  assert (Hne : batch_keys s keys <> []) by (intros Hn; by rewrite Hn in Hb). right.
  backend_call s be_del_n_spec rc env Hfail.
  destruct (is_ok rc); cbn [negb]; [right; eauto|left; auto].
Qed.

Lemma delete_keys_cases s keys : store_ok s ->
  let '(s', r) := cetcd_mvcc_delete_keys s keys in
  let batch := batch_keys s keys in
  let main := s_main_rev s + 1 in
  (batch = [] /\ s' = s /\ r = zero_rev) \/
  (batch <> [] /\ unchanged s s' /\ r = zero_rev) \/
  (batch <> [] /\ store_ok s' /\
   s_history s' = s_history s ++ tombstones (current s) main 0 batch /\ s_main_rev s' = main /\
   r = batch_last (current s) main 0 batch zero_rev /\
   current s' = foldl (fun m k => delete k m) (current s) batch /\
   s_compacted_rev s' = s_compacted_rev s /\ s_backend s' = s_backend s /\
   s_watchers s' = s_watchers s /\ s_stream_watchers s' = s_stream_watchers s).
Proof.
  intros Hs. destruct (delete_keys_shape s keys Hs) as [[Hb ->]|[(Hb & Hu & Hr)|(Hne & env & ->)]]; cbv zeta.
  { by left. }
  { destruct (cetcd_mvcc_delete_keys s keys). right. by left. }
  assert (Hs1 : store_ok (s <| s_env := env |>)) by (by eapply store_ok_ext).
  pose proof (delete_loop_spec (batch_keys s keys) _ (s_main_rev s + 1) 0 zero_rev Hs1
    (next_rev_fresh _ Hs1)) as Hl.
  destruct (delete_loop _ _ 0 (batch_keys s keys) zero_rev) as [s' r].
  destruct Hl as (Hs' & Eh & -> & Ec & Em & Eco & Eb & _ & Ew & Esw).
  right. right. split_and!; try done. rewrite Em. destruct (batch_keys s keys) as [|k ks] eqn:Hks; [done|].
  assert (Hk : k ∈ batch_keys s keys) by (rewrite Hks; set_solver).
  apply elem_of_bool_filter in Hk as [_ Hk]. apply andb_true_iff in Hk as [_ [kv Hk]%bool_decide_eq_true].
  cbn. change (current (s <| s_env := env |>)) with (current s). by rewrite Hk.
Qed.

(** Distinct live keys get the sub-revisions 0, 1, 2, ... *)
Lemma tombstones_nodup m main i ks : NoDup ks -> (forall k, k ∈ ks -> is_Some (m !! k)) ->
  (forall k kv, m !! k = Some kv -> kv_key kv = k) ->
  re_key <$> tombstones m main i ks = ks /\
  re_rev <$> tombstones m main i ks = mk_rev main <$> seqZ i (blen ks) /\
  Forall (fun e => re_type e = CETCD_EVENT_DELETE) (tombstones m main i ks).
Proof.
  revert m i. induction ks as [|k ks IH]; intros m i Hnd Hin Hkey; cbn [tombstones].
  { split_and!; [done|by rewrite seqZ_nil by done|constructor]. }
  apply NoDup_cons in Hnd as [Hk Hnd]. destruct (Hin k) as [kv Hkv]; [set_solver|]. rewrite Hkv. cbn.
  destruct (IH (delete k m) (i + 1)) as (E1 & E2 & E3); [done| | |].
  - intros k' Hk'. rewrite lookup_delete_ne by (intros ->; done). apply Hin. set_solver.
  - intros k' kv' [_ Hk']%lookup_delete_Some. by apply Hkey.
  - rewrite E1, E2. split_and!.
    + by rewrite (Hkey _ _ Hkv).
    + unfold blen. rewrite (seqZ_cons i) by (cbn; lia). cbn [fmap list_fmap length]. do 3 f_equal; lia.
    + by constructor.
Qed.

(** The revision of the last of distinct live keys. *)
Lemma batch_last_nodup main ks : forall m i last, NoDup ks -> (forall k, k ∈ ks -> is_Some (m !! k)) -> ks <> [] ->
  batch_last m main i ks last = mk_rev main (i + blen ks - 1).
Proof.
  induction ks as [|k ks IH]; intros m i last Hnb Hlive Hne; [done|]. cbn [batch_last].
  destruct (Hlive k) as [kv Hkv]; [set_solver|]. rewrite Hkv. apply NoDup_cons in Hnb as [Hk Hnb].
  destruct ks as [|k' ks]; [unfold blen; cbn [length batch_last]; f_equal; lia|].
  rewrite IH; [unfold blen; cbn [length]; f_equal; lia|done| |done].
  intros x Hx. rewrite lookup_delete_ne by (intros ->; done). apply Hlive. set_solver.
Qed.

Lemma deletes_lookup {V} ks (k : bytes) : forall m : gmap bytes V,
  foldl (fun m k => delete k m) m ks !! k = if decide (k ∈ ks) then None else m !! k.
Proof.
  induction ks as [|k' ks IH]; intros m; cbn [foldl]; [by rewrite decide_False by set_solver|].
  rewrite IH. destruct (decide (k ∈ ks)) as [Hin|Hin]; [by rewrite decide_True by set_solver|].
  destruct (decide (k' = k)) as [->|Hne]; [rewrite decide_True by set_solver; by rewrite lookup_delete_eq|].
  by rewrite lookup_delete_ne, decide_False by (done || set_solver).
Qed.

Lemma batch_keys_live s keys k : k ∈ batch_keys s keys -> k ∈ keys /\ is_Some (current s !! k).
Proof. intros [? [_ ?%bool_decide_eq_true]%andb_true_iff]%elem_of_bool_filter. done. Qed.

Lemma batch_keys_nodup s keys : NoDup keys -> NoDup (batch_keys s keys).
Proof. intros. by apply NoDup_ListNoDup, List.NoDup_filter, NoDup_ListNoDup. Qed.

(** ** Revision and compaction *)

Lemma advance_cases s r : store_ok s ->
  let '(s', rc) := cetcd_mvcc_advance_revision s r in
  (rc <> CETCD_OK /\ unchanged s s') \/
  (rc = CETCD_OK /\ s_main_rev s <= r /\ 1 <= r /\ (exists env, s' = (s <| s_env := env |>) <| s_main_rev := r |>) /\ store_ok s').
Proof.
  intros Hs. unfold cetcd_mvcc_advance_revision.
  assert (Hid : unchanged s s) by (split; [exists (s_env s); by destruct s|done]).
  destruct (Z.ltb_spec r 1); [by left|]. destruct (Z.ltb_spec r (s_main_rev s)); [by left|].
  destruct (Z.eqb_spec r (s_main_rev s)) as [Hr|Hr].
  { right. split_and!; [done|lia|done| |done]. exists (s_env s). subst r. by destruct s. }
  backend_call s be_put_spec rc env Hfail.
  destruct (is_ok rc); cbn [negb]; [|left; split; [done|by apply Hfail]].
  right. split_and!; [done|lia|done|by exists env|].
  destruct Hs as [A1 A2 A3 A4 A5 Ad A6]. split; cbn -[keyspace current]; try done.
  - lia.
  - eapply Forall_impl; [exact A4|]. cbn. lia.
  - intros k kg Hk. destruct (A5 k kg Hk). split; [done|lia].
  - intros k. rewrite (keyspace_all _ (s_main_rev s)); [apply A6| |lia].
    eapply Forall_impl; [exact A4|]. cbn. lia.
Qed.

Definition kept (c : Z) (h : list revision_entry) : list revision_entry :=
  List.filter (fun e => c <=? rev_main (re_rev e)) h.

Lemma kept_snoc c h e : kept c (h ++ [e]) = kept c h ++ (if c <=? rev_main (re_rev e) then [e] else []).
Proof. unfold kept. rewrite List.filter_app. cbn. by destruct (c <=? _). Qed.

Lemma kept_sorted c h : StronglySorted rev_lt (re_rev <$> h) -> StronglySorted rev_lt (re_rev <$> kept c h).
Proof.
  induction h as [|e h IH]; cbn; [done|]. intros [Hs Hall]%StronglySorted_inv. destruct (c <=? _); [|by apply IH].
  cbn. constructor; [by apply IH|]. rewrite Forall_fmap in Hall. rewrite Forall_fmap.
  rewrite Forall_forall in Hall |- *. intros x [Hx _]%elem_of_bool_filter. by apply Hall.
Qed.

(** Where a row of a keyspace comes from. *)
Lemma keyspace_source h rev k kv : keyspace h rev !! k = Some kv ->
  exists e, e ∈ h /\ re_key e = k /\ re_rev e = kv_mod_rev kv /\ rev_main (re_rev e) <= rev.
Proof.
  revert kv. induction h as [|e h IH] using rev_ind; intros kv; [done|].
  rewrite keyspace_lookup_snoc. destruct ((_ <=? _) && _) eqn:Ht.
  - apply andb_true_iff in Ht as [Hle%Z.leb_le Hk%bool_decide_eq_true]. destruct (re_type e); [|done].
    intros [= <-]. exists e. split_and!; [set_solver|done..].
  - intros Hkv. destruct (IH kv Hkv) as (e' & ? & ?). exists e'. split; [set_solver|done].
Qed.

(** Dropping old entries does not change a key that has a newer one. *)
Lemma keyspace_kept h c rev k e : StronglySorted rev_lt (re_rev <$> h) ->
  e ∈ h -> re_key e = k -> c <= rev_main (re_rev e) <= rev ->
  keyspace (kept c h) rev !! k = keyspace h rev !! k.
Proof.
  intros Hs He Hk Hc. revert e He Hk Hc. induction h as [|e0 h IH] using rev_ind; intros e He Hk Hc; [set_solver|].
  rewrite fmap_app, StronglySorted_app_iff in Hs. destruct Hs as (Hs & _ & Hlast).
  rewrite kept_snoc, keyspace_lookup_snoc.
  destruct ((rev_main (re_rev e0) <=? rev) && bool_decide (re_key e0 = k)) eqn:Ht.
  - apply andb_true_iff in Ht as [Hle%Z.leb_le Hk0%bool_decide_eq_true].
    assert (Hc0 : c <= rev_main (re_rev e0)).
    { apply elem_of_app in He as [He|He%list_elem_of_singleton]; [|by subst; lia].
      assert (Hlt : rev_lt (re_rev e) (re_rev e0)) by (apply Hlast; [by apply list_elem_of_fmap_2|set_solver]).
      apply rev_lt_iff in Hlt. lia. }
    rewrite (proj2 (Z.leb_le _ _) Hc0), keyspace_lookup_snoc.
    by rewrite (proj2 (Z.leb_le _ _) Hle), bool_decide_true.
  - assert (Hrest : keyspace (kept c h) rev !! k = keyspace h rev !! k).
    { apply elem_of_app in He as [He|He%list_elem_of_singleton].
      - by apply (IH Hs e).
      - subst e. rewrite bool_decide_true, andb_true_r in Ht by done. apply Z.leb_gt in Ht. lia. }
    destruct (c <=? _); [|by rewrite app_nil_r]. by rewrite keyspace_lookup_snoc, Ht.
Qed.

Lemma kept_elem c h e : e ∈ kept c h <-> e ∈ h /\ c <= rev_main (re_rev e).
Proof. unfold kept. by rewrite elem_of_bool_filter, Z.leb_le. Qed.

Lemma mvcc_compact_cases s c : store_ok s ->
  let '(s', rc) := cetcd_mvcc_compact s c in
  (rc <> CETCD_OK /\ unchanged s s') \/
  (rc = CETCD_OK /\ s_compacted_rev s < c <= s_main_rev s /\
   (exists env, s' = ((s <| s_env := env |>) <| s_history := kept c (s_history s) |>) <| s_compacted_rev := c |>) /\
   store_ok s').
Proof.
  intros Hs. unfold cetcd_mvcc_compact.
  assert (Hid : unchanged s s) by (split; [exists (s_env s); by destruct s|done]).
  destruct (Z.leb_spec c 0) as [|Hpos]; [by left|]. destruct (Z.ltb_spec (s_main_rev s) c) as [|Hmain]; [by left|].
  pose proof (so_compact _ Hs) as Hcomp.
  assert (Hgt : (0 <? s_compacted_rev s) && (c <=? s_compacted_rev s) = false -> s_compacted_rev s < c).
  { intros [Hz|Hz]%andb_false_iff; [apply Z.ltb_ge in Hz|apply Z.leb_gt in Hz]; lia. }
  destruct (_ && _); [by left|]. specialize (Hgt eq_refl).
  backend_call s be_put_spec rc env Hfail.
  destruct (is_ok rc); cbn [negb]; [|left; split; [done|by apply Hfail]].
  right. split_and!; [done|lia|lia|by exists env|].
  destruct Hs as [A1 A2 A3 A4 A5 Ad A6]. split; cbn -[keyspace current]; fold (kept c (s_history s)); try done.
  - lia.
  - by apply kept_sorted.
  - rewrite Forall_forall in A4 |- *. intros e [He Hc]%kept_elem. specialize (A4 e He). cbn in A4. lia.
  - intros k. change (current _) with (current s) at 1 2.
    destruct (decide (Exists (fun e => re_key e = k) (kept c (s_history s)))) as [Hex|Hex].
    + apply Exists_exists in Hex as (e & [He Hce]%kept_elem & Hk).
      pose proof A4 as A4'. rewrite Forall_forall in A4'. specialize (A4' e He). cbn in A4'.
      rewrite (keyspace_kept _ _ _ _ e) by (done || lia).
      destruct (A6 k) as [|[Hno _]]; [by left|]. by destruct (Hno e He).
    + assert (Hno : forall e, e ∈ kept c (s_history s) -> re_key e <> k).
      { intros e He Hk. apply Hex, Exists_exists. by exists e. }
      rewrite keyspace_absent by done. destruct (current s !! k) as [kv|] eqn:Hcur; [right|by left].
      split; [done|]. exists kv. split; [done|]. destruct (A6 k) as [Heq|[_ (kv' & Hkv' & Hlt)]].
      * rewrite Hcur in Heq. destruct (keyspace_source _ _ _ _ Heq) as (e & He & Hk & Hr & _). rewrite <- Hr.
        destruct (Z.lt_ge_cases (rev_main (re_rev e)) c) as [|Hge]; [done|].
        exfalso. apply (Hno e); [by apply kept_elem|done].
      * rewrite Hcur in Hkv'. injection Hkv' as <-. lia.
Qed.

(** ** Runs *)

Inductive mvcc_op : Type :=
| OpPut (key val : bytes) (lease_id : Z)
| OpDelete (key : bytes)
| OpDeleteKeys (keys : list bytes)
| OpAdvance (rev : Z)
| OpCompact (rev : Z)
| OpSetBackend (be : bool)
| OpWatch (ptr : Z) (key : bytes) (start_rev cb : Z)
| OpWatchPrefix (ptr : Z) (prefix : bytes) (start_rev cb : Z)
| OpCancel (ptr : Z)
| OpSubscribe (ptr watch_id : Z) (key range_end : bytes) (start_rev : Z) (want_prev_kv : bool) (notify : Z)
| OpReplay (sw : cetcd_stream_watcher)
| OpUnsubscribe (ptr : Z).

Definition mvcc_step (s : store) (op : mvcc_op) : store :=
  match op with
  | OpPut k v l => (cetcd_mvcc_put s k v l).1
  | OpDelete k => (cetcd_mvcc_delete s k).1
  | OpDeleteKeys ks => (cetcd_mvcc_delete_keys s ks).1
  | OpAdvance r => (cetcd_mvcc_advance_revision s r).1
  | OpCompact r => (cetcd_mvcc_compact s r).1
  | OpSetBackend b => cetcd_mvcc_set_backend s b
  | OpWatch p k r cb => cetcd_mvcc_watch s p k r cb
  | OpWatchPrefix p k r cb => cetcd_mvcc_watch_prefix s p k r cb
  | OpCancel p => cetcd_mvcc_watch_cancel s p
  | OpSubscribe p w k e r pk n => cetcd_mvcc_watch_subscribe s p w k e r pk n
  | OpReplay sw => cetcd_mvcc_watch_replay s sw
  | OpUnsubscribe p => cetcd_mvcc_watch_unsubscribe s p
  end.

Definition mvcc_run (s : store) (ops : list mvcc_op) : store := foldl mvcc_step s ops.

Definition is_compact (op : mvcc_op) : bool := match op with OpCompact _ => true | _ => false end.

(** The history only grows, by entries of later revisions, which the current
    rows follow. *)
Definition extends (s s' : store) : Prop :=
  s_compacted_rev s' = s_compacted_rev s /\ s_main_rev s <= s_main_rev s' /\
  exists l, s_history s' = s_history s ++ l /\ Forall (fun e => s_main_rev s < rev_main (re_rev e)) l /\
    current s' = foldl apply_entry (current s) l.

#[global] Instance extends_preorder : PreOrder extends.
Proof.
  split.
  - intros s. split_and!; [done|lia|]. exists []. by rewrite app_nil_r.
  - intros s1 s2 s3 (E1 & L1 & l1 & H1 & F1 & C1) (E2 & L2 & l2 & H2 & F2 & C2). split_and!; [congruence|lia|].
    exists (l1 ++ l2). rewrite H2, H1, <- app_assoc. split; [done|]. split; [|by rewrite foldl_app, C2, C1]. apply Forall_app. split; [done|].
    eapply Forall_impl; [exact F2|]. cbn. lia.
Qed.

(** A step that keeps history, index and revisions. *)
Lemma same_extends s s' : s_index s' = s_index s -> s_history s' = s_history s -> s_compacted_rev s' = s_compacted_rev s ->
  s_main_rev s <= s_main_rev s' -> extends s s'.
Proof. intros Ei Eh Ec Em. split_and!; [done|done|]. exists []. rewrite app_nil_r. split_and!; [done|done|]. cbn [foldl]. unfold current. by rewrite Ei. Qed.

Lemma unchanged_extends s s' : unchanged s s' -> extends s s'.
Proof. intros [[env ->] _]. by apply same_extends. Qed.

Lemma wrote_extends s s' e : s_main_rev s < rev_main (re_rev e) -> wrote s s' e -> extends s s'.
Proof.
  intros Hlt (Eh & Em & Ec & _ & _ & _ & Hc & _). split_and!; [done|lia|]. exists [e]. split; [done|]. split; [by repeat constructor|exact Hc].
Qed.

(** Applying the tombstones of a batch deletes its keys. *)
Lemma tombstones_apply main ks : forall m i, (forall k kv, m !! k = Some kv -> kv_key kv = k) ->
  foldl apply_entry m (tombstones m main i ks) = foldl (fun m k => delete k m) m ks.
Proof.
  induction ks as [|k ks IH]; intros m i Hm; [done|]. cbn [tombstones foldl]. destruct (m !! k) as [kv|] eqn:Hk.
  - cbn [foldl]. change (apply_entry m (delete_entry kv (mk_rev main i))) with (delete (kv_key kv) m). rewrite (Hm k kv Hk). apply IH.
    intros k' kv' Hk'. apply lookup_delete_Some in Hk' as [_ Hk']. by apply Hm.
  - rewrite delete_id by done. by apply IH.
Qed.

Lemma tombstones_main m main i ks : Forall (fun e => rev_main (re_rev e) = main) (tombstones m main i ks).
Proof.
  revert m i. induction ks as [|k ks IH]; intros m i; cbn; [constructor|]. destruct (m !! k); [by constructor|done].
Qed.

Lemma step_ok s op : store_ok s -> store_ok (mvcc_step s op) /\ (is_compact op = false -> extends s (mvcc_step s op)).
Proof.
  intros Hs. destruct op as [k v l|k|ks|r|r| | | | | |sw|]; cbn [mvcc_step is_compact];
    try (split; [by eapply store_ok_ext|intros _; by apply same_extends]).
  - pose proof (put_cases s k v l Hs) as Hc. destruct (cetcd_mvcc_put s k v l) as [s' r].
    destruct Hc as [[_ Hu]|(_ & Hw & Hs')]; [split; [by eapply unchanged_ok|intros _; by apply unchanged_extends]|].
    split; [done|]. intros _. eapply wrote_extends; [|exact Hw].
    unfold put_entry, put_row. destruct (current s !! k); cbn; lia.
  - unfold cetcd_mvcc_delete. destruct (current s !! k) as [kv|] eqn:Hk.
    2: { rewrite delete_one_absent by done. by split. }
    pose proof (delete_one_cases s k kv true None Hs Hk (next_rev_fresh s Hs)) as Hc.
    destruct (delete_one_ s k true None) as [s' r].
    destruct Hc as [(_ & _ & Hu)|(-> & Hw & Hs' & _)]; [split; [by eapply unchanged_ok|intros _; by apply unchanged_extends]|].
    split; [done|]. intros _. eapply wrote_extends; [|exact Hw]. cbn. lia.
  - pose proof (delete_keys_cases s ks Hs) as Hc. destruct (cetcd_mvcc_delete_keys s ks) as [s' r]. cbv zeta in Hc.
    destruct Hc as [(_ & -> & _)|[(_ & Hu & _)|(_ & Hs' & Eh & Em & _ & Hc & Ec & _)]];
      [by split|split; [by eapply unchanged_ok|intros _; by apply unchanged_extends]|].
    split; [done|]. intros _. split_and!; [done|cbn; lia|]. eexists. split; [exact Eh|].
    split; [eapply Forall_impl; [apply tombstones_main|]; cbn; lia|]. cbn [fst]. rewrite Hc, tombstones_apply; [done|apply current_key].
  - pose proof (advance_cases s r Hs) as Hc. destruct (cetcd_mvcc_advance_revision s r) as [s' rc].
    destruct Hc as [[_ Hu]|(_ & Hle & _ & [env ->] & Hs')]; [split; [by eapply unchanged_ok|intros _; by apply unchanged_extends]|].
    split; [done|]. intros _. apply same_extends; (done || cbn; lia).
  - pose proof (mvcc_compact_cases s r Hs) as Hc. destruct (cetcd_mvcc_compact s r) as [s' rc].
    destruct Hc as [[_ Hu]|(_ & _ & _ & Hs')]; [split; [by eapply unchanged_ok|done]|by split].
  - unfold cetcd_mvcc_watch_replay. destruct (_ <=? 0); (split; [by eapply store_ok_ext|]);
      intros _; by apply same_extends.
Qed.

Lemma run_ok ops s : store_ok s ->
  store_ok (mvcc_run s ops) /\ (forallb (fun op => negb (is_compact op)) ops = true -> extends s (mvcc_run s ops)).
Proof.
  revert s. induction ops as [|op ops IH]; intros s Hs; [by split|].
  destruct (step_ok s op Hs) as [Hs1 He1]. destruct (IH _ Hs1) as [Hs2 He2]. cbn [mvcc_run foldl forallb].
  split; [exact Hs2|]. intros [Hop%negb_true_iff Hops]%andb_true_iff. etransitivity; [by apply He1|by apply He2].
Qed.

Lemma new_store_ok env ch : store_ok (cetcd_mvcc_store_new env ch : store).
Proof.
  split; cbn -[keyspace current]; try done.
  - apply ki_new_ok.
  - constructor.
  - intros k kg. by rewrite ki_new_map.
  - intros k k' kg kg'. by rewrite ki_new_map.
  - intros k. left. rewrite current_lookup. cbn. by rewrite ki_new_map.
Qed.

(** Reads of an ordinary revision see the keyspace. *)
Lemma get_keyspace (s : store) rev k : 0 < rev -> s_compacted_rev s <= rev -> blen (s_history s) < 2147483648 ->
  cetcd_mvcc_get s rev k = read_result (keyspace (s_history s) rev !! k).
Proof.
  intros Hr Hc Hl. unfold cetcd_mvcc_get. rewrite (proj2 (Z.ltb_ge rev (s_compacted_rev s))), andb_false_r by lia.
  rewrite (proj2 (Z.eqb_neq rev 0)) by lia. rewrite newest_first_rev by done. apply history_get_keyspace.
Qed.

Lemma range_keyspace (s : store) rev lo hi : 0 < rev -> s_compacted_rev s <= rev -> blen (s_history s) < 2147483648 ->
  cetcd_mvcc_range s rev lo hi = (CETCD_OK, rows_between lo (range_hi hi) (keyspace (s_history s) rev)).
Proof.
  intros Hr Hc Hl. unfold cetcd_mvcc_range. rewrite (proj2 (Z.ltb_ge rev (s_compacted_rev s))), andb_false_r by lia.
  rewrite (proj2 (Z.eqb_neq rev 0)) by lia. f_equal. by apply range_history.
Qed.

Lemma range_zero (s : store) lo hi : ki_ok (s_index s) ->
  cetcd_mvcc_range s 0 lo hi = (CETCD_OK, rows_between lo (range_hi hi) (current s)).
Proof. intros Hok. unfold cetcd_mvcc_range. cbn [Z.ltb Z.compare andb Z.eqb]. f_equal. by apply range_current. Qed.

End Writes.
