(* ===== verification/MvccProps.v ===== *)
(** * Properties of the MVCC store (src/mvcc/mvcc.c)

    The statements about reads, writes and compaction of a store, proved from
    the case lemmas of MvccStore.v for any index and any backend that satisfy
    their interfaces; the witnesses run the treap over the in-memory LMDB. *)

From S2P Require Import Slice Hash KeyOrder Treap Hashmap Backend Mvcc MvccSnap MvccStore Prelude.

#[local] Open Scope Z_scope.

(** The concrete store of the witnesses, with a backend attached. *)
Definition tstore : Type := cetcd_mvcc_store cetcd_treap mem_env.

Definition empty_tstore : tstore := cetcd_mvcc_store_new (mk_mem_env ∅ []) ∅.

Definition sample_ops : list mvcc_op :=
  [OpSetBackend true; OpPut [97] [1] 0; OpPut [98] [2] 7; OpPut [97] [3] 0; OpDelete [98]].

Definition sample_store : tstore := Eval vm_compute in mvcc_run empty_tstore sample_ops.

Lemma sample_store_run : sample_store = mvcc_run empty_tstore sample_ops.
Proof. vm_compute. reflexivity. Qed.

Lemma sample_store_ok : store_ok sample_store.
Proof. rewrite sample_store_run. apply run_ok, new_store_ok. Qed.

Section Props.
  Context {T : Type -> Type} {E : Type} `{KeyIndexLaws T, BackendLaws E}.
  Local Notation store := (cetcd_mvcc_store T E).

(** Without compaction the index and the history describe the same keyspace. *)
Lemma current_keyspace (s : store) : store_ok s -> s_compacted_rev s = 0 ->
  current s = keyspace (s_history s) (s_main_rev s).
Proof.
  intros Hs Hc. apply map_eq. intros k. destruct (so_agree _ Hs k) as [|[_ (kv & Hkv & Hlt)]]; [done|].
  rewrite kg_of_current in Hkv by done. apply fmap_Some in Hkv as (kg & Hkg & ->).
  destruct (so_live _ Hs _ _ Hkg) as [_ Hm]. cbn in Hlt. lia.
Qed.

(** C15: store invariant.  Every run of puts, deletes, batch deletes, revision
    advances, compactions and watch operations from a new store, with any
    backend failures, keeps the history strictly ordered by (main, sub) and
    within the current revision, the index free of deleted generations, and
    index and history in agreement on every key compaction has not dropped. *)
Theorem mvcc_invariant (env : E) (ch : gmap Z cetcd_mvcc_watch_notify) (ops : list mvcc_op) :
  store_ok (mvcc_run (cetcd_mvcc_store_new env ch : store) ops).
Proof. apply run_ok, new_store_ok. Qed.

(** All writes of a run: what each operation appended to the history, compaction
    or not. *)
Fixpoint written (s : store) (ops : list mvcc_op) : list revision_entry :=
  match ops with
  | [] => []
  | op :: ops =>
      (if is_compact op then [] else drop (length (s_history s)) (s_history (mvcc_step s op))) ++ written (mvcc_step s op) ops
  end.

(** The store has seen the writes [h]: it still has those from the compaction
    boundary on, and the rows they leave. *)
Record saw (s : store) (h : list revision_entry) : Prop := {
  sw_sorted : StronglySorted rev_lt (re_rev <$> h);
  sw_bounds : Forall (fun e => 1 <= rev_main (re_rev e) <= s_main_rev s) h;
  sw_kept : s_history s = kept (s_compacted_rev s) h;
  sw_current : current s = foldl apply_entry ∅ h
}.

Lemma kept_app c h l : kept c (h ++ l) = kept c h ++ kept c l.
Proof. apply List.filter_app. Qed.

Lemma kept_all c l : Forall (fun e => c <= rev_main (re_rev e)) l -> kept c l = l.
Proof. induction 1 as [|e l He _ IH]; [done|]. unfold kept in *. cbn. rewrite (proj2 (Z.leb_le _ _) He). by rewrite IH. Qed.

Lemma kept_kept c c' l : c <= c' -> kept c' (kept c l) = kept c' l.
Proof.
  intros Hc. unfold kept. induction l as [|e l IH]; [done|]. cbn. destruct (Z.leb_spec c (rev_main (re_rev e))); cbn; [by rewrite IH|].
  rewrite (proj2 (Z.leb_gt _ _)) by lia. exact IH.
Qed.

Lemma saw_extends s s' h : store_ok s -> store_ok s' -> extends s s' -> saw s h -> saw s' (h ++ drop (length (s_history s)) (s_history s')).
Proof.
  intros Hs Hs' (Ec & Em & l & Eh & Hl & Hcur) [S1 S2 S3 S4]. rewrite Eh, drop_app_length. pose proof (so_compact s Hs).
  split.
  - rewrite fmap_app, StronglySorted_app_iff. pose proof (so_sorted s' Hs') as Hso. rewrite Eh, fmap_app, StronglySorted_app_iff in Hso.
    split_and!; [done|apply Hso|]. intros x y [e [-> He]]%list_elem_of_fmap [e' [-> He']]%list_elem_of_fmap.
    rewrite Forall_forall in S2, Hl. specialize (S2 e He). specialize (Hl e' He'). cbn in S2, Hl. apply rev_lt_iff. lia.
  - apply Forall_app. split; [eapply Forall_impl; [exact S2|]; cbn; lia|]. pose proof (so_bounds s' Hs') as Hb. rewrite Eh in Hb. by apply Forall_app in Hb as [_ Hb].
  - rewrite Ec, kept_app, <- S3, Eh, (kept_all _ l); [done|]. eapply Forall_impl; [exact Hl|]. cbn. lia.
  - by rewrite foldl_app, Hcur, S4.
Qed.

Lemma saw_step s op h : store_ok s -> saw s h ->
  saw (mvcc_step s op) (h ++ if is_compact op then [] else drop (length (s_history s)) (s_history (mvcc_step s op))).
Proof.
  intros Hs Hh. destruct (step_ok s op Hs) as [Hs' He]. destruct (is_compact op) eqn:Hop; [|apply saw_extends; auto].
  destruct op as [| | | |r| | | | | | |]; try done. cbn [mvcc_step] in *. rewrite app_nil_r.
  pose proof (mvcc_compact_cases s r Hs) as Hc. destruct (cetcd_mvcc_compact s r) as [s' rc]. cbn [fst] in *. destruct Hh as [S1 S2 S3 S4].
  destruct Hc as [[_ [[env ->] _]]|(_ & Hb & [env ->] & _)]; split; try done. cbn [s_history s_compacted_rev field_set].
  rewrite S3. apply kept_kept. lia.
Qed.

Lemma saw_run ops : forall s h, store_ok s -> saw s h -> saw (mvcc_run s ops) (h ++ written s ops).
Proof.
  induction ops as [|op ops IH]; intros s h Hs Hh; cbn [written mvcc_run foldl]; [by rewrite app_nil_r|]. rewrite app_assoc.
  apply IH; [by apply step_ok|by apply saw_step].
Qed.

Lemma saw_new env ch : saw (cetcd_mvcc_store_new env ch : store) [].
Proof.
  split; [constructor|constructor|done|]. apply map_eq. intros k. rewrite current_lookup. cbn. by rewrite ki_new_map.
Qed.

(** The rows all writes leave. *)
Lemma keyspace_whole h rev : Forall (fun e => rev_main (re_rev e) <= rev) h -> keyspace h rev = foldl apply_entry ∅ h.
Proof.
  intros Hb. unfold keyspace. f_equal. induction Hb as [|e h He _ IH]; [done|]. cbn. by rewrite (proj2 (Z.leb_le _ _) He), IH.
Qed.

(** The key was not written before [c], or was written again from [c] to [rev]. *)
Definition written_since (h : list revision_entry) (c rev : Z) (k : bytes) : Prop :=
  (forall e, e ∈ h -> re_key e = k -> c <= rev_main (re_rev e)) \/
  exists e, e ∈ h /\ re_key e = k /\ c <= rev_main (re_rev e) <= rev.

Lemma keyspace_since h c rev k : StronglySorted rev_lt (re_rev <$> h) -> written_since h c rev k ->
  keyspace (kept c h) rev !! k = keyspace h rev !! k.
Proof.
  intros Hs [Hall|(e & He & Hk & Hb)]; [|by apply (keyspace_kept h c rev k e)]. clear Hs.
  induction h as [|e h IH] using rev_ind; [done|]. assert (IH' := IH (fun e He => Hall e ltac:(set_solver))). clear IH.
  rewrite kept_snoc, keyspace_lookup_snoc. destruct (decide (re_key e = k)) as [Hk|Hk].
  - rewrite (proj2 (Z.leb_le _ _) (Hall e ltac:(set_solver) Hk)), keyspace_lookup_snoc. by case_match.
  - rewrite bool_decide_false, andb_false_r by done. destruct (c <=? _); [|by rewrite app_nil_r].
    rewrite keyspace_lookup_snoc, bool_decide_false, andb_false_r by done. exact IH'.
Qed.

(** C16: reads refine the keyspace.  After any run of operations from a new
    store, with any backend failures, a read at revision 0 sees exactly the rows
    all writes of the run leave, compaction or not.  A read at a positive revision
    below the compaction boundary fails with [CETCD_ERR_RANGE].  At or above the
    boundary a get is the lookup in, and a range the key-ordered listing of, one
    map, which on every key that was not written before the boundary, or was
    written again from the boundary to the revision, is the keyspace the writes up
    to the revision leave; without a compaction these are all keys.  Nothing is
    claimed there for the other keys: [compact_drops_live_key] shows that the code
    loses them.  The history has fewer than 2^31 entries. *)
Theorem mvcc_reads_refine (env : E) (ch : gmap Z cetcd_mvcc_watch_notify) (ops : list mvcc_op) (rev : Z) :
  let s := mvcc_run (cetcd_mvcc_store_new env ch : store) ops in
  let h := written (cetcd_mvcc_store_new env ch) ops in
  blen (s_history s) < 2147483648 -> 0 <= rev ->
  if (0 <? rev) && (rev <? s_compacted_rev s)
  then forall k lo hi, cetcd_mvcc_get s rev k = (CETCD_ERR_RANGE, None) /\ cetcd_mvcc_range s rev lo hi = (CETCD_ERR_RANGE, [])
  else exists keys : gmap bytes cetcd_kv,
    (forall k lo hi, cetcd_mvcc_get s rev k = read_result (keys !! k) /\
       cetcd_mvcc_range s rev lo hi = (CETCD_OK, rows_between lo (range_hi hi) keys)) /\
    if rev =? 0 then keys = keyspace h (s_main_rev s)
    else (forall k, written_since h (s_compacted_rev s) rev k -> keys !! k = keyspace h rev !! k) /\
         (s_compacted_rev s = 0 -> keys = keyspace h rev).
Proof.
  cbv zeta. set (s := mvcc_run _ ops). set (h := written _ ops). intros Hl Hr.
  assert (Hs : store_ok s) by apply run_ok, new_store_ok.
  destruct (saw_run ops _ _ (new_store_ok env ch) (saw_new env ch) : saw s h) as [S1 S2 S3 S4].
  destruct (Z.eqb_spec rev 0) as [->|Hne].
  { cbn [Z.ltb Z.compare andb]. exists (current s). split; [intros k lo hi; split; [apply get_current, Hs|apply range_zero, Hs]|].
    rewrite keyspace_whole; [done|]. eapply Forall_impl; [exact S2|]. cbn. lia. }
  rewrite (proj2 (Z.ltb_lt 0 rev)) by lia. cbn [andb]. destruct (Z.ltb_spec rev (s_compacted_rev s)) as [Hc|Hc].
  - intros k lo hi. unfold cetcd_mvcc_get, cetcd_mvcc_range. rewrite (proj2 (Z.ltb_lt 0 rev)), (proj2 (Z.ltb_lt 0 (s_compacted_rev s))),
      (proj2 (Z.ltb_lt rev (s_compacted_rev s))) by lia. done.
  - assert (Hsince : forall k, written_since h (s_compacted_rev s) rev k -> keyspace (s_history s) rev !! k = keyspace h rev !! k)
      by (intros k Hk; rewrite S3; by apply keyspace_since).
    exists (keyspace (s_history s) rev). split; [intros k lo hi; split; [apply get_keyspace|apply range_keyspace]; (done || lia)|].
    split; [exact Hsince|]. intros Hc0. apply map_eq. intros k. apply Hsince. left. intros e He _. rewrite Hc0. rewrite Forall_forall in S2. specialize (S2 e He). cbn in S2. lia.
Qed.

(** The head of the history is the index.  In a store that was never
    compacted, reading at the current revision and reading at 0 agree. *)
Theorem mvcc_head_agrees (s : store) (k lo hi : bytes)
  (Hs : store_ok s) (Hc : s_compacted_rev s = 0) (Hm : 0 < s_main_rev s) (Hl : blen (s_history s) < 2147483648) :
  cetcd_mvcc_get s (cetcd_mvcc_revision s) k = cetcd_mvcc_get s 0 k /\
  cetcd_mvcc_range s (cetcd_mvcc_revision s) lo hi = cetcd_mvcc_range s 0 lo hi.
Proof.
  unfold cetcd_mvcc_revision. rewrite get_keyspace, range_keyspace by (done || lia).
  rewrite get_current, range_zero, current_keyspace by (done || apply Hs). done.
Qed.

(** Snapshots are immutable.  Whatever writes, revision advances and watch
    operations follow, a read at a revision that existed before returns the
    same result. *)
Theorem mvcc_snapshot_stable (s : store) (ops : list mvcc_op) (rev : Z) (k lo hi : bytes)
  (Hs : store_ok s) (Hops : forallb (fun op => negb (is_compact op)) ops = true)
  (Hr : 0 < rev <= s_main_rev s) (Hl : blen (s_history (mvcc_run s ops)) < 2147483648) :
  cetcd_mvcc_get (mvcc_run s ops) rev k = cetcd_mvcc_get s rev k /\
  cetcd_mvcc_range (mvcc_run s ops) rev lo hi = cetcd_mvcc_range s rev lo hi.
Proof.
  destruct (run_ok ops s Hs) as [Hs' He]. destruct (He Hops) as (Ec & Em & l & Eh & Hnew & _).
  assert (Hl0 : blen (s_history s) < 2147483648).
  { rewrite Eh in Hl. unfold blen in *. rewrite length_app in Hl. lia. }
  assert (Hkey : keyspace (s_history (mvcc_run s ops)) rev = keyspace (s_history s) rev).
  { rewrite Eh. apply keyspace_later. eapply Forall_impl; [exact Hnew|]. cbn. lia. }
  destruct (Z.lt_ge_cases rev (s_compacted_rev s)) as [Hc|Hc].
  - unfold cetcd_mvcc_get, cetcd_mvcc_range. rewrite Ec.
    rewrite (proj2 (Z.ltb_lt 0 rev)), (proj2 (Z.ltb_lt 0 (s_compacted_rev s))), (proj2 (Z.ltb_lt rev _)) by lia. done.
  - rewrite !get_keyspace, !range_keyspace, Hkey by (done || lia). done.
Qed.

(** Put.  Either the backend refused the write, and nothing changed; or
    the store moved to the next revision, which is returned, the key reads as
    the new row (created and version 1, or the old creation revision and the
    version counted up), every other key reads as before, and the history
    grew by exactly the entry of that row.  Without a backend it succeeds. *)
Theorem mvcc_put_spec (s : store) (key val : bytes) (lease_id : Z) (Hs : store_ok s) :
  let '(s', r) := cetcd_mvcc_put s key val lease_id in
  (r = zero_rev /\ s_backend s = true /\ unchanged s s') \/
  (r = mk_rev (cetcd_mvcc_revision s + 1) 0 /\ cetcd_mvcc_revision s' = rev_main r /\
   s_history s' = s_history s ++ [put_entry (put_row s key val lease_id)] /\
   forall k, cetcd_mvcc_get s' 0 k =
     if decide (k = key) then (CETCD_OK, Some (put_row s key val lease_id)) else cetcd_mvcc_get s 0 k).
Proof.
  pose proof (put_cases s key val lease_id Hs) as Hc.
  assert (Hb : s_backend s = false -> (cetcd_mvcc_put s key val lease_id).2 <> zero_rev).
  { intros Hb. unfold cetcd_mvcc_put, persist_put_, with_backend. rewrite Hb. cbn [is_ok negb snd].
    intros [=]. pose proof (so_main_nonneg s Hs). lia. }
  destruct (cetcd_mvcc_put s key val lease_id) as [s' r].
  destruct Hc as [[-> Hu]|(-> & (Eh & Em & _ & _ & _ & _ & Ecur & _) & Hs')]; [left|right].
  { split_and!; try done. destruct (s_backend s); [done|]. by destruct (Hb eq_refl). }
  split_and!; try done.
  { unfold cetcd_mvcc_revision. rewrite Em. unfold put_entry, put_row. by destruct (current s !! key). }
  intros k. rewrite !get_current, Ecur by (apply Hs || apply Hs').
  assert (Hk : kv_key (put_row s key val lease_id) = key) by (unfold put_row; by destruct (current s !! key)).
  unfold apply_entry, put_entry. cbn [re_type re_key]. rewrite Hk.
  destruct (decide (k = key)) as [->|Hne]; [|by rewrite lookup_insert_ne].
  rewrite lookup_insert_eq. cbn. f_equal. f_equal. unfold kv_of_entry. cbn. rewrite <- Hk at 1. by destruct (put_row _ _ _ _).
Qed.

(** Delete.  Deleting an absent key does nothing and returns {0,0}.
    Deleting a live key either fails in the backend without effect, or moves
    the store to the next revision, appends exactly the key's tombstone to the
    history and removes that key only. *)
Theorem mvcc_delete_spec (s : store) (key : bytes) (Hs : store_ok s) :
  let '(s', r) := cetcd_mvcc_delete s key in
  match current s !! key with
  | None => s' = s /\ r = zero_rev
  | Some kv =>
      (r = zero_rev /\ unchanged s s') \/
      (r = mk_rev (cetcd_mvcc_revision s + 1) 0 /\ cetcd_mvcc_revision s' = rev_main r /\
       s_history s' = s_history s ++ [delete_entry kv r] /\
       forall k, cetcd_mvcc_get s' 0 k =
         if decide (k = key) then (CETCD_ERR_NOTFOUND, None) else cetcd_mvcc_get s 0 k)
  end.
Proof.
  unfold cetcd_mvcc_delete. destruct (current s !! key) as [kv|] eqn:Hk.
  2: { by rewrite delete_one_absent. }
  pose proof (delete_one_cases s key kv true None Hs Hk (next_rev_fresh s Hs)) as Hc.
  destruct (delete_one_ s key true None) as [s' r].
  destruct Hc as [(-> & _ & Hu)|(-> & (Eh & Em & _ & _ & _ & _ & Ecur & _) & Hs' & _)]; [by left|right].
  split_and!; try done. intros k. rewrite !get_current, Ecur by (apply Hs || apply Hs').
  unfold apply_entry. cbn [re_type re_key delete_entry]. rewrite (current_key s key kv Hk).
  destruct (decide (k = key)) as [->|Hne]; [by rewrite lookup_delete_eq|by rewrite lookup_delete_ne].
Qed.

(** Batch delete.  For distinct keys, either nothing changes (no key is
    live, or the backend refused the whole batch), or all live keys go at one
    new main revision: one tombstone per live key in batch order with
    sub-revisions 0, 1, 2, ...; the last one is returned and the other keys
    read as before. *)
Theorem mvcc_delete_keys_spec (s : store) (keys : list bytes) (Hs : store_ok s) (Hnd : NoDup keys) :
  let '(s', r) := cetcd_mvcc_delete_keys s keys in
  let batch := batch_keys s keys in
  let main := cetcd_mvcc_revision s + 1 in
  (r = zero_rev /\ unchanged s s') \/
  (batch <> [] /\ cetcd_mvcc_revision s' = main /\ r = mk_rev main (blen batch - 1) /\
   (exists t, s_history s' = s_history s ++ t /\ re_key <$> t = batch /\
      re_rev <$> t = mk_rev main <$> seqZ 0 (blen batch) /\ Forall (fun e => re_type e = CETCD_EVENT_DELETE) t) /\
   forall k, cetcd_mvcc_get s' 0 k =
     if decide (k ∈ batch) then (CETCD_ERR_NOTFOUND, None) else cetcd_mvcc_get s 0 k).
Proof.
  pose proof (delete_keys_cases s keys Hs) as Hc. destruct (cetcd_mvcc_delete_keys s keys) as [s' r]. cbv zeta in *.
  destruct Hc as [(_ & -> & ->)|[(_ & Hu & ->)|(Hne & Hs' & Eh & Em & -> & Ecur & _)]].
  { left. split; [done|]. split; [exists (s_env s); by destruct s|done]. }
  { by left. }
  right. pose proof (batch_keys_nodup s keys Hnd) as Hnb. split_and!; [done|done| | |].
  - rewrite batch_last_nodup; [done|done|apply batch_keys_live|done].
  - eexists. split; [exact Eh|]. apply tombstones_nodup; [done|apply batch_keys_live|apply current_key].
  - intros k. rewrite !get_current, Ecur, deletes_lookup by (apply Hs || apply Hs'). by case_decide.
Qed.

(** Compaction.  A compaction is refused without effect, or it moves the
    boundary to the given revision: current reads are unchanged, and at or
    after the boundary a key that was written at or after the boundary reads
    as before. *)
Theorem mvcc_compact_spec (s : store) (c : Z) (Hs : store_ok s) (Hl : blen (s_history s) < 2147483648) :
  let '(s', rc) := cetcd_mvcc_compact s c in
  (rc <> CETCD_OK /\ unchanged s s') \/
  (rc = CETCD_OK /\ s_compacted_rev s < c <= cetcd_mvcc_revision s /\
   cetcd_mvcc_compacted_revision s' = c /\ cetcd_mvcc_revision s' = cetcd_mvcc_revision s /\
   (forall k, cetcd_mvcc_get s' 0 k = cetcd_mvcc_get s 0 k) /\
   (forall rev k e, c <= rev -> e ∈ s_history s -> re_key e = k -> c <= rev_main (re_rev e) <= rev ->
      cetcd_mvcc_get s' rev k = cetcd_mvcc_get s rev k)).
Proof.
  pose proof (mvcc_compact_cases s c Hs) as Hc. destruct (cetcd_mvcc_compact s c) as [s' rc].
  destruct Hc as [|(-> & Hb & [env Es] & Hs')]; [by left|right]. pose proof (so_compact s Hs).
  split_and!; try (subst s'; done); [lia|unfold cetcd_mvcc_revision; lia|].
  intros rev k e Hr He Hk Hce.
  assert (Eh : s_history s' = kept c (s_history s)) by (by subst s').
  assert (Ec : s_compacted_rev s' = c) by (by subst s').
  assert (Hl' : blen (s_history s') < 2147483648).
  { rewrite Eh. unfold kept, blen in *.
    pose proof (List.filter_length_le (fun e => c <=? rev_main (re_rev e)) (s_history s)). lia. }
  rewrite !get_keyspace, Eh by (done || lia).
  by rewrite (keyspace_kept _ _ _ _ e) by (done || apply Hs).
Qed.

End Props.

(** ** Witnesses *)

(** Reads of the sample: key "a" at revisions 1 and 4, "b" before and after
    its deletion. *)
Example sample_reads :
  (kv_value <$> (cetcd_mvcc_get sample_store 1 [97]).2) = Some [1] /\
  (kv_value <$> (cetcd_mvcc_get sample_store 0 [97]).2) = Some [3] /\
  (cetcd_mvcc_get sample_store 2 [98]).1 = CETCD_OK /\
  (cetcd_mvcc_get sample_store 4 [98]).1 = CETCD_ERR_NOTFOUND /\
  (kv_key <$> (cetcd_mvcc_range sample_store 3 [97] [0]).2) = [[97]; [98]] /\
  cetcd_mvcc_revision sample_store = 4.
Proof. vm_compute. done. Qed.

Lemma mvcc_invariant_witness : store_ok sample_store.
Proof. rewrite sample_store_run. exact (mvcc_invariant (mk_mem_env ∅ []) ∅ sample_ops). Defined.

Lemma mvcc_reads_refine_witness :
  let s := mvcc_run empty_tstore (sample_ops ++ [OpCompact 3]) in let h := written empty_tstore (sample_ops ++ [OpCompact 3]) in
  blen h = 4 /\ s_compacted_rev s = 3 /\ blen (s_history s) = 2 /\ cetcd_mvcc_get s 3 [97] = read_result (keyspace h 3 !! [97]).
Proof.
  intros s h. split_and!; [vm_compute; reflexivity..|].
  pose proof (mvcc_reads_refine (mk_mem_env ∅ []) ∅ (sample_ops ++ [OpCompact 3]) 3) as H. cbv zeta in H. fold empty_tstore in H. fold s h in H.
  assert (E : (0 <? 3) && (3 <? s_compacted_rev s) = false) by (vm_compute; reflexivity). rewrite E in H. clear E.
  change (3 =? 0) with false in H. cbv iota in H.
  destruct H as (keys & Hk & Hkeys & _); [vm_compute; reflexivity|discriminate|].
  destruct (Hk [97] [] []) as [-> _]. f_equal. apply Hkeys. right.
  exists (mk_rentry [97] [3] (mk_rev 3 0) CETCD_EVENT_PUT 2 (mk_rev 1 0) 0).
  split; [apply (bool_decide_unpack _); vm_compute; reflexivity|]. split; [reflexivity|]. vm_compute. split; discriminate.
Defined.

Lemma mvcc_head_agrees_witness : cetcd_mvcc_get sample_store 4 [97] = cetcd_mvcc_get sample_store 0 [97].
Proof. apply (mvcc_head_agrees sample_store [97] [] []); [apply sample_store_ok|reflexivity..]. Defined.

Lemma mvcc_snapshot_stable_witness :
  cetcd_mvcc_get (mvcc_run sample_store [OpPut [98] [9] 0]) 3 [98] = cetcd_mvcc_get sample_store 3 [98] /\
  (cetcd_mvcc_get sample_store 3 [98]).1 = CETCD_OK.
Proof.
  split; [|reflexivity].
  apply (mvcc_snapshot_stable sample_store [OpPut [98] [9] 0] 3 [98] [] []);
    [apply sample_store_ok|reflexivity|split; [reflexivity|discriminate]|reflexivity].
Defined.

Lemma mvcc_put_spec_witness :
  (cetcd_mvcc_get (cetcd_mvcc_put sample_store [98] [9] 0).1 0 [98]).1 = CETCD_OK.
Proof.
  pose proof (mvcc_put_spec sample_store [98] [9] 0 sample_store_ok) as Hp.
  destruct (cetcd_mvcc_put sample_store [98] [9] 0) as [s' r] eqn:Hput.
  destruct Hp as [(Hr & _)|(_ & _ & _ & Hget)]; [|cbn [fst]; rewrite (Hget [98]); reflexivity].
  exfalso. apply (f_equal snd) in Hput. subst r. vm_compute in Hput. discriminate.
Defined.

Lemma mvcc_delete_spec_witness :
  (cetcd_mvcc_delete sample_store [98]) = (sample_store, zero_rev).
Proof.
  pose proof (mvcc_delete_spec sample_store [98] sample_store_ok) as Hd.
  destruct (cetcd_mvcc_delete sample_store [98]) as [s' r].
  destruct (current sample_store !! [98]) eqn:Hk; [vm_compute in Hk; discriminate|]. by destruct Hd as [-> ->].
Defined.

Lemma mvcc_delete_keys_spec_witness :
  let s := mvcc_run sample_store [OpPut [98] [9] 0] in
  (cetcd_mvcc_delete_keys s [[97]; [98]; [99]]).2 = mk_rev 6 1 /\
  cetcd_mvcc_get (cetcd_mvcc_delete_keys s [[97]; [98]; [99]]).1 0 [97] = (CETCD_ERR_NOTFOUND, None).
Proof.
  split; [reflexivity|]. set (s := mvcc_run sample_store [OpPut [98] [9] 0]).
  pose proof (mvcc_delete_keys_spec s [[97]; [98]; [99]]) as Hd.
  destruct (cetcd_mvcc_delete_keys s [[97]; [98]; [99]]) as [s' r] eqn:Hdel.
  destruct Hd as [(Hr & _)|(_ & _ & _ & _ & Hget)].
  - apply run_ok, sample_store_ok.
  - apply (bool_decide_unpack _). reflexivity.
  - exfalso. apply (f_equal snd) in Hdel. subst r. vm_compute in Hdel. discriminate.
  - cbn [fst]. rewrite (Hget [97]). reflexivity.
Defined.

Lemma mvcc_compact_spec_witness :
  let s' := (cetcd_mvcc_compact sample_store 3).1 in
  cetcd_mvcc_get s' 3 [97] = cetcd_mvcc_get sample_store 3 [97] /\
  (cetcd_mvcc_get s' 2 [97]).1 = CETCD_ERR_RANGE.
Proof.
  split; [|reflexivity].
  pose proof (mvcc_compact_spec sample_store 3 sample_store_ok eq_refl) as Hc.
  destruct (cetcd_mvcc_compact sample_store 3) as [s' rc] eqn:Hcom.
  destruct Hc as [(Hr & _)|(_ & _ & _ & _ & _ & Hget)].
  - exfalso. apply Hr. change rc with (s', rc).2. rewrite <- Hcom. vm_compute. reflexivity.
  - apply (Hget 3 [97] (mk_rentry [97] [3] (mk_rev 3 0) CETCD_EVENT_PUT 2 (mk_rev 1 0) 0));
      [discriminate| |reflexivity|split; discriminate].
    apply (bool_decide_unpack _). reflexivity.
Defined.

(** ** Behaviour at odds with the documentation *)

(** A compaction drops the only history entry of a key that was last written
    before the boundary: reading that key at the boundary, which mvcc.h says
    remains readable, then fails although the key exists. *)
Theorem compact_drops_live_key :
  let s := mvcc_run empty_tstore [OpPut [97] [1] 0; OpPut [98] [2] 0] in
  let s' := (cetcd_mvcc_compact s 2).1 in
  (cetcd_mvcc_get s 2 [97]).1 = CETCD_OK /\ (cetcd_mvcc_compact s 2).2 = CETCD_OK /\
  cetcd_mvcc_get s' 2 [97] = (CETCD_ERR_NOTFOUND, None) /\ (cetcd_mvcc_get s' 0 [97]).1 = CETCD_OK.
Proof. vm_compute. done. Qed.

(** A batch that names a live key twice deletes it and returns {0,0}, the
    value documented for a batch that deleted nothing. *)
Theorem delete_keys_duplicate_returns_zero :
  let s := mvcc_run empty_tstore [OpPut [97] [1] 0] in
  let '(s', r) := cetcd_mvcc_delete_keys s [[97]; [97]] in
  r = zero_rev /\ cetcd_mvcc_revision s' = 2 /\ cetcd_mvcc_get s' 0 [97] = (CETCD_ERR_NOTFOUND, None).
Proof. vm_compute. done. Qed.
