(* ===== verification/MvccWatch.v ===== *)
(** * Watching the MVCC store (src/mvcc/mvcc.c)

    What a streaming watcher receives: the replay of the history when it is
    created, then one event per matching write.  The main result is that the
    two agree: live delivery pushes exactly the event that a replay of the
    same history entry would. *)

From S2P Require Import Slice Hash KeyOrder Treap Hashmap Backend Mvcc MvccSnap MvccStore MvccProps Prelude.

#[local] Open Scope Z_scope.

(** ** Replay *)

Definition replay_wants (sw : cetcd_stream_watcher) (e : revision_entry) : bool :=
  negb (rev_main (re_rev e) <? sw_start_rev sw) && stream_watch_match sw (re_key e).

(** The events a replay of [h] after [older] produces. *)
Fixpoint replayed (sw : cetcd_stream_watcher) (older h : list revision_entry) : list cetcd_watch_event :=
  match h with
  | [] => []
  | e :: h =>
      (if replay_wants sw e then [replay_event sw older e] else []) ++ replayed sw (older ++ [e]) h
  end.

Lemma replayed_app sw older h h' : replayed sw older (h ++ h') = replayed sw older h ++ replayed sw (older ++ h) h'.
Proof.
  revert older. induction h as [|e h IH]; intros older; cbn; [by rewrite app_nil_r|].
  by rewrite IH, <- !app_assoc.
Qed.

Definition push_all (evs : list cetcd_watch_event) (wakes : Z) (c : cetcd_mvcc_watch_notify) : cetcd_mvcc_watch_notify :=
  mk_notify (n_queue c ++ evs) (n_has_wake_cb c) (n_wakes c + wakes).

Lemma notify_push_lookup ch n ev wake n' :
  notify_push ch n ev wake !! n' =
  if decide (n' = n)
  then push_all [ev] (match ch !! n with Some c => if wake && n_has_wake_cb c then 1 else 0 | None => 0 end) <$> ch !! n
  else ch !! n'.
Proof.
  unfold notify_push. destruct (decide (n' = n)) as [->|Hne]; [|by rewrite lookup_alter_ne].
  rewrite lookup_alter_eq. destruct (ch !! n) as [c|]; [|done]. cbn. unfold push_all. do 2 f_equal.
  destruct (wake && n_has_wake_cb c); lia.
Qed.

Lemma replay_loop_lookup sw older h ch c : ch !! sw_notify sw = Some c ->
  replay_loop sw older h ch !! sw_notify sw = Some (push_all (replayed sw older h) 0 c) /\
  forall n, n <> sw_notify sw -> replay_loop sw older h ch !! n = ch !! n.
Proof.
  revert older ch c. induction h as [|e h IH]; intros older ch c Hc; cbn [replay_loop replayed].
  { split; [|done]. rewrite Hc. unfold push_all. rewrite app_nil_r, Z.add_0_r. by destruct c. }
  unfold replay_wants. destruct (rev_main (re_rev e) <? sw_start_rev sw); cbn [negb andb app]; [by apply IH|].
  destruct (stream_watch_match sw (re_key e)); cbn [negb app]; [|by apply IH].
  destruct (IH (older ++ [e]) (notify_push ch (sw_notify sw) (replay_event sw older e) false)
    (push_all [replay_event sw older e] 0 c)) as [H1 H2].
  { rewrite notify_push_lookup, decide_True, Hc by done. done. }
  split.
  - rewrite H1. unfold push_all. cbn. by rewrite <- app_assoc, !Z.add_0_r.
  - intros n Hn. rewrite H2 by done. by rewrite notify_push_lookup, decide_False.
Qed.

(** The previous value a replay reports is the keyspace before the entry. *)
Lemma replay_prev_keyspace h rev k : Forall (fun e => rev_main (re_rev e) <= rev) h ->
  replay_prev (List.rev h) k = keyspace h rev !! k.
Proof.
  induction h as [|e h IH] using rev_ind; intros Hle; [done|].
  apply Forall_app in Hle as [Hle He]. inversion_clear He as [|? ? He' _].
  rewrite List.rev_app_distr. cbn [List.rev app replay_prev].
  rewrite <- negb_andb, key_eq_test, keyspace_lookup_snoc, (proj2 (Z.leb_le _ _) He'). cbn [andb].
  case_bool_decide; cbn [negb]; [done|by apply IH].
Qed.

Lemma replay_event_delete_value sw older e : (re_type e = CETCD_EVENT_DELETE -> re_value e = []) ->
  replay_event sw older e =
  entry_event e (if sw_want_prev_kv sw then replay_prev (List.rev older) (re_key e) else None).
Proof. intros Hv. unfold replay_event, entry_event, kv_of_entry. destruct (re_type e); [done|]. by rewrite Hv. Qed.

(** ** Sequences of writes *)

Section Watch.
  Context {T : Type -> Type} {E : Type} `{KeyIndexLaws T, BackendLaws E}.
  Local Notation store := (cetcd_mvcc_store T E).

(** Nothing a watcher sees changed. *)
Definition quiet (s s' : store) : Prop :=
  s_history s' = s_history s /\ current s' = current s /\ s_compacted_rev s' = s_compacted_rev s /\
  s_watchers s' = s_watchers s /\ s_stream_watchers s' = s_stream_watchers s /\
  s_channels s' = s_channels s /\ s_calls s' = s_calls s /\ s_backend s' = s_backend s.

Inductive writes : store -> list revision_entry -> store -> Prop :=
| writes_done s s' : store_ok s' -> quiet s s' -> writes s [] s'
| writes_step s s1 s' e l :
    store_ok s1 -> wrote s s1 e -> (re_type e = CETCD_EVENT_DELETE -> re_value e = []) ->
    writes s1 l s' -> writes s (e :: l) s'.

Lemma writes_quiet s s1 l s' : quiet s s1 -> writes s1 l s' -> writes s l s'.
Proof.
  intros (Q1 & Q2 & Q3 & Q4 & Q5 & Q6 & Q7 & Q8) Hw.
  inversion Hw as [? ? Hs' Hq|? s2 ? e l' Hs2 He Hv Hrest]; subst.
  - destruct Hq as (R1 & R2 & R3 & R4 & R5 & R6 & R7 & R8). constructor; [done|]. split_and!; congruence.
  - econstructor; [exact Hs2| |exact Hv|exact Hrest]. unfold wrote, notified in *.
    rewrite <- Q1, <- Q2, <- Q3, <- Q4, <- Q5, <- Q6, <- Q7, <- Q8. exact He.
Qed.

Lemma writes_app s l s1 l' s' : writes s l s1 -> writes s1 l' s' -> writes s (l ++ l') s'.
Proof.
  induction 1 as [s s1 Hs Hq|s s2 s1 e l Hs He Hv Hrest IH]; intros Hw; cbn.
  - by eapply writes_quiet.
  - econstructor; [done|exact He|done|by apply IH].
Qed.

Lemma unchanged_quiet s s' : unchanged s s' -> quiet s s'.
Proof. by intros [[env ->] _]. Qed.

Lemma writes_unchanged s s' : store_ok s -> unchanged s s' -> writes s [] s'.
Proof. intros Hs Hu. constructor; [by eapply unchanged_ok|by apply unchanged_quiet]. Qed.

Lemma delete_loop_writes keys s main i last : store_ok s -> fresh_rev s (mk_rev main i) ->
  exists l, writes s l (delete_loop s main i keys last).1.
Proof.
  revert s i last. induction keys as [|k keys IH]; intros s i last Hs Hf; cbn [delete_loop].
  { exists []. by constructor. }
  destruct (current s !! k) as [kv|] eqn:Hk.
  - pose proof (delete_one_cases s k kv false (Some (mk_rev main i)) Hs Hk Hf) as Hc.
    destruct (delete_one_ s k false (Some (mk_rev main i))) as [s1 r1].
    destruct Hc as [(_ & ? & _)|(-> & Hw & Hs1 & _)]; [done|]. cbn [delete_rev] in *.
    destruct (IH s1 (i + 1) (mk_rev main i) Hs1) as [l Hl].
    { destruct (fresh_rev_next _ _ _ Hf) as (Ha & Hb & Hc). destruct Hw as (Eh & Em & _).
      split_and!; [rewrite Em; cbn; lia|done|]. rewrite Eh. apply Forall_app. split; [exact Hc|].
      repeat constructor. apply rev_lt_iff. cbn. lia. }
    exists (delete_entry kv (mk_rev main i) :: l). by econstructor.
  - rewrite delete_one_absent by done. apply IH; [done|by apply fresh_rev_next].
Qed.

(** The operations that may write. *)
Definition is_write (op : mvcc_op) : bool :=
  match op with OpPut _ _ _ | OpDelete _ | OpDeleteKeys _ | OpAdvance _ => true | _ => false end.

Lemma step_writes s op : store_ok s -> is_write op = true -> exists l, writes s l (mvcc_step s op).
Proof.
  intros Hs. destruct op as [k v l|k|ks|r|r| | | | | | |]; cbn [is_write mvcc_step]; try done; intros _.
  - pose proof (put_cases s k v l Hs) as Hc. destruct (cetcd_mvcc_put s k v l) as [s' r].
    destruct Hc as [[_ Hu]|(_ & Hw & Hs')]; [exists []; by apply writes_unchanged|].
    exists [put_entry (put_row s k v l)]. econstructor; [done|exact Hw|done|by constructor].
  - unfold cetcd_mvcc_delete. destruct (current s !! k) as [kv|] eqn:Hk.
    2: { rewrite delete_one_absent by done. exists []. by constructor. }
    pose proof (delete_one_cases s k kv true None Hs Hk (next_rev_fresh s Hs)) as Hc.
    destruct (delete_one_ s k true None) as [s' r].
    destruct Hc as [(_ & _ & Hu)|(_ & Hw & Hs' & _)]; [exists []; by apply writes_unchanged|].
    eexists. econstructor; [done|exact Hw|done|by constructor].
  - destruct (delete_keys_shape s ks Hs) as [[_ ->]|[(_ & Hu & _)|(_ & env & ->)]].
    + exists []. by constructor.
    + exists []. by apply writes_unchanged.
    + assert (Hs1 : store_ok (s <| s_env := env |>)) by (by eapply store_ok_ext).
      destruct (delete_loop_writes (batch_keys s ks) _ (s_main_rev s + 1) 0 zero_rev Hs1 (next_rev_fresh _ Hs1)) as [l Hl].
      exists l. by eapply writes_quiet; [|exact Hl].
  - pose proof (advance_cases s r Hs) as Hc. destruct (cetcd_mvcc_advance_revision s r) as [s' rc]. exists [].
    destruct Hc as [[_ Hu]|(_ & _ & _ & [env ->] & Hs')]; [by apply writes_unchanged|by constructor].
Qed.

Lemma run_writes ops s : store_ok s -> forallb is_write ops = true -> exists l, writes s l (mvcc_run s ops).
Proof.
  revert s. induction ops as [|op ops IH]; intros s Hs; [exists []; by constructor|].
  cbn [forallb mvcc_run foldl]. intros [Hop Hops]%andb_true_iff.
  destruct (step_writes s op Hs Hop) as [l Hl]. destruct (IH (mvcc_step s op)) as [l' Hl']; [by apply step_ok|done|].
  exists (l ++ l'). by eapply writes_app.
Qed.

Lemma writes_history s l s' : writes s l s' -> s_history s' = s_history s ++ l.
Proof.
  induction 1 as [s s' Hs (Q1 & _)|s s1 s' e l Hs He Hv Hrest IH]; [by rewrite app_nil_r|].
  rewrite IH, (proj1 He). by rewrite <- app_assoc.
Qed.

(** ** Live delivery *)

(** Pushing an event to a list of watchers of which only [sw] uses its
    channel. *)
Lemma push_streams_lookup ev sws sw ch c : List.filter (fun w => sw_notify w =? sw_notify sw) sws = [sw] ->
  ch !! sw_notify sw = Some c ->
  foldl (push_stream ev) ch sws !! sw_notify sw =
  Some (if stream_wants (ev_rev ev) (kv_key (ev_kv ev)) sw
        then push_all [if sw_want_prev_kv sw then ev else mk_event (ev_type ev) (ev_kv ev) (ev_rev ev) None]
               (if n_has_wake_cb c then 1 else 0) c
        else c).
Proof.
  intros Hf. assert (Hother : forall l ch, List.filter (fun w => sw_notify w =? sw_notify sw) l = [] ->
    foldl (push_stream ev) ch l !! sw_notify sw = ch !! sw_notify sw).
  { clear. induction l as [|w l IH]; intros ch Hl; [done|]. cbn in Hl. destruct (Z.eqb_spec (sw_notify w) (sw_notify sw)) as [|Hne]; [done|].
    cbn. rewrite IH by done. unfold push_stream. destruct (stream_wants _ _ _); [|done].
    by rewrite notify_push_lookup, decide_False. }
  revert ch. induction sws as [|w sws IH]; intros ch Hc; [done|]. cbn in Hf |- *.
  destruct (Z.eqb_spec (sw_notify w) (sw_notify sw)) as [He|Hne].
  - injection Hf as -> Hf. rewrite Hother by done. unfold push_stream. destruct (stream_wants _ _ sw); [|done].
    rewrite notify_push_lookup, decide_True by done. rewrite Hc. done.
  - rewrite IH; [done|done|]. unfold push_stream. destruct (stream_wants _ _ w); [|exact Hc].
    by rewrite notify_push_lookup, decide_False.
Qed.

Definition sole_watcher (s : store) (sw : cetcd_stream_watcher) : Prop :=
  List.filter (fun w => sw_notify w =? sw_notify sw) (s_stream_watchers s) = [sw].

(** Live delivery pushes what a replay of the same entries would. *)
Lemma live_is_replay s l s' sw c : writes s l s' -> store_ok s -> s_compacted_rev s = 0 ->
  sole_watcher s sw -> s_channels s !! sw_notify sw = Some c ->
  s_channels s' !! sw_notify sw =
  Some (push_all (replayed sw (s_history s) l)
          (if n_has_wake_cb c then blen (replayed sw (s_history s) l) else 0) c).
Proof.
  intros Hw. revert c. induction Hw as [s s' Hs' Hq|s s1 s' e l Hs1 He Hv Hrest IH]; intros c Hs Hcomp Hsole Hc.
  { destruct Hq as (_ & _ & _ & _ & _ & -> & _). rewrite Hc. unfold push_all, blen. cbn [replayed length].
    rewrite app_nil_r. destruct c as [q [] k]; cbn; by rewrite Z.add_0_r. }
  destruct He as (Eh & Em & Ec & _ & _ & Esw & Ecur & Hch & _).
  set (ev := entry_event e (current s !! re_key e)) in *.
  assert (Hc1 := push_streams_lookup ev _ sw _ c Hsole Hc). rewrite <- Hch in Hc1.
  assert (Hprev : current s !! re_key e = replay_prev (List.rev (s_history s)) (re_key e)).
  { rewrite current_keyspace by done. symmetry. apply replay_prev_keyspace. by apply so_le. }
  assert (Hwant : stream_wants (ev_rev ev) (kv_key (ev_kv ev)) sw = replay_wants sw e).
  { unfold stream_wants, replay_wants, ev. cbn. f_equal. f_equal.
    destruct (Z.ltb_spec 0 (sw_start_rev sw)) as [|Hz]; [done|]. cbn [andb]. symmetry. apply Z.ltb_ge.
    pose proof (so_bounds _ Hs1) as Hb. rewrite Eh, Forall_app in Hb. destruct Hb as [_ Hb].
    inversion_clear Hb as [|? ? [Hb' _] _]. lia. }
  assert (Hev : (if sw_want_prev_kv sw then ev else mk_event (ev_type ev) (ev_kv ev) (ev_rev ev) None) =
    replay_event sw (s_history s) e).
  { rewrite replay_event_delete_value by done. rewrite <- Hprev. unfold ev. by destruct (sw_want_prev_kv sw). }
  rewrite Hwant, Hev in Hc1.
  assert (Hsole1 : sole_watcher s1 sw) by (unfold sole_watcher; by rewrite Esw).
  rewrite (IH _ Hs1 (eq_trans Ec Hcomp) Hsole1 Hc1).
  rewrite Eh. cbn [replayed]. unfold blen. rewrite length_app. unfold push_all.
  destruct (replay_wants sw e); cbn [app length n_queue n_has_wake_cb n_wakes]; [|done].
  do 2 f_equal; [by rewrite <- app_assoc|]. destruct (n_has_wake_cb c); lia.
Qed.

(** ** Removing a watcher *)

Lemma swap_remove_spec {A} (ptr : A -> Z) (w : Z) (l : list A) : NoDup (ptr <$> l) ->
  swap_remove ptr w l ≡ₚ List.filter (fun x => negb (ptr x =? w)) l.
Proof.
  intros Hnd. unfold swap_remove. destruct (list_find (fun x => ptr x = w) l) as [[i x]|] eqn:Hf.
  - apply list_find_Some in Hf as (Hi & Hx & _). pose proof (lookup_lt_Some _ _ _ Hi) as Hlt.
    destruct (last l) as [y|] eqn:Hy; [|apply last_None in Hy; by subst l].
    apply last_Some in Hy as [l' ->]. rewrite length_app in *. cbn in *.
    replace (length l' + 1 - 1)%nat with (length l') by lia.
    assert (Hothers : forall k, Forall (fun z => ptr z <> w) k ->
      List.filter (fun x => negb (ptr x =? w)) k = k).
    { clear. induction 1 as [|z k Hz Hk IH]; cbn; [done|]. rewrite (proj2 (Z.eqb_neq _ _) Hz). cbn. by rewrite IH. }
    rewrite List.filter_app. cbn [List.filter]. rewrite fmap_app, NoDup_app in Hnd. destruct Hnd as (Hnd & Hdis & _).
    destruct (decide (i < length l')%nat) as [Hil|Hil].
    + rewrite lookup_app_l in Hi by done. rewrite insert_app_l by done.
      rewrite take_app_length' by (by rewrite length_insert).
      assert (Hyw : ptr y <> w).
      { intros Hyw. apply (Hdis w); [|set_solver]. rewrite <- Hx. apply list_elem_of_fmap_2, list_elem_of_lookup_2 with i. done. }
      rewrite (proj2 (Z.eqb_neq _ _) Hyw). cbn [negb].
      rewrite <- (take_drop_middle _ _ _ Hi) in Hnd |- * at 2. rewrite insert_take_drop by done.
      rewrite List.filter_app. cbn [List.filter]. rewrite Hx, Z.eqb_refl. cbn [negb].
      rewrite fmap_app, fmap_cons, NoDup_app in Hnd. destruct Hnd as (N1 & N2 & N3). apply NoDup_cons in N3 as [N3 _].
      rewrite !Hothers.
      * rewrite <- app_assoc. apply Permutation_app_head. by rewrite Permutation_cons_append.
      * apply Forall_forall. intros z Hz Hzw. apply N3. rewrite Hx, <- Hzw. by apply list_elem_of_fmap_2.
      * apply Forall_forall. intros z Hz Hzw. apply (N2 w); [rewrite <- Hzw; by apply list_elem_of_fmap_2|]. rewrite Hx. set_solver.
    + assert (i = length l') as -> by lia. rewrite lookup_app_r, Nat.sub_diag in Hi by lia. injection Hi as ->.
      rewrite Hx, Z.eqb_refl. cbn [negb]. rewrite app_nil_r, Hothers.
      * rewrite insert_app_r_alt, Nat.sub_diag by lia. cbn. by rewrite take_app_length.
      * apply Forall_forall. intros z Hz Hzw. apply (Hdis w); [rewrite <- Hzw; by apply list_elem_of_fmap_2|].
        cbn. rewrite Hx. set_solver.
  - apply list_find_None in Hf. clear Hnd. induction Hf as [|x l Hx Hl IH]; cbn; [done|].
    rewrite (proj2 (Z.eqb_neq _ _) Hx). cbn. by rewrite <- IH.
Qed.

(** Complete and ordered watch streams.  In a store without compactions, a
    watcher that subscribes at a positive start revision on a channel of its
    own and replays the history has, after any further writes, exactly the
    events of the history entries at or after its start revision that match
    its key range: each once, in revision order, with the previous value the
    replay would compute, and one wake-up per live event. *)
Theorem watch_stream_complete (s : store) (ptr wid : Z) (key range_end : bytes) (start : Z) (prev : bool) (n : Z)
    (c : cetcd_mvcc_watch_notify) (ops : list mvcc_op)
  (Hs : store_ok s) (Hcomp : s_compacted_rev s = 0) (Hstart : 0 < start)
  (Hown : Forall (fun w => sw_notify w <> n) (s_stream_watchers s)) (Hc : s_channels s !! n = Some c)
  (Hops : forallb is_write ops = true) :
  exists sw, last (s_stream_watchers (cetcd_mvcc_watch_subscribe s ptr wid key range_end start prev n)) = Some sw /\
  let s2 := cetcd_mvcc_watch_replay (cetcd_mvcc_watch_subscribe s ptr wid key range_end start prev n) sw in
  let s3 := mvcc_run s2 ops in
  exists c', s_channels s3 !! n = Some c' /\
    n_queue c' = n_queue c ++ replayed sw [] (s_history s3) /\
    n_wakes c' = n_wakes c +
      (if n_has_wake_cb c then blen (replayed sw [] (s_history s3)) - blen (replayed sw [] (s_history s)) else 0).
Proof.
  unfold cetcd_mvcc_watch_subscribe. set (sw := if 0 <? blen range_end then _ else _).
  exists sw. cbn [s_stream_watchers field_set]. split; [apply last_snoc|]. cbv zeta.
  assert (Hsw : sw_notify sw = n /\ sw_start_rev sw = start) by (unfold sw; guards; done).
  destruct Hsw as [Hn Hst]. unfold cetcd_mvcc_watch_replay. rewrite (proj2 (Z.leb_gt _ _)) by lia.
  set (s2 := _ <| s_channels := _ |>).
  assert (Hs2 : store_ok s2) by (by eapply store_ok_ext).
  destruct (replay_loop_lookup sw [] (s_history s) (s_channels s) c) as [Hr _]; [by rewrite Hn|].
  assert (Hsole : sole_watcher s2 sw).
  { unfold sole_watcher, s2. cbn. rewrite List.filter_app. cbn [List.filter]. rewrite Z.eqb_refl, Hn.
    replace (List.filter _ (s_stream_watchers s)) with (@nil cetcd_stream_watcher); [done|].
    clear -Hown. induction Hown as [|w l Hw Hl IH]; cbn; [done|]. by rewrite (proj2 (Z.eqb_neq _ _) Hw). }
  destruct (run_writes ops s2 Hs2 Hops) as [l Hw].
  pose proof (live_is_replay s2 l _ sw _ Hw Hs2 Hcomp Hsole Hr) as Hl. rewrite Hn in Hl.
  eexists. split; [exact Hl|]. rewrite (writes_history _ _ _ Hw). change (s_history s2) with (s_history s).
  rewrite replayed_app. unfold push_all, blen. cbn [n_queue n_has_wake_cb n_wakes app].
  rewrite length_app, <- app_assoc. split; [done|]. destruct (n_has_wake_cb c); lia.
Qed.

(** Cancelling.  Removing a watcher by its handle removes that watcher and
    no other, for callback and for streaming watchers; the store is otherwise
    unchanged. *)
Theorem watch_cancel_spec (s : store) (w : Z)
  (Hcw : NoDup (cw_ptr <$> s_watchers s)) (Hsw : NoDup (sw_ptr <$> s_stream_watchers s)) :
  s_watchers (cetcd_mvcc_watch_cancel s w) ≡ₚ List.filter (fun x => negb (cw_ptr x =? w)) (s_watchers s) /\
  s_stream_watchers (cetcd_mvcc_watch_unsubscribe s w) ≡ₚ
    List.filter (fun x => negb (sw_ptr x =? w)) (s_stream_watchers s) /\
  s_stream_watchers (cetcd_mvcc_watch_cancel s w) = s_stream_watchers s /\
  s_watchers (cetcd_mvcc_watch_unsubscribe s w) = s_watchers s.
Proof. split_and!; [by apply swap_remove_spec|by apply swap_remove_spec|done|done]. Qed.

End Watch.

Definition watched_store : tstore :=
  sample_store <| s_channels := cetcd_mvcc_watch_notify_init ∅ 5 true |>.

Lemma watch_stream_complete_witness :
  exists sw, let s1 := cetcd_mvcc_watch_subscribe watched_store 1 1 [97] [0] 2 true 5 in
  last (s_stream_watchers s1) = Some sw /\
  exists c', s_channels (mvcc_run (cetcd_mvcc_watch_replay s1 sw) [OpPut [99] [8] 0]) !! 5 = Some c' /\
    n_wakes c' = 0 + 1 * (blen (replayed sw [] (s_history (mvcc_run (cetcd_mvcc_watch_replay s1 sw) [OpPut [99] [8] 0]))) -
                          blen (replayed sw [] (s_history watched_store))).
Proof.
  destruct (watch_stream_complete watched_store 1 1 [97] [0] 2 true 5 (mk_notify [] true 0) [OpPut [99] [8] 0])
    as (sw & Hl & c' & Hc & _ & Hw); try reflexivity.
  - eapply store_ok_ext; [apply sample_store_ok|reflexivity..].
  - constructor.
  - exists sw. split; [exact Hl|]. exists c'. split; [exact Hc|]. rewrite Hw. cbn [n_wakes n_has_wake_cb]. lia.
Defined.

Lemma watch_cancel_spec_witness :
  let s := cetcd_mvcc_watch (cetcd_mvcc_watch sample_store 1 [97] 0 10) 2 [98] 0 20 in
  s_watchers (cetcd_mvcc_watch_cancel s 1) ≡ₚ [mk_watcher 2 [98] false 0 20].
Proof.
  apply (watch_cancel_spec (cetcd_mvcc_watch (cetcd_mvcc_watch sample_store 1 [97] 0 10) 2 [98] 0 20) 1).
  - apply (bool_decide_unpack _). reflexivity.
  - constructor.
Defined.
