(* ===== verification/MvccLoad.v ===== *)
(** * Persistence of the MVCC store (src/mvcc/mvcc.c)

    Every write of an attached store first updates the backend.  The mirror
    invariant says what the backend then holds: the serialised current
    generation of every key, the revision and the compaction boundary.
    [cetcd_mvcc_load] rebuilds from it a store with the same current keyspace. *)

From S2P Require Import Slice Hash KeyOrder Treap Hashmap Backend Mvcc MvccSnap MvccStore MvccProps Prelude.

#[local] Open Scope Z_scope.

(** ** Serialised integers and generations *)

Lemma write_le64_length z : length (write_le64_ z) = 8%nat.
Proof. apply le_put_length. Qed.

Lemma read_le64_here z rest : in_i64 z -> i64 (read_le64_ (write_le64_ z ++ rest) 0) = z.
Proof.
  intros Hz. unfold read_le64_. rewrite drop_0, take_app_length' by (by rewrite write_le64_length). unfold write_le64_.
  rewrite le_get_put by (unfold u64; apply Z.mod_pos_bound; lia). by apply u64_of_i64.
Qed.

Lemma read_le64_skip z rest off : read_le64_ (write_le64_ z ++ rest) (8 + off) = read_le64_ rest off.
Proof.
  unfold read_le64_. rewrite <- drop_drop, (drop_app_length' (write_le64_ z)); [done|].
  by rewrite write_le64_length.
Qed.

Definition rev_fits (r : cetcd_revision) : Prop := in_i64 (rev_main r) /\ in_i64 (rev_sub r).

Definition row_fits (kv : cetcd_kv) : Prop :=
  rev_fits (kv_create_rev kv) /\ rev_fits (kv_mod_rev kv) /\ in_i64 (kv_version kv) /\ in_i64 (kv_lease_id kv).

(** The generation of a row. *)
Definition kg_of_kv (kv : cetcd_kv) : key_generation :=
  mk_kg (kv_create_rev kv) (kv_version kv) (kv_mod_rev kv) (kv_value kv) false (kv_lease_id kv).

Definition row_blob (kv : cetcd_kv) : bytes := encode_kg_ (kg_of_kv kv).

Lemma decode_row kv : row_fits kv -> decode_kg_ (row_blob kv) = Some (kg_of_kv kv).
Proof.
  destruct kv as [k v [c1 c2] [m1 m2] ver l]. intros ([C1 C2] & [M1 M2] & Hv & Hl).
  cbn [rev_main rev_sub kv_create_rev kv_mod_rev kv_version kv_lease_id] in *.
  unfold decode_kg_, row_blob, encode_kg_.
  cbn [kg_of_kv kg_create_rev kg_version kg_mod_rev kg_value kg_lease_id kv_create_rev kv_mod_rev kv_version
       kv_lease_id kv_value rev_main rev_sub].
  rewrite (proj2 (Z.ltb_ge _ _)) by (unfold blen; rewrite !length_app, !write_le64_length; lia).
  unfold kg_of_kv. cbn [kv_create_rev kv_mod_rev kv_version kv_lease_id kv_value]. f_equal. f_equal.
  - f_equal; [by apply read_le64_here|]. rewrite (read_le64_skip _ _ 0). by apply read_le64_here.
  - rewrite (read_le64_skip _ _ 24), (read_le64_skip _ _ 16), (read_le64_skip _ _ 8), (read_le64_skip _ _ 0).
    by apply read_le64_here.
  - f_equal.
    + rewrite (read_le64_skip _ _ 8), (read_le64_skip _ _ 0). by apply read_le64_here.
    + rewrite (read_le64_skip _ _ 16), (read_le64_skip _ _ 8), (read_le64_skip _ _ 0). by apply read_le64_here.
  - rewrite (read_le64_skip _ _ 32), (read_le64_skip _ _ 24), (read_le64_skip _ _ 16), (read_le64_skip _ _ 8), (read_le64_skip _ _ 0).
    by apply read_le64_here.
Qed.

(** ** The mirror *)

Section Mirror.
  Context {T : Type -> Type} {E : Type} `{KeyIndexLaws T, BackendLaws E}.
  Local Notation store := (cetcd_mvcc_store T E).

(** A counter of the meta bucket: absent while it is 0. *)
Definition meta_holds (v : view) (key : bytes) (z : Z) : Prop :=
  v MVCC_BUCKET_META !! key = Some (write_le64_ z) \/ (v MVCC_BUCKET_META !! key = None /\ z = 0).

Record mirrors (v : view) (rows : gmap bytes cetcd_kv) (rev compacted : Z) : Prop := {
  mi_rows : v MVCC_BUCKET_KEY = row_blob <$> rows;
  mi_rev : meta_holds v MVCC_META_REV rev;
  mi_comp : meta_holds v MVCC_META_COMPACTED compacted
}.

Definition mirrored (s : store) : Prop :=
  s_backend s = true /\ mirrors (be_view (s_env s)) (current s) (s_main_rev s) (s_compacted_rev s).

Lemma mirrors_ext v w rows rev c : v ≡v w -> mirrors v rows rev c -> mirrors w rows rev c.
Proof. intros Hv [M1 M2 M3]. unfold meta_holds in *. split; unfold meta_holds; by rewrite <- !Hv. Qed.

Lemma mirrors_key f v rows rows' rev c : mirrors v rows rev c ->
  f (row_blob <$> rows) = row_blob <$> rows' -> mirrors (view_alter f MVCC_BUCKET_KEY v) rows' rev c.
Proof.
  intros [M1 M2 M3] Hf. unfold meta_holds in *. split; unfold meta_holds, view_alter.
  - rewrite decide_True, M1 by done. exact Hf.
  - by rewrite decide_False.
  - by rewrite decide_False.
Qed.

Lemma mirrors_rev v rows rev rev' c : mirrors v rows rev c ->
  mirrors (view_alter <[MVCC_META_REV := write_le64_ rev']> MVCC_BUCKET_META v) rows rev' c.
Proof.
  intros [M1 M2 M3]. unfold meta_holds in *. split; unfold meta_holds, view_alter.
  - by rewrite decide_False.
  - left. by rewrite decide_True, lookup_insert_eq.
  - rewrite decide_True, lookup_insert_ne by done. done.
Qed.

Lemma mirrors_comp v rows rev c c' : mirrors v rows rev c ->
  mirrors (view_alter <[MVCC_META_COMPACTED := write_le64_ c']> MVCC_BUCKET_META v) rows rev c'.
Proof.
  intros [M1 M2 M3]. unfold meta_holds in *. split; unfold meta_holds, view_alter.
  - by rewrite decide_False.
  - rewrite decide_True, lookup_insert_ne by done. done.
  - left. by rewrite decide_True, lookup_insert_eq.
Qed.

Lemma mirrored_unchanged s s' : mirrored s -> unchanged s s' -> mirrored s'.
Proof.
  intros [Hb Hm] [[env ->] Hv]. split; [done|]. by eapply mirrors_ext; [symmetry; exact Hv|].
Qed.

(** The environment after a successful call of the backend. *)
Lemma with_backend_ok (s s' : store) call rc : s_backend s = true ->
  with_backend s call = (s', rc) -> s_env s' = (call (s_env s)).1 /\ rc = (call (s_env s)).2.
Proof. unfold with_backend. intros ->. destruct (call (s_env s)) as [env rc']. by intros [= <- <-]. Qed.

Lemma if_ok_view_true (b : bool) (v w x : view) : x ≡v (if b then v else w) -> b = true -> x ≡v v.
Proof. by intros Hx ->. Qed.

Lemma put_mirrored s k v l : store_ok s -> mirrored s -> mirrored (cetcd_mvcc_put s k v l).1.
Proof.
  intros Hs Hm. pose proof (put_cases s k v l Hs) as Hc.
  destruct (cetcd_mvcc_put s k v l) as [s' r] eqn:Hput. cbn [fst].
  destruct Hc as [[_ Hu]|(Hr & (_ & Em & Ec & Eb & _ & _ & Ecur & _) & _)]; [by eapply mirrored_unchanged|].
  destruct Hm as [Hb Hm]. split; [congruence|]. rewrite Em, Ec, Ecur.
  set (row := put_row s k v l) in *.
  assert (Hrow : kv_key row = k /\ kv_mod_rev row = mk_rev (s_main_rev s + 1) 0)
    by (unfold row, put_row; by destruct (current s !! k)).
  destruct Hrow as [Hkey Hmod]. cbn [put_entry re_rev]. rewrite Hmod. cbn [rev_main].
  unfold cetcd_mvcc_put in Hput. rewrite ki_get_map in Hput by apply Hs.
  set (kg := put_generation _ _ v l) in *.
  assert (Hblob : encode_kg_ kg = row_blob row).
  { unfold row_blob. f_equal. unfold kg, kg_of_kv, row, put_row. rewrite kg_of_current by done.
    by destruct (ki_map (s_index s) !! k). }
  destruct (persist_put_ s k kg (s_main_rev s + 1)) as [s1 rc] eqn:Hp.
  apply (with_backend_ok _ _ _ _ Hb) in Hp as [He Hrc].
  destruct (is_ok rc) eqn:Hok; cbn [negb] in Hput; [|injection Hput as <- <-; pose proof (so_main_nonneg s Hs); discriminate Hr || (injection Hr; lia)].
  injection Hput as <- _. cbn [s_env field_set]. unfold push_history, mvcc_notify_watchers.
  cbn [s_env field_set store_eta]. rewrite He. rewrite Hrc in Hok.
  eapply mirrors_ext; [symmetry; eapply if_ok_view_true; [apply be_put2_spec|exact Hok]|].
  eapply mirrors_rev, mirrors_key; [exact Hm|]. rewrite Hblob. unfold apply_entry, put_entry. cbn.
  rewrite Hkey. rewrite fmap_insert. done.
Qed.

Lemma delete_mirrored s k : store_ok s -> mirrored s -> mirrored (cetcd_mvcc_delete s k).1.
Proof.
  intros Hs Hm. unfold cetcd_mvcc_delete. destruct (current s !! k) as [kv|] eqn:Hk.
  2: { by rewrite delete_one_absent. }
  pose proof (delete_one_cases s k kv true None Hs Hk (next_rev_fresh s Hs)) as Hc.
  destruct (delete_one_ s k true None) as [s' r] eqn:Hdel. cbn [fst].
  destruct Hc as [(_ & _ & Hu)|(Hr & (_ & Em & Ec & Eb & _ & _ & Ecur & _) & _)]; [by eapply mirrored_unchanged|].
  destruct Hm as [Hb Hm]. split; [congruence|]. rewrite Em, Ec, Ecur, Hr. cbn [delete_entry re_rev delete_rev rev_main].
  pose proof (current_key s k kv Hk) as Hkey.
  unfold delete_one_ in Hdel. rewrite ki_get_map in Hdel by apply Hs. rewrite kg_of_current in Hk by done.
  destruct (ki_map (s_index s) !! k) as [kg|] eqn:Hkg; [|done]. rewrite (proj1 (so_live _ Hs _ _ Hkg)) in Hdel.
  cbv zeta in Hdel. cbn [rev_main] in Hdel.
  destruct (persist_del_ s k (s_main_rev s + 1)) as [s1 rc] eqn:Hp.
  apply (with_backend_ok _ _ _ _ Hb) in Hp as [He Hrc].
  destruct (is_ok rc) eqn:Hok; cbn [negb] in Hdel.
  2: { injection Hdel as <- <-. pose proof (so_main_nonneg s Hs). cbn in Hr. injection Hr. lia. }
  injection Hdel as <- _. unfold push_history, mvcc_notify_watchers.
  assert (Henv : forall x : store, s_env (if s_main_rev s1 <? s_main_rev s + 1 then x <| s_main_rev := s_main_rev s + 1 |> else x) = s_env x)
    by (intros; by destruct (_ <? _)).
  cbn [s_env field_set store_eta]. rewrite Henv, He. rewrite Hrc in Hok.
  eapply mirrors_ext; [symmetry; eapply if_ok_view_true; [apply be_put2_spec|exact Hok]|].
  eapply mirrors_rev, mirrors_key; [exact Hm|]. unfold apply_entry. cbn. rewrite Hkey. by rewrite fmap_delete.
Qed.

Lemma delete_keys_fmap ks rows : Forall (fun k : bytes => blen k <> 0) ks ->
  delete_keys ks (row_blob <$> rows) = row_blob <$> foldl (fun m k => delete k m) rows ks.
Proof.
  intros Hks. revert rows. induction Hks as [|k ks Hk Hks IH]; intros rows; [done|].
  rewrite delete_keys_cons, (proj2 (Z.eqb_neq _ _) Hk), <- fmap_delete. apply IH.
Qed.

Lemma delete_keys_mirrored s ks : store_ok s -> mirrored s -> mirrored (cetcd_mvcc_delete_keys s ks).1.
Proof.
  intros Hs Hm. pose proof (delete_keys_cases s ks Hs) as Hc.
  destruct (cetcd_mvcc_delete_keys s ks) as [s' r] eqn:Hdel. cbv zeta in Hc. cbn [fst].
  destruct Hc as [(_ & -> & _)|[(_ & Hu & _)|(Hne & _ & Eh & Em & Er & Ecur & Ec & Eb & _)]];
    [done|by eapply mirrored_unchanged|].
  destruct Hm as [Hb Hm]. split; [congruence|]. rewrite Em, Ec, Ecur.
  unfold cetcd_mvcc_delete_keys in Hdel. rewrite live_keys in Hdel by done.
  assert (Hlen : blen ks <> 0 /\ blen (batch_keys s ks) <> 0).
  { split; intros Hz; apply Hne; [|unfold blen in Hz; by destruct (batch_keys s ks)].
    assert (ks = []) as -> by (unfold blen in Hz; by destruct ks). done. }
  destruct Hlen as [Hl1 Hl2]. rewrite (proj2 (Z.eqb_neq _ _) Hl1), (proj2 (Z.eqb_neq _ _) Hl2) in Hdel.
  destruct (with_backend s _) as [s1 rc] eqn:Hp.
  assert (Hs1 : exists env, s1 = s <| s_env := env |>).
  { unfold with_backend in Hp. rewrite Hb in Hp. destruct (be_del_n _ _ _ _ _ _) as [env rc'].
    injection Hp as <- _. by exists env. }
  destruct Hs1 as [env ->]. apply (with_backend_ok _ _ _ _ Hb) in Hp as [He Hrc]. cbn [s_env field_set] in He.
  destruct (is_ok rc) eqn:Hok; cbn [negb] in Hdel.
  2: { injection Hdel as <- _. cbn in Em. lia. }
  assert (Hok1 : store_ok (s <| s_env := env |>)) by (by eapply store_ok_ext).
  pose proof (delete_loop_spec (batch_keys s ks) _ (s_main_rev s + 1) 0 zero_rev Hok1 (next_rev_fresh _ Hok1)) as Hl.
  rewrite Hdel in Hl. destruct Hl as (_ & _ & _ & _ & _ & _ & _ & Ee & _). rewrite Ee. cbn [s_env field_set].
  rewrite He. rewrite Hrc in Hok.
  eapply mirrors_ext; [symmetry; eapply if_ok_view_true; [apply be_del_n_spec|exact Hok]|].
  eapply mirrors_rev, mirrors_key; [exact Hm|]. apply delete_keys_fmap.
  apply Forall_forall. intros k [_ [Hk%negb_true_iff _]%andb_true_iff]%elem_of_bool_filter. by apply Z.eqb_neq.
Qed.

Lemma advance_mirrored s r : store_ok s -> mirrored s -> mirrored (cetcd_mvcc_advance_revision s r).1.
Proof.
  intros Hs Hm. pose proof Hm as [Hb Hm']. unfold cetcd_mvcc_advance_revision.
  destruct (r <? 1); [done|]. destruct (r <? s_main_rev s); [done|]. destruct (r =? s_main_rev s); [done|].
  unfold with_backend. rewrite Hb.
  pose proof (be_put_spec (s_env s) MVCC_BUCKET_META MVCC_META_REV (write_le64_ r)) as Hv.
  destruct (be_put _ _ _ _) as [env rc]. cbn [fst snd] in Hv. destruct (is_ok rc); cbn [negb fst].
  - split; [done|]. cbn. eapply mirrors_ext; [symmetry; exact Hv|]. by eapply mirrors_rev.
  - split; [done|]. cbn. by eapply mirrors_ext; [symmetry; exact Hv|].
Qed.

Lemma compact_mirrored s c : store_ok s -> mirrored s -> mirrored (cetcd_mvcc_compact s c).1.
Proof.
  intros Hs Hm. pose proof Hm as [Hb Hm']. unfold cetcd_mvcc_compact.
  destruct (c <=? 0); [done|]. destruct (s_main_rev s <? c); [done|]. destruct (_ && _); [done|].
  unfold with_backend. rewrite Hb.
  pose proof (be_put_spec (s_env s) MVCC_BUCKET_META MVCC_META_COMPACTED (write_le64_ c)) as Hv.
  destruct (be_put _ _ _ _) as [env rc]. cbn [fst snd] in Hv. destruct (is_ok rc); cbn [negb fst].
  - split; [done|]. cbn. eapply mirrors_ext; [symmetry; exact Hv|]. by eapply mirrors_comp.
  - split; [done|]. cbn. by eapply mirrors_ext; [symmetry; exact Hv|].
Qed.

(** Runs that keep the backend attached. *)
Definition keeps_backend (op : mvcc_op) : bool := match op with OpSetBackend b => b | _ => true end.

Lemma run_mirrored ops s : store_ok s -> mirrored s -> forallb keeps_backend ops = true -> mirrored (mvcc_run s ops).
Proof.
  revert s. induction ops as [|op ops IH]; intros s Hs Hm; [done|]. cbn [forallb mvcc_run foldl].
  intros [Hop Hops]%andb_true_iff. apply IH; [by apply step_ok| |done].
  destruct op as [| | | | |b| | | | |sw|]; cbn [mvcc_step keeps_backend] in *; subst;
    try exact Hm; [by apply put_mirrored|by apply delete_mirrored|by apply delete_keys_mirrored|by apply advance_mirrored
    |by apply compact_mirrored| |].
  - by destruct Hm.
  - unfold cetcd_mvcc_watch_replay. by destruct (_ <=? 0).
Qed.

(** ** Loading *)

Definition load_rows (s : store) (rows : list (bytes * cetcd_kv)) : store :=
  (s <| s_index := foldl (fun idx kv => ki_put idx kv.1 (kg_of_kv kv.2)) (s_index s) rows |>)
    <| s_history := s_history s ++ ((fun kv => put_entry kv.2) <$> rows) |>.

Lemma load_fold rows s err :
  Forall (fun kv => kv_key kv.2 = kv.1 /\ row_fits kv.2 /\ rev_main (kv_mod_rev kv.2) <= s_main_rev s) rows ->
  fold_stop (fun kv => load_kv_cb_ kv.1 kv.2) (prod_map id row_blob <$> rows) (s, err) = (load_rows s rows, err, true).
Proof.
  intros Hrows. revert s Hrows. induction rows as [|[k kv] rows IH]; intros s Hrows; cbn [fmap list_fmap fold_stop].
  { unfold load_rows. cbn. rewrite app_nil_r. by destruct s. }
  inversion_clear Hrows as [|? ? (Hk & Hf & Hr) Hrest]. cbn [fst snd] in *. cbn [prod_map fst snd id].
  unfold load_kv_cb_. rewrite decode_row by done.
  cbn [s_main_rev field_set store_eta kg_of_kv kg_mod_rev]. rewrite (proj2 (Z.ltb_ge _ _)) by done. cbn [negb].
  rewrite IH.
  - unfold load_rows, push_history. cbn. rewrite <- app_assoc. cbn. unfold put_entry. by rewrite Hk.
  - unfold push_history. cbn. done.
Qed.

Lemma load_index rows (idx : T key_generation) : ki_ok idx ->
  ki_ok (foldl (fun idx kv => ki_put idx kv.1 (kg_of_kv kv.2)) idx rows) /\
  ki_map (foldl (fun idx kv => ki_put idx kv.1 (kg_of_kv kv.2)) idx rows) =
  foldl (fun m (kv : bytes * cetcd_kv) => <[kv.1 := kg_of_kv kv.2]> m) (ki_map idx) rows.
Proof.
  revert idx. induction rows as [|[k kv] rows IH]; intros idx Hok; [done|]. cbn.
  destruct (IH (ki_put idx k (kg_of_kv kv))) as [H1 H2]; [by apply ki_put_ok|].
  split; [done|]. by rewrite H2, ki_put_map.
Qed.

Lemma foldl_insert (rows : list (bytes * cetcd_kv)) (m : gmap bytes key_generation) (k : bytes) : NoDup rows.*1 ->
  foldl (fun m (kv : bytes * cetcd_kv) => <[kv.1 := kg_of_kv kv.2]> m) m rows !! k =
  match (list_to_map rows : gmap bytes cetcd_kv) !! k with Some kv => Some (kg_of_kv kv) | None => m !! k end.
Proof.
  revert m. induction rows as [|[k' kv] rows IH]; intros m Hnd; [done|]. cbn in *.
  apply NoDup_cons in Hnd as [Hk' Hnd]. rewrite IH by done. destruct (decide (k' = k)) as [->|Hne].
  - rewrite lookup_insert_eq, not_elem_of_list_to_map_1 by done. by rewrite lookup_insert_eq.
  - by rewrite !lookup_insert_ne.
Qed.

(** The keyspace of distinct puts is the set of their rows. *)
Lemma keyspace_puts h rev : NoDup (re_key <$> h) ->
  Forall (fun e => re_type e = CETCD_EVENT_PUT /\ rev_main (re_rev e) <= rev) h ->
  forall e, e ∈ h -> keyspace h rev !! re_key e = Some (kv_of_entry e).
Proof.
  induction h as [|e0 h IH] using rev_ind; intros Hnd Hall e He; [set_solver|].
  rewrite fmap_app, NoDup_app in Hnd. destruct Hnd as (Hnd & Hdis & _). apply Forall_app in Hall as [Hall Hall0].
  inversion_clear Hall0 as [|? ? [Hput Hle] _]. rewrite keyspace_lookup_snoc, (proj2 (Z.leb_le _ _) Hle), Hput. cbn [andb].
  apply elem_of_app in He as [He|He%list_elem_of_singleton].
  - rewrite bool_decide_false; [by apply IH|]. intros Heq. apply (Hdis (re_key e)); [by apply list_elem_of_fmap_2|].
    rewrite <- Heq. set_solver.
  - subst e. by rewrite bool_decide_true.
Qed.

Lemma history_cmp_le a b : cmp_le history_rev_cmp_ a b <-> re_rev a = re_rev b \/ rev_lt (re_rev a) (re_rev b).
Proof.
  unfold cmp_le, history_rev_cmp_. rewrite rev_lt_iff.
  destruct (re_rev a) as [m1 s1], (re_rev b) as [m2 s2]. cbn.
  destruct (Z.eqb_spec m1 m2), (Z.ltb_spec m1 m2), (Z.eqb_spec s1 s2), (Z.ltb_spec s1 s2); cbn; subst;
    split; intros; repeat match goal with Hx : _ \/ _ |- _ => destruct Hx as [Hx|Hx] | Hx : mk_rev _ _ = mk_rev _ _ |- _ => injection Hx as -> end;
    try lia; try (right; lia); try (by left); try congruence.
Qed.

Lemma current_mod (s : store) k kv : store_ok s -> current s !! k = Some kv -> 1 <= rev_main (kv_mod_rev kv) <= s_main_rev s.
Proof.
  intros Hs Hk. rewrite kg_of_current in Hk by done. apply fmap_Some in Hk as (kg & Hkg & ->). apply (so_live _ Hs _ _ Hkg).
Qed.

Lemma current_distinct (s : store) k k' kv kv' : store_ok s -> current s !! k = Some kv -> current s !! k' = Some kv' ->
  kv_mod_rev kv = kv_mod_rev kv' -> k = k'.
Proof.
  intros Hs. rewrite !kg_of_current by done. intros (kg & Hkg & ->)%fmap_Some (kg' & Hkg' & ->)%fmap_Some.
  cbn. by apply (so_distinct _ Hs).
Qed.

#[local] Instance history_cmp_total : Total (cmp_le history_rev_cmp_).
Proof.
  intros a b. rewrite !history_cmp_le, !rev_lt_iff. destruct (re_rev a) as [m1 s1], (re_rev b) as [m2 s2]. cbn.
  destruct (Z.lt_trichotomy m1 m2) as [|[->|]]; [left; right; lia| |right; right; lia].
  destruct (Z.lt_trichotomy s1 s2) as [|[->|]]; [left; right; lia|left; by left|right; right; lia].
Qed.

#[local] Instance history_cmp_trans : Transitive (cmp_le history_rev_cmp_).
Proof.
  intros a b c. rewrite !history_cmp_le. intros [->|Hab] [Hbc|Hbc]; [by left|by right|right; by rewrite <- Hbc|right].
  by transitivity (re_rev b).
Qed.

Lemma history_sorted_strict h : NoDup (re_rev <$> h) -> StronglySorted (cmp_le history_rev_cmp_) h ->
  StronglySorted rev_lt (re_rev <$> h).
Proof.
  intros Hnd. induction 1 as [|e h Hs IH Hall]; cbn in *; [constructor|]. apply NoDup_cons in Hnd as [He Hnd].
  constructor; [by apply IH|]. apply Forall_fmap. rewrite Forall_forall in Hall. rewrite Forall_forall.
  intros x Hx. specialize (Hall x Hx). apply history_cmp_le in Hall as [Heq|]; [|done].
  destruct He. rewrite Heq. by apply list_elem_of_fmap_2.
Qed.

Lemma rows_history (s : store) : store_ok s ->
  let h := (fun kv : bytes * cetcd_kv => put_entry kv.2) <$> sorted_entries (current s) in
  NoDup (re_key <$> h) /\ NoDup (re_rev <$> h) /\
  (forall e, e ∈ h <-> exists k kv, current s !! k = Some kv /\ e = put_entry kv).
Proof.
  intros Hs h.
  assert (Hel : forall e, e ∈ h <-> exists k kv, current s !! k = Some kv /\ e = put_entry kv).
  { intros e. unfold h. rewrite list_elem_of_fmap. split.
    - intros ([k kv] & -> & Hin%sorted_entries_elem). by exists k, kv.
    - intros (k & kv & Hk & ->). exists (k, kv). split; [done|]. by apply sorted_entries_elem. }
  split_and!; [| |done]; unfold h; rewrite <- list_fmap_compose.
  - replace ((re_key ∘ (fun kv : bytes * cetcd_kv => put_entry kv.2)) <$> sorted_entries (current s))
      with (sorted_entries (current s)).*1; [apply sorted_entries_nodup|].
    apply list_fmap_ext. intros i [k kv] Hi%list_elem_of_lookup_2%sorted_entries_elem. cbn. symmetry. by apply (current_key s).
  - apply NoDup_fmap_2_strong; [|apply (NoDup_fmap_1 fst), sorted_entries_nodup].
    intros [k1 kv1] [k2 kv2] H1%sorted_entries_elem H2%sorted_entries_elem. cbn. intros Heq.
    assert (k1 = k2) as -> by (by eapply (current_distinct s)). congruence.
Qed.

(** The store rebuilt from the rows of [s]. *)
Lemma loaded_ok (s s2 : store) h : store_ok s ->
  h = (fun kv : bytes * cetcd_kv => put_entry kv.2) <$> sorted_entries (current s) ->
  s_index s2 = foldl (fun idx kv => ki_put idx kv.1 (kg_of_kv kv.2)) ki_new (sorted_entries (current s)) ->
  s_main_rev s2 = s_main_rev s -> s_compacted_rev s2 = s_compacted_rev s ->
  s_history s2 = (if 1 <? blen h then qsort history_rev_cmp_ h else h) ->
  store_ok s2 /\ current s2 = current s.
Proof.
  intros Hs Hh Ei Em Ec Eh. destruct (rows_history s Hs) as (Hk & Hr & Hel). rewrite <- Hh in *.
  assert (Hperm : s_history s2 ≡ₚ h) by (rewrite Eh; destruct (1 <? _); [apply merge_sort_Permutation|done]).
  assert (Hsort : StronglySorted (cmp_le history_rev_cmp_) (s_history s2)).
  { rewrite Eh. destruct (Z.ltb_spec 1 (blen h)) as [|Hl]; [apply (StronglySorted_merge_sort _)|].
    unfold blen in Hl. destruct h as [|a [|b h]]; [constructor|repeat constructor|cbn in Hl; lia]. }
  destruct (load_index (sorted_entries (current s)) ki_new ki_new_ok) as [Hok Hmap]. rewrite <- Ei in Hok, Hmap.
  assert (Hidx : forall k, ki_map (s_index s2) !! k = kg_of_kv <$> current s !! k).
  { intros k. rewrite Hmap, foldl_insert, sorted_entries_map, ki_new_map by apply sorted_entries_nodup.
    by destruct (current s !! k). }
  assert (Hcur : current s2 = current s).
  { apply map_eq. intros k. rewrite current_lookup, Hidx. destruct (current s !! k) as [kv|] eqn:Hkv; [|done]. cbn.
    unfold live_kv, kv_of_kg. cbn. rewrite <- (current_key s k kv Hkv). by destruct kv. }
  assert (Hent : forall e, e ∈ s_history s2 -> exists k kv, current s !! k = Some kv /\ e = put_entry kv).
  { intros e He. apply Hel. by rewrite <- Hperm. }
  split; [|done]. split; rewrite ?Em, ?Ec.
  - done.
  - apply Hs.
  - apply history_sorted_strict; [by rewrite Hperm|done].
  - apply Forall_forall. intros e (k & kv & Hkv & ->)%Hent. by apply (current_mod s k).
  - intros k kg. rewrite Hidx. intros (kv & Hkv & ->)%fmap_Some. split; [done|]. by apply (current_mod s k).
  - intros k k' kg kg'. rewrite !Hidx. intros (kv & Hkv & ->)%fmap_Some (kv' & Hkv' & ->)%fmap_Some.
    cbn. by apply (current_distinct s).
  - intros k. left. rewrite Hcur. destruct (current s !! k) as [kv|] eqn:Hkv.
    + assert (He : put_entry kv ∈ s_history s2) by (rewrite Hperm; apply Hel; eauto).
      rewrite <- (current_key s k kv Hkv) at 1.
      change (kv_key kv) with (re_key (put_entry kv)). rewrite keyspace_puts; [|by rewrite Hperm| |done].
      * f_equal. unfold kv_of_entry, put_entry. by destruct kv.
      * apply Forall_forall. intros e (k' & kv' & Hkv' & ->)%Hent. split; [done|]. cbn.
        apply (current_mod s k') in Hkv'; [lia|done].
    + apply keyspace_absent. intros e (k' & kv' & Hkv' & ->)%Hent. cbn. rewrite (current_key s k' kv' Hkv'). congruence.
Qed.

(** A counter is read back, or is 0 and may be missing. *)
Lemma load_meta_spec (s : store) key z : meta_holds (be_view (s_env s)) key z -> in_i64 z ->
  (be_get (s_env s) MVCC_BUCKET_META key).1.2 = CETCD_OK \/ z = 0 ->
  exists env o, load_meta s key = (s <| s_env := env |>, o) /\ env = (be_get (s_env s) MVCC_BUCKET_META key).1.1 /\
    be_view env ≡v be_view (s_env s) /\ default 0 o = z.
Proof.
  intros Hm Hz Hrc. unfold load_meta.
  pose proof (be_get_view (s_env s) MVCC_BUCKET_META key) as Hv.
  pose proof (be_get_ok (s_env s) MVCC_BUCKET_META key) as Hg.
  destruct (be_get (s_env s) MVCC_BUCKET_META key) as [[env rc] buf]. cbn [fst snd] in *.
  do 2 eexists. split; [reflexivity|]. split; [done|]. split; [done|].
  destruct (decide (rc = CETCD_OK)) as [->|Hne].
  - cbn [is_ok andb]. specialize (Hg eq_refl). destruct Hm as [Hm|[Hm _]]; [|congruence].
    rewrite Hg in Hm. injection Hm as ->. rewrite (proj2 (Z.leb_le _ _)) by (unfold blen; rewrite write_le64_length; lia).
    cbn -[read_le64_ write_le64_ i64]. pose proof (read_le64_here z [] Hz) as Hrd. by rewrite app_nil_r in Hrd.
  - destruct Hrc as [Hrc| -> ]; [done|]. by destruct rc.
Qed.

(** The part of a load that walks the key bucket. *)
Definition load_keys (s : store) : store * cetcd_status :=
  let '(env, (s, err), rc) := be_foreach (s_env s) MVCC_BUCKET_KEY load_kv_cb_ (s, CETCD_OK) in
  let s := s <| s_env := env |> in
  if negb (is_ok rc) then (s, rc) else if negb (is_ok err) then (s, err)
  else (if 1 <? blen (s_history s) then s <| s_history := qsort history_rev_cmp_ (s_history s) |> else s, CETCD_OK).

(** A load first restores the two counters. *)
Lemma load_counters (s : store) ch : store_ok s ->
  meta_holds (be_view (s_env s)) MVCC_META_REV (s_main_rev s) ->
  meta_holds (be_view (s_env s)) MVCC_META_COMPACTED (s_compacted_rev s) -> in_i64 (s_main_rev s) ->
  (be_get (s_env s) MVCC_BUCKET_META MVCC_META_REV).1.2 = CETCD_OK \/ s_main_rev s = 0 ->
  (be_get (be_get (s_env s) MVCC_BUCKET_META MVCC_META_REV).1.1 MVCC_BUCKET_META
     MVCC_META_COMPACTED).1.2 = CETCD_OK \/ s_compacted_rev s = 0 ->
  exists s2, cetcd_mvcc_load (cetcd_mvcc_store_new (s_env s) ch : store) = load_keys s2 /\
    s_env s2 = (be_get (be_get (s_env s) MVCC_BUCKET_META MVCC_META_REV).1.1 MVCC_BUCKET_META MVCC_META_COMPACTED).1.1 /\
    be_view (s_env s2) ≡v be_view (s_env s) /\ s_main_rev s2 = s_main_rev s /\
    s_compacted_rev s2 = s_compacted_rev s /\ s_index s2 = ki_new /\ s_history s2 = [].
Proof.
  intros Hs M2 M3 Hrev Hread1 Hread2. pose proof (so_compact s Hs) as Hcomp.
  set (s0 := (cetcd_mvcc_store_new (s_env s) ch : store) <| s_backend := true |>).
  destruct (load_meta_spec s0 MVCC_META_REV (s_main_rev s) M2 Hrev Hread1) as (env1 & o1 & E1 & Ee1 & Hv1 & Ho1).
  set (s1 := match o1 with Some r => (s0 <| s_env := env1 |>) <| s_main_rev := r |> | None => s0 <| s_env := env1 |> end).
  assert (Hs1 : s_env s1 = env1 /\ s_main_rev s1 = s_main_rev s /\ s_index s1 = ki_new /\ s_history s1 = [] /\ s_compacted_rev s1 = 0).
  { unfold s1. by destruct o1; cbn in *; split_and!. }
  destruct Hs1 as (Ev1 & Em1 & Ei1 & Eh1 & Ec1).
  destruct (load_meta_spec s1 MVCC_META_COMPACTED (s_compacted_rev s)) as (env2 & o2 & E2 & Ee2 & Hv2 & Ho2).
  { unfold meta_holds. rewrite Ev1, Hv1. exact M3. }
  { unfold in_i64 in *. lia. }
  { rewrite Ev1, Ee1. exact Hread2. }
  exists (match o2 with Some r => (s1 <| s_env := env2 |>) <| s_compacted_rev := r |> | None => s1 <| s_env := env2 |> end).
  split; [unfold cetcd_mvcc_load; fold s0; rewrite E1; fold s1; by rewrite E2|].
  assert (Henv : be_view env2 ≡v be_view (s_env s)) by (rewrite Hv2, Ev1, Hv1; done).
  rewrite Ev1, Ee1 in Ee2. destruct o2; cbn in *; split_and!; (done || congruence).
Qed.

(** The backend mirrors the store.  From a new store attached to an empty
    backend, after any run of operations and whatever calls failed, the key
    bucket holds exactly the serialised current generation of every live key
    and the meta bucket the store's revision and compaction boundary. *)
Theorem mvcc_mirror (env : E) (ch : gmap Z cetcd_mvcc_watch_notify) (ops : list mvcc_op)
  (Henv : be_view env ≡v (fun _ => ∅)) (Hops : forallb keeps_backend ops = true) :
  let s := mvcc_run (cetcd_mvcc_set_backend (cetcd_mvcc_store_new env ch) true) ops : store in
  mirrors (be_view (s_env s)) (current s) (s_main_rev s) (s_compacted_rev s).
Proof.
  apply run_mirrored; [apply (store_ok_ext (cetcd_mvcc_store_new env ch)); [apply new_store_ok|done..]| |done].
  split; [done|]. split; cbn.
  - rewrite Henv. apply map_eq. intros k. rewrite lookup_fmap, current_lookup. cbn. by rewrite ki_new_map.
  - right. by rewrite Henv.
  - right. by rewrite Henv.
Qed.

(** C17: restart.  Loading a fresh store from the backend of a mirrored store
    whose counters fit 64 bits, when the reads of the load succeed, restores
    the revision, the compaction boundary and the current result of every get
    and range, and yields a store that satisfies the store invariant again. *)
Theorem load_recovers (s : store) (ch : gmap Z cetcd_mvcc_watch_notify)
  (Hs : store_ok s) (Hm : mirrored s)
  (Hfit : map_Forall (fun _ kv => row_fits kv) (current s)) (Hrev : in_i64 (s_main_rev s))
  (Hread1 : (be_get (s_env s) MVCC_BUCKET_META MVCC_META_REV).1.2 = CETCD_OK \/ s_main_rev s = 0)
  (Hread2 : (be_get (be_get (s_env s) MVCC_BUCKET_META MVCC_META_REV).1.1 MVCC_BUCKET_META
               MVCC_META_COMPACTED).1.2 = CETCD_OK \/ s_compacted_rev s = 0)
  (Hread3 : forall St (fn : bytes -> bytes -> St -> St * bool) st,
     (be_foreach (be_get (be_get (s_env s) MVCC_BUCKET_META MVCC_META_REV).1.1 MVCC_BUCKET_META
        MVCC_META_COMPACTED).1.1 MVCC_BUCKET_KEY fn st).2 = CETCD_OK) :
  let '(s', rc) := cetcd_mvcc_load (cetcd_mvcc_store_new (s_env s) ch : store) in
  rc = CETCD_OK /\ store_ok s' /\ cetcd_mvcc_revision s' = cetcd_mvcc_revision s /\
  cetcd_mvcc_compacted_revision s' = cetcd_mvcc_compacted_revision s /\
  (forall k, cetcd_mvcc_get s' 0 k = cetcd_mvcc_get s 0 k) /\
  (forall lo hi, cetcd_mvcc_range s' 0 lo hi = cetcd_mvcc_range s 0 lo hi).
Proof.
  destruct Hm as [_ [M1 M2 M3]].
  destruct (load_counters s ch Hs M2 M3 Hrev Hread1 Hread2) as (s2 & -> & Ee & Hv & Em2 & Ec2 & Ei2 & Eh2).
  unfold load_keys. specialize (Hread3 _ load_kv_cb_ (s2, CETCD_OK)). rewrite <- Ee in Hread3.
  pose proof (be_foreach_ok (s_env s2) MVCC_BUCKET_KEY load_kv_cb_ (s2, CETCD_OK) Hread3) as Hf.
  rewrite Hv, M1, sorted_entries_fmap, load_fold in Hf.
  2: { apply Forall_forall. intros [k kv] Hkv%sorted_entries_elem. cbn. rewrite Em2.
       split_and!; [by apply (current_key s)|by apply (Hfit k)|by apply (current_mod s k)]. }
  destruct (be_foreach (s_env s2) MVCC_BUCKET_KEY load_kv_cb_ (s2, CETCD_OK)) as [[env st] rc]. cbn [fst snd] in *. subst st rc.
  cbn [is_ok negb]. set (s3 := (load_rows s2 (sorted_entries (current s))) <| s_env := env |>).
  set (h := (fun kv : bytes * cetcd_kv => put_entry kv.2) <$> sorted_entries (current s)).
  assert (Eh3 : s_history s3 = h) by (unfold s3, load_rows; cbn; by rewrite Eh2).
  assert (Ei3 : s_index s3 = foldl (fun idx kv => ki_put idx kv.1 (kg_of_kv kv.2)) ki_new (sorted_entries (current s)))
    by (unfold s3, load_rows; cbn; by rewrite Ei2).
  rewrite Eh3. set (s' := if 1 <? blen h then _ else _).
  assert (Hproj : forall A (f : store -> A), f (s3 <| s_history := qsort history_rev_cmp_ h |>) = f s3 -> f s' = f s3)
    by (intros A f Hf; unfold s'; by destruct (1 <? blen h)).
  destruct (loaded_ok s s' h) as [Hok' Hcur']; try done.
  - by rewrite (Hproj _ s_index).
  - by rewrite (Hproj _ s_main_rev).
  - by rewrite (Hproj _ s_compacted_rev).
  - unfold s'. destruct (1 <? blen h); [done|exact Eh3].
  - split_and!; [done|done| | | |].
    + unfold cetcd_mvcc_revision. by rewrite (Hproj _ s_main_rev).
    + unfold cetcd_mvcc_compacted_revision. by rewrite (Hproj _ s_compacted_rev).
    + intros k. by rewrite !get_current, Hcur' by (apply Hok' || apply Hs).
    + intros lo hi. by rewrite !range_zero, Hcur' by (apply Hok' || apply Hs).
Qed.

End Mirror.

(** ** Witnesses *)

Definition attached_ops : list mvcc_op := [OpPut [97] [1] 0; OpPut [98] [2] 7; OpPut [97] [3] 0; OpDelete [98]; OpCompact 2].

Lemma mvcc_mirror_witness :
  let s := mvcc_run (cetcd_mvcc_set_backend empty_tstore true) attached_ops in
  mirrors (be_view (s_env s)) (current s) (s_main_rev s) (s_compacted_rev s).
Proof. apply (mvcc_mirror (mk_mem_env ∅ []) ∅ attached_ops); [intros b; reflexivity|reflexivity]. Defined.

Definition attached_store : tstore := Eval vm_compute in mvcc_run (cetcd_mvcc_set_backend empty_tstore true) attached_ops.

Lemma attached_store_run : attached_store = mvcc_run (cetcd_mvcc_set_backend empty_tstore true) attached_ops.
Proof. vm_compute. reflexivity. Qed.

Lemma attached_store_ok : store_ok attached_store /\ mirrored attached_store.
Proof.
  rewrite attached_store_run. assert (Hs : store_ok (cetcd_mvcc_set_backend empty_tstore true)).
  { apply (store_ok_ext empty_tstore); [apply new_store_ok|done..]. }
  split; [by apply run_ok|]. apply run_mirrored; [done| |done].
  split; [done|]. split; [reflexivity|right; done|right; done].
Qed.

Lemma load_recovers_witness :
  let '(s', rc) := cetcd_mvcc_load (cetcd_mvcc_store_new (s_env attached_store) ∅ : tstore) in
  rc = CETCD_OK /\ cetcd_mvcc_revision s' = 4 /\ cetcd_mvcc_compacted_revision s' = 2 /\
  cetcd_mvcc_get s' 0 [97] = cetcd_mvcc_get attached_store 0 [97].
Proof.
  pose proof (load_recovers attached_store ∅) as Hl.
  destruct (cetcd_mvcc_load (cetcd_mvcc_store_new (s_env attached_store) ∅ : tstore)) as [s' rc].
  destruct Hl as (-> & _ & Hr & Hc & Hg & _).
  - apply attached_store_ok.
  - apply attached_store_ok.
  - apply map_Forall_lookup. intros k kv Hk.
    assert (Hkv : kv = mk_kv [97] [3] (mk_rev 1 0) (mk_rev 3 0) 2 0).
    { assert (Hrows : map_to_list (current attached_store) = [([97], mk_kv [97] [3] (mk_rev 1 0) (mk_rev 3 0) 2 0)])
        by (vm_compute; reflexivity).
      apply elem_of_map_to_list in Hk. rewrite Hrows in Hk. apply list_elem_of_singleton in Hk. congruence. }
    subst kv. unfold row_fits, rev_fits, in_i64. cbn. lia.
  - vm_compute. split; [discriminate|reflexivity].
  - left. vm_compute. reflexivity.
  - left. vm_compute. reflexivity.
  - intros St fn st. reflexivity.
  - split_and!; [reflexivity|rewrite Hr; reflexivity|rewrite Hc; reflexivity|apply Hg].
Defined.
