(* ===== verification/Lease.v ===== *)
(** * The lease manager (src/lease/lease.c, include/cetcd/lease.h)

    The manager keeps an array of leases, the next automatic id, the
    accumulated time and, when a backend is attached, a mirror of every lease
    in the [lease] bucket with its deadline in wall-clock time.

    A lease owns an array of key pointers of which the first [key_count] are
    live.  Detaching a key shifts the live cells and leaves the cells behind
    them as they are; the expiry callback is handed this very array, so the
    model keeps the cells ([l_slots]) and the count apart.  A pointer to a
    lease is its position in the array.  The wall clock is the parameter
    [Clock]: the value its n-th reading returns.  Allocation failure is not
    modelled; the 64-bit millisecond counters are unbounded integers. *)

From S2P Require Import Slice Hash KeyOrder Treap Hashmap Backend Mvcc Prelude.

#[local] Open Scope Z_scope.

Definition CETCD_MAX_LEASE_TTL : Z := 9000000000.
Definition CETCD_LEASE_REBUILD_TTL : Z := 300.
Definition LEASE_BUCKET : string := "lease".
Definition LEASE_KEY_NEXT : bytes := [110; 101; 120; 116].

(** ** State *)

Record cetcd_lease : Type := mk_lease {
  l_id : Z;
  l_ttl_seconds : Z;
  l_deadline_ms : Z;
  l_slots : list bytes;
  l_key_count : nat
}.

#[export] Instance lease_eta : RecordEta cetcd_lease := fun l =>
  mk_lease (l_id l) (l_ttl_seconds l) (l_deadline_ms l) (l_slots l) (l_key_count l).

#[export] Instance cetcd_lease_eq_dec : EqDecision cetcd_lease.
Proof. solve_decision. Defined.

(** The attached keys. *)
Definition l_keys (l : cetcd_lease) : list bytes := take (l_key_count l) (l_slots l).

(** [m_on_expire] tells whether an expiry callback is set; [m_backend] whether
    [m_env] is attached; [m_clock] counts the readings of the wall clock. *)
Record cetcd_lease_mgr (E : Type) : Type := mk_mgr {
  m_leases : list cetcd_lease;
  m_next_id : Z;
  m_now_ms : Z;
  m_on_expire : bool;
  m_backend : bool;
  m_env : E;
  m_have_bucket : bool;
  m_clock : nat
}.

Arguments mk_mgr {E}.
Arguments m_leases {E}.
Arguments m_next_id {E}.
Arguments m_now_ms {E}.
Arguments m_on_expire {E}.
Arguments m_backend {E}.
Arguments m_env {E}.
Arguments m_have_bucket {E}.
Arguments m_clock {E}.

#[export] Instance mgr_eta {E} : RecordEta (cetcd_lease_mgr E) := fun m =>
  mk_mgr (m_leases m) (m_next_id m) (m_now_ms m) (m_on_expire m) (m_backend m) (m_env m) (m_have_bucket m) (m_clock m).

(** The result, in nanoseconds, of the n-th reading of the real-time clock. *)
Class Clock : Type := realtime_ns : nat -> Z.

(** ** Operations *)

(** The array with the cells after position [i] moved one to the left. *)
Definition shift_out {A} (i : nat) (l : list A) : list A := take i l ++ drop (S i) l.

Arguments shift_out {A} i l : simpl never.

Section Manager.
  Context {E : Type} `{!Backend E, !Clock}.
  Local Notation mgr := (cetcd_lease_mgr E).

Definition realtime_ms_ (n : nat) : Z := u64 (realtime_ns n) / 1000000.

Definition lease_by_id_ (m : mgr) (id : Z) : option (nat * cetcd_lease) :=
  list_find (fun l => l_id l = id) (m_leases m).

Definition cetcd_lease_exists (m : mgr) (id : Z) : bool := bool_decide (is_Some (lease_by_id_ m id)).

(** The deadline a row of the bucket carries. *)
Definition wall_deadline (l : cetcd_lease) (now_ms rt : Z) : Z :=
  let rem := l_deadline_ms l - now_ms in
  rt + (if rem <? 0 then 0 else rem).

Definition lease_row (l : cetcd_lease) (now_ms rt : Z) : bytes :=
  write_le64_ (l_ttl_seconds l) ++ write_le64_ (wall_deadline l now_ms rt).

(** [rt] is what [realtime_ms_] returns. *)
Definition persist_put_ (be : E) (l : cetcd_lease) (now_ms next_id rt : Z) : E * cetcd_status :=
  be_put2 be LEASE_BUCKET (write_le64_ (l_id l)) (Some (lease_row l now_ms rt))
    LEASE_BUCKET LEASE_KEY_NEXT (write_le64_ next_id).

Definition persist_del_ (be : E) (id : Z) : E * cetcd_status :=
  let '(be, rc) := be_del be LEASE_BUCKET (write_le64_ id) in
  (be, match rc with CETCD_ERR_NOTFOUND => CETCD_OK | _ => rc end).

Definition persist_next_ (be : E) (next_id : Z) : E * cetcd_status :=
  be_put be LEASE_BUCKET LEASE_KEY_NEXT (write_le64_ next_id).

(** The persistence of a lease by an operation of the manager. *)
Definition mgr_persist_put (m : mgr) (l : cetcd_lease) : mgr * cetcd_status :=
  if m_backend m then
    let '(be, rc) := persist_put_ (m_env m) l (m_now_ms m) (m_next_id m) (realtime_ms_ (m_clock m)) in
    ((m <| m_env := be |>) <| m_clock := S (m_clock m) |>, rc)
  else (m, CETCD_OK).

Definition mgr_persist_del (m : mgr) (id : Z) : mgr * cetcd_status :=
  if m_backend m then
    let '(be, rc) := persist_del_ (m_env m) id in (m <| m_env := be |>, rc)
  else (m, CETCD_OK).

Definition revoke_mem_ (m : mgr) (id : Z) : mgr * cetcd_status :=
  match lease_by_id_ m id with
  | Some (i, _) => (m <| m_leases := shift_out i (m_leases m) |>, CETCD_OK)
  | None => (m, CETCD_ERR_NOTFOUND)
  end.

Definition bad_ttl (ttl : Z) : bool := (ttl <=? 0) || (CETCD_MAX_LEASE_TTL <? ttl).

Definition restore_ (m : mgr) (id granted_ttl remaining_ms : Z) : mgr * cetcd_status :=
  if (id =? 0) || bad_ttl granted_ttl then (m, CETCD_ERR_INVAL)
  else if cetcd_lease_exists m id then (m, CETCD_ERR_EXISTS)
  else
    let remaining_ms := if remaining_ms <? 0 then 0 else remaining_ms in
    let l := mk_lease id granted_ttl (m_now_ms m + remaining_ms) [] 0 in
    let m := m <| m_leases := m_leases m ++ [l] |> in
    (if m_next_id m <=? id then m <| m_next_id := u64 (id + 1) |> else m, CETCD_OK).

Definition cetcd_lease_mgr_new (env : E) (on_expire : bool) : mgr :=
  mk_mgr [] 1 0 on_expire false env false 0.

Definition cetcd_lease_mgr_set_expire (m : mgr) (on_expire : bool) : mgr := m <| m_on_expire := on_expire |>.

(** The end of a grant: the new lease is appended, persisted, and taken back
    when the backend refuses it. *)
Definition grant_lease (m : mgr) (l : cetcd_lease) : mgr * Z :=
  let '(m, rc) := mgr_persist_put m l in
  if is_ok rc then (m, l_id l) else ((revoke_mem_ m (l_id l)).1, 0).

Definition cetcd_lease_grant (m : mgr) (ttl_seconds : Z) : mgr * Z :=
  if bad_ttl ttl_seconds then (m, 0)
  else
    let id := m_next_id m in
    let m := m <| m_next_id := u64 (m_next_id m + 1) |> in
    let l := mk_lease id ttl_seconds (m_now_ms m + ttl_seconds * 1000) [] 0 in
    grant_lease (m <| m_leases := m_leases m ++ [l] |>) l.

Definition cetcd_lease_grant_id (m : mgr) (id ttl_seconds : Z) : mgr * Z :=
  if (id =? 0) || bad_ttl ttl_seconds then (m, 0)
  else if cetcd_lease_exists m id then (m, 0)
  else
    let l := mk_lease id ttl_seconds (m_now_ms m + ttl_seconds * 1000) [] 0 in
    let m := m <| m_leases := m_leases m ++ [l] |> in
    let m := if m_next_id m <=? id then m <| m_next_id := u64 (id + 1) |> else m in
    grant_lease m l.

Definition cetcd_lease_next_id (m : mgr) : Z := m_next_id m.

Definition cetcd_lease_revoke (m : mgr) (id : Z) : mgr * cetcd_status :=
  if negb (cetcd_lease_exists m id) then (m, CETCD_ERR_NOTFOUND)
  else
    let '(m, rc) := mgr_persist_del m id in
    if negb (is_ok rc) then (m, rc) else revoke_mem_ m id.

Definition set_lease (m : mgr) (i : nat) (l : cetcd_lease) : mgr := m <| m_leases := <[i := l]> (m_leases m) |>.

Definition cetcd_lease_keep_alive (m : mgr) (id ttl_seconds : Z) : mgr * cetcd_status :=
  match lease_by_id_ m id with
  | None => (m, CETCD_ERR_NOTFOUND)
  | Some (i, l) =>
      let l' := (l <| l_ttl_seconds := ttl_seconds |>) <| l_deadline_ms := m_now_ms m + ttl_seconds * 1000 |> in
      let '(m, rc) := mgr_persist_put (set_lease m i l') l' in
      if is_ok rc then (m, CETCD_OK) else (set_lease m i l, CETCD_ERR_IO)
  end.

Definition cetcd_lease_ttl_remaining (m : mgr) (id : Z) : Z :=
  match lease_by_id_ m id with
  | None => 0
  | Some (_, l) =>
      let rem := l_deadline_ms l - m_now_ms m in
      Z.quot (if rem <? 0 then 0 else rem) 1000
  end.

(** Position of a key among the live cells. *)
Definition key_slot (l : cetcd_lease) (key : bytes) : option nat :=
  fst <$> list_find (fun k => blen k = blen key /\ memcmp (length key) k key = 0) (l_keys l).

Definition attach_slot (l : cetcd_lease) (key : bytes) : cetcd_lease :=
  match key_slot l key with
  | Some _ => l
  | None =>
      (l <| l_slots := take (l_key_count l) (l_slots l) ++ key :: drop (S (l_key_count l)) (l_slots l) |>)
        <| l_key_count := S (l_key_count l) |>
  end.

Definition cetcd_lease_attach_key (m : mgr) (id : Z) (key : bytes) : mgr * cetcd_status :=
  match lease_by_id_ m id with
  | None => (m, CETCD_ERR_NOTFOUND)
  | Some (i, l) => (set_lease m i (attach_slot l key), CETCD_OK)
  end.

(** The live cells after position [i] move left; the last live cell keeps
    its pointer. *)
Definition detach_slot (l : cetcd_lease) (i : nat) : cetcd_lease :=
  let n := l_key_count l in
  (l <| l_slots := take i (l_slots l) ++ drop (S i) (take n (l_slots l)) ++ drop (n - 1) (l_slots l) |>)
    <| l_key_count := (n - 1)%nat |>.

Definition cetcd_lease_detach_key (m : mgr) (id : Z) (key : bytes) : mgr * cetcd_status :=
  match lease_by_id_ m id with
  | None => (m, CETCD_ERR_NOTFOUND)
  | Some (i, l) =>
      match key_slot l key with
      | Some j => (set_lease m i (detach_slot l j), CETCD_OK)
      | None => (m, CETCD_ERR_NOTFOUND)
      end
  end.

(** The expiry loop.  [X] is the rest of the program's state the callback
    [on_expire] works on; the callback may call the manager back, it is given
    the id of the expiring lease and reads its keys where they are.  [None]
    when the fuel is used up. *)
Fixpoint tick_loop {X : Type} (on_expire : Z -> mgr * X -> mgr * X) (fuel i : nat) (w : mgr * X)
  : option (mgr * X) :=
  match m_leases w.1 !! i with
  | None => Some w
  | Some l =>
      match fuel with
      | O => None
      | S fuel =>
          if l_deadline_ms l <=? m_now_ms w.1 then
            let '(m, rc) := mgr_persist_del w.1 (l_id l) in
            if negb (is_ok rc) then tick_loop on_expire fuel (S i) (m, w.2)
            else
              let w := if m_on_expire m then on_expire (l_id l) (m, w.2) else (m, w.2) in
              tick_loop on_expire fuel i (w.1 <| m_leases := shift_out i (m_leases w.1) |>, w.2)
          else tick_loop on_expire fuel (S i) w
      end
  end.

Definition cetcd_lease_mgr_tick {X : Type} (on_expire : Z -> mgr * X -> mgr * X) (w : mgr * X) (elapsed_ms : Z)
  : option (mgr * X) :=
  if elapsed_ms <=? 0 then Some w
  else
    let m := w.1 <| m_now_ms := m_now_ms w.1 + elapsed_ms |> in
    tick_loop on_expire (length (m_leases m)) 0 (m, w.2).

Definition cetcd_lease_mgr_count (m : mgr) : Z := blen (m_leases m).

Definition cetcd_lease_granted_ttl (m : mgr) (id : Z) : Z :=
  match lease_by_id_ m id with None => 0 | Some (_, l) => l_ttl_seconds l end.

(** The ids written to an output array of [cap] elements; [None] when there is
    no array or [cap] is 0, where the function returns the count. *)
Definition cetcd_lease_mgr_leases (m : mgr) (cap : nat) : option (list Z) :=
  match cap with O => None | _ => Some (take cap (l_id <$> m_leases m)) end.

Definition cetcd_lease_keys (m : mgr) (id : Z) : list bytes :=
  match lease_by_id_ m id with None => [] | Some (_, l) => l_keys l end.

(** ** Persistence *)

Definition cetcd_lease_mgr_set_backend (m : mgr) (be : bool) : mgr := m <| m_backend := be |>.

Fixpoint save_loop (m : mgr) (ls : list cetcd_lease) (be : E) : mgr * E * cetcd_status :=
  match ls with
  | [] => let '(be, rc) := persist_next_ be (m_next_id m) in (m, be, rc)
  | l :: ls =>
      let '(be, rc) := persist_put_ be l (m_now_ms m) (m_next_id m) (realtime_ms_ (m_clock m)) in
      let m := m <| m_clock := S (m_clock m) |> in
      if negb (is_ok rc) then (m, be, rc) else save_loop m ls be
  end.

Definition cetcd_lease_save (m : mgr) (be : E) : mgr * E * cetcd_status := save_loop m (m_leases m) be.

Definition load_cb_ (key val : bytes) (ctx : mgr * cetcd_status) : mgr * cetcd_status * bool :=
  let '(m, err) := ctx in
  let m := m <| m_have_bucket := true |> in
  if bool_decide (key = LEASE_KEY_NEXT) then
    if 8 <=? blen val then
      let n := read_le64_ val 0 in
      (if m_next_id m <? n then m <| m_next_id := n |> else m, err, true)
    else (m, err, true)
  else if negb (blen key =? 8) || negb (blen val =? 16) then (m, err, true)
  else
    let id := read_le64_ key 0 in
    let granted := i64 (read_le64_ val 0) in
    let unix_dl := i64 (read_le64_ val 8) in
    let rt := realtime_ms_ (m_clock m) in
    let m := m <| m_clock := S (m_clock m) |> in
    let '(m, rc) := restore_ m id granted (unix_dl - rt) in
    (m, match rc with CETCD_OK | CETCD_ERR_EXISTS => err | _ => rc end, true).

Definition cetcd_lease_load (m : mgr) (be : E) : mgr * E * cetcd_status :=
  let m := m <| m_have_bucket := false |> in
  let '(be, (m, err), rc) := be_foreach be LEASE_BUCKET load_cb_ (m, CETCD_OK) in
  if negb (is_ok rc) then (m, be, rc) else (m, be, err).

(** One row of [cetcd_lease_reindex_from_store]. *)
Definition reindex_row (m : mgr) (kv : cetcd_kv) : mgr :=
  if kv_lease_id kv <=? 0 then m
  else
    let lid := u64 (kv_lease_id kv) in
    let '(m, ok) :=
      if negb (cetcd_lease_exists m lid) then
        if m_have_bucket m then let '(m, rc) := restore_ m lid 1 0 in (m, is_ok rc)
        else let '(m, id) := cetcd_lease_grant_id m lid CETCD_LEASE_REBUILD_TTL in (m, negb (id =? 0))
      else (m, true) in
    if ok : bool then (cetcd_lease_attach_key m lid (kv_key kv)).1 else m.

Definition cetcd_lease_reindex_from_store {T : Type -> Type} `{!KeyIndex T} (m : mgr) (s : cetcd_mvcc_store T E)
  : mgr * cetcd_status :=
  let '(rc, kvs) := cetcd_mvcc_range s 0 [] [0] in
  if negb (is_ok rc) then (m, CETCD_OK) else (foldl reindex_row m kvs, CETCD_OK).

End Manager.
