(* ===== verification/LeaseProps.v ===== *)
(** * Properties of the lease manager

    The manager refines a finite map from lease ids to TTL, deadline and
    attached keys; the array invariant, the expiry loop, durability and the
    save/load round trip are stated on Lease.v. *)

From S2P Require Import Slice KeyOrder Treap Hashmap Backend Mvcc Lease Prelude.

#[local] Open Scope Z_scope.

(** ** The abstract manager *)

Record lease_info : Type := mk_info { li_ttl : Z; li_deadline : Z; li_keys : list bytes }.

Definition info_of (l : cetcd_lease) : lease_info := mk_info (l_ttl_seconds l) (l_deadline_ms l) (l_keys l).

Definition lease_entry (l : cetcd_lease) : Z * lease_info := (l_id l, info_of l).

Definition leases_of {E} (m : cetcd_lease_mgr E) : gmap Z lease_info := list_to_map (lease_entry <$> m_leases m).

Definition lease_ids {E} (m : cetcd_lease_mgr E) : list Z := l_id <$> m_leases m.

(** A lease of the array: live cells inside the array and free of
    duplicates, a TTL inside the bounds. *)
Record lease_wf (l : cetcd_lease) : Prop := {
  lw_count : (l_key_count l <= length (l_slots l))%nat;
  lw_nodup : NoDup (l_keys l);
  lw_ttl : 0 < l_ttl_seconds l <= CETCD_MAX_LEASE_TTL
}.

Record lease_ok {E} (m : cetcd_lease_mgr E) : Prop := {
  lo_nodup : NoDup (lease_ids m);
  lo_ids : Forall (fun id => 0 < id < m_next_id m) (lease_ids m);
  lo_next : 0 < m_next_id m;
  lo_wf : Forall lease_wf (m_leases m)
}.

(** ** Arrays *)

Lemma shift_out_lookup {A} (l : list A) i x : l !! i = Some x -> l = take i l ++ x :: drop (S i) l.
Proof. intros H. by rewrite take_drop_middle. Qed.

Lemma shift_out_fmap {A B} (f : A -> B) i (l : list A) : f <$> shift_out i l = shift_out i (f <$> l).
Proof. unfold shift_out. by rewrite fmap_app, fmap_take, fmap_drop. Qed.

Lemma shift_out_perm {A} (l : list A) i x : l !! i = Some x -> l ≡ₚ x :: shift_out i l.
Proof. intros H. rewrite (shift_out_lookup l i x H) at 1. unfold shift_out. by rewrite Permutation_middle. Qed.

Lemma shift_out_last {A} (l : list A) x : shift_out (length l) (l ++ [x]) = l.
Proof. unfold shift_out. by rewrite take_app_length, drop_ge, app_nil_r by (rewrite length_app; cbn; lia). Qed.

Lemma list_to_map_delete {V} (l : list (Z * V)) i k v : NoDup l.*1 -> l !! i = Some (k, v) ->
  list_to_map (M := gmap Z V) (shift_out i l) = delete k (list_to_map l).
Proof.
  intros Hnd Hi. pose proof (shift_out_perm l i _ Hi) as Hp.
  rewrite (list_to_map_proper l _ Hnd Hp). cbn [list_to_map foldr]. cbn.
  rewrite delete_insert_id; [done|]. apply not_elem_of_list_to_map_1.
  rewrite Hp in Hnd. by apply NoDup_cons in Hnd as [? _].
Qed.

Lemma list_to_map_snoc {V} (l : list (Z * V)) k v : k ∉ l.*1 ->
  list_to_map (M := gmap Z V) (l ++ [(k, v)]) = <[k := v]> (list_to_map l).
Proof.
  intros Hk. rewrite list_to_map_app. cbn. rewrite <- insert_union_r by by apply not_elem_of_list_to_map_1.
  by rewrite (right_id_L ∅ (∪)).
Qed.

Lemma list_to_map_set {V} (l : list (Z * V)) i k v v' : NoDup l.*1 -> l !! i = Some (k, v) ->
  list_to_map (M := gmap Z V) (<[i := (k, v')]> l) = <[k := v']> (list_to_map l).
Proof.
  intros Hnd Hi. rewrite insert_take_drop by by eapply lookup_lt_Some.
  assert (Hp : take i l ++ (k, v') :: drop (S i) l ≡ₚ (k, v') :: shift_out i l)
    by (unfold shift_out; by rewrite Permutation_middle).
  pose proof (shift_out_perm l i _ Hi) as Hq. assert (Hn2 : NoDup ((k, v') :: shift_out i l).*1).
  { cbn. rewrite Hq in Hnd. exact Hnd. }
  assert (Hn3 : NoDup (take i l ++ (k, v') :: drop (S i) l).*1) by (rewrite Hp; exact Hn2).
  rewrite (list_to_map_proper _ _ Hn3 Hp), (list_to_map_proper l _ Hnd Hq).
  cbn. by rewrite insert_insert_eq.
Qed.

Lemma list_filter_all {A} (P : A -> Prop) `{!forall x, Decision (P x)} (l : list A) :
  (forall x, x ∈ l -> P x) -> filter P l = l.
Proof.
  induction l as [|x l IH]; intros Hl; [done|]. rewrite filter_cons_True by (apply Hl; by left).
  f_equal. apply IH. intros y Hy. apply Hl. by right.
Qed.

Section Props.
  Context {E : Type} `{!Backend E, !Clock}.
  Local Notation mgr := (cetcd_lease_mgr E).
  Implicit Types m : mgr.

(** ** Lookup *)

Lemma entries_fst m : (lease_entry <$> m_leases m).*1 = lease_ids m.
Proof. unfold lease_ids. by rewrite <- list_fmap_compose. Qed.

Lemma by_id_some m id i l : lease_by_id_ m id = Some (i, l) -> m_leases m !! i = Some l /\ l_id l = id.
Proof. intros (H1 & H2 & _)%list_find_Some. done. Qed.

Lemma by_id_none m id : lease_by_id_ m id = None <-> id ∉ lease_ids m.
Proof.
  unfold lease_by_id_, lease_ids. rewrite list_find_None, Forall_forall, list_elem_of_fmap. naive_solver.
Qed.

Lemma by_id_lookup m id : lease_ok m -> leases_of m !! id = (info_of ∘ snd) <$> lease_by_id_ m id.
Proof.
  intros Hok. destruct (lease_by_id_ m id) as [[i l]|] eqn:Hf.
  - apply by_id_some in Hf as [Hl <-]. apply elem_of_list_to_map_1; [rewrite entries_fst; apply Hok|].
    apply (list_elem_of_fmap_2' lease_entry (m_leases m) l); [by eapply list_elem_of_lookup_2|done].
  - apply by_id_none in Hf. apply not_elem_of_list_to_map_1. by rewrite entries_fst.
Qed.

Lemma exists_lookup m id : cetcd_lease_exists m id = true <-> id ∈ lease_ids m.
Proof.
  unfold cetcd_lease_exists. rewrite bool_decide_eq_true. destruct (lease_by_id_ m id) as [[i l]|] eqn:Hf.
  - apply by_id_some in Hf as [Hl <-]. split; [intros _|done]. by eapply list_elem_of_fmap_2, list_elem_of_lookup_2.
  - apply by_id_none in Hf. split; [by intros [? ?]|done].
Qed.

Lemma exists_map m id : lease_ok m -> cetcd_lease_exists m id = bool_decide (is_Some (leases_of m !! id)).
Proof.
  intros Hok. unfold cetcd_lease_exists. rewrite by_id_lookup by done. apply bool_decide_ext.
  by rewrite fmap_is_Some.
Qed.

(** ** What an operation leaves alone *)

(** Equal up to the environment and the number of clock readings. *)
Definition same_mem m m' : Prop :=
  m_leases m' = m_leases m /\ m_next_id m' = m_next_id m /\ m_now_ms m' = m_now_ms m /\
  m_on_expire m' = m_on_expire m /\ m_backend m' = m_backend m /\ m_have_bucket m' = m_have_bucket m.

Lemma persist_put_mem m l : same_mem m (mgr_persist_put m l).1.
Proof. unfold mgr_persist_put. destruct (m_backend m) eqn:Hb; [|done]. by destruct (persist_put_ _ _ _ _ _). Qed.

Lemma persist_del_mem m id : same_mem m (mgr_persist_del m id).1.
Proof. unfold mgr_persist_del. destruct (m_backend m) eqn:Hb; [|done]. by destruct (persist_del_ _ _). Qed.

Lemma same_mem_ok m m' : same_mem m m' -> lease_ok m -> lease_ok m'.
Proof.
  intros (Hl & Hn & _) [A1 A2 A3 A4]. split; unfold lease_ids in *; rewrite ?Hl, ?Hn; done.
Qed.

Lemma same_mem_leases m m' : same_mem m m' -> leases_of m' = leases_of m.
Proof. intros (Hl & _). unfold leases_of. by rewrite Hl. Qed.

(** ** Growing, shrinking and updating the array *)

Lemma ok_snoc m l : lease_ok m -> lease_wf l -> 0 < l_id l -> l_id l ∉ lease_ids m ->
  forall n, m_next_id m <= n -> l_id l < n ->
  forall m', m_leases m' = m_leases m ++ [l] -> m_next_id m' = n ->
  lease_ok m' /\ leases_of m' = <[l_id l := info_of l]> (leases_of m).
Proof.
  intros [A1 A2 A3 A4] Hw Hid Hnew n Hn Hlt m' El En. split.
  - split; unfold lease_ids in *; rewrite ?El, ?En, ?fmap_app; cbn.
    + apply NoDup_app. split_and!; [done| |by apply NoDup_singleton]. set_solver.
    + apply Forall_app. split; [|by apply Forall_singleton]. eapply Forall_impl; [exact A2|]. cbn. lia.
    + lia.
    + apply Forall_app. split; [done|by apply Forall_singleton].
  - unfold leases_of. rewrite El, fmap_app. cbn. apply list_to_map_snoc. by rewrite entries_fst.
Qed.

Lemma ok_shift m i l : lease_ok m -> m_leases m !! i = Some l ->
  forall m', m_leases m' = shift_out i (m_leases m) -> m_next_id m' = m_next_id m ->
  lease_ok m' /\ leases_of m' = delete (l_id l) (leases_of m).
Proof.
  intros [A1 A2 A3 A4] Hi m' El En. pose proof (shift_out_perm _ _ _ Hi) as Hp. split.
  - assert (Hq : lease_ids m ≡ₚ l_id l :: lease_ids m') by (unfold lease_ids; rewrite El; by rewrite Hp at 1).
    split; rewrite ?En; [| |done|].
    + rewrite Hq in A1. by apply NoDup_cons in A1 as [_ ?].
    + rewrite Hq in A2. by apply Forall_cons in A2 as [_ ?].
    + rewrite El. rewrite Hp in A4. by apply Forall_cons in A4 as [_ ?].
  - unfold leases_of. rewrite El, shift_out_fmap. apply list_to_map_delete with (v := info_of l).
    + by rewrite entries_fst.
    + by rewrite list_lookup_fmap, Hi.
Qed.

Lemma ok_set m i l l' : lease_ok m -> m_leases m !! i = Some l -> l_id l' = l_id l -> lease_wf l' ->
  lease_ok (set_lease m i l') /\ leases_of (set_lease m i l') = <[l_id l := info_of l']> (leases_of m).
Proof.
  intros [A1 A2 A3 A4] Hi Hid Hw. unfold set_lease. split.
  - assert (Hids : lease_ids (m <| m_leases := <[i := l']> (m_leases m) |>) = lease_ids m).
    { unfold lease_ids. cbn. rewrite list_fmap_insert. apply list_insert_id. by rewrite list_lookup_fmap, Hi, Hid. }
    split; rewrite ?Hids; try done. cbn. by apply Forall_insert.
  - unfold leases_of. cbn. rewrite list_fmap_insert. unfold lease_entry at 1. rewrite Hid.
    apply list_to_map_set with (v := info_of l); [by rewrite entries_fst|]. by rewrite list_lookup_fmap, Hi.
Qed.

Lemma bad_ttl_false ttl : bad_ttl ttl = false <-> 0 < ttl <= CETCD_MAX_LEASE_TTL.
Proof. unfold bad_ttl. rewrite orb_false_iff, Z.leb_gt, Z.ltb_ge. lia. Qed.

Lemma new_lease_wf id ttl d : bad_ttl ttl = false -> lease_wf (mk_lease id ttl d [] 0).
Proof. intros Ht%bad_ttl_false. split; [done|constructor|done]. Qed.

Lemma revoke_appended m l : l_id l ∉ lease_ids m ->
  forall m', m_leases m' = m_leases m ++ [l] -> revoke_mem_ m' (l_id l) = (m' <| m_leases := m_leases m |>, CETCD_OK).
Proof.
  intros Hnew m' El. unfold revoke_mem_, lease_by_id_. rewrite El, list_find_app_r.
  - cbn. rewrite decide_True by done. cbn. by rewrite shift_out_last.
  - by apply by_id_none.
Qed.

(** ** Attached keys *)

Lemma key_slot_spec l key :
  match key_slot l key with
  | Some j => l_keys l !! j = Some key
  | None => key ∉ l_keys l
  end.
Proof.
  unfold key_slot. destruct (list_find _ (l_keys l)) as [[j k]|] eqn:Hf; cbn.
  - apply list_find_Some in Hf as (Hj & [Hlen Hcmp] & _). rewrite Hj. f_equal. unfold blen in Hlen.
    apply memcmp_eq0 in Hcmp; [|lia|lia]. rewrite !take_ge in Hcmp by lia. done.
  - apply list_find_None in Hf. rewrite Forall_forall in Hf. intros Hin. apply (Hf key Hin).
    split; [done|]. by apply memcmp_eq0; [lia|lia|].
Qed.

Lemma l_keys_length l : lease_wf l -> length (l_keys l) = l_key_count l.
Proof. intros [Hc _ _]. unfold l_keys. rewrite length_take. lia. Qed.

Lemma attach_slot_spec l key : lease_wf l ->
  lease_wf (attach_slot l key) /\
  l_keys (attach_slot l key) = (if bool_decide (key ∈ l_keys l) then l_keys l else l_keys l ++ [key]).
Proof.
  intros Hw. unfold attach_slot. pose proof (key_slot_spec l key) as Hs. destruct (key_slot l key) as [j|].
  - rewrite bool_decide_true by by eapply list_elem_of_lookup_2. done.
  - rewrite bool_decide_false by done. set (l' := _ <| l_key_count := _ |>).
    assert (Hk : l_keys l' = l_keys l ++ [key]).
    { unfold l_keys, l'. cbn. pose proof (l_keys_length l Hw) as Hlen. unfold l_keys in Hlen.
      rewrite take_app, take_ge, Hlen by lia. f_equal. by replace (S _ - _)%nat with 1%nat by lia. }
    destruct Hw as [A1 A2 A3]. split; [|done]. split; [|rewrite Hk|done].
    + unfold l'. cbn. rewrite length_app, length_take. cbn. lia.
    + apply NoDup_app. split_and!; [done|set_solver|apply NoDup_singleton].
Qed.

Lemma detach_slot_keys l j : lease_wf l -> (j < l_key_count l)%nat ->
  l_keys (detach_slot l j) = shift_out j (l_keys l).
Proof.
  intros [Hc _ _] Hj. unfold l_keys, detach_slot, shift_out. cbn. rewrite app_assoc, take_app_le.
  - rewrite take_ge by (rewrite length_app, !length_take, length_drop, length_take; lia).
    by rewrite take_take, Nat.min_l by lia.
  - rewrite length_app, length_take, length_drop, length_take. lia.
Qed.

Lemma shift_out_filter (l : list bytes) j key : NoDup l -> l !! j = Some key ->
  shift_out j l = filter (fun k => k <> key) l.
Proof.
  intros Hnd Hj. rewrite (shift_out_lookup l j key Hj) in Hnd |- * at 2.
  apply NoDup_app in Hnd as (N1 & N2 & [N3 N4]%NoDup_cons). rewrite filter_app, filter_cons_False by (cbn; auto).
  unfold shift_out. f_equal; symmetry; apply list_filter_all; intros k Hk; cbn; set_solver.
Qed.

Lemma detach_slot_spec l j key : lease_wf l -> l_keys l !! j = Some key ->
  lease_wf (detach_slot l j) /\ l_keys (detach_slot l j) = filter (fun k => k <> key) (l_keys l).
Proof.
  intros Hw Hj. assert (Hlt : (j < l_key_count l)%nat)
    by (rewrite <- (l_keys_length l Hw); by eapply lookup_lt_Some).
  pose proof (detach_slot_keys l j Hw Hlt) as Hk. destruct Hw as [A1 A2 A3]. split.
  - split; [|rewrite Hk|done].
    + unfold detach_slot. cbn. rewrite !length_app, length_take, !length_drop, length_take. lia.
    + rewrite (shift_out_filter _ _ _ A2 Hj). by apply NoDup_filter.
  - rewrite Hk. by apply shift_out_filter.
Qed.

(** ** The operations on the map *)

(** A write to the backend succeeds, or none is attached. *)
Definition write_ok m : Prop :=
  m_backend m = false \/ forall b k v b2 k2 v2, (be_put2 (m_env m) b k v b2 k2 v2).2 = CETCD_OK.

Definition del_ok m id : Prop :=
  m_backend m = false \/ (be_del (m_env m) LEASE_BUCKET (write_le64_ id)).2 = CETCD_OK.

Lemma write_ok_put m l : write_ok m -> (mgr_persist_put m l).2 = CETCD_OK.
Proof.
  unfold mgr_persist_put. destruct (m_backend m) eqn:Hb; [|done]. intros [?|Hw]; [congruence|].
  pose proof (Hw LEASE_BUCKET (write_le64_ (l_id l)) (Some (lease_row l (m_now_ms m) (realtime_ms_ (m_clock m))))
    LEASE_BUCKET LEASE_KEY_NEXT (write_le64_ (m_next_id m))) as Hp. unfold persist_put_.
  by destruct (be_put2 _ _ _ _ _ _ _).
Qed.

Lemma del_ok_iff m id : (mgr_persist_del m id).2 = CETCD_OK <->
  m_backend m = false \/ (be_del (m_env m) LEASE_BUCKET (write_le64_ id)).2 ∈ [CETCD_OK; CETCD_ERR_NOTFOUND].
Proof.
  unfold mgr_persist_del, persist_del_. destruct (m_backend m); [|naive_solver].
  destruct (be_del _ _ _) as [be rc]. cbn. rewrite elem_of_cons, list_elem_of_singleton.
  split; [intros Hrc; right; destruct rc; auto; discriminate|by intros [?|[-> | ->]]].
Qed.

(** What a grant of [id] returns and leaves. *)
Record granted m (id ttl : Z) (m' : mgr) (r : Z) : Prop := {
  gr_ok : lease_ok m';
  gr_now : m_now_ms m' = m_now_ms m;
  gr_next : m_next_id m <= m_next_id m' <= Z.max (m_next_id m) (id + 1);
  gr_result :
    (r = 0 /\ leases_of m' = leases_of m) \/
    (r = id /\ id < m_next_id m' /\ leases_of m !! id = None /\
     leases_of m' = <[id := mk_info ttl (m_now_ms m + ttl * 1000) []]> (leases_of m))
}.

Lemma grant_lease_spec m m1 l : lease_ok m -> lease_wf l -> l_keys l = [] -> 0 < l_id l -> l_id l ∉ lease_ids m ->
  m_leases m1 = m_leases m ++ [l] -> m_now_ms m1 = m_now_ms m ->
  m_next_id m1 = Z.max (m_next_id m) (l_id l + 1) -> l_deadline_ms l = m_now_ms m + l_ttl_seconds l * 1000 ->
  granted m (l_id l) (l_ttl_seconds l) (grant_lease m1 l).1 (grant_lease m1 l).2 /\
  (write_ok m1 -> (grant_lease m1 l).2 = l_id l).
Proof.
  intros Hok Hw Hk Hid Hnew El Enow En Ed. unfold grant_lease.
  pose proof (persist_put_mem m1 l) as (Pl & Pn & Pt & _). pose proof (write_ok_put m1 l) as Hwr.
  destruct (mgr_persist_put m1 l) as [m2 rc]. cbn [fst snd] in *. rewrite El in Pl. destruct (is_ok rc) eqn:Hrc.
  - split; [|done].
    destruct (ok_snoc m l Hok Hw Hid Hnew (m_next_id m2) ltac:(lia) ltac:(lia) m2 Pl eq_refl) as [Hok2 Hm2].
    split; cbn [fst snd]; [done|congruence|lia|]. right. split_and!; [done|lia| |].
    + apply not_elem_of_list_to_map_1. by rewrite entries_fst.
    + rewrite Hm2. unfold info_of. by rewrite Ed, Hk.
  - split; [|intros Hw1; by rewrite Hwr in Hrc].
    rewrite (revoke_appended m l Hnew m2 Pl). cbn [fst snd].
    split; cbn; [|congruence|lia|left; done].
    destruct Hok as [A1 A2 A3 A4]. split; cbn; try done; [|lia].
    eapply Forall_impl; [exact A2|]. cbn. lia.
Qed.

Lemma next_fresh m : lease_ok m -> m_next_id m ∉ lease_ids m.
Proof. intros [_ A2 _ _] Hin. rewrite Forall_forall in A2. apply A2 in Hin. lia. Qed.

Lemma grant_spec m ttl : lease_ok m -> m_next_id m + 1 < 2 ^ 64 ->
  granted m (m_next_id m) ttl (cetcd_lease_grant m ttl).1 (cetcd_lease_grant m ttl).2 /\
  (write_ok m -> (cetcd_lease_grant m ttl).2 = if bad_ttl ttl then 0 else m_next_id m).
Proof.
  intros Hok Hb. unfold cetcd_lease_grant. destruct (bad_ttl ttl) eqn:Ht.
  { split; [|done]. split; [done|done|cbn; lia|by left]. }
  pose proof (lo_next m Hok). set (l := mk_lease _ ttl _ _ _). set (m1 := _ <| m_leases := _ |>).
  apply (grant_lease_spec m m1 l); try done; [by apply new_lease_wf|by apply next_fresh|].
  cbn. rewrite u64_small by (unfold in_u64; lia). lia.
Qed.

Lemma grant_id_spec m id ttl : lease_ok m -> 0 <= id < 2 ^ 64 - 1 ->
  granted m id ttl (cetcd_lease_grant_id m id ttl).1 (cetcd_lease_grant_id m id ttl).2 /\
  (write_ok m -> (cetcd_lease_grant_id m id ttl).2 =
     if (id =? 0) || bad_ttl ttl || cetcd_lease_exists m id then 0 else id).
Proof.
  intros Hok Hid. unfold cetcd_lease_grant_id. assert (Hsame : granted m id ttl m 0).
  { split; [done|done|lia|by left]. }
  destruct (Z.eqb_spec id 0) as [->|Hz]; cbn [orb]; [done|]. destruct (bad_ttl ttl) eqn:Ht; cbn [orb]; [done|].
  destruct (cetcd_lease_exists m id) eqn:Hex; [done|]. assert (Hnew : id ∉ lease_ids m).
  { rewrite <- exists_lookup, Hex. done. }
  set (l := mk_lease id ttl _ _ _). cbv zeta. set (m0 := _ <| m_leases := _ |>).
  set (m1 := if _ <=? _ then _ else _).
  assert (Hm1 : m_leases m1 = m_leases m ++ [l] /\ m_now_ms m1 = m_now_ms m /\
    m_next_id m1 = Z.max (m_next_id m) (id + 1) /\ (write_ok m -> write_ok m1)).
  { unfold m1. destruct (Z.leb_spec (m_next_id m0) id) as [Hle|Hgt]; cbn in *; split_and!; try done; [|lia].
    rewrite u64_small by (unfold in_u64; lia). lia. }
  destruct Hm1 as (El & Enow & En & Hwr).
  destruct (grant_lease_spec m m1 l) as [Hg Hs]; try done; [by apply new_lease_wf|cbn; lia|].
  split; [exact Hg|]. auto.
Qed.

Lemma revoke_mem_spec m id : lease_ok m -> id ∈ lease_ids m ->
  exists m', revoke_mem_ m id = (m', CETCD_OK) /\ lease_ok m' /\ leases_of m' = delete id (leases_of m) /\
    m_now_ms m' = m_now_ms m /\ m_next_id m' = m_next_id m.
Proof.
  intros Hok Hin. unfold revoke_mem_. destruct (lease_by_id_ m id) as [[i l]|] eqn:Hf; [|by apply by_id_none in Hf].
  apply by_id_some in Hf as [Hi <-]. eexists. split; [done|].
  by destruct (ok_shift m i l Hok Hi (m <| m_leases := shift_out i (m_leases m) |>)).
Qed.

Lemma revoke_spec m id : lease_ok m ->
  let '(m', rc) := cetcd_lease_revoke m id in
  lease_ok m' /\ m_now_ms m' = m_now_ms m /\ m_next_id m' = m_next_id m /\
  leases_of m' = (if is_ok rc then delete id (leases_of m) else leases_of m) /\
  (rc = CETCD_ERR_NOTFOUND <-> leases_of m !! id = None) /\
  (del_ok m id -> is_Some (leases_of m !! id) -> rc = CETCD_OK).
Proof.
  intros Hok. unfold cetcd_lease_revoke. rewrite exists_map by done.
  destruct (decide (is_Some (leases_of m !! id))) as [Hs|Hs].
  2: { rewrite bool_decide_false by done. apply eq_None_not_Some in Hs. cbn. rewrite Hs. by split_and!. }
  rewrite bool_decide_true by done. cbn [negb].
  assert (Hin : id ∈ lease_ids m) by (apply exists_lookup; by rewrite exists_map, bool_decide_true).
  pose proof (persist_del_mem m id) as Hsame. pose proof (del_ok_iff m id) as Hdel.
  destruct (mgr_persist_del m id) as [m1 rc] eqn:Hpd. cbn [fst snd] in *.
  pose proof (same_mem_ok _ _ Hsame Hok) as Hok1. pose proof (same_mem_leases _ _ Hsame) as Hl1.
  pose proof Hsame as (El & En & Et & _).
  assert (Hnf : rc <> CETCD_ERR_NOTFOUND).
  { revert Hpd. unfold mgr_persist_del, persist_del_. destruct (m_backend m); [|congruence].
    destruct (be_del _ _ _) as [be []]; congruence. }
  destruct (decide (rc = CETCD_OK)) as [->|Hne].
  - cbn [is_ok negb]. destruct (revoke_mem_spec m1 id Hok1) as (m2 & -> & Hok2 & Hl2 & Et2 & En2).
    { unfold lease_ids in *. by rewrite El. }
    split_and!; [done|congruence|congruence|by rewrite Hl2, Hl1| |done].
    split; [done|]. intros Hn. destruct Hs as [? Hs]. congruence.
  - replace (is_ok rc) with false by (by destruct rc). cbn [negb is_ok].
    replace (is_ok rc) with false by (by destruct rc). split_and!; try done.
    + split; [done|]. intros Hn. destruct Hs as [? Hs]. congruence.
    + intros Hd _. apply Hdel. destruct Hd as [?|Hd]; [by left|right]. rewrite Hd. by left.
Qed.

Lemma set_back m m' i (l l' : cetcd_lease) : same_mem (set_lease m i l') m' -> m_leases m !! i = Some l ->
  same_mem m (set_lease m' i l).
Proof.
  intros (A1 & A2 & A3 & A4 & A5 & A6) Hi. unfold same_mem, set_lease in *. cbn in *.
  rewrite A1, list_insert_insert_eq, list_insert_id by done. done.
Qed.

Lemma keep_alive_spec m id ttl : lease_ok m -> bad_ttl ttl = false ->
  let '(m', rc) := cetcd_lease_keep_alive m id ttl in
  lease_ok m' /\ m_now_ms m' = m_now_ms m /\ m_next_id m' = m_next_id m /\
  leases_of m' = (if is_ok rc then alter (fun li => mk_info ttl (m_now_ms m + ttl * 1000) (li_keys li)) id (leases_of m)
                  else leases_of m) /\
  (rc = CETCD_ERR_NOTFOUND <-> leases_of m !! id = None) /\
  (write_ok m -> is_Some (leases_of m !! id) -> rc = CETCD_OK).
Proof.
  intros Hok Ht. unfold cetcd_lease_keep_alive. rewrite by_id_lookup by done.
  destruct (lease_by_id_ m id) as [[i l]|] eqn:Hf; cbn [fmap option_fmap option_map].
  2: { cbn. by split_and!. }
  pose proof (by_id_lookup m id Hok) as Hlk. rewrite Hf in Hlk. cbn in Hlk.
  apply by_id_some in Hf as [Hi <-]. set (l' := _ <| l_deadline_ms := _ |>).
  assert (Hw : lease_wf l') by (destruct (proj1 (Forall_lookup _ _) (lo_wf m Hok) i l Hi); split; [done|done|by apply bad_ttl_false]).
  destruct (ok_set m i l l' Hok Hi eq_refl Hw) as [Hok1 Hl1].
  pose proof (persist_put_mem (set_lease m i l') l') as Hsame. pose proof (write_ok_put (set_lease m i l') l') as Hwr.
  destruct (mgr_persist_put _ _) as [m2 rc]. cbn [fst snd] in *. pose proof Hsame as (El & En & Et & _).
  destruct (is_ok rc) eqn:Hrc.
  - split_and!; [by eapply same_mem_ok|done|done| |done|done]. cbn [is_ok].
    rewrite (same_mem_leases _ _ Hsame), Hl1. apply map_eq. intros k. destruct (decide (k = l_id l)) as [->|Hk].
    + by rewrite lookup_insert_eq, lookup_alter_eq, Hlk.
    + by rewrite lookup_insert_ne, lookup_alter_ne.
  - pose proof (set_back _ _ _ l l' Hsame Hi) as Hb. split_and!; [by eapply same_mem_ok|apply Hb|apply Hb| |done|].
    + exact (same_mem_leases _ _ Hb).
    + intros Hw2 _. rewrite Hwr in Hrc; [done|]. exact Hw2.
Qed.

Lemma attach_spec m id key : lease_ok m ->
  let '(m', rc) := cetcd_lease_attach_key m id key in
  lease_ok m' /\ m_now_ms m' = m_now_ms m /\ m_next_id m' = m_next_id m /\
  rc = (if bool_decide (is_Some (leases_of m !! id)) then CETCD_OK else CETCD_ERR_NOTFOUND) /\
  leases_of m' = alter (fun li => mk_info (li_ttl li) (li_deadline li)
    (if bool_decide (key ∈ li_keys li) then li_keys li else li_keys li ++ [key])) id (leases_of m).
Proof.
  intros Hok. unfold cetcd_lease_attach_key. rewrite by_id_lookup by done. pose proof (by_id_lookup m id Hok) as Hlk.
  destruct (lease_by_id_ m id) as [[i l]|] eqn:Hf; cbn [fmap option_fmap option_map] in *.
  2: { rewrite bool_decide_false by (by intros [? ?]). split_and!; try done. symmetry. apply alter_id. congruence. }
  rewrite bool_decide_true by done. apply by_id_some in Hf as [Hi <-].
  assert (Hw : lease_wf l) by by apply (proj1 (Forall_lookup _ _) (lo_wf m Hok) i).
  destruct (attach_slot_spec l key Hw) as [Hw' Hk]. assert (Hattr : info_of (attach_slot l key) = mk_info (l_ttl_seconds l) (l_deadline_ms l) (l_keys (attach_slot l key)) /\ l_id (attach_slot l key) = l_id l)
    by (unfold attach_slot; by destruct (key_slot l key)).
  destruct Hattr as [Hinfo Hid]. destruct (ok_set m i l _ Hok Hi Hid Hw') as [Hok1 Hl1]. split_and!; try done.
  rewrite Hl1. apply map_eq. intros k. destruct (decide (k = l_id l)) as [->|Hne].
  - rewrite lookup_insert_eq, lookup_alter_eq, Hlk. cbn. by rewrite Hinfo, Hk.
  - by rewrite lookup_insert_ne, lookup_alter_ne.
Qed.

Lemma detach_spec m id key : lease_ok m ->
  let '(m', rc) := cetcd_lease_detach_key m id key in
  lease_ok m' /\ m_now_ms m' = m_now_ms m /\ m_next_id m' = m_next_id m /\
  (rc = CETCD_OK <-> exists li, leases_of m !! id = Some li /\ key ∈ li_keys li) /\
  leases_of m' = alter (fun li => mk_info (li_ttl li) (li_deadline li) (filter (fun k => k <> key) (li_keys li)))
    id (leases_of m).
Proof.
  intros Hok. unfold cetcd_lease_detach_key. rewrite by_id_lookup by done. pose proof (by_id_lookup m id Hok) as Hlk.
  destruct (lease_by_id_ m id) as [[i l]|] eqn:Hf; cbn [fmap option_fmap option_map] in *.
  2: { split_and!; try done; [naive_solver|]. symmetry. apply alter_id. congruence. }
  apply by_id_some in Hf as [Hi <-].
  assert (Hw : lease_wf l) by by apply (proj1 (Forall_lookup _ _) (lo_wf m Hok) i).
  pose proof (key_slot_spec l key) as Hs. destruct (key_slot l key) as [j|].
  - destruct (detach_slot_spec l j key Hw Hs) as [Hw' Hk].
    destruct (ok_set m i l (detach_slot l j) Hok Hi eq_refl Hw') as [Hok1 Hl1]. split_and!; try done.
    + split; [intros _|done]. eexists. split; [done|]. cbn. by eapply list_elem_of_lookup_2.
    + rewrite Hl1. apply map_eq. intros k. destruct (decide (k = l_id l)) as [->|Hne].
      * rewrite lookup_insert_eq, lookup_alter_eq, Hlk. cbn. unfold info_of. by rewrite Hk.
      * by rewrite lookup_insert_ne, lookup_alter_ne.
  - split_and!; try done; [split; [done|naive_solver]|]. symmetry. apply map_eq. intros k.
    destruct (decide (k = l_id l)) as [->|Hne]; [|by rewrite lookup_alter_ne].
    rewrite lookup_alter_eq, Hlk. cbn. unfold info_of. rewrite list_filter_all; [done|]. cbn. intros x Hx ->. done.
Qed.

(** The manager refines a map from ids to TTL, deadline and keys.  On every
    branch of a grant (automatic or chosen id), a revoke, a keep-alive, an
    attach and a detach: the array invariant is kept; the map changes exactly
    by the insertion, deletion or update of that id when the operation
    succeeds, and not at all when it fails, whatever the backend does; a grant
    of a taken id or with a TTL out of bounds fails, and any other succeeds
    when the backend accepts the write. *)
Theorem lease_refines m id ttl key (Hok : lease_ok m) (Hid : 0 <= id < 2 ^ 64 - 1) (Hnext : m_next_id m + 1 < 2 ^ 64)
  (Httl : bad_ttl ttl = false) :
  (granted m (m_next_id m) ttl (cetcd_lease_grant m ttl).1 (cetcd_lease_grant m ttl).2 /\
   (write_ok m -> (cetcd_lease_grant m ttl).2 = m_next_id m)) /\
  (granted m id ttl (cetcd_lease_grant_id m id ttl).1 (cetcd_lease_grant_id m id ttl).2 /\
   (write_ok m -> (cetcd_lease_grant_id m id ttl).2 = if (id =? 0) || cetcd_lease_exists m id then 0 else id)) /\
  (let '(m', rc) := cetcd_lease_revoke m id in
   lease_ok m' /\ leases_of m' = (if is_ok rc then delete id (leases_of m) else leases_of m) /\
   (rc = CETCD_ERR_NOTFOUND <-> leases_of m !! id = None) /\
   (del_ok m id -> is_Some (leases_of m !! id) -> rc = CETCD_OK)) /\
  (let '(m', rc) := cetcd_lease_keep_alive m id ttl in
   lease_ok m' /\
   leases_of m' = (if is_ok rc then alter (fun li => mk_info ttl (m_now_ms m + ttl * 1000) (li_keys li)) id (leases_of m)
                   else leases_of m) /\
   (rc = CETCD_ERR_NOTFOUND <-> leases_of m !! id = None) /\
   (write_ok m -> is_Some (leases_of m !! id) -> rc = CETCD_OK)) /\
  (let '(m', rc) := cetcd_lease_attach_key m id key in
   lease_ok m' /\ (rc = CETCD_OK <-> is_Some (leases_of m !! id)) /\
   leases_of m' = alter (fun li => mk_info (li_ttl li) (li_deadline li)
     (if bool_decide (key ∈ li_keys li) then li_keys li else li_keys li ++ [key])) id (leases_of m)) /\
  (let '(m', rc) := cetcd_lease_detach_key m id key in
   lease_ok m' /\ (rc = CETCD_OK <-> exists li, leases_of m !! id = Some li /\ key ∈ li_keys li) /\
   leases_of m' = alter (fun li => mk_info (li_ttl li) (li_deadline li) (filter (fun k => k <> key) (li_keys li)))
     id (leases_of m)).
Proof.
  split_and!.
  - apply grant_spec; done.
  - intros Hw. rewrite (proj2 (grant_spec m ttl Hok Hnext)) by done. by rewrite Httl.
  - apply grant_id_spec; done.
  - intros Hw. rewrite (proj2 (grant_id_spec m id ttl Hok Hid)) by done. by rewrite Httl, orb_false_r.
  - pose proof (revoke_spec m id Hok). destruct (cetcd_lease_revoke m id). naive_solver.
  - pose proof (keep_alive_spec m id ttl Hok Httl). destruct (cetcd_lease_keep_alive m id ttl). naive_solver.
  - pose proof (attach_spec m id key Hok) as Ha. destruct (cetcd_lease_attach_key m id key) as [m' rc].
    destruct Ha as (Ha & _ & _ & -> & Hl). split_and!; [done| |done]. case_bool_decide; naive_solver.
  - pose proof (detach_spec m id key Hok). destruct (cetcd_lease_detach_key m id key). naive_solver.
Qed.

(** ** Expiry *)

(** Id, TTL and deadline of a lease. *)
Definition lease_time (l : cetcd_lease) : Z * Z * Z := (l_id l, l_ttl_seconds l, l_deadline_ms l).

(** What one pass does to the leases, in array order: a lease with time left
    stays; a due lease leaves and its id is passed to the callback, or, only
    when deletions can fail, stays. *)
Inductive swept (now : Z) (can_fail : Prop) : list (Z * Z * Z) -> list (Z * Z * Z) -> list Z -> Prop :=
| swept_nil : swept now can_fail [] [] []
| swept_live t ts ks ids : now < t.2 -> swept now can_fail ts ks ids -> swept now can_fail (t :: ts) (t :: ks) ids
| swept_stuck t ts ks ids :
    t.2 <= now -> can_fail -> swept now can_fail ts ks ids -> swept now can_fail (t :: ts) (t :: ks) ids
| swept_due t ts ks ids :
    t.2 <= now -> swept now can_fail ts ks ids -> swept now can_fail (t :: ts) ks (t.1.1 :: ids).

(** A callback may change the keys of leases and anything outside the manager,
    but not which leases there are. *)
Definition cb_frame {X} (cb : Z -> mgr * X -> mgr * X) : Prop := forall id w,
  lease_time <$> m_leases (cb id w).1 = lease_time <$> m_leases w.1 /\ m_now_ms (cb id w).1 = m_now_ms w.1 /\
  m_on_expire (cb id w).1 = m_on_expire w.1 /\ m_backend (cb id w).1 = m_backend w.1.

(** The callback with a log of the ids it was called for. *)
Definition logged {X} (cb : Z -> mgr * X -> mgr * X) (id : Z) (w : mgr * (X * list Z)) : mgr * (X * list Z) :=
  let r := cb id (w.1, w.2.1) in (r.1, (r.2, w.2.2 ++ [id])).

Definition del_can_fail (attached : bool) : Prop :=
  attached = true /\ exists (e : E) k, (be_del e LEASE_BUCKET k).2 <> CETCD_OK.

Lemma times_lookup (ls : list cetcd_lease) i P t R : lease_time <$> ls = P ++ t :: R -> length P = i ->
  exists l, ls !! i = Some l /\ lease_time l = t.
Proof.
  intros Hl Hi. apply (f_equal (fun k => k !! i)) in Hl. rewrite list_lookup_fmap, list_lookup_middle in Hl by done.
  destruct (ls !! i) as [l|]; [|done]. cbn in Hl. injection Hl as Hl. by exists l.
Qed.

Lemma times_shift (ls : list cetcd_lease) i P t R : lease_time <$> ls = P ++ t :: R -> length P = i ->
  lease_time <$> shift_out i ls = P ++ R.
Proof.
  intros Hl Hi. rewrite shift_out_fmap, Hl. unfold shift_out. rewrite take_app_length' by done.
  by rewrite cons_middle, app_assoc, drop_app_length' by (rewrite length_app; cbn; lia).
Qed.

Lemma tick_loop_spec {X} (cb : Z -> mgr * X -> mgr * X) (Hcb : cb_frame cb) fuel : forall i m x log P R,
  m_on_expire m = true -> lease_time <$> m_leases m = P ++ R -> length P = i -> (length R <= fuel)%nat ->
  exists m' x' ks ids, tick_loop (logged cb) fuel i (m, (x, log)) = Some (m', (x', log ++ ids)) /\
    swept (m_now_ms m) (del_can_fail (m_backend m)) R ks ids /\ lease_time <$> m_leases m' = P ++ ks /\
    m_now_ms m' = m_now_ms m.
Proof.
  induction fuel as [|fuel IH]; intros i m x log P R Hon Hl Hi Hfuel; (destruct R as [|t R]; cbn [length] in Hfuel; [|]).
  1,3: exists m, x, [], []; rewrite app_nil_r; split_and!; [|constructor|done|done];
    cbn [tick_loop fst]; rewrite (lookup_ge_None_2 (m_leases m) i); [done|];
    rewrite <- (length_fmap lease_time), Hl, app_nil_r, Hi; lia.
  { lia. }
  destruct (times_lookup _ i P t R Hl Hi) as (l & Hli & Ht). cbn [tick_loop fst snd]. rewrite Hli.
  assert (Hnext : lease_time <$> m_leases m = (P ++ [t]) ++ R) by by rewrite Hl, <- app_assoc.
  assert (Hlen : length (P ++ [t]) = S i) by (rewrite length_app; cbn; lia).
  assert (Htd : t.2 = l_deadline_ms l) by by rewrite <- Ht.
  destruct (Z.leb_spec (l_deadline_ms l) (m_now_ms m)) as [Hdue|Hlive].
  2: { destruct (IH (S i) m x log (P ++ [t]) R Hon Hnext Hlen ltac:(lia)) as (m' & x' & ks & ids & Hr & Hs & Hl' & Hn).
       exists m', x', (t :: ks), ids. split_and!; [done|constructor; [lia|done]| |done]. by rewrite Hl', <- app_assoc. }
  pose proof (persist_del_mem m (l_id l)) as Hsame. pose proof (proj2 (del_ok_iff m (l_id l))) as Hdel.
  destruct (mgr_persist_del m (l_id l)) as [m1 rc]. cbn [fst snd] in *.
  destruct Hsame as (El & _ & En & Eo & Eb & _). destruct (is_ok rc) eqn:Hrc; cbn [negb].
  - rewrite Eo, Hon.
    replace (logged cb (l_id l) (m1, (x, log))) with
      ((cb (l_id l) (m1, x)).1, ((cb (l_id l) (m1, x)).2, log ++ [l_id l])) by done. cbn [fst snd]. destruct (Hcb (l_id l) (m1, x)) as (Cl & Cn & Co & Cb).
    destruct (cb (l_id l) (m1, x)) as [m2 x2]. cbn [fst snd] in *. set (m3 := _ <| m_leases := _ |>).
    destruct (IH i m3 x2 (log ++ [l_id l]) P R) as (m' & x' & ks & ids & Hr & Hs & Hl' & Hn); [cbn; congruence| |done|lia|].
    { unfold m3. cbn. apply times_shift with t; [|done]. by rewrite Cl, El. }
    exists m', x', ks, (l_id l :: ids). unfold m3 in Hs, Hn. cbn in Hs, Hn. rewrite Cn, En, Cb, Eb in Hs.
    split_and!; [by rewrite Hr, <- app_assoc| |done|congruence].
    replace (l_id l) with t.1.1 by by rewrite <- Ht. constructor; [lia|done].
  - destruct (IH (S i) m1 x log (P ++ [t]) R) as (m' & x' & ks & ids & Hr & Hs & Hl' & Hn); [congruence|congruence|done|lia|].
    exists m', x', (t :: ks), ids. rewrite En, Eb in Hs.
    split_and!; [done| |by rewrite Hl', <- app_assoc|congruence]. apply swept_stuck; [lia| |done].
    destruct (m_backend m) eqn:Hb; [|by rewrite Hdel in Hrc; [|left]].
    split; [done|]. exists (m_env m), (write_le64_ (l_id l)). intros Ho. rewrite Hdel in Hrc; [done|]. right. rewrite Ho. by left.
Qed.

Lemma shift_out_length {A} i (l : list A) : (i < length l)%nat -> length (shift_out i l) = (length l - 1)%nat.
Proof. intros Hi. unfold shift_out. rewrite length_app, length_take, length_drop. lia. Qed.

Lemma tick_loop_total {X} (cb : Z -> mgr * X -> mgr * X) fuel : forall i w,
  (forall id w, length (m_leases (cb id w).1) = length (m_leases w.1)) ->
  (length (m_leases w.1) <= i + fuel)%nat -> is_Some (tick_loop cb fuel i w).
Proof.
  induction fuel as [|fuel IH]; intros i [m x] Hcb Hf; cbn [tick_loop fst snd] in *;
    destruct (m_leases m !! i) as [l|] eqn:Hl; try done.
  { apply lookup_lt_Some in Hl. lia. }
  apply lookup_lt_Some in Hl. destruct (_ <=? _); [|apply IH; [done|cbn; lia]].
  pose proof (persist_del_mem m (l_id l)) as (El & _). destruct (mgr_persist_del m (l_id l)) as [m1 rc].
  cbn [fst snd] in El. destruct (is_ok rc); cbn [negb]; [|apply IH; [done|cbn; rewrite El; lia]].
  assert (Hw : forall w : mgr * X, length (m_leases w.1) = length (m_leases m) ->
    is_Some (tick_loop cb fuel i (w.1 <| m_leases := shift_out i (m_leases w.1) |>, w.2))).
  { intros w Hw. apply IH; [done|]. cbn. rewrite shift_out_length by lia. lia. }
  destruct (m_on_expire m1); apply Hw; cbn; [rewrite Hcb; cbn|]; by rewrite El.
Qed.

(** The expiry loop terminates.  Removing a lease leaves the index where it
    is and keeping one moves it on, so with one iteration per lease the pass
    is complete, for every callback that does not change the number of
    leases and every outcome of the backend's deletions. *)
Theorem lease_tick_terminates {X} (cb : Z -> mgr * X -> mgr * X) (w : mgr * X) (elapsed : Z)
  (Hcb : forall id w, length (m_leases (cb id w).1) = length (m_leases w.1)) :
  is_Some (cetcd_lease_mgr_tick cb w elapsed).
Proof.
  unfold cetcd_lease_mgr_tick. destruct (_ <=? _); [done|]. apply tick_loop_total; [done|]. cbn. lia.
Qed.

(** A tick advances the time, keeps every lease whose deadline lies in the
    future in its place, and removes every due lease in array order with
    exactly one call of the callback; a due lease stays (to be tried again)
    only when an attached backend can fail to delete a row. *)
Theorem lease_tick_spec {X} (cb : Z -> mgr * X -> mgr * X) m (x : X) (elapsed : Z) (Hcb : cb_frame cb)
  (Hon : m_on_expire m = true) (He : 0 < elapsed) :
  exists m' x' ids, cetcd_lease_mgr_tick (logged cb) (m, (x, [])) elapsed = Some (m', (x', ids)) /\
    m_now_ms m' = m_now_ms m + elapsed /\
    swept (m_now_ms m + elapsed) (del_can_fail (m_backend m)) (lease_time <$> m_leases m)
      (lease_time <$> m_leases m') ids.
Proof.
  unfold cetcd_lease_mgr_tick. rewrite (proj2 (Z.leb_gt _ _)) by lia. cbn [fst snd].
  set (m1 := m <| m_now_ms := _ |>).
  destruct (tick_loop_spec cb Hcb (length (m_leases m1)) 0 m1 x [] [] (lease_time <$> m_leases m))
    as (m' & x' & ks & ids & Hr & Hs & Hl & Hn); [done|done|done|by rewrite length_fmap|].
  exists m', x', ids. rewrite Hr. split_and!; [done|done|]. rewrite Hl. exact Hs.
Qed.

(** An attached manager cannot get rid of a lease that has no row in the
    bucket: the deletion is reported as an I/O error, so a revoke fails and
    every tick keeps the lease. *)
Lemma missing_row_revoke `{!BackendLaws E} m id : m_backend m = true -> id ∈ lease_ids m ->
  be_view (m_env m) LEASE_BUCKET !! write_le64_ id = None -> (cetcd_lease_revoke m id).2 = CETCD_ERR_IO.
Proof.
  intros Hb Hid Hv. unfold cetcd_lease_revoke. rewrite (proj2 (exists_lookup m id) Hid). cbn [negb].
  unfold mgr_persist_del, persist_del_. rewrite Hb. pose proof (be_del_missing _ _ _ Hv) as Hd.
  destruct (be_del _ _ _) as [be rc]. cbn in Hd. by subst rc.
Qed.

End Props.
