(* ===== verification/LeaseRestart.v ===== *)
(** * Runs of the lease manager and its restart

    Sequences of manager operations keep the array invariant and keep every
    live lease durable in the backend; loading the bucket after a restart
    brings every live lease back with the wall-clock time it has left. *)

From S2P Require Import Slice KeyOrder Treap Hashmap Backend Mvcc MvccSnap MvccStore MvccProps MvccLoad Lease LeaseProps Prelude.

#[local] Open Scope Z_scope.

(** ** Keys of the bucket *)

Lemma write_le64_inj a b : in_u64 a -> in_u64 b -> write_le64_ a = write_le64_ b -> a = b.
Proof.
  intros Ha Hb Hab. apply (f_equal le_get) in Hab. unfold write_le64_ in Hab.
  rewrite !u64_small, !le_get_put in Hab by (unfold in_u64 in *; cbn; lia). done.
Qed.

Lemma write_le64_not_next a : write_le64_ a <> LEASE_KEY_NEXT.
Proof. intros Ha. apply (f_equal length) in Ha. unfold write_le64_ in Ha. by rewrite le_put_length in Ha. Qed.

Section Runs.
  Context {E X : Type} `{BackendLaws E, !Clock}.
  Local Notation mgr := (cetcd_lease_mgr E).
  Implicit Types m : mgr.

(** The expiry callback of the program: it may change anything outside the
    manager and detach keys, and writes to other buckets only. *)
Definition cb_good (cb : Z -> mgr * X -> mgr * X) : Prop := forall id w, lease_ok w.1 ->
  lease_ok (cb id w).1 /\ lease_time <$> m_leases (cb id w).1 = lease_time <$> m_leases w.1 /\
  m_now_ms (cb id w).1 = m_now_ms w.1 /\ m_next_id (cb id w).1 = m_next_id w.1 /\
  m_backend (cb id w).1 = m_backend w.1 /\ m_clock (cb id w).1 = m_clock w.1 /\
  be_view (m_env (cb id w).1) LEASE_BUCKET = be_view (m_env w.1) LEASE_BUCKET.

Inductive lease_op : Type :=
| LGrant (ttl : Z)
| LGrantId (id ttl : Z)
| LRevoke (id : Z)
| LKeepAlive (id ttl : Z)
| LAttach (id : Z) (key : bytes)
| LDetach (id : Z) (key : bytes)
| LTick (elapsed : Z).

Definition lease_step (cb : Z -> mgr * X -> mgr * X) (w : mgr * X) (op : lease_op) : mgr * X :=
  match op with
  | LGrant ttl => ((cetcd_lease_grant w.1 ttl).1, w.2)
  | LGrantId id ttl => ((cetcd_lease_grant_id w.1 id ttl).1, w.2)
  | LRevoke id => ((cetcd_lease_revoke w.1 id).1, w.2)
  | LKeepAlive id ttl => ((cetcd_lease_keep_alive w.1 id ttl).1, w.2)
  | LAttach id key => ((cetcd_lease_attach_key w.1 id key).1, w.2)
  | LDetach id key => ((cetcd_lease_detach_key w.1 id key).1, w.2)
  | LTick elapsed => default w (cetcd_lease_mgr_tick cb w elapsed)
  end.

Definition lease_run (cb : Z -> mgr * X -> mgr * X) (w : mgr * X) (ops : list lease_op) : mgr * X :=
  foldl (lease_step cb) w ops.

(** The arguments the callers pass: chosen ids are positive [int64_t] values
    and a keep-alive carries a granted TTL. *)
Definition op_bounded (op : lease_op) : bool :=
  match op with
  | LGrantId id _ => (0 <=? id) && (id <? 2 ^ 63)
  | LKeepAlive _ ttl => negb (bad_ttl ttl)
  | _ => true
  end.

(** An invariant of the expiry loop. *)
Lemma tick_loop_inv (I : mgr * X -> Prop) (cb : Z -> mgr * X -> mgr * X) :
  (forall m x i l, I (m, x) -> m_leases m !! i = Some l -> (mgr_persist_del m (l_id l)).2 <> CETCD_OK ->
     I ((mgr_persist_del m (l_id l)).1, x)) ->
  (forall m x i l, I (m, x) -> m_leases m !! i = Some l -> (mgr_persist_del m (l_id l)).2 = CETCD_OK ->
     let m1 := (mgr_persist_del m (l_id l)).1 in
     let w := if m_on_expire m1 then cb (l_id l) (m1, x) else (m1, x) in
     I (w.1 <| m_leases := shift_out i (m_leases w.1) |>, w.2)) ->
  forall fuel i w w', I w -> tick_loop cb fuel i w = Some w' -> I w'.
Proof.
  intros Hfail Hdel fuel. induction fuel as [|fuel IH]; intros i [m x] w' Hw; cbn [tick_loop fst snd];
    destruct (m_leases m !! i) as [l|] eqn:Hl; try congruence.
  destruct (_ <=? _); [|by apply IH].
  pose proof (Hfail m x i l Hw Hl) as Hf. pose proof (Hdel m x i l Hw Hl) as Hd.
  destruct (mgr_persist_del m (l_id l)) as [m1 rc]. cbn [fst snd] in *.
  destruct (decide (rc = CETCD_OK)) as [->|Hne]; cbn [is_ok negb].
  - apply IH. by apply Hd.
  - replace (is_ok rc) with false by by destruct rc. cbn [negb]. apply IH. by apply Hf.
Qed.

Lemma tick_inv (I : mgr * X -> Prop) cb w e :
  (forall m x i l, I (m, x) -> m_leases m !! i = Some l -> (mgr_persist_del m (l_id l)).2 <> CETCD_OK ->
     I ((mgr_persist_del m (l_id l)).1, x)) ->
  (forall m x i l, I (m, x) -> m_leases m !! i = Some l -> (mgr_persist_del m (l_id l)).2 = CETCD_OK ->
     let m1 := (mgr_persist_del m (l_id l)).1 in
     let w := if m_on_expire m1 then cb (l_id l) (m1, x) else (m1, x) in
     I (w.1 <| m_leases := shift_out i (m_leases w.1) |>, w.2)) ->
  (forall m x, I (m, x) -> 0 < e -> I (m <| m_now_ms := m_now_ms m + e |>, x)) ->
  I w -> I (default w (cetcd_lease_mgr_tick cb w e)).
Proof.
  intros Hfail Hdel Hnow Hw. unfold cetcd_lease_mgr_tick. destruct (Z.leb_spec e 0); [done|].
  destruct (tick_loop _ _ _ _) as [w'|] eqn:Ht; [|done]. cbn. eapply tick_loop_inv; [done|done| |exact Ht].
  destruct w as [m x]. by apply Hnow.
Qed.

(** The time, id and count of the leases do not depend on the callback. *)
Lemma times_eq_lookup (ls ls' : list cetcd_lease) i l : lease_time <$> ls' = lease_time <$> ls -> ls !! i = Some l ->
  exists l', ls' !! i = Some l' /\ lease_time l' = lease_time l.
Proof.
  intros Ht Hi. apply (f_equal (fun k => k !! i)) in Ht. rewrite !list_lookup_fmap, Hi in Ht.
  destruct (ls' !! i) as [l'|]; [|done]. cbn in Ht. exists l'. split; congruence.
Qed.

Lemma times_eq_ids (ls ls' : list cetcd_lease) : lease_time <$> ls' = lease_time <$> ls -> l_id <$> ls' = l_id <$> ls.
Proof. intros Ht. apply (f_equal (fmap (fun t => t.1.1))) in Ht. by rewrite <- !list_fmap_compose in Ht. Qed.

(** *** The array invariant *)

Definition bounded_ok (n : Z) (w : mgr * X) : Prop := lease_ok w.1 /\ m_next_id w.1 <= 2 ^ 63 + n.

Lemma tick_bounded cb n w e : cb_good cb -> bounded_ok n w -> bounded_ok n (default w (cetcd_lease_mgr_tick cb w e)).
Proof.
  intros Hcb. apply tick_inv; unfold bounded_ok; cbn [fst].
  - intros m x i l [Hok Hn] _ _. pose proof (persist_del_mem m (l_id l)) as Hs. split; [by eapply same_mem_ok|].
    destruct Hs as (_ & -> & _). done.
  - intros m x i l [Hok Hn] Hi _. cbv zeta. pose proof (persist_del_mem m (l_id l)) as Hs.
    destruct (mgr_persist_del m (l_id l)) as [m1 rc]. cbn [fst] in *.
    pose proof (same_mem_ok _ _ Hs Hok) as Hok1. destruct Hs as (El & En & _). rewrite <- El in Hi.
    set (w2 := if m_on_expire m1 then _ else _).
    assert (Hw : lease_ok w2.1 /\ m_next_id w2.1 = m_next_id m1 /\ exists l', m_leases w2.1 !! i = Some l').
    { unfold w2. destruct (m_on_expire m1); [|by eauto].
      destruct (Hcb (l_id l) (m1, x) Hok1) as (Hc & Ht & _ & Hcn & _). split_and!; [done|done|].
      destruct (times_eq_lookup _ _ _ _ Ht Hi) as (l' & Hl' & _). eauto. }
    destruct Hw as (Hokw & Hnw & l' & Hl'). cbn. split; [|lia].
    destruct (ok_shift w2.1 i l' Hokw Hl' (w2.1 <| m_leases := shift_out i (m_leases w2.1) |>)); done.
  - intros m x [[A1 A2 A3 A4] Hn] _. split; [split; done|done].
Qed.

Lemma step_bounded cb n w op : cb_good cb -> op_bounded op = true -> 0 <= n < 2 ^ 62 -> bounded_ok n w ->
  bounded_ok (n + 1) (lease_step cb w op).
Proof.
  intros Hcb Hop Hn [Hok Hnx]. destruct op as [ttl|id ttl|id|id ttl|id key|id key|e]; cbn [lease_step op_bounded] in *;
    unfold bounded_ok; cbn [fst].
  - destruct (grant_spec w.1 ttl Hok ltac:(lia)) as [[A1 _ A3 _] _]. split; [done|lia].
  - apply andb_prop in Hop as [H1%Z.leb_le H2%Z.ltb_lt].
    destruct (grant_id_spec w.1 id ttl Hok ltac:(lia)) as [[A1 _ A3 _] _]. split; [done|lia].
  - pose proof (revoke_spec w.1 id Hok) as Hs. destruct (cetcd_lease_revoke w.1 id). cbn. split; [apply Hs|]. destruct Hs as (_ & _ & -> & _). lia.
  - apply negb_true_iff in Hop. pose proof (keep_alive_spec w.1 id ttl Hok Hop) as Hs.
    destruct (cetcd_lease_keep_alive w.1 id ttl). cbn. split; [apply Hs|]. destruct Hs as (_ & _ & -> & _). lia.
  - pose proof (attach_spec w.1 id key Hok) as Hs. destruct (cetcd_lease_attach_key w.1 id key). cbn. split; [apply Hs|]. destruct Hs as (_ & _ & -> & _). lia.
  - pose proof (detach_spec w.1 id key Hok) as Hs. destruct (cetcd_lease_detach_key w.1 id key). cbn. split; [apply Hs|]. destruct Hs as (_ & _ & -> & _). lia.
  - destruct (tick_bounded cb n w e Hcb (conj Hok Hnx)) as [A1 A2]. split; [done|lia].
Qed.

Lemma run_bounded cb ops : forall n w, cb_good cb -> forallb op_bounded ops = true -> 0 <= n ->
  n + blen ops < 2 ^ 62 -> bounded_ok n w -> bounded_ok (n + blen ops) (lease_run cb w ops).
Proof.
  induction ops as [|op ops IH]; intros n w Hcb Hops Hn Hlen Hw; [by rewrite Z.add_0_r|].
  cbn [forallb] in Hops. apply andb_prop in Hops as [Hop Hops]. rewrite blen_cons in *.
  pose proof (blen_nonneg ops). rewrite Z.add_assoc. cbn [lease_run foldl].
  apply IH; [done|done|lia|lia|]. apply step_bounded; [done|done|lia|done].
Qed.

Lemma new_lease_ok env on : lease_ok (cetcd_lease_mgr_new env on : mgr).
Proof. split; cbn; [constructor|constructor|lia|constructor]. Qed.

(** The manager's invariant.  From a new manager, after every run of
    operations with any backend failures: ids are distinct, positive and below
    the next automatic id (so an automatic grant never takes an id in use),
    TTLs are within bounds, and the live key cells of every lease lie inside
    its array without duplicates. *)
Theorem lease_invariant (cb : Z -> mgr * X -> mgr * X) (env : E) (on be : bool) (x : X) (ops : list lease_op)
  (Hcb : cb_good cb) (Hops : forallb op_bounded ops = true) (Hlen : blen ops < 2 ^ 62) :
  let w := lease_run cb (cetcd_lease_mgr_set_backend (cetcd_lease_mgr_new env on) be, x) ops in
  lease_ok w.1 /\ cetcd_lease_next_id w.1 ∉ lease_ids w.1.
Proof.
  cbv zeta. destruct (run_bounded cb ops 0 (cetcd_lease_mgr_set_backend (cetcd_lease_mgr_new env on) be, x))
    as [Hok _]; [done|done|lia|lia| |].
  - split; [|cbn; lia]. destruct (new_lease_ok env on). by split.
  - split; [done|]. by apply next_fresh.
Qed.

(** *** Durability *)

Definition lease_bucket m : gmap bytes bytes := be_view (m_env m) LEASE_BUCKET.

Definition row_bytes (ttl wd : Z) : bytes := write_le64_ ttl ++ write_le64_ wd.

Definition id_row (next : Z) (k v : bytes) : Prop :=
  exists id ttl wd, k = write_le64_ id /\ v = row_bytes ttl wd /\ 0 < id < next /\ bad_ttl ttl = false /\ in_i64 wd.

Definition next_row (next : Z) (k v : bytes) : Prop :=
  k = LEASE_KEY_NEXT /\ exists n, v = write_le64_ n /\ 0 < n <= next.

Definition entry_good (next : Z) (k v : bytes) : Prop := next_row next k v \/ id_row next k v.

(** The row of a live lease carries the deadline that the last grant or
    keep-alive set, in wall-clock time. *)
Definition has_row m (l : cetcd_lease) : Prop :=
  exists n t, (n < m_clock m)%nat /\ t <= m_now_ms m /\ l_deadline_ms l = t + l_ttl_seconds l * 1000 /\
    lease_bucket m !! write_le64_ (l_id l) = Some (row_bytes (l_ttl_seconds l) (realtime_ms_ n + l_ttl_seconds l * 1000)).

(** Every lease but those being removed has its row. *)
Record durable (gone : list Z) m : Prop := {
  du_backend : m_backend m = true;
  du_ok : lease_ok m;
  du_next : m_next_id m < 2 ^ 64;
  du_rows : map_Forall (entry_good (m_next_id m)) (lease_bucket m);
  du_live : forall l, l ∈ m_leases m -> l_id l ∉ gone -> has_row m l
}.

Lemma entry_good_mono n n' k v : n <= n' -> entry_good n k v -> entry_good n' k v.
Proof.
  intros Hn [(-> & x & -> & Hx)|(id & ttl & wd & -> & -> & Hid & Ht & Hr)]; [left|right].
  - split; [done|]. exists x. split; [done|lia].
  - exists id, ttl, wd. split_and!; (done || lia).
Qed.

Lemma durable_ext gone gone' m m' : durable gone m -> lease_ok m' -> m_backend m' = true ->
  m_next_id m <= m_next_id m' < 2 ^ 64 -> m_now_ms m <= m_now_ms m' -> (m_clock m <= m_clock m')%nat ->
  lease_bucket m' = lease_bucket m ->
  (forall l', l' ∈ m_leases m' -> l_id l' ∉ gone' -> exists l, l ∈ m_leases m /\ lease_time l = lease_time l' /\ l_id l ∉ gone) ->
  durable gone' m'.
Proof.
  intros [A1 A2 A3 A4 A5] Hok Hb Hn Ht Hc Hv Hl. split; [done|done|lia| |].
  - rewrite Hv. intros k v Hk. eapply entry_good_mono; [|by apply A4]. lia.
  - intros l' Hin Hg. destruct (Hl l' Hin Hg) as (l & Hl1 & Ht1 & Hg1). injection Ht1 as E1 E2 E3.
    destruct (A5 l Hl1 Hg1) as (n & t & N1 & N2 & N3 & N4). exists n, t. rewrite Hv, <- E1, <- E2, <- E3.
    split_and!; (done || lia).
Qed.

Lemma persist_put_bucket m l : m_backend m = true ->
  m_clock (mgr_persist_put m l).1 = S (m_clock m) /\
  lease_bucket (mgr_persist_put m l).1 =
    (if is_ok (mgr_persist_put m l).2
     then <[LEASE_KEY_NEXT := write_le64_ (m_next_id m)]>
            (<[write_le64_ (l_id l) := lease_row l (m_now_ms m) (realtime_ms_ (m_clock m))]> (lease_bucket m))
     else lease_bucket m).
Proof.
  intros Hb. unfold mgr_persist_put, persist_put_. rewrite Hb.
  pose proof (be_put2_spec (m_env m) LEASE_BUCKET (write_le64_ (l_id l))
    (Some (lease_row l (m_now_ms m) (realtime_ms_ (m_clock m)))) LEASE_BUCKET LEASE_KEY_NEXT (write_le64_ (m_next_id m))) as Hp.
  destruct (be_put2 _ _ _ _ _ _ _) as [be rc]. cbn [fst snd] in *. split; [done|]. unfold lease_bucket. cbn.
  rewrite (Hp LEASE_BUCKET). destruct (is_ok rc); [|done]. unfold view_put_del, view_alter.
  by rewrite !decide_True.
Qed.

Lemma realtime_range n : 0 <= realtime_ms_ n < 18446744073710.
Proof.
  unfold realtime_ms_. pose proof (u64_range (realtime_ns n)) as Hr. unfold in_u64 in Hr.
  split; [apply Z.div_pos; lia|]. apply Z.div_lt_upper_bound; lia.
Qed.

(** A written lease is durable next to those that were. *)
Lemma durable_put m l : m_backend m = true -> lease_ok m -> m_next_id m < 2 ^ 64 ->
  map_Forall (entry_good (m_next_id m)) (lease_bucket m) ->
  l_deadline_ms l = m_now_ms m + l_ttl_seconds l * 1000 -> l_id l ∈ lease_ids m -> bad_ttl (l_ttl_seconds l) = false ->
  (forall l', l' ∈ m_leases m -> l' = l \/ (l_id l' <> l_id l /\ has_row m l')) ->
  (mgr_persist_put m l).2 = CETCD_OK -> durable [] (mgr_persist_put m l).1.
Proof.
  intros Hb Hok Hn Hrows Hd Hid Ht Hl Hrc. destruct (persist_put_bucket m l Hb) as [Hc Hv].
  pose proof (persist_put_mem m l) as Hs. rewrite Hrc in Hv. cbn [is_ok] in Hv.
  destruct (mgr_persist_put m l) as [m' rc]. cbn [fst snd] in *. pose proof Hs as (El & En & Et & _ & Eb & _).
  pose proof (proj1 (Forall_forall _ _) (lo_ids m Hok) _ Hid) as Hidr. cbn in Hidr.
  pose proof (proj1 (bad_ttl_false _) Ht) as Htr. unfold CETCD_MAX_LEASE_TTL in Htr.
  pose proof (realtime_range (m_clock m)) as Hrt.
  assert (Hrow : lease_row l (m_now_ms m) (realtime_ms_ (m_clock m)) =
    row_bytes (l_ttl_seconds l) (realtime_ms_ (m_clock m) + l_ttl_seconds l * 1000)).
  { unfold lease_row, wall_deadline, row_bytes. rewrite Hd. rewrite (proj2 (Z.ltb_ge _ _)) by lia. do 2 f_equal. lia. }
  rewrite Hrow in Hv. split; [congruence|by eapply same_mem_ok|lia| |].
  - rewrite Hv, En. apply map_Forall_insert_2; [|apply map_Forall_insert_2; [|done]].
    + left. split; [done|]. eexists. split; [done|]. lia.
    + right. exists (l_id l), (l_ttl_seconds l), (realtime_ms_ (m_clock m) + l_ttl_seconds l * 1000).
      unfold in_i64. split_and!; (done || lia).
  - intros l' Hin _. rewrite El in Hin. unfold has_row. rewrite Hv, Hc, Et.
    rewrite lookup_insert_ne by (intros Hx; by apply (write_le64_not_next (l_id l'))).
    destruct (Hl l' Hin) as [-> |[Hne (n & t & N1 & N2 & N3 & N4)]].
    + exists (m_clock m), (m_now_ms m). rewrite lookup_insert_eq. split_and!; (done || lia).
    + exists n, t. rewrite lookup_insert_ne; [split_and!; (done || lia)|]. intros Hx. apply Hne.
      assert (Hin' : l_id l' ∈ lease_ids m) by by apply list_elem_of_fmap_2.
      pose proof (proj1 (Forall_forall _ _) (lo_ids m Hok) _ Hin') as Hidr'. cbn in Hidr'.
      symmetry. apply write_le64_inj; [unfold in_u64; lia|unfold in_u64; lia|done].
Qed.

Lemma elem_time m l : l ∈ m_leases m -> exists l0, l0 ∈ m_leases m /\ lease_time l0 = lease_time l /\ l_id l0 ∉ @nil Z.
Proof. intros Hl. exists l. split_and!; [done|done|]. by apply not_elem_of_nil. Qed.

(** Extending the array and persisting the new lease. *)
Lemma durable_grant m m1 l : durable [] m -> lease_wf l -> 0 < l_id l -> l_id l ∉ lease_ids m ->
  m_leases m1 = m_leases m ++ [l] -> m_now_ms m1 = m_now_ms m -> m_backend m1 = true -> m_clock m1 = m_clock m ->
  lease_bucket m1 = lease_bucket m ->
  m_next_id m1 = Z.max (m_next_id m) (l_id l + 1) -> m_next_id m1 < 2 ^ 64 ->
  l_deadline_ms l = m_now_ms m + l_ttl_seconds l * 1000 -> durable [] (grant_lease m1 l).1.
Proof.
  intros Hdu Hw Hid Hnew El Et Eb Ec Ev En Hn Hd. pose proof Hdu as [A1 A2 A3 A4 A5].
  destruct (ok_snoc m l A2 Hw Hid Hnew (m_next_id m1) ltac:(lia) ltac:(lia) m1 El eq_refl) as [Hok1 _].
  assert (Hput : (mgr_persist_put m1 l).2 = CETCD_OK -> durable [] (mgr_persist_put m1 l).1).
  { apply durable_put; try done.
    - rewrite Ev. intros k v Hk. eapply entry_good_mono; [|by apply A4]. lia.
    - congruence.
    - unfold lease_ids. rewrite El, fmap_app. apply elem_of_app. right. by left.
    - apply bad_ttl_false. apply Hw.
    - intros l' Hin. rewrite El in Hin. apply elem_of_app in Hin as [Hin|Hin%list_elem_of_singleton]; [right|by left].
      split; [intros Heq; apply Hnew; rewrite <- Heq; by apply list_elem_of_fmap_2|].
      destruct (A5 l' Hin ltac:(by apply not_elem_of_nil)) as (n & t & N1 & N2 & N3 & N4).
      exists n, t. rewrite Ev, Ec, Et. done. }
  unfold grant_lease. destruct (persist_put_bucket m1 l Eb) as [Hc Hv]. pose proof (persist_put_mem m1 l) as Hs.
  destruct (mgr_persist_put m1 l) as [m2 rc]. cbn [fst snd] in *. destruct (is_ok rc) eqn:Hrc.
  { apply Hput. by destruct rc. }
  destruct Hs as (Sl & Sn & St & _ & Sb & _). rewrite El in Sl. rewrite (revoke_appended m l Hnew m2 Sl). cbn [fst].
  apply (durable_ext [] [] m); [done| |cbn; congruence|cbn; lia|cbn; lia|cbn; lia| |].
  - destruct A2 as [O1 O2 O3 O4]. split; [done| |cbn; lia|done]. cbn. rewrite Sn. eapply Forall_impl; [exact O2|]. cbn. lia.
  - unfold lease_bucket in *. cbn. congruence.
  - intros l' Hin _. cbn in Hin. by apply elem_time.
Qed.

Lemma grant_durable m ttl : durable [] m -> m_next_id m + 1 < 2 ^ 64 -> durable [] (cetcd_lease_grant m ttl).1.
Proof.
  intros Hdu Hn. pose proof Hdu as [A1 A2 _ _ _]. pose proof (lo_next m A2). unfold cetcd_lease_grant.
  destruct (bad_ttl ttl) eqn:Ht; [done|]. set (l := mk_lease _ ttl _ _ _). set (m1 := _ <| m_leases := _ |>).
  assert (En : m_next_id m1 = m_next_id m + 1) by (cbn; rewrite u64_small by (unfold in_u64; lia); done).
  apply (durable_grant m m1 l); try done; [by apply new_lease_wf|by apply next_fresh| |lia].
  rewrite En. cbn. lia.
Qed.

Lemma grant_id_durable m id ttl : durable [] m -> 0 <= id < 2 ^ 64 - 1 -> durable [] (cetcd_lease_grant_id m id ttl).1.
Proof.
  intros Hdu Hid. pose proof Hdu as [A1 A2 A3 _ _]. unfold cetcd_lease_grant_id.
  destruct (Z.eqb_spec id 0) as [->|Hz]; cbn [orb]; [done|]. destruct (bad_ttl ttl) eqn:Ht; cbn [orb]; [done|].
  destruct (cetcd_lease_exists m id) eqn:Hex; [done|]. assert (Hnew : id ∉ lease_ids m) by (rewrite <- exists_lookup, Hex; done).
  set (l := mk_lease id ttl _ _ _). cbv zeta. set (m0 := _ <| m_leases := _ |>). set (m1 := if _ <=? _ then _ else _).
  assert (Hm1 : m_leases m1 = m_leases m ++ [l] /\ m_now_ms m1 = m_now_ms m /\ m_backend m1 = true /\
    m_clock m1 = m_clock m /\ lease_bucket m1 = lease_bucket m /\ m_next_id m1 = Z.max (m_next_id m) (id + 1)).
  { unfold m1. destruct (Z.leb_spec (m_next_id m0) id) as [Hle|Hgt]; cbn in *; split_and!; try done; [|lia].
    rewrite u64_small by (unfold in_u64; lia). lia. }
  destruct Hm1 as (E1 & E2 & E3 & E4 & E5 & E6).
  apply (durable_grant m m1 l); try done; [by apply new_lease_wf|cbn; lia|rewrite E6; cbn; lia].
Qed.

Lemma id_range m id : lease_ok m -> m_next_id m < 2 ^ 64 -> id ∈ lease_ids m -> in_u64 id.
Proof.
  intros Hok Hn Hin. pose proof (proj1 (Forall_forall _ _) (lo_ids m Hok) _ Hin) as Hr. cbn in Hr.
  unfold in_u64. lia.
Qed.

Lemma del_durable m id : durable [] m -> id ∈ lease_ids m ->
  durable (if is_ok (mgr_persist_del m id).2 then [id] else []) (mgr_persist_del m id).1.
Proof.
  intros Hdu Hid. pose proof Hdu as [A1 A2 A3 A4 A5]. unfold mgr_persist_del, persist_del_. rewrite A1.
  pose proof (be_del_ok (m_env m) LEASE_BUCKET (write_le64_ id)) as Ho.
  pose proof (be_del_err (m_env m) LEASE_BUCKET (write_le64_ id)) as He.
  destruct (be_del (m_env m) LEASE_BUCKET (write_le64_ id)) as [be rc]. cbn [fst snd] in *.
  set (rc' := match rc with CETCD_ERR_NOTFOUND => CETCD_OK | _ => rc end).
  assert (Hsame : be_view be LEASE_BUCKET = lease_bucket m -> durable (if is_ok rc' then [id] else []) (m <| m_env := be |>)).
  { intros Hv. apply (durable_ext [] _ m); [done|by destruct A2|done|done|done|done|done|].
    intros l' Hin _. cbn in Hin. by apply elem_time. }
  destruct (decide (rc = CETCD_OK)) as [-> |Hne]; [|apply Hsame, (He Hne)].
  destruct (Ho eq_refl) as [_ [Hv|Hv]]; [|apply Hsame, Hv]. specialize (Hv LEASE_BUCKET).
  unfold view_alter in Hv. rewrite decide_True in Hv by done. cbn.
  assert (Hb : lease_bucket (m <| m_env := be |>) = delete (write_le64_ id) (lease_bucket m)) by exact Hv.
  split; [done|by destruct A2|done| |].
  - rewrite Hb. intros k v [Hk Hkv]%lookup_delete_Some. by apply A4.
  - intros l Hl Hg. destruct (A5 l Hl ltac:(by apply not_elem_of_nil)) as (n & t & N1 & N2 & N3 & N4).
    exists n, t. rewrite Hb. split_and!; try done. rewrite lookup_delete_ne; [done|]. intros Heq. apply Hg.
    rewrite list_elem_of_singleton. assert (Hl2 : l_id l ∈ lease_ids m) by by apply list_elem_of_fmap_2.
    symmetry. apply write_le64_inj; [by eapply id_range|by eapply id_range|done].
Qed.

Lemma shift_durable m i l : durable [l_id l] m -> m_leases m !! i = Some l ->
  durable [] (m <| m_leases := shift_out i (m_leases m) |>).
Proof.
  intros Hdu Hi. pose proof Hdu as [A1 A2 A3 A4 A5].
  destruct (ok_shift m i l A2 Hi (m <| m_leases := shift_out i (m_leases m) |>)) as [Hok _]; [done|done|].
  apply (durable_ext [l_id l] [] m); try done.
  intros l' Hin _. cbn in Hin. exists l'. pose proof (shift_out_perm _ _ _ Hi) as Hp. split_and!; [|done|].
  - rewrite Hp. by right.
  - rewrite list_elem_of_singleton. intros Heq. pose proof (lo_nodup m A2) as Hnd. unfold lease_ids in Hnd.
    rewrite Hp in Hnd. cbn in Hnd. apply NoDup_cons in Hnd as [Hnd _]. apply Hnd. rewrite <- Heq.
    by apply list_elem_of_fmap_2.
Qed.

Lemma revoke_durable m id : durable [] m -> durable [] (cetcd_lease_revoke m id).1.
Proof.
  intros Hdu. unfold cetcd_lease_revoke. destruct (cetcd_lease_exists m id) eqn:Hex; cbn [negb]; [|done].
  apply exists_lookup in Hex. pose proof (del_durable m id Hdu Hex) as Hd. pose proof (persist_del_mem m id) as (El & _).
  destruct (mgr_persist_del m id) as [m1 rc]. cbn [fst snd] in *. destruct (is_ok rc); cbn [negb]; [|done].
  unfold revoke_mem_. destruct (lease_by_id_ m1 id) as [[i l]|] eqn:Hf.
  - apply by_id_some in Hf as [Hi <-]. cbn. by apply (shift_durable m1 i l).
  - apply by_id_none in Hf. unfold lease_ids in *. by rewrite El in Hf.
Qed.

Lemma elem_insert {A} (l : list A) i x y z : l !! i = Some y -> z ∈ <[i := x]> l -> z = x \/ z ∈ shift_out i l.
Proof.
  intros Hi Hz. rewrite insert_take_drop in Hz by by eapply lookup_lt_Some. unfold shift_out. set_solver.
Qed.

(** Changing a lease that keeps its id, TTL and deadline. *)
Lemma set_durable m i l l' : durable [] m -> m_leases m !! i = Some l -> lease_time l' = lease_time l -> lease_wf l' ->
  durable [] (set_lease m i l').
Proof.
  intros Hdu Hi Ht Hw. pose proof Hdu as [A1 A2 A3 A4 A5]. injection Ht as T1 T2 T3.
  destruct (ok_set m i l l' A2 Hi T1 Hw) as [Hok _]. apply (durable_ext [] [] m); try done.
  intros x Hx _. unfold set_lease in Hx. cbn in Hx. apply (elem_insert _ _ _ l) in Hx as [-> |Hx]; [| |done].
  2: { apply elem_time. rewrite (shift_out_perm _ _ _ Hi). by right. }
  exists l. split_and!; [by eapply list_elem_of_lookup_2|unfold lease_time; congruence|by apply not_elem_of_nil].
Qed.

Lemma keep_alive_durable m id ttl : durable [] m -> bad_ttl ttl = false -> durable [] (cetcd_lease_keep_alive m id ttl).1.
Proof.
  intros Hdu Ht. pose proof Hdu as [A1 A2 A3 A4 A5]. unfold cetcd_lease_keep_alive.
  destruct (lease_by_id_ m id) as [[i l]|] eqn:Hf; [|done]. apply by_id_some in Hf as [Hi <-].
  set (l' := _ <| l_deadline_ms := _ |>).
  assert (Hw : lease_wf l') by (destruct (proj1 (Forall_lookup _ _) (lo_wf m A2) i l Hi); split; [done|done|by apply bad_ttl_false]).
  destruct (ok_set m i l l' A2 Hi eq_refl Hw) as [Hok1 _].
  assert (Hput : (mgr_persist_put (set_lease m i l') l').2 = CETCD_OK -> durable [] (mgr_persist_put (set_lease m i l') l').1).
  { apply durable_put; try done.
    - unfold lease_ids, set_lease. cbn. rewrite list_fmap_insert. apply list_elem_of_lookup_2 with i.
      rewrite list_lookup_insert_eq; [done|]. rewrite length_fmap. by eapply lookup_lt_Some.
    - intros x Hx. unfold set_lease in Hx. cbn in Hx.
      pose proof (lo_nodup m A2) as Hnd. unfold lease_ids in Hnd. rewrite (shift_out_perm _ _ _ Hi) in Hnd. cbn in Hnd.
      apply NoDup_cons in Hnd as [Hnd _].
      apply (elem_insert _ _ _ l) in Hx as [-> |Hx]; [by left|right|done].
      split; [intros Heq; apply Hnd; change (l_id l) with (l_id l'); rewrite <- Heq; by apply list_elem_of_fmap_2|].
      assert (Hin : x ∈ m_leases m) by (rewrite (shift_out_perm _ _ _ Hi); by right).
      destruct (A5 x Hin ltac:(by apply not_elem_of_nil)) as (n & t & Hnt). exists n, t. exact Hnt. }
  destruct (persist_put_bucket (set_lease m i l') l' A1) as [Hc Hv]. pose proof (persist_put_mem (set_lease m i l') l') as Hs.
  destruct (mgr_persist_put _ _) as [m2 rc]. cbn [fst snd] in *. destruct (is_ok rc) eqn:Hrc.
  { apply Hput. by destruct rc. }
  pose proof (set_back _ _ _ l l' Hs Hi) as Hb. pose proof Hb as (B1 & B2 & B3 & _ & B5 & _). cbn [fst].
  apply (durable_ext [] [] m); [done|by eapply same_mem_ok|congruence|lia|lia| |exact Hv|].
  - cbn. rewrite Hc. cbn. lia.
  - intros x Hx _. rewrite B1 in Hx. by apply elem_time.
Qed.

Lemma attach_durable m id key : durable [] m -> durable [] (cetcd_lease_attach_key m id key).1.
Proof.
  intros Hdu. unfold cetcd_lease_attach_key. destruct (lease_by_id_ m id) as [[i l]|] eqn:Hf; [|done].
  apply by_id_some in Hf as [Hi _]. apply (set_durable m i l); [done|done|by unfold attach_slot; destruct (key_slot l key)|].
  apply attach_slot_spec. by apply (proj1 (Forall_lookup _ _) (lo_wf m (du_ok _ _ Hdu)) i).
Qed.

Lemma detach_durable m id key : durable [] m -> durable [] (cetcd_lease_detach_key m id key).1.
Proof.
  intros Hdu. unfold cetcd_lease_detach_key. destruct (lease_by_id_ m id) as [[i l]|] eqn:Hf; [|done].
  apply by_id_some in Hf as [Hi _]. pose proof (key_slot_spec l key) as Hs. destruct (key_slot l key) as [j|]; [|done].
  apply (set_durable m i l); [done|done|done|]. apply (detach_slot_spec l j key); [|done].
  by apply (proj1 (Forall_lookup _ _) (lo_wf m (du_ok _ _ Hdu)) i).
Qed.

Lemma tick_durable cb w e : cb_good cb -> durable [] w.1 -> durable [] (default w (cetcd_lease_mgr_tick cb w e)).1.
Proof.
  intros Hcb. apply (tick_inv (fun w => durable [] w.1)); cbn [fst].
  - intros m x i l Hdu Hi Hrc. assert (Hid : l_id l ∈ lease_ids m) by by eapply list_elem_of_fmap_2, list_elem_of_lookup_2.
    pose proof (del_durable m (l_id l) Hdu Hid) as Hd. by destruct (mgr_persist_del m (l_id l)) as [m1 []].
  - intros m x i l Hdu Hi Hrc. cbv zeta. assert (Hid : l_id l ∈ lease_ids m) by by eapply list_elem_of_fmap_2, list_elem_of_lookup_2.
    pose proof (del_durable m (l_id l) Hdu Hid) as Hd. pose proof (persist_del_mem m (l_id l)) as (El & _).
    destruct (mgr_persist_del m (l_id l)) as [m1 rc]. cbn [fst snd] in *. subst rc. cbn [is_ok] in Hd. rewrite <- El in Hi.
    destruct (m_on_expire m1); [|by apply (shift_durable m1 i l)].
    destruct (Hcb (l_id l) (m1, x) (du_ok _ _ Hd)) as (C1 & C2 & C3 & C4 & C5 & C6 & C7). cbn [fst] in *.
    destruct (times_eq_lookup _ _ _ _ C2 Hi) as (l' & Hl' & Ht). injection Ht as Hid' _ _.
    apply (shift_durable _ i l'); [|done]. rewrite Hid'.
    apply (durable_ext [l_id l] _ m1); [done|done|rewrite C5; apply Hd|rewrite C4; split; [lia|apply Hd]|lia|lia|done|].
    intros x' Hx Hg. apply list_elem_of_lookup in Hx as [j Hj].
    destruct (times_eq_lookup _ _ j x' (eq_sym C2) Hj) as (x0 & Hx0 & Hxt). exists x0. split_and!; [by eapply list_elem_of_lookup_2|done|].
    injection Hxt as -> _ _. done.
  - intros m x Hdu He. pose proof Hdu as [A1 A2 A3 A4 A5]. apply (durable_ext [] [] m); [done|by destruct A2|done|done|cbn; lia|done|done|].
    intros l' Hin _. by apply elem_time.
Qed.

Lemma step_durable cb n w op : cb_good cb -> op_bounded op = true -> 0 <= n < 2 ^ 62 -> bounded_ok n w ->
  durable [] w.1 -> durable [] (lease_step cb w op).1.
Proof.
  intros Hcb Hop Hn [Hok Hnx] Hdu.
  destruct op as [ttl|id ttl|id|id ttl|id key|id key|e]; cbn [lease_step op_bounded fst] in *.
  - apply grant_durable; [done|lia].
  - apply andb_prop in Hop as [H1%Z.leb_le H2%Z.ltb_lt]. apply grant_id_durable; [done|lia].
  - by apply revoke_durable.
  - apply negb_true_iff in Hop. by apply keep_alive_durable.
  - by apply attach_durable.
  - by apply detach_durable.
  - by apply tick_durable.
Qed.

Lemma run_durable cb ops : forall n w, cb_good cb -> forallb op_bounded ops = true -> 0 <= n ->
  n + blen ops < 2 ^ 62 -> bounded_ok n w -> durable [] w.1 -> durable [] (lease_run cb w ops).1.
Proof.
  induction ops as [|op ops IH]; intros n w Hcb Hops Hn Hlen Hw Hdu; [done|].
  cbn [forallb] in Hops. apply andb_prop in Hops as [Hop Hops]. rewrite blen_cons in *.
  pose proof (blen_nonneg ops). cbn [lease_run foldl].
  apply (IH (n + 1)); [done|done|lia|lia|apply step_bounded; [done|done|lia|done]|].
  apply (step_durable cb n); [done|done|lia|done|done].
Qed.

(** ** Loading the bucket *)

Lemma read_id id rest : in_u64 id -> read_le64_ (write_le64_ id ++ rest) 0 = id.
Proof.
  intros Hid. unfold read_le64_, write_le64_. rewrite drop_0, take_app_length' by by rewrite le_put_length.
  rewrite u64_small by done. apply le_get_put. unfold in_u64 in Hid. cbn. lia.
Qed.

Lemma row_decodes ttl wd : bad_ttl ttl = false -> in_i64 wd ->
  blen (row_bytes ttl wd) = 16 /\ i64 (read_le64_ (row_bytes ttl wd) 0) = ttl /\ i64 (read_le64_ (row_bytes ttl wd) 8) = wd.
Proof.
  intros Ht%bad_ttl_false Hw. unfold row_bytes, CETCD_MAX_LEASE_TTL in *. split_and!.
  - unfold blen. by rewrite length_app, !write_le64_length.
  - apply read_le64_here. unfold in_i64. lia.
  - pose proof (read_le64_skip ttl (write_le64_ wd) 0) as Hs. cbn [Nat.add] in Hs. rewrite Hs.
    rewrite <- (app_nil_r (write_le64_ wd)). by apply read_le64_here.
Qed.

Definition restored m id ttl wd : cetcd_lease :=
  mk_lease id ttl (m_now_ms m + Z.max 0 (wd - realtime_ms_ (m_clock m))) [] 0.

Lemma restore_new m id ttl rem : lease_ok m -> 0 < id -> id + 1 < 2 ^ 64 -> bad_ttl ttl = false -> id ∉ lease_ids m ->
  exists m', restore_ m id ttl rem = (m', CETCD_OK) /\ lease_ok m' /\ m_now_ms m' = m_now_ms m /\
    m_clock m' = m_clock m /\ m_next_id m' = Z.max (m_next_id m) (id + 1) /\
    m_leases m' = m_leases m ++ [mk_lease id ttl (m_now_ms m + Z.max 0 rem) [] 0].
Proof.
  intros Hok Hid Hn Ht Hnew. unfold restore_. rewrite (proj2 (Z.eqb_neq _ _)), Ht by lia. cbn [orb].
  destruct (cetcd_lease_exists m id) eqn:Hex; [by apply exists_lookup in Hex|].
  assert (Hr : (if rem <? 0 then 0 else rem) = Z.max 0 rem) by (destruct (Z.ltb_spec rem 0); lia). rewrite Hr.
  set (l := mk_lease id ttl _ _ _). set (m1 := if _ <=? _ then _ else _). exists m1.
  assert (Hm1 : m_now_ms m1 = m_now_ms m /\ m_clock m1 = m_clock m /\ m_next_id m1 = Z.max (m_next_id m) (id + 1) /\
    m_leases m1 = m_leases m ++ [l]).
  { unfold m1. destruct (Z.leb_spec (m_next_id (m <| m_leases := m_leases m ++ [l] |>)) id) as [Hle|Hgt]; cbn in *;
      split_and!; try done; [|lia]. rewrite u64_small by (unfold in_u64; lia). lia. }
  destruct Hm1 as (E1 & E2 & E3 & E4). split_and!; try done.
  by destruct (ok_snoc m l Hok ltac:(by apply new_lease_wf) Hid Hnew (m_next_id m1) ltac:(lia) ltac:(cbn; lia) m1 E4 eq_refl).
Qed.

Lemma load_entry N m err k v : lease_ok m -> m_next_id m <= N -> N < 2 ^ 64 -> entry_good N k v ->
  (forall id, id ∈ lease_ids m -> write_le64_ id <> k) ->
  exists m', load_cb_ k v (m, err) = (m', err, true) /\ lease_ok m' /\ m_next_id m' <= N /\ m_now_ms m' = m_now_ms m /\
    ((k = LEASE_KEY_NEXT /\ m_leases m' = m_leases m /\ m_clock m' = m_clock m) \/
     exists id ttl wd, (in_u64 id /\ bad_ttl ttl = false /\ in_i64 wd) /\
       k = write_le64_ id /\ v = row_bytes ttl wd /\ m_clock m' = S (m_clock m) /\
       m_leases m' = m_leases m ++ [restored m id ttl wd]).
Proof.
  intros Hok Hnx HN [(-> & n & -> & Hn)|(id & ttl & wd & -> & -> & Hid & Ht & Hwd)] Hfresh; unfold load_cb_.
  - rewrite bool_decide_true by done. rewrite (proj2 (Z.leb_le _ _)) by (unfold blen; rewrite write_le64_length; lia).
    assert (Hread : read_le64_ (write_le64_ n) 0 = n)
      by (rewrite <- (app_nil_r (write_le64_ n)); apply read_id; unfold in_u64; lia).
    rewrite Hread. eexists. split; [done|]. cbn. destruct Hok as [O1 O2 O3 O4].
    destruct (Z.ltb_spec (m_next_id m) n); cbn; (split_and!; [|lia|done|by left]); split; try done; cbn; [|lia].
    eapply Forall_impl; [exact O2|]. cbn. lia.
  - rewrite bool_decide_false by apply write_le64_not_next. destruct (row_decodes ttl wd Ht Hwd) as (R1 & R2 & R3).
    rewrite R1. replace (blen (write_le64_ id) =? 8) with true by (unfold blen; by rewrite write_le64_length). cbn [negb orb].
    rewrite Z.eqb_refl. cbn [negb]. rewrite R2, R3.
    assert (Hread : read_le64_ (write_le64_ id) 0 = id)
      by (rewrite <- (app_nil_r (write_le64_ id)); apply read_id; unfold in_u64; lia).
    rewrite Hread. change (m_clock (m <| m_have_bucket := true |>)) with (m_clock m).
    set (m1 := _ <| m_clock := _ |>). assert (Hok1 : lease_ok m1) by (by destruct Hok).
    assert (Hnew : id ∉ lease_ids m1) by (intros Hin; by apply (Hfresh id)).
    destruct (restore_new m1 id ttl (wd - realtime_ms_ (m_clock m)) Hok1) as (m' & -> & Hok' & E1 & E2 & E3 & E4);
      [lia|lia|done|done|].
    exists m'. split_and!; [done|done| |done|].
    + rewrite E3. cbn. lia.
    + right. exists id, ttl, wd. unfold in_u64 in *. split_and!; (done || lia).
Qed.

Lemma row_bytes_inj ttl wd ttl' wd' : bad_ttl ttl = false -> in_i64 wd -> bad_ttl ttl' = false -> in_i64 wd' ->
  row_bytes ttl wd = row_bytes ttl' wd' -> ttl = ttl' /\ wd = wd'.
Proof.
  intros A1 A2 B1 B2 Heq. destruct (row_decodes ttl wd A1 A2) as (_ & R1 & R2).
  destruct (row_decodes ttl' wd' B1 B2) as (_ & S1 & S2). rewrite Heq in R1, R2. split; congruence.
Qed.

(** Loading adds one lease per row, with the time its deadline leaves. *)
Lemma lease_load_fold N es : forall m err, lease_ok m -> m_next_id m <= N -> N < 2 ^ 64 -> NoDup es.*1 ->
  Forall (fun kv => entry_good N kv.1 kv.2) es -> (forall id, id ∈ lease_ids m -> write_le64_ id ∉ es.*1) ->
  exists m', (fold_stop (fun kv => load_cb_ kv.1 kv.2) es (m, err)).1 = (m', err) /\ lease_ok m' /\
    m_now_ms m' = m_now_ms m /\ (m_clock m <= m_clock m')%nat /\ (forall l, l ∈ m_leases m -> l ∈ m_leases m') /\
    forall id ttl wd, in_u64 id -> bad_ttl ttl = false -> in_i64 wd -> (write_le64_ id, row_bytes ttl wd) ∈ es ->
      exists n, (m_clock m <= n)%nat /\ mk_lease id ttl (m_now_ms m + Z.max 0 (wd - realtime_ms_ n)) [] 0 ∈ m_leases m'.
Proof.
  induction es as [|[k v] es IH]; intros m err Hok Hnx HN Hnd Hgood Hfresh; cbn [fold_stop].
  { exists m. split_and!; try done. intros id ttl wd _ _ _ Hnil. by apply not_elem_of_nil in Hnil. }
  apply Forall_cons in Hgood as [Hkv Hgood]. cbn [fst snd fmap list_fmap] in *. apply NoDup_cons in Hnd as [Hk Hnd].
  destruct (load_entry N m err k v Hok Hnx HN Hkv) as (m1 & -> & Hok1 & Hnx1 & Enow & Hcase).
  { intros id Hid Hx. apply (Hfresh id Hid). rewrite Hx. by left. }
  cbn [negb].
  assert (Hm1 : (m_clock m <= m_clock m1)%nat /\ (forall l, l ∈ m_leases m -> l ∈ m_leases m1) /\
    (forall id, id ∈ lease_ids m1 -> write_le64_ id ∉ es.*1) /\
    (forall id ttl wd, in_u64 id -> bad_ttl ttl = false -> in_i64 wd -> (write_le64_ id, row_bytes ttl wd) = (k, v) ->
      restored m id ttl wd ∈ m_leases m1)).
  { destruct Hcase as [(-> & El & Ec)|(id & ttl & wd & (R1 & R2 & R3) & -> & -> & Ec & El)].
    - unfold lease_ids in *. rewrite El. split_and!; [lia|done|set_solver|].
      intros id ttl wd _ _ _ Hx. by apply (f_equal fst), write_le64_not_next in Hx.
    - unfold lease_ids in *. rewrite El. split_and!; [lia|set_solver| |].
      + intros id' Hid'. rewrite fmap_app in Hid'. apply elem_of_app in Hid' as [Hid'|Hid'%list_elem_of_singleton]; [set_solver|].
        cbn in Hid'. by subst id'.
      + intros id' ttl' wd' S1 S2 S3 Hxy. pose proof (f_equal fst Hxy) as Hx. pose proof (f_equal snd Hxy) as Hy.
        cbn [fst snd] in Hx, Hy. apply write_le64_inj in Hx; [|done|done]. subst id'.
        apply row_bytes_inj in Hy as [-> ->]; [|done..]. apply elem_of_app. right. by left. }
  destruct Hm1 as (Hc & Hkeep & Hfr & Hthis).
  destruct (IH m1 err Hok1 Hnx1 HN Hnd Hgood Hfr) as (m' & Hr & Hok' & En' & Hc' & Hkeep' & Hrest).
  exists m'. split_and!; [done|done|congruence|lia|auto|].
  intros id ttl wd S1 S2 S3 Hin. apply elem_of_cons in Hin as [Heq|Hin].
  - exists (m_clock m). split; [lia|]. apply Hkeep'. by apply Hthis.
  - destruct (Hrest id ttl wd S1 S2 S3 Hin) as (n & Hn & Hl). exists n. rewrite <- Enow. split; [lia|done].
Qed.

(** C20: restart.  From a new manager attached to a backend with an empty lease
    bucket, after any run of operations with any backend failures: a fresh
    manager that loads the bucket gets every live lease back, with its id and
    its TTL, and with the time left that the wall clock gives: the deadline
    set by the last grant or keep-alive (wall-clock reading [n]) minus the
    reading [n'] made by the load. *)
Theorem lease_restart (cb : Z -> mgr * X -> mgr * X) (env : E) (on : bool) (x : X) (ops : list lease_op) (k : nat)
  (Hcb : cb_good cb) (Hops : forallb op_bounded ops = true) (Hlen : blen ops < 2 ^ 62)
  (Henv : be_view env LEASE_BUCKET = ∅) :
  let m := (lease_run cb (cetcd_lease_mgr_set_backend (cetcd_lease_mgr_new env on) true, x) ops).1 in
  (m_clock m <= k)%nat ->
  (forall St (fn : bytes -> bytes -> St -> St * bool) st, (be_foreach (m_env m) LEASE_BUCKET fn st).2 = CETCD_OK) ->
  let '(m', _, rc) := cetcd_lease_load ((cetcd_lease_mgr_new (m_env m) on) <| m_clock := k |>) (m_env m) in
  rc = CETCD_OK /\ lease_ok m' /\
  forall l, l ∈ m_leases m -> exists n n', (n < k <= n')%nat /\
    mk_lease (l_id l) (l_ttl_seconds l)
      (Z.max 0 (realtime_ms_ n + l_ttl_seconds l * 1000 - realtime_ms_ n')) [] 0 ∈ m_leases m'.
Proof.
  set (w0 := (cetcd_lease_mgr_set_backend _ true, x)). intros m Hk Hread.
  assert (Hb0 : bounded_ok 0 w0) by (split; [by destruct (new_lease_ok env on)|cbn; lia]).
  assert (Hdu0 : durable [] w0.1).
  { split; [done|apply Hb0|cbn; lia|unfold lease_bucket; cbn; rewrite Henv; apply map_Forall_empty|].
    intros l Hnil. by apply not_elem_of_nil in Hnil. }
  destruct (run_durable cb ops 0 w0 Hcb Hops ltac:(lia) ltac:(lia) Hb0 Hdu0) as [D1 D2 D3 D4 D5]. fold m in D1, D2, D3, D4, D5.
  unfold cetcd_lease_load. set (m0 := _ <| m_have_bucket := false |>). specialize (Hread _ load_cb_ (m0, CETCD_OK)).
  pose proof (be_foreach_ok _ _ load_cb_ (m0, CETCD_OK) Hread) as Hf.
  destruct (lease_load_fold (m_next_id m) (sorted_entries (lease_bucket m)) m0 CETCD_OK) as (m' & Hr & Hok' & En & Hc & _ & Hrows).
  - unfold m0. by destruct (new_lease_ok (m_env m) on).
  - pose proof (lo_next m D2). cbn. lia.
  - done.
  - apply sorted_entries_nodup.
  - apply Forall_forall. intros [a b] Hab%sorted_entries_elem. by apply D4.
  - cbn. intros id Hnil. by apply not_elem_of_nil in Hnil.
  - unfold lease_bucket in Hr. rewrite Hr in Hf.
    destruct (be_foreach (m_env m) LEASE_BUCKET load_cb_ (m0, CETCD_OK)) as [[be st] rc]. cbn [fst snd] in *. subst rc st.
    cbn [is_ok negb]. split_and!; [done|done|]. intros l Hl.
    destruct (D5 l Hl ltac:(by apply not_elem_of_nil)) as (n & t & N1 & N2 & N3 & N4).
    pose proof (lw_ttl l (proj1 (Forall_forall _ _) (lo_wf m D2) l Hl)) as Ht.
    pose proof (realtime_range n). unfold CETCD_MAX_LEASE_TTL in Ht.
    destruct (Hrows (l_id l) (l_ttl_seconds l) (realtime_ms_ n + l_ttl_seconds l * 1000)) as (n' & Hn' & Hin).
    + apply (id_range m); [done|done|]. by apply list_elem_of_fmap_2.
    + by apply bad_ttl_false.
    + unfold in_i64. lia.
    + by apply sorted_entries_elem.
    + exists n, n'. change (m_now_ms m0) with 0 in Hin. rewrite Z.add_0_l in Hin. change (m_clock m0) with k in Hn'.
      split; [lia|done].
Qed.

(** ** A lease without a row *)

Definition rowless (id : Z) m : Prop :=
  m_backend m = true /\ lease_ok m /\ id ∈ lease_ids m /\ lease_bucket m !! write_le64_ id = None.

(** Deleting some row does not create the missing one, and does not succeed
    on it. *)
Lemma rowless_del m id id' : m_backend m = true -> lease_bucket m !! write_le64_ id = None ->
  lease_bucket (mgr_persist_del m id').1 !! write_le64_ id = None /\
  ((mgr_persist_del m id').2 = CETCD_OK -> id' <> id).
Proof.
  intros Hb Hv. unfold mgr_persist_del, persist_del_, lease_bucket in *. rewrite Hb.
  pose proof (be_del_ok (m_env m) LEASE_BUCKET (write_le64_ id')) as Ho.
  pose proof (be_del_err (m_env m) LEASE_BUCKET (write_le64_ id')) as He.
  pose proof (be_del_missing (m_env m) LEASE_BUCKET (write_le64_ id')) as Hmiss.
  destruct (be_del _ _ _) as [be rc]. cbn in *. split.
  - destruct (decide (rc = CETCD_OK)) as [Heq|Hnok]; [|by rewrite (He Hnok LEASE_BUCKET)].
    destruct (Ho Heq) as [_ [Hw|Hw]]; specialize (Hw LEASE_BUCKET); unfold view_alter in Hw;
      [rewrite decide_True in Hw by done|]; rewrite Hw; [apply lookup_delete_None; by right|done].
  - intros Hrc ->. by rewrite (Hmiss Hv) in Hrc.
Qed.

(** An attached manager cannot get rid of a lease that has no row in the
    bucket: [cetcd_backend_del] reports the missing key as an I/O error, so
    the revoke fails and every tick keeps the lease. *)
Theorem rowless_lease_stays (cb : Z -> mgr * X -> mgr * X) m (x : X) (elapsed id : Z)
  (Hcb : cb_good cb) (Hm : rowless id m) :
  (cetcd_lease_revoke m id).2 = CETCD_ERR_IO /\
  rowless id (default (m, x) (cetcd_lease_mgr_tick cb (m, x) elapsed)).1.
Proof.
  split; [destruct Hm as (Hb & _ & Hid & Hv); by apply missing_row_revoke|].
  apply (tick_inv (fun w => rowless id w.1)); [| | |done]; cbn [fst].
  - intros m1 y i l (Hb & Hok & Hid & Hv) Hi Hrc. pose proof (persist_del_mem m1 (l_id l)) as Hs.
    pose proof (rowless_del m1 id (l_id l) Hb Hv) as (Hv2 & _). pose proof (same_mem_ok _ _ Hs Hok) as Hok2.
    destruct Hs as (El & _ & _ & _ & Eb & _). unfold rowless, lease_ids. rewrite El, Eb. done.
  - intros m1 y i l (Hb & Hok & Hid & Hv) Hi Hrc. cbv zeta. pose proof (persist_del_mem m1 (l_id l)) as Hs.
    pose proof (rowless_del m1 id (l_id l) Hb Hv) as (Hv2 & Hne). specialize (Hne Hrc).
    destruct (mgr_persist_del m1 (l_id l)) as [m2 rc]. cbn [fst snd] in *.
    pose proof (same_mem_ok _ _ Hs Hok) as Hok2. destruct Hs as (El & _ & _ & _ & Eb & _). rewrite <- El in Hi.
    set (w2 := if m_on_expire m2 then _ else _).
    assert (Hw : lease_ok w2.1 /\ m_backend w2.1 = true /\ lease_bucket w2.1 = lease_bucket m2 /\
      lease_ids w2.1 = lease_ids m1 /\ exists l', m_leases w2.1 !! i = Some l' /\ l_id l' = l_id l).
    { unfold w2. destruct (m_on_expire m2); [|cbn [fst]; split_and!; [done|congruence|done|unfold lease_ids; by rewrite El|by exists l]].
      destruct (Hcb (l_id l) (m2, y) Hok2) as (C1 & C2 & _ & _ & C5 & _ & C7). cbn [fst] in *.
      split_and!; [done|congruence|done| |].
      - unfold lease_ids. rewrite <- El. by apply times_eq_ids.
      - destruct (times_eq_lookup _ _ _ _ C2 Hi) as (l' & Hl' & Ht). exists l'. split; [done|]. injection Ht as Hq _ _. exact Hq. }
    destruct Hw as (W1 & W2 & W3 & W4 & l' & W5 & W6).
    destruct (ok_shift w2.1 i l' W1 W5 (w2.1 <| m_leases := shift_out i (m_leases w2.1) |>)) as [Hok3 _]; [done|done|].
    split_and!; [done|done| |unfold lease_bucket in *; cbn; by rewrite W3].
    rewrite <- W4 in Hid. unfold lease_ids in Hid |- *. rewrite (shift_out_perm _ _ _ W5) in Hid. cbn in Hid |- *.
    apply elem_of_cons in Hid as [Hx|Hid]; [congruence|done].
  - intros m1 y (Hb & Hok & Hid & Hv) _. split_and!; try done. by destruct Hok.
Qed.

End Runs.

(** ** Samples and witnesses *)

Definition sample_clock : Clock := fun n => 1700000000000000000 + Z.of_nat n * 1000000000.
#[local] Existing Instance sample_clock.

Abbreviation mem_mgr := (cetcd_lease_mgr mem_env).

(** A callback that detaches a key. *)
Definition sample_cb (id : Z) (w : mem_mgr * list Z) : mem_mgr * list Z :=
  ((cetcd_lease_detach_key w.1 id [97]).1, w.2 ++ [id]).

Lemma detach_frame (m : mem_mgr) id key : lease_ok m ->
  let m' := (cetcd_lease_detach_key m id key).1 in
  lease_ok m' /\ lease_time <$> m_leases m' = lease_time <$> m_leases m /\ m_now_ms m' = m_now_ms m /\
  m_next_id m' = m_next_id m /\ m_backend m' = m_backend m /\ m_clock m' = m_clock m /\ m_env m' = m_env m /\
  m_on_expire m' = m_on_expire m.
Proof.
  intros Hok. pose proof (detach_spec m id key Hok) as Hd. unfold cetcd_lease_detach_key in *.
  destruct (lease_by_id_ m id) as [[i l]|] eqn:Hf; [|cbn; tauto]. apply by_id_some in Hf as [Hi _].
  destruct (key_slot l key) as [j|]; [|cbn; tauto]. cbn [fst]. split; [apply Hd|]. split_and!; try done.
  unfold set_lease. cbn. rewrite list_fmap_insert. apply list_insert_id. by rewrite list_lookup_fmap, Hi.
Qed.

Lemma sample_cb_good : cb_good sample_cb.
Proof.
  intros id w Hok. destruct (detach_frame w.1 id [97] Hok) as (A1 & A2 & A3 & A4 & A5 & A6 & A7 & _).
  unfold sample_cb. cbn [fst]. rewrite A7. split_and!; done.
Qed.

Definition sample_lease_ops : list lease_op :=
  [LGrant 60; LGrantId 7 5; LAttach 7 [97]; LAttach 7 [98]; LKeepAlive 7 10; LAttach 1 [99]; LTick 9000; LDetach 7 [97]].

Definition new_mem_mgr : mem_mgr := cetcd_lease_mgr_set_backend (cetcd_lease_mgr_new (mk_mem_env ∅ []) true) true.

Definition sample_mgr : mem_mgr := Eval vm_compute in (lease_run sample_cb (new_mem_mgr, []) sample_lease_ops).1.

Lemma sample_mgr_run : sample_mgr = (lease_run sample_cb (new_mem_mgr, []) sample_lease_ops).1.
Proof. vm_compute. reflexivity. Qed.

Lemma lease_invariant_witness : lease_ok sample_mgr /\ cetcd_lease_next_id sample_mgr ∉ lease_ids sample_mgr.
Proof.
  rewrite sample_mgr_run.
  exact (lease_invariant sample_cb (mk_mem_env ∅ []) true true [] sample_lease_ops sample_cb_good eq_refl eq_refl).
Defined.

Lemma sample_mgr_ok : lease_ok sample_mgr.
Proof.
  rewrite sample_mgr_run. destruct (run_bounded sample_cb sample_lease_ops 0 (new_mem_mgr, [])) as [Hok _];
    [apply sample_cb_good|reflexivity|lia|reflexivity| |exact Hok].
  split; [by destruct (new_lease_ok (E := mem_env) (mk_mem_env ∅ []) true)|cbn; lia].
Qed.

Lemma lease_refines_witness :
  lease_ids sample_mgr = [1; 7] /\ leases_of (cetcd_lease_revoke sample_mgr 7).1 = delete 7 (leases_of sample_mgr).
Proof.
  split; [reflexivity|].
  destruct (lease_refines sample_mgr 7 20 [97] sample_mgr_ok) as (_ & _ & Hr & _); [done|reflexivity|reflexivity|].
  assert (Hrc : (cetcd_lease_revoke sample_mgr 7).2 = CETCD_OK) by (vm_compute; reflexivity).
  destruct (cetcd_lease_revoke sample_mgr 7) as [m' rc]. cbn [fst snd] in *. subst rc. apply Hr.
Defined.

Definition no_cb (id : Z) (w : mem_mgr * unit) : mem_mgr * unit := w.

Lemma lease_tick_terminates_witness : is_Some (cetcd_lease_mgr_tick no_cb (sample_mgr, tt) 1000).
Proof. apply (lease_tick_terminates no_cb (sample_mgr, tt) 1000). intros id w. reflexivity. Defined.

Lemma lease_tick_spec_witness :
  exists m' x' ids, cetcd_lease_mgr_tick (logged no_cb) (sample_mgr, (tt, [])) 1000 = Some (m', (x', ids)) /\
    m_now_ms m' = 10000 /\
    swept 10000 (del_can_fail (E := mem_env) true) (lease_time <$> m_leases sample_mgr) (lease_time <$> m_leases m') ids.
Proof. apply (lease_tick_spec no_cb sample_mgr tt 1000); [intros id w; done|reflexivity|lia]. Defined.

Lemma lease_restart_witness :
  let '(m', _, rc) := cetcd_lease_load ((cetcd_lease_mgr_new (m_env sample_mgr) true) <| m_clock := 5%nat |>) (m_env sample_mgr) in
  rc = CETCD_OK /\ lease_ok m' /\
  forall l, l ∈ m_leases sample_mgr -> exists n n', (n < 5 <= n')%nat /\
    mk_lease (l_id l) (l_ttl_seconds l)
      (Z.max 0 (realtime_ms_ n + l_ttl_seconds l * 1000 - realtime_ms_ n')) [] 0 ∈ m_leases m'.
Proof.
  rewrite sample_mgr_run.
  apply (lease_restart sample_cb (mk_mem_env ∅ []) true [] sample_lease_ops 5 sample_cb_good eq_refl eq_refl).
  - reflexivity.
  - apply Nat.leb_le. vm_compute. reflexivity.
  - intros St fn st. fold new_mem_mgr. rewrite <- sample_mgr_run. reflexivity.
Defined.

(** The start-up sequence of the server: the backend is attached, the lease
    bucket loaded, then the keys of the store are indexed.  The bucket holds
    the counter, the store a key of a lease that has no row. *)
Definition started_mgr : mem_mgr :=
  let env := mk_mem_env {[LEASE_BUCKET := {[LEASE_KEY_NEXT := write_le64_ 2]}]} [] in
  let '(m, be, _) := cetcd_lease_load (cetcd_lease_mgr_set_backend (cetcd_lease_mgr_new env true) true) env in
  (cetcd_lease_reindex_from_store (m <| m_env := be |>) (cetcd_mvcc_put empty_tstore [97] [1] 5).1).1.

(** The lease it restores with no time left, meant to expire on the next
    tick, can neither expire nor be revoked. *)
Theorem reindexed_lease_never_expires (elapsed : Z) :
  cetcd_lease_ttl_remaining started_mgr 5 = 0 /\
  (cetcd_lease_revoke started_mgr 5).2 = CETCD_ERR_IO /\
  cetcd_lease_exists (default (started_mgr, tt) (cetcd_lease_mgr_tick no_cb (started_mgr, tt) elapsed)).1 5 = true.
Proof.
  assert (Hm : rowless 5 started_mgr).
  { split_and!; [reflexivity| |vm_compute; left|vm_compute; reflexivity]. split.
    - apply (NoDup_singleton 5).
    - apply Forall_singleton. vm_compute. done.
    - reflexivity.
    - apply Forall_singleton. split; [vm_compute; lia|apply (NoDup_singleton [97])|vm_compute; split; [done|discriminate]]. }
  assert (Hcb : cb_good no_cb) by (intros id w Hw; split_and!; done).
  destruct (rowless_lease_stays no_cb started_mgr tt elapsed 5 Hcb Hm) as (Hr & _ & _ & Hin & _).
  split_and!; [reflexivity|done|by apply exists_lookup].
Qed.
