(* ===== verification/CString.v ===== *)
(** * C strings

    A C string is the list of its bytes before the terminator; a character
    buffer is a byte list whose string is what precedes its first 0.  The
    string functions of the C library that the sources use are written out
    here. *)

From Stdlib Require Import Ascii String.
From S2P Require Import Prelude.

#[local] Open Scope Z_scope.

(** The bytes before the first 0. *)
Fixpoint cstr (p : bytes) : bytes :=
  match p with
  | [] => []
  | c :: p => if c =? 0 then [] else c :: cstr p
  end.

(** [strcmp] is 0. *)
Definition streq (a b : bytes) : bool := bool_decide (a = b).

Definition bytes_of_string (s : string) : bytes :=
  (fun c => Z.of_nat (Ascii.nat_of_ascii c)) <$> String.list_ascii_of_string s.

(** No terminator inside. *)
Definition nul_free (r : bytes) : Prop := Forall (fun c => c <> 0) r.

Lemma cstr_nul_free p : nul_free (cstr p).
Proof.
  induction p as [|c p IH]; cbn; [constructor|]. destruct (Z.eqb_spec c 0); constructor; done.
Qed.

Lemma cstr_id r : nul_free r -> cstr r = r.
Proof. induction 1 as [|c r Hc Hr IH]; [done|]. cbn. rewrite (proj2 (Z.eqb_neq c 0) Hc), IH. done. Qed.

Lemma nul_free_take n r : nul_free r -> nul_free (take n r).
Proof. apply Forall_take. Qed.

Lemma cstr_length p : (length (cstr p) <= length p)%nat.
Proof. induction p as [|c p IH]; cbn; [done|]. destruct (c =? 0); cbn; lia. Qed.

Lemma cstr_prefix r rest : nul_free r -> cstr (r ++ 0 :: rest) = r.
Proof. induction 1 as [|c r Hc Hr IH]; [done|]. cbn. rewrite (proj2 (Z.eqb_neq _ _)) by done. by rewrite IH. Qed.

Lemma bytes_nul_free l : forallb (fun c => negb (c =? 0)) l = true -> nul_free l.
Proof.
  intros Hl. apply Forall_forall. intros c Hc. rewrite forallb_forall in Hl.
  specialize (Hl c (proj1 (list_elem_of_In _ _) Hc)). by destruct (Z.eqb_spec c 0).
Qed.
