(* ===== verification/Config.v ===== *)
(** * Options, automatic compaction and the corruption check

    The pure helpers of src/server/auto_compact.c (numbers, durations, time
    outs, the decision when to compact, the health endpoint) and the file
    [backend.hash] of src/server/corrupt_check.c.  Strings are C strings: byte
    lists without a 0.  A parser answers [None] for CETCD_ERR_INVAL unless it
    has more than one error. *)

From Stdlib Require Import String.
From S2P Require Import Slice CString Prelude.

#[local] Open Scope Z_scope.

Definition UINT64_MAX : Z := 2 ^ 64 - 1.
Definition INT64_MAX : Z := 2 ^ 63 - 1.

(** ** Numbers: [strtoull] and [strtoll] of the C library, base 10 *)

Definition isdigit (c : Z) : bool := (48 <=? c) && (c <=? 57).
Definition isspace (c : Z) : bool := (c =? 32) || ((9 <=? c) && (c <=? 13)).

Fixpoint skip_space (s : bytes) : bytes :=
  match s with
  | c :: s' => if isspace c then skip_space s' else s
  | [] => []
  end.

(** The digits in front, as a number, and what follows them. *)
Fixpoint digits (acc : Z) (s : bytes) : Z * bytes :=
  match s with
  | c :: s' => if isdigit c then digits (acc * 10 + (c - 48)) s' else (acc, s)
  | [] => (acc, [])
  end.

(** The sign and the number; [None] when there is no digit, which leaves the
    end pointer at the start. *)
Definition scan_number (s : bytes) : option (bool * Z * bytes) :=
  let '(neg, s) := match skip_space s with
                   | c :: s' => if c =? 45 then (true, s') else if c =? 43 then (false, s') else (false, c :: s')
                   | [] => (false, []) end in
  match s with
  | c :: _ => if isdigit c then let '(v, rest) := digits 0 s in Some (neg, v, rest) else None
  | [] => None
  end.

(** The value, the rest and whether [errno] is ERANGE; a negative number is
    negated in the unsigned type. *)
Definition strtoull (s : bytes) : option (Z * bytes * bool) :=
  '(neg, v, rest) ← scan_number s;
  Some (if UINT64_MAX <? v then (UINT64_MAX, rest, true) else (if neg : bool then u64 (- v) else v, rest, false)).

Definition strtoll (s : bytes) : option (Z * bytes * bool) :=
  '(neg, v, rest) ← scan_number s;
  let v := if neg : bool then - v else v in
  Some (if v <? - 2 ^ 63 then (- 2 ^ 63, rest, true) else if INT64_MAX <? v then (INT64_MAX, rest, true) else (v, rest, false)).

(** A conversion of the whole string. *)
Definition whole (r : option (Z * bytes * bool)) : option Z :=
  match r with Some (v, [], false) => Some v | _ => None end.

Definition cetcd_parse_i64 (s : bytes) : option Z := whole (strtoll s).

Definition cetcd_parse_compaction_batch_limit (s : bytes) : option Z :=
  match s with
  | c :: _ => if isdigit c then whole (strtoull s) else None
  | [] => None
  end.

Definition cetcd_parse_bootstrap_defrag_mb (s : bytes) : option Z :=
  v ← cetcd_parse_compaction_batch_limit s;
  if UINT64_MAX / (1024 * 1024) <? v then None else Some v.

Definition cetcd_backend_should_defrag (alloc_bytes threshold_mb : Z) : bool :=
  if threshold_mb =? 0 then false
  else if UINT64_MAX / (1024 * 1024) <? threshold_mb then true
  else u64 (u64 (threshold_mb * 1024) * 1024) <? alloc_bytes.

Definition cetcd_parse_max_learners (s : bytes) : option Z :=
  v ← cetcd_parse_compaction_batch_limit s; if 2 ^ 32 - 1 <? v then None else Some v.

Definition cetcd_parse_auth_token_ttl (s : bytes) : option Z :=
  v ← cetcd_parse_compaction_batch_limit s;
  if v =? 0 then None else if UINT64_MAX / 1000000000 <? v then None else Some v.

Definition cetcd_parse_snapshot_catchup_entries (s : bytes) : option Z := cetcd_parse_compaction_batch_limit s.

Definition CETCD_MAX_ELECTION_MS : Z := 50000.
Definition CETCD_DEFAULT_ELECTION_MS : Z := 1000.
Definition CETCD_DEFAULT_TICK_MS : Z := 100.

Definition cetcd_parse_heartbeat_interval_ms (s : bytes) : option Z :=
  v ← cetcd_parse_compaction_batch_limit s; if (v =? 0) || (CETCD_MAX_ELECTION_MS <? v) then None else Some v.

Definition cetcd_parse_election_timeout_ms (s : bytes) : option Z :=
  v ← cetcd_parse_compaction_batch_limit s; if (v =? 0) || (CETCD_MAX_ELECTION_MS <? v) then None else Some v.

Definition cetcd_parse_max_concurrent_streams (s : bytes) : option Z :=
  v ← cetcd_parse_compaction_batch_limit s; if (v =? 0) || (2 ^ 32 - 1 <? v) then None else Some v.

(** The heartbeat and the election timeout in ticks. *)
Definition cetcd_raft_timing_from_ms (tick_ms election_ms : Z) : option (Z * Z) :=
  let tick_ms := if tick_ms =? 0 then CETCD_DEFAULT_TICK_MS else tick_ms in
  let election_ms := if election_ms =? 0 then CETCD_DEFAULT_ELECTION_MS else election_ms in
  if (CETCD_MAX_ELECTION_MS <? tick_ms) || (CETCD_MAX_ELECTION_MS <? election_ms) then None
  else if election_ms <? tick_ms then None
  else if election_ms / tick_ms =? 0 then None
  else Some (1, election_ms / tick_ms).

(** ** Durations *)

(** The inner loop over digits; [None] when the guard stops it. *)
Fixpoint duration_digits (n : Z) (s : bytes) : option (Z * bytes) :=
  match s with
  | c :: s' =>
      if isdigit c then if UINT64_MAX / 10 <? n then None else duration_digits (u64 (n * 10 + (c - 48))) s'
      else Some (n, s)
  | [] => Some (n, [])
  end.

Definition duration_unit (s : bytes) : option (Z * bytes) :=
  match s with
  | 110 :: 115 :: s => Some (1, s)
  | 117 :: 115 :: s => Some (1000, s)
  | 109 :: 115 :: s => Some (1000000, s)
  | 115 :: s => Some (1000000000, s)
  | 109 :: s => Some (60 * 1000000000, s)
  | 104 :: s => Some (3600 * 1000000000, s)
  | _ => None
  end.

(** The outer loop; every round takes at least one byte, so the length of the
    string is fuel enough. *)
Fixpoint duration_loop (fuel : nat) (total_ns : Z) (s : bytes) : option Z :=
  match s with
  | [] => Some total_ns
  | c :: _ =>
      match fuel with
      | O => None
      | S fuel =>
          if negb (isdigit c) then None
          else
            '(n, s) ← duration_digits 0 s;
            '(mul, s) ← duration_unit s;
            if UINT64_MAX / mul <? n then None
            else
              let add := n * mul in
              if UINT64_MAX - add <? total_ns then None else duration_loop fuel (total_ns + add) s
      end
  end.

Definition parse_go_duration_ns_ (s : bytes) : option Z :=
  if blen s =? 0 then None else duration_loop (length s) 0 s.

(** A quotient rounded up, as written out for seconds and milliseconds. *)
Definition round_up (ns unit : Z) : Z := if ns mod unit =? 0 then ns / unit else ns / unit + 1.

Definition parse_go_duration_sec_ (s : bytes) : option Z :=
  ns ← parse_go_duration_ns_ s; Some (if ns =? 0 then 0 else round_up ns 1000000000).

Definition cetcd_parse_go_duration_sec (s : bytes) : option Z :=
  if blen s =? 0 then None else if bool_decide (s = [48]) then Some 0 else parse_go_duration_sec_ s.

Definition cetcd_parse_go_duration_ms (s : bytes) : option Z :=
  if blen s =? 0 then None
  else if bool_decide (s = [48]) then Some 0
  else ns ← parse_go_duration_ns_ s; Some (if ns =? 0 then 0 else round_up ns 1000000).

Definition cetcd_parse_raft_io_timeout_ms (s : bytes) : option Z := cetcd_parse_go_duration_ms s.

Definition CETCD_DEFAULT_RAFT_IO_TIMEOUT_MS : Z := 5000.

Definition cetcd_server_raft_io_timeout_ms (ms : option Z) : Z :=
  let v := default CETCD_DEFAULT_RAFT_IO_TIMEOUT_MS ms in
  if v <? CETCD_DEFAULT_RAFT_IO_TIMEOUT_MS then CETCD_DEFAULT_RAFT_IO_TIMEOUT_MS else v.

Definition cetcd_raft_io_timed_out (last_ms now_ms timeout_ms : Z) : bool :=
  if (last_ms =? 0) || (timeout_ms =? 0) then false else (last_ms <=? now_ms) && (timeout_ms <=? now_ms - last_ms).

(** ** Snapshots, ticks and hash checks: options with a default; [None] is not set *)

Definition CETCD_DEFAULT_SNAPSHOT_COUNT : Z := 100000.
Definition CETCD_DEFAULT_SNAPSHOT_CATCHUP_ENTRIES : Z := 5000.

Definition cetcd_snapshot_count_effective (n : Z) : Z := if n =? 0 then CETCD_DEFAULT_SNAPSHOT_COUNT else n.

Definition cetcd_server_snapshot_catchup_entries (n : option Z) : Z := default CETCD_DEFAULT_SNAPSHOT_CATCHUP_ENTRIES n.

Definition cetcd_server_raft_compact_index (applied catchup : Z) : Z :=
  if applied =? 0 then 0
  else if (catchup =? 0) || (catchup <? applied) then applied - catchup
  else 1.

Definition cetcd_server_tick_ms (tick_ms : Z) : Z := if tick_ms =? 0 then CETCD_DEFAULT_TICK_MS else tick_ms.

Definition cetcd_server_want_compact_hash_check (enabled : option bool) : bool := default false enabled.

Definition cetcd_compact_hash_mismatch (local_rev local_hash remote_rev remote_hash : Z) : bool :=
  if (local_rev <=? 0) || (remote_rev <=? 0) then false
  else if negb (local_rev =? remote_rev) then false
  else negb (local_hash =? remote_hash).

Definition CETCD_DEFAULT_COMPACT_HASH_CHECK_MS : Z := 60000.

Definition cetcd_server_compact_hash_check_ms (ms : option Z) : Z := default CETCD_DEFAULT_COMPACT_HASH_CHECK_MS ms.

(** ** Automatic compaction *)

Inductive cetcd_auto_compact_mode : Type := CETCD_AUTO_COMPACT_OFF | CETCD_AUTO_COMPACT_PERIODIC | CETCD_AUTO_COMPACT_REVISION.

Record cetcd_auto_compact_state : Type := mk_auto_compact {
  ac_mode : cetcd_auto_compact_mode;
  ac_retention : Z;
  ac_window_start_ms : Z;
  ac_window_rev : Z;
  ac_batch_limit : Z;
  ac_pending : Z;
  ac_sleep_interval_ms : Z;
  ac_last_compact_ms : Z
}.

#[export] Instance auto_compact_eta : RecordEta cetcd_auto_compact_state := fun s =>
  mk_auto_compact (ac_mode s) (ac_retention s) (ac_window_start_ms s) (ac_window_rev s) (ac_batch_limit s)
    (ac_pending s) (ac_sleep_interval_ms s) (ac_last_compact_ms s).

Definition cetcd_parse_auto_compaction_mode (s : bytes) : option cetcd_auto_compact_mode :=
  if streq s (bytes_of_string "periodic") then Some CETCD_AUTO_COMPACT_PERIODIC
  else if streq s (bytes_of_string "revision") then Some CETCD_AUTO_COMPACT_REVISION
  else None.

Definition cetcd_parse_auto_compaction_retention (s : bytes) (mode : cetcd_auto_compact_mode) : cetcd_status * option Z :=
  let inval := (CETCD_ERR_INVAL, None) in
  let ok v := (CETCD_OK, Some v) in
  if blen s =? 0 then inval
  else
    match mode with
    | CETCD_AUTO_COMPACT_OFF => inval
    | CETCD_AUTO_COMPACT_REVISION =>
        if forallb isdigit s then match whole (strtoull s) with Some v => ok v | None => inval end else inval
    | CETCD_AUTO_COMPACT_PERIODIC =>
        if forallb isdigit s then
          match whole (strtoull s) with
          | Some v => if v =? 0 then ok 0 else if UINT64_MAX / 3600 <? v then (CETCD_ERR_RANGE, None) else ok (v * 3600)
          | None => inval
          end
        else match parse_go_duration_sec_ s with Some v => ok v | None => inval end
    end.

(** A moment that is not 0. *)
Definition clock_start (now_ms : Z) : Z := if now_ms =? 0 then 1 else now_ms.

(** A retention of 2^63 or more is negative as an [int64_t]; the difference is the
    mathematical one, which overflows only for a retention near 2^63. *)
Definition cetcd_auto_compact_due (st : cetcd_auto_compact_state) (current_rev compacted_rev now_ms : Z)
  : cetcd_auto_compact_state * Z :=
  if ac_retention st =? 0 then (st, 0)
  else
    match ac_mode st with
    | CETCD_AUTO_COMPACT_OFF => (st, 0)
    | CETCD_AUTO_COMPACT_REVISION =>
        if current_rev <=? 0 then (st, 0)
        else if current_rev <=? i64 (ac_retention st) then (st, 0)
        else
          let t := current_rev - i64 (ac_retention st) in
          (st, if t <=? compacted_rev then 0 else t)
    | CETCD_AUTO_COMPACT_PERIODIC =>
        if current_rev <=? 0 then (st, 0)
        else if UINT64_MAX / 1000 <? ac_retention st then (st, 0)
        else
          let interval_ms := ac_retention st * 1000 in
          let start := clock_start now_ms in
          let opened := st <| ac_window_start_ms := start |> <| ac_window_rev := current_rev |> in
          if ac_window_start_ms st =? 0 then (opened, 0)
          else if now_ms <? u64 (ac_window_start_ms st + interval_ms) then (st, 0)
          else
            let t := ac_window_rev st in
            (opened, if (t <=? 0) || (t <=? compacted_rev) || (current_rev <? t) then 0 else t)
    end.

Definition cetcd_auto_compact_clamp (target compacted_rev batch_limit : Z) : Z :=
  if target <=? 0 then 0
  else if batch_limit =? 0 then target
  else
    let compacted_rev := if compacted_rev <? 0 then 0 else compacted_rev in
    if INT64_MAX <? batch_limit then target
    else if INT64_MAX - batch_limit <? compacted_rev then target
    else Z.min (compacted_rev + batch_limit) target.

Definition cetcd_auto_compact_sleep_ready (last_compact_ms now_ms sleep_ms : Z) : bool :=
  if (sleep_ms =? 0) || (last_compact_ms =? 0) then true
  else if now_ms <? last_compact_ms then true
  else sleep_ms <=? now_ms - last_compact_ms.

Definition cetcd_auto_compact_next (st : cetcd_auto_compact_state) (current_rev compacted_rev now_ms : Z)
  : cetcd_auto_compact_state * Z :=
  let '(st, due) := cetcd_auto_compact_due st current_rev compacted_rev now_ms in
  let st := if 0 <? due then st <| ac_pending := due |> else st in
  if ac_pending st <=? compacted_rev then (st <| ac_pending := 0 |>, 0)
  else if negb (cetcd_auto_compact_sleep_ready (ac_last_compact_ms st) now_ms (ac_sleep_interval_ms st)) then (st, 0)
  else
    let step := cetcd_auto_compact_clamp (ac_pending st) compacted_rev (ac_batch_limit st) in
    (if 0 <? step then st <| ac_last_compact_ms := clock_start now_ms |> else st, step).

(** ** Periodic checks *)

(** The new time stamp and whether the check is due. *)
Definition cetcd_compact_hash_check_due (last_ms interval_ms now_ms : Z) : Z * bool :=
  let start := clock_start now_ms in
  if last_ms =? 0 then (start, false)
  else if interval_ms =? 0 then (start, true)
  else if now_ms <? u64 (last_ms + interval_ms) then (last_ms, false)
  else (start, true).

Definition cetcd_corrupt_check_due (last_ms interval_sec now_ms : Z) : Z * bool :=
  if interval_sec =? 0 then (last_ms, false)
  else if UINT64_MAX / 1000 <? interval_sec then (last_ms, false)
  else
    let interval_ms := interval_sec * 1000 in
    let start := clock_start now_ms in
    if last_ms =? 0 then (start, false)
    else if now_ms <? u64 (last_ms + interval_ms) then (last_ms, false)
    else (start, true).

(** ** The file backend.hash *)

(** [%llu] of the C library. *)
Fixpoint decimal_loop (fuel : nat) (n : Z) (acc : bytes) : bytes :=
  match fuel with
  | O => acc
  | S fuel =>
      let acc := 48 + n mod 10 :: acc in
      if n / 10 =? 0 then acc else decimal_loop fuel (n / 10) acc
  end.

Definition decimal (n : Z) : bytes := decimal_loop 20 n [].

(** The line [cetcd_backend_hash_store] writes. *)
Definition hash_line (rev hash : Z) : bytes := decimal rev ++ [32] ++ decimal hash ++ [10].

(** Whether the file could be replaced: opening, writing, closing and the
    rename; a failure leaves the old file. *)
Definition cetcd_backend_hash_store (file : option bytes) (io : bool) (rev hash : Z) : option bytes * cetcd_status :=
  if rev <? 0 then (file, CETCD_ERR_INVAL)
  else if io then (Some (hash_line rev hash), CETCD_OK) else (file, CETCD_ERR_IO).

Definition skip_char (c : Z) (s : bytes) : bytes := match s with d :: s' => if d =? c then s' else s | [] => [] end.

(** [None]: no file.  127 bytes are read, up to a 0. *)
Definition cetcd_backend_hash_load (file : option bytes) : cetcd_status * Z * Z :=
  match file with
  | None => (CETCD_ERR_NOTFOUND, 0, 0)
  | Some f =>
      let bad := (CETCD_ERR_CORRUPT, 0, 0) in
      if blen f =? 0 then bad
      else
        match strtoull (cstr (take 127 f)) with
        | Some (r, 32 :: p, false) =>
            if INT64_MAX <? r then bad
            else
              match strtoull p with
              | Some (h, rest, false) =>
                  if 4294967295 <? h then bad
                  else if bool_decide (skip_char 10 (skip_char 13 rest) = []) then (CETCD_OK, r, h) else bad
              | _ => bad
              end
        | _ => bad
        end
  end.

Definition cetcd_backend_hash_verify (file : option bytes) (io : bool) (rev hash : Z) : option bytes * cetcd_status :=
  if rev <? 0 then (file, CETCD_ERR_INVAL)
  else
    let '(rc, stored_rev, stored_hash) := cetcd_backend_hash_load file in
    match rc with
    | CETCD_ERR_NOTFOUND => cetcd_backend_hash_store file io rev hash
    | CETCD_OK =>
        if rev <? stored_rev then (file, CETCD_ERR_CORRUPT)
        else if (rev =? stored_rev) && negb (hash =? stored_hash) then (file, CETCD_ERR_CORRUPT)
        else cetcd_backend_hash_store file io rev hash
    | _ => (file, rc)
    end.

(** ** Command line *)

Definition cetcd_parse_bool_flag (s : bytes) : option bool :=
  if streq s (bytes_of_string "true") || streq s (bytes_of_string "1") then Some true
  else if streq s (bytes_of_string "false") || streq s (bytes_of_string "0") then Some false
  else None.

(** Options that are on, or off, unless set. *)
Definition cetcd_server_want_pre_vote (o : option bool) : bool := default true o.
Definition cetcd_server_want_tick_advance (o : option bool) : bool := default true o.
Definition cetcd_server_want_wait_cluster_ready (o : option bool) : bool := default false o.
Definition cetcd_server_should_listen_clients (wait_ready : bool) (leader_id : Z) : bool :=
  if wait_ready then negb (leader_id =? 0) else true.

(** ** The health endpoint *)

(** [memcmp] on the bytes of a request path; the string literals carry their
    terminator. *)
Definition has_prefix (p s : bytes) : bool := bool_decide (take (length p) s = p).

Definition literal (s : string) (n : nat) : bytes := take n (bytes_of_string s ++ [0]).

Definition cetcd_server_metrics_route (path : bytes) (enable_pprof : bool) : Z :=
  let n := blen path in
  let path_is l s := (n =? l) && has_prefix (literal s (Z.to_nat l)) path in
  if n =? 0 then 2
  else if path_is 8 "/metrics"%string then 1
  else if path_is 7 "/health"%string then 6
  else if (8 <=? n) && has_prefix (literal "/health?" 8) path then 6
  else if (20 <=? n) && has_prefix (literal "/debug/pprof/profile" 20) path then if enable_pprof then 3 else 2
  else if path_is 18 "/debug/pprof/heap"%string then if enable_pprof then 4 else 2
  else if path_is 24 "/debug/pprof/coroutines"%string then if enable_pprof then 5 else 2
  else 2.

(** The answer and the reason. *)
Definition cetcd_server_health_ok (has_leader nospace corrupt serializable exclude_nospace exclude_corrupt : bool) : bool * string :=
  if nospace && negb exclude_nospace then (false, "NOSPACE"%string)
  else if corrupt && negb exclude_corrupt then (false, "CORRUPT"%string)
  else if negb serializable && negb has_leader then (false, "RAFT NO LEADER"%string)
  else (true, ""%string).
