(* ===== verification/ConfigProps.v ===== *)
(** * Options, automatic compaction and the corruption check: correctness

    Decimal numbers read back, durations are sums of their components, the
    automatic compaction stays between the compacted and the current revision,
    and [backend.hash] detects a store that went back or differs.  Two defects
    at the end. *)

From Stdlib Require Import String.
From S2P Require Import Slice CString Config Prelude.

#[local] Open Scope Z_scope.

(** ** Decimal numbers *)

Definition digit (c : Z) : Prop := 48 <= c <= 57.
Definition digits_value (acc : Z) (ds : bytes) : Z := foldl (fun a c => a * 10 + (c - 48)) acc ds.

Lemma isdigit_true c : digit c -> isdigit c = true.
Proof. intros Hc. unfold isdigit. apply andb_true_iff. split; apply Z.leb_le; unfold digit in Hc; lia. Qed.

Lemma digits_value_mono ds : forall a, Forall digit ds -> 0 <= a -> a <= digits_value a ds.
Proof.
  induction ds as [|c ds IH]; intros a Hd Ha; [cbn; lia|]. apply Forall_cons in Hd as [Hc Hd]. unfold digit in Hc.
  cbn [digits_value foldl]. specialize (IH (a * 10 + (c - 48)) Hd ltac:(lia)). unfold digits_value in IH. lia.
Qed.

(** What the digit loop prints: at most [fuel] digits with the value. *)
Lemma decimal_loop_value fuel : forall n acc, 0 <= n < 10 ^ Z.of_nat fuel -> (0 < fuel)%nat ->
  exists ds, decimal_loop fuel n acc = ds ++ acc /\ Forall digit ds /\ (0 < length ds <= fuel)%nat /\ digits_value 0 ds = n.
Proof.
  induction fuel as [|fuel IH]; intros n acc Hn Hf; [lia|]. cbn [decimal_loop].
  pose proof (Z.mod_pos_bound n 10 ltac:(lia)) as Hm. pose proof (Z.div_mod n 10 ltac:(lia)) as Hd.
  assert (Hdig : digit (48 + n mod 10)) by (unfold digit; lia).
  destruct (Z.eqb_spec (n / 10) 0) as [Hz|Hz].
  - exists [48 + n mod 10]. split; [done|]. split; [by apply Forall_singleton|]. split; [cbn; lia|]. unfold digits_value. cbn [foldl]. lia.
  - assert (Hq : 0 <= n / 10 < 10 ^ Z.of_nat fuel).
    { split; [apply Z.div_pos; lia|]. apply Z.div_lt_upper_bound; [lia|]. rewrite <- Z.pow_succ_r, <- Nat2Z.inj_succ by lia. lia. }
    assert (0 < fuel)%nat by (destruct fuel; [cbn in Hq; lia|lia]).
    destruct (IH (n / 10) (48 + n mod 10 :: acc) Hq ltac:(done)) as (ds & -> & Hds & Hl & Hv).
    exists (ds ++ [48 + n mod 10]). split; [by rewrite <- app_assoc|]. split; [apply Forall_app; split; [done|by apply Forall_singleton]|].
    split; [rewrite length_app; cbn; lia|]. unfold digits_value in *. rewrite foldl_app, Hv. cbn [foldl]. lia.
Qed.

Lemma decimal_value n : in_u64 n ->
  exists ds, decimal n = ds /\ Forall digit ds /\ (0 < length ds <= 20)%nat /\ digits_value 0 ds = n.
Proof.
  intros [H0 H1]. destruct (decimal_loop_value 20 n [] ltac:(cbn; lia) ltac:(lia)) as (ds & Hd & H).
  exists ds. unfold decimal. rewrite Hd, app_nil_r. by split.
Qed.

(** The rest does not start with a digit. *)
Definition stops (rest : bytes) : Prop := match rest with c :: _ => isdigit c = false | [] => True end.

Lemma digits_run ds rest : forall a, Forall digit ds -> stops rest -> digits a (ds ++ rest) = (digits_value a ds, rest).
Proof.
  induction ds as [|c ds IH]; intros a Hd Hr.
  - destruct rest as [|c rest]; [done|]. cbn [app digits]. cbn in Hr. by rewrite Hr.
  - apply Forall_cons in Hd as [Hc Hd]. cbn [app digits]. rewrite isdigit_true by done. by rewrite IH.
Qed.

Lemma scan_decimal n rest : in_u64 n -> stops rest -> scan_number (decimal n ++ rest) = Some (false, n, rest).
Proof.
  intros Hn Hr. destruct (decimal_value n Hn) as (ds & -> & Hd & Hl & Hv). unfold scan_number.
  destruct ds as [|c ds]; [cbn in Hl; lia|]. pose proof Hd as [Hc _]%Forall_cons. unfold digit in Hc.
  assert (Hs : skip_space ((c :: ds) ++ rest) = (c :: ds) ++ rest).
  { cbn [app skip_space]. unfold isspace. destruct (Z.eqb_spec c 32), (Z.leb_spec 9 c), (Z.leb_spec c 13); cbn; try done; lia. }
  rewrite Hs. cbn [app]. destruct (Z.eqb_spec c 45); [lia|]. destruct (Z.eqb_spec c 43); [lia|].
  rewrite isdigit_true by done. change (c :: ds ++ rest) with ((c :: ds) ++ rest). rewrite digits_run by done. by rewrite Hv.
Qed.

Lemma strtoull_decimal n rest : in_u64 n -> stops rest -> strtoull (decimal n ++ rest) = Some (n, rest, false).
Proof.
  intros Hn Hr. unfold strtoull. rewrite scan_decimal by done. cbn [mbind option_bind].
  destruct (Z.ltb_spec UINT64_MAX n) as [Hlt|]; [|done]. unfold UINT64_MAX in Hlt. destruct Hn. lia.
Qed.

(** A printed number is parsed back. *)
Lemma parse_decimal n : in_u64 n -> cetcd_parse_compaction_batch_limit (decimal n) = Some n.
Proof.
  intros Hn. pose proof (strtoull_decimal n [] Hn I) as Hs. rewrite app_nil_r in Hs. unfold cetcd_parse_compaction_batch_limit.
  destruct (decimal_value n Hn) as (ds & Hd & Hds & Hl & _). destruct (decimal n) as [|c l] eqn:E; [subst ds; cbn in Hl; lia|].
  subst ds. apply Forall_cons in Hds as [Hc _]. rewrite isdigit_true by done. by rewrite Hs.
Qed.

(** ** Durations *)

Inductive unit_of_time : Type := Ns | Us | Ms | Sec | Min | Hour.

Definition unit_ns (u : unit_of_time) : Z :=
  match u with Ns => 1 | Us => 1000 | Ms => 1000000 | Sec => 1000000000 | Min => 60 * 1000000000 | Hour => 3600 * 1000000000 end.

Definition unit_name (u : unit_of_time) : bytes :=
  bytes_of_string match u with Ns => "ns" | Us => "us" | Ms => "ms" | Sec => "s" | Min => "m" | Hour => "h" end.

(** The text of a duration, e.g. 1h30m, and its length in nanoseconds. *)
Definition duration_text (cs : list (Z * unit_of_time)) : bytes := mjoin ((fun '(n, u) => decimal n ++ unit_name u) <$> cs).
Definition duration_ns (cs : list (Z * unit_of_time)) : Z := foldr (fun '(n, u) t => n * unit_ns u + t) 0 cs.

Lemma duration_digits_run ds rest : forall a, Forall digit ds -> stops rest -> 0 <= a -> digits_value a ds <= UINT64_MAX ->
  duration_digits a (ds ++ rest) = Some (digits_value a ds, rest).
Proof.
  induction ds as [|c ds IH]; intros a Hd Hr Ha Hv.
  - destruct rest as [|c rest]; [done|]. cbn [app duration_digits]. cbn in Hr. by rewrite Hr.
  - apply Forall_cons in Hd as [Hc Hd]. unfold digit in Hc. cbn [app duration_digits]. rewrite isdigit_true by done.
    change (digits_value a (c :: ds)) with (digits_value (a * 10 + (c - 48)) ds) in *.
    pose proof (digits_value_mono ds (a * 10 + (c - 48)) Hd ltac:(lia)) as Hmono.
    assert (a <= UINT64_MAX / 10) by (apply Z.div_le_lower_bound; lia).
    destruct (Z.ltb_spec (UINT64_MAX / 10) a); [lia|]. rewrite u64_small by (unfold in_u64, UINT64_MAX in *; lia). apply IH; [done|done|lia|done].
Qed.

Lemma duration_ns_nonneg cs : Forall (fun c => 0 <= c.1) cs -> 0 <= duration_ns cs.
Proof. induction 1 as [|[n u] cs Hn _ IH]; [done|]. cbn [fst] in Hn. change (0 <= n * unit_ns u + duration_ns cs). destruct u; cbn [unit_ns]; lia. Qed.

Lemma unit_stops u rest : stops (unit_name u ++ rest) /\ duration_unit (unit_name u ++ rest) = Some (unit_ns u, rest) \/ u = Min.
Proof. by destruct u; [left|left|left|left|right|left]. Qed.

(** After minutes comes a digit, not an s. *)
Lemma min_unit rest : match rest with 115 :: _ => False | _ => True end -> duration_unit (unit_name Min ++ rest) = Some (unit_ns Min, rest).
Proof.
  intros Hr. change (unit_name Min ++ rest) with (109 :: rest). unfold duration_unit.
  destruct rest as [|c rest]; [done|]. destruct (Z.eq_dec c 115) as [->|Hne]; [done|].
  destruct c as [|p|p]; try done. repeat (destruct p as [p|p|]; try done).
Qed.

Lemma text_head cs : Forall (fun c => in_u64 c.1) cs -> match duration_text cs with c :: _ => digit c | [] => cs = [] end.
Proof.
  destruct cs as [|[m u] cs]; [done|]. intros [Hm _]%Forall_cons. cbn in Hm. destruct (decimal_value m Hm) as (ds & Hd & Hds & Hl & _).
  unfold duration_text. cbn [fmap list_fmap mjoin list_join]. rewrite Hd. destruct ds as [|c ds]; [cbn in Hl; lia|]. by apply Forall_cons in Hds as [? _].
Qed.


Lemma text_cons n u cs : duration_text ((n, u) :: cs) = decimal n ++ unit_name u ++ duration_text cs.
Proof. unfold duration_text. cbn [fmap list_fmap mjoin list_join]. by rewrite <- app_assoc. Qed.

Lemma unit_next u cs : Forall (fun c => in_u64 c.1) cs -> stops (unit_name u ++ duration_text cs) /\
  duration_unit (unit_name u ++ duration_text cs) = Some (unit_ns u, duration_text cs).
Proof.
  intros Hcs. destruct (unit_stops u (duration_text cs)) as [H| ->]; [done|]. split; [done|]. apply min_unit.
  pose proof (text_head cs Hcs) as Hh. destruct (duration_text cs) as [|c l]; [done|]. unfold digit in Hh.
  destruct (Z.eq_dec c 115) as [->|Hne]; [lia|]. destruct c as [|p|p]; try done. repeat (destruct p as [p|p|]; try done).
Qed.

Lemma duration_loop_run cs : forall fuel t, Forall (fun c => in_u64 c.1) cs -> 0 <= t -> t + duration_ns cs <= UINT64_MAX ->
  (length cs <= fuel)%nat -> duration_loop fuel t (duration_text cs) = Some (t + duration_ns cs).
Proof.
  induction cs as [|[n u] cs IH]; intros fuel t Hcs Ht Hmax Hf; [destruct fuel; cbn; f_equal; lia|].
  apply Forall_cons in Hcs as [Hn Hcs]. cbn [fst] in Hn. change (duration_ns ((n, u) :: cs)) with (n * unit_ns u + duration_ns cs) in *.
  pose proof (duration_ns_nonneg cs ltac:(eapply Forall_impl; [exact Hcs|]; intros [a b] [? _]; done)) as Hpos.
  assert (Hu : 0 < unit_ns u) by (by destruct u). destruct Hn as [Hn0 Hn1].
  destruct fuel as [|fuel]; [cbn in Hf; lia|]. rewrite text_cons. destruct (decimal_value n (conj Hn0 Hn1)) as (ds & Hd & Hds & Hl & Hv). rewrite Hd.
  destruct (unit_next u cs Hcs) as [Hstop Hunit].
  pose proof (duration_digits_run ds (unit_name u ++ duration_text cs) 0 Hds Hstop ltac:(lia) ltac:(rewrite Hv; nia)) as Hrun.
  rewrite Hv in Hrun. destruct ds as [|c ds]; [cbn in Hl; lia|]. apply Forall_cons in Hds as [Hc _].
  cbn [app duration_loop] in *. rewrite isdigit_true by done. cbn [negb]. rewrite Hrun. cbn [mbind option_bind]. rewrite Hunit. cbn [mbind option_bind].
  assert (n <= UINT64_MAX / unit_ns u) by (apply Z.div_le_lower_bound; nia).
  destruct (Z.ltb_spec (UINT64_MAX / unit_ns u) n); [lia|]. destruct (Z.ltb_spec (UINT64_MAX - n * unit_ns u) t); [lia|].
  rewrite IH by (done || nia || (cbn in Hf; lia)). f_equal. lia.
Qed.

(** Durations.  A duration written as numbers with units, of at most
    2^64 - 1 nanoseconds in all, is read as the sum of its components; in
    seconds and milliseconds it is rounded up, and 0 stays 0. *)
Theorem go_duration_value (cs : list (Z * unit_of_time)) (Hne : cs <> []) (Hcs : Forall (fun c => in_u64 c.1) cs)
  (Hmax : duration_ns cs <= UINT64_MAX) :
  parse_go_duration_ns_ (duration_text cs) = Some (duration_ns cs) /\
  cetcd_parse_go_duration_sec (duration_text cs) = Some (- (- duration_ns cs / 1000000000)) /\
  cetcd_parse_go_duration_ms (duration_text cs) = Some (- (- duration_ns cs / 1000000)).
Proof.
  assert (Hlen : (length cs < length (duration_text cs))%nat).
  { clear Hmax. destruct cs as [|c0 cs]; [done|]. clear Hne. revert c0 Hcs. induction cs as [|c1 cs IH]; intros [n u] Hcs; rewrite text_cons;
      apply Forall_cons in Hcs as [Hn Hcs]; destruct (decimal_value n Hn) as (ds & -> & _ & Hl & _); rewrite !length_app.
    - assert (1 <= length (unit_name u))%nat by (destruct u; cbn; lia). cbn [length]. lia.
    - specialize (IH c1 Hcs). assert (1 <= length (unit_name u))%nat by (destruct u; cbn; lia). cbn [length] in *. lia. }
  assert (Hns : parse_go_duration_ns_ (duration_text cs) = Some (duration_ns cs)).
  { unfold parse_go_duration_ns_. rewrite blen_nonempty by (destruct (duration_text cs); [cbn in Hlen; lia|done]).
    rewrite duration_loop_run by (done || lia). f_equal. }
  assert (Hz : bool_decide (duration_text cs = [48]) = false).
  { apply bool_decide_eq_false. intros He. rewrite He in Hlen. destruct cs as [|c [|c2 cs]]; cbn in Hlen; [done|lia|lia]. }
  assert (Hup : forall m, 0 < m -> (if duration_ns cs =? 0 then 0 else round_up (duration_ns cs) m) = - (- duration_ns cs / m)).
  { intros m Hm. destruct (Z.eqb_spec (duration_ns cs) 0) as [->|]; [by rewrite Z.opp_0, Z.div_0_l by lia|]. unfold round_up.
    pose proof (Z.div_mod (duration_ns cs) m ltac:(lia)). pose proof (Z.mod_pos_bound (duration_ns cs) m Hm).
    destruct (Z.eqb_spec (duration_ns cs mod m) 0) as [He|He].
    - rewrite Z.div_opp_l_z by lia. lia.
    - rewrite Z.div_opp_l_nz by lia. lia. }
  split; [done|]. unfold cetcd_parse_go_duration_sec, cetcd_parse_go_duration_ms, parse_go_duration_sec_.
  rewrite !blen_nonempty by (destruct (duration_text cs); [cbn in Hlen; lia|done]). rewrite Hz, Hns. cbn [mbind option_bind].
  by rewrite !Hup by lia.
Qed.

Lemma go_duration_value_witness : cetcd_parse_go_duration_sec (duration_text [(1, Hour); (30, Min); (500, Ms)]) = Some 5401.
Proof.
  destruct (go_duration_value [(1, Hour); (30, Min); (500, Ms)]) as (_ & H & _).
  - done.
  - repeat (apply Forall_cons_2; [split; cbn; lia|]). apply Forall_nil_2.
  - vm_compute. congruence.
  - exact H.
Defined.

(** ** Automatic compaction *)

Lemma clamp_bounds t comp b : 0 <= comp < t -> t <= INT64_MAX -> 0 <= b ->
  comp < cetcd_auto_compact_clamp t comp b <= t /\ (0 < b -> cetcd_auto_compact_clamp t comp b <= comp + b).
Proof.
  intros Hc Hm Hb. unfold cetcd_auto_compact_clamp. destruct (Z.leb_spec t 0); [lia|]. destruct (Z.eqb_spec b 0); [lia|].
  destruct (Z.ltb_spec comp 0); [lia|]. destruct (Z.ltb_spec INT64_MAX b); [lia|]. destruct (Z.ltb_spec (INT64_MAX - b) comp); lia.
Qed.

Lemma due_bounds st cur comp now : 0 <= comp -> cur <= INT64_MAX -> 0 <= ac_retention st ->
  (ac_mode st = CETCD_AUTO_COMPACT_REVISION -> ac_retention st <= INT64_MAX) ->
  let '(st', due) := cetcd_auto_compact_due st cur comp now in
  ac_pending st' = ac_pending st /\ ac_batch_limit st' = ac_batch_limit st /\ ac_mode st' = ac_mode st /\
  (due = 0 \/ comp < due <= cur) /\
  (ac_mode st = CETCD_AUTO_COMPACT_REVISION -> due = 0 \/ due = cur - ac_retention st).
Proof.
  intros Hc Hm Hr0 Hr. unfold INT64_MAX in *. assert (Hi : ac_mode st = CETCD_AUTO_COMPACT_REVISION -> i64 (ac_retention st) = ac_retention st).
  { intros Hmode. specialize (Hr Hmode). unfold i64. rewrite u64_small by (unfold in_u64; lia). by rewrite (proj2 (Z.ltb_lt _ _)) by lia. }
  unfold cetcd_auto_compact_due. destruct (Z.eqb_spec (ac_retention st) 0); [by split_and!; try left|].
  destruct (ac_mode st) eqn:Hmode.
  - by split_and!; try left.
  - destruct (cur <=? 0); [by split_and!; try left|]. destruct (_ <? ac_retention st); [by split_and!; try left|]. cbv zeta.
    destruct (ac_window_start_ms st =? 0); [by split_and!; try left|]. destruct (now <? _); [by split_and!; try left|].
    split_and!; try done. destruct (Z.leb_spec (ac_window_rev st) 0), (Z.leb_spec (ac_window_rev st) comp), (Z.ltb_spec cur (ac_window_rev st)); cbn; lia.
  - destruct (Z.leb_spec cur 0); [by split_and!; try left|]. specialize (Hr eq_refl). rewrite (Hi eq_refl). destruct (Z.leb_spec cur (ac_retention st)); [by split_and!; try left|].
    cbv zeta. split_and!; try done; destruct (Z.leb_spec (cur - ac_retention st) comp); lia.
Qed.

(** C25: automatic compaction is bounded.  A step either asks for nothing or
    for a revision above the compacted one and not above the current one,
    at most a batch further than the compacted one; with a retention in
    revisions, which must not exceed the largest [int64_t] (see
    [huge_retention_compacts_ahead]), it leaves that many revisions.  The pending
    target stays within the same bound, so the statement applies again to the
    next step. *)
Theorem auto_compact_next_bounds (st : cetcd_auto_compact_state) (cur comp now : Z)
  (Hc : 0 <= comp) (Hm : cur <= INT64_MAX) (Hr0 : 0 <= ac_retention st)
  (Hr : ac_mode st = CETCD_AUTO_COMPACT_REVISION -> ac_retention st <= INT64_MAX) (Hb : 0 <= ac_batch_limit st)
  (Hp : ac_pending st <= cur) :
  let '(st', step) := cetcd_auto_compact_next st cur comp now in
  (step = 0 \/ comp < step <= cur) /\ (0 < ac_batch_limit st -> step <= comp + ac_batch_limit st) /\
  (ac_pending st' <= Z.max 0 cur) /\
  (ac_mode st = CETCD_AUTO_COMPACT_REVISION -> ac_pending st <= cur - ac_retention st ->
   step <= Z.max 0 (cur - ac_retention st) /\ ac_pending st' <= Z.max 0 (cur - ac_retention st)).
Proof.
  unfold cetcd_auto_compact_next. pose proof (due_bounds st cur comp now Hc Hm Hr0 Hr) as Hd.
  destruct (cetcd_auto_compact_due st cur comp now) as [st1 due]. destruct Hd as (H1 & H2 & H3 & H4 & H5).
  set (st2 := if 0 <? due then st1 <| ac_pending := due |> else st1).
  assert (P : (ac_pending st2 = due \/ ac_pending st2 = ac_pending st) /\ ac_batch_limit st2 = ac_batch_limit st).
  { subst st2. destruct (0 <? due); cbn; [by split; [left|]|by split; [right|]]. }
  destruct P as [Hp2 Hb2]. clearbody st2. assert (Hle : ac_pending st2 <= Z.max 0 cur) by lia.
  assert (Hrev : ac_mode st = CETCD_AUTO_COMPACT_REVISION -> ac_pending st <= cur - ac_retention st -> ac_pending st2 <= Z.max 0 (cur - ac_retention st)).
  { intros Hmode Hps. destruct (H5 Hmode); lia. }
  destruct (Z.leb_spec (ac_pending st2) comp); [split_and!; [by left|lia|cbn; lia|cbn; lia]|].
  destruct (negb _); [split_and!; [by left|lia|done|intros ? ?; split; [lia|by apply Hrev]]|]. cbv zeta.
  destruct (clamp_bounds (ac_pending st2) comp (ac_batch_limit st2)) as [Hcl Hcb]; [lia|unfold INT64_MAX in *; lia|lia|].
  set (step := cetcd_auto_compact_clamp _ _ _) in *. rewrite Hb2 in Hcb.
  assert (Hst : ac_pending (if 0 <? step then st2 <| ac_last_compact_ms := clock_start now |> else st2) = ac_pending st2) by (by destruct (0 <? step)).
  rewrite Hst. split_and!; [right; lia|done|done|]. intros Hmode Hps. specialize (Hrev Hmode Hps). lia.
Qed.

Definition revision_mode : cetcd_auto_compact_state := mk_auto_compact CETCD_AUTO_COMPACT_REVISION 10 0 0 5 0 0 0.

Lemma auto_compact_next_bounds_witness :
  0 <= 3 /\ (let '(st', step) := cetcd_auto_compact_next revision_mode 100 3 7 in step = 8 /\ ac_pending st' <= Z.max 0 100).
Proof.
  split; [lia|]. pose proof (auto_compact_next_bounds revision_mode 100 3 7 ltac:(lia) ltac:(vm_compute; congruence)
    ltac:(vm_compute; congruence) ltac:(vm_compute; congruence) ltac:(vm_compute; congruence) ltac:(vm_compute; congruence)) as H.
  destruct (cetcd_auto_compact_next revision_mode 100 3 7) as [st' step] eqn:E. destruct H as (_ & _ & H & _).
  split; [|exact H]. vm_compute in E. by injection E as _ <-.
Defined.

(** A retention in revisions above the largest [int64_t], which the option
    accepts, is negative after the conversion: the compaction asked for is then
    ahead of the current revision. *)
Theorem huge_retention_compacts_ahead :
  cetcd_parse_auto_compaction_retention (bytes_of_string "18446744073709551615") CETCD_AUTO_COMPACT_REVISION = (CETCD_OK, Some 18446744073709551615) /\
  (cetcd_auto_compact_due (revision_mode <| ac_retention := 18446744073709551615 |>) 100 3 7).2 = 101.
Proof. split; vm_compute; reflexivity. Qed.

(** ** backend.hash *)

Lemma digit_nul_free ds : Forall digit ds -> nul_free ds.
Proof. intros Hd. eapply Forall_impl; [exact Hd|]. unfold digit. lia. Qed.

Lemma hash_line_load rev hash : 0 <= rev <= INT64_MAX -> in_u32 hash ->
  cetcd_backend_hash_load (Some (hash_line rev hash)) = (CETCD_OK, rev, hash).
Proof.
  intros Hr Hh. unfold INT64_MAX, in_u32 in *. assert (Hr64 : in_u64 rev) by (unfold in_u64; lia). assert (Hh64 : in_u64 hash) by (unfold in_u64; lia).
  unfold cetcd_backend_hash_load. rewrite blen_nonempty by (unfold hash_line; by destruct (decimal rev)).
  assert (Htake : cstr (take 127 (hash_line rev hash)) = hash_line rev hash).
  { destruct (decimal_value rev Hr64) as (d1 & E1 & H1 & L1 & _). destruct (decimal_value hash Hh64) as (d2 & E2 & H2 & L2 & _).
    unfold hash_line. rewrite E1, E2. rewrite take_ge by (rewrite !length_app; cbn [length]; lia). apply cstr_id.
    unfold nul_free. rewrite !Forall_app. split_and!; [by apply digit_nul_free|by apply Forall_singleton|by apply digit_nul_free|by apply Forall_singleton]. }
  rewrite Htake. unfold hash_line. cbn [app]. rewrite strtoull_decimal by done.
  destruct (Z.ltb_spec INT64_MAX rev); [unfold INT64_MAX in *; lia|]. rewrite strtoull_decimal by done.
  destruct (Z.ltb_spec 4294967295 hash); [lia|]. done.
Qed.

(** The corruption check.  After the revision and the hash of a store were
    recorded in backend.hash, the check reports CETCD_ERR_CORRUPT for a store
    whose revision went back and for one with the same revision and another
    hash, keeping the file; otherwise it records the new values, or reports
    CETCD_ERR_IO with the old file. *)
Theorem hash_check_detects (file : option bytes) (io : bool) (rev hash rev' hash' : Z)
  (Hr : 0 <= rev <= INT64_MAX) (Hh : in_u32 hash) (Hr' : 0 <= rev') :
  let line := Some (hash_line rev hash) in
  cetcd_backend_hash_store file true rev hash = (line, CETCD_OK) /\
  cetcd_backend_hash_verify line io rev' hash' =
    if (rev' <? rev) || ((rev' =? rev) && negb (hash' =? hash)) then (line, CETCD_ERR_CORRUPT)
    else if io then (Some (hash_line rev' hash'), CETCD_OK) else (line, CETCD_ERR_IO).
Proof.
  cbv zeta. unfold cetcd_backend_hash_verify, cetcd_backend_hash_store. rewrite (hash_line_load rev hash Hr Hh).
  destruct (Z.ltb_spec rev 0); [lia|]. destruct (Z.ltb_spec rev' 0); [lia|]. split; [done|].
  destruct (rev' <? rev); [done|]. cbn [orb]. by destruct ((rev' =? rev) && negb (hash' =? hash)).
Qed.

Lemma hash_check_detects_witness : cetcd_backend_hash_verify (Some (hash_line 5 77)) true 5 78 = (Some (hash_line 5 77), CETCD_ERR_CORRUPT).
Proof.
  destruct (hash_check_detects None true 5 77 5 78) as [_ H].
  - unfold INT64_MAX. lia.
  - unfold in_u32. lia.
  - lia.
  - exact H.
Defined.

(** ** Defects *)

(** The guard of the digit loop lets a last digit overflow: 2^64 + 3 seconds
    are read as 3 seconds. *)
Theorem duration_wraps : cetcd_parse_go_duration_sec (bytes_of_string "18446744073709551619s") = Some 3.
Proof. reflexivity. Qed.

(** The lengths 18 and 24 of the pprof paths count the terminator: a request
    path without a 0 never gets to the heap or the coroutine profile. *)
Theorem pprof_routes_unreachable (path : bytes) (pprof : bool) : nul_free path ->
  cetcd_server_metrics_route path pprof <> 4 /\ cetcd_server_metrics_route path pprof <> 5.
Proof.
  intros Hn.
  assert (Hpre : forall s n, In 0 (literal s n) -> has_prefix (literal s n) path = false).
  { intros s n Hin. apply bool_decide_eq_false. intros He. pose proof (Forall_take (fun c => c <> 0) (length (literal s n)) path Hn) as Ht.
    rewrite He in Ht. rewrite Forall_forall in Ht. by apply (Ht 0); [apply list_elem_of_In|]. }
  unfold cetcd_server_metrics_route. cbv zeta. destruct (blen path =? 0); [done|].
  repeat match goal with |- (if ?b then _ else _) <> _ /\ _ => destruct b eqn:? end; try done.
  - match goal with H : (_ && has_prefix (literal "/debug/pprof/heap" _) _) = true |- _ => rewrite Hpre in H by (vm_compute; tauto); by rewrite andb_false_r in H end.
  - match goal with H : (_ && has_prefix (literal "/debug/pprof/coroutines" _) _) = true |- _ => rewrite Hpre in H by (vm_compute; tauto); by rewrite andb_false_r in H end.
Qed.
