(* ===== verification/Auth.v ===== *)
(** * The authentication store (src/auth/auth.c, include/cetcd/auth.h)

    Users, roles, permissions, simple tokens and their persistence, in the
    build with OpenSSL and libcrypt.  A C string is the list of its bytes
    before the terminator.  The roles of a user are kept as the code keeps
    them: one allocated buffer with the names one after the other, each with
    its terminator, and their number.  [memmove] over the end of that buffer is
    undefined behaviour: an operation that can do it returns [option], [None]
    for the undefined case.  The cryptographic libraries and the clock are
    parameters.  The code of JSON web tokens, over OpenSSL, is the parameters
    [jwt_issue] and [jwt_user_for] of the two operations that dispatch on the
    token kind. *)

From S2P Require Import Slice Hash KeyOrder Treap Hashmap Backend Lease CString Prelude.

#[local] Open Scope Z_scope.

Definition ROOT : bytes := bytes_of_string "root".

(** [memmove(buf + dst, buf + src, n)] inside one allocated buffer. *)
Definition memmove (buf : bytes) (dst src n : nat) : option bytes :=
  if bool_decide (src + n <= length buf /\ dst + n <= length buf)%nat
  then Some (take dst buf ++ take n (drop src buf) ++ drop (dst + n) buf)
  else None.

(** ** Data *)

(** [u_hash] is the first [hash_len] bytes of [password_hash]; [u_roles] the
    whole allocated buffer ([] for a null pointer). *)
Record cetcd_user : Type := mk_user {
  u_name : bytes;
  u_roles : bytes;
  u_n_roles : nat;
  u_hash : bytes
}.

#[export] Instance user_eta : RecordEta cetcd_user := fun u => mk_user (u_name u) (u_roles u) (u_n_roles u) (u_hash u).

Record cetcd_role : Type := mk_role {
  ro_name : bytes;
  ro_perm_read : bool;
  ro_perm_write : bool;
  ro_key_prefix : bytes;
  ro_range_end : bytes
}.

#[export] Instance role_eta : RecordEta cetcd_role := fun r =>
  mk_role (ro_name r) (ro_perm_read r) (ro_perm_write r) (ro_key_prefix r) (ro_range_end r).

#[export] Instance cetcd_role_eq_dec : EqDecision cetcd_role.
Proof. solve_decision. Defined.

Record cetcd_auth_token_ent : Type := mk_tok { te_username : bytes; te_expires_ns : Z }.

Inductive jwt_alg : Type := CETCD_JWT_NONE | CETCD_JWT_HS256 | CETCD_JWT_RS256 | CETCD_JWT_ES256.

#[export] Instance jwt_alg_eq_dec : EqDecision jwt_alg.
Proof. solve_decision. Defined.

Record cetcd_auth_store : Type := mk_auth {
  a_users : cetcd_hashmap cetcd_user;
  a_roles : cetcd_hashmap cetcd_role;
  a_tokens : cetcd_hashmap cetcd_auth_token_ent;
  a_enabled : bool;
  a_token_ttl_ns : Z;
  a_token_seq : Z;
  a_bcrypt_cost : Z;
  a_jwt_alg : jwt_alg;
  a_jwt_key : bytes;
  a_jwt_pkey : Z;
  a_jwt_user : bytes
}.

#[export] Instance auth_eta : RecordEta cetcd_auth_store := fun s =>
  mk_auth (a_users s) (a_roles s) (a_tokens s) (a_enabled s) (a_token_ttl_ns s) (a_token_seq s) (a_bcrypt_cost s)
    (a_jwt_alg s) (a_jwt_key s) (a_jwt_pkey s) (a_jwt_user s).

Definition CETCD_AUTH_DEFAULT_TOKEN_TTL_NS : Z := 300 * 1000000000.
Definition CETCD_AUTH_BCRYPT_COST_MIN : Z := 4.
Definition CETCD_AUTH_BCRYPT_COST_MAX : Z := 31.
Definition CETCD_AUTH_TOKEN_RAW : nat := 16.

(** The libraries: the SHA-256 digest of the EVP interface, [crypt_r]
    ([None] for a null result), [crypt_gensalt_rn] with the prefix [$2b$] for a
    cost, and the bytes the n-th call of [auth_fill_random_] delivers. *)
Class AuthLibs : Type := {
  sha256 : bytes -> bytes;
  crypt_r : bytes -> bytes -> option bytes;
  crypt_gensalt : Z -> option bytes;
  random_bytes : Z -> bytes
}.

Class AuthLibsLaws `{!AuthLibs} : Prop := {
  sha256_length b : length (sha256 b) = 32%nat;
  random_bytes_length n : length (random_bytes n) = CETCD_AUTH_TOKEN_RAW
}.

(** ** Users *)

Definition cetcd_user_new (name : bytes) : cetcd_user := mk_user (take 127 name) [] 0 [].

Definition cetcd_auth_store_new : cetcd_auth_store :=
  mk_auth (cetcd_hashmap_new 8) (cetcd_hashmap_new 8) (cetcd_hashmap_new 8) false CETCD_AUTH_DEFAULT_TOKEN_TTL_NS 0 0
    CETCD_JWT_NONE [] 0 [].

Section Users.
  Context `{!AuthLibs}.

Definition hash_password (data : bytes) : bytes := sha256 data.

(** First byte of a string: 0 when it is empty. *)
Definition head_byte (p : bytes) : Z := match p with c :: _ => c | [] => 0 end.

Definition fill_password_hash_ (s : cetcd_auth_store) (u : cetcd_user) (password : bytes) : cetcd_user * cetcd_status :=
  if a_bcrypt_cost s =? 0 then (u <| u_hash := hash_password password |>, CETCD_OK)
  else
    match crypt_gensalt (a_bcrypt_cost s) with
    | None => (u, CETCD_ERR_IO)
    | Some setting =>
        match crypt_r password setting with
        | None => (u, CETCD_ERR_IO)
        | Some h =>
            if head_byte h =? 42 then (u, CETCD_ERR_IO)
            else if (blen h =? 0) || (64 <? blen h) then (u, CETCD_ERR_OVERFLOW)
            else (u <| u_hash := h |>, CETCD_OK)
        end
    end.

Definition cetcd_auth_has_user (s : cetcd_auth_store) (name : bytes) : bool :=
  bool_decide (is_Some (cetcd_hashmap_get (a_users s) name)).

Definition cetcd_find_user (s : cetcd_auth_store) (name : bytes) : option cetcd_user :=
  cetcd_hashmap_get (a_users s) name.

Definition cetcd_find_role (s : cetcd_auth_store) (name : bytes) : option cetcd_role :=
  cetcd_hashmap_get (a_roles s) name.

Definition put_user (s : cetcd_auth_store) (name : bytes) (u : cetcd_user) : cetcd_auth_store :=
  s <| a_users := cetcd_hashmap_put (a_users s) name u |>.

(** A write through a user pointer. *)
Definition modify_user (s : cetcd_auth_store) (name : bytes) (f : cetcd_user -> cetcd_user) : cetcd_auth_store :=
  s <| a_users := hashmap_modify (a_users s) name f |>.

Definition modify_role (s : cetcd_auth_store) (name : bytes) (f : cetcd_role -> cetcd_role) : cetcd_auth_store :=
  s <| a_roles := hashmap_modify (a_roles s) name f |>.

Definition cetcd_auth_add_user (s : cetcd_auth_store) (name password : bytes) : cetcd_auth_store * cetcd_status :=
  match cetcd_hashmap_get (a_users s) name with
  | Some _ => (s, CETCD_ERR_EXISTS)
  | None =>
      let '(u, hrc) := fill_password_hash_ s (cetcd_user_new name) password in
      if negb (is_ok hrc) then (s, hrc) else (put_user s name u, CETCD_OK)
  end.

Definition cetcd_auth_hash_password (s : cetcd_auth_store) (password : bytes) (cap : Z) : cetcd_status * bytes :=
  let '(u, rc) := fill_password_hash_ s (mk_user [] [] 0 []) password in
  if negb (is_ok rc) then (rc, [])
  else if (blen (u_hash u) =? 0) || (cap <? blen (u_hash u)) then (CETCD_ERR_OVERFLOW, [])
  else (CETCD_OK, u_hash u).

Definition bad_hash (name hash : bytes) : bool := (blen name =? 0) || (blen hash =? 0) || (64 <? blen hash).

Definition cetcd_auth_add_user_hash (s : cetcd_auth_store) (name hash : bytes) : cetcd_auth_store * cetcd_status :=
  if bad_hash name hash then (s, CETCD_ERR_INVAL)
  else
    match cetcd_hashmap_get (a_users s) name with
    | Some _ => (s, CETCD_ERR_EXISTS)
    | None => (put_user s name ((cetcd_user_new name) <| u_hash := hash |>), CETCD_OK)
    end.

(** *** Tokens of a user *)

(** [auth_collect_user_tokens_]: the keys of the matching entries, in table
    order. *)
Definition auth_collect_user_tokens_ (username : bytes) (key : bytes) (ent : cetcd_auth_token_ent) (keys : list bytes)
  : list bytes * bool :=
  if negb (streq (te_username ent) username) then (keys, true) else (keys ++ [key], true).

Definition auth_drop_collected_tokens_ (s : cetcd_auth_store) (keys : list bytes) : cetcd_auth_store :=
  s <| a_tokens := foldl (fun t k => (cetcd_hashmap_remove t k).1) (a_tokens s) keys |>.

Definition cetcd_auth_revoke_user_tokens (s : cetcd_auth_store) (username : bytes) : cetcd_auth_store :=
  if negb (bool_decide (a_jwt_alg s = CETCD_JWT_NONE)) then s
  else auth_drop_collected_tokens_ s (cetcd_hashmap_iter (auth_collect_user_tokens_ username) (a_tokens s) []).

Definition cetcd_auth_revoke_all_tokens (s : cetcd_auth_store) : cetcd_auth_store :=
  s <| a_tokens := cetcd_hashmap_new 8 |>.

(** *** Changing and removing users *)

Definition cetcd_auth_set_user_hash (s : cetcd_auth_store) (name hash : bytes) : cetcd_auth_store * cetcd_status :=
  if bad_hash name hash then (s, CETCD_ERR_INVAL)
  else
    match cetcd_hashmap_get (a_users s) name with
    | None => (s, CETCD_ERR_NOTFOUND)
    | Some _ =>
        let s := modify_user s name (fun u => u <| u_hash := hash |>) in
        (cetcd_auth_revoke_user_tokens s name, CETCD_OK)
    end.

Definition cetcd_auth_change_password (s : cetcd_auth_store) (name new_password : bytes)
  : cetcd_auth_store * cetcd_status :=
  match cetcd_find_user s name with
  | None => (s, CETCD_ERR_NOTFOUND)
  | Some u =>
      let '(u', hrc) := fill_password_hash_ s u new_password in
      if negb (is_ok hrc) then (s, hrc)
      else (cetcd_auth_revoke_user_tokens (modify_user s name (fun _ => u')) name, CETCD_OK)
  end.

Definition cetcd_auth_remove_user (s : cetcd_auth_store) (name : bytes) : cetcd_auth_store * cetcd_status :=
  match cetcd_hashmap_get (a_users s) name with
  | None => (s, CETCD_ERR_NOTFOUND)
  | Some _ =>
      match cetcd_hashmap_remove (a_users s) name with
      | (users, Some _) => (s <| a_users := users |>, CETCD_OK)
      | (users, None) => (s <| a_users := users |>, CETCD_ERR_NOTFOUND)
      end
  end.

(** The comparison loops of [cetcd_auth_check_password]: no early exit. *)
Definition diff_crypt (got hash : bytes) : Z :=
  let n := Nat.min (length got) (length hash) in
  let diff := if blen got =? blen hash then 0 else 1 in
  let diff := foldl (fun d ab => Z.lor d (Z.lxor ab.1 ab.2)) diff (zip (take n got) (take n hash)) in
  foldl Z.lor diff (drop n hash).

Definition diff_sha (hash hash32 : bytes) : Z :=
  let n := Nat.min (length hash) 32 in
  let diff := if blen hash =? 32 then 0 else 1 in
  foldl (fun d i =>
    let stored := if (i <? n)%nat then nth i hash 0 else 0 in
    Z.lor d (Z.lxor stored (nth i hash32 0))) diff (seq 0 32).

Definition cetcd_auth_check_password (s : cetcd_auth_store) (name password : bytes) : bool :=
  match cetcd_hashmap_get (a_users s) name with
  | None => false
  | Some u =>
      if 32 <? blen (u_hash u) then
        if 65 <=? blen (u_hash u) then false
        else match crypt_r password (u_hash u) with
             | None => false
             | Some got => if head_byte got =? 42 then false else diff_crypt got (u_hash u) =? 0
             end
      else diff_sha (u_hash u) (hash_password password) =? 0
  end.

Definition cetcd_auth_is_enabled (s : cetcd_auth_store) : bool := a_enabled s.
Definition cetcd_auth_set_enabled (s : cetcd_auth_store) (enabled : bool) : cetcd_auth_store := s <| a_enabled := enabled |>.
Definition cetcd_auth_user_count (s : cetcd_auth_store) : Z := cetcd_hashmap_size (a_users s).
Definition cetcd_auth_role_count (s : cetcd_auth_store) : Z := cetcd_hashmap_size (a_roles s).

Definition cetcd_auth_set_bcrypt_cost (s : cetcd_auth_store) (cost : Z) : cetcd_auth_store * cetcd_status :=
  if cost =? 0 then (s <| a_bcrypt_cost := 0 |>, CETCD_OK)
  else if (cost <? CETCD_AUTH_BCRYPT_COST_MIN) || (CETCD_AUTH_BCRYPT_COST_MAX <? cost) then (s, CETCD_ERR_INVAL)
  else (s <| a_bcrypt_cost := cost |>, CETCD_OK).

(** Iteration over the names, each cut to 127 bytes. *)
Definition auth_iter_name_cb {V St : Type} (fn : bytes -> St -> St * bool) (key : bytes) (value : V) (udata : St)
  : St * bool := fn (cstr (take 127 key)) udata.

Definition cetcd_auth_user_iter {St : Type} (s : cetcd_auth_store) (fn : bytes -> St -> St * bool) (udata : St) : St :=
  cetcd_hashmap_iter (auth_iter_name_cb fn) (a_users s) udata.

Definition cetcd_auth_role_iter {St : Type} (s : cetcd_auth_store) (fn : bytes -> St -> St * bool) (udata : St) : St :=
  cetcd_hashmap_iter (auth_iter_name_cb fn) (a_roles s) udata.

(** ** Roles of a user *)

(** The walk over the buffer: [n] names from [p] on. *)
Fixpoint walk_roles (n : nat) (p : bytes) : list bytes :=
  match n with
  | O => []
  | S n => let r := cstr p in r :: walk_roles n (drop (S (length r)) p)
  end.

Definition user_roles (u : cetcd_user) : list bytes := walk_roles (u_n_roles u) (u_roles u).

Definition cetcd_user_roles_total_len (u : cetcd_user) : nat :=
  sum_list ((fun r => S (length r)) <$> user_roles u).

Definition cetcd_auth_grant_role (s : cetcd_auth_store) (user role : bytes) : cetcd_auth_store * cetcd_status :=
  match cetcd_hashmap_get (a_users s) user, cetcd_hashmap_get (a_roles s) role with
  | Some u, Some _ =>
      if existsb (streq role) (user_roles u) then (s, CETCD_OK)
      else
        let old_len := cetcd_user_roles_total_len u in
        (modify_user s user (fun u => (u <| u_roles := take old_len (u_roles u) ++ role ++ [0] |>)
                                        <| u_n_roles := S (u_n_roles u) |>), CETCD_OK)
  | _, _ => (s, CETCD_ERR_NOTFOUND)
  end.

(** Offset of a role in the buffer, as the search loop finds it. *)
Fixpoint find_role_offset (rs : list bytes) (role : bytes) (off : nat) : option nat :=
  match rs with
  | [] => None
  | r :: rs => if streq r role then Some off else find_role_offset rs role (off + S (length r))
  end.

Definition cetcd_auth_revoke_role (s : cetcd_auth_store) (user role : bytes)
  : option (cetcd_auth_store * cetcd_status) :=
  match cetcd_hashmap_get (a_users s) user with
  | None => Some (s, CETCD_ERR_NOTFOUND)
  | Some u =>
      if (u_n_roles u =? 0)%nat || (blen (u_roles u) =? 0) then Some (s, CETCD_ERR_NOTFOUND)
      else
        match find_role_offset (user_roles u) role 0 with
        | None => Some (s, CETCD_ERR_NOTFOUND)
        | Some p =>
            let remove_len := S (length role) in
            let blob_total := cetcd_user_roles_total_len u in
            match memmove (u_roles u) p (p + remove_len) (blob_total - remove_len) with
            | None => None
            | Some roles =>
                let n := (u_n_roles u - 1)%nat in
                let roles := if (n =? 0)%nat then [] else roles in
                Some (modify_user s user (fun u => (u <| u_roles := roles |>) <| u_n_roles := n |>), CETCD_OK)
            end
        end
  end.

(** ** Roles and permissions *)

(** [None] when the prefix does not fit the 256-byte field: the copy would run
    past it. *)
Definition cetcd_role_new (name : bytes) (perm_read perm_write : bool) (key_prefix : bytes) (prefix_len : Z)
  : option cetcd_role :=
  let lp := if (0 <? prefix_len) && (prefix_len <? 256) then prefix_len else blen (cstr key_prefix) in
  if 256 <=? lp then None
  else
    let copied := take (Z.to_nat lp) (cstr key_prefix) in
    Some (mk_role (take 127 name) perm_read perm_write
            (copied ++ replicate (Z.to_nat lp - length copied) 0) []).

Definition cetcd_auth_add_role (s : cetcd_auth_store) (name : bytes) (perm_read perm_write : bool)
    (key_prefix : bytes) (prefix_len : Z) : option (cetcd_auth_store * cetcd_status) :=
  match cetcd_hashmap_get (a_roles s) name with
  | Some _ => Some (s, CETCD_ERR_EXISTS)
  | None =>
      match cetcd_role_new name perm_read perm_write key_prefix prefix_len with
      | None => None
      | Some r => Some (s <| a_roles := cetcd_hashmap_put (a_roles s) name r |>, CETCD_OK)
      end
  end.

Definition cetcd_auth_remove_role (s : cetcd_auth_store) (name : bytes) : cetcd_auth_store * cetcd_status :=
  match cetcd_hashmap_remove (a_roles s) name with
  | (roles, Some _) => (s <| a_roles := roles |>, CETCD_OK)
  | (roles, None) => (s <| a_roles := roles |>, CETCD_ERR_NOTFOUND)
  end.

Definition cetcd_auth_get_user := cetcd_find_user.
Definition cetcd_auth_get_role := cetcd_find_role.

(** A copy into one of the 256-byte fields. *)
Definition cut_255 (p : bytes) : bytes := if blen p <? 256 then p else take 255 p.

Definition cetcd_auth_grant_permission_range (s : cetcd_auth_store) (role : bytes) (perm_read perm_write : bool)
    (key range_end : bytes) : cetcd_auth_store * cetcd_status :=
  match cetcd_find_role s role with
  | None => (s, CETCD_ERR_NOTFOUND)
  | Some _ =>
      (modify_role s role (fun r => mk_role (ro_name r) perm_read perm_write (cut_255 key) (cut_255 range_end)), CETCD_OK)
  end.

Definition cetcd_auth_grant_permission (s : cetcd_auth_store) (role : bytes) (perm_read perm_write : bool) (key : bytes) :=
  cetcd_auth_grant_permission_range s role perm_read perm_write key [].

Definition cetcd_auth_revoke_permission_key_range (s : cetcd_auth_store) (role key range_end : bytes)
  : cetcd_auth_store * cetcd_status :=
  match cetcd_find_role s role with
  | None => (s, CETCD_ERR_NOTFOUND)
  | Some r =>
      if (0 <? blen key) && negb (streq (ro_key_prefix r) key) then (s, CETCD_ERR_NOTFOUND)
      else if (0 <? blen range_end) && negb (streq (ro_range_end r) range_end) then (s, CETCD_ERR_NOTFOUND)
      else (modify_role s role (fun r => mk_role (ro_name r) false false [] []), CETCD_OK)
  end.

Definition cetcd_auth_revoke_permission_key (s : cetcd_auth_store) (role key : bytes) :=
  cetcd_auth_revoke_permission_key_range s role key [].

Definition cetcd_auth_revoke_permission (s : cetcd_auth_store) (role : bytes) :=
  cetcd_auth_revoke_permission_key s role [].

Definition cetcd_auth_is_admin (s : cetcd_auth_store) (username : bytes) : bool :=
  if streq username ROOT then true
  else match cetcd_find_user s username with
       | None => false
       | Some u => existsb (streq ROOT) (user_roles u)
       end.

Definition auth_prefix_match_ (prefix key : bytes) : bool :=
  if blen prefix =? 0 then true
  else if blen key <? blen prefix then false
  else memcmp (length prefix) key prefix =? 0.

Definition cetcd_auth_perm_covers (key lo hi : bytes) : bool :=
  if blen hi =? 0 then auth_prefix_match_ lo key
  else if (if negb ((blen hi =? 1) && (head_byte hi =? 0)) then
             let n := if blen key <? blen hi then blen key else blen hi in
             let c := memcmp (Z.to_nat n) key hi in
             (0 <? c) || ((c =? 0) && (blen hi <=? blen key))
           else false) then false
  else if (if 0 <? blen lo then
             let n := if blen key <? blen lo then blen key else blen lo in
             let c := memcmp (Z.to_nat n) key lo in
             (c <? 0) || ((c =? 0) && (blen key <? blen lo))
           else false) then false
  else true.

(** Whether one role of the loop of [cetcd_auth_check_perm] allows the access. *)
Definition role_allows (s : cetcd_auth_store) (key : bytes) (want_write : bool) (name : bytes) : bool :=
  match cetcd_find_role s name with
  | None => false
  | Some r =>
      if (if want_write then negb (ro_perm_write r) else negb (ro_perm_read r) && negb (ro_perm_write r)) then false
      else cetcd_auth_perm_covers key (ro_key_prefix r) (ro_range_end r)
  end.

Definition cetcd_auth_check_perm (s : cetcd_auth_store) (username key : bytes) (want_write : bool) : bool :=
  if negb (a_enabled s) then true
  else if cetcd_auth_is_admin s username then true
  else match cetcd_find_user s username with
       | None => false
       | Some u => existsb (role_allows s key want_write) (user_roles u)
       end.

(** ** Simple tokens *)

Definition cetcd_auth_set_token_ttl_ns (s : cetcd_auth_store) (ttl_ns : Z) : cetcd_auth_store :=
  s <| a_token_ttl_ns := if ttl_ns =? 0 then CETCD_AUTH_DEFAULT_TOKEN_TTL_NS else ttl_ns |>.

Definition hex_digit (d : Z) : Z := if d <? 10 then 48 + d else 87 + d.

Definition auth_hex_encode_ (raw : bytes) : bytes :=
  mjoin ((fun b => [hex_digit (Z.land (Z.shiftr b 4) 15); hex_digit (Z.land b 15)]) <$> raw).

(** The random bytes with the sequence number mixed into the first two. *)
Definition mix_seq (raw : bytes) (seq : Z) : bytes :=
  match raw with
  | b0 :: b1 :: rest => Z.lxor b0 (u8 seq) :: Z.lxor b1 (u8 (Z.shiftr seq 8)) :: rest
  | _ => raw
  end.

Definition cetcd_auth_issue_token (jwt_issue : cetcd_auth_store -> bytes -> cetcd_auth_store * option bytes)
    (s : cetcd_auth_store) (username : bytes) (now_ns : Z) : cetcd_auth_store * option bytes :=
  match cetcd_find_user s username with
  | None => (s, None)
  | Some _ =>
      if negb (bool_decide (a_jwt_alg s = CETCD_JWT_NONE)) then jwt_issue s username
      else
        let ttl := if a_token_ttl_ns s =? 0 then CETCD_AUTH_DEFAULT_TOKEN_TTL_NS else a_token_ttl_ns s in
        let ent := mk_tok (take 127 username) (u64 (now_ns + ttl)) in
        let s := s <| a_token_seq := u64 (a_token_seq s + 1) |> in
        let hex := auth_hex_encode_ (mix_seq (random_bytes (a_token_seq s)) (a_token_seq s)) in
        (s <| a_tokens := cetcd_hashmap_put (a_tokens s) hex ent |>, Some hex)
  end.

Definition cetcd_auth_user_for_token (jwt_user_for : cetcd_auth_store -> bytes -> Z -> cetcd_auth_store * option bytes)
    (s : cetcd_auth_store) (token : bytes) (now_ns : Z) : cetcd_auth_store * option bytes :=
  if blen token =? 0 then (s, None)
  else if negb (bool_decide (a_jwt_alg s = CETCD_JWT_NONE)) then jwt_user_for s token now_ns
  else match cetcd_hashmap_get (a_tokens s) token with
       | None => (s, None)
       | Some ent =>
           if te_expires_ns ent <=? now_ns then (s <| a_tokens := (cetcd_hashmap_remove (a_tokens s) token).1 |>, None)
           else (s, Some (te_username ent))
       end.

(** ** Persistence *)

Definition AUTH_BUCKET : string := "auth".
Definition AUTH_KEY_ENABLED : bytes := bytes_of_string "enabled".
Definition AUTH_KEY_USERS : bytes := bytes_of_string "users".
Definition AUTH_KEY_ROLES : bytes := bytes_of_string "roles".
Definition AUTH_ROLES_V2 : bytes := [255; 82; 1].

Definition auth_save_u16_ (v : Z) : bytes := [Z.land (v mod 65536) 255; Z.land (Z.shiftr (v mod 65536) 8) 255].

Definition cut_u16 (n : nat) : nat := if Z.of_nat n <? 65535 then n else Z.to_nat 65535.

Definition auth_save_user_cb_ (key : bytes) (u : cetcd_user) (buf : bytes) : bytes * bool :=
  let nlen := cut_u16 (length key) in
  let rlen := cut_u16 (cetcd_user_roles_total_len u) in
  let hl := Nat.min (length (u_hash u)) 64 in
  (buf ++ auth_save_u16_ (Z.of_nat nlen) ++ take nlen key ++ [Z.of_nat hl] ++ take hl (u_hash u) ++
   auth_save_u16_ (Z.of_nat (u_n_roles u)) ++ auth_save_u16_ (Z.of_nat rlen) ++ take rlen (u_roles u), true).

Definition auth_save_role_cb_ (key : bytes) (r : cetcd_role) (buf : bytes) : bytes * bool :=
  let nlen := cut_u16 (length key) in
  let plen := cut_u16 (length (ro_key_prefix r)) in
  let rlen := cut_u16 (length (ro_range_end r)) in
  (buf ++ auth_save_u16_ (Z.of_nat nlen) ++ take nlen key ++ [Z.b2z (ro_perm_read r); Z.b2z (ro_perm_write r)] ++
   auth_save_u16_ (Z.of_nat plen) ++ take plen (ro_key_prefix r) ++
   auth_save_u16_ (Z.of_nat rlen) ++ take rlen (ro_range_end r), true).

Section Save.
  Context {E T : Type} `{!Lmdb E T}.

Definition cetcd_auth_save (s : cetcd_auth_store) (be : E) : E * cetcd_status :=
  let en := if a_enabled s then 1 else 0 in
  let users := cetcd_hashmap_iter auth_save_user_cb_ (a_users s) [] in
  let roles := cetcd_hashmap_iter auth_save_role_cb_ (a_roles s) AUTH_ROLES_V2 in
  match cetcd_txn_begin be false with
  | (be, None) => (be, CETCD_ERR_IO)
  | (be, Some txn) =>
      let '(txn, rc) := cetcd_txn_put txn AUTH_BUCKET AUTH_KEY_ENABLED [en] in
      let '(txn, rc) := if is_ok rc then cetcd_txn_put txn AUTH_BUCKET AUTH_KEY_USERS users else (txn, rc) in
      let '(txn, rc) := if is_ok rc then cetcd_txn_put txn AUTH_BUCKET AUTH_KEY_ROLES roles else (txn, rc) in
      if negb (is_ok rc) then (cetcd_txn_abort be txn, rc) else cetcd_txn_commit be txn
  end.

End Save.

Definition auth_load_u16_ (p : bytes) : Z := Z.lor (nth 0 p 0) (Z.shiftl (nth 1 p 0) 8).

(** One record of the users blob: the user and the rest of the blob, [None]
    where the loop breaks. *)
Definition load_user (val : bytes) : option (cetcd_user * bytes) :=
  let nlen := Z.to_nat (auth_load_u16_ val) in
  let val := drop 2 val in
  if (length val <? nlen + 1)%nat then None
  else
    let name := cstr (take (if (nlen <? 127)%nat then nlen else 127) val) in
    let val := drop nlen val in
    let hlen := Z.to_nat (nth 0 val 0) in
    let val := drop 1 val in
    if (64 <? hlen)%nat || (length val <? hlen + 2 + 2)%nat then None
    else
      let hash := take hlen val in
      let val := drop hlen val in
      let n_roles := Z.to_nat (auth_load_u16_ val) in
      let val := drop 2 val in
      let rlen := Z.to_nat (auth_load_u16_ val) in
      let val := drop 2 val in
      if (length val <? rlen)%nat then None
      else Some (mk_user name (take rlen val) n_roles hash, drop rlen val).

Fixpoint load_users_loop (fuel : nat) (s : cetcd_auth_store) (val : bytes) : cetcd_auth_store :=
  match fuel with
  | O => s
  | S fuel =>
      if (length val <? 2)%nat then s
      else match load_user val with
           | None => s
           | Some (u, val) => load_users_loop fuel (put_user s (u_name u) u) val
           end
  end.

Definition load_role (v2 : bool) (val : bytes) : option (cetcd_role * bytes) :=
  let nlen := Z.to_nat (auth_load_u16_ val) in
  let val := drop 2 val in
  if (length val <? nlen + 1 + 1 + 2)%nat then None
  else
    let name := cstr (take (if (nlen <? 127)%nat then nlen else 127) val) in
    let val := drop nlen val in
    let pr := nth 0 val 0 in
    let pw := nth 1 val 0 in
    let val := drop 2 val in
    let plen := Z.to_nat (auth_load_u16_ val) in
    let val := drop 2 val in
    if (length val <? plen)%nat then None
    else
      let prefix := take (if (plen <? 256)%nat then plen else 255) val in
      let val := drop plen val in
      let r := mk_role name (negb (pr =? 0)) (negb (pw =? 0)) prefix [] in
      if v2 then
        if (length val <? 2)%nat then None
        else
          let rlen := Z.to_nat (auth_load_u16_ val) in
          let val := drop 2 val in
          if (length val <? rlen)%nat then None
          else Some (r <| ro_range_end := take (if (rlen <? 256)%nat then rlen else 255) val |>, drop rlen val)
      else Some (r, val).

Fixpoint load_roles_loop (fuel : nat) (v2 : bool) (s : cetcd_auth_store) (val : bytes) : cetcd_auth_store :=
  match fuel with
  | O => s
  | S fuel =>
      if (length val <? 2)%nat then s
      else match load_role v2 val with
           | None => s
           | Some (r, val) =>
               load_roles_loop fuel v2 (s <| a_roles := cetcd_hashmap_put (a_roles s) (ro_name r) r |>) val
           end
  end.

Definition load_roles_blob (s : cetcd_auth_store) (val : bytes) : cetcd_auth_store :=
  if bool_decide (take 3 val = AUTH_ROLES_V2) then load_roles_loop (length val) true s (drop 3 val)
  else load_roles_loop (length val) false s val.

Section Load.
  Context {E : Type} `{!Backend E}.

Definition cetcd_auth_load (s : cetcd_auth_store) (be : E) : cetcd_auth_store * E * cetcd_status :=
  let '(be, rc, val) := be_get be AUTH_BUCKET AUTH_KEY_ENABLED in
  if negb (is_ok rc) && negb (bool_decide (rc = CETCD_ERR_NOTFOUND)) then (s, be, rc)
  else
    let s := if is_ok rc && (0 <? blen val) then s <| a_enabled := negb (head_byte val =? 0) |> else s in
    let '(be, rc, val) := be_get be AUTH_BUCKET AUTH_KEY_USERS in
    if negb (is_ok rc) && negb (bool_decide (rc = CETCD_ERR_NOTFOUND)) then (s, be, rc)
    else
      let s := if is_ok rc then load_users_loop (length val) s val else s in
      let '(be, rc, val) := be_get be AUTH_BUCKET AUTH_KEY_ROLES in
      if negb (is_ok rc) && negb (bool_decide (rc = CETCD_ERR_NOTFOUND)) then (s, be, rc)
      else
        let s := if is_ok rc then load_roles_blob s val else s in
        (s, be, CETCD_OK).

End Load.

End Users.
