(* ===== verification/AuthProps.v ===== *)
(** * Properties of the authentication store

    The store refines finite maps from names to users (hash and list of
    roles) and to roles; the permission check decides exactly what the granted
    roles cover; the password comparison is equality with the stored hash;
    tokens resolve until they expire or are revoked; a save followed by a load
    restores the store. *)

From S2P Require Import Slice KeyOrder Treap Hashmap Backend Mvcc MvccSnap Lease CString Auth Prelude.

#[local] Open Scope Z_scope.

(** ** Role buffers *)

(** The names one after the other, each with its terminator. *)
Definition flat (rs : list bytes) : bytes := mjoin ((fun r => r ++ [0]) <$> rs).

(** The buffer of a user holds the names [rs], and possibly more bytes. *)
Definition roles_are (u : cetcd_user) (rs : list bytes) : Prop :=
  (exists slack, u_roles u = flat rs ++ slack) /\ u_n_roles u = length rs /\ Forall nul_free rs.

Lemma flat_cons r rs : flat (r :: rs) = r ++ 0 :: flat rs.
Proof. unfold flat. cbn. by rewrite <- app_assoc. Qed.

Lemma flat_app rs rs' : flat (rs ++ rs') = flat rs ++ flat rs'.
Proof. unfold flat. by rewrite fmap_app, join_app. Qed.

Lemma walk_flat rs slack : Forall nul_free rs -> walk_roles (length rs) (flat rs ++ slack) = rs.
Proof.
  induction 1 as [|r rs Hr Hrs IH]; [done|]. rewrite flat_cons, <- app_assoc. cbn [length walk_roles app].
  rewrite (cstr_prefix r (flat rs ++ slack) Hr). f_equal.
  replace (drop (S (length r)) (r ++ 0 :: flat rs ++ slack)) with (flat rs ++ slack); [done|].
  by rewrite cons_middle, app_assoc, drop_app_length' by (rewrite length_app; cbn; lia).
Qed.

Lemma user_roles_are u rs : roles_are u rs -> user_roles u = rs.
Proof. intros ((slack & Hb) & Hn & Hf). unfold user_roles. rewrite Hb, Hn. by apply walk_flat. Qed.

Lemma flat_length rs : length (flat rs) = sum_list ((fun r => S (length r)) <$> rs).
Proof. induction rs as [|r rs IH]; [done|]. rewrite flat_cons, length_app. cbn in *. lia. Qed.

Lemma total_len u rs : roles_are u rs -> cetcd_user_roles_total_len u = length (flat rs).
Proof. intros Hr. unfold cetcd_user_roles_total_len. by rewrite (user_roles_are u rs Hr), flat_length. Qed.

Lemma find_offset rs role off : 
  match find_role_offset rs role off with
  | Some p => exists pre post, rs = pre ++ role :: post /\ role ∉ pre /\ p = (off + length (flat pre))%nat
  | None => role ∉ rs
  end.
Proof.
  revert off. induction rs as [|r rs IH]; intros off; cbn [find_role_offset]; [by apply not_elem_of_nil|].
  unfold streq. case_bool_decide as Hr.
  - subst r. exists [], rs. split_and!; [done|by apply not_elem_of_nil|cbn; lia].
  - specialize (IH (off + S (length r))%nat). destruct (find_role_offset _ _ _) as [p|].
    + destruct IH as (pre & post & -> & Hpre & ->). exists (r :: pre), post. split_and!; [done|set_solver|].
      rewrite flat_cons, length_app. cbn. lia.
    + set_solver.
Qed.

(** ** Comparison loops *)

Lemma lor_zero a b : Z.lor a b = 0 <-> a = 0 /\ b = 0.
Proof. apply Z.lor_eq_0_iff. Qed.

Lemma fold_lor_zero {A} (f : A -> Z) l d : foldl (fun d x => Z.lor d (f x)) d l = 0 <-> d = 0 /\ Forall (fun x => f x = 0) l.
Proof.
  revert d. induction l as [|x l IH]; intros d; cbn; [rewrite Forall_nil; tauto|].
  rewrite IH, lor_zero, Forall_cons. tauto.
Qed.

Lemma lxor_zero a b : Z.lxor a b = 0 <-> a = b.
Proof. apply Z.lxor_eq_0_iff. Qed.

Lemma diff_sha_zero hash h32 : length h32 = 32%nat -> diff_sha hash h32 = 0 <-> hash = h32.
Proof.
  intros Hl. unfold diff_sha.
  rewrite (fold_lor_zero (fun i => Z.lxor (if (i <? Nat.min (length hash) 32)%nat then nth i hash 0 else 0) (nth i h32 0))).
  rewrite Forall_forall. setoid_rewrite lxor_zero. unfold blen. split.
  - intros [Hlen Hall]. destruct (Z.eqb_spec (Z.of_nat (length hash)) 32) as [Hh|]; [|done].
    apply (nth_ext _ _ 0 0); [lia|]. intros i Hi. specialize (Hall i).
    rewrite list_elem_of_In, in_seq in Hall. specialize (Hall ltac:(lia)).
    by rewrite (proj2 (Nat.ltb_lt _ _)) in Hall by lia.
  - intros ->. rewrite Hl. split; [done|]. intros i. rewrite list_elem_of_In, in_seq. intros Hi.
    by rewrite (proj2 (Nat.ltb_lt _ _)) by lia.
Qed.

Lemma zip_equal (a b : bytes) : length a = length b -> Forall (fun ab => ab.1 = ab.2) (zip a b) -> a = b.
Proof.
  revert b. induction a as [|x a IH]; intros [|y b] Hl Hf; try done. cbn in Hf. apply Forall_cons in Hf as [Hxy Hf].
  cbn in Hxy. f_equal; [done|]. apply IH; [by injection Hl|done].
Qed.

Lemma diff_crypt_zero got hash : diff_crypt got hash = 0 <-> got = hash.
Proof.
  unfold diff_crypt. rewrite (fold_lor_zero (fun x => x)), (fold_lor_zero (fun ab => Z.lxor ab.1 ab.2)). unfold blen. split.
  - intros [[Hl Hz] _]. destruct (Z.eqb_spec (Z.of_nat (length got)) (Z.of_nat (length hash))) as [Heq|]; [|done].
    rewrite !take_ge in Hz by lia. apply zip_equal; [lia|]. eapply Forall_impl; [exact Hz|]. intros ab. apply lxor_zero.
  - intros ->. rewrite Z.eqb_refl, drop_ge by lia. split_and!; [done| |constructor]. rewrite !take_ge by lia.
    induction hash as [|x l IH]; [constructor|]. cbn. constructor; [apply Z.lxor_nilpotent|done].
Qed.

(** ** Key ranges *)

(** The keys a permission covers: those with the prefix [lo], or those of the
    interval from [lo] up to [hi], which [hi = [0]] leaves open. *)
Definition perm_range (lo hi key : bytes) : Prop :=
  match hi with
  | [] => lo `prefix_of` key
  | _ => lex key lo <> Lt /\ (hi = [0] \/ lex key hi = Lt)
  end.

Lemma key_in_range_lex key lo hi :
  key_in_range_ key lo hi = true <-> lex key lo <> Lt /\ (hi = [] \/ lex key hi = Lt).
Proof.
  rewrite (key_in_range_index key tt). unfold in_range_. cbn [fst]. rewrite andb_true_iff, Z.leb_le.
  assert (Hlo : 0 <= cetcd_slice_compare key lo <-> lex key lo <> Lt).
  { rewrite <- slice_compare_lt0. lia. }
  rewrite Hlo. unfold blen. destruct hi as [|c hi]; [naive_solver|].
  rewrite (proj2 (Z.ltb_lt _ _)), Z.ltb_lt, slice_compare_lt0 by (cbn; lia). naive_solver.
Qed.

Lemma prefix_match_spec prefix key : auth_prefix_match_ prefix key = true <-> prefix `prefix_of` key.
Proof.
  rewrite <- has_prefix_spec. unfold auth_prefix_match_, cetcd_slice_has_prefix, blen.
  destruct prefix as [|c prefix]; [by destruct key|]. done.
Qed.

Lemma perm_covers_spec key lo hi : cetcd_auth_perm_covers key lo hi = true <-> perm_range lo hi key.
Proof.
  unfold cetcd_auth_perm_covers, perm_range. destruct hi as [|c hi]; [apply prefix_match_spec|].
  replace (blen (c :: hi) =? 0) with false by done.
  assert (Hk : forall h, (c :: hi = [0] /\ h = []) \/ (c :: hi <> [0] /\ h = c :: hi) ->
    (lex key lo <> Lt /\ (c :: hi = [0] \/ lex key (c :: hi) = Lt)) <-> key_in_range_ key lo h = true).
  { intros h Hh. rewrite key_in_range_lex. destruct Hh as [[-> ->]|[Hne ->]]; naive_solver. }
  destruct (decide (c :: hi = [0])) as [Heq|Hne].
  - rewrite (Hk []) by by left. injection Heq as -> ->. unfold key_in_range_. cbn [blen length Z.of_nat].
    cbn [head_byte]. change (blen [0] =? 1) with true. cbn [Z.eqb andb negb]. change (0 <? blen (@nil Z)) with false.
    destruct (if 0 <? blen lo then _ else _); done.
  - rewrite (Hk (c :: hi)) by by right. unfold key_in_range_. replace (0 <? blen (c :: hi)) with true by done.
    replace ((blen (c :: hi) =? 1) && (head_byte (c :: hi) =? 0)) with false.
    + cbn [negb]. cbv zeta.
      destruct (if 0 <? blen lo then _ else _), ((0 <? _) || _); done.
    + symmetry. apply andb_false_iff. cbn [head_byte]. destruct (Z.eqb_spec c 0) as [->|]; [|by right]. left.
      apply Z.eqb_neq. rewrite blen_cons. pose proof (blen_nonneg hi). destruct hi; [done|]. rewrite blen_cons. pose proof (blen_nonneg hi). lia.
Qed.

(** ** The abstract store *)

(** A user holds a hash and the list of its roles. *)
Record auser : Type := mk_auser { au_hash : bytes; au_roles : list bytes }.

Definition auser_of (u : cetcd_user) : auser := mk_auser (u_hash u) (user_roles u).

Definition users_of (s : cetcd_auth_store) : gmap bytes auser := auser_of <$> hm_map (a_users s).
Definition roles_of (s : cetcd_auth_store) : gmap bytes cetcd_role := hm_map (a_roles s).
Definition tokens_of (s : cetcd_auth_store) : gmap bytes cetcd_auth_token_ent := hm_map (a_tokens s).

Record user_ok (name : bytes) (u : cetcd_user) : Prop := {
  uo_name : u_name u = take 127 name;
  uo_roles : exists rs, roles_are u rs /\ NoDup rs;
  uo_hash : (length (u_hash u) <= 64)%nat
}.

Record auth_ok (s : cetcd_auth_store) : Prop := {
  ao_users : hm_ok (a_users s);
  ao_roles : hm_ok (a_roles s);
  ao_tokens : hm_ok (a_tokens s);
  ao_user : map_Forall user_ok (hm_map (a_users s));
  ao_role : map_Forall (fun n r => ro_name r = take 127 n /\ (length (ro_key_prefix r) < 256)%nat /\
                                   (length (ro_range_end r) < 256)%nat) (roles_of s)
}.

Lemma find_user_map s name : auth_ok s -> cetcd_find_user s name = hm_map (a_users s) !! name.
Proof. intros Hok. apply get_map, Hok. Qed.

Lemma find_role_map s name : auth_ok s -> cetcd_find_role s name = roles_of s !! name.
Proof. intros Hok. apply get_map, Hok. Qed.

Lemma users_of_lookup s name : auth_ok s -> users_of s !! name = auser_of <$> cetcd_find_user s name.
Proof. intros Hok. unfold users_of. by rewrite lookup_fmap, find_user_map. Qed.

Lemma existsb_elem {A} (f : A -> bool) l : existsb f l = true <-> exists x, x ∈ l /\ f x = true.
Proof. rewrite existsb_exists. setoid_rewrite list_elem_of_In. done. Qed.

Lemma streq_true a b : streq a b = true <-> a = b.
Proof. apply bool_decide_eq_true. Qed.

(** What the abstract store allows. *)
Definition is_admin (s : cetcd_auth_store) (name : bytes) : Prop :=
  name = ROOT \/ exists u, users_of s !! name = Some u /\ ROOT ∈ au_roles u.

Definition allowed (s : cetcd_auth_store) (name key : bytes) (want_write : bool) : Prop :=
  exists u rn r, users_of s !! name = Some u /\ rn ∈ au_roles u /\ roles_of s !! rn = Some r /\
    (if want_write then ro_perm_write r = true else ro_perm_read r = true \/ ro_perm_write r = true) /\
    perm_range (ro_key_prefix r) (ro_range_end r) key.

Lemma is_admin_spec s name : auth_ok s -> cetcd_auth_is_admin s name = true <-> is_admin s name.
Proof.
  intros Hok. unfold cetcd_auth_is_admin, is_admin. rewrite users_of_lookup by done. unfold streq at 1.
  case_bool_decide as Hr; [naive_solver|]. destruct (cetcd_find_user s name) as [u|]; cbn.
  - rewrite existsb_elem. setoid_rewrite streq_true. naive_solver.
  - naive_solver.
Qed.

Lemma role_allows_spec s key ww rn : auth_ok s ->
  role_allows s key ww rn = true <-> exists r, roles_of s !! rn = Some r /\
    (if ww then ro_perm_write r = true else ro_perm_read r = true \/ ro_perm_write r = true) /\
    perm_range (ro_key_prefix r) (ro_range_end r) key.
Proof.
  intros Hok. unfold role_allows. rewrite find_role_map by done. destruct (roles_of s !! rn) as [r|]; [|naive_solver].
  pose proof (perm_covers_spec key (ro_key_prefix r) (ro_range_end r)) as Hc.
  destruct (cetcd_auth_perm_covers _ _ _); split.
  1,3: destruct ww, (ro_perm_write r) eqn:Hw, (ro_perm_read r) eqn:Hr; cbn; try done; intros _;
    exists r; rewrite ?Hw, ?Hr; (split_and!; [done|auto|by apply Hc]).
  - intros (r' & [= <-] & Hp & _). by destruct ww, (ro_perm_write r), (ro_perm_read r); destruct Hp.
  - intros (r' & [= <-] & _ & Hcov). by apply Hc in Hcov.
Qed.

(** Authorization.  With the store's invariant, the permission check for a
    user and a key succeeds exactly when authentication is off, the user is
    the administrator (by name or by the role [root]), or one of the roles
    granted to the user exists, carries the wanted right and covers the key: by
    prefix, or by its interval, whose open end is a single zero byte. *)
Theorem auth_check_perm_spec (s : cetcd_auth_store) (name key : bytes) (want_write : bool) (Hok : auth_ok s) :
  cetcd_auth_check_perm s name key want_write = true <->
  a_enabled s = false \/ is_admin s name \/ allowed s name key want_write.
Proof.
  unfold cetcd_auth_check_perm. destruct (a_enabled s); cbn [negb]; [|naive_solver].
  pose proof (is_admin_spec s name Hok) as Ha. destruct (cetcd_auth_is_admin s name); [naive_solver|].
  unfold allowed. rewrite users_of_lookup by done. destruct (cetcd_find_user s name) as [u|]; cbn; [|naive_solver].
  rewrite existsb_elem. setoid_rewrite role_allows_spec; [|done]. naive_solver.
Qed.

(** ** Passwords *)

(** Password comparison.  The two constant-time loops accept exactly the
    stored hash: a password is accepted for a user iff the SHA-256 of the
    password is the stored 32-byte value, or, for a longer stored value,
    [crypt_r] of the password with the stored value as setting returns that
    value and not an error string. *)
Theorem auth_check_password_spec `{!AuthLibs} `{!AuthLibsLaws} (s : cetcd_auth_store) (name password : bytes) (Hok : auth_ok s) :
  cetcd_auth_check_password s name password = true <->
  exists u, users_of s !! name = Some u /\
    (au_hash u = sha256 password \/
     ((32 < length (au_hash u) < 65)%nat /\ crypt_r password (au_hash u) = Some (au_hash u) /\ head_byte (au_hash u) <> 42)).
Proof.
  unfold cetcd_auth_check_password. rewrite users_of_lookup by done. unfold cetcd_find_user.
  destruct (cetcd_hashmap_get (a_users s) name) as [u|]; cbn [fmap option_fmap option_map]; [|naive_solver].
  unfold blen. pose proof (sha256_length password) as Hlen.
  destruct (Z.ltb_spec 32 (Z.of_nat (length (u_hash u)))) as [Hl|Hl].
  - assert (Hno : u_hash u <> sha256 password) by (intros Heq; rewrite Heq, Hlen in Hl; lia).
    destruct (Z.leb_spec 65 (Z.of_nat (length (u_hash u)))) as [H65|H65].
    { split; [done|]. intros (? & [= <-] & [?|[? _]]); cbn in *; [done|lia]. }
    destruct (crypt_r password (u_hash u)) as [got|] eqn:Hc.
    + destruct (Z.eqb_spec (head_byte got) 42) as [H42|H42].
      * split; [done|]. intros (? & [= <-] & [?|(_ & Hg & Hh)]); cbn in *; congruence.
      * rewrite Z.eqb_eq, diff_crypt_zero. split.
        -- intros ->. eexists. split; [done|]. right. cbn. split_and!; [lia|lia|done|done].
        -- intros (? & [= <-] & [?|(_ & Hg & Hh)]); cbn in *; congruence.
    + split; [done|]. intros (? & [= <-] & [?|(_ & Hg & Hh)]); cbn in *; congruence.
  - unfold hash_password. rewrite Z.eqb_eq, diff_sha_zero by done. split.
    + intros Heq. eexists. split; [done|]. by left.
    + intros (? & [= <-] & [?|[? _]]); [done|]. cbn [au_hash auser_of] in *. lia.
Qed.

(** ** The operations on the maps *)

(** The complete effect of an operation on users, roles and tokens. *)
Record auth_effect (s : cetcd_auth_store) (users : gmap bytes auser) (roles : gmap bytes cetcd_role)
    (tokens : gmap bytes cetcd_auth_token_ent) : Prop := {
  ae_ok : auth_ok s;
  ae_users : users_of s = users;
  ae_roles : roles_of s = roles;
  ae_tokens : tokens_of s = tokens
}.

Lemma effect_same s : auth_ok s -> auth_effect s (users_of s) (roles_of s) (tokens_of s).
Proof. by split. Qed.

Lemma put_user_effect s name u : auth_ok s -> user_ok name u ->
  auth_effect (put_user s name u) (<[name := auser_of u]> (users_of s)) (roles_of s) (tokens_of s).
Proof.
  intros [A1 A2 A3 A4 A5] Hu. destruct (put_spec (a_users s) name u A1) as [Hp Hm].
  split; [split; try done|..]; unfold users_of, roles_of, tokens_of, put_user; cbn; try done.
  - rewrite Hm. by apply map_Forall_insert_2.
  - by rewrite Hm, fmap_insert.
Qed.

Lemma modify_user_effect s name u f : auth_ok s -> hm_map (a_users s) !! name = Some u -> user_ok name (f u) ->
  auth_effect (modify_user s name f) (<[name := auser_of (f u)]> (users_of s)) (roles_of s) (tokens_of s).
Proof.
  intros [A1 A2 A3 A4 A5] Hu Hf. destruct (modify_spec (a_users s) name f A1) as [Hp Hm].
  assert (Ha : alter f name (hm_map (a_users s)) = <[name := f u]> (hm_map (a_users s))).
  { apply map_eq. intros k. destruct (decide (k = name)) as [->|].
    - by rewrite lookup_alter_eq, lookup_insert_eq, Hu.
    - by rewrite lookup_alter_ne, lookup_insert_ne. }
  rewrite Ha in Hm.
  split; [split; try done|..]; unfold users_of, roles_of, tokens_of, modify_user; cbn; try done.
  - rewrite Hm. by apply map_Forall_insert_2.
  - by rewrite Hm, fmap_insert.
Qed.

Lemma modify_role_effect s name r f : auth_ok s -> roles_of s !! name = Some r ->
  ro_name (f r) = take 127 name /\ (length (ro_key_prefix (f r)) < 256)%nat /\ (length (ro_range_end (f r)) < 256)%nat ->
  auth_effect (modify_role s name f) (users_of s) (<[name := f r]> (roles_of s)) (tokens_of s).
Proof.
  intros [A1 A2 A3 A4 A5] Hu Hf. destruct (modify_spec (a_roles s) name f A2) as [Hp Hm].
  assert (Ha : alter f name (roles_of s) = <[name := f r]> (roles_of s)).
  { apply map_eq. intros k. destruct (decide (k = name)) as [->|].
    - by rewrite lookup_alter_eq, lookup_insert_eq, Hu.
    - by rewrite lookup_alter_ne, lookup_insert_ne. }
  split; [split; try done|..]; unfold users_of, roles_of, tokens_of, modify_role in *; cbn; try done; rewrite Hm, Ha; [|done].
  by apply map_Forall_insert_2.
Qed.

(** *** Tokens of a user *)

Lemma drop_tokens (t : cetcd_hashmap cetcd_auth_token_ent) keys : hm_ok t ->
  hm_ok (foldl (fun t k => (cetcd_hashmap_remove t k).1) t keys) /\
  hm_map (foldl (fun t k => (cetcd_hashmap_remove t k).1) t keys) = filter (fun kv => kv.1 ∉ keys) (hm_map t).
Proof.
  revert t. induction keys as [|k keys IH]; intros t Hok; cbn [foldl].
  { split; [done|]. symmetry. apply map_filter_id. intros i x _. cbn. apply not_elem_of_nil. }
  pose proof (remove_spec t k Hok) as Hr. destruct (cetcd_hashmap_remove t k) as [t1 o]. destruct Hr as (Hok1 & Hm1 & _).
  cbn [fst]. destruct (IH t1 Hok1) as [Hok2 Hm2]. split; [done|]. rewrite Hm2, Hm1. apply map_eq. intros i. apply option_eq.
  intros x. rewrite !map_lookup_filter_Some, lookup_delete_Some. cbn. rewrite not_elem_of_cons. naive_solver.
Qed.

Lemma collect_tokens name (t : cetcd_hashmap cetcd_auth_token_ent) :
  cetcd_hashmap_iter (auth_collect_user_tokens_ name) t [] =
  (filter (fun kv => te_username kv.2 = name) (entries t)).*1.
Proof.
  rewrite (iter_entries _ (fun k v keys => if negb (streq (te_username v) name) then keys else keys ++ [k])).
  2: { intros k v keys. unfold auth_collect_user_tokens_. by destruct (negb _). }
  cut (forall es keys, foldl (fun keys (kv : bytes * cetcd_auth_token_ent) =>
      if negb (streq (te_username kv.2) name) then keys else keys ++ [kv.1]) keys es =
    keys ++ (filter (fun kv => te_username kv.2 = name) es).*1); [intros Hc; apply (Hc _ [])|].
  induction es as [|[k v] es IH]; intros keys; cbn [foldl fst snd]; [by rewrite app_nil_r|].
  rewrite IH. unfold streq. case_bool_decide as Hn; cbn [negb].
  - rewrite filter_cons_True by done. cbn. by rewrite <- app_assoc.
  - by rewrite filter_cons_False.
Qed.

Definition drop_user_tokens (name : bytes) (tokens : gmap bytes cetcd_auth_token_ent) : gmap bytes cetcd_auth_token_ent :=
  filter (fun kv => te_username kv.2 <> name) tokens.

Lemma revoke_user_tokens_effect s name : auth_ok s -> a_jwt_alg s = CETCD_JWT_NONE ->
  auth_effect (cetcd_auth_revoke_user_tokens s name) (users_of s) (roles_of s) (drop_user_tokens name (tokens_of s)).
Proof.
  intros [A1 A2 A3 A4 A5] Hj. unfold cetcd_auth_revoke_user_tokens. rewrite bool_decide_true by done. cbn [negb].
  rewrite collect_tokens. unfold auth_drop_collected_tokens_. set (keys := (filter _ _).*1).
  destruct (drop_tokens (a_tokens s) keys A3) as [Hok Hm].
  split; [by split|done|done|]. unfold tokens_of, drop_user_tokens. cbn. rewrite Hm.
  apply map_filter_ext. intros k x Hk. cbn. destruct (entries_list_to_map _ A3) as [Hnd Hmap].
  rewrite <- Hmap in Hk. apply elem_of_list_to_map_2 in Hk. unfold keys. rewrite list_elem_of_fmap. split.
  - intros Hno Hx. apply Hno. exists (k, x). split; [done|]. by apply list_elem_of_filter.
  - intros Hne ([k' x'] & -> & [Hx' Hin]%list_elem_of_filter). cbn in *. apply Hne.
    assert (x' = x) as ->; [|done].
    apply (elem_of_list_to_map_1 (M := gmap bytes)) in Hk, Hin; [congruence|done..].
Qed.

(** *** Users *)

Lemma new_user_ok name hash : (length hash <= 64)%nat -> user_ok name ((cetcd_user_new name) <| u_hash := hash |>).
Proof. intros Hh. split; [done| |done]. exists []. split; [|constructor]. split_and!; [by exists []|done|constructor]. Qed.

Lemma bad_hash_false name hash : bad_hash name hash = false <-> name <> [] /\ (0 < length hash <= 64)%nat.
Proof.
  unfold bad_hash, blen. rewrite !orb_false_iff, !Z.eqb_neq, Z.ltb_ge.
  destruct name; cbn; split; intros; split_and!; (done || lia || naive_solver lia).
Qed.

Lemma add_user_hash_effect s name hash : auth_ok s -> bad_hash name hash = false ->
  let '(s', rc) := cetcd_auth_add_user_hash s name hash in
  match users_of s !! name with
  | Some _ => rc = CETCD_ERR_EXISTS /\ s' = s
  | None => rc = CETCD_OK /\
      auth_effect s' (<[name := mk_auser hash []]> (users_of s)) (roles_of s) (tokens_of s)
  end.
Proof.
  intros Hok Hb. unfold cetcd_auth_add_user_hash. rewrite Hb. rewrite users_of_lookup by done. unfold cetcd_find_user.
  destruct (cetcd_hashmap_get (a_users s) name) as [u|]; [done|]. cbn [fmap option_fmap option_map]. split; [done|].
  apply bad_hash_false in Hb as [_ Hl]. exact (put_user_effect s name _ Hok (new_user_ok name hash ltac:(lia))).
Qed.

Lemma remove_user_effect s name : auth_ok s ->
  let '(s', rc) := cetcd_auth_remove_user s name in
  rc = (if bool_decide (is_Some (users_of s !! name)) then CETCD_OK else CETCD_ERR_NOTFOUND) /\
  auth_effect s' (delete name (users_of s)) (roles_of s) (tokens_of s).
Proof.
  intros Hok. unfold cetcd_auth_remove_user. rewrite users_of_lookup by done. unfold cetcd_find_user.
  pose proof Hok as [A1 A2 A3 A4 A5]. pose proof (get_map (a_users s) name A1) as Hg.
  destruct (cetcd_hashmap_get (a_users s) name) as [u|].
  - pose proof (remove_spec (a_users s) name A1) as Hr. destruct (cetcd_hashmap_remove (a_users s) name) as [t o].
    destruct Hr as (Hok1 & Hm1 & Ho). rewrite <- Hg in Ho. subst o. rewrite bool_decide_true by done. split; [done|].
    split; [split; try done|..]; unfold users_of; cbn; try done; rewrite Hm1; [|by rewrite fmap_delete].
    by apply map_Forall_delete.
  - rewrite bool_decide_false by (by intros [? ?]). split; [done|]. split; try done. symmetry. apply delete_id.
    unfold users_of. by rewrite lookup_fmap, <- Hg.
Qed.

Lemma set_user_hash_effect s name hash : auth_ok s -> a_jwt_alg s = CETCD_JWT_NONE -> bad_hash name hash = false ->
  let '(s', rc) := cetcd_auth_set_user_hash s name hash in
  match users_of s !! name with
  | None => rc = CETCD_ERR_NOTFOUND /\ s' = s
  | Some u => rc = CETCD_OK /\
      auth_effect s' (<[name := mk_auser hash (au_roles u)]> (users_of s)) (roles_of s) (drop_user_tokens name (tokens_of s))
  end.
Proof.
  intros Hok Hj Hb. unfold cetcd_auth_set_user_hash. rewrite Hb. rewrite users_of_lookup by done. unfold cetcd_find_user.
  pose proof (get_map (a_users s) name (ao_users s Hok)) as Hg.
  destruct (cetcd_hashmap_get (a_users s) name) as [u|]; cbn [fmap option_fmap option_map]; [|done]. split; [done|].
  apply bad_hash_false in Hb as [_ Hl].
  assert (Hu : user_ok name (u <| u_hash := hash |>)).
  { destruct (ao_user s Hok name u ltac:(done)) as [U1 U2 U3]. split; [done|done|cbn; lia]. }
  destruct (modify_user_effect s name u (fun u => u <| u_hash := hash |>) Hok ltac:(done) Hu) as [M1 M2 M3 M4].
  set (s1 := modify_user s name _) in *. rewrite <- M4.
  destruct (revoke_user_tokens_effect s1 name M1 ltac:(done)) as [R1 R2 R3 R4].
  split; [done|by rewrite R2, M2|by rewrite R3, M3|done].
Qed.

(** *** Roles of a user *)

Lemma roles_are_lookup s name u : auth_ok s -> hm_map (a_users s) !! name = Some u ->
  roles_are u (user_roles u) /\ NoDup (user_roles u).
Proof.
  intros Hok Hu. destruct (ao_user s Hok name u Hu) as [_ (rs & Hr & Hnd) _]. by rewrite (user_roles_are u rs Hr).
Qed.

Lemma grant_role_effect s user role : auth_ok s -> nul_free role ->
  let '(s', rc) := cetcd_auth_grant_role s user role in
  match users_of s !! user, roles_of s !! role with
  | Some u, Some _ => rc = CETCD_OK /\
      auth_effect s' (<[user := mk_auser (au_hash u)
          (if bool_decide (role ∈ au_roles u) then au_roles u else au_roles u ++ [role])]> (users_of s)) (roles_of s) (tokens_of s)
  | _, _ => rc = CETCD_ERR_NOTFOUND /\ s' = s
  end.
Proof.
  intros Hok Hnf. unfold cetcd_auth_grant_role. rewrite users_of_lookup, <- find_role_map by done.
  unfold cetcd_find_user, cetcd_find_role. pose proof (get_map (a_users s) user (ao_users s Hok)) as Hg.
  destruct (cetcd_hashmap_get (a_users s) user) as [u|]; cbn [fmap option_fmap option_map]; [|done].
  destruct (cetcd_hashmap_get (a_roles s) role) as [r|]; [|done]. symmetry in Hg.
  destruct (roles_are_lookup s user u Hok Hg) as [Hr Hnd].
  assert (Hex : existsb (streq role) (user_roles u) = bool_decide (role ∈ user_roles u)).
  { apply Bool.eq_iff_eq_true. rewrite existsb_elem, bool_decide_eq_true. setoid_rewrite streq_true. naive_solver. }
  rewrite Hex. cbn [au_roles au_hash auser_of]. case_bool_decide as Hin.
  - split; [done|]. assert (Hid : <[user := mk_auser (u_hash u) (user_roles u)]> (users_of s) = users_of s).
    { apply insert_id. unfold users_of. by rewrite lookup_fmap, Hg. }
    rewrite Hid. by apply effect_same.
  - split; [done|]. set (f := fun u0 : cetcd_user => _).
    assert (Hf : roles_are (f u) (user_roles u ++ [role])).
    { destruct Hr as ((slack & Hb) & Hn & Hff). split_and!.
      - exists []. cbn. rewrite (total_len u (user_roles u)) by (split_and!; [by exists slack|done|done]). rewrite Hb, take_app_length.
        rewrite flat_app, flat_cons, app_nil_r. done.
      - cbn. rewrite length_app, Hn. cbn. lia.
      - apply Forall_app. split; [done|]. by apply Forall_singleton. }
    assert (Ha : auser_of (f u) = mk_auser (u_hash u) (user_roles u ++ [role])).
    { unfold auser_of. by rewrite (user_roles_are _ _ Hf). }
    rewrite <- Ha. apply modify_user_effect; [done|done|]. destruct (ao_user s Hok user u Hg) as [U1 U2 U3].
    split; [done| |done]. exists (user_roles u ++ [role]). split; [done|].
    apply NoDup_app. split_and!; [done|set_solver|apply NoDup_singleton].
Qed.

(** The bytes the search and the removal work on. *)
Lemma remove_middle pre role post slack n : (length (flat post) <= n)%nat ->
  exists junk, take (length (flat pre)) (flat pre ++ (role ++ [0]) ++ flat post ++ slack) ++
    take n (drop (length (flat pre) + S (length role)) (flat pre ++ (role ++ [0]) ++ flat post ++ slack)) =
  flat (pre ++ post) ++ junk.
Proof.
  intros Hn. rewrite take_app_length.
  rewrite (app_assoc (flat pre)), drop_app_length' by (rewrite !length_app; cbn; lia).
  exists (take (n - length (flat post)) slack). by rewrite take_app, take_ge, flat_app, <- app_assoc by lia.
Qed.

Lemma filter_middle (pre post : list bytes) role : NoDup (pre ++ role :: post) ->
  filter (fun r => r <> role) (pre ++ role :: post) = pre ++ post.
Proof.
  intros (N1 & N2 & [N3 N4]%NoDup_cons)%NoDup_app. rewrite filter_app, filter_cons_False by (cbn; auto).
  assert (Hf : forall l : list bytes, role ∉ l -> filter (fun r => r <> role) l = l).
  { induction l as [|x l IH]; intros Hl; [done|]. apply not_elem_of_cons in Hl as [Hx Hl].
    rewrite filter_cons_True by (cbn; auto). by rewrite IH. }
  rewrite !Hf; [done|done|]. intros Hin. apply (N2 role Hin). by left.
Qed.

(** What a revoked role leaves, when the removal stays inside the buffer; it
    always does for the first role of the buffer. *)
Lemma revoke_role_effect s user role : auth_ok s ->
  match users_of s !! user with
  | None => cetcd_auth_revoke_role s user role = Some (s, CETCD_ERR_NOTFOUND)
  | Some u =>
      (role ∉ au_roles u -> cetcd_auth_revoke_role s user role = Some (s, CETCD_ERR_NOTFOUND)) /\
      (role ∈ au_roles u -> forall s' rc, cetcd_auth_revoke_role s user role = Some (s', rc) -> rc = CETCD_OK /\
         auth_effect s' (<[user := mk_auser (au_hash u) (filter (fun r => r <> role) (au_roles u))]> (users_of s))
           (roles_of s) (tokens_of s)) /\
      (head (au_roles u) = Some role -> is_Some (cetcd_auth_revoke_role s user role))
  end.
Proof.
  intros Hok. unfold cetcd_auth_revoke_role. rewrite users_of_lookup by done. unfold cetcd_find_user.
  pose proof (get_map (a_users s) user (ao_users s Hok)) as Hg.
  destruct (cetcd_hashmap_get (a_users s) user) as [u|]; cbn [fmap option_fmap option_map]; [|done]. symmetry in Hg.
  destruct (roles_are_lookup s user u Hok Hg) as [Hr Hnd]. cbn [au_roles au_hash auser_of].
  pose proof (find_offset (user_roles u) role 0) as Hoff. pose proof (total_len u (user_roles u) Hr) as Htot.
  destruct Hr as ((slack & Hb) & Hn & Hff).
  destruct ((u_n_roles u =? 0)%nat || (blen (u_roles u) =? 0)) eqn:Hempty.
  { assert (Hrs : user_roles u = []).
    { apply orb_true_iff in Hempty as [He%Nat.eqb_eq|He%Z.eqb_eq]; [rewrite He in Hn; by destruct (user_roles u)|].
      destruct (user_roles u) as [|x l]; [done|]. exfalso. unfold blen in He. rewrite Hb, flat_cons, !length_app in He. cbn in He. lia. }
    rewrite Hrs. split_and!; [done|by intros Hin%not_elem_of_nil|done]. }
  destruct (find_role_offset (user_roles u) role 0) as [p|].
  2: { split_and!; [done|done|]. intros Hh. destruct Hoff. destruct (user_roles u); [done|]. injection Hh as ->. by left. }
  destruct Hoff as (pre & post & Hrs & Hpre & ->). cbn [Nat.add]. rewrite Htot. rewrite Hrs in *.
  assert (Hbuf : u_roles u = flat pre ++ (role ++ [0]) ++ flat post ++ slack).
  { rewrite Hb, flat_app, flat_cons, <- !app_assoc. done. }
  assert (Hlen : length (flat (pre ++ role :: post)) = (length (flat pre) + S (length role) + length (flat post))%nat).
  { rewrite flat_app, flat_cons, !length_app. cbn. lia. }
  split_and!.
  - intros Hno. destruct Hno. set_solver.
  - intros _ s' rc. unfold memmove. case_bool_decide as Hin; [|done]. intros [= <- <-]. split; [done|].
    rewrite filter_middle by done.
    destruct (remove_middle pre role post slack (length (flat (pre ++ role :: post)) - S (length role))%nat ltac:(lia)) as [junk Hj].
    set (roles := if _ : bool then [] else _). set (f := fun u0 : cetcd_user => _).
    assert (Hf : roles_are (f u) (pre ++ post)).
    { cbn. unfold roles_are. cbn. rewrite Hn. split_and!; [|rewrite !length_app; cbn; lia|].
      - unfold roles. destruct (Nat.eqb_spec (u_n_roles u - 1) 0) as [Hz|Hz].
        + assert (pre ++ post = []) as ->; [|by exists []]. rewrite Hn, length_app in Hz. cbn in Hz.
          apply nil_length_inv. rewrite length_app. lia.
        + rewrite Hbuf, app_assoc, Hj, <- app_assoc. by eexists.
      - rewrite Forall_app, Forall_cons in Hff. rewrite Forall_app. tauto. }
    assert (Ha : auser_of (f u) = mk_auser (u_hash u) (pre ++ post)) by (unfold auser_of; by rewrite (user_roles_are _ _ Hf)).
    rewrite <- Ha. apply modify_user_effect; [done|done|]. destruct (ao_user s Hok user u Hg) as [U1 U2 U3].
    split; [done| |done]. exists (pre ++ post). split; [done|].
    rewrite <- (filter_middle pre post role Hnd). by apply NoDup_filter.
  - intros Hh. assert (pre = []) as ->.
    { destruct pre as [|x pre]; [done|]. injection Hh as ->. destruct Hpre. by left. }
    unfold memmove. rewrite bool_decide_true; [done|]. rewrite Hbuf, Hlen, !length_app. cbn. lia.
Qed.

(** *** Roles *)

Lemma remove_role_effect s name : auth_ok s ->
  let '(s', rc) := cetcd_auth_remove_role s name in
  rc = (if bool_decide (is_Some (roles_of s !! name)) then CETCD_OK else CETCD_ERR_NOTFOUND) /\
  auth_effect s' (users_of s) (delete name (roles_of s)) (tokens_of s).
Proof.
  intros Hok. pose proof Hok as [A1 A2 A3 A4 A5]. unfold cetcd_auth_remove_role.
  pose proof (remove_spec (a_roles s) name A2) as Hr. destruct (cetcd_hashmap_remove (a_roles s) name) as [t o].
  destruct Hr as (Hok1 & Hm1 & Ho). change (hm_map (a_roles s)) with (roles_of s) in Ho. rewrite <- Ho.
  assert (He : auth_effect (s <| a_roles := t |>) (users_of s) (delete name (roles_of s)) (tokens_of s)).
  { split; [split; try done|..]; unfold roles_of; cbn; try done. rewrite Hm1. by apply map_Forall_delete. }
  destruct o; [rewrite bool_decide_true by done|rewrite bool_decide_false by (by intros [? ?])]; done.
Qed.

Lemma cut_255_length p : (length (cut_255 p) < 256)%nat.
Proof. unfold cut_255, blen. destruct (Z.ltb_spec (Z.of_nat (length p)) 256); [lia|]. rewrite length_take. lia. Qed.

Lemma grant_permission_effect s role rd wr key hi : auth_ok s ->
  let '(s', rc) := cetcd_auth_grant_permission_range s role rd wr key hi in
  match roles_of s !! role with
  | None => rc = CETCD_ERR_NOTFOUND /\ s' = s
  | Some r => rc = CETCD_OK /\
      auth_effect s' (users_of s) (<[role := mk_role (ro_name r) rd wr (cut_255 key) (cut_255 hi)]> (roles_of s)) (tokens_of s)
  end.
Proof.
  intros Hok. unfold cetcd_auth_grant_permission_range. rewrite find_role_map by done.
  destruct (roles_of s !! role) as [r|] eqn:Hr; [|done]. split; [done|].
  apply (modify_role_effect s role r (fun r => mk_role (ro_name r) rd wr (cut_255 key) (cut_255 hi))); [done|done|].
  cbn. split_and!; [by apply (ao_role s Hok)|apply cut_255_length|apply cut_255_length].
Qed.

Lemma revoke_permission_effect s role key hi : auth_ok s ->
  let '(s', rc) := cetcd_auth_revoke_permission_key_range s role key hi in
  match roles_of s !! role with
  | None => rc = CETCD_ERR_NOTFOUND /\ s' = s
  | Some r =>
      if bool_decide ((key = [] \/ ro_key_prefix r = key) /\ (hi = [] \/ ro_range_end r = hi))
      then rc = CETCD_OK /\ auth_effect s' (users_of s) (<[role := mk_role (ro_name r) false false [] []]> (roles_of s)) (tokens_of s)
      else rc = CETCD_ERR_NOTFOUND /\ s' = s
  end.
Proof.
  intros Hok. unfold cetcd_auth_revoke_permission_key_range. rewrite find_role_map by done.
  destruct (roles_of s !! role) as [r|] eqn:Hr; [|done].
  assert (Htest : forall a b : bytes, (0 <? blen a) && negb (streq b a) = negb (bool_decide (a = [] \/ b = a))).
  { intros a b. unfold streq, blen. destruct a as [|x a]; [by rewrite (bool_decide_true (_ \/ _)) by by left|].
    replace (0 <? _) with true by done. cbn [andb]. f_equal. apply bool_decide_ext. naive_solver. }
  rewrite !Htest. destruct (decide (key = [] \/ ro_key_prefix r = key)) as [Hk|Hk].
  2: { rewrite (bool_decide_false (key = [] \/ _)), (bool_decide_false (_ /\ _)) by tauto. done. }
  rewrite (bool_decide_true (key = [] \/ _)) by done. cbn [negb].
  destruct (decide (hi = [] \/ ro_range_end r = hi)) as [Hh|Hh].
  2: { rewrite (bool_decide_false (hi = [] \/ _)), (bool_decide_false (_ /\ _)) by tauto. done. }
  rewrite (bool_decide_true (hi = [] \/ _)), (bool_decide_true (_ /\ _)) by done. cbn [negb]. split; [done|].
  apply (modify_role_effect s role r (fun r => mk_role (ro_name r) false false [] [])); [done|done|].
  cbn. split_and!; [by apply (ao_role s Hok)|lia|lia].
Qed.

Lemma add_role_effect s name rd wr prefix : auth_ok s -> nul_free prefix -> (0 < length prefix < 256)%nat ->
  match roles_of s !! name with
  | Some _ => cetcd_auth_add_role s name rd wr prefix (blen prefix) = Some (s, CETCD_ERR_EXISTS)
  | None => exists s', cetcd_auth_add_role s name rd wr prefix (blen prefix) = Some (s', CETCD_OK) /\
      auth_effect s' (users_of s) (<[name := mk_role (take 127 name) rd wr prefix []]> (roles_of s)) (tokens_of s)
  end.
Proof.
  intros Hok Hnf Hl. pose proof Hok as [A1 A2 A3 A4 A5]. unfold cetcd_auth_add_role. rewrite <- find_role_map by done.
  unfold cetcd_find_role. destruct (cetcd_hashmap_get (a_roles s) name) as [r|]; [done|].
  assert (Hn : cetcd_role_new name rd wr prefix (blen prefix) = Some (mk_role (take 127 name) rd wr prefix [])).
  { unfold cetcd_role_new, blen. rewrite cstr_id by done.
    rewrite (proj2 (Z.ltb_lt 0 _)), (proj2 (Z.ltb_lt (Z.of_nat _) 256)) by lia. cbn [andb].
    rewrite (proj2 (Z.leb_gt 256 _)) by lia. rewrite Nat2Z.id, (take_ge prefix), Nat.sub_diag by lia. cbn. by rewrite app_nil_r. }
  rewrite Hn. eexists. split; [done|]. destruct (put_spec (a_roles s) name (mk_role (take 127 name) rd wr prefix []) A2) as [Hp Hm].
  split; [split; try done|..]; unfold roles_of; cbn; try done. rewrite Hm. apply map_Forall_insert_2; [|done].
  cbn. split_and!; [done|lia|lia].
Qed.

(** The store refines two maps.  Adding a user with a hash, changing it,
    removing a user, granting and revoking roles, adding and removing roles,
    and granting and revoking permissions keep the invariant and act on the
    maps of users and roles as specified on every branch; a changed password
    also drops the user's tokens.  A role revocation that stays inside the
    user's buffer removes exactly that role, and it does for the first role. *)
Theorem auth_refines (s : cetcd_auth_store) (name hash role : bytes) (rd wr : bool) (key hi : bytes)
  (Hok : auth_ok s) (Hjwt : a_jwt_alg s = CETCD_JWT_NONE) (Hhash : bad_hash name hash = false) (Hrole : nul_free role) :
  (let '(s', rc) := cetcd_auth_add_user_hash s name hash in
   if decide (is_Some (users_of s !! name)) then rc = CETCD_ERR_EXISTS /\ s' = s
   else rc = CETCD_OK /\ auth_effect s' (<[name := mk_auser hash []]> (users_of s)) (roles_of s) (tokens_of s)) /\
  (let '(s', rc) := cetcd_auth_set_user_hash s name hash in
   match users_of s !! name with
   | None => rc = CETCD_ERR_NOTFOUND /\ s' = s
   | Some u => rc = CETCD_OK /\ auth_effect s' (<[name := mk_auser hash (au_roles u)]> (users_of s)) (roles_of s)
                                  (drop_user_tokens name (tokens_of s))
   end) /\
  (let '(s', rc) := cetcd_auth_remove_user s name in
   (rc = CETCD_OK <-> is_Some (users_of s !! name)) /\
   auth_effect s' (delete name (users_of s)) (roles_of s) (tokens_of s)) /\
  (let '(s', rc) := cetcd_auth_grant_role s name role in
   match users_of s !! name, roles_of s !! role with
   | Some u, Some _ => rc = CETCD_OK /\
       auth_effect s' (<[name := mk_auser (au_hash u)
           (if bool_decide (role ∈ au_roles u) then au_roles u else au_roles u ++ [role])]> (users_of s)) (roles_of s) (tokens_of s)
   | _, _ => rc = CETCD_ERR_NOTFOUND /\ s' = s
   end) /\
  match users_of s !! name with
  | None => cetcd_auth_revoke_role s name role = Some (s, CETCD_ERR_NOTFOUND)
  | Some u =>
      (role ∉ au_roles u -> cetcd_auth_revoke_role s name role = Some (s, CETCD_ERR_NOTFOUND)) /\
      (role ∈ au_roles u -> forall s' rc, cetcd_auth_revoke_role s name role = Some (s', rc) -> rc = CETCD_OK /\
         auth_effect s' (<[name := mk_auser (au_hash u) (filter (fun r => r <> role) (au_roles u))]> (users_of s))
           (roles_of s) (tokens_of s)) /\
      (head (au_roles u) = Some role -> is_Some (cetcd_auth_revoke_role s name role))
  end /\
  (let '(s', rc) := cetcd_auth_remove_role s role in
   (rc = CETCD_OK <-> is_Some (roles_of s !! role)) /\
   auth_effect s' (users_of s) (delete role (roles_of s)) (tokens_of s)) /\
  (let '(s', rc) := cetcd_auth_grant_permission_range s role rd wr key hi in
   match roles_of s !! role with
   | None => rc = CETCD_ERR_NOTFOUND /\ s' = s
   | Some r => rc = CETCD_OK /\
       auth_effect s' (users_of s) (<[role := mk_role (ro_name r) rd wr (cut_255 key) (cut_255 hi)]> (roles_of s)) (tokens_of s)
   end) /\
  (let '(s', rc) := cetcd_auth_revoke_permission_key_range s role key hi in
   match roles_of s !! role with
   | None => rc = CETCD_ERR_NOTFOUND /\ s' = s
   | Some r =>
       if bool_decide ((key = [] \/ ro_key_prefix r = key) /\ (hi = [] \/ ro_range_end r = hi))
       then rc = CETCD_OK /\ auth_effect s' (users_of s) (<[role := mk_role (ro_name r) false false [] []]> (roles_of s)) (tokens_of s)
       else rc = CETCD_ERR_NOTFOUND /\ s' = s
   end).
Proof.
  split_and!.
  - pose proof (add_user_hash_effect s name hash Hok Hhash) as He. destruct (cetcd_auth_add_user_hash s name hash).
    destruct (users_of s !! name) as [u|]; destruct (decide _) as [Hs|Hs]; try done; exfalso; naive_solver.
  - by apply set_user_hash_effect.
  - pose proof (remove_user_effect s name Hok) as He. destruct (cetcd_auth_remove_user s name). destruct He as [-> He].
    split; [|done]. case_bool_decide; naive_solver.
  - by apply grant_role_effect.
  - by apply revoke_role_effect.
  - pose proof (remove_role_effect s role Hok) as He. destruct (cetcd_auth_remove_role s role). destruct He as [-> He].
    split; [|done]. case_bool_decide; naive_solver.
  - by apply grant_permission_effect.
  - by apply revoke_permission_effect.
Qed.

(** ** Tokens *)

Section Tokens.
  Context `{!AuthLibs} (jwt_issue : cetcd_auth_store -> bytes -> cetcd_auth_store * option bytes)
    (jwt_user_for : cetcd_auth_store -> bytes -> Z -> cetcd_auth_store * option bytes).

Lemma user_for_token_spec s token now : auth_ok s -> a_jwt_alg s = CETCD_JWT_NONE -> token <> [] ->
  (cetcd_auth_user_for_token jwt_user_for s token now).2 =
  match tokens_of s !! token with
  | Some ent => if te_expires_ns ent <=? now then None else Some (te_username ent)
  | None => None
  end.
Proof.
  intros Hok Hj Ht. unfold cetcd_auth_user_for_token, blen. destruct token as [|c token]; [done|].
  replace (Z.of_nat (length (c :: token)) =? 0) with false by done.
  rewrite bool_decide_true by done. cbn [negb]. rewrite get_map by apply Hok. unfold tokens_of.
  destruct (hm_map (a_tokens s) !! (c :: token)) as [ent|]; [|done]. by destruct (_ <=? _).
Qed.

Lemma hex_encode_length raw : length (auth_hex_encode_ raw) = (2 * length raw)%nat.
Proof.
  induction raw as [|b raw IH]; [done|].
  change (auth_hex_encode_ (b :: raw))
    with ([hex_digit (Z.land (Z.shiftr b 4) 15); hex_digit (Z.land b 15)] ++ auth_hex_encode_ raw).
  rewrite length_app, IH. cbn [length]. lia.
Qed.

(** Simple tokens.  A token issued to an existing user resolves to that
    user at every time before its expiry and to nobody from then on; issuing
    it changes neither users nor roles; and after the user's password hash has
    been changed, no token at all resolves to the user. *)
Theorem auth_token_spec `{!AuthLibsLaws} (s : cetcd_auth_store) (name hash : bytes) (now : Z)
  (Hok : auth_ok s) (Hjwt : a_jwt_alg s = CETCD_JWT_NONE) (Hname : (length name <= 127)%nat)
  (Hhash : bad_hash name hash = false) (Huser : is_Some (users_of s !! name)) :
  let ttl := if a_token_ttl_ns s =? 0 then CETCD_AUTH_DEFAULT_TOKEN_TTL_NS else a_token_ttl_ns s in
  exists s1 token, cetcd_auth_issue_token jwt_issue s name now = (s1, Some token) /\
    auth_ok s1 /\ users_of s1 = users_of s /\ roles_of s1 = roles_of s /\
    (forall t, (cetcd_auth_user_for_token jwt_user_for s1 token t).2 =
       if u64 (now + ttl) <=? t then None else Some name) /\
    (forall token' t, token' <> [] ->
       (cetcd_auth_user_for_token jwt_user_for (cetcd_auth_set_user_hash s1 name hash).1 token' t).2 <> Some name).
Proof.
  intros ttl. unfold cetcd_auth_issue_token. pose proof Huser as [u Hu]. rewrite users_of_lookup in Hu by done.
  destruct (cetcd_find_user s name) as [u0|]; [|done]. rewrite bool_decide_true by done. cbn [negb]. fold ttl.
  set (s0 := s <| a_token_seq := _ |>). set (token := auth_hex_encode_ _). set (ent := mk_tok _ _).
  pose proof Hok as [A1 A2 A3 A4 A5]. destruct (put_spec (a_tokens s) token ent A3) as [Hp Hm].
  set (s1 := s0 <| a_tokens := _ |>). assert (Hok1 : auth_ok s1) by (by split).
  assert (Htok : token <> []).
  { intros He. apply (f_equal length) in He. unfold token in He. rewrite hex_encode_length in He.
    pose proof (random_bytes_length (a_token_seq s0)) as Hr. unfold CETCD_AUTH_TOKEN_RAW, mix_seq in *.
    destruct (random_bytes (a_token_seq s0)) as [|b0 [|b1 rest]]; cbn in *; lia. }
  exists s1, token. split_and!; [done|done|done|done| |].
  - intros t. rewrite user_for_token_spec by done. unfold tokens_of. cbn. rewrite Hm, lookup_insert_eq.
    cbn. by rewrite take_ge by lia.
  - intros token' t Ht. pose proof (set_user_hash_effect s1 name hash Hok1 Hjwt Hhash) as He.
    destruct (cetcd_auth_set_user_hash s1 name hash) as [s2 rc] eqn:Hs2.
    change (users_of s1) with (users_of s) in He. destruct Huser as [u1 Hu1]. rewrite Hu1 in He.
    destruct He as [-> [E1 E2 E3 E4]]. cbn [fst].
    assert (Hj2 : a_jwt_alg s2 = CETCD_JWT_NONE).
    { revert Hs2. unfold cetcd_auth_set_user_hash. rewrite Hhash. destruct (cetcd_hashmap_get _ _); [|congruence].
      unfold cetcd_auth_revoke_user_tokens. intros [= <-]. by destruct (negb _). }
    rewrite user_for_token_spec by done. rewrite E4. unfold drop_user_tokens.
    destruct (filter _ (tokens_of s1) !! token') as [e|] eqn:Hf; [|done].
    apply map_lookup_filter_Some in Hf as [_ Hne]. cbn in Hne. destruct (_ <=? _); congruence.
Qed.

End Tokens.

(** ** Samples, witnesses and two defects *)

Lemma new_auth_ok : auth_ok cetcd_auth_store_new.
Proof.
  split; try apply new8_ok.
  - change (a_users cetcd_auth_store_new) with (cetcd_hashmap_new (V := cetcd_user) 8). rewrite (proj2 new8_ok).
    apply map_Forall_empty.
  - change (roles_of cetcd_auth_store_new) with (hm_map (cetcd_hashmap_new (V := cetcd_role) 8)). rewrite (proj2 new8_ok).
    apply map_Forall_empty.
Qed.

(** Stand-ins for the libraries. *)
Definition sample_libs : AuthLibs := {|
  sha256 b := take 32 (b ++ replicate 32 0);
  crypt_r p st := Some (take 60 (st ++ p ++ replicate 60 36));
  crypt_gensalt cost := Some [36; 50; 98; 36];
  random_bytes n := replicate 16 (u8 n)
|}.
#[local] Existing Instance sample_libs.

Lemma sample_libs_laws : AuthLibsLaws.
Proof.
  split.
  - intros b. cbn [sha256 sample_libs]. rewrite length_take, length_app, length_replicate. lia.
  - intros n. cbn [random_bytes sample_libs]. by rewrite length_replicate.
Qed.
#[local] Existing Instance sample_libs_laws.

Definition no_jwt_issue (s : cetcd_auth_store) (user : bytes) : cetcd_auth_store * option bytes := (s, None).
Definition no_jwt_user (s : cetcd_auth_store) (token : bytes) (now : Z) : cetcd_auth_store * option bytes := (s, None).

Definition alice : bytes := bytes_of_string "alice".
Definition reader : bytes := bytes_of_string "reader".
Definition ops_role : bytes := bytes_of_string "ops".

(** A user with two roles, the first of which may read the keys with prefix
    [k]. *)
Definition build_auth : cetcd_auth_store :=
  let s := (cetcd_auth_add_user cetcd_auth_store_new alice [112; 119]).1 in
  let s := from_option fst s (cetcd_auth_add_role s reader true false [107] 1) in
  let s := from_option fst s (cetcd_auth_add_role s ops_role true true [47] 1) in
  let s := (cetcd_auth_grant_role s alice reader).1 in
  cetcd_auth_set_enabled (cetcd_auth_grant_role s alice ops_role).1 true.

Definition sample_auth : cetcd_auth_store := Eval vm_compute in build_auth.

Lemma sample_auth_run : sample_auth = build_auth.
Proof. vm_compute. reflexivity. Qed.

Lemma enabled_ok s b : auth_ok s -> auth_ok (cetcd_auth_set_enabled s b).
Proof. intros [A1 A2 A3 A4 A5]. by split. Qed.

Lemma sample_auth_ok : auth_ok sample_auth.
Proof.
  rewrite sample_auth_run. unfold build_auth. set (s0 := (cetcd_auth_add_user _ _ _).1).
  assert (H0 : auth_ok s0).
  { apply (put_user_effect cetcd_auth_store_new alice _ new_auth_ok).
    apply (new_user_ok alice (sha256 [112; 119])). cbn. lia. }
  set (s1 := from_option fst s0 (cetcd_auth_add_role s0 reader true false [107] 1)).
  assert (H1 : auth_ok s1).
  { pose proof (add_role_effect s0 reader true false [107] H0 ltac:(by apply bytes_nul_free) ltac:(cbn; lia)) as He.
    change (blen [107]) with 1 in He. destruct (roles_of s0 !! reader); unfold s1; [by rewrite He|].
    destruct He as (s' & -> & [? _ _ _]). done. }
  set (s2 := from_option fst s1 (cetcd_auth_add_role s1 ops_role true true [47] 1)).
  assert (H2 : auth_ok s2).
  { pose proof (add_role_effect s1 ops_role true true [47] H1 ltac:(by apply bytes_nul_free) ltac:(cbn; lia)) as He.
    change (blen [47]) with 1 in He. destruct (roles_of s1 !! ops_role); unfold s2; [by rewrite He|].
    destruct He as (s' & -> & [? _ _ _]). done. }
  assert (Hg : forall s r, auth_ok s -> nul_free r -> auth_ok (cetcd_auth_grant_role s alice r).1).
  { intros s r Hs Hr. pose proof (grant_role_effect s alice r Hs Hr) as He. destruct (cetcd_auth_grant_role s alice r) as [s' rc].
    destruct (users_of s !! alice), (roles_of s !! r); destruct He as [_ He]; (by destruct He || by subst). }
  apply enabled_ok. apply Hg; [apply Hg; [done|]|]; by apply bytes_nul_free.
Qed.

Lemma auth_check_perm_spec_witness :
  cetcd_auth_check_perm sample_auth alice [107; 49] false = true /\
  (a_enabled sample_auth = false \/ is_admin sample_auth alice \/ allowed sample_auth alice [107; 49] false) /\
  cetcd_auth_check_perm sample_auth alice [107; 49] true = false.
Proof.
  split_and!; [vm_compute; reflexivity| |vm_compute; reflexivity].
  apply (auth_check_perm_spec sample_auth alice [107; 49] false sample_auth_ok). vm_compute. reflexivity.
Defined.

Lemma auth_check_password_spec_witness :
  cetcd_auth_check_password sample_auth alice [112; 119] = true /\
  exists u, users_of sample_auth !! alice = Some u /\
    (au_hash u = sha256 [112; 119] \/
     ((32 < length (au_hash u) < 65)%nat /\ crypt_r [112; 119] (au_hash u) = Some (au_hash u) /\ head_byte (au_hash u) <> 42)).
Proof.
  split; [vm_compute; reflexivity|].
  apply (auth_check_password_spec sample_auth alice [112; 119] sample_auth_ok). vm_compute. reflexivity.
Defined.

Lemma auth_refines_witness :
  let '(s', rc) := cetcd_auth_remove_user sample_auth alice in
  (rc = CETCD_OK <-> is_Some (users_of sample_auth !! alice)) /\
  auth_effect s' (delete alice (users_of sample_auth)) (roles_of sample_auth) (tokens_of sample_auth).
Proof.
  destruct (auth_refines sample_auth alice [1] reader true true [] [] sample_auth_ok eq_refl eq_refl) as (_ & _ & H3 & _);
    [by apply bytes_nul_free|]. exact H3.
Defined.

Lemma alice_exists : is_Some (users_of sample_auth !! alice).
Proof. rewrite users_of_lookup by apply sample_auth_ok. vm_compute. eauto. Qed.

Lemma auth_token_spec_witness :
  exists s1 token, cetcd_auth_issue_token no_jwt_issue sample_auth alice 5 = (s1, Some token) /\
    forall t, (cetcd_auth_user_for_token no_jwt_user s1 token t).2 = if 300000000005 <=? t then None else Some alice.
Proof.
  destruct (auth_token_spec no_jwt_issue no_jwt_user sample_auth alice [1] 5 sample_auth_ok eq_refl
    ltac:(cbn; lia) eq_refl alice_exists) as (s1 & token & H1 & _ & _ & _ & H2 & _).
  exists s1, token. split; [exact H1|exact H2].
Defined.

(** Revoking a role that is not the first of the buffer moves bytes from
    behind the end of the allocation: the length passed to [memmove] counts
    from the start of the buffer, not from the role. *)
Theorem revoke_role_overruns : cetcd_auth_revoke_role sample_auth alice ops_role = None.
Proof. vm_compute. reflexivity. Qed.

(** Removing a user does not drop the tokens issued to it: a token of the
    deleted administrator still passes as administrator. *)
Theorem deleted_root_keeps_admin :
  let s := (cetcd_auth_add_user cetcd_auth_store_new ROOT [112]).1 in
  let '(s, token) := cetcd_auth_issue_token no_jwt_issue s ROOT 5 in
  let '(s, rc) := cetcd_auth_remove_user s ROOT in
  let '(s, user) := cetcd_auth_user_for_token no_jwt_user s (default [] token) 6 in
  rc = CETCD_OK /\ cetcd_auth_has_user s ROOT = false /\ user = Some ROOT /\ cetcd_auth_is_admin s (default [] user) = true.
Proof. vm_compute. done. Qed.
