(* ===== verification/AuthSave.v ===== *)
(** * Persistence of the authentication store

    The records of the two blobs decode to what was encoded, so a save that
    succeeds followed by a load into a new store restores users, roles and the
    enabled flag. *)

From S2P Require Import Slice KeyOrder Treap Hashmap Backend Lease CString Auth AuthProps Prelude.

#[local] Open Scope Z_scope.

(** ** Integers and fields *)

Lemma u16_roundtrip n rest : Z.of_nat n <= 65535 -> Z.to_nat (auth_load_u16_ (auth_save_u16_ (Z.of_nat n) ++ rest)) = n.
Proof.
  intros Hn. unfold auth_load_u16_, auth_save_u16_. cbn [nth app]. rewrite (Z.mod_small (Z.of_nat n)) by lia.
  change 255 with (Z.ones 8). rewrite !Z.land_ones, Z.shiftr_div_pow2 by lia. change (2 ^ 8) with 256.
  rewrite (Z.mod_small (Z.of_nat n / 256)) by (split; [apply Z.div_pos; lia|apply Z.div_lt_upper_bound; lia]).
  rewrite lor_shiftl_add by (try apply Z.mod_pos_bound; lia). change (2 ^ 8) with 256.
  pose proof (Z.div_mod (Z.of_nat n) 256 ltac:(lia)). lia.
Qed.

Lemma drop_u16 n rest : drop 2 (auth_save_u16_ n ++ rest) = rest.
Proof. done. Qed.

Lemma u16_length n rest : length (auth_save_u16_ n ++ rest) = S (S (length rest)).
Proof. done. Qed.

Lemma field_take (f rest : bytes) n : n = length f -> take n (f ++ rest) = f.
Proof. intros ->. apply take_app_length. Qed.

Lemma field_drop (f rest : bytes) n : n = length f -> drop n (f ++ rest) = rest.
Proof. intros ->. apply drop_app_length. Qed.

Lemma cut_u16_id n : Z.of_nat n <= 65535 -> cut_u16 n = n.
Proof. intros Hn. unfold cut_u16. destruct (Z.ltb_spec (Z.of_nat n) 65535); lia. Qed.

(** ** Users *)

(** The record of a user whose sizes fit their fields. *)
Definition user_record (key : bytes) (u : cetcd_user) : bytes :=
  auth_save_u16_ (Z.of_nat (length key)) ++ key ++ [Z.of_nat (length (u_hash u))] ++ u_hash u ++
  auth_save_u16_ (Z.of_nat (u_n_roles u)) ++ auth_save_u16_ (Z.of_nat (cetcd_user_roles_total_len u)) ++
  take (cetcd_user_roles_total_len u) (u_roles u).

Record user_fits (key : bytes) (u : cetcd_user) : Prop := {
  uf_key : (length key <= 127)%nat;
  uf_nul : nul_free key;
  uf_name : u_name u = key;
  uf_hash : (length (u_hash u) <= 64)%nat;
  uf_count : Z.of_nat (u_n_roles u) <= 65535;
  uf_total : Z.of_nat (cetcd_user_roles_total_len u) <= 65535;
  uf_blob : (cetcd_user_roles_total_len u <= length (u_roles u))%nat
}.

Lemma save_user_record key u buf : user_fits key u -> auth_save_user_cb_ key u buf = (buf ++ user_record key u, true).
Proof.
  intros [F1 F2 _ F3 F4 F5 F6]. unfold auth_save_user_cb_, user_record.
  rewrite !cut_u16_id, Nat.min_l by lia. by rewrite !(take_ge key), !(take_ge (u_hash u)) by lia.
Qed.

Lemma load_user_record key u rest : user_fits key u ->
  load_user (user_record key u ++ rest) =
  Some (mk_user key (take (cetcd_user_roles_total_len u) (u_roles u)) (u_n_roles u) (u_hash u), rest).
Proof.
  intros [F1 F2 _ F3 F4 F5 F6]. unfold load_user, user_record. rewrite <- !app_assoc.
  rewrite u16_roundtrip, drop_u16 by lia. rewrite (field_drop key) by done.
  set (blob := take _ (u_roles u)). assert (Hblob : length blob = cetcd_user_roles_total_len u) by (unfold blob; rewrite length_take; lia).
  rewrite (proj2 (Nat.ltb_ge _ _)) by (rewrite !length_app; cbn; lia).
  assert (Hname : cstr (take (if (length key <? 127)%nat then length key else 127) (key ++ [Z.of_nat (length (u_hash u))] ++
    u_hash u ++ auth_save_u16_ (Z.of_nat (u_n_roles u)) ++ auth_save_u16_ (Z.of_nat (cetcd_user_roles_total_len u)) ++ blob ++ rest)) = key).
  { replace (if (length key <? 127)%nat then length key else 127%nat) with (length key).
    - rewrite take_app_length. by apply cstr_id.
    - destruct (Nat.ltb_spec (length key) 127); lia. }
  rewrite Hname. cbn [app nth drop]. rewrite Nat2Z.id, !drop_0.
  rewrite (proj2 (Nat.ltb_ge 64 _)) by lia. cbn [orb].
  rewrite (proj2 (Nat.ltb_ge _ _)) by (rewrite length_app, !u16_length; lia).
  rewrite (field_take (u_hash u)), (field_drop (u_hash u)) by done.
  rewrite u16_roundtrip, drop_u16, u16_roundtrip, drop_u16 by lia.
  rewrite (proj2 (Nat.ltb_ge _ _)) by (rewrite length_app; lia).
  by rewrite (field_take blob), (field_drop blob) by done.
Qed.

Definition users_blob (es : list (bytes * cetcd_user)) : bytes := mjoin ((fun ku => user_record ku.1 ku.2) <$> es).

Lemma iter_records {V} (cb : bytes -> V -> bytes -> bytes * bool) (rec : bytes -> V -> bytes) (m : cetcd_hashmap V) buf :
  Forall (fun kv => forall buf, cb kv.1 kv.2 buf = (buf ++ rec kv.1 kv.2, true)) (entries m) ->
  cetcd_hashmap_iter cb m buf = buf ++ mjoin ((fun kv => rec kv.1 kv.2) <$> entries m).
Proof.
  unfold cetcd_hashmap_iter, entries. revert buf. induction (slots m) as [|s t IH]; intros buf; [by rewrite app_nil_r|].
  cbn [fold_stop omap list_omap]. destruct s as [|h k v|]; cbn [occ]; intros Hf; [by apply IH| |by apply IH].
  apply Forall_cons in Hf as [Hk Hf]. cbn [fst snd] in Hk. rewrite Hk. cbn [negb]. rewrite IH by done.
  cbn. by rewrite <- app_assoc.
Qed.

Lemma record_nonempty key u : (2 <= length (user_record key u))%nat.
Proof. unfold user_record. rewrite u16_length. lia. Qed.

(** A user as its record gives it back: the buffer without its slack. *)
Definition reload_user (u : cetcd_user) : cetcd_user :=
  mk_user (u_name u) (take (cetcd_user_roles_total_len u) (u_roles u)) (u_n_roles u) (u_hash u).

(** Loading a blob puts its users one after the other. *)
Lemma load_users_blob es : forall fuel s, Forall (fun ku => user_fits ku.1 ku.2) es -> (length es <= fuel)%nat ->
  load_users_loop fuel s (users_blob es) =
  foldl (fun s ku => put_user s ku.1 (reload_user ku.2)) s es.
Proof.
  induction es as [|[k u] es IH]; intros fuel s Hf Hfuel; [by destruct fuel|].
  apply Forall_cons in Hf as [Hu Hf]. destruct fuel as [|fuel]; [cbn in Hfuel; lia|]. cbn [length] in Hfuel.
  change (users_blob ((k, u) :: es)) with (user_record k u ++ users_blob es). cbn [load_users_loop].
  rewrite (proj2 (Nat.ltb_ge _ _)) by (rewrite length_app; pose proof (record_nonempty k u); lia).
  rewrite load_user_record by done. cbn [u_name foldl fst snd]. unfold reload_user at 2. rewrite (uf_name k u Hu).
  apply IH; [done|lia].
Qed.

(** ** Roles *)

Definition role_record (key : bytes) (r : cetcd_role) : bytes :=
  auth_save_u16_ (Z.of_nat (length key)) ++ key ++ [Z.b2z (ro_perm_read r); Z.b2z (ro_perm_write r)] ++
  auth_save_u16_ (Z.of_nat (length (ro_key_prefix r))) ++ ro_key_prefix r ++
  auth_save_u16_ (Z.of_nat (length (ro_range_end r))) ++ ro_range_end r.

Record role_fits (key : bytes) (r : cetcd_role) : Prop := {
  rf_key : (length key <= 127)%nat;
  rf_nul : nul_free key;
  rf_name : ro_name r = key;
  rf_prefix : (length (ro_key_prefix r) < 256)%nat;
  rf_end : (length (ro_range_end r) < 256)%nat
}.

Lemma save_role_record key r buf : role_fits key r -> auth_save_role_cb_ key r buf = (buf ++ role_record key r, true).
Proof.
  intros [F1 F2 F3 F4 F5]. unfold auth_save_role_cb_, role_record. rewrite !cut_u16_id by lia.
  by rewrite !take_ge by lia.
Qed.

Lemma b2z_test b : negb (Z.b2z b =? 0) = b.
Proof. by destruct b. Qed.

Lemma load_role_record key r rest : role_fits key r -> load_role true (role_record key r ++ rest) = Some (r, rest).
Proof.
  intros [F1 F2 F3 F4 F5]. unfold load_role, role_record. rewrite <- !app_assoc.
  rewrite u16_roundtrip, drop_u16 by lia. rewrite (field_drop key) by done.
  rewrite (proj2 (Nat.ltb_ge _ _)) by (rewrite !length_app; cbn; lia).
  replace (if (length key <? 127)%nat then length key else 127%nat) with (length key)
    by (destruct (Nat.ltb_spec (length key) 127); lia).
  rewrite take_app_length, cstr_id by done. cbn [app nth drop]. rewrite !drop_0, u16_roundtrip, drop_u16 by lia.
  rewrite (proj2 (Nat.ltb_ge _ _)) by (rewrite length_app; lia). rewrite (field_drop (ro_key_prefix r)) by done.
  rewrite u16_length, (proj2 (Nat.ltb_ge (S (S _)) 2)) by lia. rewrite u16_roundtrip, drop_u16 by lia.
  rewrite (proj2 (Nat.ltb_ge _ _)) by (rewrite length_app; lia).
  rewrite (proj2 (Nat.ltb_lt (length (ro_key_prefix r)) 256)), (proj2 (Nat.ltb_lt (length (ro_range_end r)) 256)) by lia.
  rewrite !take_app_length, drop_app_length, !b2z_test. f_equal. f_equal. destruct r. cbn in *. by subst.
Qed.

Definition roles_blob (es : list (bytes * cetcd_role)) : bytes := mjoin ((fun kr => role_record kr.1 kr.2) <$> es).

Lemma load_roles_records es : forall fuel s, Forall (fun kr => role_fits kr.1 kr.2) es -> (length es <= fuel)%nat ->
  load_roles_loop fuel true s (roles_blob es) =
  foldl (fun s kr => s <| a_roles := cetcd_hashmap_put (a_roles s) kr.1 kr.2 |>) s es.
Proof.
  induction es as [|[k r] es IH]; intros fuel s Hf Hfuel; [by destruct fuel|].
  apply Forall_cons in Hf as [Hr Hf]. destruct fuel as [|fuel]; [cbn in Hfuel; lia|]. cbn [length] in Hfuel.
  change (roles_blob ((k, r) :: es)) with (role_record k r ++ roles_blob es). cbn [load_roles_loop].
  rewrite (proj2 (Nat.ltb_ge _ _)) by (unfold role_record; rewrite <- app_assoc, u16_length; lia).
  rewrite load_role_record by done. cbn [foldl fst snd]. rewrite (rf_name k r Hr). apply IH; [done|lia].
Qed.

(** ** Putting the entries back *)

Lemma foldl_put {V} (es : list (bytes * V)) : forall m : cetcd_hashmap V, hm_ok m ->
  let m' := foldl (fun m kv => cetcd_hashmap_put m kv.1 kv.2) m es in
  hm_ok m' /\ hm_map m' = foldl (fun m kv => <[kv.1 := kv.2]> m) (hm_map m) es.
Proof.
  induction es as [|[k v] es IH]; intros m Hm; [done|]. destruct (put_spec m k v Hm) as [Hp Hmp].
  cbn [foldl fst snd]. destruct (IH _ Hp) as [I1 I2]. split; [done|]. by rewrite I2, Hmp.
Qed.

Lemma foldl_insert_map {V} (es : list (bytes * V)) (m : gmap bytes V) : NoDup es.*1 ->
  foldl (fun m kv => <[kv.1 := kv.2]> m) m es = list_to_map es ∪ m.
Proof.
  revert m. induction es as [|[k v] es IH]; intros m Hnd; cbn; [by rewrite (left_id_L ∅ (∪))|].
  apply NoDup_cons in Hnd as [Hk Hnd]. rewrite IH by done. rewrite <- insert_union_r by (by apply not_elem_of_list_to_map_1).
  by rewrite insert_union_l.
Qed.

Lemma rebuild {V W} (f : V -> W) (m : cetcd_hashmap V) : hm_ok m ->
  let m' := foldl (fun m kv => cetcd_hashmap_put m kv.1 kv.2) (cetcd_hashmap_new 8) (prod_map id f <$> entries m) in
  hm_ok m' /\ hm_map m' = f <$> hm_map m.
Proof.
  intros Hm. destruct (new8_ok (V := W)) as [N1 N2]. destruct (entries_list_to_map m Hm) as [Hnd Hmap].
  destruct (foldl_put (prod_map id f <$> entries m) _ N1) as [F1 F2]. split; [done|]. cbv zeta. rewrite F2, N2.
  rewrite foldl_insert_map, (right_id_L ∅ (∪)), list_to_map_fmap, Hmap; [done|].
  by rewrite <- list_fmap_compose.
Qed.

(** ** Save and load *)

Section RoundTrip.
  Context {E T : Type} `{LmdbLaws E T}.

(** What a successful save leaves in the bucket. *)
Lemma save_view s (be : E) : (cetcd_auth_save s be).2 = CETCD_OK ->
  let v := env_view (cetcd_auth_save s be).1 AUTH_BUCKET in
  v !! AUTH_KEY_ENABLED = Some [if a_enabled s then 1 else 0] /\
  v !! AUTH_KEY_USERS = Some (cetcd_hashmap_iter auth_save_user_cb_ (a_users s) []) /\
  v !! AUTH_KEY_ROLES = Some (cetcd_hashmap_iter auth_save_role_cb_ (a_roles s) AUTH_ROLES_V2).
Proof.
  unfold cetcd_auth_save, cetcd_txn_put. set (users := cetcd_hashmap_iter _ (a_users s) _).
  set (roles := cetcd_hashmap_iter _ (a_roles s) _). set (en := [if a_enabled s then 1 else 0]).
  destruct (cetcd_txn_begin be false) as [e [t|]]; [|done].
  pose proof (put_internal_view t AUTH_BUCKET AUTH_KEY_ENABLED en) as P1.
  destruct (_put_internal t AUTH_BUCKET AUTH_KEY_ENABLED en) as [t1 rc1]. cbn [fst snd] in P1.
  destruct rc1; cbn [is_ok negb]; try done. specialize (P1 eq_refl).
  pose proof (put_internal_view t1 AUTH_BUCKET AUTH_KEY_USERS users) as P2.
  destruct (_put_internal t1 AUTH_BUCKET AUTH_KEY_USERS users) as [t2 rc2]. cbn [fst snd] in P2.
  destruct rc2; cbn [is_ok negb]; try done. specialize (P2 eq_refl).
  pose proof (put_internal_view t2 AUTH_BUCKET AUTH_KEY_ROLES roles) as P3.
  destruct (_put_internal t2 AUTH_BUCKET AUTH_KEY_ROLES roles) as [t3 rc3]. cbn [fst snd] in P3.
  destruct rc3; cbn [is_ok negb]; try done. specialize (P3 eq_refl).
  pose proof (commit_view e t3) as Hc. destruct (cetcd_txn_commit e t3) as [e' rc]. cbn [fst snd] in *. intros ->.
  cbn [is_ok] in Hc. specialize (Hc AUTH_BUCKET). specialize (P1 AUTH_BUCKET). specialize (P2 AUTH_BUCKET). specialize (P3 AUTH_BUCKET).
  unfold view_alter in *. rewrite decide_True in P1, P2, P3 by done. rewrite Hc, P3, P2, P1.
  rewrite !(lookup_insert_ne _ AUTH_KEY_ROLES), !(lookup_insert_ne _ AUTH_KEY_USERS) by (vm_compute; discriminate).
  by rewrite !lookup_insert_eq.
Qed.

(** The sizes that fit the fields of the records. *)
Record store_fits (s : cetcd_auth_store) : Prop := {
  sf_users : map_Forall (fun k u => (length k <= 127)%nat /\ nul_free k /\ Z.of_nat (u_n_roles u) <= 65535 /\
                                    Z.of_nat (cetcd_user_roles_total_len u) <= 65535) (hm_map (a_users s));
  sf_roles : map_Forall (fun k _ => (length k <= 127)%nat /\ nul_free k) (roles_of s)
}.

Lemma reload_roles u rs : roles_are u rs -> roles_are (reload_user u) rs.
Proof.
  intros Hr. pose proof (total_len u rs Hr) as Ht. destruct Hr as ((slack & Hb) & Hn & Hf). split_and!; [|done|done].
  exists []. cbn. by rewrite Ht, Hb, take_app_length, app_nil_r.
Qed.

Lemma entry_lookup {V} (m : cetcd_hashmap V) k v : hm_ok m -> (k, v) ∈ entries m -> hm_map m !! k = Some v.
Proof.
  intros Hm Hin. destruct (entries_list_to_map m Hm) as [Hnd Hmap]. rewrite <- Hmap.
  by apply elem_of_list_to_map_1.
Qed.

Lemma users_fit s : auth_ok s -> store_fits s -> Forall (fun ku => user_fits ku.1 ku.2) (entries (a_users s)).
Proof.
  intros Hok [Hf _]. apply Forall_forall. intros [k u] Hin. apply entry_lookup in Hin; [|apply Hok]. cbn.
  destruct (Hf k u Hin) as (F1 & F2 & F3 & F4). destruct (ao_user s Hok k u Hin) as [U1 (rs & Hr & _) U3].
  split; try done; [by rewrite U1, take_ge by lia|]. rewrite (total_len u rs Hr). destruct Hr as ((slack & ->) & _). rewrite length_app. lia.
Qed.

Lemma roles_fit s : auth_ok s -> store_fits s -> Forall (fun kr => role_fits kr.1 kr.2) (entries (a_roles s)).
Proof.
  intros Hok [_ Hf]. apply Forall_forall. intros [k r] Hin. apply entry_lookup in Hin; [|apply Hok]. cbn.
  destruct (Hf k r Hin) as (F1 & F2). destruct (ao_role s Hok k r Hin) as (R1 & R2 & R3).
  split; try done. by rewrite R1, take_ge by lia.
Qed.

Lemma blob_length {V} (rec : bytes -> V -> bytes) (es : list (bytes * V)) : (forall k v, (2 <= length (rec k v))%nat) ->
  (length es <= length (mjoin ((fun kv => rec kv.1 kv.2) <$> es)))%nat.
Proof.
  intros Hr. induction es as [|[k v] es IH]; [done|]. specialize (Hr k v).
  change (mjoin (_ <$> (k, v) :: es)) with (rec k v ++ mjoin ((fun kv => rec kv.1 kv.2) <$> es)).
  rewrite length_app. cbn [length]. lia.
Qed.

Lemma foldl_put_user es : forall s,
  foldl (fun s ku => put_user s ku.1 (reload_user ku.2)) s es =
  s <| a_users := foldl (fun m kv => cetcd_hashmap_put m kv.1 kv.2) (a_users s) (prod_map id reload_user <$> es) |>.
Proof. induction es as [|[k u] es IH]; intros s; [by destruct s|]. cbn [foldl fst snd fmap list_fmap]. rewrite IH. by destruct s. Qed.

Lemma foldl_put_role es : forall s : cetcd_auth_store,
  foldl (fun s kr => s <| a_roles := cetcd_hashmap_put (a_roles s) kr.1 kr.2 |>) s es =
  s <| a_roles := foldl (fun m kv => cetcd_hashmap_put m kv.1 kv.2) (a_roles s) (prod_map id id <$> es) |>.
Proof. induction es as [|[k r] es IH]; intros s; [by destruct s|]. cbn [foldl fst snd fmap list_fmap]. rewrite IH. by destruct s. Qed.

(** The store that loading the two blobs into a new store gives. *)
Lemma reload_store s (en : bool) : auth_ok s -> store_fits s ->
  let s1 := load_users_loop (length (users_blob (entries (a_users s)))) (cetcd_auth_store_new <| a_enabled := en |>)
              (users_blob (entries (a_users s))) in
  let s2 := load_roles_blob s1 (AUTH_ROLES_V2 ++ roles_blob (entries (a_roles s))) in
  auth_ok s2 /\ users_of s2 = users_of s /\ roles_of s2 = roles_of s /\ a_enabled s2 = en.
Proof.
  intros Hok Hf. pose proof (users_fit s Hok Hf) as Hu. pose proof (roles_fit s Hok Hf) as Hr.
  pose proof (blob_length user_record (entries (a_users s)) record_nonempty) as Lu.
  pose proof (blob_length role_record (entries (a_roles s)) ltac:(intros; unfold role_record; rewrite u16_length; lia)) as Lr.
  cbv zeta. rewrite load_users_blob by done. unfold load_roles_blob. rewrite bool_decide_true by done.
  change (drop 3 (AUTH_ROLES_V2 ++ roles_blob (entries (a_roles s)))) with (roles_blob (entries (a_roles s))).
  rewrite load_roles_records by (done || (rewrite length_app; unfold roles_blob; lia)).
  rewrite foldl_put_user, foldl_put_role. cbn [a_users a_roles cetcd_auth_store_new].
  destruct (rebuild reload_user (a_users s) (ao_users s Hok)) as [U1 U2].
  destruct (rebuild id (a_roles s) (ao_roles s Hok)) as [R1 R2]. cbv zeta in *. rewrite map_fmap_id in R2.
  pose proof new_auth_ok as [_ _ N3 _ _]. split_and!.
  - split; [exact U1|exact R1|exact N3| |unfold roles_of; cbn; rewrite R2; apply Hok].
    cbn. rewrite U2. intros k u. rewrite lookup_fmap. intros (u0 & Hk & ->)%fmap_Some.
    destruct (ao_user s Hok k u0 Hk) as [V1 (rs & V2 & V3) V4]. split; [done| |done]. exists rs. split; [by apply reload_roles|done].
  - unfold users_of. cbn. rewrite U2, <- map_fmap_compose. apply map_fmap_ext. intros k u Hk. cbn.
    destruct (ao_user s Hok k u Hk) as [V1 (rs & V2 & V3) V4]. unfold auser_of.
    by rewrite (user_roles_are u rs V2), (user_roles_are _ _ (reload_roles u rs V2)).
  - unfold roles_of. cbn. exact R2.
  - done.
Qed.

(** Persistence.  When a save succeeds and the reads of a load succeed,
    loading into a new store restores the users with their hashes and role
    lists, the roles with their permissions, and whether authentication is
    enabled, for names of at most 127 bytes and role lists of at most 65535
    bytes, the sizes the record fields hold. *)
Theorem auth_save_load (s : cetcd_auth_store) (be : E) (Hok : auth_ok s) (Hfits : store_fits s)
  (Hsave : (cetcd_auth_save s be).2 = CETCD_OK) :
  let e1 := (cetcd_auth_save s be).1 in
  let r1 := be_get e1 AUTH_BUCKET AUTH_KEY_ENABLED in
  let r2 := be_get r1.1.1 AUTH_BUCKET AUTH_KEY_USERS in
  let r3 := be_get r2.1.1 AUTH_BUCKET AUTH_KEY_ROLES in
  r1.1.2 = CETCD_OK -> r2.1.2 = CETCD_OK -> r3.1.2 = CETCD_OK ->
  let '(s', _, rc) := cetcd_auth_load cetcd_auth_store_new e1 in
  rc = CETCD_OK /\ auth_ok s' /\ users_of s' = users_of s /\ roles_of s' = roles_of s /\ a_enabled s' = a_enabled s.
Proof.
  intros e1 r1 r2 r3. destruct (save_view s be Hsave) as (V1 & V2 & V3). fold e1 in V1, V2, V3.
  rewrite (iter_records _ user_record) in V2
    by (eapply Forall_impl; [exact (users_fit s Hok Hfits)|]; intros [k u] Hu buf; by apply save_user_record).
  rewrite (iter_records _ role_record) in V3
    by (eapply Forall_impl; [exact (roles_fit s Hok Hfits)|]; intros [k r] Hr buf; by apply save_role_record).
  pose proof (be_get_view e1 AUTH_BUCKET AUTH_KEY_ENABLED) as W1. pose proof (be_get_ok e1 AUTH_BUCKET AUTH_KEY_ENABLED) as G1.
  pose proof (be_get_view r1.1.1 AUTH_BUCKET AUTH_KEY_USERS) as W2. pose proof (be_get_ok r1.1.1 AUTH_BUCKET AUTH_KEY_USERS) as G2.
  pose proof (be_get_ok r2.1.1 AUTH_BUCKET AUTH_KEY_ROLES) as G3. fold r1 in W1, G1. fold r2 in W2, G2. fold r3 in G3.
  intros S1 S2 S3. specialize (G1 S1). specialize (G2 S2). specialize (G3 S3).
  rewrite (W2 AUTH_BUCKET), (W1 AUTH_BUCKET) in G3. rewrite (W1 AUTH_BUCKET) in G2.
  cbn [be_view lmdb_backend_laws] in G1, G2, G3. rewrite V1 in G1. rewrite V2 in G2. rewrite V3 in G3.
  injection G1 as G1. injection G2 as G2. injection G3 as G3. unfold cetcd_auth_load. fold r1.
  destruct r1 as [[e2 rc1] v1]. cbn [fst snd] in *. subst rc1 v1. cbn [is_ok negb andb]. fold r2.
  destruct r2 as [[e3 rc2] v2]. cbn [fst snd] in *. subst rc2 v2. cbn [is_ok negb andb]. fold r3.
  destruct r3 as [[e4 rc3] v3]. cbn [fst snd] in *. subst rc3 v3. cbn [is_ok negb andb]. split; [done|].
  change (0 <? blen [if a_enabled s then 1 else 0]) with true. cbn [head_byte].
  replace (negb ((if a_enabled s then 1 else 0) =? 0)) with (a_enabled s) by by destruct (a_enabled s).
  by apply reload_store.
Qed.

End RoundTrip.

Lemma auth_save_load_witness :
  let '(s', _, rc) := cetcd_auth_load cetcd_auth_store_new (cetcd_auth_save sample_auth (mk_mem_env ∅ [])).1 in
  rc = CETCD_OK /\ users_of s' = users_of sample_auth /\ roles_of s' = roles_of sample_auth /\ a_enabled s' = true.
Proof.
  pose proof (auth_save_load sample_auth (mk_mem_env ∅ []) sample_auth_ok) as Hl.
  assert (Hf : store_fits sample_auth).
  { assert (Hnames : forall (V : Type) (m : gmap bytes V) (f : V -> bool),
      forallb (fun kv => (length kv.1 <=? 127)%nat && forallb (fun c => negb (c =? 0)) kv.1 && f kv.2) (map_to_list m) = true ->
      map_Forall (fun k v => (length k <= 127)%nat /\ nul_free k /\ f v = true) m).
    { intros V m f Hb k v Hk. rewrite forallb_forall in Hb. apply elem_of_map_to_list, list_elem_of_In in Hk.
      specialize (Hb _ Hk). cbn in Hb. apply andb_prop in Hb as [[Hb1%Nat.leb_le Hb2]%andb_prop Hb3].
      split_and!; [done|by apply bytes_nul_free|done]. }
    split.
    - intros k u Hk. destruct (Hnames _ (hm_map (a_users sample_auth))
        (fun u => (Z.of_nat (u_n_roles u) <=? 65535) && (Z.of_nat (cetcd_user_roles_total_len u) <=? 65535))
        ltac:(vm_compute; reflexivity) k u Hk) as (H1 & H2 & [H3%Z.leb_le H4%Z.leb_le]%andb_prop). done.
    - intros k r Hk. destruct (Hnames _ (roles_of sample_auth) (fun _ => true) ltac:(vm_compute; reflexivity) k r Hk) as (H1 & H2 & _). done. }
  specialize (Hl Hf ltac:(vm_compute; reflexivity)). cbv zeta in Hl.
  specialize (Hl ltac:(vm_compute; reflexivity) ltac:(vm_compute; reflexivity) ltac:(vm_compute; reflexivity)).
  destruct (cetcd_auth_load _ _) as [[s' e'] rc]. destruct Hl as (Hl1 & _ & Hl2 & Hl3 & Hl4). done.
Defined.
