(* ===== verification/Cluster.v ===== *)
(** * Cluster membership and message frames (src/peer/peer.c, include/cetcd/peer.h)

    The members a node knows, kept in an array and mirrored in the [members]
    bucket (one row per member under its id, and the outgoing voters of a
    joint phase under id 0), and the length-prefixed frames of the peer
    protocol.  The array is the list of its first [peer_count] elements; its
    capacity, freeing and allocation failure are not modelled.  The backend is
    passed explicitly; [c_backend] tells whether one is attached. *)

From S2P Require Import Slice KeyOrder Treap Hashmap Backend Mvcc Lease CString Prelude.

#[local] Open Scope Z_scope.

(** ** Data *)

(** [cetcd_peer_info] and [cetcd_peer] have the same fields; [p_addr] is the C
    string in the 256-byte array. *)
Record cetcd_peer_info : Type := mk_peer {
  p_id : Z;
  p_addr : bytes;
  p_port : Z;
  p_is_learner : bool
}.

#[export] Instance peer_eta : RecordEta cetcd_peer_info := fun p =>
  mk_peer (p_id p) (p_addr p) (p_port p) (p_is_learner p).

#[export] Instance cetcd_peer_info_eq_dec : EqDecision cetcd_peer_info.
Proof. solve_decision. Defined.

(** [c_send_fn] tells whether a sender is set; [c_loaded_joint_ids] is the
    whole array of 16 cells. *)
Record cetcd_cluster : Type := mk_cluster {
  c_self_id : Z;
  c_peers : list cetcd_peer_info;
  c_send_fn : bool;
  c_backend : bool;
  c_loaded_joint_ids : list Z;
  c_loaded_joint_n : nat;
  c_loaded_joint_index : Z
}.

#[export] Instance cluster_eta : RecordEta cetcd_cluster := fun c =>
  mk_cluster (c_self_id c) (c_peers c) (c_send_fn c) (c_backend c) (c_loaded_joint_ids c) (c_loaded_joint_n c)
    (c_loaded_joint_index c).

(** ** Members *)

Definition cetcd_peer_new (id : Z) (addr : bytes) (port : Z) : cetcd_peer_info := mk_peer id (take 255 addr) port false.

Definition cetcd_cluster_new (self_id : Z) : cetcd_cluster := mk_cluster self_id [] false false (replicate 16 0) 0 0.

Definition find_member (c : cetcd_cluster) (id : Z) : option (nat * cetcd_peer_info) :=
  list_find (fun p => p_id p = id) (c_peers c).

Definition cetcd_cluster_add_peer (c : cetcd_cluster) (info : cetcd_peer_info) : cetcd_cluster * cetcd_status :=
  if bool_decide (is_Some (find_member c (p_id info))) then (c, CETCD_ERR_EXISTS)
  else
    let p := cetcd_peer_new (p_id info) (p_addr info) (p_port info) in
    (c <| c_peers := c_peers c ++ [p <| p_is_learner := p_is_learner info |>] |>, CETCD_OK).

(** The last element moves into the gap. *)
Definition cetcd_cluster_remove_peer (c : cetcd_cluster) (id : Z) : cetcd_cluster * cetcd_status :=
  match find_member c id with
  | Some _ => (c <| c_peers := swap_remove p_id id (c_peers c) |>, CETCD_OK)
  | None => (c, CETCD_ERR_NOTFOUND)
  end.

Definition cetcd_cluster_set_sender (c : cetcd_cluster) (fn : bool) : cetcd_cluster := c <| c_send_fn := fn |>.

(** The call of the sender, if one is set. *)
Definition cetcd_cluster_send_msg (c : cetcd_cluster) (msg : bytes) (to_id : Z) : option (Z * bytes) :=
  if c_send_fn c then Some (to_id, msg) else None.

Definition cetcd_cluster_peer_count (c : cetcd_cluster) : Z := blen (c_peers c).

Definition cetcd_cluster_get_peer (c : cetcd_cluster) (id : Z) : option cetcd_peer_info := snd <$> find_member c id.

Definition cetcd_cluster_get_peer_by_index (c : cetcd_cluster) (index : nat) : option cetcd_peer_info := c_peers c !! index.

Definition cetcd_cluster_self_id (c : cetcd_cluster) : Z := c_self_id c.

Definition cetcd_cluster_voter_count (c : cetcd_cluster) : Z :=
  if c_self_id c =? 0 then 0
  else foldl (fun n p => if (p_id p =? c_self_id c) || p_is_learner p then n else u32 (n + 1)) 1 (c_peers c).

Definition cetcd_cluster_learner_count (c : cetcd_cluster) : Z :=
  foldl (fun n p => if p_is_learner p then u32 (n + 1) else n) 0 (c_peers c).

Definition cetcd_reconfig_may_remove (voter_count : Z) (target_is_learner : bool) : bool :=
  if target_is_learner then true
  else if voter_count =? 0 then false
  else
    let after := voter_count - 1 in
    let quorum := voter_count / 2 + 1 in
    quorum <=? after.

Definition cetcd_reconfig_check_remove (voter_count : Z) (target_is_learner strict : bool) : bool :=
  if negb strict then true else cetcd_reconfig_may_remove voter_count target_is_learner.

Definition cetcd_reconfig_may_add_learner (current_learners max_learners : Z) : bool := current_learners <? max_learners.

Definition set_member (c : cetcd_cluster) (i : nat) (p : cetcd_peer_info) : cetcd_cluster :=
  c <| c_peers := <[i := p]> (c_peers c) |>.

Definition cetcd_cluster_update_peer (c : cetcd_cluster) (id : Z) (info : cetcd_peer_info) : cetcd_cluster * cetcd_status :=
  match find_member c id with
  | Some (i, _) => (set_member c i (mk_peer (p_id info) (take 255 (p_addr info)) (p_port info) (p_is_learner info)), CETCD_OK)
  | None => (c, CETCD_ERR_NOTFOUND)
  end.

Definition cetcd_cluster_alloc_id (c : cetcd_cluster) : Z :=
  u64 (foldl (fun mx p => if mx <? p_id p then p_id p else mx) (c_self_id c) (c_peers c) + 1).

Definition cetcd_cluster_promote (c : cetcd_cluster) (id : Z) : cetcd_cluster * cetcd_status :=
  if id =? 0 then (c, CETCD_ERR_INVAL)
  else
    match find_member c id with
    | Some (i, p) =>
        if negb (p_is_learner p) then (c, CETCD_ERR_INVAL)
        else (set_member c i (p <| p_is_learner := false |>), CETCD_OK)
    | None => (c, CETCD_ERR_NOTFOUND)
    end.

(** ** Frames *)

Definition cetcd_msg_encode (raft_msg_raw : bytes) : bytes :=
  let be_len := u32 (blen raft_msg_raw) in
  [Z.land (Z.shiftr be_len 24) 255; Z.land (Z.shiftr be_len 16) 255; Z.land (Z.shiftr be_len 8) 255; Z.land be_len 255]
    ++ raft_msg_raw.

Definition cetcd_msg_decode (data : bytes) : cetcd_status * bytes :=
  if blen data <? 4 then (CETCD_ERR_INVAL, [])
  else
    let payload_len :=
      Z.lor (Z.lor (Z.lor (u32 (Z.shiftl (nth 0 data 0) 24)) (u32 (Z.shiftl (nth 1 data 0) 16)))
               (u32 (Z.shiftl (nth 2 data 0) 8))) (nth 3 data 0) in
    if blen data <? payload_len + 4 then (CETCD_ERR_CORRUPT, [])
    else (CETCD_OK, take (Z.to_nat payload_len) (drop 4 data)).

Definition cetcd_peer_is_rafthttp_path (path : bytes) : bool := streq path (bytes_of_string "/raft").

(** ** Persistence *)

Definition MEMBERS_BUCKET : string := "members".

Definition member_row (info : cetcd_peer_info) : bytes :=
  (if p_is_learner info then 1 else 0) :: Z.land (p_port info) 255 :: Z.land (Z.shiftr (p_port info) 8) 255 :: p_addr info.

Definition joint_row (ids : list Z) (joint_index : Z) : bytes :=
  write_le64_ joint_index ++ mjoin (write_le64_ <$> ids).

Definition cetcd_cluster_set_backend (c : cetcd_cluster) (be : bool) : cetcd_cluster := c <| c_backend := be |>.

Section Members.
  Context {E : Type} `{!Backend E}.

Definition cetcd_cluster_persist_peer (c : cetcd_cluster) (be : E) (info : cetcd_peer_info) : E * cetcd_status :=
  if p_id info =? 0 then (be, CETCD_ERR_INVAL)
  else if negb (c_backend c) then (be, CETCD_OK)
  else be_put be MEMBERS_BUCKET (write_le64_ (p_id info)) (member_row info).

Definition cetcd_cluster_persist_del (c : cetcd_cluster) (be : E) (id : Z) : E * cetcd_status :=
  if id =? 0 then (be, CETCD_ERR_INVAL)
  else if negb (c_backend c) then (be, CETCD_OK)
  else
    let '(be, rc) := be_del be MEMBERS_BUCKET (write_le64_ id) in
    (be, match rc with CETCD_ERR_NOTFOUND => CETCD_OK | _ => rc end).

(** The ids of a joint row: at most [n], as many as the bytes hold. *)
Fixpoint joint_ids (n : nat) (val : bytes) : list Z :=
  match n with
  | O => []
  | S n => if blen val <? 8 then [] else read_le64_ val 0 :: joint_ids n (drop 8 val)
  end.

(** The member a row describes. *)
Definition decode_member (id : Z) (val : bytes) : cetcd_peer_info :=
  mk_peer id (cstr (take 255 (drop 3 val))) (Z.lor (nth 1 val 0) (Z.shiftl (nth 2 val 0) 8)) (negb (nth 0 val 0 =? 0)).

Definition members_load_cb_ (key val : bytes) (ctx : cetcd_cluster * cetcd_status) : cetcd_cluster * cetcd_status * bool :=
  let '(c, rc0) := ctx in
  if negb (blen key =? 8) then (c, rc0, true)
  else
    let id := read_le64_ key 0 in
    if id =? 0 then
      if blen val <? 8 then (c, rc0, true)
      else
        let ids := joint_ids 16 (drop 8 val) in
        let c := c <| c_loaded_joint_index := read_le64_ val 0 |> in
        let c := c <| c_loaded_joint_ids := ids ++ drop (length ids) (c_loaded_joint_ids c) |> in
        (c <| c_loaded_joint_n := length ids |>, rc0, true)
    else if blen val <? 3 then (c, rc0, true)
    else
      let '(c, rc) := cetcd_cluster_add_peer c (decode_member id val) in
      (c, match rc with CETCD_OK | CETCD_ERR_EXISTS => rc0 | _ => rc end, true).

Definition cetcd_cluster_load (c : cetcd_cluster) (be : E) : cetcd_cluster * E * cetcd_status :=
  let c := c <| c_backend := true |> in
  let '(be, (c, ctx_rc), rc) := be_foreach be MEMBERS_BUCKET members_load_cb_ (c, CETCD_OK) in
  if negb (is_ok rc) && negb (bool_decide (rc = CETCD_ERR_NOTFOUND)) then (c, be, rc) else (c, be, ctx_rc).

Definition cetcd_cluster_persist_joint (c : cetcd_cluster) (be : E) (ids : list Z) (joint_index : Z) : E * cetcd_status :=
  if negb (c_backend c) then (be, CETCD_OK)
  else be_put be MEMBERS_BUCKET (replicate 8 0) (joint_row (take 16 ids) joint_index).

Definition cetcd_cluster_persist_clear_joint (c : cetcd_cluster) (be : E) : E * cetcd_status :=
  if negb (c_backend c) then (be, CETCD_OK)
  else
    let '(be, rc) := be_del be MEMBERS_BUCKET (replicate 8 0) in
    (be, match rc with CETCD_ERR_NOTFOUND => CETCD_OK | _ => rc end).

Definition cetcd_cluster_loaded_joint (c : cetcd_cluster) (cap : nat) : list Z * nat * Z :=
  (take (Nat.min cap (c_loaded_joint_n c)) (c_loaded_joint_ids c), c_loaded_joint_n c, c_loaded_joint_index c).

End Members.
