(* ===== verification/ClusterProps.v ===== *)
(** * Properties of the cluster membership

    The member array refines a finite map from ids to members, the voter and
    learner counts are the sizes of its parts, a fresh id is unused; loading
    the rows a cluster wrote restores the map and the joint phase; a frame
    decodes to its message. *)

From S2P Require Import Slice KeyOrder Treap Hashmap Backend Mvcc MvccSnap MvccWatch MvccLoad Lease LeaseProps LeaseRestart CString Cluster Prelude.

#[local] Open Scope Z_scope.

(** ** Abstraction *)

Definition members_of (c : cetcd_cluster) : gmap Z cetcd_peer_info :=
  list_to_map ((fun p => (p_id p, p)) <$> c_peers c).

Record peer_ok (p : cetcd_peer_info) : Prop := {
  pk_id : 0 < p_id p < 2 ^ 64;
  pk_addr : (length (p_addr p) <= 255)%nat /\ nul_free (p_addr p);
  pk_port : 0 <= p_port p < 65536
}.

Record cluster_ok (c : cetcd_cluster) : Prop := {
  co_nodup : NoDup (p_id <$> c_peers c);
  co_peers : Forall peer_ok (c_peers c)
}.

Lemma fst_pairs (l : list cetcd_peer_info) : ((fun p => (p_id p, p)) <$> l).*1 = p_id <$> l.
Proof. rewrite <- list_fmap_compose. by apply list_fmap_ext. Qed.

Lemma members_lookup c id p : NoDup (p_id <$> c_peers c) ->
  members_of c !! id = Some p <-> p ∈ c_peers c /\ p_id p = id.
Proof.
  intros Hnd. unfold members_of. rewrite <- elem_of_list_to_map by (by rewrite fst_pairs).
  rewrite list_elem_of_fmap. split; [intros (q & [= -> ->] & Hq); done|intros [Hp <-]; by exists p].
Qed.

Lemma members_ok c id p : cluster_ok c -> members_of c !! id = Some p -> peer_ok p /\ p_id p = id.
Proof.
  intros [Hnd Hf] [Hp Hid]%members_lookup; [|done]. rewrite Forall_forall in Hf. split; [by apply Hf|done].
Qed.

Lemma members_perm (l l' : list cetcd_peer_info) : NoDup (p_id <$> l) -> l ≡ₚ l' ->
  (list_to_map ((fun p => (p_id p, p)) <$> l) : gmap Z cetcd_peer_info) = list_to_map ((fun p => (p_id p, p)) <$> l').
Proof. intros Hnd Hp. apply list_to_map_proper; [by rewrite fst_pairs|by rewrite Hp]. Qed.

(** The linear search finds the member of the map. *)
Lemma find_member_spec c id : NoDup (p_id <$> c_peers c) ->
  match find_member c id with
  | Some (i, p) => c_peers c !! i = Some p /\ members_of c !! id = Some p
  | None => members_of c !! id = None
  end.
Proof.
  intros Hnd. unfold find_member. destruct (list_find _ _) as [[i p]|] eqn:Hf.
  - apply list_find_Some in Hf as (Hi & Hp & _). split; [done|]. apply members_lookup; [done|].
    split; [by eapply list_elem_of_lookup_2|done].
  - apply list_find_None in Hf. rewrite Forall_forall in Hf. apply eq_None_not_Some. intros [p Hp].
    apply members_lookup in Hp as [Hp1 Hp2]; [|done]. by apply (Hf p).
Qed.

Lemma get_peer_spec c id : cluster_ok c -> cetcd_cluster_get_peer c id = members_of c !! id.
Proof.
  intros [Hnd _]. unfold cetcd_cluster_get_peer. pose proof (find_member_spec c id Hnd) as Hf.
  destruct (find_member c id) as [[i p]|]; cbn; [by destruct Hf|done].
Qed.

(** Replacing the member at its own position. *)
Lemma set_member_spec c i p q : cluster_ok c -> c_peers c !! i = Some p -> p_id q = p_id p -> peer_ok q ->
  cluster_ok (set_member c i q) /\ members_of (set_member c i q) = <[p_id p := q]> (members_of c).
Proof.
  intros [Hnd Hf] Hi Hid Hq.
  assert (Hids : p_id <$> <[i := q]> (c_peers c) = p_id <$> c_peers c).
  { rewrite list_fmap_insert, Hid. apply list_insert_id. by rewrite list_lookup_fmap, Hi. }
  assert (Hok : cluster_ok (set_member c i q)) by (split; cbn; [by rewrite Hids|by apply Forall_insert]).
  split; [done|]. apply map_eq. intros id. apply option_eq. intros r.
  rewrite members_lookup by apply Hok. cbn. rewrite lookup_insert_Some, members_lookup by done.
  rewrite list_elem_of_lookup. setoid_rewrite list_lookup_insert_Some. pose proof (lookup_lt_Some _ _ _ Hi) as Hlt.
  assert (Huniq : forall j r', c_peers c !! j = Some r' -> p_id r' = p_id p -> j = i).
  { intros j r' Hj Hr. apply (proj1 (NoDup_alt _) Hnd j i (p_id p)); rewrite list_lookup_fmap, ?Hj, ?Hi; cbn; by rewrite ?Hr. }
  split.
  - intros [(j & [(<- & <- & _)|[Hji Hj]]) Hr]; [left; by rewrite <- Hr, Hid|].
    right. split; [intros Hx; apply Hji; symmetry; eapply Huniq; [done|congruence]|]. split; [by eapply list_elem_of_lookup_2|done].
  - intros [[<- <-]|[Hne [[j Hj]%list_elem_of_lookup Hr]]]; [split; [exists i; by left|done]|].
    split; [|done]. exists j. right. split; [|done]. intros ->. rewrite Hi in Hj. injection Hj as <-. done.
Qed.

(** ** Operations *)

Lemma elem_of_lfilter {A} (f : A -> bool) (l : list A) x : x ∈ List.filter f l <-> x ∈ l /\ f x = true.
Proof. by rewrite !list_elem_of_In, filter_In. Qed.


Definition clip_peer (p : cetcd_peer_info) : cetcd_peer_info := p <| p_addr := take 255 (p_addr p) |>.

Lemma clip_ok p : peer_ok p -> clip_peer p = p.
Proof. intros [_ [Hl _] _]. unfold clip_peer. rewrite take_ge by lia. by destruct p. Qed.

Lemma add_peer_spec c info : cluster_ok c -> peer_ok info ->
  match members_of c !! p_id info with
  | Some _ => cetcd_cluster_add_peer c info = (c, CETCD_ERR_EXISTS)
  | None => exists c', cetcd_cluster_add_peer c info = (c', CETCD_OK) /\ cluster_ok c' /\
      members_of c' = <[p_id info := info]> (members_of c) /\ c' = c <| c_peers := c_peers c ++ [info] |>
  end.
Proof.
  intros [Hnd Hf] Hi. unfold cetcd_cluster_add_peer. pose proof (find_member_spec c (p_id info) Hnd) as Hs.
  destruct (find_member c (p_id info)) as [[i p]|].
  { destruct Hs as [_ ->]. by rewrite bool_decide_true by eauto. }
  rewrite Hs, bool_decide_false by (by intros [? [=]]).
  assert ((cetcd_peer_new (p_id info) (p_addr info) (p_port info)) <| p_is_learner := p_is_learner info |> = info) as ->
    by (pose proof (clip_ok info Hi) as Hclip; destruct info; exact Hclip).
  eexists. split; [done|].
  assert (Hnew : p_id info ∉ p_id <$> c_peers c).
  { intros (q & Hq & Hin)%list_elem_of_fmap. assert (members_of c !! p_id info = Some q) by (by apply members_lookup). congruence. }
  assert (Hok : cluster_ok (c <| c_peers := c_peers c ++ [info] |>)).
  { split; cbn; [|apply Forall_app; split; [done|by constructor]].
    rewrite fmap_app. apply NoDup_app. split_and!; [done| |apply NoDup_singleton].
    intros x Hx Hx'%list_elem_of_singleton. cbn in Hx'. by subst. }
  split_and!; [done| |done].
  apply map_eq. intros id. apply option_eq. intros r. rewrite members_lookup by apply Hok. cbn.
  rewrite lookup_insert_Some, members_lookup by done. rewrite elem_of_app, list_elem_of_singleton. split.
  - intros [[Hin| ->] Hr]; [|by left]. right. split; [|done]. intros <-. apply Hnew. rewrite <- Hr. by apply list_elem_of_fmap_2.
  - intros [[<- <-]|[_ [Hin Hr]]]; [by split; [right|]|by split; [left|]].
Qed.

Lemma remove_peer_spec c id : cluster_ok c ->
  let '(c', rc) := cetcd_cluster_remove_peer c id in
  cluster_ok c' /\ members_of c' = delete id (members_of c) /\
  rc = match members_of c !! id with Some _ => CETCD_OK | None => CETCD_ERR_NOTFOUND end.
Proof.
  intros Hok. pose proof Hok as [Hnd Hf]. unfold cetcd_cluster_remove_peer. pose proof (find_member_spec c id Hnd) as Hs.
  destruct (find_member c id) as [[i p]|]; [destruct Hs as [_ ->]|rewrite Hs; split_and!; [done|by rewrite delete_id|done]].
  pose proof (swap_remove_spec p_id id (c_peers c) Hnd) as Hp.
  assert (Hok' : cluster_ok (c <| c_peers := swap_remove p_id id (c_peers c) |>)).
  { split; cbn; rewrite Hp; [|apply Forall_forall; intros q [Hq _]%elem_of_lfilter; by apply (proj1 (Forall_forall _ _) Hf)]. clear -Hnd.
    induction (c_peers c) as [|q l IH]; cbn in *; [constructor|]. apply NoDup_cons in Hnd as [H1 H2].
    destruct (negb _); cbn; [|by apply IH]. apply NoDup_cons. split; [|by apply IH].
    intros (r & Hr & Hin)%list_elem_of_fmap. apply H1. rewrite Hr. apply list_elem_of_fmap_2.
    by apply elem_of_lfilter in Hin as [Hin _]. }
  split_and!; [done| |done]. apply map_eq. intros id'. apply option_eq. intros r.
  rewrite members_lookup by apply Hok'. cbn. rewrite Hp, lookup_delete_Some, members_lookup by done.
  rewrite elem_of_lfilter, negb_true_iff, Z.eqb_neq. naive_solver.
Qed.

Lemma update_peer_spec c id info : cluster_ok c -> peer_ok info -> p_id info = id ->
  let '(c', rc) := cetcd_cluster_update_peer c id info in
  cluster_ok c' /\
  match members_of c !! id with
  | Some _ => rc = CETCD_OK /\ members_of c' = <[id := info]> (members_of c)
  | None => rc = CETCD_ERR_NOTFOUND /\ c' = c
  end.
Proof.
  intros Hok Hi Hid. unfold cetcd_cluster_update_peer. pose proof (find_member_spec c id ltac:(apply Hok)) as Hs.
  destruct (find_member c id) as [[i p]|]; [|by rewrite Hs]. destruct Hs as [Hp Hm]. rewrite Hm.
  assert (mk_peer (p_id info) (take 255 (p_addr info)) (p_port info) (p_is_learner info) = info) as ->
    by (pose proof (clip_ok info Hi) as Hclip; destruct info; exact Hclip).
  pose proof (members_ok c id p Hok Hm) as [_ Hpid].
  destruct (set_member_spec c i p info Hok Hp ltac:(congruence) Hi) as [H1 H2]. rewrite Hpid in H2. done.
Qed.

Lemma promote_spec c id : cluster_ok c -> id <> 0 ->
  let '(c', rc) := cetcd_cluster_promote c id in
  cluster_ok c' /\
  match members_of c !! id with
  | Some p => if p_is_learner p
              then rc = CETCD_OK /\ members_of c' = <[id := p <| p_is_learner := false |>]> (members_of c)
              else rc = CETCD_ERR_INVAL /\ c' = c
  | None => rc = CETCD_ERR_NOTFOUND /\ c' = c
  end.
Proof.
  intros Hok Hid. unfold cetcd_cluster_promote. rewrite (proj2 (Z.eqb_neq id 0)) by done.
  pose proof (find_member_spec c id ltac:(apply Hok)) as Hs.
  destruct (find_member c id) as [[i p]|]; [|by rewrite Hs]. destruct Hs as [Hp Hm]. rewrite Hm.
  destruct (p_is_learner p) eqn:Hl; [|done]. cbn [negb]. pose proof (members_ok c id p Hok Hm) as [[P1 P2 P3] Hpid].
  destruct (set_member_spec c i p (p <| p_is_learner := false |>) Hok Hp) as [H1 H2]; [done|by split|].
  rewrite Hpid in H2. done.
Qed.

(** A counting loop with a 32-bit counter. *)
Lemma count_loop (skip : cetcd_peer_info -> bool) l : forall n, 0 <= n -> n + blen l < 2 ^ 32 ->
  foldl (fun n p => if skip p then n else u32 (n + 1)) n l = n + blen (List.filter (fun p => negb (skip p)) l).
Proof.
  induction l as [|p l IH]; intros n Hn Hb; [unfold blen; cbn; lia|]. rewrite blen_cons in Hb.
  pose proof (blen_nonneg l). cbn [foldl List.filter]. destruct (skip p); cbn [negb].
  - apply IH; lia.
  - rewrite u32_small by (unfold in_u32; lia). rewrite IH, blen_cons by lia. lia.
Qed.

Lemma max_loop l : forall mx, let r := foldl (fun mx p => if mx <? p_id p then p_id p else mx) mx l in
  mx <= r /\ Forall (fun p => p_id p <= r) l /\ (r = mx \/ exists p, p ∈ l /\ r = p_id p).
Proof.
  induction l as [|p l IH]; intros mx; cbn [foldl]; [split_and!; [lia|constructor|by left]|].
  destruct (Z.ltb_spec mx (p_id p)) as [Hp|Hp].
  - destruct (IH (p_id p)) as (H1 & H2 & H3). split_and!; [lia|by constructor|]. right.
    destruct H3 as [-> |(q & Hq & Hr)]; [exists p; split; [left|done]|exists q; split; [by right|done]].
  - destruct (IH mx) as (H1 & H2 & H3). split_and!; [done|constructor; [lia|done]|].
    destruct H3 as [H3|(q & Hq & Hr)]; [by left|right; exists q; split; [by right|done]].
Qed.

Lemma learner_count_spec c : blen (c_peers c) < 2 ^ 31 ->
  cetcd_cluster_learner_count c = blen (List.filter p_is_learner (c_peers c)).
Proof.
  intros Hb. unfold cetcd_cluster_learner_count.
  transitivity (foldl (fun n p => if negb (p_is_learner p) then n else u32 (n + 1)) 0 (c_peers c)).
  - generalize 0. clear. induction (c_peers c) as [|p l IH]; intros n; [done|]. cbn. rewrite IH. by destruct (p_is_learner p).
  - rewrite count_loop by lia. rewrite Z.add_0_l. f_equal. apply List.filter_ext. intros p. apply negb_involutive.
Qed.

Lemma alloc_id_fresh c : cluster_ok c -> 0 < c_self_id c < 2 ^ 64 ->
  c_self_id c < 2 ^ 64 - 1 /\ Forall (fun p => p_id p < 2 ^ 64 - 1) (c_peers c) ->
  members_of c !! cetcd_cluster_alloc_id c = None /\ cetcd_cluster_alloc_id c <> c_self_id c.
Proof.
  intros Hok Hself [Hs Hf]. unfold cetcd_cluster_alloc_id. destruct (max_loop (c_peers c) (c_self_id c)) as (X1 & X2 & X3).
  set (r := foldl _ _ _) in *. rewrite Forall_forall in X2, Hf.
  assert (Hr : r < 2 ^ 64 - 1) by (destruct X3 as [-> |(p & Hp & ->)]; [done|by apply Hf]).
  rewrite u64_small by (unfold in_u64; lia). split; [|lia]. apply eq_None_not_Some. intros [p Hp].
  apply members_lookup in Hp as [Hp1 Hp2]; [|apply Hok]. pose proof (X2 p Hp1). lia.
Qed.

Lemma may_remove_spec v : 0 < v -> cetcd_reconfig_check_remove v false true = true <-> 2 * (v - 1) > v.
Proof.
  intros Hv. unfold cetcd_reconfig_check_remove, cetcd_reconfig_may_remove. cbn [negb].
  rewrite (proj2 (Z.eqb_neq v 0)), Z.leb_le by lia.
  pose proof (Z.div_mod v 2 ltac:(lia)). pose proof (Z.mod_pos_bound v 2 ltac:(lia)). lia.
Qed.

(** The member list refines a finite map.  Adding, updating, promoting and
    removing a member change the map from ids to members as specified on every
    branch and keep ids distinct; the counts are the numbers of voters (with
    the node itself) and learners; an allocated id is used by no member; and a
    voter may be removed under strict reconfiguration exactly when the
    remaining voters are still a majority of the old ones. *)
Theorem cluster_refines (c : cetcd_cluster) (info : cetcd_peer_info) (Hok : cluster_ok c) (Hinfo : peer_ok info)
  (Hself : 0 < c_self_id c < 2 ^ 64) (Hmany : blen (c_peers c) < 2 ^ 31)
  (Hids : c_self_id c < 2 ^ 64 - 1 /\ Forall (fun p => p_id p < 2 ^ 64 - 1) (c_peers c)) :
  let id := p_id info in let M := members_of c in
  (let '(c', rc) := cetcd_cluster_add_peer c info in
   cluster_ok c' /\ match M !! id with
                    | Some _ => rc = CETCD_ERR_EXISTS /\ members_of c' = M
                    | None => rc = CETCD_OK /\ members_of c' = <[id := info]> M end) /\
  (let '(c', rc) := cetcd_cluster_update_peer c id info in
   cluster_ok c' /\ match M !! id with
                    | Some _ => rc = CETCD_OK /\ members_of c' = <[id := info]> M
                    | None => rc = CETCD_ERR_NOTFOUND /\ members_of c' = M end) /\
  (let '(c', rc) := cetcd_cluster_promote c id in
   cluster_ok c' /\ match M !! id with
                    | Some p => members_of c' = <[id := p <| p_is_learner := false |>]> M /\ (rc = CETCD_OK <-> p_is_learner p = true)
                    | None => rc = CETCD_ERR_NOTFOUND /\ members_of c' = M end) /\
  (let '(c', rc) := cetcd_cluster_remove_peer c id in
   cluster_ok c' /\ members_of c' = delete id M /\ (rc = CETCD_OK <-> is_Some (M !! id))) /\
  cetcd_cluster_get_peer c id = M !! id /\
  cetcd_cluster_voter_count c = 1 + blen (List.filter (fun p => negb ((p_id p =? c_self_id c) || p_is_learner p)) (c_peers c)) /\
  cetcd_cluster_learner_count c = blen (List.filter p_is_learner (c_peers c)) /\
  (M !! cetcd_cluster_alloc_id c = None /\ cetcd_cluster_alloc_id c <> c_self_id c) /\
  (cetcd_reconfig_check_remove (cetcd_cluster_voter_count c) false true = true <->
   2 * (cetcd_cluster_voter_count c - 1) > cetcd_cluster_voter_count c).
Proof.
  intros id M. pose proof (blen_nonneg (c_peers c)) as Hnn.
  assert (Hvc : cetcd_cluster_voter_count c =
    1 + blen (List.filter (fun p => negb ((p_id p =? c_self_id c) || p_is_learner p)) (c_peers c))).
  { unfold cetcd_cluster_voter_count. rewrite (proj2 (Z.eqb_neq _ _)) by lia. apply count_loop; lia. }
  split_and!.
  - pose proof (add_peer_spec c info Hok Hinfo) as Ha. fold id M in Ha. destruct (M !! id); [by rewrite Ha|].
    by destruct Ha as (c' & -> & ? & ? & _).
  - pose proof (update_peer_spec c id info Hok Hinfo eq_refl) as Hu. destruct (cetcd_cluster_update_peer c id info) as [c' rc].
    fold M in Hu. destruct Hu as [? Hu]. split; [done|]. destruct (M !! id); [done|]. by destruct Hu as [-> ->].
  - pose proof (promote_spec c id Hok ltac:(pose proof (pk_id info Hinfo); unfold id; lia)) as Hp.
    destruct (cetcd_cluster_promote c id) as [c' rc]. fold M in Hp. destruct Hp as [? Hp]. split; [done|].
    destruct (M !! id) as [p|] eqn:HM; [|by destruct Hp as [-> ->]].
    destruct (p_is_learner p) eqn:Hl; [by destruct Hp as [-> ->]|]. destruct Hp as [-> ->]. split; [|done].
    rewrite insert_id; [done|]. fold M. rewrite HM. f_equal. destruct p. cbn in *. by subst.
  - pose proof (remove_peer_spec c id Hok) as Hr. destruct (cetcd_cluster_remove_peer c id) as [c' rc]. fold M in Hr.
    destruct Hr as (? & ? & ->). split_and!; [done|done|]. destruct (M !! id); [split; [by eauto|done]|split; [done|by intros [? [=]]]].
  - by apply get_peer_spec.
  - done.
  - apply learner_count_spec. lia.
  - by apply alloc_id_fresh.
  - pose proof (alloc_id_fresh c Hok Hself Hids) as [_ ?]. done.
  - apply may_remove_spec. rewrite Hvc. set (l := List.filter _ _). pose proof (blen_nonneg l). lia.
Qed.

(** ** Frames *)

Lemma lor_bytes b0 b1 b2 b3 : in_u8 b0 -> in_u8 b1 -> in_u8 b2 -> in_u8 b3 ->
  Z.lor (Z.lor (Z.lor (Z.shiftl b3 24) (Z.shiftl b2 16)) (Z.shiftl b1 8)) b0 = b0 + b1 * 2 ^ 8 + b2 * 2 ^ 16 + b3 * 2 ^ 24.
Proof.
  unfold in_u8. intros.
  replace (Z.lor _ b0) with (Z.lor (Z.lor (Z.lor b0 (Z.shiftl b1 8)) (Z.shiftl b2 16)) (Z.shiftl b3 24))
    by (apply Z.bits_inj'; intros; rewrite !Z.lor_spec; by repeat destruct (Z.testbit _ _)).
  rewrite (lor_shiftl_add b0 b1 8), (lor_shiftl_add _ b2 16), (lor_shiftl_add _ b3 24) by lia. done.
Qed.

Lemma be32_parts n : 0 <= n < 2 ^ 32 ->
  Z.lor (Z.lor (Z.lor (u32 (Z.shiftl (Z.land (Z.shiftr n 24) 255) 24)) (u32 (Z.shiftl (Z.land (Z.shiftr n 16) 255) 16)))
    (u32 (Z.shiftl (Z.land (Z.shiftr n 8) 255) 8))) (Z.land n 255) = n.
Proof.
  intros Hn. change 255 with (Z.ones 8). rewrite !Z.land_ones, !Z.shiftr_div_pow2 by lia.
  assert (Hb : forall x, in_u8 (x mod 2 ^ 8)) by (intros x; apply (Z.mod_pos_bound x 256); lia).
  assert (Hu : forall x k, 0 <= k <= 24 -> u32 (Z.shiftl (x mod 2 ^ 8) k) = Z.shiftl (x mod 2 ^ 8) k).
  { intros x k Hk. apply u32_small. rewrite Z.shiftl_mul_pow2 by lia. pose proof (Hb x) as Hx. unfold in_u8, in_u32 in *.
    pose proof (Z.pow_le_mono_r 2 k 24 ltac:(lia) ltac:(lia)). pose proof (Z.pow_pos_nonneg 2 k ltac:(lia) ltac:(lia)). nia. }
  rewrite !Hu by lia. rewrite lor_bytes by apply Hb. change (2 ^ 24) with (2 ^ 8 * 2 ^ 16). change (2 ^ 16) with (2 ^ 8 * 2 ^ 8).
  rewrite <- !Z.div_div by lia.
  pose proof (Z.div_mod n (2 ^ 8) ltac:(lia)). pose proof (Z.div_mod (n / 2 ^ 8) (2 ^ 8) ltac:(lia)).
  pose proof (Z.div_mod (n / 2 ^ 8 / 2 ^ 8) (2 ^ 8) ltac:(lia)).
  rewrite (Z.mod_small (n / 2 ^ 8 / 2 ^ 8 / 2 ^ 8)) by (rewrite !Z.div_div by lia; split; [apply Z.div_pos; lia|apply Z.div_lt_upper_bound; lia]).
  lia.
Qed.

(** A frame decodes to its message, whatever follows it; a frame cut short
    is refused. *)
Lemma frame_roundtrip (msg rest : bytes) : blen msg < 2 ^ 32 ->
  cetcd_msg_decode (cetcd_msg_encode msg ++ rest) = (CETCD_OK, msg) /\
  forall n, (n < length (cetcd_msg_encode msg))%nat -> (cetcd_msg_decode (take n (cetcd_msg_encode msg))).1 <> CETCD_OK.
Proof.
  intros Hm. pose proof (blen_nonneg msg) as Hnn. unfold cetcd_msg_encode. rewrite u32_small by (unfold in_u32; lia). split.
  - unfold cetcd_msg_decode. cbn [app nth drop]. rewrite be32_parts by lia.
    rewrite !blen_cons, blen_app. pose proof (blen_nonneg rest).
    rewrite !(proj2 (Z.ltb_ge _ _)) by lia. f_equal. unfold blen. rewrite Nat2Z.id. apply take_app_length.
  - intros n Hn. set (b0 := Z.land _ _) at 1. set (b1 := Z.land _ _) at 1. set (b2 := Z.land _ _) at 1. set (b3 := Z.land _ _) at 1.
    destruct n as [|[|[|[|n]]]]; [done..|]. unfold cetcd_msg_decode. cbn [app take nth]. cbn [app length] in Hn.
    unfold b0, b1, b2, b3. rewrite be32_parts by lia. rewrite !blen_cons. unfold blen. rewrite length_take.
    rewrite (proj2 (Z.ltb_ge _ 4)), (proj2 (Z.ltb_lt _ _)) by lia. done.
Qed.

(** ** Rows of the members bucket *)

Definition joint_ok (ids : list Z) (idx : Z) : Prop := (length ids <= 16)%nat /\ Forall in_u64 ids /\ in_u64 idx.

(** The bucket holds the rows of the members [M] and, when [J] is some joint
    phase, its row. *)
Definition rows_hold (M : gmap Z cetcd_peer_info) (J : option (list Z * Z)) (b : gmap bytes bytes) : Prop :=
  forall k v, b !! k = Some v <->
    (exists p, M !! p_id p = Some p /\ k = write_le64_ (p_id p) /\ v = member_row p) \/
    (exists ids idx, J = Some (ids, idx) /\ k = replicate 8 0 /\ v = joint_row ids idx).

Definition row_good (k v : bytes) : Prop :=
  (exists p, peer_ok p /\ k = write_le64_ (p_id p) /\ v = member_row p) \/
  (exists ids idx, joint_ok ids idx /\ k = replicate 8 0 /\ v = joint_row ids idx).

Lemma zero_key : write_le64_ 0 = replicate 8 0.
Proof. reflexivity. Qed.

Lemma read_id0 id : in_u64 id -> read_le64_ (write_le64_ id) 0 = id.
Proof. intros Hid. rewrite <- (app_nil_r (write_le64_ id)). by apply read_id. Qed.

Lemma decode_member_row p : peer_ok p -> decode_member (p_id p) (member_row p) = p.
Proof.
  intros [Hid [Hl Hz] Hport]. unfold decode_member, member_row. cbn [nth drop]. rewrite take_ge, cstr_id by (done || lia).
  change 255 with (Z.ones 8). rewrite !Z.land_ones, Z.shiftr_div_pow2 by lia.
  rewrite lor_shiftl_add by (try apply Z.mod_pos_bound; lia).
  rewrite (Z.mod_small (p_port p / 2 ^ 8)) by (split; [apply Z.div_pos; lia|apply Z.div_lt_upper_bound; lia]).
  pose proof (Z.div_mod (p_port p) (2 ^ 8) ltac:(lia)).
  replace (_ + _) with (p_port p) by lia. by destruct p as [? ? ? []].
Qed.

Lemma member_row_loads c p rc0 : peer_ok p ->
  members_load_cb_ (write_le64_ (p_id p)) (member_row p) (c, rc0) =
  let '(c', rc) := cetcd_cluster_add_peer c p in
  (c', match rc with CETCD_OK | CETCD_ERR_EXISTS => rc0 | _ => rc end, true).
Proof.
  intros Hok. pose proof Hok as [Hid _ _]. unfold members_load_cb_. unfold blen at 1. rewrite write_le64_length.
  rewrite read_id0 by (unfold in_u64; lia). rewrite (proj2 (Z.eqb_neq (p_id p) 0)) by lia.
  assert (blen (member_row p) <? 3 = false) as ->
    by (unfold member_row; rewrite !blen_cons; pose proof (blen_nonneg (p_addr p)); apply Z.ltb_ge; lia).
  change (negb (Z.of_nat 8 =? 8)) with false. cbn [negb]. by rewrite decode_member_row.
Qed.

(** Equal rows are rows of equal members. *)
Lemma member_row_inj p q : peer_ok p -> peer_ok q -> write_le64_ (p_id p) = write_le64_ (p_id q) ->
  member_row p = member_row q -> p = q.
Proof.
  intros Hp Hq Hk Hv. pose proof (pk_id p Hp). pose proof (pk_id q Hq).
  apply write_le64_inj in Hk; [|unfold in_u64; lia..].
  by rewrite <- (decode_member_row p Hp), <- (decode_member_row q Hq), Hk, Hv.
Qed.

Lemma member_key_nonzero p : peer_ok p -> write_le64_ (p_id p) <> replicate 8 0.
Proof.
  intros [Hid _ _] Hx. rewrite <- zero_key in Hx. apply write_le64_inj in Hx; unfold in_u64; lia.
Qed.

Lemma joint_ids_row ids n : Forall in_u64 ids -> (length ids <= n)%nat -> joint_ids n (mjoin (write_le64_ <$> ids)) = ids.
Proof.
  intros Hu. revert n. induction Hu as [|i ids Hi Hu IH]; intros n Hn; [destruct n; done|].
  destruct n as [|n]; [cbn in Hn; lia|]. cbn [fmap list_fmap joint_ids].
  change (mjoin (write_le64_ i :: (write_le64_ <$> ids))) with (write_le64_ i ++ mjoin (write_le64_ <$> ids)).
  rewrite blen_app. unfold blen at 1. rewrite write_le64_length. pose proof (blen_nonneg (mjoin (write_le64_ <$> ids))).
  rewrite (proj2 (Z.ltb_ge _ _)) by lia. rewrite read_id by done.
  rewrite drop_app_length' by (by rewrite write_le64_length). rewrite IH; [done|]. cbn in Hn. lia.
Qed.

Definition with_joint (c : cetcd_cluster) (ids : list Z) (idx : Z) : cetcd_cluster :=
  ((c <| c_loaded_joint_index := idx |>) <| c_loaded_joint_ids := ids ++ drop (length ids) (c_loaded_joint_ids c) |>)
    <| c_loaded_joint_n := length ids |>.

Lemma joint_row_loads c ids idx rc0 : joint_ok ids idx ->
  members_load_cb_ (replicate 8 0) (joint_row ids idx) (c, rc0) = (with_joint c ids idx, rc0, true).
Proof.
  intros (Hn & Hu & Hi). unfold members_load_cb_. change (negb (blen (replicate 8 0) =? 8)) with false. cbn iota.
  change (read_le64_ (replicate 8 0) 0 =? 0) with true. cbn iota. unfold joint_row.
  rewrite blen_app. unfold blen at 1. rewrite write_le64_length. pose proof (blen_nonneg (mjoin (write_le64_ <$> ids))).
  rewrite (proj2 (Z.ltb_ge _ _)) by lia. rewrite drop_app_length' by (by rewrite write_le64_length).
  rewrite read_id by done. rewrite joint_ids_row by done. done.
Qed.

Lemma joint_row_inj ids idx ids' idx' : joint_ok ids idx -> joint_ok ids' idx' -> joint_row ids idx = joint_row ids' idx' ->
  ids = ids' /\ idx = idx'.
Proof.
  intros (A1 & A2 & A3) (B1 & B2 & B3) Heq. unfold joint_row in Heq.
  apply app_inj_1 in Heq as [Hi Hr]; [|by rewrite !write_le64_length]. apply write_le64_inj in Hi; [|done..].
  split; [|done]. rewrite <- (joint_ids_row ids 16 A2 A1), Hr. by apply joint_ids_row.
Qed.

Abbreviation loaded c := (cetcd_cluster_loaded_joint c 16).

Lemma loaded_with_joint c ids idx : joint_ok ids idx -> loaded (with_joint c ids idx) = (ids, length ids, idx).
Proof. intros (Hn & _). unfold cetcd_cluster_loaded_joint, with_joint. cbn [c_loaded_joint_n c_loaded_joint_ids c_loaded_joint_index field_set]. rewrite Nat.min_r by lia. by rewrite take_app_length. Qed.

(** One row: what it adds to the members and to the joint phase. *)
Lemma load_row c rc0 k v : cluster_ok c -> row_good k v ->
  (forall id, is_Some (members_of c !! id) -> write_le64_ id <> k) ->
  exists c', members_load_cb_ k v (c, rc0) = (c', rc0, true) /\ cluster_ok c' /\
    (forall id p, members_of c' !! id = Some p <->
       members_of c !! id = Some p \/ (peer_ok p /\ p_id p = id /\ (write_le64_ id, member_row p) = (k, v))) /\
    (forall ids idx, joint_ok ids idx -> (replicate 8 0, joint_row ids idx) = (k, v) -> loaded c' = (ids, length ids, idx)) /\
    (k <> replicate 8 0 -> loaded c' = loaded c).
Proof.
  intros Hok [(p & Hp & -> & ->)|(ids & idx & Hj & -> & ->)] Hfresh.
  - rewrite member_row_loads by done. pose proof (add_peer_spec c p Hok Hp) as Ha.
    destruct (members_of c !! p_id p) as [q|] eqn:Hm; [exfalso; by apply (Hfresh (p_id p)); [rewrite Hm; eauto|]|].
    destruct Ha as (c' & -> & Hok' & Hm' & Hc'). exists c'. split_and!; [done|done| | |by rewrite Hc'].
    + intros id q. rewrite Hm', lookup_insert_Some. split.
      * intros [[<- <-]|[_ Hq]]; [by right|by left].
      * intros [Hq|(Hq & <- & Heq)].
        -- right. split; [|done]. intros <-. congruence.
        -- left. assert (q = p) as ->; [|done]. apply member_row_inj; try done; [by apply (f_equal fst) in Heq|by apply (f_equal snd) in Heq].
    + intros ids idx _ Heq. exfalso. apply (member_key_nonzero p Hp). by apply (f_equal fst) in Heq.
  - rewrite joint_row_loads by done. exists (with_joint c ids idx). split_and!; [done|by destruct Hok| | |done].
    + intros id p. split; [by left|]. intros [?|(Hp & <- & Heq)]; [done|]. exfalso.
      apply (member_key_nonzero p Hp). by apply (f_equal fst) in Heq.
    + intros ids' idx' Hj' Heq. apply (f_equal snd) in Heq. cbn [snd] in Heq.
      apply joint_row_inj in Heq as [-> ->]; [|done..]. by apply loaded_with_joint.
Qed.

Lemma load_rows es : forall c rc0, cluster_ok c -> NoDup es.*1 -> Forall (fun kv => row_good kv.1 kv.2) es ->
  (forall id, is_Some (members_of c !! id) -> write_le64_ id ∉ es.*1) ->
  exists c', (fold_stop (fun kv => members_load_cb_ kv.1 kv.2) es (c, rc0)).1 = (c', rc0) /\ cluster_ok c' /\
    (forall id p, members_of c' !! id = Some p <->
       members_of c !! id = Some p \/ (peer_ok p /\ p_id p = id /\ (write_le64_ id, member_row p) ∈ es)) /\
    (forall ids idx, joint_ok ids idx -> (replicate 8 0, joint_row ids idx) ∈ es -> loaded c' = (ids, length ids, idx)) /\
    (replicate 8 0 ∉ es.*1 -> loaded c' = loaded c).
Proof.
  induction es as [|[k v] es IH]; intros c rc0 Hok Hnd Hgood Hfresh; cbn [fold_stop].
  { exists c. split_and!; try done; [|by intros ids idx _ ?%not_elem_of_nil].
    intros id p. split; [by left|]. intros [?|(_ & _ & ?%not_elem_of_nil)]; done. }
  apply Forall_cons in Hgood as [Hkv Hgood]. cbn [fst snd fmap list_fmap] in *. apply NoDup_cons in Hnd as [Hk Hnd].
  destruct (load_row c rc0 k v Hok Hkv) as (c1 & -> & Hok1 & Hm1 & Hj1 & Hn1).
  { intros id Hid Hx. apply (Hfresh id Hid). rewrite Hx. by left. }
  cbn [negb]. destruct (IH c1 rc0 Hok1 Hnd Hgood) as (c' & Hr & Hok' & Hm' & Hj' & Hn').
  { intros id [p Hp] Hin. apply Hm1 in Hp as [Hp|(_ & _ & Heq)].
    - by apply (Hfresh id ltac:(eauto)); right.
    - apply (f_equal fst) in Heq. cbn [fst] in Heq. by rewrite Heq in Hin. }
  exists c'. split_and!; [done|done| | |].
  - intros id p. rewrite Hm', Hm1, elem_of_cons. naive_solver.
  - intros ids idx Hj [Heq|Hin]%elem_of_cons; [|by apply Hj'].
    rewrite Hn'; [by apply Hj1|]. apply (f_equal fst) in Heq. cbn [fst] in Heq. by rewrite Heq.
  - intros [Hne Hnin]%not_elem_of_cons. rewrite Hn', Hn1; done.
Qed.

(** ** Persistence *)

Section Restart.
  Context {E : Type} `{!Backend E, !BackendLaws E}.

Definition members_bucket (e : E) : gmap bytes bytes := be_view e MEMBERS_BUCKET.

(** The members a cluster has persisted: all of them are well formed, and so
    is the joint phase. *)
Definition persisted_ok (M : gmap Z cetcd_peer_info) (J : option (list Z * Z)) : Prop :=
  map_Forall (fun id p => peer_ok p /\ p_id p = id) M /\ match J with Some (ids, idx) => joint_ok ids idx | None => True end.

Lemma rows_good M J b k v : persisted_ok M J -> rows_hold M J b -> b !! k = Some v -> row_good k v.
Proof.
  intros [HM HJ] Hb Hk. apply Hb in Hk as [(p & Hp & -> & ->)|(ids & idx & -> & -> & ->)].
  - left. exists p. split_and!; [by apply (HM _ _ Hp)|done|done].
  - right. by exists ids, idx.
Qed.

Lemma cluster_load_rows (c : cetcd_cluster) (e : E) M J : c_peers c = [] -> persisted_ok M J ->
  rows_hold M J (members_bucket e) -> (be_foreach e MEMBERS_BUCKET members_load_cb_ (c <| c_backend := true |>, CETCD_OK)).2 = CETCD_OK ->
  let '(c', _, rc) := cetcd_cluster_load c e in
  rc = CETCD_OK /\ cluster_ok c' /\ members_of c' = M /\
  match J with Some (ids, idx) => loaded c' = (ids, length ids, idx) | None => loaded c' = loaded c end.
Proof.
  intros Hempty HMJ Hrows Hread. unfold cetcd_cluster_load. set (c0 := c <| c_backend := true |>) in *.
  pose proof (be_foreach_ok _ _ members_load_cb_ (c0, CETCD_OK) Hread) as Hf.
  assert (Hm0 : members_of c0 = ∅) by (unfold members_of; cbn; by rewrite Hempty).
  destruct (load_rows (sorted_entries (members_bucket e)) c0 CETCD_OK) as (c' & Hr & Hok' & Hm' & Hj' & Hn').
  - split; cbn; rewrite Hempty; constructor.
  - apply sorted_entries_nodup.
  - apply Forall_forall. intros [k v] Hkv%sorted_entries_elem. by eapply rows_good.
  - intros id [p Hp]. by rewrite Hm0 in Hp.
  - unfold members_bucket in Hr. rewrite Hr in Hf.
    destruct (be_foreach e MEMBERS_BUCKET members_load_cb_ (c0, CETCD_OK)) as [[be st] rc]. cbn [fst snd] in *. subst rc st.
    cbn [is_ok negb andb]. destruct HMJ as [HM HJ]. split_and!; [done|done| |].
    + apply map_eq. intros id. apply option_eq. intros p. rewrite Hm', Hm0, lookup_empty, sorted_entries_elem, (Hrows _ _). split.
      * intros [?|(Hp & <- & [(q & Hq & Hk & Hv)|(ids & idx & _ & Hk & _)])]; [done| |by apply member_key_nonzero in Hk].
        destruct (HM _ _ Hq) as [Hq' _]. by rewrite (member_row_inj p q).
      * intros Hp. right. destruct (HM _ _ Hp) as [Hp1 Hp2]. split_and!; [done|done|]. left. exists p. subst id. done.
    + destruct J as [[ids idx]|].
      * apply Hj'; [done|]. apply sorted_entries_elem, Hrows. right. by exists ids, idx.
      * rewrite Hn'; [done|]. intros ([k v] & Hk & Hin)%list_elem_of_fmap. cbn in Hk. subst k.
        apply sorted_entries_elem, Hrows in Hin as [(p & Hp & Hk & _)|(? & ? & [=] & _)].
        apply (member_key_nonzero p); [by apply (HM _ _ Hp)|done].
Qed.

Lemma rows_put_member M J b p : persisted_ok M J -> peer_ok p -> rows_hold M J b ->
  rows_hold (<[p_id p := p]> M) J (<[write_le64_ (p_id p) := member_row p]> b).
Proof.
  intros [HM HJ] Hp Hb k v. rewrite lookup_insert_Some, (Hb k v). split.
  - intros [[<- <-]|[Hne [(q & Hq & -> & ->)|Hj]]]; [| |by right].
    + left. exists p. by rewrite lookup_insert_eq.
    + left. exists q. rewrite lookup_insert_ne by congruence. done.
  - intros [(q & Hq & -> & ->)|(ids & idx & HJ' & -> & ->)].
    + apply lookup_insert_Some in Hq as [[Hid <-]|[Hne Hq]]; [by left|]. right. split; [|left; by exists q].
      intros Hx. apply Hne. destruct (HM _ _ Hq) as [Hq' _]. pose proof (pk_id p Hp). pose proof (pk_id q Hq').
      apply write_le64_inj in Hx; unfold in_u64; (done || lia).
    + right. split; [by apply member_key_nonzero|]. right. by exists ids, idx.
Qed.

Lemma rows_del_member M J b id : persisted_ok M J -> 0 < id < 2 ^ 64 -> rows_hold M J b ->
  rows_hold (delete id M) J (delete (write_le64_ id) b).
Proof.
  intros [HM HJ] Hid Hb k v. rewrite lookup_delete_Some, (Hb k v). split.
  - intros [Hne [(q & Hq & -> & ->)|Hj]]; [|by right]. left. exists q. rewrite lookup_delete_ne by congruence. done.
  - intros [(q & Hq & -> & ->)|(ids & idx & HJ' & -> & ->)].
    + apply lookup_delete_Some in Hq as [Hne Hq]. split; [|left; by exists q].
      intros Hx. apply Hne. destruct (HM _ _ Hq) as [Hq' _]. pose proof (pk_id q Hq').
      apply write_le64_inj in Hx; unfold in_u64; (done || lia).
    + split; [|right; by exists ids, idx]. rewrite <- zero_key. intros Hx. apply write_le64_inj in Hx; unfold in_u64; lia.
Qed.

Lemma rows_put_joint M J b ids idx : persisted_ok M J -> rows_hold M J b ->
  rows_hold M (Some (ids, idx)) (<[replicate 8 0 := joint_row ids idx]> b).
Proof.
  intros [HM HJ] Hb k v. rewrite lookup_insert_Some, (Hb k v). split.
  - intros [[<- <-]|[Hne [(q & Hq & -> & ->)|(? & ? & _ & -> & _)]]]; [right; by exists ids, idx|left; by exists q|done].
  - intros [(q & Hq & -> & ->)|(? & ? & [= <- <-] & -> & ->)]; [|by left].
    right. split; [|left; by exists q]. intros Hx. apply (member_key_nonzero q); [by apply (HM _ _ Hq)|done].
Qed.

Lemma rows_del_joint M J b : persisted_ok M J -> rows_hold M J b -> rows_hold M None (delete (replicate 8 0) b).
Proof.
  intros [HM HJ] Hb k v. rewrite lookup_delete_Some, (Hb k v). split.
  - intros [Hne [(q & Hq & -> & ->)|(? & ? & _ & -> & _)]]; [left; by exists q|done].
  - intros [(q & Hq & -> & ->)|(? & ? & [=] & _)]. split; [|left; by exists q].
    intros Hx. apply (member_key_nonzero q); [by apply (HM _ _ Hq)|done].
Qed.

Lemma view_at (v w : view) b : v ≡v w -> v b = w b.
Proof. intros H. apply H. Qed.

Lemma view_alter_at f b v : view_alter f b v b = f (v b).
Proof. unfold view_alter. by rewrite decide_True. Qed.

Lemma persist_peer_rows c e p M J : c_backend c = true -> persisted_ok M J -> peer_ok p -> rows_hold M J (members_bucket e) ->
  let '(e', rc) := cetcd_cluster_persist_peer c e p in
  rows_hold (if is_ok rc then <[p_id p := p]> M else M) J (members_bucket e').
Proof.
  intros Hbe HMJ Hp Hb. unfold cetcd_cluster_persist_peer. pose proof (pk_id p Hp).
  rewrite (proj2 (Z.eqb_neq _ _)), Hbe by lia. cbn [negb].
  pose proof (be_put_spec e MEMBERS_BUCKET (write_le64_ (p_id p)) (member_row p)) as Hs.
  destruct (be_put e MEMBERS_BUCKET _ _) as [e' rc]. cbn [fst snd] in Hs. unfold members_bucket. rewrite (view_at _ _ MEMBERS_BUCKET Hs).
  destruct (is_ok rc); [|done]. rewrite view_alter_at. by apply rows_put_member.
Qed.

(** A delete that is reported as done may have been lost (the commit of
    [cetcd_backend_del] is not checked); a missing row is an error. *)
Lemma persist_del_rows c e id M J : c_backend c = true -> persisted_ok M J -> 0 < id < 2 ^ 64 -> rows_hold M J (members_bucket e) ->
  let '(e', rc) := cetcd_cluster_persist_del c e id in
  (rows_hold M J (members_bucket e') \/ (rc = CETCD_OK /\ rows_hold (delete id M) J (members_bucket e'))) /\
  (M !! id = None -> rc = CETCD_ERR_IO).
Proof.
  intros Hbe HMJ Hid Hb. unfold cetcd_cluster_persist_del. rewrite (proj2 (Z.eqb_neq _ _)), Hbe by lia. cbn [negb].
  pose proof (be_del_ok e MEMBERS_BUCKET (write_le64_ id)) as Ho. pose proof (be_del_err e MEMBERS_BUCKET (write_le64_ id)) as He.
  pose proof (be_del_missing e MEMBERS_BUCKET (write_le64_ id)) as Hmiss.
  destruct (be_del e MEMBERS_BUCKET _) as [e' rc]. cbn [fst snd] in *. unfold members_bucket. split.
  - destruct (decide (rc = CETCD_OK)) as [-> |Hrc].
    + destruct (Ho eq_refl) as [_ [Hv|Hv]]; rewrite (view_at _ _ MEMBERS_BUCKET Hv); [|by left].
      right. split; [done|]. rewrite view_alter_at. by apply rows_del_member.
    + left. by rewrite (view_at _ _ MEMBERS_BUCKET (He Hrc)).
  - intros HM. rewrite Hmiss; [done|]. apply eq_None_not_Some. intros [v Hv].
    destruct HMJ as [HMok _]. apply Hb in Hv as [(q & Hq & Hk & _)|(? & ? & _ & Hk & _)].
    + destruct (HMok _ _ Hq) as [Hq' _]. pose proof (pk_id q Hq'). apply write_le64_inj in Hk; unfold in_u64; [|lia..].
      rewrite <- Hk in Hq. congruence.
    + rewrite <- zero_key in Hk. apply write_le64_inj in Hk; unfold in_u64; lia.
Qed.

Lemma persist_joint_rows c e ids idx M J : c_backend c = true -> persisted_ok M J -> rows_hold M J (members_bucket e) ->
  let '(e', rc) := cetcd_cluster_persist_joint c e ids idx in
  rows_hold M (if is_ok rc then Some (take 16 ids, idx) else J) (members_bucket e').
Proof.
  intros Hbe HMJ Hb. unfold cetcd_cluster_persist_joint. rewrite Hbe. cbn [negb].
  pose proof (be_put_spec e MEMBERS_BUCKET (replicate 8 0) (joint_row (take 16 ids) idx)) as Hs.
  destruct (be_put e MEMBERS_BUCKET _ _) as [e' rc]. cbn [fst snd] in Hs. unfold members_bucket. rewrite (view_at _ _ MEMBERS_BUCKET Hs).
  destruct (is_ok rc); [|done]. rewrite view_alter_at. by eapply rows_put_joint.
Qed.

(** Membership across a restart.  On a bucket that holds the rows of
    members [M] and of a joint phase [J]: persisting a member or a joint phase
    either succeeds and replaces exactly that row, or fails and changes
    nothing; deleting a member fails when the row is missing, and otherwise
    changes at most that row; and a new cluster that loads the bucket has
    exactly the members [M] and the outgoing voters of [J]. *)
Theorem members_restart (c : cetcd_cluster) (e : E) (p : cetcd_peer_info) (ids : list Z) (idx self : Z) M J
  (Hbe : c_backend c = true) (HMJ : persisted_ok M J) (Hp : peer_ok p) (Hrows : rows_hold M J (members_bucket e)) :
  (let '(e', rc) := cetcd_cluster_persist_peer c e p in
   rows_hold (if is_ok rc then <[p_id p := p]> M else M) J (members_bucket e')) /\
  (let '(e', rc) := cetcd_cluster_persist_del c e (p_id p) in
   (rows_hold M J (members_bucket e') \/ (rc = CETCD_OK /\ rows_hold (delete (p_id p) M) J (members_bucket e'))) /\
   (M !! p_id p = None -> rc = CETCD_ERR_IO)) /\
  (let '(e', rc) := cetcd_cluster_persist_joint c e ids idx in
   rows_hold M (if is_ok rc then Some (take 16 ids, idx) else J) (members_bucket e')) /\
  ((be_foreach e MEMBERS_BUCKET members_load_cb_ ((cetcd_cluster_new self) <| c_backend := true |>, CETCD_OK)).2 = CETCD_OK ->
   let '(c', _, rc) := cetcd_cluster_load (cetcd_cluster_new self) e in
   rc = CETCD_OK /\ cluster_ok c' /\ members_of c' = M /\
   cetcd_cluster_loaded_joint c' 16 = match J with Some (ids, idx) => (ids, length ids, idx) | None => ([], 0%nat, 0) end).
Proof.
  split_and!; [by apply persist_peer_rows|apply persist_del_rows; try done; by apply pk_id|by apply persist_joint_rows|].
  intros Hread. pose proof (cluster_load_rows (cetcd_cluster_new self) e M J eq_refl HMJ Hrows Hread) as Hl.
  destruct (cetcd_cluster_load _ e) as [[c' e'] rc]. destruct Hl as (-> & ? & ? & Hj). split_and!; [done..|].
  by destruct J as [[? ?]|].
Qed.

End Restart.

(** ** Witnesses *)

Definition peer2 : cetcd_peer_info := mk_peer 2 [49; 48] 2380 false.
Definition peer3 : cetcd_peer_info := mk_peer 3 [49; 49] 2381 true.

Definition sample_cluster : cetcd_cluster :=
  Eval vm_compute in (cetcd_cluster_add_peer (cetcd_cluster_set_backend (cetcd_cluster_new 1) true) peer2).1.

Lemma peer2_ok : peer_ok peer2.
Proof. split; cbn; [lia|split; [lia|by apply bytes_nul_free]|lia]. Qed.

Lemma peer3_ok : peer_ok peer3.
Proof. split; cbn; [lia|split; [lia|by apply bytes_nul_free]|lia]. Qed.

Lemma sample_cluster_ok : cluster_ok sample_cluster.
Proof. split; cbn; [apply NoDup_singleton|constructor; [apply peer2_ok|constructor]]. Qed.

Lemma cluster_refines_witness :
  (cetcd_cluster_add_peer sample_cluster peer3).2 = CETCD_OK /\ cetcd_cluster_voter_count sample_cluster = 2.
Proof.
  destruct (cluster_refines sample_cluster peer3 sample_cluster_ok peer3_ok) as (H1 & _ & _ & _ & _ & H2 & _).
  - split; reflexivity.
  - reflexivity.
  - split; [reflexivity|constructor; [reflexivity|constructor]].
  - split; [|exact H2]. destruct (cetcd_cluster_add_peer sample_cluster peer3). exact (proj1 (proj2 H1)).
Defined.

Lemma members_restart_witness :
  let e := (cetcd_cluster_persist_peer sample_cluster (mk_mem_env ∅ []) peer2).1 in
  members_of (cetcd_cluster_load (cetcd_cluster_new 1) e).1.1 = {[ 2 := peer2 ]}.
Proof.
  intros e. assert (Hrows : rows_hold ∅ None (members_bucket (mk_mem_env ∅ []))).
  { intros k v. change (members_bucket (mk_mem_env ∅ [])) with (∅ : gmap bytes bytes). rewrite lookup_empty. split; [done|]. intros [(p & Hp & _)|(? & ? & [=] & _)]. by rewrite lookup_empty in Hp. }
  assert (HMJ : persisted_ok ∅ None) by (split; [apply map_Forall_empty|done]).
  destruct (members_restart sample_cluster (mk_mem_env ∅ []) peer2 [] 0 1 ∅ None eq_refl HMJ peer2_ok Hrows) as (H1 & _).
  change (rows_hold (<[2 := peer2]> ∅) None (members_bucket e)) in H1.
  assert (HMJ2 : persisted_ok {[ 2 := peer2 ]} None) by (split; [apply map_Forall_singleton; by split; [apply peer2_ok|]|done]).
  destruct (members_restart sample_cluster e peer3 [] 0 1 {[ 2 := peer2 ]} None eq_refl HMJ2 peer3_ok H1) as (_ & _ & _ & H2).
  specialize (H2 ltac:(vm_compute; reflexivity)). destruct (cetcd_cluster_load (cetcd_cluster_new 1) e) as [[c' e'] rc].
  exact (proj1 (proj2 (proj2 H2))).
Defined.
