(* ===== verification/Pb.v ===== *)
(** * Protobuf messages: reading and writing

    The wire format of requests and responses, as the parsers and encoders of
    src/server/auto_compact.c and of the handlers under src/v3rpc read and
    write it.  All parsers have the same loop: a tag byte selects what is done
    with the field, a tag 0 is skipped, fields the parser does not know are
    skipped by their wire type.  A parser is therefore a table from tags to
    actions, run by [run] on a position in the message, as the C code does:
    positions and lengths are [size_t] and their additions wrap.

    The message is the memory its pointer gives access to; a nested message is
    that memory from its start on, with the length the code computed for it.
    A read or write outside the memory is [Undef]. *)

From S2P Require Import Prelude Raft RaftWire.

(** Result of an operation on buffers: a value, an error status, undefined
    behaviour, or not finished within the given number of steps. *)
Inductive res (A : Type) : Type :=
| Ok (a : A)
| Fail (e : cetcd_status)
| Undef
| Loop.
Arguments Ok {A} a.
Arguments Fail {A} e.
Arguments Undef {A}.
Arguments Loop {A}.

#[export] Instance res_ret : MRet res := @Ok.
#[export] Instance res_bind : MBind res := fun A B f x =>
  match x with Ok a => f a | Fail e => Fail e | Undef => Undef | Loop => Loop end.

(** Conversion of a [uint64_t] to [int]. *)
Definition i32 (z : Z) : Z :=
  let w := u32 z in if w <? 2147483648 then w else w - 4294967296.

Definition INT64_MAX : Z := 9223372036854775807.
Definition INT_MAX : Z := 2147483647.
(** [malloc] fails on a size above [PTRDIFF_MAX] and succeeds otherwise. *)
Definition PTRDIFF_MAX : Z := 9223372036854775807.

(** ** Reading *)

(** The varint loop: the value so far and the shift; a shift above 63 or the
    end of the message is CETCD_ERR_INVAL.  Ten rounds are enough. *)
Fixpoint varint_loop (n : nat) (m : bytes) (len p v shift : Z) : res (Z * Z) :=
  match n with
  | O => Loop
  | S n =>
      if len <=? p then Fail CETCD_ERR_INVAL
      else match m !! Z.to_nat p with
           | None => Undef
           | Some b =>
               let v := Z.lor v (u64 (Z.shiftl (Z.land b 127) shift)) in
               if Z.land b 128 =? 0 then Ok (v, p + 1)
               else if 63 <? shift + 7 then Fail CETCD_ERR_INVAL
               else varint_loop n m len (p + 1) v (shift + 7)
           end
  end.

Definition leftover_safe_varint_at_ (m : bytes) (len p : Z) : res (Z * Z) := varint_loop 10 m len p 0 0.

(** The length of a length-delimited field and the position behind it; the
    bound check adds with wrap-around. *)
Definition delim_at (m : bytes) (len p : Z) : res (Z * Z) :=
  '(skip, p) ← leftover_safe_varint_at_ m len p;
  if len <? u64 (p + skip) then Fail CETCD_ERR_INVAL else Ok (skip, p).

(** [memcpy] of [n] bytes from the message. *)
Definition mem_read (m : bytes) (p n : Z) : res bytes :=
  if blen m <? p + n then Undef else Ok (take (Z.to_nat n) (drop (Z.to_nat p) m)).

(** A field of unknown tag. *)
Definition leftover_safe_skip_unknown_at_ (m : bytes) (len p tag : Z) : res Z :=
  if Z.land tag 7 =? 0 then '(_, p) ← leftover_safe_varint_at_ m len p; Ok p
  else if Z.land tag 7 =? 2 then '(skip, p) ← delim_at m len p; Ok (u64 (p + skip))
  else Fail CETCD_ERR_INVAL.

(** A length-delimited field copied into allocated memory; [nul] where the code
    allocates a byte more for a terminator. *)
Definition leftover_safe_copy_bytes_at_ (nul : bool) (m : bytes) (len p : Z) : res (bytes * Z) :=
  '(skip, p) ← delim_at m len p;
  if skip =? 0 then Ok ([], p)
  else if PTRDIFF_MAX <? u64 (skip + if nul then 1 else 0) then Fail CETCD_ERR_NOMEM
  else d ← mem_read m p skip; Ok (d, u64 (p + skip)).

(** What a parser does with a field. *)
Inductive action (A : Type) : Type :=
| Askip                                            (* unknown *)
| Avarint (f : A -> Z -> res A)                    (* a varint *)
| Alength (f : A -> Z -> A)                        (* length-delimited, only its length *)
| Acopy (nul : bool) (f : A -> bytes -> A)          (* copied into allocated memory *)
| Abuf (cap : Z) (f : A -> bytes -> A)             (* copied into a buffer of the caller; longer is invalid *)
| Aclip (cap : Z) (f : A -> bytes -> A)            (* copied into a buffer of the caller, truncated *)
| Apacked (f : A -> Z -> A)                        (* a packed list of varints *)
| Amsg (start : A -> A) (sub : Z -> action A) (fin : A -> A) (* a nested message *)
| Ainline (sub : Z -> action A).                   (* a nested message read at the same position *)
Arguments Askip {A}.
Arguments Avarint {A} f.
Arguments Alength {A} f.
Arguments Acopy {A} nul f.
Arguments Abuf {A} cap f.
Arguments Aclip {A} cap f.
Arguments Apacked {A} f.
Arguments Amsg {A} start sub fin.
Arguments Ainline {A} sub.

Fixpoint packed_loop {A} (n : nat) (f : A -> Z -> A) (m : bytes) (len p : Z) (a : A) : res A :=
  if len <=? p then Ok a
  else match n with
       | O => Loop
       | S n => '(v, p) ← leftover_safe_varint_at_ m len p; packed_loop n f m len p (f a v)
       end.

(** The loop [while (p < len)] over the fields of a message. *)
Fixpoint run {A} (n : nat) (t : Z -> action A) (m : bytes) (len p : Z) (a : A) : res (A * Z) :=
  if len <=? p then Ok (a, p)
  else
    match n with
    | O => Loop
    | S n =>
        match m !! Z.to_nat p with
        | None => Undef
        | Some tag =>
            let p := p + 1 in
            if tag =? 0 then run n t m len p a
            else
              match t tag with
              | Askip => p ← leftover_safe_skip_unknown_at_ m len p tag; run n t m len p a
              | Avarint f => '(v, p) ← leftover_safe_varint_at_ m len p; a ← f a v; run n t m len p a
              | Alength f => '(skip, p) ← delim_at m len p; run n t m len (u64 (p + skip)) (f a skip)
              | Acopy nul f => '(d, p) ← leftover_safe_copy_bytes_at_ nul m len p; run n t m len p (f a d)
              | Abuf cap f =>
                  '(skip, p) ← delim_at m len p;
                  if cap =? 0 then run n t m len (u64 (p + skip)) a
                  else if cap <=? skip then Fail CETCD_ERR_INVAL
                  else d ← mem_read m p skip; run n t m len (u64 (p + skip)) (f a d)
              | Aclip cap f =>
                  '(skip, p) ← delim_at m len p;
                  if cap =? 0 then run n t m len (u64 (p + skip)) a
                  else d ← mem_read m p (Z.min skip (cap - 1)); run n t m len (u64 (p + skip)) (f a d)
              | Apacked f =>
                  '(skip, p) ← delim_at m len p;
                  a ← packed_loop n f (drop (Z.to_nat p) m) skip 0 a;
                  run n t m len (u64 (p + skip)) a
              | Amsg start sub fin =>
                  '(skip, p) ← delim_at m len p;
                  match run n sub (drop (Z.to_nat p) m) skip 0 (start a) with
                  | Ok (a, _) => run n t m len (u64 (p + skip)) (fin a)
                  | Fail _ => Fail CETCD_ERR_INVAL
                  | Undef => Undef
                  | Loop => Loop
                  end
              | Ainline sub =>
                  '(skip, p) ← delim_at m len p;
                  '(a, p) ← run n sub m (u64 (p + skip)) p a;
                  run n t m len p a
              end
        end
    end.

(** A table given by its entries; every other tag is unknown. *)
Fixpoint table {A} (l : list (Z * action A)) (tag : Z) : action A :=
  match l with
  | [] => Askip
  | (k, x) :: l => if tag =? k then x else table l tag
  end.

(** A parser: the table over the whole request, from the initial result.  A
    step consumes at least one byte unless a position wraps, so the length of
    the request and one more bounds the number of steps. *)
Definition parse {A} (t : Z -> action A) (init : A) (req : bytes) : res A :=
  '(a, _) ← run (S (length req)) t req (blen req) 0 init; Ok a.

(** ** Writing

    A buffer is its capacity and the bytes written so far. *)

(** [if (pos + n > cap) return CETCD_ERR_OVERFLOW;] *)
Definition room (cap : Z) (out : bytes) (n : Z) : res unit :=
  if cap <? blen out + n then Fail CETCD_ERR_OVERFLOW else Ok tt.

(** [out[pos++] = b;] *)
Definition put (cap : Z) (out : bytes) (b : Z) : res bytes :=
  if blen out <? cap then Ok (out ++ [b]) else Undef.

(** [memcpy(out + pos, d, n); pos += n;] *)
Definition copy_out (cap : Z) (out d : bytes) : res bytes :=
  if blen out + blen d <=? cap then Ok (out ++ d) else Undef.

(** The [do ... while (v)] loop with its check of the capacity. *)
Fixpoint put_varint_loop (n : nat) (cap : Z) (out : bytes) (v : Z) : res bytes :=
  match n with
  | O => Loop
  | S n =>
      if cap <=? blen out then Fail CETCD_ERR_OVERFLOW
      else
        let b := Z.land v 127 in
        let v := Z.shiftr v 7 in
        if v =? 0 then Ok (out ++ [b]) else put_varint_loop n cap (out ++ [Z.lor b 128]) v
  end.

Definition put_varint (cap : Z) (out : bytes) (v : Z) : res bytes := put_varint_loop 10 cap out v.

(** A varint field behind the check that [k] bytes fit. *)
Definition varint_field (k cap : Z) (out : bytes) (tag v : Z) : res bytes :=
  room cap out k;; out ← put cap out tag; put_varint cap out v.

(** Two bytes: a tag and a value below 128. *)
Definition byte_field (cap : Z) (out : bytes) (tag b : Z) : res bytes :=
  room cap out 2;; out ← put cap out tag; put cap out b.

(** A length-delimited field with both checks. *)
Definition bytes_field (cap : Z) (out : bytes) (tag : Z) (s : bytes) : res bytes :=
  room cap out (2 + blen s);;
  out ← put cap out tag;
  out ← put_varint cap out (blen s);
  room cap out (blen s);;
  copy_out cap out s.

Definition write_bytes_field_ (cap : Z) (out : bytes) (tag : Z) (s : bytes) : res bytes :=
  if blen s =? 0 then Ok out else bytes_field cap out tag s.

(** A nested message assembled in a local buffer: the copy is not checked
    again after the length was written. *)
Definition nested_field (cap : Z) (out : bytes) (tag : Z) (inner : bytes) : res bytes :=
  room cap out (2 + blen inner);;
  out ← put cap out tag;
  out ← put_varint cap out (blen inner);
  copy_out cap out inner.
