(* ===== verification/PbProps.v ===== *)
(** * Protobuf messages: what a parser computes

    The reference meaning of a message is a list of fields; [interp] gives the
    meaning of a table on it.  Running a table on the bytes of the fields is
    interpreting them; on any bytes it ends without touching memory outside
    the message, unless a length makes a position wrap. *)

From S2P Require Import Prelude Raft RaftWire Pb.

(** ** Varints at a position *)

Lemma lookup_drop_head {A} (m : list A) i x l : drop i m = x :: l -> m !! i = Some x /\ drop (S i) m = l.
Proof.
  intros H. split.
  - rewrite <- (Nat.add_0_r i), <- lookup_drop, H. done.
  - rewrite <- (Nat.add_1_r i), <- drop_drop, H. done.
Qed.

Lemma wire_loop_blen fuel v : (0 < fuel)%nat -> 1 <= blen (wire_loop fuel v).
Proof.
  destruct fuel as [|fuel]; [lia|]. intros _. cbn [wire_loop]. cbv zeta.
  unfold blen. destruct (_ =? 0); cbn [length]; lia.
Qed.

Lemma varint_loop_wire fuel v acc shift m len p rest :
  0 <= p -> drop (Z.to_nat p) m = wire_loop fuel v ++ rest -> p + blen (wire_loop fuel v) <= len ->
  0 <= shift -> 0 <= acc < 2 ^ shift -> 0 <= v < 2 ^ (7 * Z.of_nat fuel) -> (0 < fuel)%nat ->
  v * 2 ^ shift < 2 ^ 64 -> shift + 7 * (Z.of_nat fuel - 1) < 64 ->
  varint_loop fuel m len p acc shift = Ok (acc + v * 2 ^ shift, p + blen (wire_loop fuel v)).
Proof.
  revert v acc shift p; induction fuel as [|fuel IH]; intros v acc shift p Hp Hd Hl Hs Ha Hv Hf Hw Hsw; [lia|].
  cbn [varint_loop]. pose proof (wire_loop_blen (S fuel) v Hf) as Hb.
  destruct (Z.leb_spec len p); [lia|]. cbn [wire_loop] in Hd, Hl |- *. cbv zeta in Hd, Hl |- *.
  rewrite land_127, Z.shiftr_div_pow2 in Hd, Hl |- * by lia. change (2 ^ 7) with 128 in *.
  pose proof (Z.mod_pos_bound v 128 ltac:(lia)) as Hm. pose proof (Z.div_mod v 128 ltac:(lia)) as Hq.
  pose proof (Z.pow_pos_nonneg 2 shift ltac:(lia) Hs) as Hpw.
  assert (Hx : Z.lor acc (u64 (Z.shiftl (v mod 128) shift)) = acc + v mod 128 * 2 ^ shift).
  { pose proof (Z.mod_le v 128 ltac:(lia) ltac:(lia)). rewrite <- lor_shiftl_add by done. f_equal.
    rewrite Z.shiftl_mul_pow2 by done. apply Z.mod_small. change 18446744073709551616 with (2 ^ 64). nia. }
  destruct (Z.eqb_spec (v / 128) 0) as [Hz|Hz].
  - apply lookup_drop_head in Hd as [-> _]. destruct (varint_last (v mod 128) Hm) as [-> ->]. rewrite Hx. cbn.
    do 2 f_equal. replace (v mod 128) with v by lia. done.
  - apply lookup_drop_head in Hd as [-> Hd]. destruct (varint_more (v mod 128) Hm) as (E & E2 & Hc).
    rewrite E in Hl |- *. rewrite E2, Hx. destruct (Z.eqb_spec (Z.land (v mod 128 + 128) 128) 0); [done|].
    assert (Hq' : 0 <= v / 128) by (apply Z.div_pos; lia).
    rewrite Nat2Z.inj_succ, Z.mul_succ_r, Z.pow_add_r in Hv by lia. change (2 ^ 7) with 128 in Hv.
    destruct fuel as [|fuel]; [cbn in Hv; lia|].
    destruct (Z.ltb_spec 63 (shift + 7)); [lia|]. rewrite blen_cons in Hl |- *.
    rewrite (IH (v / 128)); try lia.
    + rewrite Z.pow_add_r by lia. change (2 ^ 7) with 128. f_equal. f_equal; [nia|lia].
    + replace (Z.to_nat (p + 1)) with (S (Z.to_nat p)) by lia. done.
    + rewrite Z.pow_add_r by lia. change (2 ^ 7) with 128. nia.
    + rewrite Z.pow_add_r by lia. change (2 ^ 7) with 128. nia.
Qed.

(** Byte strings as they occur in memory. *)
Definition short (b : bytes) : Prop := blen b < 4611686018427387904.

(** [at_ m p l]: the bytes [l] are in memory at position [p]. *)
Definition at_ (m : bytes) (p : Z) (l : bytes) : Prop :=
  0 <= p /\ exists rest, drop (Z.to_nat p) m = l ++ rest.

Lemma at_app m p l k : at_ m p (l ++ k) -> at_ m p l /\ at_ m (p + blen l) k.
Proof.
  intros (Hp & rest & H). split; (split; [pose proof (blen_nonneg l); lia|]).
  - exists (k ++ rest). by rewrite H, <- app_assoc.
  - exists rest. rewrite Z2Nat.inj_add by (pose proof (blen_nonneg l); lia). rewrite <- drop_drop, H, <- app_assoc.
    apply drop_blen.
Qed.

Lemma at_len m p l : l <> [] -> at_ m p l -> p + blen l <= blen m.
Proof.
  intros Hn (Hp & rest & H). apply (f_equal blen) in H. unfold blen in *. rewrite length_drop, length_app in H.
  destruct l; [done|]. cbn [length] in *. lia.
Qed.

Lemma varint_at_wire m len p v : in_u64 v -> at_ m p (wire_u64_ v) -> p + blen (wire_u64_ v) <= len ->
  leftover_safe_varint_at_ m len p = Ok (v, p + blen (wire_u64_ v)).
Proof.
  intros Hv (Hp & rest & Hd) Hl. unfold leftover_safe_varint_at_, wire_u64_ in *. unfold in_u64 in Hv.
  erewrite varint_loop_wire; try done; try (cbn; lia). do 2 f_equal. cbn. lia.
Qed.

Lemma wire_u64_blen v : 1 <= blen (wire_u64_ v) <= 10.
Proof.
  split; [apply wire_loop_blen; lia|]. unfold blen, wire_u64_. pose proof (wire_loop_length 10 v). lia.
Qed.

(** ** Fields *)

(** A message as its fields: varints, byte strings and nested messages. *)
Inductive field : Type :=
| FVar (tag v : Z)
| FLen (tag : Z) (d : bytes)
| FMsg (tag : Z) (fs : list field).

Definition delimited (tag : Z) (d : bytes) : bytes := tag :: wire_u64_ (blen d) ++ d.

Fixpoint wire (f : field) : bytes :=
  match f with
  | FVar tag v => tag :: wire_u64_ v
  | FLen tag d => delimited tag d
  | FMsg tag fs => delimited tag (concat (map wire fs))
  end.

Definition wires (fs : list field) : bytes := concat (map wire fs).

(** What the format can carry: tags of one byte that are not 0 and have the
    wire type of the field, values of 64 bits, no more than 2^62 bytes. *)
Definition tag_ok (wtype tag : Z) : Prop := 0 < tag < 256 /\ Z.land tag 7 = wtype.

Fixpoint field_ok (f : field) : Prop :=
  match f with
  | FVar tag v => tag_ok 0 tag /\ in_u64 v
  | FLen tag d => tag_ok 2 tag /\ blen d < 4611686018427387904
  | FMsg tag fs => tag_ok 2 tag /\ blen (concat (map wire fs)) < 4611686018427387904 /\
                   foldr (fun f P => field_ok f /\ P) True fs
  end.

Section interp_list.
Context {A : Type} (g : A -> field -> res A).
Fixpoint interp_list (a : A) (fs : list field) : res A :=
  match fs with
  | [] => Ok a
  | f :: fs => a ← g a f; interp_list a fs
  end.
End interp_list.

(** The meaning of a table on a field; [Undef] where the table expects
    another kind of field under the tag. *)
Fixpoint interp {A} (t : Z -> action A) (a : A) (f : field) {struct f} : res A :=
  match f with
  | FVar tag v =>
      match t tag with Askip => Ok a | Avarint g => g a v | _ => Undef end
  | FLen tag d =>
      match t tag with
      | Askip => Ok a
      | Alength g => Ok (g a (blen d))
      | Acopy _ g => Ok (g a d)
      | Abuf cap g => if cap =? 0 then Ok a else if cap <=? blen d then Fail CETCD_ERR_INVAL else Ok (g a d)
      | Aclip cap g => if cap =? 0 then Ok a else if cap <? 0 then Undef else Ok (g a (take (Z.to_nat (cap - 1)) d))
      | _ => Undef
      end
  | FMsg tag fs =>
      match t tag with
      | Askip => Ok a
      | Alength g => Ok (g a (blen (concat (map wire fs))))
      | Amsg start sub fin =>
          match interp_list (interp sub) (start a) fs with
          | Ok a => Ok (fin a)
          | Fail _ => Fail CETCD_ERR_INVAL
          | Undef => Undef
          | Loop => Loop
          end
      | Ainline sub => interp_list (interp sub) a fs
      | _ => Undef
      end
  end.

Definition interps {A} (t : Z -> action A) : A -> list field -> res A := interp_list (interp t).

Lemma interps_app {A} (t : Z -> action A) a fs gs : interps t a (fs ++ gs) = r ← interps t a fs; interps t r gs.
Proof.
  unfold interps. revert a; induction fs as [|f fs IH]; intros a; [done|]. cbn [app interp_list].
  destruct (interp t a f); cbn [mbind res_bind]; [apply IH|done..].
Qed.

(** Induction over fields and the fields nested in them. *)
Lemma field_nest_ind (P : field -> Prop) :
  (forall tag v, P (FVar tag v)) -> (forall tag d, P (FLen tag d)) ->
  (forall tag fs, Forall P fs -> P (FMsg tag fs)) -> forall f, P f.
Proof.
  intros Hv Hl Hm. fix IH 1. intros [tag v|tag d|tag fs]; [apply Hv|apply Hl|]. apply Hm.
  induction fs as [|f fs IHfs]; constructor; [apply IH|apply IHfs].
Qed.

Lemma fields_ok_Forall fs : foldr (fun f P => field_ok f /\ P) True fs <-> Forall field_ok fs.
Proof.
  induction fs as [|f fs IH]; cbn [foldr]; [split; constructor|]. rewrite Forall_cons. tauto.
Qed.

Lemma wires_cons f fs : wires (f :: fs) = wire f ++ wires fs.
Proof. done. Qed.

Lemma wires_app fs gs : wires (fs ++ gs) = wires fs ++ wires gs.
Proof. unfold wires. by rewrite map_app, concat_app. Qed.

Lemma wire_blen f : 2 <= blen (wire f).
Proof.
  destruct f as [tag v|tag d|tag fs]; cbn [wire]; unfold delimited; rewrite blen_cons, ?blen_app.
  all: repeat match goal with |- context [wire_u64_ ?x] => unless (1 <= blen (wire_u64_ x) <= 10) by assumption; pose proof (wire_u64_blen x) end.
  - lia.
  - pose proof (blen_nonneg d). lia.
  - pose proof (blen_nonneg (concat (map wire fs))). lia.
Qed.

(** ** Reading a field that is there *)

Section reading.
Context (m : bytes) (len : Z).
Hypothesis Hlen : len < 18446744073709551616.

Lemma delim_at_wire p d : blen d < 4611686018427387904 -> at_ m p (wire_u64_ (blen d) ++ d) ->
  p + blen (wire_u64_ (blen d) ++ d) <= len ->
  delim_at m len p = Ok (blen d, p + blen (wire_u64_ (blen d))) /\
  u64 (p + blen (wire_u64_ (blen d)) + blen d) = p + blen (wire_u64_ (blen d) ++ d) /\
  mem_read m (p + blen (wire_u64_ (blen d))) (blen d) = Ok d /\
  at_ m (p + blen (wire_u64_ (blen d))) d.
Proof.
  intros Hd Hat Hl. pose proof (blen_nonneg d) as Hn. rewrite blen_app in Hl |- *. pose proof (wire_u64_blen (blen d)) as Hw.
  apply at_app in Hat as [H1 H2]. assert (Hp : 0 <= p) by apply H1.
  assert (Hu : u64 (p + blen (wire_u64_ (blen d)) + blen d) = p + (blen (wire_u64_ (blen d)) + blen d)).
  { rewrite u64_small by (unfold in_u64; lia). lia. }
  split_and!; [|done| |done].
  - unfold delim_at. rewrite (varint_at_wire _ _ _ (blen d)); [|unfold in_u64; lia|done|lia]. cbn [mbind res_bind]. rewrite Hu.
    by destruct (Z.ltb_spec len (p + (blen (wire_u64_ (blen d)) + blen d))); [lia|].
  - unfold mem_read. destruct H2 as (Hq & rest & Hr). rewrite Hr.
    assert (Hm : blen d + blen rest <= blen m - (p + blen (wire_u64_ (blen d))) \/ d = []).
    { destruct d as [|x d]; [by right|left]. apply (f_equal blen) in Hr. rewrite blen_app in Hr.
      unfold blen in *. rewrite length_drop in Hr. cbn [length] in *. lia. }
    pose proof (blen_nonneg rest). destruct (Z.ltb_spec (blen m) (p + blen (wire_u64_ (blen d)) + blen d)) as [Hc|].
    + exfalso. assert (Hne : wire_u64_ (blen d) <> []) by (intros E; rewrite E in Hw; change (blen []) with 0 in Hw; lia).
      pose proof (at_len _ _ _ Hne H1). destruct Hm as [Hm| ->]; [lia|].
      change (blen []) with 0 in *. lia.
    + by rewrite take_blen.
Qed.
End reading.

(** ** Running a table on the bytes of fields *)

(** One round of the loop interprets the field at the position. *)
Definition steps (f : field) : Prop :=
  forall A (t : Z -> action A) m len p a n,
    len < 18446744073709551616 -> field_ok f -> at_ m p (wire f) -> p + blen (wire f) <= len ->
    (length (wire f) <= S n)%nat -> interp t a f <> Undef ->
    run (S n) t m len p a = a ← interp t a f; run n t m len (p + blen (wire f)) a.

Lemma fields_run fs : Forall steps fs -> forall A (t : Z -> action A) m len p a n,
  len < 18446744073709551616 -> Forall field_ok fs -> at_ m p (wires fs) -> p + blen (wires fs) <= len ->
  (length (wires fs) <= n)%nat -> interps t a fs <> Undef ->
  run n t m len p a = a ← interps t a fs; run (n - length fs) t m len (p + blen (wires fs)) a.
Proof.
  induction 1 as [|f fs Hf Hfs IH]; intros A t m len p a n Hl Hok Hat Hle Hn Hu.
  - cbn. by rewrite Nat.sub_0_r, Z.add_0_r.
  - apply Forall_cons in Hok as [Hok1 Hok]. rewrite wires_cons in *. apply at_app in Hat as [H1 H2].
    rewrite blen_app in *. rewrite length_app in Hn. pose proof (wire_blen f) as Hw. pose proof (blen_nonneg (wires fs)).
    unfold blen in Hw at 1. destruct n as [|n]; [lia|]. unfold interps in *. cbn [interp_list] in Hu |- *.
    rewrite Hf; [|done|done|done|lia|lia|by intros E; rewrite E in Hu].
    destruct (interp t a f) as [a'| | |]; cbn [mbind res_bind] in Hu |- *; [|done..].
    cbn [length Nat.sub]. rewrite IH; [|done|done|done|lia|lia|done]. by rewrite Z.add_assoc.
Qed.

(** A nested message is read as its fields. *)
Lemma nested_run fs : Forall steps fs -> forall A (t : Z -> action A) m a n,
  blen (wires fs) < 18446744073709551616 -> Forall field_ok fs -> at_ m 0 (wires fs) ->
  (length (wires fs) <= n)%nat -> interps t a fs <> Undef ->
  run n t m (blen (wires fs)) 0 a = a ← interps t a fs; Ok (a, blen (wires fs)).
Proof.
  intros Hs A t m a n Hl Hok Hat Hn Hu. rewrite (fields_run fs Hs) by (try done; lia).
  destruct (interps t a fs); cbn [mbind res_bind]; [|done..]. rewrite Z.add_0_l.
  destruct (n - length fs)%nat; cbn [run]; by rewrite Z.leb_refl.
Qed.

Lemma at_drop m p q l : 0 <= p -> 0 <= q -> at_ m (p + q) l -> at_ (drop (Z.to_nat p) m) q l.
Proof.
  intros Hp Hq (_ & rest & H). split; [done|]. exists rest. rewrite drop_drop, <- Z2Nat.inj_add by done. done.
Qed.

Lemma head_at m p tag l : at_ m p (tag :: l) -> m !! Z.to_nat p = Some tag /\ at_ m (p + 1) l /\ 0 <= p.
Proof.
  intros (Hp & rest & H). destruct (lookup_drop_head m (Z.to_nat p) tag (l ++ rest) H) as [H1 H2].
  split_and!; [done| |done]. split; [lia|]. exists rest. by replace (Z.to_nat (p + 1)) with (S (Z.to_nat p)) by lia.
Qed.

Lemma field_steps f : steps f.
Proof.
  induction f as [tag v|tag d|tag fs IH] using field_nest_ind; intros A t m len p a n Hl Hok Hat Hle Hn Hu.
  - destruct Hok as [[Ht Hw] Hv]. cbn [wire] in *. apply head_at in Hat as (Hm & Hat & Hp). rewrite blen_cons in Hle |- *.
    pose proof (wire_u64_blen v) as Hb. cbn [run]. destruct (Z.leb_spec len p); [lia|]. rewrite Hm. cbv zeta.
    destruct (Z.eqb_spec tag 0); [lia|]. cbn [interp] in Hu |- *.
    pose proof (varint_at_wire m len (p + 1) v Hv Hat ltac:(lia)) as Hr. rewrite Z.add_assoc.
    destruct (t tag); try done; cbn [mbind res_bind].
    + unfold leftover_safe_skip_unknown_at_. rewrite Hw, Hr. done.
    + rewrite Hr. done.
  - destruct Hok as [[Ht Hw] Hd]. cbn [wire] in *. unfold delimited in *. apply head_at in Hat as (Hm & Hat & Hp).
    rewrite blen_cons in Hle |- *. pose proof (blen_nonneg (wire_u64_ (blen d) ++ d)) as Hb.
    cbn [run]. destruct (Z.leb_spec len p); [lia|]. rewrite Hm. cbv zeta.
    destruct (Z.eqb_spec tag 0); [lia|]. cbn [interp] in Hu |- *.
    destruct (delim_at_wire m len Hl (p + 1) d Hd Hat ltac:(lia)) as (H1 & H2 & H3 & H4).
    pose proof (blen_nonneg d) as Hn0. rewrite Z.add_assoc.
    destruct (t tag) as [| |g|nul g|cap g|cap g| | |]; try done; cbn [mbind res_bind].
    + unfold leftover_safe_skip_unknown_at_. rewrite Hw, H1. cbn [mbind res_bind Z.eqb]. by rewrite H2.
    + rewrite H1. cbn [mbind res_bind]. by rewrite H2.
    + unfold leftover_safe_copy_bytes_at_. rewrite H1. cbn [mbind res_bind]. destruct (Z.eqb_spec (blen d) 0) as [Hz|Hz].
      * assert (d = []) as -> by (destruct d; [done|]; unfold blen in Hz; cbn in Hz; lia). cbn [mbind res_bind]. by rewrite app_nil_r.
      * rewrite u64_small by (unfold in_u64; destruct nul; lia). unfold PTRDIFF_MAX.
        destruct (Z.ltb_spec 9223372036854775807 (blen d + (if nul then 1 else 0))); [destruct nul; lia|].
        rewrite H3. cbn [mbind res_bind]. by rewrite H2.
    + rewrite H1. cbn [mbind res_bind]. rewrite H2, H3. destruct (cap =? 0); [done|]. destruct (cap <=? blen d); done.
    + rewrite H1. cbn [mbind res_bind]. rewrite H2. destruct (Z.eqb_spec cap 0); [done|]. destruct (Z.ltb_spec cap 0); [done|].
      unfold mem_read in *. destruct (Z.ltb_spec (blen m) (p + 1 + blen (wire_u64_ (blen d)) + blen d)); [done|].
      destruct (Z.ltb_spec (blen m) (p + 1 + blen (wire_u64_ (blen d)) + Z.min (blen d) (cap - 1))); [lia|].
      cbn [mbind res_bind]. do 2 f_equal. injection H3 as H3. rewrite <- H3 at 3. rewrite take_take. f_equal. lia.
  - destruct Hok as [[Ht Hw] [Hd Hok]]. apply fields_ok_Forall in Hok. cbn [wire] in *. fold (wires fs) in *.
    unfold delimited in *. apply head_at in Hat as (Hm & Hat & Hp). rewrite length_cons, length_app in Hn.
    rewrite blen_cons in Hle |- *. pose proof (blen_nonneg (wire_u64_ (blen (wires fs)) ++ wires fs)) as Hb.
    cbn [run]. destruct (Z.leb_spec len p); [lia|]. rewrite Hm. cbv zeta.
    destruct (Z.eqb_spec tag 0); [lia|]. cbn [interp] in Hu |- *.
    destruct (delim_at_wire m len Hl (p + 1) (wires fs) Hd Hat ltac:(lia)) as (H1 & H2 & H3 & H4).
    pose proof (wire_u64_blen (blen (wires fs))) as Hw2. rewrite Z.add_assoc.
    destruct (t tag) as [| |g|nul g|cap g|cap g| |start sub fin|sub]; try done; cbn [mbind res_bind].
    + unfold leftover_safe_skip_unknown_at_. rewrite Hw, H1. cbn [mbind res_bind Z.eqb]. by rewrite H2.
    + rewrite H1. cbn [mbind res_bind]. by rewrite H2.
    + rewrite H1. cbn [mbind res_bind]. rewrite (nested_run fs IH); [|lia|done| |lia|].
      * unfold interps. destruct (interp_list (interp sub) (start a) fs); cbn [mbind res_bind]; [by rewrite H2|done..].
      * apply at_drop; [lia|lia|]. by rewrite Z.add_0_r.
      * intros E. unfold interps in E. by rewrite E in Hu.
    + rewrite H1. cbn [mbind res_bind]. rewrite H2. rewrite (fields_run fs IH); [|lia|done|done|rewrite blen_app in Hle |- *; lia|lia|done].
      unfold interps. destruct (interp_list (interp sub) a fs); cbn [mbind res_bind]; [|done..].
      rewrite blen_app, Z.add_assoc. destruct (n - length fs)%nat; cbn [run]; by rewrite Z.leb_refl.
Qed.

(** Reference semantics: parsing the bytes of fields is interpreting them. *)
Lemma parse_wires {A} (t : Z -> action A) a fs :
  Forall field_ok fs -> blen (wires fs) < 18446744073709551616 -> interps t a fs <> Undef ->
  parse t a (wires fs) = interps t a fs.
Proof.
  intros Hok Hl Hu. unfold parse. rewrite (nested_run fs); try done.
  - by destruct (interps t a fs).
  - apply Forall_forall. intros f _. apply field_steps.
  - split; [done|]. exists []. by rewrite app_nil_r.
  - lia.
Qed.

(** ** Writing *)

(** All of [d] behind [out], or the error when it does not fit. *)
Definition emit (cap : Z) (out d : bytes) : res bytes :=
  if blen out + blen d <=? cap then Ok (out ++ d) else Fail CETCD_ERR_OVERFLOW.

Lemma emit_emit cap out d e : (o ← emit cap out d; emit cap o e) = emit cap out (d ++ e).
Proof.
  unfold emit. rewrite !blen_app. pose proof (blen_nonneg e). destruct (Z.leb_spec (blen out + blen d) cap); cbn [mbind res_bind].
  - rewrite blen_app, Z.add_assoc, app_assoc. done.
  - destruct (Z.leb_spec (blen out + (blen d + blen e)) cap); [lia|done].
Qed.

Lemma put_varint_loop_spec n cap out v : (0 < n)%nat -> 0 <= v < 2 ^ (7 * Z.of_nat n) ->
  put_varint_loop n cap out v = emit cap out (wire_loop n v).
Proof.
  revert out v; induction n as [|n IH]; intros out v Hn Hv; [lia|]. cbn [put_varint_loop wire_loop]. cbv zeta. unfold emit at 1.
  rewrite Z.shiftr_div_pow2 by lia. change (2 ^ 7) with 128. pose proof (Z.div_mod v 128 ltac:(lia)) as Hd.
  pose proof (Z.mod_pos_bound v 128 ltac:(lia)) as Hm. destruct (Z.leb_spec cap (blen out)) as [Hc|Hc].
  - pose proof (blen_nonneg (wire_loop n (v / 128))). destruct (v / 128 =? 0); rewrite blen_cons; [change (blen []) with 0|];
      by rewrite (proj2 (Z.leb_gt _ _)) by lia.
  - destruct (Z.eqb_spec (v / 128) 0) as [Hz|Hz].
    + rewrite blen_cons. change (blen []) with 0. by destruct (Z.leb_spec (blen out + (1 + 0)) cap); [|lia].
    + rewrite Nat2Z.inj_succ, Z.mul_succ_r, Z.pow_add_r in Hv by lia. change (2 ^ 7) with 128 in Hv.
      assert (0 <= v / 128) by (apply Z.div_pos; lia). destruct n as [|n]; [cbn in Hv; lia|].
      rewrite IH by (try lia; nia). unfold emit. rewrite blen_app, !blen_cons. change (blen []) with 0.
      rewrite <- app_assoc. cbn [app]. replace (blen out + (1 + 0) + blen (wire_loop (S n) (v / 128)))
        with (blen out + (1 + blen (wire_loop (S n) (v / 128)))) by lia. done.
Qed.

Lemma put_varint_spec cap out v : in_u64 v -> put_varint cap out v = emit cap out (wire_u64_ v).
Proof. intros Hv. apply put_varint_loop_spec; [lia|]. unfold in_u64 in Hv. cbn. lia. Qed.

Lemma put_tag cap out k tag (g : bytes -> res bytes) d : 1 <= k <= blen (tag :: d) ->
  (forall o, g o = emit cap o d) ->
  (room cap out k;; o ← put cap out tag; g o) = emit cap out (tag :: d).
Proof.
  intros Hk Hg. unfold room, put. destruct (Z.ltb_spec cap (blen out + k)); cbn [mbind res_bind].
  - unfold emit. by destruct (Z.leb_spec (blen out + blen (tag :: d)) cap); [lia|].
  - destruct (Z.ltb_spec (blen out) cap); [|lia]. cbn [mbind res_bind]. rewrite Hg. unfold emit.
    rewrite blen_app, blen_cons, blen_cons, <- app_assoc. change (blen []) with 0. cbn [app].
    replace (blen out + (1 + 0) + blen d) with (blen out + (1 + blen d)) by lia. done.
Qed.

Lemma varint_field_spec k cap out tag v : 1 <= k <= 2 -> in_u64 v ->
  varint_field k cap out tag v = emit cap out (wire (FVar tag v)).
Proof.
  intros Hk Hv. unfold varint_field. apply put_tag.
  - rewrite blen_cons. pose proof (wire_u64_blen v). lia.
  - intros o. by apply put_varint_spec.
Qed.

Lemma wire_u64_small v : 0 <= v < 128 -> wire_u64_ v = [v].
Proof.
  intros Hv. unfold wire_u64_. cbn [wire_loop]. cbv zeta. rewrite Z.shiftr_div_pow2 by lia. change (2 ^ 7) with 128.
  rewrite Z.div_small by lia. cbn [Z.eqb]. rewrite land_127, Z.mod_small by lia. done.
Qed.

Lemma byte_field_spec cap out tag b : 0 <= b < 128 -> byte_field cap out tag b = emit cap out (wire (FVar tag b)).
Proof.
  intros Hb. unfold byte_field. cbn [wire]. rewrite wire_u64_small by done. unfold room, put.
  destruct (Z.ltb_spec cap (blen out + 2)); cbn [mbind res_bind]; unfold emit; rewrite !blen_cons; change (blen []) with 0.
  - by destruct (Z.leb_spec (blen out + (1 + (1 + 0))) cap); [lia|].
  - destruct (Z.ltb_spec (blen out) cap); [|lia]. cbn [mbind res_bind]. rewrite blen_app, blen_cons. change (blen []) with 0.
    destruct (Z.ltb_spec (blen out + (1 + 0)) cap); [|lia]. rewrite <- app_assoc. by destruct (Z.leb_spec (blen out + (1 + (1 + 0))) cap); [|lia].
Qed.

Lemma bytes_field_spec cap out tag s : blen s < 4611686018427387904 ->
  bytes_field cap out tag s = emit cap out (wire (FLen tag s)).
Proof.
  intros Hs. pose proof (blen_nonneg s). unfold bytes_field. cbn [wire]. apply put_tag.
  - unfold delimited. rewrite blen_cons, blen_app. pose proof (wire_u64_blen (blen s)). lia.
  - intros o. rewrite put_varint_spec by (unfold in_u64; lia). rewrite <- emit_emit. unfold emit at 1 3.
    destruct (_ <=? cap); cbn [mbind res_bind]; [|done]. unfold room, copy_out, emit.
    set (x := blen (o ++ _)). destruct (Z.ltb_spec cap (x + blen s)), (Z.leb_spec (x + blen s) cap); try lia; done.
Qed.

Lemma write_bytes_field_spec cap out tag s : blen s < 4611686018427387904 ->
  write_bytes_field_ cap out tag s = if blen s =? 0 then Ok out else emit cap out (wire (FLen tag s)).
Proof. intros Hs. unfold write_bytes_field_. by rewrite bytes_field_spec. Qed.

(** A nested message below 128 bytes is written within the capacity; a longer
    one may be written past it. *)
Lemma nested_field_spec cap out tag inner : blen inner < 128 ->
  nested_field cap out tag inner = emit cap out (delimited tag inner).
Proof.
  intros Hs. pose proof (blen_nonneg inner). unfold nested_field. unfold room, put.
  unfold delimited. rewrite wire_u64_small by lia. cbn [app].
  destruct (Z.ltb_spec cap (blen out + (2 + blen inner))); cbn [mbind res_bind]; unfold emit; rewrite !blen_cons.
  - by destruct (Z.leb_spec (blen out + (1 + (1 + blen inner))) cap); [lia|].
  - destruct (Z.ltb_spec (blen out) cap); [|lia]. cbn [mbind res_bind]. rewrite put_varint_spec by (unfold in_u64; lia).
    rewrite wire_u64_small by lia. unfold emit. rewrite blen_app, !blen_cons. change (blen []) with 0.
    destruct (Z.leb_spec (blen out + (1 + 0) + (1 + 0)) cap); [|lia]. cbn [mbind res_bind]. unfold copy_out.
    rewrite !blen_app, !blen_cons. change (blen []) with 0. rewrite <- !app_assoc. cbn [app].
    destruct (Z.leb_spec (blen out + (1 + 0) + (1 + 0) + blen inner) cap); [|lia].
    by destruct (Z.leb_spec (blen out + (1 + (1 + blen inner))) cap); [|lia].
Qed.
