(* ===== verification/PbRequests.v ===== *)
(** * Requests (src/server/auto_compact.c, include/cetcd/server.h)

    The encoders and parsers of the requests.  Output pointers are given; a
    buffer of the caller has a capacity, and capacity 0 stands for a buffer
    that is not wanted.  A parser that fails clears its result, so only a
    success carries one.  An absent byte string is the empty one. *)

From S2P Require Import Prelude Raft RaftWire Pb.

(** The values a varint field may take. *)
Definition up_to (bound : Z) {A} (f : Z -> A) (v : Z) : res A :=
  if bound <? v then Fail CETCD_ERR_INVAL else Ok (f v).

(** A length-delimited field that is checked and skipped. *)
Definition skipped {A} : action A := Alength (fun a _ => a).

Definition nonzero (v : Z) : bool := negb (v =? 0).

(** ** HashKV, compaction, leader transfer, leases, alarms *)

Definition cetcd_encode_hashkv_request (rev cap : Z) : res bytes :=
  if cap =? 0 then Fail CETCD_ERR_INVAL
  else if rev <? 0 then Fail CETCD_ERR_INVAL
  else if rev =? 0 then Ok []
  else varint_field 1 cap [] 0x08 rev.

Definition cetcd_parse_hashkv_request : bytes -> res Z :=
  parse (table [(0x08, Avarint (fun _ v => up_to INT64_MAX id v))]) 0.

Definition cetcd_parse_compact_request : bytes -> res (Z * bool) :=
  parse (table [
    (0x08, Avarint (fun '(_, physical) v => up_to INT64_MAX (fun v => (v, physical)) v));
    (0x10, Avarint (fun '(rev, _) v => Ok (rev, nonzero v)))]) (0, false).

Definition cetcd_encode_move_leader_request (target cap : Z) : res bytes :=
  if cap =? 0 then Fail CETCD_ERR_INVAL
  else if target =? 0 then Fail CETCD_ERR_INVAL
  else varint_field 1 cap [] 0x08 target.

Definition cetcd_parse_move_leader_request : bytes -> res Z :=
  parse (table [(0x08, Avarint (fun _ v => Ok v))]) 0.

Definition cetcd_parse_lease_grant_request : bytes -> res (Z * Z) :=
  parse (table [
    (0x08, Avarint (fun '(_, id) v => up_to INT64_MAX (fun v => (v, id)) v));
    (0x10, Avarint (fun '(ttl, _) v => up_to INT64_MAX (fun v => (ttl, v)) v))]) (0, 0).

Definition cetcd_encode_lease_id_request (id cap : Z) : res bytes :=
  if cap =? 0 then Fail CETCD_ERR_INVAL
  else if id <=? 0 then Fail CETCD_ERR_INVAL
  else varint_field 1 cap [] 0x08 id.

Definition cetcd_parse_lease_id_request : bytes -> res (Z * bool) :=
  parse (table [
    (0x08, Avarint (fun '(_, keys) v => up_to INT64_MAX (fun v => (v, keys)) v));
    (0x10, Avarint (fun '(id, _) v => up_to INT64_MAX (fun v => (id, nonzero v)) v))]) (0, false).

Definition cetcd_encode_alarm_request (action member_id alarm cap : Z) : res bytes :=
  if cap =? 0 then Fail CETCD_ERR_INVAL
  else if (action <? 0) || (alarm <? 0) then Fail CETCD_ERR_INVAL
  else
    out ← varint_field 2 cap [] 0x08 action;
    out ← varint_field 2 cap out 0x10 member_id;
    varint_field 2 cap out 0x18 alarm.

Definition cetcd_parse_alarm_request : bytes -> res (Z * Z * Z) :=
  parse (table [
    (0x08, Avarint (fun '(_, member_id, alarm) v => up_to INT_MAX (fun v => (v, member_id, alarm)) v));
    (0x10, Avarint (fun '(action, _, alarm) v => Ok (action, v, alarm)));
    (0x18, Avarint (fun '(action, member_id, _) v => up_to INT_MAX (fun v => (action, member_id, v)) v))]) (0, 0, 0).

(** ** Range, put, delete *)

Record cetcd_range_request : Type := mk_range_request {
  rr_key : bytes;
  rr_range_end : bytes;
  rr_rev : Z;
  rr_limit : Z;
  rr_sort_order : Z;
  rr_sort_target : Z;
  rr_serializable : bool;
  rr_keys_only : bool;
  rr_count_only : bool;
  rr_min_mod_rev : Z;
  rr_max_mod_rev : Z;
  rr_min_create_rev : Z;
  rr_max_create_rev : Z
}.

#[export] Instance range_request_eta : RecordEta cetcd_range_request := fun r =>
  mk_range_request (rr_key r) (rr_range_end r) (rr_rev r) (rr_limit r) (rr_sort_order r) (rr_sort_target r)
    (rr_serializable r) (rr_keys_only r) (rr_count_only r) (rr_min_mod_rev r) (rr_max_mod_rev r)
    (rr_min_create_rev r) (rr_max_create_rev r).

Definition zero_range_request : cetcd_range_request := mk_range_request [] [] 0 0 0 0 false false false 0 0 0 0.

Definition cetcd_encode_range_request (key : bytes) (rev cap : Z) : res bytes :=
  if blen key =? 0 then Fail CETCD_ERR_INVAL
  else if rev <? 0 then Fail CETCD_ERR_INVAL
  else
    out ← bytes_field cap [] 0x0a key;
    if 0 <? rev then varint_field 2 cap out 0x20 rev else Ok out.

Definition range_request_fields : list (Z * action cetcd_range_request) := [
  (0x0a, Acopy false (fun r d => r <| rr_key := d |>));
  (0x12, Acopy false (fun r d => r <| rr_range_end := d |>));
  (0x18, Avarint (fun r => up_to INT64_MAX (fun v => r <| rr_limit := v |>)));
  (0x20, Avarint (fun r => up_to INT64_MAX (fun v => r <| rr_rev := v |>)));
  (0x28, Avarint (fun r => up_to INT64_MAX (fun v => r <| rr_sort_order := i32 v |>)));
  (0x30, Avarint (fun r => up_to INT64_MAX (fun v => r <| rr_sort_target := i32 v |>)));
  (0x38, Avarint (fun r => up_to INT64_MAX (fun v => r <| rr_serializable := nonzero v |>)));
  (0x40, Avarint (fun r => up_to INT64_MAX (fun v => r <| rr_keys_only := nonzero v |>)));
  (0x48, Avarint (fun r => up_to INT64_MAX (fun v => r <| rr_count_only := nonzero v |>)));
  (0x50, Avarint (fun r => up_to INT64_MAX (fun v => r <| rr_min_mod_rev := v |>)));
  (0x58, Avarint (fun r => up_to INT64_MAX (fun v => r <| rr_max_mod_rev := v |>)));
  (0x60, Avarint (fun r => up_to INT64_MAX (fun v => r <| rr_min_create_rev := v |>)));
  (0x68, Avarint (fun r => up_to INT64_MAX (fun v => r <| rr_max_create_rev := v |>)))].

Definition cetcd_parse_range_request : bytes -> res cetcd_range_request :=
  parse (table range_request_fields) zero_range_request.

Record cetcd_put_request : Type := mk_put_request {
  pr_key : bytes;
  pr_value : bytes;
  pr_lease : Z;
  pr_prev_kv : bool;
  pr_ignore_value : bool;
  pr_ignore_lease : bool
}.

#[export] Instance put_request_eta : RecordEta cetcd_put_request := fun r =>
  mk_put_request (pr_key r) (pr_value r) (pr_lease r) (pr_prev_kv r) (pr_ignore_value r) (pr_ignore_lease r).

Definition zero_put_request : cetcd_put_request := mk_put_request [] [] 0 false false false.

Definition cetcd_encode_put_request (key value : bytes) (lease cap : Z) : res bytes :=
  if blen key =? 0 then Fail CETCD_ERR_INVAL
  else if lease <? 0 then Fail CETCD_ERR_INVAL
  else
    out ← bytes_field cap [] 0x0a key;
    out ← (if blen value =? 0 then Ok out else bytes_field cap out 0x12 value);
    if 0 <? lease then varint_field 2 cap out 0x18 lease else Ok out.

Definition put_request_fields : list (Z * action cetcd_put_request) := [
  (0x0a, Acopy false (fun r d => r <| pr_key := d |>));
  (0x12, Acopy false (fun r d => r <| pr_value := d |>));
  (0x18, Avarint (fun r => up_to INT64_MAX (fun v => r <| pr_lease := v |>)));
  (0x20, Avarint (fun r => up_to INT64_MAX (fun v => r <| pr_prev_kv := nonzero v |>)));
  (0x28, Avarint (fun r => up_to INT64_MAX (fun v => r <| pr_ignore_value := nonzero v |>)));
  (0x30, Avarint (fun r => up_to INT64_MAX (fun v => r <| pr_ignore_lease := nonzero v |>)))].

Definition cetcd_parse_put_request : bytes -> res cetcd_put_request :=
  parse (table put_request_fields) zero_put_request.

Record cetcd_delete_range_request : Type := mk_delete_request {
  dr_key : bytes;
  dr_range_end : bytes;
  dr_prev_kv : bool
}.

#[export] Instance delete_request_eta : RecordEta cetcd_delete_range_request := fun r =>
  mk_delete_request (dr_key r) (dr_range_end r) (dr_prev_kv r).

Definition zero_delete_request : cetcd_delete_range_request := mk_delete_request [] [] false.

Definition cetcd_encode_delete_range_request (key range_end : bytes) (prev_kv : bool) (cap : Z) : res bytes :=
  if blen key =? 0 then Fail CETCD_ERR_INVAL
  else
    out ← bytes_field cap [] 0x0a key;
    out ← (if blen range_end =? 0 then Ok out else bytes_field cap out 0x12 range_end);
    if prev_kv then byte_field cap out 0x18 0x01 else Ok out.

Definition delete_range_request_fields : list (Z * action cetcd_delete_range_request) := [
  (0x0a, Acopy false (fun r d => r <| dr_key := d |>));
  (0x12, Acopy false (fun r d => r <| dr_range_end := d |>));
  (0x18, Avarint (fun r v => Ok (r <| dr_prev_kv := nonzero v |>)))].

Definition cetcd_parse_delete_range_request : bytes -> res cetcd_delete_range_request :=
  parse (table delete_range_request_fields) zero_delete_request.

(** ** Users and roles *)

Record cetcd_auth_name_pass_request : Type := mk_name_pass { np_name : bytes; np_password : bytes }.

#[export] Instance name_pass_eta : RecordEta cetcd_auth_name_pass_request := fun r => mk_name_pass (np_name r) (np_password r).

Definition cetcd_encode_auth_name_pass_request (name password : bytes) (cap : Z) : res bytes :=
  if blen name =? 0 then Fail CETCD_ERR_INVAL
  else
    out ← bytes_field cap [] 0x0a name;
    if blen password =? 0 then Ok out else bytes_field cap out 0x12 password.

Definition cetcd_parse_auth_name_pass_request : bytes -> res cetcd_auth_name_pass_request :=
  parse (table [
    (0x0a, Acopy true (fun r d => r <| np_name := d |>));
    (0x12, Acopy true (fun r d => r <| np_password := d |>))]) (mk_name_pass [] []).

Definition cetcd_encode_auth_name_request (name : bytes) (cap : Z) : res bytes :=
  cetcd_encode_auth_name_pass_request name [] cap.

Definition cetcd_parse_auth_name_request (req : bytes) : res bytes :=
  ap ← cetcd_parse_auth_name_pass_request req; Ok (np_name ap).

Record cetcd_auth_role_perm_request : Type := mk_role_perm {
  rp_name : bytes;
  rp_perm_type : Z;
  rp_key : bytes;
  rp_range_end : bytes
}.

#[export] Instance role_perm_eta : RecordEta cetcd_auth_role_perm_request := fun r =>
  mk_role_perm (rp_name r) (rp_perm_type r) (rp_key r) (rp_range_end r).

Definition zero_role_perm : cetcd_auth_role_perm_request := mk_role_perm [] 0 [] [].

(** The permission is assembled in a buffer of 256 bytes; the first tag is
    written without a check. *)
Definition cetcd_encode_auth_role_grant_perm_request (name : bytes) (perm_type : Z) (key range_end : bytes) (cap : Z) : res bytes :=
  if blen name =? 0 then Fail CETCD_ERR_INVAL
  else
    perm ← put 256 [] 0x08;
    perm ← put_varint 256 perm (u32 perm_type);
    perm ← write_bytes_field_ 256 perm 0x12 key;
    perm ← write_bytes_field_ 256 perm 0x1a range_end;
    out ← write_bytes_field_ cap [] 0x0a name;
    bytes_field cap out 0x12 perm.

Definition cetcd_parse_auth_role_grant_perm_request : bytes -> res cetcd_auth_role_perm_request :=
  parse (table [
    (0x0a, Acopy true (fun r d => r <| rp_name := d |>));
    (0x12, Amsg id (table [
       (0x08, Avarint (fun r v => Ok (r <| rp_perm_type := i32 v |>)));
       (0x12, Acopy true (fun r d => r <| rp_key := d |>));
       (0x1a, Acopy true (fun r d => r <| rp_range_end := d |>))]) id)]) zero_role_perm.

Definition cetcd_encode_auth_role_revoke_perm_request (name key range_end : bytes) (cap : Z) : res bytes :=
  if blen name =? 0 then Fail CETCD_ERR_INVAL
  else
    out ← write_bytes_field_ cap [] 0x0a name;
    out ← write_bytes_field_ cap out 0x12 key;
    write_bytes_field_ cap out 0x1a range_end.

Definition cetcd_parse_auth_role_revoke_perm_request : bytes -> res cetcd_auth_role_perm_request :=
  parse (table [
    (0x0a, Acopy true (fun r d => r <| rp_name := d |>));
    (0x12, Acopy true (fun r d => r <| rp_key := d |>));
    (0x1a, Acopy true (fun r d => r <| rp_range_end := d |>))]) zero_role_perm.

Record cetcd_user_add_request : Type := mk_user_add { ua_name : bytes; ua_password : bytes; ua_no_password : bool }.

#[export] Instance user_add_eta : RecordEta cetcd_user_add_request := fun r =>
  mk_user_add (ua_name r) (ua_password r) (ua_no_password r).

Definition cetcd_encode_user_add_request (name password : bytes) (no_password : bool) (cap : Z) : res bytes :=
  if blen name =? 0 then Fail CETCD_ERR_INVAL
  else
    out ← bytes_field cap [] 0x0a name;
    out ← (if blen password =? 0 then Ok out else bytes_field cap out 0x12 password);
    if no_password then
      room cap out 4;;
      out ← put cap out 0x1a; out ← put cap out 0x02; out ← put cap out 0x08; put cap out 0x01
    else Ok out.

Definition cetcd_parse_user_add_request : bytes -> res cetcd_user_add_request :=
  parse (table [
    (0x0a, Acopy true (fun r d => r <| ua_name := d |>));
    (0x12, Acopy true (fun r d => r <| ua_password := d |>));
    (0x1a, Ainline (table [(0x08, Avarint (fun r v => Ok (r <| ua_no_password := nonzero v |>)))]))])
    (mk_user_add [] [] false).

(** ** Watches *)

Record cetcd_watch_create_request : Type := mk_watch_create {
  wc_key : bytes;
  wc_range_end : bytes;
  wc_start_rev : Z;
  wc_progress_notify : bool;
  wc_filter_noput : bool;
  wc_filter_nodelete : bool;
  wc_prev_kv : bool;
  wc_watch_id : Z;
  wc_fragment : bool
}.

#[export] Instance watch_create_eta : RecordEta cetcd_watch_create_request := fun r =>
  mk_watch_create (wc_key r) (wc_range_end r) (wc_start_rev r) (wc_progress_notify r) (wc_filter_noput r)
    (wc_filter_nodelete r) (wc_prev_kv r) (wc_watch_id r) (wc_fragment r).

Definition zero_watch_create : cetcd_watch_create_request := mk_watch_create [] [] 0 false false false false 0 false.

Definition cetcd_encode_watch_create_request (key : bytes) (start_rev cap : Z) : res bytes :=
  if (blen key =? 0) || (start_rev <? 0) then Fail CETCD_ERR_INVAL
  else
    out ← write_bytes_field_ cap [] 0x0a key;
    if 0 <? start_rev then varint_field 2 cap out 0x18 start_rev else Ok out.

(** One filter, as a field of its own or an element of a packed list. *)
Definition add_filter (r : cetcd_watch_create_request) (v : Z) : cetcd_watch_create_request :=
  if v =? 0 then r <| wc_filter_noput := true |>
  else if v =? 1 then r <| wc_filter_nodelete := true |> else r.

Definition cetcd_parse_watch_create_request : bytes -> res cetcd_watch_create_request :=
  parse (table [
    (0x0a, Acopy true (fun r d => r <| wc_key := d |>));
    (0x12, Acopy true (fun r d => r <| wc_range_end := d |>));
    (0x18, Avarint (fun r v => Ok (r <| wc_start_rev := i64 v |>)));
    (0x20, Avarint (fun r v => Ok (r <| wc_progress_notify := nonzero v |>)));
    (0x28, Avarint (fun r v => Ok (add_filter r v)));
    (0x30, Avarint (fun r v => Ok (r <| wc_prev_kv := nonzero v |>)));
    (0x38, Avarint (fun r v => Ok (r <| wc_watch_id := i64 v |>)));
    (0x40, Avarint (fun r v => Ok (r <| wc_fragment := nonzero v |>)));
    (0x2a, Apacked add_filter)]) zero_watch_create.

(** ** Transactions *)

Record cetcd_txn_compare : Type := mk_txn_compare {
  tc_result : Z;
  tc_target : Z;
  tc_key : bytes;
  tc_version : Z;
  tc_create_revision : Z;
  tc_mod_revision : Z;
  tc_value : bytes;
  tc_lease : Z;
  tc_range_end : bytes
}.

#[export] Instance txn_compare_eta : RecordEta cetcd_txn_compare := fun r =>
  mk_txn_compare (tc_result r) (tc_target r) (tc_key r) (tc_version r) (tc_create_revision r) (tc_mod_revision r)
    (tc_value r) (tc_lease r) (tc_range_end r).

Definition zero_txn_compare : cetcd_txn_compare := mk_txn_compare 0 0 [] 0 0 0 [] 0 [].

Definition cetcd_encode_txn_compare (key : bytes) (result target version cap : Z) : res bytes :=
  if blen key =? 0 then Fail CETCD_ERR_INVAL
  else
    out ← (if nonzero result then byte_field cap [] 0x08 (u8 result) else Ok []);
    out ← (if nonzero target then byte_field cap out 0x10 (u8 target) else Ok out);
    out ← bytes_field cap out 0x1a key;
    if nonzero version then varint_field 2 cap out 0x20 (u64 version) else Ok out.

Definition txn_compare_fields : list (Z * action cetcd_txn_compare) := [
  (0x08, Avarint (fun r v => Ok (r <| tc_result := i32 v |>)));
  (0x10, Avarint (fun r v => Ok (r <| tc_target := i32 v |>)));
  (0x20, Avarint (fun r v => Ok (r <| tc_version := i64 v |>)));
  (0x28, Avarint (fun r v => Ok (r <| tc_create_revision := i64 v |>)));
  (0x30, Avarint (fun r v => Ok (r <| tc_mod_revision := i64 v |>)));
  (0x40, Avarint (fun r v => Ok (r <| tc_lease := i64 v |>)));
  (0x1a, Acopy false (fun r d => r <| tc_key := d |>));
  (0x3a, Acopy false (fun r d => r <| tc_value := d |>));
  (0x4a, Acopy false (fun r d => r <| tc_range_end := d |>))].

Definition cetcd_parse_txn_compare : bytes -> res cetcd_txn_compare :=
  parse (table txn_compare_fields) zero_txn_compare.

(** The numbers of comparisons and of operations of both branches. *)
Definition cetcd_parse_txn_request : bytes -> res (Z * Z * Z) :=
  parse (table [
    (0x0a, Alength (fun '(c, s, f) _ => (c + 1, s, f)));
    (0x12, Alength (fun '(c, s, f) _ => (c, s + 1, f)));
    (0x1a, Alength (fun '(c, s, f) _ => (c, s, f + 1)))]) (0, 0, 0).

Definition cetcd_encode_txn_op_put (key : bytes) (cap : Z) : res bytes :=
  if blen key =? 0 then Fail CETCD_ERR_INVAL
  else
    inner ← write_bytes_field_ 64 [] 0x0a key;
    bytes_field cap [] 0x12 inner.

(** Whether the operation writes, and its key. *)
Definition cetcd_parse_txn_op_key (key_cap : Z) : bytes -> res (bool * bytes) :=
  let key := table [(0x0a, Abuf key_cap (fun '(w, _) d => (w, d)))] in
  parse (table [
    (0x0a, Amsg (fun '(_, k) => (false, k)) key id);
    (0x12, Amsg (fun '(_, k) => (true, k)) key id);
    (0x1a, Amsg (fun '(_, k) => (true, k)) key id)]) (true, []).

Definition cetcd_leftover_safe_skip_field (m : bytes) (len p tag : Z) : res Z :=
  if tag =? 0 then Ok p else leftover_safe_skip_unknown_at_ m len p tag.

(** ** Members, downgrade *)

Definition cetcd_encode_member_id_request (id cap : Z) : res bytes :=
  if cap =? 0 then Fail CETCD_ERR_INVAL
  else if id =? 0 then Fail CETCD_ERR_INVAL
  else varint_field 1 cap [] 0x08 id.

Definition cetcd_parse_member_id_request : bytes -> res Z :=
  parse (table [(0x08, Avarint (fun _ v => Ok v))]) 0.

(** The URL is written behind a weaker check than a bytes field: one byte for
    the tag and one more, then the payload after its length. *)
Definition cetcd_encode_member_update_request (id : Z) (url : bytes) (cap : Z) : res bytes :=
  if cap =? 0 then Fail CETCD_ERR_INVAL
  else if (id =? 0) || (blen url =? 0) then Fail CETCD_ERR_INVAL
  else
    out ← varint_field 1 cap [] 0x08 id;
    if cap <=? blen out + 1 then Fail CETCD_ERR_OVERFLOW
    else
      out ← put cap out 0x12;
      out ← put_varint cap out (blen url);
      room cap out (blen url);;
      copy_out cap out url.

Definition cetcd_parse_member_update_request (url_cap : Z) : bytes -> res (Z * bytes) :=
  parse (table [
    (0x08, Avarint (fun '(_, url) v => Ok (v, url)));
    (0x12, Aclip url_cap (fun '(id, _) d => (id, d)))]) (0, []).

Definition cetcd_encode_member_add_request (url : bytes) (is_learner : bool) (cap : Z) : res bytes :=
  if blen url =? 0 then Fail CETCD_ERR_INVAL
  else
    out ← write_bytes_field_ cap [] 0x0a url;
    if is_learner then byte_field cap out 0x10 0x01 else Ok out.

Definition cetcd_parse_member_add_request (url_cap : Z) : bytes -> res (bytes * bool) :=
  parse (table [
    (0x0a, Aclip url_cap (fun '(_, l) d => (d, l)));
    (0x10, Avarint (fun '(url, _) v => Ok (url, nonzero v)))]) ([], false).

Definition cetcd_encode_downgrade_request (action : Z) (version : bytes) (cap : Z) : res bytes :=
  if action <? 0 then Fail CETCD_ERR_INVAL
  else
    out ← varint_field 2 cap [] 0x08 action;
    if blen version =? 0 then Ok out else write_bytes_field_ cap out 0x12 version.

Definition cetcd_parse_downgrade_request (version_cap : Z) : bytes -> res (Z * bytes) :=
  parse (table [
    (0x08, Avarint (fun '(_, version) v => up_to INT_MAX (fun v => (v, version)) v));
    (0x12, Abuf version_cap (fun '(a, _) d => (a, d)))]) (0, []).

Definition cetcd_encode_downgrade_response (version : bytes) (cap : Z) : res bytes :=
  if blen version =? 0 then Fail CETCD_ERR_INVAL else write_bytes_field_ cap [] 0x12 version.

Definition cetcd_parse_downgrade_response (version_cap : Z) : bytes -> res bytes :=
  parse (table [(0x12, Abuf version_cap (fun _ d => d))]) [].

Definition cetcd_encode_member_list_request (linearizable : bool) (cap : Z) : res bytes :=
  if cap <? 2 then Fail CETCD_ERR_INVAL else Ok [0x08; if linearizable then 1 else 0].

Definition cetcd_parse_member_list_linearizable : bytes -> res bool :=
  parse (table [(0x08, Avarint (fun _ v => Ok (nonzero v)))]) false.
