(* ===== verification/PbResponses.v ===== *)
(** * Responses (src/server/auto_compact.c)

    The encoders and parsers of the responses, with which the command-line
    client reads them.  Output pointers are given; a buffer of the caller has a
    capacity, and capacity 0 stands for a buffer that is not wanted.  A nested
    message is assembled in a local buffer of the size the code declares. *)

From S2P Require Import Prelude Raft RaftWire Pb PbRequests.

(** ** Shapes

    Many messages carry one field, alone, in a nested message or two levels
    down; the code repeats the same steps for each. *)

(** A varint field, left out when 0. *)
Definition opt_varint (cap tag v : Z) : res bytes :=
  if v =? 0 then Ok [] else varint_field 2 cap [] tag v.

(** A string field, left out when empty. *)
Definition opt_bytes (cap tag : Z) (s : bytes) : res bytes :=
  if blen s =? 0 then Ok [] else write_bytes_field_ cap [] tag s.

(** A varint field in a nested message assembled in a buffer of [size] bytes. *)
Definition opt_in_msg (cap outer size tag v : Z) : res bytes :=
  if v =? 0 then Ok []
  else inner ← varint_field 2 size [] tag v; nested_field cap [] outer inner.

(** A string field in a nested message. *)
Definition opt_bytes_in_msg (cap outer size tag : Z) (s : bytes) : res bytes :=
  if blen s =? 0 then Ok []
  else inner ← write_bytes_field_ size [] tag s; nested_field cap [] outer inner.

(** A field of the key-value pair of a watch event (tag [kv], 0x12 for the new
    pair and 0x1a for the previous one). *)
Definition opt_in_event (cap kv tag v : Z) : res bytes :=
  if v =? 0 then Ok []
  else
    inner ← varint_field 2 16 [] tag v;
    ev ← nested_field 24 [] kv inner;
    nested_field cap [] 0x5a ev.

Definition opt_bytes_in_event (cap kv tag : Z) (s : bytes) : res bytes :=
  if blen s =? 0 then Ok []
  else
    inner ← write_bytes_field_ 64 [] tag s;
    ev ← nested_field 80 [] kv inner;
    nested_field cap [] 0x5a ev.

(** The parsers of these shapes.  A nested message starts from the zero
    value, so the last one counts. *)
Definition varint_of {A} (tag : Z) (init : A) (f : Z -> A) : bytes -> res A :=
  parse (table [(tag, Avarint (fun _ v => Ok (f v)))]) init.

Definition buf_of (tag cap : Z) : bytes -> res bytes :=
  parse (table [(tag, Abuf cap (fun _ d => d))]) [].

Definition varint_in_msg {A} (outer tag : Z) (init : A) (f : Z -> A) : bytes -> res A :=
  parse (table [(outer, Amsg (fun _ => init) (table [(tag, Avarint (fun _ v => Ok (f v)))]) id)]) init.

Definition buf_in_msg (outer tag cap : Z) : bytes -> res bytes :=
  parse (table [(outer, Amsg (fun a => if cap =? 0 then a else []) (table [(tag, Abuf cap (fun _ d => d))]) id)]) [].

Definition varint_in_event {A} (kv tag : Z) (init : A) (f : Z -> A) : bytes -> res A :=
  parse (table [(0x5a, Amsg (fun _ => init) (table [
    (kv, Amsg (fun _ => init) (table [(tag, Avarint (fun _ v => Ok (f v)))]) id)]) id)]) init.

Definition buf_in_event (kv tag cap : Z) : bytes -> res bytes :=
  parse (table [(0x5a, Amsg (fun _ => []) (table [
    (kv, Amsg (fun _ => []) (table [(tag, Abuf cap (fun _ d => d))]) id)]) id)]) [].

(** Parsers that refuse a buffer of size 0. *)
Definition sized (cap : Z) {A} (p : bytes -> res A) (req : bytes) : res A :=
  if cap =? 0 then Fail CETCD_ERR_INVAL else p req.

(** ** Alarms *)

Record cetcd_alarm_member : Type := mk_alarm_member { am_member_id : Z; am_alarm : Z }.

#[export] Instance alarm_member_eta : RecordEta cetcd_alarm_member := fun a => mk_alarm_member (am_member_id a) (am_alarm a).

(** The local buffer has 24 bytes, the tags are written without a check. *)
Definition cetcd_encode_alarm_response_member (member_id alarm cap : Z) : res bytes :=
  if alarm <? 0 then Fail CETCD_ERR_INVAL
  else
    inner ← put 24 [] 0x08;
    inner ← put_varint 24 inner member_id;
    inner ← put 24 inner 0x10;
    inner ← put_varint 24 inner alarm;
    nested_field cap [] 0x12 inner.

(** The first [cap] members and the number of all of them. *)
Definition cetcd_parse_alarm_response (cap : Z) (req : bytes) : res (list cetcd_alarm_member * Z) :=
  '(_, out, n) ← parse (table [
    (0x12, Amsg (fun '(_, out, n) => (mk_alarm_member 0 0, out, n))
      (table [
        (0x08, Avarint (fun '(cur, out, n) v => Ok (cur <| am_member_id := v |>, out, n)));
        (0x10, Avarint (fun '(cur, out, n) v => up_to INT_MAX (fun v => (cur <| am_alarm := v |>, out, n)) v))])
      (fun '(cur, out, n) => (cur, if n <? cap then out ++ [cur] else out, n + 1)))])
    (mk_alarm_member 0 0, [], 0) req;
  Ok (out, n).

(** ** Range responses *)

(** The pair is assembled in a buffer of 128 bytes. *)
Definition cetcd_encode_range_response_kv (key val : bytes) (cap : Z) : res bytes :=
  if blen key =? 0 then Fail CETCD_ERR_INVAL
  else
    kv ← write_bytes_field_ 128 [] 0x0a key;
    kv ← (if blen val =? 0 then Ok kv else write_bytes_field_ 128 kv 0x2a val);
    nested_field cap [] 0x12 kv.

(** The key and value of the last pair that has them, and the number of
    pairs. *)
Definition cetcd_parse_range_response_kv (key_cap value_cap : Z) : bytes -> res (bytes * bytes * Z) :=
  parse (table [
    (0x12, Amsg (fun '(k, v, n) => (k, v, n + 1)) (table [
      (0x0a, Abuf key_cap (fun '(_, v, n) d => (d, v, n)));
      (0x2a, Abuf value_cap (fun '(k, _, n) d => (k, d, n)))]) id)]) ([], [], 0).

Definition cetcd_encode_range_response_kv_lease (lease cap : Z) : res bytes := opt_in_msg cap 0x12 16 0x30 (u64 lease).
Definition cetcd_parse_range_response_kv_lease : bytes -> res Z := varint_in_msg 0x12 0x30 0 i64.
Definition cetcd_encode_range_response_kv_version (version cap : Z) : res bytes := opt_in_msg cap 0x12 16 0x20 (u64 version).
Definition cetcd_parse_range_response_kv_version : bytes -> res Z := varint_in_msg 0x12 0x20 0 i64.
Definition cetcd_encode_range_response_kv_create_rev (create_rev cap : Z) : res bytes := opt_in_msg cap 0x12 16 0x10 (u64 create_rev).
Definition cetcd_parse_range_response_kv_create_rev : bytes -> res Z := varint_in_msg 0x12 0x10 0 i64.
Definition cetcd_encode_range_response_kv_mod_rev (mod_rev cap : Z) : res bytes := opt_in_msg cap 0x12 16 0x18 (u64 mod_rev).
Definition cetcd_parse_range_response_kv_mod_rev : bytes -> res Z := varint_in_msg 0x12 0x18 0 i64.
Definition cetcd_encode_range_response_kv_value (value : bytes) (cap : Z) : res bytes := opt_bytes_in_msg cap 0x12 64 0x2a value.
Definition cetcd_parse_range_response_kv_value (value_cap : Z) : bytes -> res bytes := sized value_cap (buf_in_msg 0x12 0x2a value_cap).
Definition cetcd_encode_range_response_kv_key (key : bytes) (cap : Z) : res bytes := opt_bytes_in_msg cap 0x12 64 0x0a key.
Definition cetcd_parse_range_response_kv_key (key_cap : Z) : bytes -> res bytes := sized key_cap (buf_in_msg 0x12 0x0a key_cap).

Definition cetcd_encode_range_response_count (count : Z) (more : bool) (cap : Z) : res bytes :=
  if count <? 0 then Fail CETCD_ERR_INVAL
  else
    out ← (if more then byte_field cap [] 0x18 0x01 else Ok []);
    varint_field 2 cap out 0x20 count.

Definition cetcd_parse_range_response_count : bytes -> res (Z * bool) :=
  parse (table [
    (0x18, Avarint (fun '(count, _) v => Ok (count, nonzero v)));
    (0x20, Avarint (fun '(_, more) v => Ok (i64 v, more)))]) (0, false).

(** ** Members *)

Definition cetcd_encode_member_list_response_member (id : Z) (url : bytes) (is_learner : bool) (cap : Z) : res bytes :=
  if blen url =? 0 then Fail CETCD_ERR_INVAL
  else
    inner ← put 96 [] 0x08;
    inner ← put_varint 96 inner id;
    inner ← write_bytes_field_ 96 inner 0x1a url;
    inner ← (if is_learner then byte_field 96 inner 0x28 0x01 else Ok inner);
    nested_field cap [] 0x12 inner.

(** The last member (id, URL, learner flag) and the number of members.  Names
    and client URLs are skipped. *)
Definition cetcd_parse_member_list_response (url_cap : Z) : bytes -> res (Z * bytes * bool * Z) :=
  parse (table [
    (0x12, Amsg (fun '(_, url, _, n) => (0, if url_cap =? 0 then url else [], false, n + 1)) (table [
      (0x08, Avarint (fun '(_, url, l, n) v => Ok (v, url, l, n)));
      (0x28, Avarint (fun '(id, url, _, n) v => Ok (id, url, nonzero v, n)));
      (0x12, skipped);
      (0x1a, Abuf url_cap (fun '(id, _, l, n) d => (id, d, l, n)));
      (0x22, skipped)]) id)]) (0, [], false, 0).

Definition cetcd_encode_member_list_client_url (url : bytes) (cap : Z) : res bytes := 
  if blen url =? 0 then Fail CETCD_ERR_INVAL else opt_bytes_in_msg cap 0x12 96 0x22 url.
Definition cetcd_parse_member_list_client_url (url_cap : Z) : bytes -> res bytes := buf_in_msg 0x12 0x22 url_cap.
Definition cetcd_encode_member_list_name (name : bytes) (cap : Z) : res bytes := 
  if blen name =? 0 then Fail CETCD_ERR_INVAL else opt_bytes_in_msg cap 0x12 96 0x12 name.
Definition cetcd_parse_member_list_name (name_cap : Z) : bytes -> res bytes := buf_in_msg 0x12 0x12 name_cap.

Definition cetcd_encode_member_list_is_learner (is_learner : bool) (cap : Z) : res bytes :=
  if negb is_learner then Ok []
  else inner ← byte_field 8 [] 0x28 0x01; nested_field cap [] 0x12 inner.
Definition cetcd_parse_member_list_is_learner : bytes -> res bool := varint_in_msg 0x12 0x28 false nonzero.

Definition cetcd_encode_member_list_id (member cap : Z) : res bytes := opt_in_msg cap 0x12 16 0x08 member.
Definition cetcd_parse_member_list_id : bytes -> res Z := varint_in_msg 0x12 0x08 0 id.
Definition cetcd_encode_member_list_peer_url (url : bytes) (cap : Z) : res bytes := opt_bytes_in_msg cap 0x12 96 0x1a url.
Definition cetcd_parse_member_list_peer_url (url_cap : Z) : bytes -> res bytes := sized url_cap (buf_in_msg 0x12 0x1a url_cap).

(** ** Status of authentication and of the server *)

Definition cetcd_encode_auth_status_response (enabled : bool) (cap : Z) : res bytes :=
  if cap <? 2 then Fail CETCD_ERR_INVAL else Ok [0x10; if enabled then 1 else 0].

Definition cetcd_parse_auth_status_response : bytes -> res bool :=
  parse (table [
    (0x10, Avarint (fun _ v => Ok (nonzero v)));
    (0x18, Avarint (fun e _ => Ok e))]) false.

Definition cetcd_encode_auth_status_auth_revision (auth_rev cap : Z) : res bytes := opt_varint cap 0x18 auth_rev.
Definition cetcd_parse_auth_status_auth_revision : bytes -> res Z := varint_of 0x18 0 id.

Definition cetcd_encode_string_list_item (s : bytes) (cap : Z) : res bytes :=
  if blen s =? 0 then Fail CETCD_ERR_INVAL else write_bytes_field_ cap [] 0x12 s.

(** The last name and the number of names. *)
Definition cetcd_parse_string_list_response (name_cap : Z) (req : bytes) : res (bytes * Z) :=
  parse (table [
    (0x12, if name_cap =? 0 then Alength (fun '(name, n) _ => (name, n + 1))
           else Abuf name_cap (fun '(_, n) d => (d, n + 1)))]) ([], 0) req.

Definition cetcd_encode_status_response (version : bytes) (db_size : Z) (is_learner : bool) (cap : Z) : res bytes :=
  if blen version =? 0 then Fail CETCD_ERR_INVAL
  else
    out ← write_bytes_field_ cap [] 0x12 version;
    out ← varint_field 2 cap out 0x18 db_size;
    if is_learner then byte_field cap out 0x50 0x01 else Ok out.

Definition cetcd_parse_status_response (version_cap : Z) : bytes -> res (bytes * Z * bool) :=
  let ignore := Avarint (fun a _ => Ok a) in
  parse (table [
    (0x12, Abuf version_cap (fun '(_, s, l) d => (d, s, l)));
    (0x42, skipped);
    (0x18, Avarint (fun '(v, _, l) s => Ok (v, s, l)));
    (0x20, ignore); (0x28, ignore); (0x30, ignore); (0x38, ignore); (0x48, ignore);
    (0x50, Avarint (fun '(v, s, _) l => Ok (v, s, nonzero l)))]) ([], 0, false).

Definition cetcd_encode_status_errors (error : bytes) (cap : Z) : res bytes := opt_bytes cap 0x42 error.
Definition cetcd_parse_status_errors (error_cap : Z) : bytes -> res bytes := buf_of 0x42 error_cap.
Definition cetcd_encode_status_db_size_in_use (db_inuse cap : Z) : res bytes := opt_varint cap 0x48 db_inuse.
Definition cetcd_parse_status_db_size_in_use : bytes -> res Z := varint_of 0x48 0 id.
Definition cetcd_encode_status_db_size (db_size cap : Z) : res bytes := opt_varint cap 0x18 db_size.
Definition cetcd_parse_status_db_size : bytes -> res Z := varint_of 0x18 0 id.
Definition cetcd_encode_status_version (version : bytes) (cap : Z) : res bytes := opt_bytes cap 0x12 version.
Definition cetcd_parse_status_version (version_cap : Z) : bytes -> res bytes := buf_of 0x12 version_cap.
Definition cetcd_encode_status_is_learner (is_learner : bool) (cap : Z) : res bytes :=
  if negb is_learner then Ok [] else byte_field cap [] 0x50 0x01.
Definition cetcd_parse_status_is_learner : bytes -> res bool := varint_of 0x50 false nonzero.
Definition cetcd_encode_status_leader (leader cap : Z) : res bytes := opt_varint cap 0x20 leader.
Definition cetcd_parse_status_leader : bytes -> res Z := varint_of 0x20 0 id.
Definition cetcd_encode_status_raft_index (raft_index cap : Z) : res bytes := opt_varint cap 0x28 raft_index.
Definition cetcd_parse_status_raft_index : bytes -> res Z := varint_of 0x28 0 id.
Definition cetcd_encode_status_raft_term (raft_term cap : Z) : res bytes := opt_varint cap 0x30 raft_term.
Definition cetcd_parse_status_raft_term : bytes -> res Z := varint_of 0x30 0 id.
Definition cetcd_encode_status_raft_applied (raft_applied cap : Z) : res bytes := opt_varint cap 0x38 raft_applied.
Definition cetcd_parse_status_raft_applied : bytes -> res Z := varint_of 0x38 0 id.

(** ** Leases *)

Definition cetcd_encode_lease_grant_response (id ttl cap : Z) : res bytes :=
  if id <=? 0 then Fail CETCD_ERR_INVAL
  else
    out ← varint_field 2 cap [] 0x10 id;
    varint_field 2 cap out 0x18 (if 0 <? ttl then ttl else 0).

Definition cetcd_parse_lease_grant_response : bytes -> res (Z * Z) :=
  parse (table [
    (0x10, Avarint (fun '(_, ttl) v => Ok (i64 v, ttl)));
    (0x18, Avarint (fun '(id, _) v => Ok (id, i64 v)))]) (0, 0).

Definition cetcd_encode_lease_grant_error (error : bytes) (cap : Z) : res bytes := opt_bytes cap 0x22 error.
Definition cetcd_parse_lease_grant_error (error_cap : Z) : bytes -> res bytes := buf_of 0x22 error_cap.

Definition cetcd_encode_lease_keepalive_response (id ttl cap : Z) : res bytes := cetcd_encode_lease_grant_response id ttl cap.
Definition cetcd_parse_lease_keepalive_response : bytes -> res (Z * Z) := cetcd_parse_lease_grant_response.

Definition cetcd_encode_lease_ttl_response (id ttl granted : Z) (key : bytes) (cap : Z) : res bytes :=
  if id <=? 0 then Fail CETCD_ERR_INVAL
  else
    out ← varint_field 2 cap [] 0x10 id;
    out ← varint_field 2 cap out 0x18 (if 0 <? ttl then ttl else 0);
    out ← varint_field 2 cap out 0x20 (if 0 <? granted then granted else 0);
    if blen key =? 0 then Ok out else write_bytes_field_ cap out 0x2a key.

Definition cetcd_parse_lease_ttl_response (key_cap : Z) : bytes -> res (Z * Z * Z * bytes) :=
  parse (table [
    (0x10, Avarint (fun '(_, ttl, granted, key) v => Ok (i64 v, ttl, granted, key)));
    (0x18, Avarint (fun '(id, _, granted, key) v => Ok (id, i64 v, granted, key)));
    (0x20, Avarint (fun '(id, ttl, _, key) v => Ok (id, ttl, i64 v, key)));
    (0x2a, Abuf key_cap (fun '(id, ttl, granted, _) d => (id, ttl, granted, d)))]) (0, 0, 0, []).

Definition cetcd_encode_lease_ttl_key (key : bytes) (cap : Z) : res bytes := opt_bytes cap 0x2a key.
Definition cetcd_parse_lease_ttl_key (key_cap : Z) : bytes -> res bytes := buf_of 0x2a key_cap.
Definition cetcd_encode_lease_ttl_granted (granted cap : Z) : res bytes := opt_varint cap 0x20 (u64 granted).
Definition cetcd_parse_lease_ttl_granted : bytes -> res Z := varint_of 0x20 0 i64.
Definition cetcd_encode_lease_ttl_remaining (ttl cap : Z) : res bytes := opt_varint cap 0x18 (u64 ttl).
Definition cetcd_parse_lease_ttl_remaining : bytes -> res Z := varint_of 0x18 0 i64.
Definition cetcd_encode_lease_ttl_id (lease cap : Z) : res bytes := opt_varint cap 0x10 (u64 lease).
Definition cetcd_parse_lease_ttl_id : bytes -> res Z := varint_of 0x10 0 i64.

(** The local buffer has 16 bytes, the tag is written without a check. *)
Definition cetcd_encode_lease_list_item (id cap : Z) : res bytes :=
  if id <=? 0 then Fail CETCD_ERR_INVAL
  else
    inner ← put 16 [] 0x08;
    inner ← put_varint 16 inner id;
    nested_field cap [] 0x12 inner.

(** The last id and the number of leases. *)
Definition cetcd_parse_lease_list_response : bytes -> res (Z * Z) :=
  parse (table [
    (0x12, Amsg (fun '(_, n) => (0, n + 1)) (table [
      (0x08, Avarint (fun '(_, n) v => Ok (i64 v, n)))]) id)]) (0, 0).

(** ** Tokens, transactions, hashes, headers, snapshots *)

Definition cetcd_encode_authenticate_response (token : bytes) (cap : Z) : res bytes :=
  if blen token =? 0 then Fail CETCD_ERR_INVAL else write_bytes_field_ cap [] 0x12 token.

Definition cetcd_parse_authenticate_response (token_cap : Z) : bytes -> res bytes :=
  sized token_cap (buf_of 0x12 token_cap).

Definition cetcd_encode_txn_succeeded (succeeded : bool) (cap : Z) : res bytes :=
  if cap <? 2 then Fail CETCD_ERR_INVAL else Ok [0x10; if succeeded then 1 else 0].
Definition cetcd_parse_txn_succeeded : bytes -> res bool := varint_of 0x10 false nonzero.

Definition cetcd_encode_hash_response (hash compact_rev cap : Z) : res bytes :=
  out ← varint_field 2 cap [] 0x10 hash;
  if 0 <=? compact_rev then varint_field 2 cap out 0x18 compact_rev else Ok out.

Definition cetcd_parse_hash_response : bytes -> res (Z * Z) :=
  parse (table [
    (0x10, Avarint (fun '(_, rev) v => up_to 4294967295 (fun v => (v, rev)) v));
    (0x18, Avarint (fun '(hash, _) v => Ok (hash, i64 v)))]) (0, 0).

(** The local buffer has 48 bytes, the tags are written without a check. *)
Definition cetcd_encode_response_header (cluster_id member_id revision raft_term cap : Z) : res bytes :=
  inner ← put 48 [] 0x08;
  inner ← put_varint 48 inner cluster_id;
  inner ← put 48 inner 0x10;
  inner ← put_varint 48 inner member_id;
  inner ← put 48 inner 0x18;
  inner ← put_varint 48 inner (if 0 <? revision then revision else 0);
  inner ← put 48 inner 0x20;
  inner ← put_varint 48 inner raft_term;
  nested_field cap [] 0x0a inner.

Definition cetcd_parse_response_header : bytes -> res (Z * Z * Z * Z) :=
  parse (table [
    (0x0a, Amsg (fun _ => (0, 0, 0, 0)) (table [
      (0x08, Avarint (fun '(_, m, r, t) v => Ok (v, m, r, t)));
      (0x10, Avarint (fun '(c, _, r, t) v => Ok (c, v, r, t)));
      (0x18, Avarint (fun '(c, m, _, t) v => Ok (c, m, i64 v, t)));
      (0x20, Avarint (fun '(c, m, r, _) v => Ok (c, m, r, v)))]) id)]) (0, 0, 0, 0).

Definition cetcd_encode_snapshot_response (blob : bytes) (cap : Z) : res bytes :=
  if blen blob =? 0 then Fail CETCD_ERR_INVAL else write_bytes_field_ cap [] 0x1a blob.

(** The blob and its length, the length also without a buffer. *)
Definition cetcd_parse_snapshot_response (blob_cap : Z) : bytes -> res (bytes * Z) :=
  parse (table [
    (0x1a, if blob_cap =? 0 then Alength (fun '(blob, _) skip => (blob, skip))
           else Abuf blob_cap (fun _ d => (d, blen d)))]) ([], 0).

(** ** Roles *)

Definition cetcd_encode_role_get_perm (perm_type : Z) (key : bytes) (cap : Z) : res bytes :=
  if blen key =? 0 then Fail CETCD_ERR_INVAL
  else if (perm_type <? 0) || (2 <? perm_type) then Fail CETCD_ERR_INVAL
  else
    inner ← byte_field 96 [] 0x08 perm_type;
    inner ← write_bytes_field_ 96 inner 0x12 key;
    nested_field cap [] 0x12 inner.

(** The last permission and the number of permissions. *)
Definition cetcd_parse_role_get_response (key_cap : Z) : bytes -> res (Z * bytes * Z) :=
  parse (table [
    (0x12, Amsg (fun '(_, key, n) => (0, if key_cap =? 0 then key else [], n + 1)) (table [
      (0x08, Avarint (fun '(_, key, n) v => Ok (i32 v, key, n)));
      (0x12, Abuf key_cap (fun '(p, _, n) d => (p, d, n)));
      (0x1a, skipped)]) id)]) (0, [], 0).

Definition cetcd_encode_role_get_range_end (range_end : bytes) (cap : Z) : res bytes := 
  if blen range_end =? 0 then Fail CETCD_ERR_INVAL else opt_bytes_in_msg cap 0x12 96 0x1a range_end.
Definition cetcd_parse_role_get_range_end (range_end_cap : Z) : bytes -> res bytes := buf_in_msg 0x12 0x1a range_end_cap.

Definition cetcd_encode_role_get_perm_type (perm_type cap : Z) : res bytes :=
  if (perm_type <? 0) || (2 <? perm_type) then Fail CETCD_ERR_INVAL
  else if perm_type =? 0 then Ok []
  else perm ← byte_field 8 [] 0x08 perm_type; nested_field cap [] 0x12 perm.
Definition cetcd_parse_role_get_perm_type : bytes -> res Z := varint_in_msg 0x12 0x08 0 i32.

Definition cetcd_encode_role_get_perm_key (key : bytes) (cap : Z) : res bytes := opt_bytes_in_msg cap 0x12 64 0x12 key.
Definition cetcd_parse_role_get_perm_key (key_cap : Z) : bytes -> res bytes := sized key_cap (buf_in_msg 0x12 0x12 key_cap).

(** ** Watch responses *)

Definition cetcd_encode_watch_event_kv (type : Z) (key : bytes) (cap : Z) : res bytes :=
  if blen key =? 0 then Fail CETCD_ERR_INVAL
  else if (type <? 0) || (1 <? type) then Fail CETCD_ERR_INVAL
  else
    kv ← write_bytes_field_ 64 [] 0x0a key;
    ev ← byte_field 96 [] 0x08 type;
    ev ← nested_field 96 ev 0x12 kv;
    nested_field cap [] 0x5a ev.

(** Type and key of the last event and the number of events; the previous
    pair is checked but not returned. *)
Definition cetcd_parse_watch_response (key_cap : Z) : bytes -> res (Z * bytes * Z) :=
  parse (table [
    (0x5a, Amsg (fun '(_, key, n) => (0, if key_cap =? 0 then key else [], n + 1)) (table [
      (0x08, Avarint (fun '(_, key, n) v => Ok (i32 v, key, n)));
      (0x12, Amsg id (table [(0x0a, Abuf key_cap (fun '(t, _, n) d => (t, d, n))); (0x2a, skipped)]) id);
      (0x1a, Amsg id (table [(0x0a, skipped); (0x2a, skipped)]) id)]) id)]) (0, [], 0).

Definition cetcd_encode_watch_event_kv_lease (lease cap : Z) : res bytes := opt_in_event cap 0x12 0x30 (u64 lease).
Definition cetcd_parse_watch_event_kv_lease : bytes -> res Z := varint_in_event 0x12 0x30 0 i64.
Definition cetcd_encode_watch_event_kv_version (version cap : Z) : res bytes := opt_in_event cap 0x12 0x20 (u64 version).
Definition cetcd_parse_watch_event_kv_version : bytes -> res Z := varint_in_event 0x12 0x20 0 i64.
Definition cetcd_encode_watch_event_kv_create_rev (create_rev cap : Z) : res bytes := opt_in_event cap 0x12 0x10 (u64 create_rev).
Definition cetcd_parse_watch_event_kv_create_rev : bytes -> res Z := varint_in_event 0x12 0x10 0 i64.
Definition cetcd_encode_watch_event_kv_mod_rev (mod_rev cap : Z) : res bytes := opt_in_event cap 0x12 0x18 (u64 mod_rev).
Definition cetcd_parse_watch_event_kv_mod_rev : bytes -> res Z := varint_in_event 0x12 0x18 0 i64.
Definition cetcd_encode_watch_event_kv_value (value : bytes) (cap : Z) : res bytes := opt_bytes_in_event cap 0x12 0x2a value.
Definition cetcd_parse_watch_event_kv_value (value_cap : Z) : bytes -> res bytes := sized value_cap (buf_in_event 0x12 0x2a value_cap).
Definition cetcd_encode_watch_event_kv_key (key : bytes) (cap : Z) : res bytes := opt_bytes_in_event cap 0x12 0x0a key.
Definition cetcd_parse_watch_event_kv_key (key_cap : Z) : bytes -> res bytes := sized key_cap (buf_in_event 0x12 0x0a key_cap).

Definition cetcd_encode_watch_event_type (type cap : Z) : res bytes :=
  if (type <? 0) || (1 <? type) then Fail CETCD_ERR_INVAL
  else if type =? 0 then Ok []
  else ev ← byte_field 8 [] 0x08 type; nested_field cap [] 0x5a ev.
Definition cetcd_parse_watch_event_type : bytes -> res Z := varint_in_msg 0x5a 0x08 0 i32.

Definition cetcd_encode_watch_event_prev_kv_create_rev (create_rev cap : Z) : res bytes := opt_in_event cap 0x1a 0x10 (u64 create_rev).
Definition cetcd_parse_watch_event_prev_kv_create_rev : bytes -> res Z := varint_in_event 0x1a 0x10 0 i64.
Definition cetcd_encode_watch_event_prev_kv_mod_rev (mod_rev cap : Z) : res bytes := opt_in_event cap 0x1a 0x18 (u64 mod_rev).
Definition cetcd_parse_watch_event_prev_kv_mod_rev : bytes -> res Z := varint_in_event 0x1a 0x18 0 i64.
Definition cetcd_encode_watch_event_prev_kv_version (version cap : Z) : res bytes := opt_in_event cap 0x1a 0x20 (u64 version).
Definition cetcd_parse_watch_event_prev_kv_version : bytes -> res Z := varint_in_event 0x1a 0x20 0 i64.
Definition cetcd_encode_watch_event_prev_kv_key (key : bytes) (cap : Z) : res bytes := opt_bytes_in_event cap 0x1a 0x0a key.
Definition cetcd_parse_watch_event_prev_kv_key (key_cap : Z) : bytes -> res bytes := sized key_cap (buf_in_event 0x1a 0x0a key_cap).
Definition cetcd_encode_watch_event_prev_kv_value (value : bytes) (cap : Z) : res bytes := opt_bytes_in_event cap 0x1a 0x2a value.
Definition cetcd_parse_watch_event_prev_kv_value (value_cap : Z) : bytes -> res bytes := sized value_cap (buf_in_event 0x1a 0x2a value_cap).

Definition cetcd_encode_watch_fragment (fragment : bool) (cap : Z) : res bytes :=
  if negb fragment then Ok [] else if cap <? 2 then Fail CETCD_ERR_OVERFLOW else Ok [0x38; 0x01].
Definition cetcd_parse_watch_fragment : bytes -> res bool := varint_of 0x38 false nonzero.

Definition CETCD_DEFAULT_MAX_REQUEST_BYTES : Z := 1572864.

Definition cetcd_watch_fragment_over_budget (encoded max_request_bytes : Z) : bool :=
  (if max_request_bytes =? 0 then CETCD_DEFAULT_MAX_REQUEST_BYTES else max_request_bytes) <? encoded.

Definition cetcd_encode_watch_cancel_reason (reason : bytes) (cap : Z) : res bytes := opt_bytes cap 0x32 reason.
Definition cetcd_parse_watch_cancel_reason (reason_cap : Z) : bytes -> res bytes := buf_of 0x32 reason_cap.

(** ** Delete responses *)

Definition cetcd_encode_delete_range_prev_kv (key : bytes) (cap : Z) : res bytes :=
  if blen key =? 0 then Fail CETCD_ERR_INVAL
  else kv ← write_bytes_field_ 64 [] 0x0a key; nested_field cap [] 0x1a kv.

(** The key of the last pair and the number of pairs. *)
Definition cetcd_parse_delete_range_response (key_cap : Z) : bytes -> res (bytes * Z) :=
  parse (table [
    (0x1a, Amsg (fun '(key, n) => (if key_cap =? 0 then key else [], n + 1)) (table [
      (0x0a, Abuf key_cap (fun '(_, n) d => (d, n)));
      (0x2a, skipped)]) id)]) ([], 0).

Definition cetcd_encode_delete_range_deleted (deleted cap : Z) : res bytes :=
  if deleted <? 0 then Fail CETCD_ERR_INVAL else varint_field 2 cap [] 0x10 deleted.
Definition cetcd_parse_delete_range_deleted : bytes -> res Z := varint_of 0x10 0 i64.

Definition cetcd_encode_delete_range_prev_kv_value (value : bytes) (cap : Z) : res bytes := opt_bytes_in_msg cap 0x1a 64 0x2a value.
Definition cetcd_parse_delete_range_prev_kv_value (value_cap : Z) : bytes -> res bytes := sized value_cap (buf_in_msg 0x1a 0x2a value_cap).
Definition cetcd_encode_delete_range_prev_kv_lease (lease cap : Z) : res bytes := opt_in_msg cap 0x1a 16 0x30 (u64 lease).
Definition cetcd_parse_delete_range_prev_kv_lease : bytes -> res Z := varint_in_msg 0x1a 0x30 0 i64.
Definition cetcd_encode_delete_range_prev_kv_version (version cap : Z) : res bytes := opt_in_msg cap 0x1a 16 0x20 (u64 version).
Definition cetcd_parse_delete_range_prev_kv_version : bytes -> res Z := varint_in_msg 0x1a 0x20 0 i64.
Definition cetcd_encode_delete_range_prev_kv_create_rev (create_rev cap : Z) : res bytes := opt_in_msg cap 0x1a 16 0x10 (u64 create_rev).
Definition cetcd_parse_delete_range_prev_kv_create_rev : bytes -> res Z := varint_in_msg 0x1a 0x10 0 i64.
Definition cetcd_encode_delete_range_prev_kv_mod_rev (mod_rev cap : Z) : res bytes := opt_in_msg cap 0x1a 16 0x18 (u64 mod_rev).
Definition cetcd_parse_delete_range_prev_kv_mod_rev : bytes -> res Z := varint_in_msg 0x1a 0x18 0 i64.
Definition cetcd_encode_delete_range_prev_kv_key (key : bytes) (cap : Z) : res bytes := opt_bytes_in_msg cap 0x1a 64 0x0a key.
Definition cetcd_parse_delete_range_prev_kv_key (key_cap : Z) : bytes -> res bytes := sized key_cap (buf_in_msg 0x1a 0x0a key_cap).
