(* ===== verification/PbSafe.v ===== *)
(** * Protobuf messages: termination and memory safety

    On any bytes, a parser ends with a result or an error and reads only the
    message, unless a length field makes a position wrap around; a message of
    eleven bytes shows what happens then.  At the end, the claims on the request
    parsers: the meaning of a well-formed message and the error on a truncated
    one as well. *)

From S2P Require Import Prelude Raft RaftWire Pb PbProps PbRequests PbResponses.

(** ** Termination and memory safety on any bytes *)

Definition defined {A} (r : res A) : Prop := match r with Ok _ | Fail _ => True | Undef | Loop => False end.

(** The functions of a table are total, its buffers have a size, and what reads
    a length belongs to a tag of wire type 2. *)
Fixpoint action_ok {A} (tag : Z) (x : action A) : Prop :=
  match x with
  | Askip => True
  | Avarint f => forall a v, defined (f a v)
  | Aclip cap _ => Z.land tag 7 = 2 /\ 0 <= cap
  | Amsg _ sub _ | Ainline sub => Z.land tag 7 = 2 /\ forall tag, action_ok tag (sub tag)
  | _ => Z.land tag 7 = 2
  end.

(** No byte that can be the tag of a length-delimited field (wire type 2) is
    followed by a length so large that adding it to its position exceeds 64
    bits. *)
Definition no_wrap (m : bytes) : Prop :=
  forall p tag v q, 0 <= p -> m !! Z.to_nat p = Some tag -> Z.land tag 7 = 2 ->
    leftover_safe_varint_at_ m (blen m) (p + 1) = Ok (v, q) -> q + v < 18446744073709551616.

Lemma varint_loop_safe n m len : len <= blen m -> forall p v shift,
  0 <= p -> 0 <= v -> 0 <= shift <= 63 -> 63 < shift + 7 * Z.of_nat n ->
  varint_loop n m len p v shift = Fail CETCD_ERR_INVAL \/
  exists v' q, varint_loop n m len p v shift = Ok (v', q) /\ p < q <= len /\ 0 <= v' /\
    varint_loop n m (blen m) p v shift = Ok (v', q).
Proof.
  intros Hl. induction n as [|n IH]; intros p v shift Hp Hv Hs Hn; [lia|]. cbn [varint_loop].
  destruct (Z.leb_spec len p); [by left|]. destruct (Z.leb_spec (blen m) p); [lia|].
  destruct (m !! Z.to_nat p) as [b|] eqn:Eb.
  2: { apply lookup_ge_None in Eb. unfold blen in *. lia. }
  cbv zeta. set (v1 := Z.lor v _). assert (Hv1 : 0 <= v1).
  { apply Z.lor_nonneg. split; [done|]. pose proof (u64_range (Z.shiftl (Z.land b 127) shift)) as Hr. apply Hr. }
  destruct (Z.land b 128 =? 0); [right; exists v1, (p + 1); split_and!; try done; lia|].
  destruct (Z.ltb_spec 63 (shift + 7)); [by left|].
  destruct (IH (p + 1) v1 (shift + 7)) as [->|(v' & q & -> & Hq & Hv' & ->)]; [lia|done|lia|lia|by left|].
  right. exists v', q. split_and!; try done; lia.
Qed.

Lemma varint_loop_drop n m i : 0 <= i -> forall len p v shift, 0 <= p ->
  varint_loop n m (i + len) (i + p) v shift =
  '(v, q) ← varint_loop n (drop (Z.to_nat i) m) len p v shift; Ok (v, i + q).
Proof.
  intros Hi. induction n as [|n IH]; intros len p v shift Hp; [done|]. cbn [varint_loop].
  rewrite lookup_drop, <- Z2Nat.inj_add by done.
  destruct (Z.leb_spec (i + len) (i + p)), (Z.leb_spec len p); try lia; [done|].
  destruct (m !! Z.to_nat (i + p)); [|done]. cbv zeta. destruct (_ =? 0); [cbn; do 2 f_equal; lia|].
  destruct (63 <? shift + 7); [done|]. rewrite <- IH by lia. f_equal. lia.
Qed.

Lemma no_wrap_drop m i : 0 <= i <= blen m -> no_wrap m -> no_wrap (drop (Z.to_nat i) m).
Proof.
  intros Hi Hw p tag v q Hp Ht H2 H. unfold leftover_safe_varint_at_ in *.
  assert (Hl : blen m = i + blen (drop (Z.to_nat i) m)) by (unfold blen in *; rewrite length_drop; lia).
  rewrite lookup_drop, <- Z2Nat.inj_add in Ht by lia.
  pose proof (Hw (i + p) tag v (i + q) ltac:(lia) Ht H2) as Hx. unfold leftover_safe_varint_at_ in Hx.
  rewrite Hl, <- Z.add_assoc, varint_loop_drop, H in Hx by lia. specialize (Hx eq_refl). lia.
Qed.

Section safe.
Context (m : bytes) (len : Z).
Hypothesis Hlen : len <= blen m.
Hypothesis Hwrap : no_wrap m.

Lemma varint_at_safe p : 0 <= p ->
  leftover_safe_varint_at_ m len p = Fail CETCD_ERR_INVAL \/
  exists v q, leftover_safe_varint_at_ m len p = Ok (v, q) /\ p < q <= len /\ 0 <= v /\
    leftover_safe_varint_at_ m (blen m) p = Ok (v, q).
Proof using Hlen.
  intros Hp. unfold leftover_safe_varint_at_.
  destruct (varint_loop_safe 10 m len Hlen p 0 0) as [->|(v & q & -> & Hq & Hv & H)]; try lia; [by left|].
  right. exists v, q. by split_and!; try lia.
Qed.

Lemma delim_at_safe p tag : 0 <= p -> m !! Z.to_nat p = Some tag -> Z.land tag 7 = 2 ->
  delim_at m len (p + 1) = Fail CETCD_ERR_INVAL \/
  exists skip q, delim_at m len (p + 1) = Ok (skip, q) /\ p < q /\ 0 <= skip /\ q + skip <= len /\
    u64 (q + skip) = q + skip.
Proof using Hlen Hwrap.
  intros Hp Ht H2. unfold delim_at. destruct (varint_at_safe (p + 1) ltac:(lia)) as [->|(v & q & -> & Hq & Hv & H)]; [by left|].
  pose proof (Hwrap p tag v q Hp Ht H2 H) as Hw.
  cbn [mbind res_bind]. rewrite u64_small by (unfold in_u64; lia). destruct (Z.ltb_spec len (q + v)); [by left|].
  right. exists v, q. rewrite u64_small by (unfold in_u64; lia). split_and!; try done; lia.
Qed.

Lemma mem_read_safe p n : 0 <= p -> p + n <= len -> exists d, mem_read m p n = Ok d.
Proof using Hlen.
  intros Hp Hn. unfold mem_read. destruct (Z.ltb_spec (blen m) (p + n)); [lia|]. eauto.
Qed.
End safe.

Lemma packed_loop_safe {A} (f : A -> Z -> A) m len n : len <= blen m -> forall p a,
  0 <= p -> len - p < Z.of_nat n -> defined (packed_loop n f m len p a).
Proof.
  intros Hl. induction n as [|n IH]; intros p a Hp Hn; cbn [packed_loop]; (destruct (Z.leb_spec len p); [done|lia || idtac]).
  destruct (varint_at_safe m len Hl p Hp) as [->|(v & q & -> & Hq & _)]; [done|]. cbn [mbind res_bind]. apply IH; lia.
Qed.

(** The result of a run that stays inside the message. *)
Definition ends_at {A} (q : Z) (r : res (A * Z)) : Prop :=
  match r with Ok (_, p) => p = q | Fail _ => True | Undef | Loop => False end.

Lemma run_safe n : forall A (t : Z -> action A) m len p a,
  (forall tag, action_ok tag (t tag)) -> 0 <= p -> len <= blen m -> no_wrap m -> len - p < Z.of_nat n ->
  ends_at (Z.max p len) (run n t m len p a).
Proof.
  induction n as [|n IH]; intros A t m len p a Ht Hp Hl Hw Hn; cbn [run];
    (destruct (Z.leb_spec len p); [cbn; lia|]); [lia|].
  destruct (m !! Z.to_nat p) as [tag|] eqn:Em.
  2: { apply lookup_ge_None in Em. unfold blen in *. lia. }
  cbv zeta.
  assert (Hgo : forall q a, p < q <= len -> ends_at (Z.max p len) (run n t m len q a)).
  { intros q a' Hq. replace (Z.max p len) with (Z.max q len) by lia. apply IH; [done|lia|done|done|lia]. }
  destruct (tag =? 0); [apply Hgo; lia|]. pose proof (Ht tag) as Hx.
  pose proof (varint_at_safe m len Hl (p + 1) ltac:(lia)) as Hv. pose proof (delim_at_safe m len Hl Hw p tag Hp Em) as Hdel.
  destruct (t tag) as [|f|f|nul f|cap f|cap f|f|start sub fin|sub]; cbn [action_ok] in Hx;
    unfold leftover_safe_skip_unknown_at_, leftover_safe_copy_bytes_at_.
  { destruct (Z.land tag 7 =? 0); [destruct Hv as [->|(v & r & -> & Hr & Hv0 & _)]; cbn [mbind res_bind]; [exact I|apply Hgo; lia]|].
    destruct (Z.eqb_spec (Z.land tag 7) 2) as [H2|]; cbn [mbind res_bind]; [|exact I].
    destruct (Hdel H2) as [->|(skip & q & -> & Hq & Hs & Hle & Hu)]; cbn [mbind res_bind]; [exact I|]. rewrite Hu. apply Hgo; lia. }
  { destruct Hv as [->|(v & r & -> & Hr & Hv0 & _)]; cbn [mbind res_bind]; [exact I|].
    specialize (Hx a v). destruct (f a v); cbn [mbind res_bind]; [apply Hgo; lia|exact I|done|done]. }
  all: assert (H2 : Z.land tag 7 = 2) by tauto; destruct (Hdel H2) as [->|(skip & q & -> & Hq & Hs & Hle & Hu)]; cbn [mbind res_bind]; [exact I|].
  - rewrite Hu. apply Hgo; lia.
  - destruct (skip =? 0); cbn [mbind res_bind]; [apply Hgo; lia|]. destruct (PTRDIFF_MAX <? _); [exact I|].
    destruct (mem_read_safe m len Hl q skip ltac:(lia) Hle) as [d ->]. cbn [mbind res_bind]. rewrite Hu. apply Hgo; lia.
  - rewrite Hu. destruct (cap =? 0); [apply Hgo; lia|]. destruct (cap <=? skip); [exact I|].
    destruct (mem_read_safe m len Hl q skip ltac:(lia) Hle) as [d ->]. cbn [mbind res_bind]. apply Hgo; lia.
  - rewrite Hu. destruct (Z.eqb_spec cap 0); [apply Hgo; lia|].
    destruct (mem_read_safe m len Hl q (Z.min skip (cap - 1)) ltac:(lia) ltac:(lia)) as [d ->]. cbn [mbind res_bind]. apply Hgo; lia.
  - assert (Hdl : skip <= blen (drop (Z.to_nat q) m)) by (unfold blen in *; rewrite length_drop; lia).
    pose proof (packed_loop_safe f _ skip n Hdl 0 a ltac:(lia) ltac:(lia)) as Hpk.
    destruct (packed_loop n f (drop (Z.to_nat q) m) skip 0 a); cbn [mbind res_bind]; [rewrite Hu; apply Hgo; lia|exact I|done|done].
  - assert (Hdl : skip <= blen (drop (Z.to_nat q) m)) by (unfold blen in *; rewrite length_drop; lia).
    pose proof (IH A sub (drop (Z.to_nat q) m) skip 0 (start a) (proj2 Hx) ltac:(lia) Hdl (no_wrap_drop m q ltac:(lia) Hw) ltac:(lia)) as Hr.
    destruct (run n sub _ skip 0 (start a)) as [[a' ?]| | |]; cbn [ends_at] in Hr |- *; [rewrite Hu; apply Hgo; lia|exact I|done|done].
  - rewrite Hu. pose proof (IH A sub m (q + skip) q a (proj2 Hx) ltac:(lia) ltac:(lia) Hw ltac:(lia)) as Hr.
    destruct (run n sub m (q + skip) q a) as [[a' r]| | |]; cbn [ends_at mbind res_bind] in Hr |- *; [|exact I|done|done].
    apply Hgo; lia.
Qed.

(** On a message without wrapping lengths a parser ends with a result or an
    error and reads only the message. *)
Lemma parse_safe {A} (t : Z -> action A) a m : (forall tag, action_ok tag (t tag)) -> no_wrap m -> defined (parse t a m).
Proof.
  intros Ht Hw. unfold parse. pose proof (run_safe (S (length m)) A t m (blen m) 0 a Ht ltac:(lia) ltac:(lia) Hw) as H.
  unfold blen in H at 1. specialize (H ltac:(lia)). destruct (run _ t m (blen m) 0 a) as [[a' q]| | |]; done.
Qed.

(** ** A message cut inside a field *)

Lemma drop_nil_len {A} (m : list A) p : 0 <= p -> drop (Z.to_nat p) m = [] -> blen m <= p.
Proof. intros Hp H. apply (f_equal length) in H. rewrite length_drop in H. cbn in H. unfold blen. lia. Qed.

Lemma varint_loop_cut fuel v m k : forall p acc shift, 0 <= p -> (k < length (wire_loop fuel v))%nat ->
  drop (Z.to_nat p) m = take k (wire_loop fuel v) -> (0 < fuel)%nat ->
  varint_loop fuel m (blen m) p acc shift = Fail CETCD_ERR_INVAL.
Proof.
  revert v k; induction fuel as [|fuel IH]; intros v k p acc shift Hp Hk Hd Hf; [lia|]. cbn [varint_loop].
  destruct (Z.leb_spec (blen m) p) as [|Hlt]; [done|]. destruct k as [|k]; [apply drop_nil_len in Hd; lia|].
  cbn [wire_loop] in Hd, Hk. cbv zeta in Hd, Hk. destruct (Z.shiftr v 7 =? 0); cbn [length] in Hk; [lia|].
  cbn [take] in Hd. apply lookup_drop_head in Hd as [-> Hd]. cbv zeta.
  pose proof (Z.mod_pos_bound v 128 ltac:(lia)) as Hm. rewrite land_127. destruct (varint_more (v mod 128) Hm) as (E & _ & Hc). rewrite E.
  destruct (Z.eqb_spec (Z.land (v mod 128 + 128) 128) 0); [done|]. destruct (63 <? shift + 7); [done|].
  destruct fuel as [|fuel]; [cbn in Hk; lia|]. apply (IH (Z.shiftr v 7) k); [lia|lia| |lia].
  by replace (Z.to_nat (p + 1)) with (S (Z.to_nat p)) by lia.
Qed.

Lemma varint_at_cut m p v k : 0 <= p -> (k < length (wire_u64_ v))%nat -> drop (Z.to_nat p) m = take k (wire_u64_ v) ->
  leftover_safe_varint_at_ m (blen m) p = Fail CETCD_ERR_INVAL.
Proof. intros Hp Hk Hd. apply (varint_loop_cut 10 v m k p 0 0); [done|done|done|lia]. Qed.

Lemma delim_at_cut m p d k : blen m < 9223372036854775808 -> short d -> 0 <= p ->
  (k < length (wire_u64_ (blen d) ++ d))%nat -> drop (Z.to_nat p) m = take k (wire_u64_ (blen d) ++ d) ->
  delim_at m (blen m) p = Fail CETCD_ERR_INVAL.
Proof.
  intros Hm Hs Hp Hk Hd. unfold delim_at. pose proof (blen_nonneg d). set (w := wire_u64_ (blen d)) in *.
  destruct (decide (k < length w)%nat) as [Hc|Hc].
  - rewrite (varint_at_cut m p (blen d) k); [done|done|done|]. rewrite Hd, take_app_le by lia. done.
  - rewrite length_app in Hk. pose proof (wire_u64_blen (blen d)) as Hw. fold w in Hw.
    assert (Hat : at_ m p (wire_u64_ (blen d))). { split; [done|]. exists (take (k - length w) d). rewrite Hd, take_app. by rewrite take_ge by lia. }
    assert (Hlen : p + Z.of_nat k = blen m).
    { apply (f_equal length) in Hd. rewrite length_drop, length_take, length_app in Hd. unfold blen in *. lia. }
    rewrite (varint_at_wire m (blen m) p (blen d)); [|unfold in_u64, short in *; lia|done|fold w; clearbody w; unfold blen in *; lia].
    cbn [mbind res_bind]. fold w. rewrite u64_small; [|clearbody w; unfold in_u64, short, blen in *; lia].
    by rewrite (proj2 (Z.ltb_lt (blen m) (p + blen w + blen d))) by (unfold blen in *; lia).
Qed.

(** A field that is cut behind its tag ends the parser with the error. *)
Lemma cut_fails {A} (t : Z -> action A) m p a n f k : blen m < 9223372036854775808 -> field_ok f -> interp t a f <> Undef ->
  0 <= p -> (0 < k < length (wire f))%nat -> drop (Z.to_nat p) m = take k (wire f) ->
  run (S n) t m (blen m) p a = Fail CETCD_ERR_INVAL.
Proof.
  intros Hm Hok Hu Hp Hk Hd. destruct k as [|k]; [lia|].
  assert (Htag : exists tag l, wire f = tag :: l /\ 0 < tag /\
    match f with FVar _ v => l = wire_u64_ v /\ Z.land tag 7 = 0 /\ tag = match f with FVar x _ => x | _ => 0 end
    | FLen x d => l = wire_u64_ (blen d) ++ d /\ Z.land tag 7 = 2 /\ tag = x /\ short d
    | FMsg x fs => l = wire_u64_ (blen (wires fs)) ++ wires fs /\ Z.land tag 7 = 2 /\ tag = x /\ short (wires fs) end).
  { destruct f as [x v|x d|x fs]; cbn [wire field_ok] in *; unfold tag_ok, delimited in *; eexists _, _; split_and!; try reflexivity; try apply Hok. }
  destruct Htag as (tag & l & Ew & Ht0 & Hf). rewrite Ew in Hd, Hk. cbn [take length] in Hd, Hk.
  destruct (lookup_drop_head _ _ _ _ Hd) as [Hh Hd']. replace (S (Z.to_nat p)) with (Z.to_nat (p + 1)) in Hd' by lia.
  assert (Hlt : p < blen m) by (apply lookup_lt_Some in Hh; unfold blen; lia).
  cbn [run]. destruct (Z.leb_spec (blen m) p); [lia|]. rewrite Hh. cbv zeta. destruct (Z.eqb_spec tag 0); [lia|].
  destruct f as [x v|x d|x fs].
  - destruct Hf as (-> & Hw & ->). cbn [interp] in Hu.
    pose proof (varint_at_cut m (p + 1) v k ltac:(lia) ltac:(lia) Hd') as Hv.
    destruct (t x); try done; unfold leftover_safe_skip_unknown_at_; rewrite ?Hw, Hv; done.
  - destruct Hf as (-> & Hw & -> & Hs). cbn [interp] in Hu.
    pose proof (delim_at_cut m (p + 1) d k Hm Hs ltac:(lia) ltac:(lia) Hd') as Hv.
    destruct (t x); try done; unfold leftover_safe_skip_unknown_at_, leftover_safe_copy_bytes_at_; rewrite ?Hw, Hv; done.
  - destruct Hf as (-> & Hw & -> & Hs). cbn [interp] in Hu.
    pose proof (delim_at_cut m (p + 1) (wires fs) k Hm Hs ltac:(lia) ltac:(lia) Hd') as Hv.
    destruct (t x); try done; unfold leftover_safe_skip_unknown_at_; rewrite ?Hw, Hv; done.
Qed.

Lemma truncated_fails {A} (t : Z -> action A) a r fs f k :
  Forall field_ok fs -> interps t a fs = Ok r -> field_ok f -> interp t r f <> Undef ->
  blen (wires (fs ++ [f])) < 9223372036854775808 -> (0 < k < length (wire f))%nat ->
  parse t a (wires fs ++ take k (wire f)) = Fail CETCD_ERR_INVAL.
Proof.
  intros Hfs Hi Hf Hu Hb Hk. set (m := wires fs ++ take k (wire f)).
  assert (Hm : blen m < 9223372036854775808).
  { rewrite wires_app, blen_app in Hb. unfold wires in Hb at 2. cbn [map concat] in Hb. rewrite app_nil_r in Hb.
    unfold m. rewrite blen_app. unfold blen in *. rewrite length_take. lia. }
  unfold parse. rewrite (fields_run fs).
  - rewrite Hi. cbn [mbind res_bind]. rewrite Z.add_0_l.
    assert (Hn : exists n, (S (length m) - length fs = S n)%nat).
    { exists (length m - length fs)%nat. enough (length fs <= length m)%nat by lia. unfold m. rewrite length_app.
      clear -fs. induction fs as [|g fs IH]; [cbn; lia|]. rewrite wires_cons, length_app. pose proof (wire_blen g) as Hg. unfold blen in Hg. cbn [length]. lia. }
    destruct Hn as [n ->]. rewrite (cut_fails t m (blen (wires fs)) r n f k); try done; [apply blen_nonneg|].
    unfold m. apply drop_blen.
  - apply Forall_forall. intros g _. apply field_steps.
  - lia.
  - done.
  - split; [done|]. by exists (take k (wire f)).
  - unfold m. rewrite blen_app. pose proof (blen_nonneg (take k (wire f))). lia.
  - unfold m. rewrite length_app. lia.
  - by rewrite Hi.
Qed.

(** ** A length that wraps

    The bound check adds the length to the position in 64 bits.  A length of
    2^64 - 11 at position 11 passes it and moves the position back to the
    beginning: the parser never ends, whatever its table, as long as the field
    is one it skips. *)
Definition rewind : bytes := 122 :: wire_u64_ 18446744073709551605.

Lemma rewind_loops {A} (t : Z -> action A) n a : t 122 = Askip -> run n t rewind (blen rewind) 0 a = Loop.
Proof.
  intros Ht. induction n as [|n IH]; [done|]. cbn [run]. change (blen rewind <=? 0) with false. cbv iota.
  change (rewind !! Z.to_nat 0) with (Some 122). cbv iota zeta. change (122 =? 0) with false. cbv iota. rewrite Ht.
  replace (leftover_safe_skip_unknown_at_ rewind (blen rewind) (0 + 1) 122) with (@Ok Z 0) by (vm_compute; reflexivity).
  cbn [mbind res_bind]. done.
Qed.

(** ** The request parsers *)

(** The entries of a table decide for all tags. *)
Lemma table_ok {A} (l : list (Z * action A)) : Forall (fun x => action_ok x.1 x.2) l -> forall tag, action_ok tag (table l tag).
Proof.
  intros H tag. induction H as [|[k x] l Hx _ IH]; cbn [table]; [exact I|]. destruct (Z.eqb_spec tag k) as [->|]; done.
Qed.

Lemma up_to_defined {A} bound (f : Z -> A) v : defined (up_to bound f v).
Proof. unfold up_to. by destruct (bound <? v). Qed.

(** Walks through the entries of a table and of the tables inside it. *)
Ltac entry_ok :=
  cbn [action_ok fst snd];
  first
    [ exact I
    | reflexivity
    | split; [reflexivity|entry_ok]
    | lia
    | apply table_ok; table_entries
    | intros;
      repeat match goal with |- context [match ?x with (_, _) => _ end] => destruct x end;
      first [exact I | apply up_to_defined] ]
with table_entries := repeat (apply List.Forall_cons; [entry_ok|]); apply List.Forall_nil.

(** C28: On any bytes in which no byte that can be the tag of a length-delimited
    field is followed by a length that wraps around when it is added to its
    position, every parser of a request ends with a result or an error within as
    many rounds as the request has bytes, and one, and never reads outside the
    request.  A wrapping length breaks this: see [rewind_hangs]. *)
Theorem request_parsers_total req cap : no_wrap req -> 0 <= cap ->
  defined (cetcd_parse_range_request req) /\ defined (cetcd_parse_put_request req) /\
  defined (cetcd_parse_delete_range_request req) /\ defined (cetcd_parse_txn_compare req) /\
  defined (cetcd_parse_txn_request req) /\ defined (cetcd_parse_txn_op_key cap req) /\
  defined (cetcd_parse_compact_request req) /\ defined (cetcd_parse_hashkv_request req) /\
  defined (cetcd_parse_lease_grant_request req) /\ defined (cetcd_parse_lease_id_request req) /\
  defined (cetcd_parse_watch_create_request req) /\ defined (cetcd_parse_alarm_request req) /\
  defined (cetcd_parse_auth_name_pass_request req) /\ defined (cetcd_parse_user_add_request req) /\
  defined (cetcd_parse_auth_role_grant_perm_request req) /\ defined (cetcd_parse_auth_role_revoke_perm_request req) /\
  defined (cetcd_parse_member_add_request cap req) /\ defined (cetcd_parse_member_update_request cap req) /\
  defined (cetcd_parse_member_id_request req) /\ defined (cetcd_parse_move_leader_request req) /\
  defined (cetcd_parse_downgrade_request cap req) /\ defined (cetcd_parse_member_list_linearizable req) /\
  defined (cetcd_parse_auth_name_request req).
Proof.
  intros Hw Hc. split_and!; try (apply parse_safe; [apply table_ok; table_entries|exact Hw]).
  unfold cetcd_parse_auth_name_request, cetcd_parse_auth_name_pass_request.
  match goal with |- defined (mbind _ (parse ?t ?a req)) => assert (H : defined (parse t a req)) by (apply parse_safe; [apply table_ok; table_entries|exact Hw]); by destruct (parse t a req) end.
Qed.

(** A negative watch id, a varint of ten bytes, is no length. *)
Definition watch_minus_one : bytes := [56; 255; 255; 255; 255; 255; 255; 255; 255; 255; 1].

Lemma request_parsers_total_witness : defined (cetcd_parse_watch_create_request watch_minus_one).
Proof.
  assert (Hw : no_wrap watch_minus_one).
  { intros p tag v q Hp Ht H2 _. apply list_elem_of_lookup_2 in Ht. unfold watch_minus_one in Ht.
    repeat (apply elem_of_cons in Ht as [->|Ht]; [discriminate H2|]). by apply elem_of_nil in Ht. }
  destruct (request_parsers_total watch_minus_one 16 Hw) as (_ & _ & _ & _ & _ & _ & _ & _ & _ & _ & Hwc & _); [lia|exact Hwc].
Defined.

(** ** The meaning of flat messages *)

Definition flat_field (f : field) : Prop := match f with FMsg _ _ => False | _ => True end.

(** All values of the integer field [num], and of the string field [num]. *)
Definition ints (num : Z) (fs : list field) : list Z :=
  omap (fun f => match f with FVar tag v => if tag =? num * 8 then Some v else None | _ => None end) fs.
Definition strs (num : Z) (fs : list field) : list bytes :=
  omap (fun f => match f with FLen tag d => if tag =? num * 8 + 2 then Some d else None | _ => None end) fs.

(** The last one counts. *)
Definition int_field (num : Z) (fs : list field) : Z := default 0 (last (ints num fs)).
Definition str_field (num : Z) (fs : list field) : bytes := default [] (last (strs num fs)).
Definition bool_field (num : Z) (fs : list field) : bool := negb (int_field num fs =? 0).

(** No value of these fields exceeds the largest [int64_t]. *)
Definition in_int64 (nums : list Z) (fs : list field) : bool := forallb (fun num => forallb (fun v => v <=? INT64_MAX) (ints num fs)) nums.

Definition put_meaning (fs : list field) : res cetcd_put_request :=
  if in_int64 [3; 4; 5; 6] fs
  then Ok (mk_put_request (str_field 1 fs) (str_field 2 fs) (int_field 3 fs) (bool_field 4 fs) (bool_field 5 fs) (bool_field 6 fs))
  else Fail CETCD_ERR_INVAL.

Definition range_meaning (fs : list field) : res cetcd_range_request :=
  if in_int64 [3; 4; 5; 6; 7; 8; 9; 10; 11; 12; 13] fs
  then Ok {| rr_key := str_field 1 fs; rr_range_end := str_field 2 fs; rr_limit := int_field 3 fs; rr_rev := int_field 4 fs;
             rr_sort_order := i32 (int_field 5 fs); rr_sort_target := i32 (int_field 6 fs); rr_serializable := bool_field 7 fs;
             rr_keys_only := bool_field 8 fs; rr_count_only := bool_field 9 fs; rr_min_mod_rev := int_field 10 fs;
             rr_max_mod_rev := int_field 11 fs; rr_min_create_rev := int_field 12 fs; rr_max_create_rev := int_field 13 fs |}
  else Fail CETCD_ERR_INVAL.

Definition delete_meaning (fs : list field) : res cetcd_delete_range_request :=
  Ok (mk_delete_request (str_field 1 fs) (str_field 2 fs) (bool_field 3 fs)).

Definition compare_meaning (fs : list field) : res cetcd_txn_compare :=
  Ok {| tc_result := i32 (int_field 1 fs); tc_target := i32 (int_field 2 fs); tc_key := str_field 3 fs; tc_version := i64 (int_field 4 fs);
        tc_create_revision := i64 (int_field 5 fs); tc_mod_revision := i64 (int_field 6 fs); tc_value := str_field 7 fs;
        tc_lease := i64 (int_field 8 fs); tc_range_end := str_field 9 fs |}.

Lemma int_field_snoc num fs f : int_field num (fs ++ [f]) = match f with FVar tag v => if tag =? num * 8 then v else int_field num fs | _ => int_field num fs end.
Proof.
  unfold int_field, ints. rewrite omap_app. cbn. destruct f as [tag v|tag d|tag gs]; cbn; rewrite ?app_nil_r; try done.
  destruct (tag =? num * 8); [by rewrite last_snoc|by rewrite app_nil_r].
Qed.

Lemma str_field_snoc num fs f : str_field num (fs ++ [f]) = match f with FLen tag d => if tag =? num * 8 + 2 then d else str_field num fs | _ => str_field num fs end.
Proof.
  unfold str_field, strs. rewrite omap_app. cbn. destruct f as [tag v|tag d|tag gs]; cbn; rewrite ?app_nil_r; try done.
  destruct (tag =? num * 8 + 2); [by rewrite last_snoc|by rewrite app_nil_r].
Qed.

Lemma in_int64_snoc nums fs f : in_int64 nums (fs ++ [f]) =
  in_int64 nums fs && match f with FVar tag v => forallb (fun num => if tag =? num * 8 then v <=? INT64_MAX else true) nums | _ => true end.
Proof.
  unfold in_int64. induction nums as [|num nums IH]; cbn [forallb]; [by destruct f|]. rewrite IH. clear IH. unfold ints at 1. rewrite omap_app, List.forallb_app.
  change (omap _ fs) with (ints num fs). set (x := forallb _ (ints num fs)). clearbody x.
  set (y := forallb _ nums). clearbody y.
  destruct f as [tag v|tag d|tag gs]; cbn; rewrite ?andb_true_r; [|by destruct x, y..]. set (z := forallb _ nums). clearbody z.
  destruct (tag =? num * 8); cbn; [|rewrite ?andb_true_r; by destruct x, y, z]. destruct (v <=? INT64_MAX); by destruct x, y, z.
Qed.

(** A table that follows a meaning field by field. *)
Lemma meaning_interps {A} (l : list (Z * action A)) (init : A) (meaning : list field -> res A) :
  meaning [] = Ok init ->
  (forall fs f, field_ok f -> flat_field f -> meaning (fs ++ [f]) = r ← meaning fs; interp (table l) r f) ->
  forall fs, Forall field_ok fs -> Forall flat_field fs -> interps (table l) init fs = meaning fs.
Proof.
  intros H0 Hstep fs Hok Hfl. induction fs as [|f fs IH] using rev_ind; [by rewrite H0|].
  apply Forall_app in Hok as [Hok Hf]. apply Forall_app in Hfl as [Hfl Hff]. rewrite Forall_singleton in Hf. rewrite Forall_singleton in Hff.
  rewrite interps_app, Hstep, IH by done. destruct (meaning fs); cbn [mbind res_bind]; [|done..]. cbn. by destruct (interp (table l) a f).
Qed.

Lemma meaning_parse {A} (l : list (Z * action A)) (init : A) (meaning : list field -> res A) :
  meaning [] = Ok init ->
  (forall fs f, field_ok f -> flat_field f -> meaning (fs ++ [f]) = r ← meaning fs; interp (table l) r f) -> (forall fs, meaning fs <> Undef) ->
  forall fs, Forall field_ok fs -> Forall flat_field fs -> blen (wires fs) < 9223372036854775808 -> parse (table l) init (wires fs) = meaning fs.
Proof.
  intros H0 Hstep Hdef fs Hok Hfl Hb. pose proof (meaning_interps l init meaning H0 Hstep fs Hok Hfl) as Hm.
  rewrite <- Hm. apply parse_wires; [done|lia|]. rewrite Hm. apply Hdef.
Qed.

(** One field: the tag decides. *)
Ltac literals :=
  repeat match goal with
  | |- context [?n * 8 + 2] => let k := eval vm_compute in (n * 8 + 2) in change (n * 8 + 2) with k
  | |- context [?n * 8] => let k := eval vm_compute in (n * 8) in change (n * 8) with k
  end.

Ltac meaning_step :=
  let fs := fresh "fs" in let f := fresh "f" in let Hok := fresh "Hok" in
  intros fs f Hok; destruct f as [tag v|tag d|tag gs]; cbn [flat_field]; [intros _|intros _|done];
  rewrite ?in_int64_snoc; unfold bool_field; rewrite ?int_field_snoc, ?str_field_snoc; rewrite ?andb_true_r;
  try (destruct (in_int64 _ fs); cbn [andb mbind res_bind]; [|done]);
  destruct Hok as [[_ Hok] _]; cbn [forallb interp table mbind res_bind]; literals;
  repeat match goal with |- context [tag =? ?k] => destruct (Z.eqb_spec tag k) as [->|]; [try discriminate Hok; clear Hok|] end;
  cbn [Z.eqb Pos.eqb andb mbind res_bind]; unfold up_to, nonzero; rewrite ?andb_true_r; try done;
  match goal with |- context [INT64_MAX <? ?v] => destruct (Z.ltb_spec INT64_MAX v), (Z.leb_spec v INT64_MAX); (done || lia) end.

Lemma put_step fs f : field_ok f -> flat_field f -> put_meaning (fs ++ [f]) = r ← put_meaning fs; interp (table put_request_fields) r f.
Proof. revert fs f. unfold put_meaning, put_request_fields. meaning_step. Qed.
Lemma delete_step fs f : field_ok f -> flat_field f -> delete_meaning (fs ++ [f]) = r ← delete_meaning fs; interp (table delete_range_request_fields) r f.
Proof. revert fs f. unfold delete_meaning, delete_range_request_fields. meaning_step. Qed.
Lemma compare_step fs f : field_ok f -> flat_field f -> compare_meaning (fs ++ [f]) = r ← compare_meaning fs; interp (table txn_compare_fields) r f.
Proof. revert fs f. unfold compare_meaning, txn_compare_fields. meaning_step. Qed.
Lemma range_step fs f : field_ok f -> flat_field f -> range_meaning (fs ++ [f]) = r ← range_meaning fs; interp (table range_request_fields) r f.
Proof. revert fs f. unfold range_meaning, range_request_fields. meaning_step. Qed.

(** The meanings are what the tables compute. *)
Lemma put_interps fs : Forall field_ok fs -> Forall flat_field fs -> interps (table put_request_fields) zero_put_request fs = put_meaning fs.
Proof. apply (meaning_interps _ _ put_meaning); [done|apply put_step]. Qed.

Lemma delete_interps fs : Forall field_ok fs -> Forall flat_field fs ->
  interps (table delete_range_request_fields) zero_delete_request fs = delete_meaning fs.
Proof. apply (meaning_interps _ _ delete_meaning); [done|apply delete_step]. Qed.

Lemma compare_interps fs : Forall field_ok fs -> Forall flat_field fs ->
  interps (table txn_compare_fields) zero_txn_compare fs = compare_meaning fs.
Proof. apply (meaning_interps _ _ compare_meaning); [done|apply compare_step]. Qed.



(** C29: A range, put or delete request cut inside a field, behind any number of
    whole fields, is CETCD_ERR_INVAL and has no result. *)
Theorem truncated_request_rejected fs f k :
  Forall field_ok fs -> field_ok f -> blen (wires (fs ++ [f])) < 9223372036854775808 -> (0 < k < length (wire f))%nat ->
  (forall r, interps (table range_request_fields) zero_range_request fs = Ok r ->
     interp (table range_request_fields) r f <> Undef ->
     cetcd_parse_range_request (wires fs ++ take k (wire f)) = Fail CETCD_ERR_INVAL) /\
  (forall r, interps (table put_request_fields) zero_put_request fs = Ok r ->
     interp (table put_request_fields) r f <> Undef ->
     cetcd_parse_put_request (wires fs ++ take k (wire f)) = Fail CETCD_ERR_INVAL) /\
  (forall r, interps (table delete_range_request_fields) zero_delete_request fs = Ok r ->
     interp (table delete_range_request_fields) r f <> Undef ->
     cetcd_parse_delete_range_request (wires fs ++ take k (wire f)) = Fail CETCD_ERR_INVAL).
Proof. intros Hfs Hf Hb Hk. split_and!; intros r Hi Hu; exact (truncated_fails _ _ r fs f k Hfs Hi Hf Hu Hb Hk). Qed.

Lemma truncated_request_rejected_witness :
  cetcd_parse_put_request (wires [FLen 10 [107]] ++ take 3 (wire (FLen 18 [118; 119]))) = Fail CETCD_ERR_INVAL.
Proof.
  eapply (proj1 (proj2 (truncated_request_rejected [FLen 10 [107]] (FLen 18 [118; 119]) 3 _ _ _ _))).
  - reflexivity.
  - discriminate.
  Unshelve.
  + repeat constructor.
  + repeat constructor.
  + reflexivity.
  + split; apply Nat.ltb_lt; reflexivity.
Defined.

(** A request of eleven bytes, an unknown field with a length near 2^64,
    passes the bound check of every parser and moves its position back to the
    beginning: the range, put, delete, compaction and lease parsers never end,
    whatever number of rounds they are given. *)
Theorem rewind_hangs n :
  run n (table range_request_fields) rewind (blen rewind) 0 zero_range_request = Loop /\
  run n (table put_request_fields) rewind (blen rewind) 0 zero_put_request = Loop /\
  run n (table delete_range_request_fields) rewind (blen rewind) 0 zero_delete_request = Loop /\
  run n (table txn_compare_fields) rewind (blen rewind) 0 zero_txn_compare = Loop /\
  cetcd_parse_compact_request rewind = Loop /\ cetcd_parse_lease_grant_request rewind = Loop.
Proof.
  split_and!.
  - exact (rewind_loops (table range_request_fields) n _ eq_refl).
  - exact (rewind_loops (table put_request_fields) n _ eq_refl).
  - exact (rewind_loops (table delete_range_request_fields) n _ eq_refl).
  - exact (rewind_loops (table txn_compare_fields) n _ eq_refl).
  - vm_compute. reflexivity.
  - vm_compute. reflexivity.
Qed.

(** The encoder of a key-value pair checks the room for a one-byte length
    but writes two bytes when the pair has 128 bytes: with a buffer of 130
    bytes the copy goes one byte beyond it, with 131 it fits. *)
Theorem range_response_kv_overrun :
  cetcd_encode_range_response_kv [107] (repeat 118 123) 130 = Undef /\
  exists out, cetcd_encode_range_response_kv [107] (repeat 118 123) 131 = Ok out /\ blen out = 131.
Proof. split; [vm_compute; reflexivity|]. eexists. split; vm_compute; reflexivity. Qed.
