(* ===== verification/PbCodec.v ===== *)
(** * Protobuf messages: round trips

    What an encoder writes, its parser reads back.  [says t init out r]: the
    bytes [out] are a sequence of fields that the table [t] interprets, from
    [init], as [r].  Every step of an encoder extends such a sequence. *)

From S2P Require Import Prelude Raft RaftWire Pb PbProps PbRequests PbResponses.

Definition says {A} (t : Z -> action A) (init : A) (out : bytes) (r : A) : Prop :=
  exists fs, out = wires fs /\ Forall field_ok fs /\ interps t init fs = Ok r.

Section says.
Context {A : Type} (t : Z -> action A) (init : A).

Lemma says_nil : says t init [] init.
Proof. exists []. split_and!; [done|constructor|done]. Qed.

Lemma says_field out r f r' : says t init out r -> field_ok f -> interp t r f = Ok r' -> says t init (out ++ wire f) r'.
Proof.
  intros (fs & -> & Hok & Hi) Hf Hr. exists (fs ++ [f]). split_and!.
  - unfold wires. rewrite map_app, concat_app. cbn. by rewrite app_nil_r.
  - apply Forall_app. split; [done|by constructor].
  - rewrite interps_app, Hi. cbn [mbind res_bind]. unfold interps. cbn [interp_list]. by rewrite Hr.
Qed.

(** A nested message extends the sequence by what its own fields say. *)
Lemma says_msg out r tag start sub fin inner r1 r' : says t init out r -> t tag = Amsg start sub fin -> tag_ok 2 tag ->
  short inner -> says sub (start r) inner r1 -> fin r1 = r' -> says t init (out ++ delimited tag inner) r'.
Proof.
  intros Ho Ht Htag Hs (gs & -> & Hok & Hi) <-. apply (says_field out r (FMsg tag gs)); [done| |].
  - cbn [field_ok]. split_and!; [apply Htag..|exact Hs|by apply fields_ok_Forall].
  - cbn [interp]. rewrite Ht. unfold interps in Hi. by rewrite Hi.
Qed.

Lemma says_inline out r tag sub inner r' : says t init out r -> t tag = Ainline sub -> tag_ok 2 tag ->
  short inner -> says sub r inner r' -> says t init (out ++ delimited tag inner) r'.
Proof.
  intros Ho Ht Htag Hs (gs & -> & Hok & Hi). apply (says_field out r (FMsg tag gs)); [done| |].
  - cbn [field_ok]. split_and!; [apply Htag..|exact Hs|by apply fields_ok_Forall].
  - cbn [interp]. rewrite Ht. exact Hi.
Qed.

Lemma says_parse out r : in_u64 (blen out) -> says t init out r -> parse t init out = Ok r.
Proof.
  intros Hb (fs & -> & Hok & Hi). rewrite parse_wires; [done|done|apply Hb|by rewrite Hi].
Qed.
End says.

(** ** The steps of an encoder that succeed *)

Lemma emit_ok cap out d o : emit cap out d = Ok o -> o = out ++ d /\ blen o <= cap.
Proof. unfold emit. destruct (Z.leb_spec (blen out + blen d) cap); [|done]. intros [= <-]. rewrite blen_app. done. Qed.

Lemma put_ok cap out b o : put cap out b = Ok o -> o = out ++ [b] /\ blen o <= cap.
Proof.
  unfold put. destruct (Z.ltb_spec (blen out) cap); [|done]. intros [= <-]. rewrite blen_app. change (blen [b]) with 1. split; [done|lia].
Qed.

Lemma copy_ok cap out d o : copy_out cap out d = Ok o -> o = out ++ d /\ blen o <= cap.
Proof. unfold copy_out. destruct (Z.leb_spec (blen out + blen d) cap); [|done]. intros [= <-]. by rewrite blen_app. Qed.

Lemma put_varint_ok cap out v o : in_u64 v -> put_varint cap out v = Ok o -> o = out ++ wire_u64_ v /\ blen o <= cap.
Proof. intros Hv. rewrite put_varint_spec by done. apply emit_ok. Qed.

Lemma varint_field_ok k cap out tag v o : 1 <= k <= 2 -> in_u64 v -> varint_field k cap out tag v = Ok o ->
  o = out ++ wire (FVar tag v) /\ blen o <= cap.
Proof. intros Hk Hv. rewrite varint_field_spec by done. apply emit_ok. Qed.

Lemma byte_field_ok cap out tag b o : 0 <= b < 128 -> byte_field cap out tag b = Ok o ->
  o = out ++ wire (FVar tag b) /\ blen o <= cap.
Proof. intros Hb. rewrite byte_field_spec by done. apply emit_ok. Qed.

Lemma bytes_field_ok cap out tag s o : short s -> bytes_field cap out tag s = Ok o ->
  o = out ++ wire (FLen tag s) /\ blen o <= cap.
Proof. intros Hs. rewrite bytes_field_spec by done. apply emit_ok. Qed.

Lemma write_field_ok cap out tag s o : short s -> write_bytes_field_ cap out tag s = Ok o ->
  (s = [] /\ o = out) \/ (o = out ++ wire (FLen tag s) /\ blen o <= cap).
Proof.
  intros Hs. rewrite write_bytes_field_spec by done. destruct (Z.eqb_spec (blen s) 0) as [Hz|].
  - intros [= <-]. left. split; [|done]. by destruct s; [|unfold blen in Hz; cbn in Hz; lia].
  - right. by apply emit_ok.
Qed.

Lemma nested_field_ok cap out tag inner o : short inner -> nested_field cap out tag inner = Ok o ->
  o = out ++ delimited tag inner /\ blen o <= cap.
Proof.
  intros Hs. pose proof (blen_nonneg inner). unfold nested_field, room. destruct (_ <? _); [done|]. cbn [mbind res_bind].
  destruct (put cap out tag) as [o1| | |] eqn:E1; [|done..]. apply put_ok in E1 as [-> _]. cbn [mbind res_bind].
  destruct (put_varint cap (out ++ [tag]) (blen inner)) as [o2| | |] eqn:E2; [|done..].
  apply put_varint_ok in E2 as [-> _]; [|unfold in_u64, short in *; lia]. cbn [mbind res_bind].
  intros E3. apply copy_ok in E3 as [-> Hb]. split; [|done]. unfold delimited. by rewrite <- !app_assoc.
Qed.

(** The bytes of a varint field written in two steps. *)
Lemma tag_varint out tag v : (out ++ [tag]) ++ wire_u64_ v = out ++ wire (FVar tag v).
Proof. by rewrite <- app_assoc. Qed.

Lemma tag_bytes out tag s : (out ++ wire (FVar tag (blen s))) ++ s = out ++ wire (FLen tag s).
Proof. cbn [wire]. unfold delimited. by rewrite <- !app_assoc. Qed.

(** The four bytes of a nested flag. *)
Lemma four_bytes out : (((out ++ [26]) ++ [2]) ++ [8]) ++ [1] = out ++ delimited 26 ([] ++ wire (FVar 8 1)).
Proof. by rewrite <- !app_assoc. Qed.

Lemma blen_zero {A} (l : list A) : blen l = 0 -> l = [].
Proof. destruct l; [done|]. unfold blen. cbn. lia. Qed.

Ltac in_width :=
  unfold in_u64, in_u32, in_i64, INT64_MAX, INT_MAX, short, u64, u32 in *;
  first [lia | match goal with |- 0 <= _ mod _ < _ => apply Z.mod_pos_bound; lia end].

(** Runs an encoder that succeeds: every step is an extension of the bytes
    written so far. *)
Ltac encodes :=
  repeat match goal with
  | H : Ok _ = Ok _ |- _ => injection H as <-
  | H : Fail _ = Ok _ |- _ => discriminate H
  | H : Undef = Ok _ |- _ => discriminate H
  | H : (if ?c then _ else _) = Ok _ |- _ => let E := fresh "E" in destruct c eqn:E
  | H : mbind _ ?x = Ok _ |- _ =>
      let E := fresh "E" in destruct x eqn:E; cbn [mbind res_bind] in H; [|discriminate H..]
  | H : room _ _ _ = Ok _ |- _ => clear H
  | H : put _ _ _ = Ok _ |- _ => apply put_ok in H as [-> ?]
  | H : put_varint _ _ _ = Ok _ |- _ => apply put_varint_ok in H as [-> ?]; [|in_width]
  | H : varint_field _ _ _ _ _ = Ok _ |- _ => apply varint_field_ok in H as [-> ?]; [|lia|in_width]
  | H : byte_field _ _ _ _ = Ok _ |- _ => apply byte_field_ok in H as [-> ?]; [|lia]
  | H : bytes_field _ _ _ _ = Ok _ |- _ => apply bytes_field_ok in H as [-> ?]; [|in_width]
  | H : write_bytes_field_ _ _ _ _ = Ok _ |- _ => apply write_field_ok in H as [[-> ->]|[-> ?]]; [| |in_width]
  | H : copy_out _ _ _ = Ok _ |- _ => apply copy_ok in H as [-> ?]
  | H : nested_field _ _ _ _ = Ok _ |- _ => apply nested_field_ok in H as [-> ?]; [|in_width]
  | H : (blen ?s =? 0) = true |- _ => apply Z.eqb_eq, blen_zero in H; subst s
  | H : (?x =? ?y) = false |- _ => apply Z.eqb_neq in H
  | H : (?x =? ?y) = true |- _ => apply Z.eqb_eq in H
  | H : (?x <? ?y) = false |- _ => apply Z.ltb_ge in H
  | H : (?x <? ?y) = true |- _ => apply Z.ltb_lt in H
  | H : (?x <=? ?y) = false |- _ => apply Z.leb_gt in H
  | H : (?x <=? ?y) = true |- _ => apply Z.leb_le in H
  | H : (_ || _) = false |- _ => apply orb_false_iff in H as [? ?]
  | x : unit |- _ => destruct x
  end; rewrite ?tag_varint in *.

(** The conditions of one field of an encoder. *)
Ltac field_ok := cbn [field_ok]; split; [split; [lia|reflexivity]|in_width].

Lemma i64_id v : 0 <= v <= INT64_MAX -> i64 v = v.
Proof. intros Hv. rewrite <- (u64_small v) at 1 by in_width. apply u64_of_i64. unfold in_i64, INT64_MAX in *. lia. Qed.

Lemma i32_id v : 0 <= v <= INT_MAX -> i32 v = v.
Proof.
  intros Hv. unfold i32, u32, INT_MAX in *. rewrite Z.mod_small by lia. destruct (Z.ltb_spec v 2147483648); lia.
Qed.

Lemma up_to_ok bound {A} (f : Z -> A) v : v <= bound -> up_to bound f v = Ok (f v).
Proof. intros Hv. unfold up_to. by rewrite (proj2 (Z.ltb_ge _ _)). Qed.

(** Interprets one field: looks its tag up and runs the action. *)
Ltac field_value :=
  cbn [interp];
  try match goal with
  | |- context [match ?x with Askip => _ | _ => _ end] => let y := eval hnf in x in change x with y
  end; cbv beta iota;
  repeat first
    [ progress cbv beta iota
    | rewrite up_to_ok by in_width
    | match goal with |- context [if ?c =? 0 then _ else _] => rewrite (proj2 (Z.eqb_neq c 0)) by lia end
    | match goal with |- context [if ?c <=? ?d then _ else _] => rewrite (proj2 (Z.leb_gt c d)) by lia end
    | match goal with |- context [if ?c <? ?d then _ else _] => rewrite (proj2 (Z.ltb_ge c d)) by lia end
    | rewrite take_ge by (unfold blen in *; lia)
    | rewrite u64_of_i64 by in_width | rewrite i64_id by in_width | rewrite i32_id by in_width ];
  try reflexivity.

(** Reads the fields back. *)
Ltac reads :=
  repeat match goal with
  | |- says _ _ [] _ => apply says_nil
  | |- says _ _ (_ ++ wire (FLen ?tag (?x ++ ?y))) _ => change (wire (FLen tag (x ++ y))) with (delimited tag (x ++ y))
  | |- says _ _ (_ ++ wire _) _ => eapply says_field; [|field_ok|]
  | |- says _ _ (_ ++ delimited _ _) _ =>
      first [ eapply says_msg; [|reflexivity|split; [lia|reflexivity]|in_width| |]
            | eapply says_inline; [|reflexivity|split; [lia|reflexivity]|in_width|] ]
  end.

(** What remains when a field is left out: its value is the default. *)
Ltac defaults :=
  repeat match goal with
  | |- context [?x] => is_var x; lazymatch type of x with Z => idtac end; assert (x = 0) as -> by lia
  end; try reflexivity.

Ltac roundtrip := apply says_parse; [split; [apply blen_nonneg|in_width]|]; reads; field_value; field_value; defaults.

(** ** Requests *)

Section requests.
Context (cap : Z) (out : bytes).
Hypothesis Hcap : in_u64 cap.
Lemma hashkv_roundtrip rev : 0 <= rev <= INT64_MAX ->
  cetcd_encode_hashkv_request rev cap = Ok out -> cetcd_parse_hashkv_request out = Ok rev.
Proof using Hcap. intros Hr H. unfold cetcd_encode_hashkv_request in H. encodes; [defaults|]. roundtrip. Qed.

Lemma move_leader_roundtrip target : in_u64 target ->
  cetcd_encode_move_leader_request target cap = Ok out -> cetcd_parse_move_leader_request out = Ok target.
Proof using Hcap. intros Hr H. unfold cetcd_encode_move_leader_request in H. encodes. roundtrip. Qed.

Lemma member_list_roundtrip linearizable :
  cetcd_encode_member_list_request linearizable cap = Ok out -> cetcd_parse_member_list_linearizable out = Ok linearizable.
Proof using Type. unfold cetcd_encode_member_list_request. destruct (cap <? 2); [done|]. intros [= <-]. by destruct linearizable. Qed.

Lemma lease_id_roundtrip id : id <= INT64_MAX ->
  cetcd_encode_lease_id_request id cap = Ok out -> cetcd_parse_lease_id_request out = Ok (id, false).
Proof using Hcap. intros Hr H. unfold cetcd_encode_lease_id_request in H. encodes. roundtrip. Qed.

Lemma alarm_roundtrip action member_id alarm : action <= INT_MAX -> in_u64 member_id -> alarm <= INT_MAX ->
  cetcd_encode_alarm_request action member_id alarm cap = Ok out ->
  cetcd_parse_alarm_request out = Ok (action, member_id, alarm).
Proof using Hcap. intros H1 H2 H3 H. unfold cetcd_encode_alarm_request in H. encodes. roundtrip. Qed.

Lemma range_roundtrip key rev : short key -> rev <= INT64_MAX ->
  cetcd_encode_range_request key rev cap = Ok out ->
  cetcd_parse_range_request out = Ok (zero_range_request <| rr_key := key |> <| rr_rev := rev |>).
Proof using Hcap. intros H1 H2 H. unfold cetcd_encode_range_request in H. encodes; roundtrip. Qed.

Lemma put_roundtrip key value lease : short key -> short value -> lease <= INT64_MAX ->
  cetcd_encode_put_request key value lease cap = Ok out ->
  cetcd_parse_put_request out = Ok (mk_put_request key value lease false false false).
Proof using Hcap. intros H1 H2 H3 H. unfold cetcd_encode_put_request in H. encodes; roundtrip. Qed.

Lemma delete_roundtrip key range_end prev_kv : short key -> short range_end ->
  cetcd_encode_delete_range_request key range_end prev_kv cap = Ok out ->
  cetcd_parse_delete_range_request out = Ok (mk_delete_request key range_end prev_kv).
Proof using Hcap. intros H1 H2 H. unfold cetcd_encode_delete_range_request in H. encodes; roundtrip. Qed.

Lemma name_pass_roundtrip name password : short name -> short password ->
  cetcd_encode_auth_name_pass_request name password cap = Ok out ->
  cetcd_parse_auth_name_pass_request out = Ok (mk_name_pass name password) /\
  cetcd_parse_auth_name_request out = Ok name.
Proof using Hcap. 
  intros H1 H2 H. unfold cetcd_encode_auth_name_pass_request in H. unfold cetcd_parse_auth_name_request.
  enough (cetcd_parse_auth_name_pass_request out = Ok (mk_name_pass name password)) as -> by done.
  encodes; roundtrip.
Qed.

Lemma auth_name_roundtrip name : short name ->
  cetcd_encode_auth_name_request name cap = Ok out -> cetcd_parse_auth_name_request out = Ok name.
Proof using Hcap. intros Hn H. by apply (name_pass_roundtrip name []). Qed.

Lemma revoke_perm_roundtrip name key range_end : short name -> short key -> short range_end ->
  cetcd_encode_auth_role_revoke_perm_request name key range_end cap = Ok out ->
  cetcd_parse_auth_role_revoke_perm_request out = Ok (mk_role_perm name 0 key range_end).
Proof using Hcap. intros H1 H2 H3 H. unfold cetcd_encode_auth_role_revoke_perm_request in H. encodes; try (by destruct E); roundtrip. Qed.

Lemma watch_create_roundtrip key start_rev : short key -> start_rev <= INT64_MAX ->
  cetcd_encode_watch_create_request key start_rev cap = Ok out ->
  cetcd_parse_watch_create_request out = Ok (zero_watch_create <| wc_key := key |> <| wc_start_rev := start_rev |>).
Proof using Hcap. intros H1 H2 H. unfold cetcd_encode_watch_create_request in H. encodes; try done; roundtrip. Qed.

Lemma grant_perm_roundtrip name perm_type key range_end : short name -> 0 <= perm_type <= INT_MAX -> short key -> short range_end ->
  cetcd_encode_auth_role_grant_perm_request name perm_type key range_end cap = Ok out ->
  cetcd_parse_auth_role_grant_perm_request out = Ok (mk_role_perm name perm_type key range_end).
Proof using Hcap.
  intros H1 H2 H3 H4 H. unfold cetcd_encode_auth_role_grant_perm_request in H.
  rewrite (u32_small perm_type) in H by in_width. encodes; try done; roundtrip.
Qed.

Lemma user_add_roundtrip name password no_password : short name -> short password ->
  cetcd_encode_user_add_request name password no_password cap = Ok out ->
  cetcd_parse_user_add_request out = Ok (mk_user_add name password no_password).
Proof using Hcap.
  intros H1 H2 H. assert (short ([] ++ wire (FVar 8 1))) by reflexivity. unfold cetcd_encode_user_add_request in H. encodes; rewrite ?four_bytes in *; roundtrip.
Qed.

Lemma txn_compare_roundtrip key result target version : short key -> 0 <= result < 128 -> 0 <= target < 128 -> in_i64 version ->
  cetcd_encode_txn_compare key result target version cap = Ok out ->
  cetcd_parse_txn_compare out =
    Ok (zero_txn_compare <| tc_key := key |> <| tc_result := result |> <| tc_target := target |> <| tc_version := version |>).
Proof using Hcap.
  intros H1 H2 H3 H4 H. unfold cetcd_encode_txn_compare, nonzero in H. rewrite !u8_small in H by (unfold in_u8; lia).
  encodes; roundtrip.
Qed.

Lemma txn_op_put_roundtrip key key_cap : short key -> blen key < key_cap ->
  cetcd_encode_txn_op_put key cap = Ok out -> cetcd_parse_txn_op_key key_cap out = Ok (true, key).
Proof using Hcap.
  intros H1 H2 H. pose proof (blen_nonneg key). unfold cetcd_encode_txn_op_put in H. encodes; try done; roundtrip.
Qed.

Lemma member_id_roundtrip id : in_u64 id ->
  cetcd_encode_member_id_request id cap = Ok out -> cetcd_parse_member_id_request out = Ok id.
Proof using Hcap. intros H1 H. unfold cetcd_encode_member_id_request in H. encodes; roundtrip. Qed.

Lemma member_update_roundtrip id url url_cap : in_u64 id -> short url -> blen url < url_cap ->
  cetcd_encode_member_update_request id url cap = Ok out -> cetcd_parse_member_update_request url_cap out = Ok (id, url).
Proof using Hcap.
  intros H1 H2 H3 H. pose proof (blen_nonneg url). unfold cetcd_encode_member_update_request in H. encodes.
  all: rewrite ?tag_bytes in *; roundtrip.
Qed.

Lemma member_add_roundtrip url is_learner url_cap : short url -> blen url < url_cap ->
  cetcd_encode_member_add_request url is_learner cap = Ok out -> cetcd_parse_member_add_request url_cap out = Ok (url, is_learner).
Proof using Hcap.
  intros H1 H2 H. pose proof (blen_nonneg url). unfold cetcd_encode_member_add_request in H. encodes; try done; roundtrip.
Qed.

Lemma downgrade_roundtrip action version version_cap : action <= INT_MAX -> short version -> blen version < version_cap ->
  cetcd_encode_downgrade_request action version cap = Ok out ->
  cetcd_parse_downgrade_request version_cap out = Ok (action, version).
Proof using Hcap.
  intros H1 H2 H3 H. pose proof (blen_nonneg version). unfold cetcd_encode_downgrade_request in H. encodes; try done; roundtrip.
Qed.

Lemma member_list_request_roundtrip l : cetcd_encode_member_list_request l cap = Ok out ->
  cetcd_parse_member_list_linearizable out = Ok l.
Proof. unfold cetcd_encode_member_list_request. destruct (cap <? 2); [done|]. intros [= <-]. by destruct l. Qed.
End requests.

(** ** Responses *)

Section responses.
Context (cap : Z).
Hypothesis Hcap : in_u64 cap.

(** The shapes. *)
Lemma varint_shape {A} out tag (init : A) f v : tag_ok 0 tag -> f 0 = init -> in_u64 v ->
  opt_varint cap tag v = Ok out -> varint_of tag init f out = Ok (f v).
Proof using Hcap.
  intros [Ht1 Ht2] <- Hv H. unfold opt_varint in H. encodes; [by subst v|]. apply says_parse; [split; [apply blen_nonneg|in_width]|].
  eapply says_field; [apply says_nil| |].
  - cbn [field_ok]. done.
  - cbn [interp table]. by rewrite Z.eqb_refl.
Qed.

Lemma bytes_shape out tag s s_cap : tag_ok 2 tag -> short s -> blen s < s_cap ->
  opt_bytes cap tag s = Ok out -> buf_of tag s_cap out = Ok s.
Proof using Hcap.
  intros [Ht1 Ht2] Hs Hc H. pose proof (blen_nonneg s). unfold opt_bytes in H. encodes; try done.
  apply says_parse; [split; [apply blen_nonneg|in_width]|]. eapply says_field; [apply says_nil| |].
  - cbn [field_ok]. done.
  - cbn [interp table]. rewrite Z.eqb_refl. field_value.
Qed.

Lemma msg_shape {A} out outer (init : A) sub inner r : tag_ok 2 outer -> short inner ->
  says sub init inner r -> out = [] ++ delimited outer inner -> blen out <= cap ->
  parse (table [(outer, Amsg (fun _ => init) sub id)]) init out = Ok r.
Proof using Hcap.
  intros Ht Hs Hi -> Hb. apply says_parse; [split; [apply blen_nonneg|in_width]|].
  eapply says_msg; [apply says_nil|cbn [table]; by rewrite Z.eqb_refl|done|done|exact Hi|done].
Qed.

Lemma varint_says {A} tag (init : A) f v : tag_ok 0 tag -> in_u64 v ->
  says (table [(tag, Avarint (fun _ v => Ok (f v)))]) init ([] ++ wire (FVar tag v)) (f v).
Proof.
  intros Ht Hv. eapply says_field; [apply says_nil|done|]. cbn [interp table]. by rewrite Z.eqb_refl.
Qed.

Lemma buf_says tag init s s_cap : tag_ok 2 tag -> short s -> blen s < s_cap ->
  says (table [(tag, Abuf s_cap (fun _ d => d))]) init ([] ++ wire (FLen tag s)) s.
Proof.
  intros Ht Hs Hc. pose proof (blen_nonneg s). eapply says_field; [apply says_nil|done|]. cbn [interp table]. rewrite Z.eqb_refl. field_value.
Qed.

Lemma varint_msg_shape {A} out outer size tag (init : A) f v : tag_ok 2 outer -> tag_ok 0 tag -> f 0 = init -> size < 4611686018427387904 -> in_u64 v ->
  opt_in_msg cap outer size tag v = Ok out -> varint_in_msg outer tag init f out = Ok (f v).
Proof using Hcap.
  intros Ho Ht <- Hsz Hv H. unfold opt_in_msg in H. encodes; [by subst v|].
  eapply msg_shape; [done| |by apply varint_says|reflexivity|done]. in_width.
Qed.

Lemma bytes_msg_shape out outer size tag s s_cap : tag_ok 2 outer -> tag_ok 2 tag -> size < 4611686018427387904 -> short s -> blen s < s_cap ->
  opt_bytes_in_msg cap outer size tag s = Ok out -> buf_in_msg outer tag s_cap out = Ok s.
Proof using Hcap.
  intros Ho Ht Hsz Hs Hc H. pose proof (blen_nonneg s). unfold opt_bytes_in_msg in H. encodes; try done.
  unfold buf_in_msg. rewrite (proj2 (Z.eqb_neq s_cap 0)) by lia.
  eapply msg_shape; [done| |by apply buf_says|reflexivity|done]. in_width.
Qed.

Lemma event_shape {A} out kv (init : A) sub inner r : tag_ok 2 kv -> short inner ->
  says sub init inner r -> short ([] ++ delimited kv inner) -> out = [] ++ delimited 0x5a ([] ++ delimited kv inner) -> blen out <= cap ->
  parse (table [(0x5a, Amsg (fun _ => init) (table [(kv, Amsg (fun _ => init) sub id)]) id)]) init out = Ok r.
Proof using Hcap.
  intros Ht Hs Hi Hs2 -> Hb. eapply msg_shape; [by split|exact Hs2| |reflexivity|done].
  eapply says_msg; [apply says_nil|cbn [table]; by rewrite Z.eqb_refl|done|done|exact Hi|done].
Qed.

Lemma varint_event_shape {A} out kv tag (init : A) f v : tag_ok 2 kv -> tag_ok 0 tag -> f 0 = init -> in_u64 v ->
  opt_in_event cap kv tag v = Ok out -> varint_in_event kv tag init f out = Ok (f v).
Proof using Hcap.
  intros Ho Ht <- Hv H. unfold opt_in_event in H. encodes; [by subst v|].
  eapply event_shape; [done| |by apply varint_says| |reflexivity|done]; in_width.
Qed.

Lemma bytes_event_shape out kv tag s s_cap : tag_ok 2 kv -> tag_ok 2 tag -> short s -> blen s < s_cap ->
  opt_bytes_in_event cap kv tag s = Ok out -> buf_in_event kv tag s_cap out = Ok s.
Proof using Hcap.
  intros Ho Ht Hs Hc H. pose proof (blen_nonneg s). unfold opt_bytes_in_event in H. encodes; try done.
  eapply event_shape; [done| |by apply buf_says| |reflexivity|done]; in_width.
Qed.

(** Messages of several fields. *)
Lemma alarm_response_roundtrip out member_id alarm n : in_u64 member_id -> alarm <= INT_MAX -> 0 < n ->
  cetcd_encode_alarm_response_member member_id alarm cap = Ok out ->
  cetcd_parse_alarm_response n out = Ok ([mk_alarm_member member_id alarm], 1).
Proof using Hcap.
  intros H1 H2 H3 H. unfold cetcd_encode_alarm_response_member in H. encodes. unfold cetcd_parse_alarm_response.
  erewrite (says_parse _ _ _ (mk_alarm_member member_id alarm, [mk_alarm_member member_id alarm], 1)); [done|split; [apply blen_nonneg|in_width]|].
  reads; field_value; field_value. cbv beta iota. by rewrite (proj2 (Z.ltb_lt 0 n)).
Qed.

Lemma range_kv_roundtrip out key val key_cap val_cap : short key -> short val -> blen key < key_cap -> blen val < val_cap ->
  cetcd_encode_range_response_kv key val cap = Ok out ->
  cetcd_parse_range_response_kv key_cap val_cap out = Ok (key, val, 1).
Proof using Hcap.
  intros H1 H2 H3 H4 H. pose proof (blen_nonneg key). pose proof (blen_nonneg val). unfold cetcd_encode_range_response_kv in H.
  encodes; try done; roundtrip.
Qed.

Lemma range_count_roundtrip out count more : count <= INT64_MAX -> cetcd_encode_range_response_count count more cap = Ok out ->
  cetcd_parse_range_response_count out = Ok (count, more).
Proof using Hcap. intros H1 H. unfold cetcd_encode_range_response_count in H. encodes; roundtrip. Qed.

Lemma member_response_roundtrip out id url is_learner url_cap : in_u64 id -> short url -> blen url < url_cap ->
  cetcd_encode_member_list_response_member id url is_learner cap = Ok out ->
  cetcd_parse_member_list_response url_cap out = Ok (id, url, is_learner, 1).
Proof using Hcap.
  intros H1 H2 H3 H. pose proof (blen_nonneg url). unfold cetcd_encode_member_list_response_member in H. encodes; try done; roundtrip.
Qed.

Lemma string_list_roundtrip out s s_cap : short s -> blen s < s_cap -> cetcd_encode_string_list_item s cap = Ok out ->
  cetcd_parse_string_list_response s_cap out = Ok (s, 1).
Proof using Hcap.
  intros H1 H2 H. pose proof (blen_nonneg s). unfold cetcd_encode_string_list_item in H. unfold cetcd_parse_string_list_response.
  rewrite (proj2 (Z.eqb_neq s_cap 0)) by lia. encodes; try done; roundtrip.
Qed.

Lemma status_roundtrip out version db_size is_learner v_cap : short version -> blen version < v_cap -> in_u64 db_size ->
  cetcd_encode_status_response version db_size is_learner cap = Ok out ->
  cetcd_parse_status_response v_cap out = Ok (version, db_size, is_learner).
Proof using Hcap.
  intros H1 H2 H3 H. pose proof (blen_nonneg version). unfold cetcd_encode_status_response in H. encodes; try done; roundtrip.
Qed.

Lemma lease_grant_roundtrip out id ttl : id <= INT64_MAX -> 0 <= ttl <= INT64_MAX ->
  cetcd_encode_lease_grant_response id ttl cap = Ok out -> cetcd_parse_lease_grant_response out = Ok (id, ttl).
Proof using Hcap.
  intros H1 H2 H. unfold cetcd_encode_lease_grant_response in H. destruct (0 <? ttl) eqn:Et; encodes; roundtrip.
Qed.

Lemma lease_ttl_roundtrip out id ttl granted key key_cap : id <= INT64_MAX -> 0 <= ttl <= INT64_MAX -> 0 <= granted <= INT64_MAX ->
  short key -> blen key < key_cap -> cetcd_encode_lease_ttl_response id ttl granted key cap = Ok out ->
  cetcd_parse_lease_ttl_response key_cap out = Ok (id, ttl, granted, key).
Proof using Hcap.
  intros H1 H2 H3 H4 H5 H. pose proof (blen_nonneg key). unfold cetcd_encode_lease_ttl_response in H.
  assert ((if 0 <? ttl then ttl else 0) = ttl) as Et by (destruct (Z.ltb_spec 0 ttl); lia).
  assert ((if 0 <? granted then granted else 0) = granted) as Eg by (destruct (Z.ltb_spec 0 granted); lia).
  rewrite Et, Eg in H. encodes; try done; roundtrip.
Qed.

Lemma lease_list_roundtrip out id : id <= INT64_MAX -> cetcd_encode_lease_list_item id cap = Ok out ->
  cetcd_parse_lease_list_response out = Ok (id, 1).
Proof using Hcap. intros H1 H. unfold cetcd_encode_lease_list_item in H. encodes; roundtrip. Qed.

Lemma hash_roundtrip out hash rev : in_u32 hash -> 0 <= rev <= INT64_MAX ->
  cetcd_encode_hash_response hash rev cap = Ok out -> cetcd_parse_hash_response out = Ok (hash, rev).
Proof using Hcap.
  intros H1 H2 H. unfold cetcd_encode_hash_response in H. encodes; [|lia]. roundtrip.
Qed.

Lemma header_roundtrip out cluster_id member_id revision raft_term : in_u64 cluster_id -> in_u64 member_id ->
  0 <= revision <= INT64_MAX -> in_u64 raft_term ->
  cetcd_encode_response_header cluster_id member_id revision raft_term cap = Ok out ->
  cetcd_parse_response_header out = Ok (cluster_id, member_id, revision, raft_term).
Proof using Hcap.
  intros H1 H2 H3 H4 H. unfold cetcd_encode_response_header in H.
  assert ((if 0 <? revision then revision else 0) = revision) as E by (destruct (Z.ltb_spec 0 revision); lia).
  rewrite E in H. encodes; roundtrip.
Qed.

Lemma snapshot_response_roundtrip out blob b_cap : short blob -> blen blob < b_cap ->
  cetcd_encode_snapshot_response blob cap = Ok out -> cetcd_parse_snapshot_response b_cap out = Ok (blob, blen blob).
Proof using Hcap.
  intros H1 H2 H. pose proof (blen_nonneg blob). unfold cetcd_encode_snapshot_response in H. unfold cetcd_parse_snapshot_response.
  rewrite (proj2 (Z.eqb_neq b_cap 0)) by lia. encodes; try done; roundtrip.
Qed.

Lemma role_perm_roundtrip out perm_type key key_cap : short key -> blen key < key_cap ->
  cetcd_encode_role_get_perm perm_type key cap = Ok out -> cetcd_parse_role_get_response key_cap out = Ok (perm_type, key, 1).
Proof using Hcap.
  intros H1 H2 H. pose proof (blen_nonneg key). unfold cetcd_encode_role_get_perm in H. encodes; try done; roundtrip.
Qed.

Lemma watch_event_roundtrip out type key key_cap : short key -> blen key < key_cap ->
  cetcd_encode_watch_event_kv type key cap = Ok out -> cetcd_parse_watch_response key_cap out = Ok (type, key, 1).
Proof using Hcap.
  intros H1 H2 H. pose proof (blen_nonneg key). unfold cetcd_encode_watch_event_kv in H. encodes; try done; roundtrip.
Qed.

Lemma delete_prev_roundtrip out key key_cap : short key -> blen key < key_cap ->
  cetcd_encode_delete_range_prev_kv key cap = Ok out -> cetcd_parse_delete_range_response key_cap out = Ok (key, 1).
Proof using Hcap.
  intros H1 H2 H. pose proof (blen_nonneg key). unfold cetcd_encode_delete_range_prev_kv in H. encodes; try done; roundtrip.
Qed.

Lemma deleted_roundtrip out deleted : deleted <= INT64_MAX -> cetcd_encode_delete_range_deleted deleted cap = Ok out ->
  cetcd_parse_delete_range_deleted out = Ok deleted.
Proof using Hcap. intros H1 H. unfold cetcd_encode_delete_range_deleted in H. encodes. unfold cetcd_parse_delete_range_deleted, varint_of. roundtrip. Qed.
End responses.

(** ** The round trips together *)



(** The same for the responses the command-line client reads: key-value
    pairs and their single fields, watch events, members, leases, status,
    header, hash, permissions and snapshots. *)
Theorem responses_roundtrip cap : in_u64 cap ->
  (forall out key val key_cap val_cap, short key -> short val -> blen key < key_cap -> blen val < val_cap ->
     cetcd_encode_range_response_kv key val cap = Ok out -> cetcd_parse_range_response_kv key_cap val_cap out = Ok (key, val, 1)) /\
  (forall out lease, in_i64 lease ->
     cetcd_encode_range_response_kv_lease lease cap = Ok out -> cetcd_parse_range_response_kv_lease out = Ok lease) /\
  (forall out value value_cap, short value -> blen value < value_cap ->
     cetcd_encode_range_response_kv_value value cap = Ok out -> cetcd_parse_range_response_kv_value value_cap out = Ok value) /\
  (forall out count more, count <= INT64_MAX ->
     cetcd_encode_range_response_count count more cap = Ok out -> cetcd_parse_range_response_count out = Ok (count, more)) /\
  (forall out type key key_cap, short key -> blen key < key_cap ->
     cetcd_encode_watch_event_kv type key cap = Ok out -> cetcd_parse_watch_response key_cap out = Ok (type, key, 1)) /\
  (forall out mod_rev, in_i64 mod_rev ->
     cetcd_encode_watch_event_kv_mod_rev mod_rev cap = Ok out -> cetcd_parse_watch_event_kv_mod_rev out = Ok mod_rev) /\
  (forall out value value_cap, short value -> blen value < value_cap ->
     cetcd_encode_watch_event_prev_kv_value value cap = Ok out -> cetcd_parse_watch_event_prev_kv_value value_cap out = Ok value) /\
  (forall out key key_cap, short key -> blen key < key_cap ->
     cetcd_encode_delete_range_prev_kv key cap = Ok out -> cetcd_parse_delete_range_response key_cap out = Ok (key, 1)) /\
  (forall out id url is_learner url_cap, in_u64 id -> short url -> blen url < url_cap ->
     cetcd_encode_member_list_response_member id url is_learner cap = Ok out ->
     cetcd_parse_member_list_response url_cap out = Ok (id, url, is_learner, 1)) /\
  (forall out version db_size is_learner v_cap, short version -> blen version < v_cap -> in_u64 db_size ->
     cetcd_encode_status_response version db_size is_learner cap = Ok out ->
     cetcd_parse_status_response v_cap out = Ok (version, db_size, is_learner)) /\
  (forall out id ttl, id <= INT64_MAX -> 0 <= ttl <= INT64_MAX ->
     cetcd_encode_lease_grant_response id ttl cap = Ok out -> cetcd_parse_lease_grant_response out = Ok (id, ttl)) /\
  (forall out id ttl granted key key_cap, id <= INT64_MAX -> 0 <= ttl <= INT64_MAX -> 0 <= granted <= INT64_MAX ->
     short key -> blen key < key_cap -> cetcd_encode_lease_ttl_response id ttl granted key cap = Ok out ->
     cetcd_parse_lease_ttl_response key_cap out = Ok (id, ttl, granted, key)) /\
  (forall out hash rev, in_u32 hash -> 0 <= rev <= INT64_MAX ->
     cetcd_encode_hash_response hash rev cap = Ok out -> cetcd_parse_hash_response out = Ok (hash, rev)) /\
  (forall out cluster_id member_id revision raft_term, in_u64 cluster_id -> in_u64 member_id ->
     0 <= revision <= INT64_MAX -> in_u64 raft_term ->
     cetcd_encode_response_header cluster_id member_id revision raft_term cap = Ok out ->
     cetcd_parse_response_header out = Ok (cluster_id, member_id, revision, raft_term)) /\
  (forall out perm_type key key_cap, short key -> blen key < key_cap ->
     cetcd_encode_role_get_perm perm_type key cap = Ok out -> cetcd_parse_role_get_response key_cap out = Ok (perm_type, key, 1)) /\
  (forall out blob b_cap, short blob -> blen blob < b_cap ->
     cetcd_encode_snapshot_response blob cap = Ok out -> cetcd_parse_snapshot_response b_cap out = Ok (blob, blen blob)).
Proof.
  intros Hc. split_and!; intros *.
  - by apply range_kv_roundtrip.
  - intros Hl H. rewrite <- (u64_of_i64 lease Hl) at 1. eapply varint_msg_shape; [exact Hc|done|done|done| | |exact H]; [lia|apply u64_range].
  - intros Hv Hb H. unfold cetcd_parse_range_response_kv_value, sized. rewrite (proj2 (Z.eqb_neq value_cap 0)) by (pose proof (blen_nonneg value); lia).
    eapply bytes_msg_shape; [exact Hc|done|done| |done|done|exact H]. lia.
  - by apply range_count_roundtrip.
  - by apply watch_event_roundtrip.
  - intros Hl H. rewrite <- (u64_of_i64 mod_rev Hl) at 1. eapply varint_event_shape; [exact Hc|done|done|done| |exact H]. apply u64_range.
  - intros Hv Hb H. unfold cetcd_parse_watch_event_prev_kv_value, sized. rewrite (proj2 (Z.eqb_neq value_cap 0)) by (pose proof (blen_nonneg value); lia).
    by eapply bytes_event_shape.
  - by apply delete_prev_roundtrip.
  - by apply member_response_roundtrip.
  - by apply status_roundtrip.
  - by apply lease_grant_roundtrip.
  - by apply lease_ttl_roundtrip.
  - by apply hash_roundtrip.
  - by apply header_roundtrip.
  - by apply role_perm_roundtrip.
  - by apply snapshot_response_roundtrip.
Qed.

Lemma responses_roundtrip_witness :
  cetcd_encode_response_header 7 9 300 2 64 = Ok [10; 9; 8; 7; 16; 9; 24; 172; 2; 32; 2] /\
  cetcd_parse_response_header [10; 9; 8; 7; 16; 9; 24; 172; 2; 32; 2] = Ok (7, 9, 300, 2).
Proof.
  split; [reflexivity|].
  destruct (responses_roundtrip 64 ltac:(unfold in_u64; lia)) as (_ & _ & _ & _ & _ & _ & _ & _ & _ & _ & _ & _ & _ & Hh & _).
  apply Hh; [unfold in_u64; lia|unfold in_u64; lia|unfold INT64_MAX; lia|unfold in_u64; lia|reflexivity].
Defined.
