(* ===== verification/ApplyCodec.v ===== *)
(** * Encoding of replicated commands (src/v3rpc/apply.c, encoders)

    A command of the replicated log is a tag byte followed by varints and
    length-prefixed byte strings.  Every encoder writes into a buffer of a
    capacity computed beforehand: a varint that does not fit makes the encoder
    return -1, a copy that does not fit would be a buffer overrun.  Both are
    [None] here, and the equations below show that neither happens. *)

From S2P Require Import Slice Hash Raft RaftWire Wal Backend Lease Prelude.

#[local] Open Scope Z_scope.

Definition CETCD_APPLY_PUT : Z := 1.
Definition CETCD_APPLY_DELETE : Z := 2.
Definition CETCD_APPLY_BATCH : Z := 3.
Definition CETCD_APPLY_DELETE_RANGE : Z := 4.
Definition CETCD_APPLY_MEMBER_ADD : Z := 5.
Definition CETCD_APPLY_MEMBER_REMOVE : Z := 6.
Definition CETCD_APPLY_MEMBER_PROMOTE : Z := 7.
Definition CETCD_APPLY_MEMBER_UPDATE : Z := 8.
Definition CETCD_APPLY_LEAVE_JOINT : Z := 9.
Definition CETCD_APPLY_LEASE_REVOKE : Z := 10.
Definition CETCD_APPLY_COMPACT : Z := 11.
Definition CETCD_APPLY_LEASE_GRANT : Z := 12.
Definition CETCD_APPLY_LEASE_KEEPALIVE : Z := 13.
Definition CETCD_APPLY_AUTH_USER_ADD : Z := 14.
Definition CETCD_APPLY_AUTH_ENABLED : Z := 15.
Definition CETCD_APPLY_AUTH_USER_DELETE : Z := 16.
Definition CETCD_APPLY_AUTH_ROLE_ADD : Z := 17.
Definition CETCD_APPLY_AUTH_ROLE_DELETE : Z := 18.
Definition CETCD_APPLY_AUTH_USER_GRANT_ROLE : Z := 19.
Definition CETCD_APPLY_AUTH_USER_REVOKE_ROLE : Z := 20.
Definition CETCD_APPLY_AUTH_ROLE_GRANT_PERM : Z := 21.
Definition CETCD_APPLY_AUTH_ROLE_REVOKE_PERM : Z := 22.
Definition CETCD_APPLY_AUTH_USER_CHANGE_PASS : Z := 23.
Definition CETCD_APPLY_ALARM : Z := 24.

(** ** Varints *)

(** The loop of [write_varint_]: [buf] is what is written so far, 10
    iterations are enough for 64 bits. *)
Fixpoint write_varint_loop (fuel : nat) (cap : Z) (buf : bytes) (val : Z) : option bytes :=
  match fuel with
  | O => None
  | S fuel =>
      if blen buf <? cap then
        let b := Z.land val 127 in
        let val := Z.shiftr val 7 in
        let b := if negb (val =? 0) then Z.lor b 128 else b in
        if val =? 0 then Some (buf ++ [b]) else write_varint_loop fuel cap (buf ++ [b]) val
      else None
  end.

Definition write_varint_ (cap : Z) (buf : bytes) (val : Z) : option bytes := write_varint_loop 10 cap buf val.

(** The value and the bytes after it. *)
Fixpoint read_varint_loop_ (buf : bytes) (val shift : Z) : option (Z * bytes) :=
  match buf with
  | [] => None
  | b :: rest =>
      let val := Z.lor val (u64 (Z.shiftl (Z.land b 127) shift)) in
      if Z.land b 128 =? 0 then Some (val, rest)
      else
        let shift := shift + 7 in
        if 63 <? shift then None else read_varint_loop_ rest val shift
  end.

Definition read_varint_ (buf : bytes) : option (Z * bytes) := read_varint_loop_ buf 0 0.

(** [memcpy] of [d] to the end of a buffer of [cap] bytes. *)
Definition copy_bytes (cap : Z) (buf d : bytes) : option bytes :=
  if cap <? blen buf + blen d then None else Some (buf ++ d).

(** ** Encoders *)

Definition encode_tagged_ (tag : Z) (a b : bytes) (extra : option Z) : option bytes :=
  if (9223372036854775807 <? blen a) || (9223372036854775807 <? blen b) then None
  else
    let cap := 1 + 10 + blen a + 10 + blen b + 16 in
    buf ← write_varint_ cap [tag] (blen a);
    buf ← copy_bytes cap buf a;
    buf ← write_varint_ cap buf (blen b);
    buf ← copy_bytes cap buf b;
    match extra with Some x => write_varint_ cap buf x | None => Some buf end.

Definition cetcd_apply_encode_put (key val : bytes) (lease_id : Z) : option bytes :=
  if blen key =? 0 then None else encode_tagged_ CETCD_APPLY_PUT key val (Some (u64 lease_id)).

Definition cetcd_apply_encode_delete (key : bytes) : option bytes :=
  if blen key =? 0 then None else encode_tagged_ CETCD_APPLY_DELETE key [] None.

Definition cetcd_apply_encode_delete_range (key range_end : bytes) : option bytes :=
  if blen key =? 0 then None else encode_tagged_ CETCD_APPLY_DELETE_RANGE key range_end None.

(** The loop over the operations of a batch. *)
Fixpoint batch_loop (cap : Z) (buf : bytes) (ops : list bytes) : option bytes :=
  match ops with
  | [] => Some buf
  | op :: ops =>
      buf ← write_varint_ cap buf (blen op);
      buf ← copy_bytes cap buf op;
      batch_loop cap buf ops
  end.

Definition cetcd_apply_encode_batch (ops : list bytes) : option bytes :=
  if (blen ops =? 0) || (128 <? blen ops) then None
  else
    match ops with
    | [op] => Some op
    | _ =>
        let cap := foldl (fun cap op => cap + (10 + blen op)) (1 + 10) ops in
        buf ← write_varint_ cap [CETCD_APPLY_BATCH] (blen ops);
        batch_loop cap buf ops
    end.

Definition cetcd_apply_encode_member_add (id : Z) (is_learner : bool) (addr : bytes) (port : Z) : option bytes :=
  if id =? 0 then None
  else
    let cap := 1 + 10 + 10 + 10 + blen addr + 10 in
    buf ← write_varint_ cap [CETCD_APPLY_MEMBER_ADD] id;
    buf ← write_varint_ cap buf (if is_learner then 1 else 0);
    buf ← write_varint_ cap buf (blen addr);
    buf ← copy_bytes cap buf addr;
    write_varint_ cap buf port.

Definition cetcd_apply_encode_member_remove (id : Z) : option bytes :=
  if id =? 0 then None else write_varint_ 16 [CETCD_APPLY_MEMBER_REMOVE] id.

Definition cetcd_apply_encode_member_promote (id : Z) : option bytes :=
  if id =? 0 then None else write_varint_ 16 [CETCD_APPLY_MEMBER_PROMOTE] id.

Definition cetcd_apply_encode_member_update (id : Z) (addr : bytes) (port : Z) : option bytes :=
  if id =? 0 then None
  else
    let cap := 1 + 10 + 10 + blen addr + 10 in
    buf ← write_varint_ cap [CETCD_APPLY_MEMBER_UPDATE] id;
    buf ← write_varint_ cap buf (blen addr);
    buf ← copy_bytes cap buf addr;
    write_varint_ cap buf port.

Definition cetcd_apply_encode_lease_revoke (lease_id : Z) : option bytes :=
  if lease_id =? 0 then None else write_varint_ 16 [CETCD_APPLY_LEASE_REVOKE] lease_id.

Definition cetcd_apply_encode_compact (revision : Z) : option bytes :=
  if revision <=? 0 then None else write_varint_ 16 [CETCD_APPLY_COMPACT] (u64 revision).

Definition cetcd_apply_encode_lease_grant (lease_id ttl : Z) : option bytes :=
  if (lease_id =? 0) || (ttl <=? 0) || (CETCD_MAX_LEASE_TTL <? ttl) then None
  else
    buf ← write_varint_ 24 [CETCD_APPLY_LEASE_GRANT] lease_id;
    write_varint_ 24 buf (u64 ttl).

Definition cetcd_apply_encode_lease_keepalive (lease_id ttl : Z) : option bytes :=
  if (lease_id =? 0) || (ttl <=? 0) || (CETCD_MAX_LEASE_TTL <? ttl) then None
  else
    buf ← write_varint_ 24 [CETCD_APPLY_LEASE_KEEPALIVE] lease_id;
    write_varint_ 24 buf (u64 ttl).

(** The shape of the encoders of two non-empty strings. *)
Definition encode_two (tag : Z) (a b : bytes) : option bytes :=
  if (blen a =? 0) || (blen b =? 0) then None else encode_tagged_ tag a b None.

(** The shape of the encoders of one non-empty string. *)
Definition encode_one (tag : Z) (a : bytes) : option bytes :=
  if blen a =? 0 then None else encode_tagged_ tag a [] None.

Definition cetcd_apply_encode_auth_user_add (name hash : bytes) := encode_two CETCD_APPLY_AUTH_USER_ADD name hash.
Definition cetcd_apply_encode_auth_user_change_pass (name hash : bytes) := encode_two CETCD_APPLY_AUTH_USER_CHANGE_PASS name hash.
Definition cetcd_apply_encode_auth_user_grant_role (user role : bytes) := encode_two CETCD_APPLY_AUTH_USER_GRANT_ROLE user role.
Definition cetcd_apply_encode_auth_user_revoke_role (user role : bytes) := encode_two CETCD_APPLY_AUTH_USER_REVOKE_ROLE user role.
Definition cetcd_apply_encode_auth_user_delete (name : bytes) := encode_one CETCD_APPLY_AUTH_USER_DELETE name.
Definition cetcd_apply_encode_auth_role_add (name : bytes) := encode_one CETCD_APPLY_AUTH_ROLE_ADD name.
Definition cetcd_apply_encode_auth_role_delete (name : bytes) := encode_one CETCD_APPLY_AUTH_ROLE_DELETE name.

Definition cetcd_apply_encode_auth_enabled (enabled : Z) : option bytes :=
  if negb (enabled =? 0) && negb (enabled =? 1) then None else write_varint_ 8 [CETCD_APPLY_AUTH_ENABLED] enabled.

(** The optional range end after a permission command. *)
Definition append_range_end (buf range_end : bytes) : option bytes :=
  if blen range_end =? 0 then Some buf
  else
    let ncap := blen buf + 10 + blen range_end in
    buf ← write_varint_ ncap buf (blen range_end);
    copy_bytes ncap buf range_end.

Definition cetcd_apply_encode_auth_role_grant_perm_range (role key : bytes) (perm_type : Z) (range_end : bytes) : option bytes :=
  if (blen role =? 0) || (perm_type <? 0) || (2 <? perm_type) then None
  else
    buf ← encode_tagged_ CETCD_APPLY_AUTH_ROLE_GRANT_PERM role key (Some perm_type);
    append_range_end buf range_end.

Definition cetcd_apply_encode_auth_role_grant_perm (role key : bytes) (perm_type : Z) :=
  cetcd_apply_encode_auth_role_grant_perm_range role key perm_type [].

Definition cetcd_apply_encode_auth_role_revoke_perm_range (role key range_end : bytes) : option bytes :=
  if blen role =? 0 then None
  else
    buf ← encode_tagged_ CETCD_APPLY_AUTH_ROLE_REVOKE_PERM role key None;
    append_range_end buf range_end.

Definition cetcd_apply_encode_auth_role_revoke_perm (role key : bytes) :=
  cetcd_apply_encode_auth_role_revoke_perm_range role key [].

Definition cetcd_apply_encode_alarm (action alarm_type member_id : Z) : option bytes :=
  if (negb (action =? 1) && negb (action =? 2)) || (negb (alarm_type =? 1) && negb (alarm_type =? 2)) then None
  else
    buf ← write_varint_ 32 [CETCD_APPLY_ALARM] action;
    buf ← write_varint_ 32 buf alarm_type;
    write_varint_ 32 buf member_id.

(** ** What the encoders produce *)

Abbreviation varint := wbuf_write_varint.

Lemma write_varint_loop_spec fuel : forall cap buf v, 0 <= v < 2 ^ (7 * Z.of_nat fuel) -> blen buf + Z.of_nat fuel <= cap ->
  (0 < fuel)%nat -> write_varint_loop fuel cap buf v = Some (buf ++ wire_loop fuel v).
Proof.
  induction fuel as [|fuel IH]; intros cap buf v Hv Hcap Hf; [lia|]. cbn [write_varint_loop wire_loop].
  rewrite (proj2 (Z.ltb_lt _ _)) by lia. cbv zeta. destruct (Z.eqb_spec (Z.shiftr v 7) 0) as [Hz|Hz]; cbn [negb]; [done|].
  assert (Hs : 0 <= Z.shiftr v 7 < 2 ^ (7 * Z.of_nat fuel)).
  { rewrite Z.shiftr_div_pow2 by lia. split; [apply Z.div_pos; lia|]. apply Z.div_lt_upper_bound; [lia|].
    rewrite <- Z.pow_add_r by lia. replace (7 + 7 * Z.of_nat fuel) with (7 * Z.of_nat (S fuel)) by lia. lia. }
  destruct fuel as [|fuel']; [cbn in Hs; lia|].
  rewrite IH; [by rewrite <- app_assoc|done|rewrite blen_app; unfold blen in *; cbn [length]; lia|lia].
Qed.

Lemma write_varint_spec cap buf v : in_u64 v -> blen buf + 10 <= cap -> write_varint_ cap buf v = Some (buf ++ varint v).
Proof. intros Hv Hcap. apply write_varint_loop_spec; [unfold in_u64 in Hv; cbn; lia|lia|lia]. Qed.

Lemma copy_bytes_spec cap buf d : blen buf + blen d <= cap -> copy_bytes cap buf d = Some (buf ++ d).
Proof. intros Hc. unfold copy_bytes. by rewrite (proj2 (Z.ltb_ge _ _)). Qed.

Lemma read_varint_loop_eq buf : forall v shift, shift < 64 -> read_varint_loop_ buf v shift = read_varint_loop buf v shift.
Proof.
  induction buf as [|b buf IH]; intros v shift Hs; [done|]. cbn [read_varint_loop_ read_varint_loop]. cbv zeta.
  rewrite (proj2 (Z.leb_gt _ _)) by done. destruct (Z.land b 128 =? 0); [done|].
  destruct (Z.ltb_spec 63 (shift + 7)) as [Hl|Hl]; [|apply IH; lia].
  destruct buf as [|c buf]; [done|]. cbn [read_varint_loop]. by rewrite (proj2 (Z.leb_le _ _)) by lia.
Qed.

Lemma read_varint_spec v rest : in_u64 v -> read_varint_ (varint v ++ rest) = Some (v, rest).
Proof. intros Hv. unfold read_varint_. rewrite read_varint_loop_eq by lia. by apply read_write_varint. Qed.

Lemma varint_blen v : 1 <= blen (varint v) <= 10.
Proof. pose proof (varint_length v). unfold blen. lia. Qed.

Definition tagged (tag : Z) (a b : bytes) : bytes := tag :: varint (blen a) ++ a ++ varint (blen b) ++ b.

Ltac blen_bounds := repeat first [rewrite blen_app | rewrite blen_cons]; rewrite ?blen_app, ?blen_cons in *; change (blen (@nil Z)) with 0 in *;
  repeat match goal with
  | |- context [blen (varint ?v)] => unless (1 <= blen (varint v) <= 10) by assumption; pose proof (varint_blen v)
  | |- context [blen ?l] => unless (0 <= blen l) by assumption; pose proof (blen_nonneg l)
  end; try lia.

(** Runs an encoder: every write fits. *)
Ltac encode_step :=
  first [rewrite write_varint_spec by (unfold in_u64, u64 in *; blen_bounds)
        |rewrite copy_bytes_spec by blen_bounds]; cbn [mbind option_bind].

Definition short (d : bytes) : Prop := blen d < 2 ^ 62.

Lemma encode_tagged_spec tag a b extra : short a -> short b -> (forall x, extra = Some x -> in_u64 x) ->
  encode_tagged_ tag a b extra = Some (tagged tag a b ++ match extra with Some x => varint x | None => [] end).
Proof.
  intros Ha Hb Hx. unfold short in *. unfold encode_tagged_. rewrite !(proj2 (Z.ltb_ge _ _)) by lia. cbn [orb]. cbv zeta.
  do 4 encode_step. unfold tagged. destruct extra as [x|]; [|by rewrite app_nil_r, <- !app_assoc].
  specialize (Hx x eq_refl). encode_step. cbn [app]. by rewrite <- !app_assoc.
Qed.

Lemma encode_put_spec key val lease : short key -> short val -> key <> [] ->
  cetcd_apply_encode_put key val lease = Some (tagged CETCD_APPLY_PUT key val ++ varint (u64 lease)).
Proof.
  intros Hk Hv Hne. unfold cetcd_apply_encode_put. rewrite (proj2 (Z.eqb_neq _ 0)) by (destruct key; [done|rewrite blen_cons; blen_bounds]).
  apply encode_tagged_spec; [done..|]. intros x [= <-]. apply u64_range.
Qed.

Lemma encode_one_spec tag a : short a -> a <> [] -> encode_one tag a = Some (tagged tag a []).
Proof.
  intros Ha Hne. unfold encode_one. rewrite blen_nonempty by done.
  rewrite encode_tagged_spec; [by rewrite app_nil_r|done|done|done].
Qed.

Lemma encode_two_spec tag a b : short a -> short b -> a <> [] -> b <> [] -> encode_two tag a b = Some (tagged tag a b).
Proof.
  intros Ha Hb Hne Hne'. unfold encode_two. rewrite !blen_nonempty by done. cbn [orb].
  rewrite encode_tagged_spec; [by rewrite app_nil_r|done|done|done].
Qed.

Lemma encode_range_spec key e : short key -> short e -> key <> [] ->
  cetcd_apply_encode_delete_range key e = Some (tagged CETCD_APPLY_DELETE_RANGE key e).
Proof.
  intros Ha Hb Hne. unfold cetcd_apply_encode_delete_range. rewrite blen_nonempty by done.
  rewrite encode_tagged_spec; [by rewrite app_nil_r|done|done|done].
Qed.

(** ** Batches *)

Definition batch_body (ops : list bytes) : bytes := mjoin ((fun op => varint (blen op) ++ op) <$> ops).

Lemma cap_loop (ops : list bytes) : forall cap, foldl (fun cap op => cap + (10 + blen op)) cap ops =
  cap + 10 * blen ops + blen (mjoin ops).
Proof.
  induction ops as [|op ops IH]; intros cap; cbn [foldl]; [unfold blen; cbn; lia|]. rewrite IH, blen_cons.
  change (mjoin (op :: ops)) with (op ++ mjoin ops). rewrite blen_app. lia.
Qed.

Lemma batch_loop_spec ops : forall cap buf, Forall short ops -> blen buf + 10 * blen ops + blen (mjoin ops) <= cap ->
  batch_loop cap buf ops = Some (buf ++ batch_body ops).
Proof.
  induction ops as [|op ops IH]; intros cap buf Hs Hcap; [by rewrite app_nil_r|].
  apply Forall_cons in Hs as [H1 H2]. change (mjoin (op :: ops)) with (op ++ mjoin ops) in Hcap. unfold short in H1.
  rewrite blen_cons, blen_app in Hcap. cbn [batch_loop].
  pose proof (blen_nonneg ops). pose proof (blen_nonneg op). pose proof (blen_nonneg (mjoin ops)). do 2 encode_step.
  rewrite IH; [|done|blen_bounds].
  change (batch_body (op :: ops)) with ((varint (blen op) ++ op) ++ batch_body ops). by rewrite <- !app_assoc.
Qed.

Lemma encode_batch_spec ops : (2 <= length ops <= 128)%nat -> Forall short ops ->
  cetcd_apply_encode_batch ops = Some (CETCD_APPLY_BATCH :: varint (blen ops) ++ batch_body ops).
Proof.
  intros Hn Hs. unfold cetcd_apply_encode_batch. rewrite (proj2 (Z.eqb_neq _ 0)), (proj2 (Z.ltb_ge _ _)) by (unfold blen; lia).
  cbn [orb]. destruct ops as [|op [|op' ops]]; [cbn in Hn; lia|cbn in Hn; lia|]. set (l := op :: op' :: ops) in *. cbv zeta.
  rewrite cap_loop. assert (Hl : 2 <= blen l <= 128) by (unfold blen; lia). encode_step.
  rewrite batch_loop_spec; [done|done|blen_bounds].
Qed.
