(* ===== verification/Snap.v ===== *)
(** * Snapshot files (src/snap/snap.c)

    The entry list, its two serialisations, the headers with their checksum,
    the file names and the command lines of the offline tools.  A snapshot is
    the list of its entries; [None] of an encoder or decoder is [NULL].
    Writing past the buffer an encoder allocated is [None] too, and excluded by
    a theorem of SnapProps.v.  [malloc] succeeds. *)

From Stdlib Require Import String.
From S2P Require Import Slice Hash Raft RaftWire Wal CString ApplyCodec Prelude.

#[local] Open Scope Z_scope.

Record cetcd_snap_entry : Type := mk_snap_entry {
  se_key : bytes;
  se_value : bytes;
  se_mod_revision : Z
}.

Definition cetcd_snap : Type := list cetcd_snap_entry.

Definition cetcd_snap_new : cetcd_snap := [].

Definition cetcd_snap_add_entry (s : cetcd_snap) (key value : bytes) (mod_revision : Z) : cetcd_snap :=
  s ++ [mk_snap_entry key value mod_revision].

Definition cetcd_snap_entry_count (s : cetcd_snap) : Z := blen s.

Definition cetcd_snap_get_entry (s : cetcd_snap) (idx : nat) : option cetcd_snap_entry := s !! idx.

(** ** Big-endian integers: the most significant byte first *)

Definition be32_write (v : Z) : bytes := reverse (le_put 4 v).
Definition be64_write (v : Z) : bytes := reverse (le_put 8 v).
Definition be32_read (p : bytes) : Z := le_get (reverse (take 4 p)).
Definition be64_read (p : bytes) : Z := le_get (reverse (take 8 p)).

(** ** The fixed-width format *)

Definition SIZE_MAX : Z := 18446744073709551615.

(** The buffer size; [None] when a length overflows [size_t]. *)
Fixpoint snap_total (s : cetcd_snap) (total : Z) : option Z :=
  match s with
  | [] => Some total
  | e :: s =>
      if (SIZE_MAX - total <? blen (se_key e)) || (SIZE_MAX - total <? blen (se_value e)) then None
      else snap_total s (u64 (total + 4 + blen (se_key e) + 4 + blen (se_value e) + 8))
  end.

Definition snap_entry_bytes (e : cetcd_snap_entry) : bytes :=
  be32_write (u32 (blen (se_key e))) ++ se_key e ++ be32_write (u32 (blen (se_value e))) ++ se_value e ++
  be64_write (u64 (se_mod_revision e)).

(** The writes go into a buffer of [total] bytes. *)
Definition cetcd_snap_encode (s : cetcd_snap) : option bytes :=
  total ← snap_total s 4;
  copy_bytes total [] (be32_write (u32 (blen s)) ++ mjoin (snap_entry_bytes <$> s)).

(** [count] entries; each field is checked against what is left. *)
Fixpoint snap_decode_loop (count : nat) (data : bytes) (s : cetcd_snap) : option cetcd_snap :=
  match count with
  | O => Some s
  | S count =>
      if blen data <? 4 then None
      else
        let key_len := be32_read data in
        let data := drop 4 data in
        if blen data <? key_len then None
        else
          let k := take (Z.to_nat key_len) data in
          let data := drop (Z.to_nat key_len) data in
          if blen data <? 4 then None
          else
            let value_len := be32_read data in
            let data := drop 4 data in
            if blen data <? value_len then None
            else
              let v := take (Z.to_nat value_len) data in
              let data := drop (Z.to_nat value_len) data in
              if blen data <? 8 then None
              else snap_decode_loop count (drop 8 data) (cetcd_snap_add_entry s k v (i64 (be64_read data)))
  end.

Definition cetcd_snap_decode (data : bytes) : option cetcd_snap :=
  if blen data <? 4 then None
  else
    let count := be32_read data in
    if (blen data - 4) / 4 <? count then None
    else snap_decode_loop (Z.to_nat count) (drop 4 data) cetcd_snap_new.

(** ** The key-value format *)

Fixpoint read_varint_kv_loop (p : bytes) (v shift : Z) : option (Z * bytes) :=
  match p with
  | [] => None
  | b :: p =>
      let v := Z.lor v (u64 (Z.shiftl (Z.land b 127) shift)) in
      if Z.land b 128 =? 0 then Some (v, p)
      else let shift := shift + 7 in if 63 <? shift then None else read_varint_kv_loop p v shift
  end.

Definition read_varint_kv_ (p : bytes) : option (Z * bytes) := read_varint_kv_loop p 0 0.

(** The [do ... while (v)] loop. *)
Fixpoint write_varint_kv_loop (fuel : nat) (v : Z) : bytes :=
  match fuel with
  | O => []
  | S fuel =>
      let b := Z.land v 127 in
      let v := Z.shiftr v 7 in
      if v =? 0 then [b] else Z.lor b 128 :: write_varint_kv_loop fuel v
  end.

Definition write_varint_kv_ (v : Z) : bytes := write_varint_kv_loop 10 v.

Definition SNAP_KV_MAX : Z := 16 * 1024 * 1024.

(** One length-prefixed string. *)
Definition read_kv_field (p : bytes) : option (bytes * bytes) :=
  '(n, p) ← read_varint_kv_ p;
  if (blen p <? n) || (SNAP_KV_MAX <? n) then None else Some (take (Z.to_nat n) p, drop (Z.to_nat n) p).

(** Every iteration reads at least one byte, so the fuel [length p] is enough
    ([kv_loop_fuel]). *)
Fixpoint kv_loop (fuel : nat) (p : bytes) (s : cetcd_snap) : option cetcd_snap :=
  match p with
  | [] => Some s
  | _ =>
      match fuel with
      | O => None
      | S fuel =>
          '(key, p) ← read_kv_field p;
          '(val, p) ← read_kv_field p;
          kv_loop fuel p (cetcd_snap_add_entry s key val 0)
      end
  end.

Definition CTS1 : bytes := bytes_of_string "CTS1".
Definition CTS2 : bytes := bytes_of_string "CTS2".

Definition has_magic (magic p : bytes) : bool := bool_decide (take 4 p = magic).

(** The bytes after a header; [None] for a cut CTS2 header. *)
Definition skip_header (p : bytes) : option bytes :=
  if (16 <=? blen p) && has_magic CTS2 p then Some (drop 16 p)
  else if (12 <=? blen p) && has_magic CTS1 p then Some (drop 12 p)
  else if (4 <=? blen p) && (blen p <? 16) && has_magic CTS2 p then None
  else Some p.

Definition cetcd_snap_decode_kv (data : bytes) : option cetcd_snap :=
  p ← skip_header data;
  kv_loop (length p) p cetcd_snap_new.

Definition kv_entry_bytes (e : cetcd_snap_entry) : bytes :=
  write_varint_kv_ (blen (se_key e)) ++ se_key e ++ write_varint_kv_ (blen (se_value e)) ++ se_value e.

Definition kv_need (s : cetcd_snap) : Z :=
  foldl (fun need e => need + (10 + blen (se_key e) + 10 + blen (se_value e))) 1 s.

Definition cetcd_snap_encode_kv (s : cetcd_snap) : option bytes :=
  copy_bytes (kv_need s) [] (mjoin (kv_entry_bytes <$> s)).

(** ** Headers *)

Definition le32_read_ (p : bytes) : Z := le_get (take 4 p).
Definition le64_read_ (p : bytes) : Z := le_get (take 8 p).
Definition le32_write_ (v : Z) : bytes := le_put 4 v.
Definition le64_write_ (v : Z) : bytes := le_put 8 v.

Record cetcd_snap_header : Type := mk_snap_header {
  sh_revision : Z;
  sh_hash : Z;
  sh_kv_off : Z;
  sh_kv_len : Z;
  sh_has_hash : bool
}.

Definition cetcd_snap_parse_header (data : bytes) : cetcd_status * cetcd_snap_header :=
  let zero := mk_snap_header 0 0 0 0 false in
  if blen data =? 0 then (CETCD_OK, zero)
  else if (4 <=? blen data) && has_magic CTS2 data then
    if blen data <? 16 then (CETCD_ERR_INVAL, zero)
    else (CETCD_OK, mk_snap_header (le64_read_ (drop 4 data)) (le32_read_ (drop 12 data)) 16 (blen data - 16) true)
  else if (12 <=? blen data) && has_magic CTS1 data then
    (CETCD_OK, mk_snap_header (le64_read_ (drop 4 data)) 0 12 (blen data - 12) false)
  else (CETCD_OK, mk_snap_header 0 0 0 (blen data) false).

Definition cetcd_snap_crc32c (kv : bytes) : Z := cetcd_crc32c 0 kv.

Definition cetcd_snap_verify (data : bytes) : cetcd_status :=
  let '(rc, h) := cetcd_snap_parse_header data in
  match rc with
  | CETCD_OK =>
      if negb (sh_has_hash h) then CETCD_OK
      else if cetcd_snap_crc32c (drop (Z.to_nat (sh_kv_off h)) data) =? sh_hash h then CETCD_OK else CETCD_ERR_CORRUPT
  | rc => rc
  end.

Definition cetcd_snap_encode_cts2 (kv : bytes) (rev : Z) : bytes :=
  CTS2 ++ le64_write_ rev ++ le32_write_ (cetcd_snap_crc32c kv) ++ kv.

(** ** File names *)

Definition hex_digit (c : Z) : option Z :=
  if (48 <=? c) && (c <=? 57) then Some (c - 48)
  else if (97 <=? c) && (c <=? 102) then Some (c - 97 + 10)
  else if (65 <=? c) && (c <=? 70) then Some (c - 65 + 10)
  else None.

Fixpoint parse_hex_loop (s : bytes) (v : Z) : option Z :=
  match s with
  | [] => Some v
  | c :: s =>
      d ← hex_digit c;
      if Z.shiftr 18446744073709551615 4 <? v then None
      else parse_hex_loop s (Z.lor (Z.shiftl v 4) d)
  end.

(** [None] is [CETCD_ERR_INVAL]. *)
Definition parse_hex_u64_ (s : bytes) : option Z := match s with [] => None | _ => parse_hex_loop s 0 end.

Definition strchr (s : bytes) (c : Z) : option nat := fst <$> list_find (fun b => b = c) s.

Definition parse_etcd_hex_filename_ (name ext : bytes) (index_gt0 : bool) : option (Z * Z) :=
  let n := length name in
  let elen := length ext in
  if (elen <? 2)%nat || (n <? 3 + elen)%nat then None
  else if negb (streq (drop (n - elen) name) ext) then None
  else
    match strchr name 45 with
    | None | Some O => None
    | Some dash =>
        let dot := (n - elen)%nat in
        match strchr (drop (S dash) name) 45 with
        | Some _ => None
        | None =>
            if (dot <=? S dash)%nat then None
            else
              a ← parse_hex_u64_ (take dash name);
              b ← parse_hex_u64_ (drop (S dash) (take dot name));
              if index_gt0 && (b =? 0) then None else Some (a, b)
        end
    end.

Definition cetcd_parse_snap_filename (name : bytes) : option (Z * Z) :=
  parse_etcd_hex_filename_ name (bytes_of_string ".snap") true.

Definition cetcd_parse_wal_filename (name : bytes) : option (Z * Z) :=
  parse_etcd_hex_filename_ name (bytes_of_string ".wal") false.

(** ** Command lines

    The arguments from [start] on, none of them [NULL].  [None] is
    [CETCD_ERR_INVAL]. *)

(** What follows [name] in [arg], when [arg] starts with it. *)
Definition after_flag (arg name : bytes) : option bytes :=
  if bool_decide (take (length name) arg = name) then Some (drop (length name) arg) else None.

Definition migrate_flag_is_ (arg name : bytes) : bool :=
  match after_flag arg name with
  | Some [] => true
  | Some (c :: _) => c =? 61
  | None => false
  end.

(** The value of a flag and the arguments after it. *)
Definition migrate_take_path_ (arg name : bytes) (args : list bytes) : option (bytes * list bytes) :=
  match drop (length name) arg with
  | c :: v =>
      if c =? 61 then match v with [] => None | _ => Some (v, args) end
      else match args with
           | (d :: v) :: args => if (d =? 45) && (nth 0 v 0 =? 45) then None else Some (d :: v, args)
           | _ => None
           end
  | [] =>
      match args with
      | (d :: v) :: args => if (d =? 45) && (nth 0 v 0 =? 45) then None else Some (d :: v, args)
      | _ => None
      end
  end.

Definition migrate_take_bool_ (arg name : bytes) : option bool :=
  match drop (length name) arg with
  | [] => Some true
  | c :: v =>
      if negb (c =? 61) then None
      else if streq v (bytes_of_string "true") || streq v (bytes_of_string "1") then Some true
      else if streq v (bytes_of_string "false") || streq v (bytes_of_string "0") then Some false
      else None
  end.

Record migrate_opts : Type := mk_migrate { mo_data_dir : option bytes; mo_output_dir : option bytes; mo_verbose : bool }.

#[export] Instance migrate_eta : RecordEta migrate_opts := fun o => mk_migrate (mo_data_dir o) (mo_output_dir o) (mo_verbose o).

(** Every iteration takes an argument: as much fuel as arguments. *)
Fixpoint migrate_loop (fuel : nat) (args : list bytes) (o : migrate_opts) : option migrate_opts :=
  match fuel, args with
  | _, [] => Some o
  | O, _ => None
  | S fuel, arg :: args =>
      let data_dir := bytes_of_string "--data-dir" in
      let output_dir := bytes_of_string "--output-dir" in
      let verbose := bytes_of_string "--verbose" in
      if streq arg (bytes_of_string "--help") || streq arg (bytes_of_string "-h") then migrate_loop fuel args o
      else if migrate_flag_is_ arg data_dir then
        '(v, args) ← migrate_take_path_ arg data_dir args;
        migrate_loop fuel args (o <| mo_data_dir := Some v |>)
      else if migrate_flag_is_ arg output_dir then
        '(v, args) ← migrate_take_path_ arg output_dir args;
        migrate_loop fuel args (o <| mo_output_dir := Some v |>)
      else if migrate_flag_is_ arg verbose then
        v ← migrate_take_bool_ arg verbose;
        migrate_loop fuel args (o <| mo_verbose := v |>)
      else None
  end.

Definition cetcd_parse_migrate_argv (args : list bytes) : option migrate_opts :=
  o ← migrate_loop (length args) args (mk_migrate None None false);
  match mo_data_dir o, mo_output_dir o with Some _, Some _ => Some o | _, _ => None end.

(** The revision after a restore and the compaction boundary. *)
Definition cetcd_restore_revision (old_rev : Z) (bump mark_compacted : bool) : option (Z * Z) :=
  if mark_compacted && negb bump then None
  else if negb bump then Some (old_rev, 0)
  else if old_rev =? 18446744073709551615 then None
  else Some (old_rev + 1, if mark_compacted then old_rev else 0).

Record cetcd_restore_opts : Type := mk_restore {
  ro_snap_file : option bytes;
  ro_data_dir : option bytes;
  ro_wal_dir : option bytes;
  ro_initial_cluster : option bytes;
  ro_adv_peer : option bytes;
  ro_member_name : option bytes;
  ro_cluster_token : option bytes;
  ro_cluster_state : option bytes;
  ro_force : bool;
  ro_skip_hash : bool;
  ro_bump_revision : bool;
  ro_mark_compacted : bool
}.

#[export] Instance restore_eta : RecordEta cetcd_restore_opts := fun o =>
  mk_restore (ro_snap_file o) (ro_data_dir o) (ro_wal_dir o) (ro_initial_cluster o) (ro_adv_peer o) (ro_member_name o)
    (ro_cluster_token o) (ro_cluster_state o) (ro_force o) (ro_skip_hash o) (ro_bump_revision o) (ro_mark_compacted o).

(** The flags with a value and where it goes; [-w] and [--write-out] are read
    and dropped. *)
Definition path_flags : list (bytes * (bytes -> cetcd_restore_opts -> option cetcd_restore_opts)) :=
  [(bytes_of_string "-w", fun _ o => Some o);
   (bytes_of_string "--write-out", fun _ o => Some o);
   (bytes_of_string "--data-dir", fun v o => Some (o <| ro_data_dir := Some v |>));
   (bytes_of_string "--wal-dir", fun v o => Some (o <| ro_wal_dir := Some v |>));
   (bytes_of_string "--initial-cluster", fun v o => Some (o <| ro_initial_cluster := Some v |>));
   (bytes_of_string "--initial-advertise-peer-urls", fun v o => Some (o <| ro_adv_peer := Some v |>));
   (bytes_of_string "--name", fun v o => Some (o <| ro_member_name := Some v |>));
   (bytes_of_string "--initial-cluster-token", fun v o => Some (o <| ro_cluster_token := Some v |>));
   (bytes_of_string "--initial-cluster-state", fun v o =>
      if streq v (bytes_of_string "new") || streq v (bytes_of_string "existing")
      then Some (o <| ro_cluster_state := Some v |>) else None)].

Definition bool_flags : list (bytes * (bool -> cetcd_restore_opts -> cetcd_restore_opts)) :=
  [(bytes_of_string "--force", fun v o => o <| ro_force := v |>);
   (bytes_of_string "--skip-hash-check", fun v o => o <| ro_skip_hash := v |>);
   (bytes_of_string "--bump-revision", fun v o => o <| ro_bump_revision := v |>);
   (bytes_of_string "--mark-compacted", fun v o => o <| ro_mark_compacted := v |>)].

Fixpoint restore_loop (fuel : nat) (args : list bytes) (saw_ddash : bool) (o : cetcd_restore_opts) : option cetcd_restore_opts :=
  match fuel, args with
  | _, [] => Some o
  | O, _ => None
  | S fuel, arg :: args =>
      let file := match ro_snap_file o with
                  | Some _ => None
                  | None => restore_loop fuel args saw_ddash (o <| ro_snap_file := Some arg |>)
                  end in
      if saw_ddash then file
      else if streq arg (bytes_of_string "--") then restore_loop fuel args true o
      else
        match List.find (fun f => migrate_flag_is_ arg f.1) path_flags with
        | Some (name, set) =>
            '(v, args) ← migrate_take_path_ arg name args;
            o ← set v o;
            restore_loop fuel args saw_ddash o
        | None =>
            match List.find (fun f => migrate_flag_is_ arg f.1) bool_flags with
            | Some (name, set) =>
                v ← migrate_take_bool_ arg name;
                restore_loop fuel args saw_ddash (set v o)
            | None => if nth 0 arg 0 =? 45 then None else file
            end
        end
  end.

Definition cetcd_parse_restore_argv (args : list bytes) : option cetcd_restore_opts :=
  o ← restore_loop (length args) args false
        (mk_restore None None None None None None None None false false false false);
  match ro_snap_file o, ro_data_dir o with
  | Some _, Some _ => if ro_mark_compacted o && negb (ro_bump_revision o) then None else Some o
  | _, _ => None
  end.
