(* ===== verification/SnapProps.v ===== *)
(** * Properties of snapshot files

    Both formats round trip; the checksum of a CTS2 file detects damage; the
    file names parse to the numbers they were printed from. *)

From Stdlib Require Import String.
From S2P Require Import Slice Hash Raft RaftWire Wal Mvcc MvccLoad CString Cluster ClusterProps ApplyCodec Snap Prelude.

#[local] Open Scope Z_scope.

(** ** Integers *)

Lemma be32_length v : length (be32_write v) = 4%nat.
Proof. unfold be32_write. by rewrite length_reverse, le_put_length. Qed.

Lemma be64_length v : length (be64_write v) = 8%nat.
Proof. unfold be64_write. by rewrite length_reverse, le_put_length. Qed.

Lemma be32_blen v rest : blen (be32_write v ++ rest) = 4 + blen rest.
Proof. rewrite blen_app. unfold blen. rewrite be32_length. lia. Qed.

Lemma be64_blen v rest : blen (be64_write v ++ rest) = 8 + blen rest.
Proof. rewrite blen_app. unfold blen. rewrite be64_length. lia. Qed.

Lemma be32_read_write v rest : in_u32 v -> be32_read (be32_write v ++ rest) = v.
Proof.
  intros Hv. unfold be32_read. rewrite take_app_length' by (by rewrite be32_length). unfold be32_write.
  rewrite reverse_involutive. by apply le_get_put.
Qed.

Lemma be64_read_write v rest : in_u64 v -> be64_read (be64_write v ++ rest) = v.
Proof.
  intros Hv. unfold be64_read. rewrite take_app_length' by (by rewrite be64_length). unfold be64_write.
  rewrite reverse_involutive. by apply le_get_put.
Qed.

Lemma write_varint_kv_eq v : write_varint_kv_ v = varint v.
Proof. reflexivity. Qed.

Lemma read_varint_kv_eq p : read_varint_kv_ p = read_varint_ p.
Proof. reflexivity. Qed.

(** ** The fixed-width format *)

Definition entry_fits (e : cetcd_snap_entry) : Prop :=
  blen (se_key e) < 2 ^ 32 /\ blen (se_value e) < 2 ^ 32 /\ in_i64 (se_mod_revision e).

Definition entry_size (e : cetcd_snap_entry) : Z := 16 + blen (se_key e) + blen (se_value e).

Definition snap_size (s : cetcd_snap) : Z := foldr (fun e n => entry_size e + n) 0 s.

Lemma snap_size_nonneg s : 0 <= snap_size s.
Proof.
  induction s as [|e s IH]; [done|]. cbn [snap_size foldr]. fold (snap_size s). unfold entry_size. pose proof (blen_nonneg (se_key e)). pose proof (blen_nonneg (se_value e)). lia.
Qed.

Lemma entry_bytes_blen e : blen (snap_entry_bytes e) = entry_size e.
Proof.
  unfold snap_entry_bytes, entry_size. rewrite <- (app_nil_r (be64_write _)).
  rewrite be32_blen, blen_app, be32_blen, blen_app, be64_blen. change (blen (@nil Z)) with 0. lia.
Qed.

Lemma entries_blen s : blen (mjoin (snap_entry_bytes <$> s)) = snap_size s.
Proof.
  induction s as [|e s IH]; [done|]. change (mjoin (snap_entry_bytes <$> e :: s)) with (snap_entry_bytes e ++ mjoin (snap_entry_bytes <$> s)).
  rewrite blen_app, entry_bytes_blen, IH. done.
Qed.

Lemma snap_total_spec s : forall t, 0 <= t -> t + snap_size s < 2 ^ 63 -> snap_total s t = Some (t + snap_size s).
Proof.
  induction s as [|e s IH]; intros t Ht Hs; cbn [snap_total snap_size foldr] in *; [by rewrite Z.add_0_r|].
  fold (snap_size s) in *. pose proof (snap_size_nonneg s). unfold entry_size in *.
  pose proof (blen_nonneg (se_key e)). pose proof (blen_nonneg (se_value e)). unfold SIZE_MAX.
  rewrite !(proj2 (Z.ltb_ge _ _)) by lia. cbn [orb]. rewrite u64_small by (unfold in_u64; lia). rewrite IH by lia. f_equal. lia.
Qed.

Lemma drop_be32 v rest : drop 4 (be32_write v ++ rest) = rest.
Proof. by rewrite drop_app_length' by (by rewrite be32_length). Qed.

Lemma drop_be64 v rest : drop 8 (be64_write v ++ rest) = rest.
Proof. by rewrite drop_app_length' by (by rewrite be64_length). Qed.

(** Reads one field that was written: the tests succeed. *)
Ltac snap_field :=
  repeat first [rewrite be32_blen | rewrite be64_blen | rewrite blen_app];
  repeat match goal with |- context [blen ?l] => unless (0 <= blen l) by assumption; pose proof (blen_nonneg l) end;
  rewrite (proj2 (Z.ltb_ge _ _)) by lia;
  rewrite ?be32_read_write, ?be64_read_write, ?drop_be32, ?drop_be64, ?take_blen, ?drop_blen by (unfold in_u32; lia || apply u64_range).

Lemma decode_loop_spec s : forall s0 rest, Forall entry_fits s ->
  snap_decode_loop (length s) (mjoin (snap_entry_bytes <$> s) ++ rest) s0 = Some (s0 ++ s).
Proof.
  induction s as [|e s IH]; intros s0 rest Hs; [cbn; by rewrite app_nil_r|].
  apply Forall_cons in Hs as [(Hk & Hv & Hr) Hs]. cbn [length snap_decode_loop].
  change (mjoin (snap_entry_bytes <$> e :: s)) with (snap_entry_bytes e ++ mjoin (snap_entry_bytes <$> s)).
  rewrite <- app_assoc. set (tail := mjoin _ ++ rest). unfold snap_entry_bytes. rewrite <- !app_assoc.
  pose proof (blen_nonneg (se_key e)). pose proof (blen_nonneg (se_value e)).
  rewrite !u32_small by (unfold in_u32; lia).
  cbv zeta. do 5 snap_field. rewrite u64_of_i64 by done. unfold tail. rewrite IH by done.
  unfold cetcd_snap_add_entry. rewrite <- app_assoc. by destruct e.
Qed.

Lemma snap_encodes s : Forall entry_fits s -> 4 + snap_size s < 2 ^ 63 ->
  cetcd_snap_encode s = Some (be32_write (u32 (blen s)) ++ mjoin (snap_entry_bytes <$> s)).
Proof.
  intros Hs Hsz. unfold cetcd_snap_encode. rewrite snap_total_spec by lia. cbn [mbind option_bind].
  rewrite copy_bytes_spec; [done|]. rewrite be32_blen, entries_blen. change (blen (@nil Z)) with 0. lia.
Qed.

Lemma snap_decodes s : Forall entry_fits s -> blen s < 2 ^ 32 ->
  cetcd_snap_decode (be32_write (u32 (blen s)) ++ mjoin (snap_entry_bytes <$> s)) = Some s.
Proof.
  intros Hs Hn. pose proof (blen_nonneg s). rewrite u32_small by (unfold in_u32; lia). unfold cetcd_snap_decode.
  rewrite be32_blen, be32_read_write, drop_be32 by (unfold in_u32; lia). rewrite entries_blen. cbv zeta.
  assert (Hsz : blen s * 16 <= snap_size s).
  { clear. induction s as [|e s IH]; [done|]. cbn [snap_size foldr]. fold (snap_size s). unfold entry_size.
    rewrite blen_cons. pose proof (blen_nonneg (se_key e)). pose proof (blen_nonneg (se_value e)). lia. }
  rewrite (proj2 (Z.ltb_ge _ _)) by lia. rewrite (proj2 (Z.ltb_ge _ _)).
  - rewrite <- (app_nil_r (mjoin _)). unfold blen. rewrite Nat2Z.id. by apply decode_loop_spec.
  - replace (4 + snap_size s - 4) with (snap_size s) by lia. apply Z.div_le_lower_bound; lia.
Qed.

(** ** The key-value format *)

Definition kv_fits (e : cetcd_snap_entry) : Prop := blen (se_key e) <= SNAP_KV_MAX /\ blen (se_value e) <= SNAP_KV_MAX.

(** The format has no revisions. *)
Definition without_rev (e : cetcd_snap_entry) : cetcd_snap_entry := mk_snap_entry (se_key e) (se_value e) 0.

Lemma read_kv_field_spec d rest : blen d <= SNAP_KV_MAX -> read_kv_field (write_varint_kv_ (blen d) ++ d ++ rest) = Some (d, rest).
Proof.
  intros Hd. pose proof (blen_nonneg d). pose proof (blen_nonneg rest). unfold read_kv_field, SNAP_KV_MAX in *.
  rewrite read_varint_kv_eq, write_varint_kv_eq, read_varint_spec by (unfold in_u64; lia). cbn [mbind option_bind].
  rewrite blen_app, !(proj2 (Z.ltb_ge _ _)) by lia. cbn [orb]. by rewrite take_blen, drop_blen.
Qed.

Lemma kv_entry_cons e s : mjoin (kv_entry_bytes <$> e :: s) = kv_entry_bytes e ++ mjoin (kv_entry_bytes <$> s).
Proof. done. Qed.

Lemma varint_cons v : exists b l, varint v = b :: l.
Proof. pose proof (varint_length v) as H. destruct (varint v) as [|b l]; [cbn in H; lia|by exists b, l]. Qed.

Lemma kv_loop_spec s : forall fuel s0, Forall kv_fits s -> (length s <= fuel)%nat ->
  kv_loop fuel (mjoin (kv_entry_bytes <$> s)) s0 = Some (s0 ++ (without_rev <$> s)).
Proof.
  induction s as [|e s IH]; intros fuel s0 Hs Hf; [destruct fuel; cbn; by rewrite app_nil_r|].
  apply Forall_cons in Hs as [[Hk Hv] Hs]. destruct fuel as [|fuel]; [cbn in Hf; lia|]. rewrite kv_entry_cons.
  set (tail := mjoin (kv_entry_bytes <$> s)). unfold kv_entry_bytes. rewrite <- !app_assoc.
  destruct (varint_cons (blen (se_key e))) as (b & l & Hb).
  set (p := write_varint_kv_ _ ++ _). assert (Hp : exists c q, p = c :: q) by (unfold p; rewrite write_varint_kv_eq, Hb; eauto).
  destruct Hp as (c & q & Hp). cbn [kv_loop]. rewrite Hp. cbn iota. rewrite <- Hp. unfold p.
  rewrite read_kv_field_spec by done. cbn [mbind option_bind]. rewrite read_kv_field_spec by done. cbn [mbind option_bind].
  unfold tail. rewrite IH by (done || cbn in Hf; lia). unfold cetcd_snap_add_entry. rewrite <- app_assoc. done.
Qed.

Lemma kv_need_spec s : forall n, foldl (fun need e => need + (10 + blen (se_key e) + 10 + blen (se_value e))) n s
  = n + foldr (fun e m => 20 + blen (se_key e) + blen (se_value e) + m) 0 s.
Proof. induction s as [|e s IH]; intros n; cbn [foldl foldr]; [lia|]. rewrite IH. lia. Qed.

Lemma kv_entry_blen e : 2 <= blen (kv_entry_bytes e) <= 20 + blen (se_key e) + blen (se_value e).
Proof.
  unfold kv_entry_bytes. rewrite !blen_app, (write_varint_kv_eq (blen (se_key e))), (write_varint_kv_eq (blen (se_value e))). pose proof (varint_blen (blen (se_key e))).
  pose proof (varint_blen (blen (se_value e))). pose proof (blen_nonneg (se_key e)). pose proof (blen_nonneg (se_value e)). lia.
Qed.

Lemma kv_encodes s : cetcd_snap_encode_kv s = Some (mjoin (kv_entry_bytes <$> s)).
Proof.
  unfold cetcd_snap_encode_kv. rewrite copy_bytes_spec; [done|]. change (blen (@nil Z)) with 0. unfold kv_need. rewrite kv_need_spec.
  assert (H : forall s, blen (mjoin (kv_entry_bytes <$> s)) <= foldr (fun e m => 20 + blen (se_key e) + blen (se_value e) + m) 0 s).
  { clear. induction s as [|e s IH]; [done|]. rewrite kv_entry_cons, blen_app. cbn [foldr].
    pose proof (kv_entry_blen e). lia. }
  specialize (H s). lia.
Qed.

Lemma kv_entries_length s : (length s <= length (mjoin (kv_entry_bytes <$> s)))%nat.
Proof.
  induction s as [|e s IH]; [done|]. rewrite kv_entry_cons, length_app. pose proof (kv_entry_blen e) as H.
  unfold blen in H at 1. cbn [length]. lia.
Qed.

(** The loop always reads: more fuel changes nothing. *)
Lemma read_kv_field_shorter p d rest : read_kv_field p = Some (d, rest) -> (length rest < length p)%nat.
Proof.
  unfold read_kv_field. destruct (read_varint_kv_ p) as [[n q]|] eqn:Hr; [|done]. cbn [mbind option_bind].
  destruct (_ || _); [done|]. intros [= <- <-]. rewrite length_drop.
  assert (Hq : forall q0 v sh n q, read_varint_kv_loop q0 v sh = Some (n, q) -> (length q < length q0)%nat).
  { clear. induction q0 as [|b q0 IH]; intros v sh n q; cbn [read_varint_kv_loop]; [done|]. cbv zeta.
    destruct (_ =? 0); [intros [= _ <-]; cbn; lia|]. destruct (63 <? _); [done|]. intros H. apply IH in H. cbn. lia. }
  apply Hq in Hr. lia.
Qed.

Lemma kv_loop_fuel fuel : forall p s n, (length p <= fuel)%nat -> kv_loop (n + fuel) p s = kv_loop fuel p s.
Proof.
  induction fuel as [|fuel IH]; intros p s n Hf.
  { destruct p; [by destruct (n + 0)%nat|cbn in Hf; lia]. }
  rewrite Nat.add_succ_r. destruct p as [|b p]; [done|]. cbn [kv_loop].
  destruct (read_kv_field (b :: p)) as [[key q]|] eqn:H1; [|done]. cbn [mbind option_bind].
  destruct (read_kv_field q) as [[val r]|] eqn:H2; [|done]. cbn [mbind option_bind].
  apply read_kv_field_shorter in H1, H2. apply IH. cbn in *. lia.
Qed.

(** ** Headers *)

Lemma cts2_shape kv rev : cetcd_snap_encode_cts2 kv rev = CTS2 ++ le64_write_ rev ++ le32_write_ (cetcd_snap_crc32c kv) ++ kv.
Proof. done. Qed.

Lemma cts2_blen kv rev : blen (cetcd_snap_encode_cts2 kv rev) = 16 + blen kv.
Proof.
  rewrite cts2_shape, !blen_app. change (blen CTS2) with 4. unfold le64_write_, le32_write_. unfold blen at 1 2.
  rewrite !le_put_length. lia.
Qed.

Lemma cts2_magic kv rev : has_magic CTS2 (cetcd_snap_encode_cts2 kv rev) = true.
Proof. unfold has_magic. rewrite bool_decide_eq_true, cts2_shape. by rewrite take_app_length' by done. Qed.

Lemma cts2_drop kv rev : drop 4 (cetcd_snap_encode_cts2 kv rev) = le64_write_ rev ++ le32_write_ (cetcd_snap_crc32c kv) ++ kv /\
  drop 12 (cetcd_snap_encode_cts2 kv rev) = le32_write_ (cetcd_snap_crc32c kv) ++ kv /\
  drop 16 (cetcd_snap_encode_cts2 kv rev) = kv.
Proof.
  rewrite cts2_shape. assert (H8 : length (le64_write_ rev) = 8%nat) by apply le_put_length.
  assert (H4 : length (le32_write_ (cetcd_snap_crc32c kv)) = 4%nat) by apply le_put_length.
  assert (H1 : forall x, drop 4 (CTS2 ++ x) = x) by (intros x; by rewrite drop_app_length' by done).
  assert (H2 : forall x, drop 8 (le64_write_ rev ++ x) = x) by (intros x; by rewrite drop_app_length' by (by rewrite H8)).
  change 16%nat with (4 + (8 + 4))%nat. change 12%nat with (4 + 8)%nat. rewrite <- !drop_drop, H1, !H2. split_and!; [done|done|].
  by rewrite drop_app_length' by (by rewrite H4).
Qed.

Lemma snap_crc_eq kv : bytes_ok kv -> cetcd_snap_crc32c kv = wal_crc32c 0 kv.
Proof. intros Hk. unfold cetcd_snap_crc32c. by apply crc32c_table_eq_bitwise. Qed.

Lemma cts2_header kv rev : bytes_ok kv -> in_u64 rev ->
  cetcd_snap_parse_header (cetcd_snap_encode_cts2 kv rev) =
    (CETCD_OK, mk_snap_header rev (cetcd_snap_crc32c kv) 16 (blen kv) true).
Proof.
  intros Hk Hr. pose proof (blen_nonneg kv). destruct (cts2_drop kv rev) as (D4 & D12 & _). unfold cetcd_snap_parse_header.
  rewrite cts2_magic, D4, D12, cts2_blen. rewrite (proj2 (Z.eqb_neq _ 0)), (proj2 (Z.leb_le _ _)), (proj2 (Z.ltb_ge _ _)) by lia. cbn [andb].
  unfold le64_read_, le32_read_. rewrite !take_app_length' by (unfold le64_write_, le32_write_; by rewrite le_put_length).
  unfold le64_write_, le32_write_. rewrite !le_get_put; [do 2 f_equal; lia| |done].
  rewrite snap_crc_eq by done. by apply wal_crc_range.
Qed.

Lemma damaged_header kv kv' rev : bytes_ok kv -> in_u64 rev -> blen kv' = blen kv ->
  let d := CTS2 ++ le64_write_ rev ++ le32_write_ (cetcd_snap_crc32c kv) ++ kv' in
  cetcd_snap_verify d = if cetcd_snap_crc32c kv' =? cetcd_snap_crc32c kv then CETCD_OK else CETCD_ERR_CORRUPT.
Proof.
  intros Hk Hr Hlen d. pose proof (cts2_header kv rev Hk Hr) as Hh.
  assert (Hpre : take 16 d = take 16 (cetcd_snap_encode_cts2 kv rev)).
  { unfold d. rewrite cts2_shape, !app_assoc. rewrite !take_app_length' by (rewrite !length_app; unfold le64_write_, le32_write_; by rewrite !le_put_length). done. }
  assert (Hd : drop 16 d = kv').
  { unfold d. rewrite !app_assoc. by rewrite drop_app_length' by (rewrite !length_app; unfold le64_write_, le32_write_; by rewrite !le_put_length). }
  assert (Hb : blen d = blen (cetcd_snap_encode_cts2 kv rev)).
  { rewrite cts2_blen. unfold blen in *. apply (f_equal length) in Hd. rewrite length_drop in Hd.
    apply (f_equal length) in Hpre. rewrite !length_take in Hpre. pose proof (cts2_blen kv rev) as Hc. unfold blen in Hc. lia. }
  assert (Hsame : cetcd_snap_parse_header d = cetcd_snap_parse_header (cetcd_snap_encode_cts2 kv rev)).
  { unfold cetcd_snap_parse_header, has_magic, le64_read_, le32_read_. rewrite Hb.
    assert (Ht : forall n m, (n + m <= 16)%nat -> take n (drop m d) = take n (drop m (cetcd_snap_encode_cts2 kv rev))).
    { intros n m Hnm. rewrite !take_drop_commute. f_equal.
      assert (Htt : forall l : bytes, take (m + n) l = take (m + n) (take 16 l)) by (intros l; by rewrite take_take, Nat.min_l by lia).
      by rewrite (Htt d), (Htt (cetcd_snap_encode_cts2 kv rev)), Hpre. }
    pose proof (Ht 4%nat 0%nat ltac:(lia)) as H4. rewrite !drop_0 in H4. by rewrite H4, !Ht by lia. }
  unfold cetcd_snap_verify. rewrite Hsame, Hh. cbn [sh_has_hash negb sh_kv_off sh_hash]. change (Z.to_nat 16) with 16%nat. by rewrite Hd.
Qed.

(** ** File names *)

(** The number the digits write. *)
Definition hex_value (ds : list Z) : Z := foldl (fun v d => v * 16 + d) 0 ds.

Lemma hex_digit_range c d : hex_digit c = Some d -> 0 <= d < 16.
Proof.
  unfold hex_digit. destruct ((48 <=? c) && (c <=? 57)) eqn:E1; [|destruct ((97 <=? c) && (c <=? 102)) eqn:E2;
    [|destruct ((65 <=? c) && (c <=? 70)) eqn:E3]]; try done; intros [= <-]; rewrite andb_true_iff, !Z.leb_le in *; lia.
Qed.

Lemma hex_foldl_mono ds : forall v, 0 <= v -> Forall (fun d => 0 <= d < 16) ds -> v <= foldl (fun v d => v * 16 + d) v ds.
Proof.
  induction ds as [|d ds IH]; intros v Hv Hd; cbn [foldl]; [done|]. apply Forall_cons in Hd as [Hd Hds].
  specialize (IH (v * 16 + d) ltac:(lia) Hds). lia.
Qed.

Lemma parse_hex_loop_spec s : forall v, in_u64 v -> parse_hex_loop s v =
  (ds ← mapM hex_digit s; let r := foldl (fun v d => v * 16 + d) v ds in if r <? 2 ^ 64 then Some r else None).
Proof.
  induction s as [|c s IH]; intros v Hv; cbn [parse_hex_loop mapM].
  { cbn. unfold in_u64 in Hv. by rewrite (proj2 (Z.ltb_lt _ _)) by lia. }
  destruct (hex_digit c) as [d|] eqn:Hd; [|done]. cbn [mbind option_bind]. apply hex_digit_range in Hd as Hr.
  change (Z.shiftr 18446744073709551615 4) with 1152921504606846975. unfold in_u64 in Hv.
  assert (Hlor : Z.lor (Z.shiftl v 4) d = v * 16 + d).
  { rewrite Z.lor_comm, lor_shiftl_add by lia. lia. }
  destruct (Z.ltb_spec 1152921504606846975 v) as [Hbig|Hsmall].
  - destruct (mapM hex_digit s) as [ds|] eqn:Hm; [|done]. cbn.
    assert (Hds : Forall (fun d => 0 <= d < 16) ds).
    { apply mapM_Some in Hm. clear -Hm. induction Hm; constructor; [by eapply hex_digit_range|done]. }
    pose proof (hex_foldl_mono ds (v * 16 + d) ltac:(lia) Hds). by rewrite (proj2 (Z.ltb_ge _ _)) by lia.
  - rewrite Hlor, IH by (unfold in_u64; lia). by destruct (mapM hex_digit s).
Qed.

Lemma parse_hex_spec s : s <> [] ->
  parse_hex_u64_ s = (ds ← mapM hex_digit s; if hex_value ds <? 2 ^ 64 then Some (hex_value ds) else None).
Proof. intros Hs. destruct s as [|c s]; [done|]. cbn [parse_hex_u64_]. by apply parse_hex_loop_spec. Qed.

(** The digits of [%0nx], most significant first. *)
Fixpoint hex_digits (n : nat) (v : Z) : list Z :=
  match n with O => [] | S n => hex_digits n (v / 16) ++ [v mod 16] end.

Definition hex_char (d : Z) : Z := if d <? 10 then 48 + d else 87 + d.

Definition hex16 (v : Z) : bytes := hex_char <$> hex_digits 16 v.

(** etcd's [%016x-%016x] names. *)
Definition hex_filename (a b : Z) (ext : bytes) : bytes := hex16 a ++ [45] ++ hex16 b ++ ext.

Lemma hex_digits_range n : forall v, 0 <= v -> Forall (fun d => 0 <= d < 16) (hex_digits n v).
Proof.
  induction n as [|n IH]; intros v Hv; cbn [hex_digits]; [constructor|]. apply Forall_app. split.
  - apply IH. apply Z.div_pos; lia.
  - apply Forall_singleton. apply Z.mod_pos_bound. lia.
Qed.

Lemma hex_digits_value n : forall v, 0 <= v < 16 ^ Z.of_nat n -> hex_value (hex_digits n v) = v.
Proof.
  induction n as [|n IH]; intros v Hv; [cbn in *; lia|]. cbn [hex_digits]. unfold hex_value. rewrite foldl_app. cbn [foldl].
  fold (hex_value (hex_digits n (v / 16))). rewrite IH.
  - pose proof (Z.div_mod v 16 ltac:(lia)). lia.
  - rewrite Nat2Z.inj_succ, Z.pow_succ_r in Hv by lia. split; [apply Z.div_pos; lia|apply Z.div_lt_upper_bound; lia].
Qed.

Lemma hex_char_digit d : 0 <= d < 16 -> hex_digit (hex_char d) = Some d /\ hex_char d <> 45.
Proof.
  intros Hd. unfold hex_char, hex_digit. destruct (Z.ltb_spec d 10).
  - rewrite !(proj2 (Z.leb_le _ _)) by lia. cbn. split; [f_equal; lia|lia].
  - rewrite (proj2 (Z.leb_le 48 _)), (proj2 (Z.leb_gt (87 + d) 57)), !(proj2 (Z.leb_le _ _)) by lia. cbn. split; [f_equal; lia|lia].
Qed.

Lemma hex16_length v : length (hex16 v) = 16%nat.
Proof.
  unfold hex16. rewrite length_fmap. assert (H : forall n v, length (hex_digits n v) = n) by
    (induction n as [|n IH]; intros w; cbn [hex_digits]; [done|rewrite length_app, IH; cbn; lia]). apply H.
Qed.

Lemma hex16_parse v : in_u64 v -> parse_hex_u64_ (hex16 v) = Some v.
Proof.
  intros Hv. unfold in_u64 in Hv. rewrite parse_hex_spec by (intros H; apply (f_equal length) in H; by rewrite hex16_length in H).
  pose proof (hex_digits_range 16 v ltac:(lia)) as Hr. unfold hex16.
  assert (Hm : mapM hex_digit (hex_char <$> hex_digits 16 v) = Some (hex_digits 16 v)).
  { apply mapM_Some_2. induction Hr as [|d ds Hd Hds IH]; cbn; constructor; [by apply hex_char_digit|done]. }
  rewrite Hm. cbn [mbind option_bind]. rewrite hex_digits_value by (cbn; lia). by rewrite (proj2 (Z.ltb_lt _ _)) by lia.
Qed.

Lemma hex16_no_dash v : in_u64 v -> Forall (fun b => b <> 45) (hex16 v).
Proof.
  intros Hv. unfold in_u64 in Hv. unfold hex16. apply Forall_fmap. eapply Forall_impl; [apply hex_digits_range; lia|].
  intros d Hd. by apply hex_char_digit.
Qed.

(** ** Theorems *)

(** The fixed-width format round trips. *)
Theorem snap_wire_roundtrip (s : cetcd_snap) (Hs : Forall entry_fits s) (Hn : blen s < 2 ^ 32) (Hsz : 4 + snap_size s < 2 ^ 63) :
  exists d, cetcd_snap_encode s = Some d /\ cetcd_snap_decode d = Some s.
Proof. eexists. split; [by apply snap_encodes|by apply snap_decodes]. Qed.

Lemma entries_bytes_ok s : Forall (fun e => bytes_ok (se_key e) /\ bytes_ok (se_value e)) s -> bytes_ok (mjoin (kv_entry_bytes <$> s)).
Proof.
  induction 1 as [|e s [Hk Hv] Hs IH]; [constructor|]. rewrite kv_entry_cons. unfold kv_entry_bytes, bytes_ok in *.
  rewrite !Forall_app. split_and!; try done; apply (wire_loop_bytes 10), blen_nonneg.
Qed.

(** Snapshot files round trip.  The keys and values of a snapshot, each up
    to 16 MiB, are written without overrunning the buffer; the file with a
    CTS2 header verifies, its header gives the revision, and decoding it, or
    the blob without a header unless it happens to start with a magic number,
    yields the keys and values in order.  Decoding reads every byte: more
    iterations than bytes change nothing. *)
Theorem snap_kv_roundtrip (s : cetcd_snap) (rev : Z) (Hs : Forall kv_fits s) (Hr : in_u64 rev)
  (Hb : Forall (fun e => bytes_ok (se_key e) /\ bytes_ok (se_value e)) s) :
  exists d, cetcd_snap_encode_kv s = Some d /\
    (has_magic CTS1 d = false -> has_magic CTS2 d = false -> cetcd_snap_decode_kv d = Some (without_rev <$> s)) /\
    let file := cetcd_snap_encode_cts2 d rev in
    cetcd_snap_verify file = CETCD_OK /\ cetcd_snap_decode_kv file = Some (without_rev <$> s) /\
    cetcd_snap_parse_header file = (CETCD_OK, mk_snap_header rev (cetcd_snap_crc32c d) 16 (blen d) true) /\
    forall n, kv_loop (n + length d) d cetcd_snap_new = kv_loop (length d) d cetcd_snap_new.
Proof.
  set (d := mjoin (kv_entry_bytes <$> s)). exists d. pose proof (entries_bytes_ok s Hb) as Hd. fold d in Hd. pose proof (blen_nonneg d).
  assert (Hloop : kv_loop (length d) d cetcd_snap_new = Some (without_rev <$> s)).
  { unfold d. rewrite kv_loop_spec; [done|done|apply kv_entries_length]. }
  split; [apply kv_encodes|]. split; [|cbv zeta; split_and!].
  - intros M1 M2. unfold cetcd_snap_decode_kv, skip_header. rewrite M1, M2, !andb_false_r. cbn [mbind option_bind]. exact Hloop.
  - pose proof (damaged_header d d rev Hd Hr eq_refl) as Hv. cbv zeta in Hv. rewrite Z.eqb_refl in Hv. exact Hv.
  - unfold cetcd_snap_decode_kv, skip_header. rewrite cts2_magic, cts2_blen, (proj2 (Z.leb_le _ _)) by lia. cbn [andb mbind option_bind].
    destruct (cts2_drop d rev) as (_ & _ & ->). exact Hloop.
  - by apply cts2_header.
  - intros n. by apply kv_loop_fuel.
Qed.

(** Damage is detected.  Changing up to four consecutive bytes of the
    keys and values of a CTS2 snapshot file makes its verification fail. *)
Theorem snap_detects_damage (pre x y post : bytes) (rev : Z) (Hpre : bytes_ok pre) (Hx : bytes_ok x) (Hy : bytes_ok y)
  (Hpost : bytes_ok post) (Hlen : length x = length y) (H4 : (length x <= 4)%nat) (Hne : x <> y) (Hr : in_u64 rev) :
  exists h, cetcd_snap_encode_cts2 (pre ++ x ++ post) rev = h ++ pre ++ x ++ post /\
    cetcd_snap_verify (h ++ pre ++ y ++ post) = CETCD_ERR_CORRUPT.
Proof.
  assert (Hok : forall z, bytes_ok z -> bytes_ok (pre ++ z ++ post)) by (intros z Hz; unfold bytes_ok in *; by rewrite !Forall_app).
  exists (CTS2 ++ le64_write_ rev ++ le32_write_ (cetcd_snap_crc32c (pre ++ x ++ post))). split; [by rewrite cts2_shape, <- !app_assoc|].
  rewrite <- !app_assoc. pose proof (damaged_header (pre ++ x ++ post) (pre ++ y ++ post) rev (Hok x Hx) Hr) as Hv. cbv zeta in Hv.
  rewrite Hv by (unfold blen; rewrite !length_app; lia). rewrite !snap_crc_eq by (by apply Hok).
  rewrite (proj2 (Z.eqb_neq _ _)); [done|]. intros E. by apply (crc32c_detects_burst pre x y post).
Qed.

(** Printed file names are read back. *)
Theorem hex_filename_roundtrip (a b : Z) (ext : bytes) (gt0 : bool) (Ha : in_u64 a) (Hb : in_u64 b) (H0 : gt0 = true -> 0 < b)
  (Hext : (2 <= length ext)%nat) (Hdash : Forall (fun c => c <> 45) ext) :
  parse_etcd_hex_filename_ (hex_filename a b ext) ext gt0 = Some (a, b).
Proof.
  unfold parse_etcd_hex_filename_, hex_filename. pose proof (hex16_length a) as La. pose proof (hex16_length b) as Lb.
  set (n := length (hex16 a ++ [45] ++ hex16 b ++ ext)). assert (Hn : n = (33 + length ext)%nat) by (unfold n; rewrite !length_app, La, Lb; cbn; lia).
  cbv zeta. rewrite !(proj2 (Nat.ltb_ge _ _)) by lia. cbn [orb].
  assert (Hsuf : drop (n - length ext) (hex16 a ++ [45] ++ hex16 b ++ ext) = ext).
  { rewrite !app_assoc. rewrite drop_app_length'; [done|]. rewrite !length_app, La, Lb. cbn. lia. }
  rewrite Hsuf. unfold streq. rewrite bool_decide_true by done. cbn [negb].
  assert (Hfirst : strchr (hex16 a ++ [45] ++ hex16 b ++ ext) 45 = Some 16%nat).
  { unfold strchr. rewrite list_find_app_r by (apply list_find_None; by apply hex16_no_dash). change (list_find (fun b => b = 45) ([45] ++ hex16 b ++ ext)) with (Some (0%nat, 45)). cbn [fmap option_fmap option_map prod_map fst]. by rewrite La. }
  rewrite Hfirst. assert (Hrest : drop 17 (hex16 a ++ [45] ++ hex16 b ++ ext) = hex16 b ++ ext).
  { rewrite app_assoc. by rewrite drop_app_length' by (rewrite length_app, La; done). }
  rewrite Hrest. assert (Hsecond : strchr (hex16 b ++ ext) 45 = None).
  { unfold strchr. rewrite (proj2 (list_find_None _ _)); [done|]. apply Forall_app. split; [by apply hex16_no_dash|done]. }
  rewrite Hsecond. rewrite (proj2 (Nat.leb_gt _ _)) by lia. 
  assert (Ht : take 16 (hex16 a ++ [45] ++ hex16 b ++ ext) = hex16 a) by (rewrite <- La; apply take_app_length).
  rewrite Ht, hex16_parse by done. cbn [mbind option_bind].
  replace (n - length ext)%nat with 33%nat by lia. 
  assert (Hm : drop 17 (take 33 (hex16 a ++ [45] ++ hex16 b ++ ext)) = hex16 b).
  { rewrite !app_assoc. rewrite take_app_length' by (rewrite !length_app, La, Lb; done).
    by rewrite drop_app_length' by (rewrite length_app, La; done). }
  rewrite Hm, hex16_parse by done. cbn [mbind option_bind]. destruct gt0; [|done]. by rewrite (proj2 (Z.eqb_neq _ _)) by (specialize (H0 eq_refl); lia).
Qed.

(** ** Witnesses and a defect *)

Definition sample_snap : cetcd_snap := [mk_snap_entry [97] [1; 2] 3; mk_snap_entry [98] [] 4].

Lemma snap_kv_roundtrip_witness : exists d, cetcd_snap_encode_kv sample_snap = Some d /\
  cetcd_snap_decode_kv d = Some [mk_snap_entry [97] [1; 2] 0; mk_snap_entry [98] [] 0] /\
  cetcd_snap_verify (cetcd_snap_encode_cts2 d 7) = CETCD_OK.
Proof.
  destruct (snap_kv_roundtrip sample_snap 7) as (d & H1 & H2 & H3 & _).
  - repeat constructor; vm_compute; discriminate.
  - split; [discriminate|reflexivity].
  - repeat constructor; vm_compute; (discriminate || reflexivity).
  - exists d. split; [exact H1|]. split; [|exact H3]. vm_compute in H1. injection H1 as <-. exact (H2 eq_refl eq_refl).
Defined.

Lemma snap_detects_damage_witness : exists h, cetcd_snap_encode_cts2 ([1; 97] ++ [1] ++ [5]) 7 = h ++ [1; 97] ++ [1] ++ [5] /\
  cetcd_snap_verify (h ++ [1; 97] ++ [2] ++ [5]) = CETCD_ERR_CORRUPT.
Proof.
  apply (snap_detects_damage [1; 97] [1] [2] [5] 7);
    first [reflexivity | discriminate | cbn; lia | split; [discriminate|reflexivity]
          | repeat constructor; vm_compute; (discriminate || reflexivity)].
Defined.

Example snap_filename : cetcd_parse_snap_filename (bytes_of_string "000000000000000a-00000000000000ff.snap") = Some (10, 255) /\
  cetcd_parse_snap_filename (bytes_of_string "123foo-456.snap") = None.
Proof. split; reflexivity. Qed.

Example restore_flags :
  cetcd_parse_restore_argv (bytes_of_string <$> ["--data-dir"%string; "--wal-dir"%string; "f"%string]) = None /\
  (ro_snap_file <$> cetcd_parse_restore_argv (bytes_of_string <$> ["--data-dir=d"%string; "--"%string; "--f"%string]))
    = Some (Some (bytes_of_string "--f")).
Proof. split; reflexivity. Qed.

(** A snapshot whose first key has 67 bytes and starts with [TS2]: the blob
    without a header starts with the bytes of a CTS2 header. *)
Definition magic_snap : cetcd_snap := [mk_snap_entry (bytes_of_string "TS2" ++ replicate 64 0) [1] 0].

Theorem encode_kv_not_inverse : exists d, cetcd_snap_encode_kv magic_snap = Some d /\ cetcd_snap_decode_kv d <> Some magic_snap.
Proof. eexists. split; [vm_compute; reflexivity|]. vm_compute. discriminate. Qed.
