(* ===== verification/Memory.v ===== *)
(** * Buffers and allocators (src/base/buf.c, arena.c, slab.c)

    The growable byte buffer, the arena that hands out memory until it is reset,
    and the slab of objects of one size.  What [malloc] and [realloc] return is
    an argument: an address or [None]; freeing a buffer, arena or slab is not
    modelled.  The theorems show that memory that is handed out never overlaps. *)

From S2P Require Import CString Pb Prelude.

#[local] Open Scope Z_scope.

Definition SIZE_MAX : Z := 2 ^ 64 - 1.

(** ** Buffers *)

(** The bytes in use; their number is [len]. *)
Record cetcd_buf : Type := mk_buf { bf_data : bytes; bf_cap : Z }.

Definition cetcd_buf_init : cetcd_buf := mk_buf [] 0.

(** The capacity doubles until it is large enough; 64 doublings reach the end of
    the range. *)
Fixpoint double_cap (fuel : nat) (new_cap want : Z) : option Z :=
  if want <=? new_cap then Some new_cap
  else if SIZE_MAX / 2 <? new_cap then None
  else match fuel with O => None | S fuel => double_cap fuel (new_cap * 2) want end.

(** [ok]: [realloc] succeeds. *)
Definition buf_grow_to_ (ok : bool) (b : cetcd_buf) (want : Z) : cetcd_buf * cetcd_status :=
  if want <=? bf_cap b then (b, CETCD_OK)
  else match double_cap 64 (if bf_cap b =? 0 then 16 else bf_cap b) want with
       | None => (b, CETCD_ERR_OVERFLOW)
       | Some new_cap => if ok then (mk_buf (bf_data b) new_cap, CETCD_OK) else (b, CETCD_ERR_NOMEM)
       end.

Definition cetcd_buf_reserve (ok : bool) (b : cetcd_buf) (cap : Z) : cetcd_buf * cetcd_status := buf_grow_to_ ok b cap.

(** The copy behind the bytes in use. *)
Definition copy_in (b : cetcd_buf) (p : bytes) : res (cetcd_buf * cetcd_status) :=
  if bf_cap b <? blen (bf_data b) + blen p then Undef else Ok (mk_buf (bf_data b ++ p) (bf_cap b), CETCD_OK).

Definition cetcd_buf_append (ok : bool) (b : cetcd_buf) (p : bytes) : res (cetcd_buf * cetcd_status) :=
  if blen p =? 0 then Ok (b, CETCD_OK)
  else
    let '(b, rc) := buf_grow_to_ ok b (u64 (blen (bf_data b) + blen p)) in
    if negb (is_ok rc) then Ok (b, rc) else copy_in b p.

Definition cetcd_buf_append_byte (ok : bool) (b : cetcd_buf) (v : Z) : res (cetcd_buf * cetcd_status) :=
  let '(b, rc) := buf_grow_to_ ok b (u64 (blen (bf_data b) + 1)) in
  if negb (is_ok rc) then Ok (b, rc) else copy_in b [v].

Definition cetcd_buf_append_slice (ok : bool) (b : cetcd_buf) (s : bytes) := cetcd_buf_append ok b s.
Definition cetcd_buf_append_cstr (ok : bool) (b : cetcd_buf) (s : option bytes) : res (cetcd_buf * cetcd_status) :=
  match s with Some s => cetcd_buf_append ok b s | None => Ok (b, CETCD_OK) end.

(** [text]: what [vsnprintf] prints, [None] when it fails.  The terminator is
    written behind the bytes in use. *)
Definition cetcd_buf_printf (ok : bool) (b : cetcd_buf) (text : option bytes) : res (cetcd_buf * cetcd_status) :=
  match text with
  | None => Ok (b, CETCD_ERR_INTERNAL)
  | Some text =>
      let '(b, rc) := buf_grow_to_ ok b (u64 (blen (bf_data b) + blen text + 1)) in
      if negb (is_ok rc) then Ok (b, rc)
      else if bf_cap b <? blen (bf_data b) + blen text + 1 then Undef
      else Ok (mk_buf (bf_data b ++ text) (bf_cap b), CETCD_OK)
  end.

Definition cetcd_buf_reset (b : cetcd_buf) : cetcd_buf := mk_buf [] (bf_cap b).
Definition cetcd_buf_as_slice (b : cetcd_buf) : bytes := bf_data b.

(** ** Slabs *)

Definition CETCD_SLAB_DEFAULT_PER_BLOCK : Z := 64.

(** A block is its address; the free list is the list of its nodes, which lie in
    the free objects themselves. *)
Record cetcd_slab : Type := mk_slab {
  sl_obj_size : Z;
  sl_objs_per_block : Z;
  sl_blocks : list Z;
  sl_free_list : list Z;
  sl_live : Z;
  sl_block_count : Z
}.

#[export] Instance slab_eta : RecordEta cetcd_slab := fun s =>
  mk_slab (sl_obj_size s) (sl_objs_per_block s) (sl_blocks s) (sl_free_list s) (sl_live s) (sl_block_count s).

(** [a] is a power of two. *)
Definition align_up_ (n a : Z) : Z := Z.ldiff (u64 (n + (a - 1))) (a - 1).

Definition cetcd_slab_new (obj_size objs_per_block : Z) : option cetcd_slab :=
  if obj_size =? 0 then None
  else
    let obj_size := if obj_size <? 8 then 8 else obj_size in
    let obj_size := align_up_ obj_size 8 in
    let objs_per_block := if objs_per_block =? 0 then CETCD_SLAB_DEFAULT_PER_BLOCK else objs_per_block in
    Some (mk_slab obj_size objs_per_block [] [] 0 0).

(** The objects of a block, in the order in which they enter the free list. *)
Definition slots (s : cetcd_slab) (base : Z) : list Z :=
  (fun i => base + Z.of_nat i * sl_obj_size s) <$> seq 0 (Z.to_nat (sl_objs_per_block s)).

Definition slab_grow_ (s : cetcd_slab) (mem : option Z) : cetcd_slab * cetcd_status :=
  if SIZE_MAX / sl_objs_per_block s <? sl_obj_size s then (s, CETCD_ERR_NOMEM)
  else match mem with
       | None => (s, CETCD_ERR_NOMEM)
       | Some base =>
           (s <| sl_blocks := base :: sl_blocks s |> <| sl_block_count := u64 (sl_block_count s + 1) |>
              <| sl_free_list := rev (slots s base) ++ sl_free_list s |>, CETCD_OK)
       end.

Definition cetcd_slab_alloc (s : cetcd_slab) (mem : option Z) : cetcd_slab * option Z :=
  let '(s, rc) := match sl_free_list s with [] => slab_grow_ s mem | _ => (s, CETCD_OK) end in
  if negb (is_ok rc) then (s, None)
  else match sl_free_list s with
       | node :: next => (s <| sl_free_list := next |> <| sl_live := u64 (sl_live s + 1) |>, Some node)
       | [] => (s, None)
       end.

Definition cetcd_slab_release (s : cetcd_slab) (obj : Z) : cetcd_slab :=
  if obj =? 0 then s
  else s <| sl_free_list := obj :: sl_free_list s |> <| sl_live := if 0 <? sl_live s then sl_live s - 1 else sl_live s |>.

Definition cetcd_slab_obj_size (s : cetcd_slab) : Z := sl_obj_size s.
Definition cetcd_slab_live_count (s : cetcd_slab) : Z := sl_live s.
Definition cetcd_slab_block_count (s : cetcd_slab) : Z := sl_block_count s.

(** Sizes, blocks, live objects and total capacity. *)
Definition cetcd_slab_get_stats (s : cetcd_slab) : Z * Z * Z * Z * Z :=
  (sl_obj_size s, sl_objs_per_block s, sl_block_count s, sl_live s, u64 (sl_block_count s * sl_objs_per_block s)).

(** The registry for profiling: the newest first. *)
Definition slab_registry_add_ (registry : list Z) (s : Z) : list Z := s :: registry.

Fixpoint slab_registry_remove_ (registry : list Z) (s : Z) : list Z :=
  match registry with
  | [] => []
  | n :: registry => if n =? s then registry else n :: slab_registry_remove_ registry s
  end.

(** ** Arenas *)

Definition CETCD_ARENA_DEFAULT_BLOCK : Z := 4096.
Definition CETCD_ARENA_MAX_INLINE : Z := 2048.

(** [ab_base] is the address behind the header of the block. *)
Record arena_block : Type := mk_block { ab_cap : Z; ab_used : Z; ab_base : Z }.

Record cetcd_arena : Type := mk_arena {
  ar_blocks : list arena_block;
  ar_huge : list arena_block;
  ar_block_size : Z;
  ar_total_allocated : Z;
  ar_total_used : Z;
  ar_block_count : Z
}.

#[export] Instance arena_eta : RecordEta cetcd_arena := fun a =>
  mk_arena (ar_blocks a) (ar_huge a) (ar_block_size a) (ar_total_allocated a) (ar_total_used a) (ar_block_count a).

Definition cetcd_arena_new (block_size : Z) : cetcd_arena :=
  mk_arena [] [] (if block_size =? 0 then CETCD_ARENA_DEFAULT_BLOCK else block_size) 0 0 0.

(** [while (real_align < align) real_align <<= 1]; beyond 2^63 it does not end. *)
Fixpoint round_pow2 (fuel : nat) (real_align align : Z) : res Z :=
  if align <=? real_align then Ok real_align
  else match fuel with O => Loop | S fuel => round_pow2 fuel (u64 (real_align * 2)) align end.

Definition align_addr (base real_align : Z) : Z := Z.ldiff (u64 (base + (real_align - 1))) (real_align - 1).

Definition add_block (a : cetcd_arena) (cap base : Z) : cetcd_arena :=
  a <| ar_blocks := mk_block cap 0 base :: ar_blocks a |> <| ar_total_allocated := u64 (ar_total_allocated a + cap) |>
    <| ar_block_count := u64 (ar_block_count a + 1) |>.

(** Marks [used] more bytes of the first block. *)
Definition take_head (a : cetcd_arena) (used : Z) : cetcd_arena :=
  match ar_blocks a with
  | b :: bs => a <| ar_blocks := mk_block (ab_cap b) (u64 (ab_used b + used)) (ab_base b) :: bs |> <| ar_total_used := u64 (ar_total_used a + used) |>
  | [] => a
  end.

(** [m0]: the memory for the first block of the arena, [m1]: for a further one. *)
Definition cetcd_arena_alloc_aligned (a : cetcd_arena) (n align : Z) (m0 m1 : option Z) : res (cetcd_arena * option Z) :=
  real_align ← round_pow2 64 1 (if align =? 0 then 1 else align);
  let n := if n =? 0 then 1 else n in
  if (CETCD_ARENA_MAX_INLINE <? n) || (ar_block_size a <? n) then
    match m1 with
    | None => Ok (a, None)
    | Some base =>
        let aligned := align_addr base real_align in
        let used := u64 (aligned - base + n) in
        let cap := u64 (n + real_align) in
        Ok (a <| ar_huge := mk_block cap used base :: ar_huge a |> <| ar_total_allocated := u64 (ar_total_allocated a + cap) |>
              <| ar_total_used := u64 (ar_total_used a + used) |> <| ar_block_count := u64 (ar_block_count a + 1) |>, Some aligned)
    end
  else
    match (match ar_blocks a, m0 with [], None => None | [], Some base => Some (add_block a (ar_block_size a) base) | _, _ => Some a end) with
    | None => Ok (a, None)
    | Some a =>
        match ar_blocks a with
        | [] => Undef
        | b :: _ =>
            let base := ab_base b + ab_used b in
            let aligned := align_addr base real_align in
            let padding := u64 (aligned - base) in
            if ab_cap b <? u64 (ab_used b + padding + n) then
              match m1 with
              | None => Ok (a, None)
              | Some base =>
                  let cap := if ar_block_size a <? u64 (n + real_align) then u64 (n + real_align) else ar_block_size a in
                  let aligned := align_addr base real_align in
                  Ok (take_head (add_block a cap base) (u64 (aligned - base) + n), Some aligned)
              end
            else Ok (take_head a (padding + n), Some aligned)
        end
    end.

Definition cetcd_arena_alloc (a : cetcd_arena) (n : Z) (m0 m1 : option Z) := cetcd_arena_alloc_aligned a n 8 m0 m1.

(** The copy and where it is. *)
Definition cetcd_arena_strdup (a : cetcd_arena) (s : option bytes) (m0 m1 : option Z) : res (cetcd_arena * option (Z * bytes)) :=
  match s with
  | None => Ok (a, None)
  | Some s => '(a, p) ← cetcd_arena_alloc_aligned a (blen s + 1) 1 m0 m1; Ok (a, option_map (fun p => (p, s ++ [0])) p)
  end.

Definition cetcd_arena_memdup (a : cetcd_arena) (d : option bytes) (m0 m1 : option Z) : res (cetcd_arena * option (Z * bytes)) :=
  match d with
  | None | Some [] => Ok (a, None)
  | Some d => '(a, p) ← cetcd_arena_alloc_aligned a (blen d) 1 m0 m1; Ok (a, option_map (fun p => (p, d)) p)
  end.

(** The counters without the freed blocks. *)
Definition drop_block (c : Z * Z) (b : arena_block) : Z * Z :=
  (if ab_cap b <=? c.1 then c.1 - ab_cap b else c.1, if 0 <? c.2 then c.2 - 1 else c.2).

Definition cetcd_arena_reset (a : cetcd_arena) : cetcd_arena :=
  let '(total, count) := foldl drop_block (ar_total_allocated a, ar_block_count a) (drop 1 (ar_blocks a) ++ ar_huge a) in
  mk_arena ((fun b => mk_block (ab_cap b) 0 (ab_base b)) <$> take 1 (ar_blocks a)) [] (ar_block_size a) total 0 count.

Definition cetcd_arena_total_allocated (a : cetcd_arena) : Z := ar_total_allocated a.
Definition cetcd_arena_total_bytes_used (a : cetcd_arena) : Z := ar_total_used a.
Definition cetcd_arena_block_count (a : cetcd_arena) : Z := ar_block_count a.

(** ** Buffers grow *)

Lemma double_cap_spec fuel : forall c want, 0 < c -> SIZE_MAX < c * 2 ^ Z.of_nat fuel -> want <= 2 ^ 63 ->
  exists c', double_cap fuel c want = Some c' /\ want <= c' /\ c <= c'.
Proof.
  induction fuel as [|fuel IH]; intros c want Hc Hf Hw; cbn [double_cap].
  - destruct (Z.leb_spec want c); [by exists c|]. unfold SIZE_MAX in *. change (2 ^ Z.of_nat 0) with 1 in Hf. lia.
  - destruct (Z.leb_spec want c); [by exists c; split_and!; try lia|]. destruct (Z.ltb_spec (SIZE_MAX / 2) c) as [Hb|Hb].
    + unfold SIZE_MAX in Hb. change ((2 ^ 64 - 1) / 2) with (2 ^ 63 - 1) in Hb. lia.
    + destruct (IH (c * 2) want) as (c' & Hd & H1 & H2); [lia|rewrite Nat2Z.inj_succ, Z.pow_succ_r in Hf by lia; lia|done|]. exists c'. split; [done|lia].
Qed.

(** Growing to at most 2^63 bytes succeeds unless memory runs out, and keeps the
    content. *)
Lemma buf_grow_spec ok b want : 0 <= bf_cap b -> want <= 2 ^ 63 ->
  exists cap rc, buf_grow_to_ ok b want = (mk_buf (bf_data b) cap, rc) /\ bf_cap b <= cap /\ (rc = CETCD_OK -> want <= cap) /\
    (ok = true -> rc = CETCD_OK) /\ (rc <> CETCD_OK -> cap = bf_cap b /\ rc = CETCD_ERR_NOMEM).
Proof.
  intros H0 Hw. unfold buf_grow_to_. destruct (Z.leb_spec want (bf_cap b)) as [Hr|Hr]; [exists (bf_cap b), CETCD_OK; by destruct b|].
  destruct (double_cap_spec 64 (if bf_cap b =? 0 then 16 else bf_cap b) want) as (c' & -> & Hw' & Hge); [destruct (Z.eqb_spec (bf_cap b) 0); lia| |done|].
  { unfold SIZE_MAX. change (2 ^ Z.of_nat 64) with (2 ^ 64). destruct (Z.eqb_spec (bf_cap b) 0); lia. }
  assert (bf_cap b <= c') by (destruct (Z.eqb_spec (bf_cap b) 0); lia).
  destruct ok; [exists c', CETCD_OK; by split_and!|exists (bf_cap b), CETCD_ERR_NOMEM; split_and!; [by destruct b|lia|done|done|done]].
Qed.

(** The outcome of an operation that appends [p] and needs [extra] bytes more. *)
Definition appends (ok : bool) (b : cetcd_buf) (p : bytes) (extra : Z) (r : res (cetcd_buf * cetcd_status)) : Prop :=
  exists b' rc, r = Ok (b', rc) /\ blen (bf_data b') + (if is_ok rc then extra else 0) <= bf_cap b' /\ (ok = true -> rc = CETCD_OK) /\
    (rc <> CETCD_OK -> b' = b) /\ cetcd_buf_as_slice b' = if is_ok rc then cetcd_buf_as_slice b ++ p else cetcd_buf_as_slice b.

(** Every operation on a buffer that stays below 2^63 bytes succeeds unless
    memory runs out, keeps what the buffer holds and never writes outside the
    allocation. *)
Lemma buf_spec ok b : blen (bf_data b) <= bf_cap b ->
  (forall p, blen (bf_data b) + blen p <= 2 ^ 63 ->
     appends ok b p 0 (cetcd_buf_append ok b p) /\ appends ok b p 0 (cetcd_buf_append_slice ok b p) /\ appends ok b p 0 (cetcd_buf_append_cstr ok b (Some p))) /\
  (forall v, blen (bf_data b) + 1 <= 2 ^ 63 -> appends ok b [v] 0 (cetcd_buf_append_byte ok b v)) /\
  (forall text, blen (bf_data b) + blen text + 1 <= 2 ^ 63 -> appends ok b text 1 (cetcd_buf_printf ok b (Some text))) /\
  (forall cap, cap <= 2 ^ 63 -> let '(b', rc) := cetcd_buf_reserve ok b cap in
     cetcd_buf_as_slice b' = cetcd_buf_as_slice b /\ bf_cap b <= bf_cap b' /\ (rc = CETCD_OK -> cap <= bf_cap b') /\ (ok = true -> rc = CETCD_OK)) /\
  cetcd_buf_as_slice (cetcd_buf_reset b) = [] /\ bf_cap (cetcd_buf_reset b) = bf_cap b.
Proof.
  intros Hcap. pose proof (blen_nonneg (bf_data b)) as Hlen.
  assert (Happ : forall p extra want, 0 <= extra -> 0 <= blen p -> want = blen (bf_data b) + blen p + extra -> want <= 2 ^ 63 ->
    appends ok b p extra (let '(b, rc) := buf_grow_to_ ok b (u64 want) in
      if negb (is_ok rc) then Ok (b, rc) else if bf_cap b <? blen (bf_data b) + blen p + extra then Undef else Ok (mk_buf (bf_data b ++ p) (bf_cap b), CETCD_OK))).
  { intros p extra want He Hp -> Hw. replace (u64 _) with (blen (bf_data b) + blen p + extra) by (unfold u64; rewrite Z.mod_small; lia).
    destruct (buf_grow_spec ok b (blen (bf_data b) + blen p + extra)) as (cap & rc & -> & Hc1 & Hc2 & Hok & Hfail); [lia|done|]. cbn [bf_data bf_cap].
    destruct (decide (rc = CETCD_OK)) as [->|Hne].
    - cbn [is_ok negb]. rewrite (proj2 (Z.ltb_ge _ _)) by auto. exists (mk_buf (bf_data b ++ p) cap), CETCD_OK. split; [done|]. cbn [bf_data bf_cap is_ok cetcd_buf_as_slice]. rewrite blen_app. specialize (Hc2 eq_refl). split_and!; (done || lia).
    - destruct (Hfail Hne) as [-> ->]. cbn [is_ok negb]. exists b, CETCD_ERR_NOMEM. split; [by destruct b|]. cbn [is_ok]. split_and!; (done || lia). }
  assert (Hpos : forall p : bytes, 0 <= blen p) by apply blen_nonneg.
  assert (Hbytes : forall p, blen (bf_data b) + blen p <= 2 ^ 63 -> appends ok b p 0 (cetcd_buf_append ok b p)).
  { intros p Hp. unfold cetcd_buf_append. destruct (Z.eqb_spec (blen p) 0) as [E0|E0].
    - exists b, CETCD_OK. cbn [is_ok]. destruct p; [|rewrite blen_cons in E0; pose proof (Hpos p); lia]. rewrite app_nil_r. split_and!; (done || lia).
    - pose proof (Happ p 0 (blen (bf_data b) + blen p) ltac:(lia) (Hpos p) ltac:(lia) Hp) as H. unfold copy_in. destruct (buf_grow_to_ _ _ _) as [b1 rc]. by rewrite Z.add_0_r in H. }
  split_and!; [by auto| | | |done..].
  - intros v Hv. pose proof (Happ [v] 0 (blen (bf_data b) + 1) ltac:(lia) ltac:(done) ltac:(change (blen [v]) with 1; lia) Hv) as H. unfold cetcd_buf_append_byte, copy_in.
    destruct (buf_grow_to_ _ _ _) as [b1 rc]. by rewrite Z.add_0_r in H.
  - intros text Ht. exact (Happ text 1 (blen (bf_data b) + blen text + 1) ltac:(lia) (Hpos text) eq_refl Ht).
  - intros cap Hc. unfold cetcd_buf_reserve. destruct (buf_grow_spec ok b cap) as (cap' & rc & -> & H1 & H2 & H3 & _); [lia|done|]. by split_and!.
Qed.

(** ** Slabs hand out disjoint objects *)

(** Two regions of [size] bytes do not overlap. *)
Definition apart (size x y : Z) : Prop := x + size <= y \/ y + size <= x.

Fixpoint all_apart (size : Z) (l : list Z) : Prop :=
  match l with [] => True | x :: l => Forall (apart size x) l /\ all_apart size l end.

Definition block_bytes (s : cetcd_slab) : Z := sl_obj_size s * sl_objs_per_block s.

(** What [malloc] may return for a new block. *)
Definition fresh_block (s : cetcd_slab) (mem : option Z) : Prop :=
  match mem with Some base => 0 < base /\ base + block_bytes s <= 2 ^ 64 /\ Forall (apart (block_bytes s) base) (sl_blocks s) | None => True end.

(** The runs of a slab: allocations that succeed or fail, and releases of live
    objects, in any order; the list holds the live objects. *)
Inductive slab_run (obj_size per : Z) : cetcd_slab -> list Z -> Prop :=
| run_new s : cetcd_slab_new obj_size per = Some s -> slab_run obj_size per s []
| run_alloc s live mem s' p : slab_run obj_size per s live -> fresh_block s mem -> cetcd_slab_alloc s mem = (s', Some p) -> slab_run obj_size per s' (p :: live)
| run_fail s live mem s' : slab_run obj_size per s live -> fresh_block s mem -> cetcd_slab_alloc s mem = (s', None) -> slab_run obj_size per s' live
| run_release s live1 p live2 : slab_run obj_size per s (live1 ++ p :: live2) -> slab_run obj_size per (cetcd_slab_release s p) (live1 ++ live2).

Definition all_slots (s : cetcd_slab) : list Z := mjoin (slots s <$> sl_blocks s).

Record slab_ok (s : cetcd_slab) (live : list Z) : Prop := {
  so_size : 0 < sl_obj_size s;
  so_per : 0 < sl_objs_per_block s;
  so_range : Forall (fun b => 0 < b /\ b + block_bytes s <= 2 ^ 64) (sl_blocks s);
  so_blocks : all_apart (block_bytes s) (sl_blocks s);
  so_slots : sl_free_list s ++ live ≡ₚ all_slots s;
  so_live : sl_live s = blen live;
  so_count : sl_block_count s = blen (sl_blocks s);
  so_align : (8 | sl_obj_size s)
}.

Lemma apart_sym size x y : apart size x y -> apart size y x.
Proof. unfold apart. tauto. Qed.

Lemma all_apart_nodup size l : 0 < size -> all_apart size l -> NoDup l.
Proof.
  intros Hs. induction l as [|x l IH]; [constructor|]. intros [Hx Hl]. constructor; [|by apply IH]. intros Hin.
  eapply Forall_forall in Hin; [|exact Hx]. unfold apart in Hin. lia.
Qed.

Lemma all_apart_elem size l x y : all_apart size l -> x ∈ l -> y ∈ l -> x <> y -> apart size x y.
Proof.
  induction l as [|z l IH]; intros Hl Hx Hy Hne; [by apply elem_of_nil in Hx|]. destruct Hl as [Hz Hl]. rewrite Forall_forall in Hz.
  apply elem_of_cons in Hx as [->|Hx]; apply elem_of_cons in Hy as [->|Hy]; [done|by apply Hz|by apply apart_sym, Hz|by apply IH].
Qed.

Lemma all_apart_app size l k : all_apart size l -> all_apart size k -> (forall x y, x ∈ l -> y ∈ k -> apart size x y) -> all_apart size (l ++ k).
Proof.
  induction l as [|x l IH]; intros Hl Hk Hc; [done|]. destruct Hl as [Hx Hl]. cbn [app all_apart]. split.
  - apply Forall_app. split; [done|]. apply Forall_forall. intros y Hy. apply Hc; [left|done].
  - apply IH; [done..|]. intros y z Hy Hz. apply Hc; [by right|done].
Qed.

Lemma slot_inv s b x : x ∈ slots s b -> exists i, x = b + Z.of_nat i * sl_obj_size s /\ (i < Z.to_nat (sl_objs_per_block s))%nat.
Proof. unfold slots. intros Hx. apply list_elem_of_fmap in Hx as (i & -> & Hi). apply elem_of_seq in Hi. exists i. split; [done|lia]. Qed.

Lemma slots_length s b : length (slots s b) = Z.to_nat (sl_objs_per_block s).
Proof. unfold slots. by rewrite length_fmap, length_seq. Qed.

Lemma slots_join_length s bs : length (mjoin (slots s <$> bs)) = (length bs * Z.to_nat (sl_objs_per_block s))%nat.
Proof. induction bs as [|b bs IH]; [done|]. csimpl. rewrite length_app, slots_length, IH. lia. Qed.

(** A slot lies in its block. *)
Lemma slot_inside s b x : 0 < sl_obj_size s -> x ∈ slots s b -> b <= x /\ x + sl_obj_size s <= b + block_bytes s.
Proof. intros Hs Hx. apply slot_inv in Hx as (i & -> & Hi). unfold block_bytes. nia. Qed.

Lemma slots_apart s b : 0 < sl_obj_size s -> all_apart (sl_obj_size s) (slots s b).
Proof.
  intros Hs. unfold slots. generalize 0%nat as n. induction (Z.to_nat (sl_objs_per_block s)) as [|k IH]; intros n; [done|]. cbn [seq fmap list_fmap all_apart]. split; [|apply IH].
  apply Forall_fmap, Forall_forall. intros j Hj. apply elem_of_seq in Hj. unfold apart. left. assert (Z.of_nat n + 1 <= Z.of_nat j) by lia. nia.
Qed.

Lemma all_slots_apart s : 0 < sl_obj_size s -> all_apart (block_bytes s) (sl_blocks s) -> all_apart (sl_obj_size s) (all_slots s).
Proof.
  intros Hs. unfold all_slots. induction (sl_blocks s) as [|b bs IH]; intros Hb; [done|]. destruct Hb as [Hb Hbs]. cbn [fmap list_fmap mjoin list_join].
  apply all_apart_app; [by apply slots_apart|by apply IH|]. intros x y Hx Hy. apply list_elem_of_join in Hy as (l & Hy & Hl). apply list_elem_of_fmap in Hl as (b' & -> & Hb').
  apply slot_inside in Hx; [|done]. apply slot_inside in Hy; [|done]. rewrite Forall_forall in Hb. specialize (Hb b' Hb'). unfold apart in *. lia.
Qed.

(** Distinct addresses of the 64-bit space are fewer than 2^64. *)
Lemma addresses_bound l : NoDup l -> Forall (fun x => 0 < x < 2 ^ 64) l -> blen l < 2 ^ 64.
Proof.
  intros Hn Hl. assert (Hs : l ⊆+ seqZ 1 (2 ^ 64 - 1)).
  { apply NoDup_submseteq; [done|]. intros x Hx. eapply Forall_forall in Hx; [|exact Hl]. cbv beta in Hx. apply elem_of_seqZ. lia. }
  apply submseteq_length in Hs. rewrite length_seqZ in Hs. unfold blen. lia.
Qed.

Lemma live_facts s live : slab_ok s live -> Forall (fun x => 0 < x < 2 ^ 64) (sl_free_list s ++ live) /\ all_apart (sl_obj_size s) (all_slots s).
Proof.
  intros [H1 H2 H3 H4 H5 _ _]. split; [|by apply all_slots_apart]. rewrite H5. unfold all_slots. apply Forall_forall. intros x Hx.
  apply list_elem_of_join in Hx as (l & Hx & Hl). apply list_elem_of_fmap in Hl as (b & -> & Hb). eapply Forall_forall in Hb; [|exact H3]. cbv beta in Hb. apply slot_inside in Hx; [|done]. lia.
Qed.

Lemma live_bound s live : slab_ok s live -> NoDup (sl_free_list s ++ live) /\ blen (sl_free_list s ++ live) < 2 ^ 64.
Proof.
  intros Hok. destruct (live_facts s live Hok) as [Hr Ha]. assert (Hn : NoDup (sl_free_list s ++ live)) by (rewrite (so_slots _ _ Hok); eapply all_apart_nodup; [apply Hok|done]).
  split; [done|by apply addresses_bound].
Qed.

Lemma grow_ok s live base : slab_ok s live -> fresh_block s (Some base) -> slab_ok (slab_grow_ s (Some base)).1 live.
Proof.
  intros Hok (Hb & He & Ha). destruct Hok as [H1 H2 H3 H4 H5 H6 H7]. unfold slab_grow_. destruct (_ <? _); [done|]. cbn [fst].
  assert (Hbb : 0 < block_bytes s) by (unfold block_bytes; nia).
  split; cbn [sl_obj_size sl_objs_per_block sl_blocks sl_free_list sl_live sl_block_count field_set]; try done.
  - by constructor.
  - unfold all_slots. cbn [fmap list_fmap mjoin list_join]. change (mjoin (slots _ <$> sl_blocks s)) with (all_slots s). rewrite <- app_assoc, H5.
    change (slots _ base) with (slots s base). apply Permutation_app_tail. symmetry. apply Permutation_rev.
  - rewrite H7, blen_cons. assert (Hn : blen (base :: sl_blocks s) < 2 ^ 64).
    { apply addresses_bound; [eapply all_apart_nodup; [exact Hbb|by split]|]. constructor; [lia|]. eapply Forall_impl; [exact H3|]. intros b. cbn. lia. }
    rewrite blen_cons in Hn. pose proof (blen_nonneg (sl_blocks s)). unfold u64. rewrite Z.mod_small by lia. lia.
Qed.

Lemma pop_ok s live node next : slab_ok s live -> sl_free_list s = node :: next ->
  slab_ok (s <| sl_free_list := next |> <| sl_live := u64 (sl_live s + 1) |>) (node :: live).
Proof.
  intros Hok Hf. pose proof (live_bound s live Hok) as [_ Hb]. destruct Hok as [H1 H2 H3 H4 H5 H6 H7]. rewrite Hf in Hb, H5.
  split; cbn [sl_obj_size sl_objs_per_block sl_blocks sl_free_list sl_live sl_block_count field_set]; try done.
  - change (all_slots _) with (all_slots s). rewrite <- H5. symmetry. apply Permutation_middle.
  - rewrite H6, blen_cons. rewrite blen_app, blen_cons in Hb. pose proof (blen_nonneg next). pose proof (blen_nonneg live). unfold u64. rewrite Z.mod_small by lia. lia.
Qed.

Lemma alloc_ok s live mem : slab_ok s live -> fresh_block s mem ->
  match cetcd_slab_alloc s mem with (s', Some p) => slab_ok s' (p :: live) | (s', None) => slab_ok s' live end.
Proof.
  intros Hok Hf. unfold cetcd_slab_alloc. destruct (sl_free_list s) as [|node next] eqn:Hfree.
  - destruct mem as [base|]; [|unfold slab_grow_; by destruct (_ <? _)]. pose proof (grow_ok s live base Hok Hf) as Hg. destruct (slab_grow_ s (Some base)) as [s1 rc]. cbn [fst] in Hg.
    destruct (negb (is_ok rc)); [done|]. destruct (sl_free_list s1) as [|node next] eqn:H1; [done|]. by apply pop_ok.
  - cbn [is_ok negb]. rewrite Hfree. by apply pop_ok.
Qed.

Lemma release_ok s live1 p live2 : slab_ok s (live1 ++ p :: live2) -> slab_ok (cetcd_slab_release s p) (live1 ++ live2).
Proof.
  intros Hok. destruct (live_facts _ _ Hok) as [Hr _]. destruct Hok as [H1 H2 H3 H4 H5 H6 H7]. unfold cetcd_slab_release.
  assert (Hp : 0 < p). { apply Forall_app in Hr as [_ Hr]. apply Forall_app in Hr as [_ Hr]. apply Forall_cons in Hr as [? _]. lia. }
  rewrite (proj2 (Z.eqb_neq p 0)) by lia. split; cbn [sl_obj_size sl_objs_per_block sl_blocks sl_free_list sl_live sl_block_count field_set]; try done.
  - change (all_slots _) with (all_slots s). rewrite <- H5. cbn [app]. rewrite !app_assoc. apply Permutation_middle.
  - rewrite H6, !blen_app, blen_cons. pose proof (blen_nonneg live1). pose proof (blen_nonneg live2). rewrite (proj2 (Z.ltb_lt _ _)) by lia. lia.
Qed.

Lemma new_slab_ok obj_size per s : 0 <= obj_size <= 2 ^ 63 -> 0 <= per -> cetcd_slab_new obj_size per = Some s -> slab_ok s [] /\ obj_size <= sl_obj_size s.
Proof.
  intros Ho Hp. unfold cetcd_slab_new. destruct (Z.eqb_spec obj_size 0); [done|]. cbv zeta. set (o := if obj_size <? 8 then 8 else obj_size).
  assert (Hb : obj_size <= o /\ 8 <= o <= 2 ^ 63) by (unfold o; destruct (Z.ltb_spec obj_size 8); lia). clearbody o.
  assert (Ha : o <= align_up_ o 8 /\ (8 | align_up_ o 8)).
  { unfold align_up_. change (8 - 1) with (Z.ones 3). rewrite Z.ldiff_ones_r, Z.shiftl_mul_pow2, Z.shiftr_div_pow2 by lia. change (2 ^ 3) with 8. change (Z.ones 3) with 7.
    unfold u64. rewrite Z.mod_small by lia. split; [Z.div_mod_to_equations; lia|apply Z.divide_factor_r]. }
  intros [= <-]. split; [|cbn; lia]. split; cbn; try done; [lia| |by destruct Ha]. destruct (Z.eqb_spec per 0); unfold CETCD_SLAB_DEFAULT_PER_BLOCK; lia.
Qed.

Lemma run_slab_ok obj_size per s live : 0 <= obj_size <= 2 ^ 63 -> 0 <= per -> slab_run obj_size per s live -> slab_ok s live /\ obj_size <= sl_obj_size s.
Proof.
  intros Ho Hp. induction 1 as [s Hn|s live mem s' p _ [IH Hs] Hf Ha|s live mem s' _ [IH Hs] Hf Ha|s live1 p live2 _ [IH Hs]]; [by eapply new_slab_ok| | |].
  - pose proof (alloc_ok s live mem IH Hf) as H. rewrite Ha in H. split; [done|]. unfold cetcd_slab_alloc, slab_grow_ in Ha. repeat case_match; simplify_eq; done.
  - pose proof (alloc_ok s live mem IH Hf) as H. rewrite Ha in H. split; [done|]. unfold cetcd_slab_alloc, slab_grow_ in Ha. repeat case_match; simplify_eq; done.
  - split; [by apply release_ok|]. unfold cetcd_slab_release. by destruct (p =? 0).
Qed.

(** The slab allocator is safe.  After any sequence of allocations, each of
    which may fail, and releases of live objects, the live objects are pairwise
    disjoint regions of the object size inside the blocks obtained from the
    system, none of them is on the free list, and the counters tell exactly how
    many there are and how many fit. *)
Lemma slab_safe (obj_size per : Z) (s : cetcd_slab) (live : list Z) :
  0 <= obj_size <= 2 ^ 63 -> 0 <= per -> slab_run obj_size per s live ->
  obj_size <= cetcd_slab_obj_size s /\ NoDup live /\
  (forall p q, p ∈ live -> q ∈ live -> p <> q -> apart (cetcd_slab_obj_size s) p q) /\
  (forall p, p ∈ live -> p ∉ sl_free_list s /\ exists base, base ∈ sl_blocks s /\ base <= p /\ p + cetcd_slab_obj_size s <= base + block_bytes s /\ (8 | p - base)) /\
  cetcd_slab_live_count s = blen live /\ cetcd_slab_block_count s = blen (sl_blocks s) /\
  cetcd_slab_block_count s * sl_objs_per_block s = blen (sl_free_list s) + blen live.
Proof.
  intros Ho Hp Hrun. destruct (run_slab_ok _ _ _ _ Ho Hp Hrun) as [Hok Hs]. destruct (live_facts s live Hok) as [_ Ha]. destruct (live_bound s live Hok) as [Hn _].
  destruct Hok as [H1 H2 H3 H4 H5 H6 H7 H8]. assert (Hin : forall p, p ∈ live -> p ∈ all_slots s) by (intros p Hx; rewrite <- H5; apply elem_of_app; by right).
  apply NoDup_app in Hn as (_ & Hdis & Hnl). unfold cetcd_slab_obj_size, cetcd_slab_live_count, cetcd_slab_block_count. split_and!; [done|done| | |done|done|].
  - intros p q Hx Hy. eapply all_apart_elem; [exact Ha|by apply Hin..].
  - intros p Hx. split; [intros Hf; by apply (Hdis p)|]. specialize (Hin p Hx). unfold all_slots in Hin. apply list_elem_of_join in Hin as (l & Hl & Hb).
    apply list_elem_of_fmap in Hb as (b & -> & Hb). exists b. split; [done|]. destruct (slot_inside s b p H1 Hl) as [B1 B2]. split_and!; [done|done|].
    apply slot_inv in Hl as (i & -> & _). replace (b + Z.of_nat i * sl_obj_size s - b) with (Z.of_nat i * sl_obj_size s) by lia. by apply Z.divide_mul_r.
  - rewrite <- blen_app, H7. unfold blen at 2. rewrite (Permutation_length H5). unfold all_slots, blen. rewrite slots_join_length. nia.
Qed.

(** ** Arenas hand out disjoint memory *)

(** Regions with a start and a length. *)
Definition sep (x y : Z * Z) : Prop := x.1 + x.2 <= y.1 \/ y.1 + y.2 <= x.1.

Fixpoint regions_apart (l : list (Z * Z)) : Prop :=
  match l with [] => True | x :: l => Forall (sep x) l /\ regions_apart l end.

Definition arena_memory (a : cetcd_arena) : list arena_block := ar_blocks a ++ ar_huge a.
Definition region (b : arena_block) : Z * Z := (ab_base b, ab_cap b).

Definition zsum (l : list Z) : Z := foldr Z.add 0 l.

Lemma zsum_app l k : zsum (l ++ k) = zsum l + zsum k.
Proof. induction l as [|x l IH]; [done|]. cbn in *. unfold zsum in *. lia. Qed.

(** Disjoint regions of the 64-bit space have fewer than 2^64 bytes together. *)
Lemma regions_bound (l : list (Z * Z)) : regions_apart l -> Forall (fun x : Z * Z => 0 < x.1 /\ 0 <= x.2 /\ x.1 + x.2 <= 2 ^ 64) l -> zsum l.*2 < 2 ^ 64.
Proof.
  intros Ha Hl. set (cells := mjoin ((fun x : Z * Z => seqZ x.1 x.2) <$> l)).
  assert (Hin : forall x, x ∈ cells <-> exists r, r ∈ l /\ r.1 <= x < r.1 + r.2).
  { intros x. unfold cells. rewrite list_elem_of_join. split.
    - intros (k & Hx & Hk). apply list_elem_of_fmap in Hk as (r & -> & Hr). exists r. split; [done|]. by apply elem_of_seqZ in Hx.
    - intros (r & Hr & Hx). exists (seqZ r.1 r.2). split; [by apply elem_of_seqZ|]. by apply (list_elem_of_fmap_2 (fun x : Z * Z => seqZ x.1 x.2)). }
  assert (Hlen : blen cells = zsum l.*2).
  { clear Ha Hin. unfold cells. clear cells. induction Hl as [|r l (_ & Hr & _) _ IH]; [done|]. csimpl. rewrite blen_app, IH. unfold blen. rewrite length_seqZ. unfold zsum. cbn. lia. }
  rewrite <- Hlen. apply addresses_bound.
  - unfold cells. clear Hin Hlen cells. induction l as [|r l IH]; [constructor|]. destruct Ha as [Hr Ha]. apply Forall_cons in Hl as [_ Hl]. csimpl. apply NoDup_app. split_and!; [apply NoDup_seqZ| |by apply IH].
    intros x Hx Hy. apply elem_of_seqZ in Hx. apply list_elem_of_join in Hy as (k & Hy & Hk). apply list_elem_of_fmap in Hk as (r' & -> & Hr'). apply elem_of_seqZ in Hy.
    rewrite Forall_forall in Hr. specialize (Hr r' Hr'). unfold sep in Hr. lia.
  - apply Forall_forall. intros x (r & Hr & Hx)%Hin. rewrite Forall_forall in Hl. specialize (Hl r Hr). cbv beta in Hl. lia.
Qed.

Record block_ok (b : arena_block) : Prop := {
  bo_base : 0 < ab_base b;
  bo_pos : 0 < ab_cap b;
  bo_used : 0 <= ab_used b <= ab_cap b;
  bo_cap : ab_cap b <= 2 ^ 63;
  bo_end : ab_base b + ab_cap b <= 2 ^ 64
}.

(** The counters: blocks, their bytes and the used ones. *)
Definition counters_exact (a : cetcd_arena) : Prop :=
  cetcd_arena_block_count a = blen (arena_memory a) /\ cetcd_arena_total_allocated a = zsum (ab_cap <$> arena_memory a) /\
  cetcd_arena_total_bytes_used a = zsum (ab_used <$> arena_memory a).

(** The totals of blocks of the address space do not wrap. *)
Lemma totals_bound (l : list arena_block) : Forall block_ok l -> regions_apart (region <$> l) ->
  0 <= blen l <= zsum (ab_cap <$> l) /\ 0 <= zsum (ab_used <$> l) <= zsum (ab_cap <$> l) /\ zsum (ab_cap <$> l) < 2 ^ 64.
Proof.
  intros Hl Ha. assert (Hb : zsum (region <$> l).*2 < 2 ^ 64).
  { apply regions_bound; [done|]. apply Forall_fmap. eapply Forall_impl; [exact Hl|]. intros b []. cbn. lia. }
  rewrite <- list_fmap_compose in Hb. change (snd ∘ region) with ab_cap in Hb.
  assert (H : 0 <= blen l <= zsum (ab_cap <$> l) /\ 0 <= zsum (ab_used <$> l) <= zsum (ab_cap <$> l)).
  { clear Ha Hb. induction Hl as [|b l [] _ IH]; [done|]. rewrite !fmap_cons, blen_cons. unfold zsum in *. cbn. lia. }
  lia.
Qed.

Record arena_ok (a : cetcd_arena) (given : list (Z * Z)) : Prop := {
  ao_size : 0 < ar_block_size a <= 2 ^ 62;
  ao_blocks : Forall block_ok (arena_memory a);
  ao_apart : regions_apart (region <$> arena_memory a);
  ao_given : regions_apart given;
  ao_inside : Forall (fun x : Z * Z => exists b, b ∈ arena_memory a /\ 0 < x.2 /\ ab_base b <= x.1 /\ x.1 + x.2 <= ab_base b + ab_used b) given;
  ao_counts : counters_exact a
}.

Lemma round_pow2_spec align : 1 <= align <= 2 ^ 62 -> exists k, round_pow2 64 1 align = Ok (2 ^ k) /\ 0 <= k <= 62 /\ align <= 2 ^ k.
Proof.
  intros Ha. assert (H : forall fuel j, 0 <= j <= 62 -> (62 - j < Z.of_nat fuel) -> exists k, round_pow2 fuel (2 ^ j) align = Ok (2 ^ k) /\ 0 <= k <= 62 /\ align <= 2 ^ k).
  { induction fuel as [|fuel IH]; intros j Hj Hf; [lia|]. cbn [round_pow2]. destruct (Z.leb_spec align (2 ^ j)) as [Hl|Hl]; [by exists j|].
    assert (j < 62) by (destruct (Z.eq_dec j 62) as [->|]; lia). assert (E : u64 (2 ^ j * 2) = 2 ^ (j + 1)).
    { rewrite Z.pow_add_r by lia. change (2 ^ 1) with 2. assert (2 ^ j <= 2 ^ 62) by (apply Z.pow_le_mono_r; lia). assert (0 < 2 ^ j) by (apply Z.pow_pos_nonneg; lia). unfold u64. apply Z.mod_small. lia. }
    rewrite E. apply IH; lia. }
  change 1 with (2 ^ 0). apply H; lia.
Qed.

(** Where an aligned address lies, if the space does not end before it. *)
Lemma align_addr_spec k x : 0 <= k <= 62 -> 0 < x -> x + 2 ^ k <= 2 ^ 64 ->
  x <= align_addr x (2 ^ k) < x + 2 ^ k /\ (2 ^ k | align_addr x (2 ^ k)).
Proof.
  intros Hk Hx He. unfold align_addr. assert (0 < 2 ^ k) by (apply Z.pow_pos_nonneg; lia). unfold u64. rewrite Z.mod_small by lia.
  replace (Z.ldiff (x + (2 ^ k - 1)) (2 ^ k - 1)) with ((x + (2 ^ k - 1)) / 2 ^ k * 2 ^ k).
  - split; [|apply Z.divide_factor_r]. pose proof (Z.div_mod (x + (2 ^ k - 1)) (2 ^ k) ltac:(lia)). pose proof (Z.mod_pos_bound (x + (2 ^ k - 1)) (2 ^ k) ltac:(lia)). lia.
  - replace (Z.ldiff (x + (2 ^ k - 1)) (2 ^ k - 1)) with (Z.ldiff (x + (2 ^ k - 1)) (Z.ones k)) by (rewrite Z.ones_equiv; f_equal; lia).
    rewrite Z.ldiff_ones_r, Z.shiftl_mul_pow2, Z.shiftr_div_pow2 by lia. done.
Qed.

(** In a block that ends with the address space the padding may wrap; it is then
    too large for the block. *)
Lemma padding_spec k b n : 0 <= k <= 62 -> block_ok b -> 0 < n <= 2 ^ 62 ->
  let x := ab_base b + ab_used b in let padding := u64 (align_addr x (2 ^ k) - x) in
  u64 (ab_used b + padding + n) <= ab_cap b ->
  0 <= padding /\ align_addr x (2 ^ k) = x + padding /\ ab_used b + padding + n <= ab_cap b /\ (2 ^ k | align_addr x (2 ^ k)).
Proof.
  intros Hk [B1 _ B2 B3 B4] Hn. cbv zeta. set (x := ab_base b + ab_used b). intros Hfit. assert (Hp : 0 < 2 ^ k) by (apply Z.pow_pos_nonneg; lia).
  assert (Hp62 : 2 ^ k <= 2 ^ 62) by (apply Z.pow_le_mono_r; lia).
  destruct (Z.le_gt_cases (x + 2 ^ k) (2 ^ 64)) as [Hin|Hout].
  - destruct (align_addr_spec k x Hk ltac:(unfold x; lia) Hin) as [Hr Hd]. assert (E : u64 (align_addr x (2 ^ k) - x) = align_addr x (2 ^ k) - x) by (unfold u64; apply Z.mod_small; lia).
    rewrite E in Hfit |- *. unfold u64 in Hfit. rewrite Z.mod_small in Hfit by lia. split_and!; [lia|lia|lia|done].
  - exfalso. assert (Ez : align_addr x (2 ^ k) = 0).
    { unfold align_addr. replace (u64 (x + (2 ^ k - 1))) with (x + (2 ^ k - 1) - 2 ^ 64) by (unfold u64; apply Z.mod_unique_pos with 1; unfold x in *; lia).
      replace (Z.ldiff _ _) with (Z.ldiff (x + (2 ^ k - 1) - 2 ^ 64) (Z.ones k)) by (rewrite Z.ones_equiv; f_equal; lia).
      rewrite Z.ldiff_ones_r, Z.shiftr_div_pow2 by lia. rewrite Z.div_small; [by rewrite Z.shiftl_0_l|]. unfold x in *. lia. }
    rewrite Ez in Hfit. destruct (Z.eq_dec x (2 ^ 64)) as [Ex|Ex].
    + rewrite Ex in Hfit. change (u64 (0 - 2 ^ 64)) with 0 in Hfit. unfold u64 in Hfit. rewrite Z.mod_small in Hfit by lia. unfold x in *. lia.
    + replace (u64 (0 - x)) with (2 ^ 64 - x) in Hfit by (unfold u64; apply Z.mod_unique_pos with (-1); unfold x in *; lia).
      unfold u64 in Hfit. rewrite Z.mod_small in Hfit by (unfold x in *; lia). unfold x in *. lia.
Qed.

(** What [malloc] may return for a block of [cap] bytes. *)
Definition fresh_region (a : cetcd_arena) (cap : Z) (mem : option Z) : Prop :=
  match mem with Some base => 0 < base /\ base + cap <= 2 ^ 64 /\ Forall (sep (base, cap)) (region <$> arena_memory a) | None => True end.

Definition at_least_one (n : Z) : Z := if n =? 0 then 1 else n.

(** The size of the block a request of [n] bytes may need. *)
Definition request_cap (a : cetcd_arena) (n real_align : Z) : Z :=
  if (CETCD_ARENA_MAX_INLINE <? n) || (ar_block_size a <? n) then n + real_align else Z.max (ar_block_size a) (n + real_align).

Definition fresh_request (a : cetcd_arena) (n align : Z) (m0 m1 : option Z) : Prop :=
  fresh_region a (ar_block_size a) m0 /\
  forall k, round_pow2 64 1 (at_least_one align) = Ok (2 ^ k) ->
    let cap := request_cap a (at_least_one n) (2 ^ k) in
    fresh_region a cap m1 /\ match m0, m1 with Some x, Some y => sep (y, cap) (x, ar_block_size a) | _, _ => True end.

Lemma inside_mono (given : list (Z * Z)) (l l' : list arena_block) :
  (forall b, b ∈ l -> exists b', b' ∈ l' /\ ab_base b' = ab_base b /\ ab_used b <= ab_used b') ->
  Forall (fun x : Z * Z => exists b, b ∈ l /\ 0 < x.2 /\ ab_base b <= x.1 /\ x.1 + x.2 <= ab_base b + ab_used b) given ->
  Forall (fun x : Z * Z => exists b, b ∈ l' /\ 0 < x.2 /\ ab_base b <= x.1 /\ x.1 + x.2 <= ab_base b + ab_used b) given.
Proof.
  intros Hl Hg. eapply Forall_impl; [exact Hg|]. intros x (b & Hb & H1 & H2 & H3). destruct (Hl b Hb) as (b' & Hb' & E & Hu). exists b'. split_and!; (done || lia).
Qed.

(** A new block. *)
Lemma add_block_ok a given cap base : arena_ok a given -> 0 < cap <= 2 ^ 63 -> fresh_region a cap (Some base) -> arena_ok (add_block a cap base) given.
Proof.
  intros [A1 A2 A3 A4 A5 (C1 & C2 & C3)] Hc (F1 & F2 & F3). set (nb := mk_block cap 0 base).
  assert (Hm : Forall block_ok (nb :: arena_memory a)) by (constructor; [split; cbn; lia|done]).
  assert (Ha : regions_apart (region <$> nb :: arena_memory a)) by (by split).
  split; [done|exact Hm|exact Ha|done| |].
  - eapply inside_mono; [|exact A5]. intros b Hb. exists b. split_and!; [by right|done|lia].
  - destruct (totals_bound _ Hm Ha) as (T1 & T2 & T3). unfold counters_exact in *. change (arena_memory (add_block a cap base)) with (nb :: arena_memory a).
    rewrite !fmap_cons, blen_cons in *. unfold zsum in *. cbn [foldr ab_cap ab_used nb] in *. unfold cetcd_arena_block_count, cetcd_arena_total_allocated, cetcd_arena_total_bytes_used in *. cbn [add_block ar_block_count ar_total_allocated ar_total_used field_set].
    rewrite C1, C2, C3. unfold u64. pose proof (blen_nonneg (arena_memory a)). rewrite !Z.mod_small by lia. lia.
Qed.

(** Taking memory from the end of the used part of the first block. *)
Lemma take_head_ok a given b bs padding n : arena_ok a given -> ar_blocks a = b :: bs -> 0 <= padding -> 0 < n -> ab_used b + padding + n <= ab_cap b ->
  arena_ok (take_head a (padding + n)) ((ab_base b + ab_used b + padding, n) :: given).
Proof.
  intros [A1 A2 A3 A4 A5 (C1 & C2 & C3)] Hb Hp Hn Hfit. unfold arena_memory in *. rewrite Hb in A2, A3, A5, C1, C2, C3. cbn [app] in A2, A3, A5, C1, C2, C3. apply Forall_cons in A2 as [Bok A2]. pose proof Bok as [B1 B0 B2 B3 B4].
  unfold take_head. rewrite Hb. assert (Eu : u64 (ab_used b + (padding + n)) = ab_used b + padding + n) by (unfold u64; rewrite Z.mod_small; lia). rewrite Eu.
  set (b' := mk_block (ab_cap b) (ab_used b + padding + n) (ab_base b)). assert (Hin' : b' ∈ b' :: bs ++ ar_huge a) by left.
  assert (Hm : Forall block_ok (b' :: bs ++ ar_huge a)) by (constructor; [split; cbn; lia|done]).
  split; unfold arena_memory; cbn [ar_block_size ar_blocks ar_huge field_set app]; [done|exact Hm|exact A3| | |].
  - split; [|done]. apply Forall_forall. intros [q m] Hq. eapply Forall_forall in Hq; [|exact A5]. destruct Hq as (c & Hc & H1 & H2 & H3). cbn [fst snd] in *. unfold sep. cbn [fst snd].
    apply elem_of_cons in Hc as [->|Hc]; [lia|]. destruct A3 as [A3 _]. rewrite Forall_forall in A3. specialize (A3 (region c) ltac:(by apply list_elem_of_fmap_2)).
    rewrite Forall_forall in A2. destruct (A2 c Hc) as [D1 _ D2 D3 D4]. unfold sep, region in A3. cbn [fst snd] in A3. lia.
  - constructor; [exists b'; cbn; split_and!; (done || lia)|]. eapply inside_mono; [|exact A5]. intros c Hc. apply elem_of_cons in Hc as [->|Hc].
    + exists b'. cbn. split_and!; (done || lia).
    + exists c. split_and!; [by right|done|lia].
  - destruct (totals_bound _ Hm A3) as (T1 & T2 & T3). unfold counters_exact, arena_memory, cetcd_arena_block_count, cetcd_arena_total_allocated, cetcd_arena_total_bytes_used in *.
    cbn [ar_blocks ar_huge ar_block_count ar_total_allocated ar_total_used field_set app]. rewrite C1, C2, C3. rewrite !fmap_cons in *. unfold zsum in *. cbn [foldr ab_cap ab_used b'] in *.
    split_and!; [by rewrite !blen_cons|done|]. unfold u64. rewrite Z.mod_small by lia. lia.
Qed.

(** A block of its own for a large request. *)
Lemma huge_ok a given cap used base aligned n : arena_ok a given -> 0 < n -> 0 < cap <= 2 ^ 63 -> fresh_region a cap (Some base) -> base <= aligned -> used = aligned - base + n -> used <= cap ->
  arena_ok (a <| ar_huge := mk_block cap used base :: ar_huge a |> <| ar_total_allocated := u64 (ar_total_allocated a + cap) |>
              <| ar_total_used := u64 (ar_total_used a + used) |> <| ar_block_count := u64 (ar_block_count a + 1) |>) ((aligned, n) :: given).
Proof.
  intros [A1 A2 A3 A4 A5 (C1 & C2 & C3)] Hn Hc (F1 & F2 & F3) Hal Hu Hfit. set (hb := mk_block cap used base). unfold arena_memory in *.
  assert (Hperm : ar_blocks a ++ hb :: ar_huge a ≡ₚ hb :: ar_blocks a ++ ar_huge a) by (symmetry; apply Permutation_middle).
  assert (Hbok : block_ok hb) by (split; cbn; lia).
  assert (Hap : forall l k (x : Z * Z), regions_apart (l ++ k) -> Forall (sep x) (l ++ k) -> regions_apart (l ++ x :: k)).
  { induction l as [|y l IH]; intros k x Hl Hx; [by split|]. destruct Hl as [Hy Hl]. apply Forall_cons in Hx as [Hxy Hx]. cbn [app regions_apart]. split; [|by apply IH].
    apply Forall_app in Hy as [Hy1 Hy2]. apply Forall_app. split; [done|]. constructor; [|done]. unfold sep in *. tauto. }
  assert (Hm : Forall block_ok (ar_blocks a ++ hb :: ar_huge a)) by (rewrite Hperm; by constructor).
  assert (Ha : regions_apart (region <$> ar_blocks a ++ hb :: ar_huge a)) by (rewrite fmap_app, fmap_cons; rewrite fmap_app in A3, F3; by apply Hap).
  split; unfold arena_memory; cbn [ar_block_size ar_blocks ar_huge field_set]; [done|exact Hm|exact Ha| | |].
  - split; [|done]. apply Forall_forall. intros [q m] Hq. eapply Forall_forall in Hq; [|exact A5]. destruct Hq as (c & Hin & H1 & H2 & H3). cbn [fst snd] in *.
    rewrite Forall_forall in F3. specialize (F3 (region c) ltac:(by apply list_elem_of_fmap_2)). rewrite Forall_forall in A2. destruct (A2 c Hin) as [D1 _ D2 D3 D4]. unfold sep, region in *. cbn [fst snd] in *. lia.
  - constructor; [exists hb; split; [rewrite Hperm; left|cbn; split_and!; lia]|]. eapply inside_mono; [|exact A5]. intros c Hin. exists c. split; [rewrite Hperm; by right|split; [done|lia]].
  - destruct (totals_bound _ Hm Ha) as (T1 & T2 & T3). unfold counters_exact, arena_memory, cetcd_arena_block_count, cetcd_arena_total_allocated, cetcd_arena_total_bytes_used in *.
    cbn [ar_blocks ar_huge ar_block_count ar_total_allocated ar_total_used field_set]. rewrite C1, C2, C3.
    rewrite !fmap_app, !fmap_cons, !zsum_app, !blen_app, !blen_cons in *. unfold zsum in *. cbn [foldr ab_cap ab_used hb] in *.
    pose proof (blen_nonneg (ar_blocks a)). pose proof (blen_nonneg (ar_huge a)).
    assert (Hz : forall l : list arena_block, Forall block_ok l -> 0 <= foldr Z.add 0 (ab_cap <$> l) /\ 0 <= foldr Z.add 0 (ab_used <$> l)).
    { induction 1 as [|b l [] _ IH]; [done|]. rewrite !fmap_cons. cbn. lia. }
    apply Forall_app in A2 as [A2a A2b]. apply Hz in A2a, A2b. unfold u64. rewrite !Z.mod_small by lia. lia.
Qed.

Lemma take_new_ok a given cap base k n : arena_ok a given -> 0 <= k <= 62 -> 0 < n -> n + 2 ^ k <= cap <= 2 ^ 63 -> fresh_region a cap (Some base) ->
  arena_ok (take_head (add_block a cap base) (u64 (align_addr base (2 ^ k) - base) + n)) ((align_addr base (2 ^ k), n) :: given) /\ (2 ^ k | align_addr base (2 ^ k)).
Proof.
  intros Hok Hk Hn Hc Hf. pose proof Hf as (F1 & F2 & _). assert (0 < 2 ^ k) by (apply Z.pow_pos_nonneg; lia). destruct (align_addr_spec k base Hk F1 ltac:(lia)) as [Hr Hd]. split; [|done].
  assert (E : u64 (align_addr base (2 ^ k) - base) = align_addr base (2 ^ k) - base) by (unfold u64; apply Z.mod_small; lia). rewrite E.
  pose proof (take_head_ok (add_block a cap base) given (mk_block cap 0 base) (ar_blocks a) (align_addr base (2 ^ k) - base) n (add_block_ok a given cap base Hok ltac:(lia) Hf) eq_refl ltac:(lia) Hn) as Ht.
  cbn [ab_cap ab_used ab_base] in Ht. replace (align_addr base (2 ^ k)) with (base + 0 + (align_addr base (2 ^ k) - base)) at 2 by lia. apply Ht. lia.
Qed.

Lemma fresh_after_first a cap c0 x y : fresh_region a cap (Some y) -> sep (y, cap) (x, c0) -> fresh_region (add_block a c0 x) cap (Some y).
Proof. intros (F1 & F2 & F3) Hs. split_and!; [done..|]. by constructor. Qed.

(** One allocation: it ends, and memory that is handed out is aligned and joins
    what was handed out before. *)
Lemma arena_alloc_ok a given n align m0 m1 : arena_ok a given -> 0 <= n <= 2 ^ 62 -> 0 <= align <= 2 ^ 62 -> fresh_request a n align m0 m1 ->
  exists a' p, cetcd_arena_alloc_aligned a n align m0 m1 = Ok (a', p) /\
    match p with Some p => arena_ok a' ((p, at_least_one n) :: given) /\ exists k, align <= 2 ^ k /\ (2 ^ k | p) | None => arena_ok a' given end.
Proof.
  intros Hok Hn Hal (Hf0 & Hf1). unfold cetcd_arena_alloc_aligned. fold (at_least_one align) (at_least_one n).
  destruct (round_pow2_spec (at_least_one align)) as (k & Hk & Hkr & Hka); [unfold at_least_one; destruct (Z.eqb_spec align 0); lia|].
  rewrite Hk. cbn [mbind res_bind]. destruct (Hf1 k Hk) as (Hm1 & H01). clear Hf1 Hk.
  assert (Ha : align <= 2 ^ k) by (unfold at_least_one in Hka; destruct (Z.eqb_spec align 0); lia). assert (Hn1 : 0 < at_least_one n <= 2 ^ 62) by (unfold at_least_one; destruct (Z.eqb_spec n 0); lia).
  assert (Hp : 0 < 2 ^ k) by (apply Z.pow_pos_nonneg; lia). assert (Hp62 : 2 ^ k <= 2 ^ 62) by (apply Z.pow_le_mono_r; lia). set (m := at_least_one n) in *. clearbody m. clear Hka.
  assert (Eu : u64 (m + 2 ^ k) = m + 2 ^ k) by (unfold u64; apply Z.mod_small; lia). rewrite Eu. cbv zeta. unfold request_cap in Hm1, H01. pose proof (ao_size _ _ Hok) as Hbs.
  destruct ((CETCD_ARENA_MAX_INLINE <? m) || (ar_block_size a <? m)).
  - destruct m1 as [base|]; [|by exists a, None]. pose proof Hm1 as (F1 & F2 & _). destruct (align_addr_spec k base Hkr F1 ltac:(lia)) as [Hr Hd].
    assert (E : u64 (align_addr base (2 ^ k) - base + m) = align_addr base (2 ^ k) - base + m) by (unfold u64; apply Z.mod_small; lia). rewrite E.
    eexists _, (Some _). split; [reflexivity|]. split; [|by exists k]. apply huge_ok; (done || lia).
  - assert (Hfirst : exists a0, (match ar_blocks a, m0 with [], None => None | [], Some base => Some (add_block a (ar_block_size a) base) | _, _ => Some a end) = a0 /\
      match a0 with Some a0 => arena_ok a0 given /\ ar_block_size a0 = ar_block_size a /\ ar_blocks a0 <> [] /\ fresh_region a0 (Z.max (ar_block_size a) (m + 2 ^ k)) m1 | None => True end).
    { eexists. split; [reflexivity|]. destruct (ar_blocks a) as [|b bs] eqn:Hb; [|by rewrite Hb]. destruct m0 as [x|]; [|done].
      split_and!; [apply add_block_ok; (done || lia)|done|done|]. destruct m1 as [y|]; [|done]. by apply fresh_after_first. }
    destruct Hfirst as (a0 & -> & H0). destruct a0 as [a0|]; [|by exists a, None]. destruct H0 as (Hok0 & Esz & Hne & Hm1'). rewrite Esz.
    destruct (ar_blocks a0) as [|b bs] eqn:Hb; [done|]. assert (Hbok : block_ok b) by (pose proof (ao_blocks _ _ Hok0) as Hall; unfold arena_memory in Hall; rewrite Hb in Hall; by apply Forall_cons in Hall as [? _]).
    destruct (Z.ltb_spec (ab_cap b) (u64 (ab_used b + u64 (align_addr (ab_base b + ab_used b) (2 ^ k) - (ab_base b + ab_used b)) + m))) as [Hfull|Hfit].
    + destruct m1 as [base|]; [|by exists a0, None]. replace (if ar_block_size a <? m + 2 ^ k then m + 2 ^ k else ar_block_size a) with (Z.max (ar_block_size a) (m + 2 ^ k)) by (destruct (Z.ltb_spec (ar_block_size a) (m + 2 ^ k)); lia).
      destruct (take_new_ok a0 given (Z.max (ar_block_size a) (m + 2 ^ k)) base k m Hok0 Hkr ltac:(lia) ltac:(lia) Hm1') as [Ht Hd]. eexists _, (Some _). split; [reflexivity|]. split; [done|by exists k].
    + destruct (padding_spec k b m Hkr Hbok Hn1 Hfit) as (P0 & P1 & P2 & P3). eexists _, (Some _). split; [reflexivity|]. split; [|by exists k].
      pose proof (take_head_ok a0 given b bs _ m Hok0 Hb P0 ltac:(lia) P2) as Ht. by rewrite <- P1 in Ht.
Qed.

(** The runs of an arena; the list holds what was handed out since the last
    reset. *)
Inductive arena_run (block_size : Z) : cetcd_arena -> list (Z * Z) -> Prop :=
| arun_new : arena_run block_size (cetcd_arena_new block_size) []
| arun_alloc a given n align m0 m1 a' p : arena_run block_size a given -> 0 <= n <= 2 ^ 62 -> 0 <= align <= 2 ^ 62 -> fresh_request a n align m0 m1 ->
    cetcd_arena_alloc_aligned a n align m0 m1 = Ok (a', Some p) -> arena_run block_size a' ((p, at_least_one n) :: given)
| arun_fail a given n align m0 m1 a' : arena_run block_size a given -> 0 <= n <= 2 ^ 62 -> 0 <= align <= 2 ^ 62 -> fresh_request a n align m0 m1 ->
    cetcd_arena_alloc_aligned a n align m0 m1 = Ok (a', None) -> arena_run block_size a' given
| arun_reset a given : arena_run block_size a given -> arena_run block_size (cetcd_arena_reset a) [].

(** Dropping blocks takes them off the counters. *)
Lemma drop_blocks_exact l total count : Forall block_ok l -> 0 <= total -> 0 <= count ->
  foldl drop_block (zsum (ab_cap <$> l) + total, blen l + count) l = (total, count).
Proof.
  intros Hl Ht Hc. induction Hl as [|b l [] Hl IH]; [done|]. rewrite fmap_cons, blen_cons. cbn [foldl]. unfold drop_block at 2. cbn [fst snd].
  assert (0 <= zsum (ab_cap <$> l)) by (clear IH; induction Hl as [|x l [] _ IH]; [done|]; rewrite fmap_cons; unfold zsum in *; cbn; lia).
  pose proof (blen_nonneg l). unfold zsum in *. cbn [foldr] in *. rewrite (proj2 (Z.leb_le _ _)), (proj2 (Z.ltb_lt _ _)) by lia.
  rewrite <- IH. f_equal. f_equal; lia.
Qed.

Lemma reset_ok a given : arena_ok a given -> arena_ok (cetcd_arena_reset a) [].
Proof.
  intros [A1 A2 A3 _ _ (C1 & C2 & C3)]. unfold cetcd_arena_reset, arena_memory, cetcd_arena_block_count, cetcd_arena_total_allocated, cetcd_arena_total_bytes_used in *. rewrite C1, C2.
  destruct (ar_blocks a) as [|b bs]; cbn [drop take app] in *.
  - pose proof (drop_blocks_exact (ar_huge a) 0 0 A2 ltac:(lia) ltac:(lia)) as Hd. rewrite !Z.add_0_r in Hd. rewrite Hd. split; cbn; done.
  - apply Forall_cons in A2 as [[B1 B0 B2 B3 B4] A2]. rewrite fmap_cons, blen_cons in *. unfold zsum in *. cbn [foldr].
    rewrite (Z.add_comm (ab_cap b)), (Z.add_comm 1). pose proof (drop_blocks_exact (bs ++ ar_huge a) (ab_cap b) 1 A2 ltac:(lia) ltac:(lia)) as Hd. unfold zsum in Hd. rewrite drop_0, Hd.
    split; cbn; [done| |by split|done|done|]; [repeat constructor; cbn; lia|]. unfold counters_exact, zsum. split_and!; cbn; [by rewrite take_0|rewrite take_0; cbn; lia|by rewrite take_0].
Qed.

Lemma run_arena_ok block_size a given : 0 <= block_size <= 2 ^ 62 -> arena_run block_size a given -> arena_ok a given.
Proof.
  intros Hb. induction 1 as [|a given n align m0 m1 a' p _ IH Hn Hal Hf Ha|a given n align m0 m1 a' _ IH Hn Hal Hf Ha|a given _ IH].
  - split; cbn; try done. destruct (Z.eqb_spec block_size 0); unfold CETCD_ARENA_DEFAULT_BLOCK; lia.
  - destruct (arena_alloc_ok a given n align m0 m1 IH Hn Hal Hf) as (a1 & p1 & Ha1 & Hp). rewrite Ha in Ha1. injection Ha1 as <- <-. by destruct Hp.
  - destruct (arena_alloc_ok a given n align m0 m1 IH Hn Hal Hf) as (a1 & p1 & Ha1 & Hp). rewrite Ha in Ha1. by injection Ha1 as <- <-.
  - by eapply reset_ok.
Qed.

(** The arena is safe.  After any sequence of allocations, each of which may
    fail, and resets, the memory handed out since the last reset consists of
    pairwise disjoint regions inside the used part of blocks obtained from the
    system; and a further allocation ends and returns an aligned address. *)
Lemma arena_safe (block_size : Z) (a : cetcd_arena) (given : list (Z * Z)) : 0 <= block_size <= 2 ^ 62 -> arena_run block_size a given ->
  counters_exact a /\ regions_apart given /\
  Forall (fun x : Z * Z => exists b, b ∈ arena_memory a /\ ab_base b <= x.1 /\ x.1 + x.2 <= ab_base b + ab_used b /\ ab_used b <= ab_cap b) given /\
  (forall n align m0 m1, 0 <= n <= 2 ^ 62 -> 0 <= align <= 2 ^ 62 -> fresh_request a n align m0 m1 ->
     exists a' p, cetcd_arena_alloc_aligned a n align m0 m1 = Ok (a', p) /\ match p with Some p => exists k, align <= 2 ^ k /\ (2 ^ k | p) | None => True end).
Proof.
  intros Hb Hrun. pose proof (run_arena_ok _ _ _ Hb Hrun) as Hok. split_and!; [apply Hok|apply Hok| |].
  - pose proof (ao_inside _ _ Hok) as Hin. pose proof (ao_blocks _ _ Hok) as Hbl. eapply Forall_impl; [exact Hin|]. intros x (b & Hm & _ & H1 & H2). exists b.
    eapply Forall_forall in Hbl as [_ _ B _ _]; [|exact Hm]. split_and!; (done || lia).
  - intros n align m0 m1 Hn Hal Hf. destruct (arena_alloc_ok a given n align m0 m1 Hok Hn Hal Hf) as (a' & p & Ha & Hp). exists a', p. split; [done|]. destruct p; [by destruct Hp|done].
Qed.


(** ** Concrete runs *)

Definition arena_once : cetcd_arena := Eval vm_compute in mk_arena [mk_block 4096 17 1001] [] 4096 4096 17 1.


(** A request near the end of the range wraps: four bytes are obtained from the
    system for it, and the address is returned. *)
Theorem arena_size_wraps :
  exists a, cetcd_arena_alloc (cetcd_arena_new 0) (2 ^ 64 - 4) None (Some 4096) = Ok (a, Some 4096) /\ ab_cap <$> ar_huge a = [4].
Proof. eexists. split; vm_compute; reflexivity. Qed.

(** The size of an object is rounded up with an addition that wraps: objects of
    the largest size get no memory at all. *)
Theorem slab_size_wraps : (sl_obj_size <$> cetcd_slab_new (2 ^ 64 - 1) 1) = Some 0.
Proof. vm_compute. reflexivity. Qed.
