(* ===== verification/Jwt.v ===== *)
(** * Signed tokens (src/auth/auth.c)

    Base64url, the claims of a token, signing and checking, and the option that
    selects the method.  OpenSSL is the class [JwtLibs]; a key is a number, 0 for
    none.  [jwt_issue_] and [jwt_user_for_] are the arguments of the operations
    of Auth.v that dispatch on the method. *)

From Stdlib Require Import String.
From S2P Require Import Hashmap CString Config Auth Pb Snap Prelude.

#[local] Open Scope Z_scope.

(** ** Searching *)

(** What follows the first occurrence of [pat]. *)
Fixpoint find_at (pat l : bytes) : option bytes :=
  if bool_decide (take (length pat) l = pat) then Some (drop (length pat) l)
  else match l with [] => None | _ :: l => find_at pat l end.

Definition find_bytes_ (hay needle : bytes) : bool :=
  if (blen needle =? 0) || (blen hay <? blen needle) then false
  else match find_at needle hay with Some _ => true | None => false end.

(** ** Base64url *)

Definition b64url_ : bytes := bytes_of_string "ABCDEFGHIJKLMNOPQRSTUVWXYZabcdefghijklmnopqrstuvwxyz0123456789-_".
Definition b64url_char (v shift : Z) : Z := nth (Z.to_nat (Z.land (Z.shiftr v shift) 63)) b64url_ 0.

(** The loop over groups of three bytes; [None] when the buffer is too small. *)
Fixpoint b64url_loop (cap : Z) (out inp : bytes) : option bytes :=
  match inp with
  | [] => Some out
  | a :: rest =>
      if cap <? blen out + 2 then None
      else
        match rest with
        | [] => let v := Z.shiftl a 16 in Some (out ++ [b64url_char v 18; b64url_char v 12])
        | b :: rest =>
            let v := Z.lor (Z.shiftl a 16) (Z.shiftl b 8) in
            if cap <? blen out + 2 + 1 then None
            else
              match rest with
              | [] => Some (out ++ [b64url_char v 18; b64url_char v 12; b64url_char v 6])
              | c :: rest =>
                  let v := Z.lor v c in
                  if cap <? blen out + 3 + 1 then None
                  else b64url_loop cap (out ++ [b64url_char v 18; b64url_char v 12; b64url_char v 6; b64url_char v 0]) rest
              end
        end
  end.

(** The text; the terminator follows it unless it fills the buffer.  A failure
    is the empty text. *)
Definition b64url_encode_ (inp : bytes) (cap : Z) : bytes := default [] (b64url_loop cap [] inp).

Definition b64url_val_ (c : Z) : Z :=
  if (65 <=? c) && (c <=? 90) then c - 65
  else if (97 <=? c) && (c <=? 122) then c - 97 + 26
  else if (48 <=? c) && (c <=? 57) then c - 48 + 52
  else if (c =? 45) || (c =? 43) then 62
  else if (c =? 95) || (c =? 47) then 63
  else -1.

(** The bytes of a group; -2 stands for a missing character. *)
Definition b64url_group (cap : Z) (out : bytes) (a b c d : Z) : option bytes :=
  if (a <? 0) || (b <? 0) then None
  else if cap <=? blen out then None
  else
    let out := out ++ [u8 (Z.lor (Z.shiftl a 2) (Z.shiftr b 4))] in
    out ← (if 0 <=? c then if cap <=? blen out then None else Some (out ++ [u8 (Z.lor (Z.shiftl (Z.land b 15) 4) (Z.shiftr c 2))]) else Some out);
    if 0 <=? d then if cap <=? blen out then None else Some (out ++ [u8 (Z.lor (Z.shiftl (Z.land c 3) 6) d)]) else Some out.

Fixpoint b64url_groups (cap : Z) (out inp : bytes) : option bytes :=
  match inp with
  | [] => Some out
  | [x] => b64url_group cap out (b64url_val_ x) 0 (-2) (-2)
  | [x; y] => b64url_group cap out (b64url_val_ x) (b64url_val_ y) (-2) (-2)
  | [x; y; z] => b64url_group cap out (b64url_val_ x) (b64url_val_ y) (b64url_val_ z) (-2)
  | x :: y :: z :: w :: inp =>
      out ← b64url_group cap out (b64url_val_ x) (b64url_val_ y) (b64url_val_ z) (b64url_val_ w);
      b64url_groups cap out inp
  end.

(** [while (n > 0 && in[n - 1] == '=') n--] *)
Fixpoint strip_padding (inp : bytes) : bytes :=
  match inp with
  | [] => []
  | c :: inp => match strip_padding inp with [] => if c =? 61 then [] else [c] | l => c :: l end
  end.

Definition b64url_decode_ (inp : bytes) (cap : Z) : option bytes := b64url_groups cap [] (strip_padding inp).

(** ** Libraries *)

(** HMAC with SHA-256 ([None] for a null result), signing and checking with a
    private key, the conversion between the DER form of an ECDSA signature and
    its two numbers, numbers as 32 bytes, the content of a file ([None] when it
    cannot be read), and the private key in a PEM file with its kind and size. *)
Class JwtLibs : Type := {
  HMAC : bytes -> bytes -> option bytes;
  EVP_DigestSign : Z -> bytes -> option bytes;
  EVP_DigestVerify : Z -> bytes -> bytes -> bool;
  d2i_ECDSA_SIG : bytes -> option (Z * Z);
  i2d_ECDSA_SIG : Z * Z -> option bytes;
  BN_bn2binpad : Z -> option bytes;
  BN_bin2bn : bytes -> option Z;
  file_content : bytes -> option bytes;
  PEM_private_key : bytes -> option Z;
  EVP_PKEY_is_a : Z -> string -> bool;
  EVP_PKEY_get_bits : Z -> Z
}.

Section Jwt.
  Context `{!JwtLibs}.

Definition read_whole_file_ (path : bytes) : cetcd_status * bytes :=
  match file_content path with
  | None => (CETCD_ERR_IO, [])
  | Some content => if (blen content <=? 0) || (65536 <? blen content) then (CETCD_ERR_INVAL, []) else (CETCD_OK, content)
  end.

(** ** Signatures *)

Definition jwt_hmac_ (s : cetcd_auth_store) (data : bytes) : option bytes :=
  if blen (a_jwt_key s) =? 0 then None
  else mac ← HMAC (a_jwt_key s) data; if blen mac =? 32 then Some mac else None.

(** All bytes are compared, whatever they are. *)
Definition jwt_ct_eq_ (a b : bytes) (n : nat) : bool :=
  foldl (fun d '(x, y) => Z.lor d (u8 (Z.lxor x y))) 0 (zip (take n a) (take n b)) =? 0.

Definition jwt_digest_sign_ (pkey : Z) (data : bytes) : option bytes :=
  if pkey =? 0 then None else EVP_DigestSign pkey data.

Definition jwt_digest_verify_ (pkey : Z) (data sig : bytes) : bool :=
  if pkey =? 0 then false else EVP_DigestVerify pkey sig data.

Definition ecdsa_der_to_raw_ (der : bytes) : option bytes :=
  '(r, s) ← d2i_ECDSA_SIG der;
  r ← BN_bn2binpad r;
  s ← BN_bn2binpad s;
  Some (r ++ s).

Definition ecdsa_raw_to_der_ (raw : bytes) : option bytes :=
  r ← BN_bin2bn (take 32 raw);
  s ← BN_bin2bn (take 32 (drop 32 raw));
  i2d_ECDSA_SIG (r, s).

Definition jwt_alg_name_ (alg : jwt_alg) : option bytes :=
  match alg with
  | CETCD_JWT_HS256 => Some (bytes_of_string "HS256")
  | CETCD_JWT_RS256 => Some (bytes_of_string "RS256")
  | CETCD_JWT_ES256 => Some (bytes_of_string "ES256")
  | CETCD_JWT_NONE => None
  end.

Definition jwt_sign_ (s : cetcd_auth_store) (data : bytes) : option bytes :=
  match a_jwt_alg s with
  | CETCD_JWT_HS256 => jwt_hmac_ s data
  | CETCD_JWT_ES256 => sig ← jwt_digest_sign_ (a_jwt_pkey s) data; ecdsa_der_to_raw_ sig
  | _ => jwt_digest_sign_ (a_jwt_pkey s) data
  end.

Definition jwt_verify_ (s : cetcd_auth_store) (data sig : bytes) : bool :=
  match a_jwt_alg s with
  | CETCD_JWT_HS256 =>
      if negb (blen sig =? 32) then false
      else match jwt_hmac_ s data with Some expect => jwt_ct_eq_ sig expect 32 | None => false end
  | CETCD_JWT_ES256 =>
      if negb (blen sig =? 64) then false
      else match ecdsa_raw_to_der_ sig with Some der => jwt_digest_verify_ (a_jwt_pkey s) data der | None => false end
  | _ => jwt_digest_verify_ (a_jwt_pkey s) data sig
  end.

(** ** Claims *)

(** The characters up to the closing quote. *)
Fixpoint claim_text (cap : Z) (out hit : bytes) : option bytes :=
  match hit with
  | [] => None
  | c :: hit =>
      if c =? 34 then Some out
      else if (c =? 92) || (c <? 32) then None
      else if cap <=? blen out + 1 then None
      else claim_text cap (out ++ [c]) hit
  end.

Definition jwt_claim_str_ (json : bytes) (key : string) (cap : Z) : option bytes :=
  let pat := [34] ++ bytes_of_string key ++ [34; 58; 34] in
  if 80 <=? blen pat then None
  else hit ← find_at pat json; claim_text cap [] hit.

Definition jwt_claim_u64_ (json : bytes) (key : string) : option Z :=
  let pat := [34] ++ bytes_of_string key ++ [34; 58] in
  if 80 <=? blen pat then None
  else
    hit ← find_at pat json;
    match hit with
    | c :: _ => if isdigit c then fst <$> duration_digits 0 hit else None
    | [] => None
    end.

(** ** Issuing and checking *)

Definition CETCD_AUTH_MAX_TOKEN_LEN : Z := 2048.
Definition CETCD_AUTH_JWT_DEFAULT_TTL_NS : Z := 300 * 1000000000.

Definition jwt_header (alg : bytes) : bytes :=
  bytes_of_string "{" ++ [34] ++ bytes_of_string "alg" ++ [34; 58; 34] ++ alg ++ [34; 44; 34] ++ bytes_of_string "typ" ++ [34; 58; 34] ++ bytes_of_string "JWT" ++ [34] ++ bytes_of_string "}".

Definition jwt_payload (username : bytes) (seq exp : Z) : bytes :=
  bytes_of_string "{" ++ [34] ++ bytes_of_string "username" ++ [34; 58; 34] ++ username ++ [34; 44; 34] ++ bytes_of_string "revision" ++ [34; 58] ++ decimal seq ++
  [44; 34] ++ bytes_of_string "exp" ++ [34; 58] ++ decimal exp ++ bytes_of_string "}".

(** The second the token expires. *)
Definition jwt_expiry (s : cetcd_auth_store) (now_ns : Z) : Z :=
  let ttl := if a_token_ttl_ns s =? 0 then CETCD_AUTH_JWT_DEFAULT_TTL_NS else a_token_ttl_ns s in
  let exp := u64 (now_ns / 1000000000 + ttl / 1000000000) in
  if ttl / 1000000000 =? 0 then u64 (exp + 1) else exp.

(** A text without terminator is copied with the byte behind its buffer. *)
Definition jwt_token (s : cetcd_auth_store) (signing : bytes) : res (option bytes) :=
  match jwt_sign_ s signing with
  | None => Ok None
  | Some sig =>
      let sb := b64url_encode_ sig 1024 in
      if blen sb =? 0 then Ok None
      else
        let tok_len := blen signing + 1 + blen sb in
        if CETCD_AUTH_MAX_TOKEN_LEN <=? tok_len then Ok None
        else if 1024 <=? blen sb then Undef
        else Ok (Some (signing ++ [46] ++ sb))
  end.

Definition jwt_issue_ (now_ns : Z) (s : cetcd_auth_store) (username : bytes) : res (cetcd_auth_store * option bytes) :=
  match jwt_alg_name_ (a_jwt_alg s) with
  | None => Ok (s, None)
  | Some alg =>
      if bool_decide (34 ∈ username) || bool_decide (92 ∈ username) then Ok (s, None)
      else
        let hdr := jwt_header alg in
        if 48 <=? blen hdr then Ok (s, None)
        else
          let exp := jwt_expiry s now_ns in
          let s := s <| a_token_seq := u64 (a_token_seq s + 1) |> in
          let payload := jwt_payload username (a_token_seq s) exp in
          if 256 <=? blen payload then Ok (s, None)
          else
            let hb := b64url_encode_ hdr 64 in
            let pb := b64url_encode_ payload 400 in
            if (blen hb =? 0) || (blen pb =? 0) then Ok (s, None)
            else
              let signing := hb ++ [46] ++ pb in
              if 512 <=? blen signing then Ok (s, None)
              else tok ← jwt_token s signing; Ok (s, tok)
  end.

(** The form in which Auth.v takes it. *)
Definition jwt_issue (now_ns : Z) (s : cetcd_auth_store) (username : bytes) : cetcd_auth_store * option bytes :=
  match jwt_issue_ now_ns s username with Ok r => r | _ => (s, None) end.

(** The text before and after the first dot. *)
Definition split_dot (s : bytes) : option (bytes * bytes) := (fun i => (take i s, drop (S i) s)) <$> strchr s 46.

(** Header, payload and signature of a token, as texts. *)
Definition token_parts (token : bytes) : option (bytes * bytes * bytes) :=
  '(h, rest) ← split_dot token;
  '(p, g) ← split_dot rest;
  match strchr g 46 with Some _ => None | None => if (blen h =? 0) || (blen p =? 0) || (blen g =? 0) then None else Some (h, p, g) end.

Definition jwt_claimed (s : cetcd_auth_store) (token : bytes) (now_ns : Z) : option bytes :=
  alg ← jwt_alg_name_ (a_jwt_alg s);
  '(h, p, g) ← token_parts token;
  hdr ← b64url_decode_ h 127;
  pay ← b64url_decode_ p 511;
  mac ← b64url_decode_ g 1024;
  if negb (find_bytes_ hdr alg) || find_bytes_ hdr ([34] ++ bytes_of_string "none" ++ [34]) then None
  else if negb (jwt_verify_ s (h ++ [46] ++ p) mac) then None
  else
    user ← jwt_claim_str_ pay "username" 128;
    _ ← jwt_claim_u64_ pay "revision";
    exp ← jwt_claim_u64_ pay "exp";
    if exp <=? now_ns / 1000000000 then None
    else match cetcd_find_user s user with Some _ => Some user | None => None end.

(** The name is left in the store for the caller. *)
Definition jwt_user_for_ (s : cetcd_auth_store) (token : bytes) (now_ns : Z) : cetcd_auth_store * option bytes :=
  match jwt_claimed s token now_ns with
  | Some user => (s <| a_jwt_user := take 127 user |>, Some (take 127 user))
  | None => (s, None)
  end.

(** ** The option --auth-token *)

Definition jwt_apply_spec_ (s : cetcd_auth_store) (sign_method priv_key ttl : option bytes) : cetcd_auth_store * cetcd_status :=
  match sign_method with
  | None | Some [] => (s, CETCD_ERR_INVAL)
  | Some m =>
      match find (fun '(name, _) => streq m (bytes_of_string name))
              [("HS256"%string, CETCD_JWT_HS256); ("RS256"%string, CETCD_JWT_RS256); ("ES256"%string, CETCD_JWT_ES256)] with
      | None => (s, CETCD_ERR_UNSUPPORT)
      | Some (_, alg) =>
          match priv_key with
          | None | Some [] => (s, CETCD_ERR_INVAL)
          | Some path =>
              let ttl_ns := match ttl with
                            | None | Some [] => Some CETCD_AUTH_JWT_DEFAULT_TTL_NS
                            | Some t => ns ← parse_go_duration_ns_ t; if ns =? 0 then None else Some ns
                            end in
              match ttl_ns with
              | None => (s, CETCD_ERR_INVAL)
              | Some ns =>
                  let s := s <| a_token_ttl_ns := ns |> in
                  if bool_decide (alg = CETCD_JWT_HS256) then
                    let '(rc, key) := read_whole_file_ path in
                    if negb (is_ok rc) then (s, rc)
                    else (s <| a_jwt_key := key |> <| a_jwt_pkey := 0 |> <| a_jwt_alg := alg |>, CETCD_OK)
                  else
                    match file_content path with
                    | None => (s, CETCD_ERR_IO)
                    | Some pem =>
                        match PEM_private_key pem with
                        | None => (s, CETCD_ERR_INVAL)
                        | Some pk =>
                            if bool_decide (alg = CETCD_JWT_RS256) && negb (EVP_PKEY_is_a pk "RSA") then (s, CETCD_ERR_INVAL)
                            else if bool_decide (alg = CETCD_JWT_ES256) && (negb (EVP_PKEY_is_a pk "EC") || negb (EVP_PKEY_get_bits pk =? 256)) then (s, CETCD_ERR_INVAL)
                            else (s <| a_jwt_key := [] |> <| a_jwt_pkey := pk |> <| a_jwt_alg := alg |>, CETCD_OK)
                        end
                    end
              end
          end
      end
  end.

(** The options after the first comma: each has a name and a value; [None] for
    one that is not known. *)
Fixpoint token_options (acc : option bytes * option bytes * option bytes) (segs : list bytes) : option (option bytes * option bytes * option bytes) :=
  match segs with
  | [] | [[]] => Some acc
  | seg :: segs =>
      match strchr seg 61 with
      | None | Some O => None
      | Some eq =>
          let k := take eq seg in
          let v := drop (S eq) seg in
          let '(sign_method, priv_key, ttl) := acc in
          if streq k (bytes_of_string "sign-method") then token_options (Some v, priv_key, ttl) segs
          else if streq k (bytes_of_string "priv-key") then token_options (sign_method, Some v, ttl) segs
          else if streq k (bytes_of_string "ttl") then token_options (sign_method, priv_key, Some v) segs
          else if streq k (bytes_of_string "pub-key") then token_options acc segs
          else None
      end
  end.

(** The texts between the commas of an option. *)
Fixpoint spec_parts (s : bytes) : list bytes :=
  match s with
  | [] => [[]]
  | c :: s => if c =? 44 then [] :: spec_parts s else match spec_parts s with seg :: segs => (c :: seg) :: segs | [] => [[c]] end
  end.

Definition cetcd_auth_set_token_spec (s : cetcd_auth_store) (spec : bytes) : cetcd_auth_store * cetcd_status :=
  if (blen spec =? 0) || streq spec (bytes_of_string "simple") then (s, CETCD_OK)
  else if streq (take 7 spec) (bytes_of_string "simple,") then (s, CETCD_OK)
  else if negb (streq (take 3 spec) (bytes_of_string "jwt")) || negb (bool_decide (drop 3 spec = []) || (nth 3 spec 0 =? 44)) then (s, CETCD_ERR_INVAL)
  else if 512 <=? blen spec then (s, CETCD_ERR_INVAL)
  else
    match token_options (None, None, None) (drop 1 (spec_parts spec)) with
    | None => (s, CETCD_ERR_INVAL)
    | Some (sign_method, priv_key, ttl) => jwt_apply_spec_ s sign_method priv_key ttl
    end.

End Jwt.
