(* ===== verification/JwtProps.v ===== *)
(** * Signed tokens: correctness

    Base64url texts decode to what was encoded, a signed token is checked with
    the key it was made with, and its claims are read back.  Runs on which the
    code does not do what it means to do are at the end. *)

From Stdlib Require Import String.
From S2P Require Import Hashmap CString Config ConfigProps Auth AuthProps Pb Snap Jwt Prelude.

#[local] Open Scope Z_scope.

(** ** Base64url *)

(** The text of a byte string. *)
Fixpoint b64 (inp : bytes) : bytes :=
  match inp with
  | [] => []
  | [a] => let v := Z.shiftl a 16 in [b64url_char v 18; b64url_char v 12]
  | [a; b] => let v := Z.lor (Z.shiftl a 16) (Z.shiftl b 8) in [b64url_char v 18; b64url_char v 12; b64url_char v 6]
  | a :: b :: c :: inp =>
      let v := Z.lor (Z.lor (Z.shiftl a 16) (Z.shiftl b 8)) c in
      [b64url_char v 18; b64url_char v 12; b64url_char v 6; b64url_char v 0] ++ b64 inp
  end.

(** Induction in steps of three. *)
Lemma three_ind {A} (P : list A -> Prop) : P [] -> (forall a, P [a]) -> (forall a b, P [a; b]) -> (forall a b c l, P l -> P (a :: b :: c :: l)) -> forall l, P l.
Proof.
  intros H0 H1 H2 H3 l. remember (length l) as n eqn:Hn. revert l Hn. induction (lt_wf n) as [n _ IH]. intros l ->.
  destruct l as [|a [|b [|c l]]]; [done..|]. apply H3. eapply IH; [|reflexivity]. cbn. lia.
Qed.

Lemma b64_blen l : blen l <= blen (b64 l) /\ 3 * blen (b64 l) <= 4 * blen l + 2.
Proof.
  induction l as [|a|a b|a b c l IH] using three_ind; [done..|]. cbn [b64]. rewrite !blen_cons, blen_app. change (blen [_; _; _; _]) with 4. lia.
Qed.

Lemma b64url_loop_spec inp : forall cap out, blen out + blen (b64 inp) <= cap -> b64url_loop cap out inp = Some (out ++ b64 inp).
Proof.
  induction inp as [|a|a b|a b c l IH] using three_ind; intros cap out Hc; cbn [b64url_loop b64] in *.
  - by rewrite app_nil_r.
  - change (blen [_; _]) with 2 in Hc. by rewrite (proj2 (Z.ltb_ge _ _)) by lia.
  - change (blen [_; _; _]) with 3 in Hc. by rewrite !(proj2 (Z.ltb_ge _ _)) by lia.
  - rewrite blen_app in Hc. change (blen [_; _; _; _]) with 4 in Hc. pose proof (blen_nonneg (b64 l)).
    rewrite !(proj2 (Z.ltb_ge _ _)) by lia. rewrite IH by (rewrite blen_app; change (blen [_; _; _; _]) with 4; lia). by rewrite <- app_assoc.
Qed.

Lemma b64url_encode_spec inp cap : blen (b64 inp) <= cap -> b64url_encode_ inp cap = b64 inp.
Proof. intros Hc. unfold b64url_encode_. rewrite b64url_loop_spec; [done|]. change (blen (@nil Z)) with 0. lia. Qed.

(** The 64 characters. *)
Lemma alphabet i : 0 <= i < 64 -> b64url_val_ (nth (Z.to_nat i) b64url_ 0) = i /\ nth (Z.to_nat i) b64url_ 0 <> 61 /\ nth (Z.to_nat i) b64url_ 0 <> 46.
Proof.
  intros Hi. assert (Hall : forallb (fun n => (b64url_val_ (nth n b64url_ 0) =? Z.of_nat n) && negb (nth n b64url_ 0 =? 61) && negb (nth n b64url_ 0 =? 46)) (seq 0 64) = true) by (vm_compute; reflexivity).
  rewrite forallb_forall in Hall. specialize (Hall (Z.to_nat i) ltac:(apply in_seq; lia)).
  apply andb_true_iff in Hall as [Hall H46]. apply andb_true_iff in Hall as [Hv H61]. apply negb_true_iff in H61, H46.
  apply Z.eqb_eq in Hv. apply Z.eqb_neq in H61, H46. split_and!; [lia|done..].
Qed.

Definition sextet (v shift : Z) : Z := v / 2 ^ shift mod 64.

Lemma char_alphabet v shift : 0 <= shift -> b64url_val_ (b64url_char v shift) = sextet v shift /\ b64url_char v shift <> 61 /\ b64url_char v shift <> 46.
Proof.
  intros Hs. unfold b64url_char. change 63 with (Z.ones 6). rewrite Z.land_ones, Z.shiftr_div_pow2 by lia. change (2 ^ 6) with 64.
  apply alphabet. apply Z.mod_pos_bound. lia.
Qed.

(** A group of three bytes as one number. *)
Lemma pack a b c : in_u8 a -> in_u8 b -> in_u8 c ->
  Z.shiftl a 16 = a * 65536 /\ Z.lor (Z.shiftl a 16) (Z.shiftl b 8) = a * 65536 + b * 256 /\
  Z.lor (Z.lor (Z.shiftl a 16) (Z.shiftl b 8)) c = a * 65536 + b * 256 + c.
Proof.
  intros Ha Hb Hc. unfold in_u8 in *. assert (E1 : Z.shiftl a 16 = a * 65536) by (rewrite Z.shiftl_mul_pow2 by lia; done).
  assert (E2 : Z.lor (Z.shiftl a 16) (Z.shiftl b 8) = a * 65536 + b * 256).
  { replace (Z.shiftl a 16) with (Z.shiftl (a * 256) 8) by (rewrite !Z.shiftl_mul_pow2 by lia; change (2 ^ 8) with 256; change (2 ^ 16) with 65536; lia).
    rewrite <- Z.shiftl_lor, Z.lor_comm. replace (a * 256) with (Z.shiftl a 8) by (rewrite Z.shiftl_mul_pow2 by lia; done).
    rewrite lor_shiftl_add by (change (2 ^ 8) with 256; lia). rewrite Z.shiftl_mul_pow2 by lia. change (2 ^ 8) with 256. lia. }
  split_and!; [done|done|]. rewrite E2, Z.lor_comm. replace (a * 65536 + b * 256) with (Z.shiftl (a * 256 + b) 8) by (rewrite Z.shiftl_mul_pow2 by lia; change (2 ^ 8) with 256; lia).
  rewrite lor_shiftl_add, Z.shiftl_mul_pow2 by (change (2 ^ 8) with 256; lia). change (2 ^ 8) with 256. lia.
Qed.

(** Linear arithmetic with quotients and remainders by constants. *)
Ltac dlia := unfold in_u8 in *; Z.div_mod_to_equations; lia.

Lemma unpack1 x y : 0 <= x < 64 -> 0 <= y < 64 -> u8 (Z.lor (Z.shiftl x 2) (Z.shiftr y 4)) = x * 4 + y / 16.
Proof.
  intros Hx Hy. rewrite Z.lor_comm, Z.shiftr_div_pow2 by dlia. change (2 ^ 4) with 16. rewrite lor_shiftl_add by (change (2 ^ 2) with 4; dlia). change (2 ^ 2) with 4. unfold u8. rewrite Z.mod_small by dlia. dlia.
Qed.
Lemma unpack2 x y : 0 <= x < 64 -> 0 <= y < 64 -> u8 (Z.lor (Z.shiftl (Z.land x 15) 4) (Z.shiftr y 2)) = x mod 16 * 16 + y / 4.
Proof.
  intros Hx Hy. change 15 with (Z.ones 4). rewrite Z.land_ones, Z.lor_comm, Z.shiftr_div_pow2 by dlia. change (2 ^ 2) with 4. rewrite lor_shiftl_add by (change (2 ^ 4) with 16; dlia). change (2 ^ 4) with 16. unfold u8. rewrite Z.mod_small by dlia. dlia.
Qed.
Lemma unpack3 x y : 0 <= x < 64 -> 0 <= y < 64 -> u8 (Z.lor (Z.shiftl (Z.land x 3) 6) y) = x mod 4 * 64 + y.
Proof.
  intros Hx Hy. change 3 with (Z.ones 2). rewrite Z.land_ones, Z.lor_comm by dlia. change (2 ^ 2) with 4. rewrite lor_shiftl_add by (change (2 ^ 6) with 64; dlia). change (2 ^ 6) with 64. unfold u8. rewrite Z.mod_small by dlia. dlia.
Qed.

Lemma sextets a b c (v := a * 65536 + b * 256 + c) : in_u8 a -> in_u8 b -> in_u8 c ->
  sextet v 18 = a / 4 /\ sextet v 12 = a mod 4 * 16 + b / 16 /\ sextet v 6 = b mod 16 * 4 + c / 64 /\ sextet v 0 = c mod 64.
Proof.
  unfold in_u8, sextet. intros Ha Hb Hc. subst v. change (2 ^ 18) with 262144. change (2 ^ 12) with 4096. change (2 ^ 6) with 64. change (2 ^ 0) with 1. split_and!; dlia.
Qed.

(** One group decodes to its bytes. *)
Lemma group3 cap out a b c : in_u8 a -> in_u8 b -> in_u8 c -> blen out + 3 <= cap ->
  b64url_group cap out (a / 4) (a mod 4 * 16 + b / 16) (b mod 16 * 4 + c / 64) (c mod 64) = Some (out ++ [a; b; c]).
Proof.
  intros Ha Hb Hc Hcap. unfold in_u8 in *. unfold b64url_group.
  rewrite !(proj2 (Z.ltb_ge _ 0)) by dlia. cbn [orb]. rewrite (proj2 (Z.leb_gt cap (blen out))) by dlia. rewrite !(proj2 (Z.leb_le 0 _)) by dlia.
  rewrite (proj2 (Z.leb_gt cap _)) by (rewrite blen_app; change (blen [_]) with 1; dlia). cbn [mbind option_bind].
  rewrite (proj2 (Z.leb_gt cap _)) by (rewrite !blen_app; change (blen [_]) with 1; dlia).
  rewrite unpack1, unpack2, unpack3 by dlia. rewrite <- !app_assoc. cbn [app]. do 2 f_equal. f_equal; [dlia|f_equal; [dlia|f_equal; dlia]].
Qed.

Lemma group2 cap out a b : in_u8 a -> in_u8 b -> blen out + 2 <= cap ->
  b64url_group cap out (a / 4) (a mod 4 * 16 + b / 16) (b mod 16 * 4) (-2) = Some (out ++ [a; b]).
Proof.
  intros Ha Hb Hcap. unfold in_u8 in *. unfold b64url_group.
  rewrite !(proj2 (Z.ltb_ge _ 0)) by dlia. cbn [orb]. rewrite (proj2 (Z.leb_gt cap (blen out))) by dlia. rewrite (proj2 (Z.leb_le 0 (b mod 16 * 4))) by dlia.
  rewrite (proj2 (Z.leb_gt cap _)) by (rewrite blen_app; change (blen [_]) with 1; dlia). cbn [mbind option_bind Z.leb Z.compare].
  rewrite unpack1, unpack2 by dlia. rewrite <- !app_assoc. cbn [app]. do 2 f_equal. f_equal; [dlia|f_equal; dlia].
Qed.

Lemma group1 cap out a : in_u8 a -> blen out + 1 <= cap -> b64url_group cap out (a / 4) (a mod 4 * 16) (-2) (-2) = Some (out ++ [a]).
Proof.
  intros Ha Hcap. unfold in_u8 in *. unfold b64url_group.
  rewrite !(proj2 (Z.ltb_ge _ 0)) by dlia. cbn [orb]. rewrite (proj2 (Z.leb_gt cap (blen out))) by dlia. cbn [mbind option_bind Z.leb Z.compare].
  rewrite unpack1 by dlia. do 2 f_equal. f_equal. dlia.
Qed.

Lemma b64_decodes l : bytes_ok l -> forall cap out, blen out + blen l <= cap -> b64url_groups cap out (b64 l) = Some (out ++ l).
Proof.
  induction l as [|a|a b|a b c l IH] using three_ind; intros Hl cap out Hc; cbn [b64]; rewrite ?blen_cons in Hc; change (blen (@nil Z)) with 0 in Hc.
  - by rewrite app_nil_r.
  - apply Forall_cons in Hl as [Ha _]. destruct (pack a 0 0 Ha ltac:(done) ltac:(done)) as [-> _].
    cbn [b64url_groups]. rewrite !(fun v s H => proj1 (char_alphabet v s H)) by lia. destruct (sextets a 0 0 Ha ltac:(done) ltac:(done)) as (E1 & E2 & _).
    rewrite Z.mul_0_l, !Z.add_0_r in E1, E2. rewrite E1, E2, Z.div_0_l, Z.add_0_r by lia. apply group1; [done|lia].
  - apply Forall_cons in Hl as [Ha Hl]. apply Forall_cons in Hl as [Hb _]. destruct (pack a b 0 Ha Hb ltac:(done)) as (_ & -> & _).
    cbn [b64url_groups]. rewrite !(fun v s H => proj1 (char_alphabet v s H)) by lia. destruct (sextets a b 0 Ha Hb ltac:(done)) as (E1 & E2 & E3 & _).
    rewrite !Z.add_0_r in E1, E2, E3. rewrite E1, E2, E3, Z.div_0_l, Z.add_0_r by lia. apply group2; [done|done|lia].
  - apply Forall_cons in Hl as [Ha Hl]. apply Forall_cons in Hl as [Hb Hl]. apply Forall_cons in Hl as [Hc' Hl]. destruct (pack a b c Ha Hb Hc') as (_ & _ & ->).
    cbn [app b64url_groups]. rewrite !(fun v s H => proj1 (char_alphabet v s H)) by lia. destruct (sextets a b c Ha Hb Hc') as (-> & -> & -> & ->).
    pose proof (blen_nonneg l). rewrite group3 by (done || lia). cbn [mbind option_bind]. rewrite IH; [by rewrite <- app_assoc|done|rewrite blen_app; change (blen [a; b; c]) with 3; lia].
Qed.

Lemma b64_chars l : Forall (fun c => c <> 61 /\ c <> 46) (b64 l).
Proof.
  assert (Hc : forall v s, 0 <= s -> b64url_char v s <> 61 /\ b64url_char v s <> 46) by (intros v s Hs; by destruct (char_alphabet v s Hs) as (_ & ?)).
  induction l as [|a|a b|a b c l IH] using three_ind; cbn [b64]; [constructor|repeat constructor; by apply Hc..|].
  apply Forall_app. split; [|done]. repeat constructor; by apply Hc.
Qed.

Lemma strip_none l : Forall (fun c => c <> 61) l -> strip_padding l = l.
Proof.
  induction 1 as [|c l Hc _ IH]; [done|]. cbn [strip_padding]. rewrite IH. destruct l; [|done]. by rewrite (proj2 (Z.eqb_neq c 61)).
Qed.

(** What was encoded is decoded. *)
Lemma b64url_roundtrip l cap cap' : bytes_ok l -> blen (b64 l) <= cap -> blen l <= cap' ->
  b64url_decode_ (b64url_encode_ l cap) cap' = Some l.
Proof.
  intros Hl Hc Hc'. rewrite b64url_encode_spec by done. unfold b64url_decode_. rewrite strip_none by (eapply Forall_impl; [apply b64_chars|]; by intros ? []).
  apply b64_decodes; [done|]. change (blen (@nil Z)) with 0. lia.
Qed.

(** Whatever is decoded are bytes. *)
Lemma group_bytes cap out a b c d out' : b64url_group cap out a b c d = Some out' -> bytes_ok out -> bytes_ok out'.
Proof.
  assert (Hu : forall x, in_u8 (u8 x)) by (intros x; unfold in_u8, u8; apply Z.mod_pos_bound; lia).
  assert (Hs : forall out x, bytes_ok out -> bytes_ok (out ++ [u8 x])) by (intros o x Ho; apply Forall_app; split; [done|repeat constructor; apply Hu]).
  unfold b64url_group. intros H Ho. destruct (_ || _); [done|]. destruct (cap <=? _); [done|]. apply Hs with (x := Z.lor (Z.shiftl a 2) (Z.shiftr b 4)) in Ho.
  set (o1 := out ++ _) in *. clearbody o1. assert (exists o2, (if 0 <=? d then if cap <=? blen o2 then None else Some (o2 ++ [u8 (Z.lor (Z.shiftl (Z.land c 3) 6) d)]) else Some o2) = Some out' /\ bytes_ok o2) as (o2 & H2 & Hok).
  { destruct (0 <=? c); [|by exists o1]. destruct (cap <=? blen o1); [done|]. eexists. split; [exact H|by apply Hs]. }
  destruct (0 <=? d); [|by injection H2 as <-]. destruct (cap <=? blen o2); [done|]. injection H2 as <-. by apply Hs.
Qed.

Lemma decode_bytes inp cap out : b64url_decode_ inp cap = Some out -> bytes_ok out.
Proof.
  unfold b64url_decode_. set (l := strip_padding inp). clearbody l. assert (Hnil : bytes_ok []) by constructor. revert Hnil. generalize (@nil Z) as acc.
  remember (length l) as n eqn:Hn. revert l Hn. induction (lt_wf n) as [n _ IH]. intros l -> acc Ha H.
  destruct l as [|x [|y [|z [|w l]]]]; cbn [b64url_groups] in H; [by injection H as <-|by eapply group_bytes..|].
  destruct (b64url_group _ _ _ _ _ _) as [o|] eqn:Hg; [|done]. cbn in H. eapply (IH (length l)); [cbn; lia|reflexivity| |exact H]. by eapply group_bytes.
Qed.

(** ** Signatures *)

(** What the code relies on: an HMAC has 32 bytes, a signature is accepted by
    the key that made it and is in the DER form that its numbers are written in,
    and numbers are read back from 32 bytes. *)
Class JwtLibsLaws `{!JwtLibs} : Prop := {
  HMAC_32 k d : k <> [] -> exists mac, HMAC k d = Some mac /\ length mac = 32%nat /\ bytes_ok mac;
  sign_verifies k d sig : EVP_DigestSign k d = Some sig -> EVP_DigestVerify k sig d = true /\ bytes_ok sig;
  sign_der k d sig rs : EVP_DigestSign k d = Some sig -> d2i_ECDSA_SIG sig = Some rs -> i2d_ECDSA_SIG rs = Some sig;
  bn_32 n b : BN_bn2binpad n = Some b -> length b = 32%nat /\ bytes_ok b /\ BN_bin2bn b = Some n
}.

Lemma lor_bytes_zero l : forall d, 0 <= d -> Forall (fun x => 0 <= x) l -> foldl Z.lor d l = 0 -> d = 0 /\ Forall (fun x => x = 0) l.
Proof.
  induction l as [|x l IH]; intros d Hd Hl H; [done|]. apply Forall_cons in Hl as [Hx Hl]. cbn in H.
  destruct (IH (Z.lor d x) ltac:(apply Z.lor_nonneg; lia) Hl H) as [Hz Hl0]. apply Z.lor_eq_0_iff in Hz as [-> ->]. split; [done|by constructor].
Qed.

Lemma log2_byte x : in_u8 x -> Z.log2 x < 8.
Proof. unfold in_u8. intros Hx. destruct (Z.eq_dec x 0) as [->|]; [done|]. apply Z.log2_lt_pow2; [lia|]. change (2 ^ 8) with 256. lia. Qed.

Lemma ct_eq_true a b : bytes_ok a -> bytes_ok b -> length a = length b -> (length a <= 32)%nat -> jwt_ct_eq_ a b 32 = true <-> a = b.
Proof.
  intros Ha Hb Hl H32. unfold jwt_ct_eq_. rewrite Z.eqb_eq, !take_ge by lia. clear H32. set (f := fun d '(x, y) => _).
  assert (Hf : forall (l : list (Z * Z)) d, foldl f d l = foldl Z.lor d ((fun '(x, y) => u8 (Z.lxor x y)) <$> l)) by (induction l as [|[x y] l IH]; intros d; [done|cbn; apply IH]).
  rewrite Hf. clear Hf f. assert (Hu : forall x y, in_u8 x -> in_u8 y -> u8 (Z.lxor x y) = 0 <-> x = y).
  { intros x y Hx Hy. unfold in_u8 in *. assert (Hr : 0 <= Z.lxor x y < 256).
    { split; [apply Z.lxor_nonneg; lia|]. destruct (Z.eq_dec (Z.lxor x y) 0) as [->|Hn]; [lia|].
      assert (0 < Z.lxor x y) by (pose proof (proj2 (Z.lxor_nonneg x y) ltac:(lia)); lia). change 256 with (2 ^ 8). apply Z.log2_lt_pow2; [lia|].
      eapply Z.le_lt_trans; [apply Z.log2_lxor; lia|].
      pose proof (log2_byte x Hx). pose proof (log2_byte y Hy). lia. }
    unfold u8. rewrite Z.mod_small by lia. split; [apply Z.lxor_eq|intros ->; apply Z.lxor_nilpotent]. }
  split.
  - intros H. apply lor_bytes_zero in H as [_ H]; [|done|].
    + revert b Hb Hl H. induction Ha as [|x a Hx Ha IH]; intros [|y b] Hb Hl H; [done..|]. apply Forall_cons in Hb as [Hy Hb]. cbn in H. apply Forall_cons in H as [H0 H].
      apply Hu in H0 as ->; [|done..]. f_equal. apply IH; [done| |done]. cbn in Hl. lia.
    + apply Forall_fmap, Forall_forall. intros [x y] _. cbn. unfold u8. apply Z.mod_pos_bound. lia.
  - intros ->. clear Ha Hl. induction Hb as [|y b Hy Hb IH]; [done|]. cbn. by rewrite (proj2 (Hu y y Hy Hy) eq_refl).
Qed.

Section tokens.
  Context `{!JwtLibs, !JwtLibsLaws, !AuthLibs}.

Lemma sign_then_verify s data sig : jwt_sign_ s data = Some sig -> jwt_verify_ s data sig = true /\ bytes_ok sig.
Proof using Type*.
  unfold jwt_sign_, jwt_verify_. assert (Hdig : forall pk sg, jwt_digest_sign_ pk data = Some sg -> jwt_digest_verify_ pk data sg = true /\ bytes_ok sg).
  { intros pk sg. unfold jwt_digest_sign_, jwt_digest_verify_. destruct (pk =? 0); [done|]. apply sign_verifies. }
  destruct (a_jwt_alg s); [apply Hdig| |apply Hdig|].
  - unfold jwt_hmac_. destruct (Z.eqb_spec (blen (a_jwt_key s)) 0) as [|Hk]; [done|]. destruct (HMAC_32 (a_jwt_key s) data) as (mac & Hm & Hl & Hb).
    { by intros E; rewrite E in Hk. }
    rewrite Hm. cbn [mbind option_bind]. assert (E32 : blen mac = 32) by (unfold blen; lia). rewrite E32. cbn [Z.eqb Pos.eqb]. intros [= <-]. rewrite E32. cbn [Z.eqb Pos.eqb negb].
    split; [|done]. apply ct_eq_true; (done || lia).
  - unfold jwt_digest_sign_, jwt_digest_verify_. destruct (a_jwt_pkey s =? 0); [done|]. destruct (EVP_DigestSign _ _) as [der|] eqn:Hs; [|done]. cbn [mbind option_bind].
    unfold ecdsa_der_to_raw_. destruct (d2i_ECDSA_SIG der) as [[r t]|] eqn:Hd; [|done]. cbn [mbind option_bind].
    destruct (BN_bn2binpad r) as [rb|] eqn:Hr; [|done]. destruct (BN_bn2binpad t) as [tb|] eqn:Ht; [|done]. cbn [mbind option_bind]. intros [= <-].
    destruct (bn_32 _ _ Hr) as (Lr & Br & Ir). destruct (bn_32 _ _ Ht) as (Lt & Bt & It). split; [|by apply Forall_app].
    replace (blen (rb ++ tb)) with 64 by (rewrite blen_app; unfold blen; lia). cbn [Z.eqb Pos.eqb negb]. unfold ecdsa_raw_to_der_.
    rewrite take_app_length', drop_app_length', (take_ge tb) by lia. rewrite Ir, It. cbn [mbind option_bind].
    rewrite (sign_der _ _ _ _ Hs Hd). apply (sign_verifies _ _ _ Hs).
Qed.

(** ** Claims *)

Lemma find_at_here pat rest : find_at pat (pat ++ rest) = Some rest.
Proof.
  assert (Hb : bool_decide (take (length pat) (pat ++ rest) = pat) = true) by (apply bool_decide_eq_true; apply take_app_length).
  destruct (pat ++ rest) as [|c l] eqn:E; cbn [find_at]; rewrite Hb; rewrite <- E; f_equal; apply drop_app_length.
Qed.

Lemma find_at_skip pat c l : take (length pat) (c :: l) <> pat -> find_at pat (c :: l) = find_at pat l.
Proof. intros Hn. cbn [find_at]. by rewrite bool_decide_eq_false_2. Qed.

(** A text without the first character of the pattern is skipped. *)
Lemma find_at_pass q pat pre l : Forall (fun c => c <> q) pre -> find_at (q :: pat) (pre ++ l) = find_at (q :: pat) l.
Proof. induction 1 as [|c pre Hc _ IH]; [done|]. cbn [app]. rewrite find_at_skip, IH; [done|]. cbn. by intros [= ->]. Qed.

Lemma find_at_other q pat c l : c <> q -> find_at (q :: pat) (c :: l) = find_at (q :: pat) l.
Proof. intros Hc. apply (find_at_pass q pat [c]). by repeat constructor. Qed.

Lemma find_at_second q x pat c l : c <> x -> find_at (q :: x :: pat) (q :: c :: l) = find_at (q :: x :: pat) (c :: l).
Proof. intros Hc. apply find_at_skip. cbn. by intros [= ->]. Qed.

Definition plain_char (c : Z) : Prop := 32 <= c < 256 /\ c <> 34 /\ c <> 92.

Lemma claim_text_reads u rest : forall cap out, Forall plain_char u -> blen out + blen u < cap -> claim_text cap out (u ++ 34 :: rest) = Some (out ++ u).
Proof.
  induction u as [|c u IH]; intros cap out Hu Hc; cbn [app claim_text]; [by rewrite app_nil_r|]. apply Forall_cons in Hu as [Hp Hu]. unfold plain_char in Hp. destruct Hp as (Hp & H34 & H92).
  rewrite (proj2 (Z.eqb_neq c 34)), (proj2 (Z.eqb_neq c 92)), (proj2 (Z.ltb_ge c 32)) by lia. cbn [orb]. rewrite blen_cons in Hc. pose proof (blen_nonneg u).
  rewrite (proj2 (Z.leb_gt _ _)) by lia. rewrite IH; [by rewrite <- app_assoc|done|rewrite blen_app; change (blen [c]) with 1; lia].
Qed.

Lemma number_reads n rest : in_u64 n -> stops rest ->
  match decimal n ++ rest with c :: _ => if isdigit c then fst <$> duration_digits 0 (decimal n ++ rest) else None | [] => None end = Some n.
Proof.
  intros Hn Hs. destruct (decimal_value n Hn) as (ds & -> & Hds & Hl & Hv). destruct ds as [|c ds]; [cbn in Hl; lia|]. cbn [app].
  pose proof Hds as Hds'. apply Forall_cons in Hds' as [Hc _]. rewrite isdigit_true by done. change (c :: ds ++ rest) with ((c :: ds) ++ rest).
  rewrite duration_digits_run by (done || (rewrite Hv; unfold in_u64, UINT64_MAX in *; lia)). by rewrite Hv.
Qed.

Lemma digits_pass n : in_u64 n -> Forall (fun c => c <> 34) (decimal n).
Proof. intros Hn. destruct (decimal_value n Hn) as (ds & -> & Hds & _). eapply Forall_impl; [exact Hds|]. unfold digit. intros c Hc. cbn. lia. Qed.

(** The quote that opens a text without quotes does not begin a pattern of a
    word between quotes and a colon, when the text is followed by a comma. *)
Lemma quoted_differs w u rest : Forall (fun c => c <> 34) w -> Forall (fun c => c <> 34) u -> take (length (34 :: w ++ [34; 58])) (34 :: u ++ 34 :: 44 :: rest) <> 34 :: w ++ [34; 58].
Proof.
  intros Hw Hu. cbn. intros Heq. injection Heq as Heq. revert w Hw Heq. induction Hu as [|c u Hc Hu IH]; intros [|d w] Hw Heq; cbn in Heq; simplify_eq.
  - apply Forall_cons in Hw as [Hd _]. done.
  - apply Forall_cons in Hw as [_ Hw]. by apply (IH w).
Qed.

Lemma payload_claims u seq exp : Forall plain_char u -> blen u <= 127 -> in_u64 seq -> in_u64 exp ->
  let pay := jwt_payload u seq exp in
  jwt_claim_str_ pay "username" 128 = Some u /\ jwt_claim_u64_ pay "revision" = Some seq /\ jwt_claim_u64_ pay "exp" = Some exp.
Proof using Type.
  intros Hu Hl Hs He. cbv zeta. assert (Hq : Forall (fun c => c <> 34) u) by (eapply Forall_impl; [exact Hu|]; by intros c (_ & ? & _)).
  unfold jwt_claim_str_, jwt_claim_u64_, jwt_payload. cbv zeta.
  set (k1 := bytes_of_string "username"). set (k2 := bytes_of_string "revision"). set (k3 := bytes_of_string "exp").
  assert (Q0 : Forall (fun c => c <> 34) k1 /\ Forall (fun c => c <> 34) k2 /\ Forall (fun c => c <> 34) k3) by (split_and!; repeat constructor; done).
  destruct Q0 as (Q1 & Q2 & Q3). remember (decimal exp ++ bytes_of_string "}") as t3 eqn:Et3. set (t2 := decimal seq ++ [44; 34] ++ k3 ++ [34; 58] ++ t3).
  set (t1 := u ++ [34; 44; 34] ++ k2 ++ [34; 58] ++ t2). set (pay := bytes_of_string "{" ++ [34] ++ k1 ++ [34; 58; 34] ++ t1).
  assert (P0 : forall w rest, find_at (34 :: w) (bytes_of_string "{" ++ rest) = find_at (34 :: w) rest) by (intros w rest; apply find_at_pass; repeat constructor; done).
  assert (P1 : find_at ([34] ++ k1 ++ [34; 58; 34]) pay = Some t1).
  { unfold pay. cbn [app]. rewrite P0. change (34 :: k1 ++ 34 :: 58 :: 34 :: t1) with ((34 :: k1 ++ [34; 58; 34]) ++ t1). apply find_at_here. }
  assert (Pu : forall x k, Forall (fun c => c <> 34) (x :: k) -> 117 <> x -> 58 <> x -> 44 <> x ->
    find_at ([34] ++ (x :: k) ++ [34; 58]) pay = find_at ([34] ++ (x :: k) ++ [34; 58]) (34 :: k2 ++ [34; 58] ++ t2)).
  { intros x k Hk X1 X2 X3. unfold pay. cbn [app]. rewrite P0. change k1 with (117 :: tail k1) at 1. cbn [app]. rewrite find_at_second by done.
    change (117 :: tail k1 ++ 34 :: 58 :: 34 :: t1) with (k1 ++ 34 :: 58 :: 34 :: t1). rewrite (find_at_pass 34 _ k1) by done.
    rewrite find_at_second, (find_at_other 34 _ 58) by done. unfold t1. cbn [app]. rewrite find_at_skip by (apply (quoted_differs (x :: k) u); done). rewrite find_at_pass by done.
    by rewrite find_at_second, (find_at_other 34 _ 44) by done. }
  assert (P2 : find_at ([34] ++ k2 ++ [34; 58]) pay = Some t2).
  { change k2 with (114 :: tail k2) at 1. rewrite Pu by done. change (34 :: k2 ++ [34; 58] ++ t2) with (([34] ++ k2 ++ [34; 58]) ++ t2). apply find_at_here. }
  assert (P3 : find_at ([34] ++ k3 ++ [34; 58]) pay = Some t3).
  { change k3 with (101 :: tail k3) at 1. rewrite Pu by done. change k2 with (114 :: tail k2). cbn [app]. rewrite find_at_second by done.
    change (114 :: tail k2 ++ 34 :: 58 :: t2) with (k2 ++ 34 :: 58 :: t2). rewrite (find_at_pass 34 _ k2) by done. rewrite find_at_second, (find_at_other 34 _ 58) by done.
    unfold t2. rewrite find_at_pass by (by apply digits_pass). cbn [app]. rewrite (find_at_other 34 _ 44) by done.
    change (34 :: k3 ++ 34 :: 58 :: t3) with ((34 :: k3 ++ [34; 58]) ++ t3). apply find_at_here. }
  change (80 <=? blen ([34] ++ k1 ++ [34; 58; 34])) with false. change (80 <=? blen ([34] ++ k2 ++ [34; 58])) with false. change (80 <=? blen ([34] ++ k3 ++ [34; 58])) with false. cbv iota.
  rewrite P1, P2, P3. cbn [mbind option_bind]. split_and!.
  - unfold t1. cbn [app]. rewrite claim_text_reads; [done|done|]. change (blen (@nil Z)) with 0. lia.
  - unfold t2. apply number_reads; done.
  - rewrite Et3. apply number_reads; done.
Qed.

(** ** Tokens *)

Lemma split_dot_app h r : Forall (fun c => c <> 46) h -> split_dot (h ++ 46 :: r) = Some (h, r).
Proof using Type.
  intros Hh. assert (E : strchr (h ++ 46 :: r) 46 = Some (length h)).
  { unfold strchr. rewrite list_find_app_r by (by apply list_find_None). change (list_find (fun b => b = 46) (46 :: r)) with (Some (0%nat, 46)). cbn. f_equal; lia. }
  unfold split_dot. rewrite E. cbn [fmap option_fmap option_map]. rewrite take_app_length. replace (S (length h)) with (length h + 1)%nat by lia. by rewrite <- drop_drop, drop_app_length.
Qed.

Lemma token_parts_app h p g : Forall (fun c => c <> 46) h -> Forall (fun c => c <> 46) p -> Forall (fun c => c <> 46) g ->
  0 < blen h -> 0 < blen p -> 0 < blen g -> token_parts ((h ++ [46] ++ p) ++ [46] ++ g) = Some (h, p, g).
Proof using Type.
  intros Hh Hp Hg Lh Lp Lg. unfold token_parts. rewrite <- !app_assoc. cbn [app]. rewrite split_dot_app by done. cbn [mbind option_bind]. rewrite split_dot_app by done. cbn [mbind option_bind].
  unfold strchr. rewrite (proj2 (list_find_None _ _)) by done. cbn [fmap option_fmap option_map]. by rewrite !(proj2 (Z.eqb_neq _ 0)) by lia.
Qed.

Lemma split_dot_inv s h r : split_dot s = Some (h, r) -> s = h ++ [46] ++ r.
Proof using Type.
  unfold split_dot, strchr. intros Heq. destruct (list_find _ s) as [[i c]|] eqn:Hf; [|done]. injection Heq as <- <-.
  apply list_find_Some in Hf as (Hi & -> & _). symmetry. by apply take_drop_middle.
Qed.

Lemma token_parts_inv token h p g : token_parts token = Some (h, p, g) -> token = (h ++ [46] ++ p) ++ [46] ++ g.
Proof using Type.
  unfold token_parts. intros Heq. destruct (split_dot token) as [[h' r]|] eqn:D1; [|done]. cbn [mbind option_bind] in Heq. destruct (split_dot r) as [[p' g']|] eqn:D2; [|done]. cbn [mbind option_bind] in Heq.
  destruct (strchr g' 46); [done|]. destruct (_ || _); [done|]. injection Heq as -> -> ->. apply split_dot_inv in D1 as ->. apply split_dot_inv in D2 as ->. by rewrite <- app_assoc.
Qed.

(** The signing key works and its signatures fit into a token. *)
Definition signer_works (s : cetcd_auth_store) : Prop := forall data, exists sig, jwt_sign_ s data = Some sig /\ 0 < blen sig <= 767.

(** With an HMAC key it does. *)
Lemma hmac_works s : a_jwt_alg s = CETCD_JWT_HS256 -> a_jwt_key s <> [] -> signer_works s.
Proof using Type*.
  intros Ha Hk data. destruct (HMAC_32 (a_jwt_key s) data Hk) as (mac & Hm & Hl & _). exists mac. unfold jwt_sign_, jwt_hmac_. rewrite Ha, Hm.
  assert (E : blen mac = 32) by (unfold blen; lia). cbn [mbind option_bind]. rewrite E. destruct (Z.eqb_spec (blen (a_jwt_key s)) 0) as [E0|]; [|split; [done|lia]].
  destruct (a_jwt_key s); [done|]. rewrite blen_cons in E0. pose proof (blen_nonneg l). lia.
Qed.

Lemma bytes_ok_text t : forallb (fun c => (0 <=? c) && (c <? 256)) t = true -> bytes_ok t.
Proof using Type. intros Heq. apply Forall_forall. intros c Hc. rewrite forallb_forall in Heq. specialize (Heq c (proj1 (list_elem_of_In _ _) Hc)). apply andb_true_iff in Heq as [L1 L2]. unfold in_u8. lia. Qed.

Lemma header_facts alg name : jwt_alg_name_ alg = Some name ->
  let hdr := jwt_header name in blen hdr = 27 /\ bytes_ok hdr /\ find_bytes_ hdr name = true /\ find_bytes_ hdr ([34] ++ bytes_of_string "none" ++ [34]) = false.
Proof using Type. destruct alg; intros [= <-]; cbv zeta; (split_and!; [vm_compute; reflexivity|apply bytes_ok_text; vm_compute; reflexivity|vm_compute; reflexivity..]). Qed.

Lemma decimal_text_facts n : in_u64 n -> bytes_ok (decimal n) /\ blen (decimal n) <= 20.
Proof using Type.
  intros Hn. destruct (decimal_value n Hn) as (ds & -> & Hds & Hl & _). split; [|unfold blen; lia]. eapply Forall_impl; [exact Hds|]. unfold digit, in_u8. intros c Hc. lia.
Qed.

Lemma payload_facts u seq exp : Forall plain_char u -> in_u64 seq -> in_u64 exp ->
  bytes_ok (jwt_payload u seq exp) /\ 0 < blen (jwt_payload u seq exp) <= blen u + 74.
Proof using Type.
  intros Hu Hs He. destruct (decimal_text_facts seq Hs) as [B1 L1]. destruct (decimal_text_facts exp He) as [B2 L2]. unfold jwt_payload. split.
  - repeat (apply Forall_app; split); try done; try (apply bytes_ok_text; vm_compute; reflexivity). eapply Forall_impl; [exact Hu|]. intros c (? & _). unfold in_u8. lia.
  - rewrite !blen_app. repeat match goal with |- context [blen (bytes_of_string ?x)] => let n := eval vm_compute in (blen (bytes_of_string x)) in change (blen (bytes_of_string x)) with n end.
    repeat match goal with |- context [blen (?x :: ?l)] => let n := eval vm_compute in (blen (x :: l)) in change (blen (x :: l)) with n end.
    pose proof (blen_nonneg u). pose proof (blen_nonneg (decimal seq)). pose proof (blen_nonneg (decimal exp)). lia.
Qed.

Lemma expiry_u64 s now : in_u64 (jwt_expiry s now).
Proof using Type. unfold jwt_expiry. cbv zeta. destruct (_ =? 0); apply u64_range. Qed.

(** The token of a user: header and payload, dot, signature. *)
Lemma issue_spec s name now : a_jwt_alg s <> CETCD_JWT_NONE -> Forall plain_char name -> blen name <= 127 -> signer_works s ->
  let s1 := s <| a_token_seq := u64 (a_token_seq s + 1) |> in
  exists alg sig, jwt_alg_name_ (a_jwt_alg s) = Some alg /\
    let signing := b64 (jwt_header alg) ++ [46] ++ b64 (jwt_payload name (a_token_seq s1) (jwt_expiry s now)) in
    jwt_sign_ s signing = Some sig /\ 0 < blen sig <= 767 /\ jwt_issue_ now s name = Ok (s1, Some (signing ++ [46] ++ b64 sig)).
Proof using Type*.
  intros Ha Hn Hl Hw. cbv zeta. destruct (jwt_alg_name_ (a_jwt_alg s)) as [alg|] eqn:Halg; [|by destruct (a_jwt_alg s)].
  destruct (header_facts _ _ Halg) as (Lh & _). set (s1 := s <| a_token_seq := u64 (a_token_seq s + 1) |>). set (exp := jwt_expiry s now).
  destruct (payload_facts name (a_token_seq s1) exp Hn (u64_range _) (expiry_u64 s now)) as (_ & Lp).
  set (hdr := jwt_header alg) in *. set (pay := jwt_payload name (a_token_seq s1) exp) in *. set (signing := b64 hdr ++ [46] ++ b64 pay).
  destruct (Hw signing) as (sig & Hsig & Lsig). exists alg, sig. split; [done|]. split; [exact Hsig|]. split; [done|].
  pose proof (b64_blen hdr). pose proof (b64_blen pay). pose proof (b64_blen sig).
  assert (Hsl : blen signing = blen (b64 hdr) + 1 + blen (b64 pay)) by (unfold signing; rewrite !blen_app; change (blen [46]) with 1; lia).
  unfold jwt_issue_. rewrite Halg. assert (Hq : Forall (fun c => c <> 34 /\ c <> 92) name) by (eapply Forall_impl; [exact Hn|]; by intros c (_ & ? & ?)).
  rewrite !bool_decide_eq_false_2 by (intros Hin; eapply Forall_forall in Hin; [|exact Hq]; by destruct Hin). cbn [orb]. cbv zeta. fold s1 exp hdr. fold pay.
  rewrite (proj2 (Z.leb_gt 48 _)), (proj2 (Z.leb_gt 256 _)) by lia. rewrite !b64url_encode_spec by lia. rewrite !(proj2 (Z.eqb_neq _ 0)) by lia. cbn [orb]. fold signing.
  rewrite (proj2 (Z.leb_gt 512 _)) by lia. unfold jwt_token. change (jwt_sign_ s1 signing) with (jwt_sign_ s signing). rewrite Hsig. cbv zeta. rewrite b64url_encode_spec by lia.
  rewrite (proj2 (Z.eqb_neq _ 0)) by lia. unfold CETCD_AUTH_MAX_TOKEN_LEN. by rewrite !(proj2 (Z.leb_gt _ _)) by lia.
Qed.

(** What is accepted carries a valid signature and claims. *)
Lemma accepted_is_signed s token t s' u : jwt_user_for_ s token t = (s', Some u) ->
  exists h p g mac pay exp, token = (h ++ [46] ++ p) ++ [46] ++ g /\ b64url_decode_ g 1024 = Some mac /\ jwt_verify_ s (h ++ [46] ++ p) mac = true /\
    b64url_decode_ p 511 = Some pay /\ jwt_claim_u64_ pay "exp" = Some exp /\ t / 1000000000 < exp /\
    exists user, jwt_claim_str_ pay "username" 128 = Some user /\ u = take 127 user /\ is_Some (cetcd_find_user s user).
Proof using Type.
  unfold jwt_user_for_. destruct (jwt_claimed s token t) as [user|] eqn:Hc; [|done]. intros [= <- <-]. unfold jwt_claimed in Hc.
  destruct (jwt_alg_name_ _) as [alg|]; [|done]. cbn [mbind option_bind] in Hc. destruct (token_parts token) as [[[h p] g]|] eqn:Hp; [|done]. cbn [mbind option_bind] in Hc.
  destruct (b64url_decode_ h 127) as [hdr|]; [|done]. destruct (b64url_decode_ p 511) as [pay|] eqn:Hpay; [|done]. destruct (b64url_decode_ g 1024) as [mac|] eqn:Hmac; [|done]. cbn [mbind option_bind] in Hc.
  destruct (_ || _); [done|]. destruct (jwt_verify_ s _ mac) eqn:Hv; [|done]. cbn [negb] in Hc. destruct (jwt_claim_str_ pay _ _) as [user'|] eqn:Hu; [|done]. cbn [mbind option_bind] in Hc.
  destruct (jwt_claim_u64_ pay "revision") as [rev|]; [|done]. destruct (jwt_claim_u64_ pay "exp") as [exp|] eqn:He; [|done]. cbn [mbind option_bind] in Hc.
  destruct (Z.leb_spec exp (t / 1000000000)) as [|Hlt]; [done|]. destruct (cetcd_find_user s user') as [x|] eqn:Hf; [|done]. injection Hc as ->.
  exists h, p, g, mac, pay, exp. split_and!; [by apply token_parts_inv|done..|]. exists user. split_and!; [done|done|by rewrite Hf].
Qed.

(** With an HMAC key the signature is the HMAC of the text before it. *)
Lemma verified_is_hmac s data g mac : a_jwt_alg s = CETCD_JWT_HS256 -> b64url_decode_ g 1024 = Some mac -> jwt_verify_ s data mac = true -> HMAC (a_jwt_key s) data = Some mac.
Proof using Type*.
  intros Ha Hd Hv. pose proof (decode_bytes _ _ _ Hd) as Hb. unfold jwt_verify_ in Hv. rewrite Ha in Hv. destruct (Z.eqb_spec (blen mac) 32) as [L|]; [|done]. cbn [negb] in Hv.
  unfold jwt_hmac_ in Hv. destruct (Z.eqb_spec (blen (a_jwt_key s)) 0) as [|Hk]; [done|]. destruct (HMAC_32 (a_jwt_key s) data) as (m & Hm & Lm & Bm); [by intros E; rewrite E in Hk|].
  rewrite Hm in Hv |- *. cbn [mbind option_bind] in Hv. destruct (blen m =? 32); [|done]. f_equal. symmetry. apply ct_eq_true; (done || unfold blen in L; lia).
Qed.

(** What is issued is accepted until it expires. *)
Lemma issued_accepted s name now : a_jwt_alg s <> CETCD_JWT_NONE -> signer_works s -> Forall plain_char name -> blen name <= 127 -> is_Some (cetcd_find_user s name) ->
  exists s1 token, cetcd_auth_issue_token (jwt_issue now) s name now = (s1, Some token) /\
    forall t, (cetcd_auth_user_for_token jwt_user_for_ s1 token t).2 = if jwt_expiry s now <=? t / 1000000000 then None else Some name.
Proof using Type*.
  intros Ha Hw Hn Hl Hu. destruct (issue_spec s name now Ha Hn Hl Hw) as (alg & sig & Halg & Hsig & Lsig & Hi). cbv zeta in *. set (s1 := s <| a_token_seq := _ |>) in *.
  set (pay := jwt_payload name (a_token_seq s1) (jwt_expiry s now)) in *. set (signing := b64 (jwt_header alg) ++ [46] ++ b64 pay) in *. eexists s1, _. split.
  { unfold cetcd_auth_issue_token. destruct Hu as [x ->]. rewrite bool_decide_eq_false_2 by done. cbn [negb]. unfold jwt_issue. by rewrite Hi. }
  intros t. destruct (header_facts _ _ Halg) as (Lh & Bh & F1 & F2). destruct (payload_facts name (a_token_seq s1) (jwt_expiry s now) Hn (u64_range _) (expiry_u64 s now)) as (Bp & Lp). fold pay in Bp, Lp.
  destruct (payload_claims name (a_token_seq s1) (jwt_expiry s now) Hn Hl (u64_range _) (expiry_u64 s now)) as (C1 & C2 & C3). fold pay in C1, C2, C3.
  destruct (sign_then_verify s signing sig Hsig) as [Hv Bs]. pose proof (b64_blen (jwt_header alg)). pose proof (b64_blen pay). pose proof (b64_blen sig).
  unfold cetcd_auth_user_for_token. rewrite (proj2 (Z.eqb_neq _ 0)) by (rewrite !blen_app; change (blen [46]) with 1; pose proof (blen_nonneg signing); lia).
  change (a_jwt_alg s1) with (a_jwt_alg s). rewrite bool_decide_eq_false_2 by done. cbn [negb]. unfold jwt_user_for_, jwt_claimed. change (a_jwt_alg s1) with (a_jwt_alg s). rewrite Halg. cbn [mbind option_bind].
  assert (Hd : forall l, Forall (fun c => c <> 46) (b64 l)) by (intros l; eapply Forall_impl; [apply b64_chars|]; by intros c [_ ?]).
  unfold signing at 1. rewrite token_parts_app by (done || lia). cbn [mbind option_bind].
  rewrite <- (b64url_encode_spec (jwt_header alg) 64), <- (b64url_encode_spec pay 400), <- (b64url_encode_spec sig 1024) by lia. rewrite !b64url_roundtrip by (done || lia). cbn [mbind option_bind].
  rewrite F1, F2. cbn [negb orb]. rewrite !b64url_encode_spec by lia. fold signing. change (jwt_verify_ s1 signing sig) with (jwt_verify_ s signing sig). rewrite Hv. cbn [negb].
  rewrite C1, C2, C3. cbn [mbind option_bind]. destruct (jwt_expiry s now <=? t / 1000000000); [done|]. change (cetcd_find_user s1 name) with (cetcd_find_user s name).
  destruct Hu as [x ->]. cbn [snd]. by rewrite take_ge by (unfold blen in Hl; lia).
Qed.

(** C39: Signed tokens.  With a working key a known user whose name has at most
    127 printable characters, no quote and no backslash is issued a token, which
    stands for this user until the second it expires and for nobody afterwards.
    Conversely, every token that is accepted consists of a signed text and its
    signature, the expiry in the text lies ahead and the user exists; with an
    HMAC key the signature is the HMAC of the text under that key. *)
Theorem signed_tokens (s : cetcd_auth_store) (name : bytes) (now : Z) :
  a_jwt_alg s <> CETCD_JWT_NONE -> signer_works s -> Forall plain_char name -> blen name <= 127 -> is_Some (cetcd_find_user s name) ->
  (exists s1 token, cetcd_auth_issue_token (jwt_issue now) s name now = (s1, Some token) /\
     forall t, (cetcd_auth_user_for_token jwt_user_for_ s1 token t).2 = if jwt_expiry s now <=? t / 1000000000 then None else Some name) /\
  (forall token t s' u, cetcd_auth_user_for_token jwt_user_for_ s token t = (s', Some u) ->
     exists text g mac, token = text ++ [46] ++ g /\ b64url_decode_ g 1024 = Some mac /\ jwt_verify_ s text mac = true /\
       (a_jwt_alg s = CETCD_JWT_HS256 -> HMAC (a_jwt_key s) text = Some mac) /\
       exists h p pay exp user, text = h ++ [46] ++ p /\ b64url_decode_ p 511 = Some pay /\ jwt_claim_u64_ pay "exp" = Some exp /\ t / 1000000000 < exp /\
         jwt_claim_str_ pay "username" 128 = Some user /\ u = take 127 user /\ is_Some (cetcd_find_user s user)).
Proof using Type*.
  intros Ha Hw Hn Hl Hu. split; [by apply issued_accepted|]. intros token t s' u Hacc. unfold cetcd_auth_user_for_token in Hacc. destruct (blen token =? 0); [done|]. rewrite bool_decide_eq_false_2 in Hacc by done. cbn [negb] in Hacc.
  apply accepted_is_signed in Hacc as (h & p & g & mac & pay & exp & -> & Hg & Hv & Hp & He & Hlt & user & Hcu & -> & Hf).
  exists (h ++ [46] ++ p), g, mac. split_and!; [done..| |by exists h, p, pay, exp, user]. intros Hh. by eapply verified_is_hmac.
Qed.
End tokens.

(** ** Concrete runs *)

(** Stand-ins for the library. *)
Definition sample_jwt : JwtLibs := {|
  HMAC k d := Some (u8 <$> take 32 (k ++ rev d ++ replicate 32 0));
  EVP_DigestSign _ _ := Some (replicate 768 7);
  EVP_DigestVerify _ _ _ := true;
  d2i_ECDSA_SIG _ := None;
  i2d_ECDSA_SIG _ := None;
  BN_bn2binpad _ := None;
  BN_bin2bn _ := None;
  file_content _ := Some [107; 101; 121];
  PEM_private_key _ := Some 1;
  EVP_PKEY_is_a _ _ := true;
  EVP_PKEY_get_bits _ := 256
|}.
#[local] Existing Instance sample_jwt.
#[local] Existing Instance sample_libs.

Lemma sample_jwt_laws : JwtLibsLaws.
Proof.
  split; [|intros k d sig [= <-]; split; [done|apply bytes_ok_text; vm_compute; reflexivity]|done|done].
  intros k d Hk. cbn [HMAC sample_jwt]. eexists. split; [reflexivity|]. split.
  - rewrite length_fmap, length_take, !length_app, length_replicate. lia.
  - apply Forall_fmap, Forall_forall. intros x _. cbn. unfold in_u8, u8. apply Z.mod_pos_bound. lia.
Qed.
#[local] Existing Instance sample_jwt_laws.

Definition jwt_store : cetcd_auth_store := Eval vm_compute in (cetcd_auth_set_token_spec sample_auth (bytes_of_string "jwt,sign-method=HS256,priv-key=k,ttl=1m")).1.

Lemma signed_tokens_witness :
  exists s1 token, cetcd_auth_issue_token (jwt_issue 5000000000) jwt_store alice 5000000000 = (s1, Some token) /\
    forall t, (cetcd_auth_user_for_token jwt_user_for_ s1 token t).2 = if 65 <=? t / 1000000000 then None else Some alice.
Proof.
  destruct (signed_tokens jwt_store alice 5000000000) as [Hi _]; [discriminate|apply hmac_works; [reflexivity|discriminate]|repeat constructor; vm_compute; (reflexivity || discriminate)|vm_compute; discriminate|eexists; vm_compute; reflexivity|].
  exact Hi.
Defined.

(** A signature of 768 bytes, that of an RSA key of 6144 bits, fills the buffer
    of its text, and the byte behind the buffer is copied as the terminator. *)
Definition rsa_store : cetcd_auth_store := jwt_store <| a_jwt_alg := CETCD_JWT_RS256 |> <| a_jwt_pkey := 1 |>.

Theorem long_signature_overreads : jwt_issue_ 5 rsa_store alice = Undef.
Proof. vm_compute. reflexivity. Qed.

(** Characters outside the alphabet are skipped in the third and fourth place of
    a group: a token with another signature text, full of them, is accepted. *)
Definition alice_jwt : bytes := Eval vm_compute in default [] (jwt_issue 5 jwt_store alice).2.
Definition padded (sig : bytes) : bytes := mjoin ((fun b => b64 [b] ++ [33; 33]) <$> sig).
Definition alice_jwt2 : bytes := Eval vm_compute in
  match token_parts alice_jwt with Some (h, p, g) => h ++ [46] ++ p ++ [46] ++ padded (default [] (b64url_decode_ g 1024)) | None => [] end.

Theorem malformed_signature_accepted :
  alice_jwt <> alice_jwt2 /\ 33 ∈ alice_jwt2 /\ (jwt_user_for_ jwt_store alice_jwt 6).2 = Some alice /\ (jwt_user_for_ jwt_store alice_jwt2 6).2 = Some alice.
Proof. split_and!; [vm_compute; discriminate|apply (bool_decide_unpack _); vm_compute; reflexivity|vm_compute; reflexivity..]. Qed.

(** A user whose name has a control character is issued a token that is never
    accepted. *)
Definition tab_user : bytes := [97; 9; 98].
Definition tab_store : cetcd_auth_store := Eval vm_compute in (cetcd_auth_add_user jwt_store tab_user [112]).1.

Theorem control_character_token :
  match cetcd_auth_issue_token (jwt_issue 5) tab_store tab_user 5 with
  | (s, Some token) => (cetcd_auth_user_for_token jwt_user_for_ s token 5).2 = None
  | (_, None) => False
  end.
Proof. vm_compute. reflexivity. Qed.
