(* ===== verification/Discovery.v ===== *)
(** * Names, addresses and discovery (src/base/discovery.c, src/peer/cluster_spec.c)

    Domain names, DNS messages with SRV records, endpoint lists, host and port,
    and the string of the initial cluster.  Strings are C strings without their
    terminator; a DNS message is its bytes, and a read or write outside of a
    buffer is [Undef].

    [inet_pton] (IPv6), [getaddrinfo] and [res_query] are arguments: the 16
    bytes of an address, the addresses of a host, the answer to a query. *)

From Stdlib Require Import String.
From S2P Require Import Hash CString Config Cluster Raft RaftWire Pb Snap Prelude.

#[local] Open Scope Z_scope.

(** ** Domain names *)

Definition is_alnum_ (c : Z) : bool := ((48 <=? c) && (c <=? 57)) || ((65 <=? c) && (c <=? 90)) || ((97 <=? c) && (c <=? 122)).
Definition is_dns_char_ (c : Z) : bool := is_alnum_ c || (c =? 45).

(** [None] where the code returns 0 for lack of room. *)
Definition strip_dot_ (s : bytes) (cap : Z) : option bytes :=
  let s := if bool_decide (last s = Some 46) then removelast s else s in
  if cap <? blen s + 1 then None else Some s.

(** The bytes before the first of [c], and what follows from it on. *)
Fixpoint span_to (c : Z) (s : bytes) : bytes * bytes :=
  match s with
  | [] => ([], [])
  | x :: s' => if x =? c then ([], s) else let '(a, b) := span_to c s' in (x :: a, b)
  end.

(** The loop over the labels; each round takes one label and its dot. *)
Fixpoint labels_ok (n : nat) (s : bytes) : bool :=
  match n, s with
  | _, [] => true
  | O, _ => false
  | S n, c :: s' =>
      if negb (is_alnum_ c) then false
      else
        let '(lab, rest) := span_to 46 s' in
        if negb (forallb is_dns_char_ lab) then false
        else if 63 <? 1 + blen lab then false
        else if List.last (c :: lab) 0 =? 45 then false
        else match rest with [] => true | [_] => false | _ :: rest => labels_ok n rest end
  end.

Definition cetcd_discovery_valid_domain (domain : bytes) : bool :=
  if blen domain =? 0 then false
  else
    match strip_dot_ domain 256 with
    | None => false
    | Some buf => if (blen buf =? 0) || (253 <? blen buf) then false else labels_ok (length buf) buf
    end.

Definition cetcd_discovery_valid_name (name : bytes) : bool :=
  if blen name =? 0 then true
  else if 63 <? blen name then false
  else is_alnum_ (hd 0 name) && is_alnum_ (List.last name 0) && forallb is_dns_char_ name.

Inductive cetcd_discovery_kind : Type :=
| CETCD_DISCOVERY_CLIENT | CETCD_DISCOVERY_CLIENT_SSL | CETCD_DISCOVERY_SERVER | CETCD_DISCOVERY_SERVER_SSL.

Definition kind_service_ (kind : cetcd_discovery_kind) : bytes :=
  bytes_of_string match kind with
  | CETCD_DISCOVERY_CLIENT => "etcd-client"
  | CETCD_DISCOVERY_CLIENT_SSL => "etcd-client-ssl"
  | CETCD_DISCOVERY_SERVER => "etcd-server"
  | CETCD_DISCOVERY_SERVER_SSL => "etcd-server-ssl"
  end.

(** [snprintf] into a buffer, with the callers' check. *)
Definition printed (cap : Z) (s : bytes) : res bytes := if cap <=? blen s then Fail CETCD_ERR_OVERFLOW else Ok s.

Definition cetcd_discovery_qname (kind : cetcd_discovery_kind) (name domain : bytes) (cap : Z) : res bytes :=
  if cap =? 0 then Fail CETCD_ERR_INVAL
  else if negb (cetcd_discovery_valid_name name) then Fail CETCD_ERR_INVAL
  else if negb (cetcd_discovery_valid_domain domain) then Fail CETCD_ERR_INVAL
  else
    match strip_dot_ domain 256 with
    | None | Some [] => Fail CETCD_ERR_INVAL
    | Some dom =>
        let tcp := bytes_of_string "._tcp." in
        printed cap (if blen name =? 0 then [95] ++ kind_service_ kind ++ tcp ++ dom
                     else [95] ++ kind_service_ kind ++ [45] ++ name ++ tcp ++ dom)
    end.

(** ** DNS messages *)

Record cetcd_srv_record : Type := mk_srv {
  srv_priority : Z;
  srv_weight : Z;
  srv_port : Z;
  srv_target : bytes
}.

(** [None] is -1. *)
Definition read_u16_ (msg : bytes) (off : nat) : option (Z * nat) :=
  match msg !! off, msg !! S off with
  | Some a, Some b => Some (Z.lor (Z.shiftl a 8) b, (off + 2)%nat)
  | _, _ => None
  end.

(** The name at [pos]: the text so far, and where the name ends in the message
    once a pointer was followed.  [Fail CETCD_ERR_CORRUPT] is -1. *)
Fixpoint name_loop (n : nat) (msg : bytes) (cap pos : nat) (ended : option nat) (hops : nat) (out : bytes) : res (bytes * nat) :=
  match n with
  | O => Loop
  | S n =>
      match msg !! pos with
      | None => Fail CETCD_ERR_CORRUPT
      | Some lab =>
          if lab =? 0 then Ok (out, default (S pos) ended)
          else if Z.land lab 0xc0 =? 0xc0 then
            match msg !! S pos with
            | None => Fail CETCD_ERR_CORRUPT
            | Some b =>
                let ptr := Z.to_nat (Z.lor (Z.shiftl (Z.land lab 0x3f) 8) b) in
                if (length msg <=? ptr)%nat || (ptr =? pos)%nat then Fail CETCD_ERR_CORRUPT
                else if (16 <? S hops)%nat then Fail CETCD_ERR_CORRUPT
                else name_loop n msg cap ptr (Some (default (pos + 2)%nat ended)) (S hops) out
            end
          else if negb (Z.land lab 0xc0 =? 0) then Fail CETCD_ERR_CORRUPT
          else
            let l := Z.to_nat lab in
            if (length msg <? S pos + l)%nat then Fail CETCD_ERR_CORRUPT
            else if negb (length out =? 0)%nat && (cap <=? length out + 1)%nat then Fail CETCD_ERR_CORRUPT
            else
              let out := if (length out =? 0)%nat then out else out ++ [46] in
              if (cap <=? length out + l)%nat then Fail CETCD_ERR_CORRUPT
              else name_loop n msg cap (S pos + l)%nat ended hops (out ++ take l (drop (S pos) msg))
      end
  end.

(** Each round moves forward or follows one of at most 16 pointers. *)
Definition name_fuel (msg : bytes) : nat := (18 * (length msg + 2))%nat.

(** The C string in the buffer and the offset behind the name. *)
Definition read_name_ (msg : bytes) (off : nat) (cap : nat) : res (bytes * nat) :=
  '(out, fin) ← name_loop (name_fuel msg) msg cap off None 0 [];
  if (length out =? 0)%nat then Fail CETCD_ERR_CORRUPT
  else if bool_decide (last out = Some 46) then
    let out := removelast out in
    if bool_decide (cstr out = []) then Fail CETCD_ERR_CORRUPT else Ok (cstr out, fin)
  else Ok (cstr out, fin).

(** A failed read is CETCD_ERR_RANGE. *)
Definition u16_at (msg : bytes) (off : nat) : res (Z * nat) :=
  match read_u16_ msg off with Some r => Ok r | None => Fail CETCD_ERR_RANGE end.

Fixpoint skip_questions (qd : nat) (msg : bytes) (off : nat) : res nat :=
  match qd with
  | O => Ok off
  | S qd =>
      '(_, off) ← read_name_ msg off 256;
      '(_, off) ← u16_at msg off;
      '(_, off) ← u16_at msg off;
      skip_questions qd msg off
  end.

(** The data of an SRV record. *)
Definition read_srv (msg : bytes) (off : nat) (rdlen : Z) : res cetcd_srv_record :=
  '(pri, roff) ← u16_at msg off;
  '(w, roff) ← u16_at msg roff;
  '(port, roff) ← u16_at msg roff;
  if port <? 1 then Fail CETCD_ERR_RANGE
  else
    '(target, roff) ← read_name_ msg roff 256;
    if (off + Z.to_nat rdlen <? roff)%nat then Fail CETCD_ERR_CORRUPT
    else Ok (mk_srv pri w port target).

(** [an] counts the records of the answer section that are left. *)
Fixpoint read_records (total an : nat) (msg : bytes) (off : nat) (cap : Z) (out : list cetcd_srv_record) : res (list cetcd_srv_record) :=
  match total with
  | O => Ok out
  | S total =>
      '(_, off) ← read_name_ msg off 256;
      '(type, off) ← u16_at msg off;
      '(_, off) ← u16_at msg off;
      if (length msg <? off + 4)%nat then Fail CETCD_ERR_RANGE
      else
        '(rdlen, off) ← u16_at msg (off + 4)%nat;
        if (length msg <? off + Z.to_nat rdlen)%nat then Fail CETCD_ERR_RANGE
        else
          out ← (if (type =? 33) && (0 <? an)%nat then
                   if rdlen <? 7 then Fail CETCD_ERR_CORRUPT
                   else if cap <=? blen out then Fail CETCD_ERR_OVERFLOW
                   else r ← read_srv msg off rdlen; Ok (out ++ [r])
                 else Ok out);
          read_records total (pred an) msg (off + Z.to_nat rdlen)%nat cap out
  end.

Definition cetcd_discovery_parse_message (msg : bytes) (cap : Z) : res (list cetcd_srv_record) :=
  if cap =? 0 then Fail CETCD_ERR_INVAL
  else if blen msg <? 12 then Fail CETCD_ERR_RANGE
  else
    '(qd, off) ← u16_at msg 4;
    '(an, off) ← u16_at msg off;
    '(ns, off) ← u16_at msg off;
    '(ar, off) ← u16_at msg off;
    off ← skip_questions (Z.to_nat qd) msg off;
    out ← read_records (Z.to_nat (an + ns + ar)) (Z.to_nat an) msg off cap [];
    match out with [] => Fail CETCD_ERR_NOTFOUND | _ => Ok out end.

(** [strcmp] is negative. *)
Fixpoint strcmp_lt (a b : bytes) : bool :=
  match a, b with
  | _, [] => false
  | [], _ => true
  | x :: a, y :: b => if x <? y then true else if y <? x then false else strcmp_lt a b
  end.

Definition srv_less (key a : cetcd_srv_record) : bool :=
  if srv_priority key <? srv_priority a then true
  else if srv_priority key =? srv_priority a then
    if srv_weight a <? srv_weight key then true
    else (srv_weight key =? srv_weight a) && strcmp_lt (srv_target key) (srv_target a)
  else false.

(** The inner loop: [key] moves down, from the end of the sorted part. *)
Fixpoint srv_insert (key : cetcd_srv_record) (rev_sorted : list cetcd_srv_record) : list cetcd_srv_record :=
  match rev_sorted with
  | [] => [key]
  | a :: rest => if srv_less key a then a :: srv_insert key rest else key :: a :: rest
  end.

Definition cetcd_discovery_sort (recs : list cetcd_srv_record) : list cetcd_srv_record :=
  reverse (foldl (fun sorted key => srv_insert key sorted) [] recs).

(** ** Looking names up *)

Record cetcd_endpoint : Type := mk_endpoint {
  e_host : bytes;
  e_port : Z;
  e_https : bool
}.

Definition CETCD_DISCOVERY_MAX_RECORDS : Z := 32.
Definition CETCD_DISCOVERY_MAX_QNAME : Z := 512.

Fixpoint endpoints_loop (https : bool) (recs : list cetcd_srv_record) : res (list cetcd_endpoint) :=
  match recs with
  | [] => Ok []
  | r :: recs =>
      if (srv_port r <? 1) || (blen (srv_target r) =? 0) then Fail CETCD_ERR_INVAL
      else if 256 <=? blen (srv_target r) then Fail CETCD_ERR_OVERFLOW
      else l ← endpoints_loop https recs; Ok (mk_endpoint (srv_target r) (srv_port r) https :: l)
  end.

Definition cetcd_discovery_records_to_endpoints (recs : list cetcd_srv_record) (https : bool) (cap : Z) : res (list cetcd_endpoint) :=
  if blen recs =? 0 then Fail CETCD_ERR_NOTFOUND
  else if cap <? blen recs then Fail CETCD_ERR_OVERFLOW
  else endpoints_loop https recs.

Section lookup.
  Context (res_query : bytes -> option bytes).

(** The buffer of the answer has 4096 bytes.  [res_query] returns the length of
    the whole answer, also when it is larger and was cut; the parser then reads
    behind the buffer. *)
Definition cetcd_discovery_lookup (qname : bytes) (cap : Z) : res (list cetcd_srv_record) :=
  if (blen qname =? 0) || (cap =? 0) then Fail CETCD_ERR_INVAL
  else
    match res_query qname with
    | None | Some [] => Fail CETCD_ERR_NOTFOUND
    | Some msg =>
        if 4096 <? blen msg then Undef
        else recs ← cetcd_discovery_parse_message msg cap; Ok (cetcd_discovery_sort recs)
    end.

Definition cetcd_discovery_resolve (kind : cetcd_discovery_kind) (name domain : bytes) (https : bool) (cap : Z) : res (list cetcd_endpoint) :=
  match cetcd_discovery_qname kind name domain CETCD_DISCOVERY_MAX_QNAME with
  | Ok q =>
      recs ← cetcd_discovery_lookup q CETCD_DISCOVERY_MAX_RECORDS;
      cetcd_discovery_records_to_endpoints recs https cap
  | _ => Fail CETCD_ERR_INVAL
  end.
End lookup.

Definition cetcd_discovery_peer_id (target : bytes) (port : Z) : res Z :=
  if (blen target =? 0) || (port <? 1) then Fail CETCD_ERR_INVAL
  else
    key ← printed 280 (target ++ [58] ++ decimal port);
    let h := cetcd_hash_fnv1a64 key in
    Ok (if h =? 0 then 1 else h).

(** ** Endpoints *)

(** [s] starts with [p]. *)
Definition starts_with (p : string) (s : bytes) : bool :=
  let p := bytes_of_string p in bool_decide (take (length p) s = p).

Definition cetcd_url_is_unix_n (s : bytes) : bool := starts_with "unix://" s || starts_with "unixs://" s.
Definition cetcd_url_is_unix : bytes -> bool := cetcd_url_is_unix_n.

Definition blank (c : Z) : bool := (c =? 32) || (c =? 9).

Fixpoint skip_ws_ (s : bytes) : bytes :=
  match s with c :: s' => if blank c then skip_ws_ s' else s | [] => [] end.

(** The text without what the predicate takes from its end, and what was taken. *)
Fixpoint split_end (p : Z -> bool) (s : bytes) : bytes * bytes :=
  match s with
  | [] => ([], [])
  | c :: s =>
      let '(a, b) := split_end p s in
      match a with [] => if p c then ([], c :: b) else ([c], b) | _ => (c :: a, b) end
  end.

Definition rtrim_ (s : bytes) : bytes * bytes := split_end (fun c => blank c || (c =? 47)) s.

(** The scheme: https, and the text after it. *)
Definition scheme (s : bytes) : bool * bytes :=
  if starts_with "https://" s then (true, drop 8 s)
  else if starts_with "http://" s then (false, drop 7 s)
  else (false, s).

(** The last of [c]: what precedes and what follows it. *)
Fixpoint split_last (c : Z) (s : bytes) : option (bytes * bytes) :=
  match s with
  | [] => None
  | x :: s =>
      match split_last c s with
      | Some (a, b) => Some (x :: a, b)
      | None => if x =? c then Some ([], s) else None
      end
  end.

(** [strtoul] at a place in the string of the caller, which goes on with [tail]
    behind the endpoint: the number has to end where the endpoint ends. *)
Definition port_at (s tail : bytes) : res Z :=
  match strtoull (s ++ tail) with
  | Some (v, rest, false) =>
      if negb (length rest =? length tail)%nat || (v <? 1) || (65535 <? v) then Fail CETCD_ERR_RANGE else Ok v
  | _ => Fail CETCD_ERR_RANGE
  end.

(** The host and the port of an endpoint without its scheme. *)
Definition endpoint_host_port (s tail : bytes) : res (bytes * Z) :=
  match s with
  | c :: s' =>
      if c =? 91 then
        let '(host, rest) := span_to 93 s' in
        match rest with
        | [] => Fail CETCD_ERR_INVAL
        | _ :: rest =>
            if blen host =? 0 then Fail CETCD_ERR_INVAL
            else if 256 <=? blen host then Fail CETCD_ERR_OVERFLOW
            else
              match rest with
              | [] => Ok (host, 2379)
              | c :: rest =>
                  if negb (c =? 58) then Fail CETCD_ERR_INVAL
                  else if blen rest =? 0 then Fail CETCD_ERR_INVAL
                  else port ← port_at rest tail; Ok (host, port)
              end
        end
      else
        match split_last 58 s with
        | Some (host, rest) =>
            if (blen host =? 0) || (256 <=? blen host) then Fail CETCD_ERR_INVAL
            else port ← port_at rest tail; Ok (host, port)
        | None => if 256 <=? blen s then Fail CETCD_ERR_INVAL else Ok (s, 2379)
        end
  | [] => Fail CETCD_ERR_INVAL
  end.

(** The endpoint [s], behind which the string goes on with [tail]. *)
Definition parse_one_endpoint_ (s tail : bytes) : res cetcd_endpoint :=
  if blen s =? 0 then Fail CETCD_ERR_INVAL
  else
    let '(s, trimmed) := rtrim_ s in
    let s := skip_ws_ s in
    if blen s =? 0 then Fail CETCD_ERR_INVAL
    else if cetcd_url_is_unix_n s then Fail CETCD_ERR_UNSUPPORT
    else
      let '(https, s) := scheme s in
      let s := skip_ws_ s in
      if blen s =? 0 then Fail CETCD_ERR_INVAL
      else '(host, port) ← endpoint_host_port s (trimmed ++ tail); Ok (mk_endpoint host port https).

(** The loop over the list, one round for each comma. *)
Fixpoint endpoints_parse_loop (n : nat) (p : bytes) (cap : Z) (out : list cetcd_endpoint) : res (list cetcd_endpoint) :=
  match n, p with
  | _, [] => Ok out
  | O, _ => Loop
  | S n, _ =>
      let '(chunk, rest) := span_to 44 p in
      if cap <=? blen out then Fail CETCD_ERR_OVERFLOW
      else
        e ← parse_one_endpoint_ chunk rest;
        match rest with
        | [] => Ok (out ++ [e])
        | [_] => Fail CETCD_ERR_INVAL
        | _ :: p => endpoints_parse_loop n p cap (out ++ [e])
        end
  end.

Definition cetcd_endpoint_parse_list (spec : bytes) (cap : Z) : res (list cetcd_endpoint) :=
  if (cap =? 0) || (blen spec =? 0) then Fail CETCD_ERR_INVAL
  else
    out ← endpoints_parse_loop (length spec) spec cap [];
    match out with [] => Fail CETCD_ERR_NOTFOUND | _ => Ok out end.

(** ** Addresses *)

(** An octet and what follows it; [None] is -1. *)
Definition octet (s : bytes) : option (Z * bytes) :=
  match s with
  | c :: _ =>
      if negb (isdigit c) then None
      else match strtoull s with Some (v, rest, false) => if 255 <? v then None else Some (v, rest) | _ => None end
  | [] => None
  end.

Definition octet_dot (s : bytes) : option (Z * bytes) :=
  '(v, rest) ← octet s;
  match rest with c :: rest => if c =? 46 then Some (v, rest) else None | [] => None end.

(** The address, or whether text is left over behind a complete one (-2) or it
    is none (-1). *)
Definition parse_ipv4_exact_ (s : bytes) : Z + bool :=
  match (a ← octet_dot s; b ← octet_dot (snd a); c ← octet_dot (snd b); d ← octet (snd c); Some (fst a, fst b, fst c, d)) with
  | None => inr false
  | Some (a, b, c, (d, rest)) =>
      match rest with
      | [] => inl (Z.lor (Z.lor (Z.lor (Z.shiftl a 24) (Z.shiftl b 16)) (Z.shiftl c 8)) d)
      | _ => inr true
      end
  end.

Inductive sockaddr : Type :=
| sockaddr_in (port addr : Z)
| sockaddr_in6 (port : Z) (addr : bytes) (scope_id : Z).

Definition is_v4 (a : sockaddr) : bool := match a with sockaddr_in _ _ => true | _ => false end.

Section addresses.
  Context (inet_pton : bytes -> option bytes) (getaddrinfo : bool -> bytes -> Z -> option (list sockaddr)).

Definition zone_ok (z : bytes) : bool :=
  match z with
  | [] => false
  | c :: _ =>
      if isdigit c then match strtoull z with Some (_, [], false) => true | _ => false end
      else if ((65 <=? c) && (c <=? 90)) || ((97 <=? c) && (c <=? 122)) then
        forallb (fun c => is_alnum_ c || (c =? 95) || (c =? 45) || (c =? 46)) z
      else false
  end.

(** The address and the zone. *)
Definition cetcd_parse_ipv6_zone (host : bytes) (addr_cap zone_cap : Z) : res (bytes * bytes) :=
  if (blen host =? 0) || (addr_cap <? 2) || (zone_cap <? 1) then Fail CETCD_ERR_INVAL
  else
    let '(addr, rest) := span_to 37 host in
    match rest with
    | [] =>
        if addr_cap <? blen host + 1 then Fail CETCD_ERR_OVERFLOW
        else if bool_decide (58 ∈ host) && bool_decide (inet_pton host = None) then Fail CETCD_ERR_INVAL
        else Ok (host, [])
    | _ :: z =>
        if (blen addr =? 0) || (addr_cap <? blen addr + 1) then Fail CETCD_ERR_INVAL
        else if blen z =? 0 then Fail CETCD_ERR_INVAL
        else if zone_cap <? blen z + 1 then Fail CETCD_ERR_OVERFLOW
        else if negb (zone_ok z) then Fail CETCD_ERR_INVAL
        else if bool_decide (inet_pton addr = None) then Fail CETCD_ERR_INVAL
        else Ok (addr, z)
    end.

(** At most [cap] addresses, those of IPv4 first; [getaddrinfo] is told whether
    the host is numeric. *)
Definition cetcd_host_port_resolve_n (host : bytes) (port : Z) (cap : Z) : res (list sockaddr) :=
  if (blen host =? 0) || (cap =? 0) then Fail CETCD_ERR_INVAL
  else
    match parse_ipv4_exact_ host with
    | inr true => Fail CETCD_ERR_INVAL
    | inl v4 => Ok [sockaddr_in port v4]
    | inr false =>
        if bool_decide (58 ∈ host) then
          match cetcd_parse_ipv6_zone host 128 64 with
          | Ok (addr, []) => match inet_pton addr with Some v6 => Ok [sockaddr_in6 port v6 0] | None => Fail CETCD_ERR_INVAL end
          | Ok (_, _) =>
              if 8 <=? blen (decimal port) then Fail CETCD_ERR_OVERFLOW
              else match getaddrinfo true host port with Some (a :: _) => Ok [a] | _ => Fail CETCD_ERR_INVAL end
          | _ => Fail CETCD_ERR_INVAL
          end
        else if negb (cetcd_discovery_valid_domain host) then Fail CETCD_ERR_INVAL
        else if 8 <=? blen (decimal port) then Fail CETCD_ERR_OVERFLOW
        else
          match getaddrinfo false host port with
          | None => Fail CETCD_ERR_INVAL
          | Some l =>
              match take (Z.to_nat cap) (List.filter is_v4 l ++ List.filter (fun a => negb (is_v4 a)) l) with
              | [] => Fail CETCD_ERR_INVAL
              | out => Ok out
              end
          end
    end.

Definition cetcd_host_port_resolve (host : bytes) (port : Z) : res sockaddr :=
  l ← cetcd_host_port_resolve_n host port 1;
  match l with [a] => Ok a | _ => Fail CETCD_ERR_INVAL end.

Definition cetcd_format_host_port (host : bytes) (port cap : Z) : res bytes :=
  if (blen host =? 0) || (cap <? 4) then Fail CETCD_ERR_INVAL
  else printed cap (if bool_decide (58 ∈ host) then [91] ++ host ++ [93; 58] ++ decimal port else host ++ [58] ++ decimal port).

(** ** Host and port, the initial cluster *)

Definition trim_ (s : bytes) : bytes := fst (split_end blank (skip_ws_ s)).

Definition port_of (s : bytes) : res Z :=
  match strtoll s with
  | Some (v, [], false) => if (v <? 1) || (65535 <? v) then Fail CETCD_ERR_RANGE else Ok v
  | _ => Fail CETCD_ERR_RANGE
  end.

(** The address and the port of the text behind the scheme. *)
Definition host_port (p : bytes) (default_port : Z) : res (bytes * Z) :=
  match p with
  | c :: p' =>
      if c =? 91 then
        let '(host, rest) := span_to 93 p' in
        match rest with
        | [] => Fail CETCD_ERR_INVAL
        | _ :: rest =>
            if blen host =? 0 then Fail CETCD_ERR_INVAL
            else
              match rest with
              | [] => Ok (host, default_port)
              | c :: rest => if c =? 58 then port ← port_of rest; Ok (host, port) else Fail CETCD_ERR_INVAL
              end
        end
      else
        match split_last 58 p with
        | Some (host, rest) => if blen host =? 0 then Fail CETCD_ERR_INVAL else port ← port_of rest; Ok (host, port)
        | None => Ok (p, default_port)
        end
  | [] => Fail CETCD_ERR_INVAL
  end.

(** The bytes of [url] are copied, and read up to the first 0. *)
Definition cetcd_parse_host_port (url : bytes) (addr_cap default_port : Z) : res (bytes * Z) :=
  if (addr_cap <? 2) || (default_port <? 1) then Fail CETCD_ERR_INVAL
  else if (blen url =? 0) || (256 <=? blen url) then Fail CETCD_ERR_INVAL
  else
    let buf := trim_ (cstr url) in
    if blen buf =? 0 then Fail CETCD_ERR_INVAL
    else if cetcd_url_is_unix buf then Fail CETCD_ERR_UNSUPPORT
    else
      '(addr, port) ← host_port (snd (scheme buf)) default_port;
      if (blen addr =? 0) || (addr_cap <=? blen addr) then Fail CETCD_ERR_INVAL
      else if bool_decide (58 ∈ addr) then
        match cetcd_parse_ipv6_zone addr 256 64 with Ok _ => Ok (addr, port) | _ => Fail CETCD_ERR_INVAL end
      else Ok (addr, port).

Definition cetcd_parse_peer_url (url : bytes) (addr_cap : Z) : res (bytes * Z) := cetcd_parse_host_port url addr_cap 2380.

(** A member and whether its address asks for TLS. *)
Definition parse_one_ (tok : bytes) : res (cetcd_peer_info * bool) :=
  let '(name, rest) := span_to 61 tok in
  match rest with
  | [] | [_] => Fail CETCD_ERR_INVAL
  | _ :: addr_part =>
      if blen name =? 0 then Fail CETCD_ERR_INVAL
      else
        let name := trim_ name in
        let addr_part := trim_ addr_part in
        if (blen name =? 0) || (blen addr_part =? 0) then Fail CETCD_ERR_INVAL
        else
          match strtoull name with
          | Some (nid, [], false) =>
              if nid <? 1 then Fail CETCD_ERR_INVAL
              else
                '(addr, port) ← cetcd_parse_peer_url addr_part 256;
                Ok (mk_peer nid addr port false, starts_with "https://" addr_part)
          | _ => Fail CETCD_ERR_INVAL
          end
  end.

Fixpoint cluster_loop (n : nat) (p : bytes) (cap : Z) (out : list cetcd_peer_info) (https : bool) : res (list cetcd_peer_info * bool) :=
  match n with
  | O => Loop
  | S n =>
      let '(chunk, rest) := span_to 44 p in
      let tok := trim_ chunk in
      if blen tok =? 0 then Fail CETCD_ERR_INVAL
      else if cap <=? blen out then Fail CETCD_ERR_INVAL
      else
        '(pi, tls) ← parse_one_ tok;
        if existsb (fun q => p_id q =? p_id pi) out then Fail CETCD_ERR_INVAL
        else
          match rest with
          | [] => Ok (out ++ [pi], https || tls)
          | _ :: p => cluster_loop n p cap (out ++ [pi]) (https || tls)
          end
  end.

Definition cetcd_parse_initial_cluster (spec : bytes) (cap : Z) : res (list cetcd_peer_info * bool) :=
  if (blen spec =? 0) || (cap =? 0) then Fail CETCD_ERR_INVAL
  else if 2048 <=? blen spec then Fail CETCD_ERR_INVAL
  else cluster_loop (S (length spec)) spec cap [] false.
End addresses.
