(* ===== verification/DiscoveryProps.v ===== *)
(** * Names, addresses and discovery: properties

    Reading a DNS message ends and stays within its buffers, for any bytes; a
    message that carries SRV records is read back as these records; sorting;
    printing and parsing of host and port and of the initial cluster. *)

From Stdlib Require Import String Sorting.Sorted.
From S2P Require Import Hash CString Config ConfigProps Cluster Raft RaftWire Pb PbSafe Snap Discovery Prelude.

#[local] Open Scope Z_scope.

(** ** Reading names *)

Definition is_byte (b : Z) : Prop := 0 <= b < 256.

(** What the result of a reader satisfies. *)
Definition res_ok {A} (P : A -> Prop) (r : res A) : Prop :=
  match r with Ok a => P a | Fail _ => True | Undef | Loop => False end.

Lemma res_ok_bind {A B} (P : A -> Prop) (Q : B -> Prop) (r : res A) (f : A -> res B) :
  res_ok P r -> (forall a, P a -> res_ok Q (f a)) -> res_ok Q (mbind f r).
Proof. destruct r; cbn; auto. Qed.

Lemma res_ok_mono {A} (P Q : A -> Prop) (r : res A) : res_ok P r -> (forall a, P a -> Q a) -> res_ok Q r.
Proof. destruct r; cbn; auto. Qed.

(** The rounds that are left to the name loop: one for each position up to the
    end, for each pointer that may still be followed. *)
Definition name_rounds (msg : bytes) (pos hops : nat) : nat := ((17 - hops) * (length msg + 2) + (length msg - pos))%nat.

Lemma name_loop_ends n : forall msg cap pos ended hops out, (name_rounds msg pos hops < n)%nat -> (hops <= 16)%nat -> (length out < cap)%nat ->
  res_ok (fun '(out, _) => (length out < cap)%nat) (name_loop n msg cap pos ended hops out).
Proof.
  induction n as [|n IH]; intros msg cap pos ended hops out Hn Hh Ho; [lia|]. cbn [name_loop].
  destruct (msg !! pos) as [lab|] eqn:Hp; [|exact I]. apply lookup_lt_Some in Hp.
  destruct (Z.eqb_spec lab 0); [exact Ho|]. destruct (Z.land lab 0xc0 =? 0xc0).
  - destruct (msg !! S pos) as [b|]; [|exact I]. cbv zeta. set (ptr := Z.to_nat _).
    destruct (_ || _)%bool; [exact I|]. destruct (Nat.ltb_spec 16 (S hops)); [exact I|]. apply IH; [|lia|done].
    unfold name_rounds in *. replace (17 - hops)%nat with (S (17 - S hops)) in Hn by lia. rewrite Nat.mul_succ_l in Hn. lia.
  - destruct (negb _) eqn:Ez; [exact I|]. cbv zeta. destruct (Nat.ltb_spec (length msg) (S pos + Z.to_nat lab)); [exact I|].
    destruct (negb _ && _)%bool eqn:Ec; [exact I|]. destruct (Nat.leb_spec cap (length (if (length out =? 0)%nat then out else out ++ [46]) + Z.to_nat lab)); [exact I|].
    apply IH; [unfold name_rounds in *; lia|done|rewrite length_app, length_take, length_drop; lia].
Qed.

Lemma read_name_ends msg off cap : (0 < cap)%nat ->
  res_ok (fun '(out, _) => nul_free out /\ (length out < cap)%nat) (read_name_ msg off cap).
Proof.
  intros Hc. unfold read_name_. eapply res_ok_bind; [apply name_loop_ends; [unfold name_rounds, name_fuel; lia|lia|cbn; lia]|].
  intros [out fin] Ho. pose proof (cstr_length out). destruct (length out =? 0)%nat; [exact I|]. case_bool_decide.
  - pose proof (cstr_length (removelast out)) as Hl. rewrite (removelast_firstn_len out) in Hl at 2. rewrite length_take in Hl.
    case_bool_decide; [exact I|]. split; [apply cstr_nul_free|lia].
  - split; [apply cstr_nul_free|lia].
Qed.

Lemma u16_value a b : is_byte b -> Z.lor (Z.shiftl a 8) b = a * 256 + b.
Proof. intros Hb. unfold is_byte in Hb. rewrite Z.lor_comm, lor_shiftl_add by lia. lia. Qed.

Lemma u16_at_ok msg off : Forall is_byte msg -> res_ok (fun '(v, off') => 0 <= v < 65536 /\ off' = (off + 2)%nat /\ (off' <= length msg)%nat) (u16_at msg off).
Proof.
  intros Hm. unfold u16_at, read_u16_. destruct (msg !! off) as [a|] eqn:Ha; [|exact I]. destruct (msg !! S off) as [b|] eqn:Hb; [|exact I].
  pose proof (lookup_lt_Some _ _ _ Hb). pose proof (Forall_lookup_1 _ _ _ _ Hm Ha) as Ra. pose proof (Forall_lookup_1 _ _ _ _ Hm Hb) as Rb.
  unfold is_byte in *. cbn. split; [|lia]. rewrite u16_value by done. lia.
Qed.

Lemma skip_questions_ends qd : forall msg off, Forall is_byte msg -> res_ok (fun _ => True) (skip_questions qd msg off).
Proof.
  induction qd as [|qd IH]; intros msg off Hm; [exact I|]. cbn [skip_questions].
  eapply res_ok_bind; [apply read_name_ends; lia|]. intros [name off1] _.
  eapply res_ok_bind; [by apply u16_at_ok|]. intros [t off2] _. eapply res_ok_bind; [by apply u16_at_ok|]. intros [c off3] _. by apply IH.
Qed.

(** A record that can be used to connect, but for an empty target. *)
Definition srv_ok (r : cetcd_srv_record) : Prop :=
  0 <= srv_priority r < 65536 /\ 0 <= srv_weight r < 65536 /\ 1 <= srv_port r < 65536 /\ nul_free (srv_target r) /\ blen (srv_target r) < 256.

Lemma read_srv_ok msg off rdlen : Forall is_byte msg -> res_ok srv_ok (read_srv msg off rdlen).
Proof.
  intros Hm. unfold read_srv. eapply res_ok_bind; [by apply u16_at_ok|]. intros [pri o1] (H1 & _). eapply res_ok_bind; [by apply u16_at_ok|]. intros [w o2] (H2 & _).
  eapply res_ok_bind; [by apply u16_at_ok|]. intros [port o3] (H3 & _). destruct (Z.ltb_spec port 1); [exact I|].
  eapply res_ok_bind; [apply (read_name_ends msg o3 256); lia|]. intros [target o4] [Hn Hl]. destruct (_ <? _)%nat; [exact I|].
  cbn. unfold srv_ok. cbn [srv_priority srv_weight srv_port srv_target]. unfold blen. split_and!; (lia || done).
Qed.

Lemma read_records_ok total : forall an msg off cap out, Forall is_byte msg -> Forall srv_ok out -> blen out <= cap ->
  res_ok (fun out => Forall srv_ok out /\ blen out <= cap) (read_records total an msg off cap out).
Proof.
  induction total as [|total IH]; intros an msg off cap out Hm Ho Hc; [done|]. cbn [read_records].
  eapply res_ok_bind; [apply read_name_ends; lia|]. intros [name o1] _. eapply res_ok_bind; [by apply u16_at_ok|]. intros [type o2] _.
  eapply res_ok_bind; [by apply u16_at_ok|]. intros [cls o3] _. destruct (_ <? _)%nat; [exact I|].
  eapply res_ok_bind; [by apply u16_at_ok|]. intros [rdlen o4] _. destruct (_ <? _)%nat; [exact I|].
  eapply (res_ok_bind (fun out => Forall srv_ok out /\ blen out <= cap)).
  - destruct (_ && _)%bool; [|done]. destruct (rdlen <? 7); [exact I|]. destruct (Z.leb_spec cap (blen out)); [exact I|].
    eapply res_ok_bind; [by apply read_srv_ok|]. intros r Hr. cbn. split; [apply Forall_app; by split; [|apply Forall_singleton]|].
    unfold blen in *. rewrite length_app. cbn. lia.
  - intros out' [Ho' Hc']. by apply IH.
Qed.

Lemma parse_message_ok msg cap : Forall is_byte msg -> 0 <= cap ->
  res_ok (fun recs => recs <> [] /\ blen recs <= cap /\ Forall srv_ok recs) (cetcd_discovery_parse_message msg cap).
Proof.
  intros Hm Hc. unfold cetcd_discovery_parse_message. destruct (cap =? 0); [exact I|]. destruct (blen msg <? 12); [exact I|].
  eapply res_ok_bind; [by apply u16_at_ok|]. intros [qd o1] _. eapply res_ok_bind; [by apply u16_at_ok|]. intros [an o2] _.
  eapply res_ok_bind; [by apply u16_at_ok|]. intros [ns o3] _. eapply res_ok_bind; [by apply u16_at_ok|]. intros [ar o4] _.
  eapply res_ok_bind; [by apply skip_questions_ends|]. intros o5 _. eapply res_ok_bind; [apply read_records_ok; [done|constructor|done]|].
  intros out [Ho Hl]. by destruct out.
Qed.

(** ** A message with SRV records *)

Definition be16 (v : Z) : bytes := [v / 256; v mod 256].
Definition label_wire (l : bytes) : bytes := blen l :: l.
Definition labels_wire (ls : list bytes) : bytes := concat (label_wire <$> ls).
Definition name_wire (ls : list bytes) : bytes := labels_wire ls ++ [0].

(** The text of a name: its labels with dots in between. *)
Definition add_label (out l : bytes) : bytes := (if (length out =? 0)%nat then out else out ++ [46]) ++ l.
Definition name_text (ls : list bytes) : bytes := foldl add_label [] ls.

Definition label_ok (l : bytes) : Prop := 1 <= blen l <= 63 /\ nul_free l /\ 46 ∉ l.
Definition name_ok (ls : list bytes) : Prop := ls <> [] /\ Forall label_ok ls /\ blen (name_text ls) < 256.

(** The answer of a server: the question, and the records with a pointer to the
    name of the question. *)
Definition srv_question (q : list bytes) : bytes := name_wire q ++ be16 33 ++ be16 1.
Definition srv_wire (r : Z * Z * Z * list bytes) : bytes :=
  let '(pri, w, port, t) := r in
  [192; 12] ++ be16 33 ++ be16 1 ++ [0; 0; 0; 60] ++ be16 (6 + blen (name_wire t)) ++ be16 pri ++ be16 w ++ be16 port ++ name_wire t.
Definition srv_answer (q : list bytes) (rs : list (Z * Z * Z * list bytes)) : bytes :=
  [0; 0; 132; 0] ++ be16 1 ++ be16 (blen rs) ++ be16 0 ++ be16 0 ++ srv_question q ++ concat (srv_wire <$> rs).
Definition srv_record (r : Z * Z * Z * list bytes) : cetcd_srv_record := let '(pri, w, port, t) := r in mk_srv pri w port (name_text t).
Definition srv_fits (r : Z * Z * Z * list bytes) : Prop :=
  let '(pri, w, port, t) := r in 0 <= pri < 65536 /\ 0 <= w < 65536 /\ 1 <= port < 65536 /\ name_ok t.

(** [msg] has [d] at [off], and [rest] behind it. *)
Definition has_at (msg : bytes) (off : nat) (d rest : bytes) : Prop := drop off msg = d ++ rest.

Lemma has_at_next msg off d e rest : has_at msg off (d ++ e) rest -> has_at msg off d (e ++ rest) /\ has_at msg (off + length d) e rest.
Proof.
  unfold has_at. rewrite <- app_assoc. intros H. split; [done|]. by rewrite <- drop_drop, H, drop_app_length.
Qed.

Lemma has_at_lookup msg off d rest i b : has_at msg off d rest -> d !! i = Some b -> msg !! (off + i)%nat = Some b.
Proof. unfold has_at. intros H Hb. rewrite <- lookup_drop, H. by apply lookup_app_l_Some. Qed.

Lemma has_at_length msg off d rest : has_at msg off d rest -> d <> [] -> (off + length d + length rest = length msg)%nat.
Proof.
  unfold has_at. intros H Hd. apply (f_equal length) in H. rewrite length_drop, length_app in H.
  assert (0 < length d)%nat by (destruct d; [done|cbn; lia]). lia.
Qed.

Lemma has_at_take msg off d rest : has_at msg off d rest -> take (length d) (drop off msg) = d.
Proof. unfold has_at. intros ->. by rewrite take_app_length. Qed.

Lemma u16_here msg off v rest : has_at msg off (be16 v) rest -> u16_at msg off = Ok (v, (off + 2)%nat).
Proof.
  intros H. unfold u16_at, read_u16_. pose proof (has_at_lookup _ _ _ _ 0 _ H eq_refl) as H0. pose proof (has_at_lookup _ _ _ _ 1 _ H eq_refl) as H1.
  rewrite Nat.add_0_r in H0. rewrite Nat.add_1_r in H1. rewrite H0, H1. do 2 f_equal.
  pose proof (Z.mod_pos_bound v 256 ltac:(lia)). rewrite u16_value by (unfold is_byte; lia). pose proof (Z.div_mod v 256 ltac:(lia)). lia.
Qed.

Lemma add_label_length out l : (length out <= length (add_label out l))%nat.
Proof. unfold add_label. destruct (_ =? 0)%nat; rewrite ?length_app; lia. Qed.

Lemma text_length ls : forall out, (length out <= length (foldl add_label out ls))%nat.
Proof. induction ls as [|l ls IH]; intros out; [done|]. cbn [foldl]. pose proof (add_label_length out l). specialize (IH (add_label out l)). lia. Qed.

Lemma name_loop_labels ls : forall n msg cap pos ended hops out rest, Forall label_ok ls -> has_at msg pos (name_wire ls) rest -> (length ls < n)%nat ->
  (length (foldl add_label out ls) < cap)%nat ->
  name_loop n msg cap pos ended hops out = Ok (foldl add_label out ls, default (pos + length (name_wire ls))%nat ended).
Proof.
  induction ls as [|l ls IH]; intros n msg cap pos ended hops out rest Hls Hat Hn Hc; (destruct n as [|n]; [cbn in Hn; lia|]); cbn [name_loop].
  - pose proof (has_at_lookup _ _ _ _ 0 _ Hat eq_refl) as H0. rewrite Nat.add_0_r in H0. rewrite H0. cbn. by rewrite Nat.add_1_r.
  - apply Forall_cons in Hls as [(Hl & _ & _) Hls]. cbn [foldl] in *. pose proof (text_length ls (add_label out l)) as Ht.
    change (name_wire (l :: ls)) with ((blen l :: l ++ labels_wire ls) ++ [0]) in *. rewrite <- app_comm_cons, <- app_assoc in *. fold (name_wire ls) in *.
    pose proof (has_at_length _ _ _ _ Hat ltac:(done)) as Hlen. cbn [length] in Hlen. rewrite length_app in Hlen.
    pose proof (has_at_lookup _ _ _ _ 0 _ Hat eq_refl) as H0. rewrite Nat.add_0_r in H0. rewrite H0.
    change (blen l :: l ++ name_wire ls) with ([blen l] ++ (l ++ name_wire ls)) in Hat. apply has_at_next in Hat as [_ Hat]. cbn [length] in Hat. rewrite Nat.add_1_r in Hat.
    apply has_at_next in Hat as [Hhere Hat].
    assert (Hland : forall m, m = 192 -> Z.land (blen l) m = 0).
    { intros m ->. apply Z.bits_inj'. intros k Hk. rewrite Z.land_spec, Z.bits_0. destruct (Z.ltb_spec k 6).
      - rewrite andb_false_iff. right. change 192 with (Z.shiftl 3 6). by rewrite Z.shiftl_spec_low.
      - rewrite (Z.bits_above_log2 (blen l)); [done|lia|]. apply Z.log2_lt_pow2; [lia|]. pose proof (Z.pow_le_mono_r 2 6 k ltac:(lia) ltac:(lia)). lia. }
    rewrite (proj2 (Z.eqb_neq (blen l) 0)) by lia. rewrite Hland by done. cbn [Z.eqb negb].
    replace (Z.to_nat (blen l)) with (length l) by (unfold blen; lia). rewrite (proj2 (Nat.ltb_ge _ _)) by lia.
    assert (Hal : length (add_label out l) = (length (if (length out =? 0)%nat then out else out ++ [46%Z]) + length l)%nat) by apply length_app.
    assert (Hroom : (negb (length out =? 0)%nat && (cap <=? length out + 1)%nat)%bool = false).
    { destruct (length out =? 0)%nat; [done|]. cbn. apply Nat.leb_gt. rewrite length_app in Hal. cbn [length] in Hal. lia. }
    rewrite Hroom. cbv zeta. rewrite (proj2 (Nat.leb_gt _ _)) by lia.
    rewrite (has_at_take _ _ _ _ Hhere). fold (add_label out l). rewrite (IH n msg cap _ ended hops _ rest Hls Hat ltac:(cbn in Hn; lia) Hc).
    do 2 f_equal. f_equal. cbn [length]. rewrite length_app. lia.
Qed.

Lemma labels_count ls : (length ls <= length (labels_wire ls))%nat.
Proof. induction ls as [|l ls IH]; [done|]. change (labels_wire (l :: ls)) with ((blen l :: l) ++ labels_wire ls). rewrite length_app. cbn [length]. lia. Qed.

Lemma text_clean ls : Forall label_ok ls -> forall out, nul_free out -> (ls <> [] \/ last out <> Some 46) ->
  nul_free (foldl add_label out ls) /\ last (foldl add_label out ls) <> Some 46.
Proof.
  induction 1 as [|l ls (Hl & Hnf & Hd) Hls IH]; intros out Ho Hne; [destruct Hne; done|]. cbn [foldl]. apply IH.
  - unfold add_label. destruct (_ =? 0)%nat; repeat (apply Forall_app; split); try done. by apply Forall_singleton.
  - right. unfold add_label. destruct l as [|x l' _] using rev_ind; [unfold blen in Hl; cbn in Hl; lia|]. rewrite app_assoc, last_snoc.
    intros [= ->]. apply Hd. apply elem_of_app. right. by apply list_elem_of_singleton.
Qed.

(** A name with [labels] at [off], read from there or through a pointer. *)
Lemma read_name_of msg off fin ls : name_ok ls -> name_loop (name_fuel msg) msg 256 off None 0 [] = Ok (name_text ls, fin) ->
  read_name_ msg off 256 = Ok (name_text ls, fin).
Proof.
  intros (Hne & Hls & Hl) Hloop. unfold read_name_. rewrite Hloop. cbn [mbind res_bind].
  destruct (text_clean ls Hls [] ltac:(constructor) ltac:(by left)) as [Hnf Hlast]. fold (name_text ls) in *.
  assert (Hlen : (0 < length (name_text ls))%nat).
  { destruct ls as [|l ls]; [done|]. apply Forall_cons in Hls as [(Hl1 & _) _]. unfold name_text. cbn [foldl].
    pose proof (text_length ls (add_label [] l)). cbn [add_label length Nat.eqb app] in *. unfold blen in Hl1. unfold add_label in *. cbn in *. lia. }
  rewrite (proj2 (Nat.eqb_neq _ _)) by lia. rewrite bool_decide_false by done. by rewrite cstr_id.
Qed.

Lemma read_name_here msg off ls rest : name_ok ls -> has_at msg off (name_wire ls) rest ->
  read_name_ msg off 256 = Ok (name_text ls, (off + length (name_wire ls))%nat).
Proof.
  intros Hok Hat. apply read_name_of; [done|]. destruct Hok as (_ & Hls & Hl). unfold blen in Hl.
  pose proof (has_at_length _ _ _ _ Hat ltac:(unfold name_wire; by destruct (labels_wire ls))) as Hlen. pose proof (labels_count ls). unfold name_wire in Hlen. rewrite length_app in Hlen.
  rewrite (name_loop_labels ls _ msg 256 off None 0 [] rest Hls Hat); [done|unfold name_fuel; lia|fold (name_text ls); lia].
Qed.

Lemma read_name_pointer msg off ls rest rest' : name_ok ls -> has_at msg 12 (name_wire ls) rest -> has_at msg off [192; 12] rest' -> off <> 12%nat ->
  read_name_ msg off 256 = Ok (name_text ls, (off + 2)%nat).
Proof.
  intros Hok Hat Hp Hoff. apply read_name_of; [done|]. destruct Hok as (_ & Hls & Hl). unfold blen in Hl.
  pose proof (has_at_length _ _ _ _ Hat ltac:(unfold name_wire; by destruct (labels_wire ls))) as Hlen. pose proof (labels_count ls). unfold name_wire in Hlen. rewrite length_app in Hlen. cbn in Hlen.
  unfold name_fuel. replace (18 * (length msg + 2))%nat with (S (18 * (length msg + 2) - 1)) by lia. cbn [name_loop].
  pose proof (has_at_lookup _ _ _ _ 0 _ Hp eq_refl) as H0. pose proof (has_at_lookup _ _ _ _ 1 _ Hp eq_refl) as H1.
  rewrite Nat.add_0_r in H0. rewrite Nat.add_1_r in H1. rewrite H0, H1. cbn [Z.eqb Z.land Pos.land Pos.Nsucc_double Pos.Ndouble Z.of_N].
  change (Z.to_nat (Z.lor (Z.shiftl (Z.land 192 63) 8) 12)) with 12%nat. change (Z.land 192 192 =? 192) with true. cbv iota zeta.
  rewrite (proj2 (Nat.leb_gt _ _)) by lia. rewrite (proj2 (Nat.eqb_neq 12 off)) by done. change (16 <? 1)%nat with false. cbn [orb default].
  rewrite (name_loop_labels ls _ msg 256 12 _ 1 [] rest Hls Hat); [done|lia|fold (name_text ls); lia].
Qed.

Lemma text_wire_length ls : Forall label_ok ls -> forall out, (0 < length out)%nat -> length (foldl add_label out ls) = (length out + length (labels_wire ls))%nat.
Proof.
  induction 1 as [|l ls Hl Hls IH]; intros out Ho; [cbn; lia|]. cbn [foldl]. change (labels_wire (l :: ls)) with ((blen l :: l) ++ labels_wire ls).
  assert (E : length (add_label out l) = (length out + 1 + length l)%nat).
  { unfold add_label. rewrite (proj2 (Nat.eqb_neq _ _)) by lia. rewrite !length_app. cbn. lia. }
  rewrite IH by lia. rewrite E, length_app. cbn [length]. lia.
Qed.

Lemma name_wire_length ls : name_ok ls -> 3 <= blen (name_wire ls) < 258.
Proof.
  intros (Hne & Hls & Hl). destruct ls as [|l ls]; [done|]. apply Forall_cons in Hls as [(Hl1 & _) Hls]. unfold name_text in Hl. cbn [foldl] in Hl.
  change (add_label [] l) with l in Hl. unfold blen in *. rewrite text_wire_length in Hl by (done || lia).
  unfold name_wire. change (labels_wire (l :: ls)) with ((blen l :: l) ++ labels_wire ls). rewrite !length_app. cbn [length]. lia.
Qed.

(** The head of what is at [off], and the rest behind it. *)
Ltac peel H H1 := apply has_at_next in H as [H1 H]; cbn [length be16] in H.

Lemma read_srv_wire msg off pri w port t rest : srv_fits (pri, w, port, t) -> has_at msg off (be16 pri ++ be16 w ++ be16 port ++ name_wire t) rest ->
  read_srv msg off (6 + blen (name_wire t)) = Ok (srv_record (pri, w, port, t)).
Proof.
  intros (Hp & Hw & Hport & Ht) Hat. pose proof (name_wire_length t Ht). unfold read_srv.
  peel Hat A1. rewrite (u16_here _ _ _ _ A1). cbn [mbind res_bind]. peel Hat A2. rewrite (u16_here _ _ _ _ A2). cbn [mbind res_bind].
  peel Hat A3. rewrite (u16_here _ _ _ _ A3). cbn [mbind res_bind]. rewrite (proj2 (Z.ltb_ge port 1)) by lia.
  rewrite (read_name_here _ _ _ _ Ht Hat). cbn [mbind res_bind]. rewrite (proj2 (Nat.ltb_ge _ _)); [done|]. unfold blen in *. lia.
Qed.

Lemma read_record_wire msg q r total an off cap out rest rest0 : name_ok q -> has_at msg 12 (name_wire q) rest0 -> off <> 12%nat -> srv_fits r ->
  has_at msg off (srv_wire r) rest -> blen out < cap ->
  read_records (S total) (S an) msg off cap out = read_records total an msg (off + length (srv_wire r)) cap (out ++ [srv_record r]).
Proof.
  intros Hq Hq0 Hoff Hr Hat Hcap. destruct r as [[[pri w] port] t]. pose proof Hr as (_ & _ & _ & Ht). pose proof (name_wire_length t Ht) as Hlen.
  pose proof (has_at_length _ _ _ _ Hat ltac:(done)) as Htot.
  assert (Hsize : length (srv_wire (pri, w, port, t)) = (18 + length (name_wire t))%nat) by (unfold srv_wire; rewrite !length_app; cbn; lia).
  rewrite Hsize in *. unfold srv_wire in Hat. cbn [read_records]. peel Hat A1. rewrite (read_name_pointer msg off q rest0 _ Hq Hq0 A1 Hoff). cbn [mbind res_bind].
  peel Hat A2. rewrite (u16_here _ _ _ _ A2). cbn [mbind res_bind]. peel Hat A3. rewrite (u16_here _ _ _ _ A3). cbn [mbind res_bind].
  rewrite (proj2 (Nat.ltb_ge _ _)) by lia. peel Hat A4. peel Hat A5. rewrite (u16_here _ _ _ _ A5). cbn [mbind res_bind].
  set (rd := 6 + blen (name_wire t)). rewrite (proj2 (Nat.ltb_ge _ _)) by (unfold rd, blen in *; lia). change (33 =? 33) with true. change (0 <? S an)%nat with true. cbn [andb].
  rewrite (proj2 (Z.ltb_ge rd 7)) by (unfold rd; lia). rewrite (proj2 (Z.leb_gt _ _)) by done. unfold rd.
  rewrite (read_srv_wire _ _ _ _ _ _ _ Hr Hat). cbn [mbind res_bind Nat.pred]. f_equal. unfold blen. lia.
Qed.

Lemma read_records_wire msg q rest0 rs : name_ok q -> has_at msg 12 (name_wire q) rest0 -> Forall srv_fits rs ->
  forall off cap out rest, (12 < off)%nat -> has_at msg off (concat (srv_wire <$> rs)) rest -> blen out + blen rs <= cap ->
  read_records (length rs) (length rs) msg off cap out = Ok (out ++ (srv_record <$> rs)).
Proof.
  intros Hq Hq0. induction 1 as [|r rs Hr Hrs IH]; intros off cap out rest Hoff Hat Hcap; [by rewrite app_nil_r|].
  cbn [fmap list_fmap concat length] in *. apply has_at_next in Hat as [A1 Hat]. pose proof (blen_nonneg rs). unfold blen in Hcap. cbn [length] in Hcap.
  rewrite (read_record_wire msg q r _ _ off cap out _ rest0 Hq Hq0 ltac:(lia) Hr A1) by (unfold blen; lia).
  rewrite (IH (off + length (srv_wire r))%nat cap _ rest ltac:(lia) Hat) by (unfold blen in *; rewrite length_app; cbn; lia). by rewrite <- app_assoc.
Qed.

Lemma parse_answer_at msg q rs cap : has_at msg 0 (srv_answer q rs) [] -> name_ok q -> Forall srv_fits rs -> 0 < blen rs -> blen rs <= cap ->
  cetcd_discovery_parse_message msg cap = Ok (srv_record <$> rs).
Proof.
  intros Hat Hq Hrs Hpos Hcap. pose proof (name_wire_length q Hq) as Hql.
  assert (Hbig : 12 <= blen msg).
  { unfold has_at in Hat. rewrite drop_0 in Hat. rewrite Hat. unfold srv_answer, srv_question, blen. rewrite !length_app. cbn [length be16]. lia. }
  unfold cetcd_discovery_parse_message. rewrite (proj2 (Z.eqb_neq cap 0)) by lia. rewrite (proj2 (Z.ltb_ge _ _)) by lia.
  unfold srv_answer in Hat. peel Hat A0. rewrite Nat.add_0_l in Hat. peel Hat A1. rewrite (u16_here _ _ _ _ A1). cbn [mbind res_bind].
  peel Hat A2. rewrite (u16_here _ _ _ _ A2). cbn [mbind res_bind].
  peel Hat A3. rewrite (u16_here _ _ _ _ A3). cbn [mbind res_bind]. peel Hat A4. rewrite (u16_here _ _ _ _ A4). cbn [mbind res_bind].
  apply has_at_next in Hat as [A5 Hat]. assert (E12 : (4 + 2 + 2 + 2 + 2 = 12)%nat) by done. rewrite !E12 in *. unfold srv_question in A5. apply has_at_next in A5 as [Q1 A5].
  change (Z.to_nat 1) with 1%nat. cbn [skip_questions]. rewrite (read_name_here _ _ _ _ Hq Q1). cbn [mbind res_bind].
  peel A5 Q2. rewrite (u16_here _ _ _ _ Q2). cbn [mbind res_bind]. rewrite (u16_here _ _ _ _ A5). cbn [mbind res_bind].
  replace (Z.to_nat (blen rs + 0 + 0)) with (length rs) by (unfold blen; lia). replace (Z.to_nat (blen rs)) with (length rs) by (unfold blen; lia).
  assert (Hoff : (12 + length (name_wire q) + 2 + 2 = 12 + length (srv_question q))%nat) by (unfold srv_question; rewrite !length_app; cbn [length be16]; lia).
  rewrite Hoff.
  rewrite (read_records_wire msg q _ rs Hq Q1 Hrs (12 + length (srv_question q))%nat cap [] [] ltac:(unfold srv_question; rewrite !length_app; cbn; lia) Hat) by (unfold blen in *; cbn; lia).
  cbn [mbind res_bind app]. destruct rs as [|r rs]; [by vm_compute in Hpos|done].
Qed.

(** The records of an answer are read back. *)
Lemma parse_answer q rs cap : name_ok q -> Forall srv_fits rs -> rs <> [] -> blen rs <= cap ->
  cetcd_discovery_parse_message (srv_answer q rs) cap = Ok (srv_record <$> rs).
Proof.
  intros Hq Hrs Hne Hcap. eapply parse_answer_at; [|done..|destruct rs; [done|unfold blen; cbn; lia]|done].
  unfold has_at. by rewrite drop_0, app_nil_r.
Qed.

(** ** Sorting *)

Lemma strcmp_irrefl a : strcmp_lt a a = false.
Proof. induction a as [|x a IH]; [done|]. cbn. by rewrite Z.ltb_irrefl. Qed.

Lemma strcmp_asym a : forall b, strcmp_lt a b = true -> strcmp_lt b a = false.
Proof.
  induction a as [|x a IH]; intros [|y b]; cbn; try done. destruct (Z.ltb_spec x y), (Z.ltb_spec y x); try done; try lia. apply IH.
Qed.

Lemma strcmp_ge_trans a : forall b c, strcmp_lt b a = false -> strcmp_lt c b = false -> strcmp_lt c a = false.
Proof.
  induction a as [|x a IH]; intros [|y b] [|z c]; cbn; try done.
  destruct (Z.ltb_spec y x), (Z.ltb_spec z y), (Z.ltb_spec z x), (Z.ltb_spec x y), (Z.ltb_spec y z), (Z.ltb_spec x z); try done; try lia. apply IH.
Qed.

(** [a] may stand before [b]. *)
Definition srv_before (a b : cetcd_srv_record) : Prop := srv_less b a = false.

Lemma srv_less_asym a b : srv_less a b = true -> srv_before a b.
Proof.
  unfold srv_before, srv_less. pose proof (strcmp_asym (srv_target a) (srv_target b)).
  destruct (Z.ltb_spec (srv_priority a) (srv_priority b)), (Z.ltb_spec (srv_priority b) (srv_priority a)), (Z.eqb_spec (srv_priority a) (srv_priority b)),
    (Z.eqb_spec (srv_priority b) (srv_priority a)), (Z.ltb_spec (srv_weight b) (srv_weight a)), (Z.ltb_spec (srv_weight a) (srv_weight b)),
    (Z.eqb_spec (srv_weight a) (srv_weight b)), (Z.eqb_spec (srv_weight b) (srv_weight a)); cbn; try done; try lia; auto.
Qed.

Lemma srv_before_spec a b : srv_before a b <-> srv_priority a < srv_priority b \/
  srv_priority a = srv_priority b /\ (srv_weight b < srv_weight a \/ srv_weight a = srv_weight b /\ strcmp_lt (srv_target b) (srv_target a) = false).
Proof.
  unfold srv_before, srv_less.
  destruct (Z.ltb_spec (srv_priority b) (srv_priority a)), (Z.eqb_spec (srv_priority b) (srv_priority a)), (Z.ltb_spec (srv_weight a) (srv_weight b)),
    (Z.eqb_spec (srv_weight b) (srv_weight a)); cbn; split; intros Hx; try done; try lia; try tauto; try (right; lia); try (left; lia);
    try (right; split; [lia|]; tauto); try (right; split; [lia|]; right; split; [lia|done]); try (right; split; [lia|left; lia]).
  all: destruct Hx as [?|(? & [?|(? & ?)])]; try lia; done.
Qed.

Lemma srv_before_trans a b c : srv_before a b -> srv_before b c -> srv_before a c.
Proof.
  rewrite !srv_before_spec. pose proof (strcmp_ge_trans (srv_target a) (srv_target b) (srv_target c)).
  intros [?|(? & [?|(? & ?)])] [?|(? & [?|(? & ?)])]; try (left; lia); right; (split; [lia|]); try (left; lia). right. split; [lia|]. auto.
Qed.

(** The sorted part, read from its end. *)
Lemma srv_insert_sorted key l : StronglySorted (flip srv_before) l -> StronglySorted (flip srv_before) (srv_insert key l) /\ srv_insert key l ≡ₚ key :: l.
Proof.
  induction 1 as [|a l Hs IH Ha]; [split; [repeat constructor|done]|]. cbn [srv_insert]. destruct (srv_less key a) eqn:E.
  - destruct IH as [IH Hp]. split; [|by rewrite Hp, Permutation_swap]. constructor; [done|]. rewrite Hp. constructor; [by apply srv_less_asym|done].
  - split; [|done]. constructor; [by constructor|]. constructor; [exact E|]. eapply Forall_impl; [exact Ha|]. intros x Hx. cbn in *. by eapply srv_before_trans.
Qed.

Lemma sort_spec recs : StronglySorted srv_before (cetcd_discovery_sort recs) /\ cetcd_discovery_sort recs ≡ₚ recs.
Proof.
  unfold cetcd_discovery_sort.
  assert (H : forall acc, StronglySorted (flip srv_before) acc -> let l := foldl (fun sorted key => srv_insert key sorted) acc recs in
    StronglySorted (flip srv_before) l /\ l ≡ₚ recs ++ acc).
  { induction recs as [|r recs IH]; intros acc Ha; [done|]. cbn [foldl]. destruct (srv_insert_sorted r acc Ha) as [Hs Hp].
    destruct (IH _ Hs) as [H1 H2]. split; [done|]. rewrite H2, Hp. symmetry. apply Permutation_middle. }
  destruct (H [] ltac:(constructor)) as [Hs Hp]. rewrite app_nil_r in Hp. split; [by apply sorted_reverse|]. by rewrite reverse_Permutation.
Qed.

