(* ===== verification/DiscoveryText.v ===== *)
(** * Host and port, endpoints and the initial cluster: printing and parsing

    At the end, witnesses for discovery and addresses, and inputs on which the
    code does not do what it means to do. *)

From Stdlib Require Import String.
From S2P Require Import Hash CString Config ConfigProps Cluster Raft RaftWire Pb Snap Discovery DiscoveryProps Prelude.

#[local] Open Scope Z_scope.

(** Characters without a meaning in these texts, but for the colon. *)
Definition plain (c : Z) : Prop := c <> 0 /\ c <> 9 /\ c <> 32 /\ c <> 44 /\ c <> 47 /\ c <> 61 /\ c <> 91 /\ c <> 93.

Lemma digit_plain c : digit c -> plain c /\ c <> 58.
Proof. unfold digit, plain. lia. Qed.

Lemma plain_not_blank c : plain c -> blank c = false.
Proof. unfold plain, blank. destruct (Z.eqb_spec c 32), (Z.eqb_spec c 9); cbn; lia. Qed.

(** ** Splitting *)

Lemma span_to_app c a b : c ∉ a -> span_to c (a ++ c :: b) = (a, c :: b).
Proof.
  induction a as [|x a IH]; intros Hc; cbn [app span_to]; [by rewrite Z.eqb_refl|]. apply not_elem_of_cons in Hc as [Hx Hc].
  rewrite (proj2 (Z.eqb_neq x c)) by done. by rewrite IH.
Qed.

Lemma span_to_all c a : c ∉ a -> span_to c a = (a, []).
Proof.
  induction a as [|x a IH]; intros Hc; cbn [span_to]; [done|]. apply not_elem_of_cons in Hc as [Hx Hc].
  rewrite (proj2 (Z.eqb_neq x c)) by done. by rewrite IH.
Qed.

Lemma split_last_none c b : c ∉ b -> split_last c b = None.
Proof.
  induction b as [|x b IH]; intros Hc; [done|]. apply not_elem_of_cons in Hc as [Hx Hc]. cbn [split_last]. rewrite IH by done.
  by rewrite (proj2 (Z.eqb_neq x c)).
Qed.

Lemma split_last_app c a b : c ∉ b -> split_last c (a ++ c :: b) = Some (a, b).
Proof.
  intros Hc. induction a as [|x a IH]; cbn [app split_last]; [by rewrite split_last_none, Z.eqb_refl|]. by rewrite IH.
Qed.

Lemma split_end_id p s x : p x = false -> split_end p (s ++ [x]) = (s ++ [x], []).
Proof.
  intros Hx. induction s as [|y s IH]; cbn [app split_end]; [by rewrite Hx|]. rewrite IH. by destruct (s ++ [x]) eqn:E; [destruct s|].
Qed.

Lemma skip_ws_id c s : blank c = false -> skip_ws_ (c :: s) = c :: s.
Proof. intros Hc. cbn. by rewrite Hc. Qed.

(** A text without a slash has no scheme. *)
Lemma starts_with_slash p s : 47 ∈ bytes_of_string p -> 47 ∉ s -> starts_with p s = false.
Proof.
  intros Hp Hs. unfold starts_with. apply bool_decide_false. intros E. apply Hs. rewrite <- E in Hp.
  rewrite <- (take_drop (length (bytes_of_string p)) s). apply elem_of_app. by left.
Qed.

Lemma no_scheme s : 47 ∉ s -> cetcd_url_is_unix_n s = false /\ scheme s = (false, s).
Proof.
  intros Hs. unfold cetcd_url_is_unix_n, scheme. rewrite !starts_with_slash; try done.
  all: apply (bool_decide_unpack (47 ∈ _)); vm_compute; exact I.
Qed.

(** ** Host and port *)

(** What [cetcd_format_host_port] prints. *)
Definition host_port_text (host : bytes) (port : Z) : bytes :=
  if bool_decide (58 ∈ host) then [91] ++ host ++ [93; 58] ++ decimal port else host ++ [58] ++ decimal port.

Definition port_ok (port : Z) : Prop := 1 <= port <= 65535.

(** The digits of a number. *)
Lemma decimal_facts n : in_u64 n -> Forall digit (decimal n) /\ (0 < length (decimal n) <= 20)%nat /\ Forall plain (decimal n) /\ 58 ∉ decimal n.
Proof.
  intros Hn. destruct (decimal_value n Hn) as (ds & -> & Hd & Hl & _). split_and!; [done|lia|lia| |].
  - eapply Forall_impl; [exact Hd|]. intros c Hc. by apply digit_plain.
  - intros Hin. pose proof (proj1 (Forall_forall _ _) Hd _ Hin) as Hc. unfold digit in Hc. lia.
Qed.

Lemma port_u64 port : port_ok port -> in_u64 port.
Proof. unfold port_ok, in_u64. lia. Qed.

Lemma port_of_decimal port : port_ok port -> port_of (decimal port) = Ok port.
Proof.
  intros Hp. unfold port_of, strtoll. pose proof (scan_decimal port [] (port_u64 _ Hp) I) as Hs. rewrite app_nil_r in Hs. rewrite Hs. cbn [mbind option_bind].
  unfold port_ok in Hp. rewrite (proj2 (Z.ltb_ge port (- 2 ^ 63))) by lia. rewrite (proj2 (Z.ltb_ge Config.INT64_MAX port)) by (unfold Config.INT64_MAX; lia).
  rewrite (proj2 (Z.ltb_ge port 1)), (proj2 (Z.ltb_ge 65535 port)) by lia. done.
Qed.

Lemma port_at_decimal port tail : port_ok port -> stops tail -> port_at (decimal port) tail = Ok port.
Proof.
  intros Hp Ht. unfold port_at. rewrite strtoull_decimal by (done || by apply port_u64). rewrite Nat.eqb_refl. unfold port_ok in Hp. cbn [negb orb].
  rewrite (proj2 (Z.ltb_ge port 1)), (proj2 (Z.ltb_ge 65535 port)) by lia. done.
Qed.

Lemma plain_not_in c s : Forall plain s -> ~ plain c -> c ∉ s.
Proof. intros Hs Hc Hin. by apply Hc, (proj1 (Forall_forall _ _) Hs). Qed.

(** The text begins with a character of the host or a bracket, and ends with a
    digit. *)
Lemma host_port_shape host port : host <> [] -> Forall plain host -> port_ok port ->
  exists c s x, host_port_text host port = c :: s ++ [x] /\ blank c = false /\ digit x /\
    Forall (fun c => plain c \/ c = 91 \/ c = 93) (host_port_text host port).
Proof.
  intros Hne Hh Hp. destruct (decimal_facts port (port_u64 _ Hp)) as (Hd & Hl & Hpl & _). unfold host_port_text.
  destruct (@exists_last _ (decimal port)) as (ds & x & E); [intros E; rewrite E in Hl; cbn in Hl; lia|]. rewrite E in *.
  apply Forall_app in Hd as [_ Hx]; rewrite Forall_singleton in Hx.
  assert (Hall : Forall (fun c => plain c \/ c = 91 \/ c = 93) host) by (eapply Forall_impl; [exact Hh|]; intros; by left).
  assert (Hdec : Forall (fun c => plain c \/ c = 91 \/ c = 93) (ds ++ [x])) by (eapply Forall_impl; [exact Hpl|]; intros; by left).
  assert (H58 : plain 58) by (unfold plain; lia). case_bool_decide.
  - exists 91, (host ++ [93; 58] ++ ds), x. split; [by rewrite <- !app_assoc|split; [done|split; [done|]]].
    cbn [app]. repeat (apply Forall_cons; split; [auto|]). apply Forall_app. split; [done|]. repeat (apply Forall_cons; split; [auto|]). done.
  - destruct host as [|c host]; [done|]. exists c, (host ++ [58] ++ ds), x. apply Forall_cons in Hh as [Hc Hh].
    split; [by rewrite <- !app_assoc|split; [by apply plain_not_blank|split; [done|]]]. apply Forall_app. split; [done|]. apply Forall_cons. split; [auto|done].
Qed.

Lemma text_no_slash host port : host <> [] -> Forall plain host -> port_ok port -> 47 ∉ host_port_text host port /\ 44 ∉ host_port_text host port /\ nul_free (host_port_text host port).
Proof.
  intros Hne Hh Hp. destruct (host_port_shape host port Hne Hh Hp) as (_ & _ & _ & _ & _ & _ & Hall).
  split_and!; try (intros Hin; apply (proj1 (Forall_forall _ _) Hall) in Hin as [Hc|[Hc|Hc]]; [unfold plain in Hc|..]; lia).
  eapply Forall_impl; [exact Hall|]. intros c [Hc|[Hc|Hc]]; [unfold plain in Hc|..]; lia.
Qed.

Lemma text_length_bound host port : port_ok port -> (0 < length (host_port_text host port) <= length host + 23)%nat.
Proof.
  intros Hp. destruct (decimal_facts port (port_u64 _ Hp)) as (_ & Hl & _ & _). unfold host_port_text. case_bool_decide; rewrite !length_app; cbn [length]; lia.
Qed.

Lemma trim_id c s x : blank c = false -> blank x = false -> trim_ (c :: s ++ [x]) = c :: s ++ [x].
Proof.
  intros Hc Hx. unfold trim_. rewrite skip_ws_id by done. rewrite app_comm_cons, split_end_id by done. done.
Qed.

Lemma digit_not_blank x : digit x -> blank x = false.
Proof. intros Hx. by apply plain_not_blank, digit_plain. Qed.

Lemma host_port_text_parses host port d : host <> [] -> Forall plain host -> port_ok port -> host_port (host_port_text host port) d = Ok (host, port).
Proof.
  intros Hne Hh Hp. destruct (decimal_facts port (port_u64 _ Hp)) as (_ & _ & _ & H58). unfold host_port_text. case_bool_decide as Hc.
  - cbn [app host_port]. rewrite Z.eqb_refl. change (host ++ 93 :: 58 :: decimal port) with (host ++ 93 :: (58 :: decimal port)).
    rewrite span_to_app by (apply plain_not_in; [done|unfold plain; lia]). rewrite (proj2 (Z.eqb_neq (blen host) 0)) by (destruct host; done).
    rewrite Z.eqb_refl, port_of_decimal by done. done.
  - destruct host as [|c host]; [done|]. cbn [app host_port]. apply Forall_cons in Hh as [Hcp Hh]. rewrite (proj2 (Z.eqb_neq c 91)) by (unfold plain in Hcp; lia).
    rewrite app_comm_cons, split_last_app by done. cbn [blen length]. rewrite (proj2 (Z.eqb_neq (blen (c :: host)) 0)) by done. rewrite port_of_decimal by done. done.
Qed.

Section texts.
  Context (inet_pton : bytes -> option bytes).

(** A host name, an IPv4 address, or an IPv6 address the system knows. *)
Definition host_ok (host : bytes) : Prop :=
  host <> [] /\ Forall plain host /\ blen host <= 232 /\ (58 ∈ host -> exists r, cetcd_parse_ipv6_zone inet_pton host 256 64 = Ok r).

Lemma format_ok host port : host_ok host -> port_ok port -> cetcd_format_host_port host port 300 = Ok (host_port_text host port).
Proof.
  intros (Hne & _ & Hl & _) Hp. pose proof (text_length_bound host port Hp). unfold cetcd_format_host_port. fold (host_port_text host port).
  rewrite (proj2 (Z.eqb_neq (blen host) 0)) by (destruct host; done). cbn [orb Z.ltb Z.compare Pos.compare Pos.compare_cont]. unfold printed.
  rewrite (proj2 (Z.leb_gt _ _)) by (unfold blen in *; lia). done.
Qed.

Lemma parse_text host port d : host_ok host -> port_ok port -> 1 <= d ->
  cetcd_parse_host_port inet_pton (host_port_text host port) 256 d = Ok (host, port).
Proof.
  intros (Hne & Hh & Hl & Hv6) Hp Hd. pose proof (text_length_bound host port Hp) as Hlen. destruct (text_no_slash host port Hne Hh Hp) as (Hs & _ & Hnf).
  destruct (no_scheme _ Hs) as [Hu Hsch]. unfold cetcd_parse_host_port. rewrite (proj2 (Z.ltb_ge 256 2)), (proj2 (Z.ltb_ge d 1)) by lia. cbn [orb].
  unfold blen in *. rewrite (proj2 (Z.eqb_neq _ 0)), (proj2 (Z.leb_gt _ _)) by lia. cbn [orb]. rewrite cstr_id by done.
  assert (Ht : trim_ (host_port_text host port) = host_port_text host port).
  { destruct (host_port_shape host port Hne Hh Hp) as (c & s & x & -> & Hc & Hx & _). apply trim_id; [done|by apply digit_not_blank]. }
  rewrite Ht, (proj2 (Z.eqb_neq _ 0)) by lia. unfold cetcd_url_is_unix. rewrite Hu, Hsch. cbn [snd]. rewrite host_port_text_parses by done. cbn [mbind res_bind].
  rewrite (proj2 (Z.eqb_neq _ 0)), (proj2 (Z.leb_gt _ _)) by (destruct host; [done|cbn [length] in *; lia]). cbn [orb]. case_bool_decide as H58; [|done].
  destruct (Hv6 H58) as (r & ->). done.
Qed.

(** ** Lists *)

Fixpoint commas (l : list bytes) : bytes :=
  match l with [] => [] | [t] => t | t :: l => t ++ [44] ++ commas l end.

(** The item in front of the list, and what follows it. *)
Definition comma_tail (l : list bytes) : bytes := match l with [] => [] | _ => 44 :: commas l end.

Lemma commas_cons t l : commas (t :: l) = t ++ comma_tail l.
Proof. destruct l; [by rewrite app_nil_r|done]. Qed.

Lemma span_commas t l : 44 ∉ t -> span_to 44 (commas (t :: l)) = (t, comma_tail l).
Proof. intros Ht. rewrite commas_cons. destruct l as [|u l]; [rewrite app_nil_r; by apply span_to_all|by apply span_to_app]. Qed.

Lemma comma_tail_stops l : stops (comma_tail l).
Proof. by destruct l. Qed.

(** *** The initial cluster *)

Definition member_text (m : cetcd_peer_info) : bytes := decimal (p_id m) ++ [61] ++ host_port_text (p_addr m) (p_port m).
Definition member_ok (m : cetcd_peer_info) : Prop :=
  1 <= p_id m < 2 ^ 64 /\ host_ok (p_addr m) /\ port_ok (p_port m) /\ p_is_learner m = false.

Lemma text_not_https host port : host <> [] -> Forall plain host -> port_ok port -> starts_with "https://" (host_port_text host port) = false.
Proof.
  intros Hne Hh Hp. destruct (text_no_slash host port Hne Hh Hp) as (Hs & _). apply starts_with_slash; [|done].
  apply (bool_decide_unpack (47 ∈ _)); vm_compute; exact I.
Qed.

Lemma member_parses m : member_ok m -> parse_one_ inet_pton (member_text m) = Ok (m, false).
Proof.
  intros (Hid & Hho & Hp & Hl). pose proof Hho as (Hne & Hh & _). assert (Hu : in_u64 (p_id m)) by (unfold in_u64; lia).
  destruct (decimal_facts (p_id m) Hu) as (Hd & Hdl & Hpl & _). unfold parse_one_, member_text. cbn [app].
  rewrite span_to_app by (apply plain_not_in; [done|unfold plain; lia]). pose proof (text_length_bound (p_addr m) (p_port m) Hp) as Htl.
  destruct (host_port_text (p_addr m) (p_port m)) as [|c t] eqn:Et; [cbn in Htl; lia|].
  assert (Htrim : trim_ (decimal (p_id m)) = decimal (p_id m) /\ trim_ (c :: t) = c :: t).
  { split.
    - destruct (decimal (p_id m)) as [|d ds] eqn:E; [cbn in Hdl; lia|]. apply Forall_cons in Hd as [Hd1 Hd].
      destruct ds as [|x ds _] using rev_ind; [unfold trim_; rewrite skip_ws_id by (by apply digit_not_blank); cbn; by rewrite digit_not_blank|].
      apply Forall_app in Hd as [_ Hx]. rewrite Forall_singleton in Hx. apply trim_id; by apply digit_not_blank.
    - rewrite <- Et. destruct (host_port_shape (p_addr m) (p_port m) Hne Hh Hp) as (c' & s & x & -> & Hc & Hx & _). apply trim_id; [done|by apply digit_not_blank]. }
  destruct Htrim as [-> ->]. rewrite (proj2 (Z.eqb_neq (blen (decimal (p_id m))) 0)) by (unfold blen; lia).
  rewrite (proj2 (Z.eqb_neq (blen (c :: t)) 0)) by done. cbn [orb].
  pose proof (strtoull_decimal (p_id m) [] Hu I) as Hs. rewrite app_nil_r in Hs. rewrite Hs. rewrite (proj2 (Z.ltb_ge _ _)) by lia.
  rewrite <- Et. unfold cetcd_parse_peer_url. rewrite parse_text by (done || lia). cbn [mbind res_bind]. rewrite text_not_https by done.
  destruct m as [id addr port learner]; cbn in *. by subst learner.
Qed.

Lemma member_text_shape m : member_ok m -> 44 ∉ member_text m /\ exists c s x, member_text m = c :: s ++ [x] /\ blank c = false /\ blank x = false.
Proof.
  intros (Hid & (Hne & Hh & _) & Hp & _). assert (Hu : in_u64 (p_id m)) by (unfold in_u64; lia).
  destruct (decimal_facts (p_id m) Hu) as (Hd & Hdl & Hpl & _). unfold member_text. split.
  - intros [Hin|[Hin|Hin]%elem_of_app]%elem_of_app.
    + revert Hin. apply plain_not_in; [done|unfold plain; lia].
    + apply list_elem_of_singleton in Hin. lia.
    + by apply (text_no_slash (p_addr m) (p_port m) Hne Hh Hp).
  - destruct (decimal (p_id m)) as [|d ds]; [cbn in Hdl; lia|]. apply Forall_cons in Hd as [Hd1 _].
    destruct (host_port_shape (p_addr m) (p_port m) Hne Hh Hp) as (c & s & x & -> & _ & Hx & _).
    exists d, (ds ++ [61] ++ c :: s), x. split; [cbn; by rewrite <- !app_assoc|]. split; by apply digit_not_blank.
Qed.

Lemma cluster_loop_text ms : forall n cap out https, ms <> [] -> Forall member_ok ms -> (length ms <= n)%nat -> blen out + blen ms <= cap ->
  NoDup (p_id <$> out ++ ms) -> cluster_loop inet_pton n (commas (member_text <$> ms)) cap out https = Ok (out ++ ms, https).
Proof.
  induction ms as [|m ms IH]; intros n cap out https Hne Hms Hn Hcap Hnd; [done|]. apply Forall_cons in Hms as [Hm Hms].
  destruct n as [|n]; [cbn in Hn; lia|]. destruct (member_text_shape m Hm) as (H44 & c & s & x & Et & Hc & Hx). rewrite fmap_cons. cbn [cluster_loop].
  rewrite span_commas by done. assert (Htrim : trim_ (member_text m) = member_text m) by (rewrite Et; by apply trim_id). rewrite Htrim.
  rewrite (proj2 (Z.eqb_neq (blen (member_text m)) 0)) by (by rewrite Et). unfold blen in Hcap. cbn [length] in Hcap. rewrite (proj2 (Z.leb_gt _ _)) by (unfold blen; lia).
  rewrite member_parses by done. cbn [mbind res_bind].
  assert (Hfresh : existsb (fun q => p_id q =? p_id m) out = false).
  { apply not_true_is_false. intros (q & Hq & Heq)%existsb_exists. apply Z.eqb_eq in Heq. rewrite fmap_app in Hnd. apply NoDup_app in Hnd as (_ & Hnd & _).
    apply (Hnd (p_id m)); [rewrite <- Heq; apply list_elem_of_fmap_2; by apply list_elem_of_In|]. cbn. left. }
  rewrite Hfresh, orb_false_r. destruct ms as [|m' ms]; [done|]. change (comma_tail (member_text <$> m' :: ms)) with (44 :: commas (member_text <$> m' :: ms)). cbv iota.
  rewrite (IH n cap (out ++ [m]) https ltac:(done) Hms).
  - by rewrite <- app_assoc.
  - cbn in *. lia.
  - unfold blen. rewrite length_app. cbn in *. lia.
  - by rewrite <- app_assoc.
Qed.

(** *** Endpoints *)

Definition endpoint_text (e : cetcd_endpoint) : bytes :=
  (if e_https e then bytes_of_string "https://" else []) ++ host_port_text (e_host e) (e_port e).
Definition endpoint_ok (e : cetcd_endpoint) : Prop := e_host e <> [] /\ Forall plain (e_host e) /\ blen (e_host e) < 256 /\ port_ok (e_port e).

Lemma endpoint_host_port_text host port tail : host <> [] -> Forall plain host -> blen host < 256 -> port_ok port -> stops tail ->
  endpoint_host_port (host_port_text host port) tail = Ok (host, port).
Proof.
  intros Hne Hh Hl Hp Ht. destruct (decimal_facts port (port_u64 _ Hp)) as (_ & Hdl & _ & H58). unfold host_port_text. case_bool_decide as Hc.
  - cbn [app endpoint_host_port]. rewrite Z.eqb_refl. change (host ++ 93 :: 58 :: decimal port) with (host ++ 93 :: (58 :: decimal port)).
    rewrite span_to_app by (apply plain_not_in; [done|unfold plain; lia]). rewrite (proj2 (Z.eqb_neq (blen host) 0)) by (destruct host; done).
    rewrite (proj2 (Z.leb_gt _ _)) by lia. rewrite Z.eqb_refl, (proj2 (Z.eqb_neq (blen (decimal port)) 0)) by (unfold blen; lia). cbn [negb].
    rewrite port_at_decimal by done. done.
  - destruct host as [|c host]; [done|]. cbn [app endpoint_host_port]. apply Forall_cons in Hh as [Hcp Hh]. rewrite (proj2 (Z.eqb_neq c 91)) by (unfold plain in Hcp; lia).
    rewrite app_comm_cons, split_last_app by done. rewrite (proj2 (Z.eqb_neq (blen (c :: host)) 0)) by done. rewrite (proj2 (Z.leb_gt _ _)) by lia. cbn [orb].
    rewrite port_at_decimal by done. done.
Qed.

Lemma endpoint_parses e tail : endpoint_ok e -> stops tail -> parse_one_endpoint_ (endpoint_text e) tail = Ok e.
Proof.
  intros (Hne & Hh & Hl & Hp) Ht. destruct e as [host port https]. cbn [e_host e_port e_https] in *. unfold endpoint_text. cbn [e_host e_port e_https].
  destruct (host_port_shape host port Hne Hh Hp) as (c & s & x & Et & Hc & Hx & _). destruct (text_no_slash host port Hne Hh Hp) as (Hs & _ & _).
  destruct (no_scheme _ Hs) as [Hu Hsch]. unfold parse_one_endpoint_.
  set (pre := if https then bytes_of_string "https://" else []).
  assert (Hr : rtrim_ (pre ++ host_port_text host port) = (pre ++ host_port_text host port, [])).
  { rewrite Et, app_comm_cons, app_assoc. unfold rtrim_. apply split_end_id. rewrite digit_not_blank by done. unfold digit in Hx. apply Z.eqb_neq. lia. }
  rewrite (proj2 (Z.eqb_neq (blen (pre ++ host_port_text host port)) 0)) by (unfold pre; rewrite Et; by destruct https).
  rewrite Hr. rewrite app_nil_l. unfold pre. destruct https.
  - change (bytes_of_string "https://") with [104; 116; 116; 112; 115; 58; 47; 47]. cbn [app]. rewrite skip_ws_id by done.
    change (blen (104 :: _) =? 0) with false. change (cetcd_url_is_unix_n (104 :: _)) with false. cbv iota.
    assert (Es : scheme (104 :: 116 :: 116 :: 112 :: 115 :: 58 :: 47 :: 47 :: host_port_text host port) = (true, host_port_text host port)).
    { unfold scheme. by change (starts_with "https://" (104 :: 116 :: 116 :: 112 :: 115 :: 58 :: 47 :: 47 :: host_port_text host port)) with true. }
    rewrite Es. assert (Ew : skip_ws_ (host_port_text host port) = host_port_text host port) by (rewrite Et; by apply skip_ws_id). rewrite Ew.
    rewrite (proj2 (Z.eqb_neq (blen (host_port_text host port)) 0)) by (by rewrite Et). by rewrite endpoint_host_port_text.
  - rewrite app_nil_l. assert (Ew : skip_ws_ (host_port_text host port) = host_port_text host port) by (rewrite Et; by apply skip_ws_id). rewrite Ew.
    rewrite !(proj2 (Z.eqb_neq (blen (host_port_text host port)) 0)) by (by rewrite Et). rewrite Hu, Hsch, Ew.
    rewrite (proj2 (Z.eqb_neq (blen (host_port_text host port)) 0)) by (by rewrite Et). by rewrite endpoint_host_port_text.
Qed.

Lemma endpoint_no_comma e : endpoint_ok e -> 44 ∉ endpoint_text e /\ endpoint_text e <> [].
Proof.
  intros (Hne & Hh & Hl & Hp). destruct (text_no_slash _ _ Hne Hh Hp) as (_ & H44 & _). destruct (host_port_shape _ _ Hne Hh Hp) as (c & s & x & Et & _).
  unfold endpoint_text. split; [|rewrite Et; by destruct (e_https e)]. intros [Hin|Hin]%elem_of_app; [|done].
  destruct (e_https e); [|by apply elem_of_nil in Hin]. revert Hin. apply (bool_decide_unpack (44 ∉ _)). vm_compute. exact I.
Qed.

Lemma endpoints_loop_text es : forall n cap out, es <> [] -> Forall endpoint_ok es -> (length es <= n)%nat -> blen out + blen es <= cap ->
  endpoints_parse_loop n (commas (endpoint_text <$> es)) cap out = Ok (out ++ es).
Proof.
  induction es as [|e es IH]; intros n cap out Hne Hes Hn Hcap; [done|]. apply Forall_cons in Hes as [He Hes]. destruct n as [|n]; [cbn in Hn; lia|].
  destruct (endpoint_no_comma e He) as [H44 Hnn]. rewrite fmap_cons. cbn [endpoints_parse_loop].
  assert (Hcons : exists c t, commas (endpoint_text e :: (endpoint_text <$> es)) = c :: t).
  { rewrite commas_cons. destruct (endpoint_text e); [done|]. eauto. }
  destruct Hcons as (c & t & Ec). rewrite Ec. rewrite <- Ec. rewrite span_commas by done. unfold blen in Hcap. cbn [length] in Hcap.
  rewrite (proj2 (Z.leb_gt _ _)) by (unfold blen; lia). rewrite endpoint_parses by (done || apply comma_tail_stops). cbn [mbind res_bind].
  destruct es as [|e' es]; [done|]. change (comma_tail (endpoint_text <$> e' :: es)) with (44 :: commas (endpoint_text <$> e' :: es)). cbv iota.
  assert (Hes' := Hes). apply Forall_cons in Hes' as [He' _]. destruct (endpoint_no_comma e' He') as [_ Hnn'].
  assert (Hcons : exists c t, commas (endpoint_text <$> e' :: es) = c :: t).
  { change (endpoint_text <$> e' :: es) with (endpoint_text e' :: (endpoint_text <$> es)). rewrite commas_cons. destruct (endpoint_text e'); [done|]. eauto. }
  destruct Hcons as (c' & t' & Ec'). rewrite Ec'. rewrite <- Ec'. rewrite (IH n cap (out ++ [e]) ltac:(done) Hes).
  - by rewrite <- app_assoc.
  - cbn in *. lia.
  - unfold blen. rewrite length_app. cbn in *. lia.
Qed.

Lemma commas_length {A} (f : A -> bytes) l : Forall (fun x => f x <> []) l -> (length l <= length (commas (f <$> l)))%nat.
Proof.
  induction 1 as [|x l Hx Hl IH]; [done|]. change (f <$> x :: l) with (f x :: (f <$> l)). rewrite commas_cons, length_app. cbn [length].
  assert (0 < length (f x))%nat by (destruct (f x); [done|cbn; lia]). destruct l as [|y l]; [cbn in *; lia|]. cbn [comma_tail fmap list_fmap length] in *. lia.
Qed.

(** C36: Addresses are read back as they are printed.  Host and port, with an IPv6
    address in brackets, and with any default port; the string of the initial
    cluster, for members with distinct ids up to the capacity; a list of client
    endpoints, with their scheme. *)
Theorem addresses_roundtrip (host : bytes) (port d : Z) (ms : list cetcd_peer_info) (es : list cetcd_endpoint) (cap : Z) :
  host_ok host -> port_ok port -> 1 <= d -> Forall member_ok ms -> NoDup (p_id <$> ms) -> ms <> [] -> blen ms <= cap ->
  blen (commas (member_text <$> ms)) < 2048 -> Forall endpoint_ok es -> es <> [] -> blen es <= cap ->
  (exists text, cetcd_format_host_port host port 300 = Ok text /\ cetcd_parse_host_port inet_pton text 256 d = Ok (host, port)) /\
  cetcd_parse_initial_cluster inet_pton (commas (member_text <$> ms)) cap = Ok (ms, false) /\
  cetcd_endpoint_parse_list (commas (endpoint_text <$> es)) cap = Ok es.
Proof.
  intros Hh Hp Hd Hms Hnd Hmne Hmc Hml Hes Hene Hec. split_and!.
  - exists (host_port_text host port). split; [by apply format_ok|by apply parse_text].
  - assert (Hne : Forall (fun m => member_text m <> []) ms).
    { eapply Forall_impl; [exact Hms|]. intros m Hm. destruct (member_text_shape m Hm) as (_ & c & s & x & -> & _). done. }
    pose proof (commas_length member_text ms Hne) as Hlen. assert (0 < length ms)%nat by (destruct ms; [done|cbn; lia]).
    unfold cetcd_parse_initial_cluster. unfold blen in *. rewrite (proj2 (Z.eqb_neq _ 0)), (proj2 (Z.eqb_neq cap 0)), (proj2 (Z.leb_gt _ _)) by lia. cbn [orb].
    rewrite cluster_loop_text; [done|done|done|lia|unfold blen; cbn; lia|done].
  - assert (Hne : Forall (fun e => endpoint_text e <> []) es).
    { eapply Forall_impl; [exact Hes|]. intros e He. by apply endpoint_no_comma. }
    pose proof (commas_length endpoint_text es Hne) as Hlen. assert (0 < length es)%nat by (destruct es; [done|cbn; lia]).
    unfold cetcd_endpoint_parse_list. unfold blen in *. rewrite (proj2 (Z.eqb_neq cap 0)), (proj2 (Z.eqb_neq _ 0)) by lia. cbn [orb].
    rewrite endpoints_loop_text; [|done|done|lia|unfold blen; cbn; lia]. cbn [mbind res_bind app]. by destruct es.
Qed.
End texts.

(** ** Concrete runs *)

Definition text (s : string) : bytes := bytes_of_string s.

Definition example_com : list bytes := [text "example"; text "com"].
Definition node (s : string) : list bytes := text s :: example_com.
Definition two_records : list (Z * Z * Z * list bytes) := [(20, 5, 2379, node "b"); (10, 5, 2380, node "a")].

(** A resolver that knows one name. *)
Definition one_answer (msg : bytes) (q : bytes) : option bytes := if bool_decide (q = text "_etcd-client._tcp.example.com") then Some msg else None.

(** IPv6 addresses: this one only. *)
Definition knows_loopback (s : bytes) : option bytes := if bool_decide (s = text "::1") then Some (repeat 0 15 ++ [1]) else None.

(** The same message with the record by which a resolver announces its buffer
    size (EDNS): its owner is the root name, and the whole answer is refused. *)
Definition with_opt (msg : bytes) : bytes :=
  take 10 msg ++ be16 1 ++ drop 12 msg ++ [0] ++ be16 41 ++ be16 4096 ++ [0; 0; 0; 0] ++ be16 0.

Theorem root_name_refused :
  cetcd_discovery_parse_message (srv_answer example_com two_records) 32 = Ok (srv_record <$> two_records) /\
  cetcd_discovery_parse_message (with_opt (srv_answer example_com two_records)) 32 = Fail CETCD_ERR_CORRUPT.
Proof. split; vm_compute; reflexivity. Qed.

(** A target whose first character is 0 is an empty string, and is accepted. *)
Theorem empty_target_accepted :
  cetcd_discovery_parse_message (srv_answer example_com [(1, 1, 2379, [[0; 97]])]) 32 = Ok [mk_srv 1 1 2379 []].
Proof. vm_compute. reflexivity. Qed.

(** Numbers are read by [strtoull] and [strtol]: a negative id is accepted, and
    so are a port with a sign or white space in front. *)
Theorem loose_numbers :
  cetcd_parse_initial_cluster knows_loopback (text "-1=a:2380") 8 = Ok ([mk_peer (2 ^ 64 - 1) (text "a") 2380 false], false) /\
  cetcd_parse_host_port knows_loopback (text "a:+80") 256 2380 = Ok (text "a", 80) /\
  cetcd_parse_host_port knows_loopback (text "a: 80") 256 2380 = Ok (text "a", 80) /\
  cetcd_endpoint_parse_list (text "a:-18446744073709551535") 8 = Ok [mk_endpoint (text "a") 81 false].
Proof. split_and!; vm_compute; reflexivity. Qed.

(** An answer that is longer than the buffer: the parser is given the length of
    the whole answer. *)
Theorem long_answer_overreads qname msg cap : qname <> [] -> 0 < cap -> 4096 < blen msg -> cetcd_discovery_lookup (fun _ => Some msg) qname cap = Undef.
Proof.
  intros Hq Hc Hm. unfold cetcd_discovery_lookup. rewrite (proj2 (Z.eqb_neq (blen qname) 0)), (proj2 (Z.eqb_neq cap 0)) by (destruct qname; done || lia). cbn [orb].
  destruct msg as [|x msg]; [done|]. by rewrite (proj2 (Z.ltb_lt _ _)) by lia.
Qed.

(** ** Witnesses *)


Definition two_members : list cetcd_peer_info := [mk_peer 1 (text "10.0.0.1") 2380 false; mk_peer 2 (text "::1") 2380 false].
Definition two_endpoints : list cetcd_endpoint := [mk_endpoint (text "a.example.com") 2379 true; mk_endpoint (text "::1") 2379 false].

Lemma plain_text s : forallb (fun c => negb (existsb (Z.eqb c) [0; 9; 32; 44; 47; 61; 91; 93])) s = true -> Forall plain s.
Proof.
  intros H. apply Forall_forall. intros c Hc. rewrite forallb_forall in H. specialize (H c (proj1 (list_elem_of_In _ _) Hc)).
  cbn [existsb] in H. unfold plain. rewrite !orb_false_r in H. rewrite negb_true_iff in H. rewrite !orb_false_iff in H. lia.
Qed.

Lemma loopback_ok : host_ok knows_loopback (text "::1").
Proof. split_and!; [discriminate|by apply plain_text|vm_compute; discriminate|]. intros _. eexists. vm_compute. reflexivity. Qed.

Lemma addresses_roundtrip_witness :
  (exists t, cetcd_format_host_port (text "::1") 2380 300 = Ok t /\ cetcd_parse_host_port knows_loopback t 256 2379 = Ok (text "::1", 2380)) /\
  cetcd_parse_initial_cluster knows_loopback (text "1=10.0.0.1:2380,2=[::1]:2380") 8 = Ok (two_members, false) /\
  cetcd_endpoint_parse_list (text "https://a.example.com:2379,[::1]:2379") 8 = Ok two_endpoints.
Proof.
  apply (addresses_roundtrip knows_loopback (text "::1") 2380 2379 two_members two_endpoints 8).
  - exact loopback_ok.
  - unfold port_ok. lia.
  - lia.
  - apply Forall_cons; split; [|apply Forall_cons; split; [|by apply Forall_nil]]; (split; [cbn; lia|split; [|split; [unfold port_ok; cbn; lia|reflexivity]]]).
    + split_and!; [discriminate|by apply plain_text|vm_compute; discriminate|]. intros Hin. exfalso. revert Hin. apply (bool_decide_unpack (58 ∉ _)). vm_compute. exact I.
    + exact loopback_ok.
  - apply (bool_decide_unpack (NoDup _)). vm_compute. exact I.
  - discriminate.
  - vm_compute. discriminate.
  - vm_compute. reflexivity.
  - repeat constructor; (discriminate || (by apply plain_text) || (vm_compute; (reflexivity || discriminate))).
  - discriminate.
  - vm_compute. discriminate.
Defined.
