(* ===== verification/Alarm.v ===== *)
(** * The alarm table (src/v3rpc/maint_handler.c)

    Eight cells, mirrored in one row of the [alarm] bucket.  At most one alarm
    of a type is active. *)

From S2P Require Import Slice KeyOrder Treap Hashmap Backend Mvcc MvccSnap MvccLoad Lease LeaseRestart Prelude.

#[local] Open Scope Z_scope.

Definition MAX_ALARMS : nat := 8.
Definition ALARM_BUCKET : string := "alarm".
Definition ALARM_KEY : bytes := [116].

(** [Some (alarm_type, member_id)] for an active cell. *)
Definition alarm_cell : Type := option (Z * Z).

Definition no_alarms : list alarm_cell := replicate MAX_ALARMS None.

Definition active_alarms (alarms : list alarm_cell) : list (Z * Z) := omap id alarms.

Definition alarm_row (alarms : list alarm_cell) : bytes :=
  u8 (blen (active_alarms alarms)) :: mjoin ((fun '(t, m) => u8 t :: write_le64_ m) <$> active_alarms alarms).

Definition cetcd_v3rpc_alarm_is_active (alarms : list alarm_cell) (alarm_type : Z) : bool :=
  existsb (fun a => match a with Some (t, _) => t =? alarm_type | None => false end) alarms.

(** The first free cell is filled. *)
Fixpoint fill_free (alarms : list alarm_cell) (a : Z * Z) : option (list alarm_cell) :=
  match alarms with
  | [] => None
  | None :: l => Some (Some a :: l)
  | Some b :: l => cons (Some b) <$> fill_free l a
  end.

(** The rows of a loaded blob: [n] of them are left, [slot] cells are free. *)
Fixpoint load_cells (n : nat) (val : bytes) (slot : nat) : list alarm_cell :=
  match n, slot with
  | S n, S slot' =>
      let typ := nth 0 val 0 in
      if typ <=? 0 then load_cells n (drop 9 val) slot
      else
        let m := read_le64_ val 1 in
        Some (typ, if m =? 0 then 1 else m) :: load_cells n (drop 9 val) slot'
  | _, _ => replicate slot None
  end.

Section Alarms.
  Context {E : Type} `{!Backend E}.

(** [be] tells whether a backend is attached. *)
Definition alarm_persist_ (be : bool) (e : E) (alarms : list alarm_cell) : E :=
  if be then (be_put e ALARM_BUCKET ALARM_KEY (alarm_row alarms)).1 else e.

Definition cetcd_v3rpc_alarm_activate (be : bool) (e : E) (alarms : list alarm_cell) (alarm_type member_id : Z)
  : E * list alarm_cell :=
  if alarm_type <=? 0 then (e, alarms)
  else if cetcd_v3rpc_alarm_is_active alarms alarm_type then (e, alarms)
  else
    match fill_free alarms (alarm_type, if 0 <? member_id then member_id else 1) with
    | Some alarms => (alarm_persist_ be e alarms, alarms)
    | None => (e, alarms)
    end.

Definition deactivates (alarm_type member_id : Z) (a : alarm_cell) : bool :=
  match a with
  | Some (t, m) => (t =? alarm_type) && ((member_id =? 0) || (m =? member_id))
  | None => false
  end.

Definition cetcd_v3rpc_alarm_deactivate (be : bool) (e : E) (alarms : list alarm_cell) (alarm_type member_id : Z)
  : E * list alarm_cell :=
  if alarm_type <=? 0 then (e, alarms)
  else
    let changed := existsb (deactivates alarm_type member_id) alarms in
    let alarms := (fun a => if deactivates alarm_type member_id a then None else a) <$> alarms in
    (if changed then alarm_persist_ be e alarms else e, alarms).

Definition cetcd_v3rpc_alarm_load (be : bool) (e : E) : E * list alarm_cell :=
  if negb be then (e, no_alarms)
  else
    let '(e, rc, val) := be_get e ALARM_BUCKET ALARM_KEY in
    if negb (is_ok rc) then (e, no_alarms)
    else if (blen val <? 1) || (8 <? nth 0 val 0) || (blen val <? 1 + nth 0 val 0 * 9) then (e, no_alarms)
    else (e, load_cells (Z.to_nat (nth 0 val 0)) (drop 1 val) MAX_ALARMS).

End Alarms.
