(* ===== verification/Apply.v ===== *)
(** * Applying replicated commands (src/v3rpc/apply.c)

    The state machine of the replicated log: [cetcd_v3rpc_apply_entry] decodes
    a command and changes the store, the leases, the users and roles, the
    cluster and the alarms.  The globals of the RPC layer are the record
    [world]; all components work on the one storage environment [w_env],
    which is handed to a component's operation and taken back from it.  The
    store, the lease manager and the authentication store are set at start-up
    and taken as present; raft and the cluster may be absent.

    An [int] result is a [Z].  [None] is undefined behaviour (the role
    revocation can overrun its buffer).  The batch branch calls
    [cetcd_v3rpc_apply_entry] on its items, which may not be batches: the
    recursion is opened in [apply_entry_inner_] and closed with two levels. *)

From S2P Require Import Slice Hash KeyOrder Treap Hashmap Raft RaftWire Wal Backend Mvcc Lease CString Auth Cluster ApplyCodec Alarm Prelude.

#[local] Open Scope Z_scope.

(** ** The globals *)

(** A streaming watcher of src/v3rpc/watch_handler.c.  [sc_ptr] is its address
    and that of the channel inside it, [sc_sw] the handle of the subscription;
    of the writer of the connection [sc_write_fn] says whether it is set and
    [sc_write_ctx] is its context. *)
Record cetcd_stream_watcher_ctx : Type := mk_stream_ctx {
  sc_ptr : Z;
  sc_watch_id : Z;
  sc_start_rev : Z;
  sc_sw : option Z;
  sc_want_prev_kv : bool;
  sc_filter_noput : bool;
  sc_filter_nodelete : bool;
  sc_fragment : bool;
  sc_want_progress_notify : bool;
  sc_ticks_since_progress : Z;
  sc_replay_pending : bool;
  sc_canceled : bool;
  sc_write_fn : bool;
  sc_write_ctx : Z
}.

#[export] Instance stream_ctx_eta : RecordEta cetcd_stream_watcher_ctx := fun c =>
  mk_stream_ctx (sc_ptr c) (sc_watch_id c) (sc_start_rev c) (sc_sw c) (sc_want_prev_kv c) (sc_filter_noput c) (sc_filter_nodelete c) (sc_fragment c)
    (sc_want_progress_notify c) (sc_ticks_since_progress c) (sc_replay_pending c) (sc_canceled c) (sc_write_fn c) (sc_write_ctx c).

Definition CETCD_WATCH_PROGRESS_TICKS_DEFAULT : Z := 100.

(** The part of the server (src/server/server.c, [struct cetcd_server]) that
    handles a Ready: the log encoder, with the outcomes of the writes and
    releases to come ([None] is a success, [Some n] a failure after [n] bytes;
    all succeed when the lists are used up), the frames handed to the peers'
    connections, the last snapshot index and the configured snapshot distance. *)
Record cetcd_server : Type := mk_server {
  sv_wal_enc : option cetcd_wal_encoder;
  sv_wal_io : list (option nat);
  sv_release_io : list release_io;
  sv_sent : list (Z * bytes);
  sv_last_snap_index : Z;
  sv_backend : bool;
  sv_snapshot_count : Z;
  sv_snapshot_catchup : option Z
}.

#[export] Instance server_eta : RecordEta cetcd_server := fun s =>
  mk_server (sv_wal_enc s) (sv_wal_io s) (sv_release_io s) (sv_sent s) (sv_last_snap_index s) (sv_backend s)
    (sv_snapshot_count s) (sv_snapshot_catchup s).

(** [w_backend]: whether the backend of the RPC layer ([g_rpc_auth_backend])
    is set.  [w_cancels] are the cancel responses written to watchers:
    watch id, current revision, compacted revision.  [w_watch_id] and
    [w_watch_ticks] are the counter of watch ids and the number of ticks between
    two progress notifications. *)
Record world (T : Type -> Type) (E : Type) : Type := mk_world {
  w_env : E;
  w_store : cetcd_mvcc_store T E;
  w_mgr : cetcd_lease_mgr E;
  w_auth : cetcd_auth_store;
  w_raft : option cetcd_raft;
  w_cluster : option cetcd_cluster;
  w_alarms : list alarm_cell;
  w_streams : list cetcd_stream_watcher_ctx;
  w_cancels : list (Z * Z * Z);
  w_watch_id : Z;
  w_watch_ticks : Z;
  w_backend : bool;
  w_quota : Z;
  w_node_id : Z;
  w_server : cetcd_server
}.

Arguments mk_world {T E}.
Arguments w_env {T E}.
Arguments w_store {T E}.
Arguments w_mgr {T E}.
Arguments w_auth {T E}.
Arguments w_raft {T E}.
Arguments w_cluster {T E}.
Arguments w_alarms {T E}.
Arguments w_streams {T E}.
Arguments w_cancels {T E}.
Arguments w_watch_id {T E}.
Arguments w_watch_ticks {T E}.
Arguments w_backend {T E}.
Arguments w_quota {T E}.
Arguments w_node_id {T E}.
Arguments w_server {T E}.

#[export] Instance world_eta {T E} : RecordEta (world T E) := fun w =>
  mk_world (w_env w) (w_store w) (w_mgr w) (w_auth w) (w_raft w) (w_cluster w) (w_alarms w) (w_streams w) (w_cancels w)
    (w_watch_id w) (w_watch_ticks w) (w_backend w) (w_quota w) (w_node_id w) (w_server w).

(** Parsing steps: on failure the whole branch answers [d]. *)
Notation "'parse' p ':=' e 'else' d ';;' k" := (match e with Some p => k | None => d end)
  (at level 200, p pattern, e at level 99, d at level 99, k at level 200, only parsing).

(** [n] bytes of the rest, if there are as many. *)
Definition take_bytes (n : Z) (d : bytes) : option (bytes * bytes) :=
  if blen d <? n then None else Some (take (Z.to_nat n) d, drop (Z.to_nat n) d).

Definition is_leader (r : cetcd_raft) : bool :=
  match cetcd_raft_state r with CETCD_NODE_LEADER => true | _ => false end.

Section Apply.
  Context {T : Type -> Type} {E Tx : Type} `{!KeyIndex T, !Lmdb E Tx, !Clock, !AuthLibs}.
  Local Notation world := (world T E).

Definition ret (w : world) (rc : Z) : option (world * Z) := Some (w, rc).

(** ** Operations of the components in the shared environment *)

Definition on_store {A} (w : world) (f : cetcd_mvcc_store T E -> cetcd_mvcc_store T E * A) : world * A :=
  let '(s, a) := f ((w_store w) <| s_env := w_env w |>) in
  ((w <| w_store := s |>) <| w_env := s_env s |>, a).

Definition on_mgr {A} (w : world) (f : cetcd_lease_mgr E -> cetcd_lease_mgr E * A) : world * A :=
  let '(m, a) := f ((w_mgr w) <| m_env := w_env w |>) in
  ((w <| w_mgr := m |>) <| w_env := m_env m |>, a).

Definition cetcd_v3rpc_auth_persist (w : world) : world :=
  if w_backend w then w <| w_env := (cetcd_auth_save (w_auth w) (w_env w)).1 |> else w.

(** ** Keys and leases *)

Definition lease_after_put_ (w : world) (key : bytes) (old_lease new_lease : Z) : world :=
  let w := if (0 <? old_lease) && negb (old_lease =? new_lease)
           then (on_mgr w (fun m => cetcd_lease_detach_key m old_lease key)).1 else w in
  if 0 <? new_lease then (on_mgr w (fun m => cetcd_lease_attach_key m new_lease key)).1 else w.

(** The lease of the current version of a key, 0 when there is none. *)
Definition key_lease (w : world) (key : bytes) : Z :=
  match cetcd_mvcc_get (w_store w) 0 key with
  | (CETCD_OK, Some kv) => kv_lease_id kv
  | _ => 0
  end.

Definition apply_put_ (w : world) (key val : bytes) (lease_id : Z) : world * Z :=
  if blen key =? 0 then (w, -1)
  else
    let old_lease := key_lease w key in
    let '(w, r) := on_store w (fun s => cetcd_mvcc_put s key val lease_id) in
    if rev_main r <=? 0 then (w, -1) else (lease_after_put_ w key old_lease lease_id, 0).

Definition apply_delete_one_ (w : world) (key : bytes) : world * Z :=
  if blen key =? 0 then (w, -1)
  else
    let lease_id := key_lease w key in
    let '(w, r) := on_store w (fun s => cetcd_mvcc_delete s key) in
    if (0 <? rev_main r) && (0 <? lease_id)
    then ((on_mgr w (fun m => cetcd_lease_detach_key m lease_id key)).1, 0) else (w, 0).

Definition detach_kv (w : world) (kv : cetcd_kv) : world :=
  if 0 <? kv_lease_id kv then (on_mgr w (fun m => cetcd_lease_detach_key m (kv_lease_id kv) (kv_key kv))).1 else w.

Definition apply_delete_range_ (w : world) (key end_ : bytes) : world * Z :=
  if blen key =? 0 then (w, -1)
  else if blen end_ =? 0 then apply_delete_one_ w key
  else
    let '(_, kvs) := cetcd_mvcc_range (w_store w) 0 key end_ in
    if blen kvs =? 0 then (w, 0)
    else
      let '(w, r) := on_store w (fun s => cetcd_mvcc_delete_keys s (kv_key <$> kvs)) in
      (if 0 <? rev_main r then foldl detach_kv w kvs else w, 0).

Definition apply_lease_revoke_ (w : world) (id : Z) : world * Z :=
  if id =? 0 then (w, -1)
  else
    let keys := cetcd_lease_keys (w_mgr w) id in
    let w := if 0 <? blen keys then (on_store w (fun s => cetcd_mvcc_delete_keys s keys)).1 else w in
    ((on_mgr w (fun m => cetcd_lease_revoke m id)).1, 0).

(** ** Members *)

Definition begin_voter_joint_ (w : world) : world * Z :=
  match w_raft w with
  | None => (w, 0)
  | Some r =>
      let '(r, rc) := cetcd_raft_enter_joint r in
      let w := w <| w_raft := Some r |> in
      if negb (rc =? 0) then (w, -1)
      else
        match w_cluster w with
        | None => (w, 0)
        | Some c =>
            let '(ids, n) := cetcd_raft_copy_outgoing r 16 in
            let '(e, st) := cetcd_cluster_persist_joint c (w_env w) ids (cetcd_raft_joint_index r) in
            let w := w <| w_env := e |> in
            if is_ok st then (w, 0)
            else (w <| w_raft := Some (cetcd_raft_leave_joint r).1 |>, -1)
        end
  end.

Definition in_joint (w : world) : bool := match w_raft w with Some r => cetcd_raft_in_joint r | None => false end.

(** [begin_voter_joint_] unless the change is inside a joint phase already. *)
Definition ensure_joint (w : world) (voter : bool) : world * Z :=
  if voter && negb (in_joint w) then begin_voter_joint_ w else (w, 0).

Definition on_raft (w : world) (f : cetcd_raft -> cetcd_raft * Z) : world :=
  match w_raft w with Some r => w <| w_raft := Some (f r).1 |> | None => w end.

Definition apply_member_remove (w : world) (c : cetcd_cluster) (id : Z) : world * Z :=
  let was_voter := match cetcd_cluster_get_peer c id with Some p => negb (p_is_learner p) | None => false end in
  let '(w, rc) := ensure_joint w was_voter in
  if negb (rc =? 0) then (w, -1)
  else
    let '(e, st) := cetcd_cluster_persist_del c (w_env w) id in
    let w := w <| w_env := e |> in
    if negb (is_ok st) then (w, -1)
    else
      let w := w <| w_cluster := Some (cetcd_cluster_remove_peer c id).1 |> in
      (on_raft w (fun r => cetcd_raft_remove_peer r id), 0).

Definition apply_member_promote (w : world) (c : cetcd_cluster) (id : Z) : world * Z :=
  match cetcd_cluster_get_peer c id with
  | None => (w, -1)
  | Some next =>
      if negb (p_is_learner next) then (w, 0)
      else
        let '(w, rc) := ensure_joint w true in
        if negb (rc =? 0) then (w, -1)
        else
          let '(e, st) := cetcd_cluster_persist_peer c (w_env w) (next <| p_is_learner := false |>) in
          let w := w <| w_env := e |> in
          if negb (is_ok st) then (w, -1)
          else
            let '(c, st) := cetcd_cluster_promote c id in
            let w := w <| w_cluster := Some c |> in
            if negb (is_ok st) then (w, -1) else (on_raft w (fun r => cetcd_raft_promote r id), 0)
  end.

Definition apply_member_update (w : world) (c : cetcd_cluster) (info : cetcd_peer_info) : world * Z :=
  let info := match cetcd_cluster_get_peer c (p_id info) with
              | Some cur => info <| p_is_learner := p_is_learner cur |> | None => info end in
  let '(e, st) := cetcd_cluster_persist_peer c (w_env w) info in
  let w := w <| w_env := e |> in
  if negb (is_ok st) then (w, -1)
  else
    let '(c, st) := cetcd_cluster_update_peer c (p_id info) info in
    (w <| w_cluster := Some c |>, if is_ok st then 0 else -1).

Definition apply_member_add (w : world) (c : cetcd_cluster) (info : cetcd_peer_info) : world * Z :=
  let '(w, rc) := ensure_joint w (negb (p_is_learner info)) in
  if negb (rc =? 0) then (w, -1)
  else
    let '(e, st) := cetcd_cluster_persist_peer c (w_env w) info in
    let w := w <| w_env := e |> in
    if negb (is_ok st) then (w, -1)
    else
      let '(c, st) := cetcd_cluster_add_peer c info in
      let w := w <| w_cluster := Some c |> in
      match st with
      | CETCD_OK | CETCD_ERR_EXISTS => (on_raft w (fun r => cetcd_raft_add_peer r (p_id info) (p_is_learner info)), 0)
      | _ => (w, -1)
      end.

(** The address array of 256 bytes, as a C string; a longer address is cut
    and the cut part is read as what follows. *)
Definition apply_member_ (w : world) (op : Z) (data : bytes) : world * Z :=
  match w_cluster w with
  | None => (w, -1)
  | Some c =>
      parse (id, d) := read_varint_ data else (w, -1) ;;
      if id =? 0 then (w, -1)
      else if op =? CETCD_APPLY_MEMBER_REMOVE then apply_member_remove w c id
      else if op =? CETCD_APPLY_MEMBER_PROMOTE then apply_member_promote w c id
      else
        parse (is_learner, d) := (if op =? CETCD_APPLY_MEMBER_ADD then read_varint_ d else Some (0, d)) else (w, -1) ;;
        parse (alen, d) := read_varint_ d else (w, -1) ;;
        if blen d <? alen then (w, -1)
        else
          let alen := if 256 <=? alen then 255 else alen in
          let addr := take (Z.to_nat alen) d in
          parse (port, d) := read_varint_ (drop (Z.to_nat alen) d) else (w, -1) ;;
          let info := mk_peer id (cstr addr) (port mod 65536) (negb (is_learner =? 0)) in
          if op =? CETCD_APPLY_MEMBER_UPDATE then apply_member_update w c info else apply_member_add w c info
  end.

(** ** Compaction *)

Definition cancels_watch (compact_rev : Z) (cur : cetcd_stream_watcher_ctx) : bool :=
  negb (sc_canceled cur) && sc_write_fn cur && (0 <? sc_start_rev cur) && (sc_start_rev cur <? compact_rev).

(** One step of the walk over the streaming watchers: a watcher that starts
    below the boundary gets a cancel response, is unsubscribed and removed. *)
Definition cancel_step (compact_rev current_rev : Z) (w : world) (cur : cetcd_stream_watcher_ctx) : world :=
  if cancels_watch compact_rev cur then
    let w := w <| w_cancels := w_cancels w ++ [(sc_watch_id cur, current_rev, compact_rev)] |> in
    match sc_sw cur with
    | Some sw => w <| w_store := cetcd_mvcc_watch_unsubscribe (w_store w) sw |>
    | None => w
    end
  else w.

Definition cetcd_v3rpc_watch_cancel_compacted (w : world) (compact_rev : Z) : world :=
  if compact_rev <=? 0 then w
  else
    let current_rev := cetcd_mvcc_revision (w_store w) in
    let w' := foldl (cancel_step compact_rev current_rev) w (w_streams w) in
    w' <| w_streams := List.filter (fun cur => negb (cancels_watch compact_rev cur)) (w_streams w) |>.

Definition apply_compact (w : world) (rev : Z) : world * Z :=
  let '(w, rc) := on_store w (fun s => cetcd_mvcc_compact s (i64 rev)) in
  match rc with
  | CETCD_OK => (cetcd_v3rpc_watch_cancel_compacted w (i64 rev), 0)
  | CETCD_ERR_RANGE => (w, if i64 rev <=? cetcd_mvcc_compacted_revision (w_store w) then 0 else -1)
  | _ => (w, -1)
  end.

(** ** Leases and alarms *)

Definition apply_lease_grant (w : world) (id ttl : Z) : world * Z :=
  if CETCD_MAX_LEASE_TTL <? i64 ttl then (w, -1)
  else if cetcd_lease_exists (w_mgr w) id then (w, 0)
  else let '(w, r) := on_mgr w (fun m => cetcd_lease_grant_id m id (i64 ttl)) in (w, if r =? 0 then -1 else 0).

Definition apply_lease_keepalive (w : world) (id ttl : Z) : world * Z :=
  if CETCD_MAX_LEASE_TTL <? i64 ttl then (w, -1)
  else if negb (cetcd_lease_exists (w_mgr w) id) then (w, 0)
  else let '(w, st) := on_mgr w (fun m => cetcd_lease_keep_alive m id (i64 ttl)) in (w, if is_ok st then 0 else -1).

Definition apply_alarm (w : world) (action typ member : Z) : world * Z :=
  if (negb (action =? 1) && negb (action =? 2)) || (negb (typ =? 1) && negb (typ =? 2)) then (w, -1)
  else
    let '(e, alarms) :=
      if action =? 1 then cetcd_v3rpc_alarm_activate (w_backend w) (w_env w) (w_alarms w) typ member
      else cetcd_v3rpc_alarm_deactivate (w_backend w) (w_env w) (w_alarms w) typ member in
    ((w <| w_env := e |>) <| w_alarms := alarms |>, 0).

(** ** Users and roles *)

(** A change of the authentication store that is accepted is persisted. *)
Definition auth_done (w : world) (s : cetcd_auth_store) : world * Z :=
  (cetcd_v3rpc_auth_persist (w <| w_auth := s |>), 0).

(** The outcome of an operation of the authentication store. *)
Definition auth_result (w : world) (r : cetcd_auth_store * cetcd_status) : world * Z :=
  let '(s, rc) := r in if is_ok rc then auth_done w s else (w <| w_auth := s |>, -1).

(** The same where CETCD_ERR_NOTFOUND counts as done. *)
Definition auth_result_tolerant (w : world) (r : cetcd_auth_store * cetcd_status) : world * Z :=
  let '(s, rc) := r in
  match rc with CETCD_OK | CETCD_ERR_NOTFOUND => auth_done w s | _ => (w <| w_auth := s |>, -1) end.

Definition apply_auth_enabled (w : world) (on : Z) : world * Z :=
  if 1 <? on then (w, -1)
  else if negb (on =? 0) && negb (cetcd_auth_has_user (w_auth w) ROOT) then (w, -1)
  else
    let s := cetcd_auth_set_enabled (w_auth w) (negb (on =? 0)) in
    auth_done w (if on =? 0 then cetcd_auth_revoke_all_tokens s else s).

Definition apply_user_add (w : world) (name hash : bytes) : world * Z :=
  if cetcd_auth_has_user (w_auth w) name then auth_done w (w_auth w)
  else auth_result w (cetcd_auth_add_user_hash (w_auth w) name hash).

Definition apply_user_delete (w : world) (name : bytes) : world * Z :=
  if negb (cetcd_auth_has_user (w_auth w) name) then auth_done w (w_auth w)
  else auth_result w (cetcd_auth_remove_user (w_auth w) name).

Definition apply_role_add (w : world) (name : bytes) : option (world * Z) :=
  match cetcd_auth_get_role (w_auth w) name with
  | Some _ => Some (auth_done w (w_auth w))
  | None => auth_result w <$> cetcd_auth_add_role (w_auth w) name true true [47] 1
  end.

Definition apply_role_delete (w : world) (name : bytes) : world * Z :=
  match cetcd_auth_get_role (w_auth w) name with
  | None => auth_done w (w_auth w)
  | Some _ => auth_result w (cetcd_auth_remove_role (w_auth w) name)
  end.

Definition apply_change_pass (w : world) (name hash : bytes) : world * Z :=
  if negb (cetcd_auth_has_user (w_auth w) name) then auth_done w (w_auth w)
  else auth_result w (cetcd_auth_set_user_hash (w_auth w) name hash).

(** Permission type 0 is read, 1 write, 2 both. *)
Definition apply_grant_perm (w : world) (name key : bytes) (ptype : Z) (range_end : bytes) : world * Z :=
  let rd := (ptype =? 0) || (ptype =? 2) in
  let wr := (ptype =? 1) || (ptype =? 2) in
  auth_result w (cetcd_auth_grant_permission_range (w_auth w) name rd wr key range_end).

Definition apply_revoke_perm (w : world) (name key range_end : bytes) : world * Z :=
  match cetcd_auth_get_role (w_auth w) name with
  | None => auth_done w (w_auth w)
  | Some _ => auth_result_tolerant w (cetcd_auth_revoke_permission_key_range (w_auth w) name key range_end)
  end.

Definition apply_revoke_role (w : world) (user role : bytes) : option (world * Z) :=
  auth_result_tolerant w <$> cetcd_auth_revoke_role (w_auth w) user role.

(** An optional length-prefixed string: present when bytes remain. *)
Definition opt_field (d : bytes) : option (bytes * bytes) :=
  if blen d =? 0 then Some ([], d)
  else parse (n, d) := read_varint_ d else None ;; take_bytes n d.

(** ** Entries *)

(** The branches of [apply_entry_inner_] after the key: [key] is the first
    string of the command, [d] what follows it. *)
Definition apply_keyed (w : world) (op : Z) (key d : bytes) : option (world * Z) :=
  let fail := ret w (-1) in
  let name := cstr key in
  let long_name := 128 <=? blen key in
  if op =? CETCD_APPLY_PUT then
    parse (vlen, d) := read_varint_ d else fail ;;
    parse (val, d) := take_bytes vlen d else fail ;;
    parse lease := (if 0 <? blen d then i64 ∘ fst <$> read_varint_ d else Some 0) else fail ;;
    Some (apply_put_ w key val lease)
  else if op =? CETCD_APPLY_DELETE then Some (apply_delete_one_ w key)
  else if op =? CETCD_APPLY_DELETE_RANGE then
    parse (elen, d) := read_varint_ d else fail ;;
    parse (end_, _) := take_bytes elen d else fail ;;
    Some (apply_delete_range_ w key end_)
  else if op =? CETCD_APPLY_AUTH_USER_ADD then
    parse (hlen, d) := read_varint_ d else fail ;;
    parse (hash, _) := (if hlen =? 0 then None else take_bytes hlen d) else fail ;;
    if long_name then fail else Some (apply_user_add w name hash)
  else if op =? CETCD_APPLY_AUTH_USER_DELETE then
    if long_name then fail else Some (apply_user_delete w name)
  else if op =? CETCD_APPLY_AUTH_ROLE_ADD then
    if long_name then fail else apply_role_add w name
  else if op =? CETCD_APPLY_AUTH_ROLE_DELETE then
    if long_name then fail else Some (apply_role_delete w name)
  else if (op =? CETCD_APPLY_AUTH_USER_GRANT_ROLE) || (op =? CETCD_APPLY_AUTH_USER_REVOKE_ROLE) then
    parse (rlen, d) := read_varint_ d else fail ;;
    parse (role, _) := (if rlen =? 0 then None else take_bytes rlen d) else fail ;;
    if long_name || (128 <=? rlen) then fail
    else if op =? CETCD_APPLY_AUTH_USER_GRANT_ROLE
    then Some (auth_result w (cetcd_auth_grant_role (w_auth w) name (cstr role)))
    else apply_revoke_role w name (cstr role)
  else if op =? CETCD_APPLY_AUTH_ROLE_GRANT_PERM then
    parse (kplen, d) := read_varint_ d else fail ;;
    parse (pkey, d) := take_bytes kplen d else fail ;;
    parse (ptype, d) := read_varint_ d else fail ;;
    if (2 <? ptype) || long_name || (256 <=? kplen) then fail
    else
      match cetcd_auth_get_role (w_auth w) name with
      | None => fail
      | Some _ =>
          parse (rend, _) := opt_field d else fail ;;
          if 256 <=? blen rend then fail else Some (apply_grant_perm w name pkey ptype rend)
      end
  else if op =? CETCD_APPLY_AUTH_ROLE_REVOKE_PERM then
    parse (pkey, d) := opt_field d else fail ;;
    parse (rend, _) := opt_field d else fail ;;
    if (256 <=? blen rend) || long_name || (256 <=? blen pkey) then fail
    else Some (apply_revoke_perm w name pkey rend)
  else if op =? CETCD_APPLY_AUTH_USER_CHANGE_PASS then
    parse (hlen, d) := read_varint_ d else fail ;;
    parse (hash, _) := (if hlen =? 0 then None else take_bytes hlen d) else fail ;;
    if long_name then fail else Some (apply_change_pass w name hash)
  else fail.

(** The items of a batch, each applied with [apply_entry]. *)
Fixpoint apply_batch (apply_entry : world -> bytes -> option (world * Z)) (n : nat) (w : world) (d : bytes)
  : option (world * Z) :=
  match n with
  | O => ret w 0
  | S n =>
      parse (ilen, d) := read_varint_ d else ret w (-1) ;;
      if ilen =? 0 then ret w (-1)
      else
        parse (item, d) := take_bytes ilen d else ret w (-1) ;;
        if nth 0 item 0 =? CETCD_APPLY_BATCH then ret w (-1)
        else
          '(w, rc) ← apply_entry w item;
          if negb (rc =? 0) then ret w (-1) else apply_batch apply_entry n w d
  end.

Definition apply_entry_inner_ (apply_entry : world -> bytes -> option (world * Z)) (w : world) (data : bytes)
  : option (world * Z) :=
  let fail := ret w (-1) in
  match data with
  | [] => fail
  | op :: d =>
      if op =? CETCD_APPLY_LEAVE_JOINT then
        let w := on_raft w cetcd_raft_leave_joint in
        ret (match w_cluster w with
             | Some c => w <| w_env := (cetcd_cluster_persist_clear_joint c (w_env w)).1 |>
             | None => w end) 0
      else if op =? CETCD_APPLY_LEASE_REVOKE then
        parse (id, _) := read_varint_ d else fail ;;
        Some (apply_lease_revoke_ w id)
      else if (op =? CETCD_APPLY_LEASE_GRANT) || (op =? CETCD_APPLY_LEASE_KEEPALIVE) then
        if blen data <? 3 then fail
        else
          parse (id, d) := read_varint_ d else fail ;;
          if id =? 0 then fail
          else
            parse (ttl, _) := read_varint_ d else fail ;;
            if ttl =? 0 then fail
            else if op =? CETCD_APPLY_LEASE_GRANT then Some (apply_lease_grant w id ttl)
            else Some (apply_lease_keepalive w id ttl)
      else if op =? CETCD_APPLY_ALARM then
        if blen data <? 4 then fail
        else
          parse (action, d) := read_varint_ d else fail ;;
          parse (typ, d) := read_varint_ d else fail ;;
          parse (member, _) := read_varint_ d else fail ;;
          Some (apply_alarm w action typ member)
      else if op =? CETCD_APPLY_COMPACT then
        parse (rev, _) := read_varint_ d else fail ;;
        if rev =? 0 then fail else Some (apply_compact w rev)
      else if op =? CETCD_APPLY_AUTH_ENABLED then
        parse (on, _) := read_varint_ d else fail ;;
        Some (apply_auth_enabled w on)
      else if (op =? CETCD_APPLY_MEMBER_ADD) || (op =? CETCD_APPLY_MEMBER_REMOVE)
              || (op =? CETCD_APPLY_MEMBER_PROMOTE) || (op =? CETCD_APPLY_MEMBER_UPDATE) then
        Some (apply_member_ w op d)
      else if op =? CETCD_APPLY_BATCH then
        parse (n, d) := read_varint_ d else fail ;;
        if (n =? 0) || (128 <? n) then fail else apply_batch apply_entry (Z.to_nat n) w d
      else
        parse (klen, d) := read_varint_ d else fail ;;
        if klen =? 0 then fail
        else
          parse (key, d) := take_bytes klen d else fail ;;
          apply_keyed w op key d
  end.

(** Items of a batch are no batches, so two levels are all. *)
Definition cetcd_v3rpc_apply_entry (w : world) (data : bytes) : option (world * Z) :=
  apply_entry_inner_ (apply_entry_inner_ (fun w _ => ret w (-1))) w data.

(** ** Proposals *)

(** [backend_size] is [cetcd_backend_size], the size LMDB reports; [flush] is
    the registered ready callback (src/server/server.c, [process_ready_]). *)
Section Propose.
  Context (backend_size : E -> Z) (flush : world -> option world).

(** The part of [cetcd_v3rpc_propose_or_apply] after the quota check. *)
Definition propose_entry (w : world) (data : bytes) : option (world * Z) :=
  match w_raft w with
  | None => '(w, rc) ← cetcd_v3rpc_apply_entry w data; ret w (if rc =? 0 then 1 else -1)
  | Some r =>
      if negb (is_leader r) then ret w (-1)
      else
        let '(r, rc) := cetcd_raft_propose r data in
        let w := w <| w_raft := Some r |> in
        if negb (rc =? 0) then ret w (-1)
        else
          w ← flush w;
          match w_raft w with
          | Some r => ret w (if cetcd_raft_applied r <? cetcd_raft_last_index r then -1 else 0)
          | None => None
          end
  end.

Definition over_quota (w : world) (data : bytes) : bool :=
  (nth 0 data 0 =? CETCD_APPLY_PUT) && negb (w_quota w =? 0) && w_backend w && (w_quota w <=? backend_size (w_env w)).

(** Over the quota a put raises the NOSPACE alarm (the nested call proposes an
    alarm command, which no quota concerns) and is refused. *)
Definition cetcd_v3rpc_propose_or_apply (w : world) (data : bytes) : option (world * Z) :=
  if blen data =? 0 then ret w (-1)
  else if over_quota w data then
    let mid := if w_node_id w =? 0 then 1 else w_node_id w in
    match cetcd_apply_encode_alarm 1 1 mid with
    | Some ae => '(w, _) ← propose_entry w ae; ret w (-1)
    | None => ret w (-1)
    end
  else propose_entry w data.

(** The deletes of [n] keys in batches of 128.  [keys w] is the array the
    caller passed, as it is in the state [w]: the code reads the keys of a
    batch only when it gets there.  Reading past the array is [None]. *)
Fixpoint propose_deletes_loop (fuel : nat) (keys : world -> list bytes) (off n : nat) (w : world) : option (world * Z) :=
  match fuel with
  | O => None
  | S fuel =>
      if (n <=? off)%nat then ret w 0
      else
        let chunk := Nat.min 128 (n - off) in
        let cells := take chunk (drop off (keys w)) in
        if (length cells <? chunk)%nat then None
        else
          parse ops := mapM cetcd_apply_encode_delete cells else ret w (-1) ;;
          parse batch := cetcd_apply_encode_batch ops else ret w (-1) ;;
          '(w, rc) ← cetcd_v3rpc_propose_or_apply w batch;
          if rc <? 0 then ret w (-1) else propose_deletes_loop fuel keys (off + chunk) n w
  end.

Definition cetcd_v3rpc_propose_deletes (keys : world -> list bytes) (n : nat) (w : world) : option (world * Z) :=
  propose_deletes_loop (S n) keys 0 n w.

(** The key array of a lease, live or not, in the state [w]. *)
Definition lease_cells (id : Z) (w : world) : list bytes :=
  match lease_by_id_ (w_mgr w) id with Some (_, l) => l_slots l | None => [] end.

(** The expiry callback of src/server/server.c: the leader proposes deletes of
    the lease's keys, reading them from the lease's own array. *)
Definition lease_expire_cb_ (id : Z) (w : world) : option world :=
  let follower := match w_raft w with
                  | Some r => negb (is_leader r)
                  | None => false end in
  let count := match lease_by_id_ (w_mgr w) id with Some (_, l) => l_key_count l | None => 0%nat end in
  if follower || (count =? 0)%nat then Some w
  else fst <$> cetcd_v3rpc_propose_deletes (lease_cells id) count w.

(** The callback as the lease manager calls it: the manager is the one of the
    world, and the rest of the world is what it works on. *)
Definition expire_in_world (id : Z) (mx : cetcd_lease_mgr E * option world) : cetcd_lease_mgr E * option world :=
  match mx with
  | (m, Some w) =>
      match lease_expire_cb_ id ((w <| w_mgr := m |>) <| w_env := m_env m |>) with
      | Some w => ((w_mgr w) <| m_env := w_env w |>, Some w)
      | None => (m, None)
      end
  | (m, None) => (m, None)
  end.

(** A tick of the lease manager. *)
Definition lease_tick (w : world) (elapsed_ms : Z) : option world :=
  match cetcd_lease_mgr_tick expire_in_world ((w_mgr w) <| m_env := w_env w |>, Some w) elapsed_ms with
  | Some (m, Some w) => Some ((w <| w_mgr := m |>) <| w_env := m_env m |>)
  | _ => None
  end.

End Propose.

End Apply.
