(* ===== verification/ApplyCmd.v ===== *)
(** * Commands of the replicated log

    The commands the RPC layer proposes as a data type, with their encodings
    and their meaning in terms of the components.  Applying an encoded command
    is running it; applying a batch runs its commands in order and stops at
    the first one that fails; [cetcd_v3rpc_apply_entry] is total, except for
    the buffer overrun of a role revocation. *)

From S2P Require Import Slice Hash KeyOrder Treap Hashmap Raft RaftWire Wal Backend Mvcc Lease CString Auth AuthProps Cluster ApplyCodec Alarm Apply Prelude.

#[local] Open Scope Z_scope.

Inductive command : Type :=
| CPut (key val : bytes) (lease_id : Z)
| CDelete (key : bytes)
| CDeleteRange (key range_end : bytes)
| CLeaseGrant (id ttl : Z)
| CLeaseKeepalive (id ttl : Z)
| CLeaseRevoke (id : Z)
| CCompact (rev : Z)
| CAlarm (action alarm_type member : Z)
| CAuthEnabled (on : bool)
| CUserAdd (name hash : bytes)
| CUserDelete (name : bytes)
| CUserChangePass (name hash : bytes)
| CUserGrantRole (user role : bytes)
| CUserRevokeRole (user role : bytes)
| CRoleAdd (name : bytes)
| CRoleDelete (name : bytes)
| CRoleGrantPerm (role key : bytes) (perm_type : Z) (range_end : bytes)
| CRoleRevokePerm (role key range_end : bytes)
| CMemberAdd (id : Z) (is_learner : bool) (addr : bytes) (port : Z)
| CMemberRemove (id : Z)
| CMemberPromote (id : Z)
| CMemberUpdate (id : Z) (addr : bytes) (port : Z).

Definition encode_command (c : command) : option bytes :=
  match c with
  | CPut key val lease => cetcd_apply_encode_put key val lease
  | CDelete key => cetcd_apply_encode_delete key
  | CDeleteRange key e => cetcd_apply_encode_delete_range key e
  | CLeaseGrant id ttl => cetcd_apply_encode_lease_grant id ttl
  | CLeaseKeepalive id ttl => cetcd_apply_encode_lease_keepalive id ttl
  | CLeaseRevoke id => cetcd_apply_encode_lease_revoke id
  | CCompact rev => cetcd_apply_encode_compact rev
  | CAlarm a t m => cetcd_apply_encode_alarm a t m
  | CAuthEnabled on => cetcd_apply_encode_auth_enabled (if on then 1 else 0)
  | CUserAdd name hash => cetcd_apply_encode_auth_user_add name hash
  | CUserDelete name => cetcd_apply_encode_auth_user_delete name
  | CUserChangePass name hash => cetcd_apply_encode_auth_user_change_pass name hash
  | CUserGrantRole user role => cetcd_apply_encode_auth_user_grant_role user role
  | CUserRevokeRole user role => cetcd_apply_encode_auth_user_revoke_role user role
  | CRoleAdd name => cetcd_apply_encode_auth_role_add name
  | CRoleDelete name => cetcd_apply_encode_auth_role_delete name
  | CRoleGrantPerm role key t e => cetcd_apply_encode_auth_role_grant_perm_range role key t e
  | CRoleRevokePerm role key e => cetcd_apply_encode_auth_role_revoke_perm_range role key e
  | CMemberAdd id l addr port => cetcd_apply_encode_member_add id l addr port
  | CMemberRemove id => cetcd_apply_encode_member_remove id
  | CMemberPromote id => cetcd_apply_encode_member_promote id
  | CMemberUpdate id addr port => cetcd_apply_encode_member_update id addr port
  end.

Definition small (d : bytes) : Prop := blen d < 2 ^ 60.

(** A user or role name: a C string that fits the name buffers. *)
Definition name_fits (n : bytes) : Prop := n <> [] /\ nul_free n /\ blen n < 128.

Definition addr_fits (a : bytes) : Prop := nul_free a /\ blen a < 256.

(** The values a well-formed request gives a command. *)
Definition command_fits (c : command) : Prop :=
  match c with
  | CPut key val lease => key <> [] /\ small key /\ small val /\ in_i64 lease
  | CDelete key => key <> [] /\ small key
  | CDeleteRange key e => key <> [] /\ small key /\ small e
  | CLeaseGrant id ttl | CLeaseKeepalive id ttl => 0 < id < 2 ^ 64 /\ bad_ttl ttl = false
  | CLeaseRevoke id | CMemberRemove id | CMemberPromote id => 0 < id < 2 ^ 64
  | CCompact rev => 0 < rev < 2 ^ 63
  | CAlarm a t m => (a = 1 \/ a = 2) /\ (t = 1 \/ t = 2) /\ in_u64 m
  | CAuthEnabled _ => True
  | CUserAdd name hash | CUserChangePass name hash => name_fits name /\ hash <> [] /\ small hash
  | CUserDelete name | CRoleAdd name | CRoleDelete name => name_fits name
  | CUserGrantRole user role | CUserRevokeRole user role => name_fits user /\ name_fits role
  | CRoleGrantPerm role key t e => name_fits role /\ blen key < 256 /\ 0 <= t <= 2 /\ blen e < 256
  | CRoleRevokePerm role key e => name_fits role /\ blen key < 256 /\ blen e < 256
  | CMemberAdd id _ addr port | CMemberUpdate id addr port => 0 < id < 2 ^ 64 /\ addr_fits addr /\ 0 <= port < 65536
  end.

Section Commands.
  Context {T : Type -> Type} {E Tx : Type} `{!KeyIndex T, !Lmdb E Tx, !Clock, !AuthLibs}.
  Local Notation world := (world T E).

(** A change of the members needs a cluster. *)
Definition with_cluster (w : world) (f : cetcd_cluster -> world * Z) : world * Z :=
  match w_cluster w with Some c => f c | None => (w, -1) end.

Definition run_command (w : world) (c : command) : option (world * Z) :=
  match c with
  | CPut key val lease => Some (apply_put_ w key val lease)
  | CDelete key => Some (apply_delete_one_ w key)
  | CDeleteRange key e => Some (apply_delete_range_ w key e)
  | CLeaseGrant id ttl => Some (apply_lease_grant w id ttl)
  | CLeaseKeepalive id ttl => Some (apply_lease_keepalive w id ttl)
  | CLeaseRevoke id => Some (apply_lease_revoke_ w id)
  | CCompact rev => Some (apply_compact w rev)
  | CAlarm a t m => Some (apply_alarm w a t m)
  | CAuthEnabled on => Some (apply_auth_enabled w (if on then 1 else 0))
  | CUserAdd name hash => Some (apply_user_add w name hash)
  | CUserDelete name => Some (apply_user_delete w name)
  | CUserChangePass name hash => Some (apply_change_pass w name hash)
  | CUserGrantRole user role => Some (auth_result w (cetcd_auth_grant_role (w_auth w) user role))
  | CUserRevokeRole user role => apply_revoke_role w user role
  | CRoleAdd name => apply_role_add w name
  | CRoleDelete name => Some (apply_role_delete w name)
  | CRoleGrantPerm role key t e =>
      match cetcd_auth_get_role (w_auth w) role with
      | Some _ => Some (apply_grant_perm w role key t e) | None => Some (w, -1) end
  | CRoleRevokePerm role key e => Some (apply_revoke_perm w role key e)
  | CMemberAdd id l addr port => Some (with_cluster w (fun c => apply_member_add w c (mk_peer id addr port l)))
  | CMemberRemove id => Some (with_cluster w (fun c => apply_member_remove w c id))
  | CMemberPromote id => Some (with_cluster w (fun c => apply_member_promote w c id))
  | CMemberUpdate id addr port => Some (with_cluster w (fun c => apply_member_update w c (mk_peer id addr port false)))
  end.

(** The commands of a batch, in order, up to the first that fails. *)
Fixpoint run_commands (w : world) (cs : list command) : option (world * Z) :=
  match cs with
  | [] => Some (w, 0)
  | c :: cs => '(w, rc) ← run_command w c; if negb (rc =? 0) then Some (w, -1) else run_commands w cs
  end.

(** ** Parsing what the encoders wrote *)

Lemma take_bytes_app a rest : take_bytes (blen a) (a ++ rest) = Some (a, rest).
Proof.
  unfold take_bytes. rewrite blen_app. rewrite (proj2 (Z.ltb_ge _ _)) by blen_bounds.
  unfold blen. by rewrite Nat2Z.id, take_app_length, drop_app_length.
Qed.

Lemma short_u64 d : short d -> in_u64 (blen d).
Proof. unfold short, in_u64. pose proof (blen_nonneg d). lia. Qed.

Lemma small_short d : small d -> short d.
Proof. unfold small, short. lia. Qed.

Lemma name_short n : name_fits n -> short n.
Proof. unfold name_fits, short. lia. Qed.

Lemma opt_field_nil : opt_field [] = Some ([], []).
Proof. reflexivity. Qed.

Lemma opt_field_app a rest : a <> [] -> short a -> opt_field (varint (blen a) ++ a ++ rest) = Some (a, rest).
Proof.
  intros Hne Hs. unfold opt_field. rewrite (proj2 (Z.eqb_neq _ 0)) by (rewrite blen_app; blen_bounds).
  rewrite read_varint_spec by (by apply short_u64). apply take_bytes_app.
Qed.

(** Tests between command tags. *)
Ltac eval_tags :=
  repeat match goal with
  | |- context [Z.eqb ?a ?b] => is_const a; is_const b;
      first [change (Z.eqb a b) with true | change (Z.eqb a b) with false]
  end; cbn [orb andb negb].

(** A command whose tag is not one of the special ones starts with a string. *)
Lemma keyed_entry rec (w : world) op key d :
  forallb (fun t => negb (op =? t))
    [CETCD_APPLY_LEAVE_JOINT; CETCD_APPLY_LEASE_REVOKE; CETCD_APPLY_LEASE_GRANT; CETCD_APPLY_LEASE_KEEPALIVE;
     CETCD_APPLY_ALARM; CETCD_APPLY_COMPACT; CETCD_APPLY_AUTH_ENABLED; CETCD_APPLY_MEMBER_ADD; CETCD_APPLY_MEMBER_REMOVE;
     CETCD_APPLY_MEMBER_PROMOTE; CETCD_APPLY_MEMBER_UPDATE; CETCD_APPLY_BATCH] = true ->
  key <> [] -> short key ->
  apply_entry_inner_ rec w (op :: varint (blen key) ++ key ++ d) = apply_keyed w op key d.
Proof.
  cbn [forallb]. rewrite !andb_true_iff, !negb_true_iff. intros Ht Hne Hs. destruct_and! Ht.
  unfold apply_entry_inner_. repeat match goal with H : (op =? ?t) = false |- _ => rewrite H; clear H end. cbn [orb].
  rewrite read_varint_spec by (by apply short_u64). rewrite blen_nonempty by done. by rewrite take_bytes_app.
Qed.

(** What applying the encoding [d] of a command must satisfy: it runs the
    command, is no batch, and is short enough for one. *)
Definition applies_as rec (w : world) (c : command) : Prop :=
  exists d, encode_command c = Some d /\ short d /\ d <> [] /\ nth 0 d 0 <> CETCD_APPLY_BATCH /\
    apply_entry_inner_ rec w d = run_command w c.

Lemma applies_intro rec (w : world) c tag d : encode_command c = Some (tag :: d) -> blen d < 2 ^ 62 - 1 -> tag <> CETCD_APPLY_BATCH ->
  apply_entry_inner_ rec w (tag :: d) = run_command w c -> applies_as rec w c.
Proof. intros He Hl Ht Ha. exists (tag :: d). split_and!; [done|unfold short; rewrite blen_cons; lia|done|done|done]. Qed.

Lemma tagged_cons tag a b r : tagged tag a b ++ r = tag :: varint (blen a) ++ a ++ varint (blen b) ++ b ++ r.
Proof. unfold tagged. cbn [app]. by rewrite <- !app_assoc. Qed.

Lemma put_applies rec (w : world) key val lease : command_fits (CPut key val lease) -> applies_as rec w (CPut key val lease).
Proof.
  intros (Hne & Hk & Hv & Hl). pose proof (encode_put_spec key val lease (small_short _ Hk) (small_short _ Hv) Hne) as He.
  rewrite tagged_cons in He. unfold small in *. eapply applies_intro; [exact He|blen_bounds|done|].
  rewrite keyed_entry by (done || by apply small_short). unfold apply_keyed. eval_tags.
  rewrite read_varint_spec by (by apply short_u64, small_short). rewrite take_bytes_app.
  rewrite (proj2 (Z.ltb_lt _ _)) by (pose proof (varint_blen (u64 lease)); lia).
  rewrite <- (app_nil_r (varint (u64 lease))), read_varint_spec by apply u64_range. cbn [fmap option_fmap option_map compose fst].
  by rewrite u64_of_i64.
Qed.

Definition keyed_tag (op : Z) : bool :=
  forallb (fun t => negb (op =? t))
    [CETCD_APPLY_LEAVE_JOINT; CETCD_APPLY_LEASE_REVOKE; CETCD_APPLY_LEASE_GRANT; CETCD_APPLY_LEASE_KEEPALIVE;
     CETCD_APPLY_ALARM; CETCD_APPLY_COMPACT; CETCD_APPLY_AUTH_ENABLED; CETCD_APPLY_MEMBER_ADD; CETCD_APPLY_MEMBER_REMOVE;
     CETCD_APPLY_MEMBER_PROMOTE; CETCD_APPLY_MEMBER_UPDATE; CETCD_APPLY_BATCH].

Lemma keyed_applies rec (w : world) c tag a b : encode_command c = Some (tagged tag a b) -> small a -> small b -> a <> [] ->
  keyed_tag tag = true -> apply_keyed w tag a (varint (blen b) ++ b) = run_command w c -> applies_as rec w c.
Proof.
  intros He Ha Hb Hne Ht Hk. unfold small in *. eapply applies_intro; [exact He|blen_bounds| |].
  - intros ->. done.
  - rewrite keyed_entry by (done || by apply small_short). exact Hk.
Qed.

Lemma name_facts n : name_fits n -> n <> [] /\ small n /\ short n /\ cstr n = n /\ (128 <=? blen n) = false.
Proof.
  intros (H1 & H2 & H3). split_and!; [done|unfold small; lia|unfold short; lia|by apply cstr_id|apply Z.leb_gt; lia].
Qed.

Lemma delete_applies rec (w : world) key : command_fits (CDelete key) -> applies_as rec w (CDelete key).
Proof.
  intros (Hne & Hk). eapply (keyed_applies _ _ _ CETCD_APPLY_DELETE key []);
    [by apply (encode_one_spec CETCD_APPLY_DELETE), Hne; apply small_short|done|done|done|done|done].
Qed.

Lemma delete_range_applies rec (w : world) key e : command_fits (CDeleteRange key e) -> applies_as rec w (CDeleteRange key e).
Proof.
  intros (Hne & Hk & He).
  eapply (keyed_applies _ _ _ CETCD_APPLY_DELETE_RANGE key e); [by apply encode_range_spec; (apply small_short || done)|done|done|done|done|].
  unfold apply_keyed. eval_tags. rewrite read_varint_spec by (by apply short_u64, small_short).
  rewrite <- (app_nil_r e) at 2. by rewrite take_bytes_app.
Qed.

(** The second string of a command of two. *)
Ltac second_string b :=
  rewrite read_varint_spec by (by apply short_u64);
  rewrite ?blen_nonempty by done; rewrite <- (app_nil_r b) at 2; rewrite take_bytes_app.

Lemma one_name_applies rec (w : world) name :  name_fits name ->
  applies_as rec w (CUserDelete name) /\ applies_as rec w (CRoleAdd name) /\ applies_as rec w (CRoleDelete name).
Proof.
  intros Hn. destruct (name_facts name Hn) as (Hne & Hsm & Hsh & Hc & Hl).
  split_and!; (eapply (keyed_applies _ _ _ _ name []); [by apply encode_one_spec|done|done|done|done|]);
    unfold apply_keyed; eval_tags; by rewrite Hl, Hc.
Qed.

Lemma name_hash_applies rec (w : world) name hash : name_fits name -> hash <> [] -> small hash ->
  applies_as rec w (CUserAdd name hash) /\ applies_as rec w (CUserChangePass name hash).
Proof.
  intros Hn Hh Hs. destruct (name_facts name Hn) as (Hne & Hsm & Hsh & Hc & Hl). pose proof (small_short _ Hs) as Hs'.
  split; (eapply (keyed_applies _ _ _ _ name hash); [by apply encode_two_spec|done|done|done|done|]);
    unfold apply_keyed; eval_tags; second_string hash; by rewrite Hl, Hc.
Qed.

Lemma user_role_applies rec (w : world) user role : name_fits user -> name_fits role ->
  applies_as rec w (CUserGrantRole user role) /\ applies_as rec w (CUserRevokeRole user role).
Proof.
  intros Hu Hr. destruct (name_facts user Hu) as (Hne & Hsm & Hsh & Hc & Hl).
  destruct (name_facts role Hr) as (Hne' & Hsm' & Hsh' & Hc' & Hl').
  split; (eapply (keyed_applies _ _ _ _ user role); [by apply encode_two_spec|done|done|done|done|]);
    unfold apply_keyed; eval_tags; second_string role; by rewrite Hl, Hl', Hc, Hc'.
Qed.

Definition range_field (e : bytes) : bytes := match e with [] => [] | _ => varint (blen e) ++ e end.

Lemma append_range_end_spec buf e : blen e < 256 -> append_range_end buf e = Some (buf ++ range_field e).
Proof.
  intros He. unfold append_range_end. destruct e as [|x e]; [by rewrite app_nil_r|]. rewrite blen_nonempty by done. cbv zeta.
  do 2 encode_step. by rewrite <- app_assoc.
Qed.

Lemma opt_range_field e : blen e < 256 -> opt_field (range_field e) = Some (e, []).
Proof.
  intros He. destruct e as [|x e]; [done|]. unfold range_field. rewrite <- (app_nil_r (x :: e)) at 2.
  apply opt_field_app; [done|unfold short; lia].
Qed.

Lemma range_field_blen e : blen e < 256 -> 0 <= blen (range_field e) < 300.
Proof. intros He. split; [apply blen_nonneg|]. destruct e; [done|]. unfold range_field. blen_bounds. Qed.

Lemma grant_perm_applies rec (w : world) role key t e : command_fits (CRoleGrantPerm role key t e) ->
  applies_as rec w (CRoleGrantPerm role key t e).
Proof.
  intros (Hr & Hk & Ht & He). destruct (name_facts role Hr) as (Hne & Hsm & Hsh & Hc & Hl). unfold small in Hsm.
  pose proof (range_field_blen e He). assert (Hks : short key) by (unfold short; lia).
  eapply (applies_intro _ _ _ CETCD_APPLY_AUTH_ROLE_GRANT_PERM
    (varint (blen role) ++ role ++ varint (blen key) ++ key ++ varint t ++ range_field e)); [|blen_bounds|done|].
  - cbn [encode_command]. unfold cetcd_apply_encode_auth_role_grant_perm_range. rewrite blen_nonempty by done.
    rewrite !(proj2 (Z.ltb_ge _ _)) by lia. cbn [orb].
    rewrite encode_tagged_spec by (done || (intros x [= <-]; unfold in_u64; lia)). cbn [mbind option_bind].
    rewrite append_range_end_spec by done. by rewrite <- app_assoc, tagged_cons.
  - rewrite keyed_entry by done. unfold apply_keyed. eval_tags. rewrite read_varint_spec by (by apply short_u64).
    rewrite take_bytes_app. rewrite read_varint_spec by (unfold in_u64; lia).
    rewrite (proj2 (Z.ltb_ge 2 t)), (proj2 (Z.leb_gt 256 (blen key))), Hl, Hc by lia. cbn [orb run_command].
    destruct (cetcd_auth_get_role _ _); [|done]. rewrite opt_range_field by done. by rewrite (proj2 (Z.leb_gt _ _)).
Qed.

Lemma revoke_perm_applies rec (w : world) role key e : command_fits (CRoleRevokePerm role key e) ->
  applies_as rec w (CRoleRevokePerm role key e).
Proof.
  intros (Hr & Hk & He). destruct (name_facts role Hr) as (Hne & Hsm & Hsh & Hc & Hl). unfold small in Hsm.
  pose proof (range_field_blen e He). assert (Hks : short key) by (unfold short; lia).
  eapply (applies_intro _ _ _ CETCD_APPLY_AUTH_ROLE_REVOKE_PERM
    (varint (blen role) ++ role ++ varint (blen key) ++ key ++ range_field e)); [|blen_bounds|done|].
  - cbn [encode_command]. unfold cetcd_apply_encode_auth_role_revoke_perm_range. rewrite blen_nonempty by done.
    rewrite encode_tagged_spec by done. cbn [mbind option_bind].
    rewrite append_range_end_spec by done. by rewrite app_nil_r, tagged_cons.
  - rewrite keyed_entry by done. unfold apply_keyed. eval_tags. 
    assert (opt_field (varint (blen key) ++ key ++ range_field e) = Some (key, range_field e)) as ->.
    { unfold opt_field. rewrite (proj2 (Z.eqb_neq _ 0)) by blen_bounds. rewrite read_varint_spec by (by apply short_u64). apply take_bytes_app. }
    rewrite opt_range_field by done. rewrite !(proj2 (Z.leb_gt 256 _)), Hl, Hc by lia. done.
Qed.

(** The commands made of varints only. *)
Lemma varint_nil v rest : in_u64 v -> rest = [] -> read_varint_ (varint v) = Some (v, rest).
Proof. intros Hv ->. rewrite <- (app_nil_r (varint v)). by apply read_varint_spec. Qed.

Ltac read_last := rewrite varint_nil with (rest := []) by (done || (unfold in_u64; lia) || apply u64_range).

Lemma lease_applies rec (w : world) id ttl : 0 < id < 2 ^ 64 -> bad_ttl ttl = false ->
  applies_as rec w (CLeaseGrant id ttl) /\ applies_as rec w (CLeaseKeepalive id ttl).
Proof.
  intros Hid Ht. pose proof Ht as Hb. unfold bad_ttl in Hb. apply orb_false_iff in Hb as [H1 H2].
  apply Z.leb_gt in H1 as H1'. apply Z.ltb_ge in H2 as H2'. unfold CETCD_MAX_LEASE_TTL in H2'.
  assert (Hu : u64 ttl = ttl) by (apply u64_small; unfold in_u64; lia).
  assert (Henc : forall tag, tag <> CETCD_APPLY_BATCH ->
    (if (id =? 0) || (ttl <=? 0) || (CETCD_MAX_LEASE_TTL <? ttl) then None
     else write_varint_ 24 [tag] id ≫= fun buf => write_varint_ 24 buf (u64 ttl)) = Some (tag :: varint id ++ varint ttl)).
  { intros tag _. rewrite (proj2 (Z.eqb_neq id 0)), H1, H2, Hu by lia. cbn [orb]. do 2 encode_step. by rewrite <- app_assoc. }
  pose proof (varint_blen id) as Bi. pose proof (varint_blen ttl) as Bt.
  split; (eapply applies_intro; [by apply Henc|blen_bounds|done|]);
    unfold apply_entry_inner_; eval_tags; rewrite (proj2 (Z.ltb_ge _ 3)) by blen_bounds;
    rewrite read_varint_spec by (unfold in_u64; lia); rewrite (proj2 (Z.eqb_neq id 0)) by lia; read_last;
    rewrite (proj2 (Z.eqb_neq ttl 0)) by lia; done.
Qed.

Lemma one_id_encodes tag id : 0 < id < 2 ^ 64 ->
  (if id =? 0 then None else write_varint_ 16 [tag] id) = Some (tag :: varint id).
Proof. intros Hid. rewrite (proj2 (Z.eqb_neq id 0)) by lia. encode_step. done. Qed.

Lemma revoke_applies rec (w : world) id : 0 < id < 2 ^ 64 -> applies_as rec w (CLeaseRevoke id).
Proof.
  intros Hid. eapply applies_intro; [by apply one_id_encodes|blen_bounds|done|].
  unfold apply_entry_inner_. eval_tags. read_last. done.
Qed.

Lemma compact_applies rec (w : world) rev : 0 < rev < 2 ^ 63 -> applies_as rec w (CCompact rev).
Proof.
  intros Hr. assert (Hu : u64 rev = rev) by (apply u64_small; unfold in_u64; lia).
  eapply (applies_intro _ _ _ CETCD_APPLY_COMPACT (varint rev)); [|blen_bounds|done|].
  - cbn [encode_command]. unfold cetcd_apply_encode_compact. rewrite (proj2 (Z.leb_gt _ _)), Hu by lia. encode_step. done.
  - unfold apply_entry_inner_. eval_tags. read_last. rewrite (proj2 (Z.eqb_neq rev 0)) by lia. done.
Qed.

Lemma alarm_applies rec (w : world) a t m : command_fits (CAlarm a t m) -> applies_as rec w (CAlarm a t m).
Proof.
  intros (Ha & Ht & Hm).
  eapply (applies_intro _ _ _ CETCD_APPLY_ALARM (varint a ++ varint t ++ varint m)); [|blen_bounds|done|].
  - cbn [encode_command]. unfold cetcd_apply_encode_alarm.
    assert ((negb (a =? 1) && negb (a =? 2)) || (negb (t =? 1) && negb (t =? 2)) = false) as ->
      by (destruct Ha as [-> | ->], Ht as [-> | ->]; done).
    do 3 encode_step. by rewrite <- !app_assoc.
  - unfold apply_entry_inner_. eval_tags. rewrite (proj2 (Z.ltb_ge _ 4)) by blen_bounds.
    rewrite !read_varint_spec by (unfold in_u64; lia). by rewrite varint_nil with (rest := []).
Qed.

Lemma enabled_applies rec (w : world) on : applies_as rec w (CAuthEnabled on).
Proof.
  exists [CETCD_APPLY_AUTH_ENABLED; if on then 1 else 0]. by destruct on.
Qed.

Lemma member_id_applies rec (w : world) id : 0 < id < 2 ^ 64 ->
  applies_as rec w (CMemberRemove id) /\ applies_as rec w (CMemberPromote id).
Proof.
  intros Hid. split; (eapply applies_intro; [by apply one_id_encodes|blen_bounds|done|]);
    unfold apply_entry_inner_; eval_tags; unfold apply_member_, with_cluster; cbn [run_command]; unfold with_cluster;
    destruct (w_cluster w); [|done|  |done]; read_last; rewrite (proj2 (Z.eqb_neq id 0)) by lia; eval_tags; done.
Qed.

Lemma member_add_applies rec (w : world) id l addr port : command_fits (CMemberAdd id l addr port) ->
  applies_as rec w (CMemberAdd id l addr port).
Proof.
  intros (Hid & [Hz Ha] & Hp). eapply (applies_intro _ _ _ CETCD_APPLY_MEMBER_ADD
    (varint id ++ varint (if l then 1 else 0) ++ varint (blen addr) ++ addr ++ varint port)); [|destruct l; blen_bounds|done|].
  - cbn [encode_command]. unfold cetcd_apply_encode_member_add. rewrite (proj2 (Z.eqb_neq id 0)) by lia. cbv zeta.
    assert (Hl : 0 <= (if l then 1 else 0) <= 1) by (by destruct l). set (lz := if l then 1 else 0) in *.
    do 5 encode_step. by rewrite <- !app_assoc.
  - unfold apply_entry_inner_. eval_tags. unfold apply_member_. cbn [run_command]. unfold with_cluster.
    destruct (w_cluster w) as [c|]; [|done]. rewrite read_varint_spec by (unfold in_u64; lia).
    rewrite (proj2 (Z.eqb_neq id 0)) by lia. eval_tags. rewrite read_varint_spec by (by destruct l).
    rewrite read_varint_spec by (apply short_u64; unfold short; lia). rewrite blen_app.
    rewrite (proj2 (Z.ltb_ge _ _)) by blen_bounds. cbv zeta. rewrite (proj2 (Z.leb_gt _ _)) by lia.
    unfold blen. rewrite Nat2Z.id, take_app_length, drop_app_length. read_last.
    rewrite cstr_id, Z.mod_small by (done || lia). by destruct l.
Qed.

Lemma member_update_applies rec (w : world) id addr port : command_fits (CMemberUpdate id addr port) ->
  applies_as rec w (CMemberUpdate id addr port).
Proof.
  intros (Hid & [Hz Ha] & Hp). eapply (applies_intro _ _ _ CETCD_APPLY_MEMBER_UPDATE
    (varint id ++ varint (blen addr) ++ addr ++ varint port)); [|blen_bounds|done|].
  - cbn [encode_command]. unfold cetcd_apply_encode_member_update. rewrite (proj2 (Z.eqb_neq id 0)) by lia. cbv zeta.
    do 4 encode_step. by rewrite <- !app_assoc.
  - unfold apply_entry_inner_. eval_tags. unfold apply_member_. cbn [run_command]. unfold with_cluster.
    destruct (w_cluster w) as [c|]; [|done]. rewrite read_varint_spec by (unfold in_u64; lia).
    rewrite (proj2 (Z.eqb_neq id 0)) by lia. eval_tags.
    rewrite read_varint_spec by (apply short_u64; unfold short; lia). rewrite blen_app.
    rewrite (proj2 (Z.ltb_ge _ _)) by blen_bounds. cbv zeta. rewrite (proj2 (Z.leb_gt _ _)) by lia.
    unfold blen. rewrite Nat2Z.id, take_app_length, drop_app_length. read_last.
    by rewrite cstr_id, Z.mod_small by (done || lia).
Qed.

(** Applying the encoding of a command runs the command. *)
Lemma command_applies rec (w : world) c : command_fits c -> applies_as rec w c.
Proof.
  destruct c as [key val lease|key|key e|id ttl|id ttl|id|rev|a t m|on|n h|n|n h|u r|u r|n|n|r k t e|r k e|id l a p|id|id|id a p];
    cbn [command_fits]; intros Hc.
  - exact (put_applies rec w key val lease Hc).
  - exact (delete_applies rec w key Hc).
  - exact (delete_range_applies rec w key e Hc).
  - exact (proj1 (lease_applies rec w id ttl (proj1 Hc) (proj2 Hc))).
  - exact (proj2 (lease_applies rec w id ttl (proj1 Hc) (proj2 Hc))).
  - exact (revoke_applies rec w id Hc).
  - exact (compact_applies rec w rev Hc).
  - exact (alarm_applies rec w a t m Hc).
  - exact (enabled_applies rec w on).
  - destruct Hc as (H1 & H2 & H3). exact (proj1 (name_hash_applies rec w n h H1 H2 H3)).
  - exact (proj1 (one_name_applies rec w n Hc)).
  - destruct Hc as (H1 & H2 & H3). exact (proj2 (name_hash_applies rec w n h H1 H2 H3)).
  - exact (proj1 (user_role_applies rec w u r (proj1 Hc) (proj2 Hc))).
  - exact (proj2 (user_role_applies rec w u r (proj1 Hc) (proj2 Hc))).
  - exact (proj1 (proj2 (one_name_applies rec w n Hc))).
  - exact (proj2 (proj2 (one_name_applies rec w n Hc))).
  - exact (grant_perm_applies rec w r k t e Hc).
  - exact (revoke_perm_applies rec w r k e Hc).
  - exact (member_add_applies rec w id l a p Hc).
  - exact (proj1 (member_id_applies rec w id Hc)).
  - exact (proj2 (member_id_applies rec w id Hc)).
  - exact (member_update_applies rec w id a p Hc).
Qed.

(** ** Results *)

Definition rc_ok (r : world * Z) : Prop := r.2 = 0 \/ r.2 = -1.

Ltac rc_cases :=
  repeat (cbn [fst snd]; match goal with |- context [match ?x with _ => _ end] => destruct x end);
  first [by left|by right].

Lemma auth_result_rc (w : world) r : rc_ok (auth_result w r).
Proof. unfold rc_ok, auth_result, auth_done. rc_cases. Qed.

Lemma auth_tolerant_rc (w : world) r : rc_ok (auth_result_tolerant w r).
Proof. unfold rc_ok, auth_result_tolerant, auth_done. rc_cases. Qed.

Lemma delete_one_rc (w : world) key : rc_ok (apply_delete_one_ w key).
Proof. unfold rc_ok, apply_delete_one_. rc_cases. Qed.

Lemma member_rc (w : world) op data : rc_ok (apply_member_ w op data).
Proof.
  unfold rc_ok, apply_member_, apply_member_remove, apply_member_promote, apply_member_update, apply_member_add. rc_cases.
Qed.

(** The items an entry consists of: itself, or those of the batch. *)
Fixpoint items_of (n : nat) (d : bytes) : list bytes :=
  match n with
  | O => []
  | S n =>
      match read_varint_ d with
      | None => []
      | Some (ilen, d) => match take_bytes ilen d with None => [] | Some (item, d) => item :: items_of n d end
      end
  end.

Definition entry_items (data : bytes) : list bytes :=
  if nth 0 data 0 =? CETCD_APPLY_BATCH then
    match read_varint_ (drop 1 data) with None => [] | Some (n, d) => items_of (Z.to_nat n) d end
  else [data].

(** Whether an entry or item is a role revocation. *)
Definition is_role_revoke (item : bytes) : bool := nth 0 item 0 =? CETCD_APPLY_AUTH_USER_REVOKE_ROLE.

(** The result is 0 or -1, or undefined where [b] allows it. *)
Definition defined_or (b : bool) (r : option (world * Z)) : Prop := match r with Some r => rc_ok r | None => b = true end.

Lemma defined_weaken (b b' : bool) r : (b = true -> b' = true) -> defined_or b r -> defined_or b' r.
Proof. destruct r; cbn; auto. Qed.

Lemma role_add_defined b (w : world) name : defined_or b (apply_role_add w name).
Proof.
  unfold apply_role_add. destruct (cetcd_auth_get_role _ _); [by left|].
  destruct (cetcd_auth_add_role _ _ _ _ _ _) eqn:Ha; cbn; [apply auth_result_rc|].
  unfold cetcd_auth_add_role, cetcd_role_new in Ha. destruct (cetcd_hashmap_get _ _); [done|]. cbn in Ha. done.
Qed.

(** Case analysis down the branches of an entry. *)
Ltac entry_cases :=
  repeat match goal with
  | |- defined_or _ (if ?b then _ else _) => destruct b eqn:?
  | |- defined_or _ (match ?x with _ => _ end) => destruct x as [[? ?]|] || destruct x
  end.

Lemma keyed_defined (w : world) op key d : defined_or (op =? CETCD_APPLY_AUTH_USER_REVOKE_ROLE) (apply_keyed w op key d).
Proof.
  unfold apply_keyed, ret. cbv zeta. set (rv := op =? CETCD_APPLY_AUTH_USER_REVOKE_ROLE).
  assert (Hf : defined_or rv (Some (w, -1))) by (by right). pose proof (role_add_defined rv w (cstr key)) as Hrole.
  assert (Hrev : forall r, rv = true -> defined_or rv (apply_revoke_role w (cstr key) r)).
  { intros r Hr. unfold apply_revoke_role. destruct (cetcd_auth_revoke_role _ _ _); cbn; [apply auth_tolerant_rc|done]. }
  destruct rv eqn:Hrv; entry_cases; try done; try (by apply Hrev).
  all: clear; cbn [defined_or]; unfold rc_ok, apply_put_, apply_delete_range_, apply_delete_one_, apply_user_add,
    apply_user_delete, apply_role_delete, apply_change_pass, apply_grant_perm, apply_revoke_perm, auth_result,
    auth_result_tolerant, auth_done; rc_cases.
Qed.

(** An entry other than a batch. *)
Lemma single_defined rec (w : world) data : nth 0 data 0 <> CETCD_APPLY_BATCH ->
  defined_or (is_role_revoke data) (apply_entry_inner_ rec w data).
Proof.
  intros Hb. unfold apply_entry_inner_, ret. destruct data as [|op d]; [by right|]. unfold is_role_revoke. cbn [nth] in *. cbv zeta.
  destruct (op =? CETCD_APPLY_BATCH) eqn:Hx; [by apply Z.eqb_eq in Hx|]. pose proof (keyed_defined w op) as Hk.
  set (rv := op =? CETCD_APPLY_AUTH_USER_REVOKE_ROLE) in *. assert (Hf : defined_or rv (Some (w, -1))) by (by right).
  entry_cases; try done; try (by apply Hk).
  all: clear; cbn [defined_or]; unfold rc_ok, apply_lease_revoke_, apply_lease_grant, apply_lease_keepalive, apply_alarm,
    apply_compact, apply_auth_enabled, auth_done; try apply member_rc; rc_cases.
Qed.

Lemma batch_defined rec n : forall (w : world) d,
  (forall w item, nth 0 item 0 <> CETCD_APPLY_BATCH -> defined_or (is_role_revoke item) (rec w item)) ->
  defined_or (existsb is_role_revoke (items_of n d)) (apply_batch rec n w d).
Proof.
  induction n as [|n IH]; intros w d Hrec; [by left|]. cbn [apply_batch items_of]. unfold ret.
  destruct (read_varint_ d) as [[ilen d1]|]; [|by right]. destruct (ilen =? 0); [by right|].
  destruct (take_bytes ilen d1) as [[item d2]|]; [|by right]. cbn [existsb].
  destruct (Z.eqb_spec (nth 0 item 0) CETCD_APPLY_BATCH) as [He|He]; [by right|].
  pose proof (Hrec w item He) as Hi. destruct (rec w item) as [[w' rc]|]; cbn [mbind option_bind]; [|by cbn in *; rewrite Hi].
  destruct (negb (rc =? 0)); [by right|]. eapply defined_weaken; [|by apply IH]. intros ->. by rewrite orb_true_r.
Qed.

(** C24: applying an entry is total.  Whatever bytes the log holds, applying
    them in any state ends with the result 0 or -1, unless the entry, or an
    item of the batch it is, is a role revocation (which can overrun the role
    buffer). *)
Theorem apply_entry_total (w : world) (data : bytes) :
  match cetcd_v3rpc_apply_entry w data with
  | Some (_, rc) => rc = 0 \/ rc = -1
  | None => existsb is_role_revoke (entry_items data) = true
  end.
Proof.
  assert (Hd : defined_or (existsb is_role_revoke (entry_items data)) (cetcd_v3rpc_apply_entry w data)).
  { unfold entry_items. destruct (Z.eqb_spec (nth 0 data 0) CETCD_APPLY_BATCH) as [Hb|Hb].
    - destruct data as [|op d]; [done|]. cbn [nth] in Hb. subst op. change (drop 1 (CETCD_APPLY_BATCH :: d)) with d.
      unfold cetcd_v3rpc_apply_entry, apply_entry_inner_ at 1, ret. eval_tags.
      destruct (read_varint_ d) as [[n d1]|]; [|by right]. destruct (_ || _); [by right|].
      apply batch_defined. intros w2 it Hnb. by apply single_defined.
    - cbn [existsb]. rewrite orb_false_r. by apply single_defined. }
  by destruct (cetcd_v3rpc_apply_entry w data) as [[? ?]|].
Qed.

(** ** Batches *)

Lemma batch_applies rec (w0 : world) cs : Forall command_fits cs -> exists ops, mapM encode_command cs = Some ops /\
  length ops = length cs /\ Forall short ops /\
  forall w : world, apply_batch (apply_entry_inner_ rec) (length cs) w (batch_body ops) = run_commands w cs.
Proof.
  induction 1 as [|c cs Hc Hcs (ops & Ho & Hl & Hs & Hr)]; [by exists []|].
  destruct (command_applies rec w0 c Hc) as (d & He & Hsd & Hne & Hnb & _).
  assert (Ha : forall w : world, apply_entry_inner_ rec w d = run_command w c).
  { intros w. destruct (command_applies rec w c Hc) as (d' & He' & _ & _ & _ & Ha). rewrite He in He'. by injection He' as <-. }
  exists (d :: ops). split_and!; [cbn; by rewrite He; cbn; rewrite Ho|cbn; by rewrite Hl|by constructor|].
  intros w. cbn [length apply_batch run_commands].
  change (batch_body (d :: ops)) with ((varint (blen d) ++ d) ++ batch_body ops). rewrite <- app_assoc.
  rewrite read_varint_spec by (by apply short_u64). rewrite blen_nonempty by done. rewrite take_bytes_app.
  rewrite (proj2 (Z.eqb_neq _ _)) by done. rewrite Ha. destruct (run_command w c) as [[w1 rc]|]; [|done]. cbn [mbind option_bind].
  destruct (negb (rc =? 0)); [done|]. apply Hr.
Qed.

Lemma command_rc (w : world) c w' rc : command_fits c -> run_command w c = Some (w', rc) -> rc = 0 \/ rc = -1.
Proof.
  intros Hc Hr. destruct (command_applies (apply_entry_inner_ (fun w _ => ret w (-1))) w c Hc) as (d & _ & _ & _ & Hnb & Ha).
  pose proof (single_defined (apply_entry_inner_ (fun w _ => ret w (-1))) w d Hnb) as Hd. rewrite Ha, Hr in Hd. done.
Qed.

(** One to 128 commands in one entry. *)
Lemma commands_apply (w : world) (cs : list command) : (1 <= length cs <= 128)%nat -> Forall command_fits cs ->
  exists ops d, mapM encode_command cs = Some ops /\ cetcd_apply_encode_batch ops = Some d /\
    cetcd_v3rpc_apply_entry w d = run_commands w cs.
Proof.
  intros Hn Hcs. destruct (batch_applies (fun w _ => ret w (-1)) w cs Hcs) as (ops & Ho & Hl & Hs & Hr). exists ops.
  destruct cs as [|c [|c' cs']]; [cbn in Hn; lia| |].
  - apply Forall_inv in Hcs. destruct (command_applies (apply_entry_inner_ (fun w _ => ret w (-1))) w c Hcs) as (d & He & _ & _ & _ & Ha).
    cbn in Ho. rewrite He in Ho. injection Ho as <-. exists d. split_and!; [cbn; by rewrite He|done|].
    unfold cetcd_v3rpc_apply_entry. rewrite Ha. cbn [run_commands].
    destruct (run_command w c) as [[w' rc]|] eqn:Hrun; [|done]. cbn [mbind option_bind].
    by destruct (command_rc w c w' rc Hcs Hrun) as [-> | ->].
  - set (cs := c :: c' :: cs') in *. assert (Hn' : (2 <= length ops <= 128)%nat) by (rewrite Hl; unfold cs in *; cbn in *; lia).
    eexists. split; [done|]. split; [by apply encode_batch_spec|].
    unfold cetcd_v3rpc_apply_entry, apply_entry_inner_ at 1. eval_tags.
    rewrite read_varint_spec by (unfold in_u64, blen; lia).
    rewrite (proj2 (Z.eqb_neq _ 0)), (proj2 (Z.ltb_ge _ _)) by (unfold blen; lia). cbn [orb].
    unfold blen. rewrite Nat2Z.id, Hl. apply Hr.
Qed.

(** C22: commands round trip.  One to 128 well-formed commands are encoded into
    one entry (a batch, or the command itself when it is one), and applying
    that entry in any state runs the commands in order on the components, up
    to the first that fails. *)
Theorem apply_commands (w : world) (cs : list command) (Hn : (1 <= length cs <= 128)%nat) (Hcs : Forall command_fits cs) :
  exists ops d, mapM encode_command cs = Some ops /\ cetcd_apply_encode_batch ops = Some d /\
    cetcd_v3rpc_apply_entry w d = run_commands w cs.
Proof. exact (commands_apply w cs Hn Hcs). Qed.

End Commands.
