(* ===== verification/ApplyInv.v ===== *)
(** * The invariant of the replicated state

    Every command keeps the invariants of the store, the leases, the users
    and the cluster, and the agreement of keys and leases: a key attached to a
    lease exists, and its current version carries that lease. *)

From S2P Require Import Slice Hash KeyOrder Treap Hashmap Raft RaftWire Wal Backend Mvcc MvccSnap MvccStore Lease LeaseProps LeaseRestart CString Auth AuthProps Cluster ClusterProps ApplyCodec Alarm Apply ApplyCmd Prelude.

#[local] Open Scope Z_scope.

Section World.
  Context {T : Type -> Type} {E Tx : Type} `{!KeyIndex T, !KeyIndexLaws T, !Lmdb E Tx, !LmdbLaws E Tx, !Clock, !AuthLibs}.
  Local Notation world := (world T E).

(** Every key attached to a lease is live under that lease. *)
Definition attached_ok (cur : gmap bytes cetcd_kv) (leases : gmap Z lease_info) : Prop :=
  forall id li k, leases !! id = Some li -> k ∈ li_keys li -> exists kv, cur !! k = Some kv /\ kv_lease_id kv = id.

(** The invariants of the parts and, where [agree] holds, the agreement between
    keys and leases. *)
Record world_inv (agree : Prop) (w : world) : Prop := {
  wo_store : store_ok (w_store w);
  wo_keys : current (w_store w) !! [] = None;
  wo_mgr : lease_ok (w_mgr w);
  wo_attached : agree -> attached_ok (current (w_store w)) (leases_of (w_mgr w));
  wo_auth : auth_ok (w_auth w);
  wo_jwt : a_jwt_alg (w_auth w) = CETCD_JWT_NONE;
  wo_cluster : match w_cluster w with Some c => cluster_ok c | None => True end
}.

(** The invariant of the replicated state. *)
Definition world_ok : world -> Prop := world_inv True.

Lemma world_inv_mono (agree agree' : Prop) (w : world) : (agree' -> agree) -> world_inv agree w -> world_inv agree' w.
Proof. intros Ha [O1 O2 O3 O4 O5 O6 O7]. split; auto. Qed.

(** The lemmas below keep either form of the invariant. *)
Section Agree.
  Context {agree : Prop}.

(** ** The shared environment *)

Lemma store_env_ok (s : cetcd_mvcc_store T E) e : store_ok s -> store_ok (s <| s_env := e |>).
Proof. intros Hs. by eapply store_ok_ext. Qed.

Lemma mgr_env_ok (m : cetcd_lease_mgr E) e : lease_ok m -> lease_ok (m <| m_env := e |>).
Proof. by destruct 1. Qed.

Lemma mgr_env_leases (m : cetcd_lease_mgr E) e : leases_of (m <| m_env := e |>) = leases_of m.
Proof. done. Qed.

(** What an operation on one component leaves of the others. *)
Lemma on_store_frame {A} (w : world) (f : cetcd_mvcc_store T E -> cetcd_mvcc_store T E * A) :
  w_store (on_store w f).1 = (f ((w_store w) <| s_env := w_env w |>)).1 /\
  (on_store w f).2 = (f ((w_store w) <| s_env := w_env w |>)).2 /\
  w_mgr (on_store w f).1 = w_mgr w /\ w_auth (on_store w f).1 = w_auth w /\
  w_raft (on_store w f).1 = w_raft w /\ w_cluster (on_store w f).1 = w_cluster w.
Proof. unfold on_store. by destruct (f _). Qed.

Lemma on_mgr_frame {A} (w : world) (f : cetcd_lease_mgr E -> cetcd_lease_mgr E * A) :
  w_mgr (on_mgr w f).1 = (f ((w_mgr w) <| m_env := w_env w |>)).1 /\
  (on_mgr w f).2 = (f ((w_mgr w) <| m_env := w_env w |>)).2 /\
  w_store (on_mgr w f).1 = w_store w /\ w_auth (on_mgr w f).1 = w_auth w /\
  w_raft (on_mgr w f).1 = w_raft w /\ w_cluster (on_mgr w f).1 = w_cluster w.
Proof. unfold on_mgr. by destruct (f _). Qed.

(** The part of a world the key commands change. *)
Record same_rest (w w' : world) : Prop := {
  sr_auth : w_auth w' = w_auth w;
  sr_raft : w_raft w' = w_raft w;
  sr_cluster : w_cluster w' = w_cluster w
}.

#[local] Instance same_rest_trans : Transitive same_rest.
Proof. intros a b c [] []. split; congruence. Qed.

#[local] Instance same_rest_refl : Reflexive same_rest.
Proof. by split. Qed.

(** ** Attaching and detaching in the world *)

Definition detach_in (id : Z) (key : bytes) (leases : gmap Z lease_info) : gmap Z lease_info :=
  alter (fun li => mk_info (li_ttl li) (li_deadline li) (filter (fun k => k <> key) (li_keys li))) id leases.

Definition attach_in (id : Z) (key : bytes) (leases : gmap Z lease_info) : gmap Z lease_info :=
  alter (fun li => mk_info (li_ttl li) (li_deadline li)
    (if bool_decide (key ∈ li_keys li) then li_keys li else li_keys li ++ [key])) id leases.

Lemma detach_world (w : world) id key : lease_ok (w_mgr w) ->
  let w' := (on_mgr w (fun m => cetcd_lease_detach_key m id key)).1 in
  lease_ok (w_mgr w') /\ leases_of (w_mgr w') = detach_in id key (leases_of (w_mgr w)) /\ w_store w' = w_store w /\ same_rest w w'.
Proof.
  intros Hm w'. destruct (on_mgr_frame w (fun m => cetcd_lease_detach_key m id key)) as (F1 & _ & F3 & F4 & F5 & F6).
  pose proof (detach_spec ((w_mgr w) <| m_env := w_env w |>) id key (mgr_env_ok _ _ Hm)) as Hd. fold w' in F1, F3, F4, F5, F6.
  destruct (cetcd_lease_detach_key _ id key) as [m rc]. cbn [fst] in F1. subst m. destruct Hd as (D1 & _ & _ & _ & D5).
  split_and!; [done|by rewrite D5|done|by split].
Qed.

Lemma attach_world (w : world) id key : lease_ok (w_mgr w) ->
  let w' := (on_mgr w (fun m => cetcd_lease_attach_key m id key)).1 in
  lease_ok (w_mgr w') /\ leases_of (w_mgr w') = attach_in id key (leases_of (w_mgr w)) /\ w_store w' = w_store w /\ same_rest w w'.
Proof.
  intros Hm w'. destruct (on_mgr_frame w (fun m => cetcd_lease_attach_key m id key)) as (F1 & _ & F3 & F4 & F5 & F6).
  pose proof (attach_spec ((w_mgr w) <| m_env := w_env w |>) id key (mgr_env_ok _ _ Hm)) as Hd. fold w' in F1, F3, F4, F5, F6.
  destruct (cetcd_lease_attach_key _ id key) as [m rc]. cbn [fst] in F1. subst m. destruct Hd as (D1 & _ & _ & _ & D5).
  split_and!; [done|by rewrite D5|done|by split].
Qed.

Lemma detach_in_keys id key leases id' li k : detach_in id key leases !! id' = Some li -> k ∈ li_keys li ->
  exists li0, leases !! id' = Some li0 /\ k ∈ li_keys li0 /\ (id' = id -> k <> key).
Proof.
  unfold detach_in. intros Hl Hk. destruct (decide (id' = id)) as [-> |Hne].
  - rewrite lookup_alter_eq in Hl. destruct (leases !! id) as [li0|]; [|done]. injection Hl as <-. cbn in Hk.
    apply list_elem_of_filter in Hk as [H1 H2]. by exists li0.
  - rewrite lookup_alter_ne in Hl by done. by exists li.
Qed.

Lemma attach_in_keys id key leases id' li k : attach_in id key leases !! id' = Some li -> k ∈ li_keys li ->
  (id' = id /\ k = key) \/ exists li0, leases !! id' = Some li0 /\ k ∈ li_keys li0.
Proof.
  unfold attach_in. intros Hl Hk. destruct (decide (id' = id)) as [-> |Hne].
  - rewrite lookup_alter_eq in Hl. destruct (leases !! id) as [li0|]; [|done]. injection Hl as <-. cbn in Hk.
    case_bool_decide; [right; by exists li0|]. apply elem_of_app in Hk as [Hk|Hk%list_elem_of_singleton]; [right; by exists li0|by left].
  - rewrite lookup_alter_ne in Hl by done. right. by exists li.
Qed.

Lemma key_lease_spec (w : world) key : store_ok (w_store w) ->
  key_lease w key = match current (w_store w) !! key with Some kv => kv_lease_id kv | None => 0 end.
Proof.
  intros Hs. unfold key_lease. rewrite get_current by apply Hs. by destruct (current _ !! key).
Qed.

(** ** The store in the world *)

Lemma put_row_facts (s : cetcd_mvcc_store T E) key val l :
  kv_key (put_row s key val l) = key /\ kv_lease_id (put_row s key val l) = l.
Proof. unfold put_row. by destruct (current s !! key). Qed.

Lemma put_world (w : world) key val l : store_ok (w_store w) ->
  let '(w', r) := on_store w (fun s => cetcd_mvcc_put s key val l) in
  store_ok (w_store w') /\ w_mgr w' = w_mgr w /\ same_rest w w' /\
  ((rev_main r <= 0 /\ current (w_store w') = current (w_store w)) \/
   (0 < rev_main r /\ exists kv, kv_lease_id kv = l /\ current (w_store w') = <[key := kv]> (current (w_store w)))).
Proof.
  intros Hs. destruct (on_store_frame w (fun s => cetcd_mvcc_put s key val l)) as (F1 & F2 & F3 & F4 & F5 & F6).
  set (s0 := (w_store w) <| s_env := w_env w |>) in *. assert (Hs0 : store_ok s0) by (by apply store_env_ok).
  pose proof (put_cases s0 key val l Hs0) as Hc. destruct (on_store w _) as [w' r]. cbn [fst snd] in *.
  destruct (cetcd_mvcc_put s0 key val l) as [s' r']. cbn [fst snd] in *. subst s' r'.
  destruct Hc as [[-> Hu]|(-> & (_ & _ & _ & _ & _ & _ & Ecur & _) & Hs')].
  - split_and!; [by eapply unchanged_ok|done|by split|]. left. split; [done|]. by rewrite (unchanged_current _ _ Hu).
  - split_and!; [done|done|by split|]. right. pose proof (so_main_nonneg _ Hs0). split; [change (0 < s_main_rev s0 + 1); lia|].
    destruct (put_row_facts s0 key val l) as [Hk Hl]. exists (kv_of_entry (put_entry (put_row s0 key val l))). split; [done|].
    rewrite Ecur. unfold MvccSnap.apply_entry. cbn [re_type put_entry re_key]. by rewrite Hk.
Qed.

Lemma delete_world (w : world) key : store_ok (w_store w) ->
  let '(w', r) := on_store w (fun s => cetcd_mvcc_delete s key) in
  store_ok (w_store w') /\ w_mgr w' = w_mgr w /\ same_rest w w' /\
  ((rev_main r <= 0 /\ current (w_store w') = current (w_store w)) \/
   (0 < rev_main r /\ current (w_store w') = delete key (current (w_store w)))).
Proof.
  intros Hs. destruct (on_store_frame w (fun s => cetcd_mvcc_delete s key)) as (F1 & F2 & F3 & F4 & F5 & F6).
  set (s0 := (w_store w) <| s_env := w_env w |>) in *. assert (Hs0 : store_ok s0) by (by apply store_env_ok).
  destruct (on_store w _) as [w' r]. cbn [fst snd] in *. unfold cetcd_mvcc_delete in *.
  destruct (current s0 !! key) as [kv|] eqn:Hk.
  - pose proof (delete_one_cases s0 key kv true None Hs0 Hk (next_rev_fresh s0 Hs0)) as Hc.
    destruct (delete_one_ s0 key true None) as [s' r']. cbn [fst snd] in *. subst s' r'.
    destruct Hc as [(-> & _ & Hu)|(-> & (_ & _ & _ & _ & _ & _ & Ecur & _) & Hs' & _)].
    + split_and!; [by eapply unchanged_ok|done|by split|]. left. split; [done|]. by rewrite (unchanged_current _ _ Hu).
    + split_and!; [done|done|by split|]. right. pose proof (so_main_nonneg _ Hs0). split; [change (0 < s_main_rev s0 + 1); lia|].
      rewrite Ecur. unfold MvccSnap.apply_entry. cbn [re_type delete_entry re_key]. by rewrite (current_key s0 key kv Hk).
  - rewrite delete_one_absent in F1, F2 by done. cbn [fst snd] in *. subst r. rewrite F1.
    split_and!; [done|done|by split|]. by left.
Qed.

(** The rows after a batch. *)
Lemma batch_lookup (s : cetcd_mvcc_store T E) keys k : current s !! [] = None ->
  foldl (fun m k => delete k m) (current s) (batch_keys s keys) !! k = if decide (k ∈ keys) then None else current s !! k.
Proof.
  intros Hempty. rewrite deletes_lookup.
  destruct (decide (k ∈ batch_keys s keys)) as [Hb|Hb]; [by rewrite decide_True by (by apply batch_keys_live in Hb as [? _])|].
  destruct (decide (k ∈ keys)) as [Hk|Hk]; [|done]. apply eq_None_not_Some. intros Hl. apply Hb.
  apply elem_of_bool_filter. split; [done|]. apply andb_true_iff.
  split; [|by apply bool_decide_eq_true]. destruct k as [|x k]; [|by rewrite blen_nonempty].
  rewrite Hempty in Hl. by destruct Hl.
Qed.

Lemma delete_keys_world (w : world) keys : store_ok (w_store w) -> current (w_store w) !! [] = None -> NoDup keys ->
  let '(w', r) := on_store w (fun s => cetcd_mvcc_delete_keys s keys) in
  store_ok (w_store w') /\ w_mgr w' = w_mgr w /\ same_rest w w' /\
  ((rev_main r <= 0 /\ current (w_store w') = current (w_store w)) \/
   (0 < rev_main r /\ forall k, current (w_store w') !! k = if decide (k ∈ keys) then None else current (w_store w) !! k)).
Proof.
  intros Hs Hempty Hnd. destruct (on_store_frame w (fun s => cetcd_mvcc_delete_keys s keys)) as (F1 & F2 & F3 & F4 & F5 & F6).
  set (s0 := (w_store w) <| s_env := w_env w |>) in *. assert (Hs0 : store_ok s0) by (by apply store_env_ok).
  pose proof (delete_keys_cases s0 keys Hs0) as Hc. destruct (on_store w _) as [w' r]. cbn [fst snd] in *.
  destruct (cetcd_mvcc_delete_keys s0 keys) as [s' r']. cbn [fst snd] in *. subst s' r'. cbv zeta in Hc.
  destruct Hc as [(_ & Hsame & ->)|[(_ & Hu & ->)|(Hne & Hs' & _ & Hmain & Hr & Ecur & _)]].
  - rewrite Hsame. split_and!; [done|done|by split|]. by left.
  - split_and!; [by eapply unchanged_ok|done|by split|]. left. split; [done|]. by rewrite (unchanged_current _ _ Hu).
  - split_and!; [done|done|by split|]. right. pose proof (so_main_nonneg _ Hs0). split.
    + rewrite Hr, batch_last_nodup; [change (0 < s_main_rev s0 + 1); lia|by apply batch_keys_nodup|apply batch_keys_live|done].
    + intros k. rewrite Ecur. change (current (w_store w)) with (current s0). by apply batch_lookup.
Qed.

(** A batch in the store: it writes its own two buckets only, and without faults
    it goes through. *)
Lemma delete_keys_sure (s : cetcd_mvcc_store T E) keys : store_ok s -> let s' := (cetcd_mvcc_delete_keys s keys).1 in
  (s_backend s = false \/ never_fails (s_env s) /\ Forall db_key keys ->
     current s' = foldl (fun m k => delete k m) (current s) (batch_keys s keys)) /\
  (never_fails (s_env s) -> Forall db_key keys -> never_fails (s_env s')) /\
  (forall b, b <> MVCC_BUCKET_KEY -> b <> MVCC_BUCKET_META -> be_view (s_env s') b = be_view (s_env s) b).
Proof.
  intros Hs. unfold cetcd_mvcc_delete_keys. rewrite live_keys by done. cbv zeta.
  destruct (Z.eqb_spec (blen keys) 0) as [Hz|Hz]; [by destruct keys; [|rewrite blen_cons in Hz; pose proof (blen_nonneg keys); lia]|].
  destruct (Z.eqb_spec (blen (batch_keys s keys)) 0) as [Hb|Hb].
  { by destruct (batch_keys s keys) as [|k l]; [|rewrite blen_cons in Hb; pose proof (blen_nonneg l); lia]. }
  assert (Hdb : Forall db_key keys -> Forall db_key (batch_keys s keys)).
  { rewrite !Forall_forall. intros Hk k [Hin _]%elem_of_bool_filter. by apply Hk. }
  assert (Hloop : forall env, let s' := (delete_loop (s <| s_env := env |>) (s_main_rev s + 1) 0 (batch_keys s keys) zero_rev).1 in
    current s' = foldl (fun m k => delete k m) (current s) (batch_keys s keys) /\ s_env s' = env).
  { intros env. assert (Hs1 : store_ok (s <| s_env := env |>)) by (by eapply store_ok_ext).
    pose proof (delete_loop_spec (batch_keys s keys) _ (s_main_rev s + 1) 0 zero_rev Hs1 (next_rev_fresh _ Hs1)) as Hl.
    destruct (delete_loop _ _ 0 (batch_keys s keys) zero_rev) as [s' r]. by destruct Hl as (_ & _ & _ & Ec & _ & _ & _ & Ee & _). }
  unfold with_backend. destruct (s_backend s) eqn:Hbe.
  - pose proof (st_del_n _ never_fails_steady (s_env s) MVCC_BUCKET_KEY (batch_keys s keys) MVCC_BUCKET_META MVCC_META_REV (write_le64_ (s_main_rev s + 1))) as Hp.
    pose proof (del_n_other (s_env s) MVCC_BUCKET_KEY (batch_keys s keys) MVCC_BUCKET_META MVCC_META_REV (write_le64_ (s_main_rev s + 1))) as Hv.
    destruct (be_del_n _ _ _ _ _ _) as [e rc]. cbn [fst snd] in *. assert (Hm : db_key MVCC_META_REV) by done.
    destruct (is_ok rc) eqn:Hrc; cbn [negb].
    + destruct (Hloop e) as [Hc He]. cbv zeta in *. rewrite He. split_and!; [done| |done]. intros Hn Hk. by apply Hp; [|apply Hdb|].
    + cbn [fst]. split_and!; [|intros Hn Hk; by apply Hp; [|apply Hdb|]|done].
      intros [?|[Hn Hk]]; [done|]. destruct (Hp Hn (Hdb Hk) Hm) as [_ ->]. done.
  - cbn [is_ok negb]. destruct (Hloop (s_env s)) as [Hc He]. cbv zeta in *. replace (s <| s_env := s_env s |>) with s in * by (by destruct s).
    rewrite He. by split_and!.
Qed.

(** ** Keys and leases agree *)

Lemma attached_put cur L key kv l : attached_ok cur L -> (forall id, is_Some (L !! id) -> 0 < id) -> kv_lease_id kv = l ->
  let old := match cur !! key with Some kv => kv_lease_id kv | None => 0 end in
  let L1 := if (0 <? old) && negb (old =? l) then detach_in old key L else L in
  attached_ok (<[key := kv]> cur) (if 0 <? l then attach_in l key L1 else L1).
Proof.
  intros Ha Hpos Hl old L1 id li k Hli Hk.
  assert (H1 : forall li, L1 !! id = Some li -> k ∈ li_keys li -> k <> key \/ id = l).
  { unfold L1. intros li1 Hli1 Hk1. destruct (decide (k = key)) as [-> |]; [|by left]. right.
    assert (Hin : exists li0, L !! id = Some li0 /\ key ∈ li_keys li0).
    { destruct (_ && _); [|by exists li1]. destruct (detach_in_keys _ _ _ _ _ _ Hli1 Hk1) as (li0 & ? & ? & _). by exists li0. }
    destruct Hin as (li0 & Hli0 & Hk0). destruct (Ha id li0 key Hli0 Hk0) as (kv0 & Hkv0 & Hlease).
    assert (Hold : old = id) by (unfold old; by rewrite Hkv0). specialize (Hpos id ltac:(eauto)).
    destruct (decide (id = l)) as [|Hne]; [done|].
    rewrite (proj2 (Z.ltb_lt 0 old)), (proj2 (Z.eqb_neq old l)) in Hli1 by lia. cbn [negb andb] in Hli1.
    destruct (detach_in_keys _ _ _ _ _ _ Hli1 Hk1) as (_ & _ & _ & Hx). by destruct (Hx ltac:(lia)). }
  assert (Hcase : (id = l /\ k = key) \/ exists li1, L1 !! id = Some li1 /\ k ∈ li_keys li1).
  { destruct (0 <? l); [|right; by exists li]. by eapply attach_in_keys. }
  destruct Hcase as [[-> ->]|(li1 & Hli1 & Hk1)]; [exists kv; by rewrite lookup_insert_eq|].
  destruct (decide (k = key)) as [-> |Hne].
  { exists kv. rewrite lookup_insert_eq. split; [done|]. by destruct (H1 li1 Hli1 Hk1) as [? | -> ]. }
  rewrite lookup_insert_ne by done. unfold L1 in Hli1.
  destruct (_ && _); [|by apply (Ha id li1)]. destruct (detach_in_keys _ _ _ _ _ _ Hli1 Hk1) as (li0 & ? & ? & _). by apply (Ha id li0).
Qed.

(** Keys that are deleted and detached from their lease. *)
Lemma attached_delete (cur cur' : gmap bytes cetcd_kv) L L' (gone : bytes -> Prop) : attached_ok cur L ->
  (forall k, ~ gone k -> cur' !! k = cur !! k) ->
  (forall id li k, L' !! id = Some li -> k ∈ li_keys li -> ~ gone k /\ exists li0, L !! id = Some li0 /\ k ∈ li_keys li0) ->
  attached_ok cur' L'.
Proof.
  intros Ha Hc HL id li k Hli Hk. destruct (HL id li k Hli Hk) as (Hg & li0 & Hli0 & Hk0). rewrite Hc by done.
  by apply (Ha id li0).
Qed.

Lemma leases_pos (m : cetcd_lease_mgr E) id : lease_ok m -> is_Some (leases_of m !! id) -> 0 < id.
Proof.
  intros Hm [li Hli]. rewrite by_id_lookup in Hli by done. destruct (lease_by_id_ m id) as [[i l]|] eqn:Hb; [|done].
  apply by_id_some in Hb as [Hi <-]. pose proof (lo_ids m Hm) as Hf. rewrite Forall_forall in Hf.
  apply Hf. apply list_elem_of_fmap_2. by eapply list_elem_of_lookup_2.
Qed.

(** The parts of the invariant the key commands work on. *)
Lemma world_inv_intro (agree' : Prop) (w w' : world) : world_inv agree w -> same_rest w w' -> store_ok (w_store w') ->
  current (w_store w') !! [] = None -> lease_ok (w_mgr w') -> (agree' -> agree) ->
  (agree' -> attached_ok (current (w_store w)) (leases_of (w_mgr w)) -> attached_ok (current (w_store w')) (leases_of (w_mgr w'))) ->
  world_inv agree' w'.
Proof. intros [O1 O2 O3 O4 O5 O6 O7] [R1 R2 R3] H1 H2 H3 Ha H4. split; auto; [by rewrite R1|by rewrite R1|by rewrite R3]. Qed.

Lemma world_ok_intro (w w' : world) : world_inv agree w -> same_rest w w' -> store_ok (w_store w') -> current (w_store w') !! [] = None ->
  lease_ok (w_mgr w') -> (attached_ok (current (w_store w)) (leases_of (w_mgr w)) -> attached_ok (current (w_store w')) (leases_of (w_mgr w'))) ->
  world_inv agree w'.
Proof. intros. by eapply world_inv_intro. Qed.

Lemma put_keeps (w : world) key val l : world_inv agree w -> world_inv agree (apply_put_ w key val l).1.
Proof.
  intros Hw. pose proof Hw as [O1 O2 O3 _ _ _ _]. unfold apply_put_. destruct (Z.eqb_spec (blen key) 0) as [Hz|Hz]; [done|].
  rewrite key_lease_spec by done. set (old := match _ with Some _ => _ | None => _ end).
  pose proof (put_world w key val l O1) as Hp. destruct (on_store w _) as [w1 r]. destruct Hp as (P1 & P2 & P3 & P4).
  destruct (Z.leb_spec (rev_main r) 0) as [Hr|Hr].
  { destruct P4 as [[_ P4]|[? _]]; [|lia]. cbn [fst]. apply (world_ok_intro w); try done; [by rewrite P4|by rewrite P2|by rewrite P4, P2]. }
  destruct P4 as [[? _]|(_ & kv & Hkv & P4)]; [lia|]. cbn [fst]. unfold lease_after_put_.
  assert (Hm1 : lease_ok (w_mgr w1)) by (by rewrite P2).
  set (w2 := if (0 <? old) && _ then _ else w1).
  assert (H2 : lease_ok (w_mgr w2) /\ w_store w2 = w_store w1 /\ same_rest w1 w2 /\
    leases_of (w_mgr w2) = if (0 <? old) && negb (old =? l) then detach_in old key (leases_of (w_mgr w)) else leases_of (w_mgr w)).
  { unfold w2. destruct (_ && _); [|by rewrite P2]. destruct (detach_world w1 old key Hm1) as (? & HL & ? & ?). by rewrite HL, P2. }
  destruct H2 as (M2 & S2 & R2 & L2).
  set (w3 := if 0 <? l then _ else w2).
  assert (H3 : lease_ok (w_mgr w3) /\ w_store w3 = w_store w1 /\ same_rest w w3 /\
    leases_of (w_mgr w3) = if 0 <? l then attach_in l key (leases_of (w_mgr w2)) else leases_of (w_mgr w2)).
  { unfold w3. destruct (0 <? l); [|split_and!; try done; by etrans; [|exact R2]].
    destruct (attach_world w2 l key M2) as (? & HL & HS & HR). split_and!; [done|by rewrite HS|by do 2 (etrans; [|done])|done]. }
  destruct H3 as (M3 & S3 & R3 & L3). apply (world_ok_intro w); try done.
  - by rewrite S3.
  - rewrite S3, P4, lookup_insert_ne; [done|]. intros ->. done.
  - intros O4. rewrite S3, P4, L3, L2. apply attached_put; [done| |done]. intros id. by apply leases_pos.
Qed.

Lemma delete_one_keeps (w : world) key : world_inv agree w -> world_inv agree (apply_delete_one_ w key).1.
Proof.
  intros Hw. pose proof Hw as [O1 O2 O3 _ _ _ _]. unfold apply_delete_one_. destruct (Z.eqb_spec (blen key) 0) as [Hz|Hz]; [done|].
  rewrite key_lease_spec by done. set (l := match _ with Some _ => _ | None => _ end).
  pose proof (delete_world w key O1) as Hp. destruct (on_store w _) as [w1 r]. destruct Hp as (P1 & P2 & P3 & P4).
  assert (Hm1 : lease_ok (w_mgr w1)) by (by rewrite P2).
  destruct P4 as [[Hr P4]|[Hr P4]].
  { rewrite (proj2 (Z.ltb_ge 0 _)) by lia. cbn [andb fst]. apply (world_ok_intro w); try done; [by rewrite P4|by rewrite P4, P2]. }
  rewrite (proj2 (Z.ltb_lt 0 _)) by lia. cbn [andb].
  assert (Hkey : attached_ok (current (w_store w)) (leases_of (w_mgr w)) ->
    forall id li, leases_of (w_mgr w) !! id = Some li -> key ∈ li_keys li -> id = l).
  { intros O4 id li Hli Hk. destruct (O4 id li key Hli Hk) as (kv & Hkv & <-). unfold l. by rewrite Hkv. }
  assert (Hempty : delete key (current (w_store w)) !! [] = None) by (apply lookup_delete_None; by right).
  assert (Hcur : forall k, ~ k = key -> delete key (current (w_store w)) !! k = current (w_store w) !! k)
    by (intros k Hk; by rewrite lookup_delete_ne).
  destruct (Z.ltb_spec 0 l) as [Hl|Hl]; cbn [fst].
  - destruct (detach_world w1 l key Hm1) as (M2 & L2 & S2 & R2). apply (world_ok_intro w); try done.
    + by etrans.
    + by rewrite S2.
    + by rewrite S2, P4.
    + intros O4. rewrite S2, P4, L2, P2. eapply (attached_delete _ _ _ _ (fun k => k = key)); [exact O4|exact Hcur|].
      intros id li k Hli Hk. destruct (detach_in_keys _ _ _ _ _ _ Hli Hk) as (li0 & H1 & H2 & H3). split; [|by exists li0].
      intros ->. apply H3; [|done]. by apply (Hkey O4 id li0).
  - apply (world_ok_intro w); try done; [by rewrite P4|]. intros O4. rewrite P4, P2.
    eapply (attached_delete _ _ _ _ (fun k => k = key)); [exact O4|exact Hcur|].
    intros id li k Hli Hk. split; [|by exists li]. intros ->. pose proof (Hkey O4 id li Hli Hk).
    pose proof (leases_pos _ id O3 ltac:(eauto)). lia.
Qed.

(** Detaching every deleted row from its lease. *)
Lemma detach_rows kvs : forall w : world, lease_ok (w_mgr w) -> let w' := foldl detach_kv w kvs in
  lease_ok (w_mgr w') /\ w_store w' = w_store w /\ same_rest w w' /\
  forall id li k, leases_of (w_mgr w') !! id = Some li -> k ∈ li_keys li ->
    (exists li0, leases_of (w_mgr w) !! id = Some li0 /\ k ∈ li_keys li0) /\
    forall kv, kv ∈ kvs -> 0 < kv_lease_id kv -> ~ (kv_key kv = k /\ kv_lease_id kv = id).
Proof.
  induction kvs as [|kv kvs IH]; intros w Hm; cbn [foldl].
  { split_and!; [done|done|done|]. intros id li k Hli Hk. split; [by exists li|]. by intros kv ?%not_elem_of_nil. }
  assert (H1 : lease_ok (w_mgr (detach_kv w kv)) /\ w_store (detach_kv w kv) = w_store w /\ same_rest w (detach_kv w kv) /\
    leases_of (w_mgr (detach_kv w kv)) =
      if 0 <? kv_lease_id kv then detach_in (kv_lease_id kv) (kv_key kv) (leases_of (w_mgr w)) else leases_of (w_mgr w)).
  { unfold detach_kv. destruct (0 <? kv_lease_id kv); [|done].
    destruct (detach_world w (kv_lease_id kv) (kv_key kv) Hm) as (? & ? & ? & ?). done. }
  destruct H1 as (M1 & S1 & R1 & L1). destruct (IH _ M1) as (M2 & S2 & R2 & L2). cbv zeta in *.
  split_and!; [done|congruence|by etrans|]. intros id li k Hli Hk. destruct (L2 id li k Hli Hk) as [(li1 & Hli1 & Hk1) Hrest].
  rewrite L1 in Hli1. destruct (Z.ltb_spec 0 (kv_lease_id kv)) as [Hp|Hp].
  - destruct (detach_in_keys _ _ _ _ _ _ Hli1 Hk1) as (li0 & Hli0 & Hk0 & Hx). split; [by exists li0|].
    intros kv' [-> |Hin]%elem_of_cons Hl; [|by apply Hrest]. intros [<- <-]. by apply Hx.
  - split; [by exists li1|]. intros kv' [-> |Hin]%elem_of_cons Hl; [lia|by apply Hrest].
Qed.

Lemma filter_fst_nodup {A B} (f : A * B -> bool) (l : list (A * B)) : NoDup l.*1 -> NoDup (List.filter f l).*1.
Proof.
  induction l as [|[k v] l IH]; cbn [fmap list_fmap List.filter fst]; [done|]. intros [H1 H2]%NoDup_cons.
  destruct (f (k, v)); [|by apply IH]. apply NoDup_cons. split; [|by apply IH].
  intros ([k' v'] & Hk & [Hin _]%elem_of_lfilter)%list_elem_of_fmap. cbn in Hk. subst k'. apply H1.
  by apply (list_elem_of_fmap_2 fst _ (k, v')).
Qed.

(** The rows of a range: each is live under its own key, and no key twice. *)
Lemma rows_between_rows (s : cetcd_mvcc_store T E) lo hi :
  (forall kv, kv ∈ rows_between lo hi (current s) -> current s !! kv_key kv = Some kv) /\
  NoDup (kv_key <$> rows_between lo hi (current s)).
Proof.
  unfold rows_between. set (es := List.filter _ _).
  assert (Hes : forall k kv, (k, kv) ∈ es -> current s !! k = Some kv /\ kv_key kv = k).
  { intros k kv [Hin _]%elem_of_lfilter. apply sorted_entries_elem in Hin. split; [done|]. by eapply current_key. }
  assert (Hkeys : kv_key <$> es.*2 = es.*1).
  { rewrite <- list_fmap_compose. apply list_fmap_ext. intros i [k kv] Hi. cbn.
    by apply (Hes k kv), (list_elem_of_lookup_2 _ i). }
  split.
  - intros kv ([k kv'] & -> & Hin)%list_elem_of_fmap. cbn. destruct (Hes k kv' Hin) as [H1 ->]. done.
  - rewrite Hkeys. apply filter_fst_nodup, sorted_entries_nodup.
Qed.

Lemma delete_range_keeps (w : world) key e : world_inv agree w -> world_inv agree (apply_delete_range_ w key e).1.
Proof.
  intros Hw. pose proof Hw as [O1 O2 O3 _ _ _ _]. unfold apply_delete_range_. destruct (blen key =? 0); [done|].
  destruct (blen e =? 0); [by apply delete_one_keeps|]. rewrite range_zero by apply O1.
  destruct (rows_between_rows (w_store w) key (range_hi e)) as [Hrows Hnd]. set (kvs := rows_between _ _ _) in *.
  destruct (blen kvs =? 0); [done|]. pose proof (delete_keys_world w (kv_key <$> kvs) O1 O2 Hnd) as Hp.
  destruct (on_store w _) as [w1 r]. destruct Hp as (P1 & P2 & P3 & P4). assert (Hm1 : lease_ok (w_mgr w1)) by (by rewrite P2).
  destruct P4 as [[Hr P4]|[Hr P4]].
  { rewrite (proj2 (Z.ltb_ge 0 _)) by lia. cbn [fst]. apply (world_ok_intro w); try done; [by rewrite P4|by rewrite P4, P2]. }
  rewrite (proj2 (Z.ltb_lt 0 _)) by lia. cbn [fst]. destruct (detach_rows kvs w1 Hm1) as (M2 & S2 & R2 & L2). cbv zeta in *.
  apply (world_ok_intro w); [done|by etrans|by rewrite S2| |done|].
  - rewrite S2, P4. by case_decide.
  - intros O4. rewrite S2. eapply (attached_delete _ _ _ _ (fun k => k ∈ kv_key <$> kvs)); [exact O4| |].
    + intros k Hk. by rewrite P4, decide_False.
    + intros id li k Hli Hk. destruct (L2 id li k Hli Hk) as [(li0 & Hli0 & Hk0) Hx]. rewrite P2 in Hli0.
      split; [|by exists li0]. intros (kv & -> & Hin)%list_elem_of_fmap.
      destruct (O4 id li0 _ Hli0 Hk0) as (kv' & Hkv' & Hid). rewrite (Hrows kv Hin) in Hkv'. injection Hkv' as <-.
      pose proof (leases_pos _ id O3 ltac:(eauto)). apply (Hx kv Hin); [lia|done].
Qed.

(** ** Leases *)

(** A revocation: keys and leases agree after it when its lease is gone. *)
Lemma revoke_keeps (w : world) id : world_inv agree w ->
  world_inv (agree /\ cetcd_lease_exists (w_mgr (apply_lease_revoke_ w id).1) id = false) (apply_lease_revoke_ w id).1.
Proof.
  intros Hw. pose proof Hw as [O1 O2 O3 _ _ _ _]. unfold apply_lease_revoke_. destruct (id =? 0); [by eapply world_inv_mono; [|exact Hw]; intros []|]. cbn [fst].
  set (keys := cetcd_lease_keys (w_mgr w) id).
  assert (Hkeys : forall k, k ∈ keys <-> exists li, leases_of (w_mgr w) !! id = Some li /\ k ∈ li_keys li).
  { intros k. unfold keys, cetcd_lease_keys. rewrite by_id_lookup by done.
    destruct (lease_by_id_ (w_mgr w) id) as [[i l]|]; cbn.
    - split; [intros Hk; by eexists|]. by intros (li & [= <-] & Hk).
    - split; [by intros ?%not_elem_of_nil|]. by intros (li & [=] & _). }
  assert (Hnd : NoDup keys).
  { unfold keys, cetcd_lease_keys. destruct (lease_by_id_ (w_mgr w) id) as [[i l]|] eqn:Hb; [|constructor].
    apply by_id_some in Hb as [Hi _]. apply (lw_nodup l). pose proof (lo_wf _ O3) as Hf. rewrite Forall_forall in Hf.
    apply Hf. by eapply list_elem_of_lookup_2. }
  set (w1 := if 0 <? blen keys then _ else w).
  assert (H1 : store_ok (w_store w1) /\ w_mgr w1 = w_mgr w /\ same_rest w w1 /\ current (w_store w1) !! [] = None /\
    forall k, k ∉ keys -> current (w_store w1) !! k = current (w_store w) !! k).
  { unfold w1. destruct (0 <? blen keys); [|done]. pose proof (delete_keys_world w keys O1 O2 Hnd) as Hp.
    destruct (on_store w _) as [w' r]. destruct Hp as (P1 & P2 & P3 & [[_ P4]|[_ P4]]); cbn [fst]; (split_and!; [done|done|done| |]).
    - by rewrite P4.
    - by rewrite P4.
    - rewrite P4. by case_decide.
    - intros k Hk. by rewrite P4, decide_False. }
  destruct H1 as (S1 & M1 & R1 & E1 & C1).
  destruct (on_mgr_frame w1 (fun m => cetcd_lease_revoke m id)) as (F1 & _ & F3 & F4 & F5 & F6).
  assert (Hm1 : lease_ok ((w_mgr w1) <| m_env := w_env w1 |>)) by (apply mgr_env_ok; by rewrite M1).
  pose proof (revoke_spec _ id Hm1) as Hv. set (w2 := (on_mgr w1 _).1) in *.
  destruct (cetcd_lease_revoke _ id) as [m rc]. cbn [fst] in F1. subst m. destruct Hv as (V1 & _ & _ & V4 & _).
  rewrite mgr_env_leases, M1 in V4.
  apply (world_inv_intro _ w); [done|etrans; [exact R1|by split]|by rewrite F3|by rewrite F3|done|by intros []|].
  intros [_ Hgone] O4. rewrite exists_map in Hgone by done. apply bool_decide_eq_false in Hgone. rewrite F3. eapply (attached_delete _ _ _ _ (fun k => k ∈ keys)); [exact O4|exact C1|].
  intros id' li k Hli Hk.
  assert (Hne : id' <> id) by (intros ->; apply Hgone; eauto).
  assert (Hli0 : leases_of (w_mgr w) !! id' = Some li).
  { rewrite V4 in Hli. destruct (is_ok rc); [|done]. by rewrite lookup_delete_ne in Hli. }
  split; [|by exists li]. intros (li' & Hli' & Hk')%Hkeys.
  destruct (O4 id' li k Hli0 Hk) as (kv & Hkv & <-). destruct (O4 id li' k Hli' Hk') as (kv' & Hkv' & <-). congruence.
Qed.

Lemma grant_keeps (w : world) id ttl : world_inv agree w -> 0 < id < 2 ^ 64 - 1 -> world_inv agree (apply_lease_grant w id ttl).1.
Proof.
  intros Hw Hid. pose proof Hw as [O1 O2 O3 _ _ _ _]. unfold apply_lease_grant. destruct (_ <? _); [done|].
  destruct (cetcd_lease_exists (w_mgr w) id); [done|].
  destruct (on_mgr_frame w (fun m => cetcd_lease_grant_id m id (i64 ttl))) as (F1 & _ & F3 & F4 & F5 & F6).
  destruct (grant_id_spec _ id (i64 ttl) (mgr_env_ok _ (w_env w) O3) ltac:(lia)) as [[G1 _ _ G4] _].
  destruct (on_mgr w _) as [w' r]. cbn [fst snd] in *. rewrite <- F1 in G1, G4. rewrite mgr_env_leases in G4.
  apply (world_ok_intro w); [done|by split|by rewrite F3|by rewrite F3|done|]. intros O4. rewrite F3.
  destruct G4 as [[_ ->]|(_ & _ & _ & ->)]; [done|]. intros id' li k Hli Hk.
  apply lookup_insert_Some in Hli as [[<- <-]|[_ Hli]]; [by apply not_elem_of_nil in Hk|by apply (O4 id' li)].
Qed.

Lemma keepalive_keeps (w : world) id ttl : world_inv agree w -> bad_ttl (i64 ttl) = false -> world_inv agree (apply_lease_keepalive w id ttl).1.
Proof.
  intros Hw Ht. pose proof Hw as [O1 O2 O3 _ _ _ _]. unfold apply_lease_keepalive. destruct (_ <? _); [done|].
  destruct (negb _); [done|].
  destruct (on_mgr_frame w (fun m => cetcd_lease_keep_alive m id (i64 ttl))) as (F1 & _ & F3 & F4 & F5 & F6).
  pose proof (keep_alive_spec _ id (i64 ttl) (mgr_env_ok _ (w_env w) O3) Ht) as Hk.
  destruct (on_mgr w _) as [w' st]. cbn [fst snd] in *. destruct (cetcd_lease_keep_alive _ id _) as [m rc]. cbn [fst] in F1. subst m.
  destruct Hk as (K1 & _ & _ & K4 & _). rewrite mgr_env_leases in K4.
  apply (world_ok_intro w); [done|by split|by rewrite F3|by rewrite F3|done|]. intros O4. rewrite F3, K4. destruct (is_ok rc); [|done].
  intros id' li k Hli Hk. destruct (decide (id' = id)) as [-> |Hne].
  - rewrite lookup_alter_eq in Hli. destruct (leases_of (w_mgr w) !! id) as [li0|] eqn:Hl; [|done]. injection Hli as <-.
    by apply (O4 id li0).
  - rewrite lookup_alter_ne in Hli by done. by apply (O4 id' li).
Qed.

(** ** Compaction *)

Lemma cancel_frame c cur ss : forall w : world, let w' := foldl (cancel_step c cur) w ss in
  w_mgr w' = w_mgr w /\ same_rest w w' /\ (store_ok (w_store w) -> store_ok (w_store w')) /\
  current (w_store w') = current (w_store w).
Proof.
  induction ss as [|x ss IH]; intros w; cbn [foldl]; [done|]. destruct (IH (cancel_step c cur w x)) as (I1 & I2 & I3 & I4).
  assert (Hx : w_mgr (cancel_step c cur w x) = w_mgr w /\ same_rest w (cancel_step c cur w x) /\
    (store_ok (w_store w) -> store_ok (w_store (cancel_step c cur w x))) /\
    current (w_store (cancel_step c cur w x)) = current (w_store w)).
  { unfold cancel_step. destruct (cancels_watch c x); [|done]. destruct (sc_sw x); [|by split_and!].
    split_and!; [done|by split| |done]. intros Hs. by eapply store_ok_ext. }
  destruct Hx as (X1 & X2 & X3 & X4). split_and!; [congruence|by etrans|auto|congruence].
Qed.

Lemma compact_keeps (w : world) rev : world_inv agree w -> world_inv agree (apply_compact w rev).1.
Proof.
  intros Hw. pose proof Hw as [O1 O2 O3 _ _ _ _]. unfold apply_compact.
  destruct (on_store_frame w (fun s => cetcd_mvcc_compact s (i64 rev))) as (F1 & F2 & F3 & F4 & F5 & F6).
  pose proof (mvcc_compact_cases _ (i64 rev) (store_env_ok _ (w_env w) O1)) as Hc.
  destruct (on_store w _) as [w1 rc1]. cbn [fst snd] in *.
  destruct (cetcd_mvcc_compact _ (i64 rev)) as [s' rc]. cbn [fst snd] in *. subst s' rc1.
  assert (Hs1 : store_ok (w_store w1) /\ current (w_store w1) = current (w_store w)).
  { destruct Hc as [[_ Hu]|(_ & _ & (env & Hs') & Hok)]; [split; [eapply unchanged_ok; [|exact Hu]; by apply store_env_ok|by apply unchanged_current in Hu]|].
    split; [done|]. by rewrite Hs'. }
  destruct Hs1 as [S1 C1].
  assert (Hw1 : world_inv agree w1) by (apply (world_ok_intro w); [done|by split|done|by rewrite C1|by rewrite F3|by rewrite C1, F3]).
  destruct rc; cbn [fst]; try done. unfold cetcd_v3rpc_watch_cancel_compacted. destruct (_ <=? _); [done|]. cbv zeta.
  destruct (cancel_frame (i64 rev) (cetcd_mvcc_revision (w_store w1)) (w_streams w1) w1) as (X1 & [] & X3 & X4). cbv zeta in *.
  apply (world_ok_intro w1); cbn; [done|by split|auto|by rewrite X4, C1|by rewrite X1, F3|by rewrite X4, C1, X1, F3].
Qed.

(** ** Users, alarms, members *)

Lemma auth_world (w : world) s : world_inv agree w -> auth_ok s -> a_jwt_alg s = CETCD_JWT_NONE ->
  world_inv agree (w <| w_auth := s |>) /\ world_inv agree (auth_done w s).1.
Proof.
  intros [O1 O2 O3 O4 O5 O6 O7] Hs Hj. split; [by split|]. unfold auth_done, cetcd_v3rpc_auth_persist. cbn [fst].
  destruct (w_backend _); by split.
Qed.

Lemma auth_result_keeps (w : world) r : world_inv agree w -> auth_ok r.1 -> a_jwt_alg r.1 = CETCD_JWT_NONE ->
  world_inv agree (auth_result w r).1 /\ world_inv agree (auth_result_tolerant w r).1.
Proof.
  intros Hw H1 H2. destruct (auth_world w r.1 Hw H1 H2) as [A B]. destruct r as [s rc]. cbn [fst] in *.
  split; [unfold auth_result; by destruct (is_ok rc)|unfold auth_result_tolerant; by destruct rc].
Qed.

Lemma alarm_keeps (w : world) a t m : world_inv agree w -> world_inv agree (apply_alarm w a t m).1.
Proof.
  intros [O1 O2 O3 O4 O5 O6 O7]. unfold apply_alarm. destruct (_ || _); [done|].
  destruct (a =? 1); [destruct (cetcd_v3rpc_alarm_activate _ _ _ _ _)|destruct (cetcd_v3rpc_alarm_deactivate _ _ _ _ _)]; by split.
Qed.

Ltac jwt_kept := repeat match goal with |- context [match ?x with _ => _ end] => destruct x end; done.

Lemma auth_commands_keep (w : world) name hash role key e t on : world_inv agree w -> nul_free role ->
  world_inv agree (apply_user_add w name hash).1 /\ world_inv agree (apply_user_delete w name).1 /\ world_inv agree (apply_change_pass w name hash).1 /\
  world_inv agree (auth_result w (cetcd_auth_grant_role (w_auth w) name role)).1 /\ world_inv agree (apply_role_delete w name).1 /\
  world_inv agree (apply_grant_perm w name key t e).1 /\ world_inv agree (apply_revoke_perm w name key e).1 /\
  world_inv agree (apply_auth_enabled w on).1.
Proof.
  intros Hw Hrole. pose proof Hw as [_ _ _ _ O5 O6 _]. destruct (auth_world w (w_auth w) Hw O5 O6) as [_ Hsame]. split_and!.
  - unfold apply_user_add. destruct (cetcd_auth_has_user _ _); [done|]. apply auth_result_keeps; [done| |].
    + destruct (bad_hash name hash) eqn:Hb; [unfold cetcd_auth_add_user_hash; by rewrite Hb|].
      pose proof (add_user_hash_effect _ name hash O5 Hb) as He. destruct (cetcd_auth_add_user_hash _ _ _) as [s rc].
      destruct (users_of _ !! name); destruct He as [_ He]; [by subst|apply He].
    + unfold cetcd_auth_add_user_hash. jwt_kept.
  - unfold apply_user_delete. destruct (negb _); [done|]. apply auth_result_keeps; [done| |].
    + pose proof (remove_user_effect _ name O5) as He. destruct (cetcd_auth_remove_user _ _) as [s rc]. apply He.
    + unfold cetcd_auth_remove_user. jwt_kept.
  - unfold apply_change_pass. destruct (negb _); [done|]. apply auth_result_keeps; [done| |].
    + destruct (bad_hash name hash) eqn:Hb; [unfold cetcd_auth_set_user_hash; by rewrite Hb|].
      pose proof (set_user_hash_effect _ name hash O5 O6 Hb) as He. destruct (cetcd_auth_set_user_hash _ _ _) as [s rc].
      destruct (users_of _ !! name); destruct He as [_ He]; [apply He|by subst].
    + unfold cetcd_auth_set_user_hash, cetcd_auth_revoke_user_tokens, auth_drop_collected_tokens_, modify_user. jwt_kept.
  - apply auth_result_keeps; [done| |].
    + pose proof (grant_role_effect _ name role O5 Hrole) as He. destruct (cetcd_auth_grant_role _ _ _) as [s rc].
      destruct (users_of _ !! name); [|by destruct He as [_ ->]]. destruct (roles_of _ !! role); [apply He|by destruct He as [_ ->]].
    + unfold cetcd_auth_grant_role, modify_user. jwt_kept.
  - unfold apply_role_delete. destruct (cetcd_auth_get_role _ _); [|done]. apply auth_result_keeps; [done| |].
    + pose proof (remove_role_effect _ name O5) as He. destruct (cetcd_auth_remove_role _ _) as [s rc]. apply He.
    + unfold cetcd_auth_remove_role. jwt_kept.
  - unfold apply_grant_perm. apply auth_result_keeps; [done| |].
    + pose proof (grant_permission_effect _ name ((t =? 0) || (t =? 2)) ((t =? 1) || (t =? 2)) key e O5) as He.
      destruct (cetcd_auth_grant_permission_range _ _ _ _ _ _) as [s rc].
      destruct (roles_of _ !! name); [apply He|by destruct He as [_ ->]].
    + unfold cetcd_auth_grant_permission_range, modify_role. jwt_kept.
  - unfold apply_revoke_perm. destruct (cetcd_auth_get_role _ _); [|done]. apply auth_result_keeps; [done| |].
    + pose proof (revoke_permission_effect _ name key e O5) as He. destruct (cetcd_auth_revoke_permission_key_range _ _ _ _) as [s rc].
      destruct (roles_of _ !! name); [|by destruct He as [_ ->]]. destruct (bool_decide _); [apply He|by destruct He as [_ ->]].
    + unfold cetcd_auth_revoke_permission_key_range, modify_role. jwt_kept.
  - unfold apply_auth_enabled. destruct (1 <? on); [done|]. destruct (_ && _); [done|]. cbv zeta.
    apply auth_world; [done| |by destruct (on =? 0)].
    assert (Hen : auth_ok (cetcd_auth_set_enabled (w_auth w) (negb (on =? 0)))) by (by apply enabled_ok).
    destruct (on =? 0); [|done]. destruct Hen as [A1 A2 A3 A4 A5]. by split; try done; apply new8_ok.
Qed.

Lemma role_add_keeps (w : world) name r : world_inv agree w -> apply_role_add w name = Some r -> world_inv agree r.1.
Proof.
  intros Hw. pose proof Hw as [_ _ _ _ O5 O6 _]. unfold apply_role_add.
  destruct (cetcd_auth_get_role _ _); [intros [= <-]; by apply auth_world|].
  pose proof (add_role_effect _ name true true [47] O5 ltac:(by apply bytes_nul_free) ltac:(cbn; lia)) as He.
  change (blen [47]) with 1 in He. destruct (roles_of (w_auth w) !! name).
  - rewrite He. cbn [fmap option_fmap option_map]. intros [= <-]. by apply (auth_world w (w_auth w)).
  - destruct He as (s' & Hadd & He). rewrite Hadd. cbn [fmap option_fmap option_map]. intros [= <-]. apply auth_world; [done|apply He|].
    unfold cetcd_auth_add_role in Hadd. destruct (cetcd_hashmap_get _ _); [done|]. destruct (cetcd_role_new _ _ _ _ _); [|done].
    by injection Hadd as <-.
Qed.

Lemma revoke_role_keeps (w : world) user role r : world_inv agree w -> apply_revoke_role w user role = Some r -> world_inv agree r.1.
Proof.
  intros Hw. pose proof Hw as [_ _ _ _ O5 O6 _]. unfold apply_revoke_role.
  destruct (cetcd_auth_revoke_role (w_auth w) user role) as [[s rc]|] eqn:Hr; [|done]. cbn [fmap option_fmap option_map]. intros [= <-].
  refine (proj2 (auth_result_keeps w (s, rc) Hw _ _)); cbn [fst].
  - pose proof (revoke_role_effect _ user role O5) as He. destruct (users_of (w_auth w) !! user) as [u|].
    + destruct He as (H1 & H2 & _). destruct (decide (role ∈ au_roles u)) as [Hin|Hin].
      * by destruct (H2 Hin _ _ Hr) as [_ [? _ _ _]].
      * rewrite (H1 Hin) in Hr. by injection Hr as <- _.
    + rewrite He in Hr. by injection Hr as <- _.
  - unfold cetcd_auth_revoke_role in Hr. revert Hr.
    repeat match goal with |- context [match ?x with _ => _ end] => destruct x end; intros [= <- _]; done.
Qed.

(** The world with another environment, raft node and cluster. *)
Lemma world_ok_members (w w' : world) : world_inv agree w -> w_store w' = w_store w -> w_mgr w' = w_mgr w -> w_auth w' = w_auth w ->
  match w_cluster w' with Some c => cluster_ok c | None => True end -> world_inv agree w'.
Proof. intros [O1 O2 O3 O4 O5 O6 O7] E1 E2 E3 Hc. split; rewrite ?E1, ?E2, ?E3; done. Qed.

Lemma ensure_joint_frame (w : world) v : let w' := (ensure_joint w v).1 in
  w_store w' = w_store w /\ w_mgr w' = w_mgr w /\ w_auth w' = w_auth w /\ w_cluster w' = w_cluster w.
Proof.
  unfold ensure_joint, begin_voter_joint_. destruct (_ && _); [|done]. destruct (w_raft w) as [r|]; [|done].
  destruct (cetcd_raft_enter_joint r) as [r1 rc]. destruct (negb (rc =? 0)); [done|]. cbn [w_cluster].
  destruct (cetcd_raft_copy_outgoing r1 16) as [ids n].
  match goal with |- context [match ?x with Some _ => _ | None => _ end] => destruct x as [c|] eqn:Hc end; [|done].
  destruct (cetcd_cluster_persist_joint c _ _ _) as [e st]. by destruct (is_ok st).
Qed.

Lemma on_raft_frame (w : world) f : w_store (on_raft w f) = w_store w /\ w_mgr (on_raft w f) = w_mgr w /\
  w_auth (on_raft w f) = w_auth w /\ w_cluster (on_raft w f) = w_cluster w.
Proof. unfold on_raft. by destruct (w_raft w). Qed.

Lemma members_keep (w : world) c info id : world_inv agree w -> w_cluster w = Some c -> peer_ok info -> 0 < id ->
  world_inv agree (apply_member_remove w c id).1 /\ world_inv agree (apply_member_promote w c id).1 /\
  world_inv agree (apply_member_update w c info).1 /\ world_inv agree (apply_member_add w c info).1.
Proof.
  intros Hw Hwc Hi Hid. assert (Hc : cluster_ok c) by (pose proof (wo_cluster _ w Hw) as Hx; by rewrite Hwc in Hx).
  assert (Hjoint : forall v, world_inv agree (ensure_joint w v).1).
  { intros v. destruct (ensure_joint_frame w v) as (? & ? & ? & E4). apply (world_ok_members w); try done. by rewrite E4, Hwc. }
  assert (Hset : forall w1 c' e f, world_inv agree w1 -> cluster_ok c' ->
    world_inv agree (w1 <| w_env := e |>) /\ world_inv agree ((w1 <| w_env := e |>) <| w_cluster := Some c' |>) /\
    world_inv agree (on_raft ((w1 <| w_env := e |>) <| w_cluster := Some c' |>) f)).
  { intros w1 c' e f Hw1 Hc'. split_and!; [by destruct Hw1|by apply (world_ok_members w1)|].
    destruct (on_raft_frame ((w1 <| w_env := e |>) <| w_cluster := Some c' |>) f) as (? & ? & ? & E4).
    apply (world_ok_members w1); try done. by rewrite E4. }
  split_and!.
  - unfold apply_member_remove. set (v := match cetcd_cluster_get_peer c id with Some _ => _ | None => _ end).
    specialize (Hjoint v). destruct (ensure_joint w v) as [w1 rc]. destruct (negb (rc =? 0)); [done|].
    destruct (cetcd_cluster_persist_del c (w_env w1) id) as [e st]. pose proof (remove_peer_spec c id Hc) as Hr.
    destruct (cetcd_cluster_remove_peer c id) as [c' rc']. destruct Hr as [Hc' _].
    destruct (Hset w1 c' e (fun r => cetcd_raft_remove_peer r id) Hjoint Hc') as (A & _ & B). by destruct (negb (is_ok st)).
  - unfold apply_member_promote. destruct (cetcd_cluster_get_peer c id) as [p|]; [|done]. destruct (negb (p_is_learner p)); [done|].
    specialize (Hjoint true). destruct (ensure_joint w true) as [w1 rc]. destruct (negb (rc =? 0)); [done|].
    destruct (cetcd_cluster_persist_peer c (w_env w1) _) as [e st]. pose proof (promote_spec c id Hc ltac:(lia)) as Hp.
    destruct (cetcd_cluster_promote c id) as [c' rc']. destruct Hp as [Hc' _].
    destruct (Hset w1 c' e (fun r => cetcd_raft_promote r id) Hjoint Hc') as (A & B & C).
    destruct (negb (is_ok st)); [done|]. by destruct (negb (is_ok rc')).
  - unfold apply_member_update. set (info' := match cetcd_cluster_get_peer c (p_id info) with Some _ => _ | None => _ end).
    assert (Hi' : peer_ok info') by (unfold info'; destruct (cetcd_cluster_get_peer _ _); [by destruct Hi|done]).
    destruct (cetcd_cluster_persist_peer c (w_env w) info') as [e st].
    pose proof (update_peer_spec c (p_id info') info' Hc Hi' eq_refl) as Hu.
    destruct (cetcd_cluster_update_peer c (p_id info') info') as [c' rc']. destruct Hu as [Hc' _].
    destruct (Hset w c' e (fun r => (r, 0)) Hw Hc') as (A & B & _). by destruct (negb (is_ok st)).
  - unfold apply_member_add. specialize (Hjoint (negb (p_is_learner info))).
    destruct (ensure_joint w (negb (p_is_learner info))) as [w1 rc]. destruct (negb (rc =? 0)); [done|].
    destruct (cetcd_cluster_persist_peer c (w_env w1) info) as [e st].
    assert (Hadd : cluster_ok (cetcd_cluster_add_peer c info).1).
    { pose proof (add_peer_spec c info Hc Hi) as Ha. destruct (members_of c !! p_id info); [by rewrite Ha|].
      by destruct Ha as (c' & -> & ? & _). }
    destruct (cetcd_cluster_add_peer c info) as [c' rc'].
    destruct (Hset w1 c' e (fun r => cetcd_raft_add_peer r (p_id info) (p_is_learner info)) Hjoint Hadd) as (A & B & C).
    destruct (negb (is_ok st)); [done|]. by destruct rc'.
Qed.

(** ** Every command *)

(** Ids of granted leases stay below the largest 64-bit value, whose
    successor is not a valid next id. *)
Definition command_bounded (c : command) : Prop :=
  match c with CLeaseGrant id _ => id < 2 ^ 64 - 1 | _ => True end.

(** The lease of a revocation is gone. *)
Definition revoke_done (c : command) (w' : world) : Prop :=
  match c with CLeaseRevoke id => cetcd_lease_exists (w_mgr w') id = false | _ => True end.

Lemma i64_small z : 0 <= z < 2 ^ 63 -> i64 z = z.
Proof. intros Hz. unfold i64. rewrite u64_small by (unfold in_u64; lia). by rewrite (proj2 (Z.ltb_lt _ _)) by lia. Qed.

Lemma command_keeps (w : world) c w' rc : world_inv agree w -> command_fits c -> command_bounded c -> run_command w c = Some (w', rc) ->
  world_inv (agree /\ revoke_done c w') w'.
Proof.
  intros Hw Hf Hb Hrun. pose proof (wo_cluster _ w Hw) as Hcl.
  assert (Hcase : (exists id, c = CLeaseRevoke id) \/ forall id, c <> CLeaseRevoke id) by (destruct c; eauto; by right).
  destruct Hcase as [[id ->]|Hrevoke].
  { injection Hrun as Hrun. pose proof (revoke_keeps w id Hw) as Hr. by rewrite Hrun in Hr. }
  apply (world_inv_mono agree); [by intros []|].
  assert (Hall : forall r, Some r = Some (w', rc) -> world_inv agree r.1 -> world_inv agree w') by (by intros r [= ->]).
  assert (Hnil : nul_free []) by apply Forall_nil_2.
  assert (Hmem : forall f, (forall c, w_cluster w = Some c -> world_inv agree (f c).1) -> world_inv agree (with_cluster w f).1).
  { intros f Hc. unfold with_cluster. destruct (w_cluster w) as [c0|]; [by apply Hc|done]. }
  destruct c; cbn [run_command command_fits command_bounded revoke_done] in *; try (eapply Hall; [exact Hrun|]).
  - by apply put_keeps.
  - by apply delete_one_keeps.
  - by apply delete_range_keeps.
  - apply grant_keeps; [done|lia].
  - apply keepalive_keeps; [done|]. destruct Hf as [_ Ht]. rewrite i64_small; [done|].
    apply bad_ttl_false in Ht. unfold CETCD_MAX_LEASE_TTL in Ht. lia.
  - by destruct (Hrevoke id).
  - by apply compact_keeps.
  - by apply alarm_keeps.
  - by destruct (auth_commands_keep w [] [] [] [] [] 0 (if on then 1 else 0) Hw Hnil) as (_ & _ & _ & _ & _ & _ & _ & ?).
  - by destruct (auth_commands_keep w name hash [] [] [] 0 0 Hw Hnil) as (? & _).
  - by destruct (auth_commands_keep w name [] [] [] [] 0 0 Hw Hnil) as (_ & ? & _).
  - by destruct (auth_commands_keep w name hash [] [] [] 0 0 Hw Hnil) as (_ & _ & ? & _).
  - destruct Hf as [_ (_ & Hr & _)]. by destruct (auth_commands_keep w user [] role [] [] 0 0 Hw Hr) as (_ & _ & _ & ? & _).
  - by apply (revoke_role_keeps w user role (w', rc)).
  - by apply (role_add_keeps w name (w', rc)).
  - by destruct (auth_commands_keep w name [] [] [] [] 0 0 Hw Hnil) as (_ & _ & _ & _ & ? & _).
  - destruct (auth_commands_keep w role [] [] key range_end perm_type 0 Hw Hnil) as (_ & _ & _ & _ & _ & Hg & _).
    destruct (cetcd_auth_get_role (w_auth w) role); by eapply Hall.
  - by destruct (auth_commands_keep w role [] [] key range_end 0 0 Hw Hnil) as (_ & _ & _ & _ & _ & _ & ? & _).
  - destruct Hf as (Hid & [Hz Ha] & Hp). apply Hmem. intros c Hc.
    destruct (members_keep w c (mk_peer id addr port is_learner) id Hw Hc) as (_ & _ & _ & ?); [split; cbn; unfold blen in Ha; (lia || by split; [lia|])|lia|done].
  - apply Hmem. intros c Hc. by destruct (members_keep w c peer2 id Hw Hc peer2_ok ltac:(lia)) as (? & _).
  - apply Hmem. intros c Hc. by destruct (members_keep w c peer2 id Hw Hc peer2_ok ltac:(lia)) as (_ & ? & _).
  - destruct Hf as (Hid & [Hz Ha] & Hp). apply Hmem. intros c Hc.
    destruct (members_keep w c (mk_peer id addr port false) id Hw Hc) as (_ & _ & ? & _); [split; cbn; unfold blen in Ha; (lia || by split; [lia|])|lia|done].
Qed.

End Agree.

(** ** Writes that cannot fail *)

(** No write of the store can fail: it has no backend, or one that never fails
    and keys that fit it. *)
Definition sure (ks : list bytes) (w : world) : Prop :=
  s_backend (w_store w) = false \/ never_fails (w_env w) /\ Forall db_key ks.

Lemma put_sure (w : world) key val l : world_ok w -> key <> [] -> sure [key] w -> (apply_put_ w key val l).2 = 0.
Proof.
  intros Hw Hk Hsure. unfold apply_put_. rewrite blen_nonempty by done.
  destruct (on_store_frame w (fun s => cetcd_mvcc_put s key val l)) as (_ & F2 & _).
  set (s0 := (w_store w) <| s_env := w_env w |>) in *. destruct (on_store w _) as [w1 r]. cbn [fst snd] in *.
  assert (Hr : r = mk_rev (s_main_rev (w_store w) + 1) 0).
  { rewrite F2. unfold cetcd_mvcc_put, Mvcc.persist_put_, with_backend. change (s_backend s0) with (s_backend (w_store w)).
    destruct (s_backend (w_store w)) eqn:Hb; [|done]. destruct Hsure as [?|[Hn Hks%Forall_inv]]; [congruence|].
    set (kg := put_generation _ _ _ _).
    destruct (st_put2 _ never_fails_steady (w_env w) MVCC_BUCKET_KEY key (Some (encode_kg_ kg)) MVCC_BUCKET_META MVCC_META_REV
      (write_le64_ (s_main_rev (w_store w) + 1)) Hn Hks) as [_ Hp]; [done|]. change (s_env s0) with (w_env w).
    change (s_main_rev s0) with (s_main_rev (w_store w)). destruct (be_put2 _ _ _ _ _ _ _) as [e rc]. cbn [snd] in Hp. by subst rc. }
  rewrite Hr. cbn [rev_main]. pose proof (so_main_nonneg _ (wo_store _ w Hw)). destruct (Z.leb_spec (s_main_rev (w_store w) + 1) 0); [lia|done].
Qed.

(** One entry of the log: a command that fits, encoded and applied, the backend
    failing wherever it likes.  In a run without [faulty] revocations, the lease
    of a revocation is gone when it is done. *)
Inductive world_step (faulty : bool) (w : world) : world -> Prop :=
| step_command c d w' rc : command_fits c -> command_bounded c -> encode_command c = Some d ->
    cetcd_v3rpc_apply_entry w d = Some (w', rc) -> (faulty = false -> revoke_done c w') -> world_step faulty w w'.

Lemma step_keeps_inv (faulty : bool) (w w' : world) :
  world_inv (faulty = false) w -> world_step faulty w w' -> world_inv (faulty = false) w'.
Proof.
  intros Hw [c d w'' rc Hf Hb He Ha Hd].
  destruct (command_applies (apply_entry_inner_ (fun w _ => ret w (-1))) w c Hf) as (d' & He' & _ & _ & _ & Hrun).
  rewrite He in He'. injection He' as <-. unfold cetcd_v3rpc_apply_entry in Ha. rewrite Hrun in Ha.
  eapply world_inv_mono; [|by eapply command_keeps]. auto.
Qed.

Lemma step_keeps (w w' : world) : world_ok w -> world_step false w w' -> world_ok w'.
Proof.
  intros Hw Hs. eapply world_inv_mono, step_keeps_inv; [done| |exact Hs]. by eapply world_inv_mono, Hw.
Qed.

(** The state at start-up: new components, backends attached or not. *)
Definition world_new (env : E) (ch : gmap Z cetcd_mvcc_watch_notify) (be on_expire : bool) (raft : option cetcd_raft)
    (cluster : option cetcd_cluster) (quota node_id : Z) (server : cetcd_server) : world :=
  mk_world env (cetcd_mvcc_set_backend (cetcd_mvcc_store_new env ch) be)
    (cetcd_lease_mgr_set_backend (cetcd_lease_mgr_new env on_expire) be)
    cetcd_auth_store_new raft cluster no_alarms [] [] 1 CETCD_WATCH_PROGRESS_TICKS_DEFAULT be quota node_id server.

Lemma world_new_ok env ch be on raft cluster quota node_id server :
  match cluster with Some c => cluster_ok c | None => True end ->
  world_ok (world_new env ch be on raft cluster quota node_id server).
Proof.
  intros Hc. pose proof (new_store_ok (T := T) env ch) as Hs.
  assert (Hcur : current (cetcd_mvcc_store_new (T := T) env ch) = ∅).
  { unfold current, cetcd_mvcc_store_new. cbn. rewrite ki_new_map. apply map_imap_empty. }
  split; cbn [world_new w_store w_mgr w_auth w_cluster]; try done.
  - by eapply store_ok_ext.
  - change (current (cetcd_mvcc_set_backend ?s be)) with (current s). by rewrite Hcur.
  - by destruct (new_lease_ok env on).
  - apply new_auth_ok.
Qed.

(** C21: the replicated state keeps its invariants.  From new components and
    member lists that are well formed, every sequence of well-formed commands
    (leases granted below 2^64 - 1), encoded, decoded and applied, with any
    failures of the backend, keeps the invariants of the store, the leases,
    the users and the members.  When in addition no revocation of a lease leaves
    the lease behind (as it does when the backend fails to delete its record),
    keys and leases agree: a key attached to a lease exists and its current
    version carries that lease.  Without that condition the agreement is lost,
    as [revoke_fault_deletes_later] shows. *)
Theorem world_invariant (faulty : bool) (env : E) ch be on raft cluster quota node_id server (w : world)
  (Hc : match cluster with Some c => cluster_ok c | None => True end)
  (Hrun : rtc (world_step faulty) (world_new env ch be on raft cluster quota node_id server) w) :
  store_ok (w_store w) /\ current (w_store w) !! [] = None /\ lease_ok (w_mgr w) /\ auth_ok (w_auth w) /\
  match w_cluster w with Some c => cluster_ok c | None => True end /\
  (faulty = false -> attached_ok (current (w_store w)) (leases_of (w_mgr w))).
Proof.
  pose proof (world_inv_mono _ (faulty = false) _ (fun _ => I) (world_new_ok env ch be on raft cluster quota node_id server Hc)) as Hok.
  assert (Hw : world_inv (faulty = false) w).
  { induction Hrun as [|w1 w2 w3 H1 _ IH]; [done|]. apply IH. by eapply step_keeps_inv. }
  by destruct Hw.
Qed.

End World.
