(* ===== verification/Expiry.v ===== *)
(** * Expiry of leases in the replicated state

    The expiry callback of src/server/server.c on a server without raft: it
    deletes the keys of the lease, through an encoded batch of deletes, and
    keeps the invariant of the replicated state; a tick of the lease manager
    with that callback keeps it too.  The batches hold 128 keys: the last
    theorem shows what happens to a lease with more. *)

From S2P Require Import Slice Hash KeyOrder Treap Hashmap Raft RaftWire Wal Backend Mvcc MvccSnap MvccStore MvccLoad Lease LeaseProps LeaseRestart CString Auth AuthProps Cluster ClusterProps ApplyCodec Alarm Apply ApplyCmd ApplyInv Prelude.

#[local] Open Scope Z_scope.

Section Expiry.
  Context {T : Type -> Type} {E Tx : Type} `{!KeyIndex T, !KeyIndexLaws T, !Lmdb E Tx, !LmdbLaws E Tx, !Clock, !AuthLibs}.
  Context (backend_size : E -> Z) (flush : world T E -> option (world T E)).
  Local Notation world := (world T E).

(** Leases that lose keys of [ks] only. *)
Definition lease_cut (ks : list bytes) (l l' : cetcd_lease) : Prop :=
  lease_time l' = lease_time l /\ l_keys l' `sublist_of` l_keys l /\ forall k, k ∈ l_keys l -> k ∉ ks -> k ∈ l_keys l'.

Record mgr_cut (ks : list bytes) (m m' : cetcd_lease_mgr E) : Prop := {
  mc_leases : Forall2 (lease_cut ks) (m_leases m) (m_leases m');
  mc_now : m_now_ms m' = m_now_ms m;
  mc_on : m_on_expire m' = m_on_expire m;
  mc_backend : m_backend m' = m_backend m
}.

Lemma cut_refl ks l : lease_cut ks l l.
Proof. by split_and!. Qed.

Lemma mgr_cut_refl ks m : mgr_cut ks m m.
Proof. split; try done. apply Forall2_same_length_lookup_2; [done|]. intros i l l' H1 H2. simplify_eq. apply cut_refl. Qed.

Lemma mgr_cut_cons k ks m m1 m2 : mgr_cut [k] m m1 -> mgr_cut ks m1 m2 -> mgr_cut (k :: ks) m m2.
Proof.
  intros [C1 N1 O1 B1] [C2 N2 O2 B2]. split; try congruence. eapply Forall2_trans; [|exact C1|exact C2].
  intros l l1 l2 (T1 & S1 & K1) (T2 & S2 & K2). split_and!; [congruence|by etrans|].
  intros k' Hk Hn. apply K2; [apply K1|]; set_solver.
Qed.

Lemma list_filter_sublist {A} (P : A -> Prop) `{!forall x, Decision (P x)} (l : list A) : filter P l `sublist_of` l.
Proof.
  induction l as [|x l IH]; [done|]. rewrite filter_cons. destruct (decide (P x)); [by apply sublist_skip|by apply sublist_cons].
Qed.

Lemma detach_cut (m : cetcd_lease_mgr E) id key : lease_ok m -> mgr_cut [key] m (cetcd_lease_detach_key m id key).1.
Proof.
  intros Hm. unfold cetcd_lease_detach_key. destruct (lease_by_id_ m id) as [[i l]|] eqn:Hb; [|apply mgr_cut_refl].
  apply by_id_some in Hb as [Hi _]. pose proof (key_slot_spec l key) as Hs. destruct (key_slot l key) as [j|]; [|apply mgr_cut_refl].
  assert (Hw : lease_wf l) by by apply (proj1 (Forall_lookup _ _) (lo_wf m Hm) i).
  destruct (detach_slot_spec l j key Hw Hs) as [_ Hk]. split; try done. cbn [fst]. unfold set_lease. cbn [m_leases].
  apply Forall2_same_length_lookup_2; [cbn; by rewrite length_insert|]. intros i' l1 l2 H1 H2. cbn in H2.
  destruct (decide (i = i')) as [<-|Hne]; [|rewrite list_lookup_insert_ne in H2 by done; simplify_eq; apply cut_refl].
  rewrite list_lookup_insert_eq in H2 by (by eapply lookup_lt_Some). simplify_eq. split_and!; [done| |].
  - rewrite Hk. apply list_filter_sublist.
  - intros k Hin Hn. rewrite Hk. apply list_elem_of_filter. set_solver.
Qed.

(** What deleting the keys [ks] does: [w'] differs in these keys only, they are
    gone when no write of the store can fail, and the buckets of the other
    components are as before. *)
Record deleted (ks : list bytes) (w w' : world) : Prop := {
  de_ok : world_ok w';
  de_raft : w_raft w' = w_raft w;
  de_backend : s_backend (w_store w') = s_backend (w_store w);
  de_mgr : mgr_cut ks (w_mgr w) (w_mgr w');
  de_other : forall k, k ∉ ks -> current (w_store w') !! k = current (w_store w) !! k;
  de_gone : forall k, current (w_store w') !! k = None \/ current (w_store w') !! k = current (w_store w) !! k;
  de_all : sure ks w -> forall k, k ∈ ks -> current (w_store w') !! k = None;
  de_steady : never_fails (w_env w) -> Forall db_key ks -> never_fails (w_env w');
  de_view : forall b, b <> MVCC_BUCKET_KEY -> b <> MVCC_BUCKET_META -> be_view (w_env w') b = be_view (w_env w) b
}.

Lemma deleted_nil (w : world) : world_ok w -> deleted [] w w.
Proof. intros Hw. split; try done; [apply mgr_cut_refl|by right|]. by intros _ k ?%not_elem_of_nil. Qed.

Lemma deleted_cons k ks (w w1 w2 : world) : deleted [k] w w1 -> deleted ks w1 w2 -> deleted (k :: ks) w w2.
Proof.
  intros [] []. split; try done; try congruence.
  - by eapply mgr_cut_cons.
  - intros k' Hk. rewrite de_other1, de_other0 by set_solver. done.
  - intros k'. destruct (de_gone1 k') as [?|Hk]; [by left|]. rewrite Hk. apply de_gone0.
  - intros Hb k' [-> |Hk]%elem_of_cons.
    + destruct (de_gone1 k) as [?|Hk]; [done|]. rewrite Hk. apply de_all0; [|set_solver].
      destruct Hb as [?|[? [? ?]%Forall_cons]]; [by left|right]. split; [done|by apply Forall_singleton].
    + apply de_all1; [|done]. destruct Hb as [?|[? [? ?]%Forall_cons]]; [left; congruence|right]. split; [|done].
      apply de_steady0; [done|by apply Forall_singleton].
  - intros Hn [? ?]%Forall_cons. apply de_steady1; [apply de_steady0; [done|by apply Forall_singleton]|done].
  - intros b H1 H2. by rewrite de_view1, de_view0.
Qed.

(** A delete in the store: it writes its own two buckets only, and without
    faults it goes through. *)
Lemma delete_backend (s : cetcd_mvcc_store T E) k : store_ok s -> let r := cetcd_mvcc_delete s k in
  s_backend r.1 = s_backend s /\
  (s_backend s = false \/ never_fails (s_env s) /\ db_key k -> is_Some (current s !! k) -> 0 < rev_main r.2) /\
  (never_fails (s_env s) -> db_key k -> never_fails (s_env r.1)) /\
  (forall b, b <> MVCC_BUCKET_KEY -> b <> MVCC_BUCKET_META -> be_view (s_env r.1) b = be_view (s_env s) b).
Proof.
  intros Hs r. subst r. pose proof (so_main_nonneg _ Hs) as Hmain. unfold cetcd_mvcc_delete, delete_one_.
  assert (Hcur : is_Some (current s !! k) -> exists kg, ki_get (s_index s) k = Some kg /\ kg_deleted kg = false).
  { intros [kv Hkv]. rewrite kg_of_current in Hkv by done. rewrite ki_get_map by apply Hs.
    destruct (ki_map (s_index s) !! k) as [kg|] eqn:Hk; [|done]. exists kg. split; [done|]. by apply (so_live _ Hs k). }
  destruct (ki_get (s_index s) k) as [kg|] eqn:Hg; [|by split_and!; [|intros _ (kg & ? & _)%Hcur|..]].
  destruct (kg_deleted kg) eqn:Hd; [split_and!; try done; intros _ (kg' & [= <-] & ?)%Hcur; congruence|].
  unfold Mvcc.persist_del_, with_backend. destruct (s_backend s) eqn:Hb.
  - cbn [rev_main]. pose proof (put2_other (s_env s) MVCC_BUCKET_KEY k None MVCC_BUCKET_META MVCC_META_REV (write_le64_ (s_main_rev s + 1))) as Hv.
    pose proof (st_put2 _ never_fails_steady (s_env s) MVCC_BUCKET_KEY k None MVCC_BUCKET_META MVCC_META_REV (write_le64_ (s_main_rev s + 1))) as Hp.
    destruct (be_put2 _ _ _ _ _ _ _) as [e rc]. cbn [fst snd] in *.
    assert (Hm : db_key MVCC_META_REV) by done.
    destruct (is_ok rc) eqn:Hrc; cbn [negb]; unfold mvcc_notify_watchers, push_history.
    + destruct (_ <? _); (split_and!; [done|intros _ _; cbn; lia|intros Hn Hk; by destruct (Hp Hn Hk Hm)|exact Hv]).
    + split_and!; [done| |intros Hn Hk; by destruct (Hp Hn Hk Hm)|exact Hv].
      intros [?|[Hn Hk]]; [done|]. destruct (Hp Hn Hk Hm) as [_ ->]. done.
  - cbn [is_ok negb rev_main]. unfold mvcc_notify_watchers, push_history.
    destruct (_ <? _); (split_and!; [done|intros _ _; cbn; lia|done|done]).
Qed.

Lemma detach_backend (w : world) id k : let w' := (on_mgr w (fun m => cetcd_lease_detach_key m id k)).1 in
  lease_ok (w_mgr w) -> w_store w' = w_store w /\ w_raft w' = w_raft w /\ mgr_cut [k] (w_mgr w) (w_mgr w') /\ w_env w' = w_env w.
Proof.
  intros w' Hm. destruct (on_mgr_frame w (fun m => cetcd_lease_detach_key m id k)) as (F1 & _ & F3 & _ & F5 & _).
  assert (Henv : w_env w' = w_env w).
  { unfold w', on_mgr, cetcd_lease_detach_key. destruct (lease_by_id_ _ id) as [[i l]|]; [|done]. by destruct (key_slot l k). }
  split_and!; [done|done| |done]. unfold w'. rewrite F1.
  destruct (detach_cut ((w_mgr w) <| m_env := w_env w |>) id k (mgr_env_ok _ _ Hm)). by split.
Qed.

(** One delete. *)
Lemma delete_one_deleted (w : world) k : world_ok w -> k <> [] ->
  deleted [k] w (apply_delete_one_ w k).1 /\ (apply_delete_one_ w k).2 = 0.
Proof.
  intros Hw Hne. pose proof (delete_one_keeps w k Hw) as Hok. revert Hok. pose proof Hw as [O1 _ _ _ _ _ _].
  unfold apply_delete_one_. rewrite blen_nonempty by done. set (l := key_lease w k).
  pose proof (delete_world w k O1) as Hd. destruct (on_store_frame w (fun s => cetcd_mvcc_delete s k)) as (F1 & F2 & F3 & _ & F5 & _).
  set (s0 := (w_store w) <| s_env := w_env w |>) in *.
  destruct (delete_backend s0 k (store_env_ok _ _ O1)) as (Hb & Hnb & Hn & Hv). cbv zeta in *.
  assert (Henv : w_env (on_store w (fun s => cetcd_mvcc_delete s k)).1 = s_env (cetcd_mvcc_delete s0 k).1)
    by (unfold on_store; fold s0; by destruct (cetcd_mvcc_delete s0 k)).
  destruct (on_store w _) as [w1 r]. cbn [fst snd] in *. rewrite <- F1 in Hb. rewrite <- F2 in Hnb. rewrite <- Henv in Hn, Hv.
  destruct Hd as (_ & _ & _ & Hcur).
  set (w2 := if (_ : bool) then _ else _).
  assert (Hw2 : (w_store w2.1 = w_store w1 /\ w_raft w2.1 = w_raft w1 /\ mgr_cut [k] (w_mgr w1) (w_mgr w2.1) /\ w_env w2.1 = w_env w1) /\ w2.2 = 0).
  { unfold w2. destruct (_ && _); [|by split_and!; [..|apply mgr_cut_refl| |]]. split; [|done]. apply detach_backend.
    rewrite F3. apply Hw. }
  destruct Hw2 as [(S2 & R2 & M2 & V2) ->]. intros Hok. rewrite F3 in M2.
  split; [|done]. split; rewrite ?V2; [done|congruence|by rewrite S2|done| | | | |done].
  - intros k' Hk. rewrite S2. destruct Hcur as [[_ ->]|[_ ->]]; [done|]. rewrite lookup_delete_ne by set_solver. done.
  - intros k'. rewrite S2. destruct Hcur as [[_ ->]|[_ ->]]; [by right|]. rewrite lookup_delete. case_decide; [by left|by right].
  - intros Hbe k' ->%list_elem_of_singleton. rewrite S2. destruct Hcur as [[Hr ->]|[_ ->]]; [|by rewrite lookup_delete_eq].
    apply eq_None_not_Some. intros Hs. assert (0 < rev_main r); [|lia]. apply Hnb; [|done].
    destruct Hbe as [Hbe|[Hbe Hk%Forall_inv]]; [left; exact Hbe|right; split; [exact Hbe|exact Hk]].
  - intros Hf Hk%Forall_inv. exact (Hn Hf Hk).
Qed.

Lemma deletes_run ks : forall w : world, world_ok w -> Forall (fun k => k <> []) ks ->
  exists w', run_commands w (CDelete <$> ks) = Some (w', 0) /\ deleted ks w w'.
Proof.
  induction ks as [|k ks IH]; intros w Hw Hks; [exists w; split; [done|by apply deleted_nil]|].
  apply Forall_cons in Hks as [Hk Hks]. destruct (delete_one_deleted w k Hw Hk) as [Hd Hrc].
  destruct (IH _ (de_ok _ _ _ Hd) Hks) as (w' & Hr & Hd'). exists w'. split; [|by eapply deleted_cons].
  cbn [fmap list_fmap run_commands run_command mbind option_bind]. destruct (apply_delete_one_ w k) as [w1 rc].
  cbn [fst snd] in *. by subst rc.
Qed.

(** The keys of a lease are live, so none is empty. *)
Lemma lease_keys_nonempty (w : world) id : world_ok w -> Forall (fun k => k <> []) (cetcd_lease_keys (w_mgr w) id).
Proof.
  intros [_ O2 O3 O4 _ _ _]. apply Forall_forall. intros k Hk ->. unfold cetcd_lease_keys in Hk.
  pose proof (by_id_lookup (w_mgr w) id O3) as Hl. destruct (lease_by_id_ (w_mgr w) id) as [[i l]|]; [|by apply not_elem_of_nil in Hk].
  destruct (O4 I id _ [] Hl Hk) as (kv & Hkv & _). congruence.
Qed.

Lemma mapM_encode_deletes ks : mapM encode_command (CDelete <$> ks) = mapM cetcd_apply_encode_delete ks.
Proof. induction ks as [|k ks IH]; [done|]. cbn. by rewrite IH. Qed.

(** A batch of deletes is no put, so no quota concerns it. *)
Lemma propose_batch (w w' : world) ops d rc : w_raft w = None -> cetcd_apply_encode_batch ops = Some d -> d <> [] ->
  (nth 0 d 0 =? CETCD_APPLY_PUT) = false -> cetcd_v3rpc_apply_entry w d = Some (w', rc) ->
  cetcd_v3rpc_propose_or_apply backend_size flush w d = Some (w', if rc =? 0 then 1 else -1).
Proof.
  intros Hr _ Hne Hp Ha. unfold cetcd_v3rpc_propose_or_apply. rewrite blen_nonempty by done. unfold over_quota. rewrite Hp.
  cbn [andb]. unfold propose_entry. rewrite Hr, Ha. done.
Qed.

(** The batch of deletes of at most 128 keys. *)
Lemma deletes_proposed (w : world) ks : world_ok w -> w_raft w = None -> (1 <= length ks <= 128)%nat ->
  Forall (fun k => k <> []) ks -> Forall small ks ->
  exists ops d w', mapM cetcd_apply_encode_delete ks = Some ops /\ cetcd_apply_encode_batch ops = Some d /\
    cetcd_v3rpc_propose_or_apply backend_size flush w d = Some (w', 1) /\ deleted ks w w'.
Proof.
  intros Hw Hr Hn Hne Hs.
  assert (Hcs : Forall command_fits (CDelete <$> ks)).
  { apply Forall_fmap. apply Forall_and. by split. }
  destruct (commands_apply w (CDelete <$> ks)) as (ops & d & Hops & Hd & Ha); [by rewrite length_fmap|done|].
  rewrite mapM_encode_deletes in Hops. destruct (deletes_run ks w Hw Hne) as (w' & Hrun & Hdel). rewrite Hrun in Ha.
  exists ops, d, w'. split_and!; [done|done| |done].
  assert (Htag : d <> [] /\ (nth 0 d 0 =? CETCD_APPLY_PUT) = false).
  { destruct ks as [|k [|k' ks']]; [cbn in Hn; lia| |].
    - apply Forall_inv in Hne, Hs. pose proof (encode_one_spec CETCD_APPLY_DELETE k (small_short _ Hs) Hne) as He.
      change (encode_one CETCD_APPLY_DELETE k) with (cetcd_apply_encode_delete k) in He. cbn [mapM] in Hops. rewrite He in Hops.
      cbn [mbind option_bind mret option_ret] in Hops. apply Some_inj in Hops. subst ops.
      apply Some_inj in Hd. subst d. split; [discriminate|reflexivity].
    - assert (Hsh : Forall short ops /\ length ops = length (k :: k' :: ks')).
      { destruct (batch_applies (fun w _ => ret w (-1)) w _ Hcs) as (ops' & Ho & Hl & Hsh & _).
        rewrite mapM_encode_deletes, Hops in Ho. injection Ho as <-. by rewrite Hl, length_fmap. }
      destruct Hsh as [Hsh Hl]. rewrite encode_batch_spec in Hd by (first [done|rewrite Hl; cbn in Hn |- *; lia]).
      apply Some_inj in Hd. subst d. split; [discriminate|reflexivity]. }
  destruct Htag. by apply (propose_batch w w' ops d 0).
Qed.

(** The keys of a lease in the cells the callback reads. *)
Lemma cells_take (w : world) id n : take n (lease_cells id w) = take n (cetcd_lease_keys (w_mgr w) id) \/
  (length (cetcd_lease_keys (w_mgr w) id) < n)%nat.
Proof.
  unfold lease_cells, cetcd_lease_keys. destruct (lease_by_id_ (w_mgr w) id) as [[i l]|]; [|by left].
  unfold l_keys. rewrite take_take, length_take.
  destruct (decide (length (l_slots l) < n)%nat); [right; lia|]. destruct (decide (l_key_count l < n)%nat); [right; lia|left; f_equal; lia].
Qed.

Definition cetcd_key_count (w : world) (id : Z) : nat :=
  match lease_by_id_ (w_mgr w) id with Some (_, l) => l_key_count l | None => 0%nat end.

Lemma key_count_keys (w : world) id : lease_ok (w_mgr w) -> cetcd_key_count w id = length (cetcd_lease_keys (w_mgr w) id).
Proof.
  intros Hm. unfold cetcd_key_count, cetcd_lease_keys. destruct (lease_by_id_ (w_mgr w) id) as [[i l]|] eqn:Hb; [|done].
  apply by_id_some in Hb as [Hi _]. symmetry. apply l_keys_length. by apply (proj1 (Forall_lookup _ _) (lo_wf _ Hm) i).
Qed.

Lemma expire_deletes (w : world) id : let ks := cetcd_lease_keys (w_mgr w) id in
  world_ok w -> w_raft w = None -> (length ks <= 128)%nat -> Forall small ks ->
  exists w', lease_expire_cb_ backend_size flush id w = Some w' /\ deleted ks w w'.
Proof.
  intros ks Hw Hr Hn Hs. unfold lease_expire_cb_. rewrite Hr. fold (cetcd_key_count w id).
  rewrite key_count_keys by apply Hw. fold ks. cbn [orb].
  destruct (Nat.eqb_spec (length ks) 0) as [Hz|Hz].
  { exists w. split; [done|]. rewrite (nil_length_inv ks Hz). by apply deleted_nil. }
  destruct (deletes_proposed w ks Hw Hr ltac:(lia) (lease_keys_nonempty w id Hw) Hs) as (ops & d & w' & Hops & Hd & Hp & Hdel).
  exists w'. split; [|done]. unfold cetcd_v3rpc_propose_deletes. cbn [propose_deletes_loop].
  rewrite (proj2 (Nat.leb_gt _ 0)) by lia. rewrite Nat.sub_0_r, Nat.min_r by lia. rewrite drop_0.
  destruct (cells_take w id (length ks)) as [Hc|Hc]; [|unfold ks in Hc; lia]. rewrite Hc. fold ks. rewrite take_ge by lia.
  rewrite Nat.ltb_irrefl, Hops, Hd, Hp. cbn [mbind option_bind fmap option_fmap option_map Nat.add].
  destruct (length ks) as [|n] eqn:Hlen; [lia|]. cbn [propose_deletes_loop]. by rewrite Nat.leb_refl.
Qed.

(** Expiry deletes the keys of the lease.  Without raft, the callback of
    an expired lease with at most 128 keys succeeds, keeps the invariant of
    the replicated state, leaves every other key as it is, and, unless a
    write of the storage backend fails, the keys of the lease are gone. *)
Theorem lease_expiry_deletes (w : world) (id : Z) (Hw : world_ok w) (Hraft : w_raft w = None)
  (Hn : (length (cetcd_lease_keys (w_mgr w) id) <= 128)%nat) (Hs : Forall small (cetcd_lease_keys (w_mgr w) id)) :
  exists w', lease_expire_cb_ backend_size flush id w = Some w' /\ world_ok w' /\
    (forall k, k ∉ cetcd_lease_keys (w_mgr w) id -> current (w_store w') !! k = current (w_store w) !! k) /\
    (forall k, current (w_store w') !! k = None \/ current (w_store w') !! k = current (w_store w) !! k) /\
    (sure (cetcd_lease_keys (w_mgr w) id) w -> forall k, k ∈ cetcd_lease_keys (w_mgr w) id -> current (w_store w') !! k = None).
Proof. destruct (expire_deletes w id Hw Hraft Hn Hs) as (w' & Hc & []). exists w'. by split_and!. Qed.

(** ** A tick of the manager *)

(** Induction on the expiry loop, with the position of the index. *)
Lemma tick_loop_run {X} (cb : Z -> cetcd_lease_mgr E * X -> cetcd_lease_mgr E * X)
  (I : nat -> cetcd_lease_mgr E -> X -> Prop) :
  (forall i m x l, I i m x -> m_leases m !! i = Some l -> m_now_ms m < l_deadline_ms l -> I (S i) m x) ->
  (forall i m x l, I i m x -> m_leases m !! i = Some l -> (mgr_persist_del m (l_id l)).2 <> CETCD_OK ->
     I (S i) (mgr_persist_del m (l_id l)).1 x) ->
  (forall i m x l, I i m x -> m_leases m !! i = Some l -> l_deadline_ms l <= m_now_ms m ->
     (mgr_persist_del m (l_id l)).2 = CETCD_OK ->
     let m1 := (mgr_persist_del m (l_id l)).1 in
     let w := if m_on_expire m1 then cb (l_id l) (m1, x) else (m1, x) in
     length (m_leases w.1) = length (m_leases m) /\ I i (w.1 <| m_leases := shift_out i (m_leases w.1) |>) w.2) ->
  forall fuel i m x, (length (m_leases m) <= i + fuel)%nat -> I i m x ->
  exists m' x' i', tick_loop cb fuel i (m, x) = Some (m', x') /\ I i' m' x' /\ m_leases m' !! i' = None.
Proof.
  intros Hlive Hstuck Hdue fuel. induction fuel as [|fuel IH]; intros i m x Hf HI; cbn [tick_loop fst snd];
    destruct (m_leases m !! i) as [l|] eqn:Hl; try (exists m, x, i; done).
  { apply lookup_lt_Some in Hl. lia. }
  destruct (Z.leb_spec (l_deadline_ms l) (m_now_ms m)) as [Hd|Hd].
  2: { apply IH; [lia|]. by eapply Hlive. }
  pose proof (persist_del_mem m (l_id l)) as (El & _). specialize (Hstuck i m x l HI Hl). specialize (Hdue i m x l HI Hl Hd).
  destruct (mgr_persist_del m (l_id l)) as [m1 rc]. cbn [fst snd] in *.
  destruct (decide (rc = CETCD_OK)) as [-> |Hne]; cbn [is_ok negb].
  - destruct (Hdue eq_refl) as [Hlen HI']. cbv zeta in Hlen, HI'. set (w := if m_on_expire m1 then _ else _) in *.
    apply IH; [|exact HI']. cbn [m_leases]. apply lookup_lt_Some in Hl.
    change (m_leases (_ <| m_leases := ?v |>)) with v. rewrite shift_out_length; lia.
  - replace (is_ok rc) with false by by destruct rc. cbn [negb]. apply IH; [rewrite El; lia|by apply Hstuck].
Qed.

Lemma shift_out_elem {A} (l : list A) i j x : l !! j = Some x -> j <> i -> x ∈ shift_out i l.
Proof.
  intros Hj Hne. unfold shift_out. apply elem_of_app. destruct (decide (j < i)%nat) as [Hlt|Hge].
  - left. apply (list_elem_of_lookup_2 _ j). by rewrite lookup_take_lt.
  - right. apply (list_elem_of_lookup_2 _ (j - S i)). rewrite lookup_drop. by replace (S i + (j - S i))%nat with j by lia.
Qed.

Lemma shift_out_other {A} (l : list A) i x : x ∈ shift_out i l -> exists j, l !! j = Some x /\ j <> i.
Proof.
  unfold shift_out. intros [[j Hj]%list_elem_of_lookup_1|[j Hj]%list_elem_of_lookup_1]%elem_of_app.
  - apply lookup_take_Some in Hj as [? ?]. exists j. split; [done|lia].
  - rewrite lookup_drop in Hj. exists (S i + j)%nat. split; [done|lia].
Qed.

Lemma shift_out_incl {A} (l : list A) i x : x ∈ shift_out i l -> x ∈ l.
Proof.
  unfold shift_out. intros [Hx|Hx]%elem_of_app; [rewrite <- (take_drop i l)|rewrite <- (take_drop (S i) l)];
    apply elem_of_app; [by left|by right].
Qed.

(** The world the callback sees: the manager is handed back to it. *)
Definition with_mgr (w : world) (m : cetcd_lease_mgr E) : world := (w <| w_mgr := m |>) <| w_env := m_env m |>.

Definition fits_batch (l : cetcd_lease) : Prop := (length (l_keys l) <= 128)%nat /\ Forall small (l_keys l).

Section Tick.
  Context (w0 : world) (now : Z).

Definition due (l : cetcd_lease) : Prop := l_deadline_ms l <= now.

(** A backend [e] that never fails and holds the row of every lease of [m]. *)
Definition holds_leases (e : E) (m : cetcd_lease_mgr E) : Prop :=
  never_fails e /\ forall l, l ∈ m_leases m -> is_Some (be_view e LEASE_BUCKET !! write_le64_ (l_id l)).

(** The callback is registered and no write can fail: no backend is attached, or
    one that never fails, holds the rows of the leases and fits their keys. *)
Definition no_faults : Prop :=
  m_on_expire (w_mgr w0) = true /\
  (s_backend (w_store w0) = false /\ m_backend (w_mgr w0) = false \/
   holds_leases (w_env w0) (w_mgr w0) /\ m_next_id (w_mgr w0) <= 2 ^ 64 /\
   forall l, l ∈ m_leases (w_mgr w0) -> Forall db_key (l_keys l)).

(** What [no_faults] is during the tick, with the environment of the manager. *)
Definition steady_tick (m : cetcd_lease_mgr E) : Prop :=
  s_backend (w_store w0) = false /\ m_backend (w_mgr w0) = false \/
  holds_leases (m_env m) m /\ forall l, l ∈ m_leases m -> in_u64 (l_id l) /\ Forall db_key (l_keys l).

(** During the tick: every lease is one of the start with fewer keys; a key
    that changed is gone and was attached to a due lease; without faults a
    key of a due lease is gone or its lease is still to come. *)
Record ticking (i : nat) (m : cetcd_lease_mgr E) (w : world) : Prop := {
  ti_ok : world_ok (with_mgr w m);
  ti_raft : w_raft w = None;
  ti_now : m_now_ms m = now;
  ti_flags : s_backend (w_store w) = s_backend (w_store w0) /\ m_backend m = m_backend (w_mgr w0) /\
    m_on_expire m = m_on_expire (w_mgr w0);
  ti_leases : forall l, l ∈ m_leases m -> exists l0, l0 ∈ m_leases (w_mgr w0) /\ lease_time l = lease_time l0 /\
    l_keys l `sublist_of` l_keys l0;
  ti_keys : forall k, current (w_store w) !! k = current (w_store w0) !! k \/
    (current (w_store w) !! k = None /\ exists l0, l0 ∈ m_leases (w_mgr w0) /\ due l0 /\ k ∈ l_keys l0);
  ti_live : no_faults -> forall l j, m_leases m !! j = Some l -> (j < i)%nat -> ~ due l;
  ti_gone : no_faults -> forall l0 k, l0 ∈ m_leases (w_mgr w0) -> due l0 -> k ∈ l_keys l0 ->
    current (w_store w) !! k = None \/ exists l, l ∈ m_leases m /\ lease_time l = lease_time l0 /\ k ∈ l_keys l
}.

Lemma time_due l l0 : lease_time l = lease_time l0 -> due l <-> due l0.
Proof. intros [= _ _ Hd]. unfold due. by rewrite Hd. Qed.

(** What the callback, or its absence, leaves of the store. *)
Record expired (ks : list bytes) (w w' : world) : Prop := {
  ex_ok : world_ok w';
  ex_raft : w_raft w' = w_raft w;
  ex_backend : s_backend (w_store w') = s_backend (w_store w);
  ex_mgr : mgr_cut ks (w_mgr w) (w_mgr w');
  ex_keys : forall k, current (w_store w') !! k = current (w_store w) !! k \/ (current (w_store w') !! k = None /\ k ∈ ks);
  ex_all : sure ks w -> m_on_expire (w_mgr w) = true -> forall k, k ∈ ks -> current (w_store w') !! k = None;
  ex_steady : never_fails (w_env w) -> Forall db_key ks -> never_fails (w_env w');
  ex_view : be_view (w_env w') LEASE_BUCKET = be_view (w_env w) LEASE_BUCKET
}.

Lemma deleted_expired ks w w' : deleted ks w w' -> expired ks w w'.
Proof.
  intros []. split; try done; [|by auto|by apply de_view0]. intros k. destruct (decide (k ∈ ks)); [|left; auto].
  destruct (de_gone0 k); [by right|by left].
Qed.

Lemma no_callback_expired ks w : m_on_expire (w_mgr w) = false -> world_ok w -> expired ks w w.
Proof. intros Ho Hw. split; try done; [apply mgr_cut_refl|by left|congruence]. Qed.

(** Removing the lease at [i], whose keys the callback deleted. *)
Lemma drop_lease_ok (w : world) i l : world_ok w -> m_leases (w_mgr w) !! i = Some l ->
  let m' := (w_mgr w) <| m_env := w_env w |> in world_ok (with_mgr w (m' <| m_leases := shift_out i (m_leases m') |>)).
Proof.
  intros [O1 O2 O3 O4 O5 O6 O7] Hi m'. destruct (ok_shift m' i l (mgr_env_ok _ _ O3) Hi (m' <| m_leases := shift_out i (m_leases m') |>))
    as [Hok HL]; [done|done|]. split; try done. cbn [with_mgr w_store w_mgr]. intros _ id li k Hli Hk.
  change (w_mgr (with_mgr w ?m)) with m in Hli. rewrite HL in Hli. apply lookup_delete_Some in Hli as [_ Hli]. by apply (O4 I id li k).
Qed.

Lemma ticking_drop i m m1 w l (w' : world) : ticking i m w -> m_leases m !! i = Some l -> due l ->
  m_leases m1 = m_leases m -> m_now_ms m1 = m_now_ms m -> m_backend m1 = m_backend m -> m_on_expire m1 = m_on_expire m ->
  expired (l_keys l) (with_mgr w m1) w' -> (no_faults -> sure (l_keys l) (with_mgr w m1)) ->
  let m' := (w_mgr w') <| m_env := w_env w' |> in
  length (m_leases m') = length (m_leases m) /\ ticking i (m' <| m_leases := shift_out i (m_leases m') |>) w'.
Proof.
  intros [] Hl Hd E1 E2 E3 E4 [] Hsure m'. destruct ex_mgr0 as [C1 C2 C3 C4].
  change (m_leases (w_mgr (with_mgr w m1))) with (m_leases m1) in C1. rewrite E1 in C1.
  change (m_leases (w_mgr w')) with (m_leases m') in C1. assert (Hlen := Forall2_length _ _ _ C1). split; [done|].
  destruct (Forall2_lookup_l _ _ _ i l C1 Hl) as (l' & Hl' & _).
  assert (Hall : no_faults -> forall k, k ∈ l_keys l -> current (w_store w') !! k = None).
  { intros Hn. pose proof Hn as [Hon _]. destruct ti_flags0 as (F1 & F2 & F3). apply ex_all0; [by apply Hsure|].
    change (m_on_expire m1 = true). congruence. }
  destruct (ti_leases0 l ltac:(by eapply list_elem_of_lookup_2)) as (l0 & Hl0 & Ht0 & Hs0).
  split.
  - by apply (drop_lease_ok w' i l').
  - by rewrite ex_raft0.
  - cbn. rewrite C2. change (m_now_ms m1 = now). congruence.
  - destruct ti_flags0 as (F1 & F2 & F3). split_and!; [by rewrite ex_backend0|cbn; rewrite C4|cbn; rewrite C3].
    + change (m_backend m1 = m_backend (w_mgr w0)). congruence.
    + change (m_on_expire m1 = m_on_expire (w_mgr w0)). congruence.
  - intros l2 Hl2. apply shift_out_incl in Hl2. apply list_elem_of_lookup_1 in Hl2 as [j Hj].
    destruct (Forall2_lookup_r _ _ _ j l2 C1 Hj) as (l1 & Hl1 & T1 & S1 & _).
    destruct (ti_leases0 l1 ltac:(by eapply list_elem_of_lookup_2)) as (l3 & H3 & T3 & S3).
    exists l3. split_and!; [done|congruence|by etrans].
  - intros k. destruct (ex_keys0 k) as [-> |[-> Hk]]; [apply ti_keys0|]. right. split; [done|]. exists l0.
    split_and!; [done|by apply (time_due l l0)|by eapply sublist_subseteq].
  - intros Hnf l2 j Hj Hlt. change (shift_out i (m_leases m') !! j = Some l2) in Hj. unfold shift_out in Hj.
    apply lookup_lt_Some in Hl as Hli. rewrite lookup_app_l, lookup_take_lt in Hj by (rewrite ?length_take; lia).
    destruct (Forall2_lookup_r _ _ _ j l2 C1 Hj) as (l1 & Hl1 & T1 & _). rewrite (time_due _ _ T1). by apply (ti_live0 Hnf l1 j).
  - intros Hnf l1 k H1 Hd1 Hk1. destruct (ti_gone0 Hnf l1 k H1 Hd1 Hk1) as [Hnone|(l2 & H2 & T2 & Hk2)].
    { left. destruct (ex_keys0 k) as [-> |[-> _]]; done. }
    destruct (decide (k ∈ l_keys l)) as [Hin|Hin]; [left; by apply Hall|]. right.
    apply list_elem_of_lookup_1 in H2 as [j Hj]. destruct (Forall2_lookup_l _ _ _ j l2 C1 Hj) as (l3 & Hl3 & T3 & _ & K3).
    exists l3. split_and!; [|congruence|by apply K3]. apply (shift_out_elem _ _ j); [done|]. intros ->.
    rewrite Hl in Hj. by simplify_eq.
Qed.

(** Without faults the row of a lease is deleted and those of the others stay. *)
Lemma steady_del m i l : steady_tick m -> m_backend m = m_backend (w_mgr w0) -> m_leases m !! i = Some l ->
  (mgr_persist_del m (l_id l)).2 = CETCD_OK.
Proof.
  intros [[_ Hb]|[[Hn Hrows] Hids]] Hf Hl; unfold mgr_persist_del; [by rewrite Hf, Hb|]. destruct (m_backend m); [|done].
  assert (Hin : l ∈ m_leases m) by (by eapply list_elem_of_lookup_2). unfold Lease.persist_del_.
  assert (Hk : db_key (write_le64_ (l_id l))) by (unfold db_key, blen; rewrite write_le64_length; lia).
  destruct (st_del _ never_fails_steady (m_env m) LEASE_BUCKET _ Hn Hk) as [_ Hd].
  destruct (be_del _ _ _) as [e rc]. cbn [fst snd] in *. rewrite Hd by auto. done.
Qed.

Lemma steady_drop m i l (w w' : world) : steady_tick m -> lease_ok m -> m_leases m !! i = Some l ->
  let m1 := (mgr_persist_del m (l_id l)).1 in
  expired (l_keys l) (with_mgr w m1) w' -> s_backend (w_store w) = s_backend (w_store w0) ->
  let m' := (w_mgr w') <| m_env := w_env w' |> in
  sure (l_keys l) (with_mgr w m1) /\ steady_tick (m' <| m_leases := shift_out i (m_leases m') |>).
Proof.
  intros Hst Hok Hl m1 [] Hsb m'. assert (Hin : l ∈ m_leases m) by (by eapply list_elem_of_lookup_2).
  destruct Hst as [[Hs Hb]|[[Hn Hrows] Hids]]; [by split; left; [rewrite <- Hs, <- Hsb|]|]. destruct (Hids l Hin) as [Hid Hks].
  assert (Hk : db_key (write_le64_ (l_id l))) by (unfold db_key, blen; rewrite write_le64_length; lia).
  assert (H1 : never_fails (m_env m1) /\ forall k, k <> write_le64_ (l_id l) -> be_view (m_env m1) LEASE_BUCKET !! k = be_view (m_env m) LEASE_BUCKET !! k).
  { unfold m1, mgr_persist_del. destruct (m_backend m); [|done]. unfold Lease.persist_del_.
    destruct (st_del _ never_fails_steady (m_env m) LEASE_BUCKET _ Hn Hk) as [Hd _].
    pose proof (del_other (m_env m) LEASE_BUCKET (write_le64_ (l_id l))) as Ho. by destruct (be_del _ _ _) as [e []]. }
  destruct H1 as [Hn1 Hv1]. split; [by right|right]. destruct ex_mgr0 as [C1 _ _ _].
  pose proof (persist_del_mem m (l_id l)) as (E1 & _). fold m1 in E1. change (m_leases (w_mgr (with_mgr w m1))) with (m_leases m1) in C1. rewrite E1 in C1.
  assert (Hleft : forall l', l' ∈ shift_out i (m_leases m') -> exists l0, l0 ∈ m_leases m /\ l_id l' = l_id l0 /\
    l_keys l' `sublist_of` l_keys l0 /\ l_id l0 <> l_id l).
  { intros l' Hl'. apply shift_out_other in Hl' as (j & Hj & Hne). change (m_leases (w_mgr w')) with (m_leases m') in C1.
    destruct (Forall2_lookup_r _ _ _ j l' C1 Hj) as (l0 & Hl0 & [= Ti _ _] & Ts & _). exists l0.
    split_and!; [by eapply list_elem_of_lookup_2|done|done|]. intros Heq. apply Hne.
    apply (NoDup_lookup (lease_ids m) j i (l_id l)); [apply Hok|..]; unfold lease_ids; rewrite list_lookup_fmap, ?Hl0, ?Hl; cbn; by rewrite ?Heq. }
  split; [split|].
  - by apply ex_steady0.
  - intros l' Hl'. destruct (Hleft l' Hl') as (l0 & Hl0 & -> & _ & Hne). change (is_Some (be_view (w_env w') LEASE_BUCKET !! write_le64_ (l_id l0))).
    rewrite ex_view0. change (w_env (with_mgr w m1)) with (m_env m1). rewrite Hv1; [by apply Hrows|].
    intros Heq. apply Hne. apply write_le64_inj in Heq; [done|by apply Hids|done].
  - intros l' Hl'. destruct (Hleft l' Hl') as (l0 & Hl0 & -> & Hsub & _). destruct (Hids l0 Hl0) as [? Hf]. split; [done|].
    apply Forall_forall. intros k Hk'. rewrite Forall_forall in Hf. apply Hf. by eapply sublist_subseteq.
Qed.

Lemma steady_start m : lease_ok (w_mgr w0) -> m_leases m = m_leases (w_mgr w0) -> m_env m = w_env w0 -> no_faults -> steady_tick m.
Proof.
  intros Hok El Ev [_ [?|(Hh & Hid & Hk)]]; [by left|right]. unfold holds_leases. rewrite El, Ev. split; [done|]. intros l Hl. split; [|by apply Hk].
  pose proof (lo_ids _ Hok) as Hf. rewrite Forall_forall in Hf. specialize (Hf (l_id l) (list_elem_of_fmap_2 _ _ _ Hl)). unfold in_u64. lia.
Qed.

Lemma ticking_mem i m m1 w : same_mem m m1 -> ticking i m w -> ticking i m1 w.
Proof.
  intros Hm []. pose proof Hm as (El & _ & En & Ho & Hb & _).
  split; rewrite ?El; try done; [|congruence|by rewrite Ho, Hb].
  destruct ti_ok0 as [O1 O2 O3 O4 O5 O6 O7]. split; try done; cbn [with_mgr w_mgr] in *.
  - by apply (same_mem_ok m).
  - intros _. change (w_mgr (with_mgr w m1)) with m1. rewrite (same_mem_leases m m1) by done. by apply O4.
Qed.

Lemma lease_keys_at (m : cetcd_lease_mgr E) i l : lease_ok m -> m_leases m !! i = Some l -> cetcd_lease_keys m (l_id l) = l_keys l.
Proof.
  intros Hm Hi. unfold cetcd_lease_keys. destruct (lease_by_id_ m (l_id l)) as [[j l']|] eqn:Hb.
  - apply by_id_some in Hb as [Hj Hid]. assert (Hij : j = i).
    { apply (NoDup_lookup (lease_ids m) j i (l_id l)); [apply Hm|..]; unfold lease_ids; rewrite list_lookup_fmap, ?Hj, ?Hi; cbn; by rewrite ?Hid. }
    subst j. congruence.
  - apply by_id_none in Hb. destruct Hb. apply list_elem_of_fmap_2. by eapply list_elem_of_lookup_2.
Qed.

(** A due lease whose row is gone: the callback runs and the lease leaves. *)
Lemma ticking_due (Hfit : Forall fits_batch (m_leases (w_mgr w0))) i m w l :
  ticking i m w -> (no_faults -> steady_tick m) -> m_leases m !! i = Some l -> due l ->
  let m1 := (mgr_persist_del m (l_id l)).1 in
  let wx := if m_on_expire m1 then expire_in_world backend_size flush (l_id l) (m1, Some w) else (m1, Some w) in
  length (m_leases wx.1) = length (m_leases m) /\
  exists w', wx.2 = Some w' /\ let m' := wx.1 <| m_leases := shift_out i (m_leases wx.1) |> in
    ticking i m' w' /\ (no_faults -> steady_tick m').
Proof.
  intros Ht Hst Hl Hd m1 wx. pose proof (persist_del_mem m (l_id l)) as Hm. fold m1 in Hm.
  pose proof Hm as (E1 & _ & E2 & E3 & E4 & _). assert (Hok1 := ti_ok _ _ _ (ticking_mem i m m1 w Hm Ht)).
  pose proof (fun w' => ticking_drop i m m1 w l w' Ht Hl Hd E1 E2 E4 E3) as Hdrop.
  assert (Hokm : lease_ok m) by apply (ti_ok _ _ _ Ht).
  pose proof (fun w' Hex Hn => steady_drop m i l w w' (Hst Hn) Hokm Hl Hex (proj1 (ti_flags _ _ _ Ht))) as Hkeep. cbv zeta in Hkeep. fold m1 in Hkeep.
  subst wx. destruct (m_on_expire m1) eqn:Hon.
  - assert (Hks : cetcd_lease_keys m1 (l_id l) = l_keys l) by (apply (lease_keys_at m1 i); [apply Hok1|by rewrite E1]).
    assert (Hb : fits_batch l).
    { destruct (ti_leases _ _ _ Ht l ltac:(by eapply list_elem_of_lookup_2)) as (l0 & H0' & _ & Hs).
      rewrite Forall_forall in Hfit. destruct (Hfit l0 H0') as [F1 F2]. split; [apply sublist_length in Hs; lia|].
      apply Forall_forall. intros k Hk. rewrite Forall_forall in F2. apply F2. by eapply sublist_subseteq. }
    destruct (expire_deletes (with_mgr w m1) (l_id l)) as (w' & Hcb & Hdel);
      [done|exact (ti_raft _ _ _ Ht)|change (w_mgr (with_mgr w m1)) with m1; rewrite Hks; apply Hb..|].
    change (w_mgr (with_mgr w m1)) with m1 in Hdel. rewrite Hks in Hdel.
    cbn [expire_in_world]. fold (with_mgr w m1). rewrite Hcb. cbn [fst snd].
    specialize (Hkeep w' (deleted_expired _ _ _ Hdel)).
    destruct (Hdrop w' (deleted_expired _ _ _ Hdel)) as [Hlen Htick]; [intros Hn; exact (proj1 (Hkeep Hn))|]. split; [exact Hlen|]. exists w'.
    split_and!; [done|done|]. by intros [_ ?]%Hkeep.
  - assert (Hex := no_callback_expired (l_keys l) (with_mgr w m1) Hon Hok1). specialize (Hkeep _ Hex).
    destruct (Hdrop (with_mgr w m1) Hex) as [Hlen Htick]; [intros Hn; exact (proj1 (Hkeep Hn))|]. cbv zeta in *.
    cbn [fst snd]. split; [exact Hlen|]. exists w. split; [done|].
    replace m1 with ((w_mgr (with_mgr w m1)) <| m_env := w_env (with_mgr w m1) |>) by (by destruct m1).
    split; [by destruct Htick; split|]. by intros [_ ?]%Hkeep.
Qed.

End Tick.

(** C23: a tick of the lease manager in the replicated state.  On a server without
    raft, with at most 128 keys on every lease (a lease with more keeps some of
    them, as [expiry_misses_keys] shows), a tick is complete; the invariant of
    the replicated state holds after it; a key that changed is gone and was
    attached to a lease whose deadline has passed.  When the callback is
    registered and no write can fail - there is no storage backend, or one that
    never fails, with the rows of the leases in it, keys of 1 to 511 bytes and
    ids below 2^64 - every key of every such lease is gone, and so are the
    leases. *)
Theorem lease_tick_world (w : world) (elapsed : Z) (Hw : world_ok w) (Hraft : w_raft w = None) (He : 0 < elapsed)
  (Hfit : Forall fits_batch (m_leases (w_mgr w))) :
  let now := m_now_ms (w_mgr w) + elapsed in
  exists w', lease_tick backend_size flush w elapsed = Some w' /\ world_ok w' /\
    (forall k, current (w_store w') !! k = current (w_store w) !! k \/
       (current (w_store w') !! k = None /\ exists l, l ∈ m_leases (w_mgr w) /\ l_deadline_ms l <= now /\ k ∈ l_keys l)) /\
    (no_faults w -> (forall l k, l ∈ m_leases (w_mgr w) -> l_deadline_ms l <= now -> k ∈ l_keys l -> current (w_store w') !! k = None) /\
       forall l, l ∈ m_leases (w_mgr w') -> now < l_deadline_ms l).
Proof.
  intros now. unfold lease_tick, cetcd_lease_mgr_tick. rewrite (proj2 (Z.leb_gt _ _)) by done. cbn [fst snd].
  set (m := ((w_mgr w) <| m_env := w_env w |>) <| m_now_ms := _ |>).
  assert (Hstart : ticking w now 0 m w).
  { destruct Hw as [O1 O2 O3 O4 O5 O6 O7]. split; try done; [..|by left| |].
    - split; try done. by destruct O3; split.
    - intros l Hl. by exists l.
    - lia.
    - intros _ l k H1 H2 H3. right. by exists l. }
  destruct (tick_loop_run (expire_in_world backend_size flush) (fun i m x => exists w', x = Some w' /\ ticking w now i m w' /\ (no_faults w -> steady_tick w m)))
    with (fuel := length (m_leases m)) (i := 0%nat) (m := m) (x := Some w) as (m' & x' & i & Hrun & (w' & -> & Ht & _) & Hend).
  - intros i m1 x l (w1 & -> & H1 & Hs) Hl Hd. exists w1. split; [done|]. split; [|done]. destruct H1. split; try done. intros Hnf l1 j Hj Hlt.
    destruct (decide (j = i)) as [-> |Hne]; [|apply (ti_live0 Hnf l1 j Hj); lia]. unfold due. rewrite Hl in Hj. simplify_eq. lia.
  - intros i m1 x l (w1 & -> & H1 & Hs) Hl Hrc. exists w1. split; [done|].
    assert (Hno : ~ no_faults w).
    { intros Hn. apply Hrc. by eapply steady_del; [by apply Hs|apply (ti_flags _ _ _ _ _ H1)|]. }
    pose proof (ticking_mem w now i m1 _ w1 (persist_del_mem m1 (l_id l)) H1) as []. by split.
  - intros i m1 x l (w1 & -> & H1 & Hs) Hl Hd Hrc. apply (ticking_due w now Hfit i m1 w1 l H1 Hs Hl). unfold due. by rewrite <- (ti_now _ _ _ _ _ H1).
  - lia.
  - exists w. split_and!; [done|done|]. apply (steady_start w); [apply Hw|done|done].
  - rewrite Hrun. exists (with_mgr w' m'). destruct Ht. split_and!; [done|done|done|]. intros Hnf.
    assert (Hlive : forall l, l ∈ m_leases m' -> now < l_deadline_ms l).
    { intros l [j Hj]%list_elem_of_lookup_1. apply lookup_ge_None in Hend. apply lookup_lt_Some in Hj as Hlt.
      assert (~ due now l) as Hnd by (by apply (ti_live0 Hnf l j Hj ltac:(lia))). unfold due in Hnd. lia. }
    split; [|exact Hlive]. intros l k Hl Hd Hk. destruct (ti_gone0 Hnf l k Hl Hd Hk) as [?|(l1 & H1 & [= _ _ Hd1] & _)]; [done|].
    specialize (Hlive l1 H1). lia.
Qed.

End Expiry.
