(* ===== verification/ApplyProps.v ===== *)
(** * The replicated state: quota, samples, witnesses and four defects

    The quota of the backend, and the theorems of ApplyCmd.v, ApplyInv.v and
    Expiry.v applied to a concrete state: the treap over the in-memory LMDB,
    without raft. *)

From S2P Require Import Slice Hash KeyOrder Treap Hashmap Raft RaftWire Wal Backend Mvcc MvccSnap MvccStore Lease LeaseProps LeaseRestart CString Auth AuthProps Cluster ClusterProps ApplyCodec Alarm Apply ApplyCmd ApplyInv Expiry Prelude.

#[local] Open Scope Z_scope.

(** ** The quota *)

Lemma fill_free_active cells a : match fill_free cells a with
  | Some cells' => Some a ∈ cells'
  | None => None ∉ cells
  end.
Proof.
  induction cells as [|[b|] cells IH]; cbn [fill_free]; [apply not_elem_of_nil| |apply list_elem_of_here].
  destruct (fill_free cells a); cbn; [by apply list_elem_of_further|]. by intros [?|?]%elem_of_cons.
Qed.

Section Quota.
  Context {T : Type -> Type} {E Tx : Type} `{!KeyIndex T, !Lmdb E Tx, !Clock, !AuthLibs}.
  Context (backend_size : E -> Z) (flush : world T E -> option (world T E)).
  Local Notation world := (world T E).

(** The quota.  Without raft, an entry that is a put is refused with -1 when
    the backend has reached the quota: the store, the leases, the users and
    the members stay as they are, and the NOSPACE alarm is active afterwards
    unless all alarm cells are taken by other alarms. *)
Theorem quota_refuses_put (w : world) (data : bytes) (Hraft : w_raft w = None) (Hput : nth 0 data 0 = CETCD_APPLY_PUT)
  (Hq : w_quota w <> 0) (Hbe : w_backend w = true) (Hsize : w_quota w <= backend_size (w_env w)) (Hid : in_u64 (w_node_id w)) :
  exists w', cetcd_v3rpc_propose_or_apply backend_size flush w data = Some (w', -1) /\
    w_store w' = w_store w /\ w_mgr w' = w_mgr w /\ w_auth w' = w_auth w /\ w_cluster w' = w_cluster w /\
    (cetcd_v3rpc_alarm_is_active (w_alarms w') 1 = true \/ None ∉ w_alarms w).
Proof.
  unfold cetcd_v3rpc_propose_or_apply. destruct data as [|b data]; [done|]. rewrite blen_nonempty by done.
  assert (Hover : over_quota backend_size w (b :: data) = true).
  { unfold over_quota. rewrite Hput, Hbe, (proj2 (Z.leb_le _ _)) by done. by rewrite (proj2 (Z.eqb_neq _ 0)). }
  rewrite Hover. set (mid := if w_node_id w =? 0 then 1 else w_node_id w).
  assert (Hmid : in_u64 mid) by (unfold mid; destruct (_ =? 0); [by vm_compute|done]).
  destruct (alarm_applies (apply_entry_inner_ (fun w _ => ret w (-1))) w 1 1 mid) as (d & He & _ & _ & _ & Hrun); [by split; [left|split; [left|]]|].
  change (encode_command (CAlarm 1 1 mid)) with (cetcd_apply_encode_alarm 1 1 mid) in He. rewrite He.
  unfold propose_entry. rewrite Hraft. unfold cetcd_v3rpc_apply_entry. rewrite Hrun. cbn [run_command mbind option_bind].
  unfold apply_alarm. cbn [Z.eqb negb andb orb Pos.eqb]. unfold cetcd_v3rpc_alarm_activate. cbn [Z.leb Z.compare].
  destruct (cetcd_v3rpc_alarm_is_active (w_alarms w) 1) eqn:Hact; [by eexists; split_and!; [..|left]|].
  pose proof (fill_free_active (w_alarms w) (1, if 0 <? mid then mid else 1)) as Hfill.
  destruct (fill_free (w_alarms w) _) as [cells|]; (eexists; split_and!; [done..|]); [left|by right].
  unfold cetcd_v3rpc_alarm_is_active. apply existsb_exists. eexists. split; [by apply list_elem_of_In|]. done.
Qed.

End Quota.

(** ** A concrete state *)

#[local] Existing Instance sample_clock.
#[local] Existing Instance sample_libs.

Abbreviation tworld := (world cetcd_treap mem_env).

(** A server without log, raft or backend. *)
Definition no_server : cetcd_server := mk_server None [] [] [] 0 false 0 None.

(** With the expiry callback registered. *)
Definition fresh_world : tworld := world_new (mk_mem_env ∅ []) ∅ false true None None 0 1 no_server.

Definition no_flush (w : tworld) : option tworld := Some w.

(** The state after [cs], applied one entry each. *)
Definition after (w : tworld) (cs : list command) : tworld :=
  foldl (fun w c => match d ← encode_command c; cetcd_v3rpc_apply_entry w d with Some (w, _) => w | None => w end) w cs.

Definition key_a : bytes := [97].
Definition key_b : bytes := [98].

Definition sample_commands : list command :=
  [CLeaseGrant 7 10; CPut key_a [1] 7; CPut key_b [2] 0; CUserAdd alice [36; 50]; CRoleAdd reader; CUserGrantRole alice reader].

Definition sample_world : tworld := Eval vm_compute in after fresh_world sample_commands.

Lemma sample_world_run : sample_world = after fresh_world sample_commands.
Proof. vm_compute. reflexivity. Qed.

Lemma name_fits_dec n : negb (bool_decide (n = [])) && forallb (fun b => (0 <? b) && (b <? 256)) n && (blen n <? 128) = true -> name_fits n.
Proof.
  intros [[H1 H2]%andb_prop H3]%andb_prop. split_and!; [by apply negb_true_iff, bool_decide_eq_false in H1| |by apply Z.ltb_lt].
  unfold nul_free. apply Forall_forall. intros b Hb. rewrite forallb_forall in H2. apply list_elem_of_In in Hb.
  specialize (H2 b Hb). apply andb_prop in H2 as [H2 _]. apply Z.ltb_lt in H2. lia.
Qed.

Lemma sample_commands_fit : Forall command_fits sample_commands.
Proof.
  unfold sample_commands. repeat (apply Forall_cons_2 || apply Forall_nil_2); cbn [command_fits]; unfold small, in_i64;
    repeat match goal with |- _ /\ _ => split end; try done; try (by apply name_fits_dec); cbn; lia.
Qed.

Lemma apply_commands_witness :
  exists ops d, mapM encode_command sample_commands = Some ops /\ cetcd_apply_encode_batch ops = Some d /\
    cetcd_v3rpc_apply_entry fresh_world d = Some (sample_world, 0).
Proof.
  destruct (apply_commands fresh_world sample_commands ltac:(cbn; lia) sample_commands_fit) as (ops & d & H1 & H2 & H3).
  exists ops, d. split; [exact H1|]. split; [exact H2|]. rewrite H3. vm_compute. reflexivity.
Defined.

(** Commands other than revocations are steps. *)
Lemma after_steps cs : forall w : tworld, Forall command_fits cs ->
  Forall (fun c => command_bounded c /\ forall w' : tworld, revoke_done c w') cs -> rtc (world_step false) w (after w cs).
Proof.
  induction cs as [|c cs IH]; intros w Hf Hb; [apply rtc_refl|].
  apply Forall_cons in Hf as [Hc Hf]. apply Forall_cons in Hb as [[Hcb Hr] Hb]. cbn [after foldl].
  destruct (command_applies (apply_entry_inner_ (fun w _ => ret w (-1))) w c Hc) as (d & He & _). rewrite He. cbn [mbind option_bind].
  destruct (cetcd_v3rpc_apply_entry w d) as [[w' rc]|] eqn:Ha; [|by apply IH].
  eapply rtc_l; [|by apply IH]. by eapply step_command.
Qed.

Lemma fresh_world_ok : world_ok fresh_world.
Proof. by apply world_new_ok. Qed.

Lemma sample_steps : rtc (world_step false) fresh_world sample_world.
Proof.
  rewrite sample_world_run. apply after_steps; [exact sample_commands_fit|].
  unfold sample_commands. repeat (apply Forall_cons_2 || apply Forall_nil_2); (split; [cbn; (done || lia)|done]).
Qed.

Lemma steps_keep (w w' : tworld) : rtc (world_step false) w w' -> world_ok w -> world_ok w'.
Proof. induction 1 as [|w1 w2 w3 H12 _ IH]; [done|]. intros Hw. apply IH. by eapply step_keeps. Qed.

Lemma steps_ok (w : tworld) : rtc (world_step false) fresh_world w -> world_ok w.
Proof. intros Hs. exact (steps_keep _ _ Hs fresh_world_ok). Qed.

Lemma sample_world_ok : world_ok sample_world.
Proof. exact (steps_ok _ sample_steps). Qed.

Lemma sample_lease_keys : cetcd_lease_keys (w_mgr sample_world) 7 = [key_a].
Proof. vm_compute. reflexivity. Qed.

Lemma sample_leases : m_leases (w_mgr sample_world) = [mk_lease 7 10 10000 [key_a] 1].
Proof. vm_compute. reflexivity. Qed.

Lemma world_invariant_witness : store_ok (w_store sample_world) /\
  exists kv, current (w_store sample_world) !! key_a = Some kv /\ kv_lease_id kv = 7.
Proof.
  destruct (world_invariant false (mk_mem_env ∅ []) ∅ false true None None 0 1 no_server sample_world I sample_steps) as (H1 & _ & _ & _ & _ & H2).
  split; [exact H1|]. apply (H2 eq_refl 7 (mk_info 10 10000 [key_a])); [vm_compute; reflexivity|left].
Defined.

Lemma key_small : small key_a.
Proof. reflexivity. Qed.

Lemma lease_expiry_deletes_witness : exists w', lease_expire_cb_ (fun _ => 0) no_flush 7 sample_world = Some w' /\
  current (w_store w') !! key_a = None.
Proof.
  destruct (lease_expiry_deletes (fun _ => 0) no_flush sample_world 7 sample_world_ok eq_refl) as (w' & H1 & _ & _ & _ & H2);
    rewrite ?sample_lease_keys in *.
  - cbn. lia.
  - constructor; [exact key_small|constructor].
  - exists w'. split; [exact H1|]. apply H2; [left; reflexivity|]. left.
Defined.

(** The same commands with the storage backend attached. *)
Definition kept_start : tworld := world_new (mk_mem_env ∅ []) ∅ true true None None 0 1 no_server.
Definition kept_world : tworld := Eval vm_compute in after kept_start [CLeaseGrant 7 10; CPut key_a [1] 7].

Lemma kept_world_ok : world_ok kept_world.
Proof.
  replace kept_world with (after kept_start [CLeaseGrant 7 10; CPut key_a [1] 7]) by (vm_compute; reflexivity).
  apply (steps_keep kept_start); [|by apply world_new_ok]. apply after_steps; repeat constructor; vm_compute; (reflexivity || discriminate).
Qed.

Lemma kept_leases : m_leases (w_mgr kept_world) = [mk_lease 7 10 10000 [key_a] 1].
Proof. vm_compute. reflexivity. Qed.

Lemma lease_tick_world_witness : exists w', lease_tick (fun _ => 0) no_flush kept_world 10000 = Some w' /\
  current (w_store w') !! key_a = None /\ forall l, l ∈ m_leases (w_mgr w') -> 10000 < l_deadline_ms l.
Proof.
  destruct (lease_tick_world (fun _ => 0) no_flush kept_world 10000 kept_world_ok eq_refl) as (w' & H1 & _ & _ & H2);
    [lia|rewrite kept_leases; constructor; [split; [cbn; lia|constructor; [exact key_small|constructor]]|constructor]|].
  destruct H2 as [H2 H3].
  - split; [reflexivity|]. right. unfold holds_leases. rewrite kept_leases. split; [|split; [vm_compute; discriminate|]].
    + split; [apply mem_never_fails|]. intros l ->%list_elem_of_singleton. eexists. vm_compute. reflexivity.
    + intros l ->%list_elem_of_singleton. constructor; [split; vm_compute; (reflexivity || discriminate)|constructor].
  - exists w'. split; [exact H1|]. split; [|exact H3].
    rewrite kept_leases in H2. apply (H2 (mk_lease 7 10 10000 [key_a] 1)); [left|cbn; discriminate|left].
Defined.

Definition small_quota_world : tworld := (sample_world <| w_quota := 100 |>) <| w_backend := true |>.

Lemma quota_refuses_put_witness : exists w',
  cetcd_v3rpc_propose_or_apply (fun _ => 4096) no_flush small_quota_world [CETCD_APPLY_PUT; 1; 97; 0] = Some (w', -1) /\
  w_store w' = w_store small_quota_world /\ cetcd_v3rpc_alarm_is_active (w_alarms w') 1 = true.
Proof.
  destruct (quota_refuses_put (fun _ => 4096) no_flush small_quota_world [CETCD_APPLY_PUT; 1; 97; 0] eq_refl eq_refl)
    as (w' & H1 & H2 & _ & _ & _ & [H3|H3]); [discriminate|reflexivity|vm_compute; discriminate|vm_compute; split; [discriminate|reflexivity]| |].
  - exists w'. auto.
  - destruct H3. vm_compute. left.
Defined.

(** ** Four defects *)

Definition many_key (n : nat) : bytes := [107; Z.of_nat n / 100; Z.of_nat n mod 100].

(** A lease with 130 keys. *)
Definition crowded_world : tworld := after fresh_world (CLeaseGrant 7 10 :: ((fun n => CPut (many_key n) [1] 7) <$> seq 0 130)).

Definition live_key_of (w : option tworld) (k : bytes) : option Z :=
  w ← w; kv_lease_id <$> current (w_store w) !! k.

(** The deletes of the first batch move the remaining keys of the lease to the
    front of the array the second batch is read from: a key of an expired
    lease with more than 128 keys stays, under a lease that is gone. *)
Theorem expiry_misses_keys : let w := lease_tick (fun _ => 0) no_flush crowded_world 10000 in
  live_key_of w (many_key 128) = Some 7 /\ ((fun w => cetcd_lease_exists (w_mgr w) 7) <$> w) = Some false.
Proof. vm_compute. split; reflexivity. Qed.

(** A transaction of two puts goes through over the quota: the check looks
    at the first byte of the entry, which is the tag of the batch. *)
Theorem batch_bypasses_quota : exists d w',
  (ops ← mapM encode_command [CPut key_a [9] 0; CPut [99] [9] 0]; cetcd_apply_encode_batch ops) = Some d /\
  cetcd_v3rpc_propose_or_apply (fun _ => 4096) no_flush small_quota_world d = Some (w', 1) /\
  live_key_of (Some small_quota_world) [99] = None /\ live_key_of (Some w') [99] = Some 0.
Proof. do 2 eexists. split; [vm_compute; reflexivity|]. split; [vm_compute; reflexivity|]. split; vm_compute; reflexivity. Qed.

(** A member of the initial cluster has no row; its removal fails. *)
Definition bootstrap_world : tworld := world_new (mk_mem_env ∅ []) ∅ true true None (Some sample_cluster) 0 1 no_server.

Theorem bootstrap_member_stays : exists d w', encode_command (CMemberRemove 2) = Some d /\
  cetcd_v3rpc_apply_entry bootstrap_world d = Some (w', -1) /\ cetcd_cluster_get_peer sample_cluster 2 = Some peer2 /\
  (c ← w_cluster w'; cetcd_cluster_get_peer c 2) = Some peer2.
Proof. do 2 eexists. split; [vm_compute; reflexivity|]. split; [vm_compute; reflexivity|]. split; vm_compute; reflexivity. Qed.

(** The revocation of lease 7 fails on the row of the lease, after the key was
    deleted: the lease stays and keeps the key.  A put of the key without a
    lease is then undone when lease 7 expires. *)
Definition revoke_fault_world : tworld :=
  let w := after (world_new (mk_mem_env ∅ []) ∅ true true None None 0 1 no_server) [CLeaseGrant 7 10; CPut key_a [1] 7] in
  let w := w <| w_env := mk_mem_env (me_db (w_env w)) [false; false; true] |> in
  after w [CLeaseRevoke 7; CPut key_a [2] 0].

Theorem revoke_fault_deletes_later : live_key_of (Some revoke_fault_world) key_a = Some 0 /\
  cetcd_lease_keys (w_mgr revoke_fault_world) 7 = [key_a] /\
  live_key_of (lease_tick (fun _ => 0) no_flush revoke_fault_world 10000) key_a = None.
Proof. split; [|split]; vm_compute; reflexivity. Qed.
