(* ===== verification/Kv.v ===== *)
(** * Key-value requests (src/v3rpc/kv_handler.c)

    The handlers of Put, Range, DeleteRange and Compact over the globals of the
    RPC layer, the record [world].  A handler gets the bytes of a request and
    answers bytes, or NULL ([None]) for an error.  The result type [res] tells
    apart an answer from undefined behaviour ([Undef]: an access outside a
    buffer) and from a parser that does not end ([Loop]).

    The parsers of this file are those of src/server/auto_compact.c once more
    (the RPC layer cannot link the server); a failure of any kind is -1.
    Response buffers are modelled with their capacity and their growth. *)

From S2P Require Import Slice Hash KeyOrder Treap Hashmap Raft RaftWire Wal Backend Mvcc Lease CString Auth Cluster ApplyCodec Alarm Pb PbRequests Apply Prelude.

#[local] Open Scope Z_scope.

(** ** Parsing *)

(** A message inside another one: the memory from its first byte on, and the
    length the code computed. *)
Definition parse_at {A} (t : Z -> action A) (init : A) (m : bytes) (len : Z) : res A :=
  '(a, _) ← Pb.run (S (length m)) t m len 0 init; Ok a.

(** The parsers report every failure as -1. *)
Definition or_minus_one {A} (r : res A) : res (option A) :=
  match r with Ok a => Ok (Some a) | Fail _ => Ok None | Undef => Undef | Loop => Loop end.

Definition parse_put_request_ (m : bytes) (len : Z) : res (option cetcd_put_request) :=
  or_minus_one (parse_at (table put_request_fields) zero_put_request m len).

Definition parse_range_request_ (m : bytes) (len : Z) : res (option cetcd_range_request) :=
  or_minus_one (parse_at (table range_request_fields) zero_range_request m len).

Definition parse_delete_range_request_ (m : bytes) (len : Z) : res (option cetcd_delete_range_request) :=
  or_minus_one (parse_at (table delete_range_request_fields) zero_delete_request m len).

Definition parse_compact_request_ (m : bytes) (len : Z) : res (option (Z * bool)) :=
  or_minus_one (parse_at (table [
    (0x08, Avarint (fun '(_, physical) v => up_to INT64_MAX (fun v => (v, physical)) v));
    (0x10, Avarint (fun '(rev, _) v => Ok (rev, nonzero v)))]) (0, false) m len).

(** ** Writing *)

(** The bytes written and the result: -1 when the buffer is full, with the
    bytes that fitted. *)
Fixpoint write_varint_loop (n : nat) (cap : Z) (buf : bytes) (val : Z) : bytes * Z :=
  match n with
  | O => (buf, -1)
  | S n =>
      if cap <=? blen buf then (buf, -1)
      else
        let b := Z.land val 127 in
        let val := Z.shiftr val 7 in
        if val =? 0 then (buf ++ [b], 0) else write_varint_loop n cap (buf ++ [Z.lor b 128]) val
  end.

(** A [uint64_t] takes at most ten rounds. *)
Definition write_varint_local (cap : Z) (buf : bytes) (val : Z) : bytes * Z := write_varint_loop 10 cap buf val.

(** The call whose result is ignored. *)
Definition varint_out (cap : Z) (buf : bytes) (val : Z) : bytes := (write_varint_local cap buf val).1.

Definition append_kv_lease_ (cap : Z) (buf : bytes) (lease_id : Z) : res bytes :=
  if (lease_id <=? 0) || (cap <? blen buf + 12) then Ok buf
  else buf ← put cap buf 0x30; Ok (varint_out cap buf (u64 lease_id)).

(** A key-value pair in a buffer of [cap] bytes. *)
Definition encode_kv (cap : Z) (keys_only : bool) (kv : cetcd_kv) : res bytes :=
  b ← put cap [] 0x0a;
  b ← copy_out cap (varint_out cap b (blen (kv_key kv))) (kv_key kv);
  b ← put cap b 0x10;
  b ← put cap (varint_out cap b (u64 (rev_main (kv_create_rev kv)))) 0x18;
  b ← put cap (varint_out cap b (u64 (rev_main (kv_mod_rev kv)))) 0x20;
  let b := varint_out cap b (u64 (kv_version kv)) in
  b ← (if negb keys_only && (0 <? blen (kv_value kv)) then
         b ← put cap b 0x2a;
         copy_out cap (varint_out cap b (blen (kv_value kv))) (kv_value kv)
       else Ok b);
  append_kv_lease_ cap b (kv_lease_id kv).

(** A tag, a length and the bytes. *)
Definition delim_out (cap : Z) (buf : bytes) (tag : Z) (d : bytes) : res bytes :=
  b ← put cap buf tag;
  copy_out cap (varint_out cap b (blen d)) d.

(** The response header: the revision, at least 1. *)
Definition revision_header (size rev : Z) : res bytes :=
  b ← put size [] 0x18;
  Ok (varint_out size b (u64 (if 0 <? rev then rev else 1))).

(** The header put in front of a response that reserved two bytes for it; the
    memmove needs room for the whole. *)
Definition header_in_front (cap : Z) (out : bytes) (rev : Z) : res bytes :=
  hdr ← revision_header 32 rev;
  if cap <? blen out - 2 + (2 + blen hdr) then Undef
  else Ok (varint_out cap [0x0a] (blen hdr) ++ hdr ++ drop 2 out).

(** ** Sorting *)

(** The comparison of two byte strings: the common prefix, then the length. *)
Definition bytes_cmp (a b : bytes) : Z :=
  let n := Z.min (blen a) (blen b) in
  let c := if 0 <? n then memcmp (Z.to_nat n) a b else 0 in
  if c =? 0 then (if blen a <? blen b then -1 else if blen b <? blen a then 1 else 0) else c.

Definition num_cmp (a b : Z) : Z := if a <? b then -1 else if b <? a then 1 else 0.

Definition range_sort_cmp (target : Z) (ka kb : cetcd_kv) : Z :=
  if target =? 0 then bytes_cmp (kv_key ka) (kv_key kb)
  else if target =? 1 then num_cmp (kv_version ka) (kv_version kb)
  else if target =? 2 then num_cmp (rev_main (kv_create_rev ka)) (rev_main (kv_create_rev kb))
  else if target =? 3 then num_cmp (rev_main (kv_mod_rev ka)) (rev_main (kv_mod_rev kb))
  else if target =? 4 then bytes_cmp (kv_value ka) (kv_value kb)
  else 0.

Definition range_sort_options_valid_ (sort_order sort_target : Z) : bool :=
  negb (2 <? u32 sort_order) && negb (4 <? u32 sort_target).

Definition range_sort_apply_defaults_ (sort_order sort_target : Z) : Z :=
  if (sort_order =? 0) && negb (sort_target =? 0) then 1 else sort_order.

(** The inner loop: [sorted] is the sorted prefix from its right end on. *)
Fixpoint shift_in (cmp : cetcd_kv -> cetcd_kv -> Z) (tmp : cetcd_kv) (sorted : list cetcd_kv) : list cetcd_kv :=
  match sorted with
  | [] => [tmp]
  | kv :: l => if cmp kv tmp <=? 0 then tmp :: sorted else kv :: shift_in cmp tmp l
  end.

Definition insertion_sort (cmp : cetcd_kv -> cetcd_kv -> Z) (kvs : list cetcd_kv) : list cetcd_kv :=
  reverse (foldl (fun sorted tmp => shift_in cmp tmp sorted) [] kvs).

(** The rows of a range after the filters on revisions and the sorting. *)
Definition keep_row (r : cetcd_range_request) (kv : cetcd_kv) : bool :=
  negb ((0 <? rr_min_mod_rev r) && (rev_main (kv_mod_rev kv) <? rr_min_mod_rev r)) &&
  negb ((0 <? rr_max_mod_rev r) && (rr_max_mod_rev r <? rev_main (kv_mod_rev kv))) &&
  negb ((0 <? rr_min_create_rev r) && (rev_main (kv_create_rev kv) <? rr_min_create_rev r)) &&
  negb ((0 <? rr_max_create_rev r) && (rr_max_create_rev r <? rev_main (kv_create_rev kv))).

Definition filter_rows (r : cetcd_range_request) (kvs : list cetcd_kv) : list cetcd_kv :=
  if (0 <? blen kvs) && ((0 <? rr_min_mod_rev r) || (0 <? rr_max_mod_rev r) || (0 <? rr_min_create_rev r) || (0 <? rr_max_create_rev r))
  then List.filter (keep_row r) kvs else kvs.

Definition sort_rows (order target : Z) (kvs : list cetcd_kv) : list cetcd_kv :=
  if (0 <? order) && (1 <? blen kvs) then
    insertion_sort (fun a b => let c := range_sort_cmp target a b in if order =? 2 then - c else c) kvs
  else kvs.

(** [if (rpos + k > resp_cap) resp_cap = grow;] *)
Definition grow (cap : Z) (out : bytes) (k new : Z) : Z := if cap <? blen out + k then new else cap.

(** ** The handlers *)

Definition lift {A} (x : option A) : res A := match x with Some a => Ok a | None => Undef end.

Section Kv.
  Context {T : Type -> Type} {E Tx : Type} `{!KeyIndex T, !Lmdb E Tx, !Clock, !AuthLibs}.
  Context (backend_size : E -> Z) (flush : world T E -> option (world T E)).
  Local Notation world := (world T E).

(** [user]: the user of the request ([g_rpc_auth_user]), [None] for NULL. *)
  Context (user : option bytes).

(** A NULL response. *)
Definition null (w : world) : res (world * option bytes) := Ok (w, None).

Definition lease_ok_for_put_ (w : world) (lease_id : Z) : bool :=
  if lease_id <=? 0 then true else cetcd_lease_exists (w_mgr w) lease_id.

(** src/v3rpc/v3rpc.c; [key = None] is NULL. *)
Definition cetcd_v3rpc_check_key_perm (w : world) (want_write : bool) (key : option bytes) : Z :=
  if negb (cetcd_auth_is_enabled (w_auth w)) then 0
  else match user, key with
       | Some u, Some k => if cetcd_auth_check_perm (w_auth w) u k want_write then 0 else -1
       | _, _ => -1
       end.

(** src/v3rpc/linearizable.c *)
Definition cetcd_v3rpc_linearizable_ok (w : world) (serializable : bool) : bool :=
  if serializable then true
  else match w_raft w with
       | None => true
       | Some r =>
           let leader := cetcd_raft_leader r in
           if (leader =? 0) || (w_node_id w =? 0) then false else leader =? w_node_id w
       end.

(** The current version of a key. *)
Definition present_kv (w : world) (key : bytes) : option cetcd_kv :=
  match cetcd_mvcc_get (w_store w) 0 key with (CETCD_OK, Some kv) => Some kv | _ => None end.

Definition store_revision (w : world) : Z := cetcd_mvcc_revision (w_store w).

Definition propose (w : world) (entry : option bytes) : res (world * Z) :=
  match entry with
  | None => Ok (w, -1)
  | Some e => lift (cetcd_v3rpc_propose_or_apply backend_size flush w e)
  end.

(** *** Put *)

(** The value and the lease to write: those of the present version where the
    request ignores its own. *)
Definition put_value (r : cetcd_put_request) (old : option cetcd_kv) : bytes :=
  match old with Some kv => if pr_ignore_value r then kv_value kv else pr_value r | None => pr_value r end.

Definition put_lease (r : cetcd_put_request) (old : option cetcd_kv) : Z :=
  match old with Some kv => if pr_ignore_lease r then kv_lease_id kv else pr_lease r | None => pr_lease r end.

(** The previous pair of a response, in a buffer made for it. *)
Definition prev_pair (wanted : bool) (old : option cetcd_kv) : res bytes :=
  match old with
  | Some kv => if wanted then encode_kv (256 + blen (kv_key kv) + blen (kv_value kv)) false kv else Ok []
  | None => Ok []
  end.

Definition put_response (rev : Z) (pkv : bytes) : res bytes :=
  hdr ← revision_header 32 rev;
  let cap := 64 + blen hdr + (if 0 <? blen pkv then 10 + blen pkv else 0) in
  out ← delim_out cap [] 0x0a hdr;
  if 0 <? blen pkv then delim_out cap out 0x12 pkv else Ok out.

Definition kv_handle_put (w : world) (req : bytes) : res (world * option bytes) :=
  pr ← parse_put_request_ req (blen req);
  match pr with
  | None => null w
  | Some r =>
      if blen (pr_key r) =? 0 then null w
      else if negb (cetcd_v3rpc_check_key_perm w true (Some (pr_key r)) =? 0) then null w
      else if (pr_ignore_value r && (0 <? blen (pr_value r))) || (pr_ignore_lease r && negb (pr_lease r =? 0)) then null w
      else
        let old := present_kv w (pr_key r) in
        let lease := put_lease r old in
        if (0 <? lease) && negb (lease_ok_for_put_ w lease) then null w
        else if (pr_ignore_value r || pr_ignore_lease r) && bool_decide (old = None) then null w
        else
          '(w, rc) ← propose w (cetcd_apply_encode_put (pr_key r) (put_value r old) lease);
          if rc <? 0 then null w
          else
            pkv ← prev_pair (pr_prev_kv r) old;
            out ← put_response (store_revision w) pkv;
            Ok (w, Some out)
  end.

(** *** Range *)

(** The pairs behind the response so far; the capacity grows. *)
Fixpoint range_pairs (keys_only : bool) (cap : Z) (out : bytes) (kvs : list cetcd_kv) : res (Z * bytes) :=
  match kvs with
  | [] => Ok (cap, out)
  | kv :: kvs =>
      b ← encode_kv 1024 keys_only kv;
      let cap := grow cap out (6 + blen b) (cap * 2 + blen b + 64) in
      out ← delim_out cap out 0x12 b;
      range_pairs keys_only cap out kvs
  end.

(** A point read: the response so far and the count. *)
Definition range_point (w : world) (r : cetcd_range_request) : res (option (Z * bytes * Z)) :=
  match cetcd_mvcc_get (w_store w) (rr_rev r) (rr_key r) with
  | (CETCD_ERR_RANGE, _) => Ok None
  | (CETCD_OK, Some kv) =>
      if rr_count_only r then Ok (Some (4096, [0; 0], 1))
      else
        b ← encode_kv 1024 (rr_keys_only r) kv;
        let cap := grow 4096 [0; 0] (6 + blen b) (2 + blen b + 64) in
        out ← delim_out cap [0; 0] 0x12 b;
        Ok (Some (cap, out, 1))
  | _ => Ok (Some (4096, [0; 0], 0))
  end.

Definition range_rows (w : world) (r : cetcd_range_request) (order : Z) : res (option (Z * bytes * Z)) :=
  match cetcd_mvcc_range (w_store w) (rr_rev r) (rr_key r) (rr_range_end r) with
  | (CETCD_ERR_RANGE, _) => Ok None
  | (_, kvs) =>
      let kvs := sort_rows order (rr_sort_target r) (filter_rows r kvs) in
      let limit := rr_limit r in
      let shown := if 0 <? limit then take (Z.to_nat (Z.min limit (blen kvs))) kvs else kvs in
      '(cap, out) ← (if rr_count_only r then Ok (4096, [0; 0]) else range_pairs (rr_keys_only r) 4096 [0; 0] shown);
      if (0 <? limit) && (limit <? blen kvs) then
        let cap := grow cap out 10 (blen out + 16) in
        out ← put cap out 0x18;
        out ← put cap out 0x01;
        Ok (Some (cap, out, blen kvs))
      else Ok (Some (cap, out, blen kvs))
  end.

Definition kv_handle_range (w : world) (req : bytes) : res (option bytes) :=
  pr ← parse_range_request_ req (blen req);
  match pr with
  | None => Ok None
  | Some r =>
      if blen (rr_key r) =? 0 then Ok None
      else if negb (cetcd_v3rpc_check_key_perm w false (Some (rr_key r)) =? 0) then Ok None
      else if negb (range_sort_options_valid_ (rr_sort_order r) (rr_sort_target r)) then Ok None
      else if negb (cetcd_v3rpc_linearizable_ok w (rr_serializable r)) then Ok None
      else
        let order := range_sort_apply_defaults_ (rr_sort_order r) (rr_sort_target r) in
        body ← (if blen (rr_range_end r) =? 0 then range_point w r else range_rows w r order);
        match body with
        | None => Ok None
        | Some (cap, out, count) =>
            let cap := grow cap out 10 (blen out + 16) in
            out ← put cap out 0x20;
            out ← header_in_front cap (varint_out cap out count) (store_revision w);
            Ok (Some out)
        end
  end.

Definition encode_range_more_prelude_ (rev : Z) : res bytes :=
  hdr ← revision_header 16 rev;
  out ← delim_out 32 [] 0x0a hdr;
  out ← put 32 out 0x18;
  put 32 out 0x01.

(** The messages written to the stream, if it has a writer, and the answer. *)
Definition kv_handle_range_stream (writer : bool) (w : world) (req : bytes) : res (list bytes * option bytes) :=
  out ← kv_handle_range w req;
  match out with
  | Some d =>
      if writer && (0 <? blen d) then pre ← encode_range_more_prelude_ (store_revision w); Ok ([pre], out)
      else Ok ([], out)
  | None => Ok ([], out)
  end.

(** *** Delete *)

(** Pairs under a tag, in a buffer that is enlarged when needed. *)
Fixpoint pairs_out (tag : Z) (keys_only : bool) (cap : Z) (out : bytes) (kvs : list cetcd_kv) : res bytes :=
  match kvs with
  | [] => Ok out
  | kv :: kvs =>
      b ← encode_kv 1024 keys_only kv;
      let needed := blen out + 6 + blen b in
      let cap := if cap <? needed then needed * 2 else cap in
      out ← delim_out cap out tag b;
      pairs_out tag keys_only cap out kvs
  end.

(** One pair under a tag, in a buffer made for it. *)
Definition pair_out (tag : Z) (keys_only : bool) (kv : cetcd_kv) : res bytes :=
  b ← encode_kv 1024 keys_only kv;
  delim_out (blen b + 10) [] tag b.

Definition delete_response (rev deleted : Z) (prev_kvs : bytes) : res bytes :=
  hdr ← revision_header 32 rev;
  let cap := 64 + blen hdr + blen prev_kvs in
  out ← delim_out cap [] 0x0a hdr;
  out ← put cap out 0x10;
  copy_out cap (varint_out cap out deleted) prev_kvs.

Definition kv_handle_delete_range (w : world) (req : bytes) : res (world * option bytes) :=
  pr ← parse_delete_range_request_ req (blen req);
  match pr with
  | None => null w
  | Some r =>
      if blen (dr_key r) =? 0 then null w
      else if negb (cetcd_v3rpc_check_key_perm w true (Some (dr_key r)) =? 0) then null w
      else
        let before_rev := store_revision w in
        if blen (dr_range_end r) =? 0 then
          let old := if dr_prev_kv r then present_kv w (dr_key r) else None in
          prev ← (match old with Some kv => pair_out 0x1a false kv | None => Ok [] end);
          '(w, rc) ← propose w (cetcd_apply_encode_delete (dr_key r));
          if rc <? 0 then null w
          else
            let rev := store_revision w in
            let deleted := if dr_prev_kv r then (if bool_decide (old = None) then 0 else 1) else if before_rev <? rev then 1 else 0 in
            out ← delete_response rev deleted prev;
            Ok (w, Some out)
        else
          let '(_, kvs) := cetcd_mvcc_range (w_store w) 0 (dr_key r) (dr_range_end r) in
          prev ← (if dr_prev_kv r && (0 <? blen kvs) then pairs_out 0x1a false (blen kvs * 256) [] kvs else Ok []);
          '(w, rc) ← propose w (cetcd_apply_encode_delete_range (dr_key r) (dr_range_end r));
          if rc <? 0 then null w
          else
            let rev := store_revision w in
            let done := (before_rev <? rev) && (0 <? blen kvs) in
            out ← delete_response rev (if done then blen kvs else 0) (if done then prev else []);
            Ok (w, Some out)
  end.

(** *** Compaction *)

Definition kv_handle_compact (w : world) (req : bytes) : res (world * option bytes) :=
  pr ← parse_compact_request_ req (blen req);
  match pr with
  | None => null w
  | Some (compact_rev, _) =>
      let cur := store_revision w in
      let compacted := cetcd_mvcc_compacted_revision (w_store w) in
      if (compact_rev <=? 0) || (cur <? compact_rev) || (compact_rev <=? compacted) then null w
      else
        '(w, rc) ← propose w (cetcd_apply_encode_compact compact_rev);
        if rc <? 0 then null w
        else
          hdr ← revision_header 32 (store_revision w);
          out ← delim_out 64 [] 0x0a hdr;
          Ok (w, Some out)
  end.

End Kv.
