(* ===== verification/KvTxn.v ===== *)
(** * Transactions (src/v3rpc/kv_handler.c)

    The handler of Txn: parsing into comparisons and operations, the permission
    checks, the evaluation of the comparisons, the operations of the chosen
    branch one by one, nested transactions included.  The depth counter
    [g_txn_depth] stops at 16; the recursion is on what is left of it. *)

From S2P Require Import Slice Hash KeyOrder Treap Hashmap Raft RaftWire Wal Backend Mvcc Lease CString Auth Cluster ApplyCodec Alarm Pb PbRequests Apply Kv Prelude.

#[local] Open Scope Z_scope.

Definition TXN_MAX_OPS : Z := 128.
Definition TXN_MAX_DEPTH : nat := 16.

(** [txn_op_t], and every other message inside a request: the memory from its
    first byte on and its length. *)
Record txn_op_t : Type := mk_op { op_data : bytes; op_len : Z }.

(** A payload and the position behind it; [None] is -1. *)
Definition leftover_safe_ldelim_ (m : bytes) (len pos : Z) : res (option (txn_op_t * Z)) :=
  or_minus_one ('(n, pos) ← delim_at m len pos; Ok (mk_op (drop (Z.to_nat pos) m) n, u64 (pos + n))).

Definition leftover_safe_skip_unknown_k (m : bytes) (len pos tag : Z) : res (option Z) :=
  or_minus_one (leftover_safe_skip_unknown_at_ m len pos tag).

Definition parse_txn_compare_ (m : bytes) (len : Z) : res (option cetcd_txn_compare) :=
  or_minus_one (parse_at (table txn_compare_fields) zero_txn_compare m len).

(** The loop over the fields of a message: a round reads the tag and returns or
    goes on with a state and a position. *)
Fixpoint scan {S R} (n : nat) (round : S -> Z -> Z -> res (R + S * Z)) (done : S -> R) (m : bytes) (len pos : Z) (s : S) : res R :=
  if len <=? pos then Ok (done s)
  else match n with
       | O => Loop
       | S n =>
           match m !! Z.to_nat pos with
           | None => Undef
           | Some tag =>
               r ← round s tag (pos + 1);
               match r with
               | inl a => Ok a
               | inr (s, pos) => scan n round done m len pos s
               end
           end
       end.

(** A round that returns -1 where the parser failed. *)
Definition or_return {A S} (x : res (option A)) (k : A -> res (Z + S * Z)) : res (Z + S * Z) :=
  r ← x; match r with None => Ok (inl (-1)) | Some a => k a end.

(** ** The request *)

(** The comparisons and the operations of the branches; at most 128 of a kind
    are stored, all are counted. *)
Record txn_request : Type := mk_txn {
  t_compares : list cetcd_txn_compare;
  t_success : list txn_op_t;
  t_failure : list txn_op_t;
  t_compares_raw : Z;
  t_success_raw : Z;
  t_failure_raw : Z
}.

#[export] Instance txn_request_eta : RecordEta txn_request := fun t =>
  mk_txn (t_compares t) (t_success t) (t_failure t) (t_compares_raw t) (t_success_raw t) (t_failure_raw t).

Definition store_op (ops : list txn_op_t) (op : txn_op_t) : list txn_op_t :=
  if blen ops <? TXN_MAX_OPS then ops ++ [op] else ops.

(** One round of the parser: [inl tt] is [cmp_bad].  A tag 0 is a varint field
    here, unlike in the other parsers. *)
Definition txn_parse_round (m : bytes) (len : Z) (t : txn_request) (tag pos : Z) : res (option txn_request + txn_request * Z) :=
  let bad := Ok (inl None) in
  if tag =? 0x0a then
    c ← leftover_safe_ldelim_ m len pos;
    match c with
    | None => bad
    | Some (c, pos) =>
        let t := t <| t_compares_raw := t_compares_raw t + 1 |> in
        if blen (t_compares t) <? TXN_MAX_OPS then
          cmp ← parse_txn_compare_ (op_data c) (op_len c);
          match cmp with
          | None => bad
          | Some cmp => Ok (inr (t <| t_compares := t_compares t ++ [cmp] |>, pos))
          end
        else Ok (inr (t, pos))
    end
  else if (tag =? 0x12) || (tag =? 0x1a) then
    o ← leftover_safe_ldelim_ m len pos;
    match o with
    | None => bad
    | Some (o, pos) =>
        if tag =? 0x12
        then Ok (inr (t <| t_success := store_op (t_success t) o |> <| t_success_raw := t_success_raw t + 1 |>, pos))
        else Ok (inr (t <| t_failure := store_op (t_failure t) o |> <| t_failure_raw := t_failure_raw t + 1 |>, pos))
    end
  else
    p ← leftover_safe_skip_unknown_k m len pos tag;
    match p with
    | None => bad
    | Some pos => Ok (inr (t, pos))
    end.

Definition txn_parse (m : bytes) (len : Z) : res (option txn_request) :=
  scan (S (length m)) (txn_parse_round m len) Some m len 0 (mk_txn [] [] [] 0 0 0).

(** ** Comparisons *)

(** [switch (c->result)]; another value leaves the variable as it was. *)
Definition compare_result (result c : Z) (otherwise : bool) : bool :=
  if result =? 0 then c =? 0
  else if result =? 1 then 0 <? c
  else if result =? 2 then c <? 0
  else if result =? 3 then negb (c =? 0)
  else otherwise.

(** The number of a pair a target names and the number to compare it with;
    [None] is a missing pair. *)
Definition compare_actual (target : Z) (kv : option cetcd_kv) : Z :=
  match kv with
  | None => 0
  | Some kv =>
      if target =? 0 then kv_version kv
      else if target =? 1 then rev_main (kv_create_rev kv)
      else if target =? 2 then rev_main (kv_mod_rev kv)
      else if target =? 4 then kv_lease_id kv
      else 0
  end.

Definition compare_wanted (c : cetcd_txn_compare) : Z :=
  if tc_target c =? 0 then tc_version c
  else if tc_target c =? 1 then tc_create_revision c
  else if tc_target c =? 2 then tc_mod_revision c
  else if tc_target c =? 4 then tc_lease c
  else 0.

(** One pair against the comparison. *)
Definition compare_kv (c : cetcd_txn_compare) (kv : cetcd_kv) (otherwise : bool) : bool :=
  if tc_target c =? 3 then compare_result (tc_result c) (bytes_cmp (kv_value kv) (tc_value c)) otherwise
  else compare_result (tc_result c) (num_cmp (compare_actual (tc_target c) (Some kv)) (compare_wanted c)) otherwise.

(** A missing key: value comparisons fail, numbers are 0. *)
Definition compare_missing (c : cetcd_txn_compare) : bool :=
  if tc_target c =? 3 then false
  else compare_result (tc_result c) (num_cmp 0 (compare_wanted c)) false.

(** ** Writing responses *)

(** [pos = write_varint_local(buf, cap, &pos, val);]: the position becomes the
    return code. *)
Definition varint_reset (cap : Z) (buf : bytes) (val : Z) : res bytes :=
  let '(b, rc) := write_varint_local cap buf val in
  if rc <? 0 then Undef else Ok (take (Z.to_nat rc) b).

(** The header inside a response of an operation. *)
Definition inner_header (rev : Z) : res bytes :=
  b ← put 16 [] 0x18;
  varint_reset 16 b (u64 (if 0 <? rev then rev else 1)).

(** An operation's response behind the transaction's; the length of the inner
    message assumes a length of one byte. *)
Definition append_response (cap : Z) (out : bytes) (tag : Z) (inner : bytes) : res (Z * bytes) :=
  let cap := grow cap out (20 + blen inner) (cap * 2 + blen inner + 64) in
  out ← put cap out 0x1a;
  let out := varint_out cap out (2 + blen inner) in
  out ← delim_out cap out tag inner;
  Ok (cap, out).

(** The number of bytes of a varint, as the loop for nested transactions
    counts them. *)
Fixpoint varint_len (n : nat) (v : Z) : Z :=
  match n with
  | O => 1
  | S n => if 128 <=? v then 1 + varint_len n (Z.shiftr v 7) else 1
  end.

Definition append_nested (cap : Z) (out nested : bytes) : res (Z * bytes) :=
  let inner_msg_len := 1 + varint_len 10 (blen nested) + blen nested in
  let cap := grow cap out (16 + inner_msg_len) (cap * 2 + inner_msg_len + 64) in
  out ← put cap out 0x1a;
  let out := varint_out cap out inner_msg_len in
  out ← delim_out cap out 0x22 nested;
  Ok (cap, out).

(** ** The handler *)

Section Txn.
  Context {T : Type -> Type} {E Tx : Type} `{!KeyIndex T, !Lmdb E Tx, !Clock, !AuthLibs}.
  Context (backend_size : E -> Z) (flush : world T E -> option (world T E)).
  Context (user : option bytes).
  Local Notation world := (world T E).

(** [g_rpc_max_txn_ops] *)
  Context (max_txn_ops : Z).

Definition txn_max_ops_ : Z :=
  let n := if max_txn_ops =? 0 then TXN_MAX_OPS else max_txn_ops in
  if TXN_MAX_OPS <? n then TXN_MAX_OPS else n.

(** *** Permissions *)

(** [cetcd_v3rpc_check_key_perm] on a key inside the request. *)
Definition check_perm_at (w : world) (want_write : bool) (k : txn_op_t) : res Z :=
  if negb (cetcd_auth_is_enabled (w_auth w)) || bool_decide (user = None) then
    Ok (cetcd_v3rpc_check_key_perm user w want_write (Some []))
  else
    key ← mem_read (op_data k) 0 (op_len k);
    Ok (cetcd_v3rpc_check_key_perm user w want_write (Some key)).

(** The first key of an operation decides. *)
Definition op_key_round (w : world) (want_write : bool) (o : txn_op_t) (_ : unit) (tag pos : Z) : res (Z + unit * Z) :=
  if tag =? 0 then Ok (inr (tt, pos))
  else if tag =? 0x0a then
    or_return (leftover_safe_ldelim_ (op_data o) (op_len o) pos) (fun '(k, _) =>
      rc ← check_perm_at w want_write k; Ok (inl rc))
  else or_return (leftover_safe_skip_unknown_k (op_data o) (op_len o) pos tag) (fun pos => Ok (inr (tt, pos))).

(** [nested] checks a nested transaction, [None] when the depth is used up. *)
Definition op_round (w : world) (nested : option (txn_op_t -> res Z)) (op : txn_op_t) (_ : unit) (tag pos : Z) : res (Z + unit * Z) :=
  if tag =? 0 then Ok (inr (tt, pos))
  else if (tag =? 0x0a) || (tag =? 0x12) || (tag =? 0x1a) || (tag =? 0x22) then
    or_return (leftover_safe_ldelim_ (op_data op) (op_len op) pos) (fun '(pl, _) =>
      if tag =? 0x22 then
        match nested with
        | None => Ok (inl (-1))
        | Some f => rc ← f pl; Ok (inl rc)
        end
      else
        let want_write := negb (tag =? 0x0a) in
        rc ← scan (S (length (op_data pl))) (op_key_round w want_write pl)
               (fun _ => cetcd_v3rpc_check_key_perm user w want_write None) (op_data pl) (op_len pl) 0 tt;
        Ok (inl rc))
  else or_return (leftover_safe_skip_unknown_k (op_data op) (op_len op) pos tag) (fun pos => Ok (inr (tt, pos))).

Definition txn_op_check_perm_ (w : world) (nested : option (txn_op_t -> res Z)) (op : txn_op_t) : res Z :=
  if op_len op =? 0 then Ok 0
  else scan (S (length (op_data op))) (op_round w nested op) (fun _ => 0) (op_data op) (op_len op) 0 tt.

(** All keys of a comparison. *)
Definition compare_key_round (w : world) (c : txn_op_t) (_ : unit) (tag pos : Z) : res (Z + unit * Z) :=
  if tag =? 0 then Ok (inr (tt, pos))
  else if tag =? 0x1a then
    or_return (leftover_safe_ldelim_ (op_data c) (op_len c) pos) (fun '(k, pos) =>
      rc ← check_perm_at w false k;
      Ok (if rc =? 0 then inr (tt, pos) else inl rc))
  else or_return (leftover_safe_skip_unknown_k (op_data c) (op_len c) pos tag) (fun pos => Ok (inr (tt, pos))).

Definition request_round (w : world) (nested : option (txn_op_t -> res Z)) (req : txn_op_t) (_ : unit) (tag pos : Z) : res (Z + unit * Z) :=
  if tag =? 0 then Ok (inr (tt, pos))
  else if tag =? 0x0a then
    or_return (leftover_safe_ldelim_ (op_data req) (op_len req) pos) (fun '(c, pos) =>
      rc ← scan (S (length (op_data c))) (compare_key_round w c) (fun _ => 0) (op_data c) (op_len c) 0 tt;
      Ok (if rc =? 0 then inr (tt, pos) else inl rc))
  else if (tag =? 0x12) || (tag =? 0x1a) then
    or_return (leftover_safe_ldelim_ (op_data req) (op_len req) pos) (fun '(op, pos) =>
      rc ← txn_op_check_perm_ w nested op;
      Ok (if rc =? 0 then inr (tt, pos) else inl (-1)))
  else or_return (leftover_safe_skip_unknown_k (op_data req) (op_len req) pos tag) (fun pos => Ok (inr (tt, pos))).

(** [d] is 15 - [g_txn_depth]. *)
Fixpoint txn_request_check_perm_ (d : nat) (w : world) (req : txn_op_t) : res Z :=
  let nested := match d with O => None | S d => Some (txn_request_check_perm_ d w) end in
  scan (S (length (op_data req))) (request_round w nested req) (fun _ => 0) (op_data req) (op_len req) 0 tt.

Definition nested_check (d : nat) (w : world) : option (txn_op_t -> res Z) :=
  match d with O => None | S d => Some (txn_request_check_perm_ d w) end.

(** The check of a list of operations stops at the first refusal. *)
Fixpoint check_ops (d : nat) (w : world) (ops : list txn_op_t) : res bool :=
  match ops with
  | [] => Ok true
  | op :: ops => rc ← txn_op_check_perm_ w (nested_check d w) op; if rc =? 0 then check_ops d w ops else Ok false
  end.

(** *** Evaluation of a comparison *)

Definition txn_compare_ok (w : world) (c : cetcd_txn_compare) : bool :=
  if 0 <? blen (tc_range_end c) then
    match cetcd_mvcc_range (w_store w) 0 (tc_key c) (tc_range_end c) with
    | (_, []) => compare_missing c
    | (_, kvs) => forallb (fun kv => compare_kv c kv true) kvs
    end
  else match present_kv w (tc_key c) with
       | None => compare_missing c
       | Some kv => compare_kv c kv false
       end.

(** *** Operations

    An operation changes the state and gives the largest revision so far and
    the response, or [None] when the transaction fails. *)
Definition failed (w : world) : res (world * option (Z * bytes)) := Ok (w, None).

Definition txn_put (w : world) (final_rev : Z) (pl : txn_op_t) : res (world * option (Z * bytes)) :=
  pr ← parse_put_request_ (op_data pl) (op_len pl);
  match pr with
  | None => failed w
  | Some r =>
      if blen (pr_key r) =? 0 then failed w
      else if (pr_ignore_value r && (0 <? blen (pr_value r))) || (pr_ignore_lease r && negb (pr_lease r =? 0)) then failed w
      else
        let old := if pr_prev_kv r || pr_ignore_value r || pr_ignore_lease r then present_kv w (pr_key r) else None in
        prev ← prev_pair true old;
        let lease := put_lease r old in
        if (0 <? lease) && negb (lease_ok_for_put_ w lease) then failed w
        else if (pr_ignore_value r || pr_ignore_lease r) && bool_decide (old = None) then failed w
        else
          '(w, rc) ← propose backend_size flush w (cetcd_apply_encode_put (pr_key r) (put_value r old) lease);
          if rc <? 0 then failed w
          else
            let final_rev := Z.max final_rev (store_revision w) in
            hdr ← inner_header final_rev;
            let cap := 256 + blen prev in
            out ← delim_out cap [] 0x0a hdr;
            out ← (if 0 <? blen prev then delim_out cap out 0x12 prev else Ok out);
            Ok (w, Some (final_rev, out))
  end.

(** The position is reset to 0 behind both varints. *)
Definition txn_delete_response (del_rev deleted : Z) (prev : bytes) : res bytes :=
  hdr ← inner_header del_rev;
  let cap := 64 + blen hdr + blen prev in
  out ← put cap [] 0x0a;
  out ← varint_reset cap out (blen hdr);
  out ← copy_out cap out hdr;
  out ← put cap out 0x10;
  out ← varint_reset cap out deleted;
  copy_out cap out prev.

Definition txn_delete (w : world) (final_rev : Z) (pl : txn_op_t) : res (world * option (Z * bytes)) :=
  pr ← parse_delete_range_request_ (op_data pl) (op_len pl);
  match pr with
  | None => failed w
  | Some r =>
      if blen (dr_key r) =? 0 then failed w
      else
        let before := store_revision w in
        if 0 <? blen (dr_range_end r) then
          let '(_, kvs) := cetcd_mvcc_range (w_store w) 0 (dr_key r) (dr_range_end r) in
          prev ← (if dr_prev_kv r && (0 <? blen kvs) then pairs_out 0x1a false (blen kvs * 256) [] kvs else Ok []);
          '(w, rc) ← propose backend_size flush w (cetcd_apply_encode_delete_range (dr_key r) (dr_range_end r));
          if rc <? 0 then failed w
          else
            let del_rev := store_revision w in
            let done := before <? del_rev in
            out ← txn_delete_response del_rev (if done then blen kvs else 0) (if done then prev else []);
            Ok (w, Some (Z.max final_rev del_rev, out))
        else
          let old := if dr_prev_kv r then present_kv w (dr_key r) else None in
          prev ← (match old with Some kv => pair_out 0x1a false kv | None => Ok [] end);
          '(w, rc) ← propose backend_size flush w (cetcd_apply_encode_delete (dr_key r));
          if rc <? 0 then failed w
          else
            let del_rev := store_revision w in
            let deleted := if dr_prev_kv r then (if bool_decide (old = None) then 0 else 1) else if before <? del_rev then 1 else 0 in
            out ← txn_delete_response del_rev deleted prev;
            Ok (w, Some (Z.max final_rev del_rev, out))
  end.

(** The pairs of a range response, the flag more and the count. *)
Definition txn_range_rows (w : world) (r : cetcd_range_request) (order : Z) : res (option (bytes * bool * Z)) :=
  if blen (rr_range_end r) =? 0 then
    match cetcd_mvcc_get (w_store w) (rr_rev r) (rr_key r) with
    | (CETCD_ERR_RANGE, _) => Ok None
    | (CETCD_OK, Some kv) =>
        kvs ← (if rr_count_only r then Ok [] else pair_out 0x12 (rr_keys_only r) kv);
        Ok (Some (kvs, false, 1))
    | _ => Ok (Some ([], false, 0))
    end
  else
    match cetcd_mvcc_range (w_store w) (rr_rev r) (rr_key r) (rr_range_end r) with
    | (CETCD_ERR_RANGE, _) => Ok None
    | (_, kvs) =>
        let kvs := sort_rows order (rr_sort_target r) (filter_rows r kvs) in
        let more := (0 <? rr_limit r) && (rr_limit r <? blen kvs) in
        let shown := if more then take (Z.to_nat (rr_limit r)) kvs else kvs in
        rows ← (if rr_count_only r then Ok [] else pairs_out 0x12 (rr_keys_only r) (blen shown * 256 + 64) [] shown);
        Ok (Some (rows, more, blen kvs))
    end.

Definition txn_range (w : world) (final_rev : Z) (pl : txn_op_t) : res (world * option (Z * bytes)) :=
  pr ← parse_range_request_ (op_data pl) (op_len pl);
  match pr with
  | None => failed w
  | Some r =>
      if blen (rr_key r) =? 0 then failed w
      else if negb (range_sort_options_valid_ (rr_sort_order r) (rr_sort_target r)) then failed w
      else if negb (cetcd_v3rpc_linearizable_ok w (rr_serializable r)) then failed w
      else
        rows ← txn_range_rows w r (range_sort_apply_defaults_ (rr_sort_order r) (rr_sort_target r));
        match rows with
        | None => failed w
        | Some (kvs, more, count) =>
            let cap := 64 + blen kvs in
            hdr ← inner_header final_rev;
            out ← delim_out cap [] 0x0a hdr;
            let cap := grow cap out (blen kvs) (blen out + blen kvs + 32) in
            out ← copy_out cap out kvs;
            out ← (if (more : bool) then out ← put cap out 0x18; put cap out 0x01 else Ok out);
            out ← put cap out 0x20;
            Ok (w, Some (final_rev, varint_out cap out count))
        end
  end.

(** One operation; [nested] runs a nested transaction. *)
Definition txn_exec (nested : option (world -> txn_op_t -> res (world * option bytes))) (w : world)
    (final_rev cap : Z) (resp : bytes) (op : txn_op_t) : res (world * option (Z * Z * bytes)) :=
  if op_len op =? 0 then Ok (w, Some (final_rev, cap, resp))
  else
    match op_data op !! 0%nat with
    | None => Undef
    | Some tag =>
        if (tag =? 0x12) || (tag =? 0x1a) || (tag =? 0x0a) then
          pl ← leftover_safe_ldelim_ (op_data op) (op_len op) 1;
          match pl with
          | None => Ok (w, None)
          | Some (pl, _) =>
              '(w, r) ← (if tag =? 0x12 then txn_put w final_rev pl
                         else if tag =? 0x1a then txn_delete w final_rev pl else txn_range w final_rev pl);
              match r with
              | None => Ok (w, None)
              | Some (final_rev, inner) =>
                  '(cap, resp) ← append_response cap resp tag inner;
                  Ok (w, Some (final_rev, cap, resp))
              end
          end
        else if tag =? 0x22 then
          pl ← leftover_safe_ldelim_ (op_data op) (op_len op) 1;
          match pl, nested with
          | Some (pl, _), Some go =>
              '(w, r) ← go w pl;
              match r with
              | None => Ok (w, None)
              | Some nested =>
                  if blen nested =? 0 then Ok (w, None)
                  else
                    '(cap, resp) ← append_nested cap resp nested;
                    Ok (w, Some (Z.max final_rev (store_revision w), cap, resp))
              end
          | _, _ => Ok (w, None)
          end
        else Ok (w, None)
    end.

Fixpoint txn_exec_all (nested : option (world -> txn_op_t -> res (world * option bytes))) (w : world)
    (final_rev cap : Z) (resp : bytes) (ops : list txn_op_t) : res (world * option (Z * Z * bytes)) :=
  match ops with
  | [] => Ok (w, Some (final_rev, cap, resp))
  | op :: ops =>
      '(w, r) ← txn_exec nested w final_rev cap resp op;
      match r with
      | None => Ok (w, None)
      | Some (final_rev, cap, resp) => txn_exec_all nested w final_rev cap resp ops
      end
  end.

(** The field succeeded and the header in front. *)
Definition txn_finish (final_rev cap : Z) (resp : bytes) (succeeded : bool) : res bytes :=
  let cap := grow cap resp 2 (cap + 8) in
  resp ← put cap resp 0x10;
  resp ← put cap resp (if succeeded then 0x01 else 0x00);
  hdr ← revision_header 32 final_rev;
  if cap <? blen resp - 2 + (2 + blen hdr) then Undef
  else Ok ([0x0a; u8 (blen hdr)] ++ hdr ++ drop 2 resp).

Definition txn_body (d : nat) (nested : option (world -> txn_op_t -> res (world * option bytes))) (w : world) (req : txn_op_t)
  : res (world * option bytes) :=
  t ← txn_parse (op_data req) (op_len req);
  match t with
  | None => null w
  | Some t =>
      let opc := Z.max (Z.max (t_compares_raw t) (t_success_raw t)) (t_failure_raw t) in
      if txn_max_ops_ <? opc then null w
      else if negb (forallb (fun c => (0 <? blen (tc_key c)) && (cetcd_v3rpc_check_key_perm user w false (Some (tc_key c)) =? 0)) (t_compares t))
      then null w
      else
        ok ← check_ops d w (t_success t);
        if negb ok then null w
        else
          ok ← check_ops d w (t_failure t);
          if negb ok then null w
          else
            let succeeded := forallb (txn_compare_ok w) (t_compares t) in
            '(w, r) ← txn_exec_all nested w (store_revision w) 4096 [0; 0] (if succeeded then t_success t else t_failure t);
            match r with
            | None => null w
            | Some (final_rev, cap, resp) => out ← txn_finish final_rev cap resp succeeded; Ok (w, Some out)
            end
  end.

(** [d] is 15 - [g_txn_depth]. *)
Fixpoint txn_at_depth (d : nat) (w : world) (req : txn_op_t) : res (world * option bytes) :=
  txn_body d (match d with O => None | S d => Some (txn_at_depth d) end) w req.

Definition kv_handle_txn (w : world) (req : bytes) : res (world * option bytes) :=
  txn_at_depth (TXN_MAX_DEPTH - 1) w (mk_op req (blen req)).

End Txn.
