(* ===== verification/KvCodec.v ===== *)
(** * Key-value requests: the bytes of the responses

    What the writers of the handlers put into their buffers, as lists of
    fields, and the sorting of rows. *)

From S2P Require Import Slice Hash KeyOrder Treap Hashmap Raft RaftWire Wal Backend Mvcc Lease CString Auth Cluster ApplyCodec Alarm Pb PbProps PbSafe PbRequests Apply Kv Prelude.

#[local] Open Scope Z_scope.

(** ** Writing with enough room *)

Lemma put_room cap out b : blen out < cap -> put cap out b = Ok (out ++ [b]).
Proof. intros H. unfold put. by rewrite (proj2 (Z.ltb_lt _ _)). Qed.

Lemma copy_room cap out d : blen out + blen d <= cap -> copy_out cap out d = Ok (out ++ d).
Proof. intros H. unfold copy_out. by rewrite (proj2 (Z.leb_le _ _)). Qed.

Lemma write_varint_put n cap buf v b : put_varint_loop n cap buf v = Ok b -> write_varint_loop n cap buf v = (b, 0).
Proof.
  revert buf v; induction n as [|n IH]; intros buf v H; [done|]. cbn [put_varint_loop write_varint_loop] in *.
  destruct (cap <=? blen buf); [done|]. cbv zeta in *. destruct (Z.shiftr v 7 =? 0); [by simplify_eq|by apply IH].
Qed.

Lemma varint_out_ok cap buf v : in_u64 v -> blen buf + blen (wire_u64_ v) <= cap ->
  varint_out cap buf v = buf ++ wire_u64_ v.
Proof.
  intros Hv Hc. unfold varint_out, write_varint_local. pose proof (put_varint_spec cap buf v Hv) as H.
  unfold emit in H. rewrite (proj2 (Z.leb_le _ _)) in H by done. by rewrite (write_varint_put 10 cap buf v _ H).
Qed.

(** Sizes of the pieces of a response. *)
Ltac sizes :=
  rewrite ?blen_app, ?blen_cons; change (blen (@nil Z)) with 0;
  repeat match goal with
  | |- context [blen (wire_u64_ ?v)] =>
      lazymatch goal with H : 1 <= blen (wire_u64_ v) <= 10 |- _ => fail | _ => pose proof (wire_u64_blen v) end
  end;
  lia.

(** Writes a tag and a number. *)
Ltac write_var :=
  rewrite put_room by sizes; cbn [mbind res_bind];
  rewrite varint_out_ok by (apply u64_range || sizes); rewrite <- app_assoc.

Lemma delim_out_ok cap out tag d : short d -> blen out + blen (delimited tag d) <= cap ->
  delim_out cap out tag d = Ok (out ++ delimited tag d).
Proof.
  intros Hd. unfold delimited. rewrite blen_cons, blen_app. intros Hc. unfold delim_out, short in *.
  pose proof (wire_u64_blen (blen d)). pose proof (blen_nonneg d).
  rewrite put_room by lia. cbn [mbind res_bind].
  rewrite varint_out_ok; [|unfold in_u64; lia|rewrite blen_app, blen_cons; change (blen (@nil Z)) with 0; lia].
  rewrite copy_room by (rewrite !blen_app, blen_cons; change (blen (@nil Z)) with 0; lia). by rewrite <- !app_assoc.
Qed.

Lemma delimited_blen tag d : blen d < blen (delimited tag d) <= blen d + 11.
Proof. unfold delimited. rewrite blen_cons, blen_app. pose proof (wire_u64_blen (blen d)). lia. Qed.

(** A tag and a number. *)
Lemma var_out_ok {A} (k : bytes -> res A) cap buf tag v : in_u64 v -> blen buf + blen (wire (FVar tag v)) <= cap ->
  (b ← put cap buf tag; k (varint_out cap b v)) = k (buf ++ wire (FVar tag v)).
Proof.
  cbn [wire]. rewrite blen_cons. intros Hv Hc. pose proof (wire_u64_blen v).
  rewrite put_room by lia. cbn [mbind res_bind].
  rewrite varint_out_ok; [|done|rewrite blen_app, blen_cons; change (blen (@nil Z)) with 0; lia]. by rewrite <- app_assoc.
Qed.

(** ** Pairs and headers *)

(** The fields of a key-value pair. *)
Definition kv_fields (keys_only : bool) (kv : cetcd_kv) : list field :=
  [FLen 10 (kv_key kv); FVar 16 (u64 (rev_main (kv_create_rev kv))); FVar 24 (u64 (rev_main (kv_mod_rev kv)));
   FVar 32 (u64 (kv_version kv))] ++
  (if negb keys_only && (0 <? blen (kv_value kv)) then [FLen 42 (kv_value kv)] else []) ++
  (if 0 <? kv_lease_id kv then [FVar 48 (u64 (kv_lease_id kv))] else []).

(** The bytes a pair takes beside its key and value. *)
Definition kv_size (kv : cetcd_kv) : Z := 100 + blen (kv_key kv) + blen (kv_value kv).

Lemma wires_nil : wires [] = [].
Proof. done. Qed.

Lemma lease_out_ok cap buf lease : in_i64 lease -> blen buf + 12 <= cap ->
  append_kv_lease_ cap buf lease = Ok (buf ++ wires (if 0 <? lease then [FVar 48 (u64 lease)] else [])).
Proof.
  intros Hl Hc. unfold append_kv_lease_. destruct (Z.ltb_spec 0 lease), (Z.leb_spec lease 0); try lia; cbn [orb].
  - rewrite (proj2 (Z.ltb_ge _ _)) by lia. rewrite (var_out_ok Ok cap buf 48); [by rewrite wires_cons, wires_nil, app_nil_r|apply u64_range|].
    cbn [wire]. rewrite blen_cons. pose proof (wire_u64_blen (u64 lease)). lia.
  - by rewrite wires_nil, app_nil_r.
Qed.

Lemma encode_kv_ok cap keys_only kv : kv_size kv <= cap -> in_i64 (kv_lease_id kv) -> short (kv_key kv) -> short (kv_value kv) ->
  encode_kv cap keys_only kv = Ok (wires (kv_fields keys_only kv)) /\ blen (wires (kv_fields keys_only kv)) <= kv_size kv.
Proof.
  unfold kv_size. intros Hc Hl Hk Hv. pose proof (blen_nonneg (kv_key kv)). pose proof (blen_nonneg (kv_value kv)).
  set (k := delimited 10 (kv_key kv)). set (f2 := wire (FVar 16 (u64 (rev_main (kv_create_rev kv))))).
  set (f3 := wire (FVar 24 (u64 (rev_main (kv_mod_rev kv))))). set (f4 := wire (FVar 32 (u64 (kv_version kv)))).
  set (v := wires (if negb keys_only && (0 <? blen (kv_value kv)) then [FLen 42 (kv_value kv)] else [])).
  set (l := wires (if 0 <? kv_lease_id kv then [FVar 48 (u64 (kv_lease_id kv))] else [])).
  assert (Ew : wires (kv_fields keys_only kv) = k ++ f2 ++ f3 ++ f4 ++ v ++ l).
  { unfold kv_fields. rewrite !wires_app. unfold wires at 1. cbn [map concat]. by rewrite !app_nil_r, <- !app_assoc. }
  assert (B1 : blen k <= blen (kv_key kv) + 11) by apply delimited_blen.
  assert (Bf : forall tag z, 2 <= blen (wire (FVar tag z)) <= 11)
    by (intros; cbn [wire]; rewrite blen_cons; pose proof (wire_u64_blen z); lia).
  pose proof (Bf 16 (u64 (rev_main (kv_create_rev kv)))) as B2. fold f2 in B2.
  pose proof (Bf 24 (u64 (rev_main (kv_mod_rev kv)))) as B3. fold f3 in B3.
  pose proof (Bf 32 (u64 (kv_version kv))) as B4. fold f4 in B4.
  assert (B5 : blen v <= blen (kv_value kv) + 11).
  { unfold v. destruct (negb keys_only && (0 <? blen (kv_value kv))).
    - rewrite wires_cons, wires_nil, app_nil_r. apply delimited_blen.
    - rewrite wires_nil. change (blen (@nil Z)) with 0. lia. }
  assert (B6 : 0 <= blen l <= 11).
  { unfold l. destruct (0 <? kv_lease_id kv); [rewrite wires_cons, wires_nil, app_nil_r; pose proof (Bf 48 (u64 (kv_lease_id kv))); lia|by vm_compute]. }
  split; [|rewrite Ew, !blen_app; lia].
  unfold encode_kv. pose proof (delim_out_ok cap [] 10 (kv_key kv) Hk) as Hd. fold k in Hd. change (blen (@nil Z)) with 0 in Hd.
  specialize (Hd ltac:(lia)). unfold delim_out in Hd. change (0x0a) with 10.
  destruct (put cap [] 10) as [b| | |]; cbn [mbind res_bind] in Hd |- *; [|done..]. rewrite Hd. cbn [mbind res_bind app].
  write_var. change ([0x10] ++ wire_u64_ (u64 (rev_main (kv_create_rev kv)))) with f2.
  write_var. change ([0x18] ++ wire_u64_ (u64 (rev_main (kv_mod_rev kv)))) with f3.
  write_var. change ([0x20] ++ wire_u64_ (u64 (kv_version kv))) with f4.
  assert (Hval : (if negb keys_only && (0 <? blen (kv_value kv)) then
       b0 ← put cap (((k ++ f2) ++ f3) ++ f4) 42; copy_out cap (varint_out cap b0 (blen (kv_value kv))) (kv_value kv)
     else Ok (((k ++ f2) ++ f3) ++ f4)) = Ok ((((k ++ f2) ++ f3) ++ f4) ++ v)).
  { unfold v in *. destruct (negb keys_only && (0 <? blen (kv_value kv))).
    - rewrite wires_cons, wires_nil, app_nil_r in *. cbn [wire] in *.
      apply (delim_out_ok cap (((k ++ f2) ++ f3) ++ f4) 42 (kv_value kv) Hv). rewrite !blen_app. lia.
    - by rewrite wires_nil, app_nil_r. }
  rewrite Hval. cbn [mbind res_bind]. rewrite lease_out_ok by (done || (rewrite !blen_app; lia)). fold l.
  by rewrite Ew, <- !app_assoc.
Qed.

(** The header of a response: the revision, at least 1. *)
Definition header_fields (rev : Z) : list field := [FVar 24 (u64 (if 0 <? rev then rev else 1))].

Lemma revision_header_ok size rev : 16 <= size -> revision_header size rev = Ok (wires (header_fields rev)) /\
  2 <= blen (wires (header_fields rev)) <= 11.
Proof.
  intros Hs. unfold revision_header, header_fields. rewrite wires_cons, wires_nil, app_nil_r. set (v := u64 _).
  pose proof (wire_u64_blen v). cbn [wire]. rewrite blen_cons. split; [|lia].
  rewrite (var_out_ok Ok); [done|apply u64_range|]. cbn [wire]. rewrite blen_cons. change (blen (@nil Z)) with 0. lia.
Qed.

(** ** Responses *)

Lemma wire_loop_len n v k : (0 < k)%nat -> 0 <= v < 2 ^ (7 * Z.of_nat k) -> blen (wire_loop n v) <= Z.of_nat k.
Proof.
  revert v k; induction n as [|n IH]; intros v k Hk Hv; [change (blen (wire_loop 0 v)) with 0; lia|].
  cbn [wire_loop]. cbv zeta. rewrite Z.shiftr_div_pow2 by lia. change (2 ^ 7) with 128.
  destruct (Z.eqb_spec (v / 128) 0) as [|Hz]; rewrite blen_cons; [change (blen (@nil Z)) with 0; lia|].
  destruct k as [|k]; [lia|]. rewrite Nat2Z.inj_succ, Z.mul_succ_r, Z.pow_add_r in Hv by lia. change (2 ^ 7) with 128 in Hv.
  assert (Hq : 0 <= v / 128 < 2 ^ (7 * Z.of_nat k)) by (split; [apply Z.div_pos; lia|apply Z.div_lt_upper_bound; lia]).
  destruct k as [|k]; [cbn in Hq; lia|]. specialize (IH (v / 128) (S k) ltac:(lia) Hq). lia.
Qed.

Lemma wire_u64_len v k : (0 < k)%nat -> 0 <= v < 2 ^ (7 * Z.of_nat k) -> blen (wire_u64_ v) <= Z.of_nat k.
Proof. apply wire_loop_len. Qed.

(** The pairs the buffers of the handlers hold. *)
Definition kv_fits (kv : cetcd_kv) : Prop := kv_size kv <= 1024 /\ in_i64 (kv_lease_id kv).

Lemma kv_fits_encode keys_only kv : kv_fits kv ->
  encode_kv 1024 keys_only kv = Ok (wires (kv_fields keys_only kv)) /\ 0 <= blen (wires (kv_fields keys_only kv)) <= 1024.
Proof.
  intros [Hs Hl]. pose proof (blen_nonneg (kv_key kv)). pose proof (blen_nonneg (kv_value kv)). unfold kv_size in *.
  destruct (encode_kv_ok 1024 keys_only kv) as [-> Hb]; [done|done|unfold short; lia|unfold short; lia|].
  unfold kv_size in Hb. pose proof (blen_nonneg (wires (kv_fields keys_only kv))). split; [done|lia].
Qed.

Lemma delimited_small tag d : blen d <= 1024 -> blen (delimited tag d) <= 3 + blen d.
Proof.
  intros H. pose proof (blen_nonneg d). unfold delimited. rewrite blen_cons, blen_app.
  pose proof (wire_u64_len (blen d) 2 ltac:(lia) ltac:(cbn; lia)). lia.
Qed.

Definition row_fields (tag : Z) (keys_only : bool) (kvs : list cetcd_kv) : list field :=
  map (fun kv => FMsg tag (kv_fields keys_only kv)) kvs.

Lemma row_fields_cons tag keys_only kv kvs :
  wires (row_fields tag keys_only (kv :: kvs)) = delimited tag (wires (kv_fields keys_only kv)) ++ wires (row_fields tag keys_only kvs).
Proof. done. Qed.

Lemma range_pairs_ok keys_only kvs : Forall kv_fits kvs -> forall cap out, blen out <= cap ->
  exists cap', range_pairs keys_only cap out kvs = Ok (cap', out ++ wires (row_fields 18 keys_only kvs)) /\
    cap <= cap' /\ blen (out ++ wires (row_fields 18 keys_only kvs)) <= cap'.
Proof.
  induction 1 as [|kv kvs Hkv _ IH]; intros cap out Hc.
  - exists cap. cbn [range_pairs row_fields map]. rewrite wires_nil, app_nil_r. split_and!; [done|lia|done].
  - cbn [range_pairs]. destruct (kv_fits_encode keys_only kv Hkv) as [-> Hb]. cbn [mbind res_bind]. set (b := wires (kv_fields keys_only kv)) in *.
    pose proof (delimited_small 18 b ltac:(lia)). pose proof (blen_nonneg out). set (cap1 := grow cap out _ _).
    assert (Hg : cap <= cap1 /\ blen out + 6 + blen b <= cap1)
      by (unfold cap1, grow; destruct (Z.ltb_spec cap (blen out + (6 + blen b))); lia).
    rewrite delim_out_ok by (unfold short; lia). cbn [mbind res_bind].
    destruct (IH cap1 (out ++ delimited 18 b)) as (cap' & -> & H1 & H2); [rewrite blen_app; lia|].
    exists cap'. rewrite row_fields_cons. fold b. rewrite app_assoc. split_and!; [done|lia|done].
Qed.

Lemma pairs_out_ok tag keys_only kvs : Forall kv_fits kvs -> forall cap out, blen out <= cap ->
  pairs_out tag keys_only cap out kvs = Ok (out ++ wires (row_fields tag keys_only kvs)).
Proof.
  induction 1 as [|kv kvs Hkv _ IH]; intros cap out Hc.
  - cbn [pairs_out row_fields map]. by rewrite wires_nil, app_nil_r.
  - cbn [pairs_out]. destruct (kv_fits_encode keys_only kv Hkv) as [-> Hb]. cbn [mbind res_bind]. set (b := wires (kv_fields keys_only kv)) in *.
    pose proof (delimited_small tag b ltac:(lia)). pose proof (blen_nonneg out). cbv zeta. set (cap1 := if cap <? _ then _ else cap).
    assert (Hg : blen out + 6 + blen b <= cap1) by (unfold cap1; destruct (Z.ltb_spec cap (blen out + 6 + blen b)); lia).
    rewrite delim_out_ok by (unfold short; lia). cbn [mbind res_bind].
    rewrite IH by (rewrite blen_app; lia). rewrite row_fields_cons. fold b. by rewrite app_assoc.
Qed.

Lemma pair_out_ok tag keys_only kv : kv_fits kv -> pair_out tag keys_only kv = Ok (wires (row_fields tag keys_only [kv])).
Proof.
  intros Hkv. unfold pair_out. destruct (kv_fits_encode keys_only kv Hkv) as [-> Hb]. cbn [mbind res_bind].
  pose proof (delimited_small tag (wires (kv_fields keys_only kv)) ltac:(lia)).
  rewrite delim_out_ok by (unfold short; change (blen (@nil Z)) with 0; lia).
  rewrite row_fields_cons. change (wires (row_fields tag keys_only [])) with (@nil Z). by rewrite app_nil_r.
Qed.

Lemma header_delim cap out rev : blen out + 13 <= cap ->
  delim_out cap out 10 (wires (header_fields rev)) = Ok (out ++ wires [FMsg 10 (header_fields rev)]).
Proof.
  intros Hc. destruct (revision_header_ok 16 rev ltac:(lia)) as [_ Hb].
  pose proof (wire_u64_len (blen (wires (header_fields rev))) 1 ltac:(lia) ltac:(change (2 ^ (7 * Z.of_nat 1)) with 128; lia)) as Hl.
  rewrite delim_out_ok; [rewrite wires_cons, wires_nil, app_nil_r; done|unfold short; lia|].
  unfold delimited. rewrite blen_cons, blen_app. change (Z.of_nat 1) with 1 in Hl. lia.
Qed.

Lemma header_in_front_ok cap body rev : blen body + 2 + blen (wires (header_fields rev)) <= cap ->
  header_in_front cap ([0; 0] ++ body) rev = Ok (wires [FMsg 10 (header_fields rev)] ++ body).
Proof.
  intros Hc. unfold header_in_front. destruct (revision_header_ok 32 rev ltac:(lia)) as [-> Hb]. cbn [mbind res_bind].
  pose proof (blen_nonneg body). rewrite blen_app, !blen_cons. change (blen (@nil Z)) with 0.
  destruct (Z.ltb_spec cap (1 + (1 + 0) + blen body - 2 + (2 + blen (wires (header_fields rev))))); [lia|].
  set (h := wires (header_fields rev)) in *. assert (Hw : wire_u64_ (blen h) = [blen h]) by (apply wire_u64_small; lia).
  rewrite varint_out_ok; [|unfold in_u64; lia|rewrite Hw, !blen_cons; change (blen (@nil Z)) with 0; lia].
  rewrite Hw. rewrite wires_cons, wires_nil, app_nil_r. cbn [wire]. unfold delimited. change (concat (map wire (header_fields rev))) with h.
  rewrite Hw. by rewrite <- !app_assoc.
Qed.

Lemma put_response_ok rev pkv : short pkv ->
  put_response rev pkv = Ok (wires [FMsg 10 (header_fields rev)] ++ (if 0 <? blen pkv then delimited 18 pkv else [])).
Proof.
  intros Hp. unfold put_response. destruct (revision_header_ok 32 rev ltac:(lia)) as [-> Hb]. cbn [mbind res_bind]. cbv zeta.
  set (cap := 64 + _ + _). pose proof (blen_nonneg pkv). pose proof (delimited_blen 18 pkv).
  assert (Hcap : 64 + blen (wires (header_fields rev)) + (if 0 <? blen pkv then 10 + blen pkv else 0) <= cap) by (unfold cap; lia).
  change 0x0a with 10. rewrite header_delim by (change (blen (@nil Z)) with 0; destruct (0 <? blen pkv); lia). cbn [mbind res_bind app].
  destruct (0 <? blen pkv); [|by rewrite app_nil_r]. apply delim_out_ok; [done|].
  rewrite wires_cons, wires_nil, app_nil_r. cbn [wire]. pose proof (delimited_small 10 (wires (header_fields rev)) ltac:(lia)) as Hd.
  change (concat (map wire (header_fields rev))) with (wires (header_fields rev)). lia.
Qed.
