(* ===== verification/KvProps.v ===== *)
(** * Key-value requests: what the handlers do

    Put, Range and DeleteRange from the bytes of a request to the bytes of the
    response, over the store, the leases and the users. *)

From S2P Require Import Slice Hash KeyOrder Treap Hashmap Raft RaftWire Wal Backend Mvcc MvccSnap MvccStore Lease LeaseProps LeaseRestart CString Auth AuthProps Cluster ClusterProps ApplyCodec Alarm Pb PbProps PbSafe PbRequests PbResponses PbCodec Apply ApplyCmd ApplyInv Kv KvCodec Prelude.

#[local] Open Scope Z_scope.

(** ** Sorting *)

Section sorting.
  Context (cmp : cetcd_kv -> cetcd_kv -> Z).
  Hypothesis cmp_total : forall a b, 0 < cmp a b -> cmp b a <= 0.
  Hypothesis cmp_trans : forall a b c, cmp a b <= 0 -> cmp b c <= 0 -> cmp a c <= 0.

Lemma shift_in_perm tmp sorted : shift_in cmp tmp sorted ≡ₚ tmp :: sorted.
Proof using Type.
  induction sorted as [|kv l IH]; cbn [shift_in]; [done|]. destruct (_ <=? 0); [done|]. rewrite IH. apply perm_swap.
Qed.

(** From the right end on the elements do not increase. *)
Lemma shift_in_sorted tmp sorted : StronglySorted (fun a b => cmp b a <= 0) sorted ->
  StronglySorted (fun a b => cmp b a <= 0) (shift_in cmp tmp sorted).
Proof using cmp_total cmp_trans.
  induction 1 as [|kv l Hs IH Hf]; cbn [shift_in]; [repeat constructor|]. destruct (Z.leb_spec (cmp kv tmp) 0).
  - constructor; [by constructor|]. constructor; [done|]. eapply Forall_impl; [exact Hf|]. cbn. intros x Hx. by apply (cmp_trans _ kv).
  - constructor; [done|]. rewrite shift_in_perm. constructor; [by apply cmp_total|done].
Qed.

Lemma insertion_sort_perm kvs : insertion_sort cmp kvs ≡ₚ kvs.
Proof using Type.
  unfold insertion_sort. rewrite reverse_Permutation.
  assert (H : forall acc, foldl (fun sorted tmp => shift_in cmp tmp sorted) acc kvs ≡ₚ kvs ++ acc).
  { induction kvs as [|kv kvs IH]; intros acc; cbn [foldl app]; [done|]. rewrite IH, shift_in_perm. by rewrite Permutation_middle. }
  by rewrite H, app_nil_r.
Qed.

Lemma sorted_weaken {A} (R R' : A -> A -> Prop) l : (forall a b, R a b -> R' a b) -> StronglySorted R l -> StronglySorted R' l.
Proof using Type. intros Hi. induction 1 as [|x l Hs IH Hf]; constructor; [done|]. by eapply Forall_impl; [exact Hf|apply Hi]. Qed.

Lemma insertion_sort_sorted kvs : StronglySorted (fun a b => cmp a b <= 0) (insertion_sort cmp kvs).
Proof using cmp_total cmp_trans.
  unfold insertion_sort. apply sorted_reverse.
  assert (H : forall acc, StronglySorted (fun a b => cmp b a <= 0) acc ->
    StronglySorted (fun a b => cmp b a <= 0) (foldl (fun sorted tmp => shift_in cmp tmp sorted) acc kvs)).
  { induction kvs as [|kv kvs IH]; intros acc Hacc; cbn [foldl]; [done|]. apply IH. by apply shift_in_sorted. }
  apply H. constructor.
Qed.
End sorting.

(** The order a sort target names. *)
Definition target_compare (target : Z) (a b : cetcd_kv) : comparison :=
  if target =? 0 then lex (kv_key a) (kv_key b)
  else if target =? 1 then kv_version a ?= kv_version b
  else if target =? 2 then rev_main (kv_create_rev a) ?= rev_main (kv_create_rev b)
  else if target =? 3 then rev_main (kv_mod_rev a) ?= rev_main (kv_mod_rev b)
  else if target =? 4 then lex (kv_value a) (kv_value b)
  else Eq.

(** [order] 1 is ascending, 2 descending. *)
Definition in_order (order target : Z) (a b : cetcd_kv) : Prop :=
  target_compare target a b <> if order =? 2 then Lt else Gt.

Lemma bytes_cmp_lex a b : bytes_cmp a b = cmp_sign (lex a b).
Proof.
  pose proof (range_kv_key_cmp_lex (mk_kv a [] zero_rev zero_rev 0 0) (mk_kv b [] zero_rev zero_rev 0 0)) as H.
  cbn [kv_key] in H. rewrite <- H. unfold bytes_cmp, range_kv_key_cmp_. cbn [kv_key]. cbv zeta.
  pose proof (blen_nonneg a). pose proof (blen_nonneg b).
  assert (E : (if blen a <? blen b then blen a else blen b) = Z.min (blen a) (blen b)) by (destruct (Z.ltb_spec (blen a) (blen b)); lia).
  rewrite E. destruct (Z.ltb_spec 0 (Z.min (blen a) (blen b))).
  - by destruct (memcmp _ a b =? 0).
  - replace (Z.min (blen a) (blen b)) with 0 by lia. done.
Qed.

Lemma num_cmp_sign a b : num_cmp a b = cmp_sign (a ?= b).
Proof. unfold num_cmp. destruct (Z.compare_spec a b), (Z.ltb_spec a b), (Z.ltb_spec b a); try lia; done. Qed.

Lemma range_sort_cmp_sign target a b : range_sort_cmp target a b = cmp_sign (target_compare target a b).
Proof.
  unfold range_sort_cmp, target_compare. rewrite !bytes_cmp_lex, !num_cmp_sign.
  repeat (destruct (_ =? _); [done|]). done.
Qed.

Lemma target_antisym target a b : target_compare target b a = CompOpp (target_compare target a b).
Proof.
  unfold target_compare. destruct (target =? 0); [apply lex_antisym|]. destruct (target =? 1); [apply Z.compare_antisym|].
  destruct (target =? 2); [apply Z.compare_antisym|]. destruct (target =? 3); [apply Z.compare_antisym|].
  destruct (target =? 4); [apply lex_antisym|]. done.
Qed.

Lemma lex_le_trans a b c : lex a b <> Gt -> lex b c <> Gt -> lex a c <> Gt.
Proof.
  intros H1 H2. destruct (lex a b) eqn:E1; [apply lex_eq in E1 as ->; done| |done].
  destruct (lex b c) eqn:E2; [apply lex_eq in E2 as <-; by rewrite E1| |done]. by rewrite (lex_trans a b c).
Qed.

Lemma target_trans target a b c : target_compare target a b <> Gt -> target_compare target b c <> Gt -> target_compare target a c <> Gt.
Proof.
  unfold target_compare. repeat (destruct (_ =? _); [first [apply lex_le_trans | rewrite !Z.compare_gt_iff; lia]|]). done.
Qed.

(** The comparison of the sort, direction included. *)
Lemma order_cmp order target a b :
  (let c := range_sort_cmp target a b in if order =? 2 then - c else c) <= 0 <-> in_order order target a b.
Proof.
  unfold in_order. cbv zeta. rewrite range_sort_cmp_sign. destruct (order =? 2), (target_compare target a b); cbn; split; (done || lia).
Qed.

Lemma sort_rows_spec order target kvs : sort_rows order target kvs ≡ₚ kvs /\
  (0 < order -> StronglySorted (in_order order target) (sort_rows order target kvs)).
Proof.
  unfold sort_rows. set (cmp := fun a b => _). destruct (0 <? order) eqn:Eo; cbn [andb]; [|split; [done|lia]].
  destruct (Z.ltb_spec 1 (blen kvs)) as [|Hs].
  - split; [apply insertion_sort_perm|]. intros _. eapply sorted_weaken; [|apply (insertion_sort_sorted cmp)].
    + intros a b Hab. by apply order_cmp.
    + intros a b Hab. apply order_cmp. unfold cmp in Hab. cbv zeta in Hab. rewrite range_sort_cmp_sign in Hab. unfold in_order.
      rewrite target_antisym. destruct (order =? 2), (target_compare target a b); cbn in *; (done || lia).
    + intros a b c H1%order_cmp H2%order_cmp. apply order_cmp. unfold in_order in *. destruct (order =? 2); [|by apply (target_trans _ a b c)].
      pose proof (target_antisym target a b). pose proof (target_antisym target b c). pose proof (target_antisym target a c).
      pose proof (target_trans target c b a). destruct (target_compare target a b), (target_compare target b c), (target_compare target a c); cbn in *; naive_solver congruence.
  - split; [done|]. intros _. destruct kvs as [|kv [|]]; [constructor|repeat constructor|].
    rewrite !blen_cons in Hs. pose proof (blen_nonneg l). lia.
Qed.

(** ** Range *)

Section handlers.
  Context {T : Type -> Type} {E Tx : Type} `{!KeyIndex T, !KeyIndexLaws T, !Lmdb E Tx, !LmdbLaws E Tx, !Clock, !AuthLibs}.
  Context (backend_size : E -> Z) (flush : world T E -> option (world T E)) (user : option bytes).
  Local Notation world := (world T E).

(** What a range request asks for: the rows to return, whether there are more,
    and how many rows match; [None] below the compacted revision. *)
Definition range_answer (w : world) (r : cetcd_range_request) : option (list cetcd_kv * bool * Z) :=
  if blen (rr_range_end r) =? 0 then
    match cetcd_mvcc_get (w_store w) (rr_rev r) (rr_key r) with
    | (CETCD_ERR_RANGE, _) => None
    | (CETCD_OK, Some kv) => Some (if rr_count_only r then [] else [kv], false, 1)
    | _ => Some ([], false, 0)
    end
  else
    match cetcd_mvcc_range (w_store w) (rr_rev r) (rr_key r) (rr_range_end r) with
    | (CETCD_ERR_RANGE, _) => None
    | (_, kvs) =>
        let kvs := sort_rows (range_sort_apply_defaults_ (rr_sort_order r) (rr_sort_target r)) (rr_sort_target r) (filter_rows r kvs) in
        let more := (0 <? rr_limit r) && (rr_limit r <? blen kvs) in
        Some (if rr_count_only r then [] else if more then take (Z.to_nat (rr_limit r)) kvs else kvs, more, blen kvs)
    end.

(** The response to an answer. *)
Definition range_fields (rev : Z) (keys_only : bool) (a : list cetcd_kv * bool * Z) : list field :=
  let '(kvs, more, count) := a in
  [FMsg 10 (header_fields rev)] ++ row_fields 18 keys_only kvs ++ (if more then [FVar 24 1] else []) ++ [FVar 32 count].

(** Requests the handler answers. *)
Definition range_admitted (w : world) (r : cetcd_range_request) : bool :=
  (0 <? blen (rr_key r)) && (cetcd_v3rpc_check_key_perm user w false (Some (rr_key r)) =? 0) &&
  range_sort_options_valid_ (rr_sort_order r) (rr_sort_target r) && cetcd_v3rpc_linearizable_ok w (rr_serializable r).

(** The count and the header behind a body that fits. *)
Lemma range_finish_ok cap body count rev : blen body + 2 <= cap -> 0 <= count < 268435456 -> rev < 268435456 ->
  (let cap := grow cap ([0; 0] ++ body) 10 (blen ([0; 0] ++ body) + 16) in
   out ← put cap ([0; 0] ++ body) 0x20; header_in_front cap (varint_out cap out count) rev) =
  Ok (wires [FMsg 10 (header_fields rev)] ++ body ++ wires [FVar 32 count]).
Proof using Type.
  intros Hc Hn Hr. cbv zeta. set (cap1 := grow _ _ _ _). pose proof (blen_nonneg body).
  assert (Hl : blen ([0; 0] ++ body) = blen body + 2) by (rewrite blen_app, !blen_cons; change (blen (@nil Z)) with 0; lia).
  assert (Hg : blen body + 12 <= cap1)
    by (unfold cap1, grow; rewrite Hl; destruct (Z.ltb_spec cap (blen body + 2 + 10)); lia).
  clearbody cap1. pose proof (wire_u64_len count 4 ltac:(lia) ltac:(cbn; lia)) as Bc. change (Z.of_nat 4) with 4 in Bc.
  pose proof (wire_u64_blen count). rewrite put_room by lia. cbn [mbind res_bind].
  rewrite varint_out_ok; [|unfold in_u64; lia|rewrite blen_app, Hl, blen_cons; change (blen (@nil Z)) with 0; lia].
  assert (Hh : blen (wires (header_fields rev)) <= 5).
  { unfold header_fields. rewrite wires_cons, wires_nil, app_nil_r. cbn [wire]. rewrite blen_cons.
    pose proof (wire_u64_len (u64 (if 0 <? rev then rev else 1)) 4 ltac:(lia)) as Bh. change (Z.of_nat 4) with 4 in Bh.
    rewrite u64_small in Bh |- * by (unfold in_u64; destruct (Z.ltb_spec 0 rev); lia).
    specialize (Bh ltac:(change (2 ^ (7 * 4)) with 268435456; destruct (Z.ltb_spec 0 rev); lia)). lia. }
  rewrite (wires_cons (FVar 32 count)), wires_nil, app_nil_r.
  rewrite <- !app_assoc. rewrite header_in_front_ok; [done|]. rewrite !blen_app, blen_cons. change (blen (@nil Z)) with 0. lia.
Qed.

(** Rows, cut to the limit, behind the two reserved bytes, with the flag. *)
Lemma range_shown_ok keys_only count_only limit (kvs : list cetcd_kv) :
  let more := (0 <? limit) && (limit <? blen kvs) in
  let shown := if count_only : bool then [] else if more then take (Z.to_nat limit) kvs else kvs in
  let body := wires (row_fields 18 keys_only shown ++ (if more then [FVar 24 1] else [])) in
  Forall kv_fits shown ->
  exists cap,
    ('(cap, out) ← (if count_only then Ok (4096, [0; 0])
                    else range_pairs keys_only 4096 [0; 0] (if 0 <? limit then take (Z.to_nat (Z.min limit (blen kvs))) kvs else kvs));
     if more then
       let cap := grow cap out 10 (blen out + 16) in
       out ← put cap out 0x18; out ← put cap out 0x01; Ok (Some (cap, out, blen kvs))
     else Ok (Some (cap, out, blen kvs))) = Ok (Some (cap, [0; 0] ++ body, blen kvs)) /\ blen body + 2 <= cap.
Proof using Type.
  cbv zeta. set (more := _ && _). set (shown := if count_only then _ else _). intros Hf.
  assert (Hpairs : exists cap, (if count_only then Ok (4096, [0; 0])
      else range_pairs keys_only 4096 [0; 0] (if 0 <? limit then take (Z.to_nat (Z.min limit (blen kvs))) kvs else kvs)) =
      Ok (cap, [0; 0] ++ wires (row_fields 18 keys_only shown)) /\ blen ([0; 0] ++ wires (row_fields 18 keys_only shown)) <= cap).
  { assert (Hs : count_only = false -> (if 0 <? limit then take (Z.to_nat (Z.min limit (blen kvs))) kvs else kvs) = shown).
    { intros Hco. unfold shown, more. rewrite Hco. destruct (Z.ltb_spec 0 limit); [|done]. cbn [andb].
      destruct (Z.ltb_spec limit (blen kvs)); [by rewrite Z.min_l by lia|]. rewrite Z.min_r by lia. apply take_ge. unfold blen. lia. }
    destruct count_only; [exists 4096; by vm_compute|]. rewrite (Hs eq_refl).
    destruct (range_pairs_ok keys_only shown Hf 4096 [0; 0] ltac:(by vm_compute)) as (cap & -> & _ & Hb). by exists cap. }
  destruct Hpairs as (cap & -> & Hb). cbn [mbind res_bind]. rewrite blen_app, !blen_cons in Hb. change (blen (@nil Z)) with 0 in Hb.
  set (rows := wires (row_fields 18 keys_only shown)) in *. rewrite wires_app. fold rows. pose proof (blen_nonneg rows).
  destruct more; [|exists cap; rewrite wires_nil, app_nil_r; split; [done|lia]].
  assert (Hl : blen ([0; 0] ++ rows) = blen rows + 2) by (rewrite blen_app, !blen_cons; change (blen (@nil Z)) with 0; lia).
  set (cap1 := grow _ _ _ _). assert (Hg : blen rows + 12 <= cap1)
    by (unfold cap1, grow; rewrite Hl; destruct (Z.ltb_spec cap (blen rows + 2 + 10)); lia).
  rewrite put_room by lia. cbn [mbind res_bind]. rewrite put_room by (rewrite blen_app, Hl, blen_cons; change (blen (@nil Z)) with 0; lia).
  cbn [mbind res_bind]. exists cap1. change (wires [FVar 24 1]) with [24; 1]. rewrite <- !app_assoc. split; [done|].
  rewrite blen_app, !blen_cons. change (blen (@nil Z)) with 0. lia.
Qed.

Definition range_body (w : world) (r : cetcd_range_request) : res (option (Z * bytes * Z)) :=
  if blen (rr_range_end r) =? 0 then range_point w r
  else range_rows w r (range_sort_apply_defaults_ (rr_sort_order r) (rr_sort_target r)).

Lemma range_body_ok (w : world) r : Forall kv_fits (match range_answer w r with Some (kvs, _, _) => kvs | None => [] end) ->
  match range_answer w r with
  | None => range_body w r = Ok None
  | Some (kvs, more, count) =>
      let body := wires (row_fields 18 (rr_keys_only r) kvs ++ (if more then [FVar 24 1] else [])) in
      exists cap, range_body w r = Ok (Some (cap, [0; 0] ++ body, count)) /\ blen body + 2 <= cap
  end.
Proof using Type.
  unfold range_answer, range_body. destruct (blen (rr_range_end r) =? 0).
  - unfold range_point. assert (Hempty : forall count : Z, exists cap : Z, Ok (Some (4096, [0; 0], count)) =
      Ok (Some (cap, [0; 0] ++ wires (row_fields 18 (rr_keys_only r) [] ++ []), count)) /\
      blen (wires (row_fields 18 (rr_keys_only r) [] ++ [])) + 2 <= cap) by (intros; exists 4096; by vm_compute).
    destruct (cetcd_mvcc_get _ _ _) as [rc [kv|]]; [|destruct rc; intros _; (done || apply Hempty)].
    destruct rc; try (intros _; (done || apply Hempty)). destruct (rr_count_only r); intros Hf; [apply Hempty|].
    apply Forall_cons in Hf as [Hkv _]. destruct (kv_fits_encode (rr_keys_only r) kv Hkv) as [-> Hb]. cbn [mbind res_bind]. cbv zeta.
    set (b := wires (kv_fields (rr_keys_only r) kv)) in *. pose proof (delimited_small 18 b ltac:(lia)) as Hd.
    set (cap := grow _ _ _ _).
    assert (Hcap : 2 + (6 + blen b) <= cap).
    { unfold cap, grow. change (blen [0; 0]) with 2. destruct (Z.ltb_spec 4096 (2 + (6 + blen b))); lia. }
    change 0x12 with 18. rewrite delim_out_ok by (unfold short; change (blen [0; 0]) with 2; lia). cbn [mbind res_bind].
    exists cap. rewrite wires_app, row_fields_cons. fold b. change (wires (row_fields 18 (rr_keys_only r) [])) with (@nil Z).
    rewrite wires_nil, !app_nil_r. split; [done|lia].
  - unfold range_rows. destruct (cetcd_mvcc_range _ _ _ _) as [rc kvs0].
    pose proof (range_shown_ok (rr_keys_only r) (rr_count_only r) (rr_limit r)
      (sort_rows (range_sort_apply_defaults_ (rr_sort_order r) (rr_sort_target r)) (rr_sort_target r) (filter_rows r kvs0))) as Hs.
    destruct rc; (done || exact Hs).
Qed.

(** The bytes of the answer to a range request. *)
Lemma range_bytes (w : world) (req : bytes) (r : cetcd_range_request) :
  parse_range_request_ req (blen req) = Ok (Some r) ->
  store_revision w < 268435456 ->
  match range_answer w r with Some (kvs, _, count) => Forall kv_fits kvs /\ count < 268435456 | None => True end ->
  kv_handle_range user w req =
    Ok (if range_admitted w r
        then (fun a => wires (range_fields (store_revision w) (rr_keys_only r) a)) <$> range_answer w r
        else None).
Proof using Type.
  intros Hp Hrev Ha. unfold kv_handle_range. rewrite Hp. cbn [mbind res_bind]. unfold range_admitted.
  pose proof (blen_nonneg (rr_key r)). destruct (Z.eqb_spec (blen (rr_key r)) 0), (Z.ltb_spec 0 (blen (rr_key r))); try lia; [done|]. cbn [andb].
  destruct (_ =? 0); cbn [negb andb]; [|done]. destruct (range_sort_options_valid_ _ _); cbn [negb andb]; [|done].
  destruct (cetcd_v3rpc_linearizable_ok _ _); cbn [negb]; [|done]. cbv zeta. fold (range_body w r).
  pose proof (range_body_ok w r) as Hb. destruct (range_answer w r) as [[[kvs more] count]|] eqn:Ea; cbn [fmap option_fmap option_map].
  - destruct Ha as [Hf Hc]. destruct (Hb Hf) as (cap & -> & Hcap). cbn [mbind res_bind].
    assert (Hcount : 0 <= count).
    { revert Ea. unfold range_answer. repeat case_match; intros; simplify_eq; try lia; apply blen_nonneg. }
    pose proof (range_finish_ok cap _ count (store_revision w) Hcap ltac:(lia) Hrev) as Hx. cbv zeta in Hx.
    destruct (put _ _ 0x20); cbn [mbind res_bind] in Hx |- *; [|done..]. rewrite Hx. cbn [mbind res_bind].
    unfold range_fields. by rewrite !wires_app, <- !app_assoc.
  - specialize (Hb (List.Forall_nil _)). rewrite Hb. done.
Qed.

(** The rows of a range. *)
Lemma rows_in_order (w : world) (r : cetcd_range_request) (kvs0 : list cetcd_kv) :
  rr_range_end r <> [] -> cetcd_mvcc_range (w_store w) (rr_rev r) (rr_key r) (rr_range_end r) = (CETCD_OK, kvs0) ->
  exists all, all ≡ₚ List.filter (keep_row r) kvs0 /\
    (0 < rr_sort_order r \/ rr_sort_order r = 0 /\ rr_sort_target r <> 0 -> StronglySorted (in_order (rr_sort_order r) (rr_sort_target r)) all) /\
    range_answer w r =
      Some (if rr_count_only r then [] else if 0 <? rr_limit r then take (Z.to_nat (rr_limit r)) all else all,
            (0 <? rr_limit r) && (rr_limit r <? blen all), blen all).
Proof using Type.
  intros He Hr. set (order := range_sort_apply_defaults_ (rr_sort_order r) (rr_sort_target r)).
  destruct (sort_rows_spec order (rr_sort_target r) (filter_rows r kvs0)) as [Hperm Hsort].
  exists (sort_rows order (rr_sort_target r) (filter_rows r kvs0)). split_and!.
  - rewrite Hperm. unfold filter_rows. destruct (0 <? blen kvs0) eqn:En; cbn [andb].
    + destruct (_ || _) eqn:Ef; [done|]. apply orb_false_iff in Ef as [[[E1 E2]%orb_false_iff E3]%orb_false_iff E4].
      assert (Hid : List.filter (keep_row r) kvs0 = kvs0); [|by rewrite Hid].
      clear -E1 E2 E3 E4. induction kvs0 as [|kv l IH]; [done|]. cbn [List.filter]. unfold keep_row at 1. rewrite E1, E2, E3, E4. cbn [andb negb]. by rewrite IH.
    + destruct kvs0; [done|]. rewrite blen_cons in En. pose proof (blen_nonneg kvs0). lia.
  - intros Ho. assert (Hpos : 0 < order /\ (order =? 2) = (rr_sort_order r =? 2)).
    { unfold order, range_sort_apply_defaults_. destruct (Z.eqb_spec (rr_sort_order r) 0) as [E0|], (Z.eqb_spec (rr_sort_target r) 0);
        cbn [andb negb]; try rewrite E0; (split; [lia|done]) || lia. }
    destruct Hpos as [Hpos E2]. unfold in_order. rewrite <- E2. by apply Hsort.
  - unfold range_answer. destruct (Z.eqb_spec (blen (rr_range_end r)) 0) as [E0|]; [destruct (rr_range_end r); [done|]; rewrite blen_cons in E0;
      pose proof (blen_nonneg l); lia|]. rewrite Hr. fold order. cbv zeta. set (all := sort_rows _ _ _). do 3 f_equal.
    destruct (rr_count_only r); [done|]. destruct (Z.ltb_spec 0 (rr_limit r)); [|done]. cbn [andb].
    destruct (Z.ltb_spec (rr_limit r) (blen all)); [done|]. symmetry. apply take_ge. unfold blen in *. lia.
Qed.

(** C30: A range request is answered exactly when its key is given and readable,
    the sort options are valid and the node may serve the read; the response is
    then the header with the store's revision, the selected rows as key-value
    pairs, the flag more and the count, for pairs up to 1024 bytes and counts
    and revisions below 2^28; a read below the compacted revision has no
    response.  The selected rows of a range are every row of the store in it
    that passes the filters, once, in the order the request asks for; a limit
    keeps the first rows of that order, the flag more tells whether rows are
    left, and the count is the number of rows before the limit. *)
Theorem kv_range_spec (w : world) (req : bytes) (r : cetcd_range_request) :
  parse_range_request_ req (blen req) = Ok (Some r) ->
  store_revision w < 268435456 ->
  match range_answer w r with Some (kvs, _, count) => Forall kv_fits kvs /\ count < 268435456 | None => True end ->
  kv_handle_range user w req =
    Ok (if range_admitted w r
        then (fun a => wires (range_fields (store_revision w) (rr_keys_only r) a)) <$> range_answer w r
        else None) /\
  forall kvs0, rr_range_end r <> [] ->
    cetcd_mvcc_range (w_store w) (rr_rev r) (rr_key r) (rr_range_end r) = (CETCD_OK, kvs0) ->
    exists all, all ≡ₚ List.filter (keep_row r) kvs0 /\
      (0 < rr_sort_order r \/ rr_sort_order r = 0 /\ rr_sort_target r <> 0 -> StronglySorted (in_order (rr_sort_order r) (rr_sort_target r)) all) /\
      range_answer w r =
        Some (if rr_count_only r then [] else if 0 <? rr_limit r then take (Z.to_nat (rr_limit r)) all else all,
              (0 <? rr_limit r) && (rr_limit r <? blen all), blen all).
Proof using Type. intros Hp Hrev Ha. split; [by apply range_bytes|]. intros kvs0. apply rows_in_order. Qed.

(** ** Put *)

(** Without raft a proposal runs its command at once. *)
Lemma propose_command (w : world) c : w_raft w = None -> (forall d, over_quota backend_size w d = false) -> command_fits c ->
  propose backend_size flush w (encode_command c) =
    match run_command w c with Some (w', rc) => Ok (w', if rc =? 0 then 1 else -1) | None => Undef end.
Proof using Type.
  intros Hr Hq Hc. destruct (command_applies (apply_entry_inner_ (fun w _ => ret w (-1))) w c Hc) as (d & -> & _ & Hne & _ & Ha).
  unfold propose, cetcd_v3rpc_propose_or_apply. destruct (Z.eqb_spec (blen d) 0) as [E0|_].
  { destruct d; [done|]. rewrite blen_cons in E0. pose proof (blen_nonneg d). lia. }
  rewrite Hq. unfold propose_entry. rewrite Hr. unfold cetcd_v3rpc_apply_entry. rewrite Ha.
  by destruct (run_command w c) as [[w' rc]|].
Qed.

Lemma present_kv_current (w : world) key : store_ok (w_store w) -> present_kv w key = current (w_store w) !! key.
Proof using Type*. intros Hs. unfold present_kv. rewrite get_current by apply Hs. by destruct (current (w_store w) !! key). Qed.

Lemma lease_after_put_frame (w : world) key old l : lease_ok (w_mgr w) ->
  w_store (lease_after_put_ w key old l) = w_store w /\ w_auth (lease_after_put_ w key old l) = w_auth w /\
  w_raft (lease_after_put_ w key old l) = w_raft w.
Proof using Type*.
  intros Hm. unfold lease_after_put_. set (w1 := if _ && _ then _ else w).
  assert (H1 : lease_ok (w_mgr w1) /\ w_store w1 = w_store w /\ w_auth w1 = w_auth w /\ w_raft w1 = w_raft w).
  { unfold w1. destruct (_ && _); [|done]. destruct (detach_world w old key Hm) as (? & _ & ? & [? ? ?]). done. }
  destruct H1 as (Hm1 & S1 & A1 & R1). destruct (0 <? l); [|done].
  destruct (attach_world w1 l key Hm1) as (_ & _ & S2 & [A2 R2 _]). by rewrite S2, A2, R2.
Qed.

(** Executing a put either fails and changes no row or writes the row. *)
Lemma apply_put_facts (w : world) key val l : world_ok w -> key <> [] ->
  let '(w', rc) := apply_put_ w key val l in
  w_auth w' = w_auth w /\ w_raft w' = w_raft w /\ store_ok (w_store w') /\
  (rc <> 0 /\ current (w_store w') = current (w_store w) \/
   rc = 0 /\ store_revision w' = store_revision w + 1 /\
   current (w_store w') = <[key := put_row (w_store w) key val l]> (current (w_store w))).
Proof using Type*.
  intros Hw Hk. unfold apply_put_. destruct (Z.eqb_spec (blen key) 0) as [E0|_].
  { destruct key; [done|]. rewrite blen_cons in E0. pose proof (blen_nonneg key). lia. }
  destruct (on_store_frame w (fun s => cetcd_mvcc_put s key val l)) as (F1 & F2 & F3 & F4 & F5 & _).
  set (s0 := (w_store w) <| s_env := w_env w |>) in *. assert (Hs0 : store_ok s0) by (apply store_env_ok, Hw).
  pose proof (put_cases s0 key val l Hs0) as Hc. destruct (on_store w _) as [w1 r]. cbn [fst snd] in *.
  destruct (cetcd_mvcc_put s0 key val l) as [s' r']. cbn [fst snd] in *. subst s' r'.
  destruct Hc as [[-> Hu]|(-> & (_ & Hmain & _ & _ & _ & _ & Ecur & _) & Hs')]; cbn [rev_main zero_rev].
  - cbn [Z.leb Z.compare]. split_and!; [done|done|by eapply unchanged_ok|]. left. split; [done|]. by rewrite (unchanged_current _ _ Hu).
  - pose proof (so_main_nonneg _ Hs0). change (s_main_rev s0) with (s_main_rev (w_store w)) in *.
    rewrite (proj2 (Z.leb_gt _ _)) by lia.
    destruct (lease_after_put_frame w1 key (key_lease w key) l) as (S2 & A2 & R2); [rewrite F3; apply Hw|].
    rewrite S2, A2, R2. split_and!; [done|done|done|]. right. split; [done|]. unfold store_revision, cetcd_mvcc_revision. rewrite S2.
    split; [rewrite Hmain; unfold put_row; by destruct (current s0 !! key)|]. rewrite Ecur. change (current s0) with (current (w_store w)). unfold MvccSnap.apply_entry.
    cbn [re_type put_entry re_key]. change (put_row s0 key val l) with (put_row (w_store w) key val l).
    destruct (put_row_facts (w_store w) key val l) as [-> _]. unfold put_row. by destruct (current (w_store w) !! key).
Qed.

(** The state a put of the client's encoder leaves. *)
Lemma put_request_outcome (w : world) key value lease cap req :
  world_ok w -> w_raft w = None -> (forall d, over_quota backend_size w d = false) ->
  in_u64 cap -> blen key <= 1024 -> small value -> 0 <= lease <= INT64_MAX ->
  cetcd_encode_put_request key value lease cap = Ok req ->
  key <> [] /\
  kv_handle_put backend_size flush user w req =
    (if negb (cetcd_v3rpc_check_key_perm user w true (Some key) =? 0) || ((0 <? lease) && negb (cetcd_lease_exists (w_mgr w) lease))
     then Ok (w, None)
     else let '(w', rc) := apply_put_ w key value lease in
          Ok (w', if rc =? 0 then Some (wires [FMsg 10 (header_fields (store_revision w'))]) else None)).
Proof using Type.
  intros Hw Hr Hq Hcap Hk Hv Hl He. pose proof (blen_nonneg key).
  assert (Hne : key <> []) by (intros ->; unfold cetcd_encode_put_request in He; done). split; [done|].
  pose proof (put_roundtrip cap req Hcap key value lease ltac:(unfold PbProps.short; lia) ltac:(unfold PbProps.short, small in *; lia) ltac:(lia) He) as Hp.
  unfold kv_handle_put. change (parse_put_request_ req (blen req)) with (or_minus_one (cetcd_parse_put_request req)). rewrite Hp.
  cbn [or_minus_one mbind res_bind pr_key pr_value pr_lease pr_prev_kv pr_ignore_value pr_ignore_lease andb orb].
  destruct (Z.eqb_spec (blen key) 0) as [E0|_]; [destruct key; [done|rewrite blen_cons in E0; pose proof (blen_nonneg key); lia]|].
  destruct (_ =? 0); cbn [negb orb]; [|done]. cbv zeta.
  set (old := present_kv w key). set (r := mk_put_request key value lease false false false).
  assert (Ev : put_value r old = value) by (unfold put_value; destruct old; done).
  assert (El : put_lease r old = lease) by (unfold put_lease; destruct old; done). rewrite Ev, El.
  assert (Eok : (0 <? lease) && negb (lease_ok_for_put_ w lease) = (0 <? lease) && negb (cetcd_lease_exists (w_mgr w) lease)).
  { unfold lease_ok_for_put_. destruct (Z.ltb_spec 0 lease), (Z.leb_spec lease 0); try lia; done. }
  rewrite Eok. destruct ((0 <? lease) && negb (cetcd_lease_exists (w_mgr w) lease)); [done|].
  change (cetcd_apply_encode_put key value lease) with (encode_command (CPut key value lease)).
  rewrite propose_command; [|done|done|unfold command_fits, small, in_i64, INT64_MAX in *; split_and!; (done || lia)].
  cbn [run_command]. destruct (apply_put_ w key value lease) as [w' rc]. cbn [mbind res_bind].
  destruct (rc =? 0); [|done]. cbn [Z.ltb Z.compare].
  assert (Epk : prev_pair false old = Ok []) by (unfold prev_pair; by destruct old). rewrite Epk. cbn [mbind res_bind].
  rewrite put_response_ok by (by vm_compute). change (0 <? blen (@nil Z)) with false. cbv iota. by rewrite app_nil_r.
Qed.

(** A point read of the present version, from the client's encoder. *)
Lemma range_request_answer (w : world) key rev_cap q : store_ok (w_store w) -> w_raft w = None ->
  in_u64 rev_cap -> blen key <= 1024 -> cetcd_encode_range_request key 0 rev_cap = Ok q ->
  exists r, parse_range_request_ q (blen q) = Ok (Some r) /\ rr_keys_only r = false /\
    range_admitted w r = (cetcd_v3rpc_check_key_perm user w false (Some key) =? 0) /\
    range_answer w r = Some (match current (w_store w) !! key with Some kv => ([kv], false, 1) | None => ([], false, 0) end).
Proof using Type*.
  intros Hs Hr Hc Hk He. pose proof (blen_nonneg key).
  assert (Hne : blen key <> 0) by (intros E0; unfold cetcd_encode_range_request in He; by rewrite E0 in He).
  pose proof (range_roundtrip rev_cap q Hc key 0 ltac:(unfold PbProps.short; lia) ltac:(unfold INT64_MAX; lia) He) as Hp.
  exists (mk_range_request key [] 0 0 0 0 false false false 0 0 0 0). split_and!.
  - change (parse_range_request_ q (blen q)) with (or_minus_one (cetcd_parse_range_request q)). by rewrite Hp.
  - done.
  - unfold range_admitted. cbn [rr_key rr_sort_order rr_sort_target rr_serializable]. rewrite (proj2 (Z.ltb_lt 0 (blen key))) by lia.
    unfold cetcd_v3rpc_linearizable_ok. rewrite Hr. by rewrite !andb_true_r.
  - unfold range_answer. cbn [rr_range_end rr_rev rr_key rr_count_only]. change (blen (@nil Z) =? 0) with true. cbv iota.
    rewrite get_current by apply Hs. by destruct (current (w_store w) !! key).
Qed.

Lemma kv_fields_ok keys_only kv : blen (kv_key kv) < 4611686018427387904 -> blen (kv_value kv) < 4611686018427387904 ->
  foldr (fun f P => field_ok f /\ P) True (kv_fields keys_only kv).
Proof using Type.
  intros Hk Hv. apply fields_ok_Forall. unfold kv_fields. rewrite !Forall_app.
  split_and!; [|destruct (_ && _)|destruct (0 <? _)]; repeat constructor; cbn [field_ok]; unfold tag_ok; (lia || apply u64_range).
Qed.

(** The client reads the one pair of a response. *)
Lemma pair_parses rev kv kcap vcap : kv_fits kv -> blen (kv_key kv) < kcap -> blen (kv_value kv) < vcap ->
  cetcd_parse_range_response_kv kcap vcap (wires (range_fields rev false ([kv], false, 1))) = Ok (kv_key kv, kv_value kv, 1).
Proof using Type.
  intros Hkv Hk Hv. pose proof (blen_nonneg (kv_key kv)). pose proof (blen_nonneg (kv_value kv)).
  destruct (kv_fits_encode false kv Hkv) as [_ Hb]. destruct (revision_header_ok 16 rev ltac:(lia)) as [_ Hh].
  destruct Hkv as [Hs _]. unfold kv_size in Hs.
  unfold cetcd_parse_range_response_kv. unfold range_fields, row_fields. cbn [app map]. set (t := table _).
  assert (Hi : interps t ([], [], 0) [FMsg 10 (header_fields rev); FMsg 18 (kv_fields false kv); FVar 32 1] = Ok (kv_key kv, kv_value kv, 1)).
  { unfold interps, kv_fields, t. cbn [interp_list interp table Z.eqb Pos.eqb mbind res_bind app negb andb].
    destruct (Z.eqb_spec kcap 0), (Z.leb_spec kcap (blen (kv_key kv))); try lia. cbn [mbind res_bind].
    destruct (Z.ltb_spec 0 (blen (kv_value kv))) as [Hp|Hz]; cbn [app interp_list interp table Z.eqb Pos.eqb mbind res_bind].
    - destruct (Z.eqb_spec vcap 0), (Z.leb_spec vcap (blen (kv_value kv))); try lia. cbn [mbind res_bind].
      by destruct (0 <? kv_lease_id kv).
    - assert (kv_value kv = []) as -> by (destruct (kv_value kv) as [|x l]; [done|rewrite blen_cons in Hz; pose proof (blen_nonneg l); lia]).
      by destruct (0 <? kv_lease_id kv). }
  rewrite parse_wires; [exact Hi| | |by rewrite Hi].
  - repeat apply List.Forall_cons; [..|apply List.Forall_nil]; cbn [field_ok]; unfold tag_ok.
    + change (concat (map wire (header_fields rev))) with (wires (header_fields rev)).
      split_and!; [lia|lia|done|lia|]. split; [|done]. cbn [field_ok header_fields]. unfold tag_ok. split_and!; [lia|lia|done|apply u64_range..].
    + change (concat (map wire (kv_fields false kv))) with (wires (kv_fields false kv)).
      split_and!; [lia|lia|done|lia|]. apply kv_fields_ok; lia.
    + split_and!; (lia || done).
  - rewrite !wires_cons, wires_nil, !blen_app. cbn [wire].
    pose proof (delimited_small 10 (wires (header_fields rev)) ltac:(lia)). pose proof (delimited_small 18 (wires (kv_fields false kv)) ltac:(lia)).
    change (concat (map wire (header_fields rev))) with (wires (header_fields rev)).
    change (concat (map wire (kv_fields false kv))) with (wires (kv_fields false kv)). change (blen (@nil Z)) with 0.
    rewrite blen_cons. pose proof (wire_u64_blen 1). lia.
Qed.

End handlers.
