(* ===== verification/KvTxnProps.v ===== *)
(** * Transactions: which operations are executed

    A transaction of comparisons, puts and deletes, from the bytes of the
    request to the state: it is refused without effect when a key is not
    permitted, and otherwise runs the operations of the branch its comparisons
    select; when none of them can fail it is answered and the keyspace is the
    one the operations leave, in order. *)

From S2P Require Import Slice Hash KeyOrder Treap Hashmap Raft RaftWire Wal Backend Mvcc MvccSnap MvccStore Lease LeaseProps LeaseRestart CString Auth AuthProps Cluster ClusterProps ApplyCodec Alarm Pb PbProps PbSafe PbRequests Apply ApplyCmd ApplyInv Expiry Kv KvCodec KvProps KvTxn Prelude.

#[local] Open Scope Z_scope.

(** ** Messages inside a request *)

(** The message at a pointer into the request has these fields. *)
Definition holds (o : txn_op_t) (fs : list field) : Prop :=
  op_len o = blen (wires fs) /\ at_ (op_data o) 0 (wires fs) /\ Forall field_ok fs /\ blen (wires fs) < 4611686018427387904.

Definition tag_of (f : field) : Z := match f with FVar tag _ | FLen tag _ | FMsg tag _ => tag end.

Lemma holds_room o fs : holds o fs -> (length (wires fs) <= length (op_data o))%nat.
Proof.
  intros (_ & (_ & rest & H) & _). rewrite drop_0 in H. rewrite H, length_app. lia.
Qed.

Lemma field_head m p f : at_ m p (wire f) -> m !! Z.to_nat p = Some (tag_of f).
Proof. intros H. destruct f as [tag v|tag d|tag fs]; cbn [wire tag_of] in *; by apply head_at in H as (Hm & _). Qed.

Section inside.
  Context (m : bytes) (len : Z).
  Hypothesis Hlen : len < 18446744073709551616.

Lemma msg_ldelim p tag fs : field_ok (FMsg tag fs) -> at_ m p (wire (FMsg tag fs)) -> p + blen (wire (FMsg tag fs)) <= len ->
  exists o, leftover_safe_ldelim_ m len (p + 1) = Ok (Some (o, p + blen (wire (FMsg tag fs)))) /\ holds o fs.
Proof using Hlen.
  intros (_ & Hd & Hok) Hat Hl. cbn [wire] in *. fold (wires fs) in *. unfold delimited in *. apply head_at in Hat as (_ & Hat & Hp).
  rewrite blen_cons in Hl |- *. destruct (delim_at_wire m len Hlen (p + 1) (wires fs) Hd Hat ltac:(lia)) as (H1 & H2 & _ & H4).
  unfold leftover_safe_ldelim_. rewrite H1. cbn [mbind res_bind or_minus_one]. rewrite H2. pose proof (wire_u64_blen (blen (wires fs))).
  rewrite <- (Z.add_assoc p 1 (blen (_ ++ _))). eexists. split; [reflexivity|]. split_and!; [done| |by apply fields_ok_Forall|done]. cbn [op_data].
  apply at_drop; [lia|lia|]. by rewrite Z.add_0_r.
Qed.

Lemma len_ldelim p tag d : field_ok (FLen tag d) -> at_ m p (wire (FLen tag d)) -> p + blen (wire (FLen tag d)) <= len ->
  exists o, leftover_safe_ldelim_ m len (p + 1) = Ok (Some (o, p + blen (wire (FLen tag d)))) /\
    op_len o = blen d /\ mem_read (op_data o) 0 (blen d) = Ok d.
Proof using Hlen.
  intros (_ & Hd) Hat Hl. cbn [wire] in *. unfold delimited in *. apply head_at in Hat as (_ & Hat & Hp).
  rewrite blen_cons in Hl |- *. destruct (delim_at_wire m len Hlen (p + 1) d Hd Hat ltac:(lia)) as (H1 & H2 & H3 & H4).
  unfold leftover_safe_ldelim_. rewrite H1. cbn [mbind res_bind or_minus_one]. rewrite H2. pose proof (wire_u64_blen (blen d)).
  rewrite <- (Z.add_assoc p 1 (blen (_ ++ _))). eexists. split; [reflexivity|]. split; [done|]. cbn [op_data]. destruct H4 as (_ & rest & H4). unfold mem_read.
  rewrite H4, blen_app. pose proof (blen_nonneg rest). destruct (Z.ltb_spec (blen d + blen rest) (0 + blen d)); [lia|].
  by rewrite drop_0, take_blen.
Qed.

Lemma skip_field p f : field_ok f -> at_ m p (wire f) -> p + blen (wire f) <= len ->
  leftover_safe_skip_unknown_k m len (p + 1) (tag_of f) = Ok (Some (p + blen (wire f))).
Proof using Hlen.
  intros Hok Hat Hl. unfold leftover_safe_skip_unknown_k, leftover_safe_skip_unknown_at_.
  destruct f as [tag v|tag d|tag fs]; cbn [tag_of].
  - destruct Hok as [[_ ->] Hv]. cbn [wire] in *. apply head_at in Hat as (_ & Hat & _). rewrite blen_cons in Hl |- *.
    cbn [Z.eqb]. rewrite (varint_at_wire m len (p + 1) v Hv Hat) by lia. cbn [mbind res_bind or_minus_one]. by rewrite Z.add_assoc.
  - destruct Hok as [[_ ->] Hd]. cbn [wire] in *. unfold delimited in *. apply head_at in Hat as (_ & Hat & _). rewrite blen_cons in Hl |- *.
    destruct (delim_at_wire m len Hlen (p + 1) d Hd Hat ltac:(lia)) as (-> & H2 & _). cbn [mbind res_bind or_minus_one Z.eqb Pos.eqb].
    rewrite H2. by rewrite Z.add_assoc.
  - destruct Hok as [[_ ->] [Hd _]]. cbn [wire] in *. unfold delimited in *. fold (wires fs) in *. apply head_at in Hat as (_ & Hat & _).
    rewrite blen_cons in Hl |- *. destruct (delim_at_wire m len Hlen (p + 1) (wires fs) Hd Hat ltac:(lia)) as (-> & H2 & _).
    cbn [mbind res_bind or_minus_one Z.eqb Pos.eqb]. rewrite H2. by rewrite Z.add_assoc.
Qed.

(** A loop over fields none of which returns keeps an invariant on the fields
    read so far. *)
Lemma scan_inv {S R} (round : S -> Z -> Z -> res (R + S * Z)) (done : S -> R) (I : list field -> S -> Prop) (all : list field) :
  (forall pre f s p, pre ++ [f] `prefix_of` all -> I pre s -> at_ m p (wire f) -> p + blen (wire f) <= len ->
     exists s', round s (tag_of f) (p + 1) = Ok (inr (s', p + blen (wire f))) /\ I (pre ++ [f]) s') ->
  forall fs pre s p n, all = pre ++ fs -> I pre s -> at_ m p (wires fs) -> p + blen (wires fs) = len -> (length (wires fs) <= n)%nat ->
  exists s', scan n round done m len p s = Ok (done s') /\ I all s'.
Proof using Type.
  intros Hstep. induction fs as [|f fs IH]; intros pre s p n Hall HI Hat Hl Hn.
  - exists s. rewrite wires_nil in Hl. change (blen (@nil Z)) with 0 in Hl. rewrite app_nil_r in Hall. subst all. split; [|done].
    destruct n; cbn [scan]; by rewrite (proj2 (Z.leb_le _ _)) by lia.
  - rewrite wires_cons in *. rewrite blen_app in Hl. rewrite length_app in Hn. apply at_app in Hat as [H1 H2].
    pose proof (wire_blen f) as Hb. pose proof (blen_nonneg (wires fs)). destruct n as [|n]; [unfold blen in Hb; lia|].
    cbn [scan]. rewrite (proj2 (Z.leb_gt _ _)) by lia. rewrite (field_head _ _ _ H1).
    destruct (Hstep pre f s p) as (s' & -> & HI'); [subst all; exists fs; by rewrite <- app_assoc|done|done|lia|].
    cbn [mbind res_bind]. apply (IH (pre ++ [f])); [by rewrite <- app_assoc|done|done|lia|]. unfold blen in Hb. lia.
Qed.
End inside.

Lemma parse_holds {A} (t : Z -> action A) a o fs r : holds o fs -> interps t a fs = Ok r ->
  parse_at t a (op_data o) (op_len o) = Ok r.
Proof.
  intros Ho Hi. pose proof (holds_room o fs Ho) as Hn. destruct Ho as (-> & Hat & Hok & Hb). unfold parse_at.
  rewrite (nested_run fs); [by rewrite Hi|apply Forall_forall; intros; apply field_steps|lia|done|done|lia|by rewrite Hi].
Qed.

(** ** Parsing *)

(** The messages of a request under a tag. *)
Definition msgs (tag : Z) (fs : list field) : list (list field) :=
  omap (fun f => match f with FMsg t c => if t =? tag then Some c else None | _ => None end) fs.

Lemma msgs_app tag fs gs : msgs tag (fs ++ gs) = msgs tag fs ++ msgs tag gs.
Proof. apply omap_app. Qed.

(** The fields of a transaction: comparisons, success and failure operations. *)
Definition txn_field (f : field) : Prop :=
  field_ok f /\ match f with FMsg tag _ => tag = 10 \/ tag = 18 \/ tag = 26 | _ => False end.

Definition compares (c : list field) (x : cetcd_txn_compare) : Prop :=
  interps (table txn_compare_fields) zero_txn_compare c = Ok x.

(** The comparison a message of integer and string fields stands for. *)
Definition compare_of (c : list field) (x : cetcd_txn_compare) : Prop := Forall flat_field c /\ compare_meaning c = Ok x.

Lemma compares_functional cs l l' : Forall2 compares cs l -> Forall2 compares cs l' -> l = l'.
Proof.
  intros H. revert l'. induction H as [|c x cs l Hx _ IH]; intros l' H'; [by apply Forall2_nil_inv_l in H'|].
  apply Forall2_cons_inv_l in H' as (y & ys & Hy & Hys & ->). unfold compares in *. rewrite Hx in Hy. simplify_eq. f_equal. by apply IH.
Qed.

(** What the parser has read. *)
Record parsed (fs : list field) (t : txn_request) : Prop := {
  pd_compares : Forall2 compares (msgs 10 fs) (t_compares t);
  pd_success : Forall2 holds (t_success t) (msgs 18 fs);
  pd_failure : Forall2 holds (t_failure t) (msgs 26 fs);
  pd_compares_raw : t_compares_raw t = Z.of_nat (length (msgs 10 fs));
  pd_success_raw : t_success_raw t = Z.of_nat (length (msgs 18 fs));
  pd_failure_raw : t_failure_raw t = Z.of_nat (length (msgs 26 fs))
}.

Lemma prefix_msgs tag pre all : pre `prefix_of` all -> (length (msgs tag pre) <= length (msgs tag all))%nat.
Proof. intros [l ->]. rewrite msgs_app, length_app. lia. Qed.

Lemma store_op_holds ops cs o c : Forall2 holds ops cs -> holds o c -> (length (cs ++ [c]) <= 128)%nat ->
  Forall2 holds (store_op ops o) (cs ++ [c]).
Proof.
  intros H Ho Hn. rewrite length_app in Hn. cbn [length] in Hn. apply Forall2_length in H as El.
  unfold store_op, TXN_MAX_OPS. rewrite (proj2 (Z.ltb_lt _ _)) by (unfold blen; lia). apply Forall2_app; [done|]. by apply Forall2_cons_2; [|apply Forall2_nil_2].
Qed.

Lemma txn_parse_fields fs : Forall txn_field fs -> blen (wires fs) < 4611686018427387904 ->
  Forall (fun c => exists x, compares c x) (msgs 10 fs) ->
  (forall tag, length (msgs tag fs) <= 128)%nat ->
  forall o, holds o fs -> exists t, txn_parse (op_data o) (op_len o) = Ok (Some t) /\ parsed fs t.
Proof.
  intros Hf Hb Hc Hn o Ho. pose proof (holds_room o fs Ho) as Hroom. destruct Ho as (-> & Hat & _ & _).
  unfold txn_parse. set (t0 := mk_txn [] [] [] 0 0 0).
  assert (H0 : parsed [] t0) by (split; cbn; constructor || done).
  destruct (scan_inv (op_data o) (blen (wires fs)) (txn_parse_round (op_data o) (blen (wires fs))) Some parsed fs) with (fs := fs) (pre := @nil field)
    (s := t0) (p := 0) (n := S (length (op_data o))) as (t & -> & Ht); [|done|done|done|lia|lia|by exists t].
  clear t0 H0. intros pre f t p Hpre Ht Hp Hl.
  assert (Hff : txn_field f).
  { rewrite Forall_forall in Hf. apply Hf. destruct Hpre as [l ->]. set_solver. }
  destruct Hff as [Hok Htag]. destruct f as [|?|tag c]; [done..|]. cbn [tag_of].
  destruct (msg_ldelim (op_data o) (blen (wires fs)) ltac:(lia) p tag c Hok Hp Hl) as (oc & Hld & Hoc).
  assert (Hcount : forall tg, (length (msgs tg (pre ++ [FMsg tag c])) <= 128)%nat)
    by (intros tg; etrans; [apply prefix_msgs, Hpre|apply Hn]).
  pose proof Hcount as Hcount'. setoid_rewrite msgs_app in Hcount'.
  unfold txn_parse_round. destruct Ht as [T1 T2 T3 T4 T5 T6].
  destruct Htag as [->|[->| ->]]; cbn [Z.eqb Pos.eqb orb]; rewrite Hld; cbn [mbind res_bind].
  - assert (Hx : exists x, compares c x).
    { rewrite Forall_forall in Hc. apply Hc. destruct Hpre as [l ->]. rewrite !msgs_app. set_solver. }
    destruct Hx as [x Hx]. specialize (Hcount' 10). rewrite length_app in Hcount'. change (length (msgs 10 [FMsg 10 c])) with 1%nat in Hcount'.
    pose proof (Forall2_length _ _ _ T1) as El. unfold TXN_MAX_OPS.
    change (t_compares (t <| t_compares_raw := t_compares_raw t + 1 |>)) with (t_compares t).
    rewrite (proj2 (Z.ltb_lt _ _)) by (unfold blen; lia).
    unfold parse_txn_compare_. rewrite (parse_holds _ _ oc c x Hoc Hx). cbn [or_minus_one mbind res_bind]. eexists. split; [reflexivity|].
    split; rewrite !msgs_app; cbn; rewrite ?app_nil_r; try done.
    + apply Forall2_app; [done|]. by apply Forall2_cons_2; [|apply Forall2_nil_2].
    + rewrite length_app. cbn. rewrite T4. lia.
  - specialize (Hcount' 18). eexists. split; [reflexivity|]. split; rewrite !msgs_app; cbn; rewrite ?app_nil_r; try done.
    + apply store_op_holds; [done|done|]. exact Hcount'.
    + rewrite length_app. cbn. rewrite T5. lia.
  - specialize (Hcount' 26). eexists. split; [reflexivity|]. split; rewrite !msgs_app; cbn; rewrite ?app_nil_r; try done.
    + apply store_op_holds; [done|done|]. exact Hcount'.
    + rewrite length_app. cbn. rewrite T6. lia.
Qed.

(** ** Operations *)

(** Puts of a value under a lease and deletions of one key. *)
Inductive txop : Type :=
| OPut (key value : bytes) (lease : Z)
| ODelete (key : bytes).

Definition op_key (x : txop) : bytes := match x with OPut key _ _ | ODelete key => key end.

(** The key the permission check sees. *)
Fixpoint first_key (fs : list field) : option bytes :=
  match fs with
  | [] => None
  | FLen tag k :: fs => if tag =? 10 then Some k else first_key fs
  | _ :: fs => first_key fs
  end.

Lemma first_key_strs fs key : strs 1 fs = [key] -> first_key fs = Some key.
Proof.
  unfold strs. induction fs as [|f fs IH]; [done|]. destruct f as [tag v|tag k|tag c]; cbn [omap list_omap first_key]; [exact IH| |exact IH].
  change (1 * 8 + 2) with 10 in *. destruct (tag =? 10); [by intros [= ->]|exact IH].
Qed.

(** The message of an operation: a put without options, or the deletion of one
    key, which names its key once. *)
Definition encodes_op (c : list field) (x : txop) : Prop :=
  match x with
  | OPut key value lease => small key /\ small value /\ in_i64 lease /\ exists fs, c = [FMsg 18 fs] /\ Forall flat_field fs /\ strs 1 fs = [key] /\
      put_meaning fs = Ok (mk_put_request key value lease false false false)
  | ODelete key => small key /\ exists fs, c = [FMsg 26 fs] /\ Forall flat_field fs /\ strs 1 fs = [key] /\
      delete_meaning fs = Ok (mk_delete_request key [] false)
  end.

Lemma write_varint_ok cap buf v : in_u64 v -> blen buf + blen (wire_u64_ v) <= cap -> write_varint_local cap buf v = (buf ++ wire_u64_ v, 0).
Proof.
  intros Hv Hc. pose proof (put_varint_spec cap buf v Hv) as H. unfold emit in H. rewrite (proj2 (Z.leb_le _ _)) in H by done.
  by apply write_varint_put.
Qed.

(** The code stores the return code as the position. *)
Lemma varint_reset_ok cap buf v : in_u64 v -> blen buf + 10 <= cap -> varint_reset cap buf v = Ok [].
Proof. intros Hv Hc. unfold varint_reset. pose proof (wire_u64_blen v). by rewrite write_varint_ok by (done || lia). Qed.

Lemma inner_header_empty rev : inner_header rev = Ok [].
Proof. unfold inner_header. rewrite put_room by (by vm_compute). cbn [mbind res_bind app]. apply varint_reset_ok; [apply u64_range|by vm_compute]. Qed.

Lemma txn_delete_response_empty rev deleted : in_u64 deleted -> txn_delete_response rev deleted [] = Ok [].
Proof.
  intros Hd. unfold txn_delete_response. rewrite inner_header_empty. cbn [mbind res_bind]. change (64 + blen [] + blen []) with 64.
  rewrite put_room by (by vm_compute). cbn [mbind res_bind app]. rewrite varint_reset_ok by (by vm_compute). cbn [mbind res_bind].
  rewrite copy_room by (by vm_compute). cbn [mbind res_bind app]. rewrite put_room by (by vm_compute). cbn [mbind res_bind app].
  rewrite varint_reset_ok by (done || by vm_compute). done.
Qed.

Lemma append_response_ok cap out tag inner : 0 <= blen out <= cap -> blen inner <= 8 ->
  exists cap' out', append_response cap out tag inner = Ok (cap', out') /\ blen out <= blen out' /\ blen out' + 14 <= cap'.
Proof.
  intros Hc Hi. pose proof (blen_nonneg inner). unfold append_response. cbv zeta. set (cap1 := grow _ _ _ _).
  assert (Hg : blen out + 20 + blen inner <= cap1)
    by (unfold cap1, grow; destruct (Z.ltb_spec cap (blen out + (20 + blen inner))); lia).
  rewrite put_room by lia. cbn [mbind res_bind]. pose proof (wire_u64_small (2 + blen inner) ltac:(lia)) as W1. pose proof (wire_u64_small (blen inner) ltac:(lia)) as W2.
  rewrite varint_out_ok; [|unfold in_u64; lia|rewrite W1, blen_app, !blen_cons; change (blen (@nil Z)) with 0; lia]. rewrite W1.
  rewrite delim_out_ok; [|unfold PbProps.short; lia|unfold delimited; rewrite W2; rewrite !blen_app, !blen_cons, ?blen_app, ?blen_cons; change (blen (@nil Z)) with 0; lia].
  cbn [mbind res_bind]. eexists _, _. split; [reflexivity|]. unfold delimited. rewrite W2. rewrite !blen_app, !blen_cons, ?blen_app, ?blen_cons. change (blen (@nil Z)) with 0. lia.
Qed.

Lemma txn_finish_ok rev cap out succeeded : 2 <= blen out -> blen out + 14 <= cap -> exists resp, txn_finish rev cap out succeeded = Ok resp.
Proof.
  intros H2 Hc. unfold txn_finish. cbv zeta. assert (Hg : grow cap out 2 (cap + 8) = cap) by (unfold grow; by rewrite (proj2 (Z.ltb_ge _ _)) by lia).
  rewrite Hg. rewrite put_room by lia. cbn [mbind res_bind]. rewrite put_room by (rewrite blen_app, blen_cons; change (blen (@nil Z)) with 0; lia).
  cbn [mbind res_bind]. destruct (revision_header_ok 32 rev ltac:(lia)) as [-> Hb]. cbn [mbind res_bind].
  rewrite (proj2 (Z.ltb_ge _ _)) by (rewrite !blen_app, !blen_cons; change (blen (@nil Z)) with 0; lia). by eexists.
Qed.

(** ** Comparisons

    What a comparison says of the keyspace: EQUAL 0, GREATER 1, LESS 2 and
    NOT_EQUAL 3 of the VERSION 0, CREATE 1, MOD 2, VALUE 3 or LEASE 4 of the row of
    its key, or of every row from its key up to its range end. *)
Definition related {A} (lt : A -> A -> Prop) (result : Z) (a b : A) : Prop :=
  result = 0 /\ a = b \/ result = 1 /\ lt b a \/ result = 2 /\ lt a b \/ result = 3 /\ a <> b.

Definition row_holds (c : cetcd_txn_compare) (kv : cetcd_kv) : Prop :=
  tc_target c = 0 /\ related Z.lt (tc_result c) (kv_version kv) (tc_version c) \/
  tc_target c = 1 /\ related Z.lt (tc_result c) (rev_main (kv_create_rev kv)) (tc_create_revision c) \/
  tc_target c = 2 /\ related Z.lt (tc_result c) (rev_main (kv_mod_rev kv)) (tc_mod_revision c) \/
  tc_target c = 3 /\ related lex_lt (tc_result c) (kv_value kv) (tc_value c) \/
  tc_target c = 4 /\ related Z.lt (tc_result c) (kv_lease_id kv) (tc_lease c).

(** Without a row the numbers are 0 and no comparison of values holds. *)
Definition absent_holds (c : cetcd_txn_compare) : Prop :=
  tc_target c = 0 /\ related Z.lt (tc_result c) 0 (tc_version c) \/ tc_target c = 1 /\ related Z.lt (tc_result c) 0 (tc_create_revision c) \/
  tc_target c = 2 /\ related Z.lt (tc_result c) 0 (tc_mod_revision c) \/ tc_target c = 4 /\ related Z.lt (tc_result c) 0 (tc_lease c).

(** The keys of a range: from the key up to the end, or all when that is [[0]]. *)
Definition in_keys (c : cetcd_txn_compare) (k : bytes) : Prop :=
  ~ lex_lt k (tc_key c) /\ (tc_range_end c = [0] \/ lex_lt k (tc_range_end c)).

Definition compare_holds (cur : gmap bytes cetcd_kv) (c : cetcd_txn_compare) : Prop :=
  if decide (tc_range_end c = []) then
    match cur !! tc_key c with Some kv => row_holds c kv | None => absent_holds c end
  else
    (forall k kv, cur !! k = Some kv -> in_keys c k -> row_holds c kv) /\
    ((forall k, is_Some (cur !! k) -> ~ in_keys c k) -> absent_holds c).

(** A comparison with a result and a target of the protocol. *)
Definition known_compare (c : cetcd_txn_compare) : Prop := 0 <= tc_result c <= 3 /\ 0 <= tc_target c <= 4.

Lemma compare_result_num result a b o : 0 <= result <= 3 -> compare_result result (num_cmp a b) o = true <-> related Z.lt result a b.
Proof.
  intros Hr. rewrite num_cmp_sign. unfold related, compare_result.
  assert (Hcase : result = 0 \/ result = 1 \/ result = 2 \/ result = 3) by lia.
  destruct Hcase as [->|[->|[->| ->]]]; cbn [Z.eqb Pos.eqb]; destruct (Z.compare_spec a b); cbn; split; intros; try done; lia.
Qed.

Lemma compare_result_bytes result a b o : 0 <= result <= 3 -> compare_result result (bytes_cmp a b) o = true <-> related lex_lt result a b.
Proof.
  intros Hr. rewrite bytes_cmp_lex. unfold related, compare_result, lex_lt. pose proof (lex_eq a b) as He. rewrite (lex_antisym a b).
  assert (Hcase : result = 0 \/ result = 1 \/ result = 2 \/ result = 3) by lia.
  destruct Hcase as [->|[->|[->| ->]]]; cbn [Z.eqb Pos.eqb]; destruct (lex a b); cbn; naive_solver.
Qed.

Lemma compare_kv_holds c kv o : known_compare c -> compare_kv c kv o = true <-> row_holds c kv.
Proof.
  intros [Hr Ht]. unfold compare_kv, row_holds, compare_actual, compare_wanted.
  assert (Hcase : tc_target c = 0 \/ tc_target c = 1 \/ tc_target c = 2 \/ tc_target c = 3 \/ tc_target c = 4) by lia.
  destruct Hcase as [->|[->|[->|[->| ->]]]]; cbn [Z.eqb Pos.eqb]; rewrite ?compare_result_num, ?compare_result_bytes by done; naive_solver lia.
Qed.

Lemma compare_missing_holds c : known_compare c -> compare_missing c = true <-> absent_holds c.
Proof.
  intros [Hr Ht]. unfold compare_missing, absent_holds, compare_wanted.
  assert (Hcase : tc_target c = 0 \/ tc_target c = 1 \/ tc_target c = 2 \/ tc_target c = 3 \/ tc_target c = 4) by lia.
  destruct Hcase as [->|[->|[->|[->| ->]]]]; cbn [Z.eqb Pos.eqb]; rewrite ?compare_result_num by done; naive_solver lia.
Qed.

Lemma rows_between_elem lo hi m kv : kv ∈ rows_between lo hi m <-> exists k, m !! k = Some kv /\ key_in_range_ k lo hi = true.
Proof.
  unfold rows_between. rewrite list_elem_of_fmap. split.
  - intros ([k kv'] & -> & [Hin Hr]%elem_of_lfilter). apply sorted_entries_elem in Hin. by exists k.
  - intros (k & Hk & Hr). exists (k, kv). split; [done|]. apply elem_of_lfilter. split; [by apply sorted_entries_elem|done].
Qed.

Lemma range_in_keys c k : tc_range_end c <> [] -> key_in_range_ k (tc_key c) (range_hi (tc_range_end c)) = true <-> in_keys c k.
Proof.
  intros He. rewrite (key_in_range_index k tt). unfold in_range_, in_keys, range_hi, lex_lt. cbn [fst]. rewrite !slice_compare_lex.
  assert (Hlo : (0 <=? cmp_sign (lex k (tc_key c))) = true <-> lex k (tc_key c) <> Lt) by (destruct (lex k (tc_key c)); cbn; naive_solver).
  rewrite andb_true_iff, Hlo. destruct (tc_range_end c) as [|b e] eqn:Ee; [done|].
  destruct (bool_decide (b :: e = [0])) eqn:E0; [apply bool_decide_eq_true in E0|apply bool_decide_eq_false in E0].
  - injection E0 as -> ->. cbn. naive_solver.
  - replace ((blen (b :: e) =? 1) && ((b :: e) !!! 0%nat =? 0)) with false.
    + rewrite (proj2 (Z.ltb_lt _ _)) by (rewrite blen_cons; pose proof (blen_nonneg e); lia).
      destruct (lex k (b :: e)); cbn; naive_solver.
    + symmetry. apply andb_false_iff. destruct e as [|b' e]; [right|left]; [cbn; apply Z.eqb_neq; congruence|].
      rewrite !blen_cons. apply Z.eqb_neq. pose proof (blen_nonneg e). lia.
Qed.

Section transactions.
  Context {T : Type -> Type} {E Tx : Type} `{!KeyIndex T, !KeyIndexLaws T, !Lmdb E Tx, !LmdbLaws E Tx, !Clock, !AuthLibs}.
  Context (backend_size : E -> Z) (flush : world T E -> option (world T E)) (user : option bytes) (max_txn_ops : Z).
  Local Notation world := (world T E).

(** *** Permissions *)

Lemma check_perm_read (w : world) want o k : op_len o = blen k -> mem_read (op_data o) 0 (blen k) = Ok k ->
  check_perm_at user w want o = Ok (cetcd_v3rpc_check_key_perm user w want (Some k)).
Proof using Type.
  intros El Hr. unfold check_perm_at, cetcd_v3rpc_check_key_perm. rewrite El, Hr. cbn [mbind res_bind].
  destruct (cetcd_auth_is_enabled (w_auth w)); cbn [negb orb]; [|done]. by destruct user.
Qed.

Lemma key_scan (w : world) want o : forall fs p n, op_len o < 18446744073709551616 -> Forall flat_field fs -> Forall field_ok fs ->
  at_ (op_data o) p (wires fs) -> p + blen (wires fs) = op_len o -> (length (wires fs) <= n)%nat ->
  scan n (op_key_round user w want o) (fun _ => cetcd_v3rpc_check_key_perm user w want None) (op_data o) (op_len o) p tt =
    Ok (cetcd_v3rpc_check_key_perm user w want (first_key fs)).
Proof using Type.
  induction fs as [|f fs IH]; intros p n Hlen Hflat Hok Hat Hl Hn.
  - rewrite wires_nil in Hl. change (blen (@nil Z)) with 0 in Hl. destruct n; cbn [scan]; by rewrite (proj2 (Z.leb_le _ _)) by lia.
  - apply Forall_cons in Hflat as [Hf Hflat]. apply Forall_cons in Hok as [Hfok Hok].
    rewrite wires_cons in *. rewrite blen_app in Hl. rewrite length_app in Hn. apply at_app in Hat as [H1 H2].
    pose proof (wire_blen f) as Hb. pose proof (blen_nonneg (wires fs)). destruct n as [|n]; [unfold blen in Hb; lia|].
    cbn [scan]. rewrite (proj2 (Z.leb_gt _ _)) by lia. rewrite (field_head _ _ _ H1). unfold op_key_round.
    assert (Htag : 0 < tag_of f) by (destruct f; cbn [field_ok tag_of] in *; unfold tag_ok in *; lia).
    rewrite (proj2 (Z.eqb_neq _ 0)) by lia. unfold blen in Hb.
    destruct (Z.eqb_spec (tag_of f) 10) as [E10|N10].
    + destruct f as [tag v|tag k|]; [|cbn [tag_of] in E10; subst tag|done]; cbn [tag_of] in *.
      { destruct Hfok as [[_ Hw] _]. subst tag. done. }
      destruct (len_ldelim (op_data o) (op_len o) Hlen p 10 k Hfok H1 ltac:(lia)) as (ok & -> & Ek & Hr).
      cbn [or_return mbind res_bind]. rewrite (check_perm_read w want ok k Ek Hr). done.
    + rewrite (skip_field (op_data o) (op_len o) Hlen p f Hfok H1) by lia. cbn [or_return mbind res_bind].
      rewrite IH; [|done|done|done|done|lia|lia]. destruct f as [|tag k|]; [done| |done]. cbn [first_key tag_of] in *.
      by rewrite (proj2 (Z.eqb_neq tag 10)).
Qed.

Lemma op_perm (w : world) nested o c x : holds o c -> encodes_op c x ->
  txn_op_check_perm_ user w nested o = Ok (cetcd_v3rpc_check_key_perm user w true (Some (op_key x))).
Proof using Type.
  intros Ho Hx.
  assert (Hc : exists tag fs, c = [FMsg tag fs] /\ (tag = 18 \/ tag = 26) /\ Forall flat_field fs /\ first_key fs = Some (op_key x)).
  { destruct x; cbn [encodes_op op_key] in *; [destruct Hx as (_ & _ & _ & fs & -> & ? & ?%first_key_strs & _)|destruct Hx as (_ & fs & -> & ? & ?%first_key_strs & _)]; eauto 10. }
  destruct Hc as (tag & fs & -> & Htag & Hflat & Hkey). pose proof (holds_room _ _ Ho) as Hn. destruct Ho as (El & Hat & Hok & Hb).
  apply Forall_cons in Hok as [Hok _]. rewrite wires_cons, wires_nil, app_nil_r in *. pose proof (wire_blen (FMsg tag fs)) as Hw.
  unfold txn_op_check_perm_. rewrite (proj2 (Z.eqb_neq (op_len o) 0)) by lia. cbn [scan]. rewrite (proj2 (Z.leb_gt _ _)) by lia.
  rewrite (field_head _ _ _ Hat). cbn [tag_of]. unfold op_round.
  destruct (msg_ldelim (op_data o) (op_len o) ltac:(lia) 0 tag fs Hok Hat ltac:(lia)) as (pl & Hld & Hpl).
  assert (Hwant : (tag =? 0) = false /\ ((tag =? 10) || (tag =? 18) || (tag =? 26) || (tag =? 34)) = true /\ (tag =? 34) = false /\ (tag =? 10) = false)
    by (destruct Htag as [->| ->]; done).
  destruct Hwant as (-> & -> & E34 & E10). rewrite Hld. cbn [or_return mbind res_bind]. rewrite E34, E10. cbn [negb].
  pose proof (holds_room _ _ Hpl) as Hn2. destruct Hpl as (El2 & Hat2 & Hok2 & Hb2).
  rewrite (key_scan w true pl fs); [|lia|done|done|done|lia|lia]. by rewrite Hkey.
Qed.

Lemma check_ops_ok (w : world) d ops cs xs : Forall2 holds ops cs -> Forall2 encodes_op cs xs ->
  check_ops user d w ops = Ok (forallb (fun x => cetcd_v3rpc_check_key_perm user w true (Some (op_key x)) =? 0) xs).
Proof using Type.
  intros Ho. revert xs. induction Ho as [|o c ops cs Hoc _ IH]; intros xs Hx.
  - apply Forall2_nil_inv_l in Hx as ->. done.
  - apply Forall2_cons_inv_l in Hx as (x & xs' & Hcx & Hxs & ->). cbn [check_ops forallb].
    rewrite (op_perm w _ o c x Hoc Hcx). cbn [mbind res_bind]. destruct (_ =? 0); [|done]. by rewrite (IH xs').
Qed.

(** *** Execution *)

(** What an operation does, and whether it succeeds. *)
Definition run_op (w : world) (x : txop) : world * bool :=
  match x with
  | OPut key value lease =>
      if (blen key =? 0) || ((0 <? lease) && negb (cetcd_lease_exists (w_mgr w) lease)) then (w, false)
      else let '(w', rc) := apply_put_ w key value lease in (w', rc =? 0)
  | ODelete key =>
      if blen key =? 0 then (w, false) else let '(w', rc) := apply_delete_one_ w key in (w', rc =? 0)
  end.

Fixpoint run_ops (w : world) (xs : list txop) : world * bool :=
  match xs with
  | [] => (w, true)
  | x :: xs => let '(w', ok) := run_op w x in if ok then run_ops w' xs else (w', false)
  end.

(** The operations leave raft, users and quota alone. *)
Definition same_globals (w w' : world) : Prop := w_raft w' = w_raft w /\ w_quota w' = w_quota w /\ w_auth w' = w_auth w.

Lemma on_store_globals {A} (w : world) (f : cetcd_mvcc_store T E -> cetcd_mvcc_store T E * A) : same_globals w (on_store w f).1.
Proof using Type. unfold on_store. by destruct (f _). Qed.

Lemma on_mgr_globals {A} (w : world) (f : cetcd_lease_mgr E -> cetcd_lease_mgr E * A) : same_globals w (on_mgr w f).1.
Proof using Type. unfold on_mgr. by destruct (f _). Qed.

Lemma same_globals_trans (w1 w2 w3 : world) : same_globals w1 w2 -> same_globals w2 w3 -> same_globals w1 w3.
Proof using Type. unfold same_globals. intros (-> & -> & ->) (-> & -> & ->). done. Qed.

Lemma run_op_globals (w : world) x : same_globals w (run_op w x).1.
Proof using Type.
  destruct x as [key value lease|key]; cbn [run_op].
  - destruct (_ || _); [done|]. unfold apply_put_. destruct (blen key =? 0); [done|]. cbv zeta.
    pose proof (on_store_globals w (fun s => cetcd_mvcc_put s key value lease)) as H1. destruct (on_store w _) as [w1 r]. cbn [fst] in H1.
    destruct (rev_main r <=? 0); [done|]. cbn [fst]. unfold lease_after_put_.
    assert (H2 : same_globals w (if (0 <? key_lease w key) && negb (key_lease w key =? lease)
      then (on_mgr w1 (fun m => cetcd_lease_detach_key m (key_lease w key) key)).1 else w1))
      by (destruct (_ && _); [eapply same_globals_trans; [exact H1|apply on_mgr_globals]|done]).
    destruct (0 <? lease); [eapply same_globals_trans; [exact H2|apply on_mgr_globals]|done].
  - destruct (blen key =? 0) eqn:E0; [done|]. unfold apply_delete_one_. rewrite E0. cbv zeta.
    pose proof (on_store_globals w (fun s => cetcd_mvcc_delete s key)) as H1. destruct (on_store w _) as [w1 r]. cbn [fst] in H1.
    destruct (_ && _); cbn [fst]; [eapply same_globals_trans; [exact H1|apply on_mgr_globals]|done].
Qed.

(** No raft and no quota: proposals run at once. *)
Definition standalone (w : world) : Prop := w_raft w = None /\ w_quota w = 0.

Lemma standalone_quota (w : world) : standalone w -> forall d, over_quota backend_size w d = false.
Proof using Type. intros [_ Hq] d. unfold over_quota. rewrite Hq. by rewrite andb_false_r. Qed.

Lemma txn_put_ok (w : world) rev pl key value lease fs : standalone w -> holds pl fs -> small key -> small value -> in_i64 lease -> Forall flat_field fs ->
  put_meaning fs = Ok (mk_put_request key value lease false false false) ->
  exists rev', txn_put backend_size flush w rev pl =
    Ok ((run_op w (OPut key value lease)).1, if (run_op w (OPut key value lease)).2 then Some (rev', [10; 0]) else None).
Proof using Type.
  intros [Hr Hq] Hpl Hk Hv Hl Hfl Hi. rewrite <- put_interps in Hi by (done || apply Hpl). unfold txn_put, parse_put_request_. rewrite (parse_holds _ _ pl fs _ Hpl Hi).
  cbn [or_minus_one mbind res_bind pr_key pr_value pr_lease pr_prev_kv pr_ignore_value pr_ignore_lease andb orb prev_pair put_lease put_value].
  cbn [run_op]. destruct (blen key =? 0) eqn:E0; cbn [orb]; [by exists 0|]. cbv zeta.
  assert (Eok : (0 <? lease) && negb (lease_ok_for_put_ w lease) = (0 <? lease) && negb (cetcd_lease_exists (w_mgr w) lease)).
  { unfold lease_ok_for_put_. destruct (Z.ltb_spec 0 lease), (Z.leb_spec lease 0); try lia; done. }
  rewrite Eok. destruct ((0 <? lease) && negb (cetcd_lease_exists (w_mgr w) lease)); [by exists 0|].
  change (cetcd_apply_encode_put key value lease) with (encode_command (CPut key value lease)).
  rewrite propose_command; [|done|by apply standalone_quota|split_and!; [by intros ->|done..]].
  cbn [run_command]. destruct (apply_put_ w key value lease) as [w' rc]. cbn [mbind res_bind fst snd].
  destruct (rc =? 0); [|by exists 0]. cbn [Z.ltb Z.compare]. rewrite inner_header_empty. cbn [mbind res_bind].
  rewrite delim_out_ok by (by vm_compute). cbn [mbind res_bind]. change (0 <? blen (@nil Z)) with false. cbv iota. cbn [mbind res_bind].
  by eexists.
Qed.

Lemma txn_delete_ok (w : world) rev pl key fs : standalone w -> holds pl fs -> small key -> Forall flat_field fs ->
  delete_meaning fs = Ok (mk_delete_request key [] false) ->
  exists rev', txn_delete backend_size flush w rev pl =
    Ok ((run_op w (ODelete key)).1, if (run_op w (ODelete key)).2 then Some (rev', []) else None).
Proof using Type.
  intros [Hr Hq] Hpl Hk Hfl Hi. rewrite <- delete_interps in Hi by (done || apply Hpl). unfold txn_delete, parse_delete_range_request_. rewrite (parse_holds _ _ pl fs _ Hpl Hi).
  cbn [or_minus_one mbind res_bind dr_key dr_range_end dr_prev_kv run_op].
  destruct (blen key =? 0) eqn:E0; [by exists 0|]. change (0 <? blen (@nil Z)) with false. cbv iota zeta. cbn [mbind res_bind].
  change (cetcd_apply_encode_delete key) with (encode_command (CDelete key)).
  rewrite propose_command; [|done|by apply standalone_quota|split; [by intros ->|done]].
  cbn [run_command]. destruct (apply_delete_one_ w key) as [w' rc]. cbn [mbind res_bind fst snd].
  destruct (rc =? 0); [|by exists 0]. cbn [Z.ltb Z.compare].
  rewrite txn_delete_response_empty by (destruct (_ <? _); by vm_compute). cbn [mbind res_bind]. by eexists.
Qed.

Lemma txn_exec_ok nested (w : world) rev cap out o c x : standalone w -> holds o c -> encodes_op c x -> 2 <= blen out -> blen out + 14 <= cap ->
  exists rev' cap' out', txn_exec backend_size flush nested w rev cap out o =
    Ok ((run_op w x).1, if (run_op w x).2 then Some (rev', cap', out') else None) /\ 2 <= blen out' /\ blen out' + 14 <= cap'.
Proof using Type.
  intros Hw Ho Hx H2 Hc.
  assert (Hmsg : exists tag fs, c = [FMsg tag fs] /\ forall pl, holds pl fs -> (tag = 18 /\ (exists rev', txn_put backend_size flush w rev pl =
      Ok ((run_op w x).1, if (run_op w x).2 then Some (rev', [10; 0]) else None)) \/ tag = 26 /\ (exists rev', txn_delete backend_size flush w rev pl =
      Ok ((run_op w x).1, if (run_op w x).2 then Some (rev', []) else None)))).
  { destruct x as [key value lease|key]; cbn [encodes_op] in Hx.
    - destruct Hx as (Hk & Hv & Hl & fs & -> & Hfl & _ & Hi). exists 18, fs. split; [done|]. intros pl Hpl. left. split; [done|]. by eapply txn_put_ok.
    - destruct Hx as (Hk & fs & -> & Hfl & _ & Hi). exists 26, fs. split; [done|]. intros pl Hpl. right. split; [done|]. by eapply txn_delete_ok. }
  destruct Hmsg as (tag & fs & -> & Hrun). destruct Ho as (El & Hat & Hok & Hb).
  apply Forall_cons in Hok as [Hok _]. rewrite wires_cons, wires_nil, app_nil_r in *. pose proof (wire_blen (FMsg tag fs)) as Hw2.
  unfold txn_exec. rewrite (proj2 (Z.eqb_neq (op_len o) 0)) by lia.
  pose proof (field_head _ _ _ Hat) as Hh. change (Z.to_nat 0) with 0%nat in Hh. rewrite Hh. cbn [tag_of].
  destruct (msg_ldelim (op_data o) (op_len o) ltac:(lia) 0 tag fs Hok Hat ltac:(lia)) as (pl & Hld & Hpl). change (0 + 1) with 1 in Hld.
  destruct (Hrun pl Hpl) as [[-> (rev' & Hp)]|[-> (rev' & Hp)]]; cbn [Z.eqb Pos.eqb orb]; rewrite Hld; cbn [mbind res_bind];
    rewrite Hp; cbn [mbind res_bind]; (destruct (run_op w x).2; [|by exists 0, cap, out]).
  - destruct (append_response_ok cap out 18 [10; 0] ltac:(lia) ltac:(by vm_compute)) as (cap' & out' & -> & Hle & Hroom).
    cbn [mbind res_bind]. exists rev', cap', out'. split_and!; [done|lia|done].
  - destruct (append_response_ok cap out 26 [] ltac:(lia) ltac:(by vm_compute)) as (cap' & out' & -> & Hle & Hroom).
    cbn [mbind res_bind]. exists rev', cap', out'. split_and!; [done|lia|done].
Qed.

Lemma txn_exec_all_ok nested ops cs : Forall2 holds ops cs -> forall xs (w : world) rev cap out, Forall2 encodes_op cs xs -> standalone w ->
  2 <= blen out -> blen out + 14 <= cap ->
  exists rev' cap' out', txn_exec_all backend_size flush nested w rev cap out ops =
    Ok ((run_ops w xs).1, if (run_ops w xs).2 then Some (rev', cap', out') else None) /\ 2 <= blen out' /\ blen out' + 14 <= cap'.
Proof using Type.
  induction 1 as [|o c ops cs Hoc _ IH]; intros xs w rev cap out Hx Hw H2 Hc.
  - apply Forall2_nil_inv_l in Hx as ->. by exists rev, cap, out.
  - apply Forall2_cons_inv_l in Hx as (x & xs' & Hcx & Hxs & ->). cbn [txn_exec_all run_ops].
    destruct (txn_exec_ok nested w rev cap out o c x Hw Hoc Hcx H2 Hc) as (rev1 & cap1 & out1 & -> & H21 & Hc1).
    pose proof (run_op_globals w x) as Hg. destruct (run_op w x) as [w1 ok]. cbn [fst snd mbind res_bind] in *.
    destruct ok; [|by exists 0, cap, out]. apply IH; [done| |done|done]. destruct Hw as [R Q]. destruct Hg as (G1 & G2 & _). by split; [rewrite G1|rewrite G2].
Qed.

(** *** What the operations do to the keyspace *)

(** An operation that can be run: its key is not empty and its lease exists. *)
Definition runnable (w : world) (x : txop) : Prop :=
  op_key x <> [] /\ match x with OPut _ _ lease => 0 < lease -> cetcd_lease_exists (w_mgr w) lease = true | ODelete _ => True end.

Definition values (w : world) : gmap bytes bytes := kv_value <$> current (w_store w).

Definition write_op (m : gmap bytes bytes) (x : txop) : gmap bytes bytes :=
  match x with OPut key value _ => <[key := value]> m | ODelete key => delete key m end.

(** The leases and the health of the backend after an operation. *)
Definition same_ground (k : bytes) (w w' : world) : Prop :=
  s_backend (w_store w') = s_backend (w_store w) /\ (never_fails (w_env w) -> db_key k -> never_fails (w_env w')) /\
  forall id, cetcd_lease_exists (w_mgr w') id = cetcd_lease_exists (w_mgr w) id.

Lemma put_ground (w : world) key value lease : world_ok w -> same_ground key w (apply_put_ w key value lease).1.
Proof using Type*.
  intros Hw. unfold apply_put_. destruct (blen key =? 0); [done|]. cbv zeta.
  destruct (on_store_frame w (fun s => cetcd_mvcc_put s key value lease)) as (F1 & _ & F3 & _).
  set (s0 := (w_store w) <| s_env := w_env w |>) in *.
  assert (Hput : s_backend (cetcd_mvcc_put s0 key value lease).1 = s_backend s0 /\
    (never_fails (s_env s0) -> db_key key -> never_fails (s_env (cetcd_mvcc_put s0 key value lease).1))).
  { unfold cetcd_mvcc_put, Mvcc.persist_put_, with_backend. destruct (s_backend s0) eqn:Hb; [|done].
    set (kg := put_generation _ _ _ _).
    pose proof (st_put2 _ never_fails_steady (s_env s0) MVCC_BUCKET_KEY key (Some (encode_kg_ kg)) MVCC_BUCKET_META MVCC_META_REV (write_le64_ (s_main_rev s0 + 1))) as Hp.
    destruct (be_put2 _ _ _ _ _ _ _) as [e rc]. cbn [fst snd] in Hp. assert (Hm : db_key MVCC_META_REV) by done.
    destruct (is_ok rc); (split; [done|]); intros Hn Hk; by apply Hp. }
  assert (Henv : w_env (on_store w (fun s => cetcd_mvcc_put s key value lease)).1 = s_env (cetcd_mvcc_put s0 key value lease).1)
    by (unfold on_store; fold s0; by destruct (cetcd_mvcc_put s0 key value lease)).
  destruct (on_store w _) as [w1 r]. cbn [fst snd] in *. rewrite <- Henv, <- F1 in Hput.
  assert (H1 : same_ground key w w1) by (destruct Hput; split_and!; [done|done|by rewrite F3]). clear Hput Henv F1.
  assert (Hm : lease_ok (w_mgr w1)) by (rewrite F3; apply Hw). clear F3.
  destruct (rev_main r <=? 0); [done|]. cbn [fst]. unfold lease_after_put_. set (old := key_lease w key). clearbody old.
  assert (Hgm : forall w2 f L, lease_ok (w_mgr w2) -> lease_ok (w_mgr (on_mgr w2 f).1) -> w_env (on_mgr w2 f).1 = w_env w2 -> w_store (on_mgr w2 f).1 = w_store w2 ->
    leases_of (w_mgr (on_mgr w2 f).1) = L -> dom L = dom (leases_of (w_mgr w2)) -> same_ground key w w2 -> same_ground key w (on_mgr w2 f : world * cetcd_status).1).
  { intros w2 f L Hm2 Hm3 He Hs HL Hdom (G1 & G2 & G3). unfold same_ground. rewrite He, Hs. split_and!; [done|done|]. intros id. rewrite <- G3, !exists_map by done.
    apply bool_decide_ext. by rewrite HL, <- !elem_of_dom, Hdom. }
  set (w2 := if (0 <? old) && _ then _ else w1).
  assert (H2 : same_ground key w w2 /\ lease_ok (w_mgr w2)).
  { unfold w2. destruct (_ && _); [|done]. destruct (detach_world w1 old key Hm) as (D1 & D2 & D3 & _). destruct (detach_backend w1 old key Hm) as (_ & _ & _ & D4).
    split; [|done]. eapply Hgm; [done|done|done|done|exact D2|apply dom_alter_L|done]. }
  destruct H2 as [H2 Hm2]. destruct (0 <? lease); [|done]. destruct (attach_world w2 lease key Hm2) as (D1 & D2 & D3 & _).
  eapply Hgm; [done|done| |done|exact D2|apply dom_alter_L|done]. unfold on_mgr, cetcd_lease_attach_key.
  by destruct (lease_by_id_ _ lease) as [[i l]|].
Qed.

Lemma delete_ground (w : world) key : world_ok w -> key <> [] -> same_ground key w (apply_delete_one_ w key).1.
Proof using Type*.
  intros Hw Hk. destruct (delete_one_deleted flush w key Hw Hk) as [[D1 _ D3 D4 _ _ _ D8 _] _]. split_and!; [done| |].
  - intros Hn Hd. apply D8; [done|by apply Forall_singleton].
  - intros id.
    assert (Hids : forall m m' : cetcd_lease_mgr E, mgr_cut [key] m m' -> lease_ids m' = lease_ids m).
    { intros m m' [C _ _ _]. unfold lease_ids. symmetry. induction C as [|l l' ls ls' [[= Hid _ _] _] _ IH]; [done|]. cbn. by rewrite Hid, IH. }
    unfold cetcd_lease_exists. apply bool_decide_ext. rewrite <- !not_eq_None_Some, !by_id_none. by rewrite (Hids _ _ D4).
Qed.

Lemma compare_ok_holds (w : world) c : store_ok (w_store w) -> known_compare c ->
  txn_compare_ok w c = true <-> compare_holds (current (w_store w)) c.
Proof using Type*.
  intros Hs Hc. unfold txn_compare_ok, compare_holds. destruct (decide (tc_range_end c = [])) as [He|He].
  - rewrite He. cbn [blen length Z.of_nat Z.ltb Z.compare]. rewrite present_kv_current by done.
    destruct (current (w_store w) !! tc_key c); [by apply compare_kv_holds|by apply compare_missing_holds].
  - assert (Hpos : 0 < blen (tc_range_end c)) by (destruct (tc_range_end c) as [|b l]; [done|]; rewrite blen_cons; pose proof (blen_nonneg l); lia).
    rewrite (proj2 (Z.ltb_lt _ _)) by done. rewrite range_zero by apply Hs.
    set (kvs := rows_between _ _ _).
    assert (Hin : forall k, key_in_range_ k (tc_key c) (range_hi (tc_range_end c)) = true <-> in_keys c k) by (intros k; by apply range_in_keys).
    assert (Hrows : forall kv, kv ∈ kvs <-> exists k, current (w_store w) !! k = Some kv /\ in_keys c k).
    { intros kv. unfold kvs. rewrite rows_between_elem. by setoid_rewrite Hin. }
    destruct kvs as [|kv0 kvs].
    + rewrite compare_missing_holds by done.
      assert (Hnone : forall k kv, current (w_store w) !! k = Some kv -> ~ in_keys c k).
      { intros k kv Hk Hi. by apply (not_elem_of_nil kv), Hrows; exists k. }
      split; [intros Ha; split; [|done]; intros k kv Hk Hi; by destruct (Hnone k kv Hk)|]. intros [_ Ha]. apply Ha. intros k [kv Hk]. by apply (Hnone k kv).
    + rewrite List.forallb_forall. split.
      * intros Hall. split.
        -- intros k kv Hk Hi. apply (compare_kv_holds c kv true Hc), Hall. apply list_elem_of_In, Hrows. by exists k.
        -- intros Hno. destruct (proj1 (Hrows kv0) ltac:(left)) as (k & Hk & Hi). by destruct (Hno k ltac:(eauto)).
      * intros [Hall _] kv Hkv%list_elem_of_In. apply compare_kv_holds; [done|]. apply Hrows in Hkv as (k & Hk & Hi). by apply (Hall k).
Qed.

Lemma op_sure (w : world) x : world_ok w -> runnable w x -> sure [op_key x] w ->
  exists w', run_op w x = (w', true) /\ world_ok w' /\ values w' = write_op (values w) x /\ same_ground (op_key x) w w'.
Proof using Type*.
  intros Hw [Hk Hl] Hsure. destruct x as [key value lease|key]; cbn [run_op op_key] in *; rewrite blen_nonempty by done; cbn [orb].
  - destruct ((0 <? lease) && negb (cetcd_lease_exists (w_mgr w) lease)) eqn:El.
    { apply andb_true_iff in El as [E1 E2%negb_true_iff]. rewrite Hl in E2 by lia. done. }
    pose proof (put_sure w key value lease Hw Hk Hsure) as Hrc. pose proof (put_keeps w key value lease Hw) as Hok.
    pose proof (put_ground w key value lease Hw) as Hg. pose proof (apply_put_facts backend_size flush w key value lease Hw Hk) as Hf.
    destruct (apply_put_ w key value lease) as [w' rc]. cbn [fst snd] in *. subst rc. exists w'. split_and!; [done|done| |done].
    destruct Hf as (_ & _ & _ & [[? _]|(_ & _ & Hcur)]); [done|]. unfold values. rewrite Hcur, fmap_insert. cbn [write_op]. f_equal.
    unfold put_row. by destruct (current (w_store w) !! key).
  - pose proof (delete_ground w key Hw Hk) as Hg. destruct (delete_one_deleted flush w key Hw Hk) as [[D1 _ _ _ D5 _ D7 _ _] Hrc].
    destruct (apply_delete_one_ w key) as [w' rc]. cbn [fst snd] in *. subst rc. exists w'. split_and!; [done|done| |done].
    unfold values. cbn [write_op]. rewrite <- fmap_delete. f_equal. apply map_eq. intros k.
    destruct (decide (k = key)) as [-> |Hne]; [rewrite lookup_delete_eq; apply D7; [done|left]|].
    rewrite lookup_delete_ne by done. apply D5. set_solver.
Qed.

Lemma ops_sure xs : forall w : world, world_ok w -> Forall (runnable w) xs -> sure (op_key <$> xs) w ->
  exists w', run_ops w xs = (w', true) /\ world_ok w' /\ values w' = foldl write_op (values w) xs.
Proof using Type*.
  induction xs as [|x xs IH]; intros w Hw Hr Hsure; [by exists w|]. apply Forall_cons in Hr as [Hx Hr].
  assert (Hs1 : sure [op_key x] w) by (destruct Hsure as [?|[? Hk%Forall_inv]]; [by left|right; split; [done|by constructor]]).
  destruct (op_sure w x Hw Hx Hs1) as (w1 & Hrun & Hw1 & Hv & G1 & G2 & G3). cbn [run_ops]. rewrite Hrun.
  destruct (IH w1) as (w' & Hrun' & Hw' & Hv'); [done| | |exists w'; by rewrite Hrun', Hv', Hv].
  - eapply Forall_impl; [exact Hr|]. intros y [Hy1 Hy2]. split; [done|]. destruct y; [|done]. by rewrite G3.
  - destruct Hsure as [?|[Hn Hk]]; [left; congruence|right]. cbn [fmap list_fmap] in Hk. apply Forall_cons in Hk as [Hk Hks].
    split; [by apply G2|done].
Qed.

(** Whether the user may run the transaction: all comparisons name a key the
    user may read, all operations of both branches a key the user may write. *)
Definition txn_permitted (w : world) (cmps : list cetcd_txn_compare) (ss fs : list txop) : bool :=
  forallb (fun c => (0 <? blen (tc_key c)) && (cetcd_v3rpc_check_key_perm user w false (Some (tc_key c)) =? 0)) cmps &&
  forallb (fun x => cetcd_v3rpc_check_key_perm user w true (Some (op_key x)) =? 0) ss &&
  forallb (fun x => cetcd_v3rpc_check_key_perm user w true (Some (op_key x)) =? 0) fs.

(** The handler: permissions, then the branch. *)
Lemma txn_handled (w : world) (req : list field) (cmps : list cetcd_txn_compare) (ss fs : list txop) :
  standalone w -> Forall txn_field req -> blen (wires req) < 4611686018427387904 ->
  Forall2 compares (msgs 10 req) cmps -> Forall2 encodes_op (msgs 18 req) ss -> Forall2 encodes_op (msgs 26 req) fs ->
  (forall tag, Z.of_nat (length (msgs tag req)) <= txn_max_ops_ max_txn_ops) ->
  exists out, kv_handle_txn backend_size flush user max_txn_ops w (wires req) =
    Ok (if txn_permitted w cmps ss fs
        then (run_ops w (if forallb (txn_compare_ok w) cmps then ss else fs)).1 else w, out) /\
    (out <> None <-> txn_permitted w cmps ss fs && (run_ops w (if forallb (txn_compare_ok w) cmps then ss else fs)).2 = true).
Proof using Type.
  intros Hw Hf Hb Hc Hs Hfl Hn. unfold kv_handle_txn. change (TXN_MAX_DEPTH - 1)%nat with 15%nat. cbn [txn_at_depth].
  set (nested := Some _). unfold txn_body.
  assert (Ho : holds (mk_op (wires req) (blen (wires req))) req).
  { split_and!; [done| |by eapply Forall_impl; [exact Hf|intros ? [? _]]|done]. split; [done|]. exists []. by rewrite app_nil_r. }
  assert (Hmax : txn_max_ops_ max_txn_ops <= 128) by (unfold txn_max_ops_, TXN_MAX_OPS; repeat case_match; lia).
  destruct (txn_parse_fields req Hf Hb) with (o := mk_op (wires req) (blen (wires req))) as (t & -> & [P1 P2 P3 P4 P5 P6]);
    [apply Forall_forall; intros c [i Hi]%list_elem_of_lookup; destruct (Forall2_lookup_l _ _ _ _ _ Hc Hi) as (x & _ & Hx); by exists x
    |intros tag; specialize (Hn tag); lia|done|].
  cbn [mbind res_bind]. cbv zeta. rewrite P4, P5, P6. rewrite (proj2 (Z.ltb_ge _ _)) by (pose proof (Hn 10); pose proof (Hn 18); pose proof (Hn 26); lia).
  rewrite (compares_functional _ _ _ P1 Hc). unfold txn_permitted. destruct (forallb _ cmps); cbn [negb andb]; [|exists None; split; [done|]; split; [done|discriminate]].
  rewrite (check_ops_ok w 15 (t_success t) (msgs 18 req) ss P2 Hs). cbn [mbind res_bind].
  destruct (forallb _ ss); cbn [negb andb]; [|exists None; split; [done|]; split; [done|discriminate]].
  rewrite (check_ops_ok w 15 (t_failure t) (msgs 26 req) fs P3 Hfl). cbn [mbind res_bind].
  destruct (forallb _ fs); cbn [negb andb]; [|exists None; split; [done|]; split; [done|discriminate]].
  set (succ := forallb (txn_compare_ok w) cmps).
  assert (Hrun : exists rev' cap' out', txn_exec_all backend_size flush nested w (store_revision w) 4096 [0; 0] (if succ then t_success t else t_failure t) =
      Ok ((run_ops w (if succ then ss else fs)).1, if (run_ops w (if succ then ss else fs)).2 then Some (rev', cap', out') else None) /\
      2 <= blen out' /\ blen out' + 14 <= cap').
  { destruct succ; [eapply (txn_exec_all_ok nested _ _ P2)|eapply (txn_exec_all_ok nested _ _ P3)]; try done; by vm_compute. }
  destruct Hrun as (rev' & cap' & out' & -> & H2 & Hroom). cbn [mbind res_bind].
  destruct (run_ops w (if succ then ss else fs)) as [w' ok]. cbn [fst snd]. destruct ok; [|exists None; split; [done|]; split; [done|discriminate]].
  destruct (txn_finish_ok rev' cap' out' succ H2 Hroom) as [resp ->]. cbn [mbind res_bind]. exists (Some resp). split; [done|]. split; [done|discriminate].
Qed.

Lemma compare_of_compares (req : list field) cmps : Forall txn_field req -> Forall2 compare_of (msgs 10 req) cmps -> Forall2 compares (msgs 10 req) cmps.
Proof using Type.
  intros Hf Hc. apply Forall2_same_length_lookup_2; [by eapply Forall2_length|]. intros i c x Hi Hx.
  destruct (Forall2_lookup_lr _ _ _ _ _ _ Hc Hi Hx) as [Hfl Hm]. unfold compares. rewrite compare_interps; [done| |done].
  assert (Hin : FMsg 10 c ∈ req).
  { apply list_elem_of_lookup_2 in Hi. unfold msgs in Hi. apply list_elem_of_omap in Hi as (f & Hf' & Hmsg).
    destruct f as [| |tag d]; [done..|]. destruct (Z.eqb_spec tag 10); [|done]. by simplify_eq. }
  rewrite Forall_forall in Hf. destruct (Hf _ Hin) as [(_ & _ & Hok) _]. by apply fields_ok_Forall.
Qed.

(** C8: Transactions, on a server without raft and with the quota off.  A request
    of comparisons (with the results and targets of the protocol), of plain puts
    and of deletions of single keys, each of which names its key once, in any
    order of its fields, up to the configured number of each kind: it is refused
    without effect unless every key compared may be read and every key of both
    branches may be written.  Otherwise the success branch is chosen when all
    comparisons hold of the keyspace before, and else the failure branch.  When
    the keys of the branch are not empty, its leases exist and no write can fail,
    the transaction is answered and the values of all keys are those its
    operations leave, in order; in general it is answered exactly when every
    operation of the branch succeeds.  (When one fails, those before it stay:
    [txn_not_atomic].) *)
Theorem txn_runs_branch (w : world) (req : list field) (cmps : list cetcd_txn_compare) (ss fs : list txop) :
  world_ok w -> standalone w -> Forall txn_field req -> blen (wires req) < 4611686018427387904 ->
  Forall2 compare_of (msgs 10 req) cmps -> Forall known_compare cmps ->
  Forall2 encodes_op (msgs 18 req) ss -> Forall2 encodes_op (msgs 26 req) fs ->
  (forall tag, Z.of_nat (length (msgs tag req)) <= txn_max_ops_ max_txn_ops) ->
  let handled := kv_handle_txn backend_size flush user max_txn_ops w (wires req) in
  (txn_permitted w cmps ss fs = false -> handled = Ok (w, None)) /\
  (txn_permitted w cmps ss fs = true -> exists xs,
     (Forall (compare_holds (current (w_store w))) cmps /\ xs = ss \/ ~ Forall (compare_holds (current (w_store w))) cmps /\ xs = fs) /\
     (Forall (runnable w) xs -> sure (op_key <$> xs) w ->
        exists w' resp, handled = Ok (w', Some resp) /\ world_ok w' /\ values w' = foldl write_op (values w) xs) /\
     (exists w' out, handled = Ok (w', out) /\ (out <> None <-> (run_ops w xs).2 = true) /\ (out <> None -> w' = (run_ops w xs).1))).
Proof using Type*.
  intros Hok Hw Hf Hb Hc Hknown Hs Hfl Hn handled.
  destruct (txn_handled w req cmps ss fs Hw Hf Hb (compare_of_compares _ _ Hf Hc) Hs Hfl Hn) as (out & Hrun & Hout). fold handled in Hrun.
  assert (Hcmp : forallb (txn_compare_ok w) cmps = true <-> Forall (compare_holds (current (w_store w))) cmps).
  { rewrite List.forallb_forall, Forall_forall. rewrite Forall_forall in Hknown. split; intros Ha c Hin.
    - apply compare_ok_holds; [apply Hok|by apply Hknown|]. apply Ha. by apply list_elem_of_In.
    - apply list_elem_of_In in Hin. apply compare_ok_holds; [apply Hok|by apply Hknown|]. by apply Ha. }
  destruct (txn_permitted w cmps ss fs); cbn [andb] in Hout; (split; [try done|try done]).
  - intros _. exists (if forallb (txn_compare_ok w) cmps then ss else fs). split; [|split].
    + destruct (forallb _ cmps); [left; by split; [apply Hcmp|]|right]. split; [|done]. by rewrite <- Hcmp.
    + intros Hr Hsure. destruct (ops_sure _ w Hok Hr Hsure) as (w' & Hops & Hw' & Hv). rewrite Hops in *. cbn [fst snd] in *.
      destruct out as [resp|]; [by exists w', resp|]. by destruct (proj2 Hout eq_refl).
    + eexists _, out. split_and!; [exact Hrun|exact Hout|done].
  - intros _. destruct out as [b|]; [|done]. assert (Hsome : Some b <> None) by done. apply Hout in Hsome. discriminate.
Qed.
End transactions.
