(* ===== verification/KvFindings.v ===== *)
(** * Key-value requests: concrete runs

    The witnesses of the theorems on the handlers, and runs on which the code
    does not do what it means to do. *)

From S2P Require Import Slice Hash KeyOrder Treap Hashmap Raft RaftWire Wal Backend Mvcc MvccSnap MvccStore Lease LeaseProps LeaseRestart CString Auth AuthProps Cluster ClusterProps ApplyCodec Alarm Pb PbProps PbSafe PbRequests PbResponses Apply ApplyCmd ApplyInv Expiry ApplyProps Kv KvCodec KvProps KvTxn KvTxnProps Prelude.

#[local] Open Scope Z_scope.
#[local] Existing Instance sample_clock.
#[local] Existing Instance sample_libs.

(** Standalone servers: two keys; two keys and a user who may write the keys
    from a up to b; a value of 1100 bytes; a value of 150 bytes; a backend that
    fails once. *)
Definition ab_world : tworld := Eval vm_compute in after fresh_world [CPut key_a [1] 0; CPut key_b [2] 0].

Definition guarded_world : tworld := Eval vm_compute in
  after fresh_world [CPut key_a [1] 0; CPut key_b [2] 0; CUserAdd alice [36; 50]; CRoleAdd reader; CUserGrantRole alice reader;
                     CRoleGrantPerm reader key_a 1 key_b; CUserAdd (bytes_of_string "root") [36; 50]; CAuthEnabled true].

Definition large_world : tworld := Eval vm_compute in after fresh_world [CPut key_a (repeat 1 1100) 0].

Definition medium_world : tworld := Eval vm_compute in after fresh_world [CPut key_a (repeat 1 150) 0].

Definition faulty_world : tworld := Eval vm_compute in
  ab_world <| w_env := mk_mem_env (me_db (w_env ab_world)) [true] |> <| w_store := (w_store ab_world) <| s_backend := true |> |>.

Definition no_size (_ : mem_env) : Z := 0.

Definition do_put (u : option bytes) (w : tworld) (fs : list field) := kv_handle_put no_size no_flush u w (wires fs).
Definition do_delete (u : option bytes) (w : tworld) (fs : list field) := kv_handle_delete_range no_size no_flush u w (wires fs).
Definition do_txn (u : option bytes) (w : tworld) (fs : list field) := kv_handle_txn no_size no_flush u 128 w (wires fs).

(** The values of the keys a and b afterwards, and the response. *)
Definition seen (r : res (tworld * option bytes)) : res (option bytes * option bytes * option bytes) :=
  '(w, out) ← r; Ok (kv_value <$> present_kv w key_a, kv_value <$> present_kv w key_b, out).

(** An operation of the success branch. *)
Definition put_op (key value : bytes) : field := FMsg 18 [FMsg 18 [FLen 10 key; FLen 18 value]].

(** Reading a pair of more than 1024 bytes writes past the buffer on the stack:
    a put is accepted, and the next get of the key is undefined. *)
Theorem large_value_overruns :
  kv_handle_range None large_world (wires [FLen 10 key_a]) = Undef /\
  kv_handle_range None large_world (wires [FLen 10 key_a; FVar 64 1]) =
    Ok (Some (wires [FMsg 10 [FVar 24 1]; FMsg 18 [FLen 10 key_a; FVar 16 1; FVar 24 1; FVar 32 1]; FVar 32 1])) /\
  do_delete None large_world [FLen 10 key_a; FVar 24 1] = Undef.
Proof. split_and!; vm_compute; reflexivity. Qed.

(** A put whose key occurs twice passes the permission check of a transaction
    with its first key and writes the second: alice may not write the key b, by
    a put or by a transaction that names it once, but writes it this way. *)
Theorem txn_permission_bypass :
  seen (do_put (Some alice) guarded_world [FLen 10 key_b; FLen 18 [9]]) = Ok (Some [1], Some [2], None) /\
  seen (do_txn (Some alice) guarded_world [put_op key_b [9]]) = Ok (Some [1], Some [2], None) /\
  exists out, seen (do_txn (Some alice) guarded_world [FMsg 18 [FMsg 18 [FLen 10 key_a; FLen 10 key_b; FLen 18 [9]]]]) =
    Ok (Some [1], Some [9], Some out).
Proof. split_and!; [vm_compute; reflexivity..|]. eexists. vm_compute. reflexivity. Qed.

(** A deletion checks the permission of its first key only: with the right to
    write the keys from a up to b, alice deletes every key. *)
Theorem delete_range_bypass :
  cetcd_v3rpc_check_key_perm (Some alice) guarded_world true (Some key_b) = -1 /\
  exists out, seen (do_delete (Some alice) guarded_world [FLen 10 key_a; FLen 18 [0]]) = Ok (None, None, Some out).
Proof. split; [vm_compute; reflexivity|]. eexists. vm_compute. reflexivity. Qed.

(** A transaction proposes its operations one by one: when the second fails,
    the first stays, although the transaction is answered with an error. *)
Theorem txn_not_atomic :
  seen (do_txn None ab_world [put_op key_a [9]; FMsg 18 [FMsg 18 [FLen 18 [1]]]]) = Ok (Some [9], Some [2], None).
Proof. vm_compute. reflexivity. Qed.

(** The response of a deletion inside a transaction is empty, and the header of
    every inner response: the return code 0 of write_varint_local is stored as
    the length. *)
Theorem txn_responses_lost :
  seen (do_txn None ab_world [FMsg 18 [FMsg 26 [FLen 10 key_a]]]) =
    Ok (None, Some [2], Some (wires [FMsg 10 [FVar 24 3]; FMsg 26 [FMsg 26 []]; FVar 16 1])) /\
  seen (do_txn None ab_world [put_op key_a [9]]) =
    Ok (Some [9], Some [2], Some (wires [FMsg 10 [FVar 24 3]; FMsg 26 [FMsg 18 [FMsg 10 []]]; FVar 16 1])).
Proof. split; vm_compute; reflexivity. Qed.

Definition medium_response : bytes := Eval vm_compute in
  match do_txn None medium_world [FMsg 18 [FMsg 10 [FLen 10 key_a]]] with Ok (_, Some out) => out | _ => [] end.

(** A response of an operation of 128 bytes and more gets a length that is one
    byte short: reading a value of 150 bytes in a transaction gives a response
    that no parser accepts. *)
Theorem txn_response_misframed : exists out,
  seen (do_txn None medium_world [FMsg 18 [FMsg 10 [FLen 10 key_a]]]) = Ok (Some (repeat 1 150), None, Some out) /\
  Pb.parse (table []) tt out = Fail CETCD_ERR_INVAL.
Proof. exists medium_response. split; vm_compute; reflexivity. Qed.

(** With the previous pair requested, a deletion the backend refused is
    answered with one deleted key, which is still there. *)
Theorem failed_delete_reported :
  seen (do_delete None faulty_world [FLen 10 key_a; FVar 24 1]) =
    Ok (Some [1], Some [2], Some (wires [FMsg 10 [FVar 24 2]; FVar 16 1; FMsg 26 [FLen 10 key_a; FVar 16 1; FVar 24 1; FVar 32 1; FLen 42 [1]]])).
Proof. vm_compute. reflexivity. Qed.

(** A request of eleven bytes stops the handlers. *)
Theorem handlers_hang :
  kv_handle_put no_size no_flush None ab_world rewind = Loop /\ kv_handle_range None ab_world rewind = Loop /\
  kv_handle_delete_range no_size no_flush None ab_world rewind = Loop /\
  kv_handle_txn no_size no_flush None 128 ab_world rewind = Loop /\
  kv_handle_compact no_size no_flush ab_world rewind = Loop.
Proof. split_and!; vm_compute; reflexivity. Qed.

(** ** Witnesses *)

Lemma kv_range_spec_witness :
  let req := wires [FLen 10 key_a; FLen 18 [0]; FVar 40 2; FVar 24 1] in
  kv_handle_range None ab_world req =
    Ok (Some (wires (range_fields 2 false ([mk_kv key_b [2] (mk_rev 2 0) (mk_rev 2 0) 1 0], true, 2)))) /\
  exists all, StronglySorted (in_order 2 0) all /\ blen all = 2.
Proof.
  cbv zeta. destruct (kv_range_spec None ab_world (wires [FLen 10 key_a; FLen 18 [0]; FVar 40 2; FVar 24 1])
    (mk_range_request key_a [0] 0 1 2 0 false false false 0 0 0 0)) as [-> H].
  - vm_compute. reflexivity.
  - vm_compute. reflexivity.
  - change (match Some ([mk_kv key_b [2] (mk_rev 2 0) (mk_rev 2 0) 1 0], true, 2) with
      Some (kvs, _, count) => Forall kv_fits kvs /\ count < 268435456 | None => True end).
    split; [apply Forall_singleton|lia]. split; [vm_compute; discriminate|]. split; vm_compute; (reflexivity || discriminate).
  - split; [vm_compute; reflexivity|].
    destruct (H [mk_kv key_a [1] (mk_rev 1 0) (mk_rev 1 0) 1 0; mk_kv key_b [2] (mk_rev 2 0) (mk_rev 2 0) 1 0]) as (all & Hp & Hs & _).
    + discriminate.
    + vm_compute. reflexivity.
    + exists all. split; [apply Hs; left; reflexivity|]. apply Permutation_length in Hp. unfold blen. rewrite Hp. reflexivity.
Defined.

Lemma ab_world_ok : world_ok ab_world.
Proof.
  replace ab_world with (after fresh_world [CPut key_a [1] 0; CPut key_b [2] 0]) by (vm_compute; reflexivity).
  apply steps_ok, after_steps; repeat constructor; vm_compute; (reflexivity || discriminate).
Qed.


Lemma txn_runs_branch_witness : exists w' out,
  do_txn None ab_world
    [FMsg 10 [FLen 26 key_a; FVar 32 1]; FMsg 18 [FMsg 18 [FLen 10 key_b; FLen 18 [9]]]; FMsg 26 [FMsg 26 [FLen 10 key_a]]] =
    Ok (w', Some out) /\ values w' = <[key_b := [9]]> (values ab_world).
Proof.
  destruct (txn_runs_branch no_size no_flush None 128 ab_world
    [FMsg 10 [FLen 26 key_a; FVar 32 1]; FMsg 18 [FMsg 18 [FLen 10 key_b; FLen 18 [9]]]; FMsg 26 [FMsg 26 [FLen 10 key_a]]]
    [zero_txn_compare <| tc_key := key_a |> <| tc_version := 1 |>] [OPut key_b [9] 0] [ODelete key_a]) as [_ Hrun].
  - exact ab_world_ok.
  - split; reflexivity.
  - repeat (apply List.Forall_cons; [split; [repeat split; (reflexivity || lia || discriminate)|auto]|]). apply List.Forall_nil.
  - reflexivity.
  - apply Forall2_cons_2; [|apply Forall2_nil_2]. split; [|reflexivity]. repeat (apply List.Forall_cons; [exact I|]). apply List.Forall_nil.
  - apply List.Forall_cons; [|apply List.Forall_nil]. repeat split; discriminate.
  - apply Forall2_cons_2; [|apply Forall2_nil_2]. split; [reflexivity|]. split; [reflexivity|]. split; [split; (reflexivity || discriminate)|].
    exists [FLen 10 key_b; FLen 18 [9]]. split; [reflexivity|]. split; [|split; reflexivity].
    repeat (apply List.Forall_cons; [exact I|]). apply List.Forall_nil.
  - apply Forall2_cons_2; [|apply Forall2_nil_2]. split; [reflexivity|].
    exists [FLen 10 key_a]. split; [reflexivity|]. split; [|split; reflexivity].
    apply List.Forall_cons; [exact I|apply List.Forall_nil].
  - intros tag. unfold msgs. cbn [omap list_omap]. change (txn_max_ops_ 128) with 128.
    destruct (10 =? tag), (18 =? tag), (26 =? tag); cbn [length]; lia.
  - assert (Hp : txn_permitted None ab_world [zero_txn_compare <| tc_key := key_a |> <| tc_version := 1 |>] [OPut key_b [9] 0] [ODelete key_a] = true) by (vm_compute; reflexivity).
    destruct (Hrun Hp) as (xs & [[_ ->]|[Hno _]] & Hall & _).
    + destruct Hall as (w' & resp & Hh & _ & Hv); [|left; reflexivity|exists w', resp; split; [exact Hh|exact Hv]].
      apply List.Forall_cons; [split; [discriminate|intros Hpos; discriminate Hpos]|apply List.Forall_nil].
    + destruct Hno. apply List.Forall_cons; [|apply List.Forall_nil]. vm_compute. left. split; [reflexivity|]. left. split; reflexivity.
Defined.
