(* ===== verification/LeaseRpc.v ===== *)
(** * Lease requests (src/v3rpc/lease_handler.c)

    The handlers of LeaseGrant, LeaseRevoke, LeaseKeepAlive, LeaseTimeToLive
    and LeaseLeases over the globals of the RPC layer, from the bytes of a
    request to those of the response; NULL is [None].  The buffers have the
    sizes of the source. *)

From S2P Require Import Slice Hash KeyOrder Treap Hashmap Raft RaftWire Wal Backend Mvcc Lease CString Auth Cluster ApplyCodec Alarm Pb PbRequests Apply Kv Prelude.

#[local] Open Scope Z_scope.

(** ** Parsing: the tables of src/server/auto_compact.c once more *)

(** The time to live and the id. *)
Definition parse_lease_grant_request_ (m : bytes) (len : Z) : res (option (Z * Z)) :=
  or_minus_one (parse_at (table [
    (0x08, Avarint (fun '(_, id) v => up_to INT64_MAX (fun v => (v, id)) v));
    (0x10, Avarint (fun '(ttl, _) v => up_to INT64_MAX (fun v => (ttl, v)) v))]) (0, 0) m len).

(** The id and whether keys are wanted. *)
Definition parse_lease_id_request_ (m : bytes) (len : Z) : res (option (Z * bool)) :=
  or_minus_one (parse_at (table [
    (0x08, Avarint (fun '(_, keys) v => up_to INT64_MAX (fun v => (v, keys)) v));
    (0x10, Avarint (fun '(id, _) v => up_to INT64_MAX (fun v => (id, nonzero v)) v))]) (0, false) m len).

(** ** Responses *)

Definition make_lease_response (rev id ttl : Z) : res bytes :=
  hdr ← revision_header 16 rev;
  out ← delim_out 64 [] 0x0a hdr;
  out ← put 64 out 0x10;
  let out := varint_out 64 out (u64 id) in
  out ← put 64 out 0x18;
  Ok (varint_out 64 out (if 0 <? ttl then ttl else 0)).

(** The keys of a lease under tag 5. *)
Fixpoint lease_keys_out (cap : Z) (out : bytes) (keys : list bytes) : res bytes :=
  match keys with
  | [] => Ok out
  | key :: keys => out ← delim_out cap out 0x2a key; lease_keys_out cap out keys
  end.

(** One round of the loop that sizes the buffer. *)
Definition keys_size (keys : list bytes) : Z := foldl (fun n key => u64 (n + (1 + 5 + blen key))) 0 keys.

(** A varint written byte by byte into an array of [cap] bytes, without a
    check. *)
Fixpoint raw_varint_loop (n : nat) (cap : Z) (buf : bytes) (v : Z) : res bytes :=
  match n with
  | O => Undef
  | S n =>
      let b := Z.land v 127 in
      let v := Z.shiftr v 7 in
      buf ← put cap buf (if v =? 0 then b else Z.lor b 128);
      if v =? 0 then Ok buf else raw_varint_loop n cap buf v
  end.

(** The statuses of the leases, in a buffer of [cap] bytes. *)
Fixpoint lease_statuses (cap : Z) (out : bytes) (ids : list Z) : res bytes :=
  match ids with
  | [] => Ok out
  | id :: ids =>
      ls ← put 16 [] 0x08;
      ls ← raw_varint_loop 10 16 ls id;
      out ← put cap out 0x12;
      out ← raw_varint_loop 10 cap out (blen ls);
      out ← copy_out cap out ls;
      lease_statuses cap out ids
  end.

(** ** The handlers *)

Section LeaseRpc.
  Context {T : Type -> Type} {E Tx : Type} `{!KeyIndex T, !Lmdb E Tx, !Clock, !AuthLibs}.
  Context (backend_size : E -> Z) (flush : world T E -> option (world T E)).
  Local Notation world := (world T E).

Definition lease_handle_grant (w : world) (req : bytes) : res (world * option bytes) :=
  pr ← parse_lease_grant_request_ req (blen req);
  match pr with
  | None => null w
  | Some (ttl, id) =>
      if ttl <=? 0 then null w
      else if CETCD_MAX_LEASE_TTL <? ttl then null w
      else if (0 <? id) && cetcd_lease_exists (w_mgr w) id then null w
      else
        let lid := if 0 <? id then id else cetcd_lease_next_id (w_mgr w) in
        if lid =? 0 then null w
        else
          '(w, rc) ← propose backend_size flush w (cetcd_apply_encode_lease_grant lid ttl);
          if rc <? 0 then null w
          else out ← make_lease_response (store_revision w) lid ttl; Ok (w, Some out)
  end.

Definition lease_handle_revoke (w : world) (req : bytes) : res (world * option bytes) :=
  pr ← parse_lease_id_request_ req (blen req);
  match pr with
  | None => null w
  | Some (id, _) =>
      if id <=? 0 then null w
      else if negb (cetcd_lease_exists (w_mgr w) id) then null w
      else
        '(w, rc) ← propose backend_size flush w (cetcd_apply_encode_lease_revoke id);
        if rc <? 0 then null w
        else
          hdr ← revision_header 32 (store_revision w);
          out ← delim_out 64 [] 0x0a hdr;
          Ok (w, Some out)
  end.

Definition lease_handle_keep_alive (w : world) (req : bytes) : res (world * option bytes) :=
  pr ← parse_lease_id_request_ req (blen req);
  match pr with
  | None => null w
  | Some (id, _) =>
      if id <=? 0 then null w
      else if negb (cetcd_lease_exists (w_mgr w) id) then
        out ← make_lease_response (store_revision w) id 0; Ok (w, Some out)
      else
        let granted := cetcd_lease_granted_ttl (w_mgr w) id in
        let granted := if granted <=? 0 then 60 else granted in
        '(w, rc) ← propose backend_size flush w (cetcd_apply_encode_lease_keepalive id granted);
        if rc <? 0 then null w
        else
          out ← make_lease_response (store_revision w) id (cetcd_lease_ttl_remaining (w_mgr w) id);
          Ok (w, Some out)
  end.

Definition lease_handle_time_to_live (w : world) (req : bytes) : res (option bytes) :=
  pr ← parse_lease_id_request_ req (blen req);
  match pr with
  | None => Ok None
  | Some (id, want_keys) =>
      let found := (0 <? id) && cetcd_lease_exists (w_mgr w) id in
      let ttl := if found then cetcd_lease_ttl_remaining (w_mgr w) id else 0 in
      let granted_ttl := if found then cetcd_lease_granted_ttl (w_mgr w) id else 0 in
      hdr ← revision_header 16 (store_revision w);
      let keys := if want_keys && found then cetcd_lease_keys (w_mgr w) id else [] in
      let cap := 128 + keys_size keys in
      out ← delim_out cap [] 0x0a hdr;
      out ← put cap out 0x10;
      let out := varint_out cap out (u64 id) in
      out ← put cap out 0x18;
      let out := varint_out cap out (u64 (if negb found then -1 else if 0 <? ttl then ttl else 0)) in
      out ← (if found && (0 <? granted_ttl) then
               out ← put cap out 0x20; Ok (varint_out cap out (u64 granted_ttl))
             else Ok out);
      out ← lease_keys_out cap out keys;
      Ok (Some out)
  end.

Definition lease_handle_leases (w : world) : res (option bytes) :=
  hdr ← revision_header 16 (store_revision w);
  let count := cetcd_lease_mgr_count (w_mgr w) in
  ls ← (if 0 <? count then
          let ids := default [] (cetcd_lease_mgr_leases (w_mgr w) (Z.to_nat count)) in
          lease_statuses (blen ids * 16 + 1) [] ids
        else Ok []);
  let total := 2 + blen hdr + blen ls in
  out ← delim_out total [] 0x0a hdr;
  out ← copy_out total out ls;
  Ok (Some out).

End LeaseRpc.
