(* ===== verification/LeaseRpcProps.v ===== *)
(** * Lease requests: what the handlers do

    The bytes of the five responses as lists of fields, the effect of the
    handlers on the map of leases, and what goes wrong at the edges. *)

From S2P Require Import Slice Hash KeyOrder Treap Hashmap Raft RaftWire Wal Backend Mvcc MvccSnap MvccStore MvccLoad Lease LeaseProps LeaseRestart CString Auth AuthProps Cluster ClusterProps ApplyCodec Alarm Pb PbProps PbSafe PbRequests PbResponses PbCodec Apply ApplyCmd ApplyInv Kv KvCodec KvProps LeaseRpc Prelude.

#[local] Open Scope Z_scope.

(** ** The bytes of the responses *)

(** A time to live that is not negative. *)
Definition lease_answer (rev id ttl : Z) : list field := [FMsg 10 (header_fields rev); FVar 16 (u64 id); FVar 24 ttl].

(** The answer to a query: -1 for a lease that does not exist. *)
Definition ttl_answer (rev now id : Z) (want_keys : bool) (li : option lease_info) : list field :=
  match li with
  | None => lease_answer rev id (u64 (-1))
  | Some li =>
      lease_answer rev id (Z.max 0 (li_deadline li - now) / 1000) ++ [FVar 32 (li_ttl li)] ++
      (if want_keys then map (FLen 42) (li_keys li) else [])
  end.

Definition leases_answer (rev : Z) (ids : list Z) : list field :=
  FMsg 10 (header_fields rev) :: map (fun id => FMsg 18 [FVar 8 id]) ids.

Lemma header_size rev : blen (wires [FMsg 10 (header_fields rev)]) <= 13.
Proof.
  destruct (revision_header_ok 16 rev ltac:(lia)) as [_ Hb]. rewrite wires_cons, wires_nil, app_nil_r. cbn [wire].
  change (concat (map wire (header_fields rev))) with (wires (header_fields rev)). unfold delimited. rewrite blen_cons, blen_app.
  rewrite wire_u64_small by lia. rewrite blen_cons. change (blen (@nil Z)) with 0. lia.
Qed.

(** The part the responses share. *)
Lemma lease_answer_out {A} cap rev id ttl (k : bytes -> res A) : 64 <= cap -> in_u64 ttl ->
  (hdr ← revision_header 16 rev;
   out ← delim_out cap [] 0x0a hdr;
   out ← put cap out 0x10;
   let out := varint_out cap out (u64 id) in
   out ← put cap out 0x18;
   k (varint_out cap out ttl)) = k (wires (lease_answer rev id ttl)) /\
  blen (wires (lease_answer rev id ttl)) <= 35.
Proof.
  intros Hc Ht. destruct (revision_header_ok 16 rev ltac:(lia)) as [-> _]. cbn [mbind res_bind]. cbv zeta.
  change 0x0a with 10. rewrite header_delim by (change (blen (@nil Z)) with 0; lia). cbn [mbind res_bind app].
  pose proof (header_size rev) as Hh. unfold lease_answer. rewrite wires_cons, wires_nil, app_nil_r in Hh. rewrite !wires_cons, wires_nil, !app_nil_r.
  set (h := wire (FMsg 10 (header_fields rev))) in *. pose proof (blen_nonneg h).
  write_var. rewrite put_room by sizes. cbn [mbind res_bind]. rewrite varint_out_ok by (done || sizes). rewrite <- !app_assoc. split; [done|].
  cbn [wire]. rewrite !blen_app, !blen_cons. pose proof (wire_u64_blen (u64 id)). pose proof (wire_u64_blen ttl). lia.
Qed.

Lemma make_lease_response_ok rev id ttl : 0 <= ttl <= INT64_MAX ->
  make_lease_response rev id ttl = Ok (wires (lease_answer rev id ttl)).
Proof.
  intros Ht. unfold make_lease_response.
  assert (E : (if 0 <? ttl then ttl else 0) = ttl) by (destruct (Z.ltb_spec 0 ttl); lia). rewrite E.
  apply (lease_answer_out 64 rev id ttl Ok); [lia|unfold in_u64, INT64_MAX in *; lia].
Qed.

(** Room for the keys of a lease: five bytes hold the length of each. *)
Definition keys_fit (keys : list bytes) : Prop := Forall (fun k => blen k < 2 ^ 35) keys /\ blen keys < 2 ^ 28.

Lemma keys_size_spec keys : keys_fit keys -> keys_size keys = foldr (fun k n => 6 + blen k + n) 0 keys.
Proof.
  intros [Hk Hn]. unfold keys_size.
  assert (H : forall acc, 0 <= acc -> acc + blen keys * (6 + 2 ^ 35) < 2 ^ 64 ->
    foldl (fun n key => u64 (n + (1 + 5 + blen key))) acc keys = acc + foldr (fun k n => 6 + blen k + n) 0 keys).
  { clear Hn. induction Hk as [|k keys Hk _ IH]; intros acc Ha Hb; cbn [foldl foldr]; [lia|].
    rewrite blen_cons in Hb. pose proof (blen_nonneg k). pose proof (blen_nonneg keys).
    rewrite u64_small by (unfold in_u64; lia). rewrite IH; lia. }
  rewrite H; lia.
Qed.

Lemma lease_keys_out_ok keys : Forall (fun k => blen k < 2 ^ 35) keys -> forall cap out,
  blen out + foldr (fun k n => 6 + blen k + n) 0 keys <= cap ->
  lease_keys_out cap out keys = Ok (out ++ wires (map (FLen 42) keys)).
Proof.
  induction 1 as [|k keys Hk Hf IH]; intros cap out Hc; cbn [lease_keys_out map foldr] in *.
  - by rewrite wires_nil, app_nil_r.
  - pose proof (blen_nonneg k) as Hk0. assert (Hr : 0 <= foldr (fun k n => 6 + blen k + n) 0 keys).
    { clear. induction keys as [|x l IH]; cbn [foldr]; [lia|]. pose proof (blen_nonneg x). lia. }
    assert (Hd : blen (delimited 42 k) <= 6 + blen k).
    { unfold delimited. rewrite blen_cons, blen_app. pose proof (wire_u64_len (blen k) 5 ltac:(lia) ltac:(change (2 ^ (7 * Z.of_nat 5)) with (2 ^ 35); lia)). lia. }
    change 0x2a with 42. rewrite delim_out_ok by (unfold short; lia). cbn [mbind res_bind].
    rewrite IH by (rewrite blen_app; lia). by rewrite wires_cons, app_assoc.
Qed.

(** The unchecked writer. *)
Lemma raw_varint_ok cap buf v : in_u64 v -> blen buf + blen (wire_u64_ v) <= cap ->
  raw_varint_loop 10 cap buf v = Ok (buf ++ wire_u64_ v).
Proof.
  intros Hv. unfold wire_u64_. unfold in_u64 in Hv.
  assert (H : forall n b v, (0 < n)%nat -> 0 <= v < 2 ^ (7 * Z.of_nat n) -> blen b + blen (wire_loop n v) <= cap ->
    raw_varint_loop n cap b v = Ok (b ++ wire_loop n v)).
  { clear. induction n as [|n IH]; intros b v Hn Hv Hc; [lia|]. cbn [raw_varint_loop wire_loop] in *. cbv zeta in *.
    rewrite Z.shiftr_div_pow2 in * by lia. change (2 ^ 7) with 128 in *. pose proof (blen_nonneg b).
    destruct (Z.eqb_spec (v / 128) 0) as [|Hz].
    - rewrite blen_cons in Hc. change (blen (@nil Z)) with 0 in Hc. rewrite put_room by lia. done.
    - rewrite blen_cons in Hc. rewrite put_room by (pose proof (blen_nonneg (wire_loop n (v / 128))); lia). cbn [mbind res_bind].
      rewrite Nat2Z.inj_succ, Z.mul_succ_r, Z.pow_add_r in Hv by lia. change (2 ^ 7) with 128 in Hv.
      assert (Hq : 0 <= v / 128 < 2 ^ (7 * Z.of_nat n)) by (split; [apply Z.div_pos; lia|apply Z.div_lt_upper_bound; lia]).
      destruct n as [|n]; [cbn in Hq; lia|]. rewrite IH; [by rewrite <- app_assoc|lia|done|].
      rewrite blen_app, blen_cons. change (blen (@nil Z)) with 0. lia. }
  intros Hc. apply H; [lia|cbn; lia|done].
Qed.

Lemma lease_statuses_ok ids : Forall in_u64 ids -> forall cap out, blen out + 16 * blen ids <= cap ->
  lease_statuses cap out ids = Ok (out ++ wires (map (fun id => FMsg 18 [FVar 8 id]) ids)).
Proof.
  induction 1 as [|id ids Hid Hf IH]; intros cap out Hc; cbn [lease_statuses map].
  { by rewrite wires_nil, app_nil_r. }
  rewrite blen_cons in Hc. pose proof (blen_nonneg ids). pose proof (blen_nonneg out). pose proof (wire_u64_blen id).
  rewrite (put_room 16 [] 8) by (change (blen (@nil Z)) with 0; lia). cbn [mbind res_bind app].
  rewrite raw_varint_ok by (done || (rewrite blen_cons; change (blen (@nil Z)) with 0; lia)). cbn [mbind res_bind].
  set (ls := [0x08] ++ wire_u64_ id). assert (Hls : 2 <= blen ls <= 11) by (unfold ls; rewrite blen_app, blen_cons; change (blen (@nil Z)) with 0; lia).
  assert (Ew : wire_u64_ (blen ls) = [blen ls]) by (apply wire_u64_small; lia).
  rewrite put_room by lia. cbn [mbind res_bind].
  rewrite raw_varint_ok by (unfold in_u64; rewrite ?Ew, ?blen_app, ?blen_cons; change (blen (@nil Z)) with 0; lia). cbn [mbind res_bind].
  rewrite Ew. rewrite copy_room by (rewrite !blen_app, !blen_cons; change (blen (@nil Z)) with 0; lia). cbn [mbind res_bind].
  rewrite IH by (rewrite !blen_app, !blen_cons; change (blen (@nil Z)) with 0; lia). rewrite wires_cons. f_equal.
  cbn [wire map concat]. rewrite app_nil_r. change (8 :: wire_u64_ id) with ls. unfold delimited. rewrite Ew. by rewrite <- !app_assoc.
Qed.

(** ** The effect of the commands *)

Section handlers.
  Context {T : Type -> Type} {E Tx : Type} `{!KeyIndex T, !KeyIndexLaws T, !Lmdb E Tx, !LmdbLaws E Tx, !Clock, !AuthLibs}.
  Context (backend_size : E -> Z) (flush : world T E -> option (world T E)).
  Local Notation world := (world T E).

(** The manager as the commands see it. *)
Definition mgr_in (w : world) : cetcd_lease_mgr E := (w_mgr w) <| m_env := w_env w |>.

Lemma grant_world (w : world) id ttl : lease_ok (w_mgr w) -> 0 < id < 2 ^ 64 - 1 -> bad_ttl ttl = false -> leases_of (w_mgr w) !! id = None ->
  let '(w', rc) := apply_lease_grant w id ttl in
  w_store w' = w_store w /\ (write_ok (mgr_in w) -> rc = 0) /\
  leases_of (w_mgr w') = (if rc =? 0 then <[id := mk_info ttl (m_now_ms (w_mgr w) + ttl * 1000) []]> (leases_of (w_mgr w)) else leases_of (w_mgr w)).
Proof using Type.
  intros Hm Hid Ht Hnew. pose proof Ht as Hb. apply bad_ttl_false in Hb. unfold CETCD_MAX_LEASE_TTL in Hb. unfold apply_lease_grant.
  rewrite (i64_small ttl) by lia. destruct (Z.ltb_spec CETCD_MAX_LEASE_TTL ttl) as [Hx|_]; [unfold CETCD_MAX_LEASE_TTL in Hx; lia|].
  assert (Hex : cetcd_lease_exists (w_mgr w) id = false) by (rewrite exists_map by done; by rewrite Hnew). rewrite Hex.
  destruct (on_mgr_frame w (fun m => cetcd_lease_grant_id m id ttl)) as (F1 & F2 & F3 & _).
  destruct (grant_id_spec (mgr_in w) id ttl (mgr_env_ok _ (w_env w) Hm) ltac:(lia)) as [[_ _ _ G4] Gw]. unfold mgr_in in *.
  destruct (on_mgr w _) as [w' r]. cbn [fst snd] in *. rewrite <- F1 in G4. rewrite <- F2 in G4, Gw. rewrite mgr_env_leases in G4.
  split_and!; [done| |].
  - intros Hw. rewrite Gw by done. change (cetcd_lease_exists _ id) with (cetcd_lease_exists (w_mgr w) id). rewrite Hex, Ht.
    rewrite (proj2 (Z.eqb_neq id 0)) by lia. cbn [orb]. by rewrite (proj2 (Z.eqb_neq id 0)) by lia.
  - destruct G4 as [[-> ->]|(-> & _ & _ & ->)]; [done|]. by rewrite (proj2 (Z.eqb_neq id 0)) by lia.
Qed.

Lemma keepalive_world (w : world) id li : lease_ok (w_mgr w) -> leases_of (w_mgr w) !! id = Some li -> bad_ttl (li_ttl li) = false ->
  let '(w', rc) := apply_lease_keepalive w id (li_ttl li) in
  w_store w' = w_store w /\ lease_ok (w_mgr w') /\ m_now_ms (w_mgr w') = m_now_ms (w_mgr w) /\ (write_ok (mgr_in w) -> rc = 0) /\
  leases_of (w_mgr w') =
    (if rc =? 0 then <[id := mk_info (li_ttl li) (m_now_ms (w_mgr w) + li_ttl li * 1000) (li_keys li)]> (leases_of (w_mgr w)) else leases_of (w_mgr w)).
Proof using Type.
  intros Hm Hl Ht. pose proof Ht as Hb. apply bad_ttl_false in Hb. unfold CETCD_MAX_LEASE_TTL in Hb. unfold apply_lease_keepalive.
  set (ttl := li_ttl li) in *. rewrite (i64_small ttl) by lia.
  destruct (Z.ltb_spec CETCD_MAX_LEASE_TTL ttl) as [Hx|_]; [unfold CETCD_MAX_LEASE_TTL in Hx; lia|].
  rewrite exists_map, Hl by done. rewrite bool_decide_true by eauto. cbn [negb].
  destruct (on_mgr_frame w (fun m => cetcd_lease_keep_alive m id ttl)) as (F1 & F2 & F3 & _).
  pose proof (keep_alive_spec (mgr_in w) id ttl (mgr_env_ok _ (w_env w) Hm) Ht) as Hk. unfold mgr_in in *.
  destruct (on_mgr w _) as [w' st]. cbn [fst snd] in *. destruct (cetcd_lease_keep_alive _ id ttl) as [m rc]. cbn [fst snd] in *. subst m rc.
  destruct Hk as (K1 & K2 & _ & K4 & _ & K6). rewrite mgr_env_leases in K4, K6.
  split_and!; [done|done|exact K2| |].
  - intros Hw. rewrite (K6 Hw) by eauto. done.
  - rewrite K4. destruct (is_ok st); [|done]. cbn [Z.eqb]. apply map_eq. intros k. destruct (decide (k = id)) as [->|Hne].
    + by rewrite lookup_alter_eq, lookup_insert_eq, Hl.
    + by rewrite lookup_alter_ne, lookup_insert_ne.
Qed.

(** No write of a revocation can fail: there is no backend, or one that never
    fails, holds the row of the lease and fits its keys. *)
Definition revoke_sure (w : world) (id : Z) (li : lease_info) : Prop :=
  s_backend (w_store w) = false /\ m_backend (w_mgr w) = false \/
  never_fails (w_env w) /\ Forall db_key (li_keys li) /\ is_Some (be_view (w_env w) LEASE_BUCKET !! write_le64_ id).

Lemma revoke_keys (w : world) id li : store_ok (w_store w) -> current (w_store w) !! [] = None -> NoDup (li_keys li) -> revoke_sure w id li ->
  let w' := (on_store w (fun s => cetcd_mvcc_delete_keys s (li_keys li))).1 in
  (forall k, current (w_store w') !! k = if decide (k ∈ li_keys li) then None else current (w_store w) !! k) /\
  (m_backend (w_mgr w) = false \/ never_fails (w_env w') /\ is_Some (be_view (w_env w') LEASE_BUCKET !! write_le64_ id)).
Proof using Type*.
  intros Hs Hempty Hnd Hsure w'. set (s0 := (w_store w) <| s_env := w_env w |>).
  destruct (delete_keys_sure s0 (li_keys li) (store_env_ok _ _ Hs)) as (D1 & D2 & D3). cbv zeta in *.
  destruct (on_store_frame w (fun s => cetcd_mvcc_delete_keys s (li_keys li))) as (F1 & _). fold s0 in F1. fold w' in F1.
  assert (Henv : w_env w' = s_env (cetcd_mvcc_delete_keys s0 (li_keys li)).1)
    by (unfold w', on_store; fold s0; by destruct (cetcd_mvcc_delete_keys s0 (li_keys li))).
  rewrite Henv. split.
  - assert (Hcur : current (w_store w') = foldl (fun m k => delete k m) (current s0) (batch_keys s0 (li_keys li))).
    { rewrite F1. apply D1. destruct Hsure as [[Hb _]|(Hn & Hk & _)]; [left; exact Hb|right; split; [exact Hn|exact Hk]]. }
    intros k. rewrite Hcur. change (current (w_store w)) with (current s0). by apply batch_lookup.
  - destruct Hsure as [[_ ?]|(Hn & Hk & Hrow)]; [by left|right]. split; [by apply D2|]. by rewrite D3.
Qed.

(** A revocation: the keys of the lease go together or not at all, and so does
    the lease; when no write can fail, all of them go. *)
Lemma revoke_world (w : world) id li : world_ok w -> leases_of (w_mgr w) !! id = Some li ->
  let '(w', rc) := apply_lease_revoke_ w id in
  rc = 0 /\ (leases_of (w_mgr w') = delete id (leases_of (w_mgr w)) \/ leases_of (w_mgr w') = leases_of (w_mgr w)) /\
  (current (w_store w') = current (w_store w) \/
   forall k, current (w_store w') !! k = if decide (k ∈ li_keys li) then None else current (w_store w) !! k) /\
  (revoke_sure w id li -> leases_of (w_mgr w') = delete id (leases_of (w_mgr w)) /\
     forall k, current (w_store w') !! k = if decide (k ∈ li_keys li) then None else current (w_store w) !! k).
Proof using Type*.
  intros [O1 O2 O3 O4 _ _ _] Hl. specialize (O4 I). pose proof (leases_pos (w_mgr w) id O3 ltac:(eauto)) as Hp. unfold apply_lease_revoke_.
  rewrite (proj2 (Z.eqb_neq id 0)) by lia. pose proof Hl as Hb. rewrite by_id_lookup in Hb by done.
  assert (Hkeys : cetcd_lease_keys (w_mgr w) id = li_keys li /\ NoDup (li_keys li)).
  { unfold cetcd_lease_keys. destruct (lease_by_id_ (w_mgr w) id) as [[i l]|] eqn:Hf; [|done]. cbn in Hb. injection Hb as <-. split; [done|].
    apply by_id_some in Hf as [Hi _]. apply (lw_nodup l). pose proof (lo_wf _ O3) as Hw. rewrite Forall_forall in Hw.
    apply Hw. by eapply list_elem_of_lookup_2. }
  destruct Hkeys as [-> Hnd]. set (w1 := if 0 <? blen (li_keys li) then _ else w).
  assert (H1 : w_mgr w1 = w_mgr w /\ (current (w_store w1) = current (w_store w) \/
    forall k, current (w_store w1) !! k = if decide (k ∈ li_keys li) then None else current (w_store w) !! k) /\
    (revoke_sure w id li -> (forall k, current (w_store w1) !! k = if decide (k ∈ li_keys li) then None else current (w_store w) !! k) /\
       (m_backend (w_mgr w) = false \/ never_fails (w_env w1) /\ is_Some (be_view (w_env w1) LEASE_BUCKET !! write_le64_ id)))).
  { unfold w1. destruct (Z.ltb_spec 0 (blen (li_keys li))) as [Hpos|Hz].
    - pose proof (revoke_keys w id li O1 O2 Hnd) as Hall.
      pose proof (delete_keys_world w (li_keys li) O1 O2 Hnd) as Hd. destruct (on_store w _) as [w' r]. cbn [fst] in *.
      destruct Hd as (_ & D2 & _ & [[_ D4]|[_ D4]]); (split_and!; [done| |exact Hall]); [by left|by right].
    - assert (Hnil : li_keys li = []) by (destruct (li_keys li) as [|k l]; [done|]; rewrite blen_cons in Hz; pose proof (blen_nonneg l); lia).
      rewrite Hnil. split_and!; [done|by left|]. intros Hsure. split; [done|]. destruct Hsure as [[_ ?]|(? & _ & ?)]; [by left|by right]. }
  destruct H1 as (M1 & C1 & A1). destruct (on_mgr_frame w1 (fun m => cetcd_lease_revoke m id)) as (F1 & _ & F3 & _).
  assert (Hm1 : lease_ok ((w_mgr w1) <| m_env := w_env w1 |>)) by (apply mgr_env_ok; by rewrite M1).
  pose proof (revoke_spec _ id Hm1) as Hv. set (w2 := (on_mgr w1 _).1) in *.
  destruct (cetcd_lease_revoke _ id) as [m rc]. cbn [fst] in F1. subst m. destruct Hv as (_ & _ & _ & V4 & _ & V6).
  rewrite mgr_env_leases, M1 in V4, V6. split_and!; [done| |by rewrite F3|]; [destruct (is_ok rc); [by left|by right]|].
  intros Hsure. destruct (A1 Hsure) as [Hgone Hdel]. rewrite F3. split; [|done]. rewrite V4, V6; [done| |by eauto].
  unfold del_ok. destruct Hdel as [?|[Hn Hrow]]; [by left|right].
  apply (st_del _ never_fails_steady); [done| |done]. unfold db_key, blen. rewrite write_le64_length. lia.
Qed.
(** ** The handlers *)

(** What the fields of a lease in the map are. *)
Lemma lease_facts (m : cetcd_lease_mgr E) id li : lease_ok m -> leases_of m !! id = Some li ->
  cetcd_lease_granted_ttl m id = li_ttl li /\ cetcd_lease_keys m id = li_keys li /\ bad_ttl (li_ttl li) = false /\
  cetcd_lease_ttl_remaining m id = Z.max 0 (li_deadline li - m_now_ms m) / 1000.
Proof using Type.
  intros Hm Hl. rewrite by_id_lookup in Hl by done. unfold cetcd_lease_granted_ttl, cetcd_lease_keys, cetcd_lease_ttl_remaining.
  destruct (lease_by_id_ m id) as [[i l]|] eqn:Hf; [|done]. cbn in Hl. injection Hl as <-. split_and!; [done|done| |].
  - apply by_id_some in Hf as [Hi _]. apply bad_ttl_false, (lw_ttl l). pose proof (lo_wf _ Hm) as Hw. rewrite Forall_forall in Hw.
    apply Hw. by eapply list_elem_of_lookup_2.
  - cbn. destruct (Z.ltb_spec (l_deadline_ms l - m_now_ms m) 0); rewrite Z.quot_div_nonneg by lia; f_equal; lia.
Qed.

Section requests.
  Context (w : world).
  Hypothesis (Hw : world_ok w) (Hr : w_raft w = None) (Hq : forall d, over_quota backend_size w d = false).
  Local Notation L := (leases_of (w_mgr w)).
  Local Notation now := (m_now_ms (w_mgr w)).
  Local Notation rev := (store_revision w).

Lemma grant_request req ttl id : m_next_id (w_mgr w) < 2 ^ 63 -> id <= INT64_MAX -> parse_lease_grant_request_ req (blen req) = Ok (Some (ttl, id)) ->
  let lid := if 0 <? id then id else m_next_id (w_mgr w) in
  exists w' out, lease_handle_grant backend_size flush w req = Ok (w', out) /\
    match out with
    | None => leases_of (w_mgr w') = L
    | Some r =>
        bad_ttl ttl = false /\ L !! lid = None /\ leases_of (w_mgr w') = <[lid := mk_info ttl (now + ttl * 1000) []]> L /\
        r = wires (lease_answer rev lid ttl)
    end /\
    (write_ok (mgr_in w) -> bad_ttl ttl = false -> L !! lid = None -> out <> None).
Proof using Type*.
  intros Hn Hid Hp lid. unfold lease_handle_grant. rewrite Hp. cbn [mbind res_bind]. pose proof (wo_mgr _ w Hw) as Hm. pose proof (lo_next _ Hm) as Hpos.
  assert (Hlid : 0 < lid <= INT64_MAX) by (unfold lid, INT64_MAX in *; destruct (Z.ltb_spec 0 id); lia).
  assert (Hnone : bad_ttl ttl = true \/ L !! lid <> None -> exists w' out, null w = Ok (w', out) /\
    match out with None => leases_of (w_mgr w') = L | Some r => bad_ttl ttl = false /\ L !! lid = None /\ leases_of (w_mgr w') = <[lid := mk_info ttl (now + ttl * 1000) []]> L /\ r = wires (lease_answer rev lid ttl) end /\
    (write_ok (mgr_in w) -> bad_ttl ttl = false -> L !! lid = None -> out <> None)).
  { intros Hx. exists w, None. split_and!; [done|done|]. intros _ Ha Hb. destruct Hx; congruence. }
  destruct (Z.leb_spec ttl 0) as [Hz|Hz]; [apply Hnone; left; unfold bad_ttl; by rewrite (proj2 (Z.leb_le ttl 0))|].
  destruct (Z.ltb_spec CETCD_MAX_LEASE_TTL ttl) as [Hbig|Hbig].
  { apply Hnone. left. unfold bad_ttl. rewrite (proj2 (Z.ltb_lt _ ttl)) by done. by rewrite orb_true_r. }
  destruct ((0 <? id) && cetcd_lease_exists (w_mgr w) id) eqn:Ex.
  { apply Hnone. right. apply andb_true_iff in Ex as [E1 E2]. unfold lid. rewrite E1. rewrite exists_map in E2 by done.
    apply bool_decide_eq_true in E2 as [? ->]. done. }
  assert (Hnew : L !! lid = None).
  { unfold lid. destruct (Z.ltb_spec 0 id) as [Hi|Hi].
    - cbn [andb] in Ex. rewrite exists_map in Ex by done. apply bool_decide_eq_false in Ex. by apply eq_None_not_Some.
    - apply eq_None_not_Some. intros Hs. apply (next_fresh (w_mgr w) Hm). apply exists_lookup. rewrite exists_map by done. by apply bool_decide_eq_true. }
  assert (Ht : bad_ttl ttl = false) by (apply bad_ttl_false; lia). cbv zeta.
  change (if 0 <? id then id else cetcd_lease_next_id (w_mgr w)) with lid. rewrite (proj2 (Z.eqb_neq lid 0)) by lia.
  change (cetcd_apply_encode_lease_grant lid ttl) with (encode_command (CLeaseGrant lid ttl)).
  rewrite propose_command; [|done|done|split; [unfold INT64_MAX in *; lia|done]]. cbn [run_command].
  pose proof (grant_world w lid ttl Hm ltac:(unfold INT64_MAX in *; lia) Ht Hnew) as Hg. destruct (apply_lease_grant w lid ttl) as [w' rc].
  destruct Hg as (G1 & G2 & G3). cbn [mbind res_bind]. destruct (Z.eqb_spec rc 0) as [->|Hrc]; cbn [Z.ltb Z.compare].
  - assert (Es : store_revision w' = rev) by (unfold store_revision; by rewrite G1). rewrite Es.
    rewrite make_lease_response_ok by (unfold CETCD_MAX_LEASE_TTL, INT64_MAX in *; lia). cbn [mbind res_bind].
    exists w'. eexists. split; [reflexivity|]. split_and!; done.
  - exists w', None. split_and!; [done|done|]. intros Hwr _ _. by rewrite (G2 Hwr) in Hrc.
Qed.

Lemma revoke_request req id ks : id <= INT64_MAX -> parse_lease_id_request_ req (blen req) = Ok (Some (id, ks)) ->
  exists w' out, lease_handle_revoke backend_size flush w req = Ok (w', out) /\
    match L !! id with
    | None => w' = w /\ out = None
    | Some li =>
        out = Some (wires [FMsg 10 (header_fields (store_revision w'))]) /\
        (leases_of (w_mgr w') = delete id L \/ leases_of (w_mgr w') = L) /\
        (current (w_store w') = current (w_store w) \/
         forall k, current (w_store w') !! k = if decide (k ∈ li_keys li) then None else current (w_store w) !! k) /\
        (revoke_sure w id li -> leases_of (w_mgr w') = delete id L /\
           forall k, current (w_store w') !! k = if decide (k ∈ li_keys li) then None else current (w_store w) !! k)
    end.
Proof using Type*.
  intros Hid Hp. unfold lease_handle_revoke. rewrite Hp. cbn [mbind res_bind]. pose proof (wo_mgr _ w Hw) as Hm.
  destruct (Z.leb_spec id 0) as [Hz|Hz].
  { exists w, None. split; [done|]. destruct (L !! id) as [li|] eqn:Hl; [|done]. pose proof (leases_pos (w_mgr w) id Hm ltac:(eauto)). lia. }
  rewrite exists_map by done. destruct (L !! id) as [li|] eqn:Hl; [|by exists w, None].
  rewrite bool_decide_true by eauto. cbn [negb].
  change (cetcd_apply_encode_lease_revoke id) with (encode_command (CLeaseRevoke id)).
  rewrite propose_command; [|done|done|cbn [command_fits]; unfold INT64_MAX in *; lia]. cbn [run_command].
  pose proof (revoke_world w id li Hw Hl) as Hv. destruct (apply_lease_revoke_ w id) as [w' rc]. destruct Hv as (-> & V1 & V2 & V3).
  cbn [mbind res_bind Z.eqb Z.ltb Z.compare]. destruct (revision_header_ok 32 (store_revision w') ltac:(lia)) as [-> _]. cbn [mbind res_bind].
  change 0x0a with 10. rewrite header_delim by (change (blen (@nil Z)) with 0; lia). cbn [mbind res_bind app].
  exists w'. eexists. split; [reflexivity|]. done.
Qed.

Lemma keepalive_request req id ks : 0 < id <= INT64_MAX -> parse_lease_id_request_ req (blen req) = Ok (Some (id, ks)) ->
  exists w' out, lease_handle_keep_alive backend_size flush w req = Ok (w', out) /\
    match L !! id with
    | None => w' = w /\ out = Some (wires (lease_answer rev id 0))
    | Some li =>
        (write_ok (mgr_in w) -> out <> None) /\
        match out with
        | None => leases_of (w_mgr w') = L
        | Some r =>
            leases_of (w_mgr w') = <[id := mk_info (li_ttl li) (now + li_ttl li * 1000) (li_keys li)]> L /\
            r = wires (lease_answer rev id (li_ttl li))
        end
    end.
Proof using Type*.
  intros Hid Hp. unfold lease_handle_keep_alive. rewrite Hp. cbn [mbind res_bind]. pose proof (wo_mgr _ w Hw) as Hm.
  rewrite (proj2 (Z.leb_gt id 0)) by lia. rewrite exists_map by done. destruct (L !! id) as [li|] eqn:Hl.
  2: { cbn [negb]. rewrite bool_decide_false by (by intros [? ?]). cbn [negb]. rewrite make_lease_response_ok by (unfold INT64_MAX; lia).
       cbn [mbind res_bind]. exists w. eexists. split; [reflexivity|]. done. }
  rewrite bool_decide_true by eauto. cbn [negb]. cbv zeta. destruct (lease_facts (w_mgr w) id li Hm Hl) as (-> & _ & Ht & _).
  pose proof Ht as Hb. apply bad_ttl_false in Hb. rewrite (proj2 (Z.leb_gt (li_ttl li) 0)) by lia.
  change (cetcd_apply_encode_lease_keepalive id (li_ttl li)) with (encode_command (CLeaseKeepalive id (li_ttl li))).
  rewrite propose_command; [|done|done|split; [unfold INT64_MAX in *; lia|done]]. cbn [run_command].
  pose proof (keepalive_world w id li Hm Hl Ht) as Hk. destruct (apply_lease_keepalive w id (li_ttl li)) as [w' rc].
  destruct Hk as (K1 & K2 & K3 & K4 & K5). cbn [mbind res_bind]. destruct (Z.eqb_spec rc 0) as [->|Hrc]; cbn [Z.ltb Z.compare].
  - assert (Es : store_revision w' = rev) by (unfold store_revision; by rewrite K1). rewrite Es.
    assert (Hl' : leases_of (w_mgr w') !! id = Some (mk_info (li_ttl li) (now + li_ttl li * 1000) (li_keys li))) by (rewrite K5; apply lookup_insert_eq).
    destruct (lease_facts (w_mgr w') id _ K2 Hl') as (_ & _ & _ & ->). cbn [li_deadline]. rewrite K3.
    replace (Z.max 0 (now + li_ttl li * 1000 - now) / 1000) with (li_ttl li)
      by (rewrite Z.max_r by lia; replace (now + li_ttl li * 1000 - now) with (li_ttl li * 1000) by lia; by rewrite Z.div_mul).
    rewrite make_lease_response_ok by (unfold CETCD_MAX_LEASE_TTL, INT64_MAX in *; lia). cbn [mbind res_bind].
    exists w'. eexists. split; [reflexivity|]. done.
  - exists w', None. split_and!; [done| |done]. intros Hwr. by rewrite (K4 Hwr) in Hrc.
Qed.
Lemma ttl_request req id keys : parse_lease_id_request_ req (blen req) = Ok (Some (id, keys)) ->
  match L !! id with Some li => keys_fit (li_keys li) /\ li_deadline li - now < 2 ^ 63 | None => True end ->
  lease_handle_time_to_live w req = Ok (Some (wires (ttl_answer rev now id keys (L !! id)))).
Proof using Hw.
  intros Hp Hk. unfold lease_handle_time_to_live. rewrite Hp. cbn [mbind res_bind]. pose proof (wo_mgr _ w Hw) as Hm. cbv zeta.
  assert (Hf : (0 <? id) && cetcd_lease_exists (w_mgr w) id = bool_decide (is_Some (L !! id))).
  { rewrite exists_map by done. destruct (Z.ltb_spec 0 id) as [|Hz]; [done|]. symmetry. apply bool_decide_eq_false. intros Hs.
    pose proof (leases_pos (w_mgr w) id Hm Hs). lia. }
  rewrite Hf. destruct (L !! id) as [li|] eqn:Hl.
  2: { rewrite bool_decide_false by (by intros [? ?]). rewrite andb_false_r. cbn [negb andb ttl_answer].
       change (keys_size []) with 0.
       exact (proj1 (lease_answer_out (128 + 0) rev id (u64 (-1)) (fun out => out ← Ok out; out ← lease_keys_out (128 + 0) out []; Ok (Some out)) ltac:(lia) (u64_range _))). }
  rewrite bool_decide_true by eauto. rewrite andb_true_r. cbn [negb andb].
  destruct (lease_facts (w_mgr w) id li Hm Hl) as (-> & -> & Ht & ->). apply bad_ttl_false in Ht. rewrite (proj2 (Z.ltb_lt 0 (li_ttl li))) by lia.
  destruct Hk as [Hk Hd]. set (ks := if keys then li_keys li else []).
  assert (Hks : keys_fit ks) by (unfold ks; destruct keys; [done|]; split; [constructor|done]).
  rewrite keys_size_spec by done. set (size := foldr _ 0 ks).
  assert (Hs : 0 <= size) by (unfold size; clear; induction ks as [|x l IH]; cbn [foldr]; [lia|]; pose proof (blen_nonneg x); lia).
  set (t := Z.max 0 (li_deadline li - now) / 1000).
  assert (Ht0 : 0 <= t < 2 ^ 63) by (unfold t; split; [apply Z.div_pos; lia|apply Z.div_lt_upper_bound; lia]).
  replace (u64 (if 0 <? t then t else 0)) with t by (destruct (Z.ltb_spec 0 t); rewrite u64_small by (unfold in_u64; lia); lia).
  pose proof (lease_answer_out (128 + size) rev id t (fun out =>
    out ← (out ← put (128 + size) out 32; Ok (varint_out (128 + size) out (u64 (li_ttl li)))); out ← lease_keys_out (128 + size) out ks; Ok (Some out))
    ltac:(lia) ltac:(unfold in_u64; lia)) as [Ho Hb]. cbv zeta beta in Ho. rewrite Ho. clear Ho.
  unfold CETCD_MAX_LEASE_TTL in Ht. pose proof (wire_u64_blen (u64 (li_ttl li))). pose proof (blen_nonneg (wires (lease_answer rev id t))).
  rewrite (var_out_ok Ok) by (apply u64_range || (cbn [wire]; rewrite blen_cons; lia)). cbn [mbind res_bind].
  rewrite lease_keys_out_ok by (apply Hks || (fold size; rewrite blen_app; cbn [wire]; rewrite blen_cons; lia)). cbn [mbind res_bind ttl_answer].
  do 2 f_equal. fold t. rewrite !wires_app, wires_cons, wires_nil, app_nil_r, <- app_assoc, u64_small by (unfold in_u64; lia).
  unfold ks. by destruct keys.
Qed.

Lemma leases_request : m_next_id (w_mgr w) < 2 ^ 64 ->
  lease_handle_leases w = Ok (Some (wires (leases_answer rev (lease_ids (w_mgr w))))).
Proof using Hw.
  intros Hn. unfold lease_handle_leases. destruct (revision_header_ok 16 rev ltac:(lia)) as [-> Hb]. cbn [mbind res_bind].
  pose proof (wo_mgr _ w Hw) as Hm. set (ids := lease_ids (w_mgr w)). set (ls := wires (map (fun id => FMsg 18 [FVar 8 id]) ids)).
  assert (Hids : Forall in_u64 ids).
  { eapply Forall_impl; [exact (lo_ids _ Hm)|]. cbn. unfold in_u64. lia. }
  assert (Hc : cetcd_lease_mgr_count (w_mgr w) = blen ids) by (unfold cetcd_lease_mgr_count, ids, lease_ids, blen; by rewrite length_fmap).
  cbv zeta. rewrite Hc. assert (Els : (if 0 <? blen ids then lease_statuses (blen (default [] (cetcd_lease_mgr_leases (w_mgr w) (Z.to_nat (blen ids)))) * 16 + 1) []
    (default [] (cetcd_lease_mgr_leases (w_mgr w) (Z.to_nat (blen ids)))) else Ok []) = Ok ls).
  { destruct (Z.ltb_spec 0 (blen ids)) as [Hp|Hp].
    - assert (Eids : default [] (cetcd_lease_mgr_leases (w_mgr w) (Z.to_nat (blen ids))) = ids).
      { unfold cetcd_lease_mgr_leases. fold (lease_ids (w_mgr w)). fold ids. unfold blen in *. rewrite Nat2Z.id.
        destruct (length ids) eqn:El; [lia|]. cbn [default]. rewrite <- El. apply take_ge. lia. }
      rewrite Eids. apply (lease_statuses_ok ids Hids). change (blen (@nil Z)) with 0. lia.
    - destruct ids as [|x l] eqn:Ei; [done|]. rewrite blen_cons in Hp. pose proof (blen_nonneg l). lia. }
  rewrite Els. cbn [mbind res_bind]. pose proof (blen_nonneg ls). change 0x0a with 10. set (h := wires (header_fields rev)) in *.
  assert (Hh : blen (delimited 10 h) = 2 + blen h)
    by (unfold delimited; rewrite blen_cons, blen_app, wire_u64_small, blen_cons by lia; change (blen (@nil Z)) with 0; lia).
  rewrite delim_out_ok by (unfold short; change (blen (@nil Z)) with 0; lia). cbn [mbind res_bind app].
  rewrite copy_room by lia. done.
Qed.
End requests.

(** C31: The five lease requests implement the map of leases, on a server without
    raft and with the quota off, for ids up to INT64_MAX while the next id is
    below 2^63.  A grant is refused (and nothing changes) or adds one lease
    without keys under the requested or the next free id and answers id and time
    to live, and it succeeds for a time to live inside the bounds and a free id
    when the backend takes the write; a keep-alive sets the deadline anew and
    answers the granted time to live, 0 for a lease that does not exist; a
    revocation of a lease that does not exist is refused without effect, any
    other is answered with the new revision, and unless a write to the backend
    can fail the lease is gone and so are exactly its keys (when one fails, lease
    and keys each go as a whole or stay); a query answers the remaining time in
    seconds, the granted time and the keys, -1 for a lease that does not exist;
    the list answers every id once.  All responses stay inside their buffers. *)
Theorem lease_rpc_refines (w : world) (req : bytes) (ttl id : Z) (keys : bool) :
  world_ok w -> w_raft w = None -> (forall d, over_quota backend_size w d = false) ->
  m_next_id (w_mgr w) < 2 ^ 63 -> id <= INT64_MAX ->
  let L := leases_of (w_mgr w) in let now := m_now_ms (w_mgr w) in let rev := store_revision w in
  (parse_lease_grant_request_ req (blen req) = Ok (Some (ttl, id)) ->
   let lid := if 0 <? id then id else m_next_id (w_mgr w) in
   exists w' out, lease_handle_grant backend_size flush w req = Ok (w', out) /\
     match out with
     | None => leases_of (w_mgr w') = L
     | Some r =>
         bad_ttl ttl = false /\ L !! lid = None /\ leases_of (w_mgr w') = <[lid := mk_info ttl (now + ttl * 1000) []]> L /\
         r = wires (lease_answer rev lid ttl)
     end /\
     (write_ok (mgr_in w) -> bad_ttl ttl = false -> L !! lid = None -> out <> None)) /\
  (parse_lease_id_request_ req (blen req) = Ok (Some (id, keys)) ->
   (exists w' out, lease_handle_revoke backend_size flush w req = Ok (w', out) /\
      match L !! id with
      | None => w' = w /\ out = None
      | Some li =>
          out = Some (wires [FMsg 10 (header_fields (store_revision w'))]) /\
          (leases_of (w_mgr w') = delete id L \/ leases_of (w_mgr w') = L) /\
          (current (w_store w') = current (w_store w) \/
           forall k, current (w_store w') !! k = if decide (k ∈ li_keys li) then None else current (w_store w) !! k) /\
          (revoke_sure w id li -> leases_of (w_mgr w') = delete id L /\
             forall k, current (w_store w') !! k = if decide (k ∈ li_keys li) then None else current (w_store w) !! k)
      end) /\
   (0 < id -> exists w' out, lease_handle_keep_alive backend_size flush w req = Ok (w', out) /\
      match L !! id with
      | None => w' = w /\ out = Some (wires (lease_answer rev id 0))
      | Some li =>
          (write_ok (mgr_in w) -> out <> None) /\
          match out with
          | None => leases_of (w_mgr w') = L
          | Some r =>
              leases_of (w_mgr w') = <[id := mk_info (li_ttl li) (now + li_ttl li * 1000) (li_keys li)]> L /\
              r = wires (lease_answer rev id (li_ttl li))
          end
      end) /\
   (match L !! id with Some li => keys_fit (li_keys li) /\ li_deadline li - now < 2 ^ 63 | None => True end ->
    lease_handle_time_to_live w req = Ok (Some (wires (ttl_answer rev now id keys (L !! id)))))) /\
  lease_handle_leases w = Ok (Some (wires (leases_answer rev (lease_ids (w_mgr w))))) /\ NoDup (lease_ids (w_mgr w)).
Proof using Type*.
  intros Hw Hr Hq Hn Hid. cbv zeta. split_and!.
  - intros Hp. by apply grant_request.
  - intros Hp. split_and!; [by eapply revoke_request|intros; by eapply keepalive_request|by apply ttl_request].
  - apply leases_request; [done|lia].
  - apply (lo_nodup _ (wo_mgr _ w Hw)).
Qed.

(** A client reads the id and the time to live of a grant or keep-alive. *)
Theorem lease_answer_parses rev id ttl : 0 < id <= INT64_MAX -> 0 <= ttl <= INT64_MAX ->
  cetcd_parse_lease_grant_response (wires (lease_answer rev id ttl)) = Ok (id, ttl).
Proof using Type.
  intros Hid Ht. unfold INT64_MAX in *. unfold cetcd_parse_lease_grant_response. set (t := table _).
  assert (Hi : interps t (0, 0) (lease_answer rev id ttl) = Ok (id, ttl)).
  { unfold interps, lease_answer, t. cbn [interp_list interp table Z.eqb Pos.eqb mbind res_bind].
    rewrite (u64_small id) by (unfold in_u64; lia). by rewrite !i64_id by (unfold INT64_MAX; lia). }
  destruct (revision_header_ok 16 rev ltac:(lia)) as [_ Hh].
  rewrite parse_wires; [done| | |by rewrite Hi].
  - unfold lease_answer. repeat apply List.Forall_cons; [..|apply List.Forall_nil]; cbn [field_ok]; unfold tag_ok.
    + change (concat (map wire (header_fields rev))) with (wires (header_fields rev)).
      split_and!; [lia|lia|done|lia|]. split; [|done]. cbn [field_ok header_fields]. unfold tag_ok. split_and!; [lia|lia|done|apply u64_range..].
    + split_and!; [lia|lia|done|apply u64_range..].
    + split_and!; (unfold in_u64; lia || done).
  - pose proof (header_size rev) as Hs. unfold lease_answer. rewrite wires_cons, wires_nil, app_nil_r in Hs.
    rewrite !wires_cons, wires_nil, !blen_app. change (blen (@nil Z)) with 0. cbn [wire] in *. rewrite !blen_cons.
    pose proof (wire_u64_blen (u64 id)). pose proof (wire_u64_blen ttl). lia.
Qed.
End handlers.
