(* ===== verification/AuthRpc.v ===== *)
(** * User and role requests (src/v3rpc/auth_handler.c)

    The handlers of the service Auth over the globals of the RPC layer, from
    the bytes of a request to those of the response; NULL is [None].  A name or
    password that is absent or empty is a NULL pointer, here the empty list; a
    name is copied with a terminator, and the functions of the store that take a
    C string see it up to the first 0 ([cstr]).

    The clock readings are arguments, and so are the signed tokens of
    src/auth/auth.c, which are made by OpenSSL. *)

From S2P Require Import Slice Hash KeyOrder Treap Hashmap Raft RaftWire Wal Backend Mvcc Lease CString Auth Cluster ApplyCodec Alarm Pb PbRequests Apply Kv LeaseRpc Prelude.

#[local] Open Scope Z_scope.

(** ** Parsing *)

(** Name and password; [opt] where the caller wants the options of UserAdd. *)
Definition parse_auth_name_pass_request_ (opt : bool) (m : bytes) (len : Z) : res (option cetcd_user_add_request) :=
  or_minus_one (parse_at (table ([
    (0x0a, Acopy true (fun r d => r <| ua_name := d |>));
    (0x12, Acopy true (fun r d => r <| ua_password := d |>))] ++
    (if opt then [(0x1a, Ainline (table [(0x08, Avarint (fun r v => Ok (r <| ua_no_password := nonzero v |>)))]))] else [])))
    (mk_user_add [] [] false) m len).

Definition parse_auth_name_request_ (m : bytes) (len : Z) : res (option bytes) :=
  r ← parse_auth_name_pass_request_ false m len;
  Ok (option_map ua_name r).

Definition parse_auth_role_grant_perm_ (m : bytes) (len : Z) : res (option cetcd_auth_role_perm_request) :=
  or_minus_one (parse_at (table [
    (0x0a, Acopy true (fun r d => r <| rp_name := d |>));
    (0x12, Amsg id (table [
       (0x08, Avarint (fun r v => Ok (r <| rp_perm_type := i32 v |>)));
       (0x12, Acopy true (fun r d => r <| rp_key := d |>));
       (0x1a, Acopy true (fun r d => r <| rp_range_end := d |>))]) id)]) zero_role_perm m len).

Definition parse_auth_role_revoke_perm_ (m : bytes) (len : Z) : res (option cetcd_auth_role_perm_request) :=
  or_minus_one (parse_at (table [
    (0x0a, Acopy true (fun r d => r <| rp_name := d |>));
    (0x12, Acopy true (fun r d => r <| rp_key := d |>));
    (0x1a, Acopy true (fun r d => r <| rp_range_end := d |>))]) zero_role_perm m len).

(** ** Responses *)

(** A tag, a length of one byte and the bytes. *)
Definition short_field (cap : Z) (out : bytes) (tag : Z) (d : bytes) : res bytes :=
  out ← put cap out tag;
  out ← put cap out (u8 (blen d));
  copy_out cap out d.

Definition simple_ok_response (rev : Z) : res bytes :=
  hdr ← revision_header 32 rev;
  short_field (blen hdr + 2) [] 0x0a hdr.

Definition write_header_prefix (cap rev : Z) : res bytes :=
  hdr ← put 16 [] 0x18;
  hdr ← raw_varint_loop 10 16 hdr (u64 (if 0 <? rev then rev else 1));
  short_field cap [] 0x0a hdr.

(** [while (l >= 0x80) { buf[pos++] = (uint8_t)(l | 0x80); l >>= 7; } buf[pos++] = (uint8_t)l;] *)
Fixpoint raw_length (n : nat) (cap : Z) (buf : bytes) (l : Z) : res bytes :=
  match n with
  | O => Undef
  | S n =>
      if 128 <=? l then buf ← put cap buf (u8 (Z.lor l 128)); raw_length n cap buf (Z.shiftr l 7)
      else put cap buf (u8 l)
  end.

(** A tag, a length and the bytes, without a check. *)
Definition raw_field (cap : Z) (out : bytes) (tag : Z) (d : bytes) : res bytes :=
  out ← put cap out tag;
  out ← raw_length 10 cap out (blen d);
  copy_out cap out d.

(** The callback of the two lists: false ends the iteration. *)
Definition collect_user_name (name : bytes) (ctx : res bytes) : res bytes * bool :=
  match ctx with
  | Ok out => if 1024 <=? blen out + 2 + blen name then (ctx, false) else (raw_field 1024 out 0x12 name, true)
  | _ => (ctx, false)
  end.

(** The roles of a user in a buffer of 1024 bytes: the data of a role that does
    not fit is left out, its tag and length are not. *)
Fixpoint user_get_roles (out : bytes) (roles : list bytes) : res bytes :=
  match roles with
  | [] => Ok out
  | r :: roles =>
      if 1024 - 128 <=? blen out then Ok out
      else
        out ← put 1024 out 0x12;
        out ← raw_length 10 1024 out (blen r);
        out ← (if blen out + blen r <? 1024 then copy_out 1024 out r else Ok out);
        user_get_roles out roles
  end.

Definition role_permission (r : cetcd_role) : res bytes :=
  out ← put 512 [] 0x08;
  out ← put 512 out (if ro_perm_read r && ro_perm_write r then 2 else if ro_perm_write r then 1 else 0);
  out ← (if 0 <? blen (ro_key_prefix r) then raw_field 512 out 0x12 (ro_key_prefix r) else Ok out);
  if (0 <? blen (ro_range_end r)) && (blen out + 6 + blen (ro_range_end r) <? 512)
  then raw_field 512 out 0x1a (ro_range_end r) else Ok out.

(** ** The handlers *)

Section AuthRpc.
  Context {T : Type -> Type} {E Tx : Type} `{!KeyIndex T, !Lmdb E Tx, !Clock, !AuthLibs}.
  Context (backend_size : E -> Z) (flush : world T E -> option (world T E)).
  Context (jwt_issue : cetcd_auth_store -> bytes -> cetcd_auth_store * option bytes).
  Local Notation world := (world T E).

(** The end the handlers share: propose the command, answer the header. *)
Definition propose_ok (w : world) (entry : option bytes) : res (world * option bytes) :=
  '(w, rc) ← propose backend_size flush w entry;
  if rc <? 0 then null w
  else out ← simple_ok_response (store_revision w); Ok (w, Some out).

Definition auth_handle_enable (w : world) : res (world * option bytes) :=
  if negb (cetcd_auth_has_user (w_auth w) ROOT) then null w
  else propose_ok w (cetcd_apply_encode_auth_enabled 1).

Definition auth_handle_disable (w : world) : res (world * option bytes) :=
  propose_ok w (cetcd_apply_encode_auth_enabled 0).

(** A token is cut to 64 bytes. *)
Definition authenticate_response (rev : Z) (tok : bytes) : res bytes :=
  let tlen := if 64 <? blen tok then 64 else blen tok in
  out ← write_header_prefix 96 rev;
  short_field 96 out 0x12 (take (Z.to_nat tlen) tok).

Definition auth_handle_authenticate (now : Z) (w : world) (req : bytes) : res (world * option bytes) :=
  pr ← parse_auth_name_pass_request_ false req (blen req);
  match pr with
  | None => null w
  | Some r =>
      if (blen (ua_name r) =? 0) || (blen (ua_password r) =? 0) then null w
      else if negb (cetcd_auth_check_password (w_auth w) (cstr (ua_name r)) (cstr (ua_password r))) then null w
      else
        let '(s, tok) := cetcd_auth_issue_token jwt_issue (w_auth w) (cstr (ua_name r)) now in
        let w := w <| w_auth := s |> in
        match tok with
        | None => null w
        | Some tok => out ← authenticate_response (store_revision w) (cstr tok); Ok (w, Some out)
        end
  end.

Definition auth_handle_user_add (w : world) (req : bytes) : res (world * option bytes) :=
  pr ← parse_auth_name_pass_request_ true req (blen req);
  match pr with
  | None => null w
  | Some r =>
      if (blen (ua_name r) =? 0) || ((blen (ua_password r) =? 0) && negb (ua_no_password r)) then null w
      else if cetcd_auth_has_user (w_auth w) (cstr (ua_name r)) then null w
      else
        match cetcd_auth_hash_password (w_auth w) (cstr (ua_password r)) 64 with
        | (CETCD_OK, hash) => propose_ok w (cetcd_apply_encode_auth_user_add (cstr (ua_name r)) hash)
        | _ => null w
        end
  end.

Definition auth_handle_user_delete (w : world) (req : bytes) : res (world * option bytes) :=
  pr ← parse_auth_name_request_ req (blen req);
  match pr with
  | None => null w
  | Some name =>
      if (blen name =? 0) || negb (cetcd_auth_has_user (w_auth w) (cstr name)) then null w
      else propose_ok w (cetcd_apply_encode_auth_user_delete name)
  end.

Definition auth_handle_role_add (w : world) (req : bytes) : res (world * option bytes) :=
  pr ← parse_auth_name_request_ req (blen req);
  match pr with
  | None => null w
  | Some name =>
      if (blen name =? 0) || bool_decide (is_Some (cetcd_auth_get_role (w_auth w) (cstr name))) then null w
      else propose_ok w (cetcd_apply_encode_auth_role_add name)
  end.

(** UserGrantRole: the role is in the place of the password. *)
Definition auth_handle_role_grant (w : world) (req : bytes) : res (world * option bytes) :=
  pr ← parse_auth_name_pass_request_ false req (blen req);
  match pr with
  | None => null w
  | Some r =>
      let user := ua_name r in
      let role := ua_password r in
      if (blen user =? 0) || (blen role =? 0) || negb (cetcd_auth_has_user (w_auth w) (cstr user))
         || bool_decide (cetcd_auth_get_role (w_auth w) (cstr role) = None) then null w
      else propose_ok w (cetcd_apply_encode_auth_user_grant_role user role)
  end.

Definition auth_handle_status (w : world) : res (option bytes) :=
  out ← write_header_prefix 64 (store_revision w);
  out ← put 64 out 0x10;
  out ← put 64 out (if cetcd_auth_is_enabled (w_auth w) then 1 else 0);
  Ok (Some out).

Definition auth_handle_user_list (w : world) : res (option bytes) :=
  out ← write_header_prefix 1024 (store_revision w);
  out ← cetcd_auth_user_iter (w_auth w) collect_user_name (Ok out);
  Ok (Some out).

Definition auth_handle_user_change_password (w : world) (req : bytes) : res (world * option bytes) :=
  pr ← parse_auth_name_pass_request_ false req (blen req);
  match pr with
  | None => null w
  | Some r =>
      let name := ua_name r in
      if (blen name =? 0) || (blen (ua_password r) =? 0) || negb (cetcd_auth_has_user (w_auth w) (cstr name)) then null w
      else
        match cetcd_auth_hash_password (w_auth w) (cstr (ua_password r)) 64 with
        | (CETCD_OK, hash) => propose_ok w (cetcd_apply_encode_auth_user_change_pass name hash)
        | _ => null w
        end
  end.

Definition auth_handle_role_list (w : world) : res (option bytes) :=
  out ← write_header_prefix 1024 (store_revision w);
  out ← cetcd_auth_role_iter (w_auth w) collect_user_name (Ok out);
  Ok (Some out).

Definition auth_handle_role_delete (w : world) (req : bytes) : res (world * option bytes) :=
  pr ← parse_auth_name_request_ req (blen req);
  match pr with
  | None => null w
  | Some name =>
      if (blen name =? 0) || bool_decide (cetcd_auth_get_role (w_auth w) (cstr name) = None) then null w
      else propose_ok w (cetcd_apply_encode_auth_role_delete name)
  end.

(** Whether the user has the role. *)
Definition has_role (w : world) (user role : bytes) : bool :=
  match cetcd_auth_get_user (w_auth w) user with
  | None => false
  | Some u => existsb (fun r => streq r role) (user_roles u)
  end.

Definition auth_handle_user_revoke_role (w : world) (req : bytes) : res (world * option bytes) :=
  pr ← parse_auth_name_pass_request_ false req (blen req);
  match pr with
  | None => null w
  | Some r =>
      let user := ua_name r in
      let role := ua_password r in
      if (blen user =? 0) || (blen role =? 0) then null w
      else if negb (has_role w (cstr user) (cstr role)) then null w
      else propose_ok w (cetcd_apply_encode_auth_user_revoke_role user role)
  end.

Definition auth_handle_user_get (w : world) (req : bytes) : res (option bytes) :=
  pr ← parse_auth_name_request_ req (blen req);
  match pr with
  | None => Ok None
  | Some name =>
      if blen name =? 0 then Ok None
      else
        match cetcd_auth_get_user (w_auth w) (cstr name) with
        | None => Ok None
        | Some u =>
            out ← write_header_prefix 1024 (store_revision w);
            out ← user_get_roles out (user_roles u);
            Ok (Some out)
        end
  end.

Definition auth_handle_role_get (w : world) (req : bytes) : res (option bytes) :=
  pr ← parse_auth_name_request_ req (blen req);
  match pr with
  | None => Ok None
  | Some name =>
      if blen name =? 0 then Ok None
      else
        match cetcd_auth_get_role (w_auth w) (cstr name) with
        | None => Ok None
        | Some r =>
            perm ← role_permission r;
            let cap := blen perm + 16 in
            out ← write_header_prefix cap (store_revision w);
            out ← raw_field cap out 0x12 perm;
            Ok (Some out)
        end
  end.

Definition auth_handle_role_grant_permission (w : world) (req : bytes) : res (world * option bytes) :=
  pr ← parse_auth_role_grant_perm_ req (blen req);
  match pr with
  | None => null w
  | Some r =>
      if (blen (rp_name r) =? 0) || bool_decide (cetcd_auth_get_role (w_auth w) (cstr (rp_name r)) = None) then null w
      else propose_ok w (cetcd_apply_encode_auth_role_grant_perm_range (rp_name r) (rp_key r) (rp_perm_type r) (rp_range_end r))
  end.

Definition auth_handle_role_revoke_permission (w : world) (req : bytes) : res (world * option bytes) :=
  pr ← parse_auth_role_revoke_perm_ req (blen req);
  match pr with
  | None => null w
  | Some r =>
      if blen (rp_name r) =? 0 then null w
      else
        match cetcd_auth_get_role (w_auth w) (cstr (rp_name r)) with
        | None => null w
        | Some ro =>
            if (0 <? blen (rp_key r)) && negb (streq (ro_key_prefix ro) (rp_key r)) then null w
            else if (0 <? blen (rp_range_end r)) && negb (streq (ro_range_end ro) (rp_range_end r)) then null w
            else propose_ok w (cetcd_apply_encode_auth_role_revoke_perm_range (rp_name r) (rp_key r) (rp_range_end r))
        end
  end.

End AuthRpc.
