(* ===== verification/AuthRpcProps.v ===== *)
(** * User and role requests: what the handlers do

    The bytes of the responses, and signing in: what adding a user over the
    wire means for later requests to authenticate. *)

From S2P Require Import Slice Hash KeyOrder Treap Hashmap Raft RaftWire Wal Backend Mvcc MvccSnap MvccStore Lease LeaseProps LeaseRestart CString Auth AuthProps Cluster ClusterProps ApplyCodec Alarm Pb PbProps PbSafe PbRequests PbResponses PbCodec Apply ApplyCmd ApplyInv Kv KvCodec KvProps LeaseRpc LeaseRpcProps AuthRpc Prelude.

#[local] Open Scope Z_scope.

(** ** The bytes of the responses *)

Lemma short_field_ok cap out tag d : blen d < 128 -> blen out + 2 + blen d <= cap ->
  short_field cap out tag d = Ok (out ++ delimited tag d).
Proof.
  intros Hd Hc. pose proof (blen_nonneg d). pose proof (blen_nonneg out). unfold short_field.
  rewrite (put_room cap out tag) by lia. cbn [mbind res_bind].
  rewrite (put_room cap (out ++ [tag])) by (rewrite blen_app, blen_cons; change (blen (@nil Z)) with 0; lia). cbn [mbind res_bind].
  rewrite copy_room by (rewrite !blen_app, !blen_cons; change (blen (@nil Z)) with 0; lia).
  unfold delimited. rewrite wire_u64_small by lia. unfold u8. rewrite Z.mod_small by lia. by rewrite <- !app_assoc.
Qed.

Lemma ok_response rev : simple_ok_response rev = Ok (wires [FMsg 10 (header_fields rev)]).
Proof.
  unfold simple_ok_response. destruct (revision_header_ok 32 rev ltac:(lia)) as [-> Hb]. cbn [mbind res_bind].
  rewrite short_field_ok by (change (blen (@nil Z)) with 0; lia). by rewrite wires_cons, wires_nil, app_nil_r.
Qed.

Lemma header_prefix_ok cap rev : 13 <= cap -> write_header_prefix cap rev = Ok (wires [FMsg 10 (header_fields rev)]).
Proof.
  intros Hc. unfold write_header_prefix. rewrite put_room by (change (blen (@nil Z)) with 0; lia). cbn [mbind res_bind app].
  set (v := u64 _). pose proof (wire_u64_blen v) as Hv.
  rewrite raw_varint_ok by (apply u64_range || (rewrite blen_cons; change (blen (@nil Z)) with 0; lia)). cbn [mbind res_bind].
  rewrite short_field_ok by (rewrite !blen_app, ?blen_cons; change (blen (@nil Z)) with 0; lia).
  rewrite wires_cons, wires_nil, app_nil_r. cbn [wire header_fields map concat]. by rewrite app_nil_r.
Qed.

(** The other unchecked writer of a length. *)
Lemma raw_length_ok n : forall cap buf l, (0 < n)%nat -> 0 <= l < 2 ^ (7 * Z.of_nat n) -> blen buf + blen (wire_loop n l) <= cap ->
  raw_length n cap buf l = Ok (buf ++ wire_loop n l).
Proof.
  induction n as [|n IH]; intros cap buf l Hn Hl Hc; [lia|]. cbn [raw_length wire_loop] in *. cbv zeta in *.
  rewrite Z.shiftr_div_pow2 in * by lia. change (2 ^ 7) with 128 in *. pose proof (blen_nonneg buf).
  destruct (Z.leb_spec 128 l) as [Hb|Hb].
  - assert (Hz : l / 128 <> 0) by (apply Z.neq_sym, Z.lt_neq, Z.div_str_pos; lia).
    rewrite (proj2 (Z.eqb_neq _ 0)) in * by done. rewrite blen_cons in Hc.
    rewrite put_room by (pose proof (blen_nonneg (wire_loop n (l / 128))); lia). cbn [mbind res_bind].
    rewrite Nat2Z.inj_succ, Z.mul_succ_r, Z.pow_add_r in Hl by lia. change (2 ^ 7) with 128 in Hl.
    assert (Hq : 0 <= l / 128 < 2 ^ (7 * Z.of_nat n)) by (split; [apply Z.div_pos; lia|apply Z.div_lt_upper_bound; lia]).
    destruct n as [|n]; [cbn in Hq; lia|]. rewrite IH; [|lia|done|rewrite blen_app, blen_cons; change (blen (@nil Z)) with 0; lia].
    rewrite <- app_assoc. do 2 f_equal. cbn [app]. f_equal. unfold u8. rewrite <- (Z.land_ones _ 8) by lia.
    apply Z.bits_inj'. intros k Hk. rewrite !Z.land_spec, !Z.lor_spec, Z.land_spec. destruct (Z.ltb_spec k 8) as [Hk8|Hk8].
    + rewrite Z.ones_spec_low by lia. rewrite andb_true_r. change 127 with (Z.ones 7). change 128 with (2 ^ 7).
      destruct (Z.eq_dec k 7) as [->|]; [by rewrite Z.pow2_bits_true, !orb_true_r by lia|].
      by rewrite (Z.ones_spec_low 7), andb_true_r by lia.
    + rewrite Z.ones_spec_high by lia. change 127 with (Z.ones 7). rewrite Z.ones_spec_high by lia. change 128 with (2 ^ 7).
      by rewrite Z.pow2_bits_false, !andb_false_r by lia.
  - rewrite Z.div_small in * by lia. cbn [Z.eqb] in *. rewrite blen_cons in Hc. change (blen (@nil Z)) with 0 in Hc.
    rewrite put_room by lia. do 3 f_equal. unfold u8. rewrite Z.mod_small by lia. rewrite land_127, Z.mod_small by lia. done.
Qed.

Lemma raw_field_ok cap out tag d : short d -> blen out + blen (delimited tag d) <= cap ->
  raw_field cap out tag d = Ok (out ++ delimited tag d).
Proof.
  intros Hd. unfold delimited, short in *. rewrite blen_cons, blen_app. intros Hc. pose proof (blen_nonneg d). pose proof (wire_u64_blen (blen d)).
  unfold raw_field. rewrite put_room by lia. cbn [mbind res_bind].
  rewrite raw_length_ok; [|lia|cbn; lia|rewrite blen_app, blen_cons; change (blen (@nil Z)) with 0; unfold wire_u64_ in *; lia]. cbn [mbind res_bind].
  change (wire_loop 10 (blen d)) with (wire_u64_ (blen d)).
  rewrite copy_room by (rewrite !blen_app, blen_cons; change (blen (@nil Z)) with 0; lia). by rewrite <- !app_assoc.
Qed.

(** The answer to an authentication. *)
Lemma authenticate_response_ok rev tok : blen tok <= 64 ->
  authenticate_response rev tok = Ok (wires [FMsg 10 (header_fields rev); FLen 18 tok]).
Proof.
  intros Ht. pose proof (blen_nonneg tok). unfold authenticate_response. rewrite (proj2 (Z.ltb_ge 64 _)) by lia.
  rewrite header_prefix_ok by lia. cbn [mbind res_bind]. unfold blen at 1. rewrite Nat2Z.id, take_ge by lia.
  pose proof (header_size rev). rewrite short_field_ok by lia.
  change [FMsg 10 (header_fields rev); FLen 18 tok] with ([FMsg 10 (header_fields rev)] ++ [FLen 18 tok]). rewrite wires_app, !wires_cons, !wires_nil, !app_nil_r.
  done.
Qed.

(** ** Signing in *)

Lemma hex_nul_free raw : nul_free (auth_hex_encode_ raw).
Proof.
  assert (H : forall x, hex_digit (Z.land x 15) <> 0).
  { intros x. change 15 with (Z.ones 4). rewrite Z.land_ones by lia. pose proof (Z.mod_pos_bound x (2 ^ 4) ltac:(lia)). unfold hex_digit.
    destruct (_ <? 10) eqn:Eh; [apply Z.ltb_lt in Eh|]; lia. }
  induction raw as [|b raw IH]; [constructor|].
  change (auth_hex_encode_ (b :: raw)) with (hex_digit (Z.land (Z.shiftr b 4) 15) :: hex_digit (Z.land b 15) :: auth_hex_encode_ raw).
  by repeat constructor.
Qed.

Section handlers.
  Context {T : Type -> Type} {E Tx : Type} `{!KeyIndex T, !KeyIndexLaws T, !Lmdb E Tx, !LmdbLaws E Tx, !Clock, !AuthLibs, HL : !AuthLibsLaws}.
  Context (backend_size : E -> Z) (flush : world T E -> option (world T E)).
  Context (jwt_issue : cetcd_auth_store -> bytes -> cetcd_auth_store * option bytes)
    (jwt_user_for : cetcd_auth_store -> bytes -> Z -> cetcd_auth_store * option bytes).
  Local Notation world := (world T E).

(** Without a bcrypt cost a password is hashed with SHA-256. *)
Lemma hash_password_plain s pass : a_bcrypt_cost s = 0 -> cetcd_auth_hash_password s pass 64 = (CETCD_OK, sha256 pass).
Proof using HL.
  intros Hcost. unfold cetcd_auth_hash_password, fill_password_hash_. rewrite Hcost. cbn [Z.eqb is_ok negb].
  cbn [u_hash]. change (u_hash (_ <| u_hash := hash_password pass |>)) with (sha256 pass). pose proof (sha256_length pass) as Hl.
  replace (blen (sha256 pass)) with 32 by (unfold blen; lia). done.
Qed.

(** What the client is told of a command. *)
Definition answered (r : option (world * Z)) : res (world * option bytes) :=
  match r with
  | Some (w', rc) => Ok (w', if rc =? 0 then Some (wires [FMsg 10 (header_fields (store_revision w'))]) else None)
  | None => Undef
  end.

(** A command proposed without raft. *)
Lemma propose_ok_run (w : world) c : w_raft w = None -> (forall d, over_quota backend_size w d = false) -> command_fits c ->
  propose_ok backend_size flush w (encode_command c) = answered (run_command w c).
Proof using Type.
  intros Hr Hq Hc. unfold propose_ok, answered. rewrite propose_command by done. destruct (run_command w c) as [[w' rc]|]; [|done]. cbn [mbind res_bind].
  destruct (rc =? 0); cbn [Z.ltb Z.compare]; [|done]. by rewrite ok_response.
Qed.

Lemma has_user_map s name : auth_ok s -> cetcd_auth_has_user s name = bool_decide (is_Some (users_of s !! name)).
Proof using Type.
  intros Hs. unfold cetcd_auth_has_user. rewrite users_of_lookup by done. unfold cetcd_find_user. apply bool_decide_ext. by rewrite fmap_is_Some.
Qed.

(** Storing the users does not change them. *)
Lemma persist_auth (w : world) : w_auth (cetcd_v3rpc_auth_persist w) = w_auth w /\ store_revision (cetcd_v3rpc_auth_persist w) = store_revision w.
Proof using Type. unfold cetcd_v3rpc_auth_persist. by destruct (w_backend w). Qed.

Lemma user_add_request (w : world) name pass req : auth_ok (w_auth w) -> w_raft w = None -> (forall d, over_quota backend_size w d = false) ->
  a_bcrypt_cost (w_auth w) = 0 -> name_fits name -> pass <> [] -> nul_free pass ->
  parse_auth_name_pass_request_ true req (blen req) = Ok (Some (mk_user_add name pass false)) ->
  exists w' out, auth_handle_user_add backend_size flush w req = Ok (w', out) /\
    match users_of (w_auth w) !! name with
    | Some _ => w' = w /\ out = None
    | None =>
        out = Some (wires [FMsg 10 (header_fields (store_revision w'))]) /\
        auth_effect (w_auth w') (<[name := mk_auser (sha256 pass) []]> (users_of (w_auth w))) (roles_of (w_auth w)) (tokens_of (w_auth w)) /\
        a_jwt_alg (w_auth w') = a_jwt_alg (w_auth w) /\ a_token_ttl_ns (w_auth w') = a_token_ttl_ns (w_auth w)
    end.
Proof using Type*.
  intros Hok Hr Hq Hcost Hn Hp Hnul Hparse. destruct (name_facts name Hn) as (Hne & _ & _ & Hcs & _).
  unfold auth_handle_user_add. rewrite Hparse. cbn [mbind res_bind ua_name ua_password ua_no_password]. rewrite Hcs, (cstr_id pass) by done.
  rewrite !blen_nonempty by done. cbn [orb andb]. rewrite has_user_map by done.
  destruct (users_of (w_auth w) !! name) as [u|] eqn:Hu.
  { rewrite bool_decide_true by eauto. by exists w, None. }
  rewrite bool_decide_false by (by intros [? ?]). rewrite hash_password_plain by done. pose proof (sha256_length pass) as Hl.
  assert (Hb : bad_hash name (sha256 pass) = false) by (apply bad_hash_false; split; [done|lia]).
  pose proof (add_user_hash_effect (w_auth w) name (sha256 pass) Hok Hb) as He. rewrite Hu in He.
  assert (Hfit : command_fits (CUserAdd name (sha256 pass))).
  { cbn [command_fits]. split_and!; [exact Hn| |unfold small, blen; lia]. intros E0. by rewrite E0 in Hl. }
  change (cetcd_apply_encode_auth_user_add name (sha256 pass)) with (encode_command (CUserAdd name (sha256 pass))).
  assert (Hkeep : a_jwt_alg (cetcd_auth_add_user_hash (w_auth w) name (sha256 pass)).1 = a_jwt_alg (w_auth w) /\
    a_token_ttl_ns (cetcd_auth_add_user_hash (w_auth w) name (sha256 pass)).1 = a_token_ttl_ns (w_auth w)).
  { unfold cetcd_auth_add_user_hash. rewrite Hb. by destruct (cetcd_hashmap_get _ _). }
  assert (Hrun : run_command w (CUserAdd name (sha256 pass)) = Some (auth_result w (cetcd_auth_add_user_hash (w_auth w) name (sha256 pass)))).
  { cbn [run_command]. unfold apply_user_add. rewrite has_user_map by done. rewrite Hu. by rewrite bool_decide_false by (by intros [? ?]). }
  destruct (cetcd_auth_add_user_hash (w_auth w) name (sha256 pass)) as [s' rc]. destruct He as [-> He]. cbn [fst] in Hkeep.
  unfold auth_result in Hrun. cbn [is_ok] in Hrun. unfold auth_done in Hrun. destruct (persist_auth (w <| w_auth := s' |>)) as [Ha _].
  eexists _, _. rewrite (propose_ok_run w _ Hr Hq Hfit), Hrun. split; [reflexivity|]. cbn [Z.eqb]. rewrite Ha. done.
Qed.

Lemma authenticate_request (w : world) name pass np now req : auth_ok (w_auth w) -> a_jwt_alg (w_auth w) = CETCD_JWT_NONE ->
  name_fits name -> pass <> [] -> nul_free pass -> parse_auth_name_pass_request_ false req (blen req) = Ok (Some (mk_user_add name pass np)) ->
  (cetcd_auth_check_password (w_auth w) name pass = false -> auth_handle_authenticate jwt_issue now w req = Ok (w, None)) /\
  (cetcd_auth_check_password (w_auth w) name pass = true ->
   let ttl := if a_token_ttl_ns (w_auth w) =? 0 then CETCD_AUTH_DEFAULT_TOKEN_TTL_NS else a_token_ttl_ns (w_auth w) in
   exists s token, auth_handle_authenticate jwt_issue now w req =
       Ok (w <| w_auth := s |>, Some (wires [FMsg 10 (header_fields (store_revision w)); FLen 18 token])) /\
     blen token = 32 /\ users_of s = users_of (w_auth w) /\ roles_of s = roles_of (w_auth w) /\
     forall t, (cetcd_auth_user_for_token jwt_user_for s token t).2 = if u64 (now + ttl) <=? t then None else Some name).
Proof using Type*.
  intros Hok Hj Hn Hp Hnul Hparse. destruct (name_facts name Hn) as (Hne & _ & _ & Hcs & _).
  unfold auth_handle_authenticate. rewrite Hparse. cbn [mbind res_bind ua_name ua_password]. rewrite Hcs, (cstr_id pass) by done.
  rewrite !blen_nonempty by done. cbn [orb]. split; intros Hcheck; rewrite Hcheck; cbn [negb]; [done|]. cbv zeta.
  assert (Hu : is_Some (users_of (w_auth w) !! name)).
  { apply (auth_check_password_spec (w_auth w) name pass Hok) in Hcheck as (u & Hu & _). eauto. }
  assert (Hb : bad_hash name [0] = false) by (apply bad_hash_false; split; [done|cbn; lia]).
  destruct (auth_token_spec jwt_issue jwt_user_for (w_auth w) name [0] now Hok Hj ltac:(destruct Hn as (_ & _ & ?); unfold blen in *; lia) Hb Hu)
    as (s1 & token & Hi & _ & Hus & Hro & Huf & _). rewrite Hi. exists s1, token.
  assert (Htok : nul_free token /\ blen token = 32).
  { revert Hi. unfold cetcd_auth_issue_token. destruct (cetcd_find_user _ _); [|done]. rewrite bool_decide_true by done. cbn [negb].
    set (raw := mix_seq _ _). intros [= _ <-]. split; [apply hex_nul_free|]. unfold blen. rewrite hex_encode_length.
    assert (Hraw : length raw = 16%nat); [|lia]. unfold raw. set (q := random_bytes _).
    assert (Hq : length q = 16%nat) by apply random_bytes_length. unfold mix_seq. by destruct q as [|? [|? ?]]. }
  destruct Htok as [Hnf Hlen]. rewrite (cstr_id token) by done. rewrite authenticate_response_ok by lia. cbn [mbind res_bind].
  split_and!; done.
Qed.

(** The guards of the handlers on the two maps. *)
Definition is_user (w : world) (name : bytes) : bool := bool_decide (is_Some (users_of (w_auth w) !! name)).
Definition is_role (w : world) (name : bytes) : bool := bool_decide (is_Some (roles_of (w_auth w) !! name)).
Definition holds_role (w : world) (user role : bytes) : bool :=
  match users_of (w_auth w) !! user with Some u => existsb (fun r => streq r role) (au_roles u) | None => false end.

(** The command when the guard holds, else a refusal without effect. *)
Definition command_if (guard : bool) (w : world) (c : command) : res (world * option bytes) :=
  if guard then answered (run_command w c) else Ok (w, None).

Section guards.
  Context (w : world) (Hok : auth_ok (w_auth w)) (Hr : w_raft w = None) (Hq : forall d, over_quota backend_size w d = false).

Lemma run_if (guard : bool) c : command_fits c ->
  (if guard then propose_ok backend_size flush w (encode_command c) else Ok (w, None)) = command_if guard w c.
Proof using Hr Hq. intros Hc. unfold command_if. destruct guard; [|done]. by apply propose_ok_run. Qed.

Lemma has_user_is name : cetcd_auth_has_user (w_auth w) name = is_user w name.
Proof using Hok. by apply has_user_map. Qed.

Lemma get_role_is name : bool_decide (is_Some (cetcd_auth_get_role (w_auth w) name)) = is_role w name.
Proof using Hok. unfold is_role. by rewrite <- find_role_map by done. Qed.

Lemma no_role_is name : bool_decide (cetcd_auth_get_role (w_auth w) name = None) = negb (is_role w name).
Proof using Hok. unfold is_role, cetcd_auth_get_role. rewrite <- find_role_map by done. by destruct (cetcd_find_role _ _). Qed.

Lemma has_role_is user role : has_role w user role = holds_role w user role.
Proof using Hok. unfold has_role, holds_role, cetcd_auth_get_user. rewrite users_of_lookup by done. by destruct (cetcd_find_user _ _). Qed.

Lemma switch_requests :
  auth_handle_enable backend_size flush w = command_if (is_user w ROOT) w (CAuthEnabled true) /\
  auth_handle_disable backend_size flush w = command_if true w (CAuthEnabled false).
Proof using Hok Hr Hq.
  unfold auth_handle_enable, auth_handle_disable. rewrite has_user_is. rewrite <- !run_if by exact I. split; [|done]. by destruct (is_user w ROOT).
Qed.

Lemma name_requests name req : name_fits name -> parse_auth_name_request_ req (blen req) = Ok (Some name) ->
  auth_handle_user_delete backend_size flush w req = command_if (is_user w name) w (CUserDelete name) /\
  auth_handle_role_add backend_size flush w req = command_if (negb (is_role w name)) w (CRoleAdd name) /\
  auth_handle_role_delete backend_size flush w req = command_if (is_role w name) w (CRoleDelete name).
Proof using Hok Hr Hq.
  intros Hn Hp. destruct (name_facts name Hn) as (Hne & _ & _ & Hcs & _). unfold auth_handle_user_delete, auth_handle_role_add, auth_handle_role_delete.
  rewrite Hp. cbn [mbind res_bind]. rewrite Hcs, blen_nonempty, has_user_is, get_role_is, no_role_is by done. cbn [orb]. rewrite <- !run_if by exact Hn.
  destruct (is_user w name), (is_role w name); done.
Qed.

Lemma pair_requests user role np req : name_fits user -> name_fits role ->
  parse_auth_name_pass_request_ false req (blen req) = Ok (Some (mk_user_add user role np)) ->
  auth_handle_role_grant backend_size flush w req = command_if (is_user w user && is_role w role) w (CUserGrantRole user role) /\
  auth_handle_user_revoke_role backend_size flush w req = command_if (holds_role w user role) w (CUserRevokeRole user role).
Proof using Hok Hr Hq.
  intros Hu Hro Hp. destruct (name_facts user Hu) as (Hne & _ & _ & Hcs & _). destruct (name_facts role Hro) as (Hne' & _ & _ & Hcs' & _).
  unfold auth_handle_role_grant, auth_handle_user_revoke_role. rewrite Hp. cbn [mbind res_bind ua_name ua_password].
  rewrite Hcs, Hcs', !blen_nonempty, has_user_is, no_role_is, has_role_is by done. cbn [orb]. rewrite <- !run_if by (by split).
  destruct (is_user w user), (is_role w role), (holds_role w user role); done.
Qed.

Lemma change_password_request name pass np req : a_bcrypt_cost (w_auth w) = 0 -> name_fits name -> pass <> [] -> nul_free pass ->
  parse_auth_name_pass_request_ false req (blen req) = Ok (Some (mk_user_add name pass np)) ->
  auth_handle_user_change_password backend_size flush w req = command_if (is_user w name) w (CUserChangePass name (sha256 pass)).
Proof using Hok Hr Hq HL.
  intros Hcost Hn Hpn Hnul Hp. destruct (name_facts name Hn) as (Hne & _ & _ & Hcs & _). unfold auth_handle_user_change_password.
  rewrite Hp. cbn [mbind res_bind ua_name ua_password]. rewrite Hcs, (cstr_id pass), !blen_nonempty, has_user_is by done. cbn [orb].
  rewrite hash_password_plain by done. pose proof (sha256_length pass) as Hl.
  rewrite <- run_if by (split_and!; [exact Hn|intros E0; by rewrite E0 in Hl|unfold small, blen; lia]). by destruct (is_user w name).
Qed.

(** Revoking names the permission of the role, or leaves it open. *)
Definition revokes (name key range_end : bytes) : bool :=
  match roles_of (w_auth w) !! name with
  | Some r => (bool_decide (key = []) || streq (ro_key_prefix r) key) && (bool_decide (range_end = []) || streq (ro_range_end r) range_end)
  | None => false
  end.

Lemma nonempty_blen (d : bytes) : (0 <? blen d) = negb (bool_decide (d = [])).
Proof using Type. destruct d as [|x d]; [done|]. rewrite blen_cons. pose proof (blen_nonneg d). rewrite bool_decide_false by done. apply Z.ltb_lt. lia. Qed.

Lemma permission_requests name key t range_end req : name_fits name -> blen key < 256 -> blen range_end < 256 ->
  (0 <= t <= 2 -> parse_auth_role_grant_perm_ req (blen req) = Ok (Some (mk_role_perm name t key range_end)) ->
   auth_handle_role_grant_permission backend_size flush w req = command_if (is_role w name) w (CRoleGrantPerm name key t range_end)) /\
  (parse_auth_role_revoke_perm_ req (blen req) = Ok (Some (mk_role_perm name t key range_end)) ->
   auth_handle_role_revoke_permission backend_size flush w req = command_if (revokes name key range_end) w (CRoleRevokePerm name key range_end)).
Proof using Hok Hr Hq.
  intros Hn Hk He. destruct (name_facts name Hn) as (Hne & _ & _ & Hcs & _). split; [intros Ht|]; intros Hp.
  - unfold auth_handle_role_grant_permission. rewrite Hp. cbn [mbind res_bind rp_name rp_key rp_perm_type rp_range_end].
    rewrite Hcs, blen_nonempty, no_role_is by done. cbn [orb]. rewrite <- run_if by (cbn [command_fits]; lia || done). by destruct (is_role w name).
  - unfold auth_handle_role_revoke_permission. rewrite Hp. cbn [mbind res_bind rp_name rp_key rp_perm_type rp_range_end].
    rewrite Hcs, blen_nonempty by done. unfold revokes, cetcd_auth_get_role. rewrite <- find_role_map by done.
    rewrite <- run_if by done. destruct (cetcd_find_role _ _) as [r|]; [|done]. rewrite !nonempty_blen.
    destruct (bool_decide (key = [])), (streq (ro_key_prefix r) key), (bool_decide (range_end = [])), (streq (ro_range_end r) range_end); done.
Qed.
End guards.

(** C32: The requests that change users and roles.  On a well-formed request each
    handler checks its guard on the maps of users and roles, refuses without
    effect when it fails, and otherwise runs exactly one command, the one of the
    request, and tells the client the new revision when the command succeeded:
    authentication is enabled only with a user root; a role is granted only when
    both exist and revoked only when it is held; a permission is revoked only
    when the request names it; a password is replaced by its SHA-256. *)
Theorem user_role_requests (w : world) (name other key range_end : bytes) (t : Z) (np : bool) (req : bytes) :
  world_ok w -> w_raft w = None -> (forall d, over_quota backend_size w d = false) -> a_bcrypt_cost (w_auth w) = 0 ->
  name_fits name -> name_fits other -> blen key < 256 -> blen range_end < 256 -> 0 <= t <= 2 ->
  auth_handle_enable backend_size flush w = command_if (is_user w ROOT) w (CAuthEnabled true) /\
  auth_handle_disable backend_size flush w = command_if true w (CAuthEnabled false) /\
  (parse_auth_name_request_ req (blen req) = Ok (Some name) ->
   auth_handle_user_delete backend_size flush w req = command_if (is_user w name) w (CUserDelete name) /\
   auth_handle_role_add backend_size flush w req = command_if (negb (is_role w name)) w (CRoleAdd name) /\
   auth_handle_role_delete backend_size flush w req = command_if (is_role w name) w (CRoleDelete name)) /\
  (parse_auth_name_pass_request_ false req (blen req) = Ok (Some (mk_user_add name other np)) ->
   auth_handle_role_grant backend_size flush w req = command_if (is_user w name && is_role w other) w (CUserGrantRole name other) /\
   auth_handle_user_revoke_role backend_size flush w req = command_if (holds_role w name other) w (CUserRevokeRole name other) /\
   auth_handle_user_change_password backend_size flush w req = command_if (is_user w name) w (CUserChangePass name (sha256 other))) /\
  (parse_auth_role_grant_perm_ req (blen req) = Ok (Some (mk_role_perm name t key range_end)) ->
   auth_handle_role_grant_permission backend_size flush w req = command_if (is_role w name) w (CRoleGrantPerm name key t range_end)) /\
  (parse_auth_role_revoke_perm_ req (blen req) = Ok (Some (mk_role_perm name t key range_end)) ->
   auth_handle_role_revoke_permission backend_size flush w req = command_if (revokes w name key range_end) w (CRoleRevokePerm name key range_end)).
Proof using Type*.
  intros Hw Hr Hq Hc Hn Ho Hk He Ht. pose proof (wo_auth _ w Hw) as Hok. destruct (switch_requests w Hok Hr Hq) as [-> ->].
  destruct (permission_requests w Hok Hr Hq name key t range_end req Hn Hk He) as [Hg Hv].
  destruct (name_facts other Ho) as (Hne & _). pose proof (proj1 (proj2 Ho)) as Hnul.
  split_and!; [done|done|by apply name_requests| |by apply Hg|exact Hv].
  intros Hp. destruct (pair_requests w Hok Hr Hq name other np req Hn Ho Hp) as [-> ->].
  by rewrite (change_password_request w Hok Hr Hq name other np req Hc Hn Hne Hnul Hp).
Qed.

(** C33: Signing in over the wire.  Adding a user with a password is refused when
    the user exists, without effect, and otherwise adds exactly that user, with
    the SHA-256 of the password.  From then on a request to authenticate as the
    user is answered for a password of the same hash, and only then: with a
    token of 32 characters that stands for the user up to its expiry and for
    nobody from then on; users and roles stay as they are. *)
Theorem user_add_then_sign_in (w : world) (name pass : bytes) (now : Z) (req : bytes) :
  world_ok w -> w_raft w = None -> (forall d, over_quota backend_size w d = false) ->
  a_bcrypt_cost (w_auth w) = 0 -> name_fits name -> pass <> [] -> nul_free pass ->
  parse_auth_name_pass_request_ true req (blen req) = Ok (Some (mk_user_add name pass false)) ->
  exists w' out, auth_handle_user_add backend_size flush w req = Ok (w', out) /\
    match users_of (w_auth w) !! name with
    | Some _ => w' = w /\ out = None
    | None =>
        out = Some (wires [FMsg 10 (header_fields (store_revision w'))]) /\
        users_of (w_auth w') = <[name := mk_auser (sha256 pass) []]> (users_of (w_auth w)) /\ roles_of (w_auth w') = roles_of (w_auth w) /\
        forall req' pass' np, parse_auth_name_pass_request_ false req' (blen req') = Ok (Some (mk_user_add name pass' np)) ->
          pass' <> [] -> nul_free pass' ->
          let ttl := if a_token_ttl_ns (w_auth w) =? 0 then CETCD_AUTH_DEFAULT_TOKEN_TTL_NS else a_token_ttl_ns (w_auth w) in
          (sha256 pass' <> sha256 pass -> auth_handle_authenticate jwt_issue now w' req' = Ok (w', None)) /\
          (sha256 pass' = sha256 pass -> exists s token,
             auth_handle_authenticate jwt_issue now w' req' =
               Ok (w' <| w_auth := s |>, Some (wires [FMsg 10 (header_fields (store_revision w')); FLen 18 token])) /\
             blen token = 32 /\ users_of s = users_of (w_auth w') /\ roles_of s = roles_of (w_auth w') /\
             forall t, (cetcd_auth_user_for_token jwt_user_for s token t).2 = if u64 (now + ttl) <=? t then None else Some name)
    end.
Proof using Type*.
  intros Hw Hr Hq Hcost Hn Hp Hnul Hparse. pose proof (wo_auth _ w Hw) as Hok. pose proof (wo_jwt _ w Hw) as Hj.
  destruct (user_add_request w name pass req Hok Hr Hq Hcost Hn Hp Hnul Hparse) as (w' & out & Hadd & Hres). exists w', out. split; [done|].
  destruct (users_of (w_auth w) !! name) as [u|]; [done|]. destruct Hres as (-> & [A1 A2 A3 A4] & Hj' & Ht). split_and!; [done|done|done|].
  intros req' pass' np Hparse' Hp' Hnul'. rewrite <- Ht.
  destruct (authenticate_request w' name pass' np now req' A1 ltac:(congruence) Hn Hp' Hnul' Hparse') as [Hno Hyes].
  pose proof (auth_check_password_spec (w_auth w') name pass' A1) as Hspec. rewrite A2, lookup_insert_eq in Hspec.
  pose proof (sha256_length pass) as Hl. cbv zeta. split; intros Hsha.
  - apply Hno. apply not_true_is_false. intros Hc. apply Hspec in Hc as (u & [= <-] & [Hh|[[Hh _] _]]); cbn [au_hash] in Hh; [congruence|lia].
  - apply Hyes. apply Hspec. eexists. split; [done|]. left. done.
Qed.
End handlers.
