(* ===== verification/ClusterRpc.v ===== *)
(** * Member requests (src/v3rpc/cluster_handler.c)

    The handlers of the service Cluster over the globals of the RPC layer, from
    the bytes of a request to those of the response, and the settings of
    src/v3rpc/v3rpc.c that they read.  [inet_pton] is an argument, as in the
    parsers of addresses. *)

From Stdlib Require Import String.
From S2P Require Import Slice Hash KeyOrder Treap Hashmap Raft RaftWire Wal Backend Mvcc Lease CString Config Auth Cluster ApplyCodec Alarm Pb PbRequests Snap Discovery Apply Kv LeaseRpc Prelude.

#[local] Open Scope Z_scope.

(** ** Settings *)

Record rpc_settings : Type := mk_settings {
  g_rpc_advertise_client : bytes;
  g_rpc_advertise_peer : bytes;
  g_rpc_member_name : bytes;
  g_rpc_max_txn_ops : Z;
  g_rpc_max_request_bytes : Z;
  g_rpc_max_learners : Z;
  g_rpc_max_learners_set : bool;
  g_rpc_strict_reconfig : bool;
  g_rpc_strict_reconfig_set : bool
}.

#[export] Instance rpc_settings_eta : RecordEta rpc_settings := fun g =>
  mk_settings (g_rpc_advertise_client g) (g_rpc_advertise_peer g) (g_rpc_member_name g) (g_rpc_max_txn_ops g) (g_rpc_max_request_bytes g)
    (g_rpc_max_learners g) (g_rpc_max_learners_set g) (g_rpc_strict_reconfig g) (g_rpc_strict_reconfig_set g).

Definition initial_settings : rpc_settings :=
  mk_settings (bytes_of_string "http://127.0.0.1:2379") (bytes_of_string "http://127.0.0.1:2380") (bytes_of_string "default") 128 1572864 0 false true false.

Definition cetcd_v3rpc_set_max_txn_ops (g : rpc_settings) (n : Z) : rpc_settings :=
  let n := if n =? 0 then 128 else n in
  let n := if 128 <? n then 128 else n in
  g <| g_rpc_max_txn_ops := n |>.

Definition cetcd_v3rpc_set_max_request_bytes (g : rpc_settings) (n : Z) : rpc_settings :=
  g <| g_rpc_max_request_bytes := if n =? 0 then 1572864 else n |>.

Definition cetcd_v3rpc_set_max_learners (g : rpc_settings) (n : Z) : rpc_settings :=
  g <| g_rpc_max_learners := n |> <| g_rpc_max_learners_set := true |>.

Definition cetcd_v3rpc_clear_max_learners (g : rpc_settings) : rpc_settings :=
  g <| g_rpc_max_learners := 0 |> <| g_rpc_max_learners_set := false |>.

Definition cetcd_v3rpc_set_strict_reconfig (g : rpc_settings) (enabled : bool) : rpc_settings :=
  g <| g_rpc_strict_reconfig := enabled |> <| g_rpc_strict_reconfig_set := true |>.

Definition cetcd_v3rpc_clear_strict_reconfig (g : rpc_settings) : rpc_settings :=
  g <| g_rpc_strict_reconfig := true |> <| g_rpc_strict_reconfig_set := false |>.

(** ** Parsing *)

Definition member_list_linearizable_ (m : bytes) (len : Z) : res (option bool) :=
  or_minus_one (parse_at (table [(0x08, Avarint (fun _ v => Ok (nonzero v)))]) false m len).

Definition parse_member_id_request_ (m : bytes) (len : Z) : res (option Z) :=
  or_minus_one (parse_at (table [(0x08, Avarint (fun _ v => Ok v))]) 0 m len).

(** The id and the URL, cut to the buffer of the caller. *)
Definition parse_member_update_request_ (url_cap : Z) (m : bytes) (len : Z) : res (option (Z * bytes)) :=
  or_minus_one (parse_at (table [
    (0x08, Avarint (fun '(_, url) v => Ok (v, url)));
    (0x12, Aclip url_cap (fun '(id, _) d => (id, d)))]) (0, []) m len).

(** The URL, empty where the pointer is NULL, and the learner flag. *)
Definition parse_member_add_request_ (m : bytes) (len : Z) : res (option (bytes * bool)) :=
  or_minus_one (parse_at (table [
    (0x0a, Acopy true (fun '(_, learner) d => (d, learner)));
    (0x10, Avarint (fun '(url, _) v => Ok (url, nonzero v)))]) ([], false) m len).

(** ** Responses *)

(** Each string of a comma-separated list as a field; [None] is -1. *)
Fixpoint append_csv_strings_ (n : nat) (cap : Z) (out : bytes) (tag : Z) (csv : bytes) : res (option bytes) :=
  match n, csv with
  | _, [] => Ok (Some out)
  | O, _ => Loop
  | S n, _ =>
      let '(item, rest) := span_to 44 (skip_ws_ csv) in
      let item := fst (split_end blank item) in
      if blen item =? 0 then Ok None
      else if cap <=? blen out + 1 then Ok None
      else
        out ← put cap out tag;
        match write_varint_local cap out (blen item) with
        | (out, 0) =>
            if cap <? blen out + blen item then Ok None
            else
              out ← copy_out cap out item;
              match rest with
              | [_] => Ok None
              | [] => Ok (Some out)
              | _ :: rest => append_csv_strings_ n cap out tag rest
              end
        | _ => Ok None
        end
  end.

(** A NULL or empty string has no field. *)
Definition csv_field (cap : Z) (out : option bytes) (tag : Z) (csv : bytes) : res (option bytes) :=
  match out, csv with
  | None, _ => Ok None
  | Some out, [] => Ok (Some out)
  | Some out, _ => append_csv_strings_ (length csv) cap out tag csv
  end.

(** The bytes of a member; none where the code returns the length 0.  The name
    is left out, but not its length, when it does not fit. *)
Definition encode_member (cap id : Z) (name peer_addr client_url : bytes) (is_learner : bool) : res bytes :=
  let nm := if blen name =? 0 then bytes_of_string "default" else name in
  out ← put cap [] 0x08;
  let out := varint_out cap out id in
  out ← put cap out 0x12;
  let out := varint_out cap out (blen nm) in
  out ← (if blen out + blen nm <? cap then copy_out cap out nm else Ok out);
  out ← csv_field cap (Some out) 0x1a peer_addr;
  out ← csv_field cap out 0x22 client_url;
  match out with
  | None => Ok []
  | Some out => if is_learner then out ← put cap out 0x28; put cap out 0x01 else Ok out
  end.

(** The header in front of a response. *)
Definition cluster_header (cap rev : Z) : res bytes :=
  hdr ← revision_header 16 rev;
  delim_out cap [] 0x0a hdr.

Definition make_simple_cluster_response (rev : Z) : res bytes :=
  hdr ← revision_header 16 rev;
  delim_out (2 + blen hdr) [] 0x0a hdr.

(** ** The handlers *)

Section ClusterRpc.
  Context {T : Type -> Type} {E Tx : Type} `{!KeyIndex T, !Lmdb E Tx, !Clock, !AuthLibs}.
  Context (backend_size : E -> Z) (flush : world T E -> option (world T E)) (inet_pton : bytes -> option bytes) (g : rpc_settings).
  Local Notation world := (world T E).

(** The node itself. *)
Definition list_self (w : world) (out : bytes) : res bytes :=
  if 0 <? w_node_id w then
    m ← encode_member 512 (w_node_id w) (g_rpc_member_name g) (g_rpc_advertise_peer g) (g_rpc_advertise_client g) false;
    out ← put 1024 out 0x12;
    let out := varint_out 1024 out (blen m) in
    if blen out + blen m <? 1024 then copy_out 1024 out m else Ok out
  else Ok out.

(** The other members, as long as there is room for one of 256 bytes. *)
Fixpoint list_peers (peers : list cetcd_peer_info) (out : bytes) : res bytes :=
  match peers with
  | [] => Ok out
  | p :: peers =>
      if 1024 - 256 <=? blen out then Ok out
      else
        match cetcd_format_host_port (p_addr p) (p_port p) 300 with
        | Ok url =>
            m ← encode_member 256 (p_id p) [] url [] (p_is_learner p);
            if blen out + 2 + blen m <? 1024 then
              out ← delim_out 1024 out 0x12 m;
              list_peers peers out
            else list_peers peers out
        | Fail _ => list_peers peers out
        | Undef => Undef
        | Loop => Loop
        end
  end.

Definition cluster_handle_member_list (w : world) (req : bytes) : res (option bytes) :=
  pr ← member_list_linearizable_ req (blen req);
  match pr with
  | None => Ok None
  | Some linearizable =>
      if negb (cetcd_v3rpc_linearizable_ok w (negb linearizable)) then Ok None
      else
        out ← cluster_header 1024 (store_revision w);
        out ← list_self w out;
        out ← match w_cluster w with Some c => list_peers (c_peers c) out | None => Ok out end;
        Ok (Some out)
  end.

Definition parse_peer_url_ (url : bytes) : option (bytes * Z) :=
  match cetcd_parse_peer_url inet_pton url 256 with Ok r => Some r | _ => None end.

Definition member_add_response (rev new_id : Z) (is_learner : bool) : res bytes :=
  out ← cluster_header 256 rev;
  if 0 <? new_id then
    m ← encode_member 128 new_id [] [] [] is_learner;
    out ← put 256 out 0x12;
    let out := varint_out 256 out (blen m) in
    if blen out + blen m <? 256 then copy_out 256 out m else Ok out
  else Ok out.

Definition cluster_handle_member_add (w : world) (req : bytes) : res (world * option bytes) :=
  pr ← parse_member_add_request_ req (blen req);
  match pr with
  | None => null w
  | Some (url, is_learner) =>
      match w_cluster w with
      | Some c =>
          if blen url =? 0 then out ← member_add_response (store_revision w) 0 is_learner; Ok (w, Some out)
          else if in_joint w then null w
          else if is_learner && g_rpc_max_learners_set g && negb (cetcd_reconfig_may_add_learner (cetcd_cluster_learner_count c) (g_rpc_max_learners g))
          then null w
          else
            let id := cetcd_cluster_alloc_id c in
            match parse_peer_url_ url with
            | None => null w
            | Some (addr, port) =>
                '(w, rc) ← propose backend_size flush w (cetcd_apply_encode_member_add id is_learner addr port);
                let added := match w_cluster w with Some c => bool_decide (is_Some (cetcd_cluster_get_peer c id)) | None => false end in
                if (rc <? 0) || negb added then null w
                else out ← member_add_response (store_revision w) id is_learner; Ok (w, Some out)
            end
      | None => out ← member_add_response (store_revision w) 0 is_learner; Ok (w, Some out)
      end
  end.

(** The end the other handlers share. *)
Definition propose_member (w : world) (entry : option bytes) : res (world * option bytes) :=
  '(w, rc) ← propose backend_size flush w entry;
  if rc <? 0 then null w
  else out ← make_simple_cluster_response (store_revision w); Ok (w, Some out).

Definition simple_answer (w : world) : res (world * option bytes) :=
  out ← make_simple_cluster_response (store_revision w); Ok (w, Some out).

Definition cluster_handle_member_remove (w : world) (req : bytes) : res (world * option bytes) :=
  pr ← parse_member_id_request_ req (blen req);
  match pr with
  | None => null w
  | Some id =>
      if id =? 0 then null w
      else
        match w_cluster w with
        | None => simple_answer w
        | Some c =>
            if in_joint w then null w
            else
              let self := id =? cetcd_cluster_self_id c in
              let peer := cetcd_cluster_get_peer c id in
              if negb (self || bool_decide (is_Some peer)) then null w
              else
                let is_learner := if self then false else match peer with Some p => p_is_learner p | None => false end in
                let voters := match w_raft w with Some r => cetcd_raft_voter_count r | None => cetcd_cluster_voter_count c end in
                let strict := negb (g_rpc_strict_reconfig_set g) || g_rpc_strict_reconfig g in
                if negb (cetcd_reconfig_check_remove voters is_learner strict) then null w
                else propose_member w (cetcd_apply_encode_member_remove id)
        end
  end.

Definition cluster_handle_member_update (w : world) (req : bytes) : res (world * option bytes) :=
  pr ← parse_member_update_request_ 256 req (blen req);
  match pr with
  | None => null w
  | Some (id, url) =>
      if id =? 0 then null w
      else
        let url := cstr url in
        match w_cluster w with
        | Some _ =>
            if blen url =? 0 then simple_answer w
            else
              match parse_peer_url_ url with
              | None => null w
              | Some (addr, port) => propose_member w (cetcd_apply_encode_member_update id addr port)
              end
        | None => simple_answer w
        end
  end.

Definition cluster_handle_member_promote (w : world) (req : bytes) : res (world * option bytes) :=
  pr ← parse_member_id_request_ req (blen req);
  match pr with
  | None => null w
  | Some id =>
      if id =? 0 then null w
      else
        match w_cluster w with
        | None => simple_answer w
        | Some c =>
            if in_joint w then null w
            else
              match cetcd_cluster_get_peer c id with
              | None => null w
              | Some cur =>
                  if negb (p_is_learner cur) then null w
                  else propose_member w (cetcd_apply_encode_member_promote id)
              end
        end
  end.

End ClusterRpc.
