(* ===== verification/ClusterRpcProps.v ===== *)
(** * Member requests: what the handlers do *)

From Stdlib Require Import String.
From S2P Require Import Slice Hash KeyOrder Treap Hashmap Raft RaftWire Wal Backend Mvcc MvccSnap MvccStore Lease LeaseProps LeaseRestart CString Config Auth AuthProps Cluster ClusterProps ApplyCodec Alarm Pb PbProps PbSafe PbRequests PbResponses PbCodec Snap Discovery Apply ApplyCmd ApplyInv Kv KvCodec KvProps LeaseRpc LeaseRpcProps AuthRpc AuthRpcProps ClusterRpc Prelude.

#[local] Open Scope Z_scope.

(** ** The bytes of the responses *)

Lemma cluster_header_ok cap rev : 13 <= cap -> cluster_header cap rev = Ok (wires [FMsg 10 (header_fields rev)]).
Proof.
  intros Hc. unfold cluster_header. destruct (revision_header_ok 16 rev ltac:(lia)) as [-> _]. cbn [mbind res_bind].
  change 0x0a with 10. by rewrite header_delim by (change (blen (@nil Z)) with 0; lia).
Qed.

Lemma simple_cluster_ok rev : make_simple_cluster_response rev = Ok (wires [FMsg 10 (header_fields rev)]).
Proof.
  unfold make_simple_cluster_response. destruct (revision_header_ok 16 rev ltac:(lia)) as [-> Hb]. cbn [mbind res_bind].
  rewrite delim_out_ok; [by rewrite wires_cons, wires_nil, app_nil_r|unfold short; lia|].
  unfold delimited. rewrite wire_u64_small by lia. rewrite blen_cons, blen_app, blen_cons. change (blen (@nil Z)) with 0. lia.
Qed.

(** The member a client is told of: id, name and learner flag. *)
Definition member_fields (id : Z) (is_learner : bool) : list field :=
  [FVar 8 id; FLen 18 (bytes_of_string "default")] ++ (if is_learner then [FVar 40 1] else []).

Definition member_answer (rev id : Z) (is_learner : bool) : list field :=
  [FMsg 10 (header_fields rev)] ++ (if 0 <? id then [FMsg 18 (member_fields id is_learner)] else []).

Lemma encode_member_ok id is_learner : in_u64 id ->
  encode_member 128 id [] [] [] is_learner = Ok (wires (member_fields id is_learner)) /\ blen (wires (member_fields id is_learner)) <= 22.
Proof.
  intros Hid. pose proof (wire_u64_blen id). unfold encode_member. change (blen (@nil Z)) with 0. cbn [Z.eqb].
  rewrite put_room by (change (blen (@nil Z)) with 0; lia). cbn [mbind res_bind app].
  rewrite varint_out_ok by (done || (rewrite blen_cons; change (blen (@nil Z)) with 0; lia)).
  rewrite put_room by (rewrite blen_app, blen_cons; change (blen (@nil Z)) with 0; lia). cbn [mbind res_bind].
  change (blen (bytes_of_string "default")) with 7.
  pose proof (wire_u64_blen 7). rewrite varint_out_ok by ((unfold in_u64; lia) || (rewrite !blen_app, !blen_cons; change (blen (@nil Z)) with 0; lia)).
  rewrite (wire_u64_small 7) by lia. set (out := ([8] ++ wire_u64_ id) ++ [18]).
  assert (Ho : blen out = 2 + blen (wire_u64_ id)) by (unfold out; rewrite !blen_app; change (blen [8]) with 1; change (blen [18]) with 1; lia).
  rewrite (proj2 (Z.ltb_lt _ _)) by (rewrite blen_app; change (blen [7]) with 1; lia).
  rewrite copy_room by (rewrite blen_app; change (blen [7]) with 1; change (blen (bytes_of_string "default")) with 7; lia). cbn [mbind res_bind csv_field].
  assert (Hw : wires [FVar 8 id; FLen 18 (bytes_of_string "default")] = (out ++ [7]) ++ bytes_of_string "default").
  { unfold out. rewrite !wires_cons, wires_nil, app_nil_r. cbn [wire delimited]. unfold delimited. change (blen (bytes_of_string "default")) with 7. rewrite (wire_u64_small 7) by lia. by rewrite <- !app_assoc. }
  unfold member_fields. rewrite wires_app, Hw. destruct is_learner.
  - rewrite put_room by (rewrite !blen_app; change (blen [7]) with 1; change (blen (bytes_of_string "default")) with 7; lia). cbn [mbind res_bind].
    rewrite put_room by (rewrite !blen_app; change (blen [7]) with 1; change (blen [40]) with 1; change (blen (bytes_of_string "default")) with 7; lia).
    split; [by rewrite <- !app_assoc|]. rewrite !blen_app. change (blen [7]) with 1. change (blen (bytes_of_string "default")) with 7. change (blen (wires [FVar 40 1])) with 2. lia.
  - rewrite wires_nil, app_nil_r. split; [done|]. rewrite !blen_app. change (blen [7]) with 1. change (blen (bytes_of_string "default")) with 7. lia.
Qed.

Lemma member_add_response_ok rev id is_learner : in_u64 id -> member_add_response rev id is_learner = Ok (wires (member_answer rev id is_learner)).
Proof.
  intros Hid. unfold member_add_response, member_answer. rewrite cluster_header_ok by lia. cbn [mbind res_bind]. destruct (0 <? id); [|by rewrite wires_app, wires_nil, app_nil_r].
  destruct (encode_member_ok id is_learner Hid) as [-> Hm]. cbn [mbind res_bind]. pose proof (header_size rev). pose proof (blen_nonneg (wires (member_fields id is_learner))).
  set (m := wires (member_fields id is_learner)) in *. rewrite put_room by lia. cbn [mbind res_bind].
  pose proof (wire_u64_blen (blen m)). rewrite varint_out_ok by ((unfold in_u64; lia) || (rewrite blen_app; change (blen [18]) with 1; lia)).
  rewrite wire_u64_small by lia. rewrite (proj2 (Z.ltb_lt _ _)) by (rewrite !blen_app, !blen_cons; change (blen (@nil Z)) with 0; lia).
  rewrite copy_room by (rewrite !blen_app, !blen_cons; change (blen (@nil Z)) with 0; lia).
  rewrite wires_app. f_equal. rewrite <- !app_assoc. f_equal. rewrite wires_cons, wires_nil, app_nil_r. cbn [wire]. fold (wires (member_fields id is_learner)) m.
  unfold delimited. rewrite wire_u64_small by lia. done.
Qed.

(** ** Addresses *)

Lemma span_to_Forall (P : Z -> Prop) c s : Forall P s -> Forall P (span_to c s).1 /\ Forall P (span_to c s).2.
Proof.
  induction 1 as [|x s Hx Hs IH]; [done|]. cbn [span_to]. destruct (x =? c); [split; [constructor|by constructor]|].
  destruct (span_to c s) as [a b]. cbn in *. split; [constructor|]; tauto.
Qed.

Lemma split_last_Forall (P : Z -> Prop) c s a b : Forall P s -> split_last c s = Some (a, b) -> Forall P a /\ Forall P b.
Proof.
  intros Hs. revert a b. induction Hs as [|x s Hx Hs IH]; intros a b; [done|]. cbn [split_last]. destruct (split_last c s) as [[a' b']|].
  - intros [= <- <-]. destruct (IH a' b' eq_refl). split; [by constructor|done].
  - destruct (x =? c); [|done]. intros [= <- <-]. by split.
Qed.

Lemma skip_ws_Forall (P : Z -> Prop) s : Forall P s -> Forall P (skip_ws_ s).
Proof. induction 1 as [|x s Hx Hs IH]; [done|]. cbn. destruct (blank x); [done|by constructor]. Qed.

Lemma split_end_Forall (P : Z -> Prop) p s : Forall P s -> Forall P (split_end p s).1.
Proof.
  induction 1 as [|x s Hx Hs IH]; [done|]. cbn [split_end]. destruct (split_end p s) as [a b]. cbn in IH. destruct a; [destruct (p x)|]; cbn; [constructor|repeat constructor; done|by constructor].
Qed.

Lemma port_of_range s v : port_of s = Ok v -> 1 <= v <= 65535.
Proof.
  unfold port_of. destruct (strtoll s) as [[[v' rest] erange]|]; [|done]. destruct rest, erange; try done.
  destruct (Z.ltb_spec v' 1), (Z.ltb_spec 65535 v'); cbn; try done. intros [= <-]. lia.
Qed.

Lemma host_port_range p d addr port : nul_free p -> 1 <= d <= 65535 -> host_port p d = Ok (addr, port) -> nul_free addr /\ 1 <= port <= 65535.
Proof.
  intros Hp Hd. unfold host_port. destruct p as [|c p]; [done|]. pose proof Hp as [Hc Hp']%Forall_cons. destruct (c =? 91).
  - pose proof (span_to_Forall _ 93 p Hp') as [H1 _]. destruct (span_to 93 p) as [host rest]. destruct rest as [|x rest]; [done|].
    destruct (blen host =? 0); [done|]. destruct rest as [|y rest]; [intros [= <- <-]; done|]. destruct (y =? 58); [|done].
    destruct (port_of rest) as [v| | |] eqn:Ev; try done. cbn [mbind res_bind]. intros [= <- <-]. apply port_of_range in Ev. done.
  - destruct (split_last 58 (c :: p)) as [[host rest]|] eqn:Es; [|intros [= <- <-]; done]. destruct (split_last_Forall _ _ _ _ _ Hp Es) as [H1 _].
    destruct (blen host =? 0); [done|]. destruct (port_of rest) as [v| | |] eqn:Ev; try done. cbn [mbind res_bind]. intros [= <- <-]. apply port_of_range in Ev. done.
Qed.

Lemma parse_host_port_range inet_pton url cap d addr port : 1 <= d <= 65535 -> cetcd_parse_host_port inet_pton url cap d = Ok (addr, port) ->
  nul_free addr /\ addr <> [] /\ blen addr < cap /\ 1 <= port <= 65535.
Proof.
  intros Hd. unfold cetcd_parse_host_port. destruct (_ || _)%bool; [done|]. destruct (_ || _)%bool; [done|].
  assert (Hb : nul_free (trim_ (cstr url))) by (unfold trim_; apply split_end_Forall, skip_ws_Forall, cstr_nul_free).
  set (buf := trim_ (cstr url)) in *. destruct (blen buf =? 0); [done|]. destruct (cetcd_url_is_unix buf); [done|].
  assert (Hs : nul_free (snd (scheme buf))) by (unfold scheme; repeat case_match; cbn [snd]; try apply Forall_drop; done).
  destruct (host_port (snd (scheme buf)) d) as [[a v]| | |] eqn:Eh; try done. cbn [mbind res_bind]. apply host_port_range in Eh as [H1 H2]; [|done|done].
  destruct (Z.eqb_spec (blen a) 0) as [|Hne]; [done|]. destruct (Z.leb_spec cap (blen a)); [done|]. cbn [orb].
  assert (Hane : a <> []) by (intros ->; by apply Hne). case_bool_decide; [destruct (cetcd_parse_ipv6_zone inet_pton a 256 64); try done|]; intros [= <- <-]; split_and!; (done || lia).
Qed.

(** ** The handlers *)

Section handlers.
  Context {T : Type -> Type} {E Tx : Type} `{!KeyIndex T, !KeyIndexLaws T, !Lmdb E Tx, !LmdbLaws E Tx, !Clock, !AuthLibs}.
  Context (backend_size : E -> Z) (flush : world T E -> option (world T E)) (inet_pton : bytes -> option bytes) (g : rpc_settings).
  Local Notation world := (world T E).

Lemma propose_member_run (w : world) c : w_raft w = None -> (forall d, over_quota backend_size w d = false) -> command_fits c ->
  propose_member backend_size flush w (encode_command c) = answered (run_command w c).
Proof using Type.
  intros Hr Hq Hc. unfold propose_member, answered. rewrite propose_command by done. destruct (run_command w c) as [[w' rc]|]; [|done]. cbn [mbind res_bind].
  destruct (rc =? 0); cbn [Z.ltb Z.compare]; [|done]. by rewrite simple_cluster_ok.
Qed.

(** After adding a member with a free id, the id is a member exactly when the
    command succeeded. *)
Lemma member_add_present (w w' : world) c info rc : w_cluster w = Some c -> w_raft w = None -> cluster_ok c -> peer_ok info -> members_of c !! p_id info = None ->
  run_command w (CMemberAdd (p_id info) (p_is_learner info) (p_addr info) (p_port info)) = Some (w', rc) ->
  exists c', w_cluster w' = Some c' /\ (rc = 0 -> is_Some (cetcd_cluster_get_peer c' (p_id info))).
Proof using Type.
  intros Hc Hr Hok Hinfo Hfree. destruct info as [id addr port learner]. cbn [run_command p_id p_addr p_port p_is_learner] in *. unfold with_cluster. rewrite Hc.
  unfold apply_member_add. intros [= Hrun]. revert Hrun. cbn [p_is_learner p_id].
  assert (Hj : ensure_joint w (negb learner) = (w, 0)) by (unfold ensure_joint, in_joint, begin_voter_joint_; rewrite Hr; by destruct learner). rewrite Hj. cbn [Z.eqb negb].
  destruct (cetcd_cluster_persist_peer c (w_env w) _) as [e st]. destruct (negb (is_ok st)).
  { intros [= <- <-]. exists c. done. }
  pose proof (add_peer_spec c _ Hok Hinfo) as Ha. cbn [p_id] in Ha. rewrite Hfree in Ha. destruct Ha as (c' & -> & Hok' & Hm & _).
  intros [= <- <-]. exists c'. unfold on_raft. cbn [w_raft]. change (w_raft (w <| w_env := e |> <| w_cluster := Some c' |>)) with (w_raft w). rewrite Hr. split; [done|].
  intros _. rewrite get_peer_spec by done. rewrite Hm, lookup_insert_eq. eauto.
Qed.

(** A cluster of which the node is a member, with ids below the largest. *)
Definition cluster_fits (c : cetcd_cluster) : Prop :=
  0 < c_self_id c < 2 ^ 64 - 1 /\ Forall (fun p => p_id p < 2 ^ 64 - 1) (c_peers c).

(** The learners are limited and the limit is reached. *)
Definition learners_full (c : cetcd_cluster) : bool := g_rpc_max_learners_set g && (g_rpc_max_learners g <=? cetcd_cluster_learner_count c).

(** The voters, as the removal counts them. *)
Definition voters (w : world) (c : cetcd_cluster) : Z :=
  match w_raft w with Some r => cetcd_raft_voter_count r | None => cetcd_cluster_voter_count c end.

(** Removing [id] is possible: the node itself or a member, and under strict
    reconfiguration, which is the default, a learner or one without which the
    others are still a majority of the voters. *)
Definition may_remove (n : Z) (c : cetcd_cluster) (id : Z) : bool :=
  let self := id =? c_self_id c in
  let learner := negb self && match members_of c !! id with Some p => p_is_learner p | None => false end in
  (self || bool_decide (is_Some (members_of c !! id))) &&
  (g_rpc_strict_reconfig_set g && negb (g_rpc_strict_reconfig g) || learner || (n <? 2 * (n - 1))).

Lemma check_remove_majority v learner strict : cetcd_reconfig_check_remove v learner strict = negb strict || learner || (v <? 2 * (v - 1)).
Proof using Type.
  unfold cetcd_reconfig_check_remove, cetcd_reconfig_may_remove. destruct strict; [|done]. destruct learner; [done|]. cbn [negb orb].
  pose proof (Z.div_mod v 2 ltac:(lia)). pose proof (Z.mod_pos_bound v 2 ltac:(lia)).
  destruct (Z.eqb_spec v 0), (Z.leb_spec (v / 2 + 1) (v - 1)), (Z.ltb_spec v (2 * (v - 1))); (done || lia).
Qed.

Definition is_learner_of (c : cetcd_cluster) (id : Z) : bool := match members_of c !! id with Some p => p_is_learner p | None => false end.

Lemma not_strict : negb (negb (g_rpc_strict_reconfig_set g) || g_rpc_strict_reconfig g) = g_rpc_strict_reconfig_set g && negb (g_rpc_strict_reconfig g).
Proof using Type. by destruct (g_rpc_strict_reconfig_set g), (g_rpc_strict_reconfig g). Qed.

(** The refusals, with raft and without. *)
Lemma member_refusals (w : world) (c : cetcd_cluster) (url : bytes) (id : Z) (is_learner : bool) (req : bytes) :
  world_ok w -> w_cluster w = Some c -> url <> [] ->
  (parse_member_add_request_ req (blen req) = Ok (Some (url, is_learner)) -> in_joint w || is_learner && learners_full c = true ->
   cluster_handle_member_add backend_size flush inet_pton g w req = Ok (w, None)) /\
  (parse_member_id_request_ req (blen req) = Ok (Some id) ->
   (in_joint w || negb (may_remove (voters w c) c id) = true -> cluster_handle_member_remove backend_size flush g w req = Ok (w, None)) /\
   (in_joint w || negb (is_learner_of c id) = true -> cluster_handle_member_promote backend_size flush w req = Ok (w, None))).
Proof using Type.
  intros Hw Hc Hne. assert (Hok : cluster_ok c) by (pose proof (wo_cluster _ w Hw) as Hco; by rewrite Hc in Hco). split; [|intros Hp; split].
  - intros Hp Hno. unfold cluster_handle_member_add. rewrite Hp. cbn [mbind res_bind]. rewrite Hc, blen_nonempty by done.
    destruct (in_joint w); [done|]. unfold learners_full in Hno. unfold cetcd_reconfig_may_add_learner. rewrite <- Z.leb_antisym, <- andb_assoc.
    cbn [orb] in Hno. by rewrite Hno.
  - intros Hno. unfold cluster_handle_member_remove. rewrite Hp. cbn [mbind res_bind]. destruct (id =? 0); [done|]. rewrite Hc.
    destruct (in_joint w); [done|]. cbn [orb] in Hno. cbv zeta. rewrite get_peer_spec by done. fold (voters w c).
    unfold may_remove, cetcd_cluster_self_id in *. rewrite check_remove_majority, not_strict.
    destruct (members_of c !! id) as [p|]; destruct (id =? c_self_id c); cbn [orb negb andb] in *; rewrite ?bool_decide_true in * by eauto; cbn [negb andb] in *;
      try done; by rewrite Hno.
  - intros Hno. unfold cluster_handle_member_promote. rewrite Hp. cbn [mbind res_bind]. destruct (id =? 0); [done|]. rewrite Hc.
    destruct (in_joint w); [done|]. cbn [orb] in Hno. rewrite get_peer_spec by done. unfold is_learner_of in Hno.
    destruct (members_of c !! id) as [p|]; [|done]. by rewrite Hno.
Qed.

Section requests.
  Context (w : world) (c : cetcd_cluster) (Hw : world_ok w) (Hc : w_cluster w = Some c) (Hr : w_raft w = None)
    (Hq : forall d, over_quota backend_size w d = false) (Hfit : cluster_fits c).

Lemma cluster_is_ok : cluster_ok c.
Proof using Hw Hc. pose proof (wo_cluster _ w Hw) as Hco. by rewrite Hc in Hco. Qed.

Lemma not_in_joint : in_joint w = false.
Proof using Hr. unfold in_joint. by rewrite Hr. Qed.

Lemma parse_peer_url_range url addr port : parse_peer_url_ inet_pton url = Some (addr, port) -> nul_free addr /\ blen addr < 256 /\ 1 <= port <= 65535.
Proof using Type.
  unfold parse_peer_url_, cetcd_parse_peer_url. destruct (cetcd_parse_host_port inet_pton url 256 2380) as [[a v]| | |] eqn:Ep; try done. intros [= <- <-].
  by apply parse_host_port_range in Ep as (H1 & _ & H3 & H4); [|lia].
Qed.

Lemma member_add_request url is_learner addr port req : parse_member_add_request_ req (blen req) = Ok (Some (url, is_learner)) -> url <> [] ->
  parse_peer_url_ inet_pton url = Some (addr, port) ->
  let id := cetcd_cluster_alloc_id c in
  members_of c !! id = None /\ id <> c_self_id c /\
  cluster_handle_member_add backend_size flush inet_pton g w req =
    if is_learner && learners_full c then Ok (w, None)
    else match run_command w (CMemberAdd id is_learner addr port) with
         | Some (w', rc) => Ok (w', if rc =? 0 then Some (wires (member_answer (store_revision w') id is_learner)) else None)
         | None => Undef
         end.
Proof using All.
  intros Hparse Hne Hurl id. pose proof cluster_is_ok as Hok. pose proof (parse_peer_url_range _ _ _ Hurl) as (Ha1 & Ha2 & Hp).
  destruct Hfit as [Hself Hids]. destruct (alloc_id_fresh c Hok ltac:(lia) ltac:(split; [lia|done])) as [Hfree Hns]. fold id in Hfree, Hns.
  assert (Hid : 0 < id < 2 ^ 64).
  { pose proof (u64_range (foldl (fun mx p => if mx <? p_id p then p_id p else mx) (c_self_id c) (c_peers c) + 1)) as Hr64. fold (cetcd_cluster_alloc_id c) id in Hr64.
    destruct (max_loop (c_peers c) (c_self_id c)) as (X1 & X2 & X3). unfold id, cetcd_cluster_alloc_id in *. unfold in_u64 in Hr64.
    set (mx := foldl _ _ _) in *. assert (Hmx : mx < 2 ^ 64 - 1).
    { destruct X3 as [->|(p & Hp1 & Hp2)]; [lia|]. rewrite Forall_forall in Hids. specialize (Hids p Hp1). lia. }
    unfold u64. rewrite Z.mod_small by lia. lia. }
  split_and!; [done|done|]. unfold cluster_handle_member_add. rewrite Hparse. cbn [mbind res_bind]. rewrite Hc. rewrite blen_nonempty by done. rewrite not_in_joint.
  assert (Hfull : is_learner && g_rpc_max_learners_set g && negb (cetcd_reconfig_may_add_learner (cetcd_cluster_learner_count c) (g_rpc_max_learners g)) =
    is_learner && learners_full c).
  { unfold learners_full, cetcd_reconfig_may_add_learner. rewrite <- Z.leb_antisym. by rewrite andb_assoc. }
  rewrite Hfull. destruct (is_learner && learners_full c); [done|]. rewrite Hurl. fold id.
  change (cetcd_apply_encode_member_add id is_learner addr port) with (encode_command (CMemberAdd id is_learner addr port)).
  rewrite propose_command; [|done|done|cbn [command_fits]; unfold addr_fits; split_and!; (done || lia)].
  destruct (run_command w (CMemberAdd id is_learner addr port)) as [[w' rc]|] eqn:Hrun; [|done]. cbn [mbind res_bind].
  destruct (member_add_present w w' c (mk_peer id addr port is_learner) rc Hc Hr Hok) as (c' & Hc' & Hpres); [|done|done|].
  { constructor; cbn; [done|split; [unfold blen in Ha2; lia|done]|lia]. }
  rewrite Hc'. cbn [p_id] in Hpres. destruct (Z.eqb_spec rc 0) as [->|_]; cbn [Z.ltb Z.compare orb]; [|done].
  rewrite bool_decide_true by (by apply Hpres). cbn [negb]. by rewrite member_add_response_ok by (unfold in_u64; lia).
Qed.

Lemma member_id_requests id req : 0 < id < 2 ^ 64 -> parse_member_id_request_ req (blen req) = Ok (Some id) ->
  cluster_handle_member_remove backend_size flush g w req = command_if (may_remove (voters w c) c id) w (CMemberRemove id) /\
  cluster_handle_member_promote backend_size flush w req = command_if (is_learner_of c id) w (CMemberPromote id).
Proof using Hw Hc Hr Hq.
  intros Hid Hparse. pose proof cluster_is_ok as Hok. unfold cluster_handle_member_remove, cluster_handle_member_promote. rewrite Hparse. cbn [mbind res_bind].
  rewrite (proj2 (Z.eqb_neq id 0)) by lia. rewrite Hc, not_in_joint, Hr, get_peer_spec by done. cbv zeta. unfold cetcd_cluster_self_id, command_if, may_remove, voters, is_learner_of. rewrite Hr, check_remove_majority, not_strict.
  change (cetcd_apply_encode_member_remove id) with (encode_command (CMemberRemove id)).
  change (cetcd_apply_encode_member_promote id) with (encode_command (CMemberPromote id)). rewrite !propose_member_run by done. split.
  - destruct (members_of c !! id) as [p|]; destruct (id =? c_self_id c); cbn [orb negb andb]; rewrite ?bool_decide_true by eauto; cbn [negb]; by destruct (_ || _).
  - destruct (members_of c !! id) as [p|]; [|done]. by destruct (p_is_learner p).
Qed.

Lemma member_update_request id url addr port req : 0 < id < 2 ^ 64 -> parse_member_update_request_ 256 req (blen req) = Ok (Some (id, url)) -> cstr url <> [] ->
  parse_peer_url_ inet_pton (cstr url) = Some (addr, port) ->
  cluster_handle_member_update backend_size flush inet_pton w req = command_if true w (CMemberUpdate id addr port).
Proof using Hc Hr Hq.
  intros Hid Hparse Hne Hurl. pose proof (parse_peer_url_range _ _ _ Hurl) as (Ha1 & Ha2 & Hp). unfold cluster_handle_member_update. rewrite Hparse. cbn [mbind res_bind].
  rewrite (proj2 (Z.eqb_neq id 0)) by lia. rewrite Hc. rewrite blen_nonempty by done. rewrite Hurl. unfold command_if.
  change (cetcd_apply_encode_member_update id addr port) with (encode_command (CMemberUpdate id addr port)).
  rewrite propose_member_run; [done|done|done|]. cbn [command_fits]. unfold addr_fits. split_and!; (done || lia).
Qed.
End requests.

End handlers.
