(* ===== verification/MaintRpc.v ===== *)
(** * Maintenance requests (src/v3rpc/maint_handler.c)

    The handlers of the service Maintenance over the globals of the RPC layer;
    the alarm table itself is in Alarm.v.  The sizes of the database file and
    its defragmentation are arguments. *)

From Stdlib Require Import String.
From S2P Require Import Slice Hash KeyOrder Treap Hashmap Raft RaftWire Wal Backend Mvcc Lease CString Auth Cluster ApplyCodec Alarm Pb PbRequests Apply Kv LeaseRpc ClusterRpc Prelude.

#[local] Open Scope Z_scope.

Definition cetcd_version : bytes := bytes_of_string "0.3.0".

(** ** Parsing *)

Definition parse_hashkv_request_ (m : bytes) (len : Z) : res (option Z) :=
  or_minus_one (parse_at (table [(0x08, Avarint (fun _ v => up_to INT64_MAX id v))]) 0 m len).

(** Action, member and alarm; the two enumerations are cut to an [int]. *)
Definition parse_alarm_request_ (m : bytes) (len : Z) : res (option (Z * Z * Z)) :=
  or_minus_one (parse_at (table [
    (0x08, Avarint (fun '(_, member_id, alarm) v => Ok (i32 v, member_id, alarm)));
    (0x10, Avarint (fun '(action, _, alarm) v => Ok (action, v, alarm)));
    (0x18, Avarint (fun '(action, member_id, _) v => Ok (action, member_id, i32 v)))]) (0, 0, 0) m len).

Definition parse_move_leader_request_ (m : bytes) (len : Z) : res (option Z) :=
  or_minus_one (parse_at (table [(0x08, Avarint (fun _ v => Ok v))]) 0 m len).

Definition parse_downgrade_request_ (ver_cap : Z) (m : bytes) (len : Z) : res (option (Z * bytes)) :=
  or_minus_one (parse_at (table [
    (0x08, Avarint (fun '(_, ver) v => up_to INT_MAX (fun v => (v, ver)) v));
    (0x12, Abuf ver_cap (fun '(action, _) d => (action, d)))]) (0, []) m len).

(** src/v3rpc/downgrade.c *)
Definition CETCD_DOWNGRADE_VALIDATE : Z := 0.

Definition cetcd_v3rpc_downgrade_ok (action : Z) (version : bytes) : bool :=
  if negb (action =? CETCD_DOWNGRADE_VALIDATE) then false
  else if blen version =? 0 then false
  else streq version cetcd_version.

(** ** Responses *)

Definition make_simple_response (rev : Z) : res bytes :=
  hdr ← revision_header 16 rev;
  delim_out (2 + blen hdr) [] 0x0a hdr.

(** A tag and a varint. *)
Definition var_out (cap : Z) (out : bytes) (tag v : Z) : res bytes :=
  out ← put cap out tag;
  Ok (varint_out cap out v).

(** A tag, a length byte and the text. *)
Definition error_out (cap : Z) (out : bytes) (name : string) : res bytes :=
  out ← put cap out 0x42;
  out ← put cap out 7;
  copy_out cap out (bytes_of_string name).

Definition alarm_out (cap : Z) (out : bytes) (a : Z * Z) : res bytes :=
  let '(alarm_type, member_id) := a in
  enc ← var_out 32 [] 0x08 member_id;
  enc ← var_out 32 enc 0x10 (u64 alarm_type);
  delim_out cap out 0x12 enc.

Fixpoint alarms_out (cap : Z) (out : bytes) (l : list (Z * Z)) : res bytes :=
  match l with
  | [] => Ok out
  | a :: l => out ← alarm_out cap out a; alarms_out cap out l
  end.

Definition encode_snapshot_response_ (rev remaining : Z) (blob : bytes) : res bytes :=
  let cap := 64 + blen blob in
  hdr ← revision_header 32 rev;
  out ← delim_out cap [] 0x0a hdr;
  out ← var_out cap out 0x10 remaining;
  if 0 <? blen blob then
    out ← put cap out 0x1a;
    let out := varint_out cap out (blen blob) in
    if blen out + blen blob <=? cap then copy_out cap out blob else Ok out
  else Ok out.

(** A length and the bytes.  The code would skip and still count bytes that do not
    fit; the size computed for the blob leaves room for all. *)
Definition blob_part (total : Z) (blob d : bytes) : res bytes := copy_out total (varint_out total blob (blen d)) d.

Fixpoint blob_rows (total : Z) (blob : bytes) (kvs : list cetcd_kv) : res bytes :=
  match kvs with
  | [] => Ok blob
  | kv :: kvs =>
      blob ← blob_part total blob (kv_key kv);
      blob ← blob_part total blob (kv_value kv);
      blob_rows total blob kvs
  end.

Definition snapshot_blob (kvs : list cetcd_kv) : res bytes :=
  blob_rows (foldl (fun total kv => total + (10 + blen (kv_key kv) + blen (kv_value kv))) 0 kvs) [] kvs.

(** ** The handlers *)

Section MaintRpc.
  Context {T : Type -> Type} {E Tx : Type} `{!KeyIndex T, !Lmdb E Tx, !Clock, !AuthLibs}.
  Context (backend_size alloc_size : E -> Z) (defrag : E -> E * cetcd_status) (flush : world T E -> option (world T E)).
  Local Notation world := (world T E).

(** A value of the raft node, 0 without one. *)
Definition raft_value (w : world) (f : cetcd_raft -> Z) : Z := match w_raft w with Some r => f r | None => 0 end.

(** Whether the node lists itself as a learner. *)
Definition self_is_learner (w : world) : bool :=
  match w_cluster w with
  | Some c => if 0 <? w_node_id w then match cetcd_cluster_get_peer c (w_node_id w) with Some p => p_is_learner p | None => false end else false
  | None => false
  end.

Definition maint_handle_status (w : world) : res (option bytes) :=
  let rev := store_revision w in
  let commit := raft_value w cetcd_raft_committed in
  let term := raft_value w cetcd_raft_term in
  let db_inuse := if w_backend w then backend_size (w_env w) else 0 in
  let db_size := if w_backend w then (if alloc_size (w_env w) <? db_inuse then db_inuse else alloc_size (w_env w)) else 0 in
  hdr ← revision_header 16 rev;
  out ← delim_out 384 [] 0x0a hdr;
  out ← delim_out 384 out 0x12 cetcd_version;
  out ← var_out 384 out 0x18 db_size;
  out ← var_out 384 out 0x20 (raft_value w cetcd_raft_leader);
  out ← var_out 384 out 0x28 (if 0 <? commit then commit else if 0 <? rev then rev else 0);
  out ← var_out 384 out 0x30 (if 0 <? term then term else 1);
  out ← var_out 384 out 0x38 (raft_value w cetcd_raft_applied);
  out ← (if cetcd_v3rpc_alarm_is_active (w_alarms w) 1 then error_out 384 out "NOSPACE" else Ok out);
  out ← (if cetcd_v3rpc_alarm_is_active (w_alarms w) 2 then error_out 384 out "CORRUPT" else Ok out);
  out ← var_out 384 out 0x48 db_inuse;
  out ← var_out 384 out 0x50 (if self_is_learner w then 1 else 0);
  Ok (Some out).

Definition maint_handle_defragment (w : world) : res (world * option bytes) :=
  if w_backend w then
    let '(e, st) := defrag (w_env w) in
    let w := w <| w_env := e |> in
    if negb (is_ok st) then null w
    else out ← make_simple_response (store_revision w); Ok (w, Some out)
  else out ← make_simple_response (store_revision w); Ok (w, Some out).

Definition maint_handle_hash (w : world) : res (option bytes) :=
  match cetcd_mvcc_hash_kv (w_store w) 0 with
  | (CETCD_OK, h) =>
      hdr ← revision_header 16 (store_revision w);
      out ← delim_out 32 [] 0x0a hdr;
      out ← var_out 32 out 0x10 (default 0 h);
      Ok (Some out)
  | _ => Ok None
  end.

Definition maint_handle_hash_kv (w : world) (req : bytes) : res (option bytes) :=
  pr ← parse_hashkv_request_ req (blen req);
  match pr with
  | None => Ok None
  | Some req_rev =>
      let current := store_revision w in
      let compact_rev := cetcd_mvcc_compacted_revision (w_store w) in
      if (0 <? req_rev) && (0 <? compact_rev) && (req_rev <? compact_rev) then Ok None
      else if (0 <? req_rev) && (current <? req_rev) then Ok None
      else
        let rev := if 0 <? req_rev then req_rev else current in
        match cetcd_mvcc_hash_kv (w_store w) rev with
        | (CETCD_OK, h) =>
            hdr ← revision_header 16 rev;
            out ← delim_out 32 [] 0x0a hdr;
            out ← var_out 32 out 0x10 (default 0 h);
            out ← var_out 32 out 0x18 (if 0 <? compact_rev then compact_rev else 0);
            Ok (Some out)
        | _ => Ok None
        end
  end.

Definition alarm_response (w : world) : res (world * option bytes) :=
  hdr ← revision_header 16 (store_revision w);
  out ← delim_out 256 [] 0x0a hdr;
  out ← alarms_out 256 out (active_alarms (w_alarms w));
  Ok (w, Some out).

Definition maint_handle_alarm (w : world) (req : bytes) : res (world * option bytes) :=
  pr ← parse_alarm_request_ req (blen req);
  match pr with
  | None => null w
  | Some (action, member_id, alarm_type) =>
      if (action =? 1) || (action =? 2) then
        if negb (alarm_type =? 1) && negb (alarm_type =? 2) then
          if negb (alarm_type =? 0) then null w else alarm_response w
        else
          '(w, rc) ← propose backend_size flush w (cetcd_apply_encode_alarm action alarm_type member_id);
          if rc <? 0 then null w else alarm_response w
      else alarm_response w
  end.

Definition maint_handle_move_leader (w : world) (req : bytes) : res (world * option bytes) :=
  pr ← parse_move_leader_request_ req (blen req);
  match pr with
  | None => null w
  | Some target_id =>
      if target_id =? 0 then null w
      else
        let w := match w_raft w with
                 | Some r => w <| w_raft := Some (cetcd_raft_step r (zero_msg <| m_type := CETCD_MSG_TRANSFER_LEADER |> <| m_to := target_id |> <| m_from := w_node_id w |>)).1 |>
                 | None => w end in
        out ← make_simple_response (store_revision w);
        Ok (w, Some out)
  end.

(** The messages written to the stream, if it has a writer, and the answer. *)
Definition maint_handle_snapshot (writer : bool) (w : world) : res (list bytes * option bytes) :=
  blob ← match cetcd_mvcc_range (w_store w) 0 [] [255] with (CETCD_OK, kvs) => snapshot_blob kvs | _ => Ok [] end;
  let rev := store_revision w in
  first ← (if writer && (0 <? blen blob) then first ← encode_snapshot_response_ rev (blen blob) []; Ok [first] else Ok []);
  out ← encode_snapshot_response_ rev 0 blob;
  Ok (first, Some out).

Definition maint_handle_downgrade (w : world) (req : bytes) : res (option bytes) :=
  pr ← parse_downgrade_request_ 32 req (blen req);
  match pr with
  | None => Ok None
  | Some (action, ver) =>
      if negb (cetcd_v3rpc_downgrade_ok action (cstr ver)) then Ok None
      else
        hdr ← revision_header 16 (store_revision w);
        out ← delim_out 64 [] 0x0a hdr;
        out ← delim_out 64 out 0x12 cetcd_version;
        Ok (Some out)
  end.

End MaintRpc.
