(* ===== verification/MaintRpcProps.v ===== *)
(** * Maintenance requests: what the handlers do

    The Snapshot request hands out the keyspace in the format of snapshot files;
    an alarm that is raised or cleared shows in the answer and in the status. *)

From Stdlib Require Import String.
From S2P Require Import Slice Hash KeyOrder Treap Hashmap Raft RaftWire Wal Backend Mvcc MvccSnap MvccStore Lease LeaseProps LeaseRestart CString Auth AuthProps Cluster ClusterProps ApplyCodec Alarm Pb PbProps PbSafe PbRequests PbResponses PbCodec Snap SnapProps Apply ApplyCmd ApplyInv Kv KvCodec KvProps LeaseRpc LeaseRpcProps ClusterRpc MaintRpc Prelude.

#[local] Open Scope Z_scope.

(** ** Snapshots *)

(** The row of a snapshot file; the file does not keep revisions. *)
Definition snap_row (kv : cetcd_kv) : cetcd_snap_entry := mk_snap_entry (kv_key kv) (kv_value kv) 0.

(** What a snapshot file takes. *)
Definition row_fits (kv : cetcd_kv) : Prop := SnapProps.kv_fits (snap_row kv) /\ bytes_ok (kv_key kv) /\ bytes_ok (kv_value kv).

Lemma blob_part_ok total blob d : blen d <= SNAP_KV_MAX -> blen blob + 5 + blen d <= total ->
  blob_part total blob d = Ok (blob ++ write_varint_kv_ (blen d) ++ d) /\ blen (write_varint_kv_ (blen d)) <= 5.
Proof.
  intros Hd Hc. pose proof (blen_nonneg d). unfold SNAP_KV_MAX in Hd. unfold blob_part. rewrite write_varint_kv_eq.
  change (varint (blen d)) with (wire_u64_ (blen d)).
  pose proof (wire_u64_len (blen d) 5 ltac:(lia) ltac:(change (2 ^ (7 * Z.of_nat 5)) with 34359738368; lia)) as Hw. change (Z.of_nat 5) with 5 in Hw.
  rewrite varint_out_ok by (unfold in_u64; lia). rewrite copy_room by (rewrite blen_app; lia). by rewrite <- app_assoc.
Qed.

Lemma foldl_total kvs n : foldl (fun total kv => total + (10 + blen (kv_key kv) + blen (kv_value kv))) n kvs =
  n + foldl (fun total kv => total + (10 + blen (kv_key kv) + blen (kv_value kv))) 0 kvs.
Proof. revert n. induction kvs as [|kv kvs IH]; intros n; cbn [foldl]; [lia|]. rewrite IH, (IH (0 + _)). lia. Qed.

(** The blob is the one of a snapshot file. *)
Lemma blob_rows_ok kvs : Forall row_fits kvs -> forall total blob,
  blen blob + foldl (fun total kv => total + (10 + blen (kv_key kv) + blen (kv_value kv))) 0 kvs <= total ->
  blob_rows total blob kvs = Ok (blob ++ mjoin (kv_entry_bytes <$> (snap_row <$> kvs))).
Proof.
  induction 1 as [|kv kvs [[Hk Hv] _] _ IH]; intros total blob Hc; cbn [blob_rows]; [by rewrite app_nil_r|].
  cbn [foldl] in Hc. rewrite foldl_total in Hc. cbn [se_key se_value snap_row] in Hk, Hv.
  assert (Hpos : forall kvs n, 0 <= n -> 0 <= foldl (fun total kv => total + (10 + blen (kv_key kv) + blen (kv_value kv))) n kvs).
  { clear. induction kvs as [|kv kvs IH]; intros n Hn; [done|]. cbn. apply IH. pose proof (blen_nonneg (kv_key kv)). pose proof (blen_nonneg (kv_value kv)). lia. }
  specialize (Hpos kvs 0 ltac:(lia)). pose proof (blen_nonneg (kv_key kv)). pose proof (blen_nonneg (kv_value kv)).
  destruct (blob_part_ok total blob (kv_key kv) Hk ltac:(lia)) as [-> B1]. cbn [mbind res_bind].
  destruct (blob_part_ok total (blob ++ write_varint_kv_ (blen (kv_key kv)) ++ kv_key kv) (kv_value kv) Hv) as [-> B2]; [rewrite !blen_app; lia|].
  cbn [mbind res_bind]. rewrite IH by (rewrite !blen_app; lia). rewrite fmap_cons, kv_entry_cons. unfold kv_entry_bytes at 2. cbn [se_key se_value snap_row].
  by rewrite <- !app_assoc.
Qed.

(** The fields of a response. *)
Definition snapshot_fields (rev remaining : Z) (blob : bytes) : list field :=
  [FMsg 10 (header_fields rev); FVar 16 remaining] ++ (if 0 <? blen blob then [FLen 26 blob] else []).

Lemma snapshot_response_ok rev remaining blob : in_u64 remaining -> blen blob < 4611686018427387904 ->
  encode_snapshot_response_ rev remaining blob = Ok (wires (snapshot_fields rev remaining blob)).
Proof.
  intros Hr Hb. unfold encode_snapshot_response_. destruct (revision_header_ok 32 rev ltac:(lia)) as [-> Hh]. cbn [mbind res_bind]. pose proof (blen_nonneg blob).
  change 0x0a with 10. rewrite header_delim by (change (blen (@nil Z)) with 0; lia). cbn [mbind res_bind app].
  set (f1 := wires [FMsg 10 (header_fields rev)]). assert (B1 : 0 < blen f1 <= 14).
  { unfold f1. rewrite wires_cons, wires_nil, app_nil_r. cbn [wire]. pose proof (delimited_small 10 (wires (header_fields rev)) ltac:(lia)) as Hd.
    pose proof (delimited_blen 10 (wires (header_fields rev))). unfold wires in Hd, Hh, H0. lia. }
  unfold var_out. change 0x10 with 16. rewrite (var_out_ok Ok); [|done|cbn [wire]; sizes]. cbn [mbind res_bind]. set (f2 := wire (FVar 16 remaining)).
  assert (B2 : 0 < blen f2 <= 11) by (unfold f2; cbn [wire]; sizes).
  assert (Ew : wires (snapshot_fields rev remaining blob) = (f1 ++ f2) ++ wires (if 0 <? blen blob then [FLen 26 blob] else [])).
  { unfold snapshot_fields. rewrite wires_app. f_equal. rewrite wires_cons, (wires_cons (FVar 16 _)), wires_nil, app_nil_r. unfold f1. by rewrite wires_cons, wires_nil, app_nil_r. }
  rewrite Ew. destruct (0 <? blen blob); [|by rewrite wires_nil, app_nil_r]. rewrite wires_cons, wires_nil, app_nil_r. change 0x1a with 26.
  rewrite put_room by (rewrite blen_app; lia). cbn [mbind res_bind]. cbv zeta. pose proof (wire_u64_blen (blen blob)).
  rewrite varint_out_ok by (unfold in_u64; rewrite ?blen_app, ?blen_cons; change (blen (@nil Z)) with 0; lia).
  rewrite (proj2 (Z.leb_le _ _)) by (rewrite !blen_app, ?blen_cons; change (blen (@nil Z)) with 0; lia).
  rewrite copy_room by (rewrite !blen_app, ?blen_cons; change (blen (@nil Z)) with 0; lia). cbn [wire]. unfold delimited. by rewrite <- !app_assoc.
Qed.

Lemma header_field_ok rev : field_ok (FMsg 10 (header_fields rev)).
Proof.
  destruct (revision_header_ok 16 rev ltac:(lia)) as [_ Hh]. unfold wires in Hh. cbn [field_ok]. split_and!; [done..|lia|].
  apply fields_ok_Forall. repeat constructor; [done..|apply u64_range|apply u64_range].
Qed.

Lemma snapshot_parses cap rev blob : blen blob < 4611686018427387904 -> blen blob < cap ->
  cetcd_parse_snapshot_response cap (wires (snapshot_fields rev 0 blob)) = Ok (blob, blen blob).
Proof.
  intros Hb Hc. pose proof (blen_nonneg blob). unfold cetcd_parse_snapshot_response. rewrite (proj2 (Z.eqb_neq _ _)) by lia.
  set (t := table _).
  assert (Hi : interps t ([], 0) (snapshot_fields rev 0 blob) = Ok (blob, blen blob)).
  { unfold snapshot_fields. destruct (Z.ltb_spec 0 (blen blob)) as [Hpos|Hz]; cbn.
    - rewrite (proj2 (Z.eqb_neq cap 0)), (proj2 (Z.leb_gt cap (blen blob))) by lia. done.
    - destruct blob as [|x blob]; [done|]. rewrite blen_cons in Hz. pose proof (blen_nonneg blob). lia. }
  rewrite parse_wires; [exact Hi| | |by rewrite Hi].
  - unfold snapshot_fields. constructor; [apply header_field_ok|]. constructor; [split; [done|done]|]. destruct (0 <? blen blob); repeat constructor; done.
  - unfold snapshot_fields. rewrite wires_app, blen_app. destruct (revision_header_ok 16 rev ltac:(lia)) as [_ Hh].
    rewrite wires_cons, (wires_cons (FVar 16 0)), wires_nil, app_nil_r, blen_app. cbn [wire]. change (concat (map wire (header_fields rev))) with (wires (header_fields rev)).
    pose proof (delimited_blen 10 (wires (header_fields rev))). change (blen (16 :: wire_u64_ 0)) with 2.
    destruct (0 <? blen blob); [rewrite wires_cons, wires_nil, app_nil_r; cbn [wire]; pose proof (delimited_blen 26 blob); lia|rewrite wires_nil; change (blen (@nil Z)) with 0; lia].
Qed.

(** ** Fields of the other answers *)

Lemma maint_var_ok cap out tag v : in_u64 v -> blen out + 11 <= cap -> var_out cap out tag v = Ok (out ++ wire (FVar tag v)) /\ 0 < blen (wire (FVar tag v)) <= 11.
Proof.
  intros Hv Hc. assert (0 < blen (wire (FVar tag v)) <= 11) by (cbn [wire]; sizes).
  unfold var_out. rewrite (var_out_ok Ok); [split; [done|lia]|done|lia].
Qed.

Lemma error_out_ok cap out name : blen (bytes_of_string name) = 7 -> 0 <= blen out -> blen out + 9 <= cap ->
  error_out cap out name = Ok (out ++ wire (FLen 66 (bytes_of_string name))) /\ blen (wire (FLen 66 (bytes_of_string name))) = 9.
Proof.
  intros H7 H0 Hc. cbn [wire]. unfold delimited. rewrite H7. change (wire_u64_ 7) with [7].
  unfold error_out. rewrite put_room by lia. cbn [mbind res_bind]. rewrite put_room by (rewrite blen_app, blen_cons; change (blen (@nil Z)) with 0; lia). cbn [mbind res_bind].
  rewrite copy_room by (rewrite !blen_app, !blen_cons, H7; change (blen (@nil Z)) with 0; lia). rewrite <- !app_assoc, blen_cons, blen_app, blen_cons, H7. done.
Qed.

(** The active alarms in an answer. *)
Definition alarm_field (a : Z * Z) : field := FMsg 18 [FVar 8 a.2; FVar 16 (u64 a.1)].
Definition alarm_fields (rev : Z) (alarms : list alarm_cell) : list field := FMsg 10 (header_fields rev) :: map alarm_field (active_alarms alarms).

Definition alarms_fit (alarms : list alarm_cell) : Prop :=
  (length alarms <= MAX_ALARMS)%nat /\ Forall (fun a => match a with Some (_, m) => in_u64 m | None => True end) alarms.

Lemma alarms_out_ok l : Forall (fun a : Z * Z => in_u64 a.2) l -> forall cap out, 0 <= blen out -> blen out + 25 * blen l <= cap ->
  alarms_out cap out l = Ok (out ++ wires (map alarm_field l)).
Proof.
  induction 1 as [|[t m] l Hm _ IH]; intros cap out H0 Hc; cbn [alarms_out map]; [by rewrite wires_nil, app_nil_r|].
  rewrite blen_cons in Hc. cbn [snd] in Hm. pose proof (blen_nonneg l). unfold alarm_out.
  destruct (maint_var_ok 32 [] 8 m Hm ltac:(done)) as [Ev Bv]. change 0x08 with 8. rewrite Ev. cbn [mbind res_bind app].
  destruct (maint_var_ok 32 (wire (FVar 8 m)) 16 (u64 t) (u64_range t) ltac:(lia)) as [-> Bt]. cbn [mbind res_bind].
  set (e := wire (FVar 8 m) ++ wire (FVar 16 (u64 t))). assert (Be : 0 <= blen e <= 22) by (unfold e; rewrite blen_app; lia).
  assert (Ef : wire (alarm_field (t, m)) = delimited 18 e) by (unfold alarm_field, e; cbn [wire map concat fst snd]; by rewrite app_nil_r).
  pose proof (delimited_small 18 e ltac:(lia)). change 0x12 with 18. rewrite delim_out_ok by (unfold PbProps.short; lia). cbn [mbind res_bind].
  rewrite IH; [|rewrite blen_app; pose proof (blen_nonneg (delimited 18 e)); lia|rewrite blen_app; lia]. rewrite wires_cons, Ef, app_assoc. done.
Qed.

Lemma active_alarms_fit alarms : alarms_fit alarms -> Forall (fun a : Z * Z => in_u64 a.2) (active_alarms alarms) /\ (length (active_alarms alarms) <= 8)%nat.
Proof.
  intros [Hl Hf]. change MAX_ALARMS with 8%nat in Hl. unfold active_alarms. split.
  - clear Hl. induction Hf as [|[[t m]|] l Ha _ IH]; cbn; [constructor|by constructor|done].
  - enough (length (omap id alarms) <= length alarms)%nat by lia. clear. induction alarms as [|[a|] l IH]; cbn in *; lia.
Qed.

Lemma fill_free_fit alarms a alarms' : fill_free alarms a = Some alarms' -> in_u64 a.2 -> alarms_fit alarms -> alarms_fit alarms'.
Proof.
  intros Hf Ha [Hl Hall]. enough (length alarms' = length alarms /\ Forall (fun a => match a with Some (_, m) => in_u64 m | None => True end) alarms') as [E ?]
    by (split; [by rewrite E|done]). clear Hl. revert alarms' Hf. induction Hall as [|[b|] l Hb Hl IH]; intros alarms' Hf; cbn in Hf; [done| |].
  - destruct (fill_free l a) as [l'|]; [|done]. injection Hf as <-. destruct (IH l' eq_refl) as [E ?]. cbn. split; [by rewrite E|by constructor].
  - injection Hf as <-. split; [done|]. constructor; [by destruct a|done].
Qed.

Section maint.
  Context {T : Type -> Type} {E Tx : Type} `{!KeyIndex T, !KeyIndexLaws T, !Lmdb E Tx, !LmdbLaws E Tx, !Clock, !AuthLibs}.
  Local Notation world := (world T E).

(** Writes a number of the status. *)
Ltac maint_var :=
  match goal with |- context [var_out 384 ?o ?tag ?v] =>
    let B := fresh "B" in destruct (maint_var_ok 384 o tag v) as [-> B]; [done|rewrite ?blen_app; lia|]; cbn [mbind res_bind]
  end.

(** The numbers of a status: the sizes of the file and of its used part, the
    index and the term. *)
Definition db_in_use (backend_size : E -> Z) (w : world) : Z := if w_backend w then backend_size (w_env w) else 0.
Definition db_size (backend_size alloc_size : E -> Z) (w : world) : Z :=
  if w_backend w then if alloc_size (w_env w) <? db_in_use backend_size w then db_in_use backend_size w else alloc_size (w_env w) else 0.
Definition status_index (w : world) : Z :=
  if 0 <? raft_value w cetcd_raft_committed then raft_value w cetcd_raft_committed else if 0 <? store_revision w then store_revision w else 0.
Definition status_term (w : world) : Z := if 0 <? raft_value w cetcd_raft_term then raft_value w cetcd_raft_term else 1.

Definition error_fields (w : world) (alarm_type : Z) (name : string) : list field :=
  if cetcd_v3rpc_alarm_is_active (w_alarms w) alarm_type then [FLen 66 (bytes_of_string name)] else [].

Definition status_fields (backend_size alloc_size : E -> Z) (w : world) : list field :=
  [FMsg 10 (header_fields (store_revision w)); FLen 18 cetcd_version; FVar 24 (db_size backend_size alloc_size w); FVar 32 (raft_value w cetcd_raft_leader);
   FVar 40 (status_index w); FVar 48 (status_term w); FVar 56 (raft_value w cetcd_raft_applied)] ++
  error_fields w 1 "NOSPACE" ++ error_fields w 2 "CORRUPT" ++ [FVar 72 (db_in_use backend_size w); FVar 80 (if self_is_learner w then 1 else 0)].

(** They are 64 bit. *)
Definition status_fits (backend_size alloc_size : E -> Z) (w : world) : Prop :=
  in_u64 (backend_size (w_env w)) /\ in_u64 (alloc_size (w_env w)) /\ in_u64 (store_revision w) /\
  match w_raft w with
  | Some r => in_u64 (cetcd_raft_leader r) /\ in_u64 (cetcd_raft_committed r) /\ in_u64 (cetcd_raft_term r) /\ in_u64 (cetcd_raft_applied r)
  | None => True
  end.

Lemma status_numbers bs als (w : world) : status_fits bs als w ->
  in_u64 (db_size bs als w) /\ in_u64 (db_in_use bs w) /\ in_u64 (status_index w) /\ in_u64 (status_term w) /\
  in_u64 (raft_value w cetcd_raft_leader) /\ in_u64 (raft_value w cetcd_raft_applied).
Proof using Type.
  intros (Hb & Ha & Hrev & Hr). unfold db_size, db_in_use, status_index, status_term, raft_value, in_u64 in *.
  destruct (w_raft w) as [r|]; [destruct Hr as (? & ? & ? & ?)|]; destruct (w_backend w); split_and!; repeat case_match; lia.
Qed.

Lemma error_out_if (w : world) o t name : blen (bytes_of_string name) = 7 -> 0 <= blen o -> blen o + 9 <= 384 ->
  (if cetcd_v3rpc_alarm_is_active (w_alarms w) t then error_out 384 o name else Ok o) = Ok (o ++ wires (error_fields w t name)) /\
  0 <= blen (wires (error_fields w t name)) <= 9.
Proof using Type.
  intros H7 Ho Hc. unfold error_fields. destruct (cetcd_v3rpc_alarm_is_active (w_alarms w) t); [|rewrite wires_nil, app_nil_r; done].
  rewrite wires_cons, wires_nil, app_nil_r. destruct (error_out_ok 384 o name H7 Ho Hc) as [-> ->]. done.
Qed.

Lemma status_ok bs als (w : world) : status_fits bs als w -> maint_handle_status bs als w = Ok (Some (wires (status_fields bs als w))).
Proof using Type.
  intros Hf. destruct (status_numbers bs als w Hf) as (H1 & H2 & H3 & H4 & H5 & H6). unfold maint_handle_status. cbv zeta.
  fold (db_in_use bs w). fold (db_size bs als w). fold (status_index w). fold (status_term w). unfold status_fields.
  set (size := db_size bs als w) in *. set (use := db_in_use bs w) in *. set (index := status_index w) in *. set (term := status_term w) in *. clearbody size use index term.
  destruct (revision_header_ok 16 (store_revision w) ltac:(lia)) as [-> Hh]. cbn [mbind res_bind].
  change 0x0a with 10. rewrite header_delim by (change (blen (@nil Z)) with 0; lia). cbn [mbind res_bind app].
  pose proof (header_size (store_revision w)) as B1. rewrite wires_cons, wires_nil, app_nil_r in B1 |- *. set (f1 := wire (FMsg 10 _)) in *. pose proof (blen_nonneg f1).
  change 0x12 with 18. assert (B2 : blen (delimited 18 cetcd_version) = 7) by reflexivity. rewrite delim_out_ok by (done || lia). cbn [mbind res_bind].
  change (delimited 18 cetcd_version) with (wire (FLen 18 cetcd_version)) in B2 |- *. do 5 maint_var.
  match goal with |- context [error_out 384 ?o "NOSPACE"] => destruct (error_out_if w o 1 "NOSPACE") as [-> B7]; [done|apply blen_nonneg|rewrite !blen_app; lia|] end. cbn [mbind res_bind].
  match goal with |- context [error_out 384 ?o "CORRUPT"] => destruct (error_out_if w o 2 "CORRUPT") as [-> B8]; [done|apply blen_nonneg|rewrite !blen_app; lia|] end. cbn [mbind res_bind].
  maint_var. assert (Hl : in_u64 (if self_is_learner w then 1 else 0)) by (by destruct (self_is_learner w)). maint_var.
  do 7 rewrite wires_cons. rewrite !wires_app, (wires_cons (FVar 72 _)), (wires_cons (FVar 80 _)), wires_nil, app_nil_r. by rewrite <- !app_assoc.
Qed.
(** *** Alarms *)

Lemma alarm_response_ok (w : world) : alarms_fit (w_alarms w) -> alarm_response w = Ok (w, Some (wires (alarm_fields (store_revision w) (w_alarms w)))).
Proof using Type.
  intros Hf. destruct (active_alarms_fit _ Hf) as [Ha Hl]. unfold alarm_response.
  destruct (revision_header_ok 16 (store_revision w) ltac:(lia)) as [-> Hh]. cbn [mbind res_bind].
  change 0x0a with 10. rewrite header_delim by (change (blen (@nil Z)) with 0; lia). cbn [mbind res_bind app]. pose proof (header_size (store_revision w)).
  rewrite alarms_out_ok; [|done|apply blen_nonneg|unfold blen at 2; lia]. cbn [mbind res_bind]. unfold alarm_fields. rewrite (wires_cons (FMsg 10 _)).
  by rewrite wires_cons, wires_nil, app_nil_r.
Qed.

Lemma alarm_command_fit (w w' : world) a t m rc : in_u64 m -> alarms_fit (w_alarms w) -> run_command w (CAlarm a t m) = Some (w', rc) -> alarms_fit (w_alarms w').
Proof using Type.
  intros Hm Hf. cbn [run_command]. unfold apply_alarm. destruct (_ || _); [by intros [= <- _]|].
  destruct (a =? 1).
  - unfold cetcd_v3rpc_alarm_activate. destruct (t <=? 0); [by intros [= <- _]|]. destruct (cetcd_v3rpc_alarm_is_active _ _); [by intros [= <- _]|].
    destruct (fill_free _ _) as [l|] eqn:Hfill; intros [= <- _]; [|done]. eapply fill_free_fit; [exact Hfill| |done]. unfold in_u64 in *. cbn [snd]. destruct (0 <? m); lia.
  - unfold cetcd_v3rpc_alarm_deactivate. destruct (t <=? 0); [by intros [= <- _]|]. cbv zeta. destruct Hf as [Hl Hall]. intros [= <- _]. cbn [w_alarms field_set].
    split; [by rewrite length_fmap|]. apply Forall_fmap. eapply Forall_impl; [exact Hall|]. intros c Hc. cbn. by destruct (deactivates t m c).
Qed.

(** The active alarms, as pairs of type and member, once a request of member [m]
    has raised ([a] = 1) or cleared ([a] = 2) the alarm [t]: raising adds it,
    under member 1 when none is named, unless it is active or all eight cells are
    taken; clearing removes those of the member, or of all when none is named. *)
Definition alarms_after (active : list (Z * Z)) (a m t : Z) (active' : list (Z * Z)) : Prop :=
  if a =? 1 then
    if decide (t ∈ active.*1 \/ (8 <= length active)%nat) then active' = active
    else active' ≡ₚ (t, if m =? 0 then 1 else m) :: active
  else active' = List.filter (fun x => negb ((x.1 =? t) && ((m =? 0) || (x.2 =? m)))) active.

Lemma is_active_elem alarms t : cetcd_v3rpc_alarm_is_active alarms t = true <-> t ∈ (active_alarms alarms).*1.
Proof.
  unfold cetcd_v3rpc_alarm_is_active, active_alarms. induction alarms as [|[[u k]|] l IH]; cbn [existsb omap list_omap id]; [by rewrite elem_of_nil| |exact IH].
  rewrite orb_true_iff, IH, fmap_cons, elem_of_cons. cbn [fst]. rewrite Z.eqb_eq. split; (intros [?|?]; [left; congruence|by right]).
Qed.

Lemma fill_free_perm alarms x :
  match fill_free alarms x with
  | Some l => active_alarms l ≡ₚ x :: active_alarms alarms /\ (length (active_alarms alarms) < length alarms)%nat
  | None => length (active_alarms alarms) = length alarms
  end.
Proof.
  unfold active_alarms. induction alarms as [|[b|] l IH]; cbn [fill_free fmap option_fmap option_map omap list_omap id length]; [done| |].
  - destruct (fill_free l x) as [l'|]; cbn [fmap option_fmap option_map omap list_omap id length]; [|by rewrite IH].
    destruct IH as [IH Hl]. split; [|lia]. rewrite IH. apply Permutation_swap.
  - split; [done|]. assert (Hle : (length (omap id l) <= length l)%nat); [|lia].
    clear. induction l as [|[b|] l IH]; cbn [omap list_omap id length]; lia.
Qed.

Lemma cleared_alarms alarms t m :
  active_alarms ((fun a => if deactivates t m a then None else a) <$> alarms) =
  List.filter (fun x => negb ((x.1 =? t) && ((m =? 0) || (x.2 =? m)))) (active_alarms alarms).
Proof.
  unfold active_alarms. induction alarms as [|[[u k]|] l IH]; [done| |exact IH]. cbn [fmap list_fmap omap list_omap id deactivates List.filter fst snd].
  destruct ((u =? t) && ((m =? 0) || (k =? m))); cbn [negb]; by rewrite IH.
Qed.

Lemma alarm_command (w : world) a m t : (a = 1 \/ a = 2) -> (t = 1 \/ t = 2) -> in_u64 m -> length (w_alarms w) = MAX_ALARMS ->
  exists w', run_command w (CAlarm a t m) = Some (w', 0) /\ w_store w' = w_store w /\ w_raft w' = w_raft w /\
    alarms_after (active_alarms (w_alarms w)) a m t (active_alarms (w_alarms w')).
Proof using Type.
  intros Ha Ht Hm Hlen. assert (Hpos : (t <=? 0) = false) by (destruct Ht; subst; done). cbn [run_command]. unfold apply_alarm.
  replace (_ || _) with false by (destruct Ha, Ht; subst; done). unfold cetcd_v3rpc_alarm_activate, cetcd_v3rpc_alarm_deactivate. rewrite Hpos.
  destruct Ha as [->| ->]; cbn [Z.eqb Pos.eqb]; cbv zeta.
  - pose proof (is_active_elem (w_alarms w) t) as Hact. pose proof (fill_free_perm (w_alarms w) (t, if 0 <? m then m else 1)) as Hfill.
    rewrite Hlen in Hfill. change MAX_ALARMS with 8%nat in Hfill. unfold alarms_after. cbn [Z.eqb Pos.eqb].
    destruct (cetcd_v3rpc_alarm_is_active (w_alarms w) t).
    { eexists. split_and!; [reflexivity|done..|]. rewrite decide_True by (left; by apply Hact). done. }
    assert (Hno : t ∉ (active_alarms (w_alarms w)).*1) by (by intros ?%Hact).
    destruct (fill_free _ _) as [l|]; eexists; (split_and!; [reflexivity|done..|]); cbn [w_alarms field_set].
    + destruct Hfill as [Hp Hl]. rewrite decide_False by (intros [?|?]; [done|lia]). cbn. rewrite Hp.
      replace (if m =? 0 then 1 else m) with (if 0 <? m then m else 1); [done|]. unfold in_u64 in Hm. destruct (Z.eqb_spec m 0), (Z.ltb_spec 0 m); (done || lia).
    + rewrite decide_True by (right; lia). done.
  - eexists. split_and!; [reflexivity|done..|]. unfold alarms_after. cbn [Z.eqb Pos.eqb]. apply cleared_alarms.
Qed.

  Context (backend_size alloc_size : E -> Z) (flush : world -> option world).

(** C38: alarms take effect and are reported, on a server with the quota off.
    Without raft, a request that raises or clears the NOSPACE or CORRUPT alarm of
    a member is answered with all alarms that are then active: those before with
    the alarm added for this member (for member 1 when the request names none)
    unless its type is active already or the table is full, or without the
    alarms of the type of this member (of all members when it names none).
    The status that follows, on a node with any raft state (leader, term and
    indices of 64 bits), names exactly the active alarms next to the sizes, the
    leader, the committed index, the term and the applied index of the node. *)
Theorem alarms_reported (w : world) req a m t :
  w_raft w = None -> (forall d, over_quota backend_size w d = false) -> alarms_fit (w_alarms w) -> length (w_alarms w) = MAX_ALARMS ->
  parse_alarm_request_ req (blen req) = Ok (Some (a, m, t)) -> (a = 1 \/ a = 2) -> (t = 1 \/ t = 2) -> in_u64 m ->
  exists w', maint_handle_alarm backend_size flush w req = Ok (w', Some (wires (alarm_fields (store_revision w) (w_alarms w')))) /\
    alarms_after (active_alarms (w_alarms w)) a m t (active_alarms (w_alarms w')) /\ w_store w' = w_store w /\
    forall r : option cetcd_raft, let node := w' <| w_raft := r |> in status_fits backend_size alloc_size node ->
      maint_handle_status backend_size alloc_size node = Ok (Some (wires (status_fields backend_size alloc_size node))).
Proof using Type.
  intros Hr Hq Hf Hlen Hp Ha Ht Hm. destruct (alarm_command w a m t Ha Ht Hm Hlen) as (w' & Hrun & Hs & Hr' & Hact). exists w'.
  pose proof (alarm_command_fit w w' a t m 0 Hm Hf Hrun) as Hf'. assert (Es : store_revision w' = store_revision w) by (unfold store_revision; by rewrite Hs).
  split_and!; [|done..|intros r node; apply status_ok].
  unfold maint_handle_alarm. rewrite Hp. cbn [mbind res_bind]. change (cetcd_apply_encode_alarm a t m) with (encode_command (CAlarm a t m)).
  rewrite propose_command by (done || by split_and!). rewrite Hrun. replace ((a =? 1) || (a =? 2)) with true by (destruct Ha; by subst).
  replace (negb (t =? 1) && negb (t =? 2)) with false by (destruct Ht; by subst). cbn [mbind res_bind Z.eqb Z.ltb Z.compare].
  rewrite alarm_response_ok by done. by rewrite Es.
Qed.

Lemma all_rows_below (m : gmap bytes cetcd_kv) : (forall k, is_Some (m !! k) -> lex_lt k [255]) -> rows_between [] [255] m = (sorted_entries m).*2.
Proof using Type.
  intros Hlow. unfold rows_between. f_equal.
  assert (Hall : Forall (fun kv => key_in_range_ kv.1 [] [255] = true) (sorted_entries m)).
  { apply Forall_forall. intros [k kv] Hin%sorted_entries_elem. cbn [fst]. rewrite (key_in_range_index k tt). unfold in_range_. cbn [fst].
    rewrite !slice_compare_lex. specialize (Hlow k ltac:(eauto)). unfold lex_lt in Hlow. rewrite Hlow. by destruct k. }
  induction Hall as [|kv l Hkv _ IH]; [done|]. cbn [List.filter]. by rewrite Hkv, IH.
Qed.

(** C37: backups can be restored.  When every key is below the byte 255 (the
    handler leaves out the others, [snapshot_rpc_misses_high_keys]), the answer to
    Snapshot, and before it on a stream the size still to come, carries all keys
    with their current values, in key order and in the format of snapshot files:
    the client reads the blob back, and the file it is stored in with a CTS2
    header verifies and decodes to exactly the keys and values of the store.
    Keys and values are of at most 16 MiB, the limit of snapshot files, and
    the blob is shorter than 2^62 bytes. *)
Theorem snapshot_backup (w : world) (writer : bool) :
  let rev := store_revision w in let rows := (sorted_entries (current (w_store w))).*2 in
  store_ok (w_store w) -> (forall k, is_Some (current (w_store w) !! k) -> lex_lt k [255]) -> Forall row_fits rows -> blen (mjoin (kv_entry_bytes <$> (snap_row <$> rows))) < 4611686018427387904 ->
  exists blob, let out := wires (snapshot_fields rev 0 blob) in
    maint_handle_snapshot writer w = Ok (if writer && (0 <? blen blob) then [wires (snapshot_fields rev (blen blob) [])] else [], Some out) /\
    (forall cap, blen blob < cap -> cetcd_parse_snapshot_response cap out = Ok (blob, blen blob)) /\
    cetcd_snap_encode_kv (snap_row <$> rows) = Some blob /\
    (forall rev, in_u64 rev -> let file := cetcd_snap_encode_cts2 blob rev in
       cetcd_snap_verify file = CETCD_OK /\ cetcd_snap_decode_kv file = Some (snap_row <$> rows)).
Proof using Type.
  cbv zeta. set (rev := store_revision w). set (rows := (sorted_entries (current (w_store w))).*2). intros Hs Hlow Hf Hsz.
  set (blob := mjoin (kv_entry_bytes <$> (snap_row <$> rows))) in *. exists blob. pose proof (blen_nonneg blob).
  unfold maint_handle_snapshot. rewrite (range_zero _ _ _ (so_index _ Hs)). change (range_hi [255]) with [255]. rewrite all_rows_below by done. fold rows.
  unfold snapshot_blob. rewrite blob_rows_ok by (done || (change (blen (@nil Z)) with 0; lia)). cbn [app mbind res_bind]. fold blob. fold rev.
  assert (Hfirst : (if writer && (0 <? blen blob) then first ← encode_snapshot_response_ rev (blen blob) []; Ok [first] else Ok []) =
    Ok (if writer && (0 <? blen blob) then [wires (snapshot_fields rev (blen blob) [])] else [])).
  { destruct (writer && (0 <? blen blob)); [|done]. by rewrite snapshot_response_ok by (unfold in_u64; change (blen (@nil Z)) with 0; lia). }
  rewrite Hfirst. cbn [mbind res_bind]. rewrite snapshot_response_ok by (unfold in_u64; lia). cbn [mbind res_bind].
  assert (Hfits : Forall SnapProps.kv_fits (snap_row <$> rows)) by (apply Forall_fmap; eapply Forall_impl; [exact Hf|]; by intros kv [? _]).
  assert (Hbytes : Forall (fun e => bytes_ok (se_key e) /\ bytes_ok (se_value e)) (snap_row <$> rows)) by (apply Forall_fmap; eapply Forall_impl; [exact Hf|]; by intros kv [_ ?]).
  split_and!; [done|intros cap Hc; by apply snapshot_parses|apply kv_encodes|].
  intros rev' Hr. destruct (snap_kv_roundtrip _ rev' Hfits Hr Hbytes) as (d & He & _ & Hv & Hd & _). rewrite kv_encodes in He. injection He as <-.
  cbv zeta. split; [exact Hv|]. unfold blob. rewrite Hd. f_equal. rewrite <- list_fmap_compose. done.
Qed.
End maint.
