(* ===== verification/WatchRpc.v ===== *)
(** * Watch requests (src/v3rpc/watch_handler.c)

    The handler of Watch over the globals of the RPC layer: parsing, the encoding
    of events and responses, the splitting of long responses, the single-shot
    and the streaming mode, progress notifications and the end of a connection.

    A write to the stream of a client is the pair of the context of its writer
    and the bytes.  [ctx_ptr] and [sw_ptr] are the addresses the allocations of
    a handler give: of the watcher (and of the channel inside it, or of the
    channel on the stack) and of the subscription.

    The store of Mvcc.v counts the calls of the wake callback of a channel;
    [run_wakes] makes them.  Each call takes what has been pushed since the one
    before: one event, but for the first, which also finds the events of a quiet
    replay.  Between the calls that one operation of the store makes, neither the
    revision nor the watcher changes, so running them after it writes the same
    bytes to the watcher. *)

From Stdlib Require Import String.
From S2P Require Import Slice Hash KeyOrder Treap Hashmap Raft RaftWire Wal Backend Mvcc Lease CString Auth Cluster ApplyCodec Alarm Pb PbRequests Apply Kv LeaseRpc ClusterRpc Prelude.

#[local] Open Scope Z_scope.

(** ** Encoding *)

(** A key-value pair of an event, in a buffer of 4096 bytes on the stack. *)
Definition watch_kv (keys_only : bool) (kv : cetcd_kv) : res bytes :=
  let cap := 4096 in
  b ← put cap [] 0x0a;
  b ← copy_out cap (varint_out cap b (blen (kv_key kv))) (kv_key kv);
  b ← put cap b 0x10;
  b ← put cap (varint_out cap b (u64 (rev_main (kv_create_rev kv)))) 0x18;
  b ← put cap (varint_out cap b (u64 (rev_main (kv_mod_rev kv)))) 0x20;
  let b := varint_out cap b (u64 (kv_version kv)) in
  b ← (if negb keys_only && (0 <? blen (kv_value kv)) then
         b ← put cap b 0x2a;
         copy_out cap (varint_out cap b (blen (kv_value kv))) (kv_value kv)
       else Ok b);
  if (0 <? kv_lease_id kv) && (blen b + 12 <? cap) then
    b ← put cap b 0x30; Ok (varint_out cap b (u64 (kv_lease_id kv)))
  else Ok b.

(** A tag, a length and the bytes; nothing is compared with the capacity. *)
Definition raw_delim (cap : Z) (out : bytes) (tag : Z) (d : bytes) : res bytes :=
  out ← put cap out tag;
  out ← raw_varint_loop 10 cap out (blen d);
  copy_out cap out d.

Definition is_delete (ev : cetcd_watch_event) : bool :=
  match ev_type ev with CETCD_EVENT_DELETE => true | CETCD_EVENT_PUT => false end.

(** The event in its buffer of 4200 bytes. *)
Definition event_buf (ev : cetcd_watch_event) (want_prev_kv : bool) : res bytes :=
  kv ← watch_kv (is_delete ev) (ev_kv ev);
  b ← put 4200 [] 0x08;
  b ← put 4200 b (if is_delete ev then 1 else 0);
  b ← raw_delim 4200 b 0x12 kv;
  match ev_prev_kv ev with
  | Some prev => if want_prev_kv then pkv ← watch_kv false prev; raw_delim 4200 b 0x1a pkv else Ok b
  | None => Ok b
  end.

Definition encode_event (cap : Z) (out : bytes) (ev : cetcd_watch_event) (want_prev_kv : bool) : res bytes :=
  b ← event_buf ev want_prev_kv;
  if cap <? blen out + blen b + 10 then Ok out else raw_delim cap out 0x5a b.

Fixpoint encode_events (cap : Z) (out : bytes) (evs : list cetcd_watch_event) (want_prev_kv : bool) : res bytes :=
  match evs with
  | [] => Ok out
  | ev :: evs => out ← encode_event cap out ev want_prev_kv; encode_events cap out evs want_prev_kv
  end.

Definition WATCH_MAX_REQUEST_BYTES_DEFAULT : Z := 1572864.

Definition watch_max_request_bytes_ (g : rpc_settings) : Z :=
  if g_rpc_max_request_bytes g =? 0 then WATCH_MAX_REQUEST_BYTES_DEFAULT else g_rpc_max_request_bytes g.

Definition compacted_reason : bytes := bytes_of_string "etcdserver: mvcc: required revision has been compacted".

(** Two bytes: a tag and a 1. *)
Definition flag_out (cap : Z) (out : bytes) (tag : Z) (flag : bool) : res bytes :=
  if flag then b ← put cap out tag; put cap b 1 else Ok out.

Definition encode_watch_prefix_ (cap watch_id : Z) (created canceled : bool) (current_rev compact_revision : Z) (fragment : bool) : res bytes :=
  if cap <? 8 then Ok []
  else
    hdr ← revision_header 16 current_rev;
    out ← put cap [] 0x0a;
    let out := varint_out cap out (blen hdr) in
    if cap <? blen out + blen hdr then Ok []
    else
      out ← copy_out cap out hdr;
      out ← put cap out 0x10;
      let out := varint_out cap out (u64 watch_id) in
      out ← flag_out cap out 0x18 created;
      out ← flag_out cap out 0x20 canceled;
      out ← (if 0 <? compact_revision then out ← put cap out 0x28; Ok (varint_out cap out (u64 compact_revision)) else Ok out);
      out ← (if canceled && (0 <? compact_revision) then
               out ← put cap out 0x32;
               let out := varint_out cap out (blen compacted_reason) in
               if blen out + blen compacted_reason <=? cap then copy_out cap out compacted_reason else Ok out
             else Ok out);
      flag_out cap out 0x38 fragment.

Definition encode_watch_response_frag (watch_id : Z) (created canceled : bool) (evs : list cetcd_watch_event) (current_rev : Z) (want_prev_kv : bool)
    (compact_revision : Z) (fragment : bool) : res bytes :=
  let cap := 256 + blen evs * 8192 in
  out ← encode_watch_prefix_ cap watch_id created canceled current_rev compact_revision fragment;
  encode_events cap out evs want_prev_kv.

Definition encode_watch_response (watch_id : Z) (created canceled : bool) (evs : list cetcd_watch_event) (current_rev : Z) (want_prev_kv : bool)
    (compact_revision : Z) : res bytes :=
  encode_watch_response_frag watch_id created canceled evs current_rev want_prev_kv compact_revision false.

(** ** Splitting a batch of events *)

(** The inner loop: the buffer with the events that fit and their number [n]. *)
Fixpoint fill_frame (cap maxb : Z) (want_prev_kv : bool) (pos : bytes) (n : nat) (evs : list cetcd_watch_event) : res (bytes * nat) :=
  match evs with
  | [] => Ok (pos, n)
  | ev :: rest =>
      next ← encode_event cap pos ev want_prev_kv;
      let reserve := match rest with [] => 0 | _ => 2 end in
      if blen next <=? blen pos then Ok (pos, n)
      else if bool_decide (n <> 0%nat) && (maxb <? blen next + reserve) then Ok (pos, n)
      else fill_frame cap maxb want_prev_kv next (S n) rest
  end.

(** The outer loop over the events not sent yet; a round sends at least one, so
    their number bounds the rounds. *)
Fixpoint send_frames (fuel : nat) (cap maxb watch_id rev : Z) (want_prev_kv : bool) (evs : list cetcd_watch_event) : res (list bytes) :=
  match evs with
  | [] => Ok []
  | _ =>
      match fuel with
      | O => Loop
      | S fuel =>
          pos ← encode_watch_prefix_ cap watch_id false false rev 0 false;
          '(pos, n) ← fill_frame cap maxb want_prev_kv pos 0 evs;
          if bool_decide (n = 0%nat) then Ok []
          else
            pos ← (if (n <? length evs)%nat then
                     pos ← encode_watch_prefix_ cap watch_id false false rev 0 true;
                     encode_events cap pos (take n evs) want_prev_kv
                   else Ok pos);
            rest ← send_frames fuel cap maxb watch_id rev want_prev_kv (drop n evs);
            Ok (pos :: rest)
      end
  end.

Definition write_watch_events_maybe_fragment_ (g : rpc_settings) (wctx : cetcd_stream_watcher_ctx) (evs : list cetcd_watch_event) (rev : Z) : res (list bytes) :=
  if negb (sc_write_fn wctx) || (blen evs =? 0) then Ok []
  else if negb (sc_fragment wctx) then
    resp ← encode_watch_response (sc_watch_id wctx) false false evs rev (sc_want_prev_kv wctx) 0;
    Ok (if 0 <? blen resp then [resp] else [])
  else
    let cap := Z.max 8192 (256 + blen evs * 8192) in
    send_frames (length evs) cap (watch_max_request_bytes_ g) (sc_watch_id wctx) rev (sc_want_prev_kv wctx) evs.

(** ** Parsing *)

(** A missing key is NULL, an empty list here. *)
Record watch_request_parsed : Type := mk_watch_request {
  wr_key : bytes;
  wr_range_end : bytes;
  wr_start_rev : Z;
  wr_client_watch_id : Z;
  wr_want_prev_kv : bool;
  wr_want_progress_notify : bool;
  wr_filter_noput : bool;
  wr_filter_nodelete : bool;
  wr_fragment : bool;
  wr_is_create : bool;
  wr_is_cancel : bool;
  wr_is_progress : bool;
  wr_cancel_id : Z
}.

#[export] Instance watch_request_eta : RecordEta watch_request_parsed := fun r =>
  mk_watch_request (wr_key r) (wr_range_end r) (wr_start_rev r) (wr_client_watch_id r) (wr_want_prev_kv r) (wr_want_progress_notify r)
    (wr_filter_noput r) (wr_filter_nodelete r) (wr_fragment r) (wr_is_create r) (wr_is_cancel r) (wr_is_progress r) (wr_cancel_id r).

Definition zero_watch_request : watch_request_parsed := mk_watch_request [] [] 0 0 false false false false false false false false 0.

Definition request_filter (r : watch_request_parsed) (v : Z) : watch_request_parsed :=
  if v =? 0 then r <| wr_filter_noput := true |>
  else if v =? 1 then r <| wr_filter_nodelete := true |> else r.

(** [(int)v] read as a truth value. *)
Definition int_flag (v : Z) : bool := negb (i32 v =? 0).

Definition watch_create_table : list (Z * action watch_request_parsed) := [
  (0x0a, Acopy false (fun r d => r <| wr_key := d |>));
  (0x12, Acopy false (fun r d => r <| wr_range_end := d |>));
  (0x18, Avarint (fun r v => Ok (r <| wr_start_rev := i64 v |>)));
  (0x20, Avarint (fun r v => Ok (r <| wr_want_progress_notify := int_flag v |>)));
  (0x28, Avarint (fun r v => Ok (request_filter r v)));
  (0x30, Avarint (fun r v => Ok (r <| wr_want_prev_kv := int_flag v |>)));
  (0x38, Avarint (fun r v => Ok (r <| wr_client_watch_id := i64 v |>)));
  (0x40, Avarint (fun r v => Ok (r <| wr_fragment := int_flag v |>)));
  (0x2a, Apacked request_filter)].

Definition parse_watch_request (m : bytes) (len : Z) : res (option watch_request_parsed) :=
  or_minus_one (parse_at (table [
    (0x0a, Amsg (fun r => r <| wr_is_create := true |>) (table watch_create_table) id);
    (0x12, Amsg (fun r => r <| wr_is_cancel := true |>) (table [(0x08, Avarint (fun r v => Ok (r <| wr_cancel_id := i64 v |>)))]) id);
    (0x1a, Alength (fun r _ => r <| wr_is_progress := true |>))]) zero_watch_request m len).

(** ** The single-shot mode *)

(** What the collector of events keeps. *)
Definition filtered (noput nodelete : bool) (ev : cetcd_watch_event) : bool :=
  (noput && negb (is_delete ev)) || (nodelete && is_delete ev).

(** [while (nc < need) nc *= 2] *)
Fixpoint double_to (n : nat) (nc need : Z) : Z :=
  match n with O => nc | S n => if nc <? need then double_to n (nc * 2) need else nc end.

(** The buffer of collected events with its capacity. *)
Definition watch_event_cb (p : watch_request_parsed) (c : Z * bytes) (ev : cetcd_watch_event) : res (Z * bytes) :=
  let '(cap, buf) := c in
  if filtered (wr_filter_noput p) (wr_filter_nodelete p) ev then Ok c
  else
    let cap := if cap <? blen buf + 8192 then double_to 64 (if cap =? 0 then 256 else cap * 2) (blen buf + 8192) else cap in
    buf ← encode_event cap buf ev (wr_want_prev_kv p);
    Ok (cap, buf).

Fixpoint collect_events (p : watch_request_parsed) (c : Z * bytes) (evs : list cetcd_watch_event) : res (Z * bytes) :=
  match evs with
  | [] => Ok c
  | ev :: evs => c ← watch_event_cb p c ev; collect_events p c evs
  end.

Section Watch.
  Context {T : Type -> Type} {E Tx : Type} `{!KeyIndex T, !Lmdb E Tx, !Clock, !AuthLibs}.
  Context (g : rpc_settings) (user : option bytes).
  Local Notation world := (world T E).

Definition set_channels (w : world) (ch : gmap Z cetcd_mvcc_watch_notify) : world := w <| w_store := (w_store w) <| s_channels := ch |> |>.

(** The boundary, when the start revision is below it. *)
Definition watch_start_rev_compacted_ (w : world) (start_rev : Z) : option Z :=
  if start_rev <=? 0 then None
  else
    let cr := cetcd_mvcc_compacted_revision (w_store w) in
    if (0 <? cr) && (start_rev <? cr) then Some cr else None.

(** The id of a new watcher and the counter after it. *)
Definition next_watch_id (w : world) (p : watch_request_parsed) : world * Z :=
  if 0 <? wr_client_watch_id p then (w, wr_client_watch_id p)
  else (w <| w_watch_id := w_watch_id w + 1 |>, w_watch_id w).

(** Subscribing and, for a positive start revision, replaying. *)
Definition subscribe (w : world) (ctx_ptr sw_ptr watch_id : Z) (wake_cb : bool) (p : watch_request_parsed) : world :=
  let s := w_store w in
  let s := s <| s_channels := cetcd_mvcc_watch_notify_init (s_channels s) ctx_ptr wake_cb |> in
  let s := cetcd_mvcc_watch_subscribe s sw_ptr watch_id (wr_key p) (wr_range_end p) (wr_start_rev p) (wr_want_prev_kv p) ctx_ptr in
  let s := match last (s_stream_watchers s) with
           | Some sw => if 0 <? wr_start_rev p then cetcd_mvcc_watch_replay s sw else s
           | None => s
           end in
  w <| w_store := s |>.

(** The end of a subscription and of the memory of its channel. *)
Definition drop_channel (w : world) (ctx_ptr : Z) : world :=
  set_channels w (delete ctx_ptr (cetcd_mvcc_watch_notify_destroy (s_channels (w_store w)) ctx_ptr)).

Definition unsubscribe (w : world) (sw : option Z) : world :=
  match sw with Some sw => w <| w_store := cetcd_mvcc_watch_unsubscribe (w_store w) sw |> | None => w end.

(** Events of the history for the single answer. *)
Definition replay_once (w : world) (ctx_ptr sw_ptr watch_id : Z) (p : watch_request_parsed) : res (world * bytes) :=
  if wr_start_rev p <=? 0 then Ok (w, [])
  else
    let w := subscribe w ctx_ptr sw_ptr watch_id false p in
    let '(ch, evs) := cetcd_mvcc_watch_recv (s_channels (w_store w)) ctx_ptr in
    let w := set_channels w ch in
    '(_, buf) ← collect_events p (0, []) evs;
    Ok (drop_channel (unsubscribe w (Some sw_ptr)) ctx_ptr, buf).

Definition handle_legacy_watch (w : world) (ctx_ptr sw_ptr : Z) (p : watch_request_parsed) : res (world * option bytes) :=
  let current_rev := store_revision w in
  if wr_is_cancel p then out ← encode_watch_response (wr_cancel_id p) false true [] current_rev false 0; Ok (w, Some out)
  else if wr_is_create p && negb (blen (wr_key p) =? 0) then
    let '(w, watch_id) := next_watch_id w p in
    match watch_start_rev_compacted_ w (wr_start_rev p) with
    | Some compact_rev => out ← encode_watch_response watch_id true true [] current_rev false compact_rev; Ok (w, Some out)
    | None =>
        '(w, buf) ← replay_once w ctx_ptr sw_ptr watch_id p;
        out ← encode_watch_response watch_id true false [] (store_revision w) (wr_want_prev_kv p) 0;
        Ok (w, Some (out ++ buf))
    end
  else out ← encode_watch_response 0 true false [] current_rev false 0; Ok (w, Some out).

(** ** The streaming mode *)

(** The callback on the events it received. *)
Definition callback_writes (wctx : cetcd_stream_watcher_ctx) (rev : Z) (evs : list cetcd_watch_event) : res (list bytes) :=
  write_watch_events_maybe_fragment_ g wctx (List.filter (fun ev => negb (filtered (sc_filter_noput wctx) (sc_filter_nodelete wctx) ev)) evs) rev.

(** The callback: receives what is pending on the channel. *)
Definition streaming_watch_notify_cb (w : world) (wctx : cetcd_stream_watcher_ctx) : res (world * list bytes) :=
  if sc_canceled wctx then Ok (w, [])
  else
    let '(ch, evs) := cetcd_mvcc_watch_recv (s_channels (w_store w)) (sc_ptr wctx) in
    fs ← callback_writes wctx (store_revision w) evs;
    Ok (set_channels w ch, fs).

(** What each of [k] calls of the callback finds in the queue [q]. *)
Definition batches {A} (k : nat) (q : list A) : list (list A) :=
  match k with
  | O => []
  | S k => take (length q - k) q :: map (fun x => [x]) (drop (length q - k) q)
  end.

Fixpoint callbacks (wctx : cetcd_stream_watcher_ctx) (rev : Z) (bs : list (list cetcd_watch_event)) : res (list bytes) :=
  match bs with
  | [] => Ok []
  | b :: bs => fs ← callback_writes wctx rev b; fs' ← callbacks wctx rev bs; Ok (fs ++ fs')
  end.

(** The calls of the callback the store has counted on the watcher's channel. *)
Definition run_wakes (w : world) (wctx : cetcd_stream_watcher_ctx) : res (world * list bytes) :=
  match s_channels (w_store w) !! sc_ptr wctx with
  | Some c =>
      if sc_canceled wctx || (n_wakes c <=? 0) then Ok (w, [])
      else
        fs ← callbacks wctx (store_revision w) (batches (Z.to_nat (n_wakes c)) (n_queue c));
        Ok (set_channels w (<[sc_ptr wctx := mk_notify [] (n_has_wake_cb c) 0]> (s_channels (w_store w))), fs)
  | None => Ok (w, [])
  end.

Definition find_stream_watcher (w : world) (watch_id : Z) : option cetcd_stream_watcher_ctx :=
  find (fun cur => sc_watch_id cur =? watch_id) (w_streams w).

Definition remove_stream_watcher (l : list cetcd_stream_watcher_ctx) (wctx : cetcd_stream_watcher_ctx) : list cetcd_stream_watcher_ctx :=
  List.filter (fun cur => negb (sc_ptr cur =? sc_ptr wctx)) l.

(** Unsubscribing, unlinking and freeing a watcher. *)
Definition end_watcher (w : world) (wctx : cetcd_stream_watcher_ctx) : world :=
  let w := unsubscribe w (sc_sw wctx) in
  drop_channel (w <| w_streams := remove_stream_watcher (w_streams w) wctx |>) (sc_ptr wctx).

(** A progress notification to every watcher [sel] picks: the watchers after it
    and what was written. *)
Fixpoint send_progress (sel : cetcd_stream_watcher_ctx -> bool) (current_rev : Z) (l : list cetcd_stream_watcher_ctx)
  : res (list cetcd_stream_watcher_ctx * list (Z * bytes)) :=
  match l with
  | [] => Ok ([], [])
  | cur :: l =>
      '(cur, ms) ← (if sel cur then
                      prog ← encode_watch_response (sc_watch_id cur) false false [] current_rev false 0;
                      Ok (cur <| sc_ticks_since_progress := 0 |>, [(sc_write_ctx cur, prog)])
                    else Ok (cur, []));
      '(l, ms') ← send_progress sel current_rev l;
      Ok (cur :: l, ms ++ ms')
  end.

Definition handle_streaming_watch (w : world) (ctx_ptr sw_ptr write_ctx : Z) (p : watch_request_parsed) : res (world * list (Z * bytes) * option bytes) :=
  let current_rev := store_revision w in
  if wr_is_progress p then
    '(l, ms) ← send_progress (fun cur => negb (sc_canceled cur) && sc_write_fn cur && (sc_write_ctx cur =? write_ctx)) current_rev (w_streams w);
    Ok (w <| w_streams := l |>, ms, None)
  else if wr_is_cancel p then
    let w := match find_stream_watcher w (wr_cancel_id p) with Some wctx => end_watcher w wctx | None => w end in
    out ← encode_watch_response (wr_cancel_id p) false true [] current_rev false 0;
    Ok (w, [], Some out)
  else if wr_is_create p && negb (blen (wr_key p) =? 0) then
    let '(w, watch_id) := next_watch_id w p in
    match watch_start_rev_compacted_ w (wr_start_rev p) with
    | Some compact_rev => out ← encode_watch_response watch_id true true [] current_rev false compact_rev; Ok (w, [], Some out)
    | None =>
        let w := subscribe w ctx_ptr sw_ptr watch_id true p in
        let pending := match s_channels (w_store w) !! ctx_ptr with
                       | Some c => (0 <? wr_start_rev p) && (0 <? blen (n_queue c))
                       | None => false
                       end in
        let wctx := mk_stream_ctx ctx_ptr watch_id (wr_start_rev p) (Some sw_ptr) (wr_want_prev_kv p) (wr_filter_noput p) (wr_filter_nodelete p)
                      (wr_fragment p) (wr_want_progress_notify p) 0 pending false true write_ctx in
        out ← encode_watch_response watch_id true false [] current_rev false 0;
        Ok (w <| w_streams := wctx :: w_streams w |>, [], Some out)
    end
  else out ← encode_watch_response 0 true false [] current_rev false 0; Ok (w, [], Some out).

(** [writer]: the context of the stream writer, when one is set. *)
Definition watch_handle_watch (w : world) (ctx_ptr sw_ptr : Z) (writer : option Z) (req : bytes) : res (world * list (Z * bytes) * option bytes) :=
  parsed ← parse_watch_request req (blen req);
  match parsed with
  | None => Ok (w, [], None)
  | Some p =>
      if wr_is_create p && (blen (wr_key p) =? 0) then Ok (w, [], None)
      else if wr_is_create p && negb (cetcd_v3rpc_check_key_perm user w false (Some (wr_key p)) =? 0) then Ok (w, [], None)
      else match writer with
           | Some write_ctx => handle_streaming_watch w ctx_ptr sw_ptr write_ctx p
           | None => '(w, out) ← handle_legacy_watch w ctx_ptr sw_ptr p; Ok (w, [], out)
           end
  end.

(** ** Connections and time *)

Definition cetcd_v3rpc_detach_stream_writer (w : world) (write_ctx : Z) : world :=
  if write_ctx =? 0 then w
  else foldl (fun w cur => if sc_write_ctx cur =? write_ctx then end_watcher w cur else w) w (w_streams w).

Definition cetcd_v3rpc_watch_progress_ticks (w : world) : Z :=
  if 0 <? w_watch_ticks w then w_watch_ticks w else CETCD_WATCH_PROGRESS_TICKS_DEFAULT.

(** One watcher at a tick. *)
Definition tick_watcher (need current_rev : Z) (cur : cetcd_stream_watcher_ctx) : res (cetcd_stream_watcher_ctx * list (Z * bytes)) :=
  if negb (sc_canceled cur) && sc_want_progress_notify cur && sc_write_fn cur then
    let cur := cur <| sc_ticks_since_progress := sc_ticks_since_progress cur + 1 |> in
    if need <=? sc_ticks_since_progress cur then
      prog ← encode_watch_response (sc_watch_id cur) false false [] current_rev false 0;
      Ok (cur <| sc_ticks_since_progress := 0 |>, [(sc_write_ctx cur, prog)])
    else Ok (cur, [])
  else Ok (cur, []).

Fixpoint tick_watchers (need current_rev : Z) (l : list cetcd_stream_watcher_ctx) : res (list cetcd_stream_watcher_ctx * list (Z * bytes)) :=
  match l with
  | [] => Ok ([], [])
  | cur :: l =>
      '(cur, ms) ← tick_watcher need current_rev cur;
      '(l, ms') ← tick_watchers need current_rev l;
      Ok (cur :: l, ms ++ ms')
  end.

Definition cetcd_v3rpc_watch_tick (w : world) : res (world * list (Z * bytes)) :=
  '(l, ms) ← tick_watchers (cetcd_v3rpc_watch_progress_ticks w) (store_revision w) (w_streams w);
  Ok (w <| w_streams := l |>, ms).

(** The replays that wait for the answer of their request to be sent. *)
Fixpoint flush_replays (w : world) (l : list cetcd_stream_watcher_ctx) : res (world * list cetcd_stream_watcher_ctx * list (Z * bytes)) :=
  match l with
  | [] => Ok (w, [], [])
  | cur :: l =>
      '(w, cur, ms) ←
        (if negb (sc_canceled cur) && sc_replay_pending cur then
           let cur := cur <| sc_replay_pending := false |> in
           let w := set_channels w (cetcd_mvcc_watch_notify_wake (s_channels (w_store w)) (sc_ptr cur)) in
           '(w, fs) ← run_wakes w cur;
           Ok (w, cur, map (fun f => (sc_write_ctx cur, f)) fs)
         else Ok (w, cur, []));
      '(w, l, ms') ← flush_replays w l;
      Ok (w, cur :: l, ms ++ ms')
  end.

Definition cetcd_v3rpc_watch_flush_replay (w : world) : res (world * list (Z * bytes)) :=
  '(w, l, ms) ← flush_replays w (w_streams w);
  Ok (w <| w_streams := l |>, ms).

End Watch.

Definition CETCD_WATCH_TICK_MS : Z := 100.

Definition cetcd_v3rpc_watch_progress_ticks_from_ms_tick (interval_ms tick_ms : Z) : Z :=
  let tick_ms := if tick_ms =? 0 then CETCD_WATCH_TICK_MS else tick_ms in
  let interval_ms := if interval_ms =? 0 then CETCD_WATCH_PROGRESS_TICKS_DEFAULT * CETCD_WATCH_TICK_MS else interval_ms in
  let ticks := u64 (interval_ms + (tick_ms - 1)) / tick_ms in
  let ticks := if ticks <? 1 then 1 else ticks in
  if 1000000 <? ticks then 1000000 else ticks.

Definition cetcd_v3rpc_watch_progress_ticks_from_ms (interval_ms : Z) : Z := cetcd_v3rpc_watch_progress_ticks_from_ms_tick interval_ms CETCD_WATCH_TICK_MS.

Definition cetcd_v3rpc_set_watch_progress_interval {T E} (w : world T E) (interval_ms tick_ms : Z) : world T E :=
  w <| w_watch_ticks := cetcd_v3rpc_watch_progress_ticks_from_ms_tick interval_ms tick_ms |>.

Definition cetcd_v3rpc_set_watch_progress_interval_ms {T E} (w : world T E) (interval_ms : Z) : world T E :=
  cetcd_v3rpc_set_watch_progress_interval w interval_ms CETCD_WATCH_TICK_MS.
