(* ===== verification/WatchRpcProps.v ===== *)
(** * Watch requests: what the handler does

    The bytes of events and responses as lists of fields, the splitting of long
    responses, and the stream of a watcher from its creation on. *)

From Stdlib Require Import String.
From S2P Require Import Slice Hash KeyOrder Treap Hashmap Raft RaftWire Wal Backend Mvcc MvccSnap MvccStore MvccProps MvccWatch Lease LeaseProps LeaseRestart CString Auth AuthProps Cluster ClusterProps ApplyCodec Alarm Pb PbProps PbSafe PbRequests PbResponses PbCodec Apply ApplyCmd ApplyInv Kv KvCodec KvProps LeaseRpc LeaseRpcProps ClusterRpc WatchRpc Prelude.

#[local] Open Scope Z_scope.

(** ** Events *)

(** The fields of an event. *)
Definition event_fields (want_prev_kv : bool) (ev : cetcd_watch_event) : list field :=
  [FVar 8 (if is_delete ev then 1 else 0); FMsg 18 (kv_fields (is_delete ev) (ev_kv ev))] ++
  match ev_prev_kv ev with Some prev => if want_prev_kv then [FMsg 26 (kv_fields false prev)] else [] | None => [] end.

Definition event_field (want_prev_kv : bool) (ev : cetcd_watch_event) : field := FMsg 90 (event_fields want_prev_kv ev).

(** The events the buffers on the stack hold. *)
Definition event_fits (ev : cetcd_watch_event) : Prop :=
  kv_size (ev_kv ev) + match ev_prev_kv ev with Some prev => kv_size prev | None => 0 end <= 4080 /\
  in_i64 (kv_lease_id (ev_kv ev)) /\ match ev_prev_kv ev with Some prev => in_i64 (kv_lease_id prev) | None => True end.

Lemma watch_kv_encode keys_only kv :
  watch_kv keys_only kv =
  (b ← encode_kv 4096 keys_only (mk_kv (kv_key kv) (kv_value kv) (kv_create_rev kv) (kv_mod_rev kv) (kv_version kv) 0);
   if (0 <? kv_lease_id kv) && (blen b + 12 <? 4096) then b ← put 4096 b 0x30; Ok (varint_out 4096 b (u64 (kv_lease_id kv))) else Ok b).
Proof.
  unfold watch_kv, encode_kv, append_kv_lease_. cbv zeta. cbn [kv_key kv_value kv_create_rev kv_mod_rev kv_version kv_lease_id].
  change (0 <=? 0) with true. cbn [orb]. unfold mbind, res_bind.
  repeat match goal with |- context [match ?x with Ok _ => _ | Fail _ => _ | Undef => _ | Loop => _ end] => destruct x; [|done..] end. done.
Qed.

Lemma watch_kv_ok keys_only kv : kv_size kv <= 4080 -> in_i64 (kv_lease_id kv) ->
  watch_kv keys_only kv = Ok (wires (kv_fields keys_only kv)) /\ blen (wires (kv_fields keys_only kv)) <= kv_size kv.
Proof.
  intros Hs Hl. pose proof (blen_nonneg (kv_key kv)). pose proof (blen_nonneg (kv_value kv)). unfold kv_size in Hs.
  destruct (encode_kv_ok 4096 keys_only kv) as [_ Hb]; [unfold kv_size; lia|done|unfold PbProps.short; lia|unfold PbProps.short; lia|].
  split; [|done]. rewrite watch_kv_encode. set (kv0 := mk_kv _ _ _ _ _ 0).
  destruct (encode_kv_ok 4096 keys_only kv0) as [-> Hb0]; [unfold kv_size; cbn; lia|done|unfold PbProps.short; cbn; lia|unfold PbProps.short; cbn; lia|].
  cbn [mbind res_bind]. unfold kv_size in Hb0. cbn [kv_key kv_value kv0] in Hb0.
  assert (Hw : wires (kv_fields keys_only kv) = wires (kv_fields keys_only kv0) ++ wires (if 0 <? kv_lease_id kv then [FVar 48 (u64 (kv_lease_id kv))] else [])).
  { unfold kv_fields. cbn [kv_key kv_value kv_create_rev kv_mod_rev kv_version kv_lease_id kv0]. change (0 <? 0) with false. cbv iota.
    rewrite !wires_app, wires_nil, app_nil_r. by rewrite <- !app_assoc. }
  rewrite Hw. destruct (0 <? kv_lease_id kv); cbn [andb]; [|by rewrite wires_nil, app_nil_r].
  rewrite (proj2 (Z.ltb_lt _ _)) by lia. rewrite (var_out_ok Ok); [by rewrite wires_cons, wires_nil, app_nil_r|apply u64_range|].
  cbn [wire]. rewrite blen_cons. pose proof (wire_u64_blen (u64 (kv_lease_id kv))). lia.
Qed.

Lemma raw_delim_ok cap out tag d : PbProps.short d -> blen out + blen (delimited tag d) <= cap -> raw_delim cap out tag d = Ok (out ++ delimited tag d).
Proof.
  unfold PbProps.short, delimited. rewrite blen_cons, blen_app. intros Hd Hc. pose proof (wire_u64_blen (blen d)). pose proof (blen_nonneg d).
  unfold raw_delim. rewrite put_room by lia. cbn [mbind res_bind].
  rewrite raw_varint_ok by (unfold in_u64; rewrite ?blen_app, ?blen_cons; change (blen (@nil Z)) with 0; lia). cbn [mbind res_bind].
  rewrite copy_room by (rewrite !blen_app, blen_cons; change (blen (@nil Z)) with 0; lia). by rewrite <- !app_assoc.
Qed.

Lemma delimited_len tag d : blen d <= 4200 -> blen (delimited tag d) <= blen d + 3.
Proof.
  intros H. pose proof (blen_nonneg d). unfold delimited. rewrite blen_cons, blen_app.
  pose proof (wire_u64_len (blen d) 2 ltac:(lia) ltac:(cbn; lia)). lia.
Qed.

(** The event in its own buffer. *)
Lemma event_buf_ok want ev : event_fits ev -> event_buf ev want = Ok (wires (event_fields want ev)) /\ 0 <= blen (wires (event_fields want ev)) <= 4100.
Proof.
  intros (Hs & Hl & Hlp). assert (Hpos : forall kv, 100 <= kv_size kv) by (intros kv; unfold kv_size; pose proof (blen_nonneg (kv_key kv)); pose proof (blen_nonneg (kv_value kv)); lia).
  pose proof (Hpos (ev_kv ev)).
  destruct (watch_kv_ok (is_delete ev) (ev_kv ev)) as [Ekv Bkv]; [destruct (ev_prev_kv ev) as [p|]; [pose proof (Hpos p)|]; lia|done|].
  unfold event_buf. rewrite Ekv. cbn [mbind res_bind]. set (b := wires (kv_fields (is_delete ev) (ev_kv ev))) in *.
  pose proof (blen_nonneg b). pose proof (delimited_len 18 b ltac:(destruct (ev_prev_kv ev) as [p|]; [pose proof (Hpos p)|]; lia)).
  rewrite put_room by done. cbn [mbind res_bind app]. rewrite put_room by done. cbn [mbind res_bind app]. change 0x12 with 18.
  assert (Hk : blen [8; if is_delete ev then 1 else 0] = 2) by done.
  rewrite raw_delim_ok; [|unfold PbProps.short; destruct (ev_prev_kv ev) as [p|]; [pose proof (Hpos p)|]; lia|rewrite Hk; destruct (ev_prev_kv ev) as [p|]; [pose proof (Hpos p)|]; lia].
  cbn [mbind res_bind]. set (x := [8; if is_delete ev then 1 else 0] ++ delimited 18 b).
  assert (Ex : wires [FVar 8 (if is_delete ev then 1 else 0); FMsg 18 (kv_fields (is_delete ev) (ev_kv ev))] = x).
  { unfold x. rewrite !wires_cons, wires_nil, app_nil_r. cbn [wire]. by destruct (is_delete ev). }
  assert (Bx : blen x <= kv_size (ev_kv ev) + 5) by (unfold x; rewrite blen_app, Hk; lia). pose proof (blen_nonneg x).
  unfold event_fields. rewrite wires_app, Ex, blen_app.
  destruct (ev_prev_kv ev) as [prev|]; [destruct want|]; cbn beta iota.
  - destruct (watch_kv_ok false prev) as [-> Bp]; [lia|done|]. cbn [mbind res_bind]. set (pb := wires (kv_fields false prev)) in *.
    pose proof (delimited_len 26 pb ltac:(lia)). change 0x1a with 26. rewrite wires_cons, wires_nil, app_nil_r.
    change (wire (FMsg 26 (kv_fields false prev))) with (delimited 26 pb). pose proof (blen_nonneg (delimited 26 pb)).
    rewrite raw_delim_ok by (unfold PbProps.short; lia). split; [done|lia].
  - pose proof (Hpos prev). rewrite wires_nil, app_nil_r. change (blen (@nil Z)) with 0. split; [done|lia].
  - rewrite wires_nil, app_nil_r. change (blen (@nil Z)) with 0. split; [done|lia].
Qed.

Definition event_bytes (want_prev_kv : bool) (ev : cetcd_watch_event) : bytes := wire (event_field want_prev_kv ev).

Lemma encode_event_ok cap out ev want : event_fits ev -> blen out + 4110 <= cap ->
  encode_event cap out ev want = Ok (out ++ event_bytes want ev) /\ 0 < blen (event_bytes want ev) <= 4103.
Proof.
  intros Hf Hc. destruct (event_buf_ok want ev Hf) as [Eb Hb]. unfold encode_event. rewrite Eb. cbn [mbind res_bind].
  set (b := wires (event_fields want ev)) in *. pose proof (delimited_len 90 b ltac:(lia)). pose proof (delimited_blen 90 b).
  change (event_bytes want ev) with (delimited 90 b). rewrite (proj2 (Z.ltb_ge _ _)) by lia. change 0x5a with 90.
  rewrite raw_delim_ok by (unfold PbProps.short; lia). split; [done|lia].
Qed.

Definition events_bytes (want_prev_kv : bool) (evs : list cetcd_watch_event) : bytes := wires (map (event_field want_prev_kv) evs).

Lemma events_bytes_cons want ev evs : events_bytes want (ev :: evs) = event_bytes want ev ++ events_bytes want evs.
Proof. done. Qed.

Lemma events_bytes_len want evs : Forall event_fits evs -> 0 <= blen (events_bytes want evs) <= 4103 * blen evs.
Proof.
  induction 1 as [|ev evs Hf _ IH]; [done|]. rewrite events_bytes_cons, blen_app, blen_cons.
  destruct (encode_event_ok 9000 [] ev want Hf ltac:(done)) as [_ Hb]. lia.
Qed.

Lemma encode_events_ok want evs : Forall event_fits evs -> forall cap out, blen out + 4103 * blen evs + 7 <= cap ->
  encode_events cap out evs want = Ok (out ++ events_bytes want evs).
Proof.
  induction 1 as [|ev evs Hf Hfs IH]; intros cap out Hc; cbn [encode_events]; [unfold events_bytes; cbn [map]; by rewrite wires_nil, app_nil_r|].
  rewrite blen_cons in Hc. pose proof (blen_nonneg evs). destruct (encode_event_ok cap out ev want Hf ltac:(lia)) as [-> Hb]. cbn [mbind res_bind].
  rewrite IH by (rewrite blen_app; lia). by rewrite events_bytes_cons, app_assoc.
Qed.

(** ** Responses *)

Definition flag_fields (tag : Z) (b : bool) : list field := if b then [FVar tag 1] else [].

(** The fields in front of the events. *)
Definition watch_fields (watch_id : Z) (created canceled : bool) (rev compact_rev : Z) (fragment : bool) : list field :=
  [FMsg 10 (header_fields rev); FVar 16 (u64 watch_id)] ++ flag_fields 24 created ++ flag_fields 32 canceled ++
  (if 0 <? compact_rev then [FVar 40 (u64 compact_rev)] else []) ++
  (if canceled && (0 <? compact_rev) then [FLen 50 compacted_reason] else []) ++ flag_fields 56 fragment.

Lemma flag_out_ok cap out tag b : blen out + 2 <= cap -> flag_out cap out tag b = Ok (out ++ wires (flag_fields tag b)) /\ 0 <= blen (wires (flag_fields tag b)) <= 2.
Proof.
  intros H. unfold flag_out, flag_fields. destruct b; [|rewrite wires_nil, app_nil_r; done].
  rewrite put_room by lia. cbn [mbind res_bind]. rewrite put_room by (rewrite blen_app, blen_cons; change (blen (@nil Z)) with 0; lia).
  rewrite wires_cons, wires_nil, app_nil_r. cbn [wire]. rewrite <- app_assoc. done.
Qed.

Lemma compact_out_ok cap out compact : blen out + 11 <= cap ->
  (if 0 <? compact then out ← put cap out 0x28; Ok (varint_out cap out (u64 compact)) else Ok out) =
    Ok (out ++ wires (if 0 <? compact then [FVar 40 (u64 compact)] else [])) /\
  0 <= blen (wires (if 0 <? compact then [FVar 40 (u64 compact)] else [])) <= 11.
Proof.
  intros Hc. destruct (0 <? compact); [|rewrite wires_nil, app_nil_r; done]. rewrite wires_cons, wires_nil, app_nil_r. change 0x28 with 40.
  assert (0 < blen (wire (FVar 40 (u64 compact))) <= 11) by (cbn [wire]; sizes). rewrite (var_out_ok Ok); [split; [done|lia]|apply u64_range|lia].
Qed.

Lemma reason_out_ok cap out (b : bool) : 0 <= blen out -> blen out + 56 <= cap ->
  (if b then
     out ← put cap out 0x32;
     let out := varint_out cap out (blen compacted_reason) in
     if blen out + blen compacted_reason <=? cap then copy_out cap out compacted_reason else Ok out
   else Ok out) = Ok (out ++ wires (if b then [FLen 50 compacted_reason] else [])) /\
  0 <= blen (wires (if b then [FLen 50 compacted_reason] else [])) <= 56.
Proof.
  intros H0 Hc. destruct b; [|rewrite wires_nil, app_nil_r; done]. rewrite wires_cons, wires_nil, app_nil_r. change 0x32 with 50.
  assert (Br : blen compacted_reason = 54) by reflexivity. change (blen (wire (FLen 50 compacted_reason))) with 56.
  rewrite put_room by lia. cbn [mbind res_bind].
  rewrite varint_out_ok by (unfold in_u64; rewrite ?Br; change (wire_u64_ 54) with [54]; rewrite ?blen_app, ?blen_cons; change (blen (@nil Z)) with 0; lia).
  cbv zeta. rewrite Br. change (wire_u64_ 54) with [54].
  rewrite (proj2 (Z.leb_le _ _)) by (rewrite !blen_app, ?blen_cons; change (blen (@nil Z)) with 0; lia).
  rewrite copy_room by (rewrite !blen_app, ?blen_cons, ?Br; change (blen (@nil Z)) with 0; lia). cbn [wire]. unfold delimited. rewrite Br. change (wire_u64_ 54) with [54].
  split; [by rewrite <- !app_assoc|lia].
Qed.

Lemma encode_watch_prefix_ok cap id created canceled rev compact fragment : 120 <= cap ->
  encode_watch_prefix_ cap id created canceled rev compact fragment = Ok (wires (watch_fields id created canceled rev compact fragment)) /\
  0 < blen (wires (watch_fields id created canceled rev compact fragment)) <= 100.
Proof.
  intros Hc. unfold encode_watch_prefix_. rewrite (proj2 (Z.ltb_ge _ _)) by lia.
  destruct (revision_header_ok 16 rev ltac:(lia)) as [-> Hh]. cbn [mbind res_bind].
  pose proof (header_delim cap [] rev ltac:(change (blen (@nil Z)) with 0; lia)) as Hd. unfold delim_out in Hd.
  set (h := wires (header_fields rev)) in *. assert (Hw : wire_u64_ (blen h) = [blen h]) by (apply wire_u64_small; lia).
  rewrite put_room in Hd |- * by (change (blen (@nil Z)) with 0; lia). cbn [mbind res_bind app] in Hd |- *.
  change 0x0a with 10.
  rewrite varint_out_ok in Hd |- * by (unfold in_u64; rewrite ?Hw, ?blen_cons; change (blen (@nil Z)) with 0; lia).
  rewrite Hw. cbn [app]. assert (B2 : blen [10; blen h] = 2) by done. rewrite Hw in Hd. cbn [app] in Hd.
  rewrite (proj2 (Z.ltb_ge _ _)) by lia. rewrite Hd. cbn [mbind res_bind app].
  set (f1 := wires [FMsg 10 (header_fields rev)]). assert (B1 : 0 < blen f1 <= 13).
  { unfold f1. rewrite wires_cons, wires_nil, app_nil_r. cbn [wire]. unfold delimited. change (concat (map wire (header_fields rev))) with h.
    rewrite Hw, blen_cons, blen_app, blen_cons. change (blen (@nil Z)) with 0. lia. }
  rewrite put_room by lia. cbn [mbind res_bind]. rewrite varint_out_ok by (apply u64_range || sizes). rewrite <- app_assoc.
  set (f2 := [16] ++ wire_u64_ (u64 id)). assert (B2' : 0 < blen f2 <= 11) by (unfold f2; sizes).
  destruct (flag_out_ok cap (f1 ++ f2) 24 created) as [-> B3]; [rewrite blen_app; lia|]. cbn [mbind res_bind]. set (f3 := wires (flag_fields 24 created)) in *.
  destruct (flag_out_ok cap ((f1 ++ f2) ++ f3) 32 canceled) as [-> B4]; [rewrite !blen_app; lia|]. cbn [mbind res_bind]. set (f4 := wires (flag_fields 32 canceled)) in *.
  set (o4 := ((f1 ++ f2) ++ f3) ++ f4). assert (L4 : 0 < blen o4 <= 28) by (unfold o4; rewrite !blen_app; lia).
  destruct (compact_out_ok cap o4 compact) as [-> B5]; [lia|]. cbn [mbind res_bind]. set (f5 := wires (if 0 <? compact then _ else _)) in *.
  destruct (reason_out_ok cap (o4 ++ f5) (canceled && (0 <? compact))) as [H6 B6]; [rewrite blen_app; lia..|].
  cbn [mbind res_bind] in H6. rewrite H6. cbn [mbind res_bind]. set (f6 := wires (if canceled && _ then _ else _)) in *.
  destruct (flag_out_ok cap ((o4 ++ f5) ++ f6) 56 fragment) as [-> B7]; [rewrite !blen_app; lia|].
  assert (Ew : wires (watch_fields id created canceled rev compact fragment) = ((o4 ++ f5) ++ f6) ++ wires (flag_fields 56 fragment)).
  { unfold watch_fields. rewrite !wires_app. unfold o4, f5, f6, f4, f3. rewrite (wires_cons (FMsg 10 _)), (wires_cons (FVar 16 _)), wires_nil, app_nil_r.
    unfold f1, f2. rewrite wires_cons, wires_nil, app_nil_r. cbn [wire]. by rewrite <- !app_assoc. }
  rewrite Ew. split; [done|]. rewrite !blen_app. lia.
Qed.

Definition response_bytes (watch_id : Z) (created canceled : bool) (rev compact_rev : Z) (fragment want_prev_kv : bool) (evs : list cetcd_watch_event) : bytes :=
  wires (watch_fields watch_id created canceled rev compact_rev fragment ++ map (event_field want_prev_kv) evs).

Lemma encode_watch_response_ok id created canceled evs rev want compact : Forall event_fits evs ->
  encode_watch_response id created canceled evs rev want compact = Ok (response_bytes id created canceled rev compact false want evs).
Proof.
  intros Hf. unfold encode_watch_response, encode_watch_response_frag. pose proof (blen_nonneg evs).
  destruct (encode_watch_prefix_ok (256 + blen evs * 8192) id created canceled rev compact false ltac:(lia)) as [-> Hb]. cbn [mbind res_bind].
  rewrite (encode_events_ok want evs Hf) by lia. unfold response_bytes. by rewrite wires_app.
Qed.

(** ** Splitting *)

(** The frames of a batch: every frame but the last says that more follow. *)
Fixpoint frames_for (watch_id rev : Z) (want_prev_kv : bool) (chunks : list (list cetcd_watch_event)) : list bytes :=
  match chunks with
  | [] => []
  | c :: cs => response_bytes watch_id false false rev 0 (bool_decide (cs <> [])) want_prev_kv c :: frames_for watch_id rev want_prev_kv cs
  end.

Lemma watch_fields_more id rev : watch_fields id false false rev 0 true = watch_fields id false false rev 0 false ++ [FVar 56 1].
Proof. done. Qed.

Lemma response_more_len id rev want evs :
  blen (response_bytes id false false rev 0 true want evs) = blen (response_bytes id false false rev 0 false want evs) + 2.
Proof. unfold response_bytes. rewrite watch_fields_more, !wires_app, !blen_app. change (blen (wires [FVar 56 1])) with 2. lia. Qed.

(** One frame: a non-empty prefix of the events, within the limit when it has
    more than one. *)
Lemma fill_frame_ok cap maxb want evs : Forall event_fits evs -> forall pos n, blen pos + 4110 * blen evs <= cap ->
  exists k, fill_frame cap maxb want pos n evs = Ok (pos ++ events_bytes want (take k evs), (n + k)%nat) /\ (k <= length evs)%nat /\
    (n = 0%nat -> evs <> [] -> (1 <= k)%nat) /\
    ((1 <= k)%nat -> (1 < n + k)%nat -> blen (pos ++ events_bytes want (take k evs)) + (if decide (k < length evs)%nat then 2 else 0) <= maxb).
Proof.
  induction 1 as [|ev evs Hf Hfs IH]; intros pos n Hc.
  { exists 0%nat. cbn. change (events_bytes want []) with (@nil Z). rewrite app_nil_r, Nat.add_0_r. split_and!; [done|lia|done|lia]. }
  rewrite blen_cons in Hc. pose proof (blen_nonneg evs). cbn [fill_frame].
  destruct (encode_event_ok cap pos ev want Hf ltac:(lia)) as [-> Hb]. cbn [mbind res_bind]. rewrite blen_app.
  rewrite (proj2 (Z.leb_gt _ _)) by lia. case_bool_decide as Hn; cbn [andb].
  1: destruct (Z.ltb_spec maxb (blen pos + blen (event_bytes want ev) + match evs with [] => 0 | _ :: _ => 2 end)) as [Hbig|Hsmall].
  - exists 0%nat. cbn [take]. change (events_bytes want []) with (@nil Z). rewrite app_nil_r, Nat.add_0_r. split_and!; [done|lia|done|lia].
  - destruct (IH (pos ++ event_bytes want ev) (S n)) as (k & -> & Hk & _ & Hbound); [rewrite blen_app; lia|].
    exists (S k). cbn [take length]. rewrite events_bytes_cons, app_assoc. split_and!; [do 2 f_equal; lia|lia|lia|]. intros _ _.
    destruct k as [|k].
    + clear Hbound. cbn [take]. change (events_bytes want []) with (@nil Z). rewrite app_nil_r, blen_app. destruct evs; cbn match in Hsmall; cbn [length]; case_decide; lia.
    + specialize (Hbound ltac:(lia) ltac:(lia)). destruct (decide (S (S k) < S (length evs))%nat), (decide (S k < length evs)%nat); lia.
  - subst n.
    destruct (IH (pos ++ event_bytes want ev) 1%nat) as (k & -> & Hk & _ & Hbound); [rewrite blen_app; lia|].
    exists (S k). cbn [take length]. rewrite events_bytes_cons, app_assoc. split_and!; [done|lia|lia|]. intros _ Hk1.
    specialize (Hbound ltac:(lia) ltac:(lia)). destruct (decide (S k < S (length evs))%nat), (decide (k < length evs)%nat); lia.
Qed.

Lemma drop_more {A} k (l : list A) : bool_decide (drop k l <> []) = (k <? length l)%nat.
Proof.
  destruct (Nat.ltb_spec k (length l)) as [Hlt|Hge].
  - apply bool_decide_true. intros E%(f_equal length). rewrite length_drop in E. cbn in E. lia.
  - apply bool_decide_false. intros E. apply E, drop_ge. lia.
Qed.

Lemma send_frames_ok cap maxb id rev want fuel evs : (length evs <= fuel)%nat -> Forall event_fits evs -> 200 + 4110 * blen evs <= cap ->
  exists chunks, send_frames fuel cap maxb id rev want evs = Ok (frames_for id rev want chunks) /\ concat chunks = evs /\
    Forall (fun c => c <> []) chunks /\ Forall2 (fun c f => length c = 1%nat \/ blen f <= maxb) chunks (frames_for id rev want chunks).
Proof.
  revert evs. induction fuel as [|fuel IH]; intros evs Hlen Hfs Hc.
  { destruct evs; [|cbn in Hlen; lia]. exists []. split_and!; constructor. }
  destruct evs as [|ev evs]; [exists []; split_and!; constructor|]. set (l := ev :: evs) in *. pose proof (blen_nonneg l).
  cbn [send_frames]. fold l.
  destruct (encode_watch_prefix_ok cap id false false rev 0 false ltac:(lia)) as [-> Hb]. cbn [mbind res_bind].
  set (pre := wires (watch_fields id false false rev 0 false)) in *.
  destruct (fill_frame_ok cap maxb want l Hfs pre 0 ltac:(lia)) as (k & -> & Hk & Hpos & Hbound). cbn [mbind res_bind].
  specialize (Hpos eq_refl ltac:(done)). rewrite Nat.add_0_l in *. rewrite bool_decide_false by lia.
  set (c := take k l). assert (Hcl : length c = k) by (unfold c; rewrite length_take; lia).
  assert (Hcb : 0 <= blen c <= blen l) by (unfold blen; lia).
  assert (Hfc : Forall event_fits c) by (by apply Forall_take).
  assert (Hframe : (if (k <? length l)%nat then
       pos ← encode_watch_prefix_ cap id false false rev 0 true; encode_events cap pos c want
     else Ok (pre ++ events_bytes want c)) = Ok (response_bytes id false false rev 0 (k <? length l)%nat want c)).
  { assert (Hr : forall m, response_bytes id false false rev 0 m want c = wires (watch_fields id false false rev 0 m) ++ events_bytes want c)
      by (intros; unfold response_bytes; by rewrite wires_app).
    destruct (Nat.ltb_spec k (length l)) as [Hlt|Hge].
    - destruct (encode_watch_prefix_ok cap id false false rev 0 true ltac:(lia)) as [-> Hb2]. cbn [mbind res_bind].
      rewrite encode_events_ok; [|done|lia]. by rewrite Hr.
    - by rewrite Hr. }
  rewrite Hframe. cbn [mbind res_bind].
  destruct (IH (drop k l)) as (chunks & -> & Hcat & Hne & Hsz); [rewrite length_drop; lia|by apply Forall_drop|unfold blen in Hc |- *; rewrite length_drop; lia|].
  cbn [mbind res_bind]. exists (c :: chunks). cbn [frames_for concat].
  assert (Hmore : bool_decide (chunks <> []) = (k <? length l)%nat).
  { rewrite <- drop_more. apply bool_decide_ext. rewrite <- Hcat. destruct chunks as [|c' cs]; [done|]. split; [|done]. intros _. apply Forall_cons in Hne as [Hne _]. by destruct c'. }
  split_and!; [by rewrite Hmore|rewrite Hcat; apply take_drop|constructor; [intros Ec; apply (f_equal length) in Ec; cbn [length] in Ec; lia|done]|].
  constructor; [|done]. destruct (decide (k = 1%nat)) as [->|Hk1]; [by left|right]. rewrite Hmore.
  specialize (Hbound ltac:(lia) ltac:(lia)). assert (Hr : blen (response_bytes id false false rev 0 false want c) = blen (pre ++ events_bytes want c))
    by (unfold response_bytes; by rewrite wires_app).
  fold c in Hbound. destruct (Nat.ltb_spec k (length l)); rewrite ?response_more_len, Hr; destruct (decide (k < length l)%nat); lia.
Qed.

(** A frame of a stream: the revision of its header, whether more frames of the
    batch follow, and its events. *)
Definition frame (cur : cetcd_stream_watcher_ctx) (r : Z * bool * list cetcd_watch_event) : bytes :=
  let '(rev, more, c) := r in response_bytes (sc_watch_id cur) false false rev 0 more (sc_want_prev_kv cur) c.

(** A frame has an event, and more than one only within the limit on requests,
    for a watcher that asks for it. *)
Definition frame_ok (g : rpc_settings) (cur : cetcd_stream_watcher_ctx) (r : Z * bool * list cetcd_watch_event) : Prop :=
  r.2 <> [] /\ (sc_fragment cur = true -> length r.2 = 1%nat \/ blen (frame cur r) <= watch_max_request_bytes_ g).

(** The frames [fs] carry the events [evs]. *)
Definition carries (g : rpc_settings) (cur : cetcd_stream_watcher_ctx) (fs : list bytes) (evs : list cetcd_watch_event) : Prop :=
  exists rs, fs = map (frame cur) rs /\ concat (map snd rs) = evs /\ Forall (frame_ok g cur) rs.

Lemma carries_nil g cur : carries g cur [] [].
Proof. by exists []. Qed.

Lemma carries_app g cur fs1 evs1 fs2 evs2 : carries g cur fs1 evs1 -> carries g cur fs2 evs2 -> carries g cur (fs1 ++ fs2) (evs1 ++ evs2).
Proof. intros (rs1 & -> & <- & H1) (rs2 & -> & <- & H2). exists (rs1 ++ rs2). rewrite !map_app, concat_app. split_and!; [done|done|by apply Forall_app]. Qed.

Lemma frames_carry g cur rev chunks : let fs := frames_for (sc_watch_id cur) rev (sc_want_prev_kv cur) chunks in Forall (fun c => c <> []) chunks ->
  (sc_fragment cur = true -> Forall2 (fun c f => length c = 1%nat \/ blen f <= watch_max_request_bytes_ g) chunks fs) -> carries g cur fs (concat chunks).
Proof.
  cbv zeta. induction chunks as [|c cs IH]; [intros; apply carries_nil|]. cbn [frames_for]. intros Hne Hsz. apply Forall_cons in Hne as [Hc Hne].
  destruct IH as (rs & Hrs & Hcat & Hok); [done|intros Hf; specialize (Hsz Hf); by inversion Hsz|].
  exists ((rev, bool_decide (cs <> []), c) :: rs). cbn [map concat snd frame]. split_and!; [by rewrite Hrs|by rewrite Hcat|]. constructor; [|done].
  split; [done|]. intros Hf. specialize (Hsz Hf). by inversion Hsz.
Qed.

(** The events a watcher asked for. *)
Definition keeps (cur : cetcd_stream_watcher_ctx) (ev : cetcd_watch_event) : bool := negb (filtered (sc_filter_noput cur) (sc_filter_nodelete cur) ev).

(** A watcher that writes. *)
Definition writing (cur : cetcd_stream_watcher_ctx) : Prop := sc_write_fn cur = true /\ sc_canceled cur = false.

Lemma write_events_ok g cur evs rev : sc_write_fn cur = true -> Forall event_fits evs ->
  exists chunks, write_watch_events_maybe_fragment_ g cur evs rev = Ok (frames_for (sc_watch_id cur) rev (sc_want_prev_kv cur) chunks) /\
    concat chunks = evs /\ Forall (fun c => c <> []) chunks /\
    (if sc_fragment cur
     then Forall2 (fun c f => length c = 1%nat \/ blen f <= watch_max_request_bytes_ g) chunks (frames_for (sc_watch_id cur) rev (sc_want_prev_kv cur) chunks)
     else (length chunks <= 1)%nat).
Proof.
  intros Hw Hf. unfold write_watch_events_maybe_fragment_. rewrite Hw. cbn [negb orb].
  destruct (Z.eqb_spec (blen evs) 0) as [H0|H0].
  { assert (evs = []) as -> by (destruct evs; [done|unfold blen in H0; cbn in H0; lia]). exists []. split_and!; [done|done|constructor|]. destruct (sc_fragment cur); [constructor|cbn; lia]. }
  assert (Hne : evs <> []) by (intros ->; done). destruct (sc_fragment cur); cbn [negb].
  - cbv zeta. pose proof (blen_nonneg evs). destruct (send_frames_ok (Z.max 8192 (256 + blen evs * 8192)) (watch_max_request_bytes_ g) (sc_watch_id cur) rev
      (sc_want_prev_kv cur) (length evs) evs ltac:(lia) Hf ltac:(lia)) as (chunks & H1 & H2 & H3 & H4). by exists chunks.
  - exists [evs]. rewrite encode_watch_response_ok by done. cbn [mbind res_bind frames_for concat]. rewrite app_nil_r, bool_decide_false by (intros E; by apply E).
    unfold response_bytes. rewrite wires_app, blen_app. pose proof (events_bytes_len (sc_want_prev_kv cur) evs Hf).
    destruct (encode_watch_prefix_ok 200 (sc_watch_id cur) false false rev 0 false ltac:(lia)) as [_ Hb].
    rewrite (proj2 (Z.ltb_lt _ _)); [split_and!; [done|done|by repeat constructor|cbn; lia]|]. unfold events_bytes in *. lia.
Qed.

Lemma callback_ok g cur rev evs : sc_write_fn cur = true -> Forall event_fits evs ->
  exists fs, callback_writes g cur rev evs = Ok fs /\ carries g cur fs (List.filter (keeps cur) evs).
Proof.
  intros Hw Hf. unfold callback_writes. destruct (write_events_ok g cur (List.filter (keeps cur) evs) rev Hw) as (chunks & H1 & H2 & H3 & H4).
  { apply Forall_forall. intros ev Hev%list_elem_of_In%filter_In. rewrite Forall_forall in Hf. apply Hf, list_elem_of_In, Hev. }
  eexists. split; [exact H1|]. rewrite <- H2. apply frames_carry; [done|]. intros Hfr. by rewrite Hfr in H4.
Qed.

Lemma callbacks_ok g cur rev bs : sc_write_fn cur = true -> Forall event_fits (concat bs) ->
  exists fs, callbacks g cur rev bs = Ok fs /\ carries g cur fs (List.filter (keeps cur) (concat bs)).
Proof.
  intros Hw. induction bs as [|b bs IH]; cbn [concat callbacks]; intros Hf; [exists []; split; [done|apply carries_nil]|].
  apply Forall_app in Hf as [Hb Hbs]. destruct (callback_ok g cur rev b Hw Hb) as (fs & -> & Hc). cbn [mbind res_bind].
  destruct (IH Hbs) as (fs' & -> & Hc'). cbn [mbind res_bind]. eexists. split; [done|]. rewrite List.filter_app. by apply carries_app.
Qed.

Lemma batches_concat {A} k (q : list A) : (0 < k <= S (length q))%nat -> concat (batches k q) = q.
Proof.
  intros Hk. destruct k as [|k]; [lia|]. cbn [batches concat].
  replace (concat (map (fun x => [x]) (drop (length q - k) q))) with (drop (length q - k) q); [apply take_drop|].
  generalize (drop (length q - k) q). intros l. induction l as [|x l IH]; [done|]. cbn. by rewrite <- IH.
Qed.

(** ** Channels and writes *)

Section channels.
  Context {T : Type -> Type} {E : Type} `{!KeyIndex T, !Backend E}.
  Local Notation store := (cetcd_mvcc_store T E).

(** The store with other watchers and channels. *)
Definition watched (s : store) (sws : list cetcd_stream_watcher) (ch : gmap Z cetcd_mvcc_watch_notify) : store :=
  (s <| s_stream_watchers := sws |>) <| s_channels := ch |>.

(** Watchers and channels have no influence on anything else of the store. *)
Lemma delete_one_watched (s : store) sws ch k p f : exists ch',
  delete_one_ (watched s sws ch) k p f = (watched (delete_one_ s k p f).1 sws ch', (delete_one_ s k p f).2).
Proof.
  unfold delete_one_, watched. cbn [s_index field_set]. destruct (ki_get (s_index s) k) as [kg|]; [|by exists ch]. destruct (kg_deleted kg); [by exists ch|].
  unfold Mvcc.persist_del_, with_backend. cbv beta. cbn [s_main_rev s_backend s_env field_set].
  destruct p; [destruct (s_backend s)|]; [destruct (be_put2 _ _ _ _ _ _ _) as [env rc]; destruct (is_ok rc)|..]; cbn [negb fst snd];
    try (by exists ch); cbn [s_main_rev field_set]; destruct (s_main_rev s <? _); by eexists.
Qed.

Lemma delete_loop_watched keys : forall (s : store) sws ch m i last, exists ch',
  delete_loop (watched s sws ch) m i keys last = (watched (delete_loop s m i keys last).1 sws ch', (delete_loop s m i keys last).2).
Proof.
  induction keys as [|k keys IH]; intros s sws ch m i last; [by exists ch|]. cbn [delete_loop].
  destruct (delete_one_watched s sws ch k false (Some (mk_rev m i))) as [ch1 Hc]. rewrite Hc. destruct (delete_one_ s k false _) as [s1 r1]. cbn [fst snd]. apply IH.
Qed.

Lemma step_watched (s : store) sws ch op : is_write op = true -> exists ch', mvcc_step (watched s sws ch) op = watched (mvcc_step s op) sws ch'.
Proof.
  destruct op as [k v l|k|ks|r|r| | | | | | |]; cbn [is_write mvcc_step]; try done; intros _.
  - unfold cetcd_mvcc_put, Mvcc.persist_put_, with_backend, watched. cbv beta. cbn [s_index s_main_rev s_backend s_env field_set].
    destruct (s_backend s); [destruct (be_put2 _ _ _ _ _ _ _) as [env rc]; destruct (is_ok rc)|]; cbn [negb fst]; by eexists.
  - unfold cetcd_mvcc_delete. destruct (delete_one_watched s sws ch k true None) as [ch' ->]. by exists ch'.
  - unfold cetcd_mvcc_delete_keys. destruct (blen ks =? 0); [by exists ch|]. change (live_key (watched s sws ch)) with (live_key s).
    destruct (blen (List.filter (live_key s) ks) =? 0); [by exists ch|]. unfold with_backend. cbv beta.
    change (s_backend (watched s sws ch)) with (s_backend s). change (s_env (watched s sws ch)) with (s_env s). change (s_main_rev (watched s sws ch)) with (s_main_rev s).
    destruct (s_backend s); [destruct (be_del_n _ _ _ _ _ _) as [env rc]; destruct (is_ok rc)|]; cbn [negb fst]; [|by exists ch|].
    + destruct (delete_loop_watched (List.filter (live_key s) ks) (s <| s_env := env |>) sws ch (s_main_rev s + 1) 0 zero_rev) as [ch' Hl].
      exists ch'. exact (f_equal fst Hl).
    + destruct (delete_loop_watched (List.filter (live_key s) ks) s sws ch (s_main_rev s + 1) 0 zero_rev) as [ch' ->]. by exists ch'.
  - unfold cetcd_mvcc_advance_revision, with_backend, watched. cbv beta. cbn [s_main_rev s_backend s_env field_set].
    destruct (r <? 1); [by exists ch|]. destruct (r <? s_main_rev s); [by exists ch|]. destruct (r =? s_main_rev s); [by exists ch|].
    destruct (s_backend s); [destruct (be_put _ _ _ _) as [env rc]; destruct (is_ok rc)|]; cbn [negb fst]; by exists ch.
Qed.

Lemma run_watched ops : forall (s : store) sws ch, forallb is_write ops = true -> exists ch', mvcc_run (watched s sws ch) ops = watched (mvcc_run s ops) sws ch'.
Proof.
  induction ops as [|op ops IH]; intros s sws ch; [by exists ch|]. cbn [forallb mvcc_run foldl]. intros [Hop Hops]%andb_true_iff.
  destruct (step_watched s sws ch op Hop) as [ch1 ->]. by apply IH.
Qed.
End channels.

(** ** The stream of a watcher *)

Section stream.
  Context {T : Type -> Type} {E Tx : Type} `{!KeyIndex T, !KeyIndexLaws T, !Lmdb E Tx, !LmdbLaws E Tx, !Clock, !AuthLibs}.
  Context (g : rpc_settings) (user : option bytes).
  Local Notation world := (world T E).

(** Operations of the store, each followed by the calls of the watcher's
    callback it makes; callbacks of other watchers touch their own channels
    only. *)
Fixpoint watch_run (cur : cetcd_stream_watcher_ctx) (w : world) (ops : list mvcc_op) : res (world * list bytes) :=
  match ops with
  | [] => Ok (w, [])
  | op :: ops =>
      '(w, fs) ← run_wakes g (w <| w_store := mvcc_step (w_store w) op |>) cur;
      '(w, fs') ← watch_run cur w ops;
      Ok (w, fs ++ fs')
  end.

Lemma run_wakes_ok (w : world) cur q k : writing cur -> s_channels (w_store w) !! sc_ptr cur = Some (mk_notify q true (Z.of_nat k)) ->
  (k <= length q)%nat -> (k = 0%nat -> q = []) -> Forall event_fits q ->
  exists fs, run_wakes g w cur = Ok (set_channels w (<[sc_ptr cur := mk_notify [] true 0]> (s_channels (w_store w))), fs) /\ carries g cur fs (List.filter (keeps cur) q).
Proof using Type.
  intros [Hw Hcan] Hc Hk Hk0 Hf. unfold run_wakes. rewrite Hc, Hcan. cbn [orb n_wakes n_queue n_has_wake_cb].
  destruct (Z.leb_spec (Z.of_nat k) 0) as [Hz|Hz].
  - assert (k = 0%nat) as -> by lia. rewrite (Hk0 eq_refl) in Hc |- *. exists []. split; [|apply carries_nil]. rewrite insert_id by done. by destruct w as [? []].
  - rewrite Nat2Z.id. destruct (callbacks_ok g cur (store_revision w) (batches k q) Hw) as (fs & -> & Hca); [rewrite batches_concat by lia; done|].
    cbn [mbind res_bind]. exists fs. split; [done|]. by rewrite batches_concat in Hca by lia.
Qed.

(** What holds between two operations: the watcher is the only one of its
    channel, and the channel is empty. *)
Record subscribed (s : cetcd_mvcc_store T E) (cur : cetcd_stream_watcher_ctx) (sw : cetcd_stream_watcher) : Prop := mk_subscribed {
  sb_ok : store_ok s;
  sb_compacted : s_compacted_rev s = 0;
  sb_sole : sole_watcher s sw;
  sb_notify : sw_notify sw = sc_ptr cur;
  sb_channel : s_channels s !! sc_ptr cur = Some (mk_notify [] true 0)
}.

Lemma writes_frame (s : cetcd_mvcc_store T E) l s' : writes s l s' -> s_stream_watchers s' = s_stream_watchers s /\ s_compacted_rev s' = s_compacted_rev s.
Proof using Type. induction 1 as [? ? ? (_ & _ & Hc & _ & Hq & _)|? ? ? ? ? ? (_ & _ & Hc & _ & _ & He & _) ? ? [IH1 IH2]]; [done|]. by rewrite IH1, IH2. Qed.

Lemma watch_run_ok ops cur sw l : writing cur -> forallb is_write ops = true -> forall w : world, subscribed (w_store w) cur sw ->
  s_history (mvcc_run (w_store w) ops) = s_history (w_store w) ++ l -> Forall event_fits (replayed sw (s_history (w_store w)) l) ->
  exists w' fs, watch_run cur w ops = Ok (w', fs) /\ carries g cur fs (List.filter (keeps cur) (replayed sw (s_history (w_store w)) l)) /\
    s_history (w_store w') = s_history (w_store w) ++ l.
Proof using All.
  intros Hw. revert l. induction ops as [|op ops IH]; intros l Hops w Hsub Hl Hf.
  { cbn [mvcc_run foldl] in Hl. rewrite <- (app_nil_r (s_history (w_store w))) in Hl at 1. apply app_inv_head in Hl as <-.
    exists w, []. split; [done|]. split; [apply carries_nil|by rewrite app_nil_r]. }
  cbn [forallb] in Hops. apply andb_true_iff in Hops as [Hop Hops]. destruct Hsub as [Hs Hcomp Hsole Hn Hch].
  set (s := w_store w) in *. destruct (step_writes s op Hs Hop) as [l1 Hw1]. pose proof (writes_history _ _ _ Hw1) as Hh1.
  set (s1 := mvcc_step s op) in *. assert (Hs1 : store_ok s1) by (by apply step_ok).
  destruct (run_writes ops s1 Hs1 Hops) as [l2 Hw2]. pose proof (writes_history _ _ _ Hw2) as Hh2.
  change (mvcc_run s (op :: ops)) with (mvcc_run s1 ops) in Hl. rewrite Hh2, Hh1, <- app_assoc in Hl. apply app_inv_head in Hl as <-.
  rewrite replayed_app in Hf |- *. apply Forall_app in Hf as [Hf1 Hf2].
  pose proof (live_is_replay s l1 s1 sw _ Hw1 Hs Hcomp Hsole ltac:(by rewrite Hn)) as Hlive. rewrite Hn in Hlive. unfold push_all in Hlive.
  cbn [n_has_wake_cb n_queue n_wakes app Z.add] in Hlive. set (q := replayed sw (s_history s) l1) in *.
  destruct (run_wakes_ok (w <| w_store := s1 |>) cur q (length q) Hw) as (fs1 & Hrun & Hca1); [exact Hlive|done|by destruct q|done|].
  cbn [watch_run]. fold s. fold s1. rewrite Hrun. cbn [mbind res_bind]. set (ch1 := <[sc_ptr cur := _]> _). set (w1 := set_channels _ _).
  assert (Ew1 : w_store w1 = watched s1 (s_stream_watchers s1) ch1) by (unfold w1, watched; cbn; by destruct s1).
  destruct (writes_frame _ _ _ Hw1) as [Esw Ecomp]. rewrite Hcomp in Ecomp.
  destruct (run_watched ops s1 (s_stream_watchers s1) ch1 Hops) as [ch2 Hrw]. rewrite <- Ew1 in Hrw.
  destruct (IH l2 Hops w1) as (w' & fs2 & Hrun2 & Hca2 & Hh').
  - split; [rewrite Ew1; by eapply store_ok_ext|by rewrite Ew1|unfold sole_watcher; rewrite Ew1; cbn; by rewrite Esw|done|].
    rewrite Ew1. unfold watched, ch1. cbn [s_channels field_set]. apply lookup_insert_eq.
  - rewrite Hrw, Ew1. exact Hh2.
  - rewrite Ew1. change (s_history (watched s1 (s_stream_watchers s1) ch1)) with (s_history s1). by rewrite Hh1.
  - rewrite Hrun2. cbn [mbind res_bind]. exists w', (fs1 ++ fs2). split; [done|].
    rewrite Ew1 in Hca2, Hh'. change (s_history (watched s1 (s_stream_watchers s1) ch1)) with (s_history s1) in Hca2, Hh'. rewrite Hh1 in Hca2, Hh'.
    split; [rewrite List.filter_app; by apply carries_app|by rewrite Hh', app_assoc].
Qed.
(** The subscription of a request. *)
Definition subscription (p : watch_request_parsed) (watch_id ctx_ptr sw_ptr : Z) : cetcd_stream_watcher :=
  if 0 <? blen (wr_range_end p) then
    mk_stream_watcher sw_ptr (wr_key p) false true (if (blen (wr_range_end p) =? 1) && (wr_range_end p !!! 0%nat =? 0) then [] else wr_range_end p)
      (wr_start_rev p) watch_id (wr_want_prev_kv p) ctx_ptr
  else mk_stream_watcher sw_ptr (wr_key p) false false [] (wr_start_rev p) watch_id (wr_want_prev_kv p) ctx_ptr.

Lemma subscription_fields p id n sp : sw_notify (subscription p id n sp) = n /\ sw_start_rev (subscription p id n sp) = wr_start_rev p.
Proof using Type. unfold subscription. by destruct (0 <? _). Qed.

(** The events of the history a new watcher is to be sent. *)
Definition past_events (p : watch_request_parsed) (sw : cetcd_stream_watcher) (h : list revision_entry) : list cetcd_watch_event :=
  if 0 <? wr_start_rev p then replayed sw [] h else [].

Lemma subscribe_store (w : world) n sp id cb p : let sw := subscription p id n sp in exists ch,
  subscribe w n sp id cb p = w <| w_store := watched (w_store w) (s_stream_watchers (w_store w) ++ [sw]) ch |> /\
  ch !! n = Some (mk_notify (past_events p sw (s_history (w_store w))) cb 0).
Proof using Type.
  cbv zeta. set (sw := subscription p id n sp). unfold subscribe. set (s0 := (w_store w) <| s_channels := _ |>).
  assert (Es : cetcd_mvcc_watch_subscribe s0 sp id (wr_key p) (wr_range_end p) (wr_start_rev p) (wr_want_prev_kv p) n = watched s0 (s_stream_watchers s0 ++ [sw]) (s_channels s0)).
  { unfold cetcd_mvcc_watch_subscribe, sw, subscription. destruct (0 <? blen (wr_range_end p)); [destruct (_ && _)|]; by destruct s0. }
  rewrite Es. cbn [s_stream_watchers watched field_set]. rewrite last_snoc. destruct (subscription_fields p id n sp) as [Hn Hst].
  unfold past_events. assert (Hinit : s_channels s0 !! n = Some (mk_notify [] cb 0)) by apply lookup_insert_eq.
  destruct (Z.ltb_spec 0 (wr_start_rev p)) as [Hpos|Hneg].
  - unfold cetcd_mvcc_watch_replay. fold sw in Hst, Hn. rewrite Hst, (proj2 (Z.leb_gt _ _)) by lia. eexists. split; [reflexivity|].
    destruct (replay_loop_lookup sw [] (s_history (w_store w)) (s_channels s0) (mk_notify [] cb 0)) as [Hl _]; [by rewrite Hn|]. rewrite Hn in Hl. exact Hl.
  - eexists. split; [reflexivity|exact Hinit].
Qed.

(** The watcher a request creates. *)
Definition new_watcher (p : watch_request_parsed) (watch_id ctx_ptr sw_ptr write_ctx : Z) (pending : bool) : cetcd_stream_watcher_ctx :=
  mk_stream_ctx ctx_ptr watch_id (wr_start_rev p) (Some sw_ptr) (wr_want_prev_kv p) (wr_filter_noput p) (wr_filter_nodelete p) (wr_fragment p)
    (wr_want_progress_notify p) 0 pending false true write_ctx.

Lemma watch_created (w : world) n sp wc req p : parse_watch_request req (blen req) = Ok (Some p) ->
  wr_is_create p = true -> wr_is_cancel p = false -> wr_is_progress p = false -> wr_key p <> [] ->
  cetcd_v3rpc_check_key_perm user w false (Some (wr_key p)) = 0 -> s_compacted_rev (w_store w) = 0 ->
  let id := (next_watch_id w p).2 in let sw := subscription p id n sp in let past := past_events p sw (s_history (w_store w)) in
  exists w1 ch, watch_handle_watch user w n sp (Some wc) req = Ok (w1, [], Some (response_bytes id true false (store_revision w) 0 false false [])) /\
    w_store w1 = watched (w_store w) (s_stream_watchers (w_store w) ++ [sw]) ch /\ ch !! n = Some (mk_notify past true 0) /\
    w_streams w1 = new_watcher p id n sp wc (bool_decide (past <> [])) :: w_streams w.
Proof using Type.
  intros Hp Hcr Hca Hpr Hkey Hperm Hcomp. cbv zeta. unfold watch_handle_watch. rewrite Hp. cbn [mbind res_bind]. rewrite Hcr, Hperm.
  assert (Hk0 : (blen (wr_key p) =? 0) = false) by (by apply blen_nonempty). rewrite Hk0. cbn [andb negb Z.eqb].
  unfold handle_streaming_watch. rewrite Hpr, Hca, Hcr, Hk0. cbn [andb negb].
  assert (Hid : w_store (next_watch_id w p).1 = w_store w /\ w_streams (next_watch_id w p).1 = w_streams w) by (unfold next_watch_id; by destruct (0 <? _)).
  destruct (next_watch_id w p) as [w0 id]. cbn [fst snd] in *. destruct Hid as [Es Est].
  assert (Hnc : watch_start_rev_compacted_ w0 (wr_start_rev p) = None)
    by (unfold watch_start_rev_compacted_, cetcd_mvcc_compacted_revision; rewrite Es, Hcomp; by destruct (wr_start_rev p <=? 0)).
  rewrite Hnc. destruct (subscribe_store w0 n sp id true p) as (ch & -> & Hch). rewrite Es in Hch |- *. set (sw := subscription p id n sp) in *.
  cbn [w_store w_streams s_channels watched field_set]. rewrite Hch. cbn [n_queue].
  rewrite encode_watch_response_ok by constructor. cbn [mbind res_bind]. eexists _, ch. split; [reflexivity|]. cbn [w_store w_streams field_set]. split; [done|].
  split; [done|]. rewrite Est. unfold new_watcher. do 2 f_equal. unfold past_events. destruct (0 <? wr_start_rev p); cbn [andb]; [|by rewrite bool_decide_false by (intros X; by apply X)].
  destruct (replayed sw [] (s_history (w_store w))) as [|e l]; [by rewrite bool_decide_false by (intros X; by apply X)|]. rewrite bool_decide_true by done.
  apply Z.ltb_lt. rewrite blen_cons. pose proof (blen_nonneg l). lia.
Qed.
Lemma flush_idle (w : world) l : Forall (fun cur => sc_replay_pending cur = false) l -> flush_replays g w l = Ok (w, l, []).
Proof using Type.
  induction 1 as [|cur l Hc _ IH]; [done|]. cbn [flush_replays]. rewrite Hc, andb_false_r. cbn [mbind res_bind]. rewrite IH. done.
Qed.

(** Sending what a new watcher waits for leaves its channel empty. *)
Lemma flush_new (w : world) ch p id n sp wc past others s : w_streams w = new_watcher p id n sp wc (bool_decide (past <> [])) :: others ->
  Forall (fun cur => sc_replay_pending cur = false) others -> w_store w = watched s (s_stream_watchers (w_store w)) ch ->
  ch !! n = Some (mk_notify past true 0) -> Forall event_fits past ->
  let cur := new_watcher p id n sp wc false in
  exists w2 fs ch2, cetcd_v3rpc_watch_flush_replay g w = Ok (w2, map (pair wc) fs) /\ w_streams w2 = cur :: others /\
    w_store w2 = watched s (s_stream_watchers (w_store w)) ch2 /\ ch2 !! n = Some (mk_notify [] true 0) /\ carries g cur fs (List.filter (keeps cur) past).
Proof using Type.
  intros Hst Hidle Hs Hch Hf. cbv zeta. set (cur := new_watcher p id n sp wc false). unfold cetcd_v3rpc_watch_flush_replay. rewrite Hst. cbn [flush_replays].
  destruct (decide (past = [])) as [->|Hne].
  - rewrite bool_decide_false by (intros X; by apply X). cbn [sc_canceled sc_replay_pending new_watcher andb negb mbind res_bind].
    rewrite flush_idle by done. cbn [mbind res_bind]. exists (w <| w_streams := cur :: others |>), [], ch. cbn [w_streams w_store field_set map app].
    split_and!; [done|done|done|done|apply carries_nil].
  - rewrite bool_decide_true by done. cbn [sc_canceled sc_replay_pending new_watcher andb negb]. cbv zeta.
    change ((new_watcher p id n sp wc true) <| sc_replay_pending := false |>) with cur.
    assert (Ech : s_channels (w_store w) = ch) by (by rewrite Hs). rewrite Ech. set (ch1 := cetcd_mvcc_watch_notify_wake ch (sc_ptr cur)).
    assert (Hch1 : ch1 !! n = Some (mk_notify past true (Z.of_nat 1))).
    { unfold ch1, cetcd_mvcc_watch_notify_wake. change (sc_ptr cur) with n. rewrite lookup_alter_eq, Hch. cbn [fmap option_fmap option_map n_queue n_has_wake_cb n_wakes].
      by rewrite blen_nonempty. }
    destruct (run_wakes_ok (set_channels w ch1) cur past 1) as (fs & Hrun & Hca); [done|exact Hch1|destruct past; [done|cbn; lia]|done|done|].
    rewrite Hrun. cbn [mbind res_bind]. rewrite flush_idle by done. cbn [mbind res_bind]. rewrite app_nil_r.
    eexists _, fs, _. split; [reflexivity|]. cbn [w_streams w_store set_channels field_set s_channels]. split; [done|].
    split; [rewrite Hs; reflexivity|]. split; [change (sc_ptr cur) with n; apply lookup_insert_eq|exact Hca].
Qed.

Lemma sole_snoc (s : cetcd_mvcc_store T E) sw ch : Forall (fun x => sw_notify x <> sw_notify sw) (s_stream_watchers s) ->
  sole_watcher (watched s (s_stream_watchers s ++ [sw]) ch) sw.
Proof using Type.
  intros Hown. unfold sole_watcher, watched. cbn [s_stream_watchers field_set]. rewrite List.filter_app. cbn [List.filter]. rewrite Z.eqb_refl.
  replace (List.filter _ (s_stream_watchers s)) with (@nil cetcd_stream_watcher); [done|].
  induction Hown as [|x l Hx Hl IH]; cbn; [done|]. by rewrite (proj2 (Z.eqb_neq _ _) Hx).
Qed.

(** C9: the stream of a watcher.  In a store without compactions, a request to
    watch a key the user may read, on a connection with a stream, is answered
    with the id of the watcher; then what the watcher is sent, when the replay
    is flushed and with every later write, are responses that carry exactly the
    events of its key range, from its start revision or else from its creation
    on, each once and in order, without the kinds it filters out; as long as the
    events fit into the buffers of the encoder.  A watcher that asks for it gets
    no response of several events beyond the limit on requests. *)
Theorem watch_on_the_wire (w : world) (n sp wc : Z) (req : bytes) (p : watch_request_parsed) (ops : list mvcc_op) :
  let id := (next_watch_id w p).2 in let sw := subscription p id n sp in let h := s_history (w_store w) in
  store_ok (w_store w) -> s_compacted_rev (w_store w) = 0 ->
  Forall (fun x => sw_notify x <> n) (s_stream_watchers (w_store w)) -> Forall (fun cur => sc_replay_pending cur = false) (w_streams w) ->
  parse_watch_request req (blen req) = Ok (Some p) -> wr_is_create p = true -> wr_is_cancel p = false -> wr_is_progress p = false -> wr_key p <> [] ->
  cetcd_v3rpc_check_key_perm user w false (Some (wr_key p)) = 0 -> forallb is_write ops = true ->
  Forall event_fits (replayed sw [] (s_history (mvcc_run (w_store w) ops))) ->
  exists w1 w2 w3 cur fs1 fs2 l,
    watch_handle_watch user w n sp (Some wc) req = Ok (w1, [], Some (response_bytes id true false (store_revision w) 0 false false [])) /\
    cetcd_v3rpc_watch_flush_replay g w1 = Ok (w2, map (pair wc) fs1) /\ w_streams w2 = cur :: w_streams w /\ sc_watch_id cur = id /\
    watch_run cur w2 ops = Ok (w3, fs2) /\ s_history (w_store w3) = h ++ l /\ s_history (mvcc_run (w_store w) ops) = h ++ l /\
    carries g cur (fs1 ++ fs2) (List.filter (fun ev => negb (filtered (wr_filter_noput p) (wr_filter_nodelete p) ev)) (past_events p sw h ++ replayed sw h l)).
Proof using All.
  cbv zeta. intros Hs Hcomp Hown Hidle Hp Hcr Hca Hpr Hkey Hperm Hops Hf.
  destruct (watch_created w n sp wc req p Hp Hcr Hca Hpr Hkey Hperm Hcomp) as (w1 & ch & Hw1 & Hst1 & Hch & Hstr). cbv zeta in *.
  set (id := (next_watch_id w p).2) in *. set (sw := subscription p id n sp) in *. set (s := w_store w) in *.
  destruct (subscription_fields p id n sp) as [Hn _]. fold sw in Hn.
  destruct (run_writes ops s Hs Hops) as [l Hl]. apply writes_history in Hl. rewrite Hl in Hf. rewrite replayed_app in Hf. apply Forall_app in Hf as [Hf1 Hf2]. cbn [app] in Hf2.
  assert (Hfp : Forall event_fits (past_events p sw (s_history s))) by (unfold past_events; by destruct (0 <? wr_start_rev p)).
  destruct (flush_new w1 ch p id n sp wc _ (w_streams w) s Hstr Hidle ltac:(rewrite Hst1; done) Hch Hfp) as (w2 & fs1 & ch2 & Hfl & Hstr2 & Hst2 & Hch2 & Hc1).
  rewrite Hst1 in Hst2. cbn [s_stream_watchers watched field_set] in Hst2. set (cur := new_watcher p id n sp wc false) in *.
  destruct (run_watched ops s (s_stream_watchers s ++ [sw]) ch2 Hops) as [ch3 Hrw]. rewrite <- Hst2 in Hrw.
  destruct (watch_run_ok ops cur sw l ltac:(done) Hops w2) as (w3 & fs2 & Hrun & Hc2 & Hh3).
  - rewrite Hst2. split; [by eapply store_ok_ext|done|apply sole_snoc; by rewrite Hn|done|done].
  - rewrite Hrw, Hst2. exact Hl.
  - rewrite Hst2. exact Hf2.
  - rewrite Hst2 in Hc2, Hh3. exists w1, w2, w3, cur, fs1, fs2, l. split_and!; [done|done|done|done|done|exact Hh3|exact Hl|].
    rewrite List.filter_app. apply carries_app; [exact Hc1|exact Hc2].
Qed.
End stream.

(** ** The end of a connection *)

Section detach.
  Context {T : Type -> Type} {E Tx : Type} `{!KeyIndex T, !Lmdb E Tx}.
  Local Notation world := (world T E).

Lemma filter_filter {A} (f g : A -> bool) l : List.filter f (List.filter g l) = List.filter (fun x => g x && f x) l.
Proof. induction l as [|x l IH]; [done|]. cbn. destruct (g x); cbn; [destruct (f x); cbn; by rewrite ?IH|done]. Qed.

#[local] Instance list_filter_perm {A} (f : A -> bool) : Proper ((≡ₚ) ==> (≡ₚ)) (List.filter f).
Proof.
  intros l l'. induction 1 as [|x l l' _ IH|x y l|l1 l2 l3 _ IH1 _ IH2]; [done|cbn; destruct (f x); [by constructor|done]| |by etrans].
  cbn. destruct (f x), (f y); [constructor|done..].
Qed.

Lemma filter_nodup {A} (f : A -> bool) (key : A -> Z) l : NoDup (key <$> l) -> NoDup (key <$> List.filter f l).
Proof.
  induction l as [|x l IH]; [done|]. rewrite fmap_cons. intros [Hx Hl]%NoDup_cons. cbn [List.filter]. destruct (f x); [|by apply IH].
  rewrite fmap_cons. constructor; [|by apply IH]. intros Hin. apply Hx. apply list_elem_of_fmap in Hin as (y & -> & Hy).
  apply list_elem_of_In, List.filter_In in Hy as [Hy _]. by apply list_elem_of_fmap_2, list_elem_of_In.
Qed.

Lemma filter_true {A} (f : A -> bool) l : (forall x, f x = true) -> List.filter f l = l.
Proof. intros Hf. induction l as [|x l IH]; [done|]. cbn. by rewrite Hf, IH. Qed.

(** The watchers of [l] on the connection. *)
Definition ended (wc : Z) (l : list cetcd_stream_watcher_ctx) : list cetcd_stream_watcher_ctx := List.filter (fun cur => sc_write_ctx cur =? wc) l.

Definition detach_step (wc : Z) (w : world) (cur : cetcd_stream_watcher_ctx) : world := if sc_write_ctx cur =? wc then end_watcher w cur else w.

Lemma end_watcher_subs (w : world) cur : NoDup (sw_ptr <$> s_stream_watchers (w_store w)) ->
  s_stream_watchers (w_store (end_watcher w cur)) ≡ₚ List.filter (fun x => negb (bool_decide (sc_sw cur = Some (sw_ptr x)))) (s_stream_watchers (w_store w)).
Proof.
  intros Hnd. unfold end_watcher, unsubscribe. destruct (sc_sw cur) as [sp|]; cbn [w_store drop_channel set_channels s_stream_watchers field_set cetcd_mvcc_watch_unsubscribe].
  - rewrite swap_remove_spec by done. erewrite List.filter_ext; [done|]. intros x. cbv beta. f_equal.
    destruct (Z.eqb_spec (sw_ptr x) sp) as [->|Hne]; [by rewrite bool_decide_true|]. rewrite bool_decide_false by congruence. done.
  - by rewrite filter_true.
Qed.

Lemma detach_fold wc l : forall w : world, NoDup (sw_ptr <$> s_stream_watchers (w_store w)) ->
  w_streams (foldl (detach_step wc) w l) = List.filter (fun cur => negb (existsb (fun x => sc_ptr cur =? sc_ptr x) (ended wc l))) (w_streams w) /\
  s_stream_watchers (w_store (foldl (detach_step wc) w l)) ≡ₚ
    List.filter (fun x => negb (existsb (fun cur => bool_decide (sc_sw cur = Some (sw_ptr x))) (ended wc l))) (s_stream_watchers (w_store w)).
Proof.
  induction l as [|c l IH]; intros w Hsw; [cbn; by rewrite !filter_true|].
  cbn [foldl]. unfold detach_step at 2 4, ended. cbn [List.filter]. fold (ended wc l). destruct (sc_write_ctx c =? wc); [|by apply IH].
  pose proof (end_watcher_subs w c Hsw) as Hsub. destruct (IH (end_watcher w c)) as [I1 I2]; [rewrite Hsub; by apply filter_nodup|]. split.
  - rewrite I1. assert (Est : w_streams (end_watcher w c) = List.filter (fun cur => negb (sc_ptr cur =? sc_ptr c)) (w_streams w))
      by (unfold end_watcher, unsubscribe, drop_channel; by destruct (sc_sw c)).
    rewrite Est, filter_filter. apply List.filter_ext. intros x. cbn [existsb]. by rewrite negb_orb.
  - rewrite I2, Hsub, filter_filter. erewrite List.filter_ext; [done|]. intros x. cbn [existsb]. by rewrite negb_orb.
Qed.

(** Closing a connection ends its watchers and no others: they are unlinked, and
    their subscriptions are gone, so that no event is written to it any more. *)
Theorem detach_ends_watchers (w : world) (wc : Z) : wc <> 0 -> NoDup (sc_ptr <$> w_streams w) -> NoDup (sw_ptr <$> s_stream_watchers (w_store w)) ->
  let w' := cetcd_v3rpc_detach_stream_writer w wc in
  w_streams w' = List.filter (fun cur => negb (sc_write_ctx cur =? wc)) (w_streams w) /\
  s_stream_watchers (w_store w') ≡ₚ
    List.filter (fun x => negb (existsb (fun cur => bool_decide (sc_sw cur = Some (sw_ptr x))) (ended wc (w_streams w)))) (s_stream_watchers (w_store w)).
Proof.
  intros Hwc Hnd Hsw. unfold cetcd_v3rpc_detach_stream_writer. rewrite (proj2 (Z.eqb_neq _ _) Hwc). fold (detach_step wc).
  destruct (detach_fold wc (w_streams w) w Hsw) as [G1 G2]. split; [|exact G2]. rewrite G1. clear -Hnd.
  apply List.filter_ext_in. intros c Hc. f_equal. apply eq_true_iff_eq. rewrite existsb_exists. split.
  - intros (x & Hx & He%Z.eqb_eq). unfold ended in Hx. apply List.filter_In in Hx as [Hx Hw]. enough (c = x) as -> by done.
    clear -Hnd Hc Hx He. apply list_elem_of_In, list_elem_of_lookup in Hc as [i Hi]. apply list_elem_of_In, list_elem_of_lookup in Hx as [j Hj].
    assert (i = j) as ->; [|congruence]. eapply NoDup_lookup; [exact Hnd|by rewrite list_lookup_fmap, Hi|rewrite list_lookup_fmap, Hj; cbn; congruence].
  - intros Hw. exists c. split; [|apply Z.eqb_refl]. unfold ended. by apply List.filter_In.
Qed.
End detach.
