(* ===== verification/Dispatch.v ===== *)
(** * Dispatch of requests (src/v3rpc/v3rpc.c)

    The table of paths, the token and administrator gate in front of it, and the
    user of the request, which the key-value handlers check.  The readings of
    the clock, the signed tokens, the addresses given by the allocator and what
    the handlers need of the system are arguments.  Timing, warnings and metrics
    are left out. *)

From Stdlib Require Import String.
From S2P Require Import Slice Hash KeyOrder Treap Hashmap Raft RaftWire Wal Backend Mvcc Lease CString Auth Cluster ApplyCodec Alarm Pb PbRequests Apply Kv KvTxn LeaseRpc AuthRpc ClusterRpc MaintRpc WatchRpc Prelude.

#[local] Open Scope Z_scope.

(** The handlers, in the order of the table. *)
Inductive rpc : Type :=
| RPut | RRange | RRangeStream | RDeleteRange | RTxn
| RLeaseGrant | RLeaseRevoke | RLeaseKeepAlive | RLeaseTimeToLive | RLeaseLeases
| RWatch
| RStatus | RDefragment | RHash | RHashKV | RAlarm | RMoveLeader | RSnapshot | RDowngrade
| RCompact
| RMemberList | RMemberAdd | RMemberRemove | RMemberUpdate | RMemberPromote
| RAuthEnable | RAuthDisable | RAuthenticate | RUserAdd | RUserDelete | RRoleAdd | RUserGrantRole
| RAuthStatus | RUserList | RUserChangePassword | RRoleList | RRoleDelete | RUserRevokeRole | RUserGet | RRoleGet
| RRoleGrantPermission | RRoleRevokePermission.

Definition routes : list (bytes * rpc) :=
  (fun '(p, r) => (bytes_of_string (String.append "/etcdserverpb." p), r)) <$> [
    ("KV/Put"%string, RPut); ("KV/Range"%string, RRange); ("KV/RangeStream"%string, RRangeStream); ("KV/DeleteRange"%string, RDeleteRange); ("KV/Txn"%string, RTxn);
    ("Lease/LeaseGrant"%string, RLeaseGrant); ("Lease/LeaseRevoke"%string, RLeaseRevoke); ("Lease/LeaseKeepAlive"%string, RLeaseKeepAlive);
    ("Lease/LeaseTimeToLive"%string, RLeaseTimeToLive); ("Lease/LeaseLeases"%string, RLeaseLeases); ("Watch/Watch"%string, RWatch);
    ("Maintenance/Status"%string, RStatus); ("Maintenance/Defragment"%string, RDefragment); ("Maintenance/Hash"%string, RHash); ("Maintenance/HashKV"%string, RHashKV);
    ("Maintenance/Alarm"%string, RAlarm); ("Maintenance/MoveLeader"%string, RMoveLeader); ("Maintenance/Snapshot"%string, RSnapshot);
    ("Maintenance/Downgrade"%string, RDowngrade); ("KV/Compact"%string, RCompact);
    ("Cluster/MemberList"%string, RMemberList); ("Cluster/MemberAdd"%string, RMemberAdd); ("Cluster/MemberRemove"%string, RMemberRemove);
    ("Cluster/MemberUpdate"%string, RMemberUpdate); ("Cluster/MemberPromote"%string, RMemberPromote);
    ("Auth/AuthEnable"%string, RAuthEnable); ("Auth/AuthDisable"%string, RAuthDisable); ("Auth/Authenticate"%string, RAuthenticate); ("Auth/UserAdd"%string, RUserAdd);
    ("Auth/UserDelete"%string, RUserDelete); ("Auth/RoleAdd"%string, RRoleAdd); ("Auth/UserGrantRole"%string, RUserGrantRole); ("Auth/AuthStatus"%string, RAuthStatus);
    ("Auth/UserList"%string, RUserList); ("Auth/UserChangePassword"%string, RUserChangePassword); ("Auth/RoleList"%string, RRoleList); ("Auth/RoleDelete"%string, RRoleDelete);
    ("Auth/UserRevokeRole"%string, RUserRevokeRole); ("Auth/UserGet"%string, RUserGet); ("Auth/RoleGet"%string, RRoleGet);
    ("Auth/RoleGrantPermission"%string, RRoleGrantPermission); ("Auth/RoleRevokePermission"%string, RRoleRevokePermission)].

(** The chain of [strcmp]: the first equal path. *)
Definition route (path : bytes) : option rpc := snd <$> find (fun '(p, _) => streq path p) routes.

Definition path_of (s : string) : bytes := bytes_of_string (String.append "/etcdserverpb." s).

(** [strncmp] with the length of the prefix is 0. *)
Definition under (prefix : string) (path : bytes) : bool := bool_decide (take (length (path_of prefix)) path = path_of prefix).

Definition path_is_authenticate_ (path : bytes) : bool := streq path (path_of "Auth/Authenticate").

Definition path_requires_admin_ (path : bytes) : bool :=
  if under "Auth/" path then
    if path_is_authenticate_ path then false
    else if streq path (path_of "Auth/AuthStatus") then false
    else true
  else if streq path (path_of "Cluster/MemberAdd") then true
  else if streq path (path_of "Cluster/MemberRemove") then true
  else if streq path (path_of "Cluster/MemberUpdate") then true
  else if streq path (path_of "Cluster/MemberPromote") then true
  else if under "Maintenance/" path && negb (streq path (path_of "Maintenance/Status")) then true
  else false.

Definition path_auth_mutates_ (path : bytes) : bool :=
  under "Auth/" path && negb (path_is_authenticate_ path) && negb (streq path (path_of "Auth/AuthStatus")) && negb (streq path (path_of "Auth/UserList"))
  && negb (streq path (path_of "Auth/UserGet")) && negb (streq path (path_of "Auth/RoleList")) && negb (streq path (path_of "Auth/RoleGet")).

Section Dispatch.
  Context {T : Type -> Type} {E Tx : Type} `{!KeyIndex T, !Lmdb E Tx, !Clock, !AuthLibs}.
  Context (backend_size alloc_size : E -> Z) (defrag : E -> E * cetcd_status) (flush : world T E -> option (world T E)) (inet_pton : bytes -> option bytes).
  Context (jwt_issue : cetcd_auth_store -> bytes -> cetcd_auth_store * option bytes)
    (jwt_user_for : cetcd_auth_store -> bytes -> Z -> cetcd_auth_store * option bytes).
  Context (ctx_ptr sw_ptr : Z) (g : rpc_settings) (writer : option Z).
  Local Notation world := (world T E).

(** The state, the messages written to the streams and the answer.  [writer] is
    the context of the stream writer of the connection, when it has one. *)
Definition answer : Type := world * list (Z * bytes) * option bytes.

(** A handler that only reads, one that writes to the stream, one that changes
    the state. *)
Definition reads (w : world) (r : res (option bytes)) : res answer := out ← r; Ok (w, [], out).
Definition streams (w : world) (r : res (list bytes * option bytes)) : res answer := '(ms, out) ← r; Ok (w, map (pair (default 0 writer)) ms, out).
Definition changes (r : res (world * option bytes)) : res answer := '(w, out) ← r; Ok (w, [], out).

Definition run_rpc (user : option bytes) (now : Z) (r : rpc) (w : world) (req : bytes) : res answer :=
  match r with
  | RPut => changes (kv_handle_put backend_size flush user w req)
  | RRange => reads w (kv_handle_range user w req)
  | RRangeStream => streams w (kv_handle_range_stream user (bool_decide (is_Some writer)) w req)
  | RDeleteRange => changes (kv_handle_delete_range backend_size flush user w req)
  | RTxn => changes (kv_handle_txn backend_size flush user (g_rpc_max_txn_ops g) w req)
  | RLeaseGrant => changes (lease_handle_grant backend_size flush w req)
  | RLeaseRevoke => changes (lease_handle_revoke backend_size flush w req)
  | RLeaseKeepAlive => changes (lease_handle_keep_alive backend_size flush w req)
  | RLeaseTimeToLive => reads w (lease_handle_time_to_live w req)
  | RLeaseLeases => reads w (lease_handle_leases w)
  | RWatch => watch_handle_watch user w ctx_ptr sw_ptr writer req
  | RStatus => reads w (maint_handle_status backend_size alloc_size w)
  | RDefragment => changes (maint_handle_defragment defrag w)
  | RHash => reads w (maint_handle_hash w)
  | RHashKV => reads w (maint_handle_hash_kv w req)
  | RAlarm => changes (maint_handle_alarm backend_size flush w req)
  | RMoveLeader => changes (maint_handle_move_leader w req)
  | RSnapshot => streams w (maint_handle_snapshot (bool_decide (is_Some writer)) w)
  | RDowngrade => reads w (maint_handle_downgrade w req)
  | RCompact => changes (kv_handle_compact backend_size flush w req)
  | RMemberList => reads w (cluster_handle_member_list g w req)
  | RMemberAdd => changes (cluster_handle_member_add backend_size flush inet_pton g w req)
  | RMemberRemove => changes (cluster_handle_member_remove backend_size flush g w req)
  | RMemberUpdate => changes (cluster_handle_member_update backend_size flush inet_pton w req)
  | RMemberPromote => changes (cluster_handle_member_promote backend_size flush w req)
  | RAuthEnable => changes (auth_handle_enable backend_size flush w)
  | RAuthDisable => changes (auth_handle_disable backend_size flush w)
  | RAuthenticate => changes (auth_handle_authenticate jwt_issue now w req)
  | RUserAdd => changes (auth_handle_user_add backend_size flush w req)
  | RUserDelete => changes (auth_handle_user_delete backend_size flush w req)
  | RRoleAdd => changes (auth_handle_role_add backend_size flush w req)
  | RUserGrantRole => changes (auth_handle_role_grant backend_size flush w req)
  | RAuthStatus => reads w (auth_handle_status w)
  | RUserList => reads w (auth_handle_user_list w)
  | RUserChangePassword => changes (auth_handle_user_change_password backend_size flush w req)
  | RRoleList => reads w (auth_handle_role_list w)
  | RRoleDelete => changes (auth_handle_role_delete backend_size flush w req)
  | RUserRevokeRole => changes (auth_handle_user_revoke_role backend_size flush w req)
  | RUserGet => reads w (auth_handle_user_get w req)
  | RRoleGet => reads w (auth_handle_role_get w req)
  | RRoleGrantPermission => changes (auth_handle_role_grant_permission backend_size flush w req)
  | RRoleRevokePermission => changes (auth_handle_role_revoke_permission backend_size flush w req)
  end.

Definition cetcd_v3rpc_dispatch_inner_ (user : option bytes) (now : Z) (w : world) (path req : bytes) : res answer :=
  match route path with
  | Some r => run_rpc user now r w req
  | None => Ok (w, [], None)
  end.

(** The gate: the state after looking the token up, and the user of the request
    ([None] while authentication is off), or a refusal. *)
Definition gate (now : Z) (w : world) (path token : bytes) : world * option (option bytes) :=
  if cetcd_auth_is_enabled (w_auth w) && negb (path_is_authenticate_ path) then
    let '(s, user) := cetcd_auth_user_for_token jwt_user_for (w_auth w) token now in
    let w := w <| w_auth := s |> in
    match user with
    | None => (w, None)
    | Some u => if path_requires_admin_ path && negb (cetcd_auth_is_admin (w_auth w) u) then (w, None) else (w, Some (Some u))
    end
  else (w, Some None).

(** A missing token is empty. *)
Definition cetcd_v3rpc_dispatch_ex (now : Z) (w : world) (path req token : bytes) : res answer :=
  match gate now w path token with
  | (w, None) => Ok (w, [], None)
  | (w, Some user) =>
      '(w, ms, out) ← cetcd_v3rpc_dispatch_inner_ user now w path req;
      Ok (if bool_decide (is_Some out) && path_auth_mutates_ path then cetcd_v3rpc_auth_persist w else w, ms, out)
  end.

Definition cetcd_v3rpc_dispatch (now : Z) (w : world) (path req : bytes) : res answer := cetcd_v3rpc_dispatch_ex now w path req [].

End Dispatch.
