(* ===== verification/DispatchProps.v ===== *)
(** * Dispatch: who reaches a handler *)

From Stdlib Require Import String.
From S2P Require Import Slice Hash KeyOrder Treap Hashmap Raft RaftWire Wal Backend Mvcc MvccSnap MvccStore Lease LeaseProps LeaseRestart CString Auth AuthProps Cluster ClusterProps ApplyCodec Alarm Pb PbProps PbSafe PbRequests PbResponses PbCodec Apply ApplyCmd ApplyInv Kv KvTxn KvCodec KvProps LeaseRpc AuthRpc ClusterRpc MaintRpc WatchRpc Dispatch Prelude.

#[local] Open Scope Z_scope.

(** The handlers for administrators: users and roles but for signing in and the
    status, changes of the members, maintenance but for its status. *)
Definition admin_rpc (r : rpc) : bool :=
  match r with
  | RDefragment | RHash | RHashKV | RAlarm | RMoveLeader | RSnapshot | RDowngrade
  | RMemberAdd | RMemberRemove | RMemberUpdate | RMemberPromote
  | RAuthEnable | RAuthDisable | RUserAdd | RUserDelete | RRoleAdd | RUserGrantRole | RUserList | RUserChangePassword | RRoleList | RRoleDelete
  | RUserRevokeRole | RUserGet | RRoleGet | RRoleGrantPermission | RRoleRevokePermission => true
  | _ => false
  end.

Lemma route_in path r : route path = Some r -> (path, r) ∈ routes.
Proof.
  unfold route. destruct (find _ routes) as [[p r']|] eqn:Hf; [|done]. intros [= <-]. apply find_some in Hf as [Hin Hp].
  apply streq_true in Hp as ->. by apply list_elem_of_In.
Qed.

Lemma routes_admin : forallb (fun '(p, r) => eqb (path_requires_admin_ p) (admin_rpc r)) routes = true.
Proof. vm_compute. reflexivity. Qed.

Lemma route_admin path r : route path = Some r -> path_requires_admin_ path = admin_rpc r.
Proof.
  intros Hr%route_in%list_elem_of_In. pose proof routes_admin as Ha. rewrite forallb_forall in Ha. apply Ha in Hr. by apply eqb_prop in Hr.
Qed.

(** The user a token stands for. *)
Definition live_user (s : cetcd_auth_store) (token : bytes) (now : Z) : option bytes :=
  match tokens_of s !! token with
  | Some ent => if te_expires_ns ent <=? now then None else Some (te_username ent)
  | None => None
  end.

Section dispatch.
  Context {T : Type -> Type} {E Tx : Type} `{!KeyIndex T, !Lmdb E Tx, !Clock, !AuthLibs}.
  Context (backend_size alloc_size : E -> Z) (defrag : E -> E * cetcd_status) (flush : world T E -> option (world T E)) (inet_pton : bytes -> option bytes).
  Context (jwt_issue : cetcd_auth_store -> bytes -> cetcd_auth_store * option bytes)
    (jwt_user_for : cetcd_auth_store -> bytes -> Z -> cetcd_auth_store * option bytes).
  Context (ctx_ptr sw_ptr : Z) (g : rpc_settings) (writer : option Z).
  Local Notation world := (world T E).
  Local Notation dispatch := (cetcd_v3rpc_dispatch_ex backend_size alloc_size defrag flush inet_pton jwt_issue jwt_user_for ctx_ptr sw_ptr g writer).
  Local Notation inner := (cetcd_v3rpc_dispatch_inner_ backend_size alloc_size defrag flush inet_pton jwt_issue ctx_ptr sw_ptr g writer).

(** Looking a token up removes it when it has expired, and changes nothing else. *)
Lemma user_for_token_store s token now : auth_ok s -> a_jwt_alg s = CETCD_JWT_NONE ->
  let '(s', u) := cetcd_auth_user_for_token jwt_user_for s token now in
  u = (if decide (token = []) then None else live_user s token now) /\
  match u with Some _ => s' = s | None => users_of s' = users_of s /\ roles_of s' = roles_of s /\ a_enabled s' = a_enabled s end.
Proof using Type.
  intros Hok Hj. destruct (decide (token = [])) as [->|Ht]; [done|].
  pose proof (user_for_token_spec jwt_user_for s token now Hok Hj Ht) as Hu. fold (live_user s token now) in Hu.
  destruct (cetcd_auth_user_for_token jwt_user_for s token now) as [s' u] eqn:Heq. cbn [snd] in Hu. split; [done|].
  revert Heq. unfold cetcd_auth_user_for_token. rewrite blen_nonempty by done. rewrite bool_decide_true by done. cbn [negb].
  destruct (cetcd_hashmap_get (a_tokens s) token) as [ent|]; [|intros [= <- <-]; done]. destruct (te_expires_ns ent <=? now); intros [= <- <-]; done.
Qed.

(** A permission the user has not got. *)
Lemma perm_refused (w : world) u key want_write : auth_ok (w_auth w) -> a_enabled (w_auth w) = true ->
  ~ is_admin (w_auth w) u -> ~ allowed (w_auth w) u key want_write -> cetcd_v3rpc_check_key_perm (Some u) w want_write (Some key) = -1.
Proof using Type.
  intros Hok He Ha Hp. unfold cetcd_v3rpc_check_key_perm, cetcd_auth_is_enabled. rewrite He. cbn [negb].
  pose proof (auth_check_perm_spec (w_auth w) u key want_write Hok) as Hs. destruct (cetcd_auth_check_perm _ _ _ _); [|done].
  destruct (proj1 Hs eq_refl) as [H1|[H1|H1]]; [by rewrite He in H1|done..].
Qed.

(** The key-value handlers without the permission. *)
Lemma kv_refused (w : world) u req : auth_ok (w_auth w) -> a_enabled (w_auth w) = true -> ~ is_admin (w_auth w) u ->
  (forall r, parse_put_request_ req (blen req) = Ok (Some r) -> ~ allowed (w_auth w) u (pr_key r) true -> kv_handle_put backend_size flush (Some u) w req = Ok (w, None)) /\
  (forall r, parse_delete_range_request_ req (blen req) = Ok (Some r) -> ~ allowed (w_auth w) u (dr_key r) true ->
     kv_handle_delete_range backend_size flush (Some u) w req = Ok (w, None)) /\
  (forall r, parse_range_request_ req (blen req) = Ok (Some r) -> ~ allowed (w_auth w) u (rr_key r) false -> kv_handle_range (Some u) w req = Ok None) /\
  (forall p, parse_watch_request req (blen req) = Ok (Some p) -> wr_is_create p = true -> ~ allowed (w_auth w) u (wr_key p) false ->
     watch_handle_watch (Some u) w ctx_ptr sw_ptr writer req = Ok (w, [], None)).
Proof using Type.
  intros Hok He Ha. split_and!; intros r Hp; [intros Hna..|intros Hcr Hna].
  - unfold kv_handle_put. rewrite Hp. cbn [mbind res_bind]. rewrite perm_refused by done. by destruct (blen (pr_key r) =? 0).
  - unfold kv_handle_delete_range. rewrite Hp. cbn [mbind res_bind]. rewrite perm_refused by done. by destruct (blen (dr_key r) =? 0).
  - unfold kv_handle_range. rewrite Hp. cbn [mbind res_bind]. rewrite perm_refused by done. by destruct (blen (rr_key r) =? 0).
  - unfold watch_handle_watch. rewrite Hp. cbn [mbind res_bind]. rewrite Hcr, perm_refused by done. by destruct (blen (wr_key r) =? 0).
Qed.

(** What a live token gives: a refusal or the handler with the user. *)
Lemma dispatch_live (w : world) path req token now u : auth_ok (w_auth w) -> a_jwt_alg (w_auth w) = CETCD_JWT_NONE -> a_enabled (w_auth w) = true ->
  path_is_authenticate_ path = false -> token <> [] -> live_user (w_auth w) token now = Some u ->
  dispatch now w path req token =
    if path_requires_admin_ path && negb (cetcd_auth_is_admin (w_auth w) u) then Ok (w, [], None)
    else '(w', ms, out) ← inner (Some u) now w path req;
         Ok (if bool_decide (is_Some out) && path_auth_mutates_ path then cetcd_v3rpc_auth_persist w' else w', ms, out).
Proof using Type.
  intros Hok Hj He Hp Ht Hu. unfold cetcd_v3rpc_dispatch_ex, gate, cetcd_auth_is_enabled. rewrite He, Hp. cbn [negb andb].
  pose proof (user_for_token_store (w_auth w) token now Hok Hj) as Hs. destruct (cetcd_auth_user_for_token jwt_user_for (w_auth w) token now) as [s' u'].
  destruct Hs as [-> Hs]. rewrite decide_False in Hs |- * by done. rewrite Hu in Hs |- *. subst s'.
  assert (Hw : w <| w_auth := w_auth w |> = w) by (by destruct w). rewrite Hw. by destruct (_ && _)%bool.
Qed.

Lemma dispatch_put (w : world) (user : option bytes) now req : inner user now w (path_of "KV/Put") req = changes (kv_handle_put backend_size flush user w req).
Proof using Type. reflexivity. Qed.
Lemma dispatch_delete (w : world) (user : option bytes) now req :
  inner user now w (path_of "KV/DeleteRange") req = changes (kv_handle_delete_range backend_size flush user w req).
Proof using Type. reflexivity. Qed.
Lemma dispatch_range (w : world) (user : option bytes) now req : inner user now w (path_of "KV/Range") req = reads w (kv_handle_range user w req).
Proof using Type. reflexivity. Qed.
Lemma dispatch_watch (w : world) (user : option bytes) now req :
  inner user now w (path_of "Watch/Watch") req = watch_handle_watch user w ctx_ptr sw_ptr writer req.
Proof using Type. reflexivity. Qed.

(** C7: The checks at the door.  With authentication enabled and simple tokens (no
    JWT), a request to any path but Authenticate is refused when its token does
    not stand for a user: it has no effect but to remove an expired token.  With
    a token of a user who is no administrator it is refused, without effect,
    when the path is one of users and roles, member changes or maintenance (but
    for the two status paths); when it is a Put or a DeleteRange whose (first)
    key the user has no role to write; and when it is a Range or the creation of
    a watch whose first key the user has no role to read.  The other keys of a
    range, the operations of a transaction and the keys of a revoked lease are
    not covered: [delete_range_bypass], [watch_range_bypass],
    [txn_permission_bypass] and [revoke_bypasses_permission] get past the code's
    checks there. *)
Theorem dispatch_authorizes (w : world) (path req token : bytes) (now : Z) :
  auth_ok (w_auth w) -> a_jwt_alg (w_auth w) = CETCD_JWT_NONE -> a_enabled (w_auth w) = true -> path <> path_of "Auth/Authenticate" ->
  (token = [] \/ live_user (w_auth w) token now = None ->
   exists w', dispatch now w path req token = Ok (w', [], None) /\ w' = w <| w_auth := w_auth w' |> /\
     users_of (w_auth w') = users_of (w_auth w) /\ roles_of (w_auth w') = roles_of (w_auth w) /\ a_enabled (w_auth w') = true) /\
  (forall u, token <> [] -> live_user (w_auth w) token now = Some u -> ~ is_admin (w_auth w) u ->
   (forall r, route path = Some r -> admin_rpc r = true -> dispatch now w path req token = Ok (w, [], None)) /\
   (forall r, path = path_of "KV/Put" -> parse_put_request_ req (blen req) = Ok (Some r) -> ~ allowed (w_auth w) u (pr_key r) true ->
      dispatch now w path req token = Ok (w, [], None)) /\
   (forall r, path = path_of "KV/DeleteRange" -> parse_delete_range_request_ req (blen req) = Ok (Some r) -> ~ allowed (w_auth w) u (dr_key r) true ->
      dispatch now w path req token = Ok (w, [], None)) /\
   (forall r, path = path_of "KV/Range" -> parse_range_request_ req (blen req) = Ok (Some r) -> ~ allowed (w_auth w) u (rr_key r) false ->
      dispatch now w path req token = Ok (w, [], None)) /\
   (forall p, path = path_of "Watch/Watch" -> parse_watch_request req (blen req) = Ok (Some p) -> wr_is_create p = true ->
      ~ allowed (w_auth w) u (wr_key p) false -> dispatch now w path req token = Ok (w, [], None))).
Proof using Type.
  intros Hok Hj He Hpath.
  assert (Hp : path_is_authenticate_ path = false) by (by apply bool_decide_false). split.
  - intros Hdead. unfold cetcd_v3rpc_dispatch_ex, gate, cetcd_auth_is_enabled. rewrite He, Hp. cbn [negb andb].
    pose proof (user_for_token_store (w_auth w) token now Hok Hj) as Hs. destruct (cetcd_auth_user_for_token jwt_user_for (w_auth w) token now) as [s' u'].
    destruct Hs as [Hu Hs]. assert (Hn : u' = None) by (rewrite Hu; case_decide; [done|]; by destruct Hdead). rewrite Hn in Hs |- *.
    destruct Hs as (Hs1 & Hs2 & Hs3). eexists. split; [reflexivity|]. cbn. split_and!; [done|done|done|]. by rewrite Hs3.
  - intros u Ht Hu Hna. rewrite (dispatch_live w path req token now u) by done. destruct (kv_refused w u req Hok He Hna) as (Kput & Kdel & Krange & Kwatch).
    split_and!.
    + intros r Hr Hadm. rewrite (route_admin path r Hr), Hadm. pose proof (is_admin_spec (w_auth w) u Hok) as Hs.
      destruct (cetcd_auth_is_admin (w_auth w) u); [destruct (Hna (proj1 Hs eq_refl))|done].
    + intros r -> Hr Hno. rewrite dispatch_put, (Kput r Hr Hno). done.
    + intros r -> Hr Hno. rewrite dispatch_delete, (Kdel r Hr Hno). done.
    + intros r -> Hr Hno. rewrite dispatch_range, (Krange r Hr Hno). done.
    + intros p -> Hr Hcr Hno. rewrite dispatch_watch, (Kwatch p Hr Hcr Hno). done.
Qed.
End dispatch.
