(* ===== verification/RpcFindings.v ===== *)
(** * Requests: concrete runs

    The witnesses of the theorems on the handlers and on the dispatch, and runs
    on which the code does not do what it means to do. *)

From Stdlib Require Import String.
From S2P Require Import Slice Hash KeyOrder Treap Hashmap Raft RaftWire RaftFindings Wal Backend Mvcc MvccSnap MvccStore MvccProps MvccWatch Lease LeaseProps LeaseRestart CString Config Auth AuthProps Cluster ClusterProps Pb PbProps PbSafe PbRequests PbResponses PbCodec ApplyCodec Snap SnapProps Discovery DiscoveryText Alarm Apply ApplyCmd ApplyInv Expiry ApplyProps Kv KvTxn KvCodec KvProps KvFindings LeaseRpc LeaseRpcProps AuthRpc AuthRpcProps ClusterRpc ClusterRpcProps MaintRpc MaintRpcProps WatchRpc WatchRpcProps Dispatch DispatchProps Prelude.

#[local] Open Scope Z_scope.
#[local] Existing Instance sample_clock.
#[local] Existing Instance sample_libs.
#[local] Existing Instance sample_libs_laws.

(** ** Lease requests *)

(** Lease 5 holds the key a. *)
Definition leased_world : tworld := Eval vm_compute in after fresh_world [CLeaseGrant 5 60; CPut key_a [1] 5].

(** The same on a backend, with the results of its next operations. *)
Definition stored_world : tworld := Eval vm_compute in
  after (fresh_world <| w_store := (w_store fresh_world) <| s_backend := true |> |> <| w_mgr := (w_mgr fresh_world) <| m_backend := true |> |>)
    [CLeaseGrant 5 60; CPut key_a [1] 5].

Definition faulty_leased (faults : list bool) : tworld := stored_world <| w_env := mk_mem_env (me_db (w_env stored_world)) faults |>.

(** The last id a client may ask for is granted. *)
Definition last_id_world : tworld := Eval vm_compute in after fresh_world [CLeaseGrant INT64_MAX 60].

Definition grant (w : tworld) (fs : list field) := lease_handle_grant no_size no_flush w (wires fs).
Definition revoke (w : tworld) (fs : list field) := lease_handle_revoke no_size no_flush w (wires fs).
Definition keep_alive (w : tworld) (fs : list field) := lease_handle_keep_alive no_size no_flush w (wires fs).

(** What a run leaves: the ids of the leases, the value of the key a, the
    response. *)
Definition outcome (r : res (tworld * option bytes)) : res (list Z * option bytes * option bytes) :=
  '(w, out) ← r; Ok (lease_ids (w_mgr w), kv_value <$> present_kv w key_a, out).

(** A revocation is answered with success whatever the backend did: when its
    first operation fails, the lease is gone and its key stays for good; when
    the third fails, the key is gone and the lease stays; when the first two
    fail, nothing happened. *)
Theorem revoke_failure_hidden :
  outcome (revoke (faulty_leased []) [FVar 8 5]) = Ok ([], None, Some (wires [FMsg 10 (header_fields 2)])) /\
  outcome (revoke (faulty_leased [true]) [FVar 8 5]) = Ok ([], Some [1], Some (wires [FMsg 10 (header_fields 1)])) /\
  outcome (revoke (faulty_leased [false; false; true]) [FVar 8 5]) = Ok ([5], None, Some (wires [FMsg 10 (header_fields 2)])) /\
  outcome (revoke (faulty_leased [true; true]) [FVar 8 5]) = Ok ([5], Some [1], Some (wires [FMsg 10 (header_fields 1)])).
Proof. split_and!; vm_compute; reflexivity. Qed.

Definition last_granted : tworld * bytes := Eval vm_compute in
  match grant last_id_world [FVar 8 60] with Ok (w, Some r) => (w, r) | _ => (last_id_world, []) end.

(** After a client was granted the largest id, a grant without an id hands out
    2^63: the client reads a negative number, and every request that names the
    lease is refused. *)
Theorem granted_id_unusable :
  let '(w, r) := last_granted in
  grant last_id_world [FVar 8 60] = Ok (w, Some r) /\ cetcd_parse_lease_grant_response r = Ok (- 2 ^ 63, 60) /\
  revoke w [FVar 8 (2 ^ 63)] = Ok (w, None) /\ keep_alive w [FVar 8 (2 ^ 63)] = Ok (w, None) /\
  lease_handle_time_to_live w (wires [FVar 8 (2 ^ 63)]) = Ok None /\
  do_put None w [FLen 10 key_a; FVar 24 (2 ^ 63)] = Ok (w, None).
Proof. unfold last_granted. split_and!; vm_compute; reflexivity. Qed.

(** A request of eleven bytes stops the handlers. *)
Theorem lease_handlers_hang :
  lease_handle_grant no_size no_flush leased_world rewind = Loop /\ lease_handle_revoke no_size no_flush leased_world rewind = Loop /\
  lease_handle_keep_alive no_size no_flush leased_world rewind = Loop /\ lease_handle_time_to_live leased_world rewind = Loop.
Proof. split_and!; vm_compute; reflexivity. Qed.

(** *** Witness *)

Lemma leased_world_ok : world_ok leased_world.
Proof.
  replace leased_world with (after fresh_world [CLeaseGrant 5 60; CPut key_a [1] 5]) by (vm_compute; reflexivity).
  apply steps_ok, after_steps; repeat constructor; vm_compute; (reflexivity || discriminate).
Qed.

Lemma lease_rpc_refines_witness :
  (exists w' r, lease_handle_grant no_size no_flush leased_world (wires [FVar 8 60; FVar 16 7]) = Ok (w', Some r) /\
     r = wires (lease_answer 1 7 60)) /\
  lease_handle_leases leased_world = Ok (Some (wires (leases_answer 1 [5]))) /\
  (exists w' out, lease_handle_revoke no_size no_flush kept_world (wires [FVar 8 7]) = Ok (w', out) /\
     leases_of (w_mgr w') !! 7 = None /\ current (w_store w') !! key_a = None).
Proof.
  destruct (lease_rpc_refines no_size no_flush leased_world (wires [FVar 8 60; FVar 16 7]) 60 7 false leased_world_ok) as (Hg & _ & Hl & _).
  - reflexivity.
  - intros d. unfold over_quota. change (w_quota leased_world) with 0. by rewrite andb_false_r.
  - vm_compute. reflexivity.
  - unfold INT64_MAX. lia.
  - destruct (lease_rpc_refines no_size no_flush kept_world (wires [FVar 8 7]) 60 7 false kept_world_ok) as (_ & Hr & _).
    + reflexivity.
    + intros d. unfold over_quota. change (w_quota kept_world) with 0. by rewrite andb_false_r.
    + vm_compute. reflexivity.
    + unfold INT64_MAX. lia.
    + split; [|split; [exact Hl|]].
      * destruct Hg as (w' & out & Hrun & Hout & Hok); [vm_compute; reflexivity|]. destruct out as [r|].
        { exists w', r. split; [exact Hrun|apply Hout]. }
        exfalso. apply Hok; [left; reflexivity|reflexivity|reflexivity|reflexivity].
      * destruct Hr as [(w' & out & Hrun & Hout) _]; [vm_compute; reflexivity|]. exists w', out. split; [exact Hrun|].
        replace (leases_of (w_mgr kept_world) !! 7) with (Some (mk_info 10 10000 [key_a])) in Hout by (vm_compute; reflexivity).
        destruct Hout as (_ & _ & _ & Hall). destruct Hall as [Hgone Hkeys].
        { right. split; [apply mem_never_fails|]. split; [|eexists; vm_compute; reflexivity].
          apply List.Forall_cons; [split; vm_compute; (reflexivity || discriminate)|apply List.Forall_nil]. }
        split; [rewrite Hgone; apply lookup_delete_eq|]. rewrite Hkeys. apply decide_True. left.
Defined.

(** ** User and role requests *)

Definition user_add (w : tworld) (fs : list field) := auth_handle_user_add no_size no_flush w (wires fs).
Definition sign_in (w : tworld) (fs : list field) := auth_handle_authenticate no_jwt_issue 5 w (wires fs).

Definition world_of (d : tworld) (r : res (tworld * option bytes)) : tworld := match r with Ok (w, _) => w | _ => d end.
Definition answer_of {A} (r : res (A * option bytes)) : option bytes := match r with Ok (_, out) => out | _ => None end.

(** Alice has no password. *)
Definition passwordless_world : tworld := Eval vm_compute in
  world_of fresh_world (user_add fresh_world [FLen 10 alice; FMsg 26 [FVar 8 1]]).

(** The first token: 16 bytes of the source of randomness mixed with the
    sequence number. *)
Definition sample_token : bytes := Eval vm_compute in
  default [] (cetcd_auth_issue_token no_jwt_issue (w_auth passwordless_world) alice 5).2.

(** A user without a password can sign in: an empty password is refused, but a
    password of one byte 0 reads as the empty C string, whose hash the user
    has. *)
Theorem passwordless_user_signs_in :
  answer_of (user_add fresh_world [FLen 10 alice; FMsg 26 [FVar 8 1]]) = Some (wires [FMsg 10 (header_fields 0)]) /\
  answer_of (sign_in passwordless_world [FLen 10 alice]) = None /\
  answer_of (sign_in passwordless_world [FLen 10 alice; FLen 18 [0]]) = Some (wires [FMsg 10 (header_fields 0); FLen 18 sample_token]).
Proof. split_and!; vm_compute; reflexivity. Qed.

(** Signed tokens are longer than 64 bytes: the client is given a prefix, which
    is no token. *)
Definition long_token : bytes := repeat 97 100.
Definition jwt_issue_long (s : cetcd_auth_store) (user : bytes) : cetcd_auth_store * option bytes := (s, Some long_token).
Definition jwt_user_long (s : cetcd_auth_store) (token : bytes) (now : Z) : cetcd_auth_store * option bytes :=
  (s, if bool_decide (token = long_token) then Some alice else None).
Definition signing_world : tworld := Eval vm_compute in
  let w := world_of fresh_world (user_add fresh_world [FLen 10 alice; FLen 18 [112]]) in
  let s := w_auth w in
  w <| w_auth := s <| a_jwt_alg := CETCD_JWT_RS256 |> |>.

Theorem signed_token_cut :
  auth_handle_authenticate jwt_issue_long 5 signing_world (wires [FLen 10 alice; FLen 18 [112]]) =
    Ok (signing_world, Some (wires [FMsg 10 (header_fields 0); FLen 18 (take 64 long_token)])) /\
  (cetcd_auth_user_for_token jwt_user_long (w_auth signing_world) long_token 6).2 = Some alice /\
  (cetcd_auth_user_for_token jwt_user_long (w_auth signing_world) (take 64 long_token) 6).2 = None.
Proof. split_and!; vm_compute; reflexivity. Qed.

(** *** Lists that do not fit *)

(** Fifty roles of 30 characters. *)
Definition role_name (n : nat) : bytes := [48 + Z.of_nat n `div` 10; 48 + Z.of_nat n `mod` 10] ++ repeat 114 28.
Definition crowded_roles : tworld := Eval vm_compute in after fresh_world ((fun n => CRoleAdd (role_name n)) <$> seq 0 50).

(** The list of the roles ends after 31 of 50, without a sign that it is not
    complete. *)
Theorem role_list_cut :
  length (map_to_list (roles_of (w_auth crowded_roles))) = 50%nat /\
  (r ← auth_handle_role_list crowded_roles; cetcd_parse_string_list_response 32 (default [] r)) = Ok (role_name 10, 31).
Proof. split; vm_compute; reflexivity. Qed.

(** A user with long role names: the last role of the response has its tag and
    its length and no bytes, and the response does not parse. *)
Definition long_role (c n : Z) : bytes := c :: repeat 114 (Z.to_nat (n - 1)).
Definition long_roles : list bytes := [long_role 65 127; long_role 66 127; long_role 67 127; long_role 68 127; long_role 69 127; long_role 70 127; long_role 71 115; long_role 72 127].
Definition long_roles_world : tworld := Eval vm_compute in
  after fresh_world (CUserAdd alice [1] :: flat_map (fun r => [CRoleAdd r; CUserGrantRole alice r]) long_roles).

Theorem user_get_unparsable :
  au_roles <$> users_of (w_auth long_roles_world) !! alice = Some long_roles /\
  auth_handle_user_get long_roles_world (wires [FLen 10 alice]) =
    Ok (Some (wires (FMsg 10 (header_fields 0) :: (FLen 18 <$> take 7 long_roles)) ++ [18; 127])) /\
  (r ← auth_handle_user_get long_roles_world (wires [FLen 10 alice]); cetcd_parse_string_list_response 128 (default [] r)) = Fail CETCD_ERR_INVAL.
Proof. split_and!; vm_compute; reflexivity. Qed.

(** *** Permissions *)

Definition role_added (w : tworld) : tworld := world_of w (auth_handle_role_add no_size no_flush w (wires [FLen 10 reader])).
Definition default_role_world : tworld := Eval vm_compute in role_added fresh_world.

(** A new role has a permission nobody granted: to read and write every key
    that begins with a slash. *)
Theorem new_role_has_permission :
  (fun r => (ro_perm_read r, ro_perm_write r, ro_key_prefix r, ro_range_end r)) <$> cetcd_auth_get_role (w_auth default_role_world) reader = Some (true, true, [47], []) /\
  (r ← auth_handle_role_get default_role_world (wires [FLen 10 reader]); cetcd_parse_role_get_response 16 (default [] r)) = Ok (2, [47], 1).
Proof. split; vm_compute; reflexivity. Qed.

Definition long_range_world : tworld := Eval vm_compute in
  world_of fresh_world (auth_handle_role_grant_permission no_size no_flush default_role_world
    (wires [FLen 10 reader; FMsg 18 [FVar 8 0; FLen 18 (repeat 97 255); FLen 26 (repeat 98 255)]])).
Definition revoked_world : tworld := Eval vm_compute in
  world_of fresh_world (auth_handle_role_revoke_permission no_size no_flush default_role_world (wires [FLen 10 reader])).

(** RoleGet tells a permission on a range with long ends as one on a single
    prefix, and a role whose permission was revoked as one that may read. *)
Theorem role_get_misreports :
  ro_range_end <$> cetcd_auth_get_role (w_auth long_range_world) reader = Some (repeat 98 255) /\
  (r ← auth_handle_role_get long_range_world (wires [FLen 10 reader]); cetcd_parse_role_get_range_end 256 (default [] r)) = Ok [] /\
  (fun r => (ro_perm_read r, ro_perm_write r)) <$> cetcd_auth_get_role (w_auth revoked_world) reader = Some (false, false) /\
  (r ← auth_handle_role_get revoked_world (wires [FLen 10 reader]); cetcd_parse_role_get_perm_type (default [] r)) = Ok 0.
Proof. split_and!; vm_compute; reflexivity. Qed.

(** A request of eleven bytes stops the handlers. *)
Theorem auth_handlers_hang :
  auth_handle_authenticate no_jwt_issue 5 fresh_world rewind = Loop /\ auth_handle_user_add no_size no_flush fresh_world rewind = Loop /\
  auth_handle_role_grant_permission no_size no_flush fresh_world rewind = Loop.
Proof. split_and!; vm_compute; reflexivity. Qed.

(** *** Witness *)

Lemma user_add_then_sign_in_witness :
  exists w', auth_handle_user_add no_size no_flush fresh_world (wires [FLen 10 alice; FLen 18 [112]]) =
      Ok (w', Some (wires [FMsg 10 (header_fields (store_revision w'))])) /\
    auth_handle_authenticate no_jwt_issue 5 w' (wires [FLen 10 alice; FLen 18 [113]]) = Ok (w', None) /\
    exists s token, auth_handle_authenticate no_jwt_issue 5 w' (wires [FLen 10 alice; FLen 18 [112]]) =
        Ok (w' <| w_auth := s |>, Some (wires [FMsg 10 (header_fields (store_revision w')); FLen 18 token])) /\
      forall t, (cetcd_auth_user_for_token no_jwt_user s token t).2 = if 300000000005 <=? t then None else Some alice.
Proof.
  destruct (user_add_then_sign_in no_size no_flush no_jwt_issue no_jwt_user fresh_world alice [112] 5
    (wires [FLen 10 alice; FLen 18 [112]]) fresh_world_ok) as (w' & out & Hadd & Hres).
  - reflexivity.
  - intros d. unfold over_quota. change (w_quota fresh_world) with 0. by rewrite andb_false_r.
  - reflexivity.
  - split_and!; [vm_compute; discriminate|repeat constructor; discriminate|vm_compute; reflexivity].
  - discriminate.
  - repeat constructor. discriminate.
  - vm_compute. reflexivity.
  - change (users_of (w_auth fresh_world) !! alice) with (@None auser) in Hres. destruct Hres as (-> & _ & _ & Hsign). exists w'. split; [exact Hadd|]. split.
    + apply (Hsign _ [113] false); [vm_compute; reflexivity|discriminate|repeat constructor; discriminate|vm_compute; discriminate].
    + destruct (Hsign (wires [FLen 10 alice; FLen 18 [112]]) [112] false) as [_ Hyes];
        [vm_compute; reflexivity|discriminate|repeat constructor; discriminate|].
      destruct (Hyes eq_refl) as (s & token & Hrun & _ & _ & _ & Ht). exists s, token. split; [exact Hrun|exact Ht].
Defined.

Definition role_world : tworld := Eval vm_compute in after fresh_world [CUserAdd alice [36; 50]; CRoleAdd reader].

Lemma role_world_ok : world_ok role_world.
Proof.
  replace role_world with (after fresh_world [CUserAdd alice [36; 50]; CRoleAdd reader]) by (vm_compute; reflexivity).
  apply steps_ok, after_steps; repeat constructor; vm_compute; (reflexivity || discriminate).
Qed.

Lemma user_role_requests_witness :
  auth_handle_enable no_size no_flush role_world = Ok (role_world, None) /\
  auth_handle_role_grant no_size no_flush role_world (wires [FLen 10 alice; FLen 18 reader]) = answered (run_command role_world (CUserGrantRole alice reader)) /\
  auth_handle_user_revoke_role no_size no_flush role_world (wires [FLen 10 alice; FLen 18 reader]) = Ok (role_world, None).
Proof.
  destruct (user_role_requests no_size no_flush role_world alice reader [97] [] 0 false (wires [FLen 10 alice; FLen 18 reader]) role_world_ok)
    as (He & _ & _ & Hp & _).
  - reflexivity.
  - intros d. unfold over_quota. change (w_quota role_world) with 0. by rewrite andb_false_r.
  - reflexivity.
  - split_and!; [vm_compute; discriminate|repeat constructor; discriminate|vm_compute; reflexivity].
  - split_and!; [vm_compute; discriminate|repeat constructor; discriminate|vm_compute; reflexivity].
  - vm_compute. reflexivity.
  - vm_compute. reflexivity.
  - lia.
  - split; [exact He|]. destruct Hp as (Hg & Hv & _); [vm_compute; reflexivity|]. split; [exact Hg|exact Hv].
Defined.

(** ** Member requests *)

Definition g0 : rpc_settings := initial_settings.

(** A cluster of the node 1, in memory and on a backend. *)
Definition cluster_world : tworld := fresh_world <| w_cluster := Some (cetcd_cluster_new 1) |>.
Definition stored_cluster : tworld := fresh_world <| w_cluster := Some (cetcd_cluster_set_backend (cetcd_cluster_new 1) true) |>.

Definition run_add (w : tworld) (fs : list field) := cluster_handle_member_add no_size no_flush knows_loopback g0 w (wires fs).
Definition run_update (w : tworld) (fs : list field) := cluster_handle_member_update no_size no_flush knows_loopback w (wires fs).
Definition run_list (w : tworld) := cluster_handle_member_list g0 w [].

Definition world_after (d : tworld) (r : res (tworld * option bytes)) : tworld := match r with Ok (w, _) => w | _ => d end.
Definition peers_of (w : tworld) : list cetcd_peer_info := match w_cluster w with Some c => c_peers c | None => [] end.

Definition long_host (n : Z) : bytes := repeat 97 (Z.to_nat n).
Definition long_url (n : Z) : bytes := long_host n ++ text ":2380".

Definition long_learner_world : tworld := Eval vm_compute in world_after cluster_world (run_add cluster_world [FLen 10 (long_url 237); FVar 16 1]).

(** A learner whose address has 237 characters fills the buffer of 256 bytes for
    a member, and the learner flag is written behind its end: from then on
    MemberList writes outside of its stack buffer. *)
Theorem learner_overruns : peers_of long_learner_world = [mk_peer 2 (long_host 237) 2380 true] /\ run_list long_learner_world = Undef.
Proof. split; vm_compute; reflexivity. Qed.

Definition long_voter_world : tworld := Eval vm_compute in world_after cluster_world (run_add cluster_world [FLen 10 (long_url 240)]).

(** A voter with an address of 240 characters is listed without any field. *)
Theorem long_member_blank :
  peers_of long_voter_world = [mk_peer 2 (long_host 240) 2380 false] /\
  run_list long_voter_world = Ok (Some (wires ([FMsg 10 (header_fields 0); FMsg 18 (member_fields 1 false ++ [FLen 26 (g_rpc_advertise_peer g0); FLen 34 (g_rpc_advertise_client g0)]); FLen 18 []]))).
Proof. split; vm_compute; reflexivity. Qed.

(** With 60 members the list ends after the node itself and 26 others, without a sign. *)
Definition large_cluster : tworld := Eval vm_compute in
  after cluster_world ((fun n => CMemberAdd (2 + Z.of_nat n) false (text "10.0.0.1") 2380) <$> seq 0 60).

Theorem member_list_cut :
  length (peers_of large_cluster) = 60%nat /\
  (r ← run_list large_cluster; cetcd_parse_string_list_response 0 (default [] r)) = Ok ([], 27).
Proof. split; vm_compute; reflexivity. Qed.

Definition ghost_world : tworld := Eval vm_compute in world_after stored_cluster (run_update stored_cluster [FVar 8 9; FLen 18 (text "10.0.0.9:2380")]).

(** Updating an id that is no member is answered with an error, but its row is
    stored: after a restart the member is there. *)
Theorem update_stores_unknown_member :
  run_update stored_cluster [FVar 8 9; FLen 18 (text "10.0.0.9:2380")] = Ok (ghost_world, None) /\ peers_of ghost_world = [] /\
  c_peers (cetcd_cluster_load (cetcd_cluster_new 1) (w_env ghost_world)).1.1 = [mk_peer 9 (text "10.0.0.9") 2380 false].
Proof. split_and!; vm_compute; reflexivity. Qed.

(** MemberUpdate cuts a URL to 255 bytes before parsing it: with 251 characters
    in front of it the port 2380 is taken as 238. *)
Definition cut_url_world : tworld := Eval vm_compute in
  world_after cluster_world (run_update (world_after cluster_world (run_add cluster_world [FLen 10 (text "b:1")])) [FVar 8 2; FLen 18 (long_url 251)]).

Theorem update_cuts_url :
  peers_of cut_url_world = [mk_peer 2 (long_host 251) 238 false] /\
  parse_peer_url_ knows_loopback (long_url 251) = None.
Proof. split; vm_compute; reflexivity. Qed.

(** Adding a member without a URL does nothing and is answered with success; a
    request of eleven bytes stops the handlers. *)
Theorem add_without_url :
  run_add cluster_world [FVar 16 1] = Ok (cluster_world, Some (wires [FMsg 10 (header_fields 0)])).
Proof. vm_compute. reflexivity. Qed.

Theorem cluster_handlers_hang :
  cluster_handle_member_list g0 cluster_world rewind = Loop /\
  cluster_handle_member_add no_size no_flush knows_loopback g0 cluster_world rewind = Loop /\
  cluster_handle_member_remove no_size no_flush g0 cluster_world rewind = Loop /\
  cluster_handle_member_update no_size no_flush knows_loopback cluster_world rewind = Loop.
Proof. split_and!; vm_compute; reflexivity. Qed.

(** *** Witness *)

Lemma cluster_world_ok : world_ok cluster_world.
Proof. destruct fresh_world_ok as [H1 H2 H3 H4 H5 H6 _]. constructor; [exact H1|exact H2|exact H3|exact H4|exact H5|exact H6|]. split; constructor. Qed.


(** ** Dispatch and maintenance requests *)

Definition no_defrag (e : mem_env) : mem_env * cetcd_status := (e, CETCD_OK).

Definition dispatch_run (now : Z) (w : tworld) (path : string) (fs : list field) (token : bytes) :=
  cetcd_v3rpc_dispatch_ex no_size no_size no_defrag no_flush knows_loopback no_jwt_issue no_jwt_user 1 2 g0 None now w (path_of path) (wires fs) token.

(** Alice has signed in; she may write keys that begin with a slash.  Lease 5
    holds the key a. *)
Definition guarded : list command :=
  [CLeaseGrant 5 60; CPut key_a [1] 5; CRoleAdd reader; CUserAdd alice (sha256 [112]); CUserGrantRole alice reader; CUserAdd ROOT (sha256 [112]); CAuthEnabled true].
Definition enabled_world : tworld := Eval vm_compute in after fresh_world guarded.
Definition gated_world : tworld := Eval vm_compute in world_of enabled_world (sign_in enabled_world [FLen 10 alice; FLen 18 [112]]).
Definition alice_token : bytes := Eval vm_compute in default [] (cetcd_auth_issue_token no_jwt_issue (w_auth enabled_world) alice 5).2.

(** Alice may not delete the key a, but she may revoke the lease that holds it:
    the key is deleted. *)
Definition revoked_by_alice : tworld := Eval vm_compute in
  match dispatch_run 6 gated_world "Lease/LeaseRevoke" [FVar 8 5] alice_token with Ok (w, _, _) => w | _ => gated_world end.

Theorem revoke_bypasses_permission :
  dispatch_run 6 gated_world "KV/DeleteRange" [FLen 10 key_a] alice_token = Ok (gated_world, [], None) /\
  dispatch_run 6 gated_world "Lease/LeaseRevoke" [FVar 8 5] alice_token = Ok (revoked_by_alice, [], Some (wires [FMsg 10 (header_fields 2)])) /\
  is_Some (present_kv gated_world key_a) /\ present_kv revoked_by_alice key_a = None.
Proof. split_and!; [vm_compute; reflexivity..|eexists|]; vm_compute; reflexivity. Qed.

(** *** Maintenance *)

(** Moving the leadership to a member that does not exist is answered with
    success, without a raft node and on a follower alike. *)
Definition follower_world : tworld := fresh_world <| w_raft := Some (RaftFindings.member 2) |>.

Theorem move_leader_always_succeeds :
  maint_handle_move_leader fresh_world (wires [FVar 8 99]) = Ok (fresh_world, Some (wires [FMsg 10 (header_fields 0)])) /\
  maint_handle_move_leader follower_world (wires [FVar 8 99]) = Ok (follower_world, Some (wires [FMsg 10 (header_fields 0)])).
Proof. split; vm_compute; reflexivity. Qed.

(** A key that begins with the byte 255 is not in the snapshot. *)
Definition high_key_world : tworld := Eval vm_compute in after fresh_world [CPut key_a [1] 0; CPut [255; 1] [2] 0].

Theorem snapshot_rpc_misses_high_keys :
  is_Some (present_kv high_key_world [255; 1]) /\
  maint_handle_snapshot false high_key_world = Ok ([], Some (wires [FMsg 10 (header_fields 2); FVar 16 0; FLen 26 (1 :: key_a ++ [1; 1])])).
Proof. split; [eexists|]; vm_compute; reflexivity. Qed.

(** The hash of an older revision is answered with that revision in the header,
    not with the current one. *)
Theorem hash_kv_header :
  store_revision high_key_world = 2 /\
  (r ← maint_handle_hash_kv high_key_world (wires [FVar 8 1]); cetcd_parse_response_header (default [] r)) = Ok (0, 0, 1, 0).
Proof. split; vm_compute; reflexivity. Qed.

(** The action of an alarm request is cut to 32 bits: 2^32 + 1 activates. *)
Theorem alarm_action_wraps :
  parse_alarm_request_ (wires [FVar 8 (2 ^ 32 + 1); FVar 24 1]) 8 = Ok (Some (1, 0, 1)) /\
  cetcd_parse_alarm_request (wires [FVar 8 (2 ^ 32 + 1); FVar 24 1]) = Fail CETCD_ERR_INVAL.
Proof. split; vm_compute; reflexivity. Qed.

Theorem maint_handlers_hang :
  maint_handle_hash_kv fresh_world rewind = Loop /\ maint_handle_alarm no_size no_flush fresh_world rewind = Loop /\
  maint_handle_move_leader fresh_world rewind = Loop /\ maint_handle_downgrade fresh_world rewind = Loop.
Proof. split_and!; vm_compute; reflexivity. Qed.

(** *** Witness *)

Lemma enabled_world_ok : world_ok enabled_world.
Proof.
  replace enabled_world with (after fresh_world guarded) by (vm_compute; reflexivity).
  apply steps_ok, after_steps; unfold guarded; repeat constructor; vm_compute; (reflexivity || discriminate).
Qed.

Lemma gated_auth_ok : auth_ok (w_auth gated_world).
Proof.
  destruct (auth_token_spec no_jwt_issue no_jwt_user (w_auth enabled_world) alice [1] 5 (wo_auth _ _ enabled_world_ok) eq_refl ltac:(cbn; lia)
    ltac:(vm_compute; reflexivity) ltac:(eexists; vm_compute; reflexivity)) as (s1 & token & Hi & Hok & _).
  replace (w_auth gated_world) with s1; [exact Hok|]. apply (f_equal fst) in Hi. cbn [fst] in Hi. rewrite <- Hi. vm_compute. reflexivity.
Qed.

Lemma dispatch_authorizes_witness :
  (exists w', dispatch_run 6 gated_world "KV/Put" [FLen 10 key_a; FLen 18 [9]] [] = Ok (w', [], None)) /\
  dispatch_run 6 gated_world "Auth/UserAdd" [FLen 10 key_a; FLen 18 [9]] alice_token = Ok (gated_world, [], None).
Proof.
  split.
  - destruct (dispatch_authorizes no_size no_size no_defrag no_flush knows_loopback no_jwt_issue no_jwt_user 1 2 g0 None gated_world (path_of "KV/Put")
      (wires [FLen 10 key_a; FLen 18 [9]]) [] 6 gated_auth_ok eq_refl eq_refl ltac:(vm_compute; discriminate)) as [Hno _].
    destruct (Hno (or_introl eq_refl)) as (w' & Hw & _). exists w'. exact Hw.
  - destruct (dispatch_authorizes no_size no_size no_defrag no_flush knows_loopback no_jwt_issue no_jwt_user 1 2 g0 None gated_world (path_of "Auth/UserAdd")
      (wires [FLen 10 key_a; FLen 18 [9]]) alice_token 6 gated_auth_ok eq_refl eq_refl ltac:(vm_compute; discriminate)) as [_ Hyes].
    destruct (Hyes alice) as (Hadm & _); [vm_compute; discriminate|vm_compute; reflexivity| |].
    + rewrite <- is_admin_spec by exact gated_auth_ok. vm_compute. discriminate.
    + apply (Hadm RUserAdd); vm_compute; reflexivity.
Defined.

Lemma snapshot_backup_witness :
  exists blob, maint_handle_snapshot true ab_world = Ok ([wires (snapshot_fields 2 (blen blob) [])], Some (wires (snapshot_fields 2 0 blob))) /\
    cetcd_snap_decode_kv (cetcd_snap_encode_cts2 blob 2) = Some [mk_snap_entry key_a [1] 0; mk_snap_entry key_b [2] 0].
Proof.
  assert (Er : (sorted_entries (current (w_store ab_world))).*2 =
    [mk_kv key_a [1] (mk_rev 1 0) (mk_rev 1 0) 1 0; mk_kv key_b [2] (mk_rev 2 0) (mk_rev 2 0) 1 0]) by (vm_compute; reflexivity).
  destruct (snapshot_backup ab_world true) as (blob & Ho & _ & He & Hf); [exact (wo_store _ _ ab_world_ok)| |rewrite Er..|].
  - intros k [kv Hk]. apply sorted_entries_elem in Hk.
    replace (sorted_entries (current (w_store ab_world))) with
      [(key_a, mk_kv key_a [1] (mk_rev 1 0) (mk_rev 1 0) 1 0); (key_b, mk_kv key_b [2] (mk_rev 2 0) (mk_rev 2 0) 1 0)] in Hk by (vm_compute; reflexivity).
    apply elem_of_cons in Hk as [[= -> _]|Hk]; [reflexivity|]. apply list_elem_of_singleton in Hk as [= -> _]. reflexivity.
  - repeat constructor; vm_compute; discriminate.
  - vm_compute. reflexivity.
  - rewrite Er in He, Hf. assert (Eb : blob = (1 :: key_a ++ [1; 1]) ++ 1 :: key_b ++ [1; 2]) by (vm_compute in He; by injection He as <-). exists blob. split.
    + rewrite Ho, Eb. vm_compute. reflexivity.
    + destruct (Hf 2) as [_ Hd]; [split; lia|]. rewrite Hd. unfold snap_row. rewrite !fmap_cons, fmap_nil. cbn [kv_key kv_value]. reflexivity.
Defined.

Definition raise_nospace : list field := [FVar 8 1; FVar 16 7; FVar 24 1].

Definition raised_world : tworld := Eval vm_compute in
  match maint_handle_alarm no_size no_flush fresh_world (wires raise_nospace) with Ok (w, _) => w | _ => fresh_world end.

Lemma raised : maint_handle_alarm no_size no_flush fresh_world (wires raise_nospace) =
  Ok (raised_world, Some (wires [FMsg 10 (header_fields 0); FMsg 18 [FVar 8 7; FVar 16 1]])).
Proof. vm_compute. reflexivity. Qed.

Lemma alarms_reported_witness :
  exists w', maint_handle_alarm no_size no_flush fresh_world (wires raise_nospace) = Ok (w', Some (wires [FMsg 10 (header_fields 0); FMsg 18 [FVar 8 7; FVar 16 1]])) /\
    active_alarms (w_alarms w') ≡ₚ [(1, 7)] /\ maint_handle_status no_size no_size w' = Ok (Some (wires (status_fields no_size no_size w'))).
Proof.
  destruct (alarms_reported no_size no_size no_flush fresh_world (wires raise_nospace) 1 7 1) as (w' & Ha & Hact & _ & Hs);
    [reflexivity|intros d; unfold over_quota; change (w_quota fresh_world) with 0; by rewrite andb_false_r|split; [vm_compute; lia|repeat constructor]
    |reflexivity|vm_compute; reflexivity|by left|by left|done|].
  assert (Hw : w' = raised_world) by (rewrite raised in Ha; congruence). subst w'. exists raised_world. split_and!; [exact raised|exact Hact|].
  apply (Hs None). by split_and!.
Defined.

(** ** Watch requests *)

(** A request on the connection [wc]; watcher and subscription are allocated at
    [n] and [n + 1]. *)
Definition watch_run_req (user : option bytes) (w : tworld) (n wc : Z) (fs : list field) := watch_handle_watch user w n (n + 1) (Some wc) (wires fs).

Definition watching (w : tworld) (n wc : Z) (fs : list field) : tworld :=
  match watch_run_req None w n wc fs with Ok (w, _, _) => w | _ => w end.

(** The writes of one put to the newest watcher. *)
Definition put_seen (w : tworld) (k v : bytes) : res (list bytes) :=
  match w_streams w with
  | cur :: _ => '(_, fs) ← watch_run g0 cur w [OpPut k v 0]; Ok fs
  | [] => Ok []
  end.

Definition long_value (n : nat) : bytes := repeat 120 n.

Definition watching_a : tworld := Eval vm_compute in watching fresh_world 10 7 [FMsg 10 [FLen 10 key_a]].

(** A value of 4100 bytes overruns the buffer of the encoder as soon as anybody
    watches its key; so do, with previous values, two of 2100 bytes each. *)
Definition watching_prev : tworld := Eval vm_compute in
  watching (fresh_world <| w_store := mvcc_step (w_store fresh_world) (OpPut key_a (long_value 2100) 0) |>) 10 7 [FMsg 10 [FLen 10 key_a; FVar 48 1]].

Theorem large_event_overruns :
  put_seen watching_a key_a (long_value 4100) = Undef /\ put_seen watching_prev key_a (long_value 2100) = Undef /\
  put_seen watching_a key_a [1] = Ok [response_bytes 1 false false 1 0 false false [mk_event CETCD_EVENT_PUT (mk_kv key_a [1] (mk_rev 1 0) (mk_rev 1 0) 1 0) (mk_rev 1 0) None]].
Proof. split_and!; vm_compute; reflexivity. Qed.

(** The request to cancel a watcher names its id only: another connection ends
    it. *)
Theorem cancel_from_other_connection :
  (sc_write_ctx <$> w_streams watching_a) = [7] /\ w_streams (watching watching_a 20 8 [FMsg 18 [FVar 8 1]]) = [].
Proof. split; vm_compute; reflexivity. Qed.

(** Two watchers may have the same id; cancelling it ends one of them, and the
    other goes on although the client is told that the watch is canceled. *)
Definition same_ids : tworld := Eval vm_compute in watching (watching fresh_world 10 7 [FMsg 10 [FLen 10 key_a; FVar 56 5]]) 20 7 [FMsg 10 [FLen 10 [98]; FVar 56 5]].

Theorem duplicate_id_stays :
  (sc_watch_id <$> w_streams same_ids) = [5; 5] /\
  watch_run_req None same_ids 30 7 [FMsg 18 [FVar 8 5]] =
    Ok (watching same_ids 30 7 [FMsg 18 [FVar 8 5]], [], Some (response_bytes 5 false true 0 0 false false [])) /\
  put_seen (watching same_ids 30 7 [FMsg 18 [FVar 8 5]]) key_a [1] <> Ok [].
Proof. split_and!; [vm_compute; reflexivity..|vm_compute; discriminate]. Qed.

(** The permission is checked for the key a watch begins with, not for its range:
    Alice may not read the key a, but watches all keys from the slash on. *)
Definition alice_watches : tworld := Eval vm_compute in
  match watch_run_req (Some alice) gated_world 10 7 [FMsg 10 [FLen 10 [47]; FLen 18 [0]]] with Ok (w, _, _) => w | _ => gated_world end.

Theorem watch_range_bypass :
  cetcd_v3rpc_check_key_perm (Some alice) gated_world false (Some key_a) = -1 /\
  put_seen alice_watches key_a [1] =
    Ok [response_bytes 1 false false 2 0 false false [mk_event CETCD_EVENT_PUT (mk_kv key_a [1] (mk_rev 1 0) (mk_rev 2 0) 2 0) (mk_rev 2 0) None]].
Proof. split; vm_compute; reflexivity. Qed.

(** The interval is rounded up with an addition that wraps. *)
Theorem progress_interval_wraps :
  cetcd_v3rpc_watch_progress_ticks_from_ms (2 ^ 64 - 1) = 1 /\ cetcd_v3rpc_watch_progress_ticks_from_ms (2 ^ 63) = 1000000.
Proof. split; vm_compute; reflexivity. Qed.

Theorem watch_handler_hangs : watch_handle_watch None fresh_world 10 11 (Some 7) rewind = Loop.
Proof. vm_compute. reflexivity. Qed.

(** *** Witness *)

Definition watch_request : list field := [FMsg 10 [FLen 10 key_a; FLen 18 [0]; FVar 24 1; FVar 48 1; FVar 64 1]].
Definition parsed_request : watch_request_parsed := mk_watch_request key_a [0] 1 0 true false false false true true false false 0.
Definition written_world : tworld := Eval vm_compute in fresh_world <| w_store := mvcc_run (w_store fresh_world) [OpPut key_a [1] 0; OpPut [98] [2] 0] |>.
Definition later : list mvcc_op := [OpPut key_a [3] 0; OpDeleteKeys [key_a; [98]]].
Definition sent : list cetcd_watch_event := Eval vm_compute in replayed (subscription parsed_request 1 10 11) [] (s_history (mvcc_run (w_store written_world) later)).

Lemma watch_on_the_wire_witness :
  exists w1 w2 w3 cur fs1 fs2, watch_handle_watch None written_world 10 11 (Some 7) (wires watch_request) = Ok (w1, [], Some (response_bytes 1 true false 2 0 false false [])) /\
    cetcd_v3rpc_watch_flush_replay g0 w1 = Ok (w2, map (pair 7) fs1) /\ watch_run g0 cur w2 later = Ok (w3, fs2) /\ carries g0 cur (fs1 ++ fs2) sent.
Proof.
  destruct (watch_on_the_wire g0 None written_world 10 11 7 (wires watch_request) parsed_request later)
    as (w1 & w2 & w3 & cur & fs1 & fs2 & l & H1 & H2 & _ & _ & H3 & _ & Hl & H4); [|reflexivity|constructor|constructor|vm_compute; reflexivity|done|done|done|discriminate|reflexivity|reflexivity| |].
  - replace (w_store written_world) with (mvcc_run (w_store fresh_world) [OpPut key_a [1] 0; OpPut [98] [2] 0]) by (vm_compute; reflexivity).
    apply run_ok. exact (wo_store _ _ fresh_world_ok).
  - apply Forall_forall. intros ev Hev. vm_compute in Hev. repeat (apply elem_of_cons in Hev as [->|Hev]; [vm_compute; split_and!; intuition discriminate|]). by apply elem_of_nil in Hev.
  - exists w1, w2, w3, cur, fs1, fs2. split; [exact H1|]. split; [exact H2|]. split; [exact H3|].
    replace sent with (List.filter (fun ev => negb (filtered (wr_filter_noput parsed_request) (wr_filter_nodelete parsed_request) ev))
      (past_events parsed_request (subscription parsed_request 1 10 11) (s_history (w_store written_world)) ++
       replayed (subscription parsed_request 1 10 11) (s_history (w_store written_world)) l)); [exact H4|].
    assert (El : l = drop 2 (s_history (mvcc_run (w_store written_world) later))) by (rewrite Hl; reflexivity). rewrite El. vm_compute. reflexivity.
Defined.
