(* ===== verification/Server.v ===== *)
(** * The server loop (src/server/server.c)

    What the server does with the raft node, the write-ahead log and the
    replicated state: handling a Ready ([process_ready_]), applying committed
    entries, truncating the log, the timer callback, messages of peers, and the
    part of the start-up that restores the state.  The state is the [world] of
    Apply.v; the raft node, once created, is never absent, so the functions
    that need it answer [None] without one.  Sockets, TLS, metrics and the
    progress notifications of watchers are left out: a message is sent when its
    frame is handed to the peer's connection. *)

From S2P Require Import Slice Hash KeyOrder Treap Hashmap Raft RaftWire Wal Backend Mvcc Lease CString Auth Cluster ApplyCodec Alarm Recovery Snap Config Apply Prelude.

#[local] Open Scope Z_scope.

(** ** The log *)

Definition next_io {A} (ok : A) (l : list A) : A * list A := match l with [] => (ok, []) | o :: l => (o, l) end.

(** One append of the encoder, [false] is -1: a failed write leaves a prefix
    of the record behind. *)
Definition wal_write (sv : cetcd_server) (append : bytes -> bytes) : cetcd_server * bool :=
  match sv_wal_enc sv with
  | None => (sv, false)
  | Some enc =>
      if negb (enc_open enc) then (sv, false)
      else
        let '(o, io) := next_io None (sv_wal_io sv) in
        let sv := sv <| sv_wal_io := io |> in
        match o with
        | None => (sv <| sv_wal_enc := Some (mk_wal_encoder (append (enc_file enc)) true (enc_synced enc)) |>, true)
        | Some n =>
            (sv <| sv_wal_enc := Some (mk_wal_encoder (take (length (enc_file enc) + n) (append (enc_file enc))) true (enc_synced enc)) |>, false)
        end
  end.

(** After a successful sync all of the file is on disk. *)
Definition cetcd_wal_encoder_sync (sv : cetcd_server) : cetcd_server * bool :=
  match sv_wal_enc sv with
  | None => (sv, false)
  | Some enc =>
      if negb (enc_open enc) then (sv, false)
      else
        let '(o, io) := next_io None (sv_wal_io sv) in
        let sv := sv <| sv_wal_io := io |> in
        match o with
        | None => (sv <| sv_wal_enc := Some (mk_wal_encoder (enc_file enc) true (enc_file enc)) |>, true)
        | Some _ => (sv, false)
        end
  end.

Fixpoint persist_entries (sv : cetcd_server) (es : list cetcd_entry) : cetcd_server * bool :=
  match es with
  | [] => (sv, true)
  | e :: es =>
      let '(sv, ok) := wal_write sv (fun f => cetcd_wal_encode_entry f e) in
      if ok then persist_entries sv es else (sv, false)
  end.

(** The entries, the hard state and the sync of a Ready; the first failure
    ends it.  Without a log everything counts as persisted. *)
Definition persist_step (sv : cetcd_server) (rd : cetcd_ready) : cetcd_server * bool :=
  match sv_wal_enc sv with
  | None => (sv, true)
  | Some _ =>
      let '(sv, ok) := persist_entries sv (rd_entries rd) in
      let '(sv, ok) :=
        match rd_hard_state rd with
        | Some hs => if ok then wal_write sv (fun f => cetcd_wal_encode_hard_state f hs) else (sv, false)
        | None => (sv, ok)
        end in
      if ok then cetcd_wal_encoder_sync sv else (sv, false)
  end.

Section Server.
  Context {T : Type -> Type} {E Tx : Type} `{!KeyIndex T, !Lmdb E Tx, !Clock, !AuthLibs}.
  Local Notation world := (world T E).

(** ** The applied index *)

Definition META_BUCKET : string := "meta".
Definition APPLIED_KEY : bytes := bytes_of_string "applied_index".

Definition persist_applied_ (be : bool) (e : E) (idx : Z) : E :=
  if be then (be_put e META_BUCKET APPLIED_KEY (le_put 8 idx)).1 else e.

Definition load_applied_ (be : bool) (e : E) : E * Z :=
  if negb be then (e, 0)
  else
    let '(e, rc, val) := be_get e META_BUCKET APPLIED_KEY in
    (e, if is_ok rc && (blen val =? 8) then le_get val else 0).

(** ** Applying committed entries *)

Definition set_applying (w : world) (index : Z) : world :=
  match w_raft w with Some r => w <| w_raft := Some (cetcd_raft_set_applying r index) |> | None => w end.

(** One index of the loop.  The result of the command is not looked at. *)
Definition apply_index (w : world) (i : Z) : option world :=
  r ← w_raft w;
  match cetcd_raft_entry_at r i with
  | None => Some w
  | Some e =>
      if negb (e_type e =? CETCD_ENTRY_NORMAL) then Some w
      else
        let w := set_applying w i in
        w ← (if 0 <? blen (e_data e) then fst <$> cetcd_v3rpc_apply_entry w (e_data e) else Some w);
        Some (set_applying w 0)
  end.

(** The indexes [i], ..., [i + n - 1]. *)
Fixpoint apply_range (n : nat) (i : Z) (w : world) : option world :=
  match n with
  | O => Some w
  | S n => w ← apply_index w i; apply_range n (i + 1) w
  end.

Definition apply_committed_ (w : world) : option world :=
  r ← w_raft w;
  let from := u64 (cetcd_raft_applied r + 1) in
  let to := cetcd_raft_committed r in
  if to <? from then Some w
  else
    w ← apply_range (Z.to_nat (to - from + 1)) from w;
    Some (w <| w_env := persist_applied_ (sv_backend (w_server w)) (w_env w) to |>).

(** ** Snapshots for peers *)

(** The rows of [""] up to ["\xff"]. *)
Definition snapshot_rows (w : world) : cetcd_status * list cetcd_kv := cetcd_mvcc_range (w_store w) 0 [] [255].

Definition fill_snap_context_ (w : world) (msg : cetcd_msg) : cetcd_msg :=
  match m_type msg with
  | CETCD_MSG_SNAP =>
      if 0 <? blen (m_context msg) then msg
      else
        let '(rc, kvs) := snapshot_rows w in
        if negb (is_ok rc) then msg
        else
          let s := foldl (fun s kv => cetcd_snap_add_entry s (kv_key kv) (kv_value kv) 0) cetcd_snap_new kvs in
          match cetcd_snap_encode_kv s with
          | Some blob => msg <| m_context := blob |>
          | None => msg
          end
  | _ => msg
  end.

(** Puts the entries of a snapshot; [CETCD_ERR_IO] at the first that fails. *)
Fixpoint put_entries (w : world) (es : cetcd_snap) : world * cetcd_status :=
  match es with
  | [] => (w, CETCD_OK)
  | e :: es =>
      let '(w, rev) := on_store w (fun s => cetcd_mvcc_put s (se_key e) (se_value e) 0) in
      if (rev_main rev =? 0) && (rev_sub rev =? 0) then (w, CETCD_ERR_IO) else put_entries w es
  end.

Definition apply_snap_context_ (w : world) (msg : cetcd_msg) : world * cetcd_status :=
  match m_type msg with
  | CETCD_MSG_SNAP =>
      if blen (m_context msg) =? 0 then (w, CETCD_OK)
      else if negb (cetcd_mvcc_revision (w_store w) =? 0) then (w, CETCD_OK)
      else
        match cetcd_snap_decode_kv (m_context msg) with
        | None => (w, CETCD_ERR_CORRUPT)
        | Some s => put_entries w s
        end
  | _ => (w, CETCD_OK)
  end.

(** The import of a snapshot file of at most 64 MiB into a new store. *)
Definition import_snapshot_kv_ (w : world) (file : bytes) : world * cetcd_status :=
  if 64 * 1024 * 1024 <? blen file then (w, CETCD_ERR_OVERFLOW)
  else
    let '(rc, hdr) := if blen file =? 0 then (CETCD_OK, mk_snap_header 0 0 0 0 false) else cetcd_snap_parse_header file in
    if negb (is_ok rc) then (w, CETCD_ERR_CORRUPT)
    else
      match cetcd_snap_decode_kv file with
      | None => (w, CETCD_ERR_CORRUPT)
      | Some s =>
          let '(w, rc) := put_entries w s in
          if negb (is_ok rc) then (w, rc)
          else if 0 <? sh_revision hdr then on_store w (fun s => cetcd_mvcc_advance_revision s (i64 (sh_revision hdr)))
          else (w, CETCD_OK)
      end.

(** [cetcd_server_snapshot]: the rows with the revisions of their last change. *)
Definition cetcd_server_snapshot (w : world) : cetcd_snap :=
  let '(rc, kvs) := snapshot_rows w in
  if is_ok rc then foldl (fun s kv => cetcd_snap_add_entry s (kv_key kv) (kv_value kv) (rev_main (kv_mod_rev kv))) cetcd_snap_new kvs
  else cetcd_snap_new.

(** ** Handling a Ready *)

Definition sent_frame (w : world) (to : Z) (framed : bytes) : world :=
  match w_cluster w with
  | Some c =>
      match cetcd_cluster_send_msg c framed to with
      | Some f => w <| w_server := (w_server w) <| sv_sent := sv_sent (w_server w) ++ [f] |> |>
      | None => w
      end
  | None => w
  end.

Definition send_message (w : world) (msg : cetcd_msg) : world :=
  let msg := fill_snap_context_ w msg in
  sent_frame w (m_to msg) (cetcd_msg_encode (cetcd_msg_encode_wire msg)).

Definition maybe_snapshot_truncate_ (w : world) : world :=
  match w_raft w, sv_wal_enc (w_server w) with
  | Some r, Some enc =>
      let sv := w_server w in
      let count := cetcd_snapshot_count_effective (sv_snapshot_count sv) in
      let applied := cetcd_raft_applied r in
      if (applied =? 0) || (applied <? u64 (sv_last_snap_index sv + count)) then w
      else if negb (cetcd_raft_last_index r =? applied) then w
      else
        match cetcd_raft_entry_at r applied with
        | None => w
        | Some e =>
            let keep := cetcd_server_snapshot_catchup_entries (sv_snapshot_catchup sv) in
            let compact_to := cetcd_server_raft_compact_index applied keep in
            if compact_to =? 0 then w
            else
              match (if compact_to =? applied then Some e else cetcd_raft_entry_at r compact_to) with
              | None => w
              | Some ce =>
                  let '(io, ios) := next_io (mk_release_io true true true true true) (sv_release_io sv) in
                  let '(enc, rc) := cetcd_wal_encoder_release io enc compact_to (e_term ce) (cetcd_raft_copy_hard_state r) in
                  let sv := sv <| sv_release_io := ios |> <| sv_wal_enc := Some enc |> in
                  if negb (rc =? 0) then w <| w_server := sv |>
                  else (w <| w_server := sv <| sv_last_snap_index := applied |> |>)
                         <| w_raft := Some (cetcd_raft_compact r compact_to (e_term ce)).1 |>
              end
        end
  | _, _ => w
  end.

Definition maybe_propose_leave_joint_ (w : world) : world * bool :=
  match w_raft w with
  | None => (w, false)
  | Some r =>
      if negb (is_leader r) || negb (cetcd_raft_in_joint r) || cetcd_raft_leave_pending r || negb (cetcd_raft_joint_caught_up r)
      then (w, false)
      else
        let '(r, rc) := cetcd_raft_propose r [CETCD_APPLY_LEAVE_JOINT] in
        if negb (rc =? 0) then (w <| w_raft := Some r |>, false)
        else (w <| w_raft := Some (cetcd_raft_set_leave_pending r true) |>, true)
  end.

(** The body of [process_ready_] up to the leave-joint proposal: the Ready is
    taken, persisted, and only then sent, applied and advanced. *)
Definition ready_step (w : world) : option world :=
  r ← w_raft w;
  let '(r, rd) := cetcd_raft_ready r in
  let '(sv, persisted) := persist_step (w_server w) rd in
  let w := (w <| w_raft := Some r |>) <| w_server := sv |> in
  if persisted then
    let w := foldl send_message w (rd_messages rd) in
    w ← apply_committed_ w;
    r ← w_raft w;
    Some (maybe_snapshot_truncate_ (w <| w_raft := Some (cetcd_raft_advance r rd) |>))
  else Some w.

(** The recursive call runs at depth 2, where nothing is proposed. *)
Definition process_ready_ (w : world) : option world :=
  w ← ready_step w;
  let '(w, proposed) := maybe_propose_leave_joint_ w in
  if proposed then ready_step w else Some w.

(** ** Messages of peers *)

Definition cetcd_server_is_leader (w : world) : bool :=
  match w_raft w with Some r => cetcd_raft_leader r =? w_node_id w | None => false end.

(** The hash a peer announced for its compacted revision, compared by the
    leader with its own; a difference raises the CORRUPT alarm. *)
Definition check_compact_hash (hash_check : option bool) (w : world) (rmsg : cetcd_msg) : world :=
  if cetcd_server_want_compact_hash_check hash_check && cetcd_server_is_leader w && negb (m_from rmsg =? w_node_id w) then
    let local_rev := cetcd_mvcc_compacted_revision (w_store w) in
    if 0 <? local_rev then
      match cetcd_mvcc_hash_kv (w_store w) local_rev with
      | (CETCD_OK, Some local_hash) =>
          if cetcd_compact_hash_mismatch local_rev local_hash (i64 (m_index rmsg)) (u32 (m_commit rmsg)) then
            let '(e, alarms) := cetcd_v3rpc_alarm_activate (w_backend w) (w_env w) (w_alarms w) 2 (m_from rmsg) in
            (w <| w_env := e |>) <| w_alarms := alarms |>
          else w
      | _ => w
      end
    else w
  else w.

(** [None] is undefined behaviour of the wire decoder, or of a command. *)
Definition peer_apply_encoded_ (hash_check : option bool) (w : world) (encoded : bytes) : option (world * Z) :=
  match w_raft w with
  | None => ret w (-1)
  | Some r =>
      if blen encoded =? 0 then ret w (-1)
      else
        let '(rc, raft_wire) := cetcd_msg_decode encoded in
        if negb (is_ok rc) || (blen raft_wire =? 0) then ret w (-1)
        else
          rmsg ← cetcd_msg_decode_wire raft_wire;
          match rmsg with
          | None => ret w (-1)
          | Some rmsg =>
              match m_type rmsg with
              | CETCD_MSG_COMPACT_HASH => ret (check_compact_hash hash_check w rmsg) 0
              | _ =>
                  let '(w, irc) := apply_snap_context_ w rmsg in
                  if negb (is_ok irc) then ret w (-1)
                  else
                    w ← process_ready_ (w <| w_raft := Some (cetcd_raft_step r rmsg).1 |>);
                    ret w 0
              end
          end
  end.

(** The frame with the hash, to every member but the node itself. *)
Definition send_compact_hash_ (w : world) (rev hash : Z) : world :=
  match w_cluster w with
  | None => w
  | Some c =>
      if rev <=? 0 then w
      else
        let msg := zero_msg <| m_type := CETCD_MSG_COMPACT_HASH |> <| m_from := w_node_id w |>
                     <| m_index := rev |> <| m_commit := hash |> in
        let framed := cetcd_msg_encode (cetcd_msg_encode_wire msg) in
        foldl (fun w pi => if p_id pi =? w_node_id w then w else sent_frame w (p_id pi) framed) w (c_peers c)
  end.

End Server.
