(* ===== verification/ServerStart.v ===== *)
(** * Start-up and the timer of the server (src/server/server.c)

    [cetcd_server_new] builds the state of a node from its configuration,
    [cetcd_server_start] restores it from the data directory, and
    [raft_tick_cb_] is the callback of the timer: ticks of raft and of the
    leases, the Ready, automatic compaction and the periodic checks.  A data
    directory is what the start reads of it: the storage environment, the log
    file, [snapshot.kv] and [mark-compacted] if they exist.  Listeners, TLS, the
    cluster token and the peers' connections are left out. *)

From S2P Require Import Slice Hash KeyOrder Treap Hashmap Raft RaftWire Wal Backend Mvcc Lease CString Auth Cluster ApplyCodec Alarm Recovery Snap Config Apply Server Prelude.

#[local] Open Scope Z_scope.

(** The options the modelled part reads; [option]: with a flag that says
    whether it was set. *)
Record cetcd_server_config : Type := mk_server_config {
  cfg_node_id : Z;
  cfg_tick_ms : Z;
  cfg_heartbeat_interval_set : bool;
  cfg_election_ms : option Z;
  cfg_heartbeat_tick : Z;
  cfg_election_tick : Z;
  cfg_pre_vote : option bool;
  cfg_tick_advance : option bool;
  cfg_auth_enabled : bool;
  cfg_snapshot_count : Z;
  cfg_snapshot_catchup : option Z;
  cfg_initial_peers : list cetcd_peer_info;
  cfg_force_new_cluster : bool;
  cfg_compact_hash_check : option bool;
  cfg_compact_hash_check_ms : option Z;
  cfg_corrupt_check_interval_sec : Z;
  cfg_initial_corrupt_check : bool;
  cfg_auto_compaction_mode : cetcd_auto_compact_mode;
  cfg_auto_compaction_retention : Z;
  cfg_compaction_batch_limit : Z;
  cfg_compaction_sleep_interval_ms : Z
}.

(** The state of the periodic work, the tick in effect ([cfg.tick_ms]) and the
    file [backend.hash]. *)
Record server_timers : Type := mk_timers {
  tm_tick_ms : Z;
  tm_ac : cetcd_auto_compact_state;
  tm_last_corrupt_check_ms : Z;
  tm_last_compact_hash_check_ms : Z;
  tm_backend_hash : option bytes
}.

#[export] Instance timers_eta : RecordEta server_timers := fun t =>
  mk_timers (tm_tick_ms t) (tm_ac t) (tm_last_corrupt_check_ms t) (tm_last_compact_hash_check_ms t) (tm_backend_hash t).

(** The first line of a file that exists, cut at 0 and without its line end;
    [cap] is the size of the buffer, [None] is -1. *)
Fixpoint fgets (n : nat) (f : bytes) : bytes :=
  match n, f with
  | S n, c :: f => if c =? 10 then [c] else c :: fgets n f
  | _, _ => []
  end.

Fixpoint strip_eol (rev_line : bytes) : bytes :=
  match rev_line with
  | c :: l => if (c =? 10) || (c =? 13) then strip_eol l else rev_line
  | [] => []
  end.

Definition read_oneline_ (file : bytes) (cap : nat) : option bytes :=
  let out := cstr (fgets (cap - 1) file) in
  let line := reverse (strip_eol (reverse out)) in
  let had_nl := negb (length line =? length out)%nat in
  if blen line =? 0 then None
  else if negb had_nl && (cap - 1 <=? length line)%nat then None
  else Some line.

Section Start.
  Context {T : Type -> Type} {E Tx : Type} `{!KeyIndex T, !Lmdb E Tx, !Clock, !AuthLibs}.
  Local Notation world := (world T E).

(** ** Creating a server *)

(** Heartbeat and election timeout in ticks, and the tick. *)
Definition effective_timing (cfg : cetcd_server_config) : option (Z * Z * Z) :=
  if cfg_heartbeat_interval_set cfg || bool_decide (is_Some (cfg_election_ms cfg)) then
    let tms := if cfg_heartbeat_interval_set cfg then cfg_tick_ms cfg else CETCD_DEFAULT_TICK_MS in
    '(hb, et) ← cetcd_raft_timing_from_ms tms (default CETCD_DEFAULT_ELECTION_MS (cfg_election_ms cfg));
    Some (tms, hb, et)
  else Some (cfg_tick_ms cfg, cfg_heartbeat_tick cfg, cfg_election_tick cfg).

Definition maybe_campaign_single_ (n_initial_peers : Z) (w : world) : world :=
  match w_raft w with
  | None => w
  | Some r =>
      if negb (n_initial_peers =? 0) then w
      else if 1 <? cetcd_raft_voter_count r then w
      else if is_leader r then w
      else w <| w_raft := Some (cetcd_raft_step r (zero_msg <| m_type := CETCD_MSG_HUP |> <| m_from := w_node_id w |>)).1 |>
  end.

(** The new server without and with a data directory; [env] and [ch] are the
    storage environment and the watchers' channels at that moment, [quota] is
    the limit that is set.  A node id of 0 leaves raft absent. *)
Definition cetcd_server_new (cfg : cetcd_server_config) (data_dir : bool) (env : E) (ch : gmap Z cetcd_mvcc_watch_notify) (quota : Z)
  : option (world * server_timers) :=
  '(tick_ms, hb, et) ← effective_timing cfg;
  let raft_cfg := mk_config (cfg_node_id cfg) (if et =? 0 then 10 else et) (if hb =? 0 then 1 else hb)
                    (1024 * 1024) 256 true (cetcd_server_want_pre_vote (cfg_pre_vote cfg)) in
  let raft := cetcd_raft_new raft_cfg in
  let raft := if cetcd_server_want_tick_advance (cfg_tick_advance cfg)
              then (fun r => cetcd_raft_advance_ticks r (cetcd_raft_initial_advance_ticks (c_election_tick raft_cfg))) <$> raft
              else raft in
  let w := mk_world env (cetcd_mvcc_store_new env ch) (cetcd_lease_mgr_new env false) cetcd_auth_store_new raft
             (Some (cetcd_cluster_new (cfg_node_id cfg))) no_alarms [] [] 1 CETCD_WATCH_PROGRESS_TICKS_DEFAULT false quota (cfg_node_id cfg)
             (mk_server None [] [] [] 0 false (cfg_snapshot_count cfg) (cfg_snapshot_catchup cfg)) in
  let w := if data_dir then w else maybe_campaign_single_ (blen (cfg_initial_peers cfg)) w in
  let w := if cfg_auth_enabled cfg then w <| w_auth := cetcd_auth_set_enabled (w_auth w) true |> else w in
  let ac_off := mk_auto_compact CETCD_AUTO_COMPACT_OFF 0 0 0 0 0 0 0 in
  let ac :=
    if 0 <? cfg_auto_compaction_retention cfg then
      match cfg_auto_compaction_mode cfg with
      | CETCD_AUTO_COMPACT_OFF => ac_off
      | mode => mk_auto_compact mode (cfg_auto_compaction_retention cfg) 0 0 (cfg_compaction_batch_limit cfg) 0
                  (cfg_compaction_sleep_interval_ms cfg) 0
      end
    else ac_off in
  Some (w, mk_timers tick_ms ac 0 0 None).

(** ** Restoring the state *)

(** [snapshot.kv] and [mark-compacted], read when the store is empty. *)
Definition import_files (w : world) (snapshot mark : option bytes) : world * cetcd_status :=
  if negb (cetcd_mvcc_revision (w_store w) =? 0) then (w, CETCD_OK)
  else
    match snapshot with
    | None => (w, CETCD_OK)
    | Some file =>
        let '(w, irc) := import_snapshot_kv_ w file in
        if negb (is_ok irc) then (w, irc)
        else
          match mark with
          | None => (w, CETCD_OK)
          | Some m =>
              match read_oneline_ m 64 ≫= cetcd_parse_i64 with
              | Some crev => if crev <? 1 then (w, CETCD_ERR_INVAL) else on_store w (fun s => cetcd_mvcc_compact s crev)
              | None => (w, CETCD_ERR_INVAL)
              end
          end
    end.

Definition restore_leases (w : world) : world :=
  let m := cetcd_lease_mgr_set_backend ((w_mgr w) <| m_env := w_env w |>) true in
  let '(m, e, _) := cetcd_lease_load m (w_env w) in
  let m := (cetcd_lease_reindex_from_store (m <| m_env := e |>) (w_store w)).1 in
  (w <| w_mgr := m |>) <| w_env := m_env m |>.

Definition restore_auth (w : world) : world :=
  let '(a, e, _) := cetcd_auth_load (w_auth w) (w_env w) in
  ((w <| w_backend := true |>) <| w_auth := a |>) <| w_env := e |>.

Definition restore_alarms (w : world) : world :=
  let '(e, alarms) := cetcd_v3rpc_alarm_load true (w_env w) in (w <| w_env := e |>) <| w_alarms := alarms |>.

(** The loaded members become raft peers, and a joint phase is taken up. *)
Definition restore_members (w : world) : world :=
  match w_cluster w with
  | None => w
  | Some c =>
      let '(c, e, _) := cetcd_cluster_load (cetcd_cluster_set_backend c true) (w_env w) in
      let w := (w <| w_cluster := Some c |>) <| w_env := e |> in
      match w_raft w with
      | None => w
      | Some r =>
          let r := foldl (fun r pi => (cetcd_raft_add_peer r (p_id pi) (p_is_learner pi)).1) r (c_peers c) in
          let '(jids, jn, jidx) := cetcd_cluster_loaded_joint c 16 in
          w <| w_raft := Some (if (0 <? jn)%nat then (cetcd_raft_restore_joint r jids jidx).1 else r) |>
      end
  end.

Definition drop_member (w : world) (id : Z) : world :=
  match w_cluster w with
  | None => w
  | Some c =>
      let c := (cetcd_cluster_remove_peer c id).1 in
      let w := (w <| w_cluster := Some c |>) <| w_env := (cetcd_cluster_persist_del c (w_env w) id).1 |> in
      on_raft w (fun r => cetcd_raft_remove_peer r id)
  end.

(** At most 64 members are dropped. *)
Definition force_new_cluster_ (w : world) : world * cetcd_status :=
  match w_cluster w with
  | None => (w, CETCD_ERR_INVAL)
  | Some c =>
      let drop := take 64 (List.filter (fun id => negb (id =? w_node_id w)) (p_id <$> c_peers c)) in
      let w := foldl drop_member w drop in
      (match w_cluster w with
       | Some c => w <| w_env := (cetcd_cluster_persist_clear_joint c (w_env w)).1 |>
       | None => w end, CETCD_OK)
  end.

(** The replay of the log file and the commands it holds beyond the applied
    index; the encoder then appends to the file. *)
Definition restore_log (w : world) (wal : bytes) : option world :=
  let '(e, applied) := load_applied_ (sv_backend (w_server w)) (w_env w) in
  let w := w <| w_env := e |> in
  w ← match w_raft w with
      | None => Some w
      | Some r =>
          let rp := replay_wal_ r (sv_last_snap_index (w_server w)) wal in
          let w := (w <| w_raft := Some (cetcd_raft_set_applied (rp_raft rp) applied) |>)
                     <| w_server := (w_server w) <| sv_last_snap_index := rp_snap rp |> |> in
          w ← apply_committed_ w;
          r ← w_raft w;
          Some (w <| w_raft := Some (cetcd_raft_set_applied r (cetcd_raft_committed r)) |>)
      end;
  Some (w <| w_server := (w_server w) <| sv_wal_enc := Some (mk_wal_encoder wal true []) |> |>).

(** ** The corruption check *)

Definition initial_corrupt_check_ (w : world) (file : option bytes) (io : bool) : option bytes * cetcd_status :=
  match cetcd_mvcc_hash_kv (w_store w) 0 with
  | (CETCD_OK, Some hash) => cetcd_backend_hash_verify file io (cetcd_mvcc_revision (w_store w)) hash
  | _ => (file, CETCD_ERR_CORRUPT)
  end.

(** ** Starting *)

Record data_dir : Type := mk_data_dir { dir_wal : bytes; dir_snapshot : option bytes; dir_mark : option bytes }.

(** The part between opening the backend and the listeners; the storage
    environment is the one of [w].  A status other than CETCD_OK ends it. *)
Definition restore_dir (cfg : cetcd_server_config) (w : world) (t : server_timers) (io : bool) (dir : data_dir)
  : option (world * server_timers * cetcd_status) :=
  let w := w <| w_server := (w_server w) <| sv_backend := true |> |> in
  let w := (on_store w cetcd_mvcc_load).1 in
  let '(w, rc) := import_files w (dir_snapshot dir) (dir_mark dir) in
  if negb (is_ok rc) then Some (w, t, rc)
  else
    let w := restore_members (restore_alarms (restore_auth (restore_leases w))) in
    let '(w, rc) := if cfg_force_new_cluster cfg then force_new_cluster_ w else (w, CETCD_OK) in
    if negb (is_ok rc) then Some (w, t, rc)
    else
      w ← restore_log w (dir_wal dir);
      if cfg_initial_corrupt_check cfg then
        let '(file, crc) := initial_corrupt_check_ w (tm_backend_hash t) io in
        Some (w, t <| tm_backend_hash := file |>, crc)
      else Some (w, t, CETCD_OK).

Definition cetcd_server_start (cfg : cetcd_server_config) (w : world) (t : server_timers) (io : bool) (dir : option data_dir)
  : option (world * server_timers * cetcd_status) :=
  '(w, t, rc) ← match dir with Some d => restore_dir cfg w t io d | None => Some (w, t, CETCD_OK) end;
  if negb (is_ok rc) then Some (w, t, rc)
  else
    let initial := match dir with Some _ => if cfg_force_new_cluster cfg then [] else cfg_initial_peers cfg
                   | None => cfg_initial_peers cfg end in
    let w := maybe_campaign_single_ (blen initial) w in
    w ← match w_raft w with Some _ => process_ready_ w | None => Some w end;
    let w := w <| w_mgr := cetcd_lease_mgr_set_expire (w_mgr w) true |> in
    let w := match w_cluster w with
             | Some c => w <| w_cluster := Some (cetcd_cluster_set_sender (foldl (fun c pi => (cetcd_cluster_add_peer c pi).1) c initial) true) |>
             | None => w end in
    Some (w, t, CETCD_OK).

(** ** The timer *)

Section Timer.
  Context (backend_size : E -> Z).

Definition cetcd_server_compact (w : world) (rev : Z) : option (world * cetcd_status) :=
  let cur := cetcd_mvcc_revision (w_store w) in
  let compacted := cetcd_mvcc_compacted_revision (w_store w) in
  if (rev <=? 0) || (cur <? rev) then Some (w, CETCD_ERR_INVAL)
  else if rev <=? compacted then Some (w, CETCD_ERR_RANGE)
  else
    match cetcd_apply_encode_compact rev with
    | None => Some (w, CETCD_ERR_INVAL)
    | Some entry =>
        '(w, rc) ← cetcd_v3rpc_propose_or_apply backend_size process_ready_ w entry;
        Some (w, if rc <? 0 then CETCD_ERR_IO else CETCD_OK)
    end.

Definition maybe_auto_compact_ (w : world) (t : server_timers) (now_ms : Z) : option (world * server_timers) :=
  let off := match ac_mode (tm_ac t) with CETCD_AUTO_COMPACT_OFF => true | _ => false end in
  if off || (ac_retention (tm_ac t) =? 0) || negb (cetcd_server_is_leader w) then Some (w, t)
  else
    let '(ac, target) := cetcd_auto_compact_next (tm_ac t) (cetcd_mvcc_revision (w_store w))
                           (cetcd_mvcc_compacted_revision (w_store w)) now_ms in
    let t := t <| tm_ac := ac |> in
    if 0 <? target then '(w, _) ← cetcd_server_compact w target; Some (w, t) else Some (w, t).

Definition maybe_periodic_corrupt_check_ (cfg : cetcd_server_config) (w : world) (t : server_timers) (io : bool) (now_ms : Z)
  : world * server_timers :=
  if cfg_corrupt_check_interval_sec cfg =? 0 then (w, t)
  else
    let '(last, due) := cetcd_corrupt_check_due (tm_last_corrupt_check_ms t) (cfg_corrupt_check_interval_sec cfg) now_ms in
    let t := t <| tm_last_corrupt_check_ms := last |> in
    if negb due then (w, t)
    else
      let '(file, rc) := initial_corrupt_check_ w (tm_backend_hash t) io in
      let t := t <| tm_backend_hash := file |> in
      match rc with
      | CETCD_ERR_CORRUPT =>
          let '(e, alarms) := cetcd_v3rpc_alarm_activate (w_backend w) (w_env w) (w_alarms w) 2 (w_node_id w) in
          ((w <| w_env := e |>) <| w_alarms := alarms |>, t)
      | _ => (w, t)
      end.

Definition maybe_compact_hash_check_ (cfg : cetcd_server_config) (w : world) (t : server_timers) (now_ms : Z) : world * server_timers :=
  if negb (cetcd_server_want_compact_hash_check (cfg_compact_hash_check cfg)) then (w, t)
  else
    let interval := cetcd_server_compact_hash_check_ms (cfg_compact_hash_check_ms cfg) in
    let '(last, due) := cetcd_compact_hash_check_due (tm_last_compact_hash_check_ms t) interval now_ms in
    let t := t <| tm_last_compact_hash_check_ms := last |> in
    if negb due then (w, t)
    else
      let rev := cetcd_mvcc_compacted_revision (w_store w) in
      if rev <=? 0 then (w, t)
      else
        match cetcd_mvcc_hash_kv (w_store w) rev with
        | (CETCD_OK, Some hash) => (send_compact_hash_ w rev hash, t)
        | _ => (w, t)
        end.

(** The work after raft's tick, common to [raft_tick_cb_] and
    [cetcd_server_tick]; each part reads the clock. *)
Definition periodic_work (cfg : cetcd_server_config) (io : bool) (now_ms : nat -> Z) (w : world) (t : server_timers)
  : option (world * server_timers) :=
  w ← process_ready_ w;
  '(w, t) ← maybe_auto_compact_ w t (now_ms 0%nat);
  let '(w, t) := maybe_periodic_corrupt_check_ cfg w t io (now_ms 1%nat) in
  Some (maybe_compact_hash_check_ cfg w t (now_ms 2%nat)).

Definition cetcd_server_tick (cfg : cetcd_server_config) (io : bool) (now_ms : nat -> Z) (w : world) (t : server_timers)
  : option (world * server_timers) :=
  match w_raft w with
  | None => Some (w, t)
  | Some r => periodic_work cfg io now_ms (w <| w_raft := Some (cetcd_raft_tick r) |>) t
  end.

(** The callback of the running server; the lease manager is called between
    raft's tick and the Ready.  Progress messages of watchers are left out. *)
Definition raft_tick_cb_ (cfg : cetcd_server_config) (io : bool) (now_ms : nat -> Z) (w : world) (t : server_timers)
  : option (world * server_timers) :=
  match w_raft w with
  | None => Some (w, t)
  | Some r =>
      let w := w <| w_raft := Some (cetcd_raft_tick r) |> in
      w ← lease_tick backend_size process_ready_ w (i64 (cetcd_server_tick_ms (tm_tick_ms t)));
      periodic_work cfg io now_ms w t
  end.

End Timer.

End Start.
