(* ===== verification/ServerFrame.v ===== *)
(** * What a command leaves of the log

    A replicated command changes the members raft knows and its joint phase,
    but neither the log, the indexes and the term, nor the queues of the next
    Ready, nor the server's log file and connections. *)

From S2P Require Import Slice Hash KeyOrder Treap Hashmap Raft RaftWire Wal Backend Mvcc Lease CString Auth Cluster ApplyCodec Alarm Recovery Snap Config Apply Server Prelude.

#[local] Open Scope Z_scope.

(** The node without its members. *)
Definition outline (r : cetcd_raft) : cetcd_raft :=
  r <| r_peers := [] |> <| r_peer_learner := [] |> <| r_peers_cap := 0 |> <| r_outgoing := [] |> <| r_joint_index := 0 |>
    <| r_applying_index := 0 |> <| r_leave_pending := false |> <| r_progress := [] |>.

Lemma outline_field {A} (f : cetcd_raft -> A) r r' : (forall x, f (outline x) = f x) -> outline r = outline r' -> f r = f r'.
Proof. intros Hf Ho. by rewrite <- (Hf r), Ho, Hf. Qed.

Lemma add_peer_outline r id l : outline (add_peer_ r id l) = outline r.
Proof. unfold add_peer_. destruct (has_peer_ r id); [done|]. destruct (r_peers_cap r <=? _); by destruct (n_peers r <? MAX_PEERS_)%nat. Qed.

Lemma add_peer_rc_outline r id l : outline (cetcd_raft_add_peer r id l).1 = outline r.
Proof. unfold cetcd_raft_add_peer. destruct (id =? 0); [done|]. destruct (has_peer_ r id); [done|]. apply add_peer_outline. Qed.

Lemma remove_peer_outline r id : outline (cetcd_raft_remove_peer r id).1 = outline r.
Proof. unfold cetcd_raft_remove_peer. destruct (_ || _); [done|]. by destruct (find_peer _ _ _ _). Qed.

Lemma promote_outline r id : outline (cetcd_raft_promote r id).1 = outline r.
Proof.
  unfold cetcd_raft_promote. destruct (id =? 0); [done|]. destruct (find_peer _ _ _ _); [|done].
  by destruct (negb (peer_is_learner_ r _)).
Qed.

Lemma enter_joint_outline r : outline (cetcd_raft_enter_joint r).1 = outline r.
Proof. unfold cetcd_raft_enter_joint. destruct (0 <? _); [done|]. by destruct (_ =? 0). Qed.

Lemma leave_joint_outline r : outline (cetcd_raft_leave_joint r).1 = outline r.
Proof. unfold cetcd_raft_leave_joint. by destruct (_ =? 0). Qed.

Section Frame.
  Context {T : Type -> Type} {E Tx : Type} `{!KeyIndex T, !Lmdb E Tx, !Clock, !AuthLibs}.
  Local Notation world := (world T E).

(** The world keeps the node's outline and the server. *)
Record keeps_log (w w' : world) : Prop := {
  kl_raft : outline <$> w_raft w' = outline <$> w_raft w;
  kl_server : w_server w' = w_server w
}.

#[export] Instance keeps_log_refl : Reflexive keeps_log.
Proof. by split. Qed.

#[export] Instance keeps_log_trans : Transitive keeps_log.
Proof. intros a b c [] []. split; congruence. Qed.

Lemma keeps_ext (w w1 w2 : world) : keeps_log w w1 -> w_raft w2 = w_raft w1 -> w_server w2 = w_server w1 -> keeps_log w w2.
Proof. intros [] ??. split; congruence. Qed.

Lemma keeps_raft (w w' : world) r : keeps_log w w' -> w_raft w = Some r -> exists r', w_raft w' = Some r' /\ outline r' = outline r.
Proof.
  intros [Hk _] Hr. rewrite Hr in Hk. destruct (w_raft w') as [r'|]; [|done]. apply Some_inj in Hk. by exists r'.
Qed.

Lemma on_store_log {A} (w : world) (f : cetcd_mvcc_store T E -> cetcd_mvcc_store T E * A) : keeps_log w (on_store w f).1.
Proof. unfold on_store. by destruct (f _). Qed.

Lemma on_mgr_log {A} (w : world) (f : cetcd_lease_mgr E -> cetcd_lease_mgr E * A) : keeps_log w (on_mgr w f).1.
Proof. unfold on_mgr. by destruct (f _). Qed.

Lemma on_raft_log (w w1 : world) f : keeps_log w w1 -> (forall r, outline (f r).1 = outline r) -> keeps_log w (on_raft w1 f).
Proof.
  intros Hk Hf. etrans; [exact Hk|]. unfold on_raft. destruct (w_raft w1) as [r|] eqn:Hr; [|done].
  split; [|done]. cbn [w_raft field_set]. rewrite Hr. cbn. by rewrite Hf.
Qed.

(** Splits an operation into the calls it makes, noting the frame of each. *)
Local Ltac frames :=
  repeat first
    [ match goal with
      | |- context [on_store ?w ?f] =>
          let H := fresh "Hk" in pose proof (on_store_log w f) as H; destruct (on_store w f) as [??]; cbn [fst snd] in H |- *
      | |- context [on_mgr ?w ?f] =>
          let H := fresh "Hk" in pose proof (on_mgr_log w f) as H; destruct (on_mgr w f) as [??]; cbn [fst snd] in H |- *
      end
    | progress cbn [fst snd]
    | match goal with |- keeps_log _ (if ?b then _ else _).1 => destruct b end
    | match goal with |- keeps_log _ (if ?b then _ else _) => destruct b end
    | match goal with |- keeps_log _ (match ?x with _ => _ end).1 => destruct x end ];
  cbn [fst snd]; try done; try (by etrans; [eassumption|]).

Lemma lease_after_put_log (w : world) key ol nl : keeps_log w (lease_after_put_ w key ol nl).
Proof. unfold lease_after_put_. destruct ((0 <? ol) && _); frames. Qed.

Lemma put_log (w : world) key val l : keeps_log w (apply_put_ w key val l).1.
Proof. unfold apply_put_. frames. etrans; [eassumption|]. apply lease_after_put_log. Qed.

Lemma delete_one_log (w : world) key : keeps_log w (apply_delete_one_ w key).1.
Proof. unfold apply_delete_one_. frames. Qed.

Lemma detach_kvs_log kvs : forall w : world, keeps_log w (foldl detach_kv w kvs).
Proof.
  induction kvs as [|kv kvs IH]; intros w; [done|]. cbn [foldl]. etrans; [|apply IH].
  unfold detach_kv. frames.
Qed.

Lemma delete_range_log (w : world) key e : keeps_log w (apply_delete_range_ w key e).1.
Proof.
  unfold apply_delete_range_. destruct (blen key =? 0); [done|]. destruct (blen e =? 0); [apply delete_one_log|].
  destruct (cetcd_mvcc_range _ _ _ _) as [rc kvs]. frames. etrans; [eassumption|]. apply detach_kvs_log.
Qed.

Lemma lease_revoke_log (w : world) id : keeps_log w (apply_lease_revoke_ w id).1.
Proof. unfold apply_lease_revoke_. destruct (id =? 0); [done|]. destruct (0 <? _); frames. Qed.

Lemma begin_joint_log (w : world) : keeps_log w (begin_voter_joint_ w).1.
Proof.
  unfold begin_voter_joint_. destruct (w_raft w) as [r|] eqn:Hr; [|done].
  pose proof (enter_joint_outline r) as Ho. destruct (cetcd_raft_enter_joint r) as [r1 rc]. cbn [fst] in Ho.
  assert (Hk : keeps_log w (w <| w_raft := Some r1 |>)).
  { split; [|done]. cbn [w_raft field_set]. rewrite Hr. cbn. by rewrite Ho. }
  destruct (negb (rc =? 0)); [done|]. cbn [w_cluster field_set]. destruct (w_cluster w) as [c|]; [|done].
  destruct (cetcd_raft_copy_outgoing r1 16) as [ids n]. destruct (cetcd_cluster_persist_joint _ _ _ _) as [e st].
  destruct (is_ok st); [by apply (keeps_ext _ _ _ Hk)|]. etrans; [exact Hk|]. split; [|done]. cbn [w_raft field_set fst].
  cbn. by rewrite leave_joint_outline.
Qed.

Lemma ensure_joint_log (w : world) v : keeps_log w (ensure_joint w v).1.
Proof. unfold ensure_joint. destruct (v && _); [apply begin_joint_log|done]. Qed.

Lemma member_remove_log (w : world) c id : keeps_log w (apply_member_remove w c id).1.
Proof.
  unfold apply_member_remove. destruct (cetcd_cluster_get_peer c id) as [p|];
    (match goal with |- context [ensure_joint w ?v] => pose proof (ensure_joint_log w v) as Hj; destruct (ensure_joint w v) as [w1 rc] end);
    cbn [fst] in Hj; (destruct (negb (rc =? 0)); [done|]); destruct (cetcd_cluster_persist_del _ _ _) as [e st];
    (destruct (negb (is_ok st)); [by apply (keeps_ext _ _ _ Hj)|]); (apply on_raft_log; [by apply (keeps_ext _ _ _ Hj)|]); intros r; apply remove_peer_outline.
Qed.

Lemma member_promote_log (w : world) c id : keeps_log w (apply_member_promote w c id).1.
Proof.
  unfold apply_member_promote. destruct (cetcd_cluster_get_peer c id) as [p|]; [|done]. destruct (negb (p_is_learner p)); [done|].
  pose proof (ensure_joint_log w true) as Hj. destruct (ensure_joint w true) as [w1 rc]. cbn [fst] in Hj.
  destruct (negb (rc =? 0)); [done|]. destruct (cetcd_cluster_persist_peer _ _ _) as [e st]. destruct (negb (is_ok st)); [by apply (keeps_ext _ _ _ Hj)|].
  destruct (cetcd_cluster_promote c id) as [c1 st1]. destruct (negb (is_ok st1)); [by apply (keeps_ext _ _ _ Hj)|]. 
  apply on_raft_log; [by apply (keeps_ext _ _ _ Hj)|]. intros r. apply promote_outline.
Qed.

Lemma member_update_log (w : world) c info : keeps_log w (apply_member_update w c info).1.
Proof.
  unfold apply_member_update. destruct (cetcd_cluster_persist_peer _ _ _) as [e st]. destruct (negb (is_ok st)); [done|].
  by destruct (cetcd_cluster_update_peer _ _ _).
Qed.

Lemma member_add_log (w : world) c info : keeps_log w (apply_member_add w c info).1.
Proof.
  unfold apply_member_add. pose proof (ensure_joint_log w (negb (p_is_learner info))) as Hj.
  destruct (ensure_joint w _) as [w1 rc]. cbn [fst] in Hj. destruct (negb (rc =? 0)); [done|].
  destruct (cetcd_cluster_persist_peer _ _ _) as [e st]. destruct (negb (is_ok st)); [by apply (keeps_ext _ _ _ Hj)|].
  destruct (cetcd_cluster_add_peer c info) as [c1 st1].
  destruct st1; try (by apply (keeps_ext _ _ _ Hj)); (apply on_raft_log; [by apply (keeps_ext _ _ _ Hj)|]; intros r; apply add_peer_rc_outline).
Qed.

Lemma member_log (w : world) op d : keeps_log w (apply_member_ w op d).1.
Proof.
  unfold apply_member_. destruct (w_cluster w) as [c|]; [|done]. destruct (read_varint_ d) as [[id d1]|]; [|done].
  destruct (id =? 0); [done|]. destruct (op =? _); [apply member_remove_log|]. destruct (op =? _); [apply member_promote_log|].
  destruct (if op =? CETCD_APPLY_MEMBER_ADD then _ else _) as [[lrn d2]|]; [|done].
  destruct (read_varint_ d2) as [[alen d3]|]; [|done]. destruct (blen d3 <? alen); [done|].
  destruct (read_varint_ _) as [[port d4]|]; [|done].
  destruct (op =? CETCD_APPLY_MEMBER_UPDATE); [apply member_update_log|apply member_add_log].
Qed.

Lemma cancel_log c cur ss : forall w : world, keeps_log w (foldl (cancel_step c cur) w ss).
Proof.
  induction ss as [|s ss IH]; intros w; [done|]. cbn [foldl]. etrans; [|apply IH].
  unfold cancel_step. destruct (cancels_watch c s); [|done]. by destruct (sc_sw s).
Qed.

Lemma compact_log (w : world) rev : keeps_log w (apply_compact w rev).1.
Proof.
  unfold apply_compact. frames. etrans; [eassumption|].
  unfold cetcd_v3rpc_watch_cancel_compacted. destruct (_ <=? 0); [done|].
  match goal with |- keeps_log ?w (?w' <| w_streams := _ |>) => assert (Hc : keeps_log w w') by apply cancel_log end.
  by apply (keeps_ext _ _ _ Hc).
Qed.

Lemma lease_grant_log (w : world) id ttl : keeps_log w (apply_lease_grant w id ttl).1.
Proof. unfold apply_lease_grant. frames. Qed.

Lemma lease_keepalive_log (w : world) id ttl : keeps_log w (apply_lease_keepalive w id ttl).1.
Proof. unfold apply_lease_keepalive. frames. Qed.

Lemma alarm_log (w : world) a t m : keeps_log w (apply_alarm w a t m).1.
Proof. unfold apply_alarm. destruct (_ || _); [done|]. by destruct (if a =? 1 then _ else _). Qed.

Lemma auth_done_log (w : world) s : keeps_log w (auth_done w s).1.
Proof. unfold auth_done, cetcd_v3rpc_auth_persist. cbn [fst]. by destruct (w_backend _). Qed.

Lemma auth_result_log (w : world) r : keeps_log w (auth_result w r).1.
Proof. unfold auth_result. destruct r as [s rc]. destruct (is_ok rc); [apply auth_done_log|done]. Qed.

Lemma auth_tolerant_log (w : world) r : keeps_log w (auth_result_tolerant w r).1.
Proof. unfold auth_result_tolerant. destruct r as [s []]; try apply auth_done_log; done. Qed.

Create HintDb logframe.
Hint Resolve put_log delete_one_log delete_range_log lease_revoke_log member_log compact_log lease_grant_log lease_keepalive_log
  alarm_log auth_done_log auth_result_log auth_tolerant_log : logframe.

(** A command that answers, whatever the answer. *)
Definition answers_keep (w : world) (r : option (world * Z)) : Prop := forall w' rc, r = Some (w', rc) -> keeps_log w w'.

Lemma answers_some (w : world) r : keeps_log w r.1 -> answers_keep w (Some r).
Proof. intros Hk w' rc [= ->]. done. Qed.

Local Ltac auth_frame :=
  repeat match goal with
    | |- keeps_log _ (if ?b then _ else _).1 => destruct b
    | |- keeps_log _ (match ?x with Some _ => _ | None => _ end).1 => destruct x
    end; auto with logframe; done.

Lemma user_add_log (w : world) name hash : keeps_log w (apply_user_add w name hash).1.
Proof. unfold apply_user_add. auth_frame. Qed.

Lemma user_delete_log (w : world) name : keeps_log w (apply_user_delete w name).1.
Proof. unfold apply_user_delete. auth_frame. Qed.

Lemma role_delete_log (w : world) name : keeps_log w (apply_role_delete w name).1.
Proof. unfold apply_role_delete. auth_frame. Qed.

Lemma change_pass_log (w : world) name hash : keeps_log w (apply_change_pass w name hash).1.
Proof. unfold apply_change_pass. auth_frame. Qed.

Lemma grant_perm_log (w : world) name key t e : keeps_log w (apply_grant_perm w name key t e).1.
Proof. apply auth_result_log. Qed.

Lemma revoke_perm_log (w : world) name key e : keeps_log w (apply_revoke_perm w name key e).1.
Proof. unfold apply_revoke_perm. auth_frame. Qed.

Lemma auth_enabled_log (w : world) on : keeps_log w (apply_auth_enabled w on).1.
Proof. unfold apply_auth_enabled. auth_frame. Qed.

Lemma role_add_log (w : world) name : answers_keep w (apply_role_add w name).
Proof.
  unfold apply_role_add. destruct (cetcd_auth_get_role _ _); [apply answers_some, auth_done_log|].
  destruct (cetcd_auth_add_role _ _ _ _ _ _); cbn; [apply answers_some, auth_result_log|done].
Qed.

Lemma revoke_role_log (w : world) user role : answers_keep w (apply_revoke_role w user role).
Proof. unfold apply_revoke_role. destruct (cetcd_auth_revoke_role _ _ _); cbn; [apply answers_some, auth_tolerant_log|done]. Qed.

Hint Resolve user_add_log user_delete_log role_delete_log change_pass_log grant_perm_log revoke_perm_log auth_enabled_log
  role_add_log revoke_role_log answers_some : logframe.

Lemma answers_fail (w : world) rc : answers_keep w (ret w rc).
Proof. by apply answers_some. Qed.

(** Splits the parsing steps of a branch. *)
Local Ltac answers :=
  repeat first
    [ apply answers_fail
    | match goal with
      | |- answers_keep _ (match ?x with Some _ => _ | None => _ end) => destruct x as [?|]
      | |- answers_keep _ (let '(_, _) := ?x in _) => destruct x
      | |- answers_keep _ (if ?b then _ else _) => destruct b
      end ].

Lemma keyed_log (w : world) op key d : answers_keep w (apply_keyed w op key d).
Proof. unfold apply_keyed. cbv zeta. answers; auto with logframe. Qed.

Lemma batch_log (f : world -> bytes -> option (world * Z)) n : (forall w d, answers_keep w (f w d)) ->
  forall w d, answers_keep w (apply_batch f n w d).
Proof.
  intros Hf. induction n as [|n IH]; intros w d; cbn [apply_batch]; [apply answers_fail|].
  destruct (read_varint_ d) as [[ilen d1]|]; [|apply answers_fail]. destruct (ilen =? 0); [apply answers_fail|].
  destruct (take_bytes ilen d1) as [[item d2]|]; [|apply answers_fail]. destruct (_ =? _); [apply answers_fail|].
  intros w' rc. destruct (f w item) as [[w1 rc1]|] eqn:Hf1; cbn [mbind option_bind]; [|done].
  apply Hf in Hf1. destruct (negb (rc1 =? 0)); [by intros [= <- <-]|]. intros Hb. etrans; [exact Hf1|]. by eapply IH.
Qed.

Lemma inner_log (f : world -> bytes -> option (world * Z)) (w : world) d : (forall w d, answers_keep w (f w d)) ->
  answers_keep w (apply_entry_inner_ f w d).
Proof.
  intros Hf. unfold apply_entry_inner_. cbv zeta. destruct d as [|op d]; [apply answers_fail|].
  destruct (op =? CETCD_APPLY_LEAVE_JOINT).
  { apply answers_some. cbn [fst].
    assert (Hl : keeps_log w (on_raft w cetcd_raft_leave_joint)) by (apply on_raft_log; [done|apply leave_joint_outline]).
    destruct (w_cluster _); [|exact Hl]. by apply (keeps_ext _ _ _ Hl). }
  answers; auto using batch_log, keyed_log with logframe.
Qed.

(** A command keeps the log and the server. *)
Lemma apply_entry_log (w w' : world) d rc : cetcd_v3rpc_apply_entry w d = Some (w', rc) -> keeps_log w w'.
Proof. apply inner_log. intros w1 d1. apply inner_log. intros w2 d2. apply answers_fail. Qed.

End Frame.
