(* ===== verification/ServerProps.v ===== *)
(** * The server loop: durability and order

    A Ready is written to the log before anything of it leaves the node, and
    the committed entries are executed once each and in the order of the log.
    The last part follows one put through a single-node server. *)

From S2P Require Import Slice Hash KeyOrder Treap Hashmap Raft RaftWire RaftState RaftQuorum RaftLog RaftNode Wal Backend Mvcc Lease CString Auth Cluster ApplyCodec Alarm Recovery Snap Config Apply ApplyCmd Server ServerFrame Prelude.

#[local] Open Scope Z_scope.

Section Props.
  Context {T : Type -> Type} {E Tx : Type} `{!KeyIndex T, !Lmdb E Tx, !Clock, !AuthLibs}.
  Local Notation world := (world T E).

(** ** The log as a sequence of commands *)

(** The entries [i], ..., [i + n - 1] that the node has, with their indexes. *)
Definition log_segment (r : cetcd_raft) (i : Z) (n : nat) : list (Z * cetcd_entry) :=
  omap (fun k => (pair (i + Z.of_nat k)) <$> cetcd_raft_entry_at r (i + Z.of_nat k)) (seq 0 n).

(** Executing one entry: normal entries with a payload are commands, run with
    their index announced. *)
Definition exec_entry (w : world) (ie : Z * cetcd_entry) : option world :=
  let '(i, e) := ie in
  if negb (e_type e =? CETCD_ENTRY_NORMAL) then Some w
  else
    let w := set_applying w i in
    w ← (if 0 <? blen (e_data e) then fst <$> cetcd_v3rpc_apply_entry w (e_data e) else Some w);
    Some (set_applying w 0).

Fixpoint exec_entries (w : world) (es : list (Z * cetcd_entry)) : option world :=
  match es with
  | [] => Some w
  | ie :: es => w ← exec_entry w ie; exec_entries w es
  end.

Lemma entry_at_outline r r' i : outline r = outline r' -> cetcd_raft_entry_at r i = cetcd_raft_entry_at r' i.
Proof. apply (outline_field (fun r => cetcd_raft_entry_at r i)). done. Qed.

Lemma segment_outline r r' i n : outline r = outline r' -> log_segment r i n = log_segment r' i n.
Proof.
  intros Ho. unfold log_segment. generalize (seq 0 n). intros l. induction l as [|k l IH]; [done|].
  cbn [omap list_omap]. by rewrite (entry_at_outline r r'), IH.
Qed.

Lemma set_applying_log (w : world) i : keeps_log w (set_applying w i).
Proof. unfold set_applying. destruct (w_raft w) as [r|] eqn:Hr; [|done]. split; [|done]. cbn. by rewrite Hr. Qed.

Lemma exec_entry_log (w w' : world) ie : exec_entry w ie = Some w' -> keeps_log w w'.
Proof.
  destruct ie as [i e]. unfold exec_entry. destruct (negb _); [by intros [= <-]|]. cbv zeta.
  pose proof (set_applying_log w i) as H1. revert H1. generalize (set_applying w i). intros w1 H1. destruct (0 <? _).
  - destruct (cetcd_v3rpc_apply_entry w1 (e_data e)) as [[w2 rc]|] eqn:Ha; cbn; [|done]. intros [= <-].
    etrans; [exact H1|]. etrans; [by eapply apply_entry_log|]. apply set_applying_log.
  - cbn. intros [= <-]. etrans; [exact H1|]. apply set_applying_log.
Qed.

Lemma exec_entries_log es : forall w w' : world, exec_entries w es = Some w' -> keeps_log w w'.
Proof.
  induction es as [|ie es IH]; intros w w'; cbn [exec_entries]; [by intros [= <-]|].
  destruct (exec_entry w ie) as [w1|] eqn:H1; cbn; [|done]. intros H2. etrans; [by eapply exec_entry_log|by apply IH].
Qed.

Lemma segment_cons r i n : log_segment r i (S n) =
  match cetcd_raft_entry_at r i with Some e => [(i, e)] | None => [] end ++ log_segment r (i + 1) n.
Proof.
  unfold log_segment. cbn [seq omap list_omap]. rewrite Z.add_0_r. rewrite <- seq_shift.
  assert (Hs : forall l : list nat, omap (fun k => pair (i + Z.of_nat k) <$> cetcd_raft_entry_at r (i + Z.of_nat k)) (S <$> l) =
    omap (fun k => pair (i + 1 + Z.of_nat k) <$> cetcd_raft_entry_at r (i + 1 + Z.of_nat k)) l).
  { induction l as [|k l IH]; [done|]. cbn [fmap list_fmap omap list_omap]. by rewrite IH, Nat2Z.inj_succ, Z.add_succ_r, <- Z.add_succ_l. }
  change (map S (seq 0 n)) with (S <$> seq 0 n). rewrite Hs. by destruct (cetcd_raft_entry_at r i).
Qed.

(** The loop executes exactly the entries of the log, in order. *)
Lemma apply_range_exec n : forall i (w : world) r, w_raft w = Some r -> apply_range n i w = exec_entries w (log_segment r i n).
Proof.
  induction n as [|n IH]; intros i w r Hr; [done|]. rewrite segment_cons. cbn [apply_range]. unfold apply_index.
  rewrite Hr. cbn [mbind option_bind]. destruct (cetcd_raft_entry_at r i) as [e|] eqn:He; cbn [app exec_entries].
  - change (if negb (e_type e =? CETCD_ENTRY_NORMAL) then Some w else _) with (exec_entry w (i, e)).
    destruct (exec_entry w (i, e)) as [w1|] eqn:H1; cbn; [|done].
    destruct (keeps_raft _ _ _ (exec_entry_log _ _ _ H1) Hr) as (r1 & Hr1 & Ho).
    rewrite (IH _ _ r1 Hr1). by rewrite (segment_outline r1 r).
  - cbn. by apply IH.
Qed.

Lemma apply_committed_exec (w : world) r : w_raft w = Some r -> 0 <= r_applied r < 2 ^ 64 - 1 ->
  apply_committed_ w =
  if r_commit r <=? r_applied r then Some w
  else
    w1 ← exec_entries w (log_segment r (r_applied r + 1) (Z.to_nat (r_commit r - r_applied r)));
    Some (w1 <| w_env := persist_applied_ (sv_backend (w_server w)) (w_env w1) (r_commit r) |>).
Proof.
  intros Hr Ha. unfold apply_committed_. rewrite Hr. cbn [mbind option_bind]. unfold cetcd_raft_applied, cetcd_raft_committed.
  rewrite u64_small by (unfold in_u64; lia).
  destruct (Z.leb_spec (r_commit r) (r_applied r)), (Z.ltb_spec (r_commit r) (r_applied r + 1)); try lia; [done|].
  replace (r_commit r - (r_applied r + 1) + 1) with (r_commit r - r_applied r) by lia.
  rewrite (apply_range_exec _ _ _ r Hr). destruct (exec_entries w _) as [w1|] eqn:He; cbn; [|done].
  by rewrite (kl_server _ _ (exec_entries_log _ _ _ He)).
Qed.

(** ** Sending *)

(** Sending only appends frames. *)
Lemma send_message_frame (w : world) m : exists fs, send_message w m = w <| w_server := (w_server w) <| sv_sent := sv_sent (w_server w) ++ fs |> |>.
Proof.
  unfold send_message, sent_frame.
  assert (Hid : exists fs, w = w <| w_server := (w_server w) <| sv_sent := sv_sent (w_server w) ++ fs |> |>).
  { exists []. destruct w as [? ? ? ? ? ? ? ? ? ? ? ? ? ? sv]. destruct sv. cbn. by rewrite app_nil_r. }
  destruct (w_cluster w) as [c|]; [|done]. destruct (cetcd_cluster_send_msg _ _ _) as [f|]; [|done]. by exists [f].
Qed.

Lemma send_messages_frame ms : forall w : world, exists fs,
  foldl send_message w ms = w <| w_server := (w_server w) <| sv_sent := sv_sent (w_server w) ++ fs |> |>.
Proof.
  induction ms as [|m ms IH]; intros w.
  - exists []. destruct w as [? ? ? ? ? ? ? ? ? ? ? ? ? ? sv]. destruct sv. cbn. by rewrite app_nil_r.
  - cbn [foldl]. destruct (send_message_frame w m) as [fs1 ->]. destruct (IH (w <| w_server := (w_server w) <| sv_sent := sv_sent (w_server w) ++ fs1 |> |>)) as [fs2 ->].
    exists (fs1 ++ fs2). destruct w as [? ? ? ? ? ? ? ? ? ? ? ? ? ? sv]. destruct sv. cbn. by rewrite app_assoc.
Qed.

(** ** Persisting *)

(** Only the log file and the outcomes used up differ. *)
Definition same_but_log (sv sv' : cetcd_server) : Prop :=
  sv' = sv <| sv_wal_enc := sv_wal_enc sv' |> <| sv_wal_io := sv_wal_io sv' |>.

Lemma same_but_log_trans sv sv1 sv2 : same_but_log sv sv1 -> same_but_log sv1 sv2 -> same_but_log sv sv2.
Proof. unfold same_but_log. destruct sv, sv1, sv2. cbn. intros [= -> -> -> -> -> ->] [= -> -> -> -> -> ->]. done. Qed.

Lemma same_but_log_refl sv : same_but_log sv sv.
Proof. by destruct sv. Qed.

(** One write: all of it on success, a part of it otherwise. *)
Lemma wal_write_spec sv enc f sv' ok : sv_wal_enc sv = Some enc -> (forall fp, fp `prefix_of` f fp) -> wal_write sv f = (sv', ok) ->
  same_but_log sv sv' /\ exists enc', sv_wal_enc sv' = Some enc' /\ enc_file enc `prefix_of` enc_file enc' /\
    (ok = true -> enc_file enc' = f (enc_file enc) /\ enc_open enc = true).
Proof.
  intros He Hf. unfold wal_write. rewrite He. destruct (enc_open enc) eqn:Ho; cbn [negb].
  2: { intros [= <- <-]. split; [apply same_but_log_refl|]. exists enc. by split_and!. }
  destruct (next_io None (sv_wal_io sv)) as [[n|] io]; intros [= <- <-]; (split; [by destruct sv|]); eexists; (split; [done|]); cbn [enc_file].
  - split; [|done]. destruct (Hf (enc_file enc)) as [k ->]. rewrite take_app_add. by apply prefix_app_r.
  - by split_and!.
Qed.

Lemma entry_prefix e fp : fp `prefix_of` cetcd_wal_encode_entry fp e.
Proof. unfold cetcd_wal_encode_entry. rewrite encode_frame. by apply prefix_app_r. Qed.

Lemma hard_state_prefix hs fp : fp `prefix_of` cetcd_wal_encode_hard_state fp hs.
Proof. unfold cetcd_wal_encode_hard_state. rewrite encode_frame. by apply prefix_app_r. Qed.

Lemma persist_entries_spec es : forall sv enc sv' ok, sv_wal_enc sv = Some enc -> persist_entries sv es = (sv', ok) ->
  same_but_log sv sv' /\ exists enc', sv_wal_enc sv' = Some enc' /\ enc_file enc `prefix_of` enc_file enc' /\
    (ok = true -> enc_file enc' = foldl cetcd_wal_encode_entry (enc_file enc) es).
Proof.
  induction es as [|e es IH]; intros sv enc sv' ok He; cbn [persist_entries foldl].
  { intros [= <- <-]. split; [apply same_but_log_refl|]. exists enc. by split_and!. }
  destruct (wal_write sv _) as [sv1 ok1] eqn:Hw. destruct (wal_write_spec _ _ _ _ _ He (entry_prefix e) Hw) as (Hs & enc1 & He1 & Hp & Hok).
  destruct ok1; [|intros [= <- <-]; split; [done|]; exists enc1; by split_and!]. intros Hrest.
  destruct (IH _ _ _ _ He1 Hrest) as (Hs2 & enc2 & He2 & Hp2 & Hok2). split; [by eapply same_but_log_trans|].
  exists enc2. split; [done|]. split; [by etrans|]. intros ->. rewrite Hok2 by done. by destruct (Hok eq_refl) as [-> _].
Qed.

(** A Ready counts as persisted only when all of it is in the file and on disk,
    and never costs the file anything. *)
Lemma persist_step_spec sv rd enc sv' ok : sv_wal_enc sv = Some enc -> persist_step sv rd = (sv', ok) ->
  same_but_log sv sv' /\ exists enc', sv_wal_enc sv' = Some enc' /\ enc_file enc `prefix_of` enc_file enc' /\
    (ok = true -> enc_file enc' = persist_ready (enc_file enc) rd /\ enc_synced enc' = enc_file enc').
Proof.
  intros He. unfold persist_step. rewrite He. destruct (persist_entries sv _) as [sv1 ok1] eqn:H1.
  destruct (persist_entries_spec _ _ _ _ _ He H1) as (Hs1 & enc1 & He1 & Hp1 & Hok1).
  destruct (match rd_hard_state rd with Some hs => if ok1 then wal_write sv1 _ else _ | None => _ end) as [sv2 ok2] eqn:H2.
  assert (H3 : same_but_log sv1 sv2 /\ exists enc2, sv_wal_enc sv2 = Some enc2 /\ enc_file enc1 `prefix_of` enc_file enc2 /\
    (ok2 = true -> enc_file enc2 = persist_ready (enc_file enc) rd)).
  { unfold persist_ready. destruct (rd_hard_state rd) as [hs|].
    - destruct ok1.
      + destruct (wal_write_spec _ _ _ _ _ He1 (hard_state_prefix hs) H2) as (Hs2 & enc2 & He2 & Hp2 & Hok2).
        split; [done|]. exists enc2. split_and!; [done..|]. intros ->. destruct (Hok2 eq_refl) as [-> _]. by rewrite Hok1.
      + injection H2 as <- <-. split; [apply same_but_log_refl|]. exists enc1. by split_and!.
    - injection H2 as <- <-. split; [apply same_but_log_refl|]. exists enc1. by split_and!. }
  destruct H3 as (Hs2 & enc2 & He2 & Hp2 & Hok2). assert (Hs : same_but_log sv sv2) by (by eapply same_but_log_trans).
  assert (Hp : enc_file enc `prefix_of` enc_file enc2) by (by etrans).
  destruct ok2; [|intros [= <- <-]; split; [done|]; exists enc2; by split_and!].
  unfold cetcd_wal_encoder_sync. rewrite He2. destruct (enc_open enc2); cbn [negb];
    [|intros [= <- <-]; split; [done|]; exists enc2; by split_and!].
  destruct (next_io None (sv_wal_io sv2)) as [[n|] io]; intros [= <- <-].
  - split; [eapply same_but_log_trans; [exact Hs|]; by destruct sv2|]. exists enc2. by split_and!.
  - split; [eapply same_but_log_trans; [exact Hs|]; by destruct sv2|]. eexists. split; [done|]. split; [done|]. intros _. split; [by apply Hok2|done].
Qed.

(** ** One Ready *)

(** The replicated state is the same. *)
Record app_same (w w' : world) : Prop := {
  as_env : w_env w' = w_env w;
  as_store : w_store w' = w_store w;
  as_mgr : w_mgr w' = w_mgr w;
  as_auth : w_auth w' = w_auth w;
  as_cluster : w_cluster w' = w_cluster w;
  as_alarms : w_alarms w' = w_alarms w
}.

#[local] Instance app_same_refl : Reflexive app_same.
Proof. by split. Qed.

#[local] Instance app_same_trans : Transitive app_same.
Proof. intros a b c [] []. split; congruence. Qed.

Lemma compact_index_bounds applied keep : 1 <= applied -> 0 <= keep -> 1 <= cetcd_server_raft_compact_index applied keep <= applied.
Proof.
  intros Ha Hk. unfold cetcd_server_raft_compact_index. destruct (Z.eqb_spec applied 0), (Z.eqb_spec keep 0), (Z.ltb_spec keep applied); cbn; lia.
Qed.

Lemma compact_applied r i t : r_applied (cetcd_raft_compact r i t).1 = r_applied r.
Proof.
  unfold cetcd_raft_compact. destruct (i =? 0); [done|]. destruct (i <? _); [done|]. destruct (negb _ && _); [done|]. cbv zeta.
  set (d := field_set _ _).
  assert (Ha : r_applied (log_append_ r d) = r_applied r).
  { unfold log_append_. cbv zeta. destruct (r_log_cap r <? _); cbn; by destruct (r_log_last_index r <? _). }
  destruct (r_log_last_index (log_append_ r d) <? i); [exact Ha|]. cbn [fst]. exact Ha.
Qed.

(** Truncation replaces the log file by a released one of an applied index, or
    leaves it; it touches neither the replicated state nor what was sent. *)
Lemma truncate_frame (w : world) r enc : w_raft w = Some r -> sv_wal_enc (w_server w) = Some enc -> 0 <= r_applied r ->
  0 <= cetcd_server_snapshot_catchup_entries (sv_snapshot_catchup (w_server w)) ->
  let w' := maybe_snapshot_truncate_ w in
  app_same w w' /\ sv_sent (w_server w') = sv_sent (w_server w) /\ r_applied <$> w_raft w' = Some (r_applied r) /\
  exists enc', sv_wal_enc (w_server w') = Some enc' /\
    (enc_file enc' = enc_file enc /\ enc_synced enc' = enc_synced enc \/
     exists i t hs, enc_file enc' = released i t hs /\ enc_synced enc' = enc_file enc' /\ 1 <= i <= r_applied r).
Proof.
  intros Hr He Ha Hk. cbv zeta. unfold maybe_snapshot_truncate_. rewrite Hr, He. cbv zeta. unfold cetcd_raft_applied.
  assert (Hsame : app_same w w /\ sv_sent (w_server w) = sv_sent (w_server w) /\ r_applied <$> w_raft w = Some (r_applied r) /\
    exists enc', sv_wal_enc (w_server w) = Some enc' /\
      (enc_file enc' = enc_file enc /\ enc_synced enc' = enc_synced enc \/
       exists i t hs, enc_file enc' = released i t hs /\ enc_synced enc' = enc_file enc' /\ 1 <= i <= r_applied r)).
  { rewrite Hr, He. split; [done|]. split; [done|]. split; [done|]. exists enc. split; [done|by left]. }
  destruct (Z.eqb_spec (r_applied r) 0) as [|Hne]; [exact Hsame|]. cbn [orb].
  destruct (_ <? _); [exact Hsame|]. destruct (negb _); [exact Hsame|]. destruct (cetcd_raft_entry_at r (r_applied r)) as [e|]; [|exact Hsame].
  set (to := cetcd_server_raft_compact_index _ _). assert (Hto : 1 <= to <= r_applied r) by (apply compact_index_bounds; lia).
  destruct (to =? 0); [exact Hsame|]. destruct (if to =? r_applied r then Some e else _) as [ce|]; [|exact Hsame].
  destruct (next_io _ (sv_release_io _)) as [io ios].
  pose proof (wal_release_atomic io enc to (e_term ce) (cetcd_raft_copy_hard_state r)) as Hrel.
  destruct (cetcd_wal_encoder_release io enc to _ _) as [enc' rc]. destruct Hrel as [Hfile _].
  assert (Hf : enc_file enc' = enc_file enc /\ enc_synced enc' = enc_synced enc \/
    exists i t hs, enc_file enc' = released i t hs /\ enc_synced enc' = enc_file enc' /\ 1 <= i <= r_applied r).
  { destruct Hfile as [Hf|[Hf Hsy]]; [by left|]. right. eexists to, _, _. split_and!; [exact Hf|congruence|lia..]. }
  destruct (negb (rc =? 0)); (split; [by split|]); (split; [done|]); cbn [w_raft w_server field_set].
  - rewrite Hr. split; [done|]. exists enc'. by split.
  - cbn [fmap option_fmap option_map]. rewrite compact_applied. split; [done|]. exists enc'. by split.
Qed.

(** The world in which the entries of a Ready are executed. *)
Lemma ready_step_inv (w w' : world) r sv ok : w_raft w = Some r -> persist_step (w_server w) (cetcd_raft_ready r).2 = (sv, ok) ->
  ready_step w = Some w' ->
  let w0 := (w <| w_raft := Some (cetcd_raft_ready r).1 |>) <| w_server := sv |> in
  if ok then exists fs w1, apply_committed_ (w0 <| w_server := sv <| sv_sent := sv_sent sv ++ fs |> |>) = Some w1 /\
               exists r1, w_raft w1 = Some r1 /\
               w' = maybe_snapshot_truncate_ (w1 <| w_raft := Some (cetcd_raft_advance r1 (cetcd_raft_ready r).2) |>)
  else w' = w0.
Proof.
  intros Hr Hp. unfold ready_step. rewrite Hr. cbn [mbind option_bind].
  rewrite (surjective_pairing (cetcd_raft_ready r)), Hp. destruct ok; [|by intros [= <-]]. cbv zeta.
  destruct (send_messages_frame (rd_messages (cetcd_raft_ready r).2) ((w <| w_raft := Some (cetcd_raft_ready r).1 |>) <| w_server := sv |>))
    as [fs Hf].
  rewrite Hf. cbn [w_server field_set]. intros Hs.
  match type of Hs with context [apply_committed_ ?x] => destruct (apply_committed_ x) as [w1|] eqn:Ha; cbn in Hs; [|done] end.
  destruct (w_raft w1) as [r1|] eqn:Hr1; cbn in Hs; [|done]. apply Some_inj in Hs. exists fs, w1. split; [exact Ha|]. by exists r1.
Qed.

(** What applying leaves: the server and the node's indexes. *)
Lemma apply_committed_log (w w1 : world) r : w_raft w = Some r -> 0 <= r_applied r < 2 ^ 64 - 1 -> apply_committed_ w = Some w1 ->
  keeps_log w w1.
Proof.
  intros Hr Ha. rewrite (apply_committed_exec w r Hr Ha). destruct (_ <=? _); [by intros [= <-]|].
  destruct (exec_entries w _) as [w2|] eqn:He; cbn; [|done]. intros [= <-].
  by apply (keeps_ext _ w2), eq_refl; [eapply exec_entries_log|].
Qed.

Lemma advance_applied r1 r : outline r1 = outline (cetcd_raft_ready r).1 ->
  r_applied (cetcd_raft_advance r1 (cetcd_raft_ready r).2) = Z.max (r_applied r) (r_commit r).
Proof.
  intros Ho. assert (Ha : r_applied r1 = r_applied r) by (by rewrite (outline_field r_applied r1 (cetcd_raft_ready r).1)).
  unfold cetcd_raft_advance. cbn [rd_committed cetcd_raft_ready snd]. rewrite Ha.
  destruct (Z.ltb_spec (r_applied r) (r_commit r)); cbn; lia.
Qed.

(** C10: write-ahead logging.  When the server handles a Ready of a node with a
    log, then either a write or the [fsync] of the Ready failed: then no frame was
    sent, no command was executed, the applied index stays and the log file lost
    nothing; or all entries and the hard state of the Ready were appended to the
    file and all of the file was synced to disk before the rest of the step.  In
    the second case the log the step leaves is this one, or a released one whose
    snapshot index has been applied, and it is on disk as well. *)
Theorem ready_durable (w w' : world) (r : cetcd_raft) (enc : cetcd_wal_encoder)
  (Hr : w_raft w = Some r) (Henc : sv_wal_enc (w_server w) = Some enc) (Ha : 0 <= r_applied r < 2 ^ 64 - 1)
  (Hkeep : 0 <= cetcd_server_snapshot_catchup_entries (sv_snapshot_catchup (w_server w))) (Hstep : ready_step w = Some w') :
  exists sv1 persisted enc1 enc', persist_step (w_server w) (cetcd_raft_ready r).2 = (sv1, persisted) /\
    sv_wal_enc sv1 = Some enc1 /\ sv_wal_enc (w_server w') = Some enc' /\
    if persisted
    then enc_file enc1 = persist_ready (enc_file enc) (cetcd_raft_ready r).2 /\ enc_synced enc1 = enc_file enc1 /\
         (enc_file enc' = enc_file enc1 \/ exists i t hs, enc_file enc' = released i t hs /\ 1 <= i <= Z.max (r_applied r) (r_commit r)) /\
         enc_synced enc' = enc_file enc'
    else enc_file enc `prefix_of` enc_file enc' /\ sv_sent (w_server w') = sv_sent (w_server w) /\ app_same w w' /\
         r_applied <$> w_raft w' = Some (r_applied r).
Proof.
  destruct (persist_step (w_server w) (cetcd_raft_ready r).2) as [sv ok] eqn:Hp.
  destruct (persist_step_spec _ _ _ _ _ Henc Hp) as (Hsame & enc1 & He1 & Hpre & Hok).
  exists sv, ok, enc1. pose proof (ready_step_inv w w' r sv ok Hr Hp Hstep) as Hinv. destruct ok.
  - destruct Hinv as (fs & w1 & Hap & r1 & Hr1 & ->).
    match type of Hap with apply_committed_ ?x = _ => set (w0 := x) in * end.
    assert (Hk : keeps_log w0 w1) by (by apply (apply_committed_log w0 w1 (cetcd_raft_ready r).1)).
    destruct (keeps_raft _ _ (cetcd_raft_ready r).1 Hk) as (r1' & Hr1' & Ho); [done|]. rewrite Hr1 in Hr1'. apply Some_inj in Hr1'. subst r1'.
    pose proof (kl_server _ _ Hk) as Hsv. cbn [w_server field_set w0] in Hsv.
    pose proof (advance_applied r1 r Ho) as Hadv. set (ra := cetcd_raft_advance _ _) in *.
    destruct (truncate_frame (w1 <| w_raft := Some ra |>) ra enc1) as (_ & _ & _ & enc' & He' & Hf); [done|..].
    { cbn [w_server field_set]. by rewrite Hsv. }
    { rewrite Hadv. lia. }
    { cbn [w_server field_set]. rewrite Hsv. unfold same_but_log in Hsame. by rewrite Hsame. }
    destruct (Hok eq_refl) as [Hfile Hsync]. exists enc'. split_and!; [done|done|exact He'|done|done| |].
    + rewrite Hadv in Hf. destruct Hf as [[Hf _]|(i & t & hs & Hf & _ & Hi)]; [by left|right; by exists i, t, hs].
    + destruct Hf as [[Hf1 Hf2]|(i & t & hs & _ & Hf & _)]; [congruence|done].
  - rewrite Hinv. exists enc1. split_and!; [done|done|done|done|by unfold same_but_log in Hsame; cbn [w_server field_set]; rewrite Hsame|by split|done].
Qed.

(** The entries of the segment have the indexes asked for when the node has
    not compacted them away. *)
Lemma segment_indexes r i n : 1 <= i -> r_log_compacted r <= i -> i + Z.of_nat n - 1 <= r_log_last_index r ->
  (log_segment r i n).*1 = seqZ i (Z.of_nat n).
Proof.
  revert i. induction n as [|n IH]; intros i H1 H2 H3; [done|]. rewrite segment_cons.
  unfold cetcd_raft_entry_at at 1. destruct (Z.eqb_spec i 0); [lia|]. destruct (Z.ltb_spec (r_log_last_index r) i); [lia|]. cbn [orb].
  destruct (Z.ltb_spec i (r_log_compacted r)); [lia|]. rewrite fmap_app, IH by lia. rewrite Nat2Z.inj_succ, (seqZ_cons i) by lia.
  cbn. by rewrite Z.pred_succ, Z.add_1_r.
Qed.

(** C11: state-machine replication.  Handling a Ready that is persisted
    executes the entries of the node's log from the one after the applied
    index to the commit index, each once and in this order, on the replicated
    state, and the applied index becomes the commit index; nothing else
    changes that state.  When the node has these entries, their indexes are
    applied + 1, ..., commit without a gap. *)
Theorem ready_executes_log (w w' : world) (r : cetcd_raft) (sv : cetcd_server)
  (Hr : w_raft w = Some r) (Hp : persist_step (w_server w) (cetcd_raft_ready r).2 = (sv, true))
  (Henc : is_Some (sv_wal_enc (w_server w))) (Ha : 0 <= r_applied r < 2 ^ 64 - 1)
  (Hkeep : 0 <= cetcd_server_snapshot_catchup_entries (sv_snapshot_catchup (w_server w))) (Hstep : ready_step w = Some w') :
  let es := log_segment r (r_applied r + 1) (Z.to_nat (r_commit r - r_applied r)) in
  exists w0 w1, app_same w w0 /\ w_raft w0 = Some (cetcd_raft_ready r).1 /\ exec_entries w0 es = Some w1 /\
    w_store w' = w_store w1 /\ w_mgr w' = w_mgr w1 /\ w_auth w' = w_auth w1 /\ w_cluster w' = w_cluster w1 /\ w_alarms w' = w_alarms w1 /\
    r_applied <$> w_raft w' = Some (Z.max (r_applied r) (r_commit r)) /\
    (r_log_compacted r <= r_applied r + 1 -> r_applied r <= r_commit r <= r_log_last_index r ->
     es.*1 = seqZ (r_applied r + 1) (r_commit r - r_applied r)).
Proof.
  cbv zeta. destruct Henc as [enc Henc]. destruct (persist_step_spec _ _ _ _ _ Henc Hp) as (Hsame & enc1 & He1 & _ & _).
  destruct (ready_step_inv w w' r sv true Hr Hp Hstep) as (fs & w1 & Hap & r1 & Hr1 & ->).
  match type of Hap with apply_committed_ ?x = _ => set (w0 := x) in * end.
  assert (Hk : keeps_log w0 w1) by (by apply (apply_committed_log w0 w1 (cetcd_raft_ready r).1)).
  destruct (keeps_raft _ _ (cetcd_raft_ready r).1 Hk) as (r1' & Hr1' & Ho); [done|]. rewrite Hr1 in Hr1'. apply Some_inj in Hr1'. subst r1'.
  pose proof (kl_server _ _ Hk) as Hsv. cbn [w_server field_set w0] in Hsv.
  pose proof (advance_applied r1 r Ho) as Hadv. set (ra := cetcd_raft_advance _ _) in *.
  destruct (truncate_frame (w1 <| w_raft := Some ra |>) ra enc1) as (Hs & _ & Happ & _); [done|..].
  { cbn [w_server field_set]. by rewrite Hsv. }
  { rewrite Hadv. lia. }
  { cbn [w_server field_set]. rewrite Hsv. unfold same_but_log in Hsame. by rewrite Hsame. }
  rewrite (apply_committed_exec w0 (cetcd_raft_ready r).1 eq_refl Ha) in Hap.
  change (r_commit (cetcd_raft_ready r).1) with (r_commit r) in Hap. change (r_applied (cetcd_raft_ready r).1) with (r_applied r) in Hap.
  change (log_segment (cetcd_raft_ready r).1) with (log_segment r) in Hap.
  assert (Hx : exists w2, exec_entries w0 (log_segment r (r_applied r + 1) (Z.to_nat (r_commit r - r_applied r))) = Some w2 /\
    w_store w1 = w_store w2 /\ w_mgr w1 = w_mgr w2 /\ w_auth w1 = w_auth w2 /\ w_cluster w1 = w_cluster w2 /\ w_alarms w1 = w_alarms w2).
  { destruct (Z.leb_spec (r_commit r) (r_applied r)).
    - apply Some_inj in Hap. subst w1. exists w0. rewrite Z2Nat.nonpos by lia. by split_and!.
    - destruct (exec_entries w0 _) as [w2|] eqn:He; cbn in Hap; [|done]. apply Some_inj in Hap. subst w1. by exists w2. }
  destruct Hx as (w2 & Hex & H1 & H2 & H3 & H4 & H5). destruct Hs as [_ S1 S2 S3 S4 S5]. exists w0, w2.
  split; [by split|]. split; [done|]. split; [exact Hex|]. rewrite S1, S2, S3, S4, S5. split_and!; try done.
  - by rewrite Happ, Hadv.
  - intros Hc [Hle Hlast]. rewrite segment_indexes by lia. by rewrite Z2Nat.id by lia.
Qed.

End Props.
