(* ===== verification/ServerPut.v ===== *)
(** * One put through a single-node server

    From the proposal through the log and the Ready to the store and the
    answer of the RPC layer. *)

From S2P Require Import Slice Hash KeyOrder Treap Hashmap Raft RaftWire RaftState RaftQuorum RaftLog RaftNode Wal Backend Mvcc MvccSnap MvccStore Lease CString Auth Cluster ApplyCodec Alarm Recovery Snap Config Apply ApplyCmd ApplyInv Kv KvProps Server ServerFrame ServerProps Prelude.

#[local] Open Scope Z_scope.

(** The node after the entry is stored, before it is queued. *)
Lemma sole_append_shape r d : 0 <= r_log_last_index r -> r_log_last_index r + 1 < 4294967295 -> sole_voter r ->
  exists r1, leader_append_ r CETCD_ENTRY_NORMAL d =
    maybe_advance_commit_ (queue_hard_state_
      match log_at_ r1 (u64 (r_log_last_index r + 1)) with Some stored => queue_entry_ r1 stored | None => r1 end) /\
    (r_id r1 = r_id r /\ r_peers r1 = r_peers r /\ r_peer_learner r1 = r_peer_learner r /\ r_outgoing r1 = r_outgoing r) /\
    r_role r1 = r_role r /\ r_commit r1 = r_commit r /\ r_term r1 = r_term r /\ r_vote r1 = r_vote r /\
    r_pending_entries r1 = r_pending_entries r /\ r_pending_msgs r1 = r_pending_msgs r /\ r_applied r1 = r_applied r.
Proof.
  intros H0 Hb Hs.
  exists (log_append_ (r <| r_log_last_index := u64 (r_log_last_index r + 1) |> <| r_log_last_term := r_term r |>)
            (mk_entry (r_term r) (u64 (r_log_last_index r + 1)) CETCD_ENTRY_NORMAL d)).
  split.
  - assert (Hf : forall x, sole_voter x -> foldl (fun r i => if peer_at r i =? r_id r then r
        else if (MAX_PEERS_ <=? i)%nat then r else maybe_send_app_ r i) x (seq 0 (n_peers x)) = x).
    { intros x (Hx & _). unfold n_peers. rewrite Hx. cbn [length seq foldl]. unfold peer_at. rewrite Hx. cbn. by rewrite Z.eqb_refl. }
    unfold leader_append_. cbv zeta. rewrite Hf; [reflexivity|].
    match goal with |- sole_voter (queue_hard_state_ (match log_at_ ?x ?i with _ => _ end)) => assert (Hx : sole_voter x) end.
    { revert Hs. unfold sole_voter, log_append_. cbv zeta. destruct (_ <? _); cbn; by destruct (_ <? _). }
    by destruct (log_at_ _ _).
  - unfold log_append_. cbv zeta. cbn [r_log_cap field_set r_log_last_index e_index].
    destruct (r_log_cap r <? _); rewrite Z.ltb_irrefl; by split_and!.
Qed.

Lemma sole_advance x : sole_voter x -> r_role x = ROLE_LEADER -> r_commit x < r_log_last_index x ->
  log_term_at_ x (r_log_last_index x) = r_term x ->
  maybe_advance_commit_ x = queue_hard_state_ (x <| r_commit := r_log_last_index x |>).
Proof.
  intros Hs Hl Hc Ht. unfold maybe_advance_commit_. cbv zeta. fold (commit_target x).
  rewrite (sole_voter_target _ Hs), (sole_voter_incoming _ Hs), Hl, Ht, Z.eqb_refl, (proj2 (Z.ltb_lt _ _)) by done. done.
Qed.

Lemma sole_advance_queued r1 e : sole_voter r1 -> r_role r1 = ROLE_LEADER -> r_commit r1 < r_log_last_index r1 ->
  log_at_ r1 (r_log_last_index r1) = Some e -> e_term e = r_term r1 ->
  maybe_advance_commit_ (queue_hard_state_ (queue_entry_ r1 e)) =
  queue_hard_state_ ((queue_hard_state_ (queue_entry_ r1 e)) <| r_commit := r_log_last_index r1 |>).
Proof.
  intros Hs Hl Hc Hat Ht. apply (sole_advance (queue_hard_state_ (queue_entry_ r1 e))); [exact Hs|exact Hl|exact Hc|].
  change (log_term_at_ r1 (r_log_last_index r1) = r_term r1). unfold log_term_at_. rewrite Hat.
  destruct (Z.eqb_spec (r_log_last_index r1) 0) as [Hz|]; [|done]. by rewrite Hz in Hat.
Qed.

(** The fields of the node a proposal of a sole voter sets. *)
Lemma sole_append r d : log_ok r -> r_log_last_index r + 1 < 4294967295 -> r_commit r <= r_log_last_index r ->
  r_role r = ROLE_LEADER -> sole_voter r ->
  let r' := leader_append_ r CETCD_ENTRY_NORMAL d in
  let idx := r_log_last_index r + 1 in
  r_pending_entries r' = r_pending_entries r ++ [mk_entry (r_term r) idx CETCD_ENTRY_NORMAL d] /\
  r_pending_msgs r' = r_pending_msgs r /\ r_pending_hs r' = Some (mk_hard_state (r_term r) (r_vote r) idx) /\
  r_commit r' = idx /\ r_applied r' = r_applied r /\ r_outgoing r' = [] /\ r_role r' = ROLE_LEADER /\ r_term r' = r_term r.
Proof.
  intros Hok Hb Hc Hl Hs. pose proof (lo_last r Hok). cbv zeta.
  destruct (leader_append_log r CETCD_ENTRY_NORMAL d Hok Hb) as (_ & _ & Hlast & Hat).
  destruct (sole_append_shape r d ltac:(lia) Hb Hs) as (r1 & E1 & (Hid & Hp & Hle & Hou) & Hr1 & Hc1 & Ht1 & Hv1 & Hpe & Hpm & Ha1).
  rewrite (u64_small (r_log_last_index r + 1)) in E1 by (unfold in_u64; lia). rewrite E1 in *. clear E1.
  assert (Hs1 : sole_voter r1) by (unfold sole_voter; rewrite Hid, Hp, Hle, Hou; exact Hs).
  set (r2 := maybe_advance_commit_ _) in Hlast, Hat |- *.
  assert (Hl2 : lkey r2 = lkey r1).
  { subst r2. rewrite lkey_advance. by destruct (log_at_ r1 _). }
  assert (Hin : log_at_ r1 (r_log_last_index r + 1) = Some (mk_entry (r_term r) (r_log_last_index r + 1) CETCD_ENTRY_NORMAL d)).
  { pose proof (log_at_lkey r2 r1 (r_log_last_index r + 1) Hl2) as Hx. rewrite Hat, Z.eqb_refl in Hx. by rewrite <- Hx. }
  assert (Hl1 : r_log_last_index r1 = r_log_last_index r + 1).
  { rewrite <- Hlast. unfold lkey in Hl2. congruence. }
  assert (E2 : r2 = queue_hard_state_ ((queue_hard_state_ (queue_entry_ r1
      (mk_entry (r_term r) (r_log_last_index r + 1) CETCD_ENTRY_NORMAL d))) <| r_commit := r_log_last_index r1 |>)).
  { subst r2. rewrite Hin. apply sole_advance_queued; [done|congruence|lia|by rewrite Hl1|by rewrite Ht1]. }
  clearbody r2. subst r2. rewrite Hl1. clear Hat Hlast Hl2.
  destruct Hs as (_ & _ & Ho). unfold queue_hard_state_, queue_entry_.
  cbn [r_pending_entries r_pending_msgs r_pending_hs r_commit r_applied r_outgoing r_role r_term r_vote field_set].
  rewrite Hpe, Hpm, Ht1, Hv1, Ha1, Hou, Hr1. split_and!; done.
Qed.

Section Put.
  Context {T : Type -> Type} {E Tx : Type} `{!KeyIndex T, !KeyIndexLaws T, !Lmdb E Tx, !LmdbLaws E Tx, !Clock, !AuthLibs}.
  Context (backend_size : E -> Z).
  Local Notation world := (world T E).

(** A put does not look at the node or the server, and leaves them. *)
Definition with_node (x : option cetcd_raft) (y : cetcd_server) (w : world) : world := (w <| w_raft := x |>) <| w_server := y |>.

Lemma on_store_node {A} x y (w : world) (f : cetcd_mvcc_store T E -> cetcd_mvcc_store T E * A) :
  on_store (with_node x y w) f = (with_node x y (on_store w f).1, (on_store w f).2).
Proof. unfold on_store. cbn [w_store w_env with_node field_set]. by destruct (f _). Qed.

Lemma on_mgr_node {A} x y (w : world) (f : cetcd_lease_mgr E -> cetcd_lease_mgr E * A) :
  on_mgr (with_node x y w) f = (with_node x y (on_mgr w f).1, (on_mgr w f).2).
Proof. unfold on_mgr. cbn [w_mgr w_env with_node field_set]. by destruct (f _). Qed.

Lemma put_node x y (w : world) key val l :
  apply_put_ (with_node x y w) key val l = (with_node x y (apply_put_ w key val l).1, (apply_put_ w key val l).2).
Proof.
  unfold apply_put_. destruct (blen key =? 0); [done|]. change (key_lease (with_node x y w) key) with (key_lease w key).
  rewrite on_store_node. destruct (on_store w _) as [w1 rv]. cbn [fst snd]. destruct (rev_main rv <=? 0); [done|]. cbn [fst snd].
  unfold lease_after_put_. cbv zeta.
  destruct ((0 <? key_lease w key) && _); destruct (0 <? l); repeat (rewrite on_mgr_node; cbn [fst snd]); done.
Qed.

(** Without failures of the log file everything is written and synced. *)
Lemma persist_all sv enc rd : sv_wal_enc sv = Some enc -> enc_open enc = true -> sv_wal_io sv = [] ->
  persist_step sv rd =
    (sv <| sv_wal_enc := Some (mk_wal_encoder (persist_ready (enc_file enc) rd) true (persist_ready (enc_file enc) rd)) |>, true).
Proof.
  intros He Ho Hio. unfold persist_step. rewrite He.
  assert (Hw : forall sv enc f, sv_wal_enc sv = Some enc -> enc_open enc = true -> sv_wal_io sv = [] ->
    wal_write sv f = (sv <| sv_wal_enc := Some (mk_wal_encoder (f (enc_file enc)) true (enc_synced enc)) |>, true)).
  { intros sv0 enc0 f H1 H2 H3. unfold wal_write. rewrite H1, H2, H3. cbn. destruct sv0. cbn in *. by rewrite H3. }
  assert (Hes : forall es sv enc, sv_wal_enc sv = Some enc -> enc_open enc = true -> sv_wal_io sv = [] ->
    persist_entries sv es = (sv <| sv_wal_enc := Some (mk_wal_encoder (foldl cetcd_wal_encode_entry (enc_file enc) es) true (enc_synced enc)) |>, true)).
  { induction es as [|e es IH]; intros sv0 enc0 H1 H2 H3; cbn [persist_entries foldl].
    - destruct sv0, enc0. cbn in *. by subst.
    - rewrite (Hw sv0 enc0 _ H1 H2 H3). rewrite (IH _ (mk_wal_encoder (cetcd_wal_encode_entry (enc_file enc0) e) true (enc_synced enc0))); [|done|done|exact H3].
      by destruct sv0. }
  assert (Hsync : forall f g x, cetcd_wal_encoder_sync ((sv <| sv_wal_enc := f |>) <| sv_wal_enc := Some (mk_wal_encoder g true x) |>) =
    (sv <| sv_wal_enc := Some (mk_wal_encoder g true g) |>, true)).
  { intros f g x. unfold cetcd_wal_encoder_sync. destruct sv. cbn in *. by subst. }
  rewrite (Hes _ _ _ He Ho Hio). unfold persist_ready.
  destruct (rd_hard_state rd) as [hs|].
  - rewrite (Hw _ (mk_wal_encoder (foldl cetcd_wal_encode_entry (enc_file enc) (rd_entries rd)) true (enc_synced enc))); [|done|done|exact Hio].
    apply Hsync.
  - apply (Hsync None).
Qed.

(** A truncation that is not due. *)
Lemma truncate_not_due (w : world) r : w_raft w = Some r ->
  r_applied r < u64 (sv_last_snap_index (w_server w) + cetcd_snapshot_count_effective (sv_snapshot_count (w_server w))) ->
  maybe_snapshot_truncate_ w = w.
Proof.
  intros Hr Hd. unfold maybe_snapshot_truncate_. rewrite Hr. destruct (sv_wal_enc (w_server w)); [|done]. cbv zeta.
  unfold cetcd_raft_applied. rewrite (proj2 (Z.ltb_lt _ _) Hd). by rewrite orb_true_r.
Qed.

Lemma leave_joint_not_due (w : world) r : w_raft w = Some r -> r_outgoing r = [] -> maybe_propose_leave_joint_ w = (w, false).
Proof.
  intros Hr Ho. unfold maybe_propose_leave_joint_, cetcd_raft_in_joint. rewrite Hr, Ho. cbn. by rewrite orb_true_r.
Qed.

(** One entry, written and executed: what handling the Ready of a node does
    whose only committed entry not yet applied is the put [d]. *)
Lemma ready_put (w : world) r enc idx key val lease d :
  w_raft w = Some r -> sv_wal_enc (w_server w) = Some enc -> enc_open enc = true -> sv_wal_io (w_server w) = [] ->
  0 <= r_applied r -> idx = r_applied r + 1 -> r_commit r = idx -> idx < 2 ^ 64 - 1 -> r_outgoing r = [] ->
  cetcd_raft_entry_at r idx = Some (mk_entry (r_term r) idx CETCD_ENTRY_NORMAL d) -> r_pending_msgs r = [] ->
  idx < u64 (sv_last_snap_index (w_server w) + cetcd_snapshot_count_effective (sv_snapshot_count (w_server w))) ->
  command_fits (CPut key val lease) -> encode_command (CPut key val lease) = Some d ->
  exists w', process_ready_ w = Some w' /\
    w_store w' = w_store (apply_put_ w key val lease).1 /\ w_mgr w' = w_mgr (apply_put_ w key val lease).1 /\
    w_raft w' = Some ((cetcd_raft_set_applying (cetcd_raft_ready r).1 0) <| r_applied := idx |>) /\
    w_server w' = (w_server w) <| sv_wal_enc := Some (mk_wal_encoder (persist_ready (enc_file enc) (cetcd_raft_ready r).2) true (persist_ready (enc_file enc) (cetcd_raft_ready r).2)) |>.
Proof.
  intros Hr He Ho Hio Ha Hidx Hc Hb Hout Hat Hm Hsnap Hfit Henc.
  destruct (command_applies (apply_entry_inner_ (fun w _ => ret w (-1))) w _ Hfit) as (d' & Hd & Hshort & Hne & _ & _).
  rewrite Henc in Hd. apply Some_inj in Hd. subst d'.
  assert (Happly : forall w : world, cetcd_v3rpc_apply_entry w d = Some (apply_put_ w key val lease)).
  { intros w0. destruct (command_applies (apply_entry_inner_ (fun w _ => ret w (-1))) w0 _ Hfit) as (d' & Hd & _ & _ & _ & Hrun).
    rewrite Henc in Hd. apply Some_inj in Hd. subst d'. exact Hrun. }
  set (sv := (w_server w) <| sv_wal_enc := Some (mk_wal_encoder (persist_ready (enc_file enc) (cetcd_raft_ready r).2) true (persist_ready (enc_file enc) (cetcd_raft_ready r).2)) |>).
  set (r1 := (cetcd_raft_ready r).1).
  assert (Hseg : log_segment r1 (r_applied r + 1) (Z.to_nat (r_commit r - r_applied r)) =
    [(idx, mk_entry (r_term r) idx CETCD_ENTRY_NORMAL d)]).
  { replace (r_commit r - r_applied r) with 1 by lia. change (Z.to_nat 1) with 1%nat. rewrite segment_cons, <- Hidx.
    change (cetcd_raft_entry_at r1 idx) with (cetcd_raft_entry_at r idx). by rewrite Hat. }
  set (p := apply_put_ w key val lease) in *.
  assert (Hexec : exec_entries (with_node (Some r1) sv w) [(idx, mk_entry (r_term r) idx CETCD_ENTRY_NORMAL d)] =
    Some (with_node (Some (cetcd_raft_set_applying r1 0)) sv p.1)).
  { cbn [exec_entries exec_entry e_type e_data]. change (negb (CETCD_ENTRY_NORMAL =? CETCD_ENTRY_NORMAL)) with false. cbv iota zeta.
    rewrite (proj2 (Z.ltb_lt 0 (blen d))) by (unfold blen; destruct d; [done|cbn; lia]).
    change (set_applying (with_node (Some r1) sv w) idx) with (with_node (Some (cetcd_raft_set_applying r1 idx)) sv w).
    rewrite Happly, put_node. fold p. destruct p as [pw prc]. reflexivity. }
  assert (Hstep : ready_step w = Some (with_node (Some ((cetcd_raft_set_applying r1 0) <| r_applied := idx |>)) sv
    (p.1 <| w_env := persist_applied_ (sv_backend (w_server w)) (w_env p.1) idx |>))).
  { unfold ready_step. rewrite Hr. cbn [mbind option_bind]. rewrite (surjective_pairing (cetcd_raft_ready r)).
    rewrite (persist_all _ enc _ He Ho Hio). fold sv r1. change (rd_messages (cetcd_raft_ready r).2) with (r_pending_msgs r). rewrite Hm.
    cbn [foldl]. change ((w <| w_raft := Some r1 |>) <| w_server := sv |>) with (with_node (Some r1) sv w).
    rewrite (apply_committed_exec _ r1) by (done || (change (r_applied r1) with (r_applied r); lia)).
    change (r_commit r1) with (r_commit r). change (r_applied r1) with (r_applied r).
    destruct (Z.leb_spec (r_commit r) (r_applied r)); [lia|]. rewrite Hseg, Hexec. cbn [mbind option_bind w_raft with_node field_set].
    assert (Hadv : cetcd_raft_advance (cetcd_raft_set_applying r1 0) (cetcd_raft_ready r).2 = (cetcd_raft_set_applying r1 0) <| r_applied := idx |>).
    { unfold cetcd_raft_advance. change (rd_committed (cetcd_raft_ready r).2) with (r_commit r).
      change (r_applied (cetcd_raft_set_applying r1 0)) with (r_applied r). rewrite (proj2 (Z.ltb_lt _ _)), Hc by lia. done. }
    rewrite Hadv, Hc. f_equal. apply (truncate_not_due _ ((cetcd_raft_set_applying r1 0) <| r_applied := idx |>)); [done|exact Hsnap]. }
  eexists. split; [|split; [|split; [|split]]].
  - unfold process_ready_. rewrite Hstep. cbn [mbind option_bind].
    rewrite (leave_joint_not_due _ ((cetcd_raft_set_applying r1 0) <| r_applied := idx |>)) by done. reflexivity.
  - done.
  - done.
  - done.
  - done.
Qed.

(** C12: a put on a single-node server, from the proposal to the answer.  The
    leader of a cluster of one, with everything applied, no quota, a log whose
    writes succeed and no snapshot due, gets an encoded put that the store
    accepts: the entry with the next index and the hard state that commits it are
    appended to the log file and synced, the put is executed, so the key has the
    written row at the next revision and no other key changes, and the caller gets
    0 with the applied and the commit index at the new entry. *)
Theorem put_end_to_end (w : world) (r : cetcd_raft) (enc : cetcd_wal_encoder) (key val d : bytes) (lease : Z)
  (Hw : world_ok w) (Haccept : (apply_put_ w key val lease).2 = 0)
  (Hr : w_raft w = Some r) (Hlog : log_ok r) (Hs : sole_voter r) (Hl : r_role r = ROLE_LEADER)
  (Hlast : r_log_last_index r + 1 < 4294967295) (Hc : r_commit r = r_log_last_index r) (Ha : r_applied r = r_log_last_index r)
  (Hpe : r_pending_entries r = []) (Hpm : r_pending_msgs r = [])
  (He : sv_wal_enc (w_server w) = Some enc) (Ho : enc_open enc = true) (Hio : sv_wal_io (w_server w) = [])
  (Hsnap : r_log_last_index r + 1 < u64 (sv_last_snap_index (w_server w) + cetcd_snapshot_count_effective (sv_snapshot_count (w_server w))))
  (Hfit : command_fits (CPut key val lease)) (Henc : encode_command (CPut key val lease) = Some d) (Hq : w_quota w = 0) :
  let idx := r_log_last_index r + 1 in
  let log := cetcd_wal_encode_hard_state (cetcd_wal_encode_entry (enc_file enc) (mk_entry (r_term r) idx CETCD_ENTRY_NORMAL d))
               (mk_hard_state (r_term r) (r_vote r) idx) in
  exists w', cetcd_v3rpc_propose_or_apply backend_size process_ready_ w d = Some (w', 0) /\
    current (w_store w') = <[key := put_row (w_store w) key val lease]> (current (w_store w)) /\
    cetcd_mvcc_revision (w_store w') = cetcd_mvcc_revision (w_store w) + 1 /\
    w_mgr w' = w_mgr (apply_put_ w key val lease).1 /\
    (fun e => (enc_file e, enc_synced e)) <$> sv_wal_enc (w_server w') = Some (log, log) /\
    (fun r' => (r_applied r', r_commit r', r_log_last_index r')) <$> w_raft w' = Some (idx, idx, idx).
Proof.
  intros idx log. pose proof (lo_last r Hlog) as Hl0.
  assert (Hkey : key <> []) by (intros ->; discriminate Haccept). pose proof (apply_put_facts backend_size Some w key val lease Hw Hkey) as Hfacts.
  destruct (command_applies (apply_entry_inner_ (fun w _ => ret w (-1))) w _ Hfit) as (d' & Hd & Hshort & Hne & _ & _).
  rewrite Henc in Hd. apply Some_inj in Hd. subst d'.
  destruct (sole_append r d Hlog Hlast ltac:(lia) Hl Hs) as (H1 & H2 & H3 & H4 & H5 & H6 & H7 & Hterm).
  destruct (leader_append_log r CETCD_ENTRY_NORMAL d Hlog Hlast) as (_ & _ & H8 & H9).
  set (r' := leader_append_ r CETCD_ENTRY_NORMAL d) in *. fold idx in H1, H3, H4, H8, H9.
  assert (Hprop : cetcd_raft_propose r d = (r', 0)).
  { unfold cetcd_raft_propose, cetcd_raft_step. rewrite Hl. cbn [Raft.is_leader negb m_type field_set zero_msg m_context]. done. }
  destruct (ready_put (w <| w_raft := Some r' |>) r' enc idx key val lease d) as (w' & Hpr & Hst & Hmg & Hrf & Hsv); try done.
  { by rewrite H5, Ha; lia. }
  { by rewrite H5, Ha. }
  { lia. }
  { rewrite Hterm. change (log_at_ r' idx = Some (mk_entry (r_term r) idx CETCD_ENTRY_NORMAL d)). by rewrite H9, Z.eqb_refl. }
  { by rewrite H2. }
  exists w'. split.
  - unfold cetcd_v3rpc_propose_or_apply. rewrite blen_nonempty by done.
    assert (over_quota backend_size w d = false) as ->.
    { unfold over_quota. rewrite Hq. change (0 =? 0) with true. cbn [negb andb]. by rewrite andb_false_r. }
    unfold propose_entry. rewrite Hr. unfold is_leader, cetcd_raft_state. rewrite Hl. cbn [negb]. rewrite Hprop.
    change (negb (0 =? 0)) with false. cbv iota. rewrite Hpr. cbn [mbind option_bind]. rewrite Hrf.
    unfold cetcd_raft_applied, cetcd_raft_last_index. cbn [r_applied r_log_last_index field_set cetcd_raft_set_applying cetcd_raft_ready fst].
    rewrite H8, Z.ltb_irrefl. done.
  - assert (Hput : (apply_put_ (w <| w_raft := Some r' |>) key val lease).1 = with_node (Some r') (w_server w) (apply_put_ w key val lease).1).
    { replace (w <| w_raft := Some r' |>) with (with_node (Some r') (w_server w) w) by (by destruct w). by rewrite put_node. }
    rewrite Hst, Hmg, Hput, Hrf, Hsv. destruct (apply_put_ w key val lease) as [pw rc]. cbn [fst snd] in *.
    destruct Hfacts as (_ & _ & _ & [[Hrc _]|(_ & Hrev & Hcur)]); [done|]. split; [exact Hcur|]. split; [exact Hrev|]. split; [done|]. split.
    + cbn [sv_wal_enc field_set fmap option_fmap option_map enc_file enc_synced]. unfold persist_ready.
      change (rd_entries (cetcd_raft_ready r').2) with (r_pending_entries r'). change (rd_hard_state (cetcd_raft_ready r').2) with (r_pending_hs r').
      rewrite H1, H3, Hpe. cbn [app foldl]. done.
    + cbn [fmap option_fmap option_map r_applied r_commit r_log_last_index field_set cetcd_raft_set_applying cetcd_raft_ready fst].
      by rewrite H4, H8.
Qed.

End Put.
