(* ===== verification/ServerFindings.v ===== *)
(** * The server on concrete runs: witnesses and defects

    A single-node server over the in-memory LMDB, started from its data
    directory, restarted from what a run left in it, and with failing writes.
    The theorems of ServerProps.v and ServerPut.v are applied to it; the last
    part shows runs in which an acknowledged write is lost. *)

From Stdlib Require Import String.
From S2P Require Import Slice Hash KeyOrder Treap Hashmap Raft RaftWire RaftState RaftQuorum RaftLog RaftNode Wal Backend Mvcc MvccSnap MvccStore Lease LeaseProps LeaseRestart CString Auth AuthProps Cluster ClusterProps ApplyCodec Alarm Recovery Snap Config Apply ApplyCmd ApplyInv Expiry ApplyProps Server ServerStart ServerFrame ServerProps ServerPut Prelude.

#[local] Open Scope Z_scope.
#[local] Existing Instance sample_clock.
#[local] Existing Instance sample_libs.

(** A snapshot every [count] entries that keeps [keep] entries. *)
Definition node_cfg (count keep : Z) : cetcd_server_config :=
  mk_server_config 1 100 false None 0 0 None None false count (Some keep) [] false None None 0 false CETCD_AUTO_COMPACT_OFF 0 0 0.

Definition no_size (e : mem_env) : Z := 0.

(** A start from a storage environment and a log file. *)
Definition boot (cfg : cetcd_server_config) (env : mem_env) (wal : bytes) : option tworld :=
  '(w, t) ← cetcd_server_new cfg true env ∅ 0;
  '(w, _, rc) ← cetcd_server_start cfg w t true (Some (mk_data_dir wal None None));
  if is_ok rc then Some w else None.

Definition restart (cfg : cetcd_server_config) (w : tworld) : option tworld :=
  enc ← sv_wal_enc (w_server w); boot cfg (w_env w) (enc_file enc).

(** A command through the RPC layer, with the answer. *)
Definition propose (w : tworld) (c : command) : option (tworld * Z) :=
  d ← encode_command c; cetcd_v3rpc_propose_or_apply no_size process_ready_ w d.

(** The commands one after the other, while they are acknowledged. *)
Fixpoint propose_all (w : tworld) (cs : list command) : option tworld :=
  match cs with
  | [] => Some w
  | c :: cs => '(w, rc) ← propose w c; if rc =? 0 then propose_all w cs else None
  end.

Definition value_of (w : tworld) (key : bytes) : option bytes :=
  match cetcd_mvcc_get (w_store w) 0 key with (CETCD_OK, Some kv) => Some (kv_value kv) | _ => None end.

Definition empty_env : mem_env := mk_mem_env ∅ [].

(** The started server. *)
Definition booted : tworld := Eval vm_compute in default fresh_world (boot (node_cfg 100 10) empty_env []).

Lemma booted_run : boot (node_cfg 100 10) empty_env [] = Some booted.
Proof. vm_compute. reflexivity. Qed.

Definition booted_raft : cetcd_raft := Eval vm_compute in default empty_raft (w_raft booted).

Lemma booted_log_ok : log_ok booted_raft.
Proof.
  apply (log_ok_lkey (RaftNode.fresh (mk_config 1 10 1 0 0 false false))); [|apply fresh_invariants]. vm_compute. reflexivity.
Qed.

Definition booted_wal : cetcd_wal_encoder := Eval vm_compute in default (mk_wal_encoder [] false []) (sv_wal_enc (w_server booted)).

Definition put_a : command := CPut key_a [1] 0.
Definition put_a_entry : bytes := Eval vm_compute in default [] (encode_command put_a).

Lemma booted_ok : world_ok booted.
Proof.
  destruct (world_new_ok empty_env ∅ true true None None 0 1 no_server I) as [O1 O2 O3 O4 O5 O6 O7]. split; [exact O1|exact O2|exact O3|exact O4|exact O5|exact O6|split; constructor].
Qed.

Lemma put_end_to_end_witness :
  exists w', cetcd_v3rpc_propose_or_apply no_size process_ready_ booted put_a_entry = Some (w', 0) /\
    current (w_store w') = <[key_a := put_row (w_store booted) key_a [1] 0]> (current (w_store booted)) /\
    (fun r => (r_applied r, r_commit r, r_log_last_index r)) <$> w_raft w' = Some (1, 1, 1).
Proof.
  destruct (put_end_to_end no_size booted booted_raft booted_wal key_a [1] put_a_entry 0) as (w' & H1 & H2 & _ & _ & _ & H6).
  - exact booted_ok.
  - vm_compute. reflexivity.
  - reflexivity.
  - exact booted_log_ok.
  - split_and!; reflexivity.
  - reflexivity.
  - vm_compute. reflexivity.
  - reflexivity.
  - reflexivity.
  - reflexivity.
  - reflexivity.
  - reflexivity.
  - reflexivity.
  - reflexivity.
  - vm_compute. reflexivity.
  - cbn [command_fits]; unfold small, in_i64; repeat match goal with |- _ /\ _ => split end; try done; cbn; lia.
  - reflexivity.
  - reflexivity.
  - exists w'. split; [exact H1|]. split; [exact H2|exact H6].
Defined.

(** The server with a put proposed whose Ready is not yet handled. *)
Definition proposed : tworld := Eval vm_compute in
  booted <| w_raft := Some (cetcd_raft_propose booted_raft put_a_entry).1 |>.
Definition proposed_raft : cetcd_raft := Eval vm_compute in default empty_raft (w_raft proposed).
Definition handled : tworld := Eval vm_compute in default fresh_world (ready_step proposed).

Lemma handled_run : ready_step proposed = Some handled.
Proof. vm_compute. reflexivity. Qed.

Lemma ready_durable_witness :
  exists sv1 enc1 enc', persist_step (w_server proposed) (cetcd_raft_ready proposed_raft).2 = (sv1, true) /\ sv_wal_enc sv1 = Some enc1 /\
    sv_wal_enc (w_server handled) = Some enc' /\ enc_synced enc1 = enc_file enc1 /\ enc_synced enc' = enc_file enc'.
Proof.
  destruct (ready_durable proposed handled proposed_raft booted_wal) as (sv1 & ok & enc1 & enc' & Hp & He1 & He' & Hcase).
  - reflexivity.
  - reflexivity.
  - vm_compute. split; congruence.
  - vm_compute. congruence.
  - exact handled_run.
  - assert (ok = true) as -> by (apply (f_equal snd) in Hp; vm_compute in Hp; symmetry; exact Hp).
    destruct Hcase as (_ & Hs1 & _ & Hs'). exists sv1, enc1, enc'. split_and!; [exact Hp|exact He1|exact He'|exact Hs1|exact Hs'].
Defined.

Definition persisted_server : cetcd_server := Eval vm_compute in (persist_step (w_server proposed) (cetcd_raft_ready proposed_raft).2).1.

Lemma ready_executes_log_witness :
  exists w0 w1, exec_entries w0 (log_segment proposed_raft 1 1) = Some w1 /\ w_store handled = w_store w1 /\ app_same proposed w0.
Proof.
  destruct (ready_executes_log proposed handled proposed_raft persisted_server) as (w0 & w1 & Hs & _ & Hx & Hst & _).
  - reflexivity.
  - vm_compute. reflexivity.
  - by eexists.
  - vm_compute. split; congruence.
  - vm_compute. congruence.
  - exact handled_run.
  - exists w0, w1. split; [exact Hx|]. split; [exact Hst|exact Hs].
Defined.

(** ** States of the runs below *)

Definition world_or (o : option tworld) : tworld := default booted o.
Definition answer_or (o : option (tworld * Z)) : tworld := world_or (fst <$> o).
Definition wal_or (w : tworld) : cetcd_wal_encoder := default (mk_wal_encoder [] false []) (sv_wal_enc (w_server w)).

(** Three puts with a snapshot after them, a restart and a fourth put. *)
Definition truncated : tworld := Eval vm_compute in
  world_or (boot (node_cfg 3 2) empty_env [] ≫= (fun w => propose_all w [CPut key_a [1] 0; CPut key_b [2] 0; CPut [99] [3] 0])).
Definition truncated_restarted : tworld := Eval vm_compute in world_or (restart (node_cfg 3 2) truncated).
Definition truncated_put : tworld := Eval vm_compute in answer_or (propose truncated_restarted (CPut [100] [4] 0)).

(** The first append to the log fails. *)
Definition failing : tworld := booted <| w_server := (w_server booted) <| sv_wal_io := [Some 0%nat] |> |>.
Definition failed_once : tworld := Eval vm_compute in answer_or (propose failing put_a).
Definition failed_then_put : tworld := Eval vm_compute in answer_or (propose failed_once (CPut key_b [2] 0)).

(** A crash after the commands were executed. *)
Definition executed : tworld := Eval vm_compute in
  world_or (exec_entries (proposed <| w_server := persisted_server |>) (log_segment proposed_raft 1 1)).
Definition crashed_restarted : tworld := Eval vm_compute in world_or (boot (node_cfg 100 10) (w_env executed) (enc_file (wal_or executed))).

Definition grant_entry : bytes := Eval vm_compute in default [] (encode_command (CUserGrantRole alice reader)).
Definition high_key : tworld := Eval vm_compute in world_or (propose_all booted [CPut [255; 1] [7] 0; put_a]).

(** ** Defects *)

(** The log file is released down to the catch-up distance behind the applied
    index, but the released file holds no entries.  After a restart the log
    ends there, below the restored commit index: a new put gets an index that
    counts as applied, is acknowledged with 0 and never executed. *)
Theorem truncation_loses_acknowledged_put :
  boot (node_cfg 3 2) empty_env [] ≫= (fun w => propose_all w [CPut key_a [1] 0; CPut key_b [2] 0; CPut [99] [3] 0]) = Some truncated /\
  restart (node_cfg 3 2) truncated = Some truncated_restarted /\
  propose truncated_restarted (CPut [100] [4] 0) = Some (truncated_put, 0) /\
  value_of truncated_put [100] = None /\
  cetcd_mvcc_revision (w_store truncated_put) = cetcd_mvcc_revision (w_store truncated).
Proof. split_and!; vm_compute; reflexivity. Qed.

(** A failed append to the log drops the Ready: the put is answered with -1,
    but its entry stays committed in memory and is executed with the next
    Ready, although it never reached the log file. *)
Theorem failed_write_executes_later :
  propose failing put_a = Some (failed_once, -1) /\ value_of failed_once key_a = None /\
  propose failed_once (CPut key_b [2] 0) = Some (failed_then_put, 0) /\ value_of failed_then_put key_a = Some [1] /\
  sv_wal_enc (w_server failed_then_put) = Some (wal_or failed_then_put) /\
  (fun e => e_index <$> cetcd_wal_decode_entry (w_data e)) <$>
    List.filter (fun e => w_type e =? CETCD_WAL_ENTRY) (wal_read_file (enc_file (wal_or failed_then_put))).1 = [Some 2].
Proof. split_and!; vm_compute; reflexivity. Qed.

(** The applied index is stored after the commands of a Ready were executed
    and have changed the backend; a crash in between executes them again: one
    put leaves a key of version 2 at revision 2. *)
Theorem crash_executes_twice :
  exec_entries (proposed <| w_server := persisted_server |>) (log_segment proposed_raft 1 1) = Some executed /\
  boot (node_cfg 100 10) (w_env executed) (enc_file (wal_or executed)) = Some crashed_restarted /\
  cetcd_mvcc_get (w_store crashed_restarted) 0 key_a =
    (CETCD_OK, Some (mk_kv key_a [1] (mk_rev 1 0) (mk_rev 2 0) 2 0)) /\
  cetcd_mvcc_revision (w_store crashed_restarted) = 2.
Proof. split_and!; vm_compute; reflexivity. Qed.

(** With raft the outcome of the command is not passed on: granting a role to a
    user that does not exist fails when it is applied and is answered with 0.
    Without raft an applied entry is answered with 1. *)
Theorem apply_failure_answered_with_success :
  encode_command (CUserGrantRole alice reader) = Some grant_entry /\
  snd <$> cetcd_v3rpc_apply_entry booted grant_entry = Some (-1) /\
  snd <$> propose booted (CUserGrantRole alice reader) = Some 0 /\
  (fun wr => (value_of wr.1 key_a, wr.2)) <$> cetcd_v3rpc_propose_or_apply no_size process_ready_ (booted <| w_raft := None |>) put_a_entry
    = Some (Some [1], 1).
Proof. split_and!; vm_compute; reflexivity. Qed.

(** The range from the empty key to 0xff leaves out the keys that start with
    0xff: they are missing in the snapshot of the server and in the snapshot a
    peer gets. *)
Theorem snapshot_misses_high_keys :
  propose_all booted [CPut [255; 1] [7] 0; put_a] = Some high_key /\ value_of high_key [255; 1] = Some [7] /\
  map se_key (cetcd_server_snapshot high_key) = [key_a] /\
  map se_key <$> cetcd_snap_decode_kv (m_context (fill_snap_context_ high_key (zero_msg <| m_type := CETCD_MSG_SNAP |>)))
    = Some [key_a].
Proof. split_and!; vm_compute; reflexivity. Qed.

(** A follower whose log is not empty and ends before a snapshot refuses it:
    the compaction the installation is made of wants the index inside the log.
    The leader, which has compacted the entries, sends it again and again. *)
Theorem lagging_follower_refuses_snapshot r m : m_type m = CETCD_MSG_SNAP -> r_term r = m_term m -> is_follower (r_role r) = true ->
  r_log_compacted r <= r_log_last_index r -> 0 < r_log_last_index r < m_snapshot m ->
  let r' := (cetcd_raft_step r m).1 in
  r_commit r' = r_commit r /\ r_log_last_index r' = r_log_last_index r /\
  exists st, r_pending_msgs r' = r_pending_msgs r ++ [st] /\ m_type st = CETCD_MSG_SNAP_STATUS /\ m_reject st = 1.
Proof.
  intros Ht He Hf Hc Hl. unfold cetcd_raft_step. rewrite Ht. unfold handle_snap_. rewrite He, Z.ltb_irrefl.
  destruct (Z.eqb_spec (m_snapshot m) 0); [lia|]. rewrite Hf. cbn [r_log_compacted field_set].
  rewrite (proj2 (Z.ltb_lt _ _)) by lia. unfold cetcd_raft_compact. destruct (Z.eqb_spec (m_snapshot m) 0); [lia|].
  cbn [r_log_compacted r_log_last_index field_set]. destruct (Z.ltb_spec (m_snapshot m) (r_log_compacted r)); [lia|].
  destruct (Z.eqb_spec (r_log_last_index r) 0); [lia|]. rewrite (proj2 (Z.ltb_lt _ (m_snapshot m))) by lia. cbn [negb andb].
  split; [done|]. split; [done|]. by eexists.
Qed.
